(* ===== verification/_CoqProject ===== *)
-Q . S2P
Prelude.v
TkaTypes.v
TkaFixtures.v
TkaState.v
TkaFork.v
TkaChonk.v
TkaAuthority.v
TkaReplay.v
TkaRoots.v
TkaScenario.v
TkaInform.v
TkaFs.v
TkaSig.v
TkaBuilder.v
TkaSync.v
TkaCompact.v
TkaOpen.v
NetBuf.v
NetAddr.v
Packet.v
PacketHeaders.v
PacketTsmp.v
PacketIcmp6.v
PacketPanics.v
Disco.v
Flowtrack.v
FilterModel.v
FilterPolicy.v
FilterFlows.v
FilterAdmin.v
Shaper.v
GoState.v
GoStrings.v
NetConn.v
NoiseHandshake.v
NoiseAgree.v
NoiseConn.v
NoiseStream.v
NoiseSecure.v
Lru.v
LruRing.v
LruRefine.v
Limiter.v
LimiterRate.v
Stun.v
DerpServer.v
DerpInv.v
DerpOps.v
DerpSteps.v
DerpServing.v
DerpGone.v
DerpWire.v
DerpFrames.v
DerpQueue.v
DerpRelay.v
GoText.v
NetipParse.v
GoUrl.v
ControlUrl.v
ControlOrigin.v
AccountAuth.v
GoRegexp.v
Ota.v
UrlBuild.v
NetipWf.v
FilterRules.v
TextCanon.v
OtaUrl.v
OtaCanon.v
FileStore.v
OtaBackend.v
OtaDaemon.v
OtaInstall.v
UdpRelay.v
UdpRelayInv.v
UdpRelaySafe.v
UdpRelaySession.v
UdpRelayRuns.v
UdpRelayToy.v
UdpRelayService.v
