(* ===== verification/Prelude.v ===== *)
(** * A verification library for ScaleTail

    ScaleTail is a mesh VPN: nodes joined in a tailnet exchange WireGuard
    traffic under a policy that a coordination server distributes.  This library
    models the parts of it on which a node's security rests, those through which
    nodes find and reach each other, and the data structures they use:

    - the tailnet key authority ([src/tka]): a node does not take the
      coordination server's word for which node keys belong to the tailnet, but
      only that of keys it trusts, which a chain of signed update messages adds
      and removes;
    - the packet path ([src/net/packet], [src/net/ipset], [src/net/flowtrack],
      [src/wgengine/filter]): every packet that leaves the tunnel is decoded
      and judged by a packet filter, and the node builds packets of its own;
    - the connection to the coordination server ([src/control/controlbase]): a
      Noise handshake and the encrypted stream that follows it;
    - the relays ([src/derp]): a client sends packets addressed to a node key,
      and the server delivers them to a connection of that key, or to the relay
      of its region that has one;
    - the messages nodes exchange to find a direct path ([src/disco]), and the
      requests by which a node learns its public address ([src/net/stun]);
    - the traffic shaper of the TUN device ([src/net/tstun/traffic_shaper.go]),
      the LRU cache ([src/util/lru]) and the rate limiter ([src/util/limiter])
      that servers use;
    - ScaleTail's own additions: which URLs name a control server and when two
      name the same one ([src/internal/controlurl]), the account credential a
      node keeps for its server ([src/internal/accountauth]), the signed
      policies that announce or force updates ([src/clientupdate/scaletailota]),
      and the daemon that stores and enforces them
      ([src/ipn/ipnlocal/scaletail_update.go], with the state store of
      [src/ipn/store]) and installs updates ([src/ipn/localapi]).

    The packet filter calls the decoder, the IP sets and the flow cache; the
    key authority works against a storage interface, with an in-memory
    implementation; the rate limiter keeps its buckets in the LRU cache; the
    control connection runs on the keys that its handshake leaves; the relay's
    routing decisions are composed with its frames.

    ** Files

    - [Prelude]: outcomes of Go functions ([res]: a value, an error, a panic, or
      no fuel), the error monad, fixed-width integers ([u8], [u16], [u32]),
      slices, tactics and general lemmas.
    - [TkaTypes] ([aum.go], [key.go], [limits.go], types of [state.go] and
      [sig.go]): keys, update messages ([AUM]), node-key signatures and their
      static validation; the classes [TkaCrypto] and [TkaCryptoLaws].
      [TkaFixtures] and [TkaScenario] hold concrete data for the witnesses.
    - [TkaState] ([state.go]): the trusted state and [applyVerifiedAUM].
    - [TkaFork] ([AUM.Weight], [pickNextAUM], [advanceByPrimary]): which branch
      wins when updates fork.
    - [TkaChonk] ([tailchonk.go]): the storage interface as the class [Chonk],
      what it promises as [ChonkLaws] (a commit may fail half way), and [Mem],
      which keeps the promises and never fails.  [TkaFs] (the type [FS] of the same
      file): the storage on disk, whose writes may fail.
    - [TkaAuthority] ([tka.go], [verify.go]): the authority's operations, on the
      interface.  Theorems about them: [TkaReplay] and [TkaRoots] (states and chains
      computed from storage, and where they start), [TkaInform] (verification and updates), [TkaOpen] (opening
      storage, bootstrapping, retroactive revocation).
    - [TkaSig] ([sig.go], parts of [types/key]): signatures of node keys.
    - [TkaBuilder] ([builder.go]), [TkaSync] ([sync.go]), [TkaCompact] (the
      compaction of [tailchonk.go]).
    - [NetBuf], [NetAddr]: byte buffers, [net/netip], and [net/ipset].
    - [Packet] ([packet.go]): [Parsed] and the decoder.  [PacketHeaders]
      ([header.go], [ip4.go], [ip6.go], [udp4.go], [udp6.go], [icmp4.go]),
      [PacketIcmp6] ([icmp6.go]), [PacketTsmp] ([tsmp.go], [geneve.go]): the
      packets a node builds; the interface [Header] is a class.  [PacketPanics]:
      which accessors of a decoded packet return, and which do not.
    - [Disco] ([disco.go]): discovery messages.
    - [Flowtrack] ([flowtrack.go]): the LRU cache of flows.
    - [FilterModel] ([filter.go], [match.go], [filtertype.go],
      [slicesx.Partition]): the filter.  Theorems: [FilterPolicy] (the verdict),
      [FilterFlows] (the flow state), [FilterAdmin] (shields up, queries,
      capability grants).  [FilterRules] ([wgengine/filter/tailcfg.go]): the rules of the
      control server, their conversion, and what they mean.
    - [Shaper] ([traffic_shaper.go]): a step relation that interleaves the
      packet goroutines with [Configure] and [close].
    - [GoState], [GoStrings], [NetConn]: a monad for methods that change their
      receiver and may fail, strings as bytes, and a network connection that
      delivers its bytes in arbitrary pieces and whose calls may fail.
    - [NoiseHandshake] ([handshake.go], [messages.go]): both roles of the
      handshake, with the classes [NoiseCrypto] and [NoiseLaws]; theorems in
      [NoiseAgree].  [NoiseConn] ([conn.go]): the encrypted connection; its
      buffers in [NoiseStream], theorems in [NoiseSecure].
    - [Lru] ([lru.go]): the cache, entries being cells of a heap; [LruRing]
      relates the ring of pointers to a list, [LruRefine] has the theorem.
      [Limiter] and [LimiterRate] ([limiter.go]).
    - [Stun] ([stun.go]).
    - [DerpServer] ([derpserver.go]): the server's registry of connections,
      watchers and forwarders, and where packets go.  [DerpInv] and [DerpOps]
      show that the operations keep its invariant, [DerpSteps] interleaves them
      as a step relation; theorems in [DerpServing] and [DerpGone].  [DerpQueue]
      ([sendPkt], [sendLoop], [onSendLoopDone]): the send queues, on top of that
      relation, one channel operation per step.
    - [DerpWire] ([derp.go], [derp_client.go], the frame readers and writers of
      [derpserver.go]): frames, on a buffered reader and writer; [DerpFrames]
      and [DerpRelay] have the theorems.
    - [GoText], [GoRegexp], [NetipParse], [GoUrl]: what ScaleTail's code uses of
      [strings], [strconv], [encoding/base64], [regexp], [net/netip] and
      [net/url], written out from their documentation and sources; [TextCanon]
      and [UrlBuild] have their general laws, [NetipWf] those of parsed addresses.
    - [ControlUrl] ([controlurl.go], [accountauth.go]): control server URLs and
      the credential; theorems in [ControlOrigin] and [AccountAuth].
    - [Ota] ([manifest.go]): update policies; [OtaUrl] and [OtaCanon] have the
      theorems.
    - [UdpRelay] ([net/udprelay], [types/key/disco.go], the client's handshake in
      [wgengine/magicsock]): the relay for UDP paths, with the class [DiscoCrypto].
      [UdpRelayInv] interleaves its goroutines as a step relation and has the
      invariant of its registry, [UdpRelaySafe] what it forwards, [UdpRelaySession]
      a session of two clients, [UdpRelayRuns] identifiers, secrets and expiry,
      [UdpRelayToy] concrete runs.  [UdpRelayService]
      ([feature/relayserver/relayserver.go]): when a node runs a relay; the
      reader's batches.
    - [FileStore] ([stores.go], [ipn.WriteState]): the store, a cache in memory
      and a file that outlives the process.
    - [OtaBackend] ([scaletail_update.go] and the guards in [local.go]): the
      daemon's operations on the policy and on [WantRunning]; [OtaDaemon] runs
      them in any order, with restarts, and has the theorems.
    - [OtaInstall] ([scaletail_update_windows.go]): installing an
      update, and the policy over the local API.

    ** Correspondence

    A definition carries the name of the Go function or type it translates,
    with the type's name in front where two would clash ([IP4_Marshal] is
    [IP4Header.Marshal], [Mem_PurgeAUMs] is [Mem.PurgeAUMs]).  Loop bodies that
    the code writes inline have names of their own.  A method that changes its
    receiver returns the new value; a byte slice written in place is passed and
    returned; objects that are shared (the flow state of filters, list elements
    of the cache) are locations, or carry an identity.  Indexing and slicing out
    of range panics, as an outcome of its own.  Integers are [Z], with the
    wrap-around of their width written out where a value could exceed it.

    ** Parameters

    Code that is not part of the repository is a parameter with its documented
    behaviour as laws: BLAKE2s, ed25519, argon2 and the CBOR codec are the
    fields of [TkaCrypto] with laws [TkaCryptoLaws] (hashing is injective on
    what the code hashes, a decoder inverts its encoder, signatures verify);
    the primitives of the handshake are the fields of [NoiseCrypto] with laws
    [NoiseLaws] (Diffie-Hellman commutes, what is sealed opens, and only that),
    and theorems about an attacker assume in addition that the hash has no
    collisions or that no ciphertext was forged; the buffer pool of a connection is
    a function that returns buffers of the right length with any content; the
    contents of a relay's encrypted server-info frame are given by a function;
    the routing table of [github.com/gaissmai/bart] is a function whose law is
    that it contains the addresses its prefixes contain; the ranges of
    [go4.org/netipx] are [Netipx], whose law is that a range's prefixes cover
    exactly the range; what a rate limiter's
    [WaitN] may return is a relation; [semver], [ed25519.Verify] and the platform
    of an update are the fields of [OtaEnv], and Unicode's case tables those of
    [Unicode], with the law [UnicodeLaws] that lower-cased text has no capital
    letter (ASCII is written out); the JSON codecs of the daemon's state are
    [StoreCodec] and [UpdateCodec], with the law that ASCII text round-trips;
    path names of the platform and SHA-256 are [OtaSystem]; NaCl box and keyed
    BLAKE2s of the UDP relay are [DiscoCrypto] with laws [DiscoCryptoLaws], and its
    theorem about an attacker assumes that MACs do not collide and are not guessed.  [TkaTypes.Toy], [FilterPolicy.exactTable],
    [NoiseAgree.ToyNoise], [OtaCanon.plainText], [Ota.trustAll],
    [OtaDaemon.Toy], [UdpRelayToy.Toy] and [Shaper.sampleWaitN] instantiate them, so that the laws are known to be
    satisfiable and the witnesses evaluate.

    ** What the theorems show

    - Trust: no run of verified updates breaks the invariant of the trusted
      state, changes the authority's identity or leaves the tailnet without a
      trusted key ([verified_run_keeps_trust]); applying an update implements a map
      from key ids to keys ([applyVerifiedAUM_refines_trust]); an update is all
      or nothing, unless the store fails half way, and then a verified prefix of it
      is stored ([inform_all_or_nothing]); the fast path of [Inform] and a full
      replay agree, on a store in which no message waits for its parent, and that
      is preserved ([inform_tracks_active_chain]); nodes with
      the same messages choose the same branch and open the same authority.
    - Node keys: exactly which signature chains are accepted, and that a
      re-signed chain authorises the new key.
    - Storage: [Mem] refines an abstract store; compaction terminates and never
      deletes what determines the state at the head, nor a young message.
    - Builder and synchronisation: the messages built make the requested changes
      and verify; what is sent is the sender's active chain after a message the
      receiver has.
    - Packets: decoding arbitrary bytes never panics, reports what is on the
      wire and nothing of the packet decoded before; of the accessors of a decoded
      packet it is stated which return, and when the payload of one would be cut
      at an offset left by the packet before ([decoded_packet_accessors]); generated packets decode
      to what was asked for, with checksums that verify.  Discovery messages
      round-trip, and parsing them never panics.
    - Filter: for every packet the decoder delivers, the verdict is the policy
      of the code ([RunIn_implements_policy]), which differs from the documented
      one, as the theorem says, for rules by capability and packets without ports;
      it depends on the wire alone; replies to the
      node's own UDP and SCTP traffic get in; shields-up filters admit nothing
      unsolicited; queries and capability grants agree with the rules; and a TCP
      connection comes in exactly if the text of the control server's rules
      allows it ([connections_follow_filter_rules]).  The
      flow cache is an LRU cache of an abstract list.
    - Control connection: the two roles of the handshake complete and agree
      ([handshake_completes]), and two parties with the same handshake hash spoke
      to each other ([handshake_hash_binds]); nonces are never reused, an attacker
      can at most cut the stream short ([reads_are_authentic]), and everything
      written is read ([control_channel_delivers]).
    - Relay: in every state the server reaches, packets go to a connection of
      their key, watchers know who is connected, receivers are told of the first
      departure of a peer ([derp_tells_receivers]), the gauges are exact and nothing
      panics; frames round-trip; through the queues packets keep their bytes, their
      order and the key of their sender, and none is lost without a recorded reason
      ([derp_relays_packet]); and a client survives any bytes.
    - UDP relay: in every interleaving the two maps agree, identifiers are unique
      and the gauges exact ([relay_registry_consistent]); data is forwarded only
      between addresses that both clients proved to be theirs
      ([relay_forwards_only_proven]), if MACs neither collide nor are guessed; any
      two clients get a session, and keep it for as long as the endpoint is
      registered and neither answers from elsewhere ([relay_session_established]); no datagram makes the relay panic
      ([relay_survives_any_datagram]), but an allocation for a zero key does
      ([zero_key_panics]).
    - Address discovery: STUN messages round-trip and their parsers return.
    - Cache and limiter: the ring of pointers is a list in order of use, capped;
      in any window of time a new key gets its burst and one request per refill
      interval, a key seen before up to twice the burst less one in place of the
      burst ([limiter_bounds_rate], [idle_key_overruns_Max]), and with
      an overdraft nothing while it keeps asking too fast.
    - Control servers and accounts: the origin printed for a server decides
      whether two URLs have the same origin ([origins_are_canonical]); a credential
      is given out for its server only ([credential_stays_with_server]), and a late
      answer to an earlier request never replaces it
      ([account_latest_request_wins]).
    - Updates: the signed message determines the policy ([ota_message_binds]), what
      verified verifies again ([ota_verify_stable]), and a download URL is an HTTPS
      URL of a DNS name, in a canonical form ([ota_url_canonical]).  In every run
      of the daemon the stored policy is replaced only by a newer one
      ([ota_policy_never_rolls_back]), survives a crash
      ([ota_policy_survives_restart]), and while it forces an update the network
      stays down ([ota_forced_update_enforced]); what is installed are the signed
      bytes ([ota_installs_signed_bytes]).  The first three assume that the daemon's
      own writes of the policy to the state file succeeded, and the last of them that
      stopping the network was not refused; [ota_unsaved_policy_is_reported_saved] and
      [ota_refused_stop_is_not_retried] show what happens otherwise.
    - Shaper: in every interleaving the limits in force are the configured ones
      once a call is done, pacing accounts for every byte, and closing ends
      every wait.

    ** Fuel

    Loops bounded in the code take their bound as fuel ([maxScanIterations],
    [maxSyncIter], [maxSyncHeadIntersectionIter]), and running out is the error
    the code returns.  Loops the code leaves unbounded take fuel that theorems
    show sufficient: for compaction and for the search of a revocation's fork
    point, on any store whose parent links have no cycle, there is a bound (of
    the order of the messages stored and the length of their chains) from which
    on more fuel changes nothing; for the folding of a 32-bit checksum three
    rounds, of which two always suffice.  Loops over input take its length, and
    each round consumes some ([ReadFull], [plaintextLoop], [foreachAttr],
    [recvLoop]); a walk around the ring of the cache takes the number of entries.

    ** Not modelled

    Failures to read or remove the files of [FS] (those to write them are
    modelled), deep links, textual and wire
    forms of keys and sync offers; formatting of log lines (which entries are logged, and why, is
    modelled); the rate limiters' clocks (what they answer is an input of a
    run); locks (a filter's run takes its lock once, around one cache
    operation, so runs are interleaved as sequences of them).  The rest of the
    system is I/O around these parts (WireGuard and magicsock, control client,
    the IPN backend, DNS and firewall integration, command line and web
    clients), or generated declarations.  Of the relay, the login exchange,
    the verification of clients, TLS and metrics are not modelled.  Of the IPN
    backend only the path of [WantRunning] through its checks is: the other
    checks of preferences, system policies and the profile manager's decision to
    take new preferences are arguments, and the theorems hold for any. *)

From stdpp Require Export base gmap sets list strings option sorting.
From Stdlib Require Export ZArith Lia.

#[global] Open Scope Z_scope.

(** ** Go outcomes

    A Go function of type [(T, error)] either returns a value, returns an
    error, or panics.  Loops that the source leaves unbounded ([for { .. }])
    are translated with fuel; running out of it is a fourth outcome of its own,
    so that "the loop returns" is a statement that has to be proved. *)

(** The sentinel errors the code compares with [==], and every other error
    value, which carries its message.  [fmt.Errorf("..: %v", err)] and
    [%w] both build a value that is no longer [==] to the sentinel. *)
Inductive error :=
  | ErrNoSuchKey
  | ErrNotExist
  | ErrNoIntersection
  | Errorf (msg : string).

#[global] Instance error_eq_dec : EqDecision error.
Proof. solve_decision. Defined.

Inductive res (A : Type) :=
  | Ok (a : A)
  | Err (e : error)
  | Panic
  | NoFuel.
Arguments Ok {A} _.
Arguments Err {A} _.
Arguments Panic {A}.
Arguments NoFuel {A}.

#[global] Instance res_eq_dec {A} `{EqDecision A} : EqDecision (res A).
Proof. solve_decision. Defined.

#[global] Instance res_ret : MRet res := @Ok.
#[global] Instance res_bind : MBind res := fun A B f r =>
  match r with
  | Ok a => f a
  | Err e => Err e
  | Panic => Panic
  | NoFuel => NoFuel
  end.

(** [if err != nil { return fmt.Errorf(msg + ": %v", err) }] *)
Definition wrapf {A} (msg : string) (r : res A) : res A :=
  match r with
  | Err _ => Err (Errorf msg)
  | _ => r
  end.

(** [if bad { return errors.New(msg) }], for a function with no other result. *)
Definition fail_if (bad : bool) (msg : string) : res unit :=
  if bad then Err (Errorf msg) else Ok tt.

Definition is_ok {A} (r : res A) : bool :=
  match r with Ok _ => true | _ => false end.

(** The error part of a result, for code that inspects [err]. *)
Definition is_err {A} (r : res A) : bool :=
  match r with Err _ => true | _ => false end.

Lemma bind_Ok {A B} (r : res A) (f : A → res B) b :
  r ≫= f = Ok b ↔ ∃ a, r = Ok a ∧ f a = Ok b.
Proof. destruct r; cbn; naive_solver. Qed.

Lemma wrapf_Ok {A} m (r : res A) a : wrapf m r = Ok a ↔ r = Ok a.
Proof. destruct r; cbn; naive_solver. Qed.

Lemma wrapf_Err {A} m (r : res A) e :
  wrapf m r = Err e ↔ e = Errorf m ∧ ∃ e', r = Err e'.
Proof. destruct r; cbn; naive_solver. Qed.

Lemma fail_if_Ok b m u : fail_if b m = Ok u ↔ b = false.
Proof. destruct b, u; cbn; naive_solver. Qed.

Lemma is_ok_true {A} (r : res A) : is_ok r = true ↔ ∃ a, r = Ok a.
Proof. destruct r; cbn; naive_solver. Qed.

(** [for _, x := range l { if err := f(x); err != nil { return err } }] *)
Fixpoint for_each {A} (f : A → res unit) (l : list A) : res unit :=
  match l with
  | [] => Ok tt
  | x :: l => f x ≫= λ _, for_each f l
  end.

Lemma for_each_Ok {A} (f : A → res unit) l u :
  for_each f l = Ok u ↔ Forall (λ x, f x = Ok tt) l.
Proof.
  destruct u. induction l as [|x l IH]; cbn.
  - naive_solver.
  - rewrite bind_Ok, Forall_cons, <- IH. split; [intros ([] & ? & ?)|intros [? ?]]; eauto.
Qed.

(** [for _, x := range l { s, err = f(s, x) }], threading a state. *)
Fixpoint foldM {A S} (f : S → A → res S) (s : S) (l : list A) : res S :=
  match l with
  | [] => Ok s
  | x :: l => f s x ≫= λ s', foldM f s' l
  end.

Lemma foldM_app {A S} (f : S → A → res S) s l1 l2 :
  foldM f s (l1 ++ l2) = foldM f s l1 ≫= λ s', foldM f s' l2.
Proof.
  revert s; induction l1 as [|x l1 IH]; intros s; cbn; [done|].
  destruct (f s x); cbn; auto.
Qed.

(** An invariant of the step is an invariant of the loop. *)
Lemma foldM_invariant {A S} (f : S → A → res S) (P : S → Prop) (Q : A → Prop) :
  (∀ s x s', P s → Q x → f s x = Ok s' → P s') →
  ∀ l s s', P s → Forall Q l → foldM f s l = Ok s' → P s'.
Proof.
  intros Hstep l. induction l as [|x l IH]; cbn; intros s s' HP HQ Hf.
  - by inversion Hf; subst.
  - apply bind_Ok in Hf as (s1 & H1 & H2). inversion HQ; subst. eauto.
Qed.

(** ** Automation *)

Create HintDb scaletail.

Create Rewrite HintDb res.
#[export] Hint Rewrite @bind_Ok @wrapf_Ok @fail_if_Ok @for_each_Ok : res.

(** Break a hypothesis [computation = Ok v] into the facts about its parts. *)
Ltac res_inv_step :=
  match goal with
  | H : _ ≫= _ = Ok _ |- _ => apply bind_Ok in H as (? & ? & ?)
  | H : wrapf _ _ = Ok _ |- _ => apply wrapf_Ok in H
  | H : fail_if _ _ = Ok _ |- _ => apply fail_if_Ok in H
  | H : mret _ = Ok _ |- _ => injection H as H; try subst
  | H : Ok _ = Ok _ |- _ => injection H as H; try subst
  | H : Err _ = Ok _ |- _ => discriminate H
  | H : Panic = Ok _ |- _ => discriminate H
  | H : NoFuel = Ok _ |- _ => discriminate H
  | H : (if ?b then _ else _) = Ok _ |- _ => destruct b eqn:?
  | H : match ?x with _ => _ end = Ok _ |- _ => destruct x eqn:?
  end.
Ltac res_inv := repeat (res_inv_step; cbn [mbind res_bind] in *); try done.

(** Turn boolean tests of the code into propositions. *)
Ltac bool_prop :=
  repeat match goal with
  | H : _ && _ = true |- _ => apply andb_true_iff in H as [? ?]
  | H : _ || _ = false |- _ => apply orb_false_iff in H as [? ?]
  | H : negb _ = true |- _ => apply negb_true_iff in H
  | H : negb _ = false |- _ => apply negb_false_iff in H
  | H : bool_decide _ = true |- _ => apply bool_decide_eq_true in H
  | H : bool_decide _ = false |- _ => apply bool_decide_eq_false in H
  | H : (_ =? _) = true |- _ => apply Z.eqb_eq in H
  | H : (_ =? _) = false |- _ => apply Z.eqb_neq in H
  | H : (_ <=? _) = true |- _ => apply Z.leb_le in H
  | H : (_ <=? _) = false |- _ => apply Z.leb_gt in H
  | H : (_ <? _) = true |- _ => apply Z.ltb_lt in H
  | H : (_ <? _) = false |- _ => apply Z.ltb_ge in H
  end.

(** ** Byte slices

    A [[]byte] (and a fixed-size array) is a list of integers; that each is in
    [0, 255] is stated where a theorem needs it. *)
Abbreviation bytes := (list Z).

Definition zlen {A} (l : list A) : Z := Z.of_nat (length l).

Lemma zlen_nonneg {A} (l : list A) : 0 <= zlen l.
Proof. unfold zlen; lia. Qed.

(** [var a [n]byte; copy(a[:], src)]: at most [n] bytes are copied, and what is
    left of the array keeps its zeros. *)
Definition copy_array (n : nat) (src : bytes) : bytes :=
  take n src ++ replicate (n - length src)%nat 0.

Lemma copy_array_length n src : length (copy_array n src) = n.
Proof. unfold copy_array. rewrite length_app, length_take, length_replicate. lia. Qed.

Lemma copy_array_id n src : length src = n → copy_array n src = src.
Proof.
  intros <-. unfold copy_array. rewrite firstn_all, Nat.sub_diag. cbn. apply app_nil_r.
Qed.

(** [bytes.Compare]: lexicographic, a proper prefix is smaller. *)
Fixpoint bytes_Compare (a b : bytes) : comparison :=
  match a, b with
  | [], [] => Eq
  | [], _ :: _ => Lt
  | _ :: _, [] => Gt
  | x :: a, y :: b =>
      match x ?= y with
      | Eq => bytes_Compare a b
      | c => c
      end
  end.

Lemma bytes_Compare_eq a b : bytes_Compare a b = Eq ↔ a = b.
Proof.
  revert b; induction a as [|x a IH]; intros [|y b]; cbn; try done.
  destruct (Z.compare_spec x y); subst; rewrite ?IH; split; intros; simplify_eq; auto; lia.
Qed.

Lemma bytes_Compare_antisym a b : bytes_Compare b a = CompOpp (bytes_Compare a b).
Proof.
  revert b; induction a as [|x a IH]; intros [|y b]; cbn; try done.
  rewrite (Z.compare_antisym x y). destruct (x ?= y); cbn; auto.
Qed.

Lemma bytes_Compare_trans a b c :
  bytes_Compare a b = Lt → bytes_Compare b c = Lt → bytes_Compare a c = Lt.
Proof.
  revert b c; induction a as [|x a IH]; intros [|y b] [|z c]; cbn; try done.
  intros H1 H2.
  destruct (Z.compare_spec x y), (Z.compare_spec y z), (Z.compare_spec x z);
    subst; try done; try lia; eauto.
Qed.

(** ** Machine integers *)
Definition u8 (z : Z) : Z := z mod 2 ^ 8.
Definition u16 (z : Z) : Z := z mod 2 ^ 16.
Definition u32 (z : Z) : Z := z mod 2 ^ 32.
Definition u64 (z : Z) : Z := z mod 2 ^ 64.

Lemma u64_small z : 0 <= z < 2 ^ 64 → u64 z = z.
Proof. apply Z.mod_small. Qed.

(** ** Loops over a slice with its index: [for i, x := range l] *)
Definition indexed {A} (l : list A) : list (nat * A) := imap pair l.

Lemma Forall_indexed {A} (P : nat * A → Prop) (l : list A) :
  Forall P (indexed l) ↔ ∀ i x, l !! i = Some x → P (i, x).
Proof.
  unfold indexed. rewrite Forall_forall. split.
  - intros H i x Hi. apply H, elem_of_lookup_imap. eauto.
  - intros H p (i & y & -> & ?)%elem_of_lookup_imap. auto.
Qed.

(** The quadratic duplicate check
    [for i, x := range l { for j, y := range l { if i == j { continue }; if x == y {..} } }]. *)
Lemma no_duplicate_pairs {A} (l : list A) :
  (∀ i x j y, l !! i = Some x → l !! j = Some y → i ≠ j → x ≠ y) ↔ NoDup l.
Proof.
  rewrite NoDup_alt. split.
  - intros H i j x Hi Hj. destruct (decide (i = j)); [done|]. exfalso. by eapply (H i x j x).
  - intros H i x j y Hi Hj Hne ->. apply Hne. eauto.
Qed.

(** ** [sort.Slice]

    Insertion sort with the comparator of the code.  The comparator may panic,
    so it runs in [res].  Only the contract of [sort.Slice] is used below: the
    result is a permutation sorted by the comparator. *)
Section SortSlice.
Context {A : Type}.

Fixpoint insertM (less : A → A → res bool) (x : A) (l : list A) : res (list A) :=
  match l with
  | [] => Ok [x]
  | y :: l' =>
      b ← less x y;
      if (b : bool) then Ok (x :: y :: l')
      else rest ← insertM less x l'; Ok (y :: rest)
  end.

Fixpoint sort_Slice (less : A → A → res bool) (l : list A) : res (list A) :=
  match l with
  | [] => Ok []
  | x :: l' => s ← sort_Slice less l'; insertM less x s
  end.

Lemma insertM_perm less x l l' : insertM less x l = Ok l' → l' ≡ₚ x :: l.
Proof.
  revert l'. induction l as [|y l IH]; intros l' Hi; cbn in Hi; [by simplify_eq|].
  apply bind_Ok in Hi as (b & _ & Hi). destruct b; [by simplify_eq|].
  apply bind_Ok in Hi as (r & Hr & Hi). simplify_eq. rewrite (IH _ Hr). constructor.
Qed.

Lemma sort_Slice_perm less l l' : sort_Slice less l = Ok l' → l' ≡ₚ l.
Proof.
  revert l'. induction l as [|x l IH]; intros l' Hl; cbn in Hl; [by simplify_eq|].
  apply bind_Ok in Hl as (s & Hs & Hl). by rewrite (insertM_perm _ _ _ _ Hl), (IH _ Hs).
Qed.

(** On elements where the comparator returns (says [lt]), the sort returns. *)
Section Pure.
Context (less : A → A → res bool) (lt : A → A → bool) (D : A → Prop).
Hypothesis less_lt : ∀ x y, D x → D y → less x y = Ok (lt x y).
Hypothesis lt_trans : ∀ x y z, D x → D y → D z →
  lt y x = false → lt z y = false → lt z x = false.
Hypothesis lt_asym : ∀ x y, D x → D y → lt x y = true → lt y x = false.

Let le (x y : A) : Prop := lt y x = false.

Lemma insertM_sorted x l :
  D x → Forall D l → StronglySorted le l →
  ∃ l', insertM less x l = Ok l' ∧ l' ≡ₚ x :: l ∧ StronglySorted le l'.
Proof using less_lt lt_trans lt_asym.
  intros Hx. induction l as [|y l IH]; intros Hl Hs; cbn.
  - exists [x]. split_and!; [done..|]. by repeat constructor.
  - inversion Hl; subst. apply StronglySorted_inv in Hs as [Hs Hy].
    rewrite less_lt by done. cbn. destruct (lt x y) eqn:E.
    + exists (x :: y :: l). split_and!; [done..|]. constructor; [by constructor|].
      constructor; [by apply lt_asym|]. rewrite Forall_forall in Hy |- *. intros z Hz.
      assert (D z) by (by eapply (Forall_forall D l)).
      apply (lt_trans x y z); auto. by apply Hy.
    + destruct IH as (l' & -> & Hp & Hs'); [done..|]. exists (y :: l'). cbn. split_and!; [done| |].
      * rewrite Hp. constructor.
      * constructor; [done|]. rewrite Hp. by constructor.
Qed.

Lemma sort_Slice_sorted l :
  Forall D l → ∃ l', sort_Slice less l = Ok l' ∧ l' ≡ₚ l ∧ StronglySorted le l'.
Proof using less_lt lt_trans lt_asym.
  induction l as [|x l IH]; intros Hl; cbn.
  - exists []. split_and!; [done..|constructor].
  - inversion Hl; subst. destruct IH as (s & -> & Hp & Hs); [done|]. cbn.
    destruct (insertM_sorted x s) as (l' & -> & Hp' & Hs'); [done|by rewrite Hp|done|].
    exists l'. split_and!; [done|by rewrite Hp', Hp|done].
Qed.
End Pure.
End SortSlice.

(** ** Sums over a list, in [N] *)
Definition nsum {A} (f : A → N) (l : list A) : N := foldr (λ x acc, (f x + acc)%N) 0%N l.
Arguments nsum : simpl never.

Lemma nsum_cons {A} (f : A → N) x l : nsum f (x :: l) = (f x + nsum f l)%N.
Proof. done. Qed.

Lemma nsum_ext {A} (f g : A → N) l : (∀ x, x ∈ l → f x = g x) → nsum f l = nsum g l.
Proof.
  induction l as [|x l IH]; intros Hf; [done|]. rewrite !nsum_cons, Hf, IH; set_solver.
Qed.

Lemma nsum_add {A} (f g : A → N) l : nsum (λ x, (f x + g x)%N) l = (nsum f l + nsum g l)%N.
Proof. induction l as [|x l IH]; [done|]. rewrite !nsum_cons, IH. lia. Qed.

Lemma nsum_zero {A} (l : list A) : nsum (λ _, 0%N) l = 0%N.
Proof. induction l; [done|]. rewrite nsum_cons. lia. Qed.

Lemma nsum_bound {A} (f : A → N) l b :
  (∀ x, x ∈ l → (f x <= b)%N) → (nsum f l <= N.of_nat (length l) * b)%N.
Proof.
  induction l as [|x l IH]; intros Hf; [done|]. rewrite nsum_cons. cbn [length].
  specialize (IH ltac:(set_solver)). specialize (Hf x ltac:(set_solver)). lia.
Qed.

Lemma bytes_Compare_refl a : bytes_Compare a a = Eq.
Proof. by apply bytes_Compare_eq. Qed.

Lemma bytes_Compare_Gt_Lt a b : bytes_Compare a b = Gt ↔ bytes_Compare b a = Lt.
Proof. rewrite (bytes_Compare_antisym a b). destruct (bytes_Compare a b); cbn; naive_solver. Qed.

Lemma bytes_Compare_le_trans a b c :
  bytes_Compare a b ≠ Gt → bytes_Compare b c ≠ Gt → bytes_Compare a c ≠ Gt.
Proof.
  intros H1 H2. destruct (bytes_Compare a b) eqn:E1; [|clear H1|done].
  - apply bytes_Compare_eq in E1 as ->. done.
  - destruct (bytes_Compare b c) eqn:E2; [| |done].
    + apply bytes_Compare_eq in E2 as ->. by rewrite E1.
    + by rewrite (bytes_Compare_trans _ _ _ E1 E2).
Qed.

Lemma filter_all {A} (P : A → Prop) `{∀ x, Decision (P x)} (l : list A) :
  (∀ x, x ∈ l → P x) → filter P l = l.
Proof.
  induction l as [|x l IH]; intros HP; [done|].
  rewrite filter_cons_True by set_solver. f_equal. apply IH. set_solver.
Qed.

Lemma bytes_Compare_ge_trans a b c :
  bytes_Compare b a ≠ Lt → bytes_Compare c b ≠ Lt → bytes_Compare c a ≠ Lt.
Proof.
  rewrite <- !bytes_Compare_Gt_Lt. intros. by eapply bytes_Compare_le_trans.
Qed.

(** [bytes.Compare(a, b) < 0], as the code writes it. *)
Lemma cmp_lt_false (c : comparison) : (match c with Lt => true | _ => false end) = false ↔ c ≠ Lt.
Proof. destruct c; naive_solver. Qed.

Lemma forallb_elem {A} (f : A → bool) l x : forallb f l = true → x ∈ l → f x = true.
Proof. rewrite forallb_forall. intros Hf Hx%list_elem_of_In. auto. Qed.
