(* ===== verification/TkaTypes.v ===== *)
(** * Tailnet key authority: data types, limits and static validation

    Models [src/tka/key.go], [src/tka/limits.go], the type declarations of
    [src/tka/state.go], [src/tka/aum.go] and [src/tka/sig.go], and their
    [StaticValidate] methods.  The CBOR codec, BLAKE2s, ed25519 and argon2 are
    code of other modules: they are the fields of the class [TkaCrypto], and
    what the code relies on is the class [TkaCryptoLaws]. *)

From S2P Require Import Prelude.

Abbreviation KeyID_t := bytes.
Abbreviation AUMHash := bytes.
Abbreviation metadata := (gmap string string).

(** ** Limits (limits.go) *)
Definition maxDisablementValues : Z := 32.
Definition maxKeys : Z := 512.
Definition maxMetaBytes : Z := 512.
Definition maxSyncIter : nat := 2000.
Definition maxSyncHeadIntersectionIter : nat := 400.
Definition maxScanIterations : nat := 2000.
Definition disablementLength : Z := 32.
Definition ed25519_PublicKeySize : Z := 32.
Definition ed25519_SignatureSize : Z := 64.

(** ** Keys (key.go) *)

(** [KeyKind] is a [uint8]: [KeyUnknown n] is any other value. *)
Inductive KeyKind := KeyInvalid | Key25519 | KeyUnknown (n : Z).
#[global] Instance KeyKind_eq_dec : EqDecision KeyKind.
Proof. solve_decision. Defined.

(** Fields of type [uint] are of type [N]. *)
Record Key := mkKey {
  Kind : KeyKind;
  Votes : N;
  Public : bytes;
  Meta : option metadata
}.
#[global] Instance Key_eq_dec : EqDecision Key.
Proof. solve_decision. Defined.

Definition Key_Clone (k : Key) : Key :=
  {| Kind := Kind k; Votes := Votes k; Public := Public k;
     Meta := match Meta k with
             | Some m => Some (map_fold (λ key v out, <[key := v]> out) ∅ m)
             | None => None
             end |}.

Definition Key_ID (k : Key) : res KeyID_t :=
  match Kind k with
  | Key25519 => Ok (Public k)
  | _ => Err (Errorf "unknown key kind")
  end.

Definition string_len (s : string) : Z := Z.of_nat (String.length s).

Definition metaBytes (m : option metadata) : Z :=
  match m with
  | Some m => map_fold (λ k v acc, acc + string_len k + string_len v) 0 m
  | None => 0
  end.

Definition Key_StaticValidate (k : Key) : res unit :=
  fail_if (4096 <? Votes k)%N "excessive key weight" ≫= λ _,
  fail_if (Votes k =? 0)%N "key votes must be non-zero" ≫= λ _,
  fail_if (maxMetaBytes <? metaBytes (Meta k)) "key metadata too big" ≫= λ _,
  match Kind k with
  | Key25519 => Ok tt
  | _ => Err (Errorf "unrecognized key kind")
  end.

(** ** Authority state (state.go) *)
Record State := mkState {
  LastAUMHash : option AUMHash;
  DisablementValues : list bytes;
  Keys : list Key;
  StateID1 : N;
  StateID2 : N
}.
#[global] Instance State_eq_dec : EqDecision State.
Proof. solve_decision. Defined.

(** [State{}] *)
Definition State_zero : State :=
  {| LastAUMHash := None; DisablementValues := []; Keys := [];
     StateID1 := 0%N; StateID2 := 0%N |}.

(** The body of the two inner loops over keys: both ids must exist and differ. *)
Definition checkKeyPair (i j : nat) (k k2 : Key) : res unit :=
  if decide (i = j) then Ok tt
  else
    id1 ← wrapf "key[i]" (Key_ID k);
    id2 ← wrapf "key[j]" (Key_ID k2);
    fail_if (bool_decide (id1 = id2)) "key[i]: duplicates key[j]".

Definition staticValidateCheckpoint (s : State) : res unit :=
  fail_if (bool_decide (is_Some (LastAUMHash s))) "cannot specify a parent AUM" ≫= λ _,
  fail_if (zlen (DisablementValues s) =? 0) "at least one disablement secret required" ≫= λ _,
  fail_if (maxDisablementValues <? zlen (DisablementValues s)) "too many disablement values" ≫= λ _,
  for_each (λ '(i, ds),
      fail_if (negb (zlen ds =? disablementLength)) "disablement[i]: invalid length" ≫= λ _,
      for_each (λ '(j, ds2),
          if decide (i = j) then Ok tt
          else fail_if (bool_decide (ds = ds2)) "disablement[i]: duplicates disablement[j]")
        (indexed (DisablementValues s)))
    (indexed (DisablementValues s)) ≫= λ _,
  fail_if (zlen (Keys s) =? 0) "at least one key is required" ≫= λ _,
  fail_if (maxKeys <? zlen (Keys s)) "too many keys" ≫= λ _,
  for_each (λ k, wrapf "key[i]" (Key_StaticValidate k)) (Keys s) ≫= λ _,
  for_each (λ '(i, k),
      for_each (λ '(j, k2), checkKeyPair i j k k2) (indexed (Keys s)))
    (indexed (Keys s)).

(** ** Authority update messages (aum.go) *)
Inductive AUMKind :=
  | AUMInvalid | AUMAddKey | AUMRemoveKey | AUMNoOp | AUMUpdateKey | AUMCheckpoint
  | AUMUnknown (n : Z).
#[global] Instance AUMKind_eq_dec : EqDecision AUMKind.
Proof. solve_decision. Defined.

(** [tkatype.Signature] *)
Record AUMSignature := mkAUMSignature { sig_KeyID : bytes; sig_Signature : bytes }.
#[global] Instance AUMSignature_eq_dec : EqDecision AUMSignature.
Proof. solve_decision. Defined.

(** Fields that the code compares with [nil] are options; a pointer is an option
    of what it points to. *)
Record AUM := mkAUM {
  MessageKind : AUMKind;
  PrevAUMHash : option bytes;
  aum_Key : option Key;
  aum_KeyID : option KeyID_t;
  aum_State : option State;
  aum_Votes : option N;
  aum_Meta : option metadata;
  Signatures : list AUMSignature
}.
#[global] Instance AUM_eq_dec : EqDecision AUM.
Proof. solve_decision. Defined.

(** [len(s)] of a slice that may be nil. *)
Definition opt_bytes (o : option bytes) : bytes := default [] o.

Definition AUM_StaticValidate (a : AUM) : res unit :=
  match aum_Key a with Some k => Key_StaticValidate k | None => Ok tt end ≫= λ _,
  fail_if (bool_decide (PrevAUMHash a = Some []))
    "absent parent must be represented by a nil slice" ≫= λ _,
  for_each (λ sig,
      fail_if (negb (zlen (sig_KeyID sig) =? 32)
               || negb (zlen (sig_Signature sig) =? ed25519_SignatureSize))
        "signature has missing keyID or malformed signature")
    (Signatures a) ≫= λ _,
  match aum_State a with
  | Some s => wrapf "checkpoint state" (staticValidateCheckpoint s)
  | None => Ok tt
  end ≫= λ _,
  match MessageKind a with
  | AUMAddKey =>
      fail_if (bool_decide (aum_Key a = None)) "AddKey AUMs must contain a key" ≫= λ _,
      fail_if (bool_decide (is_Some (aum_KeyID a)) || bool_decide (is_Some (aum_State a))
               || bool_decide (is_Some (aum_Votes a)) || bool_decide (is_Some (aum_Meta a)))
        "AddKey AUMs may only specify a Key"
  | AUMRemoveKey =>
      fail_if (zlen (opt_bytes (aum_KeyID a)) =? 0) "RemoveKey AUMs must specify a key ID" ≫= λ _,
      fail_if (bool_decide (is_Some (aum_Key a)) || bool_decide (is_Some (aum_State a))
               || bool_decide (is_Some (aum_Votes a)) || bool_decide (is_Some (aum_Meta a)))
        "RemoveKey AUMs may only specify a KeyID"
  | AUMUpdateKey =>
      fail_if (zlen (opt_bytes (aum_KeyID a)) =? 0) "UpdateKey AUMs must specify a key ID" ≫= λ _,
      fail_if (bool_decide (aum_Meta a = None) && bool_decide (aum_Votes a = None))
        "UpdateKey AUMs must contain an update to votes or key metadata" ≫= λ _,
      fail_if (bool_decide (is_Some (aum_Key a)) || bool_decide (is_Some (aum_State a)))
        "UpdateKey AUMs may only specify KeyID, Votes, and Meta"
  | AUMCheckpoint =>
      fail_if (bool_decide (aum_State a = None)) "Checkpoint AUMs must specify the state" ≫= λ _,
      fail_if (bool_decide (is_Some (aum_KeyID a)) || bool_decide (is_Some (aum_Key a))
               || bool_decide (is_Some (aum_Votes a)) || bool_decide (is_Some (aum_Meta a)))
        "Checkpoint AUMs may only specify State"
  | _ => Ok tt
  end.

(** [Parent]: the hash array is filled with what the slice has. *)
Definition Parent (a : AUM) : option AUMHash :=
  match PrevAUMHash a with
  | Some (x :: h) => Some (copy_array 32 (x :: h))
  | _ => None
  end.

(** ** Node-key signatures (sig.go) *)
Inductive SigKind_t :=
  | SigInvalid | SigDirect | SigRotation | SigCredential | SigUnknown (n : Z).
#[global] Instance SigKind_eq_dec : EqDecision SigKind_t.
Proof. solve_decision. Defined.

Inductive NodeKeySignature := mkNKS {
  SigKind : SigKind_t;
  Pubkey : bytes;
  nks_KeyID : bytes;
  Signature : bytes;
  Nested : option NodeKeySignature;
  WrappingPubkey : bytes
}.

(** ** Code outside the repository *)

(** The CBOR encoding of the two structures, its decoder, and the cryptographic
    primitives.  An ed25519 private key is represented by the function's first
    argument of [ed25519_Sign]. *)
Class TkaCrypto := {
  cbor_AUM : AUM → bytes;
  cbor_NKS : NodeKeySignature → bytes;
  cbor_NKS_decode : bytes → option NodeKeySignature;
  blake2s_Sum256 : bytes → bytes;
  (** [Verify pub digest sig] *)
  ed25519_Verify : bytes → bytes → bytes → bool;
  ed25519consensus_Verify : bytes → bytes → bytes → bool;
  ed25519_Sign : bytes → bytes → bytes;
  (** [argon2.Key(secret, disablementSalt, 4, 16*1024, 4, 32)] *)
  argon2_Key : bytes → bytes
}.

(** What the code relies on: a digest has 32 bytes ([[blake2s.Size]byte]). *)
Class TkaCryptoLaws `{TkaCrypto} : Prop := {
  Sum256_length b : length (blake2s_Sum256 b) = 32%nat
}.

Section Digests.
Context `{TkaCrypto}.

Definition AUM_Hash (a : AUM) : AUMHash := blake2s_Sum256 (cbor_AUM a).

Definition AUM_SigHash (a : AUM) : bytes :=
  let dupe := {| MessageKind := MessageKind a; PrevAUMHash := PrevAUMHash a;
                 aum_Key := aum_Key a; aum_KeyID := aum_KeyID a; aum_State := aum_State a;
                 aum_Votes := aum_Votes a; aum_Meta := aum_Meta a; Signatures := [] |} in
  blake2s_Sum256 (cbor_AUM dupe).

Definition NKS_Serialize (s : NodeKeySignature) : bytes := cbor_NKS s.

Definition NKS_Unserialize (data : bytes) : res NodeKeySignature :=
  match cbor_NKS_decode data with
  | Some s => Ok s
  | None => Err (Errorf "cbor")
  end.

Definition NKS_SigHash (s : NodeKeySignature) : bytes :=
  let dupe := {| SigKind := SigKind s; Pubkey := Pubkey s; nks_KeyID := nks_KeyID s;
                 Signature := []; Nested := Nested s; WrappingPubkey := WrappingPubkey s |} in
  blake2s_Sum256 (NKS_Serialize dupe).

End Digests.

(** ** What static validation establishes *)

(** A key that [Key.StaticValidate] accepts. *)
Record Key_valid (k : Key) : Prop := {
  key_kind : Kind k = Key25519;
  key_votes : (1 <= Votes k <= 4096)%N;
  key_meta : metaBytes (Meta k) <= maxMetaBytes
}.

Lemma Key_StaticValidate_spec k : Key_StaticValidate k = Ok tt ↔ Key_valid k.
Proof.
  unfold Key_StaticValidate. rewrite !bind_Ok. split.
  - intros (? & H1 & (? & H2 & (? & H3 & H4)%bind_Ok)%bind_Ok). res_inv. bool_prop.
    split; [done| |done]. split; [|by apply N.ltb_ge].
    apply N.eqb_neq in H2. lia.
  - intros [Hk Hv Hm]. exists tt. rewrite fail_if_Ok.
    split; [apply N.ltb_ge; lia|]. rewrite bind_Ok. exists tt. rewrite fail_if_Ok.
    split; [apply N.eqb_neq; lia|]. rewrite bind_Ok. exists tt. rewrite fail_if_Ok.
    split; [by apply Z.ltb_ge|]. by rewrite Hk.
Qed.

Lemma Key_ID_valid k : Key_valid k → Key_ID k = Ok (Public k).
Proof. intros [Hk _ _]. unfold Key_ID. by rewrite Hk. Qed.

Lemma Key_ID_Ok k i : Key_ID k = Ok i → i = Public k ∧ Kind k = Key25519.
Proof. unfold Key_ID. intros. by res_inv. Qed.

(** A state that may be carried by a checkpoint. *)
Record Checkpoint_valid (s : State) : Prop := {
  cp_parent : LastAUMHash s = None;
  cp_disablements : 1 <= zlen (DisablementValues s) <= maxDisablementValues;
  cp_disablement_len : Forall (λ ds, zlen ds = disablementLength) (DisablementValues s);
  cp_disablement_nodup : NoDup (DisablementValues s);
  cp_nkeys : 1 <= zlen (Keys s) <= maxKeys;
  cp_keys : Forall Key_valid (Keys s);
  cp_ids : NoDup (Public <$> Keys s)
}.

Lemma checkKeyPair_Ok i j k k2 :
  Key_valid k → Key_valid k2 →
  checkKeyPair i j k k2 = Ok tt ↔ (i ≠ j → Public k ≠ Public k2).
Proof.
  intros Hk Hk2. unfold checkKeyPair. case_decide; [naive_solver|].
  rewrite (Key_ID_valid _ Hk), (Key_ID_valid _ Hk2). cbn.
  rewrite fail_if_Ok, bool_decide_eq_false. naive_solver.
Qed.

Lemma key_pairs_nodup (l : list Key) :
  Forall Key_valid l →
  (for_each (λ '(i, k), for_each (λ '(j, k2), checkKeyPair i j k k2) (indexed l))
     (indexed l) = Ok tt) ↔ NoDup (Public <$> l).
Proof.
  intros Hl. rewrite for_each_Ok, Forall_indexed, <- no_duplicate_pairs.
  assert (∀ i k, l !! i = Some k → Key_valid k) as Hv.
  { intros i k Hi. eapply Forall_lookup_1; eauto. }
  split.
  - intros H i x j y (k & -> & Hi)%list_lookup_fmap_Some (k2 & -> & Hj)%list_lookup_fmap_Some.
    specialize (H i k Hi). cbn in H. rewrite for_each_Ok, Forall_indexed in H.
    specialize (H j k2 Hj). cbn in H. rewrite checkKeyPair_Ok in H by eauto. done.
  - intros H i k Hi. rewrite for_each_Ok, Forall_indexed. intros j k2 Hj.
    rewrite checkKeyPair_Ok by eauto.
    apply H; rewrite list_lookup_fmap, ?Hi, ?Hj; done.
Qed.

Lemma disablement_pairs (l : list bytes) :
  (for_each (λ '(i, ds),
      fail_if (negb (zlen ds =? disablementLength)) "disablement[i]: invalid length" ≫= λ _,
      for_each (λ '(j, ds2),
          if decide (i = j) then Ok tt
          else fail_if (bool_decide (ds = ds2)) "disablement[i]: duplicates disablement[j]")
        (indexed l))
    (indexed l) = Ok tt)
  ↔ Forall (λ ds, zlen ds = disablementLength) l ∧ NoDup l.
Proof.
  rewrite for_each_Ok, Forall_indexed, <- no_duplicate_pairs, Forall_lookup. split.
  - intros H. split; [intros i x Hi|intros i x j y Hi Hj Hne];
      specialize (H i x Hi); cbn in H; apply bind_Ok in H as (? & Hl & H).
    { res_inv. by bool_prop. }
    rewrite for_each_Ok, Forall_indexed in H.
    specialize (H j y Hj). cbn in H. case_decide; [done|]. res_inv. by bool_prop.
  - intros [Hlen Hnd] i x Hi. apply bind_Ok. exists tt. rewrite fail_if_Ok. split.
    { apply negb_false_iff, Z.eqb_eq. eauto. }
    rewrite for_each_Ok, Forall_indexed. intros j y Hj. case_decide; [done|].
    apply fail_if_Ok, bool_decide_eq_false. eauto.
Qed.

Lemma staticValidateCheckpoint_spec s :
  staticValidateCheckpoint s = Ok tt ↔ Checkpoint_valid s.
Proof.
  unfold staticValidateCheckpoint. split.
  - intros H. repeat (apply bind_Ok in H as ([] & ? & H)). res_inv. bool_prop.
    destruct (proj1 (disablement_pairs _) H3) as [??].
    assert (Forall Key_valid (Keys s)) as Hk.
    { apply for_each_Ok in H6. eapply Forall_impl; [exact H6|]. cbn. intros k Hk.
      apply wrapf_Ok in Hk. by apply Key_StaticValidate_spec. }
    apply key_pairs_nodup in H; [|done].
    pose proof (zlen_nonneg (Keys s)). pose proof (zlen_nonneg (DisablementValues s)).
    split; try done; try lia. by apply eq_None_not_Some.
  - intros [Hp Hd Hdl Hdn Hn Hk Hi]. repeat (apply bind_Ok; exists tt; split).
    + rewrite Hp. done.
    + apply fail_if_Ok, Z.eqb_neq. lia.
    + apply fail_if_Ok, Z.ltb_ge. lia.
    + by apply disablement_pairs.
    + apply fail_if_Ok, Z.eqb_neq. lia.
    + apply fail_if_Ok, Z.ltb_ge. lia.
    + apply for_each_Ok. eapply Forall_impl; [exact Hk|]. intros k ?. cbn.
      by apply wrapf_Ok, Key_StaticValidate_spec.
    + by apply key_pairs_nodup.
Qed.

(** What the rest of the authority uses of a message that [AUM.StaticValidate]
    accepts. *)
Record AUM_valid (a : AUM) : Prop := {
  av_key k : aum_Key a = Some k → Key_valid k;
  av_prev : PrevAUMHash a ≠ Some [];
  av_sigs : Forall (λ s, length (sig_KeyID s) = 32%nat ∧ length (sig_Signature s) = 64%nat)
              (Signatures a);
  av_state s : aum_State a = Some s → Checkpoint_valid s;
  av_add : MessageKind a = AUMAddKey → is_Some (aum_Key a);
  av_checkpoint : MessageKind a = AUMCheckpoint → is_Some (aum_State a);
  av_keyid : MessageKind a = AUMRemoveKey ∨ MessageKind a = AUMUpdateKey →
             is_Some (aum_KeyID a)
}.

Lemma opt_bytes_nonempty o : (zlen (opt_bytes o) =? 0) = false → is_Some o.
Proof. destruct o; cbn; [eauto|done]. Qed.

Lemma AUM_StaticValidate_valid a : AUM_StaticValidate a = Ok tt → AUM_valid a.
Proof.
  unfold AUM_StaticValidate. intros H.
  apply bind_Ok in H as ([] & Hk & H). apply bind_Ok in H as ([] & Hp & H).
  apply bind_Ok in H as ([] & Hsig & H). apply bind_Ok in H as ([] & Hs & H).
  split.
  - intros k Hk'. rewrite Hk' in Hk. by apply Key_StaticValidate_spec.
  - apply fail_if_Ok in Hp. by bool_prop.
  - apply for_each_Ok in Hsig. eapply Forall_impl; [exact Hsig|]. cbn. intros s Hs'.
    apply fail_if_Ok, orb_false_iff in Hs' as [??]. bool_prop.
    unfold zlen, ed25519_SignatureSize in *. lia.
  - intros s Hs'. rewrite Hs' in Hs. apply wrapf_Ok in Hs. by apply staticValidateCheckpoint_spec.
  - intros E. rewrite E in H. apply bind_Ok in H as (? & H1%fail_if_Ok & _). bool_prop.
    by apply not_eq_None_Some.
  - intros E. rewrite E in H. apply bind_Ok in H as (? & H1%fail_if_Ok & _). bool_prop.
    by apply not_eq_None_Some.
  - intros [E|E]; rewrite E in H; apply bind_Ok in H as (? & H1%fail_if_Ok & _);
      by apply opt_bytes_nonempty.
Qed.

(** ** The exact shape of an accepted message *)

(** Which optional fields a message may and must have, by its kind; the fields of a
    NoOp and of an invalid or unknown kind are not looked at. *)
Definition fields_match (a : AUM) : Prop :=
  match MessageKind a with
  | AUMAddKey => is_Some (aum_Key a) ∧ aum_KeyID a = None ∧ aum_State a = None
                 ∧ aum_Votes a = None ∧ aum_Meta a = None
  | AUMRemoveKey => opt_bytes (aum_KeyID a) ≠ [] ∧ aum_Key a = None ∧ aum_State a = None
                    ∧ aum_Votes a = None ∧ aum_Meta a = None
  | AUMUpdateKey => opt_bytes (aum_KeyID a) ≠ [] ∧ (is_Some (aum_Meta a) ∨ is_Some (aum_Votes a))
                    ∧ aum_Key a = None ∧ aum_State a = None
  | AUMCheckpoint => is_Some (aum_State a) ∧ aum_KeyID a = None ∧ aum_Key a = None
                     ∧ aum_Votes a = None ∧ aum_Meta a = None
  | AUMNoOp | AUMInvalid | AUMUnknown _ => True
  end.

Record AUM_shape (a : AUM) : Prop := {
  shape_key k : aum_Key a = Some k → Key_valid k;
  shape_prev : PrevAUMHash a ≠ Some [];
  shape_sigs : Forall (λ s, length (sig_KeyID s) = 32%nat ∧ length (sig_Signature s) = 64%nat)
                 (Signatures a);
  shape_state s : aum_State a = Some s → Checkpoint_valid s;
  shape_fields : fields_match a
}.

Lemma zlen_0 {A} (l : list A) : (zlen l =? 0) = false ↔ l ≠ [].
Proof. destruct l; unfold zlen; cbn; rewrite Z.eqb_neq; split; intros; [lia|done|done|lia]. Qed.

Lemma absent {A} `{EqDecision A} (o : option A) : bool_decide (is_Some o) = false ↔ o = None.
Proof. rewrite bool_decide_eq_false. symmetry. apply eq_None_not_Some. Qed.

Lemma present {A} `{EqDecision A} (o : option A) : bool_decide (o = None) = false ↔ is_Some o.
Proof. rewrite bool_decide_eq_false. apply not_eq_None_Some. Qed.

Lemma fields_match_spec a :
  (match MessageKind a with
   | AUMAddKey =>
      fail_if (bool_decide (aum_Key a = None)) "AddKey AUMs must contain a key" ≫= λ _,
      fail_if (bool_decide (is_Some (aum_KeyID a)) || bool_decide (is_Some (aum_State a))
               || bool_decide (is_Some (aum_Votes a)) || bool_decide (is_Some (aum_Meta a)))
        "AddKey AUMs may only specify a Key"
   | AUMRemoveKey =>
      fail_if (zlen (opt_bytes (aum_KeyID a)) =? 0) "RemoveKey AUMs must specify a key ID" ≫= λ _,
      fail_if (bool_decide (is_Some (aum_Key a)) || bool_decide (is_Some (aum_State a))
               || bool_decide (is_Some (aum_Votes a)) || bool_decide (is_Some (aum_Meta a)))
        "RemoveKey AUMs may only specify a KeyID"
   | AUMUpdateKey =>
      fail_if (zlen (opt_bytes (aum_KeyID a)) =? 0) "UpdateKey AUMs must specify a key ID" ≫= λ _,
      fail_if (bool_decide (aum_Meta a = None) && bool_decide (aum_Votes a = None))
        "UpdateKey AUMs must contain an update to votes or key metadata" ≫= λ _,
      fail_if (bool_decide (is_Some (aum_Key a)) || bool_decide (is_Some (aum_State a)))
        "UpdateKey AUMs may only specify KeyID, Votes, and Meta"
   | AUMCheckpoint =>
      fail_if (bool_decide (aum_State a = None)) "Checkpoint AUMs must specify the state" ≫= λ _,
      fail_if (bool_decide (is_Some (aum_KeyID a)) || bool_decide (is_Some (aum_Key a))
               || bool_decide (is_Some (aum_Votes a)) || bool_decide (is_Some (aum_Meta a)))
        "Checkpoint AUMs may only specify State"
   | _ => Ok tt
   end = Ok tt) ↔ fields_match a.
Proof.
  assert (∀ A (r : res unit) (f : unit → res A) v, r ≫= f = Ok v ↔ r = Ok tt ∧ f tt = Ok v) as Hb.
  { intros A r f v. rewrite bind_Ok. split; [intros ([] & ? & ?)|intros [? ?]]; eauto. }
  unfold fields_match. destruct (MessageKind a); try done;
    rewrite !Hb, !fail_if_Ok, ?andb_false_iff, ?orb_false_iff, ?absent, ?present, ?zlen_0; tauto.
Qed.

(** C40. [AUM.StaticValidate] accepts exactly these messages: a key, if there is
    one, is valid; the parent is not an empty slice; key ids of signatures have
    32 bytes and signatures 64; a checkpoint state, if there is one, is valid; an
    AddKey has a key, a RemoveKey a key id, an UpdateKey a key id and votes or
    metadata, a Checkpoint a state, and none of these four has any other optional
    field.  A NoOp and a message of an invalid or unknown kind may have any
    optional fields ([NoOp_with_fields] is one). *)
Theorem AUM_StaticValidate_iff a : AUM_StaticValidate a = Ok tt ↔ AUM_shape a.
Proof.
  unfold AUM_StaticValidate. split.
  - intros Hv. pose proof (AUM_StaticValidate_valid a Hv) as [? ? ? ? _ _ _].
    repeat (apply bind_Ok in Hv as ([] & _ & Hv)). apply fields_match_spec in Hv. by split.
  - intros [Hk Hp Hs Hst Hf]. repeat (apply bind_Ok; exists tt; split).
    + destruct (aum_Key a) as [k|]; [|done]. apply Key_StaticValidate_spec. eauto.
    + by apply fail_if_Ok, bool_decide_eq_false.
    + apply for_each_Ok. eapply Forall_impl; [exact Hs|]. intros s [H1 H2]. cbn.
      apply fail_if_Ok. unfold zlen, ed25519_SignatureSize. by rewrite H1, H2.
    + destruct (aum_State a) as [s|]; [|done]. apply wrapf_Ok, staticValidateCheckpoint_spec. eauto.
    + by apply fields_match_spec.
Qed.

(** The comment on [AUMNoOp] says that a NoOp carries no information; this one names
    a key and its votes. *)
Example NoOp_with_fields k :
  Key_valid k → AUM_StaticValidate (mkAUM AUMNoOp None (Some k) (Some (Public k)) None (Some 7%N) None []) = Ok tt.
Proof. intros Hk. apply AUM_StaticValidate_iff. split; cbn; try done. by intros ? [= <-]. Qed.

(** A checkpoint's state is accepted exactly when it names no parent, has 1
    to 32 distinct 32-byte disablement values and 1 to 512 valid keys, no two
    with the same id. *)
Theorem checkpoint_accepted_iff s :
  staticValidateCheckpoint s = Ok tt ↔ Checkpoint_valid s.
Proof. apply staticValidateCheckpoint_spec. Qed.

(** ** A concrete instance, for evaluating the definitions

    A stand-in codec, digest and signature scheme that compute: the digest is a
    polynomial hash of the encoding spread over 32 bytes, and a signature of a
    digest under a key is the key followed by the digest. *)
Module Toy.

Fixpoint be_bytes (n : nat) (z : Z) : bytes :=
  match n with
  | O => []
  | S n => be_bytes n (z / 256) ++ [z mod 256]
  end.

Definition digest (b : bytes) : bytes :=
  be_bytes 32 (fold_left (λ acc x, Z.land (acc * 1000003 + x + 1) (Z.ones 64)) b 7).

Definition enc_list {A} (f : A → bytes) (l : list A) : bytes :=
  zlen l :: concat (map (λ x, zlen (f x) :: f x) l).

Definition enc_opt {A} (f : A → bytes) (o : option A) : bytes :=
  match o with None => [0] | Some x => 1 :: f x end.

Definition enc_meta (m : metadata) : bytes := [Z.of_nat (size m)].

Definition enc_Key (k : Key) : bytes :=
  (match Kind k with KeyInvalid => 0 | Key25519 => 1 | KeyUnknown n => n end)
  :: Z.of_N (Votes k) :: zlen (Public k) :: Public k ++ enc_opt enc_meta (Meta k).

Definition enc_State (s : State) : bytes :=
  enc_opt id (LastAUMHash s) ++ enc_list id (DisablementValues s)
  ++ enc_list enc_Key (Keys s) ++ [Z.of_N (StateID1 s); Z.of_N (StateID2 s)].

Definition enc_AUM (a : AUM) : bytes :=
  (match MessageKind a with
   | AUMInvalid => 0 | AUMAddKey => 1 | AUMRemoveKey => 2 | AUMNoOp => 3
   | AUMUpdateKey => 4 | AUMCheckpoint => 5 | AUMUnknown n => n end)
  :: enc_opt id (PrevAUMHash a) ++ enc_opt enc_Key (aum_Key a) ++ enc_opt id (aum_KeyID a)
  ++ enc_opt enc_State (aum_State a) ++ enc_opt (λ v, [Z.of_N v]) (aum_Votes a)
  ++ enc_opt enc_meta (aum_Meta a)
  ++ enc_list (λ s, zlen (sig_KeyID s) :: sig_KeyID s ++ sig_Signature s) (Signatures a).

Fixpoint enc_NKS (s : NodeKeySignature) : bytes :=
  (match SigKind s with
   | SigInvalid => 0 | SigDirect => 1 | SigRotation => 2 | SigCredential => 3
   | SigUnknown n => n end)
  :: enc_list id [Pubkey s; nks_KeyID s; Signature s; WrappingPubkey s]
  ++ match Nested s with None => [0] | Some n => 1 :: enc_NKS n end.

(** A decoder of [enc_NKS] with fuel: reads a tag, four length-prefixed fields
    and the nested structure. *)
Definition take_field (b : bytes) : option (bytes * bytes) :=
  match b with
  | n :: b => Some (take (Z.to_nat n) b, drop (Z.to_nat n) b)
  | [] => None
  end.

Fixpoint dec_NKS (fuel : nat) (b : bytes) : option NodeKeySignature :=
  match fuel, b with
  | S fuel, t :: 4 :: b =>
      '(pk, b) ← take_field b; '(kid, b) ← take_field b;
      '(sg, b) ← take_field b; '(wp, b) ← take_field b;
      let kind := match t with
                  | 0 => SigInvalid | 1 => SigDirect | 2 => SigRotation | 3 => SigCredential
                  | n => SigUnknown n end in
      match b with
      | 0 :: _ => Some (mkNKS kind pk kid sg None wp)
      | 1 :: b => n ← dec_NKS fuel b; Some (mkNKS kind pk kid sg (Some n) wp)
      | _ => None
      end
  | _, _ => None
  end.

Definition verify (pub dig sig : bytes) : bool := bool_decide (sig = pub ++ dig).

#[export] Instance toy_crypto : TkaCrypto := {|
  cbor_AUM := enc_AUM;
  cbor_NKS := enc_NKS;
  cbor_NKS_decode := dec_NKS 20;
  blake2s_Sum256 := digest;
  ed25519_Verify := verify;
  ed25519consensus_Verify := verify;
  ed25519_Sign := λ priv dig, priv ++ dig;
  argon2_Key := digest
|}.

Lemma toy_be_bytes_length n z : length (be_bytes n z) = n.
Proof. revert z; induction n; intros; cbn; [done|]. rewrite length_app, IHn. cbn. lia. Qed.

#[export] Instance toy_laws : TkaCryptoLaws.
Proof. constructor. intros b. apply toy_be_bytes_length. Defined.

End Toy.
