(* ===== verification/TkaFixtures.v ===== *)
(** * Concrete key-authority data

    Keys, messages and a store over the stand-in primitives of [TkaTypes.Toy],
    on which the definitions evaluate.  The witnesses of the theorems about the
    key authority use them. *)

From S2P Require Import Prelude TkaTypes.
Export TkaTypes.Toy.

Definition pub (n : Z) : bytes := replicate 32 n.
Definition mkTestKey (n : Z) (votes : N) : Key := mkKey Key25519 votes (pub n) None.

Definition key1 : Key := mkTestKey 1 2.
Definition key2 : Key := mkTestKey 2 1.
Definition key3 : Key := mkTestKey 3 1.

Definition state0 : State :=
  {| LastAUMHash := None; DisablementValues := [digest [5]]; Keys := [key1; key2];
     StateID1 := 11%N; StateID2 := 12%N |}.

(** A message signed by the given keys. *)
Definition signed (ks : list Z) (a : AUM) : AUM :=
  {| MessageKind := MessageKind a; PrevAUMHash := PrevAUMHash a; aum_Key := aum_Key a;
     aum_KeyID := aum_KeyID a; aum_State := aum_State a; aum_Votes := aum_Votes a;
     aum_Meta := aum_Meta a;
     Signatures := map (λ n, mkAUMSignature (pub n) (ed25519_Sign (pub n) (AUM_SigHash a))) ks |}.

Definition message (k : AUMKind) (prev : option bytes) : AUM :=
  {| MessageKind := k; PrevAUMHash := prev; aum_Key := None; aum_KeyID := None;
     aum_State := None; aum_Votes := None; aum_Meta := None; Signatures := [] |}.

Definition addKey (k : Key) (prev : bytes) : AUM :=
  {| MessageKind := AUMAddKey; PrevAUMHash := Some prev; aum_Key := Some k; aum_KeyID := None;
     aum_State := None; aum_Votes := None; aum_Meta := None; Signatures := [] |}.

Definition removeKey (id prev : bytes) : AUM :=
  {| MessageKind := AUMRemoveKey; PrevAUMHash := Some prev; aum_Key := None;
     aum_KeyID := Some id; aum_State := None; aum_Votes := None; aum_Meta := None;
     Signatures := [] |}.

Definition updateVotes (id : bytes) (v : N) (prev : bytes) : AUM :=
  {| MessageKind := AUMUpdateKey; PrevAUMHash := Some prev; aum_Key := None;
     aum_KeyID := Some id; aum_State := None; aum_Votes := Some v; aum_Meta := None;
     Signatures := [] |}.

Definition checkpoint (st : State) (prev : option bytes) : AUM :=
  {| MessageKind := AUMCheckpoint; PrevAUMHash := prev; aum_Key := None; aum_KeyID := None;
     aum_State := Some st; aum_Votes := None; aum_Meta := None; Signatures := [] |}.

(** genesis -> add key3 -> {remove key2, set votes of key2} *)
Definition aum0 : AUM := Eval vm_compute in signed [1] (checkpoint state0 None).
Definition hash0 : bytes := Eval vm_compute in AUM_Hash aum0.
Definition aum1 : AUM := Eval vm_compute in signed [1] (addKey key3 hash0).
Definition hash1 : bytes := Eval vm_compute in AUM_Hash aum1.
Definition aum2 : AUM := Eval vm_compute in signed [1] (removeKey (pub 2) hash1).
Definition hash2 : bytes := Eval vm_compute in AUM_Hash aum2.
Definition aum2' : AUM := Eval vm_compute in signed [2; 3] (updateVotes (pub 2) 5 hash1).
Definition hash2' : bytes := Eval vm_compute in AUM_Hash aum2'.
