(* ===== verification/TkaState.v ===== *)
(** * Tailnet key authority: the state machine

    Models [src/tka/state.go]: lookup of trusted keys, the effect of one update
    message on the state, and the disablement check.  The abstract specification
    is [Trust], a finite map from key ids to keys with the values that identify
    the authority; [applyVerifiedAUM] is shown to implement [trust_step]. *)

From S2P Require Import Prelude TkaTypes TkaFixtures.

Section StateMachine.
Context `{TkaCrypto}.

(** ** Operations *)

Fixpoint GetKey_loop (ks : list Key) (key : KeyID_t) : res Key :=
  match ks with
  | [] => Err ErrNoSuchKey
  | k :: ks =>
      keyID ← Key_ID k;
      if bool_decide (keyID = key) then Ok k else GetKey_loop ks key
  end.

Definition GetKey (s : State) (key : KeyID_t) : res Key := GetKey_loop (Keys s) key.

Definition State_Clone (s : State) : State :=
  {| LastAUMHash := LastAUMHash s;
     DisablementValues := map (λ v, v) (DisablementValues s);
     Keys := map Key_Clone (Keys s);
     StateID1 := StateID1 s; StateID2 := StateID2 s |}.

Definition cloneForUpdate (s : State) (update : AUM) : State :=
  let out := State_Clone s in
  {| LastAUMHash := Some (AUM_Hash update);
     DisablementValues := DisablementValues out; Keys := Keys out;
     StateID1 := StateID1 out; StateID2 := StateID2 out |}.

(** [out.Keys = ks] *)
Definition set_Keys (ks : list Key) (s : State) : State :=
  {| LastAUMHash := LastAUMHash s; DisablementValues := DisablementValues s; Keys := ks;
     StateID1 := StateID1 s; StateID2 := StateID2 s |}.

Definition DisablementKDF (secret : bytes) : bytes := argon2_Key secret.

Definition checkDisablement (s : State) (secret : bytes) : bool :=
  let derived := DisablementKDF secret in
  existsb (λ candidate, bool_decide (derived = candidate)) (DisablementValues s).

Definition parentMatches (s : State) (update : AUM) : bool :=
  match LastAUMHash s with
  | None => true
  | Some h => bool_decide (h = opt_bytes (PrevAUMHash update))
  end.

(** [for i := range out.Keys { .. if bytes.Equal(keyID, update.KeyID) { out.Keys[i] = k } }] *)
Fixpoint replaceKeys (ks : list Key) (id : KeyID_t) (k : Key) : res (list Key) :=
  match ks with
  | [] => Ok []
  | k0 :: ks =>
      keyID ← Key_ID k0;
      rest ← replaceKeys ks id k;
      Ok ((if bool_decide (keyID = id) then k else k0) :: rest)
  end.

(** The index search shared by RemoveKey and MakeRetroactiveRevocation; [None]
    is the code's [-1]. *)
Fixpoint findKeyIdx (ks : list Key) (id : KeyID_t) (i : nat) : res (option nat) :=
  match ks with
  | [] => Ok None
  | k :: ks =>
      keyID ← Key_ID k;
      if bool_decide (id = keyID) then Ok (Some i) else findKeyIdx ks id (S i)
  end.

(** [append(ks[:idx], ks[idx+1:]...)] *)
Definition deleteIdx {A} (idx : nat) (ks : list A) : list A := take idx ks ++ drop (S idx) ks.

(** The key an UpdateKey message makes of [k]. *)
Definition updatedKey (k : Key) (update : AUM) : Key :=
  {| Kind := Kind k;
     Votes := match aum_Votes update with Some v => v | None => Votes k end;
     Public := Public k;
     Meta := match aum_Meta update with Some m => Some m | None => Meta k end |}.

Definition applyVerifiedAUM (s : State) (update : AUM) : res State :=
  if negb (parentMatches s update) then Err (Errorf "parent AUMHash mismatch")
  else
  match MessageKind update with
  | AUMNoOp => Ok (cloneForUpdate s update)
  | AUMCheckpoint =>
      match aum_State update with
      | None => Err (Errorf "missing checkpoint state")
      | Some cp =>
          let id1Match := (StateID1 cp =? StateID1 s)%N in
          let id2Match := (StateID2 cp =? StateID2 s)%N in
          if negb id1Match || negb id2Match
          then Err (Errorf "checkpointed state has an incorrect stateID")
          else Ok (cloneForUpdate cp update)
      end
  | AUMAddKey =>
      match aum_Key update with
      | None => Err (Errorf "no key to add provided")
      | Some key =>
          keyID ← Key_ID key;
          match GetKey s keyID with
          | Ok _ => Err (Errorf "key already exists")
          | Err _ =>
              let out := cloneForUpdate s update in
              Ok (set_Keys (Keys out ++ [key]) out)
          | Panic => Panic
          | NoFuel => NoFuel
          end
      end
  | AUMUpdateKey =>
      k ← GetKey s (opt_bytes (aum_KeyID update));
      let k := updatedKey k update in
      _ ← wrapf "updated key fails validation" (Key_StaticValidate k);
      let out := cloneForUpdate s update in
      ks ← replaceKeys (Keys out) (opt_bytes (aum_KeyID update)) k;
      Ok (set_Keys ks out)
  | AUMRemoveKey =>
      idx ← findKeyIdx (Keys s) (opt_bytes (aum_KeyID update)) 0;
      match idx with
      | None => Err ErrNoSuchKey
      | Some idx =>
          let out := cloneForUpdate s update in
          Ok (set_Keys (deleteIdx idx (Keys out)) out)
      end
  | _ => Ok (cloneForUpdate s update)
  end.

(** ** The invariant *)

(** Every trusted key passes validation and no two share an id. *)
Record State_wf (s : State) : Prop := {
  wf_keys : Forall Key_valid (Keys s);
  wf_ids : NoDup (Public <$> Keys s)
}.

Lemma Checkpoint_valid_wf s : Checkpoint_valid s → State_wf s.
Proof. intros []. by split. Qed.

Lemma Key_Clone_id k : Key_Clone k = k.
Proof.
  destruct k as [kd v p [m|]]; unfold Key_Clone; cbn; [|done].
  do 2 f_equal.
  apply (map_fold_weak_ind (λ r m, r = m)); [done|]. intros. by subst.
Qed.

Lemma map_Key_Clone ks : map Key_Clone ks = ks.
Proof. rewrite <- (map_id ks) at 2. apply map_ext, Key_Clone_id. Qed.

Lemma State_Clone_id s : State_Clone s = s.
Proof.
  destruct s as [l d ks i1 i2]; unfold State_Clone; cbn. by rewrite map_id, map_Key_Clone.
Qed.

(** What [cloneForUpdate] is once the copies are seen to be copies. *)
Lemma cloneForUpdate_eq s u :
  cloneForUpdate s u =
  {| LastAUMHash := Some (AUM_Hash u); DisablementValues := DisablementValues s;
     Keys := Keys s; StateID1 := StateID1 s; StateID2 := StateID2 s |}.
Proof. unfold cloneForUpdate. by rewrite State_Clone_id. Qed.

Lemma clone_Keys s u : Keys (cloneForUpdate s u) = Keys s.
Proof. by rewrite cloneForUpdate_eq. Qed.

Lemma Keys_set_Keys ks s : Keys (set_Keys ks s) = ks.
Proof. done. Qed.

Arguments cloneForUpdate : simpl never.
Arguments set_Keys : simpl never.

(** ** The abstract specification *)
Record Trust := mkTrust {
  t_keys : gmap KeyID_t Key;
  t_disablement : list bytes;
  t_id1 : N;
  t_id2 : N
}.

Definition keymap (ks : list Key) : gmap KeyID_t Key :=
  list_to_map ((λ k, (Public k, k)) <$> ks).
Arguments keymap : simpl never.

Definition trust_of (s : State) : Trust :=
  {| t_keys := keymap (Keys s); t_disablement := DisablementValues s;
     t_id1 := StateID1 s; t_id2 := StateID2 s |}.

Definition with_keys (t : Trust) (m : gmap KeyID_t Key) : Trust :=
  {| t_keys := m; t_disablement := t_disablement t; t_id1 := t_id1 t; t_id2 := t_id2 t |}.

(** One message, on the set of trusted keys; [None] means it is refused. *)
Definition trust_step (t : Trust) (a : AUM) : option Trust :=
  match MessageKind a with
  | AUMAddKey =>
      k ← aum_Key a;
      match t_keys t !! Public k with
      | Some _ => None
      | None => Some (with_keys t (<[Public k := k]> (t_keys t)))
      end
  | AUMRemoveKey =>
      let id := opt_bytes (aum_KeyID a) in
      _ ← t_keys t !! id;
      Some (with_keys t (delete id (t_keys t)))
  | AUMUpdateKey =>
      let id := opt_bytes (aum_KeyID a) in
      k ← t_keys t !! id;
      if is_ok (Key_StaticValidate (updatedKey k a))
      then Some (with_keys t (<[id := updatedKey k a]> (t_keys t)))
      else None
  | AUMCheckpoint =>
      cp ← aum_State a;
      if (StateID1 cp =? t_id1 t)%N && (StateID2 cp =? t_id2 t)%N
      then Some (trust_of cp) else None
  | _ => Some t
  end.

(** ** Lookup *)

Lemma keymap_fst ks : ((λ k, (Public k, k)) <$> ks).*1 = Public <$> ks.
Proof. rewrite <- list_fmap_compose. by apply list_fmap_ext. Qed.

Lemma keymap_Some ks id k :
  NoDup (Public <$> ks) → keymap ks !! id = Some k ↔ k ∈ ks ∧ Public k = id.
Proof.
  intros Hnd. unfold keymap.
  rewrite <- elem_of_list_to_map by (by rewrite keymap_fst).
  rewrite list_elem_of_fmap. split.
  - intros (k' & Heq & Hin). by simplify_eq.
  - intros [? <-]. eauto.
Qed.

Lemma keymap_None ks id :
  keymap ks !! id = None ↔ id ∉ (Public <$> ks).
Proof. unfold keymap. rewrite <- (not_elem_of_list_to_map (M := gmap KeyID_t)). by rewrite keymap_fst. Qed.

Lemma keymap_cons k ks : keymap (k :: ks) = <[Public k := k]> (keymap ks).
Proof. done. Qed.

Lemma GetKey_loop_spec ks id :
  Forall Key_valid ks → NoDup (Public <$> ks) →
  GetKey_loop ks id =
  match keymap ks !! id with Some k => Ok k | None => Err ErrNoSuchKey end.
Proof.
  induction ks as [|k ks IH]; intros Hv Hnd; cbn; [done|].
  inversion Hv; subst. cbn in Hnd. apply NoDup_cons in Hnd as [Hk Hnd].
  rewrite (Key_ID_valid k) by done. cbn. rewrite keymap_cons.
  case_bool_decide as E.
  - subst. by rewrite lookup_insert_eq.
  - rewrite lookup_insert_ne by done. auto.
Qed.

Lemma GetKey_spec s id :
  State_wf s →
  GetKey s id = match keymap (Keys s) !! id with Some k => Ok k | None => Err ErrNoSuchKey end.
Proof. intros []. by apply GetKey_loop_spec. Qed.

Lemma GetKey_Ok s id k : State_wf s → GetKey s id = Ok k ↔ k ∈ Keys s ∧ Public k = id.
Proof.
  intros Hw. rewrite GetKey_spec, <- keymap_Some by (done || apply Hw).
  case_match; naive_solver.
Qed.

(** Without any assumption on the state, a key that is found is a stored key
    with the requested id. *)
Lemma GetKey_sound s id k : GetKey s id = Ok k → k ∈ Keys s ∧ Public k = id ∧ Kind k = Key25519.
Proof.
  unfold GetKey. induction (Keys s) as [|k0 ks IH]; cbn; [done|].
  intros Hg. apply bind_Ok in Hg as (i & Hi & Hg). apply Key_ID_Ok in Hi as [-> ?].
  case_bool_decide; [simplify_eq; set_solver|]. apply IH in Hg. set_solver.
Qed.

(** ** The four ways the list of keys changes *)

Lemma keymap_snoc ks k :
  Public k ∉ (Public <$> ks) → keymap (ks ++ [k]) = <[Public k := k]> (keymap ks).
Proof.
  induction ks as [|k0 ks IH]; intros Hk; [done|]. cbn [app]. rewrite !keymap_cons.
  cbn in Hk. apply not_elem_of_cons in Hk as [? ?].
  rewrite IH by done. by rewrite insert_insert_ne.
Qed.

Lemma replaceKeys_spec (ks : list Key) id k :
  Forall Key_valid ks →
  replaceKeys ks id k = Ok ((λ k0, if bool_decide (Public k0 = id) then k else k0) <$> ks).
Proof.
  induction ks as [|k0 ks IH]; intros Hv; cbn; [done|]. inversion Hv; subst.
  rewrite (Key_ID_valid k0), IH by done. done.
Qed.

Lemma replace_ids (ks : list Key) k :
  Public <$> ((λ k0, if bool_decide (Public k0 = Public k) then k else k0) <$> ks) = Public <$> ks.
Proof.
  rewrite <- list_fmap_compose. apply list_fmap_ext. intros i k0 _. cbn.
  by case_bool_decide.
Qed.

Lemma keymap_replace (ks : list Key) k :
  NoDup (Public <$> ks) → Public k ∈ (Public <$> ks) →
  keymap ((λ k0, if bool_decide (Public k0 = Public k) then k else k0) <$> ks)
  = <[Public k := k]> (keymap ks).
Proof.
  intros Hnd Hin. apply map_eq. intros id. apply option_eq. intros k'.
  rewrite keymap_Some by (by rewrite replace_ids).
  rewrite list_elem_of_fmap, lookup_insert_Some, keymap_Some by done. split.
  - intros [(k0 & -> & Hk0) <-]. case_bool_decide; [by left|]. right. done.
  - intros [[<- <-]|[Hne [Hk' <-]]].
    + apply list_elem_of_fmap in Hin as (k0 & Hpk & ?). split; [|done].
      exists k0. by rewrite bool_decide_true.
    + split; [|done]. exists k'. by rewrite bool_decide_false.
Qed.

Lemma findKeyIdx_spec ks id i :
  Forall Key_valid ks →
  match findKeyIdx ks id i with
  | Ok (Some j) => ∃ n k, j = (i + n)%nat ∧ ks !! n = Some k ∧ Public k = id
  | Ok None => id ∉ (Public <$> ks)
  | _ => False
  end.
Proof.
  revert i; induction ks as [|k ks IH]; intros i Hv; cbn; [set_solver|].
  inversion Hv; subst. rewrite (Key_ID_valid k) by done. cbn.
  case_bool_decide as E.
  - exists 0%nat, k. by rewrite Nat.add_0_r.
  - specialize (IH (S i) ltac:(done)). destruct (findKeyIdx ks id (S i)) as [[j|]|e| |]; cbn; try done.
    + destruct IH as (n & k' & -> & ? & ?). exists (S n), k'. split_and!; try done. lia.
    + set_solver.
Qed.

Lemma deleteIdx_delete {A} n (ks : list A) : deleteIdx n ks = delete n ks.
Proof. symmetry. apply delete_take_drop. Qed.

Lemma delete_ids n ks : Public <$> deleteIdx n ks = deleteIdx n (Public <$> ks).
Proof. unfold deleteIdx. by rewrite fmap_app, fmap_take, fmap_drop. Qed.

Lemma deleteIdx_sublist {A} n (ks : list A) : deleteIdx n ks `sublist_of` ks.
Proof. rewrite deleteIdx_delete. apply sublist_delete. Qed.

Lemma keymap_delete ks n k :
  NoDup (Public <$> ks) → ks !! n = Some k →
  keymap (deleteIdx n ks) = delete (Public k) (keymap ks).
Proof.
  intros Hnd Hn. apply map_eq. intros id. apply option_eq. intros k'.
  assert (NoDup (Public <$> deleteIdx n ks)) as Hnd'.
  { rewrite delete_ids. eapply sublist_NoDup; [done|apply deleteIdx_sublist]. }
  rewrite keymap_Some, lookup_delete_Some, keymap_Some by done.
  rewrite deleteIdx_delete, delete_take_drop.
  assert (ks = take n ks ++ k :: drop (S n) ks) as Hsplit by (symmetry; by apply take_drop_middle).
  rewrite Hsplit in Hnd. rewrite fmap_app in Hnd. cbn in Hnd.
  rewrite NoDup_app, NoDup_cons in Hnd. destruct Hnd as (_ & Hd1 & Hd2 & _).
  assert (∀ x, x ∈ ks ↔ x ∈ take n ks ++ drop (S n) ks ∨ x = k) as Hin.
  { intros x. rewrite Hsplit at 1. rewrite !elem_of_app, elem_of_cons. naive_solver. }
  rewrite Hin. split.
  - intros [Hk' <-]. split; [|naive_solver]. intros Heq.
    apply elem_of_app in Hk' as [Hk'|Hk'].
    + apply (Hd1 (Public k')); [by apply list_elem_of_fmap_2|]. rewrite <- Heq. set_solver.
    + apply Hd2. rewrite Heq. by apply list_elem_of_fmap_2.
  - intros (Hne & [Hk' | ->] & <-); done.
Qed.

(** ** Each kind of message implements its abstract step *)

(** The outcome of one message agrees with an abstract outcome. *)
Definition outcome_agrees (u : AUM) (r : res State) (t : option Trust) : Prop :=
  match r with
  | Ok s' => t = Some (trust_of s') ∧ State_wf s' ∧ LastAUMHash s' = Some (AUM_Hash u)
  | Err _ => t = None
  | _ => False
  end.

Lemma agrees_clone s u :
  State_wf s → outcome_agrees u (Ok (cloneForUpdate s u)) (Some (trust_of s)).
Proof. intros [Hk Hi]. rewrite cloneForUpdate_eq. by split_and!. Qed.

Lemma agrees_set_Keys s u ks :
  Forall Key_valid ks → NoDup (Public <$> ks) →
  outcome_agrees u (Ok (set_Keys ks (cloneForUpdate s u)))
    (Some (with_keys (trust_of s) (keymap ks))).
Proof. intros. rewrite cloneForUpdate_eq. by split_and!. Qed.

Lemma agrees_add s u :
  State_wf s → AUM_valid u → parentMatches s u = true → MessageKind u = AUMAddKey →
  outcome_agrees u (applyVerifiedAUM s u) (trust_step (trust_of s) u).
Proof.
  intros Hw Hu Hp Hk. unfold applyVerifiedAUM, trust_step. rewrite Hp, Hk. cbn.
  destruct (av_add _ Hu Hk) as [k Hkey]. rewrite Hkey. cbn.
  pose proof (av_key _ Hu k Hkey) as Hv.
  rewrite (Key_ID_valid k) by done. cbn. rewrite GetKey_spec by done.
  destruct (keymap (Keys s) !! Public k) eqn:E; [done|].
  apply keymap_None in E. rewrite <- keymap_snoc by done.
  rewrite clone_Keys. apply agrees_set_Keys.
  - apply Forall_app. split; [apply Hw|by constructor].
  - rewrite fmap_app. cbn. apply NoDup_app. split_and!; [apply Hw| |apply NoDup_singleton].
    intros x Hx ->%list_elem_of_singleton. done.
Qed.

Lemma agrees_update s u :
  State_wf s → parentMatches s u = true → MessageKind u = AUMUpdateKey →
  outcome_agrees u (applyVerifiedAUM s u) (trust_step (trust_of s) u).
Proof.
  intros Hw Hp Hk. unfold applyVerifiedAUM, trust_step. rewrite Hp, Hk. cbn.
  rewrite GetKey_spec by done. destruct (keymap (Keys s) !! _) as [k|] eqn:E; cbn; [|done].
  destruct (Key_StaticValidate (updatedKey k u)) as [[]|e| |] eqn:Hval; cbn; try done.
  2,3: unfold Key_StaticValidate, fail_if in Hval; repeat case_match; cbn in *; try done;
    repeat case_match; done.
  apply Key_StaticValidate_spec in Hval.
  apply keymap_Some in E as [Hin Hid]; [|apply Hw].
  rewrite clone_Keys, replaceKeys_spec by apply Hw. cbn.
  rewrite <- Hid. change (Public k) with (Public (updatedKey k u)).
  rewrite <- keymap_replace; [|apply Hw|].
  - apply agrees_set_Keys; [|rewrite replace_ids; apply Hw].
    apply Forall_fmap, Forall_forall. intros k0 Hk0. cbn. case_bool_decide; [done|].
    eapply Forall_forall; [apply Hw|done].
  - cbn. by apply list_elem_of_fmap_2.
Qed.

Lemma agrees_remove s u :
  State_wf s → parentMatches s u = true → MessageKind u = AUMRemoveKey →
  outcome_agrees u (applyVerifiedAUM s u) (trust_step (trust_of s) u).
Proof.
  intros Hw Hp Hk. unfold applyVerifiedAUM, trust_step. rewrite Hp, Hk. cbn.
  pose proof (findKeyIdx_spec (Keys s) (opt_bytes (aum_KeyID u)) 0 (wf_keys _ Hw)) as Hf.
  destruct (findKeyIdx _ _ _) as [[idx|]|e| |]; cbn; try done.
  - destruct Hf as (n & k & -> & Hn & Hid). cbn [Nat.add]. rewrite <- Hid.
    assert (keymap (Keys s) !! Public k = Some k) as ->.
    { apply keymap_Some; [apply Hw|]. split; [by eapply list_elem_of_lookup_2|done]. }
    cbn. rewrite <- (keymap_delete _ n) by (done || apply Hw).
    rewrite clone_Keys. apply agrees_set_Keys.
    + rewrite deleteIdx_delete. apply Forall_delete, Hw.
    + rewrite delete_ids. eapply sublist_NoDup; [apply Hw|apply deleteIdx_sublist].
  - apply keymap_None in Hf. by rewrite Hf.
Qed.

Lemma agrees_checkpoint s u :
  AUM_valid u → parentMatches s u = true → MessageKind u = AUMCheckpoint →
  outcome_agrees u (applyVerifiedAUM s u) (trust_step (trust_of s) u).
Proof.
  intros Hu Hp Hk. unfold applyVerifiedAUM, trust_step. rewrite Hp, Hk. cbn.
  destruct (av_checkpoint _ Hu Hk) as [cp Hcp]. rewrite Hcp. cbn.
  destruct (StateID1 cp =? _)%N, (StateID2 cp =? _)%N; cbn; try done.
  apply agrees_clone, Checkpoint_valid_wf. by eapply av_state.
Qed.

Lemma apply_agrees s u :
  State_wf s → AUM_valid u → parentMatches s u = true →
  outcome_agrees u (applyVerifiedAUM s u) (trust_step (trust_of s) u).
Proof.
  intros Hw Hu Hp.
  destruct (MessageKind u) eqn:Hk; auto using agrees_add, agrees_update, agrees_remove,
    agrees_checkpoint; unfold applyVerifiedAUM, trust_step; rewrite Hp, Hk; cbn;
    by apply agrees_clone.
Qed.

(** A message whose parent is not the last one applied is always refused. *)
Lemma apply_wrong_parent s u :
  parentMatches s u = false → applyVerifiedAUM s u = Err (Errorf "parent AUMHash mismatch").
Proof. intros Hp. unfold applyVerifiedAUM. by rewrite Hp. Qed.

Lemma apply_Ok s u s' :
  State_wf s → AUM_valid u → applyVerifiedAUM s u = Ok s' →
  trust_step (trust_of s) u = Some (trust_of s') ∧ State_wf s' ∧ LastAUMHash s' = Some (AUM_Hash u).
Proof.
  intros Hw Hu Ha. destruct (parentMatches s u) eqn:Hp; [|by rewrite apply_wrong_parent in Ha].
  pose proof (apply_agrees s u Hw Hu Hp) as Hag. by rewrite Ha in Hag.
Qed.

(** Whatever the state, the hash of the message becomes the last hash. *)
Lemma apply_last s u s' : applyVerifiedAUM s u = Ok s' → LastAUMHash s' = Some (AUM_Hash u).
Proof.
  unfold applyVerifiedAUM. intros Ha.
  destruct (negb _); [done|]. destruct (MessageKind u); res_inv.
Qed.

(** There is no loop that could run out of fuel. *)
Lemma apply_returns s u : applyVerifiedAUM s u ≠ NoFuel.
Proof.
  assert (∀ k, Key_ID k ≠ NoFuel) as Hid by (intros k; unfold Key_ID; by destruct (Kind k)).
  assert (∀ ks id, GetKey_loop ks id ≠ NoFuel) as Hg.
  { intros ks id. induction ks as [|k ks IH]; cbn; [done|]. pose proof (Hid k).
    destruct (Key_ID k); cbn; try done. by case_bool_decide. }
  assert (∀ ks id i, findKeyIdx ks id i ≠ NoFuel) as Hf.
  { intros ks id. induction ks as [|k ks IH]; intros i; cbn; [done|]. pose proof (Hid k).
    destruct (Key_ID k); cbn; try done. by case_bool_decide. }
  assert (∀ ks id k, replaceKeys ks id k ≠ NoFuel) as Hr.
  { intros ks id k. induction ks as [|k0 ks IH]; cbn; [done|]. pose proof (Hid k0).
    destruct (Key_ID k0); cbn; try done. by destruct (replaceKeys ks id k). }
  assert (∀ k, Key_StaticValidate k ≠ NoFuel) as Hv.
  { intros k. unfold Key_StaticValidate, fail_if. repeat case_match; cbn; done. }
  unfold applyVerifiedAUM. destruct (negb _); [done|]. destruct (MessageKind u); try done.
  - destruct (aum_Key u) as [k|]; [|done]. pose proof (Hid k). destruct (Key_ID k) as [i| | |]; cbn; try done.
    pose proof (Hg (Keys s) i). unfold GetKey. by destruct (GetKey_loop (Keys s) i).
  - pose proof (Hf (Keys s) (opt_bytes (aum_KeyID u)) 0%nat).
    destruct (findKeyIdx _ _ _) as [[i|]| | |]; cbn; done.
  - pose proof (Hg (Keys s) (opt_bytes (aum_KeyID u))). unfold GetKey.
    destruct (GetKey_loop _ _) as [k| | |]; cbn; try done. pose proof (Hv (updatedKey k u)).
    destruct (Key_StaticValidate _); cbn; try done.
    pose proof (Hr (Keys (cloneForUpdate s u)) (opt_bytes (aum_KeyID u)) (updatedKey k u)).
    by destruct (replaceKeys _ _ _).
  - destruct (aum_State u); [|done]. by destruct (_ || _).
Qed.

(** Nor do the two state ids ever change, except from the empty state. *)
Lemma apply_state_ids s u s' :
  applyVerifiedAUM s u = Ok s' → StateID1 s' = StateID1 s ∧ StateID2 s' = StateID2 s.
Proof.
  unfold applyVerifiedAUM. intros Ha.
  destruct (negb _); [done|].
  destruct (MessageKind u); res_inv; try done.
  apply orb_false_iff in Heqb as [H1%negb_false_iff%N.eqb_eq H2%negb_false_iff%N.eqb_eq].
  done.
Qed.

End StateMachine.

Arguments cloneForUpdate : simpl never.
Arguments set_Keys : simpl never.
Arguments keymap : simpl never.

(** ** Properties *)

(** C2. [applyVerifiedAUM] implements the abstract step on the set of trusted
    keys: on a well-formed state and a statically valid message it never panics;
    it refuses a message whose parent is not the last one applied; otherwise it
    succeeds exactly when the abstract step does, with the same trusted keys,
    disablement values and state ids, a well-formed state, and the message's
    hash as the last hash. *)
Theorem applyVerifiedAUM_refines_trust `{TkaCrypto} s u :
  State_wf s → AUM_valid u →
  if parentMatches s u
  then outcome_agrees u (applyVerifiedAUM s u) (trust_step (trust_of s) u)
  else applyVerifiedAUM s u = Err (Errorf "parent AUMHash mismatch").
Proof.
  intros Hw Hu. destruct (parentMatches s u) eqn:Hp; [by apply apply_agrees|].
  by apply apply_wrong_parent.
Qed.

Definition stateG : State := Eval vm_compute in cloneForUpdate state0 aum0.

Lemma stateG_wf : State_wf stateG.
Proof.
  assert (Checkpoint_valid state0) as [? ? ? ? ? ? ?]; [|by split].
  by apply staticValidateCheckpoint_spec; vm_compute.
Qed.

Lemma aum1_valid : AUM_valid aum1.
Proof. by apply AUM_StaticValidate_valid; vm_compute. Qed.

Lemma applyVerifiedAUM_refines_trust_witness :
  parentMatches stateG aum1 = true
  ∧ outcome_agrees aum1 (applyVerifiedAUM stateG aum1) (trust_step (trust_of stateG) aum1).
Proof.
  assert (parentMatches stateG aum1 = true) as Hp by (by vm_compute). split; [done|].
  pose proof (applyVerifiedAUM_refines_trust stateG aum1 stateG_wf aum1_valid) as Hr.
  rewrite Hp in Hr. exact Hr.
Defined.
