(* ===== verification/TkaFork.v ===== *)
(** * Tailnet key authority: signature weight and fork resolution

    Models [AUM.Weight] of [src/tka/aum.go] and [pickNextAUM],
    [advanceByPrimary] of [src/tka/tka.go].  The theorems show that the weight
    counts every trusted signing key once, and that fork resolution chooses the
    best child by the documented rules whatever the order in which storage lists
    the children: two nodes with the same messages choose the same branch. *)

From S2P Require Import Prelude TkaTypes TkaFixtures TkaState.

Section Fork.
Context `{TkaCrypto}.

(** ** Operations *)

Definition addVotes (weight votes : N) : N := ((weight + votes) mod 2 ^ 64)%N.

Fixpoint weight_loop (s : State) (sigs : list AUMSignature) (seenKeys : gset bytes)
    (weight : N) : res N :=
  match sigs with
  | [] => Ok weight
  | sig :: sigs =>
      if negb (zlen (sig_KeyID sig) =? 32) then Panic
      else
        let keyID := copy_array 32 (sig_KeyID sig) in
        match GetKey s (sig_KeyID sig) with
        | Err e => if bool_decide (e = ErrNoSuchKey) then weight_loop s sigs seenKeys weight
                   else Panic
        | Ok key =>
            if bool_decide (keyID ∈ seenKeys) then weight_loop s sigs seenKeys weight
            else weight_loop s sigs ({[keyID]} ∪ seenKeys) (addVotes weight (Votes key))
        | Panic => Panic
        | NoFuel => NoFuel
        end
  end.

Definition Weight (a : AUM) (s : State) : res N := weight_loop s (Signatures a) ∅ 0%N.

(** The comparator of [pickNextAUM]: whether candidate [cj] sorts before [ci]. *)
Definition pickLess (state : State) (cj ci : AUM) : res bool :=
  iSigWeight ← Weight ci state;
  jSigWeight ← Weight cj state;
  if negb (iSigWeight =? jSigWeight)%N then Ok (iSigWeight <? jSigWeight)%N
  else
    let iKind := MessageKind ci in
    let jKind := MessageKind cj in
    if bool_decide (iKind ≠ jKind)
       && (bool_decide (iKind = AUMRemoveKey) || bool_decide (jKind = AUMRemoveKey))
    then Ok (bool_decide (jKind = AUMRemoveKey))
    else Ok (match bytes_Compare (AUM_Hash ci) (AUM_Hash cj) with Gt => true | _ => false end).

Definition pickNextAUM (state : State) (candidates : list AUM) : res AUM :=
  match candidates with
  | [] => Panic
  | [c] => Ok c
  | _ =>
      sorted ← sort_Slice (pickLess state) candidates;
      match sorted with
      | c :: _ => Ok c
      | [] => Panic
      end
  end.

Definition advanceByPrimary (state : State) (candidates : list AUM) : res (option AUM * State) :=
  match candidates with
  | [] => Ok (None, state)
  | _ =>
      aum ← pickNextAUM state candidates;
      state' ← wrapf "advancing state" (applyVerifiedAUM state aum);
      Ok (Some aum, state')
  end.

(** ** Weight *)

(** The votes of the trusted keys that signed, each once. *)
Definition signedVotes (s : State) (ids : list bytes) : N :=
  nsum (λ k, if bool_decide (Public k ∈ ids) then Votes k else 0%N) (Keys s).

Definition sigs_wf (sigs : list AUMSignature) : Prop :=
  Forall (λ sig, length (sig_KeyID sig) = 32%nat) sigs.

(** Votes of keys that signed and have not been counted yet. *)
Definition pendingVotes (s : State) (ids : list bytes) (seen : gset bytes) : N :=
  nsum (λ k, if bool_decide (Public k ∈ ids ∧ Public k ∉ seen) then Votes k else 0%N) (Keys s).

Lemma nsum_single (ks : list Key) k :
  NoDup (Public <$> ks) → k ∈ ks →
  nsum (λ k', if bool_decide (Public k' = Public k) then Votes k' else 0%N) ks = Votes k.
Proof.
  induction ks as [|k0 ks IH]; intros Hnd Hin; [set_solver|].
  rewrite nsum_cons. cbn in Hnd. apply NoDup_cons in Hnd as [Hk0 Hnd].
  apply elem_of_cons in Hin as [->|Hin].
  - rewrite bool_decide_true by done. rewrite (nsum_ext _ (λ _, 0%N)), nsum_zero; [lia|].
    intros x Hx. rewrite bool_decide_false; [done|]. intros E. apply Hk0. rewrite <- E.
    by apply list_elem_of_fmap_2.
  - rewrite bool_decide_false.
    + rewrite IH by done. lia.
    + intros E. apply Hk0. rewrite E. by apply list_elem_of_fmap_2.
Qed.

Lemma pendingVotes_skip s id ids seen :
  (∀ k, k ∈ Keys s → Public k = id → id ∈ seen) →
  pendingVotes s (id :: ids) seen = pendingVotes s ids seen.
Proof.
  intros Hs. apply nsum_ext. intros k Hk.
  rewrite (bool_decide_ext _ (Public k ∈ ids ∧ Public k ∉ seen)); [done|].
  rewrite elem_of_cons. naive_solver.
Qed.

Lemma pendingVotes_take s k ids seen :
  State_wf s → k ∈ Keys s → Public k ∉ seen →
  pendingVotes s (Public k :: ids) seen
  = (Votes k + pendingVotes s ids ({[Public k]} ∪ seen))%N.
Proof.
  intros Hw Hk Hs. rewrite <- (nsum_single (Keys s) k) by (done || apply Hw).
  unfold pendingVotes. rewrite <- nsum_add. apply nsum_ext. intros k' Hk'.
  destruct (decide (Public k' = Public k)) as [E|E].
  - rewrite E, !bool_decide_true, bool_decide_false by set_solver. lia.
  - rewrite (bool_decide_false (Public k' = Public k)) by done.
    rewrite (bool_decide_ext (Public k' ∈ Public k :: ids ∧ _)
               (Public k' ∈ ids ∧ Public k' ∉ {[Public k]} ∪ seen)) by set_solver.
    lia.
Qed.

Lemma addVotes_mod w v p : ((addVotes w v + p) mod 2 ^ 64 = (w + (v + p)) mod 2 ^ 64)%N.
Proof. unfold addVotes. rewrite N.Div0.add_mod_idemp_l. f_equal. lia. Qed.

Lemma weight_loop_spec s sigs seen w :
  State_wf s → sigs_wf sigs → (w < 2 ^ 64)%N →
  weight_loop s sigs seen w
  = Ok ((w + pendingVotes s (sig_KeyID <$> sigs) seen) mod 2 ^ 64)%N.
Proof.
  intros Hw. revert seen w. induction sigs as [|sig sigs IH]; intros seen w Hs Hlt.
  - cbn. f_equal. unfold pendingVotes. rewrite (nsum_ext _ (λ _, 0%N)), nsum_zero.
    + rewrite N.add_0_r, N.mod_small; done.
    + intros k _. rewrite bool_decide_false by set_solver. done.
  - inversion Hs as [|?? Hlen Hs']; subst. cbn [weight_loop fmap list_fmap].
    assert (zlen (sig_KeyID sig) = 32) as Hz by (unfold zlen; lia).
    rewrite Hz, copy_array_id by done. cbn [negb Z.eqb Pos.eqb].
    rewrite GetKey_spec by done. destruct (keymap (Keys s) !! sig_KeyID sig) as [k|] eqn:E.
    + apply keymap_Some in E as [Hin Hid]; [|apply Hw]. rewrite <- Hid.
      case_bool_decide as Hseen.
      * rewrite IH by done. do 3 f_equal. symmetry. apply pendingVotes_skip. naive_solver.
      * rewrite IH by (done || by apply N.mod_lt). rewrite addVotes_mod.
        by rewrite <- pendingVotes_take.
    + rewrite bool_decide_true by done. rewrite IH by done. do 3 f_equal. symmetry.
      apply pendingVotes_skip. intros k Hk Hid. apply keymap_None in E. destruct E.
      rewrite <- Hid. by apply list_elem_of_fmap_2.
Qed.

Lemma Weight_spec a s :
  State_wf s → sigs_wf (Signatures a) →
  Weight a s = Ok (signedVotes s (sig_KeyID <$> Signatures a) mod 2 ^ 64)%N.
Proof.
  intros Hw Hs. unfold Weight. rewrite weight_loop_spec by done. do 2 f_equal.
  apply nsum_ext. intros k _. rewrite (bool_decide_ext _ (Public k ∈ sig_KeyID <$> Signatures a)); [done|].
  set_solver.
Qed.

Lemma signedVotes_bound s ids :
  State_wf s → (signedVotes s ids <= N.of_nat (length (Keys s)) * 4096)%N.
Proof.
  intros Hw. apply nsum_bound. intros k Hk. case_bool_decide; [|lia].
  assert (Key_valid k) as [? ? ?] by (eapply Forall_forall; [apply Hw|done]). lia.
Qed.

(** ** Fork resolution *)

(** The three things a candidate is judged by. *)
Definition weightOf (s : State) (a : AUM) : N :=
  (signedVotes s (sig_KeyID <$> Signatures a) mod 2 ^ 64)%N.
Definition isRemoveKey (a : AUM) : bool := bool_decide (MessageKind a = AUMRemoveKey).

(** The documented rules: higher weight, then RemoveKey, then lower hash. *)
Definition preferred (s : State) (a b : AUM) : Prop :=
  (weightOf s b < weightOf s a)%N
  ∨ (weightOf s a = weightOf s b
     ∧ (isRemoveKey a = true ∧ isRemoveKey b = false
        ∨ isRemoveKey a = isRemoveKey b
          ∧ bytes_Compare (AUM_Hash a) (AUM_Hash b) = Lt)).

Definition pickLt (s : State) (a b : AUM) : bool :=
  if negb (weightOf s b =? weightOf s a)%N then (weightOf s b <? weightOf s a)%N
  else if xorb (isRemoveKey a) (isRemoveKey b) then isRemoveKey a
  else match bytes_Compare (AUM_Hash b) (AUM_Hash a) with Gt => true | _ => false end.

Lemma pickLt_preferred s a b : pickLt s a b = true ↔ preferred s a b.
Proof.
  unfold pickLt, preferred. destruct (N.eqb_spec (weightOf s b) (weightOf s a)) as [E|E]; cbn.
  - rewrite E. destruct (isRemoveKey a), (isRemoveKey b); cbn;
      try (rewrite <- bytes_Compare_Gt_Lt; case_match);
      split; intros; destruct_or?; destruct_and?; try done; try lia; naive_solver.
  - rewrite N.ltb_lt. naive_solver lia.
Qed.

Lemma pickLess_pure s a b :
  State_wf s → sigs_wf (Signatures a) → sigs_wf (Signatures b) →
  pickLess s a b = Ok (pickLt s a b).
Proof.
  intros Hw Ha Hb. unfold pickLess. rewrite (Weight_spec b), (Weight_spec a) by done. cbn.
  unfold pickLt. fold (weightOf s a) (weightOf s b).
  destruct (negb _); [done|]. unfold isRemoveKey.
  repeat case_bool_decide; cbn; try done; congruence.
Qed.

Lemma pickLt_false s a b :
  pickLt s b a = false ↔
  (weightOf s b < weightOf s a)%N
  ∨ (weightOf s a = weightOf s b
     ∧ (isRemoveKey a = true ∧ isRemoveKey b = false
        ∨ isRemoveKey a = isRemoveKey b
          ∧ bytes_Compare (AUM_Hash a) (AUM_Hash b) ≠ Gt)).
Proof.
  unfold pickLt. destruct (N.eqb_spec (weightOf s a) (weightOf s b)) as [E|E]; cbn.
  - rewrite E. destruct (isRemoveKey a), (isRemoveKey b); cbn; try case_match;
      split; intros; destruct_or?; destruct_and?; try done; try lia; naive_solver.
  - rewrite N.ltb_ge. split; [left; lia|]. intros [?|[??]]; lia.
Qed.

Lemma pickLt_trans s x y z :
  pickLt s y x = false → pickLt s z y = false → pickLt s z x = false.
Proof.
  rewrite !pickLt_false.
  intros [?|[? [[??]|[??]]]] [?|[? [[??]|[??]]]];
    try (left; lia); right; (split; [lia|]); first
      [ left; split; congruence
      | right; split; [congruence|]; by eapply bytes_Compare_le_trans
      | congruence ].
Qed.

Lemma pickLt_asym s x y : pickLt s x y = true → pickLt s y x = false.
Proof.
  rewrite pickLt_preferred, pickLt_false. unfold preferred.
  intros [?|[? [[??]|[? ->]]]]; [by left|right..]; (split; [done|]); [by left|by right].
Qed.

(** Candidates that storage may offer: well-formed signatures and no two with
    the same hash. *)
Definition candidates_wf (cs : list AUM) : Prop :=
  Forall (λ a, sigs_wf (Signatures a)) cs ∧ NoDup (AUM_Hash <$> cs).

Lemma sort_candidates s cs :
  State_wf s → Forall (λ a, sigs_wf (Signatures a)) cs →
  ∃ cs', sort_Slice (pickLess s) cs = Ok cs' ∧ cs' ≡ₚ cs
         ∧ StronglySorted (λ x y, pickLt s y x = false) cs'.
Proof.
  intros Hw Hcs. apply (sort_Slice_sorted _ (pickLt s) (λ a, sigs_wf (Signatures a))); try done.
  - intros. by apply pickLess_pure.
  - intros. by eapply pickLt_trans.
  - intros. by apply pickLt_asym.
Qed.

Lemma not_worse_preferred s a b :
  pickLt s b a = false → AUM_Hash a ≠ AUM_Hash b → preferred s a b.
Proof.
  intros Hf Hne. apply pickLt_false in Hf.
  destruct Hf as [?|[Hwt [[??]|[Hr Hc]]]]; [by left|right..]; (split; [done|]); [by left|right].
  split; [done|]. destruct (bytes_Compare _ _) eqn:E; [|done|done].
  by apply bytes_Compare_eq in E.
Qed.

Lemma pick_best s cs :
  State_wf s → candidates_wf cs → cs ≠ [] →
  ∃ a, pickNextAUM s cs = Ok a ∧ a ∈ cs ∧ ∀ b, b ∈ cs → b ≠ a → preferred s a b.
Proof.
  intros Hw [Hsig Hnd] Hne.
  assert (∀ a b, a ∈ cs → b ∈ cs → AUM_Hash a = AUM_Hash b → a = b) as Hinj.
  { intros a b (i & Ha)%list_elem_of_lookup (j & Hb)%list_elem_of_lookup E.
    assert (i = j) as ->; [|congruence].
    apply (proj1 (NoDup_alt _) Hnd i j (AUM_Hash a)); rewrite list_lookup_fmap, ?Ha, ?Hb; cbn; congruence. }
  destruct cs as [|c1 [|c2 cs']]; [done| |].
  - exists c1. cbn. split_and!; [done|set_solver|set_solver].
  - set (cs := c1 :: c2 :: cs') in *.
    destruct (sort_candidates s cs) as (l & Hl & Hp & Hs); [done..|].
    change (pickNextAUM s cs) with
      (sort_Slice (pickLess s) cs ≫= λ l, match l with c :: _ => Ok c | [] => Panic end).
    rewrite Hl. cbn. destruct l as [|a l]; [by apply Permutation_nil_l in Hp|].
    exists a. apply StronglySorted_inv in Hs as [_ Hall].
    assert (a ∈ cs) by (rewrite <- Hp; set_solver).
    split_and!; [done..|]. intros b Hb Hba. apply not_worse_preferred.
    + rewrite <- Hp in Hb. apply elem_of_cons in Hb as [->|Hb]; [done|].
      eapply Forall_forall in Hall; [exact Hall|done].
    + intros E. apply Hba. by apply Hinj.
Qed.

Lemma preferred_asym s a b : preferred s a b → preferred s b a → False.
Proof.
  intros H1%pickLt_preferred H2%pickLt_preferred.
  apply pickLt_asym in H1. congruence.
Qed.

Lemma candidates_wf_perm cs1 cs2 : cs1 ≡ₚ cs2 → candidates_wf cs1 → candidates_wf cs2.
Proof. intros Hp [? ?]. split; by rewrite <- Hp. Qed.

(** The order in which storage lists the candidates does not matter. *)
Lemma pick_perm s cs1 cs2 :
  State_wf s → candidates_wf cs1 → cs1 ≡ₚ cs2 → pickNextAUM s cs1 = pickNextAUM s cs2.
Proof.
  intros Hw Hcs Hp. destruct (decide (cs1 = [])) as [->|Hne].
  { apply Permutation_nil_l in Hp as ->. done. }
  assert (cs2 ≠ []) as Hne2 by (intros ->; by apply Permutation_nil_r in Hp).
  destruct (pick_best s cs1) as (a & -> & Ha & Hbest); [done..|].
  destruct (pick_best s cs2) as (b & -> & Hb & Hbest2);
    [done|by eapply candidates_wf_perm|done|].
  destruct (decide (a = b)) as [->|Hab]; [done|].
  exfalso. eapply (preferred_asym s a b); [apply Hbest|apply Hbest2]; try done.
  - by rewrite Hp.
  - by rewrite <- Hp.
Qed.

Lemma advance_perm s cs1 cs2 :
  State_wf s → candidates_wf cs1 → cs1 ≡ₚ cs2 → advanceByPrimary s cs1 = advanceByPrimary s cs2.
Proof.
  intros Hw Hcs Hp. unfold advanceByPrimary.
  rewrite (pick_perm s cs1 cs2) by done.
  destruct cs1, cs2; try done.
  - by apply Permutation_nil_l in Hp.
  - symmetry in Hp. by apply Permutation_nil_l in Hp.
Qed.

End Fork.

(** ** Properties *)

(** The weight of a message is the sum of the votes of the trusted keys that
    signed it, each counted once however often it signed; signatures by unknown
    keys count nothing, the function never panics on well-formed signatures, and
    the 64-bit sum does not overflow with fewer than 2^52 keys. *)
Theorem Weight_counts_each_key_once `{TkaCrypto} a s :
  State_wf s → sigs_wf (Signatures a) → (N.of_nat (length (Keys s)) < 2 ^ 52)%N →
  Weight a s = Ok (signedVotes s (sig_KeyID <$> Signatures a)).
Proof.
  intros Hw Hs Hn. rewrite Weight_spec by done. rewrite N.mod_small; [done|].
  pose proof (signedVotes_bound s (sig_KeyID <$> Signatures a) Hw). lia.
Qed.

(** C3. Fork resolution: among candidates with distinct hashes, [pickNextAUM]
    returns one that beats every other by the documented rules (more signature
    weight, then RemoveKey, then the smaller hash), and the choice does not
    depend on the order in which storage lists them. *)
Theorem pickNextAUM_best_any_order `{TkaCrypto} s cs cs' :
  State_wf s → candidates_wf cs → cs ≠ [] → cs ≡ₚ cs' →
  pickNextAUM s cs' = pickNextAUM s cs
  ∧ ∃ a, pickNextAUM s cs = Ok a ∧ a ∈ cs ∧ ∀ b, b ∈ cs → b ≠ a → preferred s a b.
Proof.
  intros Hw Hc Hne Hp. split; [symmetry; by apply pick_perm|by apply pick_best].
Qed.

Lemma Weight_counts_each_key_once_witness :
  Weight aum2' stateG = Ok (signedVotes stateG [pub 2; pub 3])
  ∧ signedVotes stateG [pub 2; pub 3] = 1%N.
Proof.
  split; [|by vm_compute].
  exact (Weight_counts_each_key_once aum2' stateG stateG_wf
           ltac:(repeat constructor) ltac:(by vm_compute)).
Defined.

Lemma pickNextAUM_best_any_order_witness :
  pickNextAUM stateG [aum2'; aum2] = pickNextAUM stateG [aum2; aum2'].
Proof.
  assert (candidates_wf [aum2; aum2']) as Hc.
  { split; [repeat constructor|]. apply (bool_decide_unpack _). by vm_compute. }
  exact (proj1 (pickNextAUM_best_any_order stateG [aum2; aum2'] [aum2'; aum2] stateG_wf Hc
                  ltac:(done) ltac:(constructor))).
Defined.
