(* ===== verification/TkaChonk.v ===== *)
(** * Tailnet key authority: storage of update messages

    Models the [Chonk] and [CompactableChonk] interfaces of
    [src/tka/tailchonk.go] as the class [Chonk], what they promise as the class
    [ChonkLaws], and the in-memory implementation [Mem], which is shown to keep
    the promises.  The authority (TkaAuthority), synchronisation (TkaSync) and
    compaction (TkaCompact) are proved against the interface. *)

From S2P Require Import Prelude TkaTypes TkaFixtures.

(** ** The interface

    [CommitVerifiedAUMs] writes its messages one after the other, so a store on
    disk can fail in the middle: it returns the store as it is then, with or
    without an error. *)
Class Chonk (S : Type) := {
  chonk_AUM : S → AUMHash → res AUM;
  ChildAUMs : S → AUMHash → res (list AUM);
  CommitVerifiedAUMs : S → list AUM → S * res unit;
  Heads : S → res (list AUM);
  SetLastActiveAncestor : S → AUMHash → res S;
  LastActiveAncestor : S → res (option AUMHash);
  (** [CompactableChonk] *)
  AllAUMs : S → res (list AUMHash);
  CommitTime : S → AUMHash → res Z;
  PurgeAUMs : S → list AUMHash → res S;
  RemoveAll : S → res S
}.

(** Messages are stored under their hash, and equal hashes mean equal messages:
    the digest has no collision among the messages at hand. *)
Definition collision_free `{TkaCrypto} (P : AUM → Prop) : Prop :=
  ∀ a b, P a → P b → AUM_Hash a = AUM_Hash b → a = b.

Definition stored_in (m : gmap AUMHash AUM) (a : AUM) : Prop := ∃ h, m !! h = Some a.

(** [Heads]: the stored messages that no stored message has as its parent. *)
Definition is_head `{TkaCrypto} (m : gmap AUMHash AUM) (a : AUM) : Prop :=
  stored_in m a ∧ ∀ b, stored_in m b → Parent b ≠ Some (AUM_Hash a).

Definition commit_all `{TkaCrypto} (m : gmap AUMHash AUM) (l : list AUM) : gmap AUMHash AUM :=
  foldl (λ m a, <[AUM_Hash a := a]> m) m l.

Definition purge_all (m : gmap AUMHash AUM) (l : list AUMHash) : gmap AUMHash AUM :=
  foldl (λ m h, delete h m) m l.

(** What the comments of the interface promise, in terms of the finite map of
    stored messages.  The order of the slices that are returned is not promised;
    nor is it that a commit succeeds: after an error, some of the messages are
    stored, a prefix of those given. *)
Class ChonkLaws (S : Type) `{TkaCrypto, Chonk S} := {
  contents : S → gmap AUMHash AUM;
  chonk_ok : S → Prop;
  law_keyed s h a : chonk_ok s → contents s !! h = Some a → AUM_Hash a = h;
  law_AUM s h : chonk_ok s →
    chonk_AUM s h = match contents s !! h with Some a => Ok a | None => Err ErrNotExist end;
  law_ChildAUMs s h : chonk_ok s →
    ∃ l, ChildAUMs s h = Ok l ∧ NoDup l
         ∧ ∀ a, a ∈ l ↔ stored_in (contents s) a ∧ Parent a = Some h;
  law_Heads s : chonk_ok s →
    ∃ l, Heads s = Ok l ∧ NoDup l ∧ ∀ a, a ∈ l ↔ is_head (contents s) a;
  law_Commit s l : chonk_ok s →
    collision_free (λ a, stored_in (contents s) a ∨ a ∈ l) →
    ∃ s' r l1 l2, CommitVerifiedAUMs s l = (s', r) ∧ l = l1 ++ l2
          ∧ (r = Ok tt ∧ l2 = [] ∨ ∃ e, r = Err e) ∧ chonk_ok s'
          ∧ contents s' = commit_all (contents s) l1
          ∧ LastActiveAncestor s' = LastActiveAncestor s;
  law_SetLast s h : chonk_ok s →
    ∃ s', SetLastActiveAncestor s h = Ok s' ∧ chonk_ok s' ∧ contents s' = contents s
          ∧ LastActiveAncestor s' = Ok (Some h);
  law_Last s : chonk_ok s → ∃ o, LastActiveAncestor s = Ok o;
  law_AllAUMs s : chonk_ok s →
    ∃ l, AllAUMs s = Ok l ∧ NoDup l ∧ ∀ h, h ∈ l ↔ is_Some (contents s !! h);
  law_CommitTime s h : chonk_ok s →
    match contents s !! h with
    | Some _ => ∃ t, CommitTime s h = Ok t
    | None => CommitTime s h = Err ErrNotExist
    end;
  law_Purge s l : chonk_ok s →
    ∃ s', PurgeAUMs s l = Ok s' ∧ chonk_ok s' ∧ contents s' = purge_all (contents s) l
          ∧ LastActiveAncestor s' = LastActiveAncestor s;
  law_RemoveAll s : chonk_ok s →
    ∃ s', RemoveAll s = Ok s' ∧ chonk_ok s' ∧ contents s' = ∅ ∧ LastActiveAncestor s' = Ok None
}.

(** Deciding that a list of messages has no collision. *)
Section CollisionFree.
Context `{TkaCrypto}.

Definition collision_freeb (l : list AUM) : bool :=
  forallb (λ a, forallb (λ b,
    implb (bool_decide (AUM_Hash a = AUM_Hash b)) (bool_decide (a = b))) l) l.

Lemma collision_freeb_ok (P : AUM → Prop) l :
  (∀ a, P a → a ∈ l) → collision_freeb l = true → collision_free P.
Proof.
  intros Hl Hc a b Ha%Hl Hb%Hl Hp.
  pose proof (forallb_elem _ _ _ (forallb_elem _ _ _ Hc Ha) Hb) as Hab. cbn in Hab.
  rewrite bool_decide_true in Hab by done. by apply bool_decide_eq_true in Hab.
Qed.

End CollisionFree.

(** ** The in-memory implementation *)
Module Mem.

(** The clock is read once per stored message; [clock n] is its [n]th reading. *)
Record Mem := mkMem {
  aums : gmap AUMHash AUM;
  commitTimes : gmap AUMHash Z;
  parentIndex : gmap AUMHash (list AUMHash);
  lastActiveAncestor : option AUMHash;
  clock : nat → Z;
  ticks : nat
}.

Section Operations.
Context `{TkaCrypto}.

Definition ChonkMem (clk : nat → Z) : Mem :=
  {| aums := ∅; commitTimes := ∅; parentIndex := ∅; lastActiveAncestor := None;
     clock := clk; ticks := 0 |}.

Definition Mem_SetLastActiveAncestor (c : Mem) (hash : AUMHash) : res Mem :=
  Ok {| aums := aums c; commitTimes := commitTimes c; parentIndex := parentIndex c;
        lastActiveAncestor := Some hash; clock := clock c; ticks := ticks c |}.

Definition Mem_LastActiveAncestor (c : Mem) : res (option AUMHash) := Ok (lastActiveAncestor c).

(** A missing key of a Go map reads as the zero value. *)
Definition children (c : Mem) (h : AUMHash) : list AUMHash := default [] (parentIndex c !! h).

Definition Mem_Heads (c : Mem) : res (list AUM) :=
  Ok (filter (λ a, length (children c (AUM_Hash a)) = 0%nat) (map snd (map_to_list (aums c)))).

Definition Mem_AUM (c : Mem) (hash : AUMHash) : res AUM :=
  match aums c !! hash with
  | None => Err ErrNotExist
  | Some aum => Ok aum
  end.

Definition AUM_zero : AUM :=
  {| MessageKind := AUMInvalid; PrevAUMHash := None; aum_Key := None; aum_KeyID := None;
     aum_State := None; aum_Votes := None; aum_Meta := None; Signatures := [] |}.

Definition Mem_ChildAUMs (c : Mem) (prevAUMHash : AUMHash) : res (list AUM) :=
  Ok (map (λ entry, default AUM_zero (aums c !! entry)) (children c prevAUMHash)).

Definition now (c : Mem) : Z := clock c (ticks c).

(** The body of the loop of [CommitVerifiedAUMs]. *)
Definition commitOne (c : Mem) (aum : AUM) : Mem :=
  let aumHash := AUM_Hash aum in
  let index :=
    match Parent aum with
    | Some parent =>
        if bool_decide (aumHash ∈ children c parent) then parentIndex c
        else <[parent := children c parent ++ [aumHash]]> (parentIndex c)
    | None => parentIndex c
    end in
  {| aums := <[aumHash := aum]> (aums c);
     commitTimes := <[aumHash := now c]> (commitTimes c);
     parentIndex := index; lastActiveAncestor := lastActiveAncestor c;
     clock := clock c; ticks := S (ticks c) |}.

Definition Mem_CommitVerifiedAUMs (c : Mem) (updates : list AUM) : Mem * res unit :=
  (foldl commitOne c updates, Ok tt).

Definition Mem_RemoveAll (c : Mem) : res Mem :=
  Ok {| aums := ∅; commitTimes := ∅; parentIndex := ∅; lastActiveAncestor := None;
        clock := clock c; ticks := ticks c |}.

Definition Mem_AllAUMs (c : Mem) : res (list AUMHash) := Ok (map fst (map_to_list (aums c))).

Definition Mem_CommitTime (c : Mem) (h : AUMHash) : res Z :=
  match commitTimes c !! h with
  | Some t => Ok t
  | None => Err ErrNotExist
  end.

(** The body of the loop of [PurgeAUMs]. *)
Definition purgeOne (c : Mem) (h : AUMHash) : Mem :=
  let index :=
    match aums c !! h with
    | Some aum =>
        match Parent aum with
        | Some parent =>
            let l := filter (λ other, h ≠ other) (children c parent) in
            if bool_decide (length l = 0%nat) then delete parent (parentIndex c)
            else <[parent := l]> (parentIndex c)
        | None => parentIndex c
        end
    | None => parentIndex c
    end in
  {| aums := delete h (aums c); commitTimes := delete h (commitTimes c);
     parentIndex := index; lastActiveAncestor := lastActiveAncestor c;
     clock := clock c; ticks := ticks c |}.

Definition Mem_PurgeAUMs (c : Mem) (hashes : list AUMHash) : res Mem :=
  Ok (foldl purgeOne c hashes).

#[export] Instance Mem_Chonk : Chonk Mem := {|
  chonk_AUM := Mem_AUM; ChildAUMs := Mem_ChildAUMs;
  CommitVerifiedAUMs := Mem_CommitVerifiedAUMs; Heads := Mem_Heads;
  SetLastActiveAncestor := Mem_SetLastActiveAncestor;
  LastActiveAncestor := Mem_LastActiveAncestor;
  AllAUMs := Mem_AllAUMs; CommitTime := Mem_CommitTime;
  PurgeAUMs := Mem_PurgeAUMs; RemoveAll := Mem_RemoveAll
|}.

(** ** The invariant

    Messages are stored under their hash; the index of a parent lists, once
    each, exactly the stored children; every stored message has a commit time. *)
Record Mem_ok (c : Mem) : Prop := {
  ok_keyed h a : aums c !! h = Some a → AUM_Hash a = h;
  ok_index p h : h ∈ children c p ↔ ∃ a, aums c !! h = Some a ∧ Parent a = Some p;
  ok_nodup p : NoDup (children c p);
  ok_times : dom (commitTimes c) = dom (aums c)
}.

Lemma ChonkMem_ok clk : Mem_ok (ChonkMem clk).
Proof.
  split.
  - intros h a Ha. by apply (lookup_empty_Some h a) in Ha.
  - intros p h. change (children (ChonkMem clk) p) with (@nil AUMHash).
    rewrite elem_of_nil. split; [done|].
    intros (a & Ha & _). by apply (lookup_empty_Some h a) in Ha.
  - constructor.
  - done.
Qed.

Lemma children_commitOne c aum p :
  Mem_ok c →
  children (commitOne c aum) p =
  if bool_decide (Parent aum = Some p ∧ AUM_Hash aum ∉ children c p)
  then children c p ++ [AUM_Hash aum] else children c p.
Proof.
  intros Hok. unfold children at 1, commitOne. cbn [parentIndex].
  destruct (Parent aum) as [q|]; [|by rewrite bool_decide_false by naive_solver].
  case_bool_decide as Hin.
  - rewrite bool_decide_false; [done|]. intros [[= ->] ?]. done.
  - destruct (decide (q = p)) as [->|Hne].
    + rewrite lookup_insert_eq, bool_decide_true by done. done.
    + rewrite lookup_insert_ne, bool_decide_false by naive_solver. done.
Qed.

Lemma commitOne_aums c aum : aums (commitOne c aum) = <[AUM_Hash aum := aum]> (aums c).
Proof. done. Qed.

Lemma purgeOne_aums c h : aums (purgeOne c h) = delete h (aums c).
Proof. done. Qed.

Lemma commitOne_ok c aum :
  Mem_ok c → (∀ b, aums c !! AUM_Hash aum = Some b → b = aum) → Mem_ok (commitOne c aum).
Proof.
  intros Hok Hcf. split.
  - intros h a. rewrite commitOne_aums.
    intros [[<- <-]|[_ Ha]]%lookup_insert_Some; [done|]. by eapply ok_keyed.
  - intros p h. rewrite children_commitOne, commitOne_aums by done.
    setoid_rewrite lookup_insert_Some. case_bool_decide as Hc.
    + rewrite elem_of_app, list_elem_of_singleton, ok_index by done. split.
      * intros [(a & Ha & Hp)| ->]; [|naive_solver].
        exists a. split; [|done]. right. split; [|done]. intros <-.
        apply Hc. apply ok_index; eauto.
      * intros (a & [[<- <-]|[Hne Ha]] & Hp); [by right|]. eauto.
    + rewrite ok_index by done. split.
      * intros (a & Ha & Hp). exists a. split; [|done].
        destruct (decide (AUM_Hash aum = h)) as [<-|]; [left|right]; [|done].
        split; [done|]. symmetry. by apply Hcf.
      * intros (a & [[<- <-]|[Hne Ha]] & Hp); [|eauto].
        destruct (decide (AUM_Hash aum ∈ children c p)) as [Hin|]; [|naive_solver].
        apply ok_index in Hin; [|done]. done.
  - intros p. rewrite children_commitOne by done. case_bool_decide as Hc; [|by apply ok_nodup].
    apply NoDup_app. split_and!; [by apply ok_nodup|set_solver|apply NoDup_singleton].
  - cbn. rewrite !dom_insert_L, ok_times by done. done.
Qed.

Lemma commit_ok c l :
  Mem_ok c → collision_free (λ a, stored_in (aums c) a ∨ a ∈ l) →
  Mem_ok (foldl commitOne c l) ∧ aums (foldl commitOne c l) = commit_all (aums c) l
  ∧ lastActiveAncestor (foldl commitOne c l) = lastActiveAncestor c.
Proof.
  revert c. induction l as [|a l IH]; intros c Hok Hcf; [done|]. cbn.
  destruct (IH (commitOne c a)) as (? & ? & ?); [| |done].
  - apply commitOne_ok; [done|]. intros b Hb. apply Hcf; [left|right|].
    + by eexists.
    + set_solver.
    + by eapply ok_keyed.
  - rewrite commitOne_aums. intros x y Hx Hy. apply Hcf.
    + destruct Hx as [(h & [[_ <-]|[_ Hx]]%lookup_insert_Some)|Hx]; [set_solver|left; by eexists|set_solver].
    + destruct Hy as [(h & [[_ <-]|[_ Hy]]%lookup_insert_Some)|Hy]; [set_solver|left; by eexists|set_solver].
Qed.

Lemma children_purgeOne c h p :
  Mem_ok c → children (purgeOne c h) p = filter (λ other, h ≠ other) (children c p).
Proof.
  intros Hok. unfold children at 1, purgeOne. cbn [parentIndex].
  assert (h ∉ children c p → children c p = filter (λ other, h ≠ other) (children c p)) as Hskip.
  { intros Hn. symmetry. apply filter_all. intros x Hx ->. done. }
  destruct (aums c !! h) as [aum|] eqn:Ha.
  - destruct (Parent aum) as [q|] eqn:Hp.
    + destruct (decide (q = p)) as [->|Hne].
      * case_bool_decide as Hl.
        -- rewrite lookup_delete_eq. cbn. symmetry. by apply length_zero_iff_nil.
        -- by rewrite lookup_insert_eq.
      * assert (default [] ((if bool_decide (length (filter (λ other, h ≠ other) (children c q)) = 0%nat)
                 then delete q (parentIndex c)
                 else <[q:=filter (λ other, h ≠ other) (children c q)]> (parentIndex c)) !! p)
               = children c p) as ->.
        { case_bool_decide; by rewrite ?lookup_delete_ne, ?lookup_insert_ne by done. }
        apply Hskip. rewrite ok_index by done. naive_solver.
    + apply Hskip. rewrite ok_index by done. naive_solver.
  - apply Hskip. rewrite ok_index by done. naive_solver.
Qed.

Lemma purgeOne_ok c h : Mem_ok c → Mem_ok (purgeOne c h).
Proof.
  intros Hok. split.
  - intros h' a. rewrite purgeOne_aums. intros [_ Ha]%lookup_delete_Some. by eapply ok_keyed.
  - intros p h'. rewrite children_purgeOne, list_elem_of_filter, ok_index, purgeOne_aums by done.
    setoid_rewrite lookup_delete_Some. naive_solver.
  - intros p. rewrite children_purgeOne by done. by apply NoDup_filter, ok_nodup.
  - cbn. rewrite !dom_delete_L, ok_times by done. done.
Qed.

Lemma purge_ok c l :
  Mem_ok c → Mem_ok (foldl purgeOne c l) ∧ aums (foldl purgeOne c l) = purge_all (aums c) l
  ∧ lastActiveAncestor (foldl purgeOne c l) = lastActiveAncestor c.
Proof.
  revert c. induction l as [|h l IH]; intros c Hok; [done|]. cbn.
  destruct (IH (purgeOne c h)) as (? & ? & ?); [by apply purgeOne_ok|]. done.
Qed.

(** ** [Mem] keeps the promises of the interface *)

Lemma values_spec c a : a ∈ map snd (map_to_list (aums c)) ↔ stored_in (aums c) a.
Proof.
  rewrite list_elem_of_In, in_map_iff. unfold stored_in. split.
  - intros ((h & a') & <- & Hin%list_elem_of_In%elem_of_map_to_list). eauto.
  - intros (h & Ha). exists (h, a). split; [done|]. by apply list_elem_of_In, elem_of_map_to_list.
Qed.

Lemma values_nodup c : Mem_ok c → NoDup (map snd (map_to_list (aums c))).
Proof.
  intros Hok. apply NoDup_fmap_2_strong; [|apply NoDup_map_to_list].
  intros [h1 a1] [h2 a2] H1%elem_of_map_to_list H2%elem_of_map_to_list E. cbn in E. subst a2.
  f_equal. rewrite <- (ok_keyed c Hok _ _ H1). by apply (ok_keyed c Hok).
Qed.

Lemma no_children c h :
  Mem_ok c → children c h = [] ↔ ∀ b, stored_in (aums c) b → Parent b ≠ Some h.
Proof.
  intros Hok. split.
  - intros Hn b [hb Hb] Hp. assert (hb ∈ children c h) as Hin by (apply ok_index; eauto).
    rewrite Hn in Hin. set_solver.
  - intros Hn. apply elem_of_nil_inv. intros x (a & Ha & Hp)%ok_index; [|done].
    eapply Hn; [by eexists|done].
Qed.

Lemma Mem_Heads_spec c :
  Mem_ok c → ∃ l, Mem_Heads c = Ok l ∧ NoDup l ∧ ∀ a, a ∈ l ↔ is_head (aums c) a.
Proof.
  intros Hok. eexists. split_and!; [done|by apply NoDup_filter, values_nodup|].
  intros a. rewrite list_elem_of_filter, values_spec. unfold is_head.
  rewrite length_zero_iff_nil, no_children by done. naive_solver.
Qed.

Lemma Mem_ChildAUMs_spec c h :
  Mem_ok c → ∃ l, Mem_ChildAUMs c h = Ok l ∧ NoDup l
                  ∧ ∀ a, a ∈ l ↔ stored_in (aums c) a ∧ Parent a = Some h.
Proof.
  intros Hok.
  assert (∀ e a, e ∈ children c h → default AUM_zero (aums c !! e) = a →
            aums c !! e = Some a ∧ Parent a = Some h) as Hch.
  { intros e a (b & Hb & Hp)%ok_index E; [|done]. rewrite Hb in E. cbn in E. by subst. }
  eexists. split_and!; [done| |].
  - apply NoDup_fmap_2_strong; [|by apply ok_nodup]. intros x y Hx Hy E.
    destruct (Hch x _ Hx eq_refl) as [H1 _], (Hch y _ Hy (eq_sym E)) as [H2 _].
    rewrite <- (ok_keyed c Hok _ _ H1). by apply (ok_keyed c Hok).
  - intros a. rewrite list_elem_of_In, in_map_iff. split.
    + intros (e & E & He%list_elem_of_In). destruct (Hch e a He E). split; [by eexists|done].
    + intros ((e & He) & Hp). exists e. rewrite He. split; [done|].
      apply list_elem_of_In, ok_index; eauto.
Qed.

Lemma Mem_AllAUMs_spec c :
  ∃ l, Mem_AllAUMs c = Ok l ∧ NoDup l ∧ ∀ h, h ∈ l ↔ is_Some (aums c !! h).
Proof.
  eexists. split_and!; [done|apply NoDup_fst_map_to_list|].
  intros h. rewrite list_elem_of_In, in_map_iff. split.
  - intros ((h' & a) & <- & Hin%list_elem_of_In%elem_of_map_to_list). by exists a.
  - intros [a Ha]. exists (h, a). split; [done|]. by apply list_elem_of_In, elem_of_map_to_list.
Qed.

Lemma Mem_CommitTime_spec c h :
  Mem_ok c →
  match aums c !! h with
  | Some _ => ∃ t, Mem_CommitTime c h = Ok t
  | None => Mem_CommitTime c h = Err ErrNotExist
  end.
Proof.
  intros Hok. unfold Mem_CommitTime. pose proof (ok_times c Hok) as Hd.
  destruct (aums c !! h) as [a|] eqn:Ha.
  - assert (h ∈ dom (commitTimes c)) as [t ->]%elem_of_dom; [|by eexists].
    rewrite Hd. by apply elem_of_dom.
  - assert (h ∉ dom (commitTimes c)) as ->%not_elem_of_dom; [|done].
    rewrite Hd. by apply not_elem_of_dom.
Qed.

#[export] Instance Mem_laws : ChonkLaws Mem.
Proof.
  refine {| contents := aums; chonk_ok := Mem_ok |}.
  - intros c h a Hok. by apply ok_keyed.
  - intros c h _. unfold chonk_AUM, Mem_Chonk, Mem_AUM. by destruct (aums c !! h).
  - intros c h. apply Mem_ChildAUMs_spec.
  - intros c. apply Mem_Heads_spec.
  - intros c l Hok Hcf. destruct (commit_ok c l Hok Hcf) as (Hc & Hm & Hl).
    exists (foldl commitOne c l), (Ok tt), l, []. split_and!; [done|by rewrite app_nil_r|by left|done..|].
    cbn. unfold Mem_LastActiveAncestor. by rewrite Hl.
  - intros c h [? ? ? ?]. eexists. split_and!; [done| |done|done]. by split.
  - intros c _. by eexists.
  - intros c _. apply Mem_AllAUMs_spec.
  - intros c h. apply Mem_CommitTime_spec.
  - intros c l Hok. destruct (purge_ok c l Hok) as (Hc & Hm & Hl).
    exists (foldl purgeOne c l). split_and!; [done..|]. cbn. unfold Mem_LastActiveAncestor. by rewrite Hl.
  - intros c _. eexists. split_and!; [done| |done|done].
    destruct (ChonkMem_ok (clock c)). by split.
Defined.

(** ** Sequences of operations *)

Inductive op :=
  | OpCommit (l : list AUM)
  | OpPurge (l : list AUMHash)
  | OpSetLast (h : AUMHash)
  | OpRemoveAll.

Definition exec (c : Mem) (o : op) : res Mem :=
  match o with
  | OpCommit l => let '(c', r) := Mem_CommitVerifiedAUMs c l in _ ← r; Ok c'
  | OpPurge l => Mem_PurgeAUMs c l
  | OpSetLast h => Mem_SetLastActiveAncestor c h
  | OpRemoveAll => Mem_RemoveAll c
  end.

(** The specification: a finite map and the last active ancestor. *)
Definition spec_exec (m : gmap AUMHash AUM * option AUMHash) (o : op)
    : gmap AUMHash AUM * option AUMHash :=
  match o with
  | OpCommit l => (commit_all (fst m) l, snd m)
  | OpPurge l => (purge_all (fst m) l, snd m)
  | OpSetLast h => (fst m, Some h)
  | OpRemoveAll => (∅, None)
  end.

Definition committed (ops : list op) : list AUM :=
  concat (map (λ o, match o with OpCommit l => l | _ => [] end) ops).

Lemma commit_all_from m l a : stored_in (commit_all m l) a → stored_in m a ∨ a ∈ l.
Proof.
  revert m. induction l as [|x l IH]; intros m Ha; [by left|].
  change (commit_all m (x :: l)) with (commit_all (<[AUM_Hash x := x]> m) l) in Ha.
  destruct (IH _ Ha) as [[h [[_ <-]|[_ Hh]]%lookup_insert_Some]|?];
    [right; set_solver|left; by eexists|right; set_solver].
Qed.

Lemma purge_all_from m l a : stored_in (purge_all m l) a → stored_in m a.
Proof.
  revert m. induction l as [|x l IH]; intros m Ha; [done|].
  change (purge_all m (x :: l)) with (purge_all (delete x m) l) in Ha.
  destruct (IH _ Ha) as [h [_ Hh]%lookup_delete_Some]. by eexists.
Qed.

(** Every operation succeeds, keeps the invariant and does what the
    specification does. *)
Lemma exec_spec c o :
  Mem_ok c → collision_free (λ a, stored_in (aums c) a ∨ a ∈ committed [o]) →
  ∃ c', exec c o = Ok c' ∧ Mem_ok c'
    ∧ (aums c', lastActiveAncestor c') = spec_exec (aums c, lastActiveAncestor c) o.
Proof.
  intros Hok Hcf. destruct o as [l|l|h|]; cbn in *.
  - rewrite app_nil_r in Hcf. destruct (commit_ok c l Hok Hcf) as (? & E1 & E2).
    eexists. split_and!; [done..|]. by rewrite E1, E2.
  - destruct (purge_ok c l Hok) as (? & E1 & E2). eexists. split_and!; [done..|]. by rewrite E1, E2.
  - eexists. split_and!; [done| |done]. by destruct Hok.
  - eexists. split_and!; [done| |done]. destruct (ChonkMem_ok (clock c)). by split.
Qed.

Lemma spec_exec_from m o a :
  stored_in (fst (spec_exec m o)) a → stored_in (fst m) a ∨ a ∈ committed [o].
Proof.
  destruct o; cbn; rewrite ?app_nil_r; [apply commit_all_from|..]; intros Ha; left.
  - by eapply purge_all_from.
  - done.
  - destruct Ha as [? Ha]. by rewrite lookup_empty in Ha.
Qed.

Lemma execs_spec ops c :
  Mem_ok c → collision_free (λ a, stored_in (aums c) a ∨ a ∈ committed ops) →
  ∃ c', foldM exec c ops = Ok c' ∧ Mem_ok c'
    ∧ (aums c', lastActiveAncestor c') = foldl spec_exec (aums c, lastActiveAncestor c) ops.
Proof.
  revert c. induction ops as [|o ops IH]; intros c Hok Hcf; [by eexists|].
  assert (committed (o :: ops) = committed [o] ++ committed ops) as Hc
    by (unfold committed; cbn; by rewrite app_nil_r).
  rewrite Hc in Hcf. destruct (exec_spec c o Hok) as (c1 & E1 & Hok1 & Hs1).
  { intros x y Hx Hy. apply Hcf; rewrite elem_of_app; tauto. }
  destruct (IH c1 Hok1) as (c' & E & Hok' & Hs).
  { assert (∀ x, stored_in (aums c1) x → stored_in (aums c) x ∨ x ∈ committed [o]) as Hf.
    { intros x Hx. apply (f_equal fst) in Hs1. cbn in Hs1. rewrite Hs1 in Hx.
      by apply spec_exec_from in Hx. }
    intros x y Hx Hy. apply Hcf; rewrite elem_of_app;
      [destruct Hx as [Hx%Hf|]|destruct Hy as [Hy%Hf|]]; tauto. }
  exists c'. cbn. rewrite E1. cbn. split_and!; [done..|]. by rewrite Hs, Hs1.
Qed.

(** C35. Starting from an empty [Mem], any sequence of commits, purges, ancestor
    updates and resets (whose messages have no hash collision) succeeds, and
    afterwards the lookups answer from the finite map that the sequence
    describes: a message is found under its hash, [ChildAUMs] lists exactly the
    stored children once each, [Heads] lists exactly the stored messages that
    have no stored child, [AllAUMs] every stored hash once, and [CommitTime]
    answers for exactly the stored messages. *)
Theorem Mem_implements_store clk ops :
  collision_free (λ a, a ∈ committed ops) →
  ∃ c, foldM exec (ChonkMem clk) ops = Ok c
    ∧ let '(m, anc) := foldl spec_exec (∅, None) ops in
      Mem_LastActiveAncestor c = Ok anc
      ∧ (∀ h, Mem_AUM c h = match m !! h with Some a => Ok a | None => Err ErrNotExist end)
      ∧ (∀ h, is_ok (Mem_CommitTime c h) = bool_decide (is_Some (m !! h)))
      ∧ (∀ p, ∃ l, Mem_ChildAUMs c p = Ok l ∧ NoDup l
                   ∧ ∀ a, a ∈ l ↔ stored_in m a ∧ Parent a = Some p)
      ∧ (∃ l, Mem_Heads c = Ok l ∧ NoDup l ∧ ∀ a, a ∈ l ↔ is_head m a)
      ∧ (∃ l, Mem_AllAUMs c = Ok l ∧ NoDup l ∧ ∀ h, h ∈ l ↔ is_Some (m !! h)).
Proof.
  intros Hcf. destruct (execs_spec ops (ChonkMem clk)) as (c & E & Hok & Hs).
  { apply ChonkMem_ok. }
  { intros x y Hx Hy. apply Hcf; [destruct Hx as [[? Hx]|]|destruct Hy as [[? Hy]|]]; try done;
      cbn in *; by rewrite lookup_empty in *. }
  exists c. split; [done|]. cbn in Hs. rewrite <- Hs. split_and!.
  - done.
  - intros h. unfold Mem_AUM. by destruct (aums c !! h).
  - intros h. pose proof (Mem_CommitTime_spec c h Hok) as Ht.
    destruct (aums c !! h); [destruct Ht as [? ->]|rewrite Ht]; done.
  - intros p. by apply Mem_ChildAUMs_spec.
  - by apply Mem_Heads_spec.
  - apply Mem_AllAUMs_spec.
Qed.

End Operations.

Lemma Mem_implements_store_witness :
  ∃ c, foldM exec (ChonkMem Z.of_nat) [OpCommit [aum0; aum1]; OpPurge [hash0]] = Ok c
       ∧ Mem_AUM c hash1 = Ok aum1 ∧ Mem_AUM c hash0 = Err ErrNotExist.
Proof.
  destruct (Mem_implements_store Z.of_nat [OpCommit [aum0; aum1]; OpPurge [hash0]])
    as (c & E & Hs).
  { apply (collision_freeb_ok _ [aum0; aum1]); [done|by vm_compute]. }
  exists c. split; [exact E|]. destruct (foldl _ _ _) as [m anc] eqn:F.
  destruct Hs as (_ & HA & _). rewrite !HA.
  apply (f_equal fst) in F. cbn [fst] in F. rewrite <- F. split; by vm_compute.
Defined.

End Mem.
