(* ===== verification/TkaAuthority.v ===== *)
(** * Tailnet key authority: chains, verification and updates

    Models [src/tka/tka.go] and [src/tka/verify.go] on top of the [Chonk]
    interface: finding the active chain in storage, replaying it, verifying and
    applying updates, and building a retroactive revocation. *)

From S2P Require Import Prelude TkaTypes TkaState TkaFork TkaChonk.

Section Authority.
Context `{TkaCrypto} {Store : Type} `{Chonk Store}.

Record Authority := mkAuthority {
  head : AUM;
  oldestAncestor : AUM;
  state : State
}.

Definition Authority_Clone (a : Authority) : Authority :=
  {| head := head a; oldestAncestor := oldestAncestor a; state := State_Clone (state a) |}.

Record chain := mkChain {
  Oldest : AUM;
  ch_Head : AUM;
  ch_state : State;
  chainsThroughActive : bool
}.

(** ** Candidate chains *)

(** The body of the inner loop of [computeChainCandidates]: one step back from
    [Oldest]; the boolean says whether there was a step ([iterAgain]). *)
Definition stepBack (storage : Store) (lastKnownOldest : option AUMHash) (c : chain)
    : res (chain * bool) :=
  match Parent (Oldest c) with
  | None => Ok (c, false)
  | Some parentHash =>
      match chonk_AUM storage parentHash with
      | Err e => if bool_decide (e = ErrNotExist) then Ok (c, false)
                 else Err (Errorf "reading parent")
      | Ok parent =>
          let through :=
            if bool_decide (lastKnownOldest = Some (AUM_Hash parent)) then true
            else chainsThroughActive c in
          Ok ({| Oldest := parent; ch_Head := ch_Head c; ch_state := ch_state c;
                 chainsThroughActive := through |}, true)
      | Panic => Panic
      | NoFuel => NoFuel
      end
  end.

Fixpoint stepBackAll (storage : Store) (lastKnownOldest : option AUMHash) (cs : list chain)
    : res (list chain * bool) :=
  match cs with
  | [] => Ok ([], false)
  | c :: cs =>
      '(c', again) ← stepBack storage lastKnownOldest c;
      '(cs', again') ← stepBackAll storage lastKnownOldest cs;
      Ok (c' :: cs', (again : bool) || again')
  end.

(** [for i := 0; iterAgain; i++ { if i >= maxIter { .. } .. }]: the fuel is what
    remains of [maxIter]. *)
Fixpoint candidatesLoop (storage : Store) (lastKnownOldest : option AUMHash) (iters : nat)
    (cs : list chain) : res (list chain) :=
  match iters with
  | O => Err (Errorf "iteration limit exceeded")
  | S iters =>
      '(cs', iterAgain) ← stepBackAll storage lastKnownOldest cs;
      if (iterAgain : bool) then candidatesLoop storage lastKnownOldest iters cs' else Ok cs'
  end.

Definition computeChainCandidates (storage : Store) (lastKnownOldest : option AUMHash)
    (maxIter : nat) : res (list chain) :=
  heads ← wrapf "reading heads" (Heads storage);
  let candidates := map (λ h, {| Oldest := h; ch_Head := h; ch_state := State_zero;
                                 chainsThroughActive := false |}) heads in
  candidates ← sort_Slice (λ ci cj,
      Ok (match bytes_Compare (AUM_Hash (Oldest ci)) (AUM_Hash (Oldest cj)) with
          | Lt => true | _ => false end)) candidates;
  candidatesLoop storage lastKnownOldest maxIter candidates.

(** ** Fast forward *)

(** The termination function may collect values ([MissingAUMs] does): it takes
    and returns an accumulator. *)
Fixpoint fastForward_loop {X} (storage : Store)
    (advancer : State → list AUM → res (option AUM * State))
    (done : X → AUM → State → bool * X)
    (iters : nat) (curs : AUM) (st : State) (x : X) : res (AUM * State * X) :=
  match iters with
  | O => Err (Errorf "iteration limit exceeded")
  | S iters =>
      let '(stop, x) := done x curs st in
      if (stop : bool) then Ok (curs, st, x)
      else
        children ← wrapf "getting children" (ChildAUMs storage (AUM_Hash curs));
        '(next, nextState) ← wrapf "advance" (advancer st children);
        match next with
        | None => Ok (curs, st, x)
        | Some next => fastForward_loop storage advancer done iters next nextState x
        end
  end.

Definition fastForwardWithAdvancer {X} (storage : Store) (maxIter : nat) (startState : State)
    (advancer : State → list AUM → res (option AUM * State))
    (done : X → AUM → State → bool * X) (x : X) : res (AUM * State * X) :=
  match LastAUMHash startState with
  | None => Err (Errorf "invalid initial state")
  | Some h =>
      nextAUM ← wrapf "reading next" (chonk_AUM storage h);
      fastForward_loop storage advancer done maxIter nextAUM startState x
  end.

Definition fastForward {X} (storage : Store) (maxIter : nat) (startState : State)
    (done : X → AUM → State → bool * X) (x : X) : res (AUM * State * X) :=
  fastForwardWithAdvancer storage maxIter startState advanceByPrimary done x.

(** A nil termination function, and one that only tests. *)
Definition done_nil : unit → AUM → State → bool * unit := λ u _ _, (false, u).
Definition done_at (p : AUM → bool) : unit → AUM → State → bool * unit := λ u a _, (p a, u).

(** ** The state at a given message *)

(** The backward loop: from [curs] to a checkpoint or a genesis message,
    collecting the hashes on the way. *)
Fixpoint backToStart (storage : Store) (iters : nat) (curs : AUM) (path : gset AUMHash)
    : res (State * gset AUMHash) :=
  match iters with
  | O => Err (Errorf "iteration limit exceeded")
  | S iters =>
      let path := {[AUM_Hash curs]} ∪ path in
      if bool_decide (MessageKind curs = AUMCheckpoint) then
        match aum_State curs with
        | Some st => Ok (cloneForUpdate st curs, path)
        | None => Panic
        end
      else
        match Parent curs with
        | None =>
            if bool_decide (MessageKind curs = AUMNoOp) || bool_decide (MessageKind curs = AUMAddKey)
            then st ← wrapf "applying genesis" (applyVerifiedAUM State_zero curs); Ok (st, path)
            else Err (Errorf "invalid genesis update")
        | Some parent =>
            curs ← wrapf "reading parent" (chonk_AUM storage parent);
            backToStart storage iters curs path
        end
  end.

(** The custom advancer: the first candidate on the path. *)
Fixpoint advanceOnPath (path : gset AUMHash) (st : State) (candidates : list AUM)
    : res (option AUM * State) :=
  match candidates with
  | [] => Err (Errorf "no candidate matching path")
  | c :: cs =>
      if bool_decide (AUM_Hash c ∈ path)
      then st' ← wrapf "advancing state" (applyVerifiedAUM st c); Ok (Some c, st')
      else advanceOnPath path st cs
  end.

Definition computeStateAt (storage : Store) (maxIter : nat) (wantHash : AUMHash) : res State :=
  topAUM ← chonk_AUM storage wantHash;
  '(start, path) ← backToStart storage (S maxIter) topAUM ∅;
  '(_, st, _) ← fastForwardWithAdvancer storage maxIter start (advanceOnPath path)
                  (done_at (λ curs, bool_decide (AUM_Hash curs = wantHash))) tt;
  match LastAUMHash st with
  | Some h => if bool_decide (h = wantHash) then Ok st
              else Err (Errorf "unexpected fastForward outcome")
  | None => Panic
  end.

(** ** The active chain *)

Definition computeActiveAncestor (chains : list chain) : res AUMHash :=
  let ancestors : gmap AUMHash bool :=
    foldl (λ m c, <[AUM_Hash (Oldest c) := chainsThroughActive c]> m) ∅ chains in
  match map_to_list ancestors with
  | [(k, _)] => Ok k
  | l =>
      match List.find snd l with
      | Some (k, _) => Ok k
      | None => Err (Errorf "multiple distinct chains")
      end
  end.

Definition computeActiveChain (storage : Store) (lastKnownOldest : option AUMHash) (maxIter : nat)
    : res chain :=
  chains ← wrapf "computing candidates"
             (computeChainCandidates storage lastKnownOldest maxIter);
  if bool_decide (length chains = 0%nat) then Err (Errorf "no chain candidates in AUM storage")
  else
    oldestHash ← wrapf "computing ancestor" (computeActiveAncestor chains);
    ancestor ← chonk_AUM storage oldestHash;
    st ← wrapf "bootstrapping state" (computeStateAt storage maxIter oldestHash);
    '(hd, st, _) ← wrapf "fast forward" (fastForward storage maxIter st done_nil tt);
    Ok {| Oldest := ancestor; ch_Head := hd; ch_state := st; chainsThroughActive := false |}.

(** ** Verification *)

Definition signatureVerify (s : AUMSignature) (aumDigest : bytes) (key : Key) : res unit :=
  match Kind key with
  | Key25519 =>
      if negb (zlen (Public key) =? ed25519_PublicKeySize)
      then Err (Errorf "ed25519 key has wrong length")
      else if ed25519consensus_Verify (Public key) aumDigest (sig_Signature s) then Ok tt
      else Err (Errorf "invalid signature")
  | _ => Err (Errorf "unhandled key type")
  end.

Definition checkParent (aum : AUM) (st : State) : res unit :=
  match Parent aum with
  | None => Err (Errorf "aum has no parent")
  | Some parent =>
      match LastAUMHash st with
      | None => Err (Errorf "cannot check update parent hash against a state with no previous AUM")
      | Some h => fail_if (bool_decide (h ≠ parent)) "aum cannot be applied to this state"
      end
  end.

Definition aumVerify (aum : AUM) (st : State) (isGenesisAUM : bool) : res unit :=
  _ ← wrapf "invalid" (AUM_StaticValidate aum);
  _ ← (if isGenesisAUM then Ok tt else checkParent aum st);
  _ ← fail_if (bool_decide (length (Signatures aum) = 0%nat)) "unsigned AUM";
  let sigHash := AUM_SigHash aum in
  _ ← for_each (λ sig,
        key ← wrapf "bad keyID on signature" (GetKey st (sig_KeyID sig));
        wrapf "signature" (signatureVerify sig sigHash key)) (Signatures aum);
  match MessageKind aum, Keys st with
  | AUMRemoveKey, [k] =>
      match Key_ID k with
      | Ok kid => fail_if (bool_decide (opt_bytes (aum_KeyID aum) = kid))
                    "cannot remove the last key in the state"
      | _ => Ok tt
      end
  | _, _ => Ok tt
  end.

(** ** The authority *)

(** [*a.state.LastAUMHash]: a nil pointer would panic. *)
Definition Authority_Head (a : Authority) : res AUMHash :=
  match LastAUMHash (state a) with Some h => Ok h | None => Panic end.

Definition authority_of_chain (c : chain) : Authority :=
  {| head := ch_Head c; oldestAncestor := Oldest c; state := ch_state c |}.

Definition Open (storage : Store) : res Authority :=
  a ← wrapf "reading last ancestor" (LastActiveAncestor storage);
  c ← wrapf "active chain" (computeActiveChain storage a maxScanIterations);
  Ok (authority_of_chain c).

Definition Bootstrap (storage : Store) (bootstrap : AUM) : res (Store * Authority) :=
  heads ← wrapf "reading heads" (Heads storage);
  _ ← fail_if (bool_decide (length heads ≠ 0%nat)) "tailchonk is not empty";
  _ ← fail_if (bool_decide (MessageKind bootstrap ≠ AUMCheckpoint))
        "bootstrap AUMs must be checkpoint messages";
  match aum_State bootstrap with
  | None => Err (Errorf "bootstrap AUM is missing state")
  | Some st =>
      _ ← wrapf "invalid bootstrap" (aumVerify bootstrap st true);
      storage ← (let '(storage', r) := CommitVerifiedAUMs storage [bootstrap] in
                 _ ← wrapf "commit" r; Ok storage');
      storage ← wrapf "set ancestor" (SetLastActiveAncestor storage (AUM_Hash bootstrap));
      a ← Open storage;
      Ok (storage, a)
  end.

(** [aum.Signatures = append(aum.Signatures, sigs...)] *)
Definition add_Signatures (sigs : list AUMSignature) (a : AUM) : AUM :=
  {| MessageKind := MessageKind a; PrevAUMHash := PrevAUMHash a; aum_Key := aum_Key a;
     aum_KeyID := aum_KeyID a; aum_State := aum_State a; aum_Votes := aum_Votes a;
     aum_Meta := aum_Meta a; Signatures := Signatures a ++ sigs |}.

Definition genesisAUM (st : State) : AUM :=
  {| MessageKind := AUMCheckpoint; PrevAUMHash := None; aum_Key := None; aum_KeyID := None;
     aum_State := Some st; aum_Votes := None; aum_Meta := None; Signatures := [] |}.

(** [signer] is the [SignAUM] method of the [Signer] interface. *)
Definition Create (storage : Store) (st : State) (signer : bytes → res (list AUMSignature))
    : res (Store * Authority * AUM) :=
  let genesis := genesisAUM st in
  _ ← wrapf "invalid state" (AUM_StaticValidate genesis);
  sigs ← wrapf "signing failed" (signer (AUM_SigHash genesis));
  let genesis := add_Signatures sigs genesis in
  '(storage, a) ← Bootstrap storage genesis;
  Ok (storage, a, genesis).

Definition ValidDisablement (a : Authority) (secret : bytes) : bool :=
  checkDisablement (state a) secret.

Definition KeyTrusted (a : Authority) (keyID : KeyID_t) : bool := is_ok (GetKey (state a) keyID).

Definition Authority_Keys (a : Authority) : list Key := map Key_Clone (Keys (state a)).

Definition StateIDs (a : Authority) : N * N := (StateID1 (state a), StateID2 (state a)).

(** ** Applying updates *)

(** The variables that the loop of [InformIdempotent] updates. *)
Record InformVars := mkInformVars {
  stateAt : gmap AUMHash State;
  toCommit : list AUM;
  prevHash : AUMHash;
  isHeadChain : bool
}.

(** One iteration of that loop. *)
Definition informStep (storage : Store) (v : InformVars) (update : AUM) : res InformVars :=
  let hash := AUM_Hash update in
  match chonk_AUM storage hash with
  | Panic => Panic
  | NoFuel => NoFuel
  | Ok _ =>
      Ok {| stateAt := stateAt v; toCommit := toCommit v; prevHash := prevHash v;
            isHeadChain := false |}
  | Err _ =>
      match Parent update with
      | None => Err (Errorf "missing parent")
      | Some parent =>
          '(st, sa) ← match stateAt v !! parent with
                      | Some st => Ok (st, stateAt v)
                      | None =>
                          st ← wrapf "computing state"
                                 (computeStateAt storage maxScanIterations parent);
                          Ok (st, <[parent := st]> (stateAt v))
                      end;
          _ ← wrapf "invalid" (aumVerify update st false);
          st' ← wrapf "cannot be applied" (applyVerifiedAUM st update);
          Ok {| stateAt := <[hash := st']> sa;
                toCommit := toCommit v ++ [update];
                prevHash := hash;
                isHeadChain := if isHeadChain v && bool_decide (parent ≠ prevHash v)
                               then false else isHeadChain v |}
      end
  end.

(** Storage after the call and the result: an error may come after the commit,
    or in the middle of it. *)
Definition InformIdempotent (a : Authority) (storage : Store) (updates : list AUM)
    : Store * res Authority :=
  if bool_decide (length updates = 0%nat)
  then (storage, Err (Errorf "inform called with empty slice"))
  else
    match
      (h ← Authority_Head a;
       foldM (informStep storage)
         {| stateAt := {[h := state a]}; toCommit := []; prevHash := h; isHeadChain := true |}
         updates)
    with
    | Err e => (storage, Err e)
    | Panic => (storage, Panic)
    | NoFuel => (storage, NoFuel)
    | Ok v =>
        let '(storage', r) := CommitVerifiedAUMs storage (toCommit v) in
        match wrapf "commit" r with
        | Err e => (storage', Err e)
        | Panic => (storage', Panic)
        | NoFuel => (storage', NoFuel)
        | Ok _ =>
            (storage',
             if isHeadChain v then
               match last updates with
               | Some u =>
                   Ok {| head := u; oldestAncestor := oldestAncestor a;
                         state := default State_zero (stateAt v !! prevHash v) |}
               | None => Panic
               end
             else
               c ← wrapf "recomputing active chain"
                     (computeActiveChain storage' (Some (AUM_Hash (oldestAncestor a)))
                        maxScanIterations);
               Ok (authority_of_chain c))
        end
    end.

(** [Inform]: the authority is replaced only on success. *)
Definition Inform (a : Authority) (storage : Store) (updates : list AUM)
    : Store * Authority * res unit :=
  match InformIdempotent a storage updates with
  | (storage', Ok a') => (storage', a', Ok tt)
  | (storage', Err e) => (storage', a, Err e)
  | (storage', Panic) => (storage', a, Panic)
  | (storage', NoFuel) => (storage', a, NoFuel)
  end.

(** ** Retroactive revocation *)

(** [for { .. }] of [findParentForRewrite], with fuel. *)
Fixpoint findParentLoop (a : Authority) (storage : Store) (removeKeys : list KeyID_t)
    (ourKey : KeyID_t) (fuel : nat) (cursor : AUMHash) : res AUMHash :=
  match fuel with
  | O => NoFuel
  | S fuel =>
      if bool_decide (cursor = AUM_Hash (oldestAncestor a)) then Ok cursor
      else
        aum ← wrapf "reading AUM" (chonk_AUM storage cursor);
        st ← wrapf "computing state" (computeStateAt storage maxScanIterations cursor);
        let keyTrusted := existsb (λ key, is_ok (GetKey st key)) removeKeys in
        if negb keyTrusted && is_ok (GetKey st ourKey) then Ok cursor
        else
          match Parent aum with
          | None => Ok cursor
          | Some parent => findParentLoop a storage removeKeys ourKey fuel parent
          end
  end.

Definition findParentForRewrite (a : Authority) (storage : Store) (removeKeys : list KeyID_t)
    (ourKey : KeyID_t) (fuel : nat) : res AUMHash :=
  h ← Authority_Head a;
  findParentLoop a storage removeKeys ourKey fuel h.

(** The loop that drops the revoked keys from a copy of the state. *)
Fixpoint revokeKeys (ks : list Key) (removeKeys : list KeyID_t) : res (list Key) :=
  match removeKeys with
  | [] => Ok ks
  | keyToRevoke :: rest =>
      idx ← wrapf "computing keyID" (findKeyIdx ks keyToRevoke 0);
      revokeKeys (match idx with Some i => deleteIdx i ks | None => ks end) rest
  end.

Definition MakeRetroactiveRevocation (a : Authority) (storage : Store)
    (removeKeys : list KeyID_t) (ourKey : KeyID_t) (forkFrom : AUMHash) (fuel : nat)
    : res AUM :=
  parent ←
    (if bool_decide (forkFrom = replicate 32 0) then
       if negb (existsb (λ k, is_ok (GetKey (state a) k)) removeKeys)
       then Err (Errorf "no provided key is currently trusted")
       else wrapf "finding parent" (findParentForRewrite a storage removeKeys ourKey fuel)
     else Ok forkFrom);
  let st := State_Clone (state a) in
  ks ← revokeKeys (Keys st) removeKeys;
  if bool_decide (length ks = 0%nat) then Err (Errorf "cannot revoke all trusted keys")
  else
    let st := {| LastAUMHash := None; DisablementValues := DisablementValues st; Keys := ks;
                 StateID1 := StateID1 st; StateID2 := StateID2 st |} in
    let forkingAUM :=
      {| MessageKind := AUMCheckpoint; PrevAUMHash := Some parent; aum_Key := None;
         aum_KeyID := None; aum_State := Some st; aum_Votes := None; aum_Meta := None;
         Signatures := [] |} in
    _ ← AUM_StaticValidate forkingAUM;
    Ok forkingAUM.

End Authority.
