(* ===== verification/TkaReplay.v ===== *)
(** * Tailnet key authority: replaying stored messages

    Theorems about [fastForward], [computeStateAt], [computeActiveChain] and
    [Open] of [src/tka/tka.go], proved against the [Chonk] interface: what state
    they compute, that they follow the fork-resolution rules, and that the
    result depends only on which messages are stored. *)

From S2P Require Import Prelude TkaTypes TkaState TkaFork TkaChonk TkaAuthority TkaFixtures.

(** A store as the authority expects it: consistent, with valid messages. *)
Definition store_valid `{TkaCrypto} {Store} `{Chonk Store} `{!ChonkLaws Store}
    (storage : Store) : Prop :=
  chonk_ok storage ∧ ∀ a, stored_in (contents storage) a → AUM_valid a.

(** No message is its own ancestor: a digest cannot be part of its own input. *)
Definition acyclic `{TkaCrypto} (m : gmap AUMHash AUM) : Prop :=
  ∃ rank : AUM → nat, ∀ a b,
    stored_in m a → stored_in m b → Parent b = Some (AUM_Hash a) → (rank a < rank b)%nat.

Section Replay.
Context `{TkaCrypto} {Store : Type} `{Chonk Store} `{!ChonkLaws Store}.

Lemma AUM_valid_sigs a : AUM_valid a → sigs_wf (Signatures a).
Proof. intros Ha. eapply Forall_impl; [by apply av_sigs|]. naive_solver. Qed.

Lemma stored_hash (storage : Store) a :
  chonk_ok storage → stored_in (contents storage) a →
  contents storage !! AUM_Hash a = Some a.
Proof. intros Hok [h Hh]. by rewrite (law_keyed _ _ _ Hok Hh). Qed.

Lemma stored_inj (storage : Store) a b :
  chonk_ok storage → stored_in (contents storage) a → stored_in (contents storage) b →
  AUM_Hash a = AUM_Hash b → a = b.
Proof.
  intros Hok Ha%(stored_hash storage) Hb%(stored_hash storage) E; [|done..]. congruence.
Qed.

Lemma chonk_AUM_Ok (storage : Store) h a :
  chonk_ok storage → chonk_AUM storage h = Ok a ↔ contents storage !! h = Some a.
Proof. intros Hok. rewrite law_AUM by done. case_match; naive_solver. Qed.

Lemma chonk_AUM_hash (storage : Store) h a :
  chonk_ok storage → chonk_AUM storage h = Ok a →
  AUM_Hash a = h ∧ stored_in (contents storage) a.
Proof. intros Hok Ha%chonk_AUM_Ok; [|done]. split; [by eapply law_keyed|by eexists]. Qed.

Lemma ChildAUMs_Ok (storage : Store) h l :
  chonk_ok storage → ChildAUMs storage h = Ok l →
  NoDup l ∧ ∀ a, a ∈ l ↔ stored_in (contents storage) a ∧ Parent a = Some h.
Proof. intros Hok Hl. destruct (law_ChildAUMs storage h Hok) as (l' & E & ?). rewrite Hl in E. by injection E as ->. Qed.

Lemma children_wf (storage : Store) h l :
  store_valid storage → ChildAUMs storage h = Ok l → candidates_wf l.
Proof.
  intros [Hok Hv] Hl. apply ChildAUMs_Ok in Hl as [Hnd Hin]; [|done]. split.
  - apply Forall_forall. intros a Ha. apply AUM_valid_sigs, Hv, Hin, Ha.
  - apply NoDup_fmap_2_strong; [|done]. intros a b Ha Hb E.
    apply (stored_inj storage); [done|by apply Hin..|done].
Qed.

(** ** Fast forward is a replay *)

(** Replaying [path] from [st] at [curs]: the messages are stored, they apply in
    order, and the last one is [c']. *)
Definition replays (storage : Store) (curs : AUM) (st : State) (path : list AUM)
    (c' : AUM) (st' : State) : Prop :=
  foldM applyVerifiedAUM st path = Ok st'
  ∧ Forall (stored_in (contents storage)) path
  ∧ c' = default curs (last path).

Lemma replays_cons storage curs st next st1 path c' st' :
  applyVerifiedAUM st next = Ok st1 → stored_in (contents storage) next →
  replays storage next st1 path c' st' → replays storage curs st (next :: path) c' st'.
Proof.
  intros Ha Hs (Hf & Hp & ->). split_and!; [by cbn; rewrite Ha|by constructor|].
  rewrite last_cons. by destruct (last path).
Qed.

(** What an advancer may do: pick one of the candidates and apply it. *)
Definition picks (advancer : State → list AUM → res (option AUM * State)) : Prop :=
  ∀ st cs next st', advancer st cs = Ok (next, st') →
    match next with
    | Some a => a ∈ cs ∧ applyVerifiedAUM st a = Ok st'
    | None => cs = [] ∧ st' = st
    end.

Lemma pickNextAUM_mem st cs a :
  pickNextAUM st cs = Ok a → a ∈ cs.
Proof.
  unfold pickNextAUM. intros Hp. destruct cs as [|c1 [|c2 cs]]; [done|set_solver|].
  apply bind_Ok in Hp as (l & Hl & Hp). destruct l as [|c l]; [done|]. simplify_eq.
  apply sort_Slice_perm in Hl. rewrite <- Hl. set_solver.
Qed.

Lemma advanceByPrimary_picks : picks advanceByPrimary.
Proof.
  intros st cs next st' Ha. unfold advanceByPrimary in Ha. destruct cs as [|c cs].
  { by simplify_eq. }
  apply bind_Ok in Ha as (a & Hp & Ha). apply bind_Ok in Ha as (s & Hs & Ha).
  apply wrapf_Ok in Hs. simplify_eq. split; [by eapply pickNextAUM_mem|done].
Qed.

Lemma advanceOnPath_picks path : picks (advanceOnPath path).
Proof.
  intros st cs next st'. induction cs as [|c cs IH]; intros Ha; cbn in Ha; [done|].
  case_bool_decide.
  - apply bind_Ok in Ha as (s & Hs & Ha). apply wrapf_Ok in Hs. simplify_eq. set_solver.
  - pose proof (IH Ha) as Hi. destruct next; [set_solver|]. by destruct Hi as [-> _].
Qed.

Lemma fastForward_loop_replays {X} (storage : Store) advancer done_ iters curs st (x : X) c' st' x' :
  chonk_ok storage → picks advancer →
  fastForward_loop storage advancer done_ iters curs st x = Ok (c', st', x') →
  ∃ path, replays storage curs st path c' st'.
Proof.
  intros Hok Hpick. revert curs st x. induction iters as [|iters IH]; intros curs st x Hf; [done|].
  cbn in Hf. destruct (done_ x curs st) as [stop x1]. destruct stop.
  { simplify_eq. by exists []. }
  apply bind_Ok in Hf as (cs & Hcs & Hf). apply wrapf_Ok in Hcs.
  apply bind_Ok in Hf as ([next st1] & Ha & Hf). apply wrapf_Ok in Ha. apply Hpick in Ha.
  destruct next as [a|].
  - destruct Ha as [Hin Ha]. apply IH in Hf as [path Hr]. exists (a :: path).
    eapply replays_cons; [done| |done]. eapply ChildAUMs_Ok in Hcs as [_ Hc]; [|done].
    by apply Hc in Hin as [? _].
  - destruct Ha as [_ ->]. simplify_eq. by exists [].
Qed.

(** ** The invariant along a replay *)

Lemma replay_state (storage : Store) st path st' :
  store_valid storage → State_wf st → Forall (stored_in (contents storage)) path →
  foldM applyVerifiedAUM st path = Ok st' →
  State_wf st' ∧ LastAUMHash st' = default (LastAUMHash st) ((λ a, Some (AUM_Hash a)) <$> last path).
Proof.
  intros [_ Hv]. revert st. induction path as [|a path IH]; intros st Hw Hp Hf; cbn in Hf.
  { by simplify_eq. }
  apply bind_Ok in Hf as (st1 & Ha & Hf). inversion Hp; subst.
  destruct (apply_Ok st a st1) as (_ & Hw1 & Hl1); [done|by apply Hv|done|].
  destruct (IH st1) as [Hw' Hl']; [done..|]. split; [done|]. rewrite Hl', last_cons.
  by destruct (last path).
Qed.

Lemma replays_last (storage : Store) curs st path c' st' :
  store_valid storage → State_wf st → LastAUMHash st = Some (AUM_Hash curs) →
  replays storage curs st path c' st' →
  State_wf st' ∧ LastAUMHash st' = Some (AUM_Hash c').
Proof.
  intros Hv Hw Hl (Hf & Hp & ->). destruct (replay_state _ _ _ _ Hv Hw Hp Hf) as [? ->].
  split; [done|]. by destruct (last path).
Qed.

(** ** Fast forward depends only on what is stored *)

Lemma children_perm {Store2} `{Chonk Store2} `{!ChonkLaws Store2}
    (s1 : Store) (s2 : Store2) h :
  chonk_ok s1 → chonk_ok s2 → contents s1 = contents s2 →
  ∃ l1 l2, ChildAUMs s1 h = Ok l1 ∧ ChildAUMs s2 h = Ok l2 ∧ l1 ≡ₚ l2.
Proof.
  intros Hok1 Hok2 E.
  destruct (law_ChildAUMs s1 h Hok1) as (l1 & -> & Hn1 & Hc1).
  destruct (law_ChildAUMs s2 h Hok2) as (l2 & -> & Hn2 & Hc2).
  exists l1, l2. split_and!; [done..|]. apply NoDup_Permutation; [done..|].
  intros a. by rewrite Hc1, Hc2, E.
Qed.

Lemma chonk_AUM_same {Store2} `{Chonk Store2} `{!ChonkLaws Store2}
    (s1 : Store) (s2 : Store2) h :
  chonk_ok s1 → chonk_ok s2 → contents s1 = contents s2 → chonk_AUM s1 h = chonk_AUM s2 h.
Proof. intros Hok1 Hok2 E. by rewrite !law_AUM, E by done. Qed.

Lemma fastForward_loop_same {Store2} `{Chonk Store2} `{!ChonkLaws Store2} {X}
    (s1 : Store) (s2 : Store2) (done_ : X → AUM → State → bool * X) iters curs st x :
  store_valid s1 → chonk_ok s2 → contents s1 = contents s2 → State_wf st →
  fastForward_loop s1 advanceByPrimary done_ iters curs st x
  = fastForward_loop s2 advanceByPrimary done_ iters curs st x.
Proof.
  intros Hv1 Hok2 E. revert curs st x. induction iters as [|iters IH]; intros curs st x Hw; [done|].
  cbn. destruct (done_ x curs st) as [[] x1]; [done|].
  destruct (children_perm s1 s2 (AUM_Hash curs)) as (l1 & l2 & Hl1 & Hl2 & Hp);
    [apply Hv1|done..|].
  pose proof (children_wf s1 _ _ Hv1 Hl1) as Hcw.
  rewrite Hl1, Hl2. cbn. rewrite (advance_perm st l1 l2) by done.
  destruct (advanceByPrimary st l2) as [[[a|] st1]|e| |] eqn:Ha; try done. cbn. apply IH.
  apply advanceByPrimary_picks in Ha as [Hin Ha]. rewrite <- Hp in Hin.
  apply ChildAUMs_Ok in Hl1 as [_ Hc]; [|apply Hv1]. apply Hc in Hin as [Hs _].
  destruct (apply_Ok st a st1) as (_ & ? & _); [done|by apply Hv1|done|done].
Qed.

(** ** The state at a message *)

(** A path: each message is the parent of the next. *)
Definition linked (p : list AUM) : Prop :=
  ∀ i a b, p !! i = Some a → p !! S i = Some b → Parent b = Some (AUM_Hash a).

(** The state at the first message of a path: a checkpoint carries it, a genesis
    message is applied to the empty state. *)
Definition startState (base : AUM) : res State :=
  if bool_decide (MessageKind base = AUMCheckpoint) then
    match aum_State base with
    | Some st => Ok (cloneForUpdate st base)
    | None => Panic
    end
  else
    match Parent base with
    | None =>
        if bool_decide (MessageKind base = AUMNoOp) || bool_decide (MessageKind base = AUMAddKey)
        then applyVerifiedAUM State_zero base
        else Err (Errorf "invalid genesis update")
    | Some _ => Err (Errorf "not a start")
    end.

(** [base :: rest] is the history that determines the state at its last message:
    it starts at the latest checkpoint, or at the genesis. *)
Record history (m : gmap AUMHash AUM) (base : AUM) (rest : list AUM) : Prop := {
  hist_stored : Forall (stored_in m) (base :: rest);
  hist_linked : linked (base :: rest);
  hist_start : Forall (λ a, MessageKind a ≠ AUMCheckpoint) rest
}.

Definition hist_top (base : AUM) (rest : list AUM) : AUM := default base (last rest).

Lemma hist_top_last base rest : last (base :: rest) = Some (hist_top base rest).
Proof. rewrite last_cons. unfold hist_top. by destruct (last rest). Qed.

Lemma hist_top_snoc base rest a : hist_top base (rest ++ [a]) = a.
Proof. unfold hist_top. by rewrite last_snoc. Qed.

Lemma linked_snoc p a b :
  last p = Some a → linked (p ++ [b]) ↔ linked p ∧ Parent b = Some (AUM_Hash a).
Proof.
  intros Hl. rewrite last_lookup in Hl. pose proof (lookup_lt_Some _ _ _ Hl).
  split.
  - intros Hk. split.
    + intros i x y Hx Hy. eapply Hk; eapply lookup_app_l_Some; done.
    + eapply (Hk (pred (length p))); [by apply lookup_app_l_Some|].
      replace (S (pred (length p))) with (length p + 0)%nat by lia. by rewrite lookup_app_r, Nat.add_0_r, Nat.sub_diag by lia.
  - intros [Hk Hp] i x y Hx Hy. destruct (decide (S i < length p)%nat).
    + rewrite lookup_app_l in Hx, Hy by lia. eauto.
    + pose proof (lookup_lt_Some _ _ _ Hy) as Hlt. rewrite length_app in Hlt. cbn in Hlt.
      assert (i = pred (length p)) as -> by lia.
      rewrite lookup_app_l in Hx by lia. rewrite lookup_app_r in Hy by lia.
      replace (S (pred (length p)) - length p)%nat with 0%nat in Hy by lia. cbn in Hy. naive_solver.
Qed.

Lemma history_snoc m base rest a :
  history m base (rest ++ [a]) ↔
  history m base rest ∧ stored_in m a
  ∧ Parent a = Some (AUM_Hash (hist_top base rest)) ∧ MessageKind a ≠ AUMCheckpoint.
Proof.
  split.
  - intros [Hs Hl Hc]. rewrite app_comm_cons in Hs, Hl.
    rewrite (linked_snoc _ _ _ (hist_top_last base rest)) in Hl.
    rewrite Forall_app, Forall_singleton in Hs, Hc. destruct_and!. by split_and!.
  - intros ([Hs Hl Hc] & ? & ? & ?). split.
    + rewrite app_comm_cons. apply Forall_app. by rewrite Forall_singleton.
    + rewrite app_comm_cons. by rewrite (linked_snoc _ _ _ (hist_top_last base rest)).
    + apply Forall_app. by rewrite Forall_singleton.
Qed.

Definition hashes (p : list AUM) : gset AUMHash := list_to_set (AUM_Hash <$> p).
Arguments hashes : simpl never.

Lemma hashes_singleton a : hashes [a] = {[AUM_Hash a]}.
Proof. unfold hashes. cbn. set_solver. Qed.

Lemma hashes_snoc base rest a : hashes (base :: rest ++ [a]) = hashes (base :: rest) ∪ {[AUM_Hash a]}.
Proof. unfold hashes. rewrite app_comm_cons, fmap_app, list_to_set_app_L. cbn. set_solver. Qed.

Lemma elem_of_hashes p h : h ∈ hashes p ↔ ∃ a, h = AUM_Hash a ∧ a ∈ p.
Proof. unfold hashes. by rewrite elem_of_list_to_set, list_elem_of_fmap. Qed.

(** The backward loop finds the history, if it is short enough. *)
Lemma backToStart_spec (storage : Store) iters top path s0 P :
  chonk_ok storage → stored_in (contents storage) top →
  backToStart storage iters top path = Ok (s0, P) ↔
  ∃ base rest, history (contents storage) base rest ∧ hist_top base rest = top
    ∧ startState base = Ok s0 ∧ P = hashes (base :: rest) ∪ path ∧ (length rest < iters)%nat.
Proof.
  intros Hok. revert top path. induction iters as [|iters IH]; intros top path Htop.
  { cbn. split; [done|]. intros (? & ? & ? & ? & ? & ? & ?). lia. }
  assert (history (contents storage) top []) as Hnil.
  { split; [by constructor| |constructor]. intros [|i] a b; done. }
  assert (∀ base rest, history (contents storage) base rest → hist_top base rest = top →
            rest = [] ∧ base = top ∨
            ∃ rest' , rest = rest' ++ [top]) as Hcase.
  { intros base rest _ Ht. destruct rest as [|x l _] using rev_ind; [by left|right].
    rewrite hist_top_snoc in Ht. subst. eauto. }
  cbn [backToStart]. case_bool_decide as Hcp.
  - split.
    + intros Hb. exists top, []. unfold startState. rewrite bool_decide_true by done.
      destruct (aum_State top); [|done]. simplify_eq. rewrite hashes_singleton. split_and!; try done. cbn; lia.
    + intros (base & rest & Hh & Ht & Hs & -> & Hlen).
      destruct (Hcase _ _ Hh Ht) as [[-> ->]|[rest' ->]].
      * unfold startState in Hs. rewrite bool_decide_true in Hs by done.
        destruct (aum_State top); [|done]. simplify_eq. by rewrite hashes_singleton.
      * apply history_snoc in Hh. naive_solver.
  - destruct (Parent top) as [parent|] eqn:Hpar.
    + split.
      * intros (curs & Hc & Hb)%bind_Ok. apply wrapf_Ok in Hc.
        apply chonk_AUM_hash in Hc as [Hh Hst]; [|done].
        apply IH in Hb as (base & rest & Hhist & Ht & Hs & -> & Hlen); [|done].
        exists base, (rest ++ [top]). rewrite hist_top_snoc, length_app. cbn.
        split_and!; [|done|done| |lia].
        -- apply history_snoc. split_and!; try done. by rewrite Ht, Hh.
        -- rewrite hashes_snoc. set_solver.
      * intros (base & rest & Hh & Ht & Hs & -> & Hlen).
        destruct (Hcase _ _ Hh Ht) as [[-> ->]|[rest' ->]].
        { unfold startState in Hs. rewrite bool_decide_false, Hpar in Hs by done. done. }
        apply history_snoc in Hh as (Hh & _ & Hp & _). rewrite Hp in Hpar. simplify_eq.
        assert (stored_in (contents storage) (hist_top base rest')) as Hst.
        { eapply Forall_forall; [by apply hist_stored|].
          apply last_Some_elem_of, hist_top_last. }
        apply bind_Ok. exists (hist_top base rest'). split.
        { apply wrapf_Ok, chonk_AUM_Ok; [done|]. by apply stored_hash. }
        apply IH; [done|]. exists base, rest'. rewrite length_app in Hlen. cbn in Hlen.
        split_and!; try done; [|lia].
        rewrite hashes_snoc. set_solver.
    + split.
      * intros Hb. exists top, []. unfold startState. rewrite bool_decide_false, Hpar by done.
        destruct (_ || _); [|done]. apply bind_Ok in Hb as (st & Hst & Hb).
        apply wrapf_Ok in Hst. simplify_eq. rewrite hashes_singleton. split_and!; try done. cbn; lia.
      * intros (base & rest & Hh & Ht & Hs & -> & Hlen).
        destruct (Hcase _ _ Hh Ht) as [[-> ->]|[rest' ->]].
        -- unfold startState in Hs. rewrite bool_decide_false, Hpar in Hs by done.
           destruct (_ || _); [|done]. apply bind_Ok. exists s0. split; [by apply wrapf_Ok|].
           by rewrite hashes_singleton.
        -- apply history_snoc in Hh as (_ & _ & Hp & _). congruence.
Qed.

(** Along a path of an acyclic store, ranks increase. *)
Lemma linked_rank (m : gmap AUMHash AUM) (rank : AUM → nat) p i j a b :
  (∀ a b, stored_in m a → stored_in m b →
     Parent b = Some (AUM_Hash a) → (rank a < rank b)%nat) →
  Forall (stored_in m) p → linked p →
  p !! i = Some a → p !! j = Some b → (i < j)%nat → (rank a < rank b)%nat.
Proof.
  intros Hrank Hs Hl Hi. revert b. induction j as [|j IH]; intros b Hj Hij; [lia|].
  destruct (lookup_lt_is_Some_2 p j) as [c Hc].
  { pose proof (lookup_lt_Some _ _ _ Hj). lia. }
  assert (rank c < rank b)%nat.
  { apply Hrank; [by eapply Forall_lookup_1..|]. by eapply Hl. }
  destruct (decide (i = j)) as [->|]; [by simplify_eq|].
  specialize (IH c Hc ltac:(lia)). lia.
Qed.

(** On a path of an acyclic store, the only child of a message that is on the
    path is the next one. *)
Lemma next_unique (storage : Store) p i cur next c :
  chonk_ok storage → acyclic (contents storage) →
  Forall (stored_in (contents storage)) p → linked p →
  p !! i = Some cur → p !! S i = Some next →
  stored_in (contents storage) c → Parent c = Some (AUM_Hash cur) → AUM_Hash c ∈ hashes p →
  c = next.
Proof.
  intros Hok [rank Hrank] Hs Hl Hi Hn Hc Hpar (c' & E & Hin)%elem_of_hashes.
  assert (c' = c) as ->.
  { symmetry. apply (stored_inj storage); try done. by eapply Forall_forall. }
  apply list_elem_of_lookup in Hin as [j Hj].
  assert (rank cur < rank c)%nat.
  { apply Hrank; [by eapply Forall_lookup_1|done..]. }
  destruct j as [|j].
  - destruct i as [|i]; [simplify_eq; lia|].
    pose proof (linked_rank (contents storage) rank p 0 (S i) c cur Hrank Hs Hl Hj Hi). lia.
  - destruct (lookup_lt_is_Some_2 p j) as [d Hd].
    { pose proof (lookup_lt_Some _ _ _ Hj). lia. }
    pose proof (Hl j d c Hd Hj) as Hp. rewrite Hpar in Hp. injection Hp as Hp.
    assert (cur = d) as <-.
    { apply (stored_inj storage); [done|by eapply Forall_lookup_1..|done]. }
    assert (i = j) as ->; [|by simplify_eq].
    destruct (Nat.lt_total i j) as [Hlt|[?|Hlt]]; [|done|].
    + pose proof (linked_rank (contents storage) rank p i j _ _ Hrank Hs Hl Hi Hd Hlt). lia.
    + pose proof (linked_rank (contents storage) rank p j i _ _ Hrank Hs Hl Hd Hi Hlt). lia.
Qed.

Lemma advanceOnPath_unique P st cs next :
  next ∈ cs → AUM_Hash next ∈ P → (∀ c, c ∈ cs → AUM_Hash c ∈ P → c = next) →
  advanceOnPath P st cs = st' ← wrapf "advancing state" (applyVerifiedAUM st next); Ok (Some next, st').
Proof.
  induction cs as [|c cs IH]; intros Hin HP Hu; [set_solver|]. cbn. case_bool_decide as Hc.
  - by rewrite (Hu c) by set_solver.
  - apply IH; [|done|set_solver]. apply elem_of_cons in Hin as [->|]; done.
Qed.

(** The forward loop replays the rest of the path, if it is short enough. *)
Lemma forward_on_path (storage : Store) p top iters i cur st r :
  chonk_ok storage → acyclic (contents storage) →
  Forall (stored_in (contents storage)) p → linked p → last p = Some top →
  p !! i = Some cur →
  fastForward_loop storage (advanceOnPath (hashes p))
    (done_at (λ curs, bool_decide (AUM_Hash curs = AUM_Hash top))) iters cur st tt = Ok r ↔
  (length p - i <= iters)%nat
  ∧ ∃ st', foldM applyVerifiedAUM st (drop (S i) p) = Ok st' ∧ r = (top, st', tt).
Proof.
  intros Hok Hac Hs Hl Htop. revert i cur st. induction iters as [|iters IH]; intros i cur st Hi.
  { cbn. split; [done|]. pose proof (lookup_lt_Some _ _ _ Hi). intros [? _]. lia. }
  pose proof (lookup_lt_Some _ _ _ Hi) as Hlt.
  cbn [fastForward_loop done_at]. case_bool_decide as Hstop.
  - assert (cur = top) as ->.
    { apply (stored_inj storage); [done|by eapply Forall_lookup_1| |done].
      eapply Forall_forall; [done|]. by apply last_Some_elem_of. }
    assert (S i = length p) as Hlen.
    { rewrite last_lookup in Htop. destruct (decide (S i = length p)) as [|Hne]; [done|].
      destruct Hac as [rank Hrank].
      pose proof (linked_rank (contents storage) rank p i (pred (length p)) _ _ Hrank Hs Hl Hi Htop). lia. }
    rewrite drop_ge by lia. cbn. split.
    + intros [= <-]. split; [lia|]. eauto.
    + intros [_ (st' & [= <-] & ->)]. done.
  - destruct (lookup_lt_is_Some_2 p (S i)) as [next Hn].
    { destruct (decide (S i = length p)) as [E|]; [|lia]. rewrite last_lookup, <- E in Htop.
      cbn in Htop. congruence. }
    destruct (law_ChildAUMs storage (AUM_Hash cur) Hok) as (cs & -> & _ & Hcs). cbn [wrapf mbind res_bind].
    rewrite (advanceOnPath_unique _ _ _ next).
    + rewrite (drop_S _ _ _ Hn). cbn [foldM].
      destruct (applyVerifiedAUM st next) as [st1|e| |]; cbn [wrapf mbind res_bind];
        [|naive_solver..].
      rewrite (IH (S i)) by done. split; intros [? ?]; (split; [lia|done]).
    + apply Hcs. split; [by eapply Forall_lookup_1|by eapply Hl].
    + apply elem_of_hashes. exists next. split; [done|]. by eapply list_elem_of_lookup_2.
    + intros c [Hc1 Hc2]%Hcs Hc3. by eapply (next_unique storage p i cur).
Qed.

Lemma startState_last base s0 : startState base = Ok s0 → LastAUMHash s0 = Some (AUM_Hash base).
Proof.
  unfold startState. intros Hs. res_inv; first [by rewrite cloneForUpdate_eq|by eapply apply_last].
Qed.

Lemma fold_last st path st' :
  foldM applyVerifiedAUM st path = Ok st' →
  LastAUMHash st' = default (LastAUMHash st) ((λ a, Some (AUM_Hash a)) <$> last path).
Proof.
  revert st. induction path as [|a path IH]; intros st Hf; cbn in Hf; [by simplify_eq|].
  apply bind_Ok in Hf as (st1 & Ha & Hf). rewrite (IH _ Hf), last_cons, (apply_last _ _ _ Ha).
  by destruct (last path).
Qed.

(** [computeStateAt] returns exactly the replay of the history of the message. *)
Lemma computeStateAt_history (storage : Store) maxIter want st :
  chonk_ok storage → acyclic (contents storage) →
  computeStateAt storage maxIter want = Ok st ↔
  ∃ base rest s0, history (contents storage) base rest ∧ AUM_Hash (hist_top base rest) = want
    ∧ startState base = Ok s0 ∧ (length rest < maxIter)%nat
    ∧ foldM applyVerifiedAUM s0 rest = Ok st.
Proof.
  intros Hok Hac. unfold computeStateAt.
  assert (∀ base rest s0, history (contents storage) base rest → startState base = Ok s0 →
    ∀ r, fastForwardWithAdvancer storage maxIter s0 (advanceOnPath (hashes (base :: rest)))
      (done_at (λ curs, bool_decide (AUM_Hash curs = AUM_Hash (hist_top base rest)))) tt = Ok r
    ↔ (length rest < maxIter)%nat
      ∧ ∃ st', foldM applyVerifiedAUM s0 rest = Ok st' ∧ r = (hist_top base rest, st', tt)) as Hff.
  { intros base rest s0 Hh Hs0 r. unfold fastForwardWithAdvancer.
    rewrite (startState_last _ _ Hs0).
    assert (chonk_AUM storage (AUM_Hash base) = Ok base) as ->.
    { apply chonk_AUM_Ok; [done|]. apply stored_hash; [done|].
      pose proof (hist_stored _ _ _ Hh) as Hs. by inversion Hs. }
    cbn [wrapf mbind res_bind].
    rewrite (forward_on_path storage (base :: rest) (hist_top base rest) maxIter 0 base);
      [|done|done|apply Hh|apply Hh|apply hist_top_last|done].
    cbn [length drop]. split; intros [? ?]; (split; [lia|done]). }
  split.
  - intros (top & Htop & Hc)%bind_Ok. apply chonk_AUM_hash in Htop as [Hh Hst]; [|done].
    apply bind_Ok in Hc as ([s0 P] & Hb & Hc).
    apply backToStart_spec in Hb as (base & rest & Hhist & Ht & Hs & -> & Hlen); [|done..].
    apply bind_Ok in Hc as ([[c st1] []] & Hf & Hc).
    rewrite (right_id_L ∅ (∪)) in Hf. rewrite <- Hh, <- Ht in Hf.
    apply Hff in Hf as [Hlt (st' & Hfold & [= -> ->])]; [|done..].
    exists base, rest, s0. destruct (LastAUMHash st'); [|done].
    case_bool_decide; [|done]. by simplify_eq.
  - intros (base & rest & s0 & Hhist & Hh & Hs & Hlt & Hfold).
    assert (stored_in (contents storage) (hist_top base rest)) as Hst.
    { eapply Forall_forall; [by apply hist_stored|]. apply last_Some_elem_of, hist_top_last. }
    apply bind_Ok. exists (hist_top base rest). split.
    { apply chonk_AUM_Ok; [done|]. rewrite <- Hh. by apply stored_hash. }
    apply bind_Ok. exists (s0, hashes (base :: rest)). split.
    { apply backToStart_spec; [done..|]. exists base, rest.
      rewrite (right_id_L ∅ (∪)). split_and!; try done. lia. }
    apply bind_Ok. exists (hist_top base rest, st, tt). split.
    { rewrite <- Hh. apply Hff; [done..|]. eauto. }
    pose proof (fold_last _ _ _ Hfold) as Hl. rewrite (startState_last _ _ Hs) in Hl.
    assert (LastAUMHash st = Some want) as ->.
    { rewrite Hl, <- Hh. unfold hist_top. by destruct (last rest). }
    by rewrite bool_decide_true.
Qed.

End Replay.

(** ** Two stores with the same messages *)
Section Agreement.
Context `{TkaCrypto} {Store1 Store2 : Type}.
Context `{Chonk Store1} `{!ChonkLaws Store1} `{Chonk Store2} `{!ChonkLaws Store2}.
Context (s1 : Store1) (s2 : Store2).
Hypothesis valid1 : store_valid s1.
Hypothesis valid2 : store_valid s2.
Hypothesis same : contents s1 = contents s2.

Lemma computeStateAt_same maxIter want st :
  acyclic (contents s1) →
  computeStateAt s1 maxIter want = Ok st ↔ computeStateAt s2 maxIter want = Ok st.
Proof using valid1 valid2 same.
  intros Hac. rewrite !computeStateAt_history; [|apply valid2|by rewrite <- same|apply valid1|done].
  by rewrite same.
Qed.

Lemma stepBackAll_same o cs : stepBackAll s1 o cs = stepBackAll s2 o cs.
Proof using valid1 valid2 same.
  induction cs as [|c cs IH]; cbn; [done|]. rewrite IH.
  replace (stepBack s2 o c) with (stepBack s1 o c); [done|].
  unfold stepBack. case_match; [|done].
  rewrite (chonk_AUM_same s1 s2); [done|apply valid1|apply valid2|done].
Qed.

Lemma candidatesLoop_same o iters cs : candidatesLoop s1 o iters cs = candidatesLoop s2 o iters cs.
Proof using valid1 valid2 same.
  revert cs. induction iters as [|iters IH]; intros cs; cbn; [done|].
  rewrite stepBackAll_same. destruct (stepBackAll s2 o cs) as [[cs' []]|e| |]; cbn; auto.
Qed.

(** Sorting the candidates by hash removes the order of [Heads]. *)
Lemma candidates_same o maxIter :
  computeChainCandidates s1 o maxIter = computeChainCandidates s2 o maxIter.
Proof using valid1 valid2 same.
  unfold computeChainCandidates.
  destruct (law_Heads s1) as (l1 & -> & Hn1 & Hh1); [apply valid1|].
  destruct (law_Heads s2) as (l2 & -> & Hn2 & Hh2); [apply valid2|]. cbn.
  set (mk := λ h, {| Oldest := h; ch_Head := h; ch_state := State_zero;
                     chainsThroughActive := false |}).
  set (lt := λ ci cj, match bytes_Compare (AUM_Hash (Oldest ci)) (AUM_Hash (Oldest cj)) with
                      | Lt => true | _ => false end).
  assert (∀ l, ∃ l', sort_Slice (λ ci cj, Ok (lt ci cj)) l = Ok l' ∧ l' ≡ₚ l
                     ∧ StronglySorted (λ x y, lt y x = false) l') as Hsort.
  { intros l. apply (sort_Slice_sorted _ lt (λ _, True)); try done.
    - unfold lt. intros x y z _ _ _ Hyx Hzy.
      apply cmp_lt_false in Hyx, Hzy. apply cmp_lt_false. by eapply bytes_Compare_ge_trans.
    - unfold lt. intros x y _ _ E. rewrite bytes_Compare_antisym.
      by destruct (bytes_Compare (AUM_Hash (Oldest x)) _).
    - by apply Forall_true. }
  destruct (Hsort (map mk l1)) as (l1' & E1 & Hp1 & Hs1).
  destruct (Hsort (map mk l2)) as (l2' & E2 & Hp2 & Hs2).
  unfold lt in E1, E2. rewrite E1, E2. cbn. rewrite candidatesLoop_same. f_equal.
  assert (l1 ≡ₚ l2) as Hl.
  { apply NoDup_Permutation; [done..|]. intros a. by rewrite Hh1, Hh2, same. }
  assert (∀ c, c ∈ l1' → ∃ a, c = mk a ∧ stored_in (contents s1) a) as Hmem.
  { intros c Hc. rewrite Hp1 in Hc. apply list_elem_of_In, in_map_iff in Hc as (a & <- & Ha).
    exists a. split; [done|]. apply list_elem_of_In, Hh1 in Ha. apply Ha. }
  apply (StronglySorted_unique_strong (λ x y, lt y x = false)); [|done..|].
  - intros x y (a & -> & Ha)%Hmem Hy.
    rewrite Hp2, <- (Permutation_map mk Hl), <- Hp1 in Hy. apply Hmem in Hy as (b & -> & Hb).
    unfold lt. cbn. intros Hba Hab. f_equal. apply (stored_inj s1); [apply valid1|done..|].
    apply bytes_Compare_eq. rewrite (bytes_Compare_antisym (AUM_Hash a)) in Hba.
    by destruct (bytes_Compare (AUM_Hash a) (AUM_Hash b)).
  - rewrite Hp1, Hp2. by rewrite Hl.
Qed.

Lemma startState_wf s0 base :
  AUM_valid base → startState base = Ok s0 → State_wf s0.
Proof.
  intros Hv Hs. unfold startState in Hs.
  assert (State_wf State_zero) as Hz by (split; constructor).
  res_inv; [rewrite cloneForUpdate_eq|by eapply apply_Ok].
  destruct (Checkpoint_valid_wf s (av_state _ Hv _ ltac:(eassumption))). by split.
Qed.


Lemma State_at_wf want maxIter st :
  acyclic (contents s1) → computeStateAt s1 maxIter want = Ok st → State_wf st.
Proof using valid1.
  intros Hac Hc. apply computeStateAt_history in Hc as (base & rest & s0 & Hh & _ & Hs & _ & Hf);
    [|apply valid1|done].
  pose proof (hist_stored _ _ _ Hh) as Hst. inversion Hst; subst.
  assert (State_wf s0) by (eapply startState_wf; [by apply valid1|done]).
  by destruct (replay_state s1 s0 rest st).
Qed.

Lemma fastForward_same {X} maxIter st (done_ : X → AUM → State → bool * X) x :
  State_wf st → fastForward s1 maxIter st done_ x = fastForward s2 maxIter st done_ x.
Proof using valid1 valid2 same.
  intros Hw. unfold fastForward, fastForwardWithAdvancer. case_match; [|done].
  rewrite (chonk_AUM_same s1 s2); [|apply valid1|apply valid2|done].
  destruct (chonk_AUM s2 _); [|done..]. cbn. apply fastForward_loop_same; try done. apply valid2.
Qed.

Lemma computeActiveChain_imp o maxIter c :
  acyclic (contents s1) →
  computeActiveChain s1 o maxIter = Ok c → computeActiveChain s2 o maxIter = Ok c.
Proof using valid1 valid2 same.
  intros Hac Hc. unfold computeActiveChain in *. rewrite <- candidates_same.
  apply bind_Ok in Hc as (chains & -> & Hc). cbn in Hc |- *.
  case_bool_decide; [done|].
  apply bind_Ok in Hc as (oldest & -> & Hc). cbn in Hc |- *.
  rewrite <- (chonk_AUM_same s1 s2); [|apply valid1|apply valid2|done].
  apply bind_Ok in Hc as (anc & -> & Hc). cbn in Hc |- *.
  apply bind_Ok in Hc as (st & Hst & Hc). apply wrapf_Ok in Hst.
  pose proof (State_at_wf _ _ _ Hac Hst) as Hw.
  apply (computeStateAt_same _ _ _ Hac) in Hst. rewrite Hst. cbn.
  by rewrite <- fastForward_same.
Qed.

End Agreement.

(** ** The active chain *)
Section ActiveChain.
Context `{TkaCrypto} {Store : Type} `{Chonk Store} `{!ChonkLaws Store}.

Definition is_child (m : gmap AUMHash AUM) (curs a : AUM) : Prop :=
  stored_in m a ∧ Parent a = Some (AUM_Hash curs).

(** The specification of fork resolution: at each message, step to the child
    that is preferred over all its siblings in the state reached so far, and
    stop where there is no child. *)
Inductive follows (m : gmap AUMHash AUM) : AUM → State → AUM → State → Prop :=
  | follows_end curs st :
      (∀ b, ¬ is_child m curs b) → follows m curs st curs st
  | follows_step curs st next st1 c' st' :
      is_child m curs next →
      (∀ b, is_child m curs b → b ≠ next → preferred st next b) →
      applyVerifiedAUM st next = Ok st1 →
      follows m next st1 c' st' →
      follows m curs st c' st'.

Lemma advanceByPrimary_best (storage : Store) curs st cs next st' :
  store_valid storage → State_wf st → ChildAUMs storage (AUM_Hash curs) = Ok cs →
  advanceByPrimary st cs = Ok (next, st') →
  match next with
  | Some a => is_child (contents storage) curs a ∧ applyVerifiedAUM st a = Ok st'
              ∧ (∀ b, is_child (contents storage) curs b → b ≠ a → preferred st a b)
  | None => st' = st ∧ ∀ b, ¬ is_child (contents storage) curs b
  end.
Proof.
  intros Hv Hw Hcs Ha. pose proof (children_wf storage _ _ Hv Hcs) as Hcw.
  apply ChildAUMs_Ok in Hcs as [_ Hin]; [|apply Hv].
  assert (∀ b, is_child (contents storage) curs b ↔ b ∈ cs) as Hch by (intros b; by rewrite Hin).
  destruct cs as [|c cs].
  { cbn in Ha. simplify_eq. split; [done|]. intros b Hb%Hch. set_solver. }
  destruct (pick_best st (c :: cs)) as (a & Hp & Ha' & Hbest); [done..|].
  unfold advanceByPrimary in Ha. rewrite Hp in Ha. cbn in Ha.
  apply bind_Ok in Ha as (s & Hs & Ha). apply wrapf_Ok in Hs. simplify_eq.
  split_and!; [by apply Hch|done|]. intros b Hb%Hch. by apply Hbest.
Qed.

Lemma fastForward_follows (storage : Store) iters curs st c' st' :
  store_valid storage → State_wf st →
  fastForward_loop storage advanceByPrimary done_nil iters curs st tt = Ok (c', st', tt) →
  follows (contents storage) curs st c' st'.
Proof.
  intros Hv. revert curs st. induction iters as [|iters IH]; intros curs st Hw Hf; [done|].
  cbn in Hf. apply bind_Ok in Hf as (cs & Hcs & Hf). apply wrapf_Ok in Hcs.
  apply bind_Ok in Hf as ([next st1] & Ha & Hf). apply wrapf_Ok in Ha.
  apply (advanceByPrimary_best storage curs) in Ha; [|done..]. destruct next as [a|].
  - destruct Ha as (Hc & Ha & Hb). eapply follows_step; [done..|]. apply IH; [|done].
    destruct (apply_Ok st a st1) as (_ & ? & _); [done|by apply Hv, Hc|done|done].
  - destruct Ha as [-> Hn]. simplify_eq. by apply follows_end.
Qed.

(** There is only one way to follow the rules: the outcome is determined. *)
Lemma follows_det m curs st c1 st1 c2 st2 :
  follows m curs st c1 st1 → follows m curs st c2 st2 → c1 = c2 ∧ st1 = st2.
Proof.
  intros F1. revert c2 st2.
  induction F1 as [curs st Hn|curs st next s1 c' st' Hc Hb Ha _ IH];
    intros c2 st2 F2; inversion F2 as [|? ? next2 ? ? ? Hc2 Hb2 Ha2 F2']; subst.
  - done.
  - naive_solver.
  - naive_solver.
  - destruct (decide (next = next2)) as [->|Hne].
    + rewrite Ha in Ha2. simplify_eq. by apply IH.
    + exfalso. eapply (preferred_asym st next next2); [apply Hb|apply Hb2]; done.
Qed.

Lemma follows_last (storage : Store) curs st c' st' :
  store_valid storage → follows (contents storage) curs st c' st' →
  State_wf st → LastAUMHash st = Some (AUM_Hash curs) →
  State_wf st' ∧ LastAUMHash st' = Some (AUM_Hash c').
Proof.
  intros Hv F. induction F as [|curs st next s1 c' st' Hc Hb Ha _ IH]; [done|]. intros Hw _.
  destruct (apply_Ok st next s1) as (_ & ? & ?); [done|by apply Hv, Hc|done|]. by apply IH.
Qed.

(** What [computeActiveChain] returns: the state at the oldest message, carried
    along the preferred children to a message without children. *)
Lemma computeActiveChain_follows (storage : Store) o maxIter c :
  store_valid storage → acyclic (contents storage) →
  computeActiveChain storage o maxIter = Ok c →
  ∃ st0, computeStateAt storage maxIter (AUM_Hash (Oldest c)) = Ok st0
    ∧ stored_in (contents storage) (Oldest c)
    ∧ follows (contents storage) (Oldest c) st0 (ch_Head c) (ch_state c).
Proof.
  intros Hv Hac Hc. unfold computeActiveChain in Hc.
  apply bind_Ok in Hc as (chains & _ & Hc). case_bool_decide; [done|].
  apply bind_Ok in Hc as (oldest & _ & Hc). apply bind_Ok in Hc as (anc & Hanc & Hc).
  apply chonk_AUM_hash in Hanc as [Hh Hst]; [|apply Hv].
  apply bind_Ok in Hc as (st & Hs & Hc). apply wrapf_Ok in Hs.
  apply bind_Ok in Hc as ([[hd st'] []] & Hf & Hc). apply wrapf_Ok in Hf. simplify_eq. cbn.
  exists st. split_and!; [done..|].
  pose proof (State_at_wf storage Hv _ _ _ Hac Hs) as Hw.
  assert (LastAUMHash st = Some (AUM_Hash anc)) as Hl.
  { unfold computeStateAt in Hs. by res_inv; bool_prop; subst. }
  unfold fastForward, fastForwardWithAdvancer in Hf. rewrite Hl in Hf.
  apply bind_Ok in Hf as (nx & Hnx & Hf). apply wrapf_Ok in Hnx.
  apply chonk_AUM_hash in Hnx as [Hh2 Hst2]; [|apply Hv].
  assert (nx = anc) as -> by (eapply (stored_inj storage); [apply Hv|done..]).
  by eapply fastForward_follows.
Qed.

End ActiveChain.
