(* ===== verification/TkaRoots.v ===== *)
(** * Tailnet key authority: where the active chain starts

    Lemmas about [computeChainCandidates] and [computeActiveAncestor] of
    [src/tka/tka.go]: every candidate chain is walked back to a message whose
    parent is not stored, and where the last known ancestor is such a message,
    the active chain starts at it. *)

From S2P Require Import Prelude TkaTypes TkaChonk TkaAuthority TkaReplay.

(** ** Walking back *)
Section Back.
Context `{TkaCrypto}.

Definition keyed (m : gmap AUMHash AUM) : Prop := ∀ h a, m !! h = Some a → AUM_Hash a = h.

(** [a] is the stored parent of [b]. *)
Definition parent_in (m : gmap AUMHash AUM) (b a : AUM) : Prop :=
  stored_in m a ∧ Parent b = Some (AUM_Hash a).

(** No message before it is stored. *)
Definition is_root (m : gmap AUMHash AUM) (a : AUM) : Prop := ∀ b, ¬ parent_in m a b.

Lemma keyed_inj m a b :
  keyed m → stored_in m a → stored_in m b → AUM_Hash a = AUM_Hash b → a = b.
Proof. intros Hk [h1 Ha] [h2 Hb] E. apply Hk in Ha as E1, Hb as E2. congruence. Qed.

Lemma root_unique m x r1 r2 :
  keyed m → rtc (parent_in m) x r1 → rtc (parent_in m) x r2 → is_root m r1 → is_root m r2 → r1 = r2.
Proof.
  intros Hk B1. revert r2. induction B1 as [x|x y r1 [Hy Hp] _ IH]; intros r2 B2 R1 R2.
  - inversion B2 as [|? z ? Hz]; subst; [done|]. by destruct (R1 z).
  - inversion B2 as [|? z ? [Hz Hpz] B]; subst; [by destruct (R2 y)|].
    assert (z = y) as -> by (eapply keyed_inj; [done..|congruence]). by apply IH.
Qed.

Lemma root_lookup m a :
  keyed m → is_root m a ↔ ∀ p, Parent a = Some p → m !! p = None.
Proof.
  intros Hk. split.
  - intros R p Hp. destruct (m !! p) as [b|] eqn:Hb; [|done].
    destruct (R b). split; [by eexists|]. by rewrite (Hk _ _ Hb).
  - intros R b [[h Hb] Hp]. rewrite (Hk _ _ Hb) in Hp. by rewrite (R h Hp) in Hb.
Qed.

Lemma rank_bound (m : gmap AUMHash AUM) (rank : AUM → nat) :
  ∃ M, ∀ u, stored_in m u → (rank u <= M)%nat.
Proof.
  exists (max_list ((λ hu, rank (snd hu)) <$> map_to_list m)). intros u [h Hu].
  apply max_list_elem_of_le. apply list_elem_of_fmap. exists (h, u). split; [done|].
  by apply elem_of_map_to_list.
Qed.

(** Below every stored message there is one without children. *)
Lemma head_below m x :
  acyclic m → stored_in m x → ∃ h, is_head m h ∧ rtc (parent_in m) h x.
Proof.
  intros [rank Hrank] Hx.
  destruct (rank_bound m rank) as [M HM].
  remember (M - rank x)%nat as n eqn:Hn. revert x Hx Hn.
  induction n as [n IH] using lt_wf_ind. intros x Hx Hn.
  destruct (decide (Exists (λ hb, Parent (snd hb) = Some (AUM_Hash x)) (map_to_list m))) as [He|He].
  - apply Exists_exists in He as ([h b] & Hb%elem_of_map_to_list & Hp). cbn in Hp.
    assert (stored_in m b) as Hsb by (by eexists).
    pose proof (Hrank x b Hx Hsb Hp). pose proof (HM b Hsb).
    destruct (IH (M - rank b)%nat ltac:(lia) b Hsb eq_refl) as (h' & Hh & Hr).
    exists h'. split; [done|]. eapply rtc_r; [exact Hr|]. by split.
  - exists x. split; [|done]. split; [done|]. intros b [h Hb] Hp. apply He, Exists_exists.
    exists (h, b). split; [by apply elem_of_map_to_list|done].
Qed.

End Back.

(** ** The ancestor *)
Section Ancestor.
Context `{TkaCrypto}.

Lemma ancestors_lookup (cs : list chain) (m0 : gmap AUMHash bool) k b :
  foldl (λ m c, <[AUM_Hash (Oldest c) := chainsThroughActive c]> m) m0 cs !! k = Some b →
  m0 !! k = Some b ∨ ∃ c, c ∈ cs ∧ k = AUM_Hash (Oldest c) ∧ b = chainsThroughActive c.
Proof.
  revert m0. induction cs as [|c cs IH]; intros m0 Hk; [by left|]. cbn in Hk.
  destruct (IH _ Hk) as [[[<- <-]|[_ ?]]%lookup_insert_Some|(c' & ? & ?)]; [right|by left|right].
  - exists c. set_solver.
  - exists c'. set_solver.
Qed.

Lemma ancestors_has (cs : list chain) (m0 : gmap AUMHash bool) c :
  c ∈ cs ∨ is_Some (m0 !! AUM_Hash (Oldest c)) →
  is_Some (foldl (λ m c, <[AUM_Hash (Oldest c) := chainsThroughActive c]> m) m0 cs
           !! AUM_Hash (Oldest c)).
Proof.
  revert m0. induction cs as [|c0 cs IH]; intros m0 Hc; [set_solver|]. cbn. apply IH.
  destruct Hc as [[->|?]%elem_of_cons|Hs]; [right|by left|right].
  - rewrite lookup_insert_eq. by eexists.
  - destruct (decide (AUM_Hash (Oldest c0) = AUM_Hash (Oldest c))) as [->|].
    + rewrite lookup_insert_eq. by eexists.
    + by rewrite lookup_insert_ne.
Qed.

(** The ancestor is where all chains end, or a chain that met the last known one. *)
Lemma computeActiveAncestor_spec cs k :
  computeActiveAncestor cs = Ok k →
  (∀ c, c ∈ cs → AUM_Hash (Oldest c) = k)
  ∨ ∃ c, c ∈ cs ∧ AUM_Hash (Oldest c) = k ∧ chainsThroughActive c = true.
Proof.
  unfold computeActiveAncestor. set (anc := foldl _ _ _). intros Hk.
  assert (∀ b, anc !! k = Some b → ∃ c, c ∈ cs ∧ k = AUM_Hash (Oldest c) ∧ b = chainsThroughActive c) as Hl.
  { intros b Hb. apply ancestors_lookup in Hb as [Hb|?]; [by rewrite lookup_empty in Hb|done]. }
  assert (∀ l : list (AUMHash * bool), match List.find snd l with
      | Some (k, _) => Ok k | None => Err (Errorf "multiple distinct chains") end = Ok k →
      (k, true) ∈ l) as Hfind.
  { intros l Hf. destruct (List.find snd l) as [[k' b]|] eqn:E; [|done]. simplify_eq.
    apply find_some in E as [Hin Hb]. cbn in Hb. subst. by apply list_elem_of_In. }
  destruct (map_to_list anc) as [|[k1 b1] [|kb l]] eqn:E; [done|..].
  - left. injection Hk as ->. intros c Hc.
    destruct (ancestors_has cs ∅ c (or_introl Hc)) as [b Hb]. fold anc in Hb.
    apply elem_of_map_to_list in Hb. rewrite E in Hb. apply list_elem_of_singleton in Hb. congruence.
  - right. apply Hfind in Hk. rewrite <- E in Hk. apply elem_of_map_to_list in Hk.
    destruct (Hl true Hk) as (c & ? & ? & ?). by exists c.
Qed.

End Ancestor.

(** ** The candidates *)
Section Candidates.
Context `{TkaCrypto} {Store : Type} `{Chonk Store} `{!ChonkLaws Store}.
Context (storage : Store) (lastKnown : option AUMHash).
Hypothesis ok : chonk_ok storage.

Let m := contents storage.
Let m_keyed : keyed m.
Proof. intros h a. by apply law_keyed. Qed.

(** A chain reaches back from its head, and has met the last known ancestor
    where it says so. *)
Definition walked (c : chain) : Prop :=
  rtc (parent_in m) (ch_Head c) (Oldest c)
  ∧ (chainsThroughActive c = true →
     ∃ x, stored_in m x ∧ lastKnown = Some (AUM_Hash x) ∧ rtc (parent_in m) x (Oldest c)).

Lemma stepBack_walked c c' again :
  walked c → stepBack storage lastKnown c = Ok (c', again) →
  walked c' ∧ ch_Head c' = ch_Head c ∧ (again = false → is_root m (Oldest c') ∧ c' = c).
Proof using ok m_keyed.
  intros [Hb Hf] Hs. unfold stepBack in Hs. destruct (Parent (Oldest c)) as [p|] eqn:Hp.
  - rewrite law_AUM in Hs by done. fold m in Hs. destruct (m !! p) as [u|] eqn:Hu.
    + injection Hs as <- <-. apply m_keyed in Hu as Hh.
      assert (parent_in m (Oldest c) u) as Hstep by (split; [by eexists|by rewrite Hh]).
      split_and!; [split; cbn|done|done].
      * by eapply rtc_r.
      * case_bool_decide as Hl; intros Hc.
        -- exists u. split_and!; [by eexists|done|done].
        -- destruct (Hf Hc) as (x & ? & ? & ?). exists x. split_and!; [done..|]. by eapply rtc_r.
    + cbn in Hs. injection Hs as <- <-. split_and!; [by split|done|]. intros _. split; [|done].
      apply root_lookup; [done|]. intros p' Hp'. congruence.
  - injection Hs as <- <-. split_and!; [by split|done|]. intros _. split; [|done].
    intros b [_ Hpb]. congruence.
Qed.

Lemma stepBackAll_walked cs cs' again :
  Forall walked cs → stepBackAll storage lastKnown cs = Ok (cs', again) →
  Forall walked cs' ∧ map ch_Head cs' = map ch_Head cs
  ∧ (again = false → Forall (λ c, is_root m (Oldest c)) cs').
Proof using ok m_keyed.
  revert cs' again. induction cs as [|c cs IH]; intros cs' again Hw Hs; cbn in Hs; [by simplify_eq|].
  inversion Hw as [|? ? Hc Hw']; subst.
  apply bind_Ok in Hs as ([c1 g1] & H1 & Hs). apply bind_Ok in Hs as ([cs1 g2] & H2 & Hs).
  injection Hs as <- <-. destruct (stepBack_walked _ _ _ Hc H1) as (? & E & Hr).
  destruct (IH _ _ Hw' H2) as (? & E2 & Hr2). split_and!; [by constructor|cbn; congruence|].
  intros [-> ->]%orb_false_iff. constructor; [by apply Hr|by apply Hr2].
Qed.

Lemma candidatesLoop_walked iters cs cs' :
  Forall walked cs → candidatesLoop storage lastKnown iters cs = Ok cs' →
  Forall walked cs' ∧ map ch_Head cs' = map ch_Head cs ∧ Forall (λ c, is_root m (Oldest c)) cs'.
Proof using ok m_keyed.
  revert cs. induction iters as [|iters IH]; intros cs Hw Hs; cbn in Hs; [done|].
  apply bind_Ok in Hs as ([cs1 [|]] & H1 & Hs);
    destruct (stepBackAll_walked _ _ _ Hw H1) as (Hw1 & E & Hr).
  - destruct (IH _ Hw1 Hs) as (? & ? & ?). split_and!; congruence || done.
  - simplify_eq. by split_and!; [..|apply Hr].
Qed.

(** Every stored head has a candidate, which is walked back to its root. *)
Lemma candidates_walked iters cs :
  computeChainCandidates storage lastKnown iters = Ok cs →
  (∀ c, c ∈ cs → walked c ∧ is_root m (Oldest c))
  ∧ ∀ h, is_head m h → ∃ c, c ∈ cs ∧ ch_Head c = h.
Proof using ok m_keyed.
  intros Hc. unfold computeChainCandidates in Hc.
  destruct (law_Heads storage ok) as (l & E & _ & Hl). rewrite E in Hc. cbn [wrapf mbind res_bind] in Hc.
  apply bind_Ok in Hc as (cs0 & Hs & Hc). apply sort_Slice_perm in Hs.
  apply candidatesLoop_walked in Hc as (Hw & Hheads & Hr).
  - split.
    + intros c Hin. split; [by eapply Forall_forall in Hw|by eapply Forall_forall in Hr].
    + intros h Hh%Hl. assert (h ∈ map ch_Head cs) as Hin.
      { rewrite Hheads, Hs, map_map. cbn. by rewrite map_id. }
      apply list_elem_of_In, in_map_iff in Hin as (c & <- & Hin%list_elem_of_In). by exists c.
  - rewrite Hs. apply Forall_forall. intros c Hin.
    apply list_elem_of_In, in_map_iff in Hin as (h & <- & _). by split; cbn.
Qed.

(** Where the last known ancestor has no stored parent, the active chain starts
    at it. *)
Lemma computeActiveChain_oldest old iters c :
  lastKnown = Some (AUM_Hash old) → acyclic m → stored_in m old → is_root m old →
  computeActiveChain storage lastKnown iters = Ok c → Oldest c = old.
Proof using ok m_keyed.
  intros Hlast Hac Hold Hroot Hc. unfold computeActiveChain in Hc.
  apply bind_Ok in Hc as (cs & Hcs & Hc). apply wrapf_Ok, candidates_walked in Hcs as [Hw Hheads].
  case_bool_decide; [done|]. apply bind_Ok in Hc as (k & Hk & Hc). apply wrapf_Ok in Hk.
  apply bind_Ok in Hc as (anc & Hanc & Hc). apply chonk_AUM_hash in Hanc as [Hh Hst]; [|done].
  apply bind_Ok in Hc as (st & _ & Hc). apply bind_Ok in Hc as ([[hd st'] []] & _ & Hc).
  injection Hc as <-. cbn. eapply (keyed_inj m); [done..|]. rewrite Hh.
  apply computeActiveAncestor_spec in Hk as [Hall|(c & Hin & <- & Hact)].
  - destruct (head_below m old Hac Hold) as (h & Hhead & Hr).
    destruct (Hheads h Hhead) as (c & Hin & <-). rewrite <- (Hall c Hin). f_equal.
    destruct (Hw c Hin) as [[Hb _] Hrc]. by eapply root_unique.
  - destruct (Hw c Hin) as [[_ Hf] Hrc]. destruct (Hf Hact) as (x & Hx & Hl & Hb).
    assert (x = old) as -> by (eapply (keyed_inj m); [done..|congruence]).
    f_equal. by eapply root_unique; [..|apply rtc_refl| |].
Qed.

End Candidates.
