(* ===== verification/TkaScenario.v ===== *)
(** * Tailnet key authority: concrete stores

    In-memory stores filled with the messages of [TkaFixtures], and boolean
    checks of the conditions that the theorems about the authority put on a
    store, so that they are discharged by evaluation. *)

From S2P Require Import Prelude TkaTypes TkaState TkaFork TkaChonk TkaAuthority TkaReplay.
From S2P Require Import TkaFixtures.
Export TkaChonk.Mem.

Section Checks.
Context `{TkaCrypto}.

Definition acyclicb (rank : AUM → nat) (l : list AUM) : bool :=
  forallb (λ a, forallb (λ b,
    implb (bool_decide (Parent b = Some (AUM_Hash a))) (rank a <? rank b)%nat) l) l.

Definition validb (l : list AUM) : bool := forallb (λ a, is_ok (AUM_StaticValidate a)) l.

Lemma acyclicb_ok rank m l :
  (∀ a, stored_in m a → a ∈ l) → acyclicb rank l = true → acyclic m.
Proof.
  intros Hl Hc. exists rank. intros a b Ha%Hl Hb%Hl Hp.
  pose proof (forallb_elem _ _ _ (forallb_elem _ _ _ Hc Ha) Hb) as Hab. cbn in Hab.
  rewrite bool_decide_true in Hab by done. by apply Nat.ltb_lt.
Qed.

(** A store with the given messages, committed in order. *)
Definition store_of (l : list AUM) (ancestor : option AUMHash) : Mem :=
  let c := foldl commitOne (ChonkMem Z.of_nat) l in
  {| aums := aums c; commitTimes := commitTimes c; parentIndex := parentIndex c;
     lastActiveAncestor := ancestor; clock := clock c; ticks := ticks c |}.

Lemma stored_empty a : ¬ stored_in ∅ a.
Proof. intros [h Hh]. by rewrite lookup_empty in Hh. Qed.

Lemma store_of_spec l anc :
  collision_freeb l = true → Mem_ok (store_of l anc) ∧ aums (store_of l anc) = commit_all ∅ l.
Proof.
  intros Hc. destruct (commit_ok (ChonkMem Z.of_nat) l) as ([? ? ? ?] & Hm & _).
  - apply ChonkMem_ok.
  - eapply collision_freeb_ok; [|exact Hc]. intros a [Ha%stored_empty|?]; done.
  - split; [by split|done].
Qed.

Lemma store_of_valid l anc :
  collision_freeb l = true → validb l = true → store_valid (store_of l anc).
Proof.
  intros Hc Hv. destruct (store_of_spec l anc Hc) as [Hok Hm]. split; [done|].
  intros a. change (contents (store_of l anc)) with (aums (store_of l anc)). rewrite Hm. intros [?%stored_empty|Ha]%commit_all_from; [done|].
  pose proof (forallb_elem _ _ _ Hv Ha) as Ha'. apply is_ok_true in Ha' as [[] Ha'].
  by apply AUM_StaticValidate_valid.
Qed.

Lemma store_of_acyclic l anc rank :
  collision_freeb l = true → acyclicb rank l = true → acyclic (aums (store_of l anc)).
Proof.
  intros Hc Ha. destruct (store_of_spec l anc Hc) as [_ ->].
  eapply acyclicb_ok; [|exact Ha]. intros a [?%stored_empty|?]%commit_all_from; done.
Qed.

(** Position in a list that is ordered oldest to newest. *)
Definition rank_in (l : list AUM) (a : AUM) : nat := default 0%nat (fst <$> list_find (eq a) l).

End Checks.

(** genesis, one added key, and a fork of two messages after it *)
Definition messages : list AUM := [aum0; aum1; aum2; aum2'].
Definition store0 : Mem := store_of [aum0] (Some hash0).
Definition store3 : Mem := store_of messages (Some hash0).
(** The same messages, received in another order. *)
Definition messages' : list AUM := [aum2'; aum0; aum2; aum1].
Definition store3' : Mem := store_of messages' (Some hash0).

Lemma messages_free : collision_freeb messages = true.
Proof. by vm_compute. Qed.

Lemma messages_valid : validb messages = true.
Proof. by vm_compute. Qed.

Lemma messages_ranked : acyclicb (rank_in messages) messages = true.
Proof. by vm_compute. Qed.

Lemma store3_valid : store_valid store3.
Proof. exact (store_of_valid messages _ messages_free messages_valid). Qed.

Lemma store3_acyclic : acyclic (aums store3).
Proof. exact (store_of_acyclic messages _ _ messages_free messages_ranked). Qed.

Lemma messages'_free : collision_freeb messages' = true.
Proof. by vm_compute. Qed.

Lemma messages'_valid : validb messages' = true.
Proof. by vm_compute. Qed.

Lemma store3'_valid : store_valid store3'.
Proof. exact (store_of_valid messages' _ messages'_free messages'_valid). Qed.

Lemma genesis_free : collision_freeb [aum0] = true.
Proof. by vm_compute. Qed.

Lemma genesis_valid : validb [aum0] = true.
Proof. by vm_compute. Qed.

Lemma genesis_ranked : acyclicb (rank_in [aum0]) [aum0] = true.
Proof. by vm_compute. Qed.

Lemma store0_valid : store_valid store0.
Proof. exact (store_of_valid [aum0] _ genesis_free genesis_valid). Qed.

Lemma store0_acyclic : acyclic (aums store0).
Proof. exact (store_of_acyclic [aum0] _ _ genesis_free genesis_ranked). Qed.
