(* ===== verification/TkaInform.v ===== *)
(** * Tailnet key authority: verified updates

    Theorems about [aumVerify], [Bootstrap], [InformIdempotent], [Inform] of
    [src/tka/tka.go] and [src/tka/aum.go]: what verification establishes, the
    invariant of the trusted state, that only verified messages reach storage and
    that an update is all or nothing unless the store fails half way, and that the
    head-chain fast path computes the same active chain as a full replay. *)

From S2P Require Import Prelude TkaTypes TkaState TkaFork TkaChonk TkaAuthority TkaReplay TkaRoots.
From S2P Require Import TkaFixtures TkaScenario.

(** ** What verification establishes *)
Section Verify.
Context `{TkaCrypto}.

(** A signature by a trusted key over the message. *)
Definition signed_by (st : State) (a : AUM) (sig : AUMSignature) (k : Key) : Prop :=
  k ∈ Keys st ∧ Public k = sig_KeyID sig
  ∧ ed25519consensus_Verify (Public k) (AUM_SigHash a) (sig_Signature sig) = true.

Record verified (st : State) (a : AUM) : Prop := {
  vf_valid : AUM_valid a;
  vf_signed : Signatures a ≠ [];
  vf_sigs : Forall (λ sig, ∃ k, signed_by st a sig k) (Signatures a);
  vf_last_key k : MessageKind a = AUMRemoveKey → Keys st = [k] → Kind k = Key25519 →
                  Public k ≠ opt_bytes (aum_KeyID a)
}.

Lemma signatureVerify_Ok sig digest k :
  signatureVerify sig digest k = Ok tt →
  ed25519consensus_Verify (Public k) digest (sig_Signature sig) = true.
Proof. unfold signatureVerify. intros Hs. by res_inv. Qed.

Lemma aumVerify_verified a st g : aumVerify a st g = Ok tt → verified st a.
Proof.
  unfold aumVerify. intros Hv.
  apply bind_Ok in Hv as ([] & Hst & Hv). apply wrapf_Ok in Hst.
  apply bind_Ok in Hv as ([] & _ & Hv). apply bind_Ok in Hv as ([] & Hu & Hv).
  apply bind_Ok in Hv as ([] & Hs & Hl). apply fail_if_Ok in Hu. bool_prop. split.
  - by apply AUM_StaticValidate_valid.
  - by intros E; rewrite E in Hu.
  - apply for_each_Ok in Hs. eapply Forall_impl; [exact Hs|]. cbn. intros sig Hk.
    apply bind_Ok in Hk as (k & Hk & Hsig). apply wrapf_Ok in Hk, Hsig.
    apply GetKey_sound in Hk as (? & ? & _). exists k. split_and!; [done..|].
    by apply signatureVerify_Ok.
  - intros k Hr Hk Hkind E. rewrite Hr, Hk in Hl. unfold Key_ID in Hl. rewrite Hkind in Hl.
    apply fail_if_Ok in Hl. by bool_prop.
Qed.

Lemma aumVerify_parent a st :
  aumVerify a st false = Ok tt → ∃ p, Parent a = Some p ∧ LastAUMHash st = Some p.
Proof.
  unfold aumVerify. intros Hv. apply bind_Ok in Hv as ([] & _ & Hv).
  apply bind_Ok in Hv as ([] & Hp & _). unfold checkParent in Hp. res_inv. bool_prop.
  eexists. split; [done|]. f_equal. by apply dec_stable.
Qed.

(** ** The invariant of the trusted state *)

(** Trusted keys are valid and distinct, and there is always one. *)
Definition trust_inv (st : State) : Prop := State_wf st ∧ Keys st ≠ [].

(** One verified and applied message. *)
Definition verified_step (st : State) (a : AUM) (st' : State) : Prop :=
  aumVerify a st false = Ok tt ∧ applyVerifiedAUM st a = Ok st'.

(** A sequence of them. *)
Inductive verified_run : State → list AUM → State → Prop :=
  | run_nil st : verified_run st [] st
  | run_snoc st l st1 a st2 :
      verified_run st l st1 → verified_step st1 a st2 → verified_run st (l ++ [a]) st2.

Lemma apply_nonempty st a st' :
  State_wf st → Keys st ≠ [] → verified st a → applyVerifiedAUM st a = Ok st' → Keys st' ≠ [].
Proof.
  intros Hw Hne Hv Ha. unfold applyVerifiedAUM in Ha. destruct (negb _); [done|].
  destruct (MessageKind a) eqn:Hk; res_inv; rewrite ?Keys_set_Keys, ?clone_Keys in *; cbn; rewrite ?map_Key_Clone.
  all: try done.
  - by intros [_ ?]%app_nil.
  - rewrite deleteIdx_delete.
    pose proof (findKeyIdx_spec (Keys st) (opt_bytes (aum_KeyID a)) 0 (wf_keys _ Hw)) as Hf.
    match goal with E : findKeyIdx _ _ _ = _ |- _ => rewrite E in Hf end.
    destruct Hf as (i & k & -> & Hn & Hid). cbn [Nat.add].
    destruct (Keys st) as [|k1 [|k2 ks]] eqn:E; [done| |by destruct i as [|[|i]]].
    destruct i; [|done]. cbn in Hn. simplify_eq. exfalso.
    assert (Key_valid k) as [Hkk _ _] by (pose proof (wf_keys _ Hw) as F; rewrite E in F; by inversion F).
    by eapply (vf_last_key _ _ Hv k).
  - match goal with E : replaceKeys _ _ _ = Ok _ |- _ =>
      rewrite replaceKeys_spec in E by apply Hw; injection E as <- end.
    intros E%fmap_nil_inv. done.
  - destruct (cp_nkeys s) as [Hn _].
    { by eapply av_state; [apply Hv|]. }
    intros E. by rewrite E in Hn.
Qed.

Lemma verified_step_inv st a st' :
  trust_inv st → verified_step st a st' →
  trust_inv st' ∧ LastAUMHash st' = Some (AUM_Hash a)
  ∧ StateID1 st' = StateID1 st ∧ StateID2 st' = StateID2 st
  ∧ ∃ sig k, sig ∈ Signatures a ∧ signed_by st a sig k.
Proof.
  intros [Hw Hne] [Hv%aumVerify_verified Ha].
  destruct (apply_Ok st a st') as (_ & Hw' & Hl); [done|apply Hv|done|].
  destruct (apply_state_ids _ _ _ Ha).
  split_and!; try done.
  - split; [done|]. by apply (apply_nonempty st a).
  - pose proof (vf_signed _ _ Hv). pose proof (vf_sigs _ _ Hv) as Hs.
    destruct (Signatures a) as [|sig sigs]; [done|]. inversion Hs as [|? ? [k ?] ?]; subst.
    exists sig, k. split; [set_solver|done].
Qed.

Lemma verified_run_inv st updates st' :
  verified_run st updates st' → trust_inv st →
  trust_inv st' ∧ StateID1 st' = StateID1 st ∧ StateID2 st' = StateID2 st.
Proof.
  induction 1 as [|st l st1 a st2 _ IH Hstep]; [done|]. intros Hi.
  destruct (IH Hi) as (Hi1 & E1 & E2).
  destruct (verified_step_inv st1 a st2 Hi1 Hstep) as (? & _ & E3 & E4 & _).
  split_and!; congruence || done.
Qed.

End Verify.

(** ** The state at a stored message *)
Section StateAt.
Context `{TkaCrypto}.

(** The state at [h]: the replay of its history. *)
Definition state_at (m : gmap AUMHash AUM) (h : AUMHash) (st : State) : Prop :=
  ∃ base rest s0, history m base rest ∧ AUM_Hash (hist_top base rest) = h
    ∧ startState base = Ok s0 ∧ foldM applyVerifiedAUM s0 rest = Ok st.

Lemma stored_in_mono m m' a : m ⊆ m' → stored_in m a → stored_in m' a.
Proof. intros Hm [h Ha]. exists h. by eapply lookup_weaken. Qed.

Lemma state_at_mono m m' h st : m ⊆ m' → state_at m h st → state_at m' h st.
Proof.
  intros Hm (base & rest & s0 & [Hs Hl Hc] & ?). exists base, rest, s0. split; [|done].
  split; [|done..]. eapply Forall_impl; [exact Hs|]. intros. by eapply stored_in_mono.
Qed.

Lemma history_nil m a : stored_in m a → history m a [].
Proof. intros. split; [by constructor| |constructor]. intros [|i] x y; done. Qed.

(** One more message. *)
Lemma state_at_step m h st next st1 :
  state_at m h st → stored_in m next → Parent next = Some h →
  applyVerifiedAUM st next = Ok st1 → state_at m (AUM_Hash next) st1.
Proof.
  intros (base & rest & s0 & Hh & Htop & Hs & Hf) Hst Hp Ha.
  destruct (decide (MessageKind next = AUMCheckpoint)) as [Hc|Hc].
  - exists next, [], st1. split_and!; [by apply history_nil|done| |done].
    unfold startState. rewrite bool_decide_true by done.
    unfold applyVerifiedAUM in Ha. rewrite Hc in Ha. by res_inv.
  - exists base, (rest ++ [next]), s0. split_and!; try done.
    + apply history_snoc. split_and!; try done. by rewrite Htop.
    + by rewrite hist_top_snoc.
    + rewrite foldM_app, Hf. cbn. by rewrite Ha.
Qed.

Lemma follows_state_at m curs st c' st' :
  follows m curs st c' st' → state_at m (AUM_Hash curs) st → state_at m (AUM_Hash c') st'.
Proof.
  induction 1 as [|curs st next s1 c' st' [Hs Hp] _ Ha _ IH]; [done|]. intros Hat.
  apply IH. by eapply state_at_step.
Qed.

Lemma state_at_last m h st : state_at m h st → LastAUMHash st = Some h.
Proof.
  intros (base & rest & s0 & _ & <- & Hs & Hf). rewrite (fold_last _ _ _ Hf).
  rewrite (startState_last _ _ Hs). unfold hist_top. by destruct (last rest).
Qed.

Lemma fold_wf m st path st' :
  (∀ a, stored_in m a → AUM_valid a) → State_wf st → Forall (stored_in m) path →
  foldM applyVerifiedAUM st path = Ok st' → State_wf st'.
Proof.
  intros Hv Hw Hp Hf. apply (foldM_invariant applyVerifiedAUM State_wf (stored_in m))
    with (l := path) (s := st); try done.
  intros s a s' ? ? Ha. destruct (apply_Ok s a s') as (_ & ? & _); try done. by apply Hv.
Qed.

Lemma state_at_wf m h st :
  (∀ a, stored_in m a → AUM_valid a) → state_at m h st → State_wf st.
Proof.
  intros Hv (base & rest & s0 & Hh & _ & Hs & Hf).
  pose proof (hist_stored _ _ _ Hh) as Hst. inversion Hst; subst.
  eapply fold_wf; [done| |done|done]. eapply startState_wf; [by apply Hv|done].
Qed.

(** ** Committing messages *)

Lemma collision_free_sub (P Q : AUM → Prop) :
  (∀ a, P a → Q a) → collision_free Q → collision_free P.
Proof. unfold collision_free. eauto. Qed.

Lemma commit_all_lookup m l h a :
  keyed m → collision_free (λ a, stored_in m a ∨ a ∈ l) →
  commit_all m l !! h = Some a ↔ m !! h = Some a ∨ a ∈ l ∧ AUM_Hash a = h.
Proof.
  revert m. induction l as [|x l IH]; intros m Hk Hcf; [cbn; set_solver|].
  change (commit_all m (x :: l)) with (commit_all (<[AUM_Hash x := x]> m) l).
  assert (∀ b, m !! AUM_Hash x = Some b → b = x) as Hx.
  { intros b Hb. apply Hcf; [left; by eexists|right; set_solver|by apply Hk]. }
  rewrite IH.
  - rewrite lookup_insert_Some, elem_of_cons. split.
    + intros [[[<- ->]|[? ?]]|[? ?]]; naive_solver.
    + intros [Ha|[[->|?] ?]]; [|naive_solver..].
      destruct (decide (AUM_Hash x = h)) as [<-|]; [|naive_solver]. left; left. naive_solver.
  - intros h' a' [[<- <-]|[_ ?]]%lookup_insert_Some; [done|]. by apply Hk.
  - eapply collision_free_sub; [|exact Hcf]. intros b [[h' [[_ <-]|[_ ?]]%lookup_insert_Some]|?];
      [right; set_solver|left; by eexists|right; set_solver].
Qed.

Lemma commit_all_stored m l a :
  keyed m → collision_free (λ a, stored_in m a ∨ a ∈ l) →
  stored_in (commit_all m l) a ↔ stored_in m a ∨ a ∈ l.
Proof.
  intros Hk Hcf. unfold stored_in. setoid_rewrite commit_all_lookup; [|done..]. naive_solver.
Qed.

Lemma commit_all_sub m l :
  keyed m → collision_free (λ a, stored_in m a ∨ a ∈ l) → m ⊆ commit_all m l.
Proof.
  intros Hk Hcf. apply map_subseteq_spec. intros h a Ha. rewrite commit_all_lookup by done.
  by left.
Qed.

Lemma commit_all_app m l1 l2 : commit_all m (l1 ++ l2) = commit_all (commit_all m l1) l2.
Proof. unfold commit_all. by rewrite foldl_app. Qed.

Lemma commit_all_keyed m l :
  keyed m → collision_free (λ a, stored_in m a ∨ a ∈ l) → keyed (commit_all m l).
Proof. intros Hk Hcf h a. rewrite commit_all_lookup by done. intros [?|[??]]; [by apply Hk|done]. Qed.

(** Committing more messages keeps those there are. *)
Lemma commit_all_prefix m (us l1 l2 : list AUM) :
  keyed m → collision_free (λ a, stored_in m a ∨ a ∈ us) → (∀ a, a ∈ l1 ++ l2 → a ∈ us) →
  commit_all m l1 ⊆ commit_all m (l1 ++ l2).
Proof.
  intros Hk Hcf Hin. rewrite commit_all_app.
  assert (collision_free (λ a, stored_in m a ∨ a ∈ l1)) as Hcf1.
  { eapply collision_free_sub; [|exact Hcf]. set_solver. }
  apply commit_all_sub; [by apply commit_all_keyed|].
  eapply collision_free_sub; [|exact Hcf]. intros a. rewrite commit_all_stored by done. set_solver.
Qed.

Lemma state_at_stored m h st : keyed m → state_at m h st → is_Some (m !! h).
Proof.
  intros Hk (base & rest & s0 & Hh & <- & _).
  assert (stored_in m (hist_top base rest)) as [h Hs].
  { eapply Forall_forall; [by apply hist_stored|]. apply last_Some_elem_of, hist_top_last. }
  exists (hist_top base rest). by rewrite (Hk _ _ Hs).
Qed.

End StateAt.

(** ** Applying updates *)
Section Inform.
Context `{TkaCrypto} {Store : Type} `{Chonk Store} `{!ChonkLaws Store}.

Lemma computeStateAt_state_at (storage : Store) n h st :
  chonk_ok storage → acyclic (contents storage) →
  computeStateAt storage n h = Ok st → state_at (contents storage) h st.
Proof.
  intros Hok Hac Hc. apply computeStateAt_history in Hc as (base & rest & s0 & ? & ? & ? & _ & ?);
    [|done..]. by exists base, rest, s0.
Qed.

(** With as many iterations as the history is long, the state is found; so it is
    unique. *)
Lemma state_at_compute (storage : Store) h st :
  chonk_ok storage → acyclic (contents storage) → state_at (contents storage) h st →
  ∃ n0, ∀ n, (n0 <= n)%nat → computeStateAt storage n h = Ok st.
Proof.
  intros Hok Hac (base & rest & s0 & ? & ? & ? & ?). exists (S (length rest)). intros n Hn.
  apply computeStateAt_history; [done..|]. exists base, rest, s0. by split_and!.
Qed.

Lemma state_at_det (storage : Store) h st1 st2 :
  chonk_ok storage → acyclic (contents storage) →
  state_at (contents storage) h st1 → state_at (contents storage) h st2 → st1 = st2.
Proof.
  intros Hok Hac Hs1 Hs2.
  destruct (state_at_compute storage h st1 Hok Hac Hs1) as [n1 Hn1].
  destruct (state_at_compute storage h st2 Hok Hac Hs2) as [n2 Hn2].
  specialize (Hn1 (n1 + n2)%nat ltac:(lia)). specialize (Hn2 (n1 + n2)%nat ltac:(lia)). congruence.
Qed.

(** A message that was verified against the state at its parent, and applies to it. *)
Definition accepted (m : gmap AUMHash AUM) (u : AUM) : Prop :=
  ∃ p st st', Parent u = Some p ∧ state_at m p st ∧ verified_step st u st'.

Lemma accepted_mono m m' u : m ⊆ m' → accepted m u → accepted m' u.
Proof. intros Hm (p & st & st' & ? & ? & ?). exists p, st, st'. eauto using state_at_mono. Qed.

(** The messages that are not stored yet. *)
Definition unstored (m : gmap AUMHash AUM) (l : list AUM) : list AUM :=
  filter (λ u, m !! AUM_Hash u = None) l.

Lemma unstored_elem m l u : u ∈ unstored m l ↔ u ∈ l ∧ m !! AUM_Hash u = None.
Proof. unfold unstored. rewrite list_elem_of_filter. tauto. Qed.

Section Loop.
Context (storage : Store) (a : Authority) (updates : list AUM).
Hypothesis valid : store_valid storage.
Hypothesis acyc : acyclic (contents storage).
Hypothesis no_collision : collision_free (λ u, stored_in (contents storage) u ∨ u ∈ updates).

Let m := contents storage.
Let m_keyed : keyed m.
Proof. intros h u Hu. eapply law_keyed; [apply valid|done]. Qed.

(** The invariant of the loop of [InformIdempotent], after the messages [done_]:
    each message to commit was verified against a state that the messages before
    it lead to. *)
Record inform_inv (done_ : list AUM) (v : InformVars) : Prop := {
  iv_unstored : toCommit v = unstored m done_;
  iv_at h st : stateAt v !! h = Some st → state_at (commit_all m (toCommit v)) h st;
  iv_new i u : toCommit v !! i = Some u →
    AUM_valid u ∧ accepted (commit_all m (take i (toCommit v))) u;
  iv_head : isHeadChain v = true →
    toCommit v = done_ ∧ linked (head a :: done_)
    ∧ prevHash v = AUM_Hash (hist_top (head a) done_)
    ∧ ∃ st, stateAt v !! prevHash v = Some st ∧ foldM applyVerifiedAUM (state a) done_ = Ok st
}.

Lemma inform_inv_init h :
  state_at m h (state a) → h = AUM_Hash (head a) →
  inform_inv [] {| stateAt := {[h := state a]}; toCommit := []; prevHash := h;
                   isHeadChain := true |}.
Proof using valid acyc no_collision m_keyed.
  intros Hat ->. split; cbn; try set_solver.
  - intros h st [<- <-]%lookup_singleton_Some. done.
  - intros _. split_and!; try done. exists (state a).
    by rewrite lookup_singleton_eq.
Qed.

Lemma commit_cf (l : list AUM) : (∀ u, u ∈ l → u ∈ updates) → collision_free (λ u, stored_in m u ∨ u ∈ l).
Proof using valid acyc no_collision m_keyed.
  intros Hl. eapply collision_free_sub; [|exact no_collision]. naive_solver.
Qed.

(** The messages seen so far, with one that is already stored. *)
Lemma inform_inv_skip done_ v u :
  inform_inv done_ v → stored_in m u →
  inform_inv (done_ ++ [u])
    {| stateAt := stateAt v; toCommit := toCommit v; prevHash := prevHash v; isHeadChain := false |}.
Proof using valid acyc no_collision m_keyed.
  intros [Htc Hat Hnew _] Hu. split; cbn; try done. destruct Hu as [h Hu].
  unfold unstored. rewrite filter_app, Htc, filter_cons_False, filter_nil; [by rewrite app_nil_r|].
  rewrite (m_keyed _ _ Hu), Hu. done.
Qed.

Lemma commit_snoc_sub (l : list AUM) u :
  (∀ w, w ∈ l ++ [u] → w ∈ updates) → commit_all m l ⊆ commit_all m (l ++ [u]).
Proof using valid acyc no_collision m_keyed. by apply commit_all_prefix. Qed.

(** A new message. *)
Lemma inform_inv_commit done_ v u p st sa st' :
  inform_inv done_ v → (∀ w, w ∈ done_ ++ [u] → w ∈ updates) →
  m !! AUM_Hash u = None → Parent u = Some p → verified_step st u st' →
  state_at (commit_all m (toCommit v)) p st →
  (∀ h s, sa !! h = Some s → stateAt v !! h = Some s ∨ h = p ∧ s = st) →
  (isHeadChain v = true → p = prevHash v → stateAt v !! p = Some st) →
  inform_inv (done_ ++ [u])
    {| stateAt := <[AUM_Hash u := st']> sa; toCommit := toCommit v ++ [u];
       prevHash := AUM_Hash u;
       isHeadChain := if isHeadChain v && bool_decide (p ≠ prevHash v) then false
                      else isHeadChain v |}.
Proof using valid acyc no_collision m_keyed.
  intros [Hun Hat Hnew Hh] Hupd Hnone Hp Hstep Hst Hsa Hcache.
  assert (∀ w, w ∈ toCommit v ++ [u] → w ∈ updates) as Htc.
  { intros w Hw. apply Hupd. rewrite Hun in Hw. revert Hw.
    rewrite !elem_of_app, unstored_elem. tauto. }
  pose proof (commit_snoc_sub (toCommit v) u Htc) as Hmono.
  assert (stored_in (commit_all m (toCommit v ++ [u])) u) as Hin.
  { rewrite commit_all_stored; [|done|by apply commit_cf]. set_solver. }
  split; cbn.
  - unfold unstored. rewrite filter_app, Hun, filter_cons_True, filter_nil by done. done.
  - intros h s [[<- <-]|[_ Hs]]%lookup_insert_Some.
    + eapply state_at_step; [by eapply state_at_mono|done..|apply Hstep].
    + destruct (Hsa _ _ Hs) as [?|[-> ->]]; eapply state_at_mono; eauto.
  - intros i w Hi. apply lookup_app_Some in Hi as [Hi|[Hle Hi]].
    + rewrite take_app_le by (apply lookup_lt_Some in Hi; lia). by apply Hnew.
    + apply list_lookup_singleton_Some in Hi as [Hi <-].
      replace i with (length (toCommit v)) by lia. rewrite take_app_length. split.
      * by eapply vf_valid, aumVerify_verified, Hstep.
      * by exists p, st, st'.
  - intros Hb. destruct (isHeadChain v) eqn:Hv; [|by rewrite andb_false_l in Hb]. cbn in Hb.
    case_bool_decide as Hpp; [done|]. subst p.
    destruct Hh as (Htd & Hl & Hprev & s & Hs & Hf); [done|].
    rewrite (Hcache eq_refl eq_refl) in Hs. injection Hs as <-. split_and!.
    + by rewrite Htd.
    + rewrite app_comm_cons. rewrite (linked_snoc _ _ _ (hist_top_last (head a) done_)).
      split; [done|]. by rewrite Hp, Hprev.
    + by rewrite hist_top_snoc.
    + exists st'. rewrite lookup_insert_eq, foldM_app, Hf. cbn. split; [done|].
      by rewrite (proj2 Hstep).
Qed.

Lemma informStep_inv done_ v u v' :
  inform_inv done_ v → (∀ w, w ∈ done_ ++ [u] → w ∈ updates) →
  informStep storage v u = Ok v' → inform_inv (done_ ++ [u]) v'.
Proof using valid acyc no_collision m_keyed.
  intros Hinv Hupd Hs. unfold informStep in Hs. rewrite law_AUM in Hs by apply valid. fold m in Hs.
  destruct (m !! AUM_Hash u) as [u'|] eqn:Hu.
  - injection Hs as <-. apply inform_inv_skip; [done|].
    assert (u' = u) as ->; [|by eexists].
    apply no_collision; [left; by eexists|right; set_solver|by apply m_keyed].
  - destruct (Parent u) as [p|] eqn:Hp; [|done].
    apply bind_Ok in Hs as ([st sa] & Hst & Hs). apply bind_Ok in Hs as ([] & Hv & Hs).
    apply wrapf_Ok in Hv. apply bind_Ok in Hs as (st' & Ha & Hs). apply wrapf_Ok in Ha.
    injection Hs as <-.
    assert (verified_step st u st') as Hstep by (by split).
    destruct (stateAt v !! p) as [s|] eqn:Hsp.
    + injection Hst as <- <-. eapply inform_inv_commit; eauto. by eapply iv_at.
    + apply bind_Ok in Hst as (s & Hc & Hst). apply wrapf_Ok in Hc. injection Hst as <- <-.
      eapply inform_inv_commit; eauto.
      * eapply state_at_mono; [|eapply computeStateAt_state_at; [apply valid|done..]].
        apply commit_all_sub; [done|]. apply commit_cf. intros w Hw. apply Hupd, elem_of_app.
        left. rewrite (iv_unstored _ _ Hinv) in Hw. by apply unstored_elem in Hw as [? _].
      * intros h s' [[<- <-]|[_ ?]]%lookup_insert_Some; naive_solver.
      * intros Hh ->. destruct (iv_head _ _ Hinv Hh) as (_ & _ & _ & s' & ? & _). congruence.
Qed.

Lemma informLoop_inv l done_ v v' :
  inform_inv done_ v → (∀ w, w ∈ done_ ++ l → w ∈ updates) →
  foldM (informStep storage) v l = Ok v' → inform_inv (done_ ++ l) v'.
Proof using valid acyc no_collision m_keyed.
  revert done_ v. induction l as [|u l IH]; intros done_ v Hinv Hupd Hf; cbn in Hf.
  { simplify_eq. by rewrite app_nil_r. }
  apply bind_Ok in Hf as (v1 & Hs & Hf).
  rewrite cons_middle, app_assoc. apply (IH _ v1); [|by rewrite <- app_assoc|done].
  eapply informStep_inv; [done| |done]. set_solver.
Qed.

End Loop.
(** ** The result of an update *)

(** The authority is where fork resolution leads from its oldest message. *)
Definition tracks (m : gmap AUMHash AUM) (a : Authority) : Prop :=
  ∃ st0, state_at m (AUM_Hash (oldestAncestor a)) st0 ∧ stored_in m (oldestAncestor a)
    ∧ follows m (oldestAncestor a) st0 (head a) (state a).

Lemma tracks_head m a : tracks m a → state_at m (AUM_Hash (head a)) (state a).
Proof. intros (st0 & Hat & _ & Hf). by eapply follows_state_at. Qed.

Lemma tracks_Head m a : tracks m a → Authority_Head a = Ok (AUM_Hash (head a)).
Proof.
  intros Ht%tracks_head%state_at_last. unfold Authority_Head. by rewrite Ht.
Qed.

Lemma acyclic_sub m m' : m ⊆ m' → acyclic m' → acyclic m.
Proof. intros Hm [rank Hr]. exists rank. eauto using stored_in_mono. Qed.

(** Committing the updates is committing those of them that are not stored. *)
Lemma commit_same (m : gmap AUMHash AUM) updates :
  keyed m → collision_free (λ u, stored_in m u ∨ u ∈ updates) →
  commit_all m (unstored m updates) = commit_all m updates.
Proof.
  intros Hk Hcf. apply map_eq. intros h. apply option_eq. intros u.
  rewrite !commit_all_lookup, unstored_elem; [|done..|done|].
  - split; [naive_solver|]. intros [?|[Hu <-]]; [by left|].
    destruct (m !! AUM_Hash u) as [w|] eqn:Hw; [left|by right].
    f_equal. apply Hcf; [left; by eexists|by right|by apply Hk].
  - eapply collision_free_sub; [|exact Hcf]. intros w. rewrite unstored_elem. tauto.
Qed.

Lemma inform_cases (storage storage' : Store) a updates r :
  store_valid storage → acyclic (contents storage) → tracks (contents storage) a →
  collision_free (λ u, stored_in (contents storage) u ∨ u ∈ updates) →
  InformIdempotent a storage updates = (storage', r) →
  storage' = storage ∧ is_ok r = false
  ∨ ∃ v l1 l2 rc, inform_inv storage a updates v ∧ updates ≠ [] ∧ chonk_ok storage'
      ∧ toCommit v = l1 ++ l2 ∧ CommitVerifiedAUMs storage (toCommit v) = (storage', rc)
      ∧ contents storage' = commit_all (contents storage) l1
      ∧ LastActiveAncestor storage' = LastActiveAncestor storage
      ∧ ((∃ e, rc = Err e) ∧ is_ok r = false
         ∨ rc = Ok tt ∧ l2 = []
           ∧ r = if isHeadChain v then
              Ok {| head := default (head a) (last updates); oldestAncestor := oldestAncestor a;
                    state := default State_zero (stateAt v !! prevHash v) |}
            else c ← wrapf "recomputing active chain"
                       (computeActiveChain storage' (Some (AUM_Hash (oldestAncestor a)))
                          maxScanIterations);
                 Ok (authority_of_chain c)).
Proof.
  intros Hv Hac Ht Hcf Hi. unfold InformIdempotent in Hi. case_bool_decide as Hne.
  { left. by simplify_eq. }
  rewrite (tracks_Head _ _ Ht) in Hi. cbn [mbind res_bind] in Hi.
  destruct (foldM _ _ _) as [v|e| |] eqn:Hf; [|left; by simplify_eq..].
  assert (inform_inv storage a updates v) as Hinv.
  { change updates with ([] ++ updates). eapply (informLoop_inv storage a updates); try done.
    eapply (inform_inv_init storage a updates); try done. by apply tracks_head. }
  destruct (law_Commit storage (toCommit v)) as (s' & rc & l1 & l2 & Hc & Hl & Hrc & Hok' & Hcont & Hlast).
  { apply Hv. }
  { eapply collision_free_sub; [|exact Hcf]. rewrite (iv_unstored _ _ _ _ Hinv).
    intros u. rewrite unstored_elem. tauto. }
  rewrite Hc in Hi. right. exists v, l1, l2, rc. assert (updates ≠ []) by (by intros ->).
  destruct Hrc as [[-> ->]|[e ->]]; cbn in Hi; injection Hi as <- <-; split_and!; try done.
  - right. split_and!; [done..|]. destruct (last updates) eqn:E; [done|]. by apply last_None in E.
  - left. split; [by eexists|done].
Qed.

(** ** The fast path *)

Lemma follows_no_child m curs st c' st' b : follows m curs st c' st' → ¬ is_child m c' b.
Proof. induction 1; auto. Qed.

(** Where each message of a path has only the next one as a child, fork
    resolution follows the path. *)
Lemma follows_path m p top : ∀ l i cur st st',
  last p = Some top → p !! i = Some cur → drop (S i) p = l →
  (∀ j x b, (i <= j)%nat → p !! j = Some x → is_child m x b ↔ p !! S j = Some b) →
  foldM applyVerifiedAUM st l = Ok st' → follows m cur st top st'.
Proof.
  induction l as [|next l IH]; intros i cur st st' Htop Hi Hl Hch Hf; cbn in Hf.
  - assert (p !! S i = None) as Hn.
    { apply lookup_ge_None. apply (f_equal length) in Hl. rewrite length_drop in Hl. cbn in Hl. lia. }
    simplify_eq. assert (cur = top) as ->.
    { rewrite last_lookup in Htop. apply lookup_ge_None in Hn. pose proof (lookup_lt_Some _ _ _ Hi).
      replace (pred (length p)) with i in Htop by lia. congruence. }
    apply follows_end. intros b Hb. apply (Hch i) in Hb; [congruence|done..].
  - apply bind_Ok in Hf as (st1 & Ha & Hf).
    assert (p !! S i = Some next) as Hn.
    { rewrite <- (Nat.add_0_r (S i)), <- lookup_drop, Hl. done. }
    eapply follows_step; [by apply (Hch i)| |done|].
    + intros b Hb Hne. apply (Hch i) in Hb; [congruence|done..].
    + eapply (IH (S i)); try done.
      * rewrite (drop_S _ _ _ Hn) in Hl. by injection Hl.
      * intros j x b Hj. apply Hch. lia.
Qed.

(** Only the authority's oldest message may have a parent that is not stored:
    no other message waits for its parent. *)
Definition rooted (m : gmap AUMHash AUM) (a : Authority) : Prop :=
  ∀ b p, stored_in m b → Parent b = Some p → m !! p = None → b = oldestAncestor a.

Lemma follows_rank m m' (rank : AUM → nat) curs st c' st' :
  (∀ x y, stored_in m' x → stored_in m' y → Parent y = Some (AUM_Hash x) → (rank x < rank y)%nat) →
  m ⊆ m' → stored_in m curs → follows m curs st c' st' → (rank curs <= rank c')%nat ∧ stored_in m c'.
Proof.
  intros Hrank Hm Hs F. induction F as [|curs st next s1 c' s' [Hn Hp] _ _ _ IH]; [done|].
  destruct (IH Hn). split; [|done].
  specialize (Hrank curs next). enough (rank curs < rank next)%nat by lia.
  apply Hrank; [by eapply stored_in_mono..|done].
Qed.

(** So no stored message has a new message of the head's chain as its parent. *)
Lemma rooted_fresh m a us b u :
  keyed m → collision_free (λ u, stored_in m u ∨ u ∈ us) → acyclic (commit_all m us) →
  tracks m a → rooted m a → linked (head a :: us) →
  stored_in m b → u ∈ us → m !! AUM_Hash u = None → Parent b ≠ Some (AUM_Hash u).
Proof.
  intros Hk Hcf [rank Hrank] (st0 & _ & Hold & Hfol) Hroot Hl Hb Hu Hn Hp.
  pose proof (Hroot b _ Hb Hp Hn) as ->. pose proof (commit_all_sub m us Hk Hcf) as Hsub.
  destruct (follows_rank _ _ rank _ _ _ _ Hrank Hsub Hold Hfol) as [Hle Hhead].
  assert (Forall (stored_in (commit_all m us)) (head a :: us)) as Hst.
  { apply Forall_forall. intros x Hx. rewrite commit_all_stored by done. set_solver. }
  apply list_elem_of_lookup in Hu as [j Hj].
  pose proof (linked_rank _ rank (head a :: us) 0 (S j) (head a) u Hrank Hst Hl eq_refl Hj ltac:(lia)).
  enough (rank u < rank (oldestAncestor a))%nat by lia. apply Hrank; [|by eapply stored_in_mono|done].
  eapply Forall_lookup_1; [exact Hst|exact (Hj : (head a :: us) !! S j = _)].
Qed.

Section FastPath.
Context (m : gmap AUMHash AUM) (hd : AUM) (us : list AUM).
Hypothesis m_keyed : keyed m.
Hypothesis no_collision : collision_free (λ u, stored_in m u ∨ u ∈ us).
Hypothesis acyc : acyclic (commit_all m us).
Hypothesis all_new : ∀ u, u ∈ us → m !! AUM_Hash u = None.
Hypothesis us_fresh : ∀ b u,
  stored_in m b → u ∈ us → m !! AUM_Hash u = None → Parent b ≠ Some (AUM_Hash u).
Hypothesis us_linked : linked (hd :: us).
Hypothesis hd_stored : stored_in m hd.
Hypothesis hd_childless : ∀ b, ¬ is_child m hd b.

(** A new message is a child of the message before it on the chain. *)
Lemma new_child_of b h :
  b ∈ us → Parent b = Some h →
  ∃ j x, (hd :: us) !! j = Some x ∧ (hd :: us) !! S j = Some b ∧ AUM_Hash x = h.
Proof using us_linked.
  intros [j Hj]%list_elem_of_lookup Hp.
  destruct (lookup_lt_is_Some_2 (hd :: us) j) as [x Hx].
  { pose proof (lookup_lt_Some _ _ _ Hj). cbn. lia. }
  exists j, x. split_and!; [done..|]. rewrite (us_linked j x b) in Hp by done. congruence.
Qed.

Lemma older_children x b c :
  stored_in m x → is_child m x c → is_child (commit_all m us) x b ↔ is_child m x b.
Proof using All.
  intros Hx Hc. unfold is_child. rewrite commit_all_stored by done. split; [|naive_solver].
  intros [[?|Hb] Hp]; [done|]. exfalso.
  destruct (new_child_of b _ Hb Hp) as (j & y & Hy & _ & Hh).
  destruct j as [|j]; cbn in Hy.
  - simplify_eq. apply (hd_childless c). destruct Hc as [? E]. split; [done|]. by rewrite E, Hh.
  - assert (m !! AUM_Hash y = None) as Hn by (apply all_new; by eapply list_elem_of_lookup_2).
    destruct Hx as [h Hx]. rewrite (m_keyed _ _ Hx) in Hh. congruence.
Qed.

Lemma path_stored : Forall (stored_in (commit_all m us)) (hd :: us).
Proof using All.
  apply Forall_forall. intros x Hx. rewrite commit_all_stored by done. set_solver.
Qed.

Lemma path_children j x b :
  (hd :: us) !! j = Some x → is_child (commit_all m us) x b ↔ (hd :: us) !! S j = Some b.
Proof using All.
  intros Hj. pose proof path_stored as Hst. split.
  - intros [Hb Hp]. rewrite commit_all_stored in Hb by done. destruct Hb as [Hb|Hb].
    + exfalso. destruct j as [|j]; cbn in Hj; [simplify_eq; by apply (hd_childless b)|].
      apply list_elem_of_lookup_2 in Hj. by apply (us_fresh b x); auto.
    + destruct (new_child_of b _ Hb Hp) as (k & y & Hy & Hk & Hh).
      assert (y = x) as ->.
      { assert (keyed (commit_all m us)) as Hk' by (by apply commit_all_keyed).
        destruct (Forall_lookup_1 _ _ _ _ Hst Hy) as [h1 H1], (Forall_lookup_1 _ _ _ _ Hst Hj) as [h2 H2].
        pose proof (Hk' _ _ H1). pose proof (Hk' _ _ H2). congruence. }
      assert (k = j) as ->; [|done]. destruct acyc as [rank Hrank].
      destruct (Nat.lt_total k j) as [Hlt|[?|Hlt]]; [|done|].
      * pose proof (linked_rank _ rank _ _ _ _ _ Hrank Hst us_linked Hy Hj Hlt). lia.
      * pose proof (linked_rank _ rank _ _ _ _ _ Hrank Hst us_linked Hj Hy Hlt). lia.
  - intros Hb. split; [by eapply Forall_lookup_1|]. by eapply us_linked.
Qed.

Lemma fast_path_follows old st0 st st' :
  follows m old st0 hd st → stored_in m old → foldM applyVerifiedAUM st us = Ok st' →
  follows (commit_all m us) old st0 (hist_top hd us) st'.
Proof using All.
  intros F Ho Hf. remember hd as c eqn:Hc in F.
  induction F as [curs st Hn|curs st next s1 c' s' Hch Hb Ha F IH].
  - subst. eapply (follows_path _ (hd :: us) _ us 0); try done; [apply hist_top_last|].
    intros j x b _. apply path_children.
  - eapply follows_step; [by eapply older_children| |done|apply IH; try done; apply Hch].
    intros b Hb'%(older_children _ _ next); [|done..]. by apply Hb.
Qed.

End FastPath.

(** ** The new authority *)
Section Result.
Context (storage storage' : Store) (a : Authority) (updates : list AUM) (v : InformVars).
Hypothesis valid : store_valid storage.
Hypothesis valid' : store_valid storage'.
Hypothesis no_collision : collision_free (λ u, stored_in (contents storage) u ∨ u ∈ updates).
Hypothesis acyc' : acyclic (commit_all (contents storage) updates).
Hypothesis inv : inform_inv storage a updates v.
Hypothesis all_stored : contents storage' = commit_all (contents storage) updates.

Let m := contents storage.
Let m_keyed : keyed m.
Proof. intros h u Hu. eapply law_keyed; [apply valid|done]. Qed.

Lemma inform_inv_update u :
  u ∈ updates → stored_in m u ∨ AUM_valid u ∧ accepted (commit_all m updates) u.
Proof using valid no_collision inv m_keyed.
  intros Hu. destruct (m !! AUM_Hash u) as [w|] eqn:Hw.
  - left. assert (w = u) as ->; [|by eexists].
    apply no_collision; [left; by eexists|by right|by apply m_keyed].
  - right. assert (u ∈ toCommit v) as [i Hi]%list_elem_of_lookup.
    { rewrite (iv_unstored _ _ _ _ inv). by apply unstored_elem. }
    destruct (iv_new _ _ _ _ inv i u Hi) as [? Hacc]. split; [done|].
    rewrite <- commit_same by done. fold m in Hacc. pose proof (iv_unstored _ _ _ _ inv) as E.
    fold m in E. rewrite <- E, <- (take_drop i (toCommit v)).
    eapply accepted_mono; [|exact Hacc].
    eapply commit_all_prefix; [done|exact no_collision|]. rewrite take_drop, E.
    intros x. rewrite unstored_elem. by intros [? _].
Qed.

Definition new_authority (a' : Authority) : Prop :=
  Ok a' = if isHeadChain v then
            Ok {| head := default (head a) (last updates); oldestAncestor := oldestAncestor a;
                  state := default State_zero (stateAt v !! prevHash v) |}
          else c ← wrapf "recomputing active chain"
                     (computeActiveChain storage' (Some (AUM_Hash (oldestAncestor a)))
                        maxScanIterations);
               Ok (authority_of_chain c).

Lemma inform_tracks a' :
  tracks m a → rooted m a → new_authority a' → tracks (contents storage') a'.
Proof using All.
  intros Ht Hrt Hr. unfold new_authority in Hr. pose proof (commit_all_sub _ _ m_keyed no_collision) as Hsub.
  destruct (isHeadChain v) eqn:Hh.
  - destruct (iv_head _ _ _ _ inv Hh) as (Htc & Hl & Hprev & st & Hst & Hf).
    injection Hr as ->. rewrite Hst. cbn. pose proof Ht as (st0 & Hat & Hso & Hfol). exists st0.
    cbn. rewrite all_stored. split_and!; [by eapply state_at_mono|by eapply stored_in_mono|].
    change (default (head a) (last updates)) with (hist_top (head a) updates).
    apply (fast_path_follows _ _ _ m_keyed no_collision acyc') with (st := state a); try done.
    + intros u Hu. rewrite <- Htc, (iv_unstored _ _ _ _ inv) in Hu. by apply unstored_elem in Hu as [_ ?].
    + intros b u. by apply (rooted_fresh m a updates).
    + clear -Hfol Hso. induction Hfol as [|? ? ? ? ? ? Hc]; [done|]. by apply IHHfol, Hc.
    + intros b. by eapply follows_no_child.
  - apply symmetry, bind_Ok in Hr as (c & Hcc & Hr). apply wrapf_Ok in Hcc. injection Hr as <-.
    apply computeActiveChain_follows in Hcc as (st0 & Hs & ? & ?); [|done|by rewrite all_stored].
    exists st0. split_and!; [|done..].
    eapply computeStateAt_state_at; [apply valid'|by rewrite all_stored|done].
Qed.

(** The oldest message stays where its parent is not stored. *)
Lemma new_oldest a' p :
  stored_in m (oldestAncestor a) → new_authority a' →
  Parent (oldestAncestor a) = Some p → contents storage' !! p = None →
  oldestAncestor a' = oldestAncestor a.
Proof using All.
  intros Hold Hr Hp Hn. unfold new_authority in Hr. destruct (isHeadChain v); [by injection Hr as ->|].
  apply symmetry, bind_Ok in Hr as (c & Hcc & Hr). apply wrapf_Ok in Hcc. injection Hr as <-.
  eapply computeActiveChain_oldest; [apply valid'|reflexivity|by rewrite all_stored| | |exact Hcc].
  - rewrite all_stored. eapply stored_in_mono; [by apply commit_all_sub|done].
  - apply root_lookup; [intros h u; apply law_keyed, valid'|]. intros p'. rewrite Hp. by intros [= <-].
Qed.

Lemma inform_rooted a' :
  tracks m a → rooted m a → new_authority a' → rooted (contents storage') a'.
Proof using All.
  intros (st0 & _ & Hold & _) Hrt Hr b p Hb Hp Hn.
  assert (b = oldestAncestor a) as ->; [|symmetry; by eapply new_oldest].
  rewrite all_stored in Hb, Hn. pose proof (commit_all_sub _ _ m_keyed no_collision) as Hsub.
  assert (stored_in m b → b = oldestAncestor a) as Hold_b.
  { intros Hs. apply (Hrt b p); [done..|]. by eapply lookup_weaken_None. }
  apply commit_all_stored in Hb as [Hb|Hb]; [by apply Hold_b| |done..].
  apply inform_inv_update in Hb as [?|[_ (p' & st & st' & Hp' & Hat & _)]]; [by apply Hold_b|].
  apply state_at_stored in Hat as [w Hw]; [|by apply commit_all_keyed].
  rewrite Hp in Hp'. injection Hp' as <-. unfold m in Hw. by rewrite Hn in Hw.
Qed.

End Result.

(** On updates that build on the head and verify one after the other, the loop
    takes the fast path. *)
Lemma head_chain_loop (storage : Store) st h updates st' v0 :
  chonk_ok storage → LastAUMHash st = Some h →
  v0 = {| stateAt := {[h := st]}; toCommit := []; prevHash := h; isHeadChain := true |} →
  verified_run st updates st' → (∀ u, u ∈ updates → contents storage !! AUM_Hash u = None) →
  ∃ v, foldM (informStep storage) v0 updates = Ok v ∧ isHeadChain v = true
    ∧ toCommit v = updates ∧ stateAt v !! prevHash v = Some st' ∧ LastAUMHash st' = Some (prevHash v).
Proof.
  intros Hok Hl -> Hrun. induction Hrun as [st|st l st1 a st2 _ IH Hstep]; intros Hnew.
  { eexists. split_and!; [done..| |done]. cbn. by rewrite lookup_singleton_eq. }
  destruct IH as (v & Hf & Hh & Htc & Hst & Hlast); [done|intros u Hu; apply Hnew; set_solver|].
  destruct (aumVerify_parent _ _ (proj1 Hstep)) as (p & Hp & Hlp).
  assert (p = prevHash v) as -> by congruence.
  rewrite foldM_app, Hf. cbn. unfold informStep. rewrite law_AUM, Hnew by (done || set_solver).
  rewrite Hp, Hst. cbn. rewrite (proj1 Hstep), (proj2 Hstep). cbn. eexists.
  split_and!; [done| | | |]; cbn.
  - rewrite Hh. by rewrite bool_decide_false by naive_solver.
  - by rewrite Htc.
  - by rewrite lookup_insert_eq.
  - by eapply apply_last, Hstep.
Qed.

End Inform.

(** ** Properties *)
Section Properties.
Context `{TkaCrypto} {Store : Type} `{Chonk Store} `{!ChonkLaws Store}.

(** C1. However many verified messages are applied to a state whose keys are
    valid, distinct and at least one, the keys stay valid (1 to 4096 votes,
    bounded metadata), distinct and at least one, and the two state ids that
    identify the authority never change: no sequence of updates that passes
    [aumVerify] can leave the tailnet without a trusted key. *)
Theorem verified_run_keeps_trust st updates st' :
  verified_run st updates st' → trust_inv st →
  trust_inv st' ∧ StateID1 st' = StateID1 st ∧ StateID2 st' = StateID2 st.
Proof. apply verified_run_inv. Qed.


(** C4. The authority that [InformIdempotent] returns is the one a full replay
    from the oldest message would reach, whether it took the head-chain fast
    path or recomputed the active chain: fork resolution from the oldest message
    over the new contents of storage leads to its head and its state.  This
    holds for an authority that is itself where fork resolution leads, over a
    store of valid messages in which every message but the authority's oldest
    has its parent stored, when no message is its own ancestor and no two of the
    messages at hand have the same hash; and all of this holds again afterwards
    for the new authority, so it holds for any sequence of updates. *)
Theorem inform_tracks_active_chain (storage storage' : Store) a updates a' :
  store_valid storage → tracks (contents storage) a → rooted (contents storage) a →
  collision_free (λ u, stored_in (contents storage) u ∨ u ∈ updates) →
  acyclic (commit_all (contents storage) updates) →
  InformIdempotent a storage updates = (storage', Ok a') →
  contents storage' = commit_all (contents storage) updates
  ∧ store_valid storage' ∧ tracks (contents storage') a' ∧ rooted (contents storage') a'.
Proof.
  intros Hv Ht Hrt Hcf Hac' Hi.
  assert (keyed (contents storage)) as Hk by (intros h u; apply law_keyed, Hv).
  pose proof (commit_all_sub _ _ Hk Hcf) as Hsub.
  assert (acyclic (contents storage)) as Hac by (by eapply acyclic_sub).
  destruct (inform_cases _ _ _ _ _ Hv Hac Ht Hcf Hi)
    as [[_ ?]|(v & l1 & l2 & rc & Hinv & Hne & Hok & Hl & _ & Hc & _ & [[_ ?]|(_ & -> & Hr)])]; [done..|].
  rewrite app_nil_r in Hl. subst l1.
  rewrite (iv_unstored _ _ _ _ Hinv), commit_same in Hc by done.
  assert (∀ u, u ∈ updates → stored_in (contents storage) u
               ∨ AUM_valid u ∧ accepted (commit_all (contents storage) updates) u) as Hupd.
  { intros u Hu. by apply (inform_inv_update storage a updates v). }
  assert (store_valid storage') as Hv'.
  { split; [done|]. intros u. rewrite Hc, commit_all_stored by done.
    intros [Hu|[Hu|[Hu _]]%Hupd]; [by apply Hv|by apply Hv|done]. }
  split_and!; [done..| |].
  - by eapply (inform_tracks storage storage' a updates v).
  - by eapply (inform_rooted storage storage' a updates v).
Qed.

(** Updates that build on the head, are new to storage, and verify and apply
    one after the other are accepted, unless the store fails to commit them:
    [InformIdempotent] returns, commits them, and the new head and state are those
    of the last one. *)
Theorem inform_head_chain_accepts (storage : Store) a updates st' :
  store_valid storage → tracks (contents storage) a → updates ≠ [] →
  collision_free (λ u, stored_in (contents storage) u ∨ u ∈ updates) →
  verified_run (state a) updates st' →
  (∀ u, u ∈ updates → contents storage !! AUM_Hash u = None) →
  snd (CommitVerifiedAUMs storage updates) = Ok tt →
  ∃ storage', contents storage' = commit_all (contents storage) updates
    ∧ InformIdempotent a storage updates
      = (storage', Ok {| head := default (head a) (last updates);
                         oldestAncestor := oldestAncestor a; state := st' |}).
Proof.
  intros Hv Ht Hne Hcf Hrun Hnew Hcommit.
  edestruct (head_chain_loop storage (state a) (AUM_Hash (head a)) updates st') as
    (v & Hf & Hh & Htc & Hst & _); [apply Hv| |reflexivity|done..|].
  { by apply tracks_head, state_at_last in Ht. }
  destruct (law_Commit storage updates) as (s' & rc & l1 & l2 & Hc & El & Hrc & _ & Hcont & _);
    [apply Hv|done|]. rewrite Hc in Hcommit. cbn in Hcommit. subst rc.
  destruct Hrc as [[_ ->]|[e ?]]; [|done]. rewrite app_nil_r in El. subst l1.
  exists s'. split; [done|]. unfold InformIdempotent.
  rewrite bool_decide_false by (by destruct updates).
  rewrite (tracks_Head _ _ Ht). cbn [mbind res_bind]. rewrite Hf, Htc, Hc. cbn. rewrite Hh, Hst.
  destruct (last updates) eqn:E; [done|]. by apply last_None in E.
Qed.

End Properties.

(** ** The properties on concrete messages *)

Definition verifyAndApply `{TkaCrypto} (st : State) (a : AUM) : res State :=
  _ ← aumVerify a st false; applyVerifiedAUM st a.

Lemma run_of_fold `{TkaCrypto} l st st' :
  foldM verifyAndApply st l = Ok st' → verified_run st l st'.
Proof.
  revert st'. induction l as [|a l IH] using rev_ind; intros st' Hf; [cbn in Hf; simplify_eq; constructor|].
  rewrite foldM_app in Hf. apply bind_Ok in Hf as (st1 & Hl & Hf). cbn in Hf.
  apply bind_Ok in Hf as (st2 & Hv & Hf). injection Hf as <-.
  apply bind_Ok in Hv as ([] & ? & ?). eapply run_snoc; [by apply IH|by split].
Qed.

Definition state2 : State :=
  Eval vm_compute in match foldM verifyAndApply stateG [aum1; aum2] with Ok s => s | _ => State_zero end.
Definition auth0 : Authority := {| head := aum0; oldestAncestor := aum0; state := stateG |}.
Definition auth2 : Authority := {| head := aum2; oldestAncestor := aum0; state := state2 |}.

Lemma run2 : verified_run stateG [aum1; aum2] state2.
Proof. apply run_of_fold. by vm_compute. Qed.

Lemma stateG_inv : trust_inv stateG.
Proof. split; [apply stateG_wf|done]. Qed.

Lemma state2_inv : trust_inv state2.
Proof. exact (proj1 (verified_run_inv stateG [aum1; aum2] state2 run2 stateG_inv)). Qed.

Lemma store0_contents : aums store0 = commit_all ∅ [aum0].
Proof. apply store_of_spec, genesis_free. Qed.

Lemma store0_stored u : stored_in (aums store0) u → u = aum0.
Proof.
  rewrite store0_contents. intros [?%stored_empty| ->%list_elem_of_singleton]%commit_all_from; done.
Qed.

Lemma store0_has : stored_in (aums store0) aum0.
Proof. exists hash0. by vm_compute. Qed.

Lemma auth0_tracks : tracks (aums store0) auth0.
Proof.
  exists stateG. split_and!.
  - exists aum0, [], stateG. split_and!; [apply history_nil, store0_has|done|by vm_compute|done].
  - apply store0_has.
  - apply follows_end. intros b [->%store0_stored Hp]. by vm_compute in Hp.
Qed.

Lemma updates_free :
  collision_free (λ u, stored_in (aums store0) u ∨ u ∈ [aum1; aum2]).
Proof.
  eapply (collision_freeb_ok _ messages); [|apply messages_free].
  intros u [->%store0_stored|Hu]; [|revert Hu]; rewrite ?elem_of_cons; unfold messages; set_solver.
Qed.

Lemma updates_new u : u ∈ [aum1; aum2] → aums store0 !! AUM_Hash u = None.
Proof. rewrite !elem_of_cons, elem_of_nil. intros [->|[->|[]]]; by vm_compute. Qed.

Lemma updates_acyclic : acyclic (commit_all (aums store0) [aum1; aum2]).
Proof.
  eapply (acyclicb_ok (rank_in messages) _ messages); [|apply messages_ranked].
  intros u [->%store0_stored|Hu]%commit_all_from; [|revert Hu];
    rewrite ?elem_of_cons; unfold messages; set_solver.
Qed.

Lemma auth0_rooted : rooted (aums store0) auth0.
Proof. intros b p ->%store0_stored _ _. done. Qed.

(** The store and the result of informing [auth0] of the two messages. *)
Definition informed : Mem := fst (InformIdempotent auth0 store0 [aum1; aum2]).

Lemma informed_eq : InformIdempotent auth0 store0 [aum1; aum2] = (informed, Ok auth2).
Proof.
  assert (snd (InformIdempotent auth0 store0 [aum1; aum2]) = Ok auth2) as E by (by vm_compute).
  unfold informed. rewrite <- E. apply surjective_pairing.
Qed.

Lemma verified_run_keeps_trust_witness :
  verified_run stateG [aum1; aum2] state2 ∧ trust_inv state2.
Proof.
  split; [exact run2|].
  exact (proj1 (verified_run_keeps_trust stateG [aum1; aum2] state2 run2 stateG_inv)).
Defined.


Lemma inform_tracks_active_chain_witness :
  aums informed = commit_all (aums store0) [aum1; aum2]
  ∧ store_valid informed ∧ tracks (aums informed) auth2 ∧ rooted (aums informed) auth2.
Proof.
  exact (inform_tracks_active_chain store0 informed auth0 [aum1; aum2] auth2 store0_valid
           auth0_tracks auth0_rooted updates_free updates_acyclic informed_eq).
Defined.

Lemma inform_head_chain_accepts_witness :
  ∃ storage', aums storage' = commit_all (aums store0) [aum1; aum2]
    ∧ InformIdempotent auth0 store0 [aum1; aum2]
      = (storage', Ok {| head := aum2; oldestAncestor := aum0; state := state2 |}).
Proof.
  exact (inform_head_chain_accepts store0 auth0 [aum1; aum2] state2 store0_valid auth0_tracks
           ltac:(done) updates_free run2 updates_new eq_refl).
Defined.
