(* ===== verification/TkaFs.v ===== *)
(** * Tailnet key authority: storage on disk

    [FS] of [src/tka/tailchonk.go]: one file per message, replaced as a whole
    ([atomicfile.WriteFile]).  Whether making the directory and writing the file
    succeed is an input, so a commit can fail after storing some of its messages;
    failures to read or to remove files are not modelled.  The CBOR encoding of a
    file is outside: a file holds the record that is encoded. *)

From S2P Require Import Prelude TkaTypes TkaFixtures TkaChonk TkaAuthority TkaReplay TkaScenario TkaInform.

(** What one attempt to write a file comes to. *)
Inductive WriteOutcome := Written | MkdirFails | WriteFails.

Record fsHashInfo := mkFsHashInfo {
  info_AUM : option AUM;
  CreatedUnix : Z;
  PurgedUnix : Z
}.

(** [base] exists; the files under it with their modification times; the file
    [last_active_ancestor]; and for each attempt to write, the clock and the
    outcome. *)
Record FS := mkFS {
  baseExists : bool;
  hashFiles : gmap AUMHash (fsHashInfo * Z);
  ancestorFile : option AUMHash;
  fsClock : nat → Z;
  fsDisk : nat → WriteOutcome;
  attempts : nat
}.

Section Operations.
Context `{TkaCrypto}.

(** [ChonkDir] on a directory that could be made. *)
Definition ChonkDir (clk : nat → Z) (disk : nat → WriteOutcome) : FS :=
  {| baseExists := true; hashFiles := ∅; ancestorFile := None; fsClock := clk; fsDisk := disk;
     attempts := 0 |}.

(** [get] *)
Definition FS_get (c : FS) (h : AUMHash) : res fsHashInfo :=
  match hashFiles c !! h with
  | None => Err ErrNotExist
  | Some (out, _) =>
      match info_AUM out with
      | Some a => if bool_decide (AUM_Hash a = h) then Ok out
                  else Err (Errorf "AUM does not match file name hash")
      | None => Ok out
      end
  end.

Definition purged (info : fsHashInfo) : bool := 0 <? PurgedUnix info.

Definition FS_AUM (c : FS) (hash : AUMHash) : res AUM :=
  info ← FS_get c hash;
  match info_AUM info with
  | Some a => if purged info then Err ErrNotExist else Ok a
  | None => Err ErrNotExist
  end.

Definition FS_CommitTime (c : FS) (h : AUMHash) : res Z :=
  info ← FS_get c h;
  if purged info then Err ErrNotExist
  else if 0 <? CreatedUnix info then Ok (CreatedUnix info)
  else match hashFiles c !! h with Some (_, modTime) => Ok modTime | None => Ok 0 end.

(** [scanHashes]: what the callback is given, in the order of the directory. *)
Definition scanHashes (c : FS) : res (list fsHashInfo) :=
  if baseExists c then
    foldM (λ seen h,
        info ← wrapf "reading" (FS_get c h);
        Ok (if purged info then seen else seen ++ [info]))
      [] (map fst (map_to_list (hashFiles c)))
  else Err (Errorf "reading prefix dirs").

Definition FS_ChildAUMs (c : FS) (prevAUMHash : AUMHash) : res (list AUM) :=
  infos ← scanHashes c;
  Ok (filter (λ a : AUM, opt_bytes (PrevAUMHash a) = prevAUMHash) (omap info_AUM (infos : list fsHashInfo))).

Definition FS_AllAUMs (c : FS) : res (list AUMHash) :=
  infos ← scanHashes c;
  Ok (map AUM_Hash (omap info_AUM (infos : list fsHashInfo))).

Definition FS_Heads (c : FS) : res (list AUM) :=
  allAUMs ← FS_AllAUMs c;
  parentHashes ←
    foldM (λ parentHashes h,
        aum ← FS_AUM c h;
        Ok (match Parent aum with
            | None => parentHashes
            | Some parent => if bool_decide (parent ∈ parentHashes) then parentHashes
                             else parentHashes ++ [parent]
            end)) [] allAUMs;
  foldM (λ out h,
      if bool_decide (h ∈ parentHashes) then Ok out
      else aum ← FS_AUM c h; Ok (out ++ [aum])) [] allAUMs.

(** One attempt to write under [base]. *)
Definition attempt (c : FS) (files : gmap AUMHash (fsHashInfo * Z)) (anc : option AUMHash)
    (exists_ : bool) : FS :=
  {| baseExists := exists_; hashFiles := files; ancestorFile := anc; fsClock := fsClock c;
     fsDisk := fsDisk c; attempts := S (attempts c) |}.

Definition FS_SetLastActiveAncestor (c : FS) (hash : AUMHash) : FS * res unit :=
  match baseExists c, fsDisk c (attempts c) with
  | true, Written => (attempt c (hashFiles c) (Some hash) true, Ok tt)
  | b, _ => (attempt c (hashFiles c) (ancestorFile c) b, Err (Errorf "write"))
  end.

Definition FS_LastActiveAncestor (c : FS) : res (option AUMHash) := Ok (ancestorFile c).

(** [commit] *)
Definition FS_commit (c : FS) (h : AUMHash) (updater : fsHashInfo → fsHashInfo) : FS * res unit :=
  let time := fsClock c (attempts c) in
  match
    (match FS_get c h with
     | Err e => if bool_decide (e = ErrNotExist)
                then Ok {| info_AUM := None; CreatedUnix := time; PurgedUnix := 0 |} else Err e
     | existing => existing
     end)
  with
  | Ok existing =>
      let toCommit := updater existing in
      if (match info_AUM toCommit with Some a => bool_decide (AUM_Hash a ≠ h) | None => false end)
      then (c, Err (Errorf "cannot commit AUM with hash"))
      else
        match fsDisk c (attempts c) with
        | MkdirFails =>
            (attempt c (hashFiles c) (ancestorFile c) (baseExists c), Err (Errorf "creating directory"))
        | WriteFails =>
            (attempt c (hashFiles c) (ancestorFile c) true, Err (Errorf "write"))
        | Written => (attempt c (<[h := (toCommit, time)]> (hashFiles c)) (ancestorFile c) true, Ok tt)
        end
  | Err e => (c, Err e)
  | Panic => (c, Panic)
  | NoFuel => (c, NoFuel)
  end.

Fixpoint FS_CommitVerifiedAUMs (c : FS) (updates : list AUM) : FS * res unit :=
  match updates with
  | [] => (c, Ok tt)
  | aum :: updates =>
      let '(c', r) := FS_commit c (AUM_Hash aum) (λ info,
          {| info_AUM := Some aum; CreatedUnix := CreatedUnix info; PurgedUnix := 0 |}) in
      match wrapf "committing update" r with
      | Ok _ => FS_CommitVerifiedAUMs c' updates
      | e => (c', e)
      end
  end.

(** The loop of [PurgeAUMs]. *)
Fixpoint FS_purgeLoop (time : Z) (c : FS) (hashes : list AUMHash) : FS * res unit :=
  match hashes with
  | [] => (c, Ok tt)
  | h :: hashes =>
      match wrapf "reading" (FS_get c h) with
      | Ok stored =>
          if bool_decide (info_AUM stored = None) || purged stored then FS_purgeLoop time c hashes
          else
            let '(c', r) := FS_commit c h (λ info,
                {| info_AUM := info_AUM info; CreatedUnix := CreatedUnix info; PurgedUnix := time |}) in
            match wrapf "committing purge" r with
            | Ok _ => FS_purgeLoop time c' hashes
            | e => (c', e)
            end
      | Err e => (c, Err e)
      | Panic => (c, Panic)
      | NoFuel => (c, NoFuel)
      end
  end.

Definition FS_PurgeAUMs (c : FS) (hashes : list AUMHash) : FS * res unit :=
  FS_purgeLoop (fsClock c (attempts c)) c hashes.

Definition FS_RemoveAll (c : FS) : FS :=
  {| baseExists := false; hashFiles := ∅; ancestorFile := None; fsClock := fsClock c;
     fsDisk := fsDisk c; attempts := attempts c |}.

(** The interface passes on the store after a successful call only, the commit
    excepted. *)
Definition on_success (r : FS * res unit) : res FS := _ ← r.2; Ok r.1.

#[export] Instance FS_Chonk : Chonk FS := {|
  chonk_AUM := FS_AUM; ChildAUMs := FS_ChildAUMs;
  CommitVerifiedAUMs := FS_CommitVerifiedAUMs; Heads := FS_Heads;
  SetLastActiveAncestor c h := on_success (FS_SetLastActiveAncestor c h);
  LastActiveAncestor := FS_LastActiveAncestor;
  AllAUMs := FS_AllAUMs; CommitTime := FS_CommitTime;
  PurgeAUMs c l := on_success (FS_PurgeAUMs c l); RemoveAll c := Ok (FS_RemoveAll c)
|}.

End Operations.

(** ** The stored messages *)
Section Contents.
Context `{TkaCrypto}.

(** A purged message is no longer stored, though its file remains. *)
Definition live (f : fsHashInfo * Z) : option AUM := if purged f.1 then None else info_AUM f.1.

Definition FS_contents (c : FS) : gmap AUMHash AUM := omap live (hashFiles c).

(** Every file holds the message it is named after. *)
Record FS_ok (c : FS) : Prop := {
  fo_base : baseExists c = true;
  fo_keyed h info t a : hashFiles c !! h = Some (info, t) → info_AUM info = Some a → AUM_Hash a = h
}.

Lemma ChonkDir_ok clk disk : FS_ok (ChonkDir clk disk).
Proof. split; [done|]. intros h info t a Hl. cbn in Hl. by rewrite lookup_empty in Hl. Qed.

Lemma FS_contents_lookup c h a :
  FS_contents c !! h = Some a ↔
  ∃ info t, hashFiles c !! h = Some (info, t) ∧ purged info = false ∧ info_AUM info = Some a.
Proof.
  unfold FS_contents. rewrite lookup_omap_Some. unfold live. split.
  - intros ([info t] & Hl & Hf). cbn in Hl. destruct (purged info) eqn:E; [done|]. eauto.
  - intros (info & t & Hf & Hp & Ha). exists (info, t). cbn. by rewrite Hp.
Qed.

Lemma FS_get_ok c h :
  FS_ok c → FS_get c h = match hashFiles c !! h with Some (out, _) => Ok out | None => Err ErrNotExist end.
Proof.
  intros Hok. unfold FS_get. destruct (hashFiles c !! h) as [[out t]|] eqn:E; [|done].
  destruct (info_AUM out) as [a|] eqn:Ha; [|done].
  by rewrite bool_decide_true by (by eapply fo_keyed).
Qed.

Lemma FS_AUM_spec c h :
  FS_ok c → FS_AUM c h = match FS_contents c !! h with Some a => Ok a | None => Err ErrNotExist end.
Proof.
  intros Hok. unfold FS_AUM, FS_contents. rewrite FS_get_ok, lookup_omap by done.
  destruct (hashFiles c !! h) as [[out t]|]; [|done]. cbn. unfold live. cbn.
  destruct (info_AUM out); by destruct (purged out).
Qed.

(** The scan gives the records of the files that are not purged. *)
Lemma scanHashes_spec c :
  FS_ok c →
  scanHashes c = Ok (filter (λ info, purged info = false) (map fst (map snd (map_to_list (hashFiles c))))).
Proof.
  intros Hok. unfold scanHashes. rewrite (fo_base c Hok).
  assert (∀ l seen, (∀ x, x ∈ l → x ∈ map_to_list (hashFiles c)) →
    foldM (λ seen h, info ← wrapf "reading" (FS_get c h);
                     Ok (if purged info then seen else seen ++ [info])) seen (map fst l)
    = Ok (seen ++ filter (λ info, purged info = false) (map fst (map snd l)))) as Hg.
  { induction l as [|[h [info t]] l IH]; intros seen Hin; cbn [map foldM fst snd]; [by rewrite app_nil_r|].
    assert (hashFiles c !! h = Some (info, t)) as Hl by (apply elem_of_map_to_list, Hin; set_solver).
    rewrite FS_get_ok, Hl by done. cbn [wrapf mbind res_bind]. rewrite IH by set_solver.
    destruct (purged info) eqn:E; [by rewrite filter_cons_False by congruence|].
    rewrite filter_cons_True by done. by rewrite <- app_assoc. }
  by rewrite Hg.
Qed.

(** One message is written, or nothing is. *)
Lemma FS_commit_spec c a :
  FS_ok c →
  ∃ c' r, FS_commit c (AUM_Hash a) (λ info,
        {| info_AUM := Some a; CreatedUnix := CreatedUnix info; PurgedUnix := 0 |}) = (c', r)
    ∧ FS_ok c' ∧ ancestorFile c' = ancestorFile c
    ∧ (r = Ok tt ∧ FS_contents c' = <[AUM_Hash a := a]> (FS_contents c)
       ∨ (∃ e, r = Err e) ∧ FS_contents c' = FS_contents c).
Proof.
  intros Hok. unfold FS_commit. rewrite FS_get_ok by done. set (time := fsClock c (attempts c)).
  assert (∃ ex, (match (match hashFiles c !! AUM_Hash a with Some (out, _) => Ok out
                        | None => Err ErrNotExist end) with
          | Err e => if bool_decide (e = ErrNotExist)
                     then Ok {| info_AUM := None; CreatedUnix := time; PurgedUnix := 0 |} else Err e
          | existing => existing end) = Ok ex) as [ex ->].
  { destruct (hashFiles c !! AUM_Hash a) as [[out t]|]; by eexists. }
  cbn. rewrite bool_decide_false by (intros Hx; by apply Hx).
  destruct Hok as [Hb Hk]. destruct (fsDisk c (attempts c)); eexists _, _; (split; [done|]).
  - split_and!; [split; [done|]|done|].
    + intros h info t b. cbn. intros [[<- [= <- <-]]|[_ Hl]]%lookup_insert_Some; [by intros [= <-]|by eapply Hk].
    + left. split; [done|]. apply map_eq. intros h. unfold FS_contents. cbn.
      rewrite lookup_omap. destruct (decide (AUM_Hash a = h)) as [<-|Hne].
      * by rewrite !lookup_insert_eq.
      * rewrite !lookup_insert_ne by done. by rewrite lookup_omap.
  - split_and!; [by split|done|]. right. split; [by eexists|done].
  - split_and!; [by split|done|]. right. split; [by eexists|done].
Qed.

(** [FS.CommitVerifiedAUMs] keeps what the interface promises: it succeeds and
    stores the messages, or it fails and has stored those before the one whose
    file could not be written. *)
Theorem FS_CommitVerifiedAUMs_prefix c l :
  FS_ok c →
  ∃ c' r l1 l2, FS_CommitVerifiedAUMs c l = (c', r) ∧ l = l1 ++ l2
    ∧ (r = Ok tt ∧ l2 = [] ∨ ∃ e, r = Err e) ∧ FS_ok c'
    ∧ FS_contents c' = commit_all (FS_contents c) l1
    ∧ FS_LastActiveAncestor c' = FS_LastActiveAncestor c.
Proof.
  revert c. induction l as [|a l IH]; intros c Hok; cbn [FS_CommitVerifiedAUMs].
  { exists c, (Ok tt), [], []. split_and!; try done. by left. }
  destruct (FS_commit_spec c a Hok) as (c1 & r1 & E1 & Hok1 & Ha1 & [[-> Hc]|[[e ->] Hc]]); rewrite E1; cbn [wrapf].
  - destruct (IH c1 Hok1) as (c' & r & l1 & l2 & E & -> & Hr & Hok' & Hc' & Ha').
    exists c', r, (a :: l1), l2. split_and!; try done.
    + by rewrite Hc', Hc.
    + unfold FS_LastActiveAncestor in *. congruence.
  - eexists c1, _, [], (a :: l). split_and!; try done; [right; by eexists|].
    unfold FS_LastActiveAncestor. by rewrite Ha1.
Qed.

(** [AllAUMs] and [ChildAUMs] answer from the stored messages; a child is one
    whose parent field is the hash, byte for byte. *)
Lemma FS_values c a :
  FS_ok c →
  a ∈ omap info_AUM (filter (λ info, purged info = false)
                       (map fst (map snd (map_to_list (hashFiles c))))) ↔ stored_in (FS_contents c) a.
Proof.
  intros Hok. rewrite list_elem_of_omap. unfold stored_in. setoid_rewrite FS_contents_lookup.
  setoid_rewrite list_elem_of_filter. split.
  - intros (info & [Hp Hin] & Ha). rewrite map_map in Hin.
    apply list_elem_of_In, in_map_iff in Hin as ([h [i t]] & <- & Hin%list_elem_of_In%elem_of_map_to_list).
    by exists h, i, t.
  - intros (h & info & t & Hl & Hp & Ha). exists info. split; [split|]; [done| |done].
    rewrite map_map. apply list_elem_of_In, in_map_iff. exists (h, (info, t)). split; [done|].
    by apply list_elem_of_In, elem_of_map_to_list.
Qed.

Theorem FS_reads_stored c :
  FS_ok c →
  (∀ h, FS_AUM c h = match FS_contents c !! h with Some a => Ok a | None => Err ErrNotExist end)
  ∧ (∃ l, FS_AllAUMs c = Ok l ∧ ∀ h, h ∈ l ↔ is_Some (FS_contents c !! h))
  ∧ ∀ p, ∃ l, FS_ChildAUMs c p = Ok l
         ∧ ∀ a, a ∈ l ↔ stored_in (FS_contents c) a ∧ opt_bytes (PrevAUMHash a) = p.
Proof.
  intros Hok. split_and!.
  - intros h. by apply FS_AUM_spec.
  - unfold FS_AllAUMs. rewrite scanHashes_spec by done. eexists. split; [done|]. intros h.
    rewrite list_elem_of_In, in_map_iff. setoid_rewrite <- list_elem_of_In.
    setoid_rewrite (FS_values c); [|done]. split.
    + intros (a & <- & [h' Hs]). pose proof Hs as (info & t & Hl & _ & Ha)%FS_contents_lookup.
      rewrite (fo_keyed c Hok h' info t a Hl Ha). by eexists.
    + intros [a Hs]. exists a. pose proof Hs as (info & t & Hl & _ & Ha)%FS_contents_lookup.
      split; [by eapply fo_keyed|by eexists].
  - intros p. unfold FS_ChildAUMs. rewrite scanHashes_spec by done. eexists. split; [done|].
    intros a. rewrite list_elem_of_filter, FS_values by done. tauto.
Qed.

End Contents.

(** ** A commit that fails half way

    The disk is full after the first of two messages: [InformIdempotent] returns
    an error, and the first message is stored. *)
Definition fullDisk (n : nat) : WriteOutcome := if (n <? 2)%nat then Written else WriteFails.
Definition fs0 : FS := (FS_CommitVerifiedAUMs (ChonkDir Z.of_nat fullDisk) [aum0]).1.

Example failed_inform_changes_storage :
  let '(fs, r) := InformIdempotent auth0 fs0 [aum1; aum2] in
  is_ok r = false ∧ FS_AUM fs0 hash1 = Err ErrNotExist
  ∧ FS_AUM fs hash1 = Ok aum1 ∧ FS_AUM fs hash2 = Err ErrNotExist.
Proof. vm_compute. split_and!; reflexivity. Qed.

(** ** The two stores disagree on children

    [AUM.Parent] cuts the parent field to the length of a hash, and
    [AUM.StaticValidate] does not check its length: with one byte too many, [Mem]
    lists the message as a child of that hash, and [FS] does not. *)
Definition longParent : AUM := Eval vm_compute in signed [1] (addKey key3 (hash0 ++ [0])).

Example stores_disagree_on_children :
  AUM_StaticValidate longParent = Ok tt ∧ Parent longParent = Some hash0
  ∧ ChildAUMs (store_of [aum0; longParent] None) hash0 = Ok [longParent]
  ∧ ChildAUMs (FS_CommitVerifiedAUMs (ChonkDir Z.of_nat (λ _, Written)) [aum0; longParent]).1 hash0
    = Ok [].
Proof. vm_compute. split_and!; reflexivity. Qed.
