(* ===== verification/TkaSig.v ===== *)
(** * Tailnet key authority: node-key signatures

    Models [src/tka/sig.go], the part of [src/types/key/node.go] and
    [src/types/key/nl.go] it calls, and [NodeKeyAuthorized] of [src/tka/tka.go]:
    verification of a chain of nested signatures, the keys it rotated out,
    re-signing for a new node key with the chain kept within the decoder's
    nesting limit, and signing by a credential. *)

From S2P Require Import Prelude TkaTypes TkaFixtures TkaState TkaChonk TkaAuthority.

(** ** Node keys (types/key/node.go) *)

(** A [NodePublic] is its 32-byte array. *)
Abbreviation NodePublic := bytes.
Definition NodePublicRawLen : Z := 32.
(** "np" *)
Definition nodePublicBinaryPrefix : bytes := [110; 112].

Definition NodePublic_zero : NodePublic := replicate 32 0.

Definition NodePublic_MarshalBinary (k : NodePublic) : bytes := nodePublicBinaryPrefix ++ k.

Definition HasPrefix (b prefix : bytes) : bool := bool_decide (take (length prefix) b = prefix).

Definition NodePublic_UnmarshalBinary (data : bytes) : res NodePublic :=
  if negb (HasPrefix data nodePublicBinaryPrefix) then Err (Errorf "missing/incorrect type prefix")
  else if negb (zlen nodePublicBinaryPrefix + NodePublicRawLen =? zlen data)
  then Err (Errorf "incorrect len for NodePublic")
  else Ok (drop (length nodePublicBinaryPrefix) data).

Section Sig.
Context `{TkaCrypto}.

(** An [NLPrivate] is its ed25519 private key. *)
Definition NLPrivate_SignNKS (priv sigHash : bytes) : bytes := ed25519_Sign priv sigHash.

(** ** Operations (sig.go) *)

Fixpoint wrappingPublic (s : NodeKeySignature) : option bytes :=
  if 0 <? zlen (WrappingPubkey s) then Some (WrappingPubkey s)
  else
    match SigKind s with
    | SigRotation =>
        match Nested s with
        | None => None
        | Some n => wrappingPublic n
        end
    | _ => None
    end.

Definition UnverifiedWrappingPublic (s : NodeKeySignature) : option bytes := wrappingPublic s.

Fixpoint authorizingKeyID (s : NodeKeySignature) : res KeyID_t :=
  match SigKind s with
  | SigDirect | SigCredential =>
      if zlen (nks_KeyID s) =? 0 then Err (Errorf "invalid signature: no keyID present")
      else Ok (nks_KeyID s)
  | SigRotation =>
      match Nested s with
      | None => Err (Errorf "invalid signature: rotation signature missing nested signature")
      | Some n => authorizingKeyID n
      end
  | _ => Err (Errorf "unhandled signature type")
  end.

Definition UnverifiedAuthorizingKeyID (s : NodeKeySignature) : res KeyID_t := authorizingKeyID s.

Fixpoint verifySignature (s : NodeKeySignature) (nodeKey : NodePublic) (verificationKey : Key)
    : res unit :=
  _ ← (if bool_decide (SigKind s ≠ SigCredential)
       then fail_if (bool_decide (NodePublic_MarshalBinary nodeKey ≠ Pubkey s))
              "signature does not authorize nodeKey"
       else Ok tt);
  let sigHash := NKS_SigHash s in
  match SigKind s with
  | SigRotation =>
      match Nested s with
      | None => Err (Errorf "nested signatures must nest a signature")
      | Some n =>
          match wrappingPublic n with
          | None => Err (Errorf "missing rotation key")
          | Some verifyPub =>
              if negb (zlen verifyPub =? ed25519_PublicKeySize)
              then Err (Errorf "bad rotation key length")
              else if negb (ed25519_Verify verifyPub sigHash (Signature s))
              then Err (Errorf "invalid signature")
              else
                nestedPub ← (if bool_decide (SigKind n ≠ SigCredential)
                             then wrapf "nested pubkey" (NodePublic_UnmarshalBinary (Pubkey n))
                             else Ok NodePublic_zero);
                wrapf "nested" (verifySignature n nestedPub verificationKey)
          end
      end
  | SigDirect | SigCredential =>
      match Nested s with
      | Some _ => Err (Errorf "invalid signature: cannot nest another signature")
      | None =>
          match Kind verificationKey with
          | Key25519 =>
              if negb (zlen (Public verificationKey) =? ed25519_PublicKeySize)
              then Err (Errorf "ed25519 key has wrong length")
              else if ed25519consensus_Verify (Public verificationKey) sigHash (Signature s)
              then Ok tt
              else Err (Errorf "invalid signature")
          | _ => Err (Errorf "unhandled key type")
          end
      end
  | _ => Err (Errorf "unhandled signature type")
  end.

Record RotationDetails := mkRotationDetails {
  PrevNodeKeys : list NodePublic;
  InitialSig : option NodeKeySignature
}.

(** The loop of [rotationDetails]: the node keys met, and where it stopped. *)
Fixpoint rotationLoop (nested : NodeKeySignature) : res (list NodePublic * option NodeKeySignature) :=
  here ← (if 0 <? zlen (Pubkey nested)
          then nestedPub ← wrapf "nested pubkey" (NodePublic_UnmarshalBinary (Pubkey nested));
               Ok [nestedPub]
          else Ok []);
  if bool_decide (SigKind nested ≠ SigRotation) then Ok (here, Some nested)
  else
    match Nested nested with
    | None => Ok (here, None)
    | Some n => '(keys, last) ← rotationLoop n; Ok (here ++ keys, last)
    end.

(** [nil] when the signature is not a rotation. *)
Definition rotationDetails (s : NodeKeySignature) : res (option RotationDetails) :=
  if bool_decide (SigKind s ≠ SigRotation) then Ok None
  else
    match Nested s with
    | None => Ok (Some {| PrevNodeKeys := []; InitialSig := None |})
    | Some n =>
        '(keys, last) ← rotationLoop n;
        Ok (Some {| PrevNodeKeys := keys; InitialSig := last |})
    end.

(** The loop of [maybeTrimRotationSignatureChain]. *)
Fixpoint prevLoop (nested : NodeKeySignature) : list bytes * option NodeKeySignature :=
  let here := if 0 <? zlen (Pubkey nested) then [Pubkey nested] else [] in
  if bool_decide (SigKind nested ≠ SigRotation) then (here, Some nested)
  else
    match Nested nested with
    | None => (here, None)
    | Some n => let '(keys, last) := prevLoop n in (here ++ keys, last)
    end.

Definition maxPrevKeys : nat := 15.

(** [x.Signature = sign(x.SigHash())] *)
Definition set_Signature (s : NodeKeySignature) (sig : bytes) : NodeKeySignature :=
  {| SigKind := SigKind s; Pubkey := Pubkey s; nks_KeyID := nks_KeyID s; Signature := sig;
     Nested := Nested s; WrappingPubkey := WrappingPubkey s |}.

Definition signNKS (priv : bytes) (s : NodeKeySignature) : NodeKeySignature :=
  set_Signature s (NLPrivate_SignNKS priv (NKS_SigHash s)).

Definition rotationOf (pubkey : bytes) (nested : option NodeKeySignature) : NodeKeySignature :=
  {| SigKind := SigRotation; Pubkey := pubkey; nks_KeyID := []; Signature := [];
     Nested := nested; WrappingPubkey := [] |}.

Definition maybeTrimRotationSignatureChain (sig : NodeKeySignature) (priv : bytes)
    : res NodeKeySignature :=
  if bool_decide (SigKind sig ≠ SigRotation) then Ok sig
  else
    let '(keys, nested) := match Nested sig with
                           | None => ([], None)
                           | Some n => prevLoop n
                           end in
    let prevPubkeys := Pubkey sig :: keys in
    if (length prevPubkeys <=? maxPrevKeys)%nat then Ok sig
    else
      match foldr (λ pubkey result, Some (signNKS priv (rotationOf pubkey result))) nested
              (take (maxPrevKeys - 1) prevPubkeys) with
      | Some result => Ok result
      | None => Panic
      end.

Definition ResignNKS (priv : bytes) (nodeKey : NodePublic) (oldNKS : bytes) : res bytes :=
  oldSig ← wrapf "decoding NKS" (NKS_Unserialize oldNKS);
  let nk := NodePublic_MarshalBinary nodeKey in
  if bool_decide (nk = Pubkey oldSig) then Ok oldNKS
  else
    nested ← wrapf "trimming rotation signature chain" (maybeTrimRotationSignatureChain oldSig priv);
    Ok (NKS_Serialize (signNKS priv (rotationOf nk (Some nested)))).

Definition SignByCredential (privKey : bytes) (wrapped : NodeKeySignature) (nodeKey : NodePublic)
    : res bytes :=
  if bool_decide (SigKind wrapped ≠ SigCredential)
  then Err (Errorf "wrapped signature must be a credential")
  else
    let sig := rotationOf (NodePublic_MarshalBinary nodeKey) (Some wrapped) in
    Ok (NKS_Serialize (set_Signature sig (ed25519_Sign privKey (NKS_SigHash sig)))).

(** ** Authorization of a node (tka.go) *)
Definition NodeKeyAuthorizedWithDetails (a : Authority) (nodeKey : NodePublic)
    (nodeKeySignature : bytes) : res (option RotationDetails) :=
  decoded ← wrapf "unserialize" (NKS_Unserialize nodeKeySignature);
  if bool_decide (SigKind decoded = SigCredential)
  then Err (Errorf "credential signatures cannot authorize nodes on their own")
  else
    kID ← authorizingKeyID decoded;
    key ← wrapf "key" (GetKey (state a) kID);
    _ ← verifySignature decoded nodeKey key;
    rotationDetails decoded.

Definition NodeKeyAuthorized (a : Authority) (nodeKey : NodePublic) (nodeKeySignature : bytes)
    : res unit :=
  _ ← NodeKeyAuthorizedWithDetails a nodeKey nodeKeySignature; Ok tt.

(** ** Chains of nested signatures *)

Fixpoint chain_of (s : NodeKeySignature) : list NodeKeySignature :=
  s :: match Nested s with None => [] | Some n => chain_of n end.

Definition nks_depth (s : NodeKeySignature) : nat := length (chain_of s).

(** The innermost signature. *)
Fixpoint root_of (s : NodeKeySignature) : NodeKeySignature :=
  match Nested s with None => s | Some n => root_of n end.

Lemma NKS_nested_ind (P : NodeKeySignature → Prop) :
  (∀ s, (∀ n, Nested s = Some n → P n) → P s) → ∀ s, P s.
Proof.
  intros Hstep. fix IH 1. intros s. apply Hstep. intros n Hn. destruct s as [k p kid sg [m|] w];
    cbn in Hn; [injection Hn as <-; apply IH|discriminate Hn].
Qed.

Lemma chain_of_unfold s :
  chain_of s = s :: match Nested s with None => [] | Some n => chain_of n end.
Proof. by destruct s. Qed.

Lemma root_of_unfold s : root_of s = match Nested s with None => s | Some n => root_of n end.
Proof. by destruct s. Qed.

(** [Pubkey] holds a node key. *)
Definition names_node (n : NodeKeySignature) : Prop :=
  ∃ k, length k = 32%nat ∧ Pubkey n = NodePublic_MarshalBinary k.

(** A rotation signed by the key that the next signature names. *)
Definition link_ok (outer inner : NodeKeySignature) : Prop :=
  SigKind outer = SigRotation
  ∧ ∃ pub, wrappingPublic inner = Some pub ∧ length pub = 32%nat
           ∧ ed25519_Verify pub (NKS_SigHash outer) (Signature outer) = true.

(** A direct or credential signature made by a key of the authority. *)
Definition root_ok (vk : Key) (root : NodeKeySignature) : Prop :=
  (SigKind root = SigDirect ∨ SigKind root = SigCredential)
  ∧ Kind vk = Key25519 ∧ length (Public vk) = 32%nat
  ∧ ed25519consensus_Verify (Public vk) (NKS_SigHash root) (Signature root) = true.

(** The whole chain: each signature is made with the key that the next one
    delegates to, the last with the key of the authority, and all but a
    credential name a node key. *)
Record sig_chain_ok (s : NodeKeySignature) (nodeKey : NodePublic) (vk : Key) : Prop := {
  sc_node : SigKind s ≠ SigCredential → Pubkey s = NodePublic_MarshalBinary nodeKey;
  sc_links i outer inner :
    chain_of s !! i = Some outer → chain_of s !! S i = Some inner → link_ok outer inner;
  sc_named : Forall (λ n, SigKind n ≠ SigCredential → names_node n) (tail (chain_of s));
  sc_root : root_ok vk (root_of s)
}.

Lemma Unmarshal_Marshal k :
  length k = 32%nat → NodePublic_UnmarshalBinary (NodePublic_MarshalBinary k) = Ok k.
Proof.
  intros Hk. unfold NodePublic_UnmarshalBinary, NodePublic_MarshalBinary, HasPrefix. cbn.
  rewrite take_0. cbn. unfold zlen, NodePublicRawLen. cbn [length app]. rewrite Hk. done.
Qed.

Lemma Unmarshal_Ok b k :
  NodePublic_UnmarshalBinary b = Ok k → length k = 32%nat ∧ b = NodePublic_MarshalBinary k.
Proof.
  unfold NodePublic_UnmarshalBinary, HasPrefix, zlen, NodePublicRawLen. intros Hu. res_inv. bool_prop.
  cbn [length nodePublicBinaryPrefix] in *. rewrite length_drop. split; [lia|].
  rewrite <- (take_drop 2 b) at 1. by f_equal.
Qed.

Lemma NodePublic_inj k1 k2 : NodePublic_MarshalBinary k1 = NodePublic_MarshalBinary k2 → k1 = k2.
Proof. unfold NodePublic_MarshalBinary. by intros ?%app_inv_head. Qed.

(** The step of the chain condition. *)
Lemma sig_chain_nested s n nodeKey vk :
  Nested s = Some n →
  sig_chain_ok s nodeKey vk ↔
  (SigKind s ≠ SigCredential → Pubkey s = NodePublic_MarshalBinary nodeKey)
  ∧ link_ok s n
  ∧ ∃ nk, (SigKind n ≠ SigCredential → NodePublic_UnmarshalBinary (Pubkey n) = Ok nk)
          ∧ sig_chain_ok n nk vk.
Proof.
  intros Hn.
  assert (chain_of s = s :: chain_of n) as Hc by (by rewrite chain_of_unfold, Hn).
  assert (root_of s = root_of n) as Hr by (by rewrite root_of_unfold, Hn).
  assert (chain_of n = n :: tail (chain_of n)) as Hcn by (by rewrite (chain_of_unfold n)).
  split.
  - intros [Hp Hl Hnm Hrt]. rewrite Hc in Hl, Hnm. rewrite Hr in Hrt. cbn in Hnm.
    rewrite Hcn in Hnm. inversion Hnm as [|? ? Hn1 Hn2]; subst.
    split_and!; [done| |].
    + apply (Hl 0%nat); [done|]. cbn. by rewrite Hcn.
    + destruct (decide (SigKind n = SigCredential)) as [E|E].
      * exists []. split; [done|]. split; try done. intros i o m. apply (Hl (S i)).
      * destruct (Hn1 E) as (k & Hk & Hpk). exists k. rewrite Hpk. split.
        { intros _. by apply Unmarshal_Marshal. }
        split; try done. intros i o m. apply (Hl (S i)).
  - intros (Hp & Hl & nk & Hu & [Hp' Hl' Hnm Hrt]). split; [done| | |by rewrite Hr].
    + rewrite Hc. intros [|i] o m Ho Hm; cbn in Ho, Hm; [|by eapply Hl'].
      rewrite Hcn in Hm. cbn in Hm. by simplify_eq.
    + rewrite Hc. cbn. rewrite Hcn. constructor; [|done].
      intros E. destruct (Unmarshal_Ok _ _ (Hu E)). by exists nk.
Qed.

Lemma sig_chain_root s nodeKey vk :
  Nested s = None →
  sig_chain_ok s nodeKey vk ↔
  (SigKind s ≠ SigCredential → Pubkey s = NodePublic_MarshalBinary nodeKey) ∧ root_ok vk s.
Proof.
  intros Hn.
  assert (chain_of s = [s]) as Hc by (by rewrite chain_of_unfold, Hn).
  assert (root_of s = s) as Hr by (by rewrite root_of_unfold, Hn).
  split.
  - intros [Hp _ _ Hrt]. by rewrite Hr in Hrt.
  - intros [Hp Hrt]. by split; rewrite ?Hc, ?Hr.
Qed.

Lemma zlen_32 {A} (l : list A) : (zlen l =? 32) = true ↔ length l = 32%nat.
Proof. unfold zlen. rewrite Z.eqb_eq. lia. Qed.

Lemma verifySignature_unfold s nodeKey vk :
  verifySignature s nodeKey vk =
  (_ ← (if bool_decide (SigKind s ≠ SigCredential)
       then fail_if (bool_decide (NodePublic_MarshalBinary nodeKey ≠ Pubkey s))
              "signature does not authorize nodeKey"
       else Ok tt);
   match SigKind s with
   | SigRotation =>
      match Nested s with
      | None => Err (Errorf "nested signatures must nest a signature")
      | Some n =>
          match wrappingPublic n with
          | None => Err (Errorf "missing rotation key")
          | Some verifyPub =>
              if negb (zlen verifyPub =? ed25519_PublicKeySize)
              then Err (Errorf "bad rotation key length")
              else if negb (ed25519_Verify verifyPub (NKS_SigHash s) (Signature s))
              then Err (Errorf "invalid signature")
              else
                nestedPub ← (if bool_decide (SigKind n ≠ SigCredential)
                             then wrapf "nested pubkey" (NodePublic_UnmarshalBinary (Pubkey n))
                             else Ok NodePublic_zero);
                wrapf "nested" (verifySignature n nestedPub vk)
          end
      end
  | SigDirect | SigCredential =>
      match Nested s with
      | Some _ => Err (Errorf "invalid signature: cannot nest another signature")
      | None =>
          match Kind vk with
          | Key25519 =>
              if negb (zlen (Public vk) =? ed25519_PublicKeySize)
              then Err (Errorf "ed25519 key has wrong length")
              else if ed25519consensus_Verify (Public vk) (NKS_SigHash s) (Signature s)
              then Ok tt
              else Err (Errorf "invalid signature")
          | _ => Err (Errorf "unhandled key type")
          end
      end
  | _ => Err (Errorf "unhandled signature type")
  end).
Proof. by destruct s. Qed.

(** The first test: the signature is for this node. *)
Lemma node_check s nodeKey :
  (if bool_decide (SigKind s ≠ SigCredential)
   then fail_if (bool_decide (NodePublic_MarshalBinary nodeKey ≠ Pubkey s))
          "signature does not authorize nodeKey"
   else Ok tt) = Ok tt
  ↔ (SigKind s ≠ SigCredential → Pubkey s = NodePublic_MarshalBinary nodeKey).
Proof.
  case_bool_decide as E; [|naive_solver]. rewrite fail_if_Ok, bool_decide_eq_false.
  split; [|naive_solver]. intros Hd _. symmetry. by apply dec_stable.
Qed.

Lemma verify_rotation s n nodeKey vk :
  SigKind s = SigRotation → Nested s = Some n →
  verifySignature s nodeKey vk = Ok tt ↔
  Pubkey s = NodePublic_MarshalBinary nodeKey ∧ link_ok s n
  ∧ ∃ nk, (SigKind n ≠ SigCredential → NodePublic_UnmarshalBinary (Pubkey n) = Ok nk)
          ∧ (SigKind n = SigCredential → nk = NodePublic_zero)
          ∧ verifySignature n nk vk = Ok tt.
Proof.
  intros Hk Hn. rewrite verifySignature_unfold, bind_Ok. split.
  - intros ([] & Hp & Hv). rewrite Hk, Hn in Hv. rewrite node_check in Hp.
    destruct (wrappingPublic n) as [pub|] eqn:Hw; [|done].
    destruct (zlen pub =? _) eqn:Hlen; [|done]. destruct (ed25519_Verify _ _ _) eqn:Hs; [|done].
    cbn in Hv. apply bind_Ok in Hv as (nk & Hnk & Hv). apply wrapf_Ok in Hv.
    split; [by apply Hp; rewrite Hk|split].
    + split; [done|]. exists pub. split_and!; try done. by apply zlen_32.
    + exists nk. case_bool_decide as E; [apply wrapf_Ok in Hnk|]; split_and!; try done; naive_solver.
  - intros (Hp & (_ & pub & Hw & Hlen & Hs) & nk & Hu & Hz & Hv). exists tt. split.
    { by apply node_check. }
    rewrite Hk, Hn, Hw.
    apply zlen_32 in Hlen. unfold ed25519_PublicKeySize. rewrite Hlen, Hs. cbn.
    apply bind_Ok. exists nk. rewrite wrapf_Ok. split; [|done].
    case_bool_decide as E; [rewrite Hu by done; done|]. rewrite Hz; [done|].
    done.
Qed.

Lemma verify_root s nodeKey vk :
  Nested s = None →
  verifySignature s nodeKey vk = Ok tt ↔
  (SigKind s ≠ SigCredential → Pubkey s = NodePublic_MarshalBinary nodeKey) ∧ root_ok vk s.
Proof.
  intros Hn. rewrite verifySignature_unfold, bind_Ok, Hn. split.
  - intros ([] & Hp & Hv). rewrite node_check in Hp. split; [done|]. unfold root_ok.
    destruct (SigKind s) eqn:Hk; try done; (destruct (Kind vk); try done);
      (destruct (zlen (Public vk) =? _) eqn:Hlen; [|done]);
      (destruct (ed25519consensus_Verify _ _ _); [|done]);
      apply zlen_32 in Hlen; naive_solver.
  - intros [Hp (Hk & Hkk & Hlen & Hs)]. exists tt. split; [by apply node_check|].
    apply zlen_32 in Hlen. rewrite Hkk. unfold ed25519_PublicKeySize. rewrite Hlen, Hs.
    by destruct Hk as [-> | ->].
Qed.

(** A signature that is not a rotation and nests another is refused. *)
Lemma verify_nested_kind s n nodeKey vk :
  Nested s = Some n → verifySignature s nodeKey vk = Ok tt → SigKind s = SigRotation.
Proof.
  intros Hn. rewrite verifySignature_unfold, bind_Ok, Hn. intros ([] & _ & Hv).
  by destruct (SigKind s).
Qed.

(** A credential does not look at the node key. *)
Lemma sig_chain_credential s nk1 nk2 vk :
  SigKind s = SigCredential → sig_chain_ok s nk1 vk → sig_chain_ok s nk2 vk.
Proof. intros Hk [? ? ? ?]. by split. Qed.

Lemma verifySignature_spec s nodeKey vk :
  verifySignature s nodeKey vk = Ok tt ↔ sig_chain_ok s nodeKey vk.
Proof.
  revert nodeKey. induction s as [s IH] using NKS_nested_ind. intros nodeKey.
  destruct (Nested s) as [n|] eqn:Hn.
  - rewrite (sig_chain_nested s n) by done. split.
    + intros Hv. pose proof (verify_nested_kind _ _ _ _ Hn Hv) as Hk.
      apply (verify_rotation s n) in Hv as (Hp & Hl & nk & Hu & _ & Hv); [|done..].
      split; [done|split; [done|]]. exists nk. split; [done|]. by apply IH.
    + intros (Hp & Hl & nk & Hu & Hc). pose proof (proj1 Hl) as Hk.
      apply (verify_rotation s n); [done..|]. split; [apply Hp; by rewrite Hk|split; [done|]].
      destruct (decide (SigKind n = SigCredential)) as [E|E].
      * exists NodePublic_zero. split_and!; try done. apply IH; [done|].
        by eapply sig_chain_credential.
      * exists nk. split_and!; [done..|]. by apply IH.
  - by rewrite (verify_root s), (sig_chain_root s).
Qed.

(** ** Who authorizes, and which keys were rotated out *)

(** Every signature of the chain but the last is a rotation. *)
Definition rotations (s : NodeKeySignature) : Prop :=
  ∀ i outer inner,
    chain_of s !! i = Some outer → chain_of s !! S i = Some inner → SigKind outer = SigRotation.

Lemma rotations_nested s n :
  Nested s = Some n → rotations s ↔ SigKind s = SigRotation ∧ rotations n.
Proof.
  intros Hn. assert (chain_of s = s :: chain_of n) as Hc by (by rewrite chain_of_unfold, Hn).
  unfold rotations. rewrite Hc. split.
  - intros Hr. split; [|intros i; apply (Hr (S i))]. apply (Hr 0%nat s n); [done|].
    cbn. by rewrite chain_of_unfold.
  - intros [Hk Hr] [|i] o m Ho Hm; cbn in Ho, Hm; [congruence|by eapply Hr].
Qed.

Lemma sig_chain_rotations s nodeKey vk : sig_chain_ok s nodeKey vk → rotations s.
Proof. intros Hc i o n Ho Hn. by apply (sc_links _ _ _ Hc i o n). Qed.

Lemma authorizingKeyID_root s :
  rotations s → authorizingKeyID s = authorizingKeyID (root_of s).
Proof.
  induction s as [s IH] using NKS_nested_ind. intros Hr. rewrite root_of_unfold.
  destruct (Nested s) as [n|] eqn:Hn; [|done].
  apply (rotations_nested s n Hn) in Hr as [Hk Hr]. rewrite <- (IH n) by done.
  destruct s; cbn in *. by rewrite Hk, Hn.
Qed.

Lemma authorizingKeyID_spec root vk i :
  root_ok vk root → authorizingKeyID root = Ok i ↔ i = nks_KeyID root ∧ nks_KeyID root ≠ [].
Proof.
  intros [Hk _].
  assert (authorizingKeyID root = if zlen (nks_KeyID root) =? 0
    then Err (Errorf "invalid signature: no keyID present") else Ok (nks_KeyID root)) as ->.
  { destruct root; cbn in *. by destruct Hk as [-> | ->]. }
  destruct (zlen (nks_KeyID root) =? 0) eqn:E.
  - split; [done|]. intros [_ Hne]. by apply zlen_0 in Hne; rewrite Hne in E.
  - apply zlen_0 in E. naive_solver.
Qed.

Definition node_or_none (n : NodeKeySignature) : Prop := Pubkey n = [] ∨ names_node n.

(** The node keys named in the chain, newest first, as they are encoded. *)
Definition named_keys (l : list NodeKeySignature) : list bytes :=
  filter (λ p, p ≠ []) (Pubkey <$> l).

Lemma named_keys_cons n l :
  named_keys (n :: l) = (if 0 <? zlen (Pubkey n) then [Pubkey n] else []) ++ named_keys l.
Proof.
  unfold named_keys. rewrite fmap_cons, filter_cons. destruct (Pubkey n) as [|x b] eqn:E; [done|].
  rewrite decide_True by done. done.
Qed.

Lemma rotationLoop_spec n :
  rotations n → SigKind (root_of n) ≠ SigRotation → Forall node_or_none (chain_of n) →
  ∃ keys, rotationLoop n = Ok (keys, Some (root_of n))
          ∧ map NodePublic_MarshalBinary keys = named_keys (chain_of n)
          ∧ Forall (λ k, length k = 32%nat) keys.
Proof.
  induction n as [n IH] using NKS_nested_ind. intros Hr Hroot Hf.
  rewrite chain_of_unfold in Hf |- *. inversion Hf as [|? ? Hn Hf']; subst.
  assert (∃ here, (if 0 <? zlen (Pubkey n)
          then nestedPub ← wrapf "nested pubkey" (NodePublic_UnmarshalBinary (Pubkey n));
               Ok [nestedPub]
          else Ok []) = Ok here
          ∧ map NodePublic_MarshalBinary here = (if 0 <? zlen (Pubkey n) then [Pubkey n] else [])
          ∧ Forall (λ k, length k = 32%nat) here) as (here & Eh & Em & El).
  { destruct Hn as [->|(k & Hk & ->)]; [by exists []|]. exists [k].
    rewrite Unmarshal_Marshal by done. by split_and!; [|..|constructor]. }
  rewrite root_of_unfold in Hroot. rewrite root_of_unfold.
  assert (rotationLoop n = here ← Ok here;
    if bool_decide (SigKind n ≠ SigRotation) then Ok (here, Some n)
    else match Nested n with
         | None => Ok (here, None)
         | Some n => '(keys, last) ← rotationLoop n; Ok (here ++ keys, last)
         end) as ->.
  { rewrite <- Eh. by destruct n. }
  cbn [mbind res_bind]. rewrite named_keys_cons, <- Em.
  destruct (Nested n) as [m|] eqn:Hm.
  - apply (rotations_nested n m Hm) in Hr as [Hk Hr].
    rewrite bool_decide_false by (rewrite Hk; naive_solver).
    destruct (IH m eq_refl) as (keys & -> & E2 & F2); [done..|]. exists (here ++ keys).
    cbn. rewrite map_app, E2. split_and!; [done..|]. by apply Forall_app.
  - rewrite bool_decide_true by done. exists here. by rewrite app_nil_r.
Qed.

(** When the loop fails, some named key is malformed. *)
Lemma rotationLoop_Ok n keys last :
  rotations n → rotationLoop n = Ok (keys, last) → Forall node_or_none (chain_of n).
Proof.
  revert keys last. induction n as [n IH] using NKS_nested_ind. intros keys last Hr Hl.
  rewrite chain_of_unfold.
  assert (∃ here, (if 0 <? zlen (Pubkey n)
          then nestedPub ← wrapf "nested pubkey" (NodePublic_UnmarshalBinary (Pubkey n));
               Ok [nestedPub]
          else Ok []) = Ok here
     ∧ (if bool_decide (SigKind n ≠ SigRotation) then Ok (here, Some n)
        else match Nested n with
             | None => Ok (here, None)
             | Some n => '(keys, last) ← rotationLoop n; Ok (here ++ keys, last)
             end) = Ok (keys, last)) as (here & Eh & Hl').
  { destruct n. by apply bind_Ok in Hl. }
  constructor.
  - destruct (0 <? zlen (Pubkey n)) eqn:E.
    + apply bind_Ok in Eh as (k & Hk%wrapf_Ok & _). right. exists k. by apply Unmarshal_Ok.
    + left. destruct (Pubkey n); [done|]. by unfold zlen in E; cbn in E.
  - destruct (Nested n) as [m|] eqn:Hm; [|constructor].
    apply (rotations_nested n m Hm) in Hr as [Hk Hr].
    rewrite bool_decide_false in Hl' by (rewrite Hk; naive_solver).
    apply bind_Ok in Hl' as ([ks l] & Hm' & _). by eapply IH.
Qed.

End Sig.

(** ** What re-signing relies on *)

(** The kinds that the code knows. *)
Definition known_kind (n : NodeKeySignature) : Prop :=
  match SigKind n with SigUnknown _ => False | _ => True end.

(** [MaxNestedLevels] of the CBOR decoder. *)
Definition MaxNestedLevels : nat := 16.

(** A signature verifies under the public part of the key that made it, and what
    was encoded is decoded, up to the decoder's nesting limit. *)
Class TkaSignLaws `{TkaCrypto} := {
  pub_of : bytes → bytes;
  sign_verify priv d : ed25519_Verify (pub_of priv) d (ed25519_Sign priv d) = true;
  nks_roundtrip s : Forall known_kind (chain_of s) → (nks_depth s <= MaxNestedLevels)%nat →
    cbor_NKS_decode (cbor_NKS s) = Some s
}.

Section Resign.
Context {crypto : TkaCrypto} {laws : TkaSignLaws}.

(** A chain that can be extended with [priv]: valid for [nk], no credential on
    top, wrapped by the public part of [priv]. *)
Record resignable (priv : bytes) (vk : Key) (s : NodeKeySignature) (nk : NodePublic) : Prop := {
  rs_ok : sig_chain_ok s nk vk;
  rs_kind : SigKind s ≠ SigCredential;
  rs_len : length nk = 32%nat;
  rs_wrap : wrappingPublic s = Some (pub_of priv);
  rs_known : Forall known_kind (chain_of s)
}.

Definition wrapped (priv : bytes) (nk : NodePublic) (n : NodeKeySignature) : NodeKeySignature :=
  signNKS priv (rotationOf (NodePublic_MarshalBinary nk) (Some n)).

Lemma wrapped_chain priv nk n : chain_of (wrapped priv nk n) = wrapped priv nk n :: chain_of n.
Proof. done. Qed.

Lemma wrapped_resignable priv vk n nk nk' :
  length (pub_of priv) = 32%nat → resignable priv vk n nk → length nk' = 32%nat →
  resignable priv vk (wrapped priv nk' n) nk'.
Proof.
  intros Hlen [Hok Hk Hl Hw Hkn] Hl'. split; [|done|done| |].
  - apply (sig_chain_nested (wrapped priv nk' n) n); [done|]. split; [done|]. split.
    + split; [done|]. exists (pub_of priv). split_and!; try done. apply sign_verify.
    + exists nk. split; [|done]. intros _. rewrite (sc_node _ _ _ Hok Hk). by apply Unmarshal_Marshal.
  - cbn. exact Hw.
  - rewrite wrapped_chain. by constructor.
Qed.

Lemma prevLoop_spec n :
  rotations n → SigKind (root_of n) ≠ SigRotation →
  prevLoop n = (named_keys (chain_of n), Some (root_of n)).
Proof.
  induction n as [n IH] using NKS_nested_ind. intros Hr Hroot.
  rewrite chain_of_unfold, named_keys_cons. rewrite root_of_unfold in Hroot |- *.
  assert (prevLoop n = if bool_decide (SigKind n ≠ SigRotation)
    then (if 0 <? zlen (Pubkey n) then [Pubkey n] else [], Some n)
    else match Nested n with
         | None => (if 0 <? zlen (Pubkey n) then [Pubkey n] else [], None)
         | Some m => let '(keys, last) := prevLoop m in
                     ((if 0 <? zlen (Pubkey n) then [Pubkey n] else []) ++ keys, last)
         end) as -> by (by destruct n).
  destruct (Nested n) as [m|] eqn:Hm.
  - apply (rotations_nested n m Hm) in Hr as [Hk Hr].
    rewrite bool_decide_false by (rewrite Hk; naive_solver). by rewrite (IH m eq_refl).
  - rewrite bool_decide_true by done. by rewrite app_nil_r.
Qed.

(** A chain on a direct signature: all of it names node keys. *)
Lemma direct_chain s nk vk :
  sig_chain_ok s nk vk → SigKind (root_of s) = SigDirect → length nk = 32%nat →
  Forall names_node (chain_of s).
Proof.
  revert nk. induction s as [s IH] using NKS_nested_ind. intros nk Hok Hroot Hl.
  rewrite chain_of_unfold. rewrite root_of_unfold in Hroot.
  destruct (Nested s) as [n|] eqn:Hn.
  - apply (sig_chain_nested s n) in Hok as (Hp & [Hk _] & nk' & Hu & Hok); [|done].
    constructor; [exists nk; split; [done|]; apply Hp; by rewrite Hk|].
    assert (SigKind n ≠ SigCredential) as Hc.
    { intros E. rewrite root_of_unfold in Hroot. destruct (Nested n) as [m|] eqn:Hm; [|congruence].
      destruct (proj1 (sig_chain_nested n m nk' vk Hm) Hok) as (_ & [Hkm _] & _). congruence. }
    apply (IH n eq_refl nk'); [done..|]. by destruct (Unmarshal_Ok _ _ (Hu Hc)).
  - apply (sig_chain_root s) in Hok as [Hp _]; [|done]. constructor; [|constructor].
    exists nk. split; [done|]. apply Hp. by rewrite Hroot.
Qed.

Lemma named_keys_all l : Forall names_node l → named_keys l = Pubkey <$> l.
Proof.
  induction 1 as [|n l (k & Hk & Hp) _ IH]; [done|].
  rewrite named_keys_cons, IH. cbn. by rewrite Hp.
Qed.

(** The trimmed chain, rebuilt on the root. *)
Lemma rebuilt priv vk root rk : ∀ keys,
  length (pub_of priv) = 32%nat → resignable priv vk root rk → Nested root = None →
  Forall (λ p, ∃ k, length k = 32%nat ∧ p = NodePublic_MarshalBinary k) keys →
  ∃ s nk, foldr (λ pubkey result, Some (signNKS priv (rotationOf pubkey result))) (Some root) keys
          = Some s
    ∧ resignable priv vk s nk ∧ root_of s = root ∧ nks_depth s = S (length keys)
    ∧ default (Pubkey root) (keys !! 0%nat) = NodePublic_MarshalBinary nk.
Proof.
  intros keys Hlen Hroot Hn Hkeys. induction Hkeys as [|p keys (k & Hk & ->) _ IH].
  - exists root, rk. split_and!; try done.
    + by rewrite root_of_unfold, Hn.
    + unfold nks_depth. by rewrite chain_of_unfold, Hn.
    + apply (sc_node _ _ _ (rs_ok _ _ _ _ Hroot)), Hroot.
  - destruct IH as (s & nk & E & Hs & Hr & Hd & _). exists (wrapped priv k s), k. cbn [foldr].
    rewrite E. split_and!; try done; [by eapply wrapped_resignable|].
    unfold nks_depth in *. rewrite wrapped_chain. cbn. by rewrite Hd.
Qed.

Lemma root_nested_none s : Nested (root_of s) = None.
Proof.
  induction s as [s IH] using NKS_nested_ind. rewrite root_of_unfold.
  destruct (Nested s) eqn:Hn; [by apply IH|done].
Qed.

Lemma root_in_chain s : root_of s ∈ chain_of s.
Proof.
  induction s as [s IH] using NKS_nested_ind. rewrite root_of_unfold, chain_of_unfold.
  destruct (Nested s) as [n|] eqn:Hn; [|set_solver]. apply elem_of_cons. right. by apply IH.
Qed.

Lemma root_resignable priv vk s nk :
  resignable priv vk s nk → SigKind (root_of s) = SigDirect →
  wrappingPublic (root_of s) = Some (pub_of priv) →
  ∃ rk, resignable priv vk (root_of s) rk.
Proof.
  intros [Hok _ Hl _ Hkn] Hroot Hw.
  pose proof (direct_chain s nk vk Hok Hroot Hl) as Hnames.
  assert (names_node (root_of s)) as (rk & Hrk & Hp).
  { eapply Forall_forall; [done|apply root_in_chain]. }
  exists rk. split; [|by rewrite Hroot|done|done|].
  - apply sig_chain_root; [apply root_nested_none|]. split; [done|apply Hok].
  - rewrite chain_of_unfold, root_nested_none. constructor; [|constructor].
    eapply Forall_forall; [done|apply root_in_chain].
Qed.

(** Trimming keeps a chain valid for the same node, and short enough to wrap. *)
Lemma trim_spec priv vk s nk :
  length (pub_of priv) = 32%nat → resignable priv vk s nk →
  SigKind (root_of s) = SigDirect → wrappingPublic (root_of s) = Some (pub_of priv) →
  ∃ s', maybeTrimRotationSignatureChain s priv = Ok s' ∧ resignable priv vk s' nk
    ∧ root_of s' = root_of s ∧ (nks_depth s' < MaxNestedLevels)%nat.
Proof.
  intros Hlen Hs Hroot Hwroot. pose proof (rs_ok _ _ _ _ Hs) as Hok.
  pose proof (direct_chain s nk vk Hok Hroot (rs_len _ _ _ _ Hs)) as Hnames.
  pose proof (sig_chain_rotations _ _ _ Hok) as Hrot.
  unfold maybeTrimRotationSignatureChain. destruct (Nested s) as [n|] eqn:Hn.
  - pose proof (proj1 (rotations_nested s n Hn) Hrot) as [Hk Hrotn].
    rewrite bool_decide_false by (rewrite Hk; naive_solver).
    assert (chain_of s = s :: chain_of n) as Hc by (by rewrite chain_of_unfold, Hn).
    assert (root_of s = root_of n) as Hr by (by rewrite root_of_unfold, Hn).
    rewrite Hc in Hnames. inversion Hnames as [|? ? Hns Hnn]; subst.
    rewrite prevLoop_spec, named_keys_all by (done || by rewrite <- Hr, Hroot).
    change (Pubkey s :: (Pubkey <$> chain_of n)) with (Pubkey <$> (s :: chain_of n)).
    rewrite <- Hc, length_fmap. fold (nks_depth s). destruct (nks_depth s <=? maxPrevKeys)%nat eqn:El.
    + apply Nat.leb_le in El. exists s. unfold maxPrevKeys, MaxNestedLevels in *. split_and!; try done. lia.
    + apply Nat.leb_gt in El.
      destruct (root_resignable priv vk s nk Hs Hroot Hwroot) as [rk Hrk].
      destruct (rebuilt priv vk (root_of s) rk (take 14 (Pubkey <$> chain_of s)))
        as (s' & nk' & E & Hs' & Hr' & Hd & Hp); [done|done|apply root_nested_none| |].
      { apply Forall_take, Forall_fmap. rewrite Hc. eapply Forall_impl; [exact Hnames|].
        intros x (k & ? & ?). by exists k. }
      rewrite <- Hr. cbn [maxPrevKeys Nat.sub] in *. rewrite E. exists s'.
      rewrite length_take, length_fmap in Hd. unfold MaxNestedLevels, nks_depth in *.
      split_and!; [done| |done|unfold maxPrevKeys in El; lia].
      assert (nk' = nk) as <-; [|done]. apply NodePublic_inj. rewrite <- Hp, Hc. cbn.
      apply (sc_node _ _ _ Hok). by rewrite Hk.
  - rewrite root_of_unfold, Hn in Hroot. rewrite bool_decide_true by (by rewrite Hroot).
    exists s. split_and!; try done. unfold nks_depth, MaxNestedLevels.
    rewrite chain_of_unfold, Hn. cbn. lia.
Qed.

End Resign.

(** The stand-in primitives satisfy the laws. *)
Lemma take_field_enc (x b : bytes) : take_field ((zlen x :: x) ++ b) = Some (x, b).
Proof.
  unfold take_field. cbn. unfold zlen. rewrite Nat2Z.id.
  by rewrite take_app_length, drop_app_length.
Qed.

Lemma enc_NKS_unfold s :
  enc_NKS s =
  (match SigKind s with
   | SigInvalid => 0 | SigDirect => 1 | SigRotation => 2 | SigCredential => 3
   | SigUnknown n => n end)
  :: 4 :: (zlen (Pubkey s) :: Pubkey s) ++ (zlen (nks_KeyID s) :: nks_KeyID s)
  ++ (zlen (Signature s) :: Signature s) ++ (zlen (WrappingPubkey s) :: WrappingPubkey s)
  ++ match Nested s with None => [0] | Some n => 1 :: enc_NKS n end.
Proof. destruct s. cbn. repeat (rewrite <- ?app_assoc; cbn). done. Qed.

Lemma dec_enc_NKS s : ∀ fuel,
  Forall known_kind (chain_of s) → (nks_depth s <= fuel)%nat → dec_NKS fuel (enc_NKS s) = Some s.
Proof.
  induction s as [s IH] using NKS_nested_ind. intros fuel Hk Hd.
  unfold nks_depth in Hd. rewrite chain_of_unfold in Hk, Hd. inversion Hk as [|? ? Hks Hkn]; subst.
  destruct fuel as [|fuel]; [cbn in Hd; lia|]. rewrite enc_NKS_unfold. cbn [dec_NKS].
  rewrite take_field_enc. cbn [mbind option_bind]. rewrite take_field_enc. cbn [mbind option_bind].
  rewrite take_field_enc. cbn [mbind option_bind]. rewrite take_field_enc. cbn [mbind option_bind].
  destruct (Nested s) as [n|] eqn:Hn.
  - rewrite (IH n) by (done || (cbn in Hd; unfold nks_depth; lia)). cbn.
    destruct s as [sk pk kid sg nst wp]; cbn in *. unfold known_kind in Hks. cbn in Hks. subst.
    by destruct sk.
  - destruct s as [sk pk kid sg nst wp]; cbn in *. unfold known_kind in Hks. cbn in Hks. subst.
    by destruct sk.
Qed.

Lemma toy_sign_verify priv d : ed25519_Verify priv d (ed25519_Sign priv d) = true.
Proof. cbn. unfold verify. by apply bool_decide_eq_true. Qed.

Lemma toy_roundtrip s :
  Forall known_kind (chain_of s) → (nks_depth s <= MaxNestedLevels)%nat →
  cbor_NKS_decode (cbor_NKS s) = Some s.
Proof. intros Hk Hd. apply dec_enc_NKS; [done|]. unfold MaxNestedLevels in Hd. lia. Qed.

#[export] Instance toy_sign_laws : TkaSignLaws := {|
  pub_of := λ priv, priv; sign_verify := toy_sign_verify; nks_roundtrip := toy_roundtrip
|}.

(** ** Properties *)

Section Properties.
Context {crypto : TkaCrypto}.

Lemma NodeKeyAuthorized_spec a nodeKey sigBytes :
  NodeKeyAuthorized a nodeKey sigBytes = Ok tt ↔
  ∃ s k, cbor_NKS_decode sigBytes = Some s ∧ SigKind s ≠ SigCredential
    ∧ nks_KeyID (root_of s) ≠ [] ∧ GetKey (state a) (nks_KeyID (root_of s)) = Ok k
    ∧ sig_chain_ok s nodeKey k ∧ Forall node_or_none (tail (chain_of s)).
Proof.
  unfold NodeKeyAuthorized, NodeKeyAuthorizedWithDetails, NKS_Unserialize. split.
  - intros (d & Hd & _)%bind_Ok. apply bind_Ok in Hd as (s & Hs & Hd). apply wrapf_Ok in Hs.
    destruct (cbor_NKS_decode sigBytes) as [s'|]; [|done]. injection Hs as ->.
    case_bool_decide as Hk; [done|]. apply bind_Ok in Hd as (kid & Hkid & Hd).
    apply bind_Ok in Hd as (k & Hgk & Hd). apply wrapf_Ok in Hgk.
    apply bind_Ok in Hd as ([] & Hv & Hd). apply verifySignature_spec in Hv.
    pose proof (sig_chain_rotations _ _ _ Hv) as Hrot.
    rewrite authorizingKeyID_root in Hkid by done.
    apply (authorizingKeyID_spec _ k) in Hkid as [-> Hne]; [|apply Hv].
    exists s, k. split_and!; try done. rewrite chain_of_unfold. cbn. unfold rotationDetails in Hd.
    destruct (Nested s) as [n|] eqn:Hn; [|constructor].
    apply (rotations_nested s n Hn) in Hrot as [Hkr Hrotn].
    rewrite bool_decide_false in Hd by (rewrite Hkr; naive_solver).
    apply bind_Ok in Hd as ([keys l] & Hl & _). by eapply rotationLoop_Ok.
  - intros (s & k & -> & Hk & Hne & Hgk & Hv & Hf). cbn. rewrite bool_decide_false by done.
    pose proof (sig_chain_rotations _ _ _ Hv) as Hrot.
    rewrite authorizingKeyID_root by done.
    rewrite (proj2 (authorizingKeyID_spec _ k (nks_KeyID (root_of s)) (sc_root _ _ _ Hv))) by done.
    cbn. rewrite Hgk. cbn. rewrite (proj2 (verifySignature_spec s nodeKey k)) by done. cbn.
    unfold rotationDetails. case_bool_decide as Hr; [done|]. rewrite chain_of_unfold in Hf. cbn in Hf.
    pose proof (sc_root _ _ _ Hv) as [Hrk _]. rewrite root_of_unfold in Hrk.
    destruct (Nested s) as [n|] eqn:Hn; [|done].
    apply (rotations_nested s n Hn) in Hrot as [_ Hrotn].
    destruct (rotationLoop_spec n) as (keys & -> & _); [done| |done..].
    by destruct Hrk as [-> | ->].
Qed.

(** C6. [verifySignature] accepts exactly the valid chains: the outermost
    signature is for the given node key, every rotation is signed by the
    32-byte wrapping key that the next signature delegates to, every nested
    signature other than a credential names a node key, and the innermost one
    is a direct or credential signature by the given authority key. *)
Theorem verifySignature_accepts_iff s nodeKey vk :
  verifySignature s nodeKey vk = Ok tt ↔ sig_chain_ok s nodeKey vk.
Proof. apply verifySignature_spec. Qed.

(** C7. A node key is authorized exactly when the signature decodes, is not a
    bare credential, is a valid chain for that node key whose innermost
    signature is by a key that the authority trusts now (the one its key id
    names), and every node key named in the chain is well formed: removing a key
    from the state revokes every chain that rests on it. *)
Theorem NodeKeyAuthorized_iff a nodeKey sigBytes :
  NodeKeyAuthorized a nodeKey sigBytes = Ok tt ↔
  ∃ s k, cbor_NKS_decode sigBytes = Some s ∧ SigKind s ≠ SigCredential
    ∧ nks_KeyID (root_of s) ≠ [] ∧ GetKey (state a) (nks_KeyID (root_of s)) = Ok k
    ∧ sig_chain_ok s nodeKey k ∧ Forall node_or_none (tail (chain_of s)).
Proof. apply NodeKeyAuthorized_spec. Qed.

(** The rotation details of a valid chain list the node keys named by the
    nested signatures, newest first, and the innermost signature. *)
Theorem rotationDetails_lists_previous_keys s nodeKey vk n :
  sig_chain_ok s nodeKey vk → Nested s = Some n → Forall node_or_none (chain_of n) →
  ∃ d, rotationDetails s = Ok (Some d) ∧ InitialSig d = Some (root_of s)
    ∧ map NodePublic_MarshalBinary (PrevNodeKeys d) = named_keys (tail (chain_of s)).
Proof.
  intros Hv Hn Hf. pose proof (sig_chain_rotations _ _ _ Hv) as Hrot.
  pose proof (sc_root _ _ _ Hv) as [Hrk _]. rewrite root_of_unfold, Hn in Hrk.
  apply (rotations_nested s n Hn) in Hrot as [Hk Hrotn].
  destruct (rotationLoop_spec n) as (keys & E & Em & _); [done| |done|].
  { by destruct Hrk as [-> | ->]. }
  unfold rotationDetails. rewrite bool_decide_false by (rewrite Hk; naive_solver).
  rewrite Hn, E. cbn. eexists. split; [done|]. by rewrite (root_of_unfold s), (chain_of_unfold s), Hn.
Qed.

(** Re-signing keeps a node authorized across a key rotation: given a stored
    signature that the authority accepts for the old node key, resting on a
    direct signature and wrapped by the node's own key throughout, [ResignNKS]
    returns a signature that the authority accepts for the new node key, within
    the decoder's nesting limit however long the chain had become. *)
Theorem ResignNKS_authorizes_new_key {laws : TkaSignLaws} a priv oldKey newKey old s :
  NodeKeyAuthorized a oldKey old = Ok tt → cbor_NKS_decode old = Some s →
  Forall known_kind (chain_of s) → SigKind (root_of s) = SigDirect →
  wrappingPublic s = Some (pub_of priv) → wrappingPublic (root_of s) = Some (pub_of priv) →
  length (pub_of priv) = 32%nat → length oldKey = 32%nat → length newKey = 32%nat →
  newKey ≠ oldKey →
  ∃ new, ResignNKS priv newKey old = Ok new ∧ NodeKeyAuthorized a newKey new = Ok tt.
Proof.
  intros Ha Hdec Hkn Hroot Hw Hwr Hlen Hlo Hln Hne.
  apply NodeKeyAuthorized_spec in Ha as (s0 & k & E & Hk & Hid & Hgk & Hv & Hf).
  rewrite Hdec in E. injection E as <-.
  assert (resignable priv k s oldKey) as Hs by (by split).
  destruct (trim_spec priv k s oldKey Hlen Hs Hroot Hwr) as (s' & Ht & Hs' & Hr & Hd).
  pose proof (wrapped_resignable priv k s' oldKey newKey Hlen Hs' Hln) as Hnew.
  exists (NKS_Serialize (wrapped priv newKey s')). split.
  - unfold ResignNKS, NKS_Unserialize. rewrite Hdec. cbn.
    rewrite bool_decide_false, Ht; [done|].
    rewrite (sc_node _ _ _ Hv Hk). by intros ?%NodePublic_inj.
  - apply NodeKeyAuthorized_spec. exists (wrapped priv newKey s'), k. split_and!; try done.
    + apply nks_roundtrip; [apply Hnew|]. unfold nks_depth in *. rewrite wrapped_chain. cbn. lia.
    + change (root_of (wrapped priv newKey s')) with (root_of s'). by rewrite Hr.
    + change (root_of (wrapped priv newKey s')) with (root_of s'). by rewrite Hr.
    + apply Hnew.
    + rewrite wrapped_chain. cbn.
      eapply Forall_impl; [eapply direct_chain; [apply Hs'|by rewrite Hr|done]|]. by right.
Qed.

(** A chain that rests on a credential is trimmed one level too late: with
    15 node keys above the credential it has 16 levels, [maybeTrim] leaves it as
    it is, and the signature that [ResignNKS] builds around it has 17, one more
    than the decoder accepts. *)
Theorem credential_chain_not_trimmed s nodeKey newKey vk priv :
  sig_chain_ok s nodeKey vk → SigKind (root_of s) = SigCredential → Pubkey (root_of s) = [] →
  SigKind s = SigRotation → nks_depth s = MaxNestedLevels →
  maybeTrimRotationSignatureChain s priv = Ok s
  ∧ nks_depth (wrapped priv newKey s) = S MaxNestedLevels.
Proof.
  intros Hv Hroot Hpub Hk Hd. split.
  2: { unfold nks_depth in *. rewrite wrapped_chain. cbn. by rewrite Hd. }
  pose proof (sig_chain_rotations _ _ _ Hv) as Hrot.
  unfold maybeTrimRotationSignatureChain. rewrite bool_decide_false by (rewrite Hk; naive_solver).
  destruct (Nested s) as [n|] eqn:Hn.
  2: { rewrite root_of_unfold, Hn in Hroot. congruence. }
  assert (chain_of s = s :: chain_of n) as Hc by (by rewrite chain_of_unfold, Hn).
  rewrite root_of_unfold, Hn in Hroot, Hpub.
  apply (rotations_nested s n Hn) in Hrot as [_ Hrotn].
  rewrite prevLoop_spec by (done || by rewrite Hroot).
  assert (length (named_keys (chain_of n)) < length (chain_of n))%nat.
  { unfold named_keys. pose proof (root_in_chain n) as Hin.
    apply (list_elem_of_fmap_2 Pubkey) in Hin. rewrite Hpub in Hin.
    rewrite <- (length_fmap Pubkey (chain_of n)). apply length_filter_lt with (x := []); [done|].
    naive_solver. }
  unfold nks_depth, MaxNestedLevels in Hd. rewrite Hc in Hd. cbn in Hd.
  rewrite (proj2 (Nat.leb_le _ _)); [done|]. unfold maxPrevKeys. cbn [length]. lia.
Qed.

End Properties.

(** ** The properties on concrete signatures *)

(** Three node keys, a node's own key, and the chains made with them. *)
Definition nodeKey (n : Z) : NodePublic := replicate 32 n.

Definition directSig : NodeKeySignature :=
  let s := {| SigKind := SigDirect; Pubkey := NodePublic_MarshalBinary (nodeKey 50);
              nks_KeyID := pub 1; Signature := []; Nested := None; WrappingPubkey := pub 9 |} in
  set_Signature s (ed25519_Sign (pub 1) (NKS_SigHash s)).

Definition credentialSig : NodeKeySignature :=
  let s := {| SigKind := SigCredential; Pubkey := []; nks_KeyID := pub 1; Signature := [];
              Nested := None; WrappingPubkey := pub 9 |} in
  set_Signature s (ed25519_Sign (pub 1) (NKS_SigHash s)).

(** [n] rotations, to the keys 51, 52, ... *)
Fixpoint rotated (base : NodeKeySignature) (n : nat) : NodeKeySignature :=
  match n with
  | O => base
  | S m => wrapped (pub 9) (nodeKey (50 + Z.of_nat n)) (rotated base m)
  end.

Definition authG : Authority := {| head := aum0; oldestAncestor := aum0; state := stateG |}.

Lemma known_rotated base n : known_kind base → Nested base = None →
  Forall known_kind (chain_of (rotated base n)).
Proof.
  intros Hk Hn. induction n as [|n IH]; cbn [rotated].
  - rewrite chain_of_unfold, Hn. by repeat constructor.
  - rewrite wrapped_chain. by constructor.
Qed.

Lemma verifies_chain s nk vk : verifySignature s nk vk = Ok tt → sig_chain_ok s nk vk.
Proof. apply verifySignature_spec. Qed.

Lemma rotationDetails_lists_previous_keys_witness :
  ∃ d, rotationDetails (rotated directSig 2) = Ok (Some d)
    ∧ InitialSig d = Some directSig
    ∧ map NodePublic_MarshalBinary (PrevNodeKeys d)
      = named_keys (tail (chain_of (rotated directSig 2))).
Proof.
  apply (rotationDetails_lists_previous_keys (rotated directSig 2) (nodeKey 52) key1
           (rotated directSig 1)).
  - apply verifies_chain. by vm_compute.
  - done.
  - change (chain_of (rotated directSig 1)) with [rotated directSig 1; directSig].
    constructor; [right; by exists (nodeKey 51)|].
    constructor; [right; by exists (nodeKey 50)|constructor].
Defined.

(** A chain of 16 signatures: the re-signed one is trimmed. *)
Lemma ResignNKS_authorizes_new_key_witness :
  ∃ new, ResignNKS (pub 9) (nodeKey 99) (NKS_Serialize (rotated directSig 15)) = Ok new
         ∧ NodeKeyAuthorized authG (nodeKey 99) new = Ok tt.
Proof.
  apply (ResignNKS_authorizes_new_key authG (pub 9) (nodeKey 65) (nodeKey 99)
           (NKS_Serialize (rotated directSig 15)) (rotated directSig 15)).
  - by vm_compute.
  - apply toy_roundtrip; [by apply known_rotated|]. by vm_compute.
  - by apply known_rotated.
  - by vm_compute.
  - by vm_compute.
  - by vm_compute.
  - done.
  - done.
  - done.
  - by vm_compute.
Defined.

Lemma credential_chain_not_trimmed_witness :
  maybeTrimRotationSignatureChain (rotated credentialSig 15) (pub 9) = Ok (rotated credentialSig 15)
  ∧ nks_depth (wrapped (pub 9) (nodeKey 99) (rotated credentialSig 15)) = 17%nat.
Proof.
  apply (credential_chain_not_trimmed (rotated credentialSig 15) (nodeKey 65) (nodeKey 99) key1 (pub 9)).
  - apply verifies_chain. by vm_compute.
  - by vm_compute.
  - by vm_compute.
  - done.
  - by vm_compute.
Defined.
