(* ===== verification/TkaBuilder.v ===== *)
(** * Tailnet key authority: building updates

    Models [src/tka/builder.go]: the builder that turns requested changes into a
    chain of update messages.  The theorems show that what [Finalize] returns is
    a chain on the current head that makes exactly the requested changes, and
    that, signed by a key that stays trusted, it passes verification message by
    message. *)

From S2P Require Import Prelude TkaTypes TkaFixtures TkaState TkaFork TkaChonk TkaAuthority.
From S2P Require Import TkaReplay TkaRoots TkaScenario TkaInform.

Section Builder.
Context `{TkaCrypto}.

(** ** Operations *)

(** The [Signer] interface; the builder may have none. *)
Abbreviation Signer := (bytes → res (list AUMSignature)).

Record UpdateBuilder := mkUpdateBuilder {
  b_signer : option Signer;
  b_state : State;
  b_parent : AUMHash;
  b_out : list AUM
}.

(** [update.PrevAUMHash = prevHash] *)
Definition set_PrevAUMHash (prev : bytes) (a : AUM) : AUM :=
  {| MessageKind := MessageKind a; PrevAUMHash := Some prev; aum_Key := aum_Key a;
     aum_KeyID := aum_KeyID a; aum_State := aum_State a; aum_Votes := aum_Votes a;
     aum_Meta := aum_Meta a; Signatures := Signatures a |}.

Definition mkUpdate (b : UpdateBuilder) (update : AUM) : res UpdateBuilder :=
  let update := set_PrevAUMHash (b_parent b) update in
  update ← match b_signer b with
           | None => Ok update
           | Some signer =>
               sigs ← wrapf "signing failed" (signer (AUM_SigHash update));
               Ok (add_Signatures sigs update)
           end;
  _ ← wrapf "generated update was invalid" (AUM_StaticValidate update);
  st ← wrapf "update cannot be applied" (applyVerifiedAUM (b_state b) update);
  Ok {| b_signer := b_signer b; b_state := st; b_parent := AUM_Hash update;
        b_out := b_out b ++ [update] |}.

(** A message of the given kind with no fields. *)
Definition AUM_of (kind : AUMKind) (key : option Key) (keyID : option KeyID_t) (st : option State)
    (votes : option N) (meta : option metadata) : AUM :=
  {| MessageKind := kind; PrevAUMHash := None; aum_Key := key; aum_KeyID := keyID;
     aum_State := st; aum_Votes := votes; aum_Meta := meta; Signatures := [] |}.

Definition AddKey (b : UpdateBuilder) (key : Key) : res UpdateBuilder :=
  keyID ← Key_ID key;
  match GetKey (b_state b) keyID with
  | Ok _ => Err (Errorf "cannot add key: already exists")
  | _ =>
      if maxKeys <=? zlen (Keys (b_state b))
      then Err (Errorf "cannot add key: maximum number of keys reached")
      else mkUpdate b (AUM_of AUMAddKey (Some key) None None None None)
  end.

Definition RemoveKey (b : UpdateBuilder) (keyID : KeyID_t) : res UpdateBuilder :=
  _ ← wrapf "failed reading key" (GetKey (b_state b) keyID);
  mkUpdate b (AUM_of AUMRemoveKey None (Some keyID) None None None).

Definition SetKeyVote (b : UpdateBuilder) (keyID : KeyID_t) (votes : N) : res UpdateBuilder :=
  _ ← wrapf "failed reading key" (GetKey (b_state b) keyID);
  mkUpdate b (AUM_of AUMUpdateKey None (Some keyID) None (Some votes) None).

Definition SetKeyMeta (b : UpdateBuilder) (keyID : KeyID_t) (meta : option metadata)
    : res UpdateBuilder :=
  _ ← wrapf "failed reading key" (GetKey (b_state b) keyID);
  mkUpdate b (AUM_of AUMUpdateKey None (Some keyID) None None meta).

(** [state.LastAUMHash = nil] *)
Definition clear_LastAUMHash (s : State) : State :=
  {| LastAUMHash := None; DisablementValues := DisablementValues s; Keys := Keys s;
     StateID1 := StateID1 s; StateID2 := StateID2 s |}.

(** [a] is what the builder's pointer to the authority holds now. *)
Definition generateCheckpoint (b : UpdateBuilder) (a : Authority) : res UpdateBuilder :=
  st ← foldM (λ st update, wrapf "applying update" (applyVerifiedAUM st update)) (state a) (b_out b);
  mkUpdate b (AUM_of AUMCheckpoint None None (Some (clear_LastAUMHash st)) None None).

Definition checkpointEvery : nat := 50.

(** The loop of [Finalize]; [n] iterations are left. *)
Fixpoint checkpointScan {Store} `{Chonk Store} (storage : Store) (n : nat) (cursor : AUMHash)
    : res bool :=
  match n with
  | O => Ok true
  | S n =>
      match chonk_AUM storage cursor with
      | Err e => if bool_decide (e = ErrNotExist) then Ok false else Err (Errorf "reading AUM")
      | Ok aum =>
          if bool_decide (MessageKind aum = AUMCheckpoint) then Ok false
          else
            match Parent aum with
            | None => Ok false
            | Some parent => checkpointScan storage n parent
            end
      | Panic => Panic
      | NoFuel => NoFuel
      end
  end.

Definition Finalize {Store} `{Chonk Store} (b : UpdateBuilder) (a : Authority) (storage : Store)
    : res (list AUM) :=
  cursor ← Authority_Head a;
  needCheckpoint ← checkpointScan storage (checkpointEvery - length (b_out b)) cursor;
  b ← (if (needCheckpoint : bool) then wrapf "generating checkpoint" (generateCheckpoint b a) else Ok b);
  match b_out b with
  | [] => Ok []
  | u :: _ =>
      if bool_decide (default (replicate 32 0) (Parent u) ≠ cursor)
      then Err (Errorf "updates no longer apply to head")
      else Ok (b_out b)
  end.

Definition NewUpdater (a : Authority) (signer : option Signer) : res UpdateBuilder :=
  h ← Authority_Head a;
  Ok {| b_signer := signer; b_state := state a; b_parent := h; b_out := [] |}.

(** ** Requested changes *)

Inductive change :=
  | ChAddKey (k : Key)
  | ChRemoveKey (id : KeyID_t)
  | ChSetVote (id : KeyID_t) (votes : N)
  | ChSetMeta (id : KeyID_t) (meta : option metadata).

Definition request (b : UpdateBuilder) (c : change) : res UpdateBuilder :=
  match c with
  | ChAddKey k => AddKey b k
  | ChRemoveKey id => RemoveKey b id
  | ChSetVote id votes => SetKeyVote b id votes
  | ChSetMeta id meta => SetKeyMeta b id meta
  end.

(** What a change does to the set of trusted keys. *)
Definition change_trust (t : Trust) (c : change) : Trust :=
  match c with
  | ChAddKey k => with_keys t (<[Public k := k]> (t_keys t))
  | ChRemoveKey id => with_keys t (delete id (t_keys t))
  | ChSetVote id votes =>
      with_keys t (alter (λ k, mkKey (Kind k) votes (Public k) (Meta k)) id (t_keys t))
  | ChSetMeta id meta =>
      with_keys t (alter (λ k, mkKey (Kind k) (Votes k) (Public k)
        (match meta with Some m => Some m | None => Meta k end)) id (t_keys t))
  end.

(** ** The invariant of the builder *)

Context {laws : TkaCryptoLaws}.

Record builder_inv (a : Authority) (b : UpdateBuilder) : Prop := {
  bi_applies : foldM applyVerifiedAUM (state a) (b_out b) = Ok (b_state b);
  bi_linked : linked (head a :: b_out b);
  bi_parent : b_parent b = AUM_Hash (hist_top (head a) (b_out b));
  bi_valid : Forall AUM_valid (b_out b);
  bi_wf : State_wf (b_state b)
}.

(** The message that [mkUpdate] makes of [u]. *)
Definition made_from (b : UpdateBuilder) (u u' : AUM) : Prop :=
  ∃ sigs, u' = add_Signatures sigs (set_PrevAUMHash (b_parent b) u)
    ∧ match b_signer b with
      | None => sigs = []
      | Some signer => signer (AUM_SigHash (set_PrevAUMHash (b_parent b) u)) = Ok sigs
      end.

Lemma AUM_Hash_length u : length (AUM_Hash u) = 32%nat.
Proof. apply Sum256_length. Qed.

Lemma Parent_set h u : length h = 32%nat → Parent (set_PrevAUMHash h u) = Some h.
Proof.
  intros Hl. unfold Parent, set_PrevAUMHash. cbn [PrevAUMHash]. destruct h as [|x h]; [done|]. by rewrite copy_array_id.
Qed.

Lemma add_no_Signatures u : add_Signatures [] u = u.
Proof. destruct u. unfold add_Signatures. cbn. by rewrite app_nil_r. Qed.

Lemma mkUpdate_inv a b u b' :
  builder_inv a b → mkUpdate b u = Ok b' →
  builder_inv a b' ∧ b_signer b' = b_signer b
  ∧ ∃ u', made_from b u u' ∧ b_out b' = b_out b ++ [u']
      ∧ applyVerifiedAUM (b_state b) u' = Ok (b_state b') ∧ AUM_StaticValidate u' = Ok tt
      ∧ trust_step (trust_of (b_state b)) u = Some (trust_of (b_state b')).
Proof.
  intros [Hf Hl Hp Hv Hw] Hm. unfold mkUpdate in Hm.
  apply bind_Ok in Hm as (u' & Hu & Hm). apply bind_Ok in Hm as ([] & Hsv & Hm).
  apply wrapf_Ok in Hsv. apply bind_Ok in Hm as (st & Ha & Hm). apply wrapf_Ok in Ha.
  injection Hm as <-.
  assert (made_from b u u') as Hmade.
  { unfold made_from. destruct (b_signer b) as [sg|].
    - apply bind_Ok in Hu as (sigs & Hs & Hu). apply wrapf_Ok in Hs. injection Hu as <-. eauto.
    - injection Hu as <-. exists []. by rewrite add_no_Signatures. }
  pose proof (AUM_StaticValidate_valid _ Hsv) as Hval.
  destruct (apply_Ok _ _ _ Hw Hval Ha) as (Ht & Hw' & _).
  split; [|split; [done|]].
  - split; cbn [b_out b_parent b_state]; [| |by rewrite hist_top_snoc| |done].
    + rewrite foldM_app, Hf. cbn. by rewrite Ha.
    + rewrite app_comm_cons, (linked_snoc _ _ _ (hist_top_last (head a) (b_out b))). split; [done|].
      destruct Hmade as (sigs & -> & _).
      change (Parent (set_PrevAUMHash (b_parent b) u) = Some (AUM_Hash (hist_top (head a) (b_out b)))).
      rewrite <- Hp. apply Parent_set. rewrite Hp. apply AUM_Hash_length.
    + apply Forall_app. split; [done|]. by constructor.
  - exists u'. split_and!; [done..|]. cbn. rewrite <- Ht. by destruct Hmade as (sigs & -> & _).
Qed.

Lemma insert_alter_eq {V} (m : gmap KeyID_t V) i (f : V → V) x :
  m !! i = Some x → <[i := f x]> m = alter f i m.
Proof.
  intros Hx. apply map_eq. intros j. destruct (decide (i = j)) as [<-|Hne].
  - by rewrite lookup_insert_eq, lookup_alter_eq, Hx.
  - by rewrite lookup_insert_ne, lookup_alter_ne.
Qed.

(** Which message a change becomes. *)
Definition change_message (c : change) : AUM :=
  match c with
  | ChAddKey k => AUM_of AUMAddKey (Some k) None None None None
  | ChRemoveKey id => AUM_of AUMRemoveKey None (Some id) None None None
  | ChSetVote id votes => AUM_of AUMUpdateKey None (Some id) None (Some votes) None
  | ChSetMeta id meta => AUM_of AUMUpdateKey None (Some id) None None meta
  end.

Lemma request_mkUpdate b c b' : request b c = Ok b' → mkUpdate b (change_message c) = Ok b'.
Proof.
  destruct c; cbn; intros Hr; apply bind_Ok in Hr as (? & _ & Hr); [|done..].
  destruct (GetKey _ _); [done|..]; by destruct (_ <=? _).
Qed.

Lemma change_message_trust t t' c :
  trust_step t (change_message c) = Some t' → t' = change_trust t c.
Proof.
  destruct c as [k|id|id v|id m]; cbn; intros Hs.
  - destruct (t_keys t !! Public k); [done|]. congruence.
  - destruct (t_keys t !! id); [|done]. cbn in Hs. congruence.
  - destruct (t_keys t !! id) as [k|] eqn:Hk; [|done]. cbn in Hs.
    destruct (is_ok _); [|done]. injection Hs as <-. f_equal.
    exact (insert_alter_eq _ id (λ k, mkKey (Kind k) v (Public k) (Meta k)) k Hk).
  - destruct (t_keys t !! id) as [k|] eqn:Hk; [|done]. cbn in Hs.
    destruct (is_ok _); [|done]. injection Hs as <-. f_equal.
    exact (insert_alter_eq _ id (λ k, mkKey (Kind k) (Votes k) (Public k)
             (match m with Some m => Some m | None => Meta k end)) k Hk).
Qed.

Lemma request_inv a b c b' :
  builder_inv a b → request b c = Ok b' →
  builder_inv a b' ∧ b_signer b' = b_signer b
  ∧ trust_of (b_state b') = change_trust (trust_of (b_state b)) c.
Proof.
  intros Hi Hr%request_mkUpdate. destruct (mkUpdate_inv a b _ b' Hi Hr) as (? & ? & u' & _ & _ & _ & _ & Ht).
  split_and!; try done. by apply change_message_trust.
Qed.

Lemma requests_inv a cs b b' :
  builder_inv a b → foldM request b cs = Ok b' →
  builder_inv a b' ∧ b_signer b' = b_signer b
  ∧ trust_of (b_state b') = foldl change_trust (trust_of (b_state b)) cs.
Proof.
  revert b. induction cs as [|c cs IH]; intros b Hi Hf; cbn in Hf; [by simplify_eq|].
  apply bind_Ok in Hf as (b1 & Hr & Hf). destruct (request_inv a b c b1 Hi Hr) as (Hi1 & Hs1 & Ht1).
  destruct (IH b1 Hi1 Hf) as (? & Hs & Ht). split_and!; [done|congruence|]. cbn. by rewrite Ht, Ht1.
Qed.

Lemma foldM_wrapf {A S} (f : S → A → res S) m s l s' :
  foldM (λ s x, wrapf m (f s x)) s l = Ok s' ↔ foldM f s l = Ok s'.
Proof.
  revert s. induction l as [|x l IH]; intros s; cbn; [done|].
  rewrite !bind_Ok. setoid_rewrite wrapf_Ok. by setoid_rewrite IH.
Qed.

(** A checkpoint does not change what is trusted. *)
Lemma checkpoint_inv a b b' :
  builder_inv a b → generateCheckpoint b a = Ok b' →
  builder_inv a b' ∧ b_signer b' = b_signer b ∧ trust_of (b_state b') = trust_of (b_state b)
  ∧ ∃ u', b_out b' = b_out b ++ [u'] ∧ MessageKind u' = AUMCheckpoint.
Proof.
  intros Hi Hg. apply bind_Ok in Hg as (st & Hf & Hm). apply foldM_wrapf in Hf.
  rewrite (bi_applies _ _ Hi) in Hf. injection Hf as <-.
  destruct (mkUpdate_inv a b _ b' Hi Hm) as (? & ? & u' & (sigs & Hu & _) & Ho & _ & _ & Ht).
  cbn in Ht. rewrite !N.eqb_refl in Ht. cbn in Ht.
  apply (inj Some) in Ht. split_and!; [done|done|by rewrite <- Ht|].
  exists u'. split; [done|]. by rewrite Hu.
Qed.

Lemma NewUpdater_inv a signer b :
  State_wf (state a) → LastAUMHash (state a) = Some (AUM_Hash (head a)) →
  NewUpdater a signer = Ok b →
  builder_inv a b ∧ b_signer b = signer ∧ b_state b = state a ∧ b_out b = [].
Proof.
  intros Hw Hl Hn. unfold NewUpdater, Authority_Head in Hn. rewrite Hl in Hn. cbn in Hn.
  injection Hn as <-. split; [|done]. by split.
Qed.

(** What [Finalize] returns: the messages built, with perhaps a checkpoint. *)
Lemma Finalize_cases {Store} `{Chonk Store} (b : UpdateBuilder) a (storage : Store) out :
  Finalize b a storage = Ok out →
  out = b_out b ∨ ∃ b', generateCheckpoint b a = Ok b' ∧ out = b_out b'.
Proof.
  intros Hf. unfold Finalize in Hf. apply bind_Ok in Hf as (h & _ & Hf).
  apply bind_Ok in Hf as (need & _ & Hf). apply bind_Ok in Hf as (b' & Hb & Hf).
  assert (out = b_out b') as ->.
  { destruct (b_out b'); [by injection Hf as <-|]. case_bool_decide; [done|]. by injection Hf as <-. }
  destruct need; [right|left].
  - apply wrapf_Ok in Hb. eauto.
  - by injection Hb as <-.
Qed.

(** ** Signed by a key that stays trusted *)

Section Signed.
Context (a : Authority) (pubKey : bytes) (sign : bytes → bytes).
Hypothesis state_wf : State_wf (state a).
Hypothesis state_head : LastAUMHash (state a) = Some (AUM_Hash (head a)).
Hypothesis pub_len : length pubKey = 32%nat.
Hypothesis sign_ok : ∀ h, ed25519consensus_Verify pubKey h (sign h) = true.

Definition key_signer : Signer := λ h, Ok [mkAUMSignature pubKey (sign h)].

Record signed_inv (b : UpdateBuilder) : Prop := {
  si_inv : builder_inv a b;
  si_signer : b_signer b = Some key_signer;
  si_trusted : is_Some (t_keys (trust_of (b_state b)) !! pubKey);
  si_run : verified_run (state a) (b_out b) (b_state b)
}.

Lemma builder_last b : builder_inv a b → LastAUMHash (b_state b) = Some (b_parent b).
Proof using state_head.
  intros [Hf _ Hp _ _]. rewrite (fold_last _ _ _ Hf), state_head, Hp. unfold hist_top.
  by destruct (last (b_out b)).
Qed.

Lemma made_verifies b u u' :
  signed_inv b → made_from b u u' → Signatures u = [] → AUM_StaticValidate u' = Ok tt →
  (MessageKind u = AUMRemoveKey → opt_bytes (aum_KeyID u) ≠ pubKey) →
  aumVerify u' (b_state b) false = Ok tt.
Proof using laws state_head pub_len sign_ok.
  intros [Hi Hsg [k Hk] _] (sigs & -> & Hs) Hnosig Hsv Hrm. rewrite Hsg in Hs. injection Hs as <-.
  set (u' := add_Signatures _ _) in *. unfold aumVerify. rewrite Hsv. cbn [wrapf mbind res_bind].
  assert (Parent u' = Some (b_parent b)) as Hp.
  { apply (Parent_set (b_parent b) u). rewrite (bi_parent _ _ Hi). apply AUM_Hash_length. }
  assert (Signatures u' = [mkAUMSignature pubKey (sign (AUM_SigHash u'))]) as Hsigs.
  { unfold u', add_Signatures. cbn. by rewrite Hnosig. }
  unfold checkParent. rewrite Hp, (builder_last b Hi).
  rewrite (bool_decide_false (b_parent b ≠ b_parent b)) by (intros Hx; by apply Hx).
  rewrite Hsigs. cbn.
  rewrite GetKey_spec by apply Hi. cbn in Hk. rewrite Hk. cbn.
  apply keymap_Some in Hk as [Hin Hpk]; [|apply Hi].
  assert (Key_valid k) as [Hkk _ _] by (eapply Forall_forall; [apply Hi|done]).
  unfold signatureVerify. rewrite Hkk, Hpk. unfold zlen. rewrite pub_len. cbn. rewrite sign_ok. cbn.
  change (MessageKind u') with (MessageKind u). change (aum_KeyID u') with (aum_KeyID u).
  destruct (MessageKind u) eqn:Hkind; try done.
  destruct (Keys (b_state b)) as [|k1 [|k2 ks]] eqn:Hks; try done.
  apply list_elem_of_singleton in Hin as ->. unfold Key_ID. rewrite Hkk. cbn.
  unfold fail_if. rewrite bool_decide_false; [done|]. rewrite Hpk. auto.
Qed.

Lemma mkUpdate_signed b u b' :
  signed_inv b → mkUpdate b u = Ok b' → Signatures u = [] →
  (MessageKind u = AUMRemoveKey → opt_bytes (aum_KeyID u) ≠ pubKey) →
  is_Some (t_keys (trust_of (b_state b')) !! pubKey) → signed_inv b'.
Proof using laws state_head pub_len sign_ok.
  intros Hi Hm Hn Hrm Ht. destruct (mkUpdate_inv a b u b' (si_inv _ Hi) Hm)
    as (Hi' & Hs & u' & Hmade & Ho & Ha & Hsv & _).
  split; [done|by rewrite Hs, (si_signer _ Hi)|done|]. rewrite Ho.
  eapply run_snoc; [apply Hi|]. split; [|done]. by eapply made_verifies.
Qed.

(** The change does not remove the signing key. *)
Definition keeps_signer (c : change) : Prop :=
  match c with ChRemoveKey id => id ≠ pubKey | _ => True end.

Lemma change_keeps_trust t c :
  keeps_signer c → is_Some (t_keys t !! pubKey) → is_Some (t_keys (change_trust t c) !! pubKey).
Proof using.
  clear sign_ok pub_len state_head state_wf. intros Hk Ht. destruct c as [k|id|id v|id m]; cbn in *.
  - destruct (decide (Public k = pubKey)) as [<-|]; [by rewrite lookup_insert_eq|by rewrite lookup_insert_ne].
  - by rewrite lookup_delete_ne.
  - destruct (decide (id = pubKey)) as [->|]; [|by rewrite lookup_alter_ne].
    rewrite lookup_alter_eq. destruct Ht as [k ->]. by eexists.
  - destruct (decide (id = pubKey)) as [->|]; [|by rewrite lookup_alter_ne].
    rewrite lookup_alter_eq. destruct Ht as [k ->]. by eexists.
Qed.

Lemma requests_signed cs b b' :
  signed_inv b → Forall keeps_signer cs → foldM request b cs = Ok b' → signed_inv b'.
Proof using laws state_head pub_len sign_ok.
  intros Hi Hk Hf. refine (foldM_invariant request signed_inv keeps_signer _ cs b b' Hi Hk Hf).
  clear -state_head pub_len sign_ok laws. intros b c b' Hi Hk Hr.
  destruct (request_inv a b c b' (si_inv _ Hi) Hr) as (_ & _ & Ht).
  apply request_mkUpdate in Hr. eapply mkUpdate_signed; [done..| | |].
  - by destruct c.
  - destruct c; cbn; done.
  - rewrite Ht. apply change_keeps_trust; [done|apply Hi].
Qed.

Lemma checkpoint_signed b b' :
  signed_inv b → generateCheckpoint b a = Ok b' → signed_inv b'.
Proof using laws state_head pub_len sign_ok.
  intros Hi Hg. destruct (checkpoint_inv a b b' (si_inv _ Hi) Hg) as (_ & _ & Ht & _).
  apply bind_Ok in Hg as (st & _ & Hm). eapply mkUpdate_signed; [done..| | |]; try done.
  rewrite Ht. apply Hi.
Qed.

End Signed.

End Builder.

(** ** How far back the last checkpoint is *)
Section Checkpoints.
Context `{TkaCrypto}.

(** Among the [n] messages from [h] backwards there is a checkpoint, the genesis
    message, or the end of what is stored. *)
Inductive near_start (m : gmap AUMHash AUM) : nat → AUMHash → Prop :=
  | ns_missing n h : m !! h = None → near_start m (S n) h
  | ns_checkpoint n h u : m !! h = Some u → MessageKind u = AUMCheckpoint → near_start m (S n) h
  | ns_genesis n h u : m !! h = Some u → Parent u = None → near_start m (S n) h
  | ns_parent n h u p : m !! h = Some u → Parent u = Some p → near_start m n p →
                        near_start m (S n) h.

Lemma checkpointScan_near {Store} `{Chonk Store} `{!ChonkLaws Store} (storage : Store) n h :
  chonk_ok storage → checkpointScan storage n h = Ok false → near_start (contents storage) n h.
Proof.
  intros Hok. revert h. induction n as [|n IH]; intros h Hs; cbn in Hs; [done|].
  rewrite law_AUM in Hs by done. destruct (contents storage !! h) as [u|] eqn:Hu.
  - case_bool_decide; [by eapply ns_checkpoint|].
    destruct (Parent u) eqn:Hp; [by eapply ns_parent; eauto|by eapply ns_genesis].
  - by apply ns_missing.
Qed.

End Checkpoints.

(** ** Properties *)
Section Properties.
Context `{TkaCrypto} {laws : TkaCryptoLaws} {Store : Type} `{Chonk Store}.

(** C23. The builder makes exactly the requested changes: if the requests and
    [Finalize] succeed, the messages returned form a chain on the current head,
    each passes static validation, applying them to the current state succeeds,
    and the keys trusted afterwards are the old ones with the requested
    additions, removals and updates, whether or not a checkpoint was added. *)
Theorem builder_makes_requested_changes a signer b0 cs b (storage : Store) out :
  State_wf (state a) → LastAUMHash (state a) = Some (AUM_Hash (head a)) →
  NewUpdater a signer = Ok b0 → foldM request b0 cs = Ok b → Finalize b a storage = Ok out →
  linked (head a :: out) ∧ Forall AUM_valid out
  ∧ ∃ st', foldM applyVerifiedAUM (state a) out = Ok st'
      ∧ trust_of st' = foldl change_trust (trust_of (state a)) cs.
Proof.
  intros Hw Hl Hn Hf Hfin. destruct (NewUpdater_inv a signer b0 Hw Hl Hn) as (Hi0 & _ & E & _).
  destruct (requests_inv a cs b0 b Hi0 Hf) as (Hi & _ & Ht). rewrite E in Ht.
  destruct (Finalize_cases b a storage out Hfin) as [->|(b' & Hg & ->)].
  - destruct Hi. eauto.
  - destruct (checkpoint_inv a b b' Hi Hg) as ([? ? ? ? ?] & _ & Ht' & _).
    split_and!; [done..|]. eexists. split; [done|]. congruence.
Qed.

(** Updates signed by a trusted key pass verification: if the builder signs
    with a trusted key whose signatures verify, and the requests do not remove
    that key, then every message that [Finalize] returns passes [aumVerify]
    against the state before it, so that the chain is acceptable to every node. *)
Theorem builder_updates_verify a pubKey sign b0 cs b (storage : Store) out :
  State_wf (state a) → LastAUMHash (state a) = Some (AUM_Hash (head a)) →
  is_Some (t_keys (trust_of (state a)) !! pubKey) → length pubKey = 32%nat →
  (∀ h, ed25519consensus_Verify pubKey h (sign h) = true) →
  Forall (keeps_signer pubKey) cs →
  NewUpdater a (Some (key_signer pubKey sign)) = Ok b0 → foldM request b0 cs = Ok b →
  Finalize b a storage = Ok out →
  ∃ st', verified_run (state a) out st'.
Proof.
  intros Hw Hl Ht Hlen Hs Hk Hn Hf Hfin.
  destruct (NewUpdater_inv a _ b0 Hw Hl Hn) as (Hi0 & Hs0 & E & Eo).
  assert (signed_inv a pubKey sign b0) as Hsi0.
  { split; [done..|by rewrite E|]. rewrite Eo, E. constructor. }
  pose proof (requests_signed a pubKey sign Hl Hlen Hs cs b0 b Hsi0 Hk Hf) as Hsi.
  destruct (Finalize_cases b a storage out Hfin) as [->|(b' & Hg & ->)].
  - exists (b_state b). apply Hsi.
  - exists (b_state b'). eapply (checkpoint_signed a pubKey sign); eauto.
Qed.

(** Checkpoints are frequent: the chain that [Finalize] returns either ends
    with a checkpoint, or counting it and the messages before it there are fewer
    than 50 since a checkpoint or since the start of what is stored. *)
Theorem Finalize_bounds_replay `{!ChonkLaws Store} a b (storage : Store) out :
  chonk_ok storage → LastAUMHash (state a) = Some (AUM_Hash (head a)) →
  builder_inv a b → Finalize b a storage = Ok out →
  (∃ u, last out = Some u ∧ MessageKind u = AUMCheckpoint)
  ∨ near_start (contents storage) (checkpointEvery - length out) (AUM_Hash (head a)).
Proof.
  intros Hok Hl Hi Hfin. unfold Finalize, Authority_Head in Hfin. rewrite Hl in Hfin.
  cbn [mbind res_bind] in Hfin. apply bind_Ok in Hfin as (need & Hscan & Hfin).
  apply bind_Ok in Hfin as (b' & Hb & Hfin).
  assert (out = b_out b') as ->.
  { destruct (b_out b'); [by injection Hfin as <-|]. case_bool_decide; [done|]. by injection Hfin as <-. }
  destruct need.
  - left. apply wrapf_Ok in Hb. destruct (checkpoint_inv a b b' Hi Hb) as (_ & _ & _ & u & -> & ?).
    exists u. by rewrite last_snoc.
  - right. injection Hb as <-. by apply checkpointScan_near.
Qed.

End Properties.

(** ** The properties on a concrete authority *)

Definition changes : list change :=
  [ChAddKey key3; ChSetVote (pub 2) 5; ChRemoveKey (pub 2)].
Definition sign1 (h : bytes) : bytes := ed25519_Sign (pub 1) h.

Definition updater0 : UpdateBuilder :=
  Eval vm_compute in match NewUpdater auth0 None with Ok b => b | _ => mkUpdateBuilder None State_zero [] [] end.

Definition signed_updater : UpdateBuilder :=
  {| b_signer := Some (key_signer (pub 1) sign1); b_state := b_state updater0;
     b_parent := b_parent updater0; b_out := [] |}.

Definition built : UpdateBuilder :=
  match foldM request signed_updater changes with Ok b => b | _ => signed_updater end.

Lemma signed_updater_eq : NewUpdater auth0 (Some (key_signer (pub 1) sign1)) = Ok signed_updater.
Proof. reflexivity. Qed.

Lemma built_eq : foldM request signed_updater changes = Ok built.
Proof.
  unfold built. assert (is_ok (foldM request signed_updater changes) = true) as E by (by vm_compute).
  by destruct (foldM _ _ _).
Qed.

Lemma Finalize_eq : Finalize built auth0 store0 = Ok (b_out built).
Proof.
  assert (match Finalize built auth0 store0 with
          | Ok o => bool_decide (o = b_out built) | _ => false end = true) as E by (by vm_compute).
  destruct (Finalize _ _ _); try done. by apply bool_decide_eq_true in E as ->.
Qed.

Lemma auth0_head : LastAUMHash (state auth0) = Some (AUM_Hash (head auth0)).
Proof. by vm_compute. Qed.

Lemma toy_sign1 h : ed25519consensus_Verify (pub 1) h (sign1 h) = true.
Proof. unfold sign1. cbn. unfold verify. by apply bool_decide_eq_true. Qed.

Lemma signer_trusted : is_Some (t_keys (trust_of (state auth0)) !! pub 1).
Proof. exists key1. by vm_compute. Qed.

Lemma changes_keep : Forall (keeps_signer (pub 1)) changes.
Proof. by repeat constructor. Qed.

Lemma built_inv : builder_inv auth0 built.
Proof.
  destruct (NewUpdater_inv auth0 _ signed_updater stateG_wf auth0_head signed_updater_eq) as (Hi & _).
  by apply (requests_inv auth0 changes signed_updater).
Qed.

Lemma builder_makes_requested_changes_witness :
  ∃ st', foldM applyVerifiedAUM (state auth0) (b_out built) = Ok st'
         ∧ trust_of st' = foldl change_trust (trust_of (state auth0)) changes.
Proof.
  exact (proj2 (proj2 (builder_makes_requested_changes auth0 _ signed_updater changes built store0
           (b_out built) stateG_wf auth0_head signed_updater_eq built_eq Finalize_eq))).
Defined.

Lemma builder_updates_verify_witness :
  length (b_out built) = 3%nat ∧ ∃ st', verified_run (state auth0) (b_out built) st'.
Proof.
  split; [by vm_compute|].
  exact (builder_updates_verify auth0 (pub 1) sign1 signed_updater changes built store0
           (b_out built) stateG_wf auth0_head signer_trusted eq_refl toy_sign1 changes_keep
           signed_updater_eq built_eq Finalize_eq).
Defined.

Lemma Finalize_bounds_replay_witness :
  (∃ u, last (b_out built) = Some u ∧ MessageKind u = AUMCheckpoint)
  ∨ near_start (aums store0) (checkpointEvery - length (b_out built)) (AUM_Hash (head auth0)).
Proof.
  exact (Finalize_bounds_replay auth0 built store0 (b_out built) (proj1 store0_valid) auth0_head
           built_inv Finalize_eq).
Defined.
