(* ===== verification/TkaSync.v ===== *)
(** * Tailnet key authority: synchronisation

    Models [src/tka/sync.go]: the offer a node sends, how the other side finds
    where the two chains meet, and which messages it sends back.  The theorems
    show that an offer describes the node's own chain in a handful of hashes,
    and that the messages sent are exactly the sender's active chain after a
    message that the receiver said it has. *)

From S2P Require Import Prelude TkaTypes TkaFixtures TkaState TkaFork TkaChonk TkaAuthority.
From S2P Require Import TkaReplay TkaRoots TkaScenario TkaInform.

Section Sync.
Context `{TkaCrypto} {Store : Type} `{Chonk Store}.

(** ** Operations *)

Record SyncOffer_t := mkSyncOffer {
  so_Head : AUMHash;
  Ancestors : list AUMHash
}.

Definition ancestorsSkipStart : Z := 4.
Definition ancestorsSkipShift : Z := 2.

(** [copy(curs[:], src)] *)
Definition copy_into (curs src : bytes) : bytes :=
  take (length curs) src ++ drop (length src) curs.

(** The loop of [SyncOffer]: iteration [i], [n] of them left.  [skipAmount] is a
    [uint64]. *)
Fixpoint offerLoop (storage : Store) (oldest : AUMHash) (n : nat) (i skipAmount : Z)
    (curs : AUMHash) (out : list AUMHash) : res (list AUMHash) :=
  match n with
  | O => Ok out
  | S n =>
      let here := (0 <? i) && (i mod skipAmount =? 0) in
      let out := if here then out ++ [curs] else out in
      let skipAmount := if here then u64 (Z.shiftl skipAmount ancestorsSkipShift) else skipAmount in
      match chonk_AUM storage curs with
      | Err e => if bool_decide (e = ErrNotExist) then Ok out else Err e
      | Ok parent =>
          if bool_decide (AUM_Hash parent = oldest) then Ok out
          else offerLoop storage oldest n (i + 1) skipAmount
                 (copy_into curs (opt_bytes (PrevAUMHash parent))) out
      | Panic => Panic
      | NoFuel => NoFuel
      end
  end.

Definition SyncOffer (a : Authority) (storage : Store) : res SyncOffer_t :=
  let oldest := AUM_Hash (oldestAncestor a) in
  h ← Authority_Head a;
  ancestors ← offerLoop storage oldest maxSyncHeadIntersectionIter 0 ancestorsSkipStart h [];
  Ok {| so_Head := h; Ancestors := ancestors ++ [oldest] |}.

Record intersection := mkIntersection {
  upToDate : bool;
  headIntersection : option AUMHash;
  tailIntersection : option AUMHash
}.

(** Walks back from [curs] looking for [want]: whether it was found. *)
Fixpoint headLoop (storage : Store) (want : AUMHash) (n : nat) (curs : AUMHash) : res bool :=
  match n with
  | O => Ok false
  | S n =>
      match chonk_AUM storage curs with
      | Err e => if bool_decide (e = ErrNotExist) then Ok false else Err e
      | Ok parent =>
          if bool_decide (AUM_Hash parent = want) then Ok true
          else headLoop storage want n (copy_into curs (opt_bytes (PrevAUMHash parent)))
      | Panic => Panic
      | NoFuel => NoFuel
      end
  end.

Fixpoint tailLoop (storage : Store) (localHead : AUMHash) (ancestors : list AUMHash)
    : res (option AUMHash) :=
  match ancestors with
  | [] => Ok None
  | a :: ancestors =>
      match computeStateAt storage maxSyncIter a with
      | Err e => if bool_decide (e = ErrNotExist) then tailLoop storage localHead ancestors
                 else Err (Errorf "computeStateAt")
      | Ok st =>
          '(last, _, _) ← fastForward storage maxSyncIter st
                            (done_at (λ curs, bool_decide (AUM_Hash curs = localHead))) tt;
          if bool_decide (AUM_Hash last = localHead) then Ok (Some a)
          else tailLoop storage localHead ancestors
      | Panic => Panic
      | NoFuel => NoFuel
      end
  end.

Definition computeSyncIntersection (storage : Store) (localOffer remoteOffer : SyncOffer_t)
    : res intersection :=
  if bool_decide (so_Head remoteOffer = so_Head localOffer)
  then Ok {| upToDate := true; headIntersection := Some (so_Head localOffer);
             tailIntersection := None |}
  else
    hasRemoteHead ← match chonk_AUM storage (so_Head remoteOffer) with
                    | Err e => if bool_decide (e = ErrNotExist) then Ok false else Err e
                    | Ok _ => Ok true
                    | Panic => Panic
                    | NoFuel => NoFuel
                    end;
    found ← (if (hasRemoteHead : bool)
             then headLoop storage (so_Head remoteOffer) maxSyncHeadIntersectionIter
                    (so_Head localOffer)
             else Ok false);
    if (found : bool) then
      Ok {| upToDate := false; headIntersection := Some (so_Head remoteOffer);
            tailIntersection := None |}
    else
      t ← tailLoop storage (so_Head localOffer) (Ancestors remoteOffer);
      match t with
      | Some a => Ok {| upToDate := false; headIntersection := None; tailIntersection := Some a |}
      | None => Err ErrNoIntersection
      end.

(** The termination function of [MissingAUMs]: never stops, and collects. *)
Definition collectFrom (from : AUMHash) (out : list AUM) (curs : AUM) (_ : State) : bool * list AUM :=
  (false, if bool_decide (AUM_Hash curs ≠ from) then out ++ [curs] else out).

Definition missingSince (storage : Store) (from : AUMHash) : res (list AUM) :=
  st ← computeStateAt storage maxSyncIter from;
  '(_, _, out) ← fastForward storage maxSyncIter st (collectFrom from) [];
  Ok out.

Definition MissingAUMs (a : Authority) (storage : Store) (remoteOffer : SyncOffer_t)
    : res (list AUM) :=
  localOffer ← wrapf "local syncOffer" (SyncOffer a storage);
  i ← wrapf "intersection" (computeSyncIntersection storage localOffer remoteOffer);
  if upToDate i then Ok []
  else
    match headIntersection i, tailIntersection i with
    | Some h, _ => missingSince storage h
    | None, Some h => missingSince storage h
    | None, None => Panic
    end.

End Sync.

(** ** Collecting the active chain *)
Section SyncSpec.
Context `{TkaCrypto} {Store : Type} `{Chonk Store} `{!ChonkLaws Store}.

Lemma linked_cons2 a b l : linked (a :: b :: l) ↔ Parent b = Some (AUM_Hash a) ∧ linked (b :: l).
Proof.
  split.
  - intros Hl. split; [by apply (Hl 0%nat)|]. intros i x y. apply (Hl (S i)).
  - intros [Hp Hl] [|i] x y Hx Hy; cbn in Hx, Hy; [congruence|]. by apply (Hl i).
Qed.

Lemma fastForward_collect (storage : Store) from iters curs st out c' st' out' :
  store_valid storage → State_wf st →
  fastForward_loop storage advanceByPrimary (collectFrom from) iters curs st out
    = Ok (c', st', out') →
  ∃ path, out' = out ++ filter (λ u, AUM_Hash u ≠ from) (curs :: path)
    ∧ linked (curs :: path) ∧ Forall (stored_in (contents storage)) path
    ∧ foldM applyVerifiedAUM st path = Ok st' ∧ c' = hist_top curs path
    ∧ follows (contents storage) curs st c' st'.
Proof.
  intros Hv. revert curs st out. induction iters as [|iters IH]; intros curs st out Hw Hf; [done|].
  cbn in Hf. apply bind_Ok in Hf as (cs & Hcs & Hf). apply wrapf_Ok in Hcs.
  apply bind_Ok in Hf as ([next st1] & Ha & Hf). apply wrapf_Ok in Ha.
  apply (advanceByPrimary_best storage curs) in Ha; [|done..].
  assert (∀ l, (if bool_decide (AUM_Hash curs ≠ from) then out ++ [curs] else out)
               ++ filter (λ u, AUM_Hash u ≠ from) l
               = out ++ filter (λ u, AUM_Hash u ≠ from) (curs :: l)) as Hout.
  { intros l. rewrite filter_cons. case_bool_decide as E.
    - rewrite decide_True by done. by rewrite <- app_assoc.
    - by rewrite decide_False by (intros Hx; by apply Hx). }
  destruct next as [a|].
  - destruct Ha as (Hc & Ha & Hb).
    destruct (apply_Ok st a st1) as (_ & Hw1 & _); [done|by apply Hv, Hc|done|].
    apply IH in Hf as (path & -> & Hl & Hs & Hfold & -> & Hfol); [|done].
    exists (a :: path). rewrite Hout. split_and!; try done.
    + apply linked_cons2. by destruct Hc.
    + constructor; [apply Hc|done].
    + cbn. by rewrite Ha.
    + unfold hist_top. rewrite last_cons. by destruct (last path).
    + by eapply follows_step.
  - destruct Ha as [-> Hn]. injection Hf as <- <- <-. exists []. rewrite <- Hout, app_nil_r.
    split_and!; try done. by apply follows_end.
Qed.

(** No message of a path of an acyclic store has the hash of the first one. *)
Lemma path_leaves_start m base path :
  keyed m → acyclic m → stored_in m base → Forall (stored_in m) path → linked (base :: path) →
  filter (λ u, AUM_Hash u ≠ AUM_Hash base) (base :: path) = path.
Proof.
  intros Hk [rank Hrank] Hb Hs Hl. rewrite filter_cons_False by (intros Hx; by apply Hx).
  apply filter_all. intros u Hu E.
  assert (u = base) as ->.
  { eapply Forall_forall in Hs as [h Hh]; [|exact Hu]. destruct Hb as [h' Hh'].
    pose proof (Hk _ _ Hh). pose proof (Hk _ _ Hh'). congruence. }
  apply list_elem_of_lookup in Hu as [i Hi].
  pose proof (linked_rank m rank (base :: path) 0 (S i) base base Hrank ltac:(by constructor) Hl
                eq_refl Hi). lia.
Qed.

Lemma missingSince_spec (storage : Store) from out :
  store_valid storage → acyclic (contents storage) → missingSince storage from = Ok out →
  ∃ base st st', AUM_Hash base = from ∧ stored_in (contents storage) base
    ∧ state_at (contents storage) from st ∧ linked (base :: out)
    ∧ foldM applyVerifiedAUM st out = Ok st'
    ∧ follows (contents storage) base st (hist_top base out) st'.
Proof.
  intros Hv Hac Hm. unfold missingSince in Hm. apply bind_Ok in Hm as (st & Hst & Hm).
  apply bind_Ok in Hm as ([[c' st'] o] & Hf & Hm). injection Hm as <-.
  pose proof (computeStateAt_state_at storage _ _ _ (proj1 Hv) Hac Hst) as Hat.
  pose proof (state_at_wf _ _ _ (proj2 Hv) Hat) as Hw.
  unfold fastForward, fastForwardWithAdvancer in Hf. rewrite (state_at_last _ _ _ Hat) in Hf.
  apply bind_Ok in Hf as (base & Hb & Hf). apply wrapf_Ok in Hb.
  apply chonk_AUM_hash in Hb as [<- Hs]; [|apply Hv].
  apply fastForward_collect in Hf as (path & -> & Hl & Hps & Hfold & -> & Hfol); [|done..].
  assert (keyed (contents storage)) as Hk by (intros h u; apply law_keyed, Hv).
  cbn [app]. rewrite (path_leaves_start (contents storage)) by done.
  exists base, st, st'. by split_and!.
Qed.

(** ** The intersection is a message the remote named *)

Lemma tailLoop_mem (storage : Store) h l a : tailLoop storage h l = Ok (Some a) → a ∈ l.
Proof.
  induction l as [|x l IH]; cbn; [done|]. intros Ht. apply elem_of_cons.
  destruct (computeStateAt storage maxSyncIter x) as [st|e| |]; try done.
  - apply bind_Ok in Ht as ([[c s] u] & _ & Ht). case_bool_decide; [left; congruence|auto].
  - case_bool_decide; [auto|done].
Qed.

Lemma intersection_named (storage : Store) local remote i :
  computeSyncIntersection storage local remote = Ok i →
  upToDate i = true ∧ so_Head remote = so_Head local
  ∨ upToDate i = false ∧ headIntersection i = Some (so_Head remote)
  ∨ upToDate i = false ∧ headIntersection i = None
    ∧ ∃ a, tailIntersection i = Some a ∧ a ∈ Ancestors remote.
Proof.
  unfold computeSyncIntersection. intros Hi. case_bool_decide.
  { injection Hi as <-. by left. }
  apply bind_Ok in Hi as (has & _ & Hi). apply bind_Ok in Hi as (found & _ & Hi). destruct found.
  { injection Hi as <-. right; by left. }
  apply bind_Ok in Hi as (t & Ht & Hi). destruct t as [a|]; [|done]. injection Hi as <-.
  right; right. split_and!; [done..|]. exists a. split; [done|]. by eapply tailLoop_mem.
Qed.

(** ** The offer *)

(** [h'] is reached from [h] by following parents. *)
Inductive back (m : gmap AUMHash AUM) : AUMHash → AUMHash → Prop :=
  | back_refl h : back m h h
  | back_step h u p h' : m !! h = Some u → Parent u = Some p → back m p h' → back m h h'.

Lemma back_snoc m h h1 u p : back m h h1 → m !! h1 = Some u → Parent u = Some p → back m h p.
Proof. induction 1; intros; eauto using back. Qed.

(** Parent hashes are whole. *)
Definition prev_wf (m : gmap AUMHash AUM) : Prop :=
  ∀ u, stored_in m u → PrevAUMHash u = None ∨ ∃ h, PrevAUMHash u = Some h ∧ length h = 32%nat.

Lemma copy_into_back m h h1 u :
  prev_wf m → length h1 = 32%nat → back m h h1 → m !! h1 = Some u →
  length (copy_into h1 (opt_bytes (PrevAUMHash u))) = 32%nat
  ∧ back m h (copy_into h1 (opt_bytes (PrevAUMHash u))).
Proof.
  intros Hpw Hl Hb Hu. destruct (Hpw u) as [E|(p & E & Hp)]; [by exists h1|..].
  - rewrite E. unfold copy_into. cbn. by rewrite take_nil, drop_0.
  - rewrite E. change (opt_bytes (Some p)) with p. unfold copy_into. rewrite Hl, Hp, drop_ge by lia.
    rewrite take_ge, app_nil_r by lia. split; [done|]. eapply back_snoc; [done..|].
    unfold Parent. rewrite E. destruct p as [|x p]; [done|]. by rewrite copy_array_id.
Qed.

Lemma offerLoop_back (storage : Store) oldest head_ : ∀ n i skip curs out out',
  chonk_ok storage → prev_wf (contents storage) → length curs = 32%nat →
  back (contents storage) head_ curs → Forall (back (contents storage) head_) out →
  offerLoop storage oldest n i skip curs out = Ok out' → Forall (back (contents storage) head_) out'.
Proof.
  induction n as [|n IH]; intros i skip curs out out' Hok Hpw Hl Hb Ho Hf; cbn [offerLoop] in Hf.
  { by injection Hf as <-. }
  set (here := (0 <? i) && (i mod skip =? 0)) in Hf.
  assert (Forall (back (contents storage) head_) (if here then out ++ [curs] else out)) as Ho'.
  { destruct here; [|done]. apply Forall_app. by split; [|constructor]. }
  rewrite law_AUM in Hf by done. destruct (contents storage !! curs) as [u|] eqn:Hu.
  - case_bool_decide; [by injection Hf as <-|].
    destruct (copy_into_back _ _ _ _ Hpw Hl Hb Hu). eapply IH; try done.
  - by injection Hf as <-.
Qed.

(** How many iterations record an ancestor, whatever is stored. *)
Fixpoint recorded (n : nat) (i skip : Z) : nat :=
  match n with
  | O => 0%nat
  | S n =>
      let here := (0 <? i) && (i mod skip =? 0) in
      ((if here then 1 else 0)
       + recorded n (i + 1) (if here then u64 (Z.shiftl skip ancestorsSkipShift) else skip))%nat
  end.

Lemma offerLoop_length (storage : Store) oldest n : ∀ i skip curs out out',
  offerLoop storage oldest n i skip curs out = Ok out' →
  (length out' <= length out + recorded n i skip)%nat.
Proof.
  induction n as [|n IH]; intros i skip curs out out' Hf; cbn [offerLoop recorded] in *.
  { injection Hf as <-. lia. }
  set (here := (0 <? i) && (i mod skip =? 0)) in *.
  assert (length (if here then out ++ [curs] else out)
          = length out + if here then 1 else 0)%nat as Hlen.
  { destruct here; rewrite ?length_app; cbn; lia. }
  destruct (chonk_AUM storage curs) as [u|e| |]; try done.
  - case_bool_decide; [injection Hf as <-; lia|]. apply IH in Hf. lia.
  - case_bool_decide; [injection Hf as <-; lia|done].
Qed.

Lemma recorded_4 : recorded maxSyncHeadIntersectionIter 0 ancestorsSkipStart = 4%nat.
Proof. by vm_compute. Qed.

Lemma SyncOffer_Ok (a : Authority) (storage : Store) o :
  LastAUMHash (state a) = Some (AUM_Hash (head a)) → SyncOffer a storage = Ok o →
  ∃ l, offerLoop storage (AUM_Hash (oldestAncestor a)) maxSyncHeadIntersectionIter 0
         ancestorsSkipStart (AUM_Hash (head a)) [] = Ok l
       ∧ o = {| so_Head := AUM_Hash (head a); Ancestors := l ++ [AUM_Hash (oldestAncestor a)] |}.
Proof.
  intros Hl. unfold SyncOffer, Authority_Head. rewrite Hl.
  generalize maxSyncHeadIntersectionIter. intros n (h & Hh & Ho)%bind_Ok. injection Hh as <-.
  apply bind_Ok in Ho as (l & Hf & Ho). injection Ho as <-. by exists l.
Qed.

End SyncSpec.

(** ** Properties *)
Section Properties.
Context `{TkaCrypto} {laws : TkaCryptoLaws} {Store : Type} `{Chonk Store} `{!ChonkLaws Store}.

(** An offer describes the node's own chain in at most five hashes: its
    head is the authority's head, every ancestor but the last is reached from it
    by following parents, and the last is the oldest known message. *)
Theorem SyncOffer_describes_chain (a : Authority) (storage : Store) o :
  chonk_ok storage → prev_wf (contents storage) →
  LastAUMHash (state a) = Some (AUM_Hash (head a)) → SyncOffer a storage = Ok o →
  so_Head o = AUM_Hash (head a)
  ∧ (length (Ancestors o) <= 5)%nat
  ∧ ∃ l, Ancestors o = l ++ [AUM_Hash (oldestAncestor a)]
         ∧ Forall (back (contents storage) (so_Head o)) l.
Proof.
  intros Hok Hpw Hl Ho. destruct (SyncOffer_Ok a storage o Hl Ho) as (l & Hf & ->).
  pose proof (offerLoop_length _ _ _ _ _ _ _ _ Hf) as Hlen. rewrite recorded_4 in Hlen.
  split; [reflexivity|]. split; [cbn [Ancestors length] in *; rewrite length_app; cbn [length]; lia|].
  exists l. split; [reflexivity|]. eapply offerLoop_back;
    [exact Hok|exact Hpw| |apply back_refl|apply Forall_nil; exact I|exact Hf]. apply Sum256_length.
Qed.

(** What [MissingAUMs] sends: nothing when the heads are equal; otherwise
    the sender's active chain after a message that the remote named in its offer
    (its head or one of its ancestors), oldest first, each message the child of
    the one before, ending where the active chain ends, so that a receiver that
    has the named message and its state can apply them in order. *)
Theorem MissingAUMs_sends_active_chain (a : Authority) (storage : Store) offer out :
  store_valid storage → acyclic (contents storage) →
  LastAUMHash (state a) = Some (AUM_Hash (head a)) → MissingAUMs a storage offer = Ok out →
  so_Head offer = AUM_Hash (head a) ∧ out = []
  ∨ ∃ base st st',
      (AUM_Hash base = so_Head offer ∨ AUM_Hash base ∈ Ancestors offer)
      ∧ stored_in (contents storage) base ∧ state_at (contents storage) (AUM_Hash base) st
      ∧ linked (base :: out) ∧ foldM applyVerifiedAUM st out = Ok st'
      ∧ follows (contents storage) base st (hist_top base out) st'.
Proof.
  intros Hv Hac Hl Hm. unfold MissingAUMs in Hm. apply bind_Ok in Hm as (o & Ho & Hm).
  apply wrapf_Ok in Ho. apply bind_Ok in Hm as (i & Hi & Hm). apply wrapf_Ok in Hi.
  assert (so_Head o = AUM_Hash (head a)) as Hhead.
  { by destruct (SyncOffer_Ok a storage o Hl Ho) as (l & _ & ->). }
  destruct (intersection_named _ _ _ _ Hi) as [[E1 E2]|[[E1 E2]|(E1 & E2 & x & E3 & Hx)]];
    rewrite E1 in Hm.
  - injection Hm as <-. left. by rewrite E2, Hhead.
  - right. rewrite E2 in Hm. apply missingSince_spec in Hm as (base & st & st' & <- & ?); [|done..].
    exists base, st, st'. tauto.
  - right. rewrite E2, E3 in Hm.
    apply missingSince_spec in Hm as (base & st & st' & <- & ?); [|done..].
    exists base, st, st'. tauto.
Qed.

End Properties.

(** ** The properties on a concrete store *)

Lemma store3_prev : prev_wf (aums store3).
Proof.
  intros u Hu. unfold store3 in Hu. rewrite (proj2 (store_of_spec messages _ messages_free)) in Hu.
  apply commit_all_from in Hu as [?%stored_empty|Hu]; [done|]. unfold messages in Hu.
  rewrite !elem_of_cons, elem_of_nil in Hu. destruct Hu as [->|[->|[->|[->|[]]]]]; [by left|right..].
  - exists hash0. by vm_compute.
  - exists hash1. by vm_compute.
  - exists hash1. by vm_compute.
Qed.

Lemma auth2_head : LastAUMHash (state auth2) = Some (AUM_Hash (head auth2)).
Proof. by vm_compute. Qed.

Definition offer2 : SyncOffer_t :=
  Eval vm_compute in match SyncOffer auth2 store3 with Ok o => o | _ => mkSyncOffer [] [] end.

Lemma SyncOffer_describes_chain_witness :
  so_Head offer2 = hash2 ∧ (length (Ancestors offer2) <= 5)%nat.
Proof.
  destruct (SyncOffer_describes_chain auth2 store3 offer2 (proj1 store3_valid) store3_prev auth2_head)
    as (E & Hl & _); [by vm_compute|]. split; [by rewrite E; vm_compute|exact Hl].
Defined.

(** A remote that is still at the genesis message. *)
Definition offer0 : SyncOffer_t := mkSyncOffer hash0 [hash0].

Lemma MissingAUMs_sends_active_chain_witness :
  so_Head offer0 = AUM_Hash (head auth2) ∧ [aum1; aum2] = []
  ∨ ∃ base st st',
      (AUM_Hash base = so_Head offer0 ∨ AUM_Hash base ∈ Ancestors offer0)
      ∧ stored_in (aums store3) base ∧ state_at (aums store3) (AUM_Hash base) st
      ∧ linked [base; aum1; aum2] ∧ foldM applyVerifiedAUM st [aum1; aum2] = Ok st'
      ∧ follows (aums store3) base st (hist_top base [aum1; aum2]) st'.
Proof.
  apply (MissingAUMs_sends_active_chain auth2 store3 offer0 [aum1; aum2] store3_valid store3_acyclic
           auth2_head).
  by vm_compute.
Defined.
