(* ===== verification/TkaCompact.v ===== *)
(** * Tailnet key authority: compaction

    Models the compaction of [src/tka/tailchonk.go] ([markActiveChain],
    [markYoungAUMs], [markAncestorIntersectionAUMs], [markDescendantAUMs],
    [Compact]) and [Authority.Compact] of [src/tka/tka.go].  The theorems show
    that compaction terminates, that it never deletes the messages that
    determine the state at the head, nor a young one, and that what it keeps is
    closed under children. *)

From S2P Require Import Prelude TkaTypes TkaFixtures TkaState TkaFork TkaChonk TkaAuthority.
From S2P Require Import TkaReplay TkaRoots TkaScenario TkaInform.

Record CompactionOptions := mkCompactionOptions {
  MinChain : Z;
  MinAge : Z
}.

(** [CompactionDefaults] (limits.go), the age in nanoseconds. *)
Definition CompactionDefaults : CompactionOptions :=
  {| MinChain := 24; MinAge := 14 * 24 * 3600 * 10 ^ 9 |}.

(** ** Flags: [retainState] is a [uint8] *)
Definition retainStateActive : Z := 1.
Definition retainStateYoung : Z := 2.
Definition retainStateLeaf : Z := 4.
Definition retainStateAncestor : Z := 8.
Definition retainStateCandidate : Z := 16.
Definition retainAUMMask : Z := 15.

Abbreviation Verdict := (gmap AUMHash Z).

Definition flags (v : Verdict) (h : AUMHash) : Z := default 0 (v !! h).

(** [verdict[h] |= flag] *)
Definition mark (flag : Z) (h : AUMHash) (v : Verdict) : Verdict :=
  <[h := Z.lor (flags v h) flag]> v.

(** [verdict[h] & flag != 0] *)
Definition has (flag : Z) (v : Verdict) (h : AUMHash) : bool := negb (Z.land (flags v h) flag =? 0).

Section Compact.
Context `{TkaCrypto} {Store : Type} `{Chonk Store}.

(** The order in which [range] lists the keys of a map. *)
Context (rangeKeys : Verdict → list AUMHash).

(** ** Marking the active chain *)

(** [for i := range minChain]: [inl] is an early return, [inr] where it got to. *)
Fixpoint activeLoop (storage : Store) (n : nat) (v : Verdict) (next : AUM)
    : res (Verdict * (AUMHash + AUM)) :=
  match n with
  | O => Ok (v, inr next)
  | S n =>
      let h := AUM_Hash next in
      let v := mark retainStateActive h v in
      match Parent next with
      | None => Ok (v, inl h)
      | Some parent =>
          match chonk_AUM storage parent with
          | Err e => if bool_decide (e = ErrNotExist) then Ok (v, inl h)
                     else Err (Errorf "reading active chain (retainStateActive)")
          | Ok next => activeLoop storage n v next
          | Panic => Panic
          | NoFuel => NoFuel
          end
      end
  end.

(** The search for a checkpoint to compact to.  A message without a parent that
    is not a checkpoint makes the code look up the zero hash. *)
Fixpoint targetLoop (storage : Store) (fuel : nat) (v : Verdict) (next : AUM)
    : res (Verdict * AUM) :=
  match fuel with
  | O => NoFuel
  | S fuel =>
      let h := AUM_Hash next in
      let v := mark retainStateActive h v in
      let isYoung := has retainStateYoung v h in
      if bool_decide (MessageKind next = AUMCheckpoint)
         && (negb isYoung || bool_decide (Parent next = None))
      then Ok (v, next)
      else
        next ← wrapf "searching for compaction target"
                 (chonk_AUM storage (default (replicate 32 0) (Parent next)));
        targetLoop storage fuel v next
  end.

(** Marks the remaining ancestors as candidates. *)
Fixpoint candidateLoop (storage : Store) (fuel : nat) (v : Verdict) (next : AUM) : res Verdict :=
  match fuel with
  | O => NoFuel
  | S fuel =>
      match Parent next with
      | None => Ok v
      | Some parent =>
          let v := mark retainStateCandidate parent v in
          match chonk_AUM storage parent with
          | Err e => if bool_decide (e = ErrNotExist) then Ok v
                     else Err (Errorf "reading active chain (retainStateCandidate)")
          | Ok next => candidateLoop storage fuel v next
          | Panic => Panic
          | NoFuel => NoFuel
          end
      end
  end.

Definition markActiveChain (storage : Store) (fuel : nat) (v : Verdict) (minChain : Z)
    (head : AUMHash) : res (Verdict * AUMHash) :=
  next ← chonk_AUM storage head;
  '(v, r) ← activeLoop storage (Z.to_nat minChain) v next;
  match r with
  | inl h => Ok (v, h)
  | inr next =>
      '(v, next) ← targetLoop storage fuel v next;
      v ← candidateLoop storage fuel v next;
      Ok (v, AUM_Hash next)
  end.

(** ** Marking young messages *)

(** [now] is [time.Now()]. *)
Definition youngStep (storage : Store) (minTime : Z) (v : Verdict) (h : AUMHash) : res Verdict :=
  commitTime ← CommitTime storage h;
  Ok (if minTime <? commitTime then mark retainStateYoung h v else v).

Definition markYoungAUMs (storage : Store) (now : Z) (v : Verdict) (minAge : Z) : res Verdict :=
  let minTime := now - minAge in
  foldM (youngStep storage minTime) v (rangeKeys v).

(** ** Marking descendants *)

(** One pass over [toScan]; collects [nextIterScan]. *)
Definition descendantPass (storage : Store) (vs : Verdict * list AUMHash) (h : AUMHash)
    : res (Verdict * list AUMHash) :=
  let '(v, nextIterScan) := vs in
  if has retainStateLeaf v h then Ok (v, nextIterScan)
  else
    let v := mark retainStateLeaf h v in
    children ← ChildAUMs storage h;
    Ok (v, nextIterScan ++ map AUM_Hash children).

Fixpoint descendantLoop (storage : Store) (fuel : nat) (v : Verdict) (toScan : list AUMHash)
    : res Verdict :=
  match fuel with
  | O => NoFuel
  | S fuel =>
      match toScan with
      | [] => Ok v
      | _ =>
          '(v, nextIterScan) ← foldM (descendantPass storage) (v, []) toScan;
          descendantLoop storage fuel v nextIterScan
      end
  end.

Definition markDescendantAUMs (storage : Store) (fuel : nat) (v : Verdict) : res Verdict :=
  descendantLoop storage fuel v (filter (λ h, has retainAUMMask v h = true) (rangeKeys v)).

(** ** Marking up to the candidate ancestor *)

(** [childLoop]: down the active chain to the old candidate. *)
Fixpoint childLoop (storage : Store) (fuel : nat) (v : Verdict) (next : AUMHash) : res Verdict :=
  match fuel with
  | O => NoFuel
  | S fuel =>
      children ← wrapf "reading children" (ChildAUMs storage next);
      match List.find (λ h, has retainStateCandidate v h && negb (has retainStateActive v h))
              (map AUM_Hash children) with
      | Some h => childLoop storage fuel (mark retainStateAncestor h v) h
      | None => Ok v
      end
  end.

Record AncestorVars := mkAncestorVars {
  av_verdict : Verdict;
  av_candidate : AUMHash;
  av_adjusted : bool;
  av_next : list AUMHash
}.

(** The body of the loop over [toScan]. *)
Definition ancestorPass (storage : Store) (fuel : nat) (s : AncestorVars) (h : AUMHash)
    : res AncestorVars :=
  let v := av_verdict s in
  if has retainStateAncestor v h then Ok s
  else
    let v := mark retainStateAncestor h v in
    a ← wrapf "reading" (chonk_AUM storage h);
    match Parent a with
    | None => Err (Errorf "reached genesis AUM without intersecting with candidate ancestor")
    | Some parent =>
        if has retainAUMMask v parent then
          Ok {| av_verdict := v; av_candidate := av_candidate s; av_adjusted := av_adjusted s;
                av_next := av_next s |}
        else if has retainStateCandidate v parent then
          v ← childLoop storage fuel (mark retainStateAncestor parent v) parent;
          Ok {| av_verdict := v; av_candidate := parent; av_adjusted := true;
                av_next := av_next s ++ [parent] |}
        else
          Ok {| av_verdict := v; av_candidate := av_candidate s; av_adjusted := av_adjusted s;
                av_next := av_next s ++ [parent] |}
    end.

Fixpoint ancestorLoop (storage : Store) (fuel : nat) (s : AncestorVars) (toScan : list AUMHash)
    : res AncestorVars :=
  match fuel with
  | O => NoFuel
  | S fuel' =>
      match toScan with
      | [] => Ok s
      | _ =>
          s ← foldM (ancestorPass storage fuel)
                {| av_verdict := av_verdict s; av_candidate := av_candidate s;
                   av_adjusted := av_adjusted s; av_next := [] |} toScan;
          ancestorLoop storage fuel' s (av_next s)
      end
  end.

(** The final search for a checkpoint, from an adjusted candidate. *)
Fixpoint adjustLoop (storage : Store) (fuel : nat) (v : Verdict) (next : AUM)
    : res (Verdict * AUMHash) :=
  match fuel with
  | O => NoFuel
  | S fuel =>
      let h := AUM_Hash next in
      let v := mark retainStateActive h v in
      if bool_decide (MessageKind next = AUMCheckpoint) then Ok (v, h)
      else
        match Parent next with
        | None => Err (Errorf "reached genesis AUM without finding an appropriate candidateAncestor")
        | Some parent =>
            next ← wrapf "searching for compaction target" (chonk_AUM storage parent);
            adjustLoop storage fuel v next
        end
  end.

Definition markAncestorIntersectionAUMs (storage : Store) (fuel : nat) (v : Verdict)
    (candidateAncestor : AUMHash) : res (Verdict * AUMHash) :=
  let toScan := filter (λ h, has retainAUMMask v h = true ∧ h ≠ candidateAncestor) (rangeKeys v) in
  s ← ancestorLoop storage fuel
        {| av_verdict := v; av_candidate := candidateAncestor; av_adjusted := false;
           av_next := [] |} toScan;
  if av_adjusted s then
    next ← wrapf "searching for compaction target" (chonk_AUM storage (av_candidate s));
    adjustLoop storage fuel (av_verdict s) next
  else Ok (av_verdict s, av_candidate s).

(** ** Compaction *)

(** [verdict[h] = 0] for every stored hash. *)
Definition initialVerdict (all : list AUMHash) : Verdict := foldl (λ v h, <[h := 0]> v) ∅ all.

Definition computeVerdict (storage : Store) (fuel : nat) (now : Z) (head : AUMHash)
    (opts : CompactionOptions) : res (Verdict * AUMHash) :=
  all ← wrapf "AllAUMs" (AllAUMs storage);
  v ← wrapf "marking young AUMs" (markYoungAUMs storage now (initialVerdict all) (MinAge opts));
  '(v, lastActiveAncestor) ← wrapf "marking active chain"
        (markActiveChain storage fuel v (MinChain opts) head);
  v ← wrapf "marking descendant AUMs" (markDescendantAUMs storage fuel v);
  wrapf "marking ancestor intersection"
    (markAncestorIntersectionAUMs storage fuel v lastActiveAncestor).

Definition Compact (storage : Store) (fuel : nat) (now : Z) (head : AUMHash)
    (opts : CompactionOptions) : res (Store * AUMHash) :=
  if MinChain opts =? 0 then Err (Errorf "opts.MinChain must be set")
  else if MinAge opts =? 0 then Err (Errorf "opts.MinAge must be set")
  else
    '(v, lastActiveAncestor) ← computeVerdict storage fuel now head opts;
    let toDelete := filter (λ h, has retainAUMMask v h = false) (rangeKeys v) in
    storage ← SetLastActiveAncestor storage lastActiveAncestor;
    storage ← PurgeAUMs storage toDelete;
    Ok (storage, lastActiveAncestor).

Definition Authority_Compact (a : Authority) (storage : Store) (fuel : nat) (now : Z)
    (o : CompactionOptions) : res (Store * Authority) :=
  '(storage, newAncestor) ← Compact storage fuel now (AUM_Hash (head a)) o;
  ancestor ← chonk_AUM storage newAncestor;
  Ok (storage, {| head := head a; oldestAncestor := ancestor; state := state a |}).

End Compact.

(** ** Flags only grow *)

Lemma has_mark f g h v h' :
  has f (mark g h v) h' = has f v h' || (bool_decide (h = h') && negb (Z.land g f =? 0)).
Proof.
  unfold has, mark, flags. destruct (decide (h = h')) as [<-|Hne].
  - rewrite lookup_insert_eq, bool_decide_true by done. cbn -[Z.land Z.lor Z.eqb].
    rewrite Z.land_lor_distr_l.
    destruct (Z.eqb_spec (Z.lor (Z.land (default 0 (v !! h)) f) (Z.land g f)) 0) as [E|E].
    + apply Z.lor_eq_0_iff in E as [-> ->]. done.
    + destruct (Z.eqb_spec (Z.land (default 0 (v !! h)) f) 0) as [E1|],
        (Z.eqb_spec (Z.land g f) 0) as [E2|]; try done. by rewrite E1, E2 in E.
  - rewrite lookup_insert_ne, bool_decide_false by done. by rewrite orb_false_r.
Qed.

Definition grows (v v' : Verdict) : Prop := ∀ f h, has f v h = true → has f v' h = true.

#[export] Instance grows_preorder : PreOrder grows.
Proof. split; [by intros v f h|]. intros v1 v2 v3 H12 H23 f h Hh. by apply H23, H12. Qed.

Lemma mark_grows f h v : grows v (mark f h v).
Proof. intros g h' Hh. by rewrite has_mark, Hh. Qed.

Lemma has_mark_self f h v : f ≠ 0 → has f (mark f h v) h = true.
Proof.
  intros Hf. rewrite has_mark, bool_decide_true, Z.land_diag by done. apply Z.eqb_neq in Hf.
  by rewrite Hf, orb_true_r.
Qed.

(** A flag that is part of the mask keeps the message. *)
Lemma has_mask f v h : Z.land f retainAUMMask = f → has f v h = true → has retainAUMMask v h = true.
Proof.
  unfold has. rewrite !negb_true_iff, !Z.eqb_neq. intros Hf Hh E. apply Hh.
  rewrite <- Hf, (Z.land_comm f), Z.land_assoc, E. apply Z.land_0_l.
Qed.

Lemma foldM_grows {A S} (f : S → A → res S) (P : S → Verdict) l s s' :
  (∀ s x s', f s x = Ok s' → grows (P s) (P s')) →
  foldM f s l = Ok s' → grows (P s) (P s').
Proof.
  intros Hstep. revert s. induction l as [|x l IH]; intros s Hf; cbn in Hf; [by injection Hf as <-|].
  apply bind_Ok in Hf as (s1 & H1 & H2). etransitivity; [by eapply Hstep|by apply IH].
Qed.

#[export] Hint Resolve mark_grows : scaletail.

Section Growth.
Context `{TkaCrypto} {Store : Type} `{Chonk Store} (rangeKeys : Verdict → list AUMHash).

Lemma candidateLoop_grows (storage : Store) fuel v next v' :
  candidateLoop storage fuel v next = Ok v' → grows v v'.
Proof.
  revert v next. induction fuel as [|fuel IH]; intros v next Hc; cbn in Hc; [done|].
  destruct (Parent next) as [p|]; [|by injection Hc as <-].
  destruct (chonk_AUM storage p) as [u|e| |]; try done.
  - etransitivity; [apply mark_grows|by eapply IH].
  - case_bool_decide; [|done]. injection Hc as <-. apply mark_grows.
Qed.

(** A loop that only sets one flag leaves the others as they were. *)
Lemma mark_other f g h v h' : Z.land g f = 0 → has f (mark g h v) h' = has f v h'.
Proof. intros E. rewrite has_mark, E. by rewrite andb_false_r, orb_false_r. Qed.

Lemma candidateLoop_other (storage : Store) f fuel v next v' :
  Z.land retainStateCandidate f = 0 →
  candidateLoop storage fuel v next = Ok v' → ∀ h, has f v' h = has f v h.
Proof.
  intros Hf. revert v next. induction fuel as [|fuel IH]; intros v next Hc h; cbn in Hc; [done|].
  destruct (Parent next) as [p|]; [|by injection Hc as <-].
  destruct (chonk_AUM storage p) as [u|e| |]; try done.
  - by rewrite (IH _ _ Hc), mark_other.
  - case_bool_decide; [|done]. injection Hc as <-. by apply mark_other.
Qed.

Lemma activeLoop_other (storage : Store) f n v next v' r :
  Z.land retainStateActive f = 0 →
  activeLoop storage n v next = Ok (v', r) → ∀ h, has f v' h = has f v h.
Proof.
  intros Hf. revert v next. induction n as [|n IH]; intros v next Ha h; cbn in Ha.
  { by injection Ha as <- <-. }
  destruct (Parent next) as [p|]; [|injection Ha as <- <-; by apply mark_other].
  destruct (chonk_AUM storage p) as [u|e| |]; try done.
  - by rewrite (IH _ _ Ha), mark_other.
  - case_bool_decide; [|done]. injection Ha as <- <-. by apply mark_other.
Qed.

Lemma targetLoop_other (storage : Store) f fuel v next v' t :
  Z.land retainStateActive f = 0 →
  targetLoop storage fuel v next = Ok (v', t) → ∀ h, has f v' h = has f v h.
Proof.
  intros Hf. revert v next. induction fuel as [|fuel IH]; intros v next Ha h; cbn in Ha; [done|].
  destruct (_ && _); [injection Ha as <- <-; by apply mark_other|].
  apply bind_Ok in Ha as (u & _ & Ha). by rewrite (IH _ _ Ha), mark_other.
Qed.

Lemma markActiveChain_other (storage : Store) f fuel v n hd v' anc :
  Z.land retainStateActive f = 0 → Z.land retainStateCandidate f = 0 →
  markActiveChain storage fuel v n hd = Ok (v', anc) → ∀ h, has f v' h = has f v h.
Proof.
  intros Ha Hc Hm h. unfold markActiveChain in Hm. apply bind_Ok in Hm as (next & _ & Hm).
  apply bind_Ok in Hm as ([v1 r] & H1 & Hm). rewrite <- (activeLoop_other _ _ _ _ _ _ _ Ha H1).
  destruct r as [x|nx]; [by injection Hm as <- <-|].
  apply bind_Ok in Hm as ([v2 t] & H2 & Hm). apply bind_Ok in Hm as (v3 & H3 & Hm).
  injection Hm as <- <-. rewrite <- (targetLoop_other _ _ _ _ _ _ _ Ha H2).
  by apply (candidateLoop_other _ _ _ _ _ _ Hc H3).
Qed.

Lemma descendantPass_grows (storage : Store) vs h vs' :
  descendantPass storage vs h = Ok vs' → grows (fst vs) (fst vs').
Proof.
  destruct vs as [v l]. unfold descendantPass. intros Hp. destruct (has retainStateLeaf v h).
  - by injection Hp as <-.
  - apply bind_Ok in Hp as (cs & _ & Hp). injection Hp as <-. apply mark_grows.
Qed.

Lemma descendantLoop_grows (storage : Store) fuel v l v' :
  descendantLoop storage fuel v l = Ok v' → grows v v'.
Proof.
  revert v l. induction fuel as [|fuel IH]; intros v l Hd; cbn in Hd; [done|].
  destruct l as [|h l]; [by injection Hd as <-|].
  apply bind_Ok in Hd as ([v1 l1] & Hf & Hd). etransitivity; [|by eapply IH].
  eapply (foldM_grows (descendantPass storage) fst _ (v, []) (v1, l1)); [|exact Hf].
  intros. by eapply descendantPass_grows.
Qed.

Lemma childLoop_grows (storage : Store) fuel v next v' :
  childLoop storage fuel v next = Ok v' → grows v v'.
Proof.
  revert v next. induction fuel as [|fuel IH]; intros v next Hc; cbn in Hc; [done|].
  apply bind_Ok in Hc as (cs & _ & Hc). destruct (List.find _ _) as [h|]; [|by injection Hc as <-].
  etransitivity; [apply mark_grows|by eapply IH].
Qed.

Lemma ancestorPass_grows (storage : Store) fuel s h s' :
  ancestorPass storage fuel s h = Ok s' → grows (av_verdict s) (av_verdict s').
Proof.
  unfold ancestorPass. intros Hp. destruct (has retainStateAncestor _ _); [by injection Hp as <-|].
  apply bind_Ok in Hp as (a & _ & Hp). destruct (Parent a) as [p|]; [|done].
  destruct (has retainAUMMask _ _); [injection Hp as <-; apply mark_grows|].
  destruct (has retainStateCandidate _ _); [|injection Hp as <-; apply mark_grows].
  apply bind_Ok in Hp as (v & Hc & Hp). injection Hp as <-. cbn.
  apply childLoop_grows in Hc. etransitivity; [apply mark_grows|].
  etransitivity; [apply mark_grows|exact Hc].
Qed.

Lemma ancestorLoop_grows (storage : Store) fuel s l s' :
  ancestorLoop storage fuel s l = Ok s' → grows (av_verdict s) (av_verdict s').
Proof.
  revert s l. induction fuel as [|fuel IH]; intros s l Ha; cbn in Ha; [done|].
  destruct l as [|h l]; [by injection Ha as <-|].
  apply bind_Ok in Ha as (s1 & Hf & Ha). etransitivity; [|by eapply IH].
  eapply (foldM_grows (ancestorPass storage (S fuel)) av_verdict _ _ s1) in Hf; [exact Hf|].
  intros. by eapply ancestorPass_grows.
Qed.

Lemma ancestorPass_candidate (storage : Store) fuel c s h s' :
  (av_adjusted s = false → av_candidate s = c) → ancestorPass storage fuel s h = Ok s' →
  (av_adjusted s' = false → av_candidate s' = c).
Proof.
  unfold ancestorPass. intros Hc Hp. destruct (has retainStateAncestor _ _); [by injection Hp as <-|].
  apply bind_Ok in Hp as (a & _ & Hp). destruct (Parent a) as [p|]; [|done].
  destruct (has retainAUMMask _ _); [by injection Hp as <-|].
  destruct (has retainStateCandidate _ _); [|by injection Hp as <-].
  apply bind_Ok in Hp as (v & _ & Hp). by injection Hp as <-.
Qed.

Lemma ancestorLoop_candidate (storage : Store) fuel c s l s' :
  (av_adjusted s = false → av_candidate s = c) → ancestorLoop storage fuel s l = Ok s' →
  (av_adjusted s' = false → av_candidate s' = c).
Proof.
  revert s l. induction fuel as [|fuel IH]; intros s l Hc Ha; cbn in Ha; [done|].
  destruct l as [|h l]; [by injection Ha as <-|].
  apply bind_Ok in Ha as (s1 & Hf & Ha). eapply IH; [|exact Ha].
  refine (foldM_invariant _ (λ s, av_adjusted s = false → av_candidate s = c) (λ _, True) _
            (h :: l) _ s1 _ _ Hf); [|done|by apply Forall_true].
  intros s2 x s3 Hs2 _ Hp. by eapply ancestorPass_candidate.
Qed.

Lemma adjustLoop_grows (storage : Store) fuel v next v' h :
  adjustLoop storage fuel v next = Ok (v', h) →
  grows v v' ∧ has retainStateActive v' h = true.
Proof.
  revert v next. induction fuel as [|fuel IH]; intros v next Ha; cbn in Ha; [done|].
  case_bool_decide.
  - injection Ha as <- <-. split; [apply mark_grows|by apply has_mark_self].
  - destruct (Parent next); [|done]. apply bind_Ok in Ha as (u & _ & Ha).
    apply IH in Ha as [Hg ?]. split; [|done]. etransitivity; [apply mark_grows|exact Hg].
Qed.

Lemma markAncestor_grows (storage : Store) fuel v c v' h :
  markAncestorIntersectionAUMs rangeKeys storage fuel v c = Ok (v', h) →
  grows v v' ∧ (h = c ∨ has retainStateActive v' h = true).
Proof.
  unfold markAncestorIntersectionAUMs. intros Hm. apply bind_Ok in Hm as (s & Ha & Hm).
  eassert (av_adjusted s = false → av_candidate s = c) as Hc
    by (eapply ancestorLoop_candidate; [|exact Ha]; done).
  apply ancestorLoop_grows in Ha. destruct (av_adjusted s).
  - apply bind_Ok in Hm as (u & _ & Hm). apply adjustLoop_grows in Hm as [? ?].
    split; [by etransitivity|by right].
  - injection Hm as <- <-. split; [done|]. left. by apply Hc.
Qed.

End Growth.

(** ** The active chain is kept *)
Section Active.
Context `{TkaCrypto} {Store : Type} `{Chonk Store} `{!ChonkLaws Store}.

(** Everything that is marked active has an active parent, except where the
    store ends, where [stop] holds, and where the parent is [frontier]. *)
Definition closed_to (m : gmap AUMHash AUM) (v : Verdict) (stop : AUM → Prop)
    (frontier : AUMHash → Prop) : Prop :=
  ∀ u, stored_in m u → has retainStateActive v (AUM_Hash u) = true →
    stop u ∨ ∀ p, Parent u = Some p → is_Some (m !! p) →
                  has retainStateActive v p = true ∨ frontier p.

Abbreviation nowhere := (λ _, False).

(** Marking the frontier, when its parent is the next frontier. *)
Lemma closed_mark m v (u next : AUM) p :
  keyed m → stored_in m u → Parent u = Some p →
  closed_to m v nowhere (eq (AUM_Hash u)) →
  closed_to m (mark retainStateActive (AUM_Hash u) v) nowhere (eq p).
Proof.
  intros Hk Hu Hp Hc w Hw Hm. right. intros q Hq Hs. rewrite has_mark in Hm |- *.
  apply orb_true_iff in Hm as [Hm|Hm].
  - destruct (Hc w Hw Hm) as [[]|Hc']. destruct (Hc' q Hq Hs) as [->|<-]; [by left|].
    left. by rewrite bool_decide_true, orb_true_r.
  - apply andb_true_iff in Hm as [E%bool_decide_eq_true _].
    assert (w = u) as ->.
    { destruct Hw as [hw Hw], Hu as [hu Hu]. pose proof (Hk _ _ Hw). pose proof (Hk _ _ Hu). congruence. }
    right. congruence.
Qed.

(** Marking the frontier for good: where the store ends, or where we stop. *)
Lemma closed_mark_last m v (u : AUM) (stop : AUM → Prop) :
  keyed m → stored_in m u → (stop u ∨ ∀ p, Parent u = Some p → m !! p = None) →
  closed_to m v nowhere (eq (AUM_Hash u)) →
  closed_to m (mark retainStateActive (AUM_Hash u) v) stop nowhere.
Proof.
  intros Hk Hu Hend Hc w Hw Hm. rewrite has_mark in Hm. apply orb_true_iff in Hm as [Hm|Hm].
  - right. intros q Hq Hs. rewrite has_mark. left. destruct (Hc w Hw Hm) as [[]|Hc'].
    destruct (Hc' q Hq Hs) as [->|<-]; [done|]. by rewrite bool_decide_true, orb_true_r.
  - apply andb_true_iff in Hm as [E%bool_decide_eq_true _].
    assert (w = u) as ->.
    { destruct Hw as [hw Hw], Hu as [hu Hu]. pose proof (Hk _ _ Hw). pose proof (Hk _ _ Hu). congruence. }
    destruct Hend as [?|Hend]; [by left|]. right. intros q Hq [x Hx]. rewrite Hend in Hx; done.
Qed.

Lemma stored_keyed (storage : Store) : chonk_ok storage → keyed (contents storage).
Proof. intros Hok h u. by apply law_keyed. Qed.

(** What the first loop leaves. *)
Lemma activeLoop_spec (storage : Store) n : ∀ v next v' r,
  chonk_ok storage → stored_in (contents storage) next →
  closed_to (contents storage) v nowhere (eq (AUM_Hash next)) →
  activeLoop storage n v next = Ok (v', r) →
  grows v v' ∧
  match r with
  | inl h => closed_to (contents storage) v' nowhere nowhere
             ∧ has retainStateActive v' (AUM_Hash next) = true ∧ has retainStateActive v' h = true
  | inr nx => closed_to (contents storage) v' nowhere (eq (AUM_Hash nx))
              ∧ stored_in (contents storage) nx
              ∧ (nx = next ∨ has retainStateActive v' (AUM_Hash next) = true)
  end.
Proof.
  induction n as [|n IH]; intros v next v' r Hok Hs Hc Ha; cbn in Ha.
  { injection Ha as <- <-. split_and!; try done. by left. }
  pose proof (stored_keyed storage Hok) as Hk.
  assert ((∀ p, Parent next = Some p → contents storage !! p = None) →
    grows v (mark retainStateActive (AUM_Hash next) v)
    ∧ closed_to (contents storage) (mark retainStateActive (AUM_Hash next) v) nowhere nowhere
    ∧ has retainStateActive (mark retainStateActive (AUM_Hash next) v) (AUM_Hash next) = true
    ∧ has retainStateActive (mark retainStateActive (AUM_Hash next) v) (AUM_Hash next) = true) as Hend.
  { intros He. split; [apply mark_grows|]. split; [|by rewrite has_mark_self].
    apply closed_mark_last; auto. }
  destruct (Parent next) as [p|] eqn:Hp.
  - rewrite law_AUM in Ha by done. destruct (contents storage !! p) as [u|] eqn:Hu.
    + assert (AUM_Hash u = p) as <- by (by eapply Hk).
      apply IH in Ha as [Hg Hr]; [|done|by eexists|by eapply closed_mark].
      split; [etransitivity; [apply mark_grows|exact Hg]|].
      assert (has retainStateActive v' (AUM_Hash next) = true) as Hn by (apply Hg, has_mark_self; done).
      destruct r; naive_solver.
    + injection Ha as <- <-. apply Hend. naive_solver.
  - injection Ha as <- <-. apply Hend. naive_solver.
Qed.

(** What the search for the target leaves: it is a checkpoint. *)
Lemma targetLoop_spec (storage : Store) fuel : ∀ v next v' t,
  chonk_ok storage → stored_in (contents storage) next →
  closed_to (contents storage) v nowhere (eq (AUM_Hash next)) →
  targetLoop storage fuel v next = Ok (v', t) →
  grows v v' ∧ stored_in (contents storage) t ∧ MessageKind t = AUMCheckpoint
  ∧ closed_to (contents storage) v' (eq t) nowhere
  ∧ has retainStateActive v' (AUM_Hash next) = true ∧ has retainStateActive v' (AUM_Hash t) = true.
Proof.
  induction fuel as [|fuel IH]; intros v next v' t Hok Hs Hc Ht; cbn in Ht; [done|].
  pose proof (stored_keyed storage Hok) as Hk.
  destruct (bool_decide (MessageKind next = AUMCheckpoint) && _) eqn:E.
  - apply andb_true_iff in E as [E%bool_decide_eq_true _]. injection Ht as <- <-.
    split_and!; [apply mark_grows|done|done| |by apply has_mark_self..].
    apply closed_mark_last; auto.
  - apply bind_Ok in Ht as (u & Hu & Ht). apply wrapf_Ok in Hu.
    apply chonk_AUM_hash in Hu as [Hh Hus]; [|done].
    assert (closed_to (contents storage) (mark retainStateActive (AUM_Hash next) v) nowhere
              (eq (AUM_Hash u))) as Hc'.
    { destruct (Parent next) as [p|] eqn:Hp; cbn in Hh.
      - rewrite Hh. by apply (closed_mark _ _ _ next).
      - assert (closed_to (contents storage) (mark retainStateActive (AUM_Hash next) v) nowhere nowhere)
          as Hcl by (apply closed_mark_last; [done..|right; naive_solver|done]).
        intros w Hw Hm. destruct (Hcl w Hw Hm) as [[]|Hcl']. right. intros q Hq Hqs.
        destruct (Hcl' q Hq Hqs) as [?|[]]. by left. }
    apply IH in Ht as (Hg & ? & ? & ? & _ & ?); [|done..].
    split_and!; try done; [etransitivity; [apply mark_grows|exact Hg]|].
    apply Hg, has_mark_self. done.
Qed.

(** Nothing is active at first. *)
Definition inactive (v : Verdict) : Prop := ∀ h, has retainStateActive v h = false.

Lemma inactive_closed m v f : inactive v → closed_to m v nowhere f.
Proof. intros Hi u _ Hm. by rewrite Hi in Hm. Qed.

(** After [markActiveChain], the active messages are closed under stored parents
    except at a checkpoint. *)
Lemma markActiveChain_spec (storage : Store) fuel v n hd v' anc :
  chonk_ok storage → inactive v →
  markActiveChain storage fuel v n hd = Ok (v', anc) →
  grows v v'
  ∧ closed_to (contents storage) v' (λ u, MessageKind u = AUMCheckpoint) nowhere
  ∧ has retainStateActive v' hd = true ∧ has retainStateActive v' anc = true
  ∧ is_Some (contents storage !! hd).
Proof.
  intros Hok Hi Hm. unfold markActiveChain in Hm. apply bind_Ok in Hm as (next & Hn & Hm).
  apply chonk_AUM_hash in Hn as [<- Hs]; [|done].
  assert (is_Some (contents storage !! AUM_Hash next)) as Hsome.
  { eexists. by apply stored_hash. }
  apply bind_Ok in Hm as ([v1 r] & Ha & Hm).
  apply activeLoop_spec in Ha as [Hg Hr]; [|done|done|by apply inactive_closed].
  destruct r as [h|nx].
  - injection Hm as <- <-. destruct Hr as (Hc & ? & ?). split_and!; try done.
    intros u Hu Hua. destruct (Hc u Hu Hua) as [[]|?]. by right.
  - destruct Hr as (Hc & Hnx & Hor). apply bind_Ok in Hm as ([v2 t] & Ht & Hm).
    apply targetLoop_spec in Ht as (Hg2 & Ht & Htk & Hc2 & Hm2 & Htm); [|done..].
    apply bind_Ok in Hm as (v3 & Hcl & Hm). injection Hm as <- <-.
    pose proof (candidateLoop_other storage retainStateActive fuel v2 t v3 eq_refl Hcl) as Hsame.
    apply candidateLoop_grows in Hcl. split_and!.
    + etransitivity; [exact Hg|]. etransitivity; [exact Hg2|exact Hcl].
    + intros u Hu Hua. rewrite Hsame in Hua.
      destruct (Hc2 u Hu Hua) as [<-|Hpar]; [by left|]. right. intros p Hp Hps.
      rewrite Hsame. by apply Hpar.
    + apply Hcl. destruct Hor as [->|Hor]; [done|]. by apply Hg2.
    + by apply Hcl.
    + done.
Qed.

End Active.

(** ** What compaction deletes *)
Section Kept.
Context `{TkaCrypto} {Store : Type} `{Chonk Store} `{!ChonkLaws Store}.
Context (rangeKeys : Verdict → list AUMHash).

Lemma history_active m v base rest :
  keyed m → closed_to m v (λ u, MessageKind u = AUMCheckpoint) (λ _, False) →
  history m base rest → has retainStateActive v (AUM_Hash (hist_top base rest)) = true →
  ∀ u, u ∈ base :: rest → has retainStateActive v (AUM_Hash u) = true.
Proof.
  intros Hkm Hc. induction rest as [|a rest IH] using rev_ind; intros Hh Ht u Hu.
  { by apply list_elem_of_singleton in Hu as ->. }
  rewrite hist_top_snoc in Ht. apply history_snoc in Hh as (Hh & Ha & Hp & Hk).
  rewrite app_comm_cons in Hu. apply elem_of_app in Hu as [Hu|Hu].
  - apply IH; [done| |done].
    assert (stored_in m (hist_top base rest)) as [h Hs].
    { eapply Forall_forall; [by apply hist_stored|]. apply last_Some_elem_of, hist_top_last. }
    destruct (Hc a Ha Ht) as [?|Hpar]; [done|]. destruct (Hpar _ Hp) as [?|[]]; [|done].
    exists (hist_top base rest). by rewrite (Hkm _ _ Hs).
  - by apply list_elem_of_singleton in Hu as ->.
Qed.

Lemma purge_all_lookup m l h :
  purge_all m l !! h = if bool_decide (h ∈ l) then None else m !! h.
Proof.
  revert m. induction l as [|x l IH]; intros m; [done|].
  change (purge_all m (x :: l)) with (purge_all (delete x m) l). rewrite IH.
  destruct (decide (x = h)) as [->|Hne].
  - rewrite (bool_decide_true (h ∈ h :: l)) by set_solver. rewrite lookup_delete_eq.
    by case_bool_decide.
  - rewrite lookup_delete_ne by done. rewrite (bool_decide_ext (h ∈ x :: l) (h ∈ l)); [done|].
    set_solver.
Qed.

(** The steps of a successful compaction. *)
Lemma Compact_Ok (storage : Store) fuel now hd opts storage' anc :
  chonk_ok storage → Compact rangeKeys storage fuel now hd opts = Ok (storage', anc) →
  ∃ v, computeVerdict rangeKeys storage fuel now hd opts = Ok (v, anc) ∧ chonk_ok storage'
    ∧ LastActiveAncestor storage' = Ok (Some anc)
    ∧ contents storage' ⊆ contents storage
    ∧ ∀ h u, contents storage !! h = Some u → has retainAUMMask v h = true →
             contents storage' !! h = Some u.
Proof.
  intros Hok Hc. unfold Compact in Hc. destruct (_ =? 0); [done|]. destruct (_ =? 0); [done|].
  apply bind_Ok in Hc as ([v a] & Hv & Hc).
  destruct (law_SetLast storage a Hok) as (s1 & E1 & Hok1 & Hc1 & Hl1). rewrite E1 in Hc.
  cbn [mbind res_bind] in Hc.
  edestruct (law_Purge s1) as (s2 & E2 & Hok2 & Hc2 & Hl2); [done|]. rewrite E2 in Hc.
  injection Hc as <- <-. exists v. rewrite Hc2, Hl2, Hl1, Hc1. split_and!; try done.
  - apply map_subseteq_spec. intros h u. rewrite purge_all_lookup. by case_bool_decide.
  - intros h u Hu Hm. rewrite purge_all_lookup, bool_decide_false; [done|].
    rewrite list_elem_of_filter, Hm. naive_solver.
Qed.

Lemma initialVerdict_zero l h : flags (initialVerdict l) h = 0.
Proof.
  unfold initialVerdict.
  assert (∀ v : Verdict, flags v h = 0 → flags (foldl (λ v h, <[h := 0]> v) v l) h = 0) as Hg.
  { induction l as [|x l IH]; intros v Hv; [done|]. cbn. apply IH. unfold flags in *.
    destruct (decide (x = h)) as [->|]; [by rewrite lookup_insert_eq|by rewrite lookup_insert_ne]. }
  by apply Hg.
Qed.

(** Marking young messages marks nothing active, and marks the young. *)
Lemma markYoung_inactive (storage : Store) now v age v' :
  inactive v → markYoungAUMs rangeKeys storage now v age = Ok v' → inactive v'.
Proof.
  intros Hi Hm. unfold markYoungAUMs in Hm.
  refine (foldM_invariant _ inactive (λ _, True) _ (rangeKeys v) v v' Hi _ Hm);
    [|by apply Forall_true].
  intros w x w' Hw _ Hs. apply bind_Ok in Hs as (t & _ & Hs). injection Hs as <-.
  destruct (_ <? t); [|done]. intros h. rewrite has_mark, Hw. by rewrite andb_false_r.
Qed.

Lemma youngStep_grows (storage : Store) minTime v h v' :
  youngStep storage minTime v h = Ok v' → grows v v'.
Proof.
  intros Hs. apply bind_Ok in Hs as (t & _ & Hs). injection Hs as <-.
  destruct (_ <? t); [apply mark_grows|done].
Qed.

Lemma youngLoop_grows (storage : Store) minTime l v v' :
  foldM (youngStep storage minTime) v l = Ok v' → grows v v'.
Proof. apply (foldM_grows _ id). intros. by eapply youngStep_grows. Qed.

Lemma youngLoop_marks (storage : Store) minTime l : ∀ v v' h t,
  foldM (youngStep storage minTime) v l = Ok v' →
  h ∈ l → CommitTime storage h = Ok t → minTime < t → has retainStateYoung v' h = true.
Proof.
  induction l as [|x l IH]; intros v v' h t Hf Hin Ht Hlt; [set_solver|]. cbn in Hf.
  apply bind_Ok in Hf as (v1 & Hs & Hf). apply elem_of_cons in Hin as [->|Hin]; [|by eapply IH].
  apply (youngLoop_grows _ _ _ _ _ Hf). unfold youngStep in Hs. rewrite Ht in Hs.
  injection Hs as <-. rewrite (proj2 (Z.ltb_lt _ _) Hlt). by apply has_mark_self.
Qed.

(** ** Descendants *)

(** Every child of a leaf-marked message is leaf-marked or still to be scanned. *)
Definition leaf_closed (storage : Store) (v : Verdict) (pending : list AUMHash) : Prop :=
  ∀ h u, has retainStateLeaf v h = true → stored_in (contents storage) u → Parent u = Some h →
    has retainStateLeaf v (AUM_Hash u) = true ∨ AUM_Hash u ∈ pending.

Lemma descendantPass_spec (storage : Store) v nxt h v' nxt' rest :
  chonk_ok storage → leaf_closed storage v (h :: rest ++ nxt) →
  descendantPass storage (v, nxt) h = Ok (v', nxt') →
  leaf_closed storage v' (rest ++ nxt') ∧ has retainStateLeaf v' h = true.
Proof.
  intros Hok Hl Hp. unfold descendantPass in Hp. destruct (has retainStateLeaf v h) eqn:Hh.
  - injection Hp as <- <-. split; [|done]. intros x u Hx Hu Hpar.
    destruct (Hl x u Hx Hu Hpar) as [?|[E|?]%elem_of_cons]; [by left| |by right].
    left. by rewrite E.
  - apply bind_Ok in Hp as (cs & Hcs & Hp). injection Hp as <- <-.
    split; [|by apply has_mark_self]. apply ChildAUMs_Ok in Hcs as [_ Hcs]; [|done].
    intros x u Hx Hu Hpar. rewrite has_mark in Hx |- *. apply orb_true_iff in Hx as [Hx|Hx].
    + destruct (Hl x u Hx Hu Hpar) as [->|[E|Hin]%elem_of_cons]; [by left| |].
      * left. rewrite E, bool_decide_true by done. by rewrite orb_true_r.
      * right. rewrite !elem_of_app in *. tauto.
    + apply andb_true_iff in Hx as [<-%bool_decide_eq_true _]. right. rewrite !elem_of_app.
      right; right. apply list_elem_of_In, in_map, list_elem_of_In, Hcs. done.
Qed.

Lemma descendantFold_spec (storage : Store) l : ∀ v nxt v' nxt',
  chonk_ok storage → leaf_closed storage v (l ++ nxt) →
  foldM (descendantPass storage) (v, nxt) l = Ok (v', nxt') →
  leaf_closed storage v' nxt' ∧ ∀ h, h ∈ l → has retainStateLeaf v' h = true.
Proof.
  induction l as [|h l IH]; intros v nxt v' nxt' Hok Hl Hf; cbn in Hf.
  { injection Hf as <- <-. split; [done|]. set_solver. }
  apply bind_Ok in Hf as ([v1 n1] & Hp & Hf).
  destruct (descendantPass_spec storage v nxt h v1 n1 l Hok Hl Hp) as [Hl1 Hh].
  destruct (IH v1 n1 v' nxt' Hok Hl1 Hf) as [Hl' Hin]. split; [done|].
  intros x [->|Hx]%elem_of_cons; [|by apply Hin].
  eapply (foldM_grows (descendantPass storage) fst _ (v1, n1) (v', nxt')); [|exact Hf|exact Hh].
  intros. by eapply descendantPass_grows.
Qed.

Lemma descendantLoop_spec (storage : Store) fuel : ∀ v l v',
  chonk_ok storage → leaf_closed storage v l → descendantLoop storage fuel v l = Ok v' →
  leaf_closed storage v' [] ∧ ∀ h, h ∈ l → has retainStateLeaf v' h = true.
Proof.
  induction fuel as [|fuel IH]; intros v l v' Hok Hl Hd; [done|]. cbn [descendantLoop] in Hd.
  destruct l as [|h l]; [injection Hd as <-; split; [done|set_solver]|].
  apply bind_Ok in Hd as ([v1 n1] & Hf & Hd).
  apply descendantFold_spec in Hf as [Hl1 Hin]; [|done|by rewrite app_nil_r].
  destruct (IH v1 n1 v' Hok Hl1 Hd) as [? _]. split; [done|]. intros x Hx.
  apply descendantLoop_grows in Hd. by apply Hd, Hin.
Qed.

(** A stored descendant of a leaf-marked message is leaf-marked. *)
Inductive descends (m : gmap AUMHash AUM) (h : AUMHash) : AUMHash → Prop :=
  | descends_self : descends m h h
  | descends_child h' u : descends m h h' → stored_in m u → Parent u = Some h' →
                          descends m h (AUM_Hash u).

Lemma leaf_descends (storage : Store) v h h' :
  leaf_closed storage v [] → has retainStateLeaf v h = true →
  descends (contents storage) h h' → has retainStateLeaf v h' = true.
Proof.
  intros Hl Hh Hd. induction Hd as [|h' u _ IH Hu Hp]; [done|].
  destruct (Hl h' u IH Hu Hp) as [?|?]; [done|set_solver].
Qed.

(** ** The verdict *)

Hypothesis range_keys : ∀ v h, h ∈ rangeKeys v ↔ is_Some (v !! h).

Lemma has_key f v h : has f v h = true → h ∈ rangeKeys v.
Proof using range_keys.
  unfold has, flags. rewrite range_keys. destruct (v !! h); [by eexists|done].
Qed.

Lemma initial_keys l h : is_Some (initialVerdict l !! h) ↔ h ∈ l.
Proof using.
  clear range_keys rangeKeys.
  unfold initialVerdict.
  assert (∀ v : Verdict, is_Some (foldl (λ v h, <[h := 0]> v) v l !! h) ↔ h ∈ l ∨ is_Some (v !! h)) as Hg.
  { induction l as [|x l IH]; intros v; cbn; [set_solver|]. rewrite IH, elem_of_cons.
    destruct (decide (x = h)) as [->|Hne]; [rewrite lookup_insert_eq; naive_solver|].
    rewrite lookup_insert_ne by done. naive_solver. }
  rewrite Hg. rewrite lookup_empty. split; [intros [?|[? ?]]|]; naive_solver.
Qed.

(** What a verdict keeps. *)
Record verdict_keeps (storage : Store) (now : Z) (hd : AUMHash) (opts : CompactionOptions)
    (v : Verdict) (anc : AUMHash) : Prop := {
  vk_history base rest u : history (contents storage) base rest →
    AUM_Hash (hist_top base rest) = hd → u ∈ base :: rest → has retainAUMMask v (AUM_Hash u) = true;
  vk_young h t h' : is_Some (contents storage !! h) → CommitTime storage h = Ok t →
    now - MinAge opts < t → descends (contents storage) h h' → has retainAUMMask v h' = true;
  vk_head h : descends (contents storage) hd h → has retainAUMMask v h = true;
  vk_ancestor : has retainAUMMask v anc = true
}.

Lemma computeVerdict_keeps (storage : Store) fuel now hd opts v anc :
  chonk_ok storage → computeVerdict rangeKeys storage fuel now hd opts = Ok (v, anc) →
  verdict_keeps storage now hd opts v anc.
Proof using range_keys.
  intros Hok Hv. unfold computeVerdict in Hv. apply bind_Ok in Hv as (all & Hall & Hv).
  apply wrapf_Ok in Hall. apply bind_Ok in Hv as (v1 & Hy & Hv). apply wrapf_Ok in Hy.
  apply bind_Ok in Hv as ([v2 a2] & Hact & Hv). apply wrapf_Ok in Hact.
  apply bind_Ok in Hv as (v3 & Hdesc & Hv). apply wrapf_Ok in Hdesc, Hv.
  assert (∀ f h, has f (initialVerdict all) h = false) as H0f.
  { intros f h. unfold has. rewrite initialVerdict_zero. by rewrite Z.land_0_l. }
  assert (inactive v1) as Hi1 by (eapply markYoung_inactive; [intros h; apply H0f|exact Hy]).
  destruct (markActiveChain_spec storage _ _ _ _ _ _ Hok Hi1 Hact) as (Hg2 & Hc2 & Hhd & Ha2 & _).
  assert (leaf_closed storage v2 (filter (λ h, has retainAUMMask v2 h = true) (rangeKeys v2))) as Hl2.
  { intros h u Hh. exfalso. rewrite (markActiveChain_other _ retainStateLeaf _ _ _ _ _ _ eq_refl eq_refl Hact) in Hh.
    assert (has retainStateLeaf v1 h = false) as E; [|congruence].
    refine (foldM_invariant _ (λ v, has retainStateLeaf v h = false) (λ _, True) _ _ _ v1 _ _ Hy);
      [|apply H0f|by apply Forall_true].
    intros w x w' Hw _ Hs. apply bind_Ok in Hs as (t & _ & Hs). injection Hs as <-.
    destruct (_ <? t); [|done]. by rewrite mark_other. }
  pose proof (descendantLoop_grows _ _ _ _ _ Hdesc) as Hg3.
  destruct (descendantLoop_spec storage _ _ _ _ Hok Hl2 Hdesc) as [Hl3 Hin3].
  destruct (markAncestor_grows _ _ _ _ _ _ _ Hv) as [Hg4 Hanc].
  assert (∀ h h', has retainAUMMask v2 h = true → descends (contents storage) h h' →
            has retainAUMMask v h' = true) as Hdown.
  { intros h h' Hh Hd. apply (has_mask retainStateLeaf); [done|]. apply Hg4.
    apply (leaf_descends storage v3 h); [done| |done]. apply Hin3. apply list_elem_of_filter.
    split; [done|by eapply has_key]. }
  split.
  - intros base rest u Hh Ht Hu. apply (has_mask retainStateActive); [done|]. apply Hg4, Hg3.
    eapply history_active; [by apply stored_keyed|done|done| |done]. by rewrite Ht.
  - intros h t h' Hs Ht Hlt. apply Hdown, (has_mask retainStateYoung); [done|]. apply Hg2.
    eapply youngLoop_marks; [exact Hy| |exact Ht|done].
    rewrite range_keys, initial_keys. destruct (law_AllAUMs storage Hok) as (l & E & _ & Hl).
    rewrite Hall in E. injection E as ->. by apply Hl.
  - intros h. apply Hdown, (has_mask retainStateActive); done.
  - apply (has_mask retainStateActive); [done|]. destruct Hanc as [->|?]; [|done].
    apply Hg4, Hg3, Ha2.
Qed.

End Kept.

(** ** Termination *)
Section Termination.
Context `{TkaCrypto} {Store : Type} `{Chonk Store} `{!ChonkLaws Store}.
Context (rangeKeys : Verdict → list AUMHash) (storage : Store).
Hypothesis ok : chonk_ok storage.
Context (rank : AUM → nat) (maxRank : nat).
Hypothesis ranked : ∀ a b, stored_in (contents storage) a → stored_in (contents storage) b →
  Parent b = Some (AUM_Hash a) → (rank a < rank b)%nat.
Hypothesis rank_le : ∀ u, stored_in (contents storage) u → (rank u <= maxRank)%nat.
Hypothesis no_zero : contents storage !! replicate 32 0 = None.

Lemma parent_rank u p w :
  stored_in (contents storage) u → Parent u = Some p → chonk_AUM storage p = Ok w →
  stored_in (contents storage) w ∧ (rank w < rank u)%nat.
Proof using ok ranked.
  intros Hu Hp Hw. apply chonk_AUM_hash in Hw as [Hh Hw]; [|done]. split; [done|].
  apply ranked; [done..|]. congruence.
Qed.

Lemma lookup_returns h : chonk_AUM storage h ≠ NoFuel.
Proof using ok. rewrite law_AUM by done. by destruct (contents storage !! h). Qed.

Lemma activeLoop_returns n v next : activeLoop storage n v next ≠ NoFuel.
Proof using ok.
  revert v next. induction n as [|n IH]; intros v next; cbn; [done|].
  destruct (Parent next) as [p|]; [|done]. rewrite law_AUM by done.
  destruct (contents storage !! p); [apply IH|done].
Qed.

Lemma targetLoop_returns fuel v next :
  stored_in (contents storage) next → (rank next < fuel)%nat → targetLoop storage fuel v next ≠ NoFuel.
Proof using ok ranked no_zero.
  revert v next. induction fuel as [|fuel IH]; intros v next Hs Hr; [lia|].
  cbn -[replicate]. destruct (_ && _); [done|]. destruct (Parent next) as [p|] eqn:Hp; cbn -[replicate].
  - destruct (chonk_AUM storage p) as [w|e| |] eqn:Hw; cbn; try done;
      [|by apply lookup_returns in Hw].
    destruct (parent_rank next p w Hs Hp Hw). apply IH; [done|lia].
  - rewrite law_AUM, no_zero by done. done.
Qed.

Lemma candidateLoop_returns fuel v next :
  stored_in (contents storage) next → (rank next < fuel)%nat →
  candidateLoop storage fuel v next ≠ NoFuel.
Proof using ok ranked.
  revert v next. induction fuel as [|fuel IH]; intros v next Hs Hr; [lia|]. cbn.
  destruct (Parent next) as [p|] eqn:Hp; [|done].
  destruct (chonk_AUM storage p) as [w|e| |] eqn:Hw; try done; [|by case_bool_decide|by apply lookup_returns in Hw].
  destruct (parent_rank next p w Hs Hp Hw). apply IH; [done|lia].
Qed.

Lemma adjustLoop_returns fuel v next :
  stored_in (contents storage) next → (rank next < fuel)%nat → adjustLoop storage fuel v next ≠ NoFuel.
Proof using ok ranked.
  revert v next. induction fuel as [|fuel IH]; intros v next Hs Hr; [lia|]. cbn.
  case_bool_decide; [done|]. destruct (Parent next) as [p|] eqn:Hp; [|done].
  destruct (chonk_AUM storage p) as [w|e| |] eqn:Hw; cbn; try done; [|by apply lookup_returns in Hw].
  destruct (parent_rank next p w Hs Hp Hw). apply IH; [done|lia].
Qed.

(** Down the chain, ranks increase up to the largest. *)
Lemma childLoop_returns fuel v next :
  (∀ u, stored_in (contents storage) u → Parent u = Some next → (maxRank - rank u + 1 < fuel)%nat) →
  (0 < fuel)%nat → childLoop storage fuel v next ≠ NoFuel.
Proof using ok ranked rank_le.
  revert v next. induction fuel as [|fuel IH]; intros v next Hb Hf; [lia|]. cbn.
  destruct (law_ChildAUMs storage next ok) as (cs & -> & _ & Hcs). cbn.
  destruct (List.find _ _) as [h|] eqn:Hfind; [|done].
  apply find_some in Hfind as [Hin _]. apply in_map_iff in Hin as (c & <- & Hc).
  apply list_elem_of_In, Hcs in Hc as [Hc Hp]. specialize (Hb c Hc Hp). apply IH; [|lia].
  intros u Hu Hpu. pose proof (ranked c u Hc Hu Hpu). pose proof (rank_le u Hu). lia.
Qed.

(** ** Scans: each pass marks something new or is the last *)

Context (D : gset AUMHash).

Definition remaining (f : Z) (v : Verdict) : nat := size (filter (λ h, has f v h = false) D).

Lemma remaining_le f v v' : grows v v' → (remaining f v' <= remaining f v)%nat.
Proof using.
  intros Hg. apply subseteq_size. intros h. rewrite !elem_of_filter. intros [Hh ?]. split; [|done].
  destruct (has f v h) eqn:E; [|done]. apply Hg in E. congruence.
Qed.

Lemma remaining_lt f v v' h :
  grows v v' → h ∈ D → has f v h = false → has f v' h = true →
  (remaining f v' < remaining f v)%nat.
Proof using.
  intros Hg Hd Hh Hh'. apply subset_size. split.
  - intros x. rewrite !elem_of_filter. intros [Hx ?]. split; [|done].
    destruct (has f v x) eqn:E; [|done]. apply Hg in E. congruence.
  - intros Hsub. assert (h ∈ filter (λ h, has f v' h = false) D) as [E _]%elem_of_filter;
      [apply Hsub, elem_of_filter; done|congruence].
Qed.

Hypothesis D_stored : ∀ u, stored_in (contents storage) u → AUM_Hash u ∈ D.
Hypothesis D_parents : ∀ u p, stored_in (contents storage) u → Parent u = Some p → p ∈ D.

Lemma descendantFold_returns l : ∀ v nxt,
  (∀ h, h ∈ l ++ nxt → h ∈ D) →
  ∃ v' nxt', foldM (descendantPass storage) (v, nxt) l = Ok (v', nxt')
    ∧ grows v v' ∧ (∀ h, h ∈ nxt' → h ∈ D)
    ∧ (nxt' = nxt ∨ (remaining retainStateLeaf v' < remaining retainStateLeaf v)%nat).
Proof using All.
  induction l as [|h l IH]; intros v nxt HD; cbn;
    [exists v, nxt; split_and!; [done|reflexivity|done|by left]|].
  unfold descendantPass at 1. destruct (has retainStateLeaf v h) eqn:Hh; cbn.
  - apply IH. set_solver.
  - destruct (law_ChildAUMs storage h ok) as (cs & -> & _ & Hcs). cbn.
    destruct (IH (mark retainStateLeaf h v) (nxt ++ map AUM_Hash cs)) as (v' & nxt' & E & Hg & HD' & Hm).
    { intros x. rewrite !elem_of_app. intros [Hx|[Hx|Hx]]; [set_solver|set_solver|].
      apply list_elem_of_In, in_map_iff in Hx as (c & <- & Hc%list_elem_of_In%Hcs).
      apply D_stored, Hc. }
    exists v', nxt'. split_and!; [done|etransitivity; [apply mark_grows|done]|done|]. right.
    assert (remaining retainStateLeaf (mark retainStateLeaf h v) < remaining retainStateLeaf v)%nat.
    { apply (remaining_lt _ _ _ h); [apply mark_grows|set_solver|done|by apply has_mark_self]. }
    pose proof (remaining_le retainStateLeaf _ _ Hg). lia.
Qed.

Lemma descendantLoop_returns fuel v l :
  (∀ h, h ∈ l → h ∈ D) → (remaining retainStateLeaf v + 1 < fuel)%nat →
  descendantLoop storage fuel v l ≠ NoFuel.
Proof using All.
  revert v l. induction fuel as [|fuel IH]; intros v l HD Hf; [lia|]. cbn [descendantLoop].
  destruct l as [|h l]; [done|].
  destruct (descendantFold_returns (h :: l) v []) as (v' & nxt' & -> & Hg & HD' & Hm);
    [by rewrite app_nil_r|]. cbn. destruct Hm as [->|Hm].
  - destruct fuel; [lia|]. done.
  - apply IH; [done|lia].
Qed.

(** What one element of an ancestor scan does to the loop's measure. *)
Definition scan_progress (s s' : AncestorVars) : Prop :=
  grows (av_verdict s) (av_verdict s') ∧ (∀ h, h ∈ av_next s' → h ∈ D)
  ∧ (av_next s' = av_next s
     ∨ (remaining retainStateAncestor (av_verdict s')
        < remaining retainStateAncestor (av_verdict s))%nat).

Lemma ancestorPass_returns fuel s h :
  h ∈ D → (∀ x, x ∈ av_next s → x ∈ D) → (maxRank + 1 < fuel)%nat →
  ancestorPass storage fuel s h ≠ NoFuel
  ∧ ∀ s', ancestorPass storage fuel s h = Ok s' → scan_progress s s'.
Proof using All.
  intros Hh Hn Hf. unfold ancestorPass.
  destruct (has retainStateAncestor (av_verdict s) h) eqn:Hm.
  { split; [done|]. intros s' [= <-]. split_and!; [reflexivity|done|by left]. }
  assert (∀ v, grows (mark retainStateAncestor h (av_verdict s)) v →
    grows (av_verdict s) v
    ∧ (remaining retainStateAncestor v < remaining retainStateAncestor (av_verdict s))%nat) as Hprog.
  { intros v Hg. assert (grows (av_verdict s) v) by (etransitivity; [apply mark_grows|done]).
    split; [done|]. apply (remaining_lt _ _ _ h); try done. apply Hg. by apply has_mark_self. }
  rewrite law_AUM by done. destruct (contents storage !! h) as [a|] eqn:Ha; cbn; [|done].
  assert (stored_in (contents storage) a) as Hst by (by eexists).
  destruct (Parent a) as [p|] eqn:Hp; [|done].
  destruct (has retainAUMMask _ p).
  { split; [done|]. intros s' [= <-]. split_and!; cbn; [by apply Hprog|done|by left]. }
  assert (∀ x, x ∈ av_next s ++ [p] → x ∈ D) as Hn'.
  { intros x [?| ->%list_elem_of_singleton]%elem_of_app; [by apply Hn|by eapply D_parents]. }
  destruct (has retainStateCandidate _ p).
  - destruct (childLoop storage fuel _ p) as [v|e| |] eqn:Hc; cbn; try done.
    + split; [done|]. intros s' [= <-]. apply childLoop_grows in Hc.
      destruct (Hprog v) as [? ?]; [etransitivity; [apply mark_grows|exact Hc]|].
      split_and!; cbn; [done|done|by right].
    + exfalso. revert Hc. apply childLoop_returns; [|lia]. intros u Hu _. pose proof (rank_le u Hu). lia.
  - split; [done|]. intros s' [= <-]. split_and!; cbn; [by apply Hprog|done|right; by apply Hprog].
Qed.

Lemma ancestorFold_returns fuel l : ∀ s,
  (∀ h, h ∈ l → h ∈ D) → (∀ h, h ∈ av_next s → h ∈ D) → (maxRank + 1 < fuel)%nat →
  foldM (ancestorPass storage fuel) s l ≠ NoFuel
  ∧ ∀ s', foldM (ancestorPass storage fuel) s l = Ok s' → scan_progress s s'.
Proof using All.
  induction l as [|h l IH]; intros s HD Hn Hf; cbn.
  { split; [done|]. intros s' [= <-]. split_and!; [reflexivity|done|by left]. }
  destruct (ancestorPass_returns fuel s h) as [Hr Hp]; [set_solver|done|done|].
  destruct (ancestorPass storage fuel s h) as [s1|e| |]; cbn; try done.
  destruct (Hp s1 eq_refl) as (Hg1 & HD1 & Hm1).
  destruct (IH s1) as [Hr1 Hp1]; [set_solver|done|done|]. split; [done|]. intros s' Hs'.
  destruct (Hp1 s' Hs') as (Hg2 & HD2 & Hm2). split_and!; [by etransitivity|done|].
  pose proof (remaining_le retainStateAncestor _ _ Hg1).
  pose proof (remaining_le retainStateAncestor _ _ Hg2).
  destruct Hm1 as [E1|?], Hm2 as [E2|?]; [left; congruence|right; lia..].
Qed.

Lemma ancestorLoop_returns fuel s l :
  (∀ h, h ∈ l → h ∈ D) →
  (remaining retainStateAncestor (av_verdict s) + maxRank + 2 < fuel)%nat →
  ancestorLoop storage fuel s l ≠ NoFuel.
Proof using All.
  revert s l. induction fuel as [|fuel IH]; intros s l HD Hf; [lia|]. cbn [ancestorLoop].
  destruct l as [|h l]; [done|].
  set (s0 := mkAncestorVars (av_verdict s) (av_candidate s) (av_adjusted s) []).
  destruct (ancestorFold_returns (S fuel) (h :: l) s0) as [Hr Hp]; [done| |lia|]; [cbn; set_solver|].
  destruct (foldM _ _ _) as [s1|e| |]; cbn; try done.
  destruct (Hp s1 eq_refl) as (Hg & HD1 & [E|Hm]).
  - cbn in E. rewrite E. destruct fuel; [lia|done].
  - apply IH; [done|]. cbn in Hm. lia.
Qed.

Lemma remaining_bound f v : (remaining f v <= size D)%nat.
Proof using. apply subseteq_size. intros h. rewrite elem_of_filter. by intros [_ ?]. Qed.

(** ** The keys of a verdict stay within [D] *)

Definition keys_in (v : Verdict) : Prop := ∀ h, is_Some (v !! h) → h ∈ D.

Lemma mark_keys f h v : keys_in v → h ∈ D → keys_in (mark f h v).
Proof using.
  intros Hk Hh x. unfold mark. destruct (decide (h = x)) as [<-|]; [done|].
  rewrite lookup_insert_ne by done. apply Hk.
Qed.

Lemma activeLoop_keys n v next v' r :
  stored_in (contents storage) next → keys_in v → activeLoop storage n v next = Ok (v', r) →
  keys_in v' ∧ match r with inr nx => stored_in (contents storage) nx | _ => True end.
Proof using ok D_stored.
  revert v next. induction n as [|n IH]; intros v next Hs Hk Ha; cbn in Ha; [by injection Ha as <- <-|].
  assert (keys_in (mark retainStateActive (AUM_Hash next) v)) as Hk' by (apply mark_keys; auto).
  destruct (Parent next) as [p|]; [|by injection Ha as <- <-].
  destruct (chonk_AUM storage p) as [w|e| |] eqn:Hw; try done; [|case_bool_decide; [by injection Ha as <- <-|done]].
  apply chonk_AUM_hash in Hw as [_ Hw]; [|done]. by eapply IH.
Qed.

Lemma targetLoop_keys fuel v next v' t :
  stored_in (contents storage) next → keys_in v → targetLoop storage fuel v next = Ok (v', t) →
  keys_in v' ∧ stored_in (contents storage) t.
Proof using ok D_stored.
  revert v next. induction fuel as [|fuel IH]; intros v next Hs Hk Ha; cbn in Ha; [done|].
  assert (keys_in (mark retainStateActive (AUM_Hash next) v)) as Hk' by (apply mark_keys; auto).
  destruct (_ && _); [by injection Ha as <- <-|]. apply bind_Ok in Ha as (w & Hw & Ha).
  apply wrapf_Ok, chonk_AUM_hash in Hw as [_ Hw]; [|done]. by eapply IH.
Qed.

Lemma candidateLoop_keys fuel v next v' :
  stored_in (contents storage) next → keys_in v → candidateLoop storage fuel v next = Ok v' →
  keys_in v'.
Proof using ok D_parents.
  revert v next. induction fuel as [|fuel IH]; intros v next Hs Hk Ha; cbn in Ha; [done|].
  destruct (Parent next) as [p|] eqn:Hp; [|by injection Ha as <-].
  assert (keys_in (mark retainStateCandidate p v)) as Hk' by (apply mark_keys; eauto).
  destruct (chonk_AUM storage p) as [w|e| |] eqn:Hw; try done; [|case_bool_decide; [by injection Ha as <-|done]].
  apply chonk_AUM_hash in Hw as [_ Hw]; [|done]. by eapply IH.
Qed.

Lemma descendantFold_keys l : ∀ v nxt v' nxt',
  (∀ h, h ∈ l ++ nxt → h ∈ D) → keys_in v →
  foldM (descendantPass storage) (v, nxt) l = Ok (v', nxt') →
  keys_in v' ∧ ∀ h, h ∈ nxt' → h ∈ D.
Proof using ok D_stored.
  clear ranked rank_le no_zero D_parents rank maxRank.
  induction l as [|h l IH]; intros v nxt v' nxt' HD Hk Hf; cbn in Hf; [by injection Hf as <- <-|].
  unfold descendantPass at 1 in Hf. destruct (has retainStateLeaf v h); cbn in Hf.
  - apply (IH v nxt); [|done|done]. intros x Hx. apply HD. by right.
  - destruct (law_ChildAUMs storage h ok) as (cs & E & _ & Hcs). rewrite E in Hf. cbn in Hf.
    apply (IH (mark retainStateLeaf h v) (nxt ++ map AUM_Hash cs)); [| |done].
    + intros x. rewrite !elem_of_app. intros [Hx|[Hx|Hx]].
      * apply HD. right. apply elem_of_app. by left.
      * apply HD. right. apply elem_of_app. by right.
      * apply list_elem_of_In, in_map_iff in Hx as (c & <- & Hc%list_elem_of_In%Hcs).
        apply D_stored, Hc.
    + apply mark_keys; [done|]. apply HD. by left.
Qed.

Lemma descendantLoop_keys fuel v l v' :
  (∀ h, h ∈ l → h ∈ D) → keys_in v → descendantLoop storage fuel v l = Ok v' → keys_in v'.
Proof using ok D_stored.
  revert v l. induction fuel as [|fuel IH]; intros v l HD Hk Hd; [done|]. cbn [descendantLoop] in Hd.
  destruct l as [|h l]; [by injection Hd as <-|]. apply bind_Ok in Hd as ([v1 n1] & Hf & Hd).
  apply descendantFold_keys in Hf as [? ?]; [by eapply IH|by rewrite app_nil_r|done].
Qed.

Hypothesis range_keys : ∀ v h, h ∈ rangeKeys v ↔ is_Some (v !! h).

Lemma markYoung_keys now v age v' :
  keys_in v → markYoungAUMs rangeKeys storage now v age = Ok v' → keys_in v'.
Proof using range_keys.
  intros Hk Hm.
  refine (foldM_invariant _ keys_in (λ h, h ∈ D) _ (rangeKeys v) v v' Hk _ Hm).
  - intros w x w' Hw Hx Hs. apply bind_Ok in Hs as (t & _ & Hs). injection Hs as <-.
    destruct (_ <? t); [by apply mark_keys|done].
  - apply Forall_forall. intros h Hh. by apply Hk, range_keys.
Qed.

Lemma wrapf_NoFuel {A} m (r : res A) : wrapf m r = NoFuel ↔ r = NoFuel.
Proof using. by destruct r. Qed.

Lemma bind_returns {A B} (r : res A) (f : A → res B) :
  r ≠ NoFuel → (∀ x, r = Ok x → f x ≠ NoFuel) → r ≫= f ≠ NoFuel.
Proof using. destruct r; cbn; auto. Qed.

Lemma youngLoop_returns now v age : markYoungAUMs rangeKeys storage now v age ≠ NoFuel.
Proof using ok.
  unfold markYoungAUMs. generalize (rangeKeys v). intros l. revert v.
  induction l as [|h l IH]; intros v; [done|]. cbn [foldM]. apply bind_returns; [|intros; apply IH].
  apply bind_returns; [|done]. pose proof (law_CommitTime storage h ok) as Ht.
  destruct (contents storage !! h); [by destruct Ht as [t ->]|by rewrite Ht].
Qed.

Lemma markActiveChain_returns fuel v n hd :
  keys_in v → (maxRank < fuel)%nat →
  markActiveChain storage fuel v n hd ≠ NoFuel
  ∧ ∀ v' anc, markActiveChain storage fuel v n hd = Ok (v', anc) → keys_in v'.
Proof using All.
  intros Hk Hf. unfold markActiveChain. split.
  - apply bind_returns; [apply lookup_returns|]. intros next Hn.
    apply chonk_AUM_hash in Hn as [_ Hs]; [|done].
    apply bind_returns; [apply activeLoop_returns|]. intros [v1 [h|nx]] Ha; [done|].
    apply activeLoop_keys in Ha as [Hk1 Hnx]; [|done..]. pose proof (rank_le nx Hnx).
    apply bind_returns; [apply targetLoop_returns; [done|lia]|]. intros [v2 t] Ht.
    apply targetLoop_keys in Ht as [_ Ht]; [|done..]. pose proof (rank_le t Ht).
    apply bind_returns; [apply candidateLoop_returns; [done|lia]|done].
  - intros v' anc Hm. apply bind_Ok in Hm as (next & Hn & Hm).
    apply chonk_AUM_hash in Hn as [_ Hs]; [|done]. apply bind_Ok in Hm as ([v1 r] & Ha & Hm).
    apply activeLoop_keys in Ha as [Hk1 Hnx]; [|done..]. destruct r as [h|nx]; [by injection Hm as <- <-|].
    apply bind_Ok in Hm as ([v2 t] & Ht & Hm). apply targetLoop_keys in Ht as [Hk2 Ht]; [|done..].
    apply bind_Ok in Hm as (v3 & Hc & Hm). injection Hm as <- <-. by eapply candidateLoop_keys.
Qed.

Lemma scan_in (P : AUMHash → Prop) `{∀ h, Decision (P h)} v h :
  keys_in v → h ∈ filter P (rangeKeys v) → h ∈ D.
Proof using range_keys. intros Hk [_ Hh]%list_elem_of_filter. by apply Hk, range_keys. Qed.

Lemma computeVerdict_returns fuel now hd opts :
  (size D + maxRank + 2 < fuel)%nat →
  computeVerdict rangeKeys storage fuel now hd opts ≠ NoFuel.
Proof using All.
  intros Hf. unfold computeVerdict.
  destruct (law_AllAUMs storage ok) as (all & -> & _ & Hall). cbn [wrapf mbind res_bind].
  assert (keys_in (initialVerdict all)) as Hk0.
  { intros h [a Ha]%initial_keys%Hall. rewrite <- (law_keyed _ _ _ ok Ha). apply D_stored. by eexists. }
  apply bind_returns; [rewrite wrapf_NoFuel; apply youngLoop_returns|]. intros v1 Hy.
  apply wrapf_Ok, markYoung_keys in Hy; [|done].
  destruct (markActiveChain_returns fuel v1 (MinChain opts) hd Hy) as [Hr2 Hk2]; [lia|].
  apply bind_returns; [by rewrite wrapf_NoFuel|]. intros [v2 a2] Ha. apply wrapf_Ok, Hk2 in Ha.
  apply bind_returns.
  { rewrite wrapf_NoFuel. apply descendantLoop_returns; [intros h; by apply scan_in|].
    pose proof (remaining_bound retainStateLeaf v2). lia. }
  intros v3 Hd. apply wrapf_Ok, descendantLoop_keys in Hd; [|intros h; by apply scan_in|done].
  rewrite wrapf_NoFuel. unfold markAncestorIntersectionAUMs. apply bind_returns.
  { apply ancestorLoop_returns; [intros h; by apply scan_in|].
    pose proof (remaining_bound retainStateAncestor v3). cbn [av_verdict]. lia. }
  intros s _. destruct (av_adjusted s); [|done]. apply bind_returns.
  { rewrite wrapf_NoFuel. apply lookup_returns. }
  intros next Hn. apply wrapf_Ok, chonk_AUM_hash in Hn as [_ Hn]; [|done].
  pose proof (rank_le next Hn). apply adjustLoop_returns; [done|lia].
Qed.

End Termination.

(** The stored hashes and their parents. *)
Definition scan_domain `{TkaCrypto} (m : gmap AUMHash AUM) : gset AUMHash :=
  list_to_set ((λ hu, AUM_Hash (snd hu)) <$> map_to_list m)
  ∪ list_to_set (omap (λ hu, Parent (snd hu)) (map_to_list m)).

Lemma scan_domain_stored `{TkaCrypto} m u : stored_in m u → AUM_Hash u ∈ scan_domain m.
Proof.
  intros [h Hu]. unfold scan_domain. apply elem_of_union_l, elem_of_list_to_set, list_elem_of_fmap. exists (h, u).
  split; [done|]. by apply elem_of_map_to_list.
Qed.

Lemma scan_domain_parents `{TkaCrypto} m u p :
  stored_in m u → Parent u = Some p → p ∈ scan_domain m.
Proof.
  intros [h Hu] Hp. unfold scan_domain. apply elem_of_union_r, elem_of_list_to_set, list_elem_of_omap. exists (h, u).
  split; [by apply elem_of_map_to_list|done].
Qed.

(** ** Properties *)
Section Properties.
Context `{TkaCrypto} {Store : Type} `{Chonk Store} `{!ChonkLaws Store}.

(** C17. Compaction never loses the state: after a successful [Compact], storage
    holds a subset of what it held, the new last active ancestor is recorded and
    not marked for deletion, and the state at the head is the same as before, so
    that every message needed to recompute it is still there. *)
Theorem Compact_keeps_head_state (rangeKeys : Verdict → list AUMHash) (storage : Store)
    fuel now hd opts storage' anc st :
  chonk_ok storage → (∀ v h, h ∈ rangeKeys v ↔ is_Some (v !! h)) →
  Compact rangeKeys storage fuel now hd opts = Ok (storage', anc) →
  state_at (contents storage) hd st →
  chonk_ok storage' ∧ contents storage' ⊆ contents storage
  ∧ LastActiveAncestor storage' = Ok (Some anc)
  ∧ (is_Some (contents storage !! anc) → is_Some (contents storage' !! anc))
  ∧ state_at (contents storage') hd st.
Proof.
  intros Hok Hr Hc Hat.
  destruct (Compact_Ok rangeKeys storage _ _ _ _ _ _ Hok Hc) as (v & Hv & Hok' & Hl & Hsub & Hkept).
  pose proof (computeVerdict_keeps rangeKeys Hr storage _ _ _ _ _ _ Hok Hv) as Hk.
  split_and!; try done.
  - intros [u Hu]. exists u. apply Hkept; [done|apply (vk_ancestor _ _ _ _ _ _ Hk)].
  - destruct Hat as (base & rest & s0 & Hh & Ht & Hs & Hf). exists base, rest, s0.
    split_and!; try done. destruct Hh as [Hst Hln Hnc]. split; [|done..].
    apply Forall_forall. intros u Hu. exists (AUM_Hash u). apply Hkept.
    + apply stored_hash; [done|]. by eapply Forall_forall.
    + eapply (vk_history _ _ _ _ _ _ Hk base rest); [by split|done|done].
Qed.

(** Compaction deletes neither a message younger than [MinAge], nor the
    head, nor any descendant of either. *)
Theorem Compact_keeps_young_and_descendants (rangeKeys : Verdict → list AUMHash)
    (storage : Store) fuel now hd opts storage' anc h t h' u :
  chonk_ok storage → (∀ v x, x ∈ rangeKeys v ↔ is_Some (v !! x)) →
  Compact rangeKeys storage fuel now hd opts = Ok (storage', anc) →
  (h = hd ∨ is_Some (contents storage !! h) ∧ CommitTime storage h = Ok t ∧ now - MinAge opts < t) →
  descends (contents storage) h h' → contents storage !! h' = Some u →
  contents storage' !! h' = Some u.
Proof.
  intros Hok Hr Hc Hh Hd Hu.
  destruct (Compact_Ok rangeKeys storage _ _ _ _ _ _ Hok Hc) as (v & Hv & _ & _ & _ & Hkept).
  pose proof (computeVerdict_keeps rangeKeys Hr storage _ _ _ _ _ _ Hok Hv) as Hk.
  apply Hkept; [done|]. destruct Hh as [->|(Hs & Ht & Hlt)].
  - by apply (vk_head _ _ _ _ _ _ Hk).
  - by eapply (vk_young _ _ _ _ _ _ Hk).
Qed.

(** C21. Compaction terminates: on a store without cycles (and with no message
    whose hash is all zeros), the unbounded loops of the four marking passes
    stop, whatever the order in which maps are iterated. *)
Theorem Compact_terminates (rangeKeys : Verdict → list AUMHash) (storage : Store) now hd opts :
  chonk_ok storage → acyclic (contents storage) → contents storage !! replicate 32 0 = None →
  (∀ v h, h ∈ rangeKeys v ↔ is_Some (v !! h)) →
  ∃ fuel0, ∀ fuel, (fuel0 <= fuel)%nat → Compact rangeKeys storage fuel now hd opts ≠ NoFuel.
Proof.
  intros Hok [rank Hrank] Hz Hr. destruct (rank_bound (contents storage) rank) as [M HM].
  exists (S (size (scan_domain (contents storage)) + M + 2)). intros fuel Hf. unfold Compact.
  destruct (_ =? 0); [done|]. destruct (_ =? 0); [done|]. apply bind_returns.
  { eapply (computeVerdict_returns rangeKeys storage Hok rank M Hrank HM Hz
              (scan_domain (contents storage))); [|..|exact Hr|lia].
    - apply scan_domain_stored.
    - apply scan_domain_parents. }
  intros [v a] _. destruct (law_SetLast storage a Hok) as (s1 & -> & Hok1 & _). cbn.
  edestruct (law_Purge s1) as (s2 & E & _); [done|]. by rewrite E.
Qed.

End Properties.

(** ** The properties on a concrete store *)

Definition keys_of (v : Verdict) : list AUMHash := (map_to_list v).*1.

Lemma keys_of_spec v h : h ∈ keys_of v ↔ is_Some (v !! h).
Proof.
  unfold keys_of. rewrite list_elem_of_fmap. split.
  - intros ([h' x] & -> & Hin%elem_of_map_to_list). by eexists.
  - intros [x Hx]. exists (h, x). split; [done|]. by apply elem_of_map_to_list.
Qed.

(** A chain with a second checkpoint, so that there is something to delete. *)
Definition aum3 : AUM := Eval vm_compute in
  signed [1] (checkpoint {| LastAUMHash := None; DisablementValues := DisablementValues state2;
    Keys := Keys state2; StateID1 := StateID1 state2; StateID2 := StateID2 state2 |} (Some hash2)).
Definition hash3 : AUMHash := Eval vm_compute in AUM_Hash aum3.
Definition aum4 : AUM := Eval vm_compute in signed [1] (message AUMNoOp (Some hash3)).
Definition hash4 : AUMHash := Eval vm_compute in AUM_Hash aum4.
Definition chain5 : list AUM := [aum0; aum1; aum2; aum3; aum4].
Definition store5 : Mem := store_of chain5 (Some hash0).
Definition opts1 : CompactionOptions := {| MinChain := 1; MinAge := 100 |}.

Definition compacted : Mem :=
  match Compact keys_of store5 100 1000 hash4 opts1 with Ok (s, _) => s | _ => store5 end.

Lemma compacted_eq : Compact keys_of store5 100 1000 hash4 opts1 = Ok (compacted, hash3).
Proof.
  unfold compacted.
  assert (match Compact keys_of store5 100 1000 hash4 opts1 with
          | Ok (_, a) => bool_decide (a = hash3) | _ => false end = true) as E by (by vm_compute).
  destruct (Compact _ _ _ _ _ _) as [[s a]|e| |]; try done. by apply bool_decide_eq_true in E as ->.
Qed.

Lemma chain5_free : collision_freeb chain5 = true.
Proof. by vm_compute. Qed.

Lemma chain5_ranked : acyclicb (rank_in chain5) chain5 = true.
Proof. by vm_compute. Qed.

Lemma store5_ok : chonk_ok store5.
Proof. exact (proj1 (store_of_spec chain5 (Some hash0) chain5_free)). Qed.

Lemma store5_acyclic : acyclic (aums store5).
Proof. exact (store_of_acyclic chain5 (Some hash0) _ chain5_free chain5_ranked). Qed.

Definition state4 : State := Eval vm_compute in
  match computeStateAt store5 50 hash4 with Ok s => s | _ => State_zero end.

Lemma state4_at : state_at (aums store5) hash4 state4.
Proof.
  apply (computeStateAt_state_at store5 50 hash4 state4 store5_ok store5_acyclic). by vm_compute.
Qed.

(** The three oldest messages are deleted. *)
Lemma Compact_keeps_head_state_witness :
  size (aums compacted) = 2%nat ∧ state_at (aums compacted) hash4 state4.
Proof.
  split; [by vm_compute|].
  exact (proj2 (proj2 (proj2 (proj2 (Compact_keeps_head_state keys_of store5 100 1000 hash4 opts1
    compacted hash3 state4 store5_ok keys_of_spec compacted_eq state4_at))))).
Defined.

Lemma Compact_keeps_young_and_descendants_witness : aums compacted !! hash4 = Some aum4.
Proof.
  apply (Compact_keeps_young_and_descendants keys_of store5 100 1000 hash4 opts1 compacted hash3
           hash4 0 hash4 aum4 store5_ok keys_of_spec compacted_eq).
  - by left.
  - apply descends_self.
  - by vm_compute.
Defined.

Lemma Compact_terminates_witness :
  ∃ fuel0, ∀ fuel, (fuel0 <= fuel)%nat → Compact keys_of store5 fuel 1000 hash4 opts1 ≠ NoFuel.
Proof.
  apply (Compact_terminates keys_of store5 1000 hash4 opts1 store5_ok store5_acyclic).
  - by vm_compute.
  - exact keys_of_spec.
Defined.
