(* ===== verification/TkaOpen.v ===== *)
(** * Tailnet key authority: opening storage, and retroactive revocation

    Theorems about [Open], [Bootstrap], [findParentForRewrite] and
    [MakeRetroactiveRevocation] of [src/tka/tka.go]: two nodes with the same
    messages open the same authority, the authority that is opened is where fork
    resolution leads, a verified genesis message bootstraps an empty store, and a
    revocation trusts exactly the keys that are not revoked. *)

From S2P Require Import Prelude TkaTypes TkaFixtures TkaState TkaFork TkaChonk TkaAuthority.
From S2P Require Import TkaReplay TkaRoots TkaScenario TkaInform TkaCompact.

(** ** Revocation *)
Section Revocation.
Context `{TkaCrypto}.

Lemma deleteIdx_filter (ks : list Key) n k :
  NoDup (Public <$> ks) → ks !! n = Some k →
  deleteIdx n ks = filter (λ k', Public k' ≠ Public k) ks.
Proof.
  revert n. induction ks as [|k0 ks IH]; intros n Hnd Hn; [done|].
  cbn in Hnd. apply NoDup_cons in Hnd as [Hk0 Hnd]. destruct n as [|n]; cbn in Hn.
  - injection Hn as ->. rewrite filter_cons_False by (intros Hx; by apply Hx). unfold deleteIdx.
    cbn. symmetry. apply filter_all. intros x Hx E. apply Hk0. rewrite <- E. by apply list_elem_of_fmap_2.
  - rewrite filter_cons_True.
    + change (deleteIdx (S n) (k0 :: ks)) with (k0 :: deleteIdx n ks). by rewrite (IH n).
    + intros E. apply Hk0. rewrite E. apply list_elem_of_fmap_2. by eapply list_elem_of_lookup_2.
Qed.

Lemma revokeKeys_spec rm : ∀ ks,
  Forall Key_valid ks → NoDup (Public <$> ks) →
  revokeKeys ks rm = Ok (filter (λ k, Public k ∉ rm) ks).
Proof.
  induction rm as [|id rm IH]; intros ks Hv Hnd; cbn.
  { f_equal. symmetry. apply filter_all. set_solver. }
  assert (∀ ks' : list Key, filter (λ k, Public k ∉ rm) (filter (λ k, Public k ≠ id) ks')
                 = filter (λ k, Public k ∉ id :: rm) ks') as Hff.
  { intros ks'. rewrite list_filter_filter. apply list_filter_iff. intros k. set_solver. }
  pose proof (findKeyIdx_spec ks id 0 Hv) as Hf.
  destruct (findKeyIdx ks id 0) as [[i|]|e| |]; cbn; try done.
  - destruct Hf as (n & k & -> & Hn & <-). cbn [Nat.add].
    rewrite (deleteIdx_filter ks n k) by done. rewrite IH, Hff; [done| |].
    + apply Forall_forall. intros x [_ Hx]%list_elem_of_filter. by eapply Forall_forall.
    + rewrite <- (deleteIdx_filter ks n k), delete_ids by done.
      eapply sublist_NoDup; [exact Hnd|apply deleteIdx_sublist].
  - rewrite IH, <- Hff by done. f_equal. rewrite (filter_all (λ k, Public k ≠ id)); [done|].
    intros k Hk E. apply Hf. rewrite <- E. by apply list_elem_of_fmap_2.
Qed.

End Revocation.

Section Open.
Context `{TkaCrypto} {Store : Type} `{Chonk Store} `{!ChonkLaws Store}.

(** ** Where a rewrite starts *)

(** A message before which none of the keys was trusted and ours was, or the
    oldest one there is. *)
Definition rewrite_point (m : gmap AUMHash AUM) (a : Authority) (rm : list KeyID_t)
    (ourKey : KeyID_t) (h : AUMHash) : Prop :=
  h = AUM_Hash (oldestAncestor a)
  ∨ (∃ u, m !! h = Some u ∧ Parent u = None)
  ∨ ∃ st, state_at m h st ∧ is_ok (GetKey st ourKey) = true
          ∧ ∀ k, k ∈ rm → is_ok (GetKey st k) = false.

Lemma findParentLoop_spec a (storage : Store) rm ourKey fuel cursor h :
  chonk_ok storage → acyclic (contents storage) →
  findParentLoop a storage rm ourKey fuel cursor = Ok h →
  rewrite_point (contents storage) a rm ourKey h.
Proof.
  intros Hok Hac. revert cursor. induction fuel as [|fuel IH]; intros cursor Hf; [done|].
  cbn [findParentLoop] in Hf. case_bool_decide as E; [injection Hf as <-; by left|].
  apply bind_Ok in Hf as (u & Hu & Hf). apply wrapf_Ok in Hu.
  apply bind_Ok in Hf as (st & Hst & Hf). apply wrapf_Ok in Hst.
  destruct (negb _ && _) eqn:Hk.
  - injection Hf as <-. right; right. apply andb_true_iff in Hk as [Hk ?]. apply negb_true_iff in Hk.
    exists st. split_and!; [by eapply computeStateAt_state_at|done|]. intros k Hin.
    destruct (is_ok (GetKey st k)) eqn:Hok'; [|done].
    enough (existsb (λ key, is_ok (GetKey st key)) rm = true) by congruence.
    apply existsb_exists. exists k. split; [by apply list_elem_of_In|done].
  - destruct (Parent u) eqn:Hp; [by eapply IH|]. injection Hf as <-. right; left.
    apply chonk_AUM_Ok in Hu; [|done]. eauto.
Qed.

Lemma computeStateAt_returns (storage : Store) n h :
  chonk_ok storage → computeStateAt storage n h ≠ NoFuel.
Proof.
  intros Hok. unfold computeStateAt. apply bind_returns.
  { rewrite law_AUM by done. by destruct (contents storage !! h). }
  intros top _. apply bind_returns.
  - generalize (∅ : gset AUMHash). generalize (S n). intros i. revert top.
    induction i as [|i IH]; intros top P; cbn -[applyVerifiedAUM]; [done|]. case_bool_decide; [by destruct (aum_State top)|].
    destruct (Parent top).
    + rewrite law_AUM by done. destruct (contents storage !! _); cbn -[backToStart]; [apply IH|done].
    + destruct (_ || _); [|done]. apply bind_returns; [|done]. rewrite wrapf_NoFuel.
      apply apply_returns.
  - intros [s0 P] _. apply bind_returns.
    + unfold fastForwardWithAdvancer. destruct (LastAUMHash s0); [|done]. apply bind_returns.
      { rewrite wrapf_NoFuel, law_AUM by done. by destruct (contents storage !! _). }
      intros nx _. revert nx s0. induction n as [|n IH]; intros nx s0; cbn -[applyVerifiedAUM]; [done|].
      case_bool_decide; [done|]. destruct (law_ChildAUMs storage (AUM_Hash nx) Hok) as (cs & -> & _).
      cbn -[applyVerifiedAUM]. apply bind_returns; [|intros [[c|] s1] _; [apply IH|done]]. rewrite wrapf_NoFuel.
      induction cs as [|c cs IHc]; cbn -[applyVerifiedAUM]; [done|]. case_bool_decide; [|apply IHc].
      apply bind_returns; [|done]. rewrite wrapf_NoFuel. apply apply_returns.
    + intros [[c st] u] _. destruct (LastAUMHash st); [|done]. by case_bool_decide.
Qed.

Lemma findParentLoop_returns a (storage : Store) rm ourKey (rank : AUM → nat) fuel : ∀ cursor,
  chonk_ok storage →
  (∀ a b, stored_in (contents storage) a → stored_in (contents storage) b →
     Parent b = Some (AUM_Hash a) → (rank a < rank b)%nat) →
  (∀ u, contents storage !! cursor = Some u → (rank u + 1 < fuel)%nat) → (0 < fuel)%nat →
  findParentLoop a storage rm ourKey fuel cursor ≠ NoFuel.
Proof.
  induction fuel as [|fuel IH]; intros cursor Hok Hrank Hc Hf; [lia|]. cbn [findParentLoop].
  case_bool_decide; [done|]. apply bind_returns.
  { rewrite wrapf_NoFuel, law_AUM by done. by destruct (contents storage !! cursor). }
  intros u Hu. apply wrapf_Ok, chonk_AUM_Ok in Hu; [|done]. specialize (Hc u Hu).
  apply bind_returns; [rewrite wrapf_NoFuel; by apply computeStateAt_returns|]. intros st _.
  destruct (negb _ && _); [done|]. destruct (Parent u) as [p|] eqn:Hp; [|done].
  assert (∀ w, contents storage !! p = Some w → (rank w < rank u)%nat) as Hw.
  { intros w Hw. apply Hrank; [by eexists|by eexists|]. by rewrite (law_keyed _ _ _ Hok Hw). }
  apply IH; [done..| |lia]. intros w Hw'. specialize (Hw w Hw'). lia.
Qed.

(** ** Opening a store with a single message *)

Lemma single_stored b u : stored_in {[AUM_Hash b := b]} u ↔ u = b.
Proof.
  split.
  - intros [h [_ <-]%lookup_singleton_Some]. done.
  - intros ->. exists (AUM_Hash b). apply lookup_singleton_eq.
Qed.

(** The hash of a message is not its own parent. *)
Lemma single_lookup (b : AUM) p :
  Parent b ≠ Some (AUM_Hash b) → Parent b = Some p →
  ({[AUM_Hash b := b]} : gmap AUMHash AUM) !! p = None.
Proof. intros Hne Hp. apply lookup_singleton_ne. congruence. Qed.

Lemma single_chain (storage : Store) b n :
  chonk_ok storage → contents storage = {[AUM_Hash b := b]} → Parent b ≠ Some (AUM_Hash b) →
  computeChainCandidates storage (Some (AUM_Hash b)) (S n)
  = Ok [{| Oldest := b; ch_Head := b; ch_state := State_zero; chainsThroughActive := false |}].
Proof.
  intros Hok Hc Hne. unfold computeChainCandidates.
  destruct (law_Heads storage Hok) as (l & -> & Hnd & Hh). cbn [wrapf mbind res_bind].
  assert (l = [b]) as ->.
  { apply Permutation_singleton_r. apply NoDup_Permutation; [done|apply NoDup_singleton|].
    intros u. rewrite Hh, list_elem_of_singleton. unfold is_head. rewrite Hc.
    setoid_rewrite single_stored. naive_solver. }
  cbn. unfold stepBack. cbn [Oldest]. destruct (Parent b) as [p|] eqn:Hp; [|done].
  rewrite law_AUM, Hc, single_lookup by (done || congruence). done.
Qed.

Lemma single_open (storage : Store) b st n :
  chonk_ok storage → contents storage = {[AUM_Hash b := b]} → Parent b ≠ Some (AUM_Hash b) →
  MessageKind b = AUMCheckpoint → aum_State b = Some st →
  computeActiveChain storage (Some (AUM_Hash b)) (S n)
  = Ok {| Oldest := b; ch_Head := b; ch_state := cloneForUpdate st b; chainsThroughActive := false |}.
Proof.
  intros Hok Hc Hne Hk Hst. unfold computeActiveChain. rewrite single_chain by done.
  cbn [wrapf mbind res_bind length]. rewrite bool_decide_false by done.
  assert (computeActiveAncestor [{| Oldest := b; ch_Head := b; ch_state := State_zero;
            chainsThroughActive := false |}] = Ok (AUM_Hash b)) as ->.
  { unfold computeActiveAncestor. cbn [foldl]. by rewrite insert_empty, map_to_list_singleton. }
  assert (stored_in (contents storage) b) as Hb by (rewrite Hc; by apply single_stored).
  assert (chonk_AUM storage (AUM_Hash b) = Ok b) as Hl.
  { rewrite law_AUM, Hc by done. by rewrite lookup_singleton_eq. }
  assert (acyclic (contents storage)) as Hac.
  { rewrite Hc. exists (λ _, 0%nat). intros x y ->%single_stored ->%single_stored ?. done. }
  assert (computeStateAt storage (S n) (AUM_Hash b) = Ok (cloneForUpdate st b)) as Hs.
  { apply computeStateAt_history; [done..|]. exists b, [], (cloneForUpdate st b).
    split_and!; [by apply history_nil|done| |cbn; lia|done].
    unfold startState. by rewrite bool_decide_true, Hst. }
  cbn [wrapf mbind res_bind]. rewrite Hl. cbn [wrapf mbind res_bind]. rewrite Hs.
  cbn [wrapf mbind res_bind]. unfold fastForward, fastForwardWithAdvancer.
  rewrite cloneForUpdate_eq. cbn [LastAUMHash]. rewrite Hl. cbn [wrapf mbind res_bind fastForward_loop done_nil].
  destruct (law_ChildAUMs storage (AUM_Hash b) Hok) as (cs & -> & _ & Hcs).
  assert (cs = []) as ->; [|done]. apply elem_of_nil_inv. intros u [Hu Hp]%Hcs.
  rewrite Hc in Hu. apply single_stored in Hu as ->. done.
Qed.

End Open.

(** ** Properties *)
Section Properties.
Context `{TkaCrypto} {Store : Type} `{Chonk Store} `{!ChonkLaws Store}.

(** The state that [computeStateAt] returns is exactly the replay of the
    message's history: the messages from the latest checkpoint at or before it
    (or from the genesis message), applied in order; and whenever that replay
    exists and is shorter than the iteration limit, it is returned, however the
    store branches and in whatever order it lists children. *)
Theorem computeStateAt_is_replay (storage : Store) maxIter want st :
  chonk_ok storage → acyclic (contents storage) →
  computeStateAt storage maxIter want = Ok st ↔
  ∃ base rest s0, history (contents storage) base rest
    ∧ AUM_Hash (hist_top base rest) = want ∧ startState base = Ok s0
    ∧ (length rest < maxIter)%nat ∧ foldM applyVerifiedAUM s0 rest = Ok st.
Proof. apply computeStateAt_history. Qed.


(** The authority that [Open] returns is the outcome of fork resolution:
    starting with the state at the oldest message and stepping to the preferred
    child until there is none leads to its head and its state; that outcome is
    unique, its state is well formed and its last hash is the head's. *)
Theorem Open_tracks_active_chain (storage : Store) a :
  store_valid storage → acyclic (contents storage) → Open storage = Ok a →
  tracks (contents storage) a ∧ State_wf (state a)
  ∧ Authority_Head a = Ok (AUM_Hash (head a)) ∧ (∀ b, ¬ is_child (contents storage) (head a) b).
Proof.
  intros Hv Hac Ho. unfold Open in Ho. apply bind_Ok in Ho as (o & _ & Ho).
  apply bind_Ok in Ho as (c & Ec & Ho). apply wrapf_Ok in Ec. injection Ho as <-.
  apply computeActiveChain_follows in Ec as (st0 & Hs & Hst & Hf); [|done..].
  assert (tracks (contents storage) (authority_of_chain c)) as Ht.
  { exists st0. split_and!; [|done..]. eapply computeStateAt_state_at; [apply Hv|done..]. }
  split_and!; [done| |by eapply tracks_Head|intros b; by eapply follows_no_child].
  eapply state_at_wf; [apply Hv|by apply tracks_head].
Qed.

(** A verified genesis checkpoint bootstraps an empty store that can commit it: it is committed,
    becomes the last active ancestor, and the authority returned has it as head
    and oldest message, with the state it carries. *)
Theorem Bootstrap_succeeds (storage : Store) genesis st :
  chonk_ok storage → contents storage = ∅ → MessageKind genesis = AUMCheckpoint →
  aum_State genesis = Some st → aumVerify genesis st true = Ok tt →
  Parent genesis ≠ Some (AUM_Hash genesis) →
  snd (CommitVerifiedAUMs storage [genesis]) = Ok tt →
  ∃ storage', Bootstrap storage genesis
      = Ok (storage', {| head := genesis; oldestAncestor := genesis;
                         state := cloneForUpdate st genesis |})
    ∧ contents storage' = {[AUM_Hash genesis := genesis]}
    ∧ LastActiveAncestor storage' = Ok (Some (AUM_Hash genesis)).
Proof.
  intros Hok Hc Hk Hst Hv Hne Hcommit. unfold Bootstrap.
  destruct (law_Heads storage Hok) as (l & -> & _ & Hh). cbn [wrapf mbind res_bind].
  assert (l = []) as ->.
  { apply elem_of_nil_inv. intros u [[h Hu] _]%Hh. by rewrite Hc, lookup_empty in Hu. }
  cbn [length]. rewrite bool_decide_false by (intros Hx; by apply Hx). cbn [fail_if mbind res_bind].
  rewrite bool_decide_false by (intros Hx; by apply Hx). cbn [fail_if mbind res_bind].
  rewrite Hst, Hv. cbn [wrapf mbind res_bind].
  destruct (law_Commit storage [genesis] Hok)
    as (s1 & rc & l1 & l2 & E & El & Hrc & Hok1 & Hc1 & _).
  { intros x y Hx Hy _. rewrite Hc, !list_elem_of_singleton in *.
    destruct Hx as [?%stored_empty| ->], Hy as [?%stored_empty| ->]; done. }
  rewrite E in Hcommit |- *. cbn in Hcommit. subst rc.
  destruct Hrc as [[_ ->]|[e ?]]; [|done]. rewrite app_nil_r in El. subst l1.
  cbn [wrapf mbind res_bind]. destruct (law_SetLast s1 (AUM_Hash genesis) Hok1) as (s2 & -> & Hok2 & Hc2 & Hl2).
  cbn [wrapf mbind res_bind].
  assert (contents s2 = {[AUM_Hash genesis := genesis]}) as Hc3 by (rewrite Hc2, Hc1, Hc; apply insert_empty).
  exists s2. split_and!; [|done..]. unfold Open. rewrite Hl2. cbn [wrapf mbind res_bind].
  change maxScanIterations with (S 1999). by rewrite (single_open s2 genesis st).
Qed.

(** A retroactive revocation trusts exactly the keys that are not revoked:
    the message generated is a valid checkpoint on the chosen parent, its state
    has the current keys without the revoked ones, in order, and everything else
    unchanged. *)
Theorem revocation_keeps_other_keys a (storage : Store) rm ourKey forkFrom fuel u :
  State_wf (state a) → MakeRetroactiveRevocation a storage rm ourKey forkFrom fuel = Ok u →
  AUM_valid u ∧ MessageKind u = AUMCheckpoint
  ∧ aum_State u = Some {| LastAUMHash := None; DisablementValues := DisablementValues (state a);
                          Keys := filter (λ k, Public k ∉ rm) (Keys (state a));
                          StateID1 := StateID1 (state a); StateID2 := StateID2 (state a) |}
  ∧ (forkFrom ≠ replicate 32 0 → PrevAUMHash u = Some forkFrom).
Proof.
  intros [Hk Hi] Hm. unfold MakeRetroactiveRevocation in Hm. apply bind_Ok in Hm as (p & Hp & Hm).
  rewrite State_Clone_id, revokeKeys_spec in Hm by done. cbn [mbind res_bind] in Hm.
  case_bool_decide; [done|]. apply bind_Ok in Hm as ([] & Hv & Hm). injection Hm as <-.
  split_and!; [by apply AUM_StaticValidate_valid|done|done|]. intros Hne. cbn.
  rewrite bool_decide_false in Hp by done. by injection Hp as <-.
Qed.

(** The search for a rewrite point terminates, and finds a message at which
    none of the revoked keys was trusted while ours was, or else the oldest
    message there is. *)
Theorem findParentForRewrite_finds a (storage : Store) rm ourKey :
  chonk_ok storage → acyclic (contents storage) → tracks (contents storage) a →
  ∃ fuel0, ∀ fuel, (fuel0 <= fuel)%nat →
    match findParentForRewrite a storage rm ourKey fuel with
    | Ok h => rewrite_point (contents storage) a rm ourKey h
    | NoFuel => False
    | _ => True
    end.
Proof.
  intros Hok Hac Ht. destruct Hac as [rank Hrank] eqn:E. destruct (rank_bound (contents storage) rank) as [M HM].
  exists (M + 2)%nat. intros fuel Hf. unfold findParentForRewrite. rewrite (tracks_Head _ _ Ht).
  cbn [mbind res_bind].
  pose proof (findParentLoop_returns a storage rm ourKey rank fuel (AUM_Hash (head a)) Hok Hrank) as Hr.
  destruct (findParentLoop _ _ _ _ _ _) as [h|e| |] eqn:Hl; try done.
  - by eapply findParentLoop_spec; [..|exact Hl].
  - apply Hr; [|lia|done]. intros u Hu. pose proof (HM u ltac:(by eexists)). lia.
Qed.

End Properties.

(** ** The properties on concrete stores *)

Lemma store3_same : aums store3 = aums store3'.
Proof.
  apply (bool_decide_unpack _). by vm_compute.
Qed.

(** What both nodes open. *)
Lemma open3 : Open store3 = Ok auth2.
Proof.
  assert (match Open store3 with
          | Ok a => bool_decide (head a = aum2) && bool_decide (oldestAncestor a = aum0)
                    && bool_decide (state a = state2)
          | _ => false end = true) as E by (by vm_compute).
  destruct (Open store3) as [[h o s]| | |]; try done. cbn in E.
  apply andb_true_iff in E as [[E1 E2]%andb_true_iff E3].
  apply bool_decide_eq_true in E1, E2, E3. by subst.
Qed.

Lemma computeStateAt_is_replay_witness :
  ∃ base rest s0, history (aums store3) base rest ∧ AUM_Hash (hist_top base rest) = hash2
    ∧ startState base = Ok s0 ∧ (length rest < 10)%nat ∧ foldM applyVerifiedAUM s0 rest = Ok state2.
Proof.
  apply (computeStateAt_is_replay store3 10 hash2 state2 (proj1 store3_valid) store3_acyclic).
  by vm_compute.
Defined.


Lemma Open_tracks_active_chain_witness : tracks (aums store3) auth2.
Proof. exact (proj1 (Open_tracks_active_chain store3 auth2 store3_valid store3_acyclic open3)). Defined.

Definition emptyStore : Mem := ChonkMem Z.of_nat.

Lemma Bootstrap_succeeds_witness :
  ∃ storage', Bootstrap emptyStore aum0 = Ok (storage', auth0) ∧ aums storage' = {[hash0 := aum0]}.
Proof.
  destruct (Bootstrap_succeeds emptyStore aum0 state0) as (s & E & Hc & _).
  - apply ChonkMem_ok.
  - done.
  - done.
  - done.
  - by vm_compute.
  - by vm_compute.
  - done.
  - exists s. split; [exact E|exact Hc].
Defined.

(** Revoking key 3, by key 1, from the message before it was added. *)
Definition revocation : AUM :=
  match MakeRetroactiveRevocation auth2 store3 [pub 3] (pub 1) (replicate 32 0) 10 with
  | Ok u => u | _ => aum0 end.

Lemma revocation_keeps_other_keys_witness :
  MessageKind revocation = AUMCheckpoint ∧ PrevAUMHash revocation = Some hash0
  ∧ aum_State revocation
    = Some {| LastAUMHash := None; DisablementValues := DisablementValues state2;
              Keys := filter (λ k, Public k ∉ [pub 3]) (Keys state2);
              StateID1 := 11%N; StateID2 := 12%N |}.
Proof.
  destruct (revocation_keeps_other_keys auth2 store3 [pub 3] (pub 1) (replicate 32 0) 10 revocation
              (proj1 state2_inv))
    as (_ & E & S & _).
  - assert (is_ok (MakeRetroactiveRevocation auth2 store3 [pub 3] (pub 1) (replicate 32 0) 10) = true)
      as Hok by (by vm_compute).
    unfold revocation. by destruct (MakeRetroactiveRevocation _ _ _ _ _ _).
  - split; [exact E|]. split; [by vm_compute|exact S].
Defined.

Lemma findParentForRewrite_finds_witness :
  ∃ fuel0, ∀ fuel, (fuel0 <= fuel)%nat →
    match findParentForRewrite auth0 store0 [pub 2] (pub 1) fuel with
    | Ok h => rewrite_point (aums store0) auth0 [pub 2] (pub 1) h
    | NoFuel => False
    | _ => True
    end.
Proof.
  exact (findParentForRewrite_finds auth0 store0 [pub 2] (pub 1) (proj1 store0_valid) store0_acyclic
           auth0_tracks).
Defined.
