(* ===== verification/NetBuf.v ===== *)
(** * Byte buffers of the packet code

    Indexing, slicing and in-place writes of a Go [[]byte], all of which panic
    out of range, and the big- and little-endian accessors of
    [encoding/binary].  The operations are written by recursion on the buffer,
    so that they compute on a buffer of which only a prefix is known. *)
From S2P Require Import Prelude.

Definition is_byte (x : Z) : Prop := 0 <= x < 256.

#[global] Instance is_byte_dec x : Decision (is_byte x).
Proof. unfold is_byte. apply _. Defined.

(** [b[i]] *)
Definition idx (b : bytes) (i : Z) : res Z :=
  if i <? 0 then Panic else
  match b !! Z.to_nat i with Some v => Ok v | None => Panic end.

(** [b[n:]], a panic when [n > len(b)] *)
Fixpoint drop_exact (n : nat) (b : bytes) : res bytes :=
  match n, b with
  | O, _ => Ok b
  | S n, _ :: b => drop_exact n b
  | S _, [] => Panic
  end.

(** [b[:n]], a panic when [n > len(b)] *)
Fixpoint take_exact (n : nat) (b : bytes) : res bytes :=
  match n, b with
  | O, _ => Ok []
  | S n, x :: b => r ← take_exact n b; Ok (x :: r)
  | S _, [] => Panic
  end.

(** [b[lo:]] *)
Definition slice_from (b : bytes) (lo : Z) : res bytes :=
  if lo <? 0 then Panic else drop_exact (Z.to_nat lo) b.

(** [b[lo:hi]] *)
Definition slice (b : bytes) (lo hi : Z) : res bytes :=
  if (lo <? 0) || (hi <? lo) then Panic
  else r ← drop_exact (Z.to_nat lo) b; take_exact (Z.to_nat hi - Z.to_nat lo) r.

(** Overwrite the front of the buffer, or the part that starts at [n]. *)
Fixpoint overwrite (b src : bytes) {struct src} : res bytes :=
  match src, b with
  | [], _ => Ok b
  | x :: src, _ :: b => r ← overwrite b src; Ok (x :: r)
  | _ :: _, [] => Panic
  end.

Fixpoint overwrite_at (n : nat) (b src : bytes) : res bytes :=
  match n, b with
  | O, _ => overwrite b src
  | S n, y :: b => r ← overwrite_at n b src; Ok (y :: r)
  | S _, [] => Panic
  end.

(** [b[i] = v] *)
Definition put (b : bytes) (i v : Z) : res bytes :=
  if i <? 0 then Panic else overwrite_at (Z.to_nat i) b [v].

(** [copy(b[i:i+len(src)], src)] *)
Definition put_bytes (b : bytes) (i : Z) (src : bytes) : res bytes :=
  if i <? 0 then Panic else overwrite_at (Z.to_nat i) b src.

(** ** Big-endian numbers *)

(** The number a byte string spells, most significant byte first. *)
Definition be_val (s : bytes) : Z := fold_left (λ acc x, acc * 256 + x) s 0.

(** The [n] bytes of a number, most significant byte first; higher bits are dropped. *)
Fixpoint be_bytes (n : nat) (v : Z) : bytes :=
  match n with
  | O => []
  | S n => be_bytes n (v / 256) ++ [v mod 256]
  end.

(** [binary.BigEndian.Uint16(b[i:i+2])], [Uint32(b[i:i+4])], [Uint64(b[i:i+8])] *)
Definition Uint16 (b : bytes) (i : Z) : res Z :=
  r ← slice_from b i; s ← take_exact 2 r; Ok (be_val s).
Definition Uint32 (b : bytes) (i : Z) : res Z :=
  r ← slice_from b i; s ← take_exact 4 r; Ok (be_val s).
Definition Uint64 (b : bytes) (i : Z) : res Z :=
  r ← slice_from b i; s ← take_exact 8 r; Ok (be_val s).

(** [binary.BigEndian.PutUint16(b[i:i+2], v)], [PutUint32(b[i:i+4], v)] *)
Definition PutUint16 (b : bytes) (i v : Z) : res bytes := put_bytes b i (be_bytes 2 v).
Definition PutUint32 (b : bytes) (i v : Z) : res bytes := put_bytes b i (be_bytes 4 v).

(** [binary.LittleEndian.Uint32(b[i:])] *)
Definition LE_Uint32 (b : bytes) (i : Z) : res Z :=
  r ← slice_from b i; s ← take_exact 4 r; Ok (be_val (rev s)).

(** ** Functions that return

    A result or an error, not a panic nor a loop that does not end. *)
Definition returns {A} (r : res A) : Prop := r ≠ Panic ∧ r ≠ NoFuel.

Lemma returns_bind {A B} (r : res A) (f : A → res B) :
  returns r → (∀ a, r = Ok a → returns (f a)) → returns (r ≫= f).
Proof. intros [H1 H2] Hf. destruct r; cbn; auto; by split. Qed.

(** ** Laws *)

Lemma be_val_snoc s x : be_val (s ++ [x]) = be_val s * 256 + x.
Proof. unfold be_val. by rewrite fold_left_app. Qed.

Lemma be_bytes_length n v : length (be_bytes n v) = n.
Proof. revert v; induction n as [|n IH]; intros v; cbn; [done|]. rewrite length_app, IH. cbn. lia. Qed.

Lemma be_bytes_byte n v : Forall is_byte (be_bytes n v).
Proof.
  revert v; induction n as [|n IH]; intros v; cbn; [done|].
  apply Forall_app; split; [done|]. repeat constructor; apply Z.mod_pos_bound; lia.
Qed.

Lemma be_val_bytes n v : be_val (be_bytes n v) = v mod 256 ^ Z.of_nat n.
Proof.
  revert v; induction n as [|n IH]; intros v; cbn [be_bytes]; [by rewrite Z.mod_1_r|].
  rewrite be_val_snoc, IH, Nat2Z.inj_succ, Z.pow_succ_r by lia.
  assert (0 < 256 ^ Z.of_nat n) by (apply Z.pow_pos_nonneg; lia).
  rewrite (Z.rem_mul_r v 256 (256 ^ Z.of_nat n)) by lia. lia.
Qed.

Lemma be_val_bound s : Forall is_byte s → 0 <= be_val s < 256 ^ Z.of_nat (length s).
Proof.
  induction s as [|x s IH] using rev_ind; intros Hs; [done|].
  apply Forall_app in Hs as [Hs Hx]. inversion Hx as [|? ? Hb _]; subst. unfold is_byte in Hb.
  specialize (IH Hs). rewrite be_val_snoc, length_app, Nat2Z.inj_add, Z.pow_add_r by lia.
  cbn [length]. change (256 ^ Z.of_nat 1) with 256. lia.
Qed.

Lemma be_bytes_val s : Forall is_byte s → be_bytes (length s) (be_val s) = s.
Proof.
  induction s as [|x s IH] using rev_ind; intros Hs; [done|].
  apply Forall_app in Hs as [Hs Hx]. inversion Hx as [|? ? Hb _]; subst. unfold is_byte in Hb.
  rewrite length_app, Nat.add_comm. cbn [length Nat.add be_bytes]. rewrite be_val_snoc.
  rewrite Z.div_add_l, (Z.div_small x), Z.add_0_r, IH by (done || lia). f_equal. f_equal.
  rewrite Z.add_comm, Z_mod_plus_full. apply Z.mod_small. lia.
Qed.

Lemma be_val_bytes_id n v : 0 <= v < 256 ^ Z.of_nat n → be_val (be_bytes n v) = v.
Proof. intros. rewrite be_val_bytes. by apply Z.mod_small. Qed.

Lemma drop_exact_spec n b :
  drop_exact n b = if decide (n <= length b)%nat then Ok (drop n b) else Panic.
Proof.
  revert b; induction n as [|n IH]; intros b; cbn; [by rewrite skipn_O|].
  destruct b as [|x b]; cbn; [done|]. rewrite IH. repeat case_decide; done || lia.
Qed.

Lemma take_exact_spec n b :
  take_exact n b = if decide (n <= length b)%nat then Ok (take n b) else Panic.
Proof.
  revert b; induction n as [|n IH]; intros b; cbn; [done|].
  destruct b as [|x b]; cbn; [done|]. rewrite IH. repeat case_decide; cbn; done || lia.
Qed.

(** When the bounds are good, slicing succeeds. *)
Lemma slice_Ok b lo hi :
  0 <= lo <= hi → hi <= zlen b →
  slice b lo hi = Ok (take (Z.to_nat hi - Z.to_nat lo) (drop (Z.to_nat lo) b)).
Proof.
  intros Hlo Hhi. unfold slice, zlen in *.
  replace (lo <? 0) with false by lia. replace (hi <? lo) with false by lia. cbn [orb].
  rewrite drop_exact_spec, decide_True by lia. cbn [mbind res_bind].
  by rewrite take_exact_spec, decide_True by (rewrite length_drop; lia).
Qed.

Lemma slice_from_Ok b lo :
  0 <= lo <= zlen b → slice_from b lo = Ok (drop (Z.to_nat lo) b).
Proof.
  intros Hlo. unfold slice_from, zlen in *. replace (lo <? 0) with false by lia.
  by rewrite drop_exact_spec, decide_True by lia.
Qed.

(** ... and it panics otherwise. *)
Lemma slice_Panic b lo hi : hi < lo → slice b lo hi = Panic.
Proof. intros. unfold slice. replace (hi <? lo) with true by lia. by rewrite orb_true_r. Qed.

Lemma idx_Ok b i : 0 <= i < zlen b → ∃ v, idx b i = Ok v ∧ b !! Z.to_nat i = Some v.
Proof.
  intros Hi. unfold idx, zlen in *. replace (i <? 0) with false by lia.
  destruct (lookup_lt_is_Some_2 b (Z.to_nat i)) as [v Hv]; [lia|]. rewrite Hv. eauto.
Qed.

Lemma idx_inv b i v : idx b i = Ok v → 0 <= i < zlen b ∧ b !! Z.to_nat i = Some v.
Proof.
  unfold idx, zlen. destruct (i <? 0) eqn:E; [done|]. destruct (b !! _) eqn:Eb; [|done].
  intros. simplify_eq. apply lookup_lt_Some in Eb as ?. split; [lia|done].
Qed.

(** The byte at a known offset, and the big-endian number there. *)
Definition byte_at (b : bytes) (i : Z) : Z := default 0 (b !! Z.to_nat i).
Definition be_at (n : nat) (b : bytes) (i : Z) : Z := be_val (take n (drop (Z.to_nat i) b)).

Lemma idx_at b i : 0 <= i < zlen b → idx b i = Ok (byte_at b i).
Proof. intros (v & -> & Hv)%idx_Ok. unfold byte_at. by rewrite Hv. Qed.

Lemma Uint16_Ok b i : 0 <= i → i + 2 <= zlen b → Uint16 b i = Ok (be_at 2 b i).
Proof.
  intros. unfold Uint16, be_at. rewrite slice_from_Ok by lia. cbn [mbind res_bind].
  rewrite take_exact_spec, decide_True; [done|]. unfold zlen in *. rewrite length_drop. lia.
Qed.

Lemma LE_Uint32_Ok b i :
  0 <= i → i + 4 <= zlen b → LE_Uint32 b i = Ok (be_val (rev (take 4 (drop (Z.to_nat i) b)))).
Proof.
  intros. unfold LE_Uint32. rewrite slice_from_Ok by lia. cbn [mbind res_bind].
  rewrite take_exact_spec, decide_True; [done|]. unfold zlen in *. rewrite length_drop. lia.
Qed.

Lemma Uint32_Ok b i : 0 <= i → i + 4 <= zlen b → Uint32 b i = Ok (be_at 4 b i).
Proof.
  intros. unfold Uint32, be_at. rewrite slice_from_Ok by lia. cbn [mbind res_bind].
  rewrite take_exact_spec, decide_True; [done|]. unfold zlen in *. rewrite length_drop. lia.
Qed.

Lemma byte_at_byte b i : Forall is_byte b → is_byte (byte_at b i).
Proof.
  intros Hb. unfold byte_at. destruct (b !! _) eqn:E; cbn; [by eapply Forall_lookup_1|].
  unfold is_byte; lia.
Qed.

Lemma be_at_bound n b i :
  Forall is_byte b → 0 <= i → i + Z.of_nat n <= zlen b → 0 <= be_at n b i < 256 ^ Z.of_nat n.
Proof.
  intros Hb Hi Hn. unfold be_at, zlen in *.
  pose proof (be_val_bound (take n (drop (Z.to_nat i) b))) as H.
  rewrite length_take, length_drop, Nat.min_l in H by lia.
  apply H. by apply Forall_take, Forall_drop.
Qed.

#[export] Hint Resolve byte_at_byte : scaletail.
