(* ===== verification/NetAddr.v ===== *)
(** * IP addresses and IP sets

    The part of [net/netip] the packet filter uses, and [net/ipset/ipset.go]:
    the constructor of "is this address in the set" functions, which picks one
    of six implementations by the shape of the set.  [github.com/gaissmai/bart]
    is third-party: the routing table it builds is the parameter [bart]. *)
From S2P Require Import Prelude NetBuf.

(** [netip.Addr]: the zero value, an IPv4 address, or an IPv6 address (which may
    be an IPv4-mapped one) with its zone. *)
Inductive Addr :=
  | AddrZero
  | Addr4 (v : Z)
  | Addr6 (v : Z) (zone : string).

#[global] Instance Addr_eq_dec : EqDecision Addr.
Proof. solve_decision. Defined.

#[global] Instance Addr_countable : Countable Addr.
Proof.
  refine (inj_countable'
    (λ a, match a with
          | AddrZero => inl ()
          | Addr4 v => inr (inl v)
          | Addr6 v z => inr (inr (v, z)) end)
    (λ s, match s with
          | inl () => AddrZero
          | inr (inl v) => Addr4 v
          | inr (inr (v, z)) => Addr6 v z end) _).
  by intros [].
Defined.

Definition Is4 (a : Addr) : bool := match a with Addr4 _ => true | _ => false end.
Definition Is6 (a : Addr) : bool := match a with Addr6 _ _ => true | _ => false end.
Definition BitLen (a : Addr) : Z :=
  match a with AddrZero => 0 | Addr4 _ => 32 | Addr6 _ _ => 128 end.
Definition Zone (a : Addr) : string := match a with Addr6 _ z => z | _ => "" end.
Definition hasZone (a : Addr) : bool := negb (bool_decide (Zone a = "")).

(** [::ffff:0:0/96], the prefix of the IPv4-mapped IPv6 addresses *)
Definition v4mapped : Z := 0xffff * 2 ^ 32.

Definition Is4In6 (a : Addr) : bool :=
  match a with Addr6 v _ => Z.shiftr v 32 =? 0xffff | _ => false end.

Definition Unmap (a : Addr) : Addr :=
  match a with
  | Addr6 v _ => if Is4In6 a then Addr4 (v mod 2 ^ 32) else a
  | _ => a
  end.

Definition AddrFrom4 (b : bytes) : Addr := Addr4 (be_val b).
Definition AddrFrom16 (b : bytes) : Addr := Addr6 (be_val b) "".

(** [Addr.As4] panics on the zero value and on an IPv6 address that is not
    IPv4-mapped; [Addr.As16] maps an IPv4 address and takes the zero value to
    zeros. *)
Definition As4 (a : Addr) : res bytes :=
  match a with
  | Addr4 v => Ok (be_bytes 4 v)
  | Addr6 v _ => if Is4In6 a then Ok (be_bytes 4 v) else Panic
  | AddrZero => Panic
  end.
Definition As16_val (a : Addr) : Z :=
  match a with AddrZero => 0 | Addr4 v => v4mapped + v | Addr6 v _ => v end.
Definition As16 (a : Addr) : bytes := be_bytes 16 (As16_val a).

Definition IsMulticast (a : Addr) : bool :=
  match a with
  | AddrZero => false
  | Addr4 v => Z.shiftr v 28 =? 0xe
  | Addr6 v _ =>
      if Is4In6 a then Z.shiftr (v mod 2 ^ 32) 28 =? 0xe else Z.shiftr v 120 =? 0xff
  end.

Definition IsLinkLocalUnicast (a : Addr) : bool :=
  match a with
  | AddrZero => false
  | Addr4 v => Z.shiftr v 16 =? 0xa9fe
  | Addr6 v _ =>
      if Is4In6 a then Z.shiftr (v mod 2 ^ 32) 16 =? 0xa9fe else Z.shiftr v 118 =? 0x3fa
  end.

(** The value of the address is in the range of its family. *)
Definition Addr_wf (a : Addr) : Prop :=
  match a with
  | AddrZero => True
  | Addr4 v => 0 <= v < 2 ^ 32
  | Addr6 v _ => 0 <= v < 2 ^ 128
  end.

Record AddrPort := { ap_Addr : Addr; ap_Port : Z }.

#[global] Instance AddrPort_eq_dec : EqDecision AddrPort.
Proof. solve_decision. Defined.

Definition AddrPortFrom (a : Addr) (p : Z) : AddrPort := {| ap_Addr := a; ap_Port := p |}.
Definition zeroAddrPort : AddrPort := AddrPortFrom AddrZero 0.

(** [netip.Prefix]; [Bits] is -1 when the prefix is not valid. *)
Record Prefix := { p_Addr : Addr; p_Bits : Z }.

#[global] Instance Prefix_eq_dec : EqDecision Prefix.
Proof. solve_decision. Defined.

Definition withoutZone (a : Addr) : Addr :=
  match a with Addr6 v _ => Addr6 v "" | _ => a end.

Definition PrefixFrom (a : Addr) (bits : Z) : Prefix :=
  {| p_Addr := withoutZone a;
     p_Bits := if bool_decide (a = AddrZero) || (bits <? 0) || (BitLen a <? bits)
               then -1 else bits |}.

Definition Prefix_IsValid (p : Prefix) : bool := 0 <=? p_Bits p.
Definition IsSingleIP (p : Prefix) : bool :=
  Prefix_IsValid p && (p_Bits p =? BitLen (p_Addr p)).

(** The value of an address, and whether it agrees with a prefix on its bits. *)
Definition addr_val (a : Addr) : Z :=
  match a with AddrZero => 0 | Addr4 v => v | Addr6 v _ => v end.

Definition Contains (p : Prefix) (ip : Addr) : bool :=
  if negb (Prefix_IsValid p) || hasZone ip then false
  else if (BitLen (p_Addr p) =? 0) || (BitLen ip =? 0)
          || negb (BitLen (p_Addr p) =? BitLen ip) then false
  else Z.shiftr (addr_val ip) (BitLen ip - p_Bits p)
       =? Z.shiftr (addr_val (p_Addr p)) (BitLen ip - p_Bits p).

(** What every [Prefix] built by [PrefixFrom] satisfies. *)
Definition Prefix_wf (p : Prefix) : Prop :=
  hasZone (p_Addr p) = false ∧ Addr_wf (p_Addr p) ∧ p_Bits p <= BitLen (p_Addr p) ∧
  (0 <= p_Bits p → p_Addr p ≠ AddrZero).

Lemma PrefixFrom_wf a bits : Addr_wf a → Prefix_wf (PrefixFrom a bits).
Proof.
  intros Ha. unfold Prefix_wf, PrefixFrom. cbn. split_and!.
  - by destruct a.
  - by destruct a.
  - destruct (bool_decide _); cbn; [by destruct a|].
    destruct (bits <? 0) eqn:?; cbn; [by destruct a|].
    destruct (BitLen a <? bits) eqn:?; [by destruct a|]. destruct a; cbn in *; lia.
  - destruct a; cbn; try done.
Qed.

(** An address in a prefix has the prefix's family. *)
Lemma Contains_family p ip : Contains p ip = true → BitLen (p_Addr p) = BitLen ip ∧ BitLen ip ≠ 0.
Proof.
  unfold Contains. destruct (_ || _); [done|]. destruct (_ || _) eqn:E; [done|].
  intros _. bool_prop. lia.
Qed.

Lemma BitLen_Is4 a b : BitLen a = BitLen b → Is4 a = Is4 b.
Proof. by destruct a, b. Qed.

Lemma BitLen_Is6 a b : BitLen a = BitLen b → Is6 a = Is6 b.
Proof. by destruct a, b. Qed.

(** Membership in a one-address prefix is equality. *)
Lemma Contains_single p ip :
  Prefix_wf p → IsSingleIP p = true → hasZone ip = false →
  Contains p ip = bool_decide (ip = p_Addr p).
Proof.
  intros (Hz & Hwf & Hb & Hv) Hs Hip. unfold IsSingleIP in Hs. bool_prop.
  unfold Contains. rewrite Hip. replace (Prefix_IsValid p) with true by done. cbn [negb orb].
  assert (p_Addr p ≠ AddrZero) as Hnz by (apply Hv; unfold Prefix_IsValid in *; lia).
  unfold hasZone in Hz, Hip. bool_prop.
  destruct (p_Addr p) as [|v|v z] eqn:Ep; [done|..]; destruct ip as [|w|w z'];
    cbn in *; try done; subst;
    match goal with H : p_Bits p = _ |- _ => rewrite H end; cbn [Z.sub Z.add Z.opp Z.pos_sub Z.shiftr Z.shiftl];
    rewrite ?Z.sub_diag, ?Z.shiftr_0_r; apply eq_bool_prop_intro; rewrite Z.eqb_eq || idtac;
    rewrite bool_decide_spec, Is_true_true, Z.eqb_eq; split; congruence.
Qed.

(** ** net/ipset *)
Section IPSet.
(** The lookup of a [bart.Lite] table in which the prefixes were inserted. *)
Context (bart : list Prefix → Addr → bool).

Definition emptySet (ip : Addr) : bool := false.

Fixpoint prefixContainsLoop (addrs : list Prefix) (ip : Addr) : bool :=
  match addrs with
  | [] => false
  | p :: addrs => if Contains p ip then true else prefixContainsLoop addrs ip
  end.

Definition oneIP (ip1 ip : Addr) : bool := bool_decide (ip = ip1).

Definition twoIP (ip1 ip2 ip : Addr) : bool := bool_decide (ip = ip1) || bool_decide (ip = ip2).

Definition ipInMap (m : gset Addr) (ip : Addr) : bool := bool_decide (ip ∈ m).

Definition NewContainsIPFunc (addrs : list Prefix) : Addr → bool :=
  match addrs with
  | [] => emptySet
  | p0 :: rest =>
      if existsb (λ p, negb (IsSingleIP p)) addrs then
        match rest with
        | [] => Contains p0
        | _ => if zlen addrs <=? 6 then prefixContainsLoop addrs else bart addrs
        end
      else
        match rest with
        | [] => oneIP (p_Addr p0)
        | [p1] => twoIP (p_Addr p0) (p_Addr p1)
        | _ => ipInMap (foldl (λ m p, m ∪ {[p_Addr p]}) ∅ addrs)
        end
  end.

(** The reference: an address is in the set when some prefix contains it. *)
Definition in_prefixes (addrs : list Prefix) (ip : Addr) : bool :=
  existsb (λ p, Contains p ip) addrs.

(** A table contains the addresses its prefixes contain. *)
Hypothesis bart_Contains :
  ∀ addrs ip, hasZone ip = false → bart addrs ip = in_prefixes addrs ip.

Lemma prefixContainsLoop_spec addrs ip : prefixContainsLoop addrs ip = in_prefixes addrs ip.
Proof. unfold in_prefixes. induction addrs as [|p addrs IH]; cbn; [done|]. rewrite IH. by destruct (Contains p ip). Qed.

Lemma in_prefixes_single addrs ip :
  Forall Prefix_wf addrs → hasZone ip = false →
  existsb (λ p, negb (IsSingleIP p)) addrs = false →
  in_prefixes addrs ip = bool_decide (ip ∈ p_Addr <$> addrs).
Proof.
  intros Hwf Hz. induction Hwf as [|p addrs Hp Hwf IH]; cbn; [done|].
  intros Hs. bool_prop. unfold in_prefixes in *. cbn.
  rewrite IH, Contains_single by done. rewrite <- bool_decide_or.
  apply bool_decide_ext. rewrite elem_of_cons. done.
Qed.

Lemma elem_of_addr_map addrs (m : gset Addr) ip :
  ip ∈ foldl (λ m p, m ∪ {[p_Addr p]}) m addrs ↔ ip ∈ m ∨ ip ∈ p_Addr <$> addrs.
Proof.
  revert m; induction addrs as [|p addrs IH]; intros m; cbn.
  - rewrite elem_of_nil. naive_solver.
  - rewrite IH, elem_of_cons, elem_of_union, elem_of_singleton. naive_solver.
Qed.

(** Whichever implementation is picked, it decides membership in the prefixes. *)
Lemma NewContainsIPFunc_in_prefixes addrs ip :
  Forall Prefix_wf addrs → hasZone ip = false →
  NewContainsIPFunc addrs ip = in_prefixes addrs ip.
Proof using bart_Contains.
  intros Hwf Hz. destruct addrs as [|p0 rest]; [done|]. unfold NewContainsIPFunc.
  destruct (existsb _ (p0 :: rest)) eqn:Es.
  - destruct rest as [|p1 rest]; [unfold in_prefixes; cbn; by rewrite orb_false_r|].
    destruct (_ <=? 6); [apply prefixContainsLoop_spec|by apply bart_Contains].
  - rewrite in_prefixes_single by done. destruct rest as [|p1 [|p2 rest]].
    + unfold oneIP. apply bool_decide_ext. cbn. rewrite list_elem_of_singleton. done.
    + unfold twoIP. rewrite <- bool_decide_or. apply bool_decide_ext. cbn.
      rewrite elem_of_cons, list_elem_of_singleton. done.
    + unfold ipInMap. apply bool_decide_ext. rewrite elem_of_addr_map. set_solver.
Qed.
End IPSet.

(** The address lies in the block of the prefix: same family, equal leading bits. *)
Definition covers (p : Prefix) (ip : Addr) : Prop :=
  0 <= p_Bits p ∧ BitLen (p_Addr p) = BitLen ip ∧ ip ≠ AddrZero ∧
  addr_val ip / 2 ^ (BitLen ip - p_Bits p) = addr_val (p_Addr p) / 2 ^ (BitLen ip - p_Bits p).

Lemma Contains_covers p ip :
  Prefix_wf p → hasZone ip = false → Contains p ip = true ↔ covers p ip.
Proof.
  intros (_ & _ & Hb & Hv) Hz. unfold Contains, covers, Prefix_IsValid. rewrite Hz, orb_false_r.
  destruct (0 <=? p_Bits p) eqn:E1; cbn [negb]; bool_prop; [|split; [done|lia]].
  destruct (_ || _) eqn:E2.
  - split; [done|]. intros (_ & Hl & Hnz & _). exfalso.
    rewrite Hl, Z.eqb_refl in E2. destruct ip; cbn in *; done.
  - bool_prop. assert (ip ≠ AddrZero) by (by intros ->).
    rewrite !Z.shiftr_div_pow2, Z.eqb_eq by lia. naive_solver.
Qed.

(** The function built by [NewContainsIPFunc] decides membership in the
    given prefixes, whichever of its implementations (no address, one prefix,
    linear scan, routing table, one address, two addresses, address map) the
    number and shape of the prefixes select. *)
Theorem NewContainsIPFunc_decides_membership (bart : list Prefix → Addr → bool) addrs ip :
  (∀ addrs ip, hasZone ip = false → bart addrs ip = in_prefixes addrs ip) →
  Forall Prefix_wf addrs → hasZone ip = false →
  NewContainsIPFunc bart addrs ip = true ↔ ∃ p, p ∈ addrs ∧ covers p ip.
Proof.
  intros Hbart Hwf Hz. rewrite NewContainsIPFunc_in_prefixes by done.
  unfold in_prefixes. rewrite existsb_exists. rewrite Forall_forall in Hwf.
  split; intros (p & Hin & Hc); exists p; rewrite ?list_elem_of_In in *;
    (split; [done|]); apply (Contains_covers p ip); auto; by apply Hwf, list_elem_of_In.
Qed.

Definition ip4 (a b c d : Z) : Addr := AddrFrom4 [a; b; c; d].

(** Three single addresses: the address-map implementation. *)
Definition threeIPs : list Prefix :=
  [PrefixFrom (ip4 100 64 0 1) 32; PrefixFrom (ip4 100 64 0 2) 32; PrefixFrom (ip4 100 64 0 3) 32].

Lemma threeIPs_wf : Forall Prefix_wf threeIPs.
Proof. repeat constructor; done. Qed.

Lemma NewContainsIPFunc_decides_membership_witness :
  ∃ p, p ∈ threeIPs ∧ covers p (ip4 100 64 0 2).
Proof.
  apply (NewContainsIPFunc_decides_membership in_prefixes threeIPs (ip4 100 64 0 2));
    [done|apply threeIPs_wf|done|by vm_compute].
Defined.
