(* ===== verification/Packet.v ===== *)
(** * net/packet: the packet decoder

    [net/packet/packet.go]: [Parsed] and [Parsed.Decode], which the data plane
    runs on every packet with a [Parsed] it recycles, and the accessors of a
    decoded packet.  Every index and slice expression of the code can panic
    here, so that "decoding never panics" is a theorem. *)
From S2P Require Import Prelude NetBuf NetAddr.

(** ** Protocol numbers: [types/ipproto] *)
Definition Unknown : Z := 0x00.
Definition ICMPv4 : Z := 0x01.
Definition IGMP : Z := 0x02.
Definition ICMPv6 : Z := 0x3a.
Definition TCP : Z := 0x06.
Definition UDP : Z := 0x11.
Definition DCCP : Z := 0x21.
Definition GRE : Z := 0x2f.
Definition SCTP : Z := 0x84.
Definition TSMP : Z := 99.
Definition Fragment : Z := 0xFF.

Definition ip4HeaderLength : Z := 20.
Definition ip6HeaderLength : Z := 40.
Definition icmp4HeaderLength : Z := 4.
Definition icmp6HeaderLength : Z := 4.
Definition igmpHeaderLength : Z := 8.
Definition tcpHeaderLength : Z := 20.
Definition udpHeaderLength : Z := 8.
Definition sctpHeaderLength : Z := 12.
Definition minTSMPSize : Z := 7.
Definition maxPacketLength : Z := 65535.

(** RFC 1858: the largest IPv4 header and a TCP header, in blocks of 8 bytes. *)
Definition minFragBlks : Z := (60 + 20) / 8.

Definition TCPSyn : Z := 0x02.
Definition TCPAck : Z := 0x10.
Definition TCPSynAck : Z := Z.lor TCPSyn TCPAck.

(** ** [Parsed] *)
Record CaptureMeta := {
  DidSNAT : bool; OriginalSrc : AddrPort; DidDNAT : bool; OriginalDst : AddrPort
}.
Definition CaptureMeta_zero : CaptureMeta :=
  {| DidSNAT := false; OriginalSrc := zeroAddrPort; DidDNAT := false; OriginalDst := zeroAddrPort |}.

Record Parsed := mkParsed {
  q_b : bytes;
  subofs : Z;
  dataofs : Z;
  q_length : Z;
  IPVersion : Z;
  IPProto : Z;
  Src : AddrPort;
  Dst : AddrPort;
  TCPFlags : Z;
  q_CaptureMeta : CaptureMeta
}.

Definition Parsed_zero : Parsed :=
  mkParsed [] 0 0 0 0 Unknown zeroAddrPort zeroAddrPort 0 CaptureMeta_zero.

Definition set_b v q := mkParsed v (subofs q) (dataofs q) (q_length q) (IPVersion q) (IPProto q) (Src q) (Dst q) (TCPFlags q) (q_CaptureMeta q).
Definition set_subofs v q := mkParsed (q_b q) v (dataofs q) (q_length q) (IPVersion q) (IPProto q) (Src q) (Dst q) (TCPFlags q) (q_CaptureMeta q).
Definition set_dataofs v q := mkParsed (q_b q) (subofs q) v (q_length q) (IPVersion q) (IPProto q) (Src q) (Dst q) (TCPFlags q) (q_CaptureMeta q).
Definition set_length v q := mkParsed (q_b q) (subofs q) (dataofs q) v (IPVersion q) (IPProto q) (Src q) (Dst q) (TCPFlags q) (q_CaptureMeta q).
Definition set_IPVersion v q := mkParsed (q_b q) (subofs q) (dataofs q) (q_length q) v (IPProto q) (Src q) (Dst q) (TCPFlags q) (q_CaptureMeta q).
Definition set_IPProto v q := mkParsed (q_b q) (subofs q) (dataofs q) (q_length q) (IPVersion q) v (Src q) (Dst q) (TCPFlags q) (q_CaptureMeta q).
Definition set_Src v q := mkParsed (q_b q) (subofs q) (dataofs q) (q_length q) (IPVersion q) (IPProto q) v (Dst q) (TCPFlags q) (q_CaptureMeta q).
Definition set_Dst v q := mkParsed (q_b q) (subofs q) (dataofs q) (q_length q) (IPVersion q) (IPProto q) (Src q) v (TCPFlags q) (q_CaptureMeta q).
Definition set_TCPFlags v q := mkParsed (q_b q) (subofs q) (dataofs q) (q_length q) (IPVersion q) (IPProto q) (Src q) (Dst q) v (q_CaptureMeta q).
Definition set_CaptureMeta v q := mkParsed (q_b q) (subofs q) (dataofs q) (q_length q) (IPVersion q) (IPProto q) (Src q) (Dst q) (TCPFlags q) v.

Definition withIP (ap : AddrPort) (ip : Addr) : AddrPort := AddrPortFrom ip (ap_Port ap).
Definition withPort (ap : AddrPort) (port : Z) : AddrPort := AddrPortFrom (ap_Addr ap) port.

Definition set_SrcIP a q := set_Src (withIP (Src q) a) q.
Definition set_DstIP a q := set_Dst (withIP (Dst q) a) q.
Definition set_SrcPort p q := set_Src (withPort (Src q) p) q.
Definition set_DstPort p q := set_Dst (withPort (Dst q) p) q.

(** [q.Src = withPort(q.Src, Uint16(sub[0:2])); q.Dst = withPort(q.Dst, Uint16(sub[2:4]))] *)
Definition readPorts (sub : bytes) (q : Parsed) : res Parsed :=
  sp ← Uint16 sub 0;
  dp ← Uint16 sub 2;
  Ok (set_DstPort dp (set_SrcPort sp q)).

(** The TCP case of both decoders: ports, flags, and the data offset. *)
Definition decodeTCP (sub : bytes) (q : Parsed) : res Parsed :=
  if zlen sub <? tcpHeaderLength then Ok (set_IPProto Unknown q) else
  q ← readPorts sub q;
  flags ← idx sub 13;
  hl ← idx sub 12;
  let headerLength := Z.shiftr (Z.land hl 0xF0) 2 in
  Ok (set_dataofs (subofs q + headerLength) (set_TCPFlags flags q)).

Definition decodeUDP (sub : bytes) (q : Parsed) : res Parsed :=
  if zlen sub <? udpHeaderLength then Ok (set_IPProto Unknown q) else
  q ← readPorts sub q;
  Ok (set_dataofs (subofs q + udpHeaderLength) q).

Definition decodeSCTP (sub : bytes) (q : Parsed) : res Parsed :=
  if zlen sub <? sctpHeaderLength then Ok (set_IPProto Unknown q) else
  readPorts sub q.

Definition decodeICMP (sub : bytes) (hdrLen : Z) (q : Parsed) : res Parsed :=
  if zlen sub <? hdrLen then Ok (set_IPProto Unknown q) else
  Ok (set_dataofs (subofs q + hdrLen) (set_DstPort 0 (set_SrcPort 0 q))).

(** The first fragment: "every protocol below MUST check that it has at least
    one entire transport header". *)
Definition decode4_first (sub : bytes) (moreFrags : bool) (q : Parsed) : res Parsed :=
  if IPProto q =? ICMPv4 then decodeICMP sub icmp4HeaderLength q
  else if IPProto q =? IGMP then
    Ok (if zlen sub <? igmpHeaderLength then set_IPProto Unknown q else q)
  else if IPProto q =? TCP then decodeTCP sub q
  else if IPProto q =? UDP then decodeUDP sub q
  else if IPProto q =? SCTP then decodeSCTP sub q
  else if IPProto q =? TSMP then
    Ok (if moreFrags then set_IPProto Unknown q
        else if zlen sub <? minTSMPSize then set_IPProto Unknown q
        else set_dataofs (subofs q) q)
  else if IPProto q =? Fragment then Ok (set_IPProto Unknown q)
  else Ok q.

Definition decode4 (q : Parsed) (b : bytes) : res Parsed :=
  if zlen b <? ip4HeaderLength then Ok (set_IPProto Unknown (set_IPVersion 0 q)) else
  proto ← idx b 9;
  let q := set_IPProto proto q in
  len ← Uint16 b 2;
  let q := set_length len q in
  if zlen b <? q_length q then Ok (set_IPProto Unknown q) else
  src ← slice b 12 16;
  let q := set_SrcIP (AddrFrom4 src) q in
  dst ← slice b 16 20;
  let q := set_DstIP (AddrFrom4 dst) q in
  b0 ← idx b 0;
  let q := set_subofs (u8 (Z.shiftl (Z.land b0 0x0F) 2)) q in
  if q_length q <? subofs q then Ok (set_IPProto Unknown q) else
  sub ← slice_from b (subofs q);
  fragFlags ← Uint16 b 6;
  let moreFrags := negb (Z.land fragFlags 0x2000 =? 0) in
  let fragOfs := Z.land fragFlags 0x1FFF in
  if fragOfs =? 0 then decode4_first sub moreFrags q
  else if fragOfs <? minFragBlks then Ok (set_IPProto Unknown q)
  else Ok (set_IPProto Fragment q).

(** The protocols of an IPv6 packet; extension headers are not supported. *)
Definition decode6_switch (sub : bytes) (q : Parsed) : res Parsed :=
  if IPProto q =? ICMPv6 then decodeICMP sub icmp6HeaderLength q
  else if IPProto q =? TCP then decodeTCP sub q
  else if IPProto q =? UDP then decodeUDP sub q
  else if IPProto q =? SCTP then decodeSCTP sub q
  else if IPProto q =? TSMP then
    Ok (if zlen sub <? minTSMPSize then set_IPProto Unknown q else set_dataofs (subofs q) q)
  else if IPProto q =? Fragment then Ok (set_IPProto Unknown q)
  else Ok q.

Definition decode6 (q : Parsed) (b : bytes) : res Parsed :=
  if zlen b <? ip6HeaderLength then Ok (set_IPProto Unknown (set_IPVersion 0 q)) else
  proto ← idx b 6;
  let q := set_IPProto proto q in
  len ← Uint16 b 4;
  let q := set_length (len + ip6HeaderLength) q in
  if zlen b <? q_length q then Ok (set_IPProto Unknown q) else
  src ← slice b 8 24;
  dst ← slice b 24 40;
  let q := set_DstIP (AddrFrom16 dst) (set_SrcIP (AddrFrom16 src) q) in
  let q := set_subofs 40 q in
  sub ← slice_from b (subofs q);
  decode6_switch sub q.

Definition Decode (q : Parsed) (b : bytes) : res Parsed :=
  let q := set_CaptureMeta CaptureMeta_zero (set_b b q) in
  if zlen b <? 1 then Ok (set_IPProto Unknown (set_IPVersion 0 q)) else
  b0 ← idx b 0;
  let q := set_IPVersion (Z.shiftr b0 4) q in
  if IPVersion q =? 4 then decode4 q b
  else if IPVersion q =? 6 then decode6 q b
  else Ok (set_IPProto Unknown (set_IPVersion 0 q)).

(** ** Accessors *)
Definition Buffer (q : Parsed) : bytes := q_b q.

Definition Payload (q : Parsed) : res bytes :=
  if (zlen (q_b q) <? q_length q) || (zlen (q_b q) <? dataofs q) then Ok []
  else slice (q_b q) (dataofs q) (q_length q).

Definition Transport (q : Parsed) : res bytes := slice_from (q_b q) (subofs q).

Definition IsTCPSyn (q : Parsed) : bool := Z.land (TCPFlags q) TCPSynAck =? TCPSyn.

Definition ICMP4EchoReply : Z := 0x00.
Definition ICMP4EchoRequest : Z := 0x08.
Definition ICMP4Unreachable : Z := 0x03.
Definition ICMP4TimeExceeded : Z := 0x0b.
Definition ICMP4ParamProblem : Z := 0x12.
Definition ICMP4NoCode : Z := 0.
Definition ICMP6Unreachable : Z := 1.
Definition ICMP6PacketTooBig : Z := 2.
Definition ICMP6TimeExceeded : Z := 3.
Definition ICMP6ParamProblem : Z := 4.
Definition ICMP6EchoRequest : Z := 128.
Definition ICMP6EchoReply : Z := 129.
Definition ICMP6NoCode : Z := 0.

Definition IsError (q : Parsed) : res bool :=
  if IPProto q =? ICMPv4 then
    if zlen (q_b q) <? subofs q + 8 then Ok false else
    t ← idx (q_b q) (subofs q);
    Ok ((t =? ICMP4Unreachable) || (t =? ICMP4TimeExceeded) || (t =? ICMP4ParamProblem))
  else if IPProto q =? ICMPv6 then
    if zlen (q_b q) <? subofs q + 8 then Ok false else
    t ← idx (q_b q) (subofs q);
    Ok ((t =? ICMP6Unreachable) || (t =? ICMP6PacketTooBig) ||
        (t =? ICMP6TimeExceeded) || (t =? ICMP6ParamProblem))
  else Ok false.

(** [len(q.b) >= q.subofs+8 && type == t && code == c] *)
Definition icmpIs (q : Parsed) (t c : Z) : res bool :=
  if zlen (q_b q) <? subofs q + 8 then Ok false else
  ty ← idx (q_b q) (subofs q);
  if negb (ty =? t) then Ok false else
  code ← idx (q_b q) (subofs q + 1);
  Ok (code =? c).

Definition IsEchoRequest (q : Parsed) : res bool :=
  if IPProto q =? ICMPv4 then icmpIs q ICMP4EchoRequest ICMP4NoCode
  else if IPProto q =? ICMPv6 then icmpIs q ICMP6EchoRequest ICMP6NoCode
  else Ok false.

Definition IsEchoResponse (q : Parsed) : res bool :=
  if IPProto q =? ICMPv4 then icmpIs q ICMP4EchoReply ICMP4NoCode
  else if IPProto q =? ICMPv6 then icmpIs q ICMP6EchoReply ICMP6NoCode
  else Ok false.

Definition EchoIDSeq (q : Parsed) : res Z :=
  if IPProto q =? ICMPv4 then
    let offset := ip4HeaderLength + icmp4HeaderLength in
    if zlen (q_b q) <? offset + 4 then Ok 0 else LE_Uint32 (q_b q) offset
  else if IPProto q =? ICMPv6 then
    let offset := ip6HeaderLength + icmp6HeaderLength in
    if zlen (q_b q) <? offset + 4 then Ok 0 else LE_Uint32 (q_b q) offset
  else Ok 0.

(** ** Decoding never panics *)

(** Rewrite the accesses of the goal that are in range, and split on its tests. *)
Ltac pkt_consts :=
  unfold ip4HeaderLength, ip6HeaderLength, icmp4HeaderLength, icmp6HeaderLength, igmpHeaderLength,
    tcpHeaderLength, udpHeaderLength, sctpHeaderLength, minTSMPSize in *.

Ltac pkt_fields :=
  cbn [q_b subofs dataofs q_length IPVersion IPProto Src Dst TCPFlags q_CaptureMeta
       set_b set_subofs set_dataofs set_length set_IPVersion set_IPProto set_Src set_Dst
       set_TCPFlags set_CaptureMeta set_SrcIP set_DstIP set_SrcPort set_DstPort
       withIP withPort AddrPortFrom ap_Addr ap_Port mbind res_bind].

Ltac pkt_access :=
  repeat (first
    [ rewrite idx_at by lia
    | rewrite Uint16_Ok by lia
    | rewrite Uint32_Ok by lia
    | rewrite slice_Ok by lia
    | rewrite slice_from_Ok by lia ]; pkt_fields).

Lemma u8_ihl x : 0 <= u8 (Z.shiftl (Z.land x 0x0F) 2) <= 60.
Proof.
  unfold u8. change 0x0F with (Z.ones 4). rewrite Z.land_ones, Z.shiftl_mul_pow2 by lia.
  pose proof (Z.mod_pos_bound x (2 ^ 4) ltac:(lia)).
  rewrite Z.mod_small by lia. lia.
Qed.

Lemma zlen_drop (b : bytes) n : 0 <= n <= zlen b → zlen (drop (Z.to_nat n) b) = zlen b - n.
Proof. unfold zlen. rewrite length_drop. lia. Qed.

Section Transport_headers.
Context (sub : bytes) (q : Parsed).

Lemma readPorts_Ok : 4 <= zlen sub →
  readPorts sub q = Ok (set_DstPort (be_at 2 sub 2) (set_SrcPort (be_at 2 sub 0) q)).
Proof. intros. unfold readPorts. by pkt_access. Qed.

Lemma decodeTCP_Ok :
  decodeTCP sub q = Ok (if zlen sub <? tcpHeaderLength then set_IPProto Unknown q else
    set_dataofs (subofs q + Z.shiftr (Z.land (byte_at sub 12) 0xF0) 2)
      (set_TCPFlags (byte_at sub 13)
        (set_DstPort (be_at 2 sub 2) (set_SrcPort (be_at 2 sub 0) q)))).
Proof.
  unfold decodeTCP. destruct (_ <? _) eqn:E; [done|]. pkt_consts. bool_prop.
  rewrite readPorts_Ok by lia. pkt_fields. by pkt_access.
Qed.

Lemma decodeUDP_Ok :
  decodeUDP sub q = Ok (if zlen sub <? udpHeaderLength then set_IPProto Unknown q else
    set_dataofs (subofs q + udpHeaderLength)
      (set_DstPort (be_at 2 sub 2) (set_SrcPort (be_at 2 sub 0) q))).
Proof.
  unfold decodeUDP. destruct (_ <? _) eqn:E; [done|]. pkt_consts. bool_prop.
  by rewrite readPorts_Ok by lia.
Qed.

Lemma decodeSCTP_Ok :
  decodeSCTP sub q = Ok (if zlen sub <? sctpHeaderLength then set_IPProto Unknown q else
    set_DstPort (be_at 2 sub 2) (set_SrcPort (be_at 2 sub 0) q)).
Proof.
  unfold decodeSCTP. destruct (_ <? _) eqn:E; [done|]. pkt_consts. bool_prop.
  by rewrite readPorts_Ok by lia.
Qed.

Lemma decodeICMP_Ok n :
  decodeICMP sub n q = Ok (if zlen sub <? n then set_IPProto Unknown q else
    set_dataofs (subofs q + n) (set_DstPort 0 (set_SrcPort 0 q))).
Proof. unfold decodeICMP. by destruct (_ <? _). Qed.
End Transport_headers.

(** ** What a decoded packet says

    [ip_header b q]: the addresses, the length and the transport offset of [q]
    are those of the IP header at the front of the buffer, and the packet is
    entirely in the buffer. *)
Definition ip4_header (b : bytes) (q : Parsed) : Prop :=
  IPVersion q = 4 ∧ byte_at b 0 / 16 = 4 ∧ 20 <= zlen b ∧
  q_length q = be_at 2 b 2 ∧
  ap_Addr (Src q) = Addr4 (be_at 4 b 12) ∧ ap_Addr (Dst q) = Addr4 (be_at 4 b 16) ∧
  subofs q = 4 * (byte_at b 0 mod 16) ∧ subofs q <= q_length q <= zlen b.

Definition ip6_header (b : bytes) (q : Parsed) : Prop :=
  IPVersion q = 6 ∧ byte_at b 0 / 16 = 6 ∧
  q_length q = be_at 2 b 4 + 40 ∧
  ap_Addr (Src q) = Addr6 (be_at 16 b 8) "" ∧ ap_Addr (Dst q) = Addr6 (be_at 16 b 24) "" ∧
  subofs q = 40 ∧ 40 <= zlen b ∧ q_length q <= zlen b.

Definition ip_header (b : bytes) (q : Parsed) : Prop := ip4_header b q ∨ ip6_header b q.

(** The fragment offset, in blocks of 8 bytes; IPv6 packets are not fragments here. *)
Definition frag_offset (b : bytes) (q : Parsed) : Z :=
  if IPVersion q =? 4 then be_at 2 b 6 mod 2 ^ 13 else 0.

(** The transport header a protocol must have in the buffer. *)
Definition header_need (version proto : Z) : option Z :=
  if proto =? TCP then Some tcpHeaderLength
  else if proto =? UDP then Some udpHeaderLength
  else if proto =? SCTP then Some sctpHeaderLength
  else if proto =? TSMP then Some minTSMPSize
  else if (version =? 4) && (proto =? ICMPv4) then Some icmp4HeaderLength
  else if (version =? 4) && (proto =? IGMP) then Some igmpHeaderLength
  else if (version =? 6) && (proto =? ICMPv6) then Some icmp6HeaderLength
  else None.

Definition has_ports (proto : Z) : bool := (proto =? TCP) || (proto =? UDP) || (proto =? SCTP).

(** Where the payload starts, behind the transport offset, for the protocols that
    record it: TSMP has no header of its own, TCP says so in its data offset. *)
Definition payload_start (b : bytes) (q : Parsed) : option Z :=
  if IPProto q =? TSMP then Some 0
  else if IPProto q =? TCP then Some (4 * (byte_at b (subofs q + 12) / 16 mod 16))
  else if IPProto q =? UDP then Some udpHeaderLength
  else if (IPVersion q =? 4) && (IPProto q =? ICMPv4) then Some icmp4HeaderLength
  else if (IPVersion q =? 6) && (IPProto q =? ICMPv6) then Some icmp6HeaderLength
  else None.

(** The transport fields of [q] were read from a first fragment that holds the
    whole transport header. *)
Definition transport_header (b : bytes) (q : Parsed) : Prop :=
  (∀ n, header_need (IPVersion q) (IPProto q) = Some n →
    frag_offset b q = 0 ∧ subofs q + n <= zlen b) ∧
  (has_ports (IPProto q) = true →
    ap_Port (Src q) = be_at 2 b (subofs q) ∧ ap_Port (Dst q) = be_at 2 b (subofs q + 2)) ∧
  (IPProto q = TCP → TCPFlags q = byte_at b (subofs q + 13)) ∧
  (∀ n, payload_start b q = Some n → dataofs q = subofs q + n) ∧
  (IPProto q = Fragment → minFragBlks <= frag_offset b q).

Lemma be_at_drop n b i j : 0 <= i → 0 <= j → be_at n (drop (Z.to_nat i) b) j = be_at n b (i + j).
Proof. intros. unfold be_at. by rewrite drop_drop, Z2Nat.inj_add by lia. Qed.

Lemma byte_at_drop b i j : 0 <= i → 0 <= j → byte_at (drop (Z.to_nat i) b) j = byte_at b (i + j).
Proof. intros. unfold byte_at. by rewrite lookup_drop, Z2Nat.inj_add by lia. Qed.

Lemma data_offset x : Z.shiftr (Z.land x 0xF0) 2 = 4 * (x / 16 mod 16).
Proof.
  rewrite Z.mul_comm. change 4 with (2 ^ 2). change 16 with (2 ^ 4).
  rewrite <- Z.shiftl_mul_pow2, <- Z.land_ones, <- Z.shiftr_div_pow2 by lia.
  apply Z.bits_inj'. intros n Hn. rewrite Z.shiftr_spec, Z.shiftl_spec, Z.land_spec by lia.
  change 0xF0 with (Z.shiftl (Z.ones 4) 4). rewrite Z.shiftl_spec by lia.
  destruct (Z.leb_spec 2 n).
  - rewrite Z.land_spec, Z.shiftr_spec by lia. f_equal; f_equal; lia.
  - rewrite (Z.testbit_neg_r _ (n - 2)) by lia. rewrite (Z.testbit_neg_r _ (n + 2 - 4)) by lia. apply andb_false_r.
Qed.

Lemma ihl_mod x : u8 (Z.shiftl (Z.land x 0x0F) 2) = 4 * (x mod 16).
Proof.
  unfold u8. change 0x0F with (Z.ones 4). rewrite Z.land_ones, Z.shiftl_mul_pow2 by lia.
  pose proof (Z.mod_pos_bound x (2 ^ 4) ltac:(lia)).
  rewrite Z.mod_small by lia. change (2 ^ 4) with 16. lia.
Qed.

(** The result is either marked unknown, or describes the packet. *)
Definition describes (b : bytes) (q : Parsed) : Prop :=
  q_b q = b ∧ IPVersion q ∈ [0; 4; 6] ∧
  (IPProto q = Unknown ∨ ip_header b q ∧ transport_header b q).

Lemma describes_unknown b q :
  q_b q = b → IPVersion q ∈ [0; 4; 6] → IPProto q = Unknown → describes b q.
Proof. intros. split_and!; auto. Qed.

Lemma ip_header_version b q : ip_header b q → IPVersion q ∈ [0; 4; 6].
Proof. intros [(-> & _)|(-> & _)]; set_solver. Qed.

(** The transport part, when the IP part is settled. *)
Lemma describes_transport b q :
  q_b q = b → ip_header b q → transport_header b q → describes b q.
Proof. intros. split_and!; [done|by eapply ip_header_version|by right]. Qed.

Lemma describes_set_unknown b q :
  q_b q = b → ip_header b q → describes b (set_IPProto Unknown q).
Proof. intros. apply describes_unknown; [done|by eapply (ip_header_version b q)|done]. Qed.

Section Transport_cases.
Context (b : bytes) (q : Parsed).
Hypothesis Hb : q_b q = b.
Hypothesis Hh : ip_header b q.
Hypothesis Hf : frag_offset b q = 0.
Let sub := drop (Z.to_nat (subofs q)) b.

Lemma subofs_range : 0 <= subofs q <= zlen b.
Proof using Hh.
  destruct Hh as [(_ & _ & _ & _ & _ & _ & E & ?)|(_ & _ & _ & _ & _ & E & ? & _)]; rewrite E in *.
  - pose proof (Z.mod_pos_bound (byte_at b 0) 16). lia.
  - lia.
Qed.

Lemma sub_length : zlen sub = zlen b - subofs q.
Proof using Hh. apply zlen_drop, subofs_range. Qed.

Lemma sub_byte i : 0 <= i → byte_at sub i = byte_at b (subofs q + i).
Proof using Hh. intros Hi. pose proof subofs_range. unfold sub. by rewrite byte_at_drop by lia. Qed.

(** The transport fields of a result that kept the IP fields and the protocol. *)
Lemma transport_of_known q' :
  q_b q' = b → IPVersion q' = IPVersion q → IPProto q' = IPProto q →
  subofs q' = subofs q → q_length q' = q_length q →
  ap_Addr (Src q') = ap_Addr (Src q) → ap_Addr (Dst q') = ap_Addr (Dst q) →
  IPProto q ≠ Fragment →
  (∀ n, header_need (IPVersion q) (IPProto q) = Some n → n <= zlen sub) →
  (has_ports (IPProto q) = true → ap_Port (Src q') = be_at 2 sub 0 ∧ ap_Port (Dst q') = be_at 2 sub 2) →
  (IPProto q = TCP → TCPFlags q' = byte_at sub 13) →
  (∀ n, payload_start b q = Some n → dataofs q' = subofs q + n) →
  describes b q'.
Proof using All.
  intros Hb' Ev Ep Es El Esrc Edst Hnf Hn Hports Hflags Hdata.
  pose proof sub_length. pose proof subofs_range.
  apply describes_transport; [done| |].
  - unfold ip_header, ip4_header, ip6_header in *. by rewrite Ev, Es, El, Esrc, Edst.
  - unfold transport_header, frag_offset in *. rewrite Ev, Ep, Es. split_and!.
    + intros n Hn'. split; [done|]. specialize (Hn n Hn'). lia.
    + intros Hpt. destruct (Hports Hpt) as [-> ->]. unfold sub.
      by rewrite !be_at_drop, Z.add_0_r by lia.
    + intros Ht. rewrite (Hflags Ht). unfold sub. by rewrite byte_at_drop by lia.
    + unfold payload_start in *. by rewrite Ev, Ep, Es.
    + done.
Qed.

(** A case of a decoder for one known protocol, whose header is present. *)
Ltac known_case Hp :=
  apply transport_of_known; pkt_fields; rewrite ?Hp; try done;
  let n := fresh "n" in let Hn := fresh "Hn" in
  intros n Hn; unfold header_need, payload_start in Hn; rewrite ?Hp in Hn; unfold TCP, UDP, SCTP, TSMP, ICMPv4, ICMPv6, IGMP in Hn; cbn in Hn;
  repeat match type of Hn with context [IPVersion ?x =? ?y] => destruct (IPVersion x =? y) end;
  cbn in Hn; simplify_eq; pkt_consts; lia.

Lemma decodeTCP_describes : IPProto q = TCP → ∃ q', decodeTCP sub q = Ok q' ∧ describes b q'.
Proof using All.
  intros Hp. rewrite decodeTCP_Ok, data_offset, (sub_byte 12) by lia. eexists; split; [done|].
  destruct (_ <? _) eqn:E; [by apply describes_set_unknown|]. bool_prop. known_case Hp.
Qed.

Lemma decodeUDP_describes : IPProto q = UDP → ∃ q', decodeUDP sub q = Ok q' ∧ describes b q'.
Proof using All.
  intros Hp. rewrite decodeUDP_Ok. eexists; split; [done|].
  destruct (_ <? _) eqn:E; [by apply describes_set_unknown|]. bool_prop. known_case Hp.
Qed.

Lemma decodeSCTP_describes : IPProto q = SCTP → ∃ q', decodeSCTP sub q = Ok q' ∧ describes b q'.
Proof using All.
  intros Hp. rewrite decodeSCTP_Ok. eexists; split; [done|].
  destruct (_ <? _) eqn:E; [by apply describes_set_unknown|]. bool_prop. known_case Hp.
Qed.

Lemma decodeICMP_describes n :
  (IPProto q = ICMPv4 ∧ n = icmp4HeaderLength ∨ IPProto q = ICMPv6 ∧ n = icmp6HeaderLength) →
  ∃ q', decodeICMP sub n q = Ok q' ∧ describes b q'.
Proof using All.
  intros Hp. rewrite decodeICMP_Ok. eexists; split; [done|].
  destruct (_ <? _) eqn:E; [by apply describes_set_unknown|]. bool_prop.
  destruct Hp as [[Hp ->]|[Hp ->]]; known_case Hp.
Qed.

Lemma decodeTSMP_describes :
  IPProto q = TSMP →
  describes b (if zlen sub <? minTSMPSize then set_IPProto Unknown q else set_dataofs (subofs q) q).
Proof using All.
  intros Hp. destruct (_ <? _) eqn:E; [by apply describes_set_unknown|]. bool_prop. known_case Hp.
Qed.

Lemma decodeOther_describes :
  (∀ n, header_need (IPVersion q) (IPProto q) = Some n → n <= zlen sub) →
  has_ports (IPProto q) = false → payload_start b q = None → IPProto q ≠ Fragment → describes b q.
Proof using All.
  intros Hn Hports Ht Hfr. apply transport_of_known; try done; [|intros Hp|].
  - by rewrite Hports.
  - by rewrite Hp in Hports.
  - by rewrite Ht.
Qed.

(** The switch of the first fragment ends in a faithful description. *)
Lemma decode4_first_describes more :
  IPVersion q = 4 → ∃ q', decode4_first sub more q = Ok q' ∧ describes b q'.
Proof using All.
  intros Hv. unfold decode4_first.
  destruct (IPProto q =? ICMPv4) eqn:E1; bool_prop; [apply decodeICMP_describes; auto|].
  destruct (IPProto q =? IGMP) eqn:E2; bool_prop.
  { eexists; split; [done|]. destruct (_ <? _) eqn:E; [by apply describes_set_unknown|]. bool_prop.
    apply decodeOther_describes; unfold payload_start; rewrite E2, ?Hv; try done. intros n [= <-]. done. }
  destruct (IPProto q =? TCP) eqn:E3; bool_prop; [by apply decodeTCP_describes|].
  destruct (IPProto q =? UDP) eqn:E4; bool_prop; [by apply decodeUDP_describes|].
  destruct (IPProto q =? SCTP) eqn:E5; bool_prop; [by apply decodeSCTP_describes|].
  destruct (IPProto q =? TSMP) eqn:E6; bool_prop.
  { eexists; split; [done|]. destruct more; [by apply describes_set_unknown|].
    by apply decodeTSMP_describes. }
  destruct (IPProto q =? Fragment) eqn:E7; bool_prop;
    (eexists; split; [done|]); [by apply describes_set_unknown|].
  apply decodeOther_describes; try done; unfold header_need, has_ports, payload_start;
    repeat match goal with H : IPProto q ≠ ?c |- _ => apply Z.eqb_neq in H; rewrite H; clear H end;
    rewrite ?Hv; done.
Qed.
End Transport_cases.

Lemma land_frag x : Z.land x 0x1FFF = x mod 2 ^ 13.
Proof. change 0x1FFF with (Z.ones 13). by rewrite Z.land_ones by lia. Qed.

Lemma decode4_describes q b :
  q_b q = b → IPVersion q = 4 → byte_at b 0 / 16 = 4 →
  ∃ q', decode4 q b = Ok q' ∧ describes b q'.
Proof.
  intros Hb Hv H0. unfold decode4. pkt_consts.
  destruct (zlen b <? 20) eqn:E20.
  { eexists; split; [done|]. apply describes_unknown; pkt_fields; [done|set_solver|done]. }
  bool_prop. pkt_access.
  destruct (zlen b <? _) eqn:El.
  { eexists; split; [done|]. apply describes_unknown; pkt_fields; [done|rewrite Hv; set_solver|done]. }
  bool_prop. rewrite ihl_mod.
  pose proof (Z.mod_pos_bound (byte_at b 0) 16 ltac:(lia)).
  destruct (_ <? 4 * _) eqn:Es.
  { eexists; split; [done|]. apply describes_unknown; pkt_fields; [done|rewrite Hv; set_solver|done]. }
  bool_prop. pkt_access. rewrite land_frag.
  change (Z.to_nat 16 - Z.to_nat 12)%nat with 4%nat. change (Z.to_nat 20 - Z.to_nat 16)%nat with 4%nat.
  match goal with |- context [decode4_first _ _ ?x] => set (q1 := x) end.
  assert (ip_header b q1) as Hh by (left; split_and!; done).
  destruct (_ =? 0) eqn:Ef; bool_prop.
  { apply (decode4_first_describes b q1); try done. unfold frag_offset. cbn [q1 set_subofs set_DstIP
      set_SrcIP set_Src set_Dst set_length set_IPProto IPVersion]. by rewrite Hv. }
  destruct (_ <? minFragBlks) eqn:Eb; bool_prop; (eexists; split; [done|]).
  { by apply (describes_set_unknown b q1). }
  apply describes_transport; [done|done|]. unfold transport_header, frag_offset, payload_start. pkt_fields.
  cbn [q1 set_subofs set_DstIP set_SrcIP set_Src set_Dst set_length set_IPProto IPVersion].
  rewrite Hv. cbn. by split_and!.
Qed.

Lemma decode6_describes q b :
  q_b q = b → IPVersion q = 6 → byte_at b 0 / 16 = 6 →
  ∃ q', decode6 q b = Ok q' ∧ describes b q'.
Proof.
  intros Hb Hv H0. unfold decode6. pkt_consts.
  destruct (zlen b <? 40) eqn:E40.
  { eexists; split; [done|]. apply describes_unknown; pkt_fields; [done|set_solver|done]. }
  bool_prop. pkt_access.
  destruct (zlen b <? _) eqn:El.
  { eexists; split; [done|]. apply describes_unknown; pkt_fields; [done|rewrite Hv; set_solver|done]. }
  bool_prop. pkt_access.
  change (Z.to_nat 24 - Z.to_nat 8)%nat with 16%nat. change (Z.to_nat 40 - Z.to_nat 24)%nat with 16%nat.
  match goal with |- context [decode6_switch _ ?x] => set (q1 := x) end.
  assert (ip_header b q1) as Hh by (right; split_and!; done).
  assert (frag_offset b q1 = 0) as Hf by (unfold frag_offset; pkt_fields; cbn [q1 set_subofs set_DstIP
      set_SrcIP set_Src set_Dst set_length set_IPProto IPVersion]; by rewrite Hv).
  unfold decode6_switch.
  destruct (IPProto q1 =? ICMPv6) eqn:E1; bool_prop; [apply (decodeICMP_describes b q1); auto|].
  destruct (IPProto q1 =? TCP) eqn:E3; bool_prop; [by apply (decodeTCP_describes b q1)|].
  destruct (IPProto q1 =? UDP) eqn:E4; bool_prop; [by apply (decodeUDP_describes b q1)|].
  destruct (IPProto q1 =? SCTP) eqn:E5; bool_prop; [by apply (decodeSCTP_describes b q1)|].
  destruct (IPProto q1 =? TSMP) eqn:E6; bool_prop; [eexists; split; [done|by apply (decodeTSMP_describes b q1)]|].
  destruct (IPProto q1 =? Fragment) eqn:E7; bool_prop;
    (eexists; split; [done|]); [by apply (describes_set_unknown b q1)|].
  apply (decodeOther_describes b q1); try done; unfold header_need, has_ports, payload_start;
    repeat match goal with H : IPProto q1 ≠ ?c |- _ => apply Z.eqb_neq in H; rewrite H; clear H end;
    rewrite ?andb_false_r; try done;
    cbn [q1 set_subofs set_DstIP set_SrcIP set_Src set_Dst set_length set_IPProto IPVersion];
    by rewrite Hv.
Qed.

Lemma Decode_describes q b : ∃ q', Decode q b = Ok q' ∧ describes b q'.
Proof.
  unfold Decode. destruct (zlen b <? 1) eqn:E1.
  { eexists; split; [done|]. apply describes_unknown; pkt_fields; [done|set_solver|done]. }
  bool_prop. pkt_access. rewrite Z.shiftr_div_pow2 by lia. change (2 ^ 4) with 16.
  destruct (_ =? 4) eqn:E4; bool_prop; [by apply decode4_describes|].
  destruct (_ =? 6) eqn:E6; bool_prop; [by apply decode6_describes|].
  eexists; split; [done|]. apply describes_unknown; pkt_fields; [done|set_solver|done].
Qed.

(** ** Recycled [Parsed] values

    The data plane decodes into a [Parsed] that held another packet, and
    [Decode] does not reset every field.  [same_packet] relates two decodings
    that agree on the fields that are valid for their protocol. *)
Definition same_packet (q1 q2 : Parsed) : Prop :=
  q_b q1 = q_b q2 ∧ IPVersion q1 = IPVersion q2 ∧ IPProto q1 = IPProto q2 ∧
  (IPProto q1 ≠ Unknown →
     ap_Addr (Src q1) = ap_Addr (Src q2) ∧ ap_Addr (Dst q1) = ap_Addr (Dst q2) ∧
     subofs q1 = subofs q2 ∧ q_length q1 = q_length q2) ∧
  (has_ports (IPProto q1) = true → Src q1 = Src q2 ∧ Dst q1 = Dst q2) ∧
  (IPProto q1 = TCP → TCPFlags q1 = TCPFlags q2).

(** Two results with the same version and protocol. *)
Definition same_kind (r1 r2 : res Parsed) : Prop :=
  match r1, r2 with
  | Ok q1, Ok q2 => IPVersion q1 = IPVersion q2 ∧ IPProto q1 = IPProto q2
  | _, _ => False
  end.

Ltac kind_split :=
  repeat (pkt_access; pkt_fields;
    match goal with
    | |- same_kind (if ?c then _ else _) (if ?c then _ else _) => destruct c eqn:?; bool_prop
    | |- same_kind (Ok (if ?c then _ else _)) (Ok (if ?c then _ else _)) => destruct c eqn:?; bool_prop
    end).

Lemma decode4_kind q1 q2 b :
  IPVersion q1 = IPVersion q2 → same_kind (decode4 q1 b) (decode4 q2 b).
Proof.
  intros Hv. unfold decode4, decode4_first. pkt_consts.
  pose proof (u8_ihl (byte_at b 0)).
  kind_split; rewrite ?decodeTCP_Ok, ?decodeUDP_Ok, ?decodeSCTP_Ok, ?decodeICMP_Ok; kind_split;
    by split; pkt_fields.
Qed.

Lemma decode6_kind q1 q2 b :
  IPVersion q1 = IPVersion q2 → same_kind (decode6 q1 b) (decode6 q2 b).
Proof.
  intros Hv. unfold decode6, decode6_switch. pkt_consts.
  kind_split; rewrite ?decodeTCP_Ok, ?decodeUDP_Ok, ?decodeSCTP_Ok, ?decodeICMP_Ok; kind_split;
    by split; pkt_fields.
Qed.

Lemma Decode_kind q1 q2 b : same_kind (Decode q1 b) (Decode q2 b).
Proof.
  unfold Decode. kind_split; [by split|by apply decode4_kind|by apply decode6_kind|by split].
Qed.

Lemma AddrPort_eq (x y : AddrPort) : ap_Addr x = ap_Addr y → ap_Port x = ap_Port y → x = y.
Proof. destruct x, y; cbn; congruence. Qed.

Lemma Decode_same_packet q1 q2 b r1 r2 :
  Decode q1 b = Ok r1 → Decode q2 b = Ok r2 → same_packet r1 r2.
Proof.
  intros H1 H2. pose proof (Decode_kind q1 q2 b) as Hk. rewrite H1, H2 in Hk. destruct Hk as [Hv Hp].
  destruct (Decode_describes q1 b) as (r & E & Hb1 & _ & D1). rewrite H1 in E. injection E as <-.
  destruct (Decode_describes q2 b) as (r & E & Hb2 & _ & D2). rewrite H2 in E. injection E as <-.
  unfold same_packet. rewrite Hb1, Hb2. do 3 (split; [done|]). split.
  - intros Hk. destruct D1 as [?|[D1 _]], D2 as [?|[D2 _]]; try congruence.
    unfold ip_header, ip4_header, ip6_header in *.
    destruct D1 as [D1|D1], D2 as [D2|D2]; intuition congruence.
  - destruct D1 as [Hu|[D1 T1]].
    { rewrite Hu. by split. }
    destruct D2 as [Hu|[D2 T2]].
    { rewrite <- Hp in Hu. rewrite Hu. by split. }
    unfold transport_header in T1, T2. rewrite <- Hp in T2.
    assert (subofs r1 = subofs r2 ∧ ap_Addr (Src r1) = ap_Addr (Src r2) ∧
            ap_Addr (Dst r1) = ap_Addr (Dst r2)) as (Es & E1 & E2).
    { unfold ip_header, ip4_header, ip6_header in *.
      destruct D1 as [D1|D1], D2 as [D2|D2]; intuition congruence. }
    rewrite Es in *. destruct T1 as (_ & P1 & F1 & _), T2 as (_ & P2 & F2 & _).
    split; intros Hx; [|rewrite F1, F2 by done; done].
    destruct (P1 Hx), (P2 Hx). split; apply AddrPort_eq; congruence.
Qed.

(** ** The accessors on a decoded packet *)

Lemma known_subofs b q : describes b q → IPProto q ≠ Unknown → q_b q = b ∧ 0 <= subofs q <= zlen b.
Proof. intros (Hb & _ & [?|[Hh _]]) Hn; [done|]. split; [done|]. by eapply subofs_range. Qed.

Lemma icmpIs_Ok b q t c :
  describes b q → IPProto q ≠ Unknown → ∃ r, icmpIs q t c = Ok r.
Proof.
  intros Hd Hn. unfold icmpIs. destruct (known_subofs b q Hd Hn) as [-> Hs].
  destruct (_ <? _) eqn:E; [eauto|]. bool_prop. pkt_access. destruct (negb _); [eauto|]. pkt_access. eauto.
Qed.

Lemma IsError_Ok b q : describes b q → ∃ r, IsError q = Ok r.
Proof.
  intros Hd. unfold IsError.
  destruct (_ =? ICMPv4) eqn:E4; [|destruct (_ =? ICMPv6) eqn:E6; [|eauto]]; bool_prop;
    (destruct (known_subofs b q Hd) as [-> Hs]; [by intros Hx; rewrite Hx in *|]);
    (destruct (_ <? _) eqn:E; [eauto|]); bool_prop; pkt_access; eauto.
Qed.

Lemma IsEchoResponse_Ok b q : describes b q → ∃ r, IsEchoResponse q = Ok r.
Proof.
  intros Hd. unfold IsEchoResponse.
  destruct (_ =? ICMPv4) eqn:E4; [|destruct (_ =? ICMPv6) eqn:E6; [|eauto]]; bool_prop;
    (eapply icmpIs_Ok; [done|by intros Hx; rewrite Hx in *]).
Qed.

Lemma IsEchoRequest_Ok b q : describes b q → ∃ r, IsEchoRequest q = Ok r.
Proof.
  intros Hd. unfold IsEchoRequest.
  destruct (_ =? ICMPv4) eqn:E4; [|destruct (_ =? ICMPv6) eqn:E6; [|eauto]]; bool_prop;
    (eapply icmpIs_Ok; [done|by intros Hx; rewrite Hx in *]).
Qed.

Lemma EchoIDSeq_Ok q : ∃ r, EchoIDSeq q = Ok r.
Proof.
  unfold EchoIDSeq. pkt_consts.
  destruct (_ =? ICMPv4); [|destruct (_ =? ICMPv6); [|eauto]];
    (destruct (_ <? _) eqn:E; [eauto|]); bool_prop; rewrite LE_Uint32_Ok by lia; eauto.
Qed.

Lemma TSMP_Payload_Ok b q :
  describes b q → Forall is_byte b → IPProto q = TSMP →
  Payload q = Ok (take (Z.to_nat (q_length q) - Z.to_nat (subofs q)) (drop (Z.to_nat (subofs q)) b)).
Proof.
  intros (Hb & _ & [Hu|[Hh Ht]]) Hby Hp; [by rewrite Hu in Hp|].
  destruct Ht as (_ & _ & _ & Hd & _). specialize (Hd 0). rewrite Z.add_0_r in Hd.
  unfold Payload. rewrite Hd, Hb by (unfold payload_start; by rewrite Hp).
  assert (subofs q <= q_length q <= zlen b) as Hl.
  { destruct Hh as [(_ & _ & _ & _ & _ & _ & _ & ?)|(_ & _ & -> & _ & _ & -> & ? & ?)]; [done|].
    pose proof (be_at_bound 2 b 4 Hby ltac:(lia) ltac:(lia)). lia. }
  pose proof (subofs_range b q Hh).
  replace (zlen b <? q_length q) with false by lia.
  replace (zlen b <? subofs q) with false by lia. cbn [orb]. by rewrite slice_Ok by lia.
Qed.

(** An IPv4 UDP packet from 100.64.0.1:53 to 100.64.0.2:4242, with payload "hi". *)
Definition udpPkt : bytes :=
  [0x45; 0; 0; 30; 0; 1; 0; 0; 64; 17; 0; 0; 100; 64; 0; 1; 100; 64; 0; 2;
   0; 53; 16; 146; 0; 10; 0; 0; 104; 105].

Lemma udpPkt_bytes : Forall is_byte udpPkt.
Proof. by apply (bool_decide_unpack _). Qed.

(** C8. What the decoder reports is what the packet says.  Unless the packet is
    marked unknown, its version, addresses, length and transport offset are
    those of its IP header and the packet lies within the buffer; a TCP, UDP,
    SCTP, TSMP, ICMP or IGMP packet is a first fragment whose whole transport
    header is in the buffer, so its ports and flags are the ones on the wire;
    and a packet passed as a later fragment starts beyond every possible
    transport header (RFC 1858). *)
Theorem Decode_reports_the_wire q b q' :
  Decode q b = Ok q' →
  q_b q' = b ∧ IPVersion q' ∈ [0; 4; 6] ∧
  (IPProto q' = Unknown ∨ ip_header b q' ∧ transport_header b q').
Proof.
  intros Hq. destruct (Decode_describes q b) as (r & E & Hd). rewrite Hq in E. by injection E as <-.
Qed.

Definition udpParsed : Parsed :=
  mkParsed udpPkt 20 28 30 4 UDP (AddrPortFrom (ip4 100 64 0 1) 53)
    (AddrPortFrom (ip4 100 64 0 2) 4242) 0 CaptureMeta_zero.

Lemma udpPkt_decodes : Decode Parsed_zero udpPkt = Ok udpParsed.
Proof. by vm_compute. Qed.

Lemma Decode_reports_the_wire_witness :
  q_b udpParsed = udpPkt ∧ IPVersion udpParsed ∈ [0; 4; 6] ∧
  (IPProto udpParsed = Unknown ∨ ip_header udpPkt udpParsed ∧ transport_header udpPkt udpParsed).
Proof. exact (Decode_reports_the_wire Parsed_zero udpPkt udpParsed udpPkt_decodes). Defined.

(** Decoding does not leak the previous packet: two decodings of the same
    bytes into [Parsed] values with different histories agree on the version,
    the protocol, the addresses and offsets of a known packet, the ports of a
    TCP, UDP or SCTP packet, and the flags of a TCP packet. *)
Theorem Decode_forgets_previous_packet q1 q2 b r1 r2 :
  Decode q1 b = Ok r1 → Decode q2 b = Ok r2 → same_packet r1 r2.
Proof. apply Decode_same_packet. Qed.

(** A [Parsed] left over from a TCP SYN. *)
Definition staleParsed : Parsed :=
  mkParsed [1; 2; 3] 60 99 7 6 TCP (AddrPortFrom (Addr6 7 "") 80)
    (AddrPortFrom (Addr6 8 "") 443) TCPSyn CaptureMeta_zero.

Lemma udpPkt_decodes_stale : Decode staleParsed udpPkt = Ok (set_TCPFlags TCPSyn udpParsed).
Proof. by vm_compute. Qed.

Lemma Decode_forgets_previous_packet_witness :
  same_packet udpParsed (set_TCPFlags TCPSyn udpParsed).
Proof.
  exact (Decode_forgets_previous_packet Parsed_zero staleParsed udpPkt _ _
    udpPkt_decodes udpPkt_decodes_stale).
Defined.

(** [Payload] can crash on a well-formed buffer: an IPv4 UDP packet whose
    total length stops at the end of the IP header, in a buffer that holds more,
    decodes as UDP with a data offset past its length, and [Payload] slices
    backwards although its comment promises an empty result. *)
Theorem Payload_can_panic :
  ∃ b q', Forall is_byte b ∧ Decode Parsed_zero b = Ok q' ∧ IPProto q' = UDP ∧
    q_length q' <= zlen (q_b q') ∧ dataofs q' <= zlen (q_b q') ∧ Payload q' = Panic.
Proof.
  exists ([0x45; 0; 0; 20; 0; 1; 0; 0; 64; 17; 0; 0; 100; 64; 0; 1; 100; 64; 0; 2;
           0; 53; 16; 146; 0; 8; 0; 0]).
  eexists. split_and!; [by apply (bool_decide_unpack _)|by vm_compute|done|done|done|done].
Qed.

(** ICMPv4 "parameter problem" (type 12) is not recognised as an ICMP
    error: the constant of the code is 0x12. *)
Theorem param_problem_not_error q :
  IPProto q = ICMPv4 → 0 <= subofs q → byte_at (q_b q) (subofs q) = 12 → IsError q = Ok false.
Proof.
  intros Hp Hs Ht. unfold IsError. rewrite Hp. cbn [Z.eqb ICMPv4 Pos.eqb].
  destruct (_ <? _) eqn:E; [done|]. bool_prop. pkt_access. by rewrite Ht.
Qed.

Definition paramProblem : Parsed :=
  mkParsed [12; 0; 0; 0; 0; 0; 0; 0; 0x45] 0 4 9 4 ICMPv4 zeroAddrPort zeroAddrPort 0 CaptureMeta_zero.

Lemma param_problem_not_error_witness : IsError paramProblem = Ok false.
Proof. by apply (param_problem_not_error paramProblem). Defined.
