(* ===== verification/PacketHeaders.v ===== *)
(** * net/packet: building packets

    The header types of [net/packet] ([ip4.go], [ip6.go], [udp4.go], [udp6.go],
    [icmp4.go], [header.go]): [Len], [Marshal], [ToResponse], the Internet
    checksum, [Generate], and the accessors that read a header back from a
    decoded packet.  A [Marshal] checks its arguments before it writes, so on an
    error the buffer is unchanged. *)
From S2P Require Import Prelude NetBuf NetAddr Packet.

Definition errSmallBuffer : error := Errorf "buffer too small".
Definition errLargePacket : error := Errorf "packet too large".
Definition errWrongFamily : error := Errorf "wrong address family for src/dst IP".

(** A call of a marshaller whose error the caller drops: the buffer stays as it was. *)
Definition ignore_err (old : bytes) (r : res bytes) : res bytes :=
  match r with Err _ => Ok old | _ => r end.

(** The interface [Header], with the checksum of a [HeaderChecksummer]. *)
Class Header (H : Type) := {
  Len : H → Z;
  Marshal : H → bytes → res bytes;
  WriteChecksum : option (H → bytes → res bytes)
}.

Definition Generate {H} `{Header H} (h : H) (payload : bytes) : res bytes :=
  let hlen := Len h in
  let buf := replicate (Z.to_nat hlen) 0 ++ payload in
  buf ← ignore_err buf (Marshal h buf);
  match WriteChecksum with
  | Some w => w h buf
  | None => Ok buf
  end.

(** ** The Internet checksum *)
Fixpoint sumWords (ac : Z) (b : bytes) : Z :=
  match b with
  | x :: y :: b => sumWords (u32 (ac + be_val [x; y])) b
  | [x] => u32 (ac + Z.shiftl x 8)
  | [] => ac
  end.

(** [for (ac >> 16) > 0 { ac = (ac >> 16) + (ac & 0xffff) }] *)
Fixpoint foldCarries (fuel : nat) (ac : Z) : res Z :=
  match fuel with
  | O => NoFuel
  | S fuel =>
      if Z.shiftr ac 16 >? 0 then foldCarries fuel (u32 (Z.shiftr ac 16 + Z.land ac 0xffff))
      else Ok ac
  end.

(** Two rounds fold any 32-bit sum. *)
Definition ip4Checksum (b : bytes) : res Z :=
  ac ← foldCarries 3 (sumWords 0 b);
  Ok (u16 (Z.lxor ac 0xffffffff)).

(** ** IPv4 *)
Record IP4Header := { ip4_IPProto : Z; ip4_IPID : Z; ip4_Src : Addr; ip4_Dst : Addr }.

Definition IP4_Marshal (h : IP4Header) (buf : bytes) : res bytes :=
  if zlen buf <? ip4HeaderLength then Err errSmallBuffer else
  if maxPacketLength <? zlen buf then Err errLargePacket else
  if negb (Is4 (ip4_Src h)) || negb (Is4 (ip4_Dst h)) then Err errWrongFamily else
  let len := zlen buf in
  buf ← put buf 0 (Z.lor 0x40 (u8 (Z.shiftr ip4HeaderLength 2)));
  buf ← put buf 1 0;
  buf ← PutUint16 buf 2 (u16 len);
  buf ← PutUint16 buf 4 (ip4_IPID h);
  buf ← PutUint16 buf 6 0;
  buf ← put buf 8 64;
  buf ← put buf 9 (u8 (ip4_IPProto h));
  buf ← PutUint16 buf 10 0;
  src ← As4 (ip4_Src h);
  dst ← As4 (ip4_Dst h);
  buf ← put_bytes buf 12 src;
  buf ← put_bytes buf 16 dst;
  hdr ← slice buf 0 20;
  ck ← ip4Checksum hdr;
  PutUint16 buf 10 ck.

#[global] Instance IP4_Header : Header IP4Header :=
  {| Len _ := ip4HeaderLength; Marshal := IP4_Marshal; WriteChecksum := None |}.

Definition IP4_ToResponse (h : IP4Header) : IP4Header :=
  {| ip4_IPProto := ip4_IPProto h; ip4_IPID := u16 (Z.lxor (ip4_IPID h) 0xffff);
     ip4_Src := ip4_Dst h; ip4_Dst := ip4_Src h |}.

Definition ip4PseudoHeaderOffset : Z := 8.

Definition IP4_marshalPseudo (h : IP4Header) (buf : bytes) : res bytes :=
  if zlen buf <? ip4HeaderLength then Err errSmallBuffer else
  if maxPacketLength <? zlen buf then Err errLargePacket else
  let length := zlen buf - ip4HeaderLength in
  src ← As4 (ip4_Src h);
  dst ← As4 (ip4_Dst h);
  buf ← put_bytes buf 8 src;
  buf ← put_bytes buf 12 dst;
  buf ← put buf 16 0;
  buf ← put buf 17 (u8 (ip4_IPProto h));
  PutUint16 buf 18 (u16 length).

Definition set_ip4_IPProto (p : Z) (h : IP4Header) : IP4Header :=
  {| ip4_IPProto := p; ip4_IPID := ip4_IPID h; ip4_Src := ip4_Src h; ip4_Dst := ip4_Dst h |}.

(** ** IPv6 *)
Record IP6Header := { ip6_IPProto : Z; ip6_IPID : Z; ip6_Src : Addr; ip6_Dst : Addr }.

Definition IP6_Marshal (h : IP6Header) (buf : bytes) : res bytes :=
  if zlen buf <? ip6HeaderLength then Err errSmallBuffer else
  if maxPacketLength <? zlen buf then Err errLargePacket else
  let len := zlen buf in
  buf ← PutUint32 buf 0 (Z.land (ip6_IPID h) 0x000FFFFF);
  buf ← put buf 0 0x60;
  buf ← PutUint16 buf 4 (u16 (len - ip6HeaderLength));
  buf ← put buf 6 (u8 (ip6_IPProto h));
  buf ← put buf 7 64;
  buf ← put_bytes buf 8 (As16 (ip6_Src h));
  put_bytes buf 24 (As16 (ip6_Dst h)).

#[global] Instance IP6_Header : Header IP6Header :=
  {| Len _ := ip6HeaderLength; Marshal := IP6_Marshal; WriteChecksum := None |}.

Definition IP6_ToResponse (h : IP6Header) : IP6Header :=
  {| ip6_IPProto := ip6_IPProto h;
     ip6_IPID := Z.land (u32 (Z.lxor (ip6_IPID h) 0xffffffff)) 0x000FFFFF;
     ip6_Src := ip6_Dst h; ip6_Dst := ip6_Src h |}.

Definition IP6_marshalPseudo (h : IP6Header) (buf : bytes) (proto : Z) : res bytes :=
  if zlen buf <? ip6HeaderLength then Err errSmallBuffer else
  if maxPacketLength <? zlen buf then Err errLargePacket else
  let len := zlen buf in
  buf ← put_bytes buf 0 (As16 (ip6_Src h));
  buf ← put_bytes buf 16 (As16 (ip6_Dst h));
  buf ← PutUint32 buf 32 (u32 (len - ip6HeaderLength));
  buf ← put buf 36 0;
  buf ← put buf 37 0;
  buf ← put buf 38 0;
  put buf 39 (u8 proto).

Definition set_ip6_IPProto (p : Z) (h : IP6Header) : IP6Header :=
  {| ip6_IPProto := p; ip6_IPID := ip6_IPID h; ip6_Src := ip6_Src h; ip6_Dst := ip6_Dst h |}.

(** ** UDP *)
Record UDP4Header := { udp4_IP4Header : IP4Header; udp4_SrcPort : Z; udp4_DstPort : Z }.

Definition UDP4_Marshal (h : UDP4Header) (buf : bytes) : res bytes :=
  if zlen buf <? ip4HeaderLength + udpHeaderLength then Err errSmallBuffer else
  if maxPacketLength <? zlen buf then Err errLargePacket else
  let iph := set_ip4_IPProto UDP (udp4_IP4Header h) in
  let length := zlen buf - ip4HeaderLength in
  buf ← PutUint16 buf 20 (udp4_SrcPort h);
  buf ← PutUint16 buf 22 (udp4_DstPort h);
  buf ← PutUint16 buf 24 (u16 length);
  buf ← PutUint16 buf 26 0;
  buf ← ignore_err buf (IP4_marshalPseudo iph buf);
  tail ← slice_from buf ip4PseudoHeaderOffset;
  ck ← ip4Checksum tail;
  buf ← PutUint16 buf 26 ck;
  ignore_err buf (IP4_Marshal iph buf).

#[global] Instance UDP4_Header : Header UDP4Header :=
  {| Len _ := ip4HeaderLength + udpHeaderLength; Marshal := UDP4_Marshal; WriteChecksum := None |}.

Definition UDP4_ToResponse (h : UDP4Header) : UDP4Header :=
  {| udp4_IP4Header := IP4_ToResponse (udp4_IP4Header h);
     udp4_SrcPort := udp4_DstPort h; udp4_DstPort := udp4_SrcPort h |}.

Record UDP6Header := { udp6_IP6Header : IP6Header; udp6_SrcPort : Z; udp6_DstPort : Z }.

Definition UDP6_Marshal (h : UDP6Header) (buf : bytes) : res bytes :=
  if zlen buf <? ip6HeaderLength + udpHeaderLength then Err errSmallBuffer else
  if maxPacketLength <? zlen buf then Err errLargePacket else
  let iph := set_ip6_IPProto UDP (udp6_IP6Header h) in
  let length := zlen buf - ip6HeaderLength in
  buf ← PutUint16 buf 40 (udp6_SrcPort h);
  buf ← PutUint16 buf 42 (udp6_DstPort h);
  buf ← PutUint16 buf 44 (u16 length);
  buf ← PutUint16 buf 46 0;
  buf ← ignore_err buf (IP6_marshalPseudo iph buf UDP);
  ck ← ip4Checksum buf;
  buf ← PutUint16 buf 46 ck;
  ignore_err buf (IP6_Marshal iph buf).

#[global] Instance UDP6_Header : Header UDP6Header :=
  {| Len _ := ip6HeaderLength + udpHeaderLength; Marshal := UDP6_Marshal; WriteChecksum := None |}.

Definition UDP6_ToResponse (h : UDP6Header) : UDP6Header :=
  {| udp6_IP6Header := IP6_ToResponse (udp6_IP6Header h);
     udp6_SrcPort := udp6_DstPort h; udp6_DstPort := udp6_SrcPort h |}.

(** ** ICMPv4 *)
Record ICMP4Header := { icmp4_IP4Header : IP4Header; icmp4_Type : Z; icmp4_Code : Z }.

Definition ICMP4_Marshal (h : ICMP4Header) (buf : bytes) : res bytes :=
  if zlen buf <? ip4HeaderLength + icmp4HeaderLength then Err errSmallBuffer else
  if maxPacketLength <? zlen buf then Err errLargePacket else
  let iph := set_ip4_IPProto ICMPv4 (icmp4_IP4Header h) in
  buf ← put buf 20 (u8 (icmp4_Type h));
  buf ← put buf 21 (u8 (icmp4_Code h));
  buf ← ignore_err buf (IP4_Marshal iph buf);
  ck ← ip4Checksum buf;
  PutUint16 buf 22 ck.

#[global] Instance ICMP4_Header : Header ICMP4Header :=
  {| Len _ := ip4HeaderLength + icmp4HeaderLength; Marshal := ICMP4_Marshal; WriteChecksum := None |}.

Definition ICMP4_ToResponse (h : ICMP4Header) : ICMP4Header :=
  {| icmp4_IP4Header := IP4_ToResponse (icmp4_IP4Header h);
     icmp4_Type := ICMP4EchoReply; icmp4_Code := ICMP4NoCode |}.

(** ** Headers of a decoded packet *)
Definition Parsed_IP4Header (q : Parsed) : res IP4Header :=
  if negb (IPVersion q =? 4) then Panic else
  ipid ← Uint16 (q_b q) 4;
  Ok {| ip4_IPID := ipid; ip4_IPProto := IPProto q;
        ip4_Src := ap_Addr (Src q); ip4_Dst := ap_Addr (Dst q) |}.

Definition Parsed_IP6Header (q : Parsed) : res IP6Header :=
  if negb (IPVersion q =? 6) then Panic else
  w ← Uint32 (q_b q) 0;
  let ipid := Z.shiftr (u32 (Z.shiftl w 12)) 12 in
  Ok {| ip6_IPID := ipid; ip6_IPProto := IPProto q;
        ip6_Src := ap_Addr (Src q); ip6_Dst := ap_Addr (Dst q) |}.

Definition Parsed_ICMP4Header (q : Parsed) : res ICMP4Header :=
  h ← Parsed_IP4Header q;
  t ← idx (q_b q) (subofs q + 0);
  c ← idx (q_b q) (subofs q + 1);
  Ok {| icmp4_IP4Header := h; icmp4_Type := t; icmp4_Code := c |}.

Definition Parsed_UDP4Header (q : Parsed) : res UDP4Header :=
  h ← Parsed_IP4Header q;
  Ok {| udp4_IP4Header := h; udp4_SrcPort := ap_Port (Src q); udp4_DstPort := ap_Port (Dst q) |}.

(** ** The checksum theory

    [wsum] is the unbounded sum of the 16-bit words; the folded sum is the
    word congruent to it modulo 65535. *)
Fixpoint wsum (b : bytes) : Z :=
  match b with
  | x :: y :: b => x * 256 + y + wsum b
  | [x] => x * 256
  | [] => 0
  end.

(** Induction on a buffer two bytes at a time. *)
Lemma pair_ind (P : bytes → Prop) :
  P [] → (∀ x, P [x]) → (∀ x y b, P b → P (x :: y :: b)) → ∀ b, P b.
Proof.
  intros H0 H1 H2 b. enough (P b ∧ ∀ x, P (x :: b)) by tauto.
  induction b as [|y b [IH1 IH2]]; [by auto|]. split; [apply IH2|]. intros x. by apply H2.
Qed.

Lemma wsum_bound b : Forall is_byte b → 0 <= wsum b <= 65535 * ((zlen b + 1) / 2).
Proof.
  induction b as [|x|x y b IH] using pair_ind; intros Hb; [done|..].
  - inversion Hb as [|? ? Hx _]; subst. unfold is_byte in Hx.
    change (zlen [x] + 1) with (1 * 2). cbn [wsum]. rewrite Z.div_mul by lia. lia.
  - inversion Hb as [|? ? Hx Hb']; subst. inversion Hb' as [|? ? Hy Hb'']; subst.
    specialize (IH Hb''). unfold is_byte in *. cbn [wsum].
    replace (zlen (x :: y :: b) + 1) with (zlen b + 1 + 1 * 2) by (unfold zlen; cbn [length]; lia).
    rewrite Z.div_add by lia. lia.
Qed.

Lemma wsum_app a b : Nat.even (length a) = true → wsum (a ++ b) = wsum a + wsum b.
Proof.
  induction a as [|x|x y a IH] using pair_ind; intros Hk; cbn in *; [done|done|]. rewrite IH; [lia|done].
Qed.

Lemma sumWords_wsum ac b :
  Forall is_byte b → 0 <= ac → ac + wsum b < 2 ^ 32 → sumWords ac b = ac + wsum b.
Proof.
  revert ac. induction b as [|x|x y b IH] using pair_ind; intros ac Hb Hac Hs; cbn [sumWords wsum] in *.
  - lia.
  - rewrite Z.shiftl_mul_pow2 by lia. inversion Hb as [|? ? Hx _]; subst. unfold is_byte in Hx.
    unfold u32. rewrite Z.mod_small by lia. lia.
  - inversion Hb as [|? ? Hx Hb']; subst. inversion Hb' as [|? ? Hy Hb'']; subst.
    pose proof (wsum_bound b Hb''). unfold is_byte in *. unfold be_val. cbn [fold_left].
    unfold u32. rewrite Z.mod_small, IH by (done || lia). lia.
Qed.

(** One round of folding keeps the value modulo 65535, and a nonzero sum nonzero. *)
Lemma fold_round ac :
  0 <= ac < 2 ^ 32 →
  let ac' := u32 (Z.shiftr ac 16 + Z.land ac 0xffff) in
  ac' = ac / 65536 + ac mod 65536 ∧ ac' mod 65535 = ac mod 65535 ∧ (0 < ac → 0 < ac').
Proof.
  intros Hac. cbn zeta. change 0xffff with (Z.ones 16).
  rewrite Z.shiftr_div_pow2, Z.land_ones by lia. change (2 ^ 16) with 65536.
  pose proof (Z.div_mod ac 65536 ltac:(lia)) as Hdm.
  pose proof (Z.mod_pos_bound ac 65536 ltac:(lia)).
  assert (0 <= ac / 65536 < 65536) by (split; [apply Z.div_pos; lia|apply Z.div_lt_upper_bound; lia]).
  unfold u32. rewrite Z.mod_small by lia. split; [done|]. split; [|lia].
  transitivity ((65536 * (ac / 65536) + ac mod 65536) mod 65535); [|by rewrite <- Hdm].
  replace (65536 * (ac / 65536) + ac mod 65536)
    with ((ac / 65536 + ac mod 65536) + (ac / 65536) * 65535) by lia.
  by rewrite Z_mod_plus_full.
Qed.

Lemma foldCarries_spec ac :
  0 <= ac < 2 ^ 32 →
  ∃ r, foldCarries 3 ac = Ok r ∧ 0 <= r <= 65535 ∧ r mod 65535 = ac mod 65535 ∧ (0 < ac → 0 < r).
Proof.
  assert (∀ x, 0 <= x < 2 ^ 32 → (Z.shiftr x 16 >? 0) = (65536 <=? x)) as Htest.
  { intros x Hx. rewrite Z.shiftr_div_pow2 by lia. change (2 ^ 16) with 65536.
    pose proof (Z.div_mod x 65536 ltac:(lia)). pose proof (Z.mod_pos_bound x 65536 ltac:(lia)). lia. }
  assert (∀ x, x = 65536 * (x / 65536) + x mod 65536 ∧ 0 <= x mod 65536 < 65536) as Hdm.
  { intros x. split; [by apply Z.div_mod|by apply Z.mod_pos_bound]. }
  intros Hac. cbn [foldCarries]. rewrite Htest by done.
  destruct (65536 <=? ac) eqn:E1; [|exists ac; split_and!; lia || done].
  destruct (fold_round ac Hac) as (V1 & M1 & P1). revert V1 M1 P1.
  generalize (u32 (Z.shiftr ac 16 + Z.land ac 65535)). intros a1 V1 M1 P1. pose proof (Hdm ac).
  assert (0 <= a1 <= 131070) as B1 by lia. rewrite Htest by lia.
  destruct (65536 <=? a1) eqn:E2; [|exists a1; split_and!; lia || done].
  destruct (fold_round a1 ltac:(lia)) as (V2 & M2 & P2). revert V2 M2 P2.
  generalize (u32 (Z.shiftr a1 16 + Z.land a1 65535)). intros a2 V2 M2 P2. pose proof (Hdm a1).
  assert (0 <= a2 <= 65535) as B2 by lia. rewrite Htest by lia.
  replace (65536 <=? a2) with false by lia. exists a2. split_and!; try lia. done.
Qed.

Lemma not16 ac : 0 <= ac <= 65535 → u16 (Z.lxor ac 0xffffffff) = 65535 - ac.
Proof.
  intros Hac. unfold u16. change 0xffffffff with (Z.ones 32).
  assert (Z.lxor ac (Z.ones 32) mod 2 ^ 16 = Z.lnot ac mod 2 ^ 16) as ->.
  { rewrite <- !Z.land_ones by lia. apply Z.bits_inj'. intros n Hn.
    rewrite !Z.land_spec, Z.lxor_spec, Z.lnot_spec by lia.
    destruct (decide (n < 16)).
    - rewrite (Z.ones_spec_low 32) by lia. by rewrite xorb_true_r.
    - rewrite (Z.ones_spec_high 16) by lia. by rewrite !andb_false_r. }
  rewrite <- (Z.add_0_r (Z.lnot ac)). unfold Z.lnot.
  replace (Z.pred (- ac) + 0) with (65535 - ac + (-1) * 2 ^ 16) by lia.
  rewrite Z_mod_plus_full. apply Z.mod_small. lia.
Qed.

(** The checksum completes the word sum to a multiple of 65535. *)
Lemma ip4Checksum_spec b :
  Forall is_byte b → zlen b <= 65535 →
  ∃ ck, ip4Checksum b = Ok ck ∧ 0 <= ck <= 65535 ∧ (wsum b + ck) mod 65535 = 0 ∧ (0 < wsum b → ck < 65535).
Proof.
  intros Hb Hl. pose proof (wsum_bound b Hb) as Hw.
  assert ((zlen b + 1) / 2 <= 32768) by (apply Z.div_le_upper_bound; lia).
  destruct (foldCarries_spec (wsum b)) as (r & Hr & Hb' & Hm & Hp); [lia|].
  exists (65535 - r). unfold ip4Checksum. rewrite sumWords_wsum by (done || lia).
  rewrite Z.add_0_l, Hr. cbn [mbind res_bind]. rewrite not16 by done. split_and!; [done|lia|lia| |lia].
  rewrite Zplus_mod, <- Hm, <- Zplus_mod. by replace (r + (65535 - r)) with (1 * 65535) by lia.
Qed.

(** A buffer that holds its checksum verifies. *)
Lemma ip4Checksum_verifies b :
  Forall is_byte b → zlen b <= 65535 → wsum b mod 65535 = 0 → 0 < wsum b → ip4Checksum b = Ok 0.
Proof.
  intros Hb Hl Hm Hp. destruct (ip4Checksum_spec b Hb Hl) as (ck & -> & Hr & Hc & Hlt). f_equal.
  specialize (Hlt Hp). rewrite Zplus_mod, Hm, Z.add_0_l, Zmod_mod in Hc.
  rewrite Z.mod_small in Hc by lia. done.
Qed.

(** ** What the marshallers write *)

(** Run the writes on a buffer whose front is known. *)
Ltac buf_run :=
  lazy [put put_bytes overwrite overwrite_at PutUint16 PutUint32 be_bytes idx
        Z.to_nat Pos.to_nat Pos.iter_op Nat.add Nat.sub Z.ltb Z.compare Pos.compare Pos.compare_cont
        mbind res_bind app drop_exact take_exact slice slice_from orb negb Is4 As4 As16 ignore_err].

(** The list has exactly [n] elements: name them. *)
Tactic Notation "explode_exact" ident(l) hyp(Hl) int_or_var(n) :=
  do n (destruct l as [|? l]; [discriminate Hl|]); destruct l; [clear Hl|discriminate Hl].

Definition ip4_fields (h : IP4Header) (len s d ck : Z) : bytes :=
  [0x45; 0] ++ be_bytes 2 len ++ be_bytes 2 (ip4_IPID h) ++ [0; 0; 64; u8 (ip4_IPProto h)] ++
  be_bytes 2 ck ++ be_bytes 4 s ++ be_bytes 4 d.

Lemma IP4_Marshal_fields h l rest s d :
  length l = 20%nat → ip4_Src h = Addr4 s → ip4_Dst h = Addr4 d → zlen (l ++ rest) <= 65535 →
  IP4_Marshal h (l ++ rest) =
    ck ← ip4Checksum (ip4_fields h (zlen (l ++ rest)) s d 0);
    Ok (ip4_fields h (zlen (l ++ rest)) s d ck ++ rest).
Proof.
  intros Hl Hs Hd Hlen.
  assert (20 <= zlen (l ++ rest)) as H20 by (unfold zlen; rewrite length_app; lia).
  explode_exact l Hl 20.
  match goal with |- context [zlen ?x] => remember (zlen x) as len eqn:Elen end.
  unfold IP4_Marshal. rewrite <- Elen.
  assert (u16 len = len) as -> by (apply Z.mod_small; lia). clear Elen.
  unfold ip4HeaderLength, maxPacketLength.
  replace (len <? 20) with false by lia. replace (65535 <? len) with false by lia.
  rewrite Hs, Hd. buf_run. change (Z.lor 64 (u8 (Z.shiftr 20 2))) with 0x45.
  unfold ip4_fields. buf_run. change (0 / 256) with 0. change (0 mod 256) with 0. done.
Qed.

Lemma ip4_fields_byte h len s d ck : Forall is_byte (ip4_fields h len s d ck).
Proof.
  unfold ip4_fields. repeat (apply Forall_app; split); try apply be_bytes_byte;
    repeat constructor; try (unfold is_byte; lia); apply Z.mod_pos_bound; lia.
Qed.

Lemma ip4_fields_length h len s d ck : length (ip4_fields h len s d ck) = 20%nat.
Proof. unfold ip4_fields. by rewrite !length_app, !be_bytes_length. Qed.

Lemma wsum_be2 ck : 0 <= ck <= 65535 → wsum (be_bytes 2 ck) = ck.
Proof.
  intros Hck. cbn [be_bytes app wsum]. pose proof (Z.div_mod ck 256 ltac:(lia)).
  rewrite (Z.mod_small (ck / 256)); [lia|]. split; [apply Z.div_pos; lia|apply Z.div_lt_upper_bound; lia].
Qed.

Lemma ip4_fields_wsum h len s d ck :
  0 <= ck <= 65535 → wsum (ip4_fields h len s d ck) = wsum (ip4_fields h len s d 0) + ck.
Proof.
  intros Hck. unfold ip4_fields. rewrite !app_assoc.
  rewrite !(wsum_app _ (be_bytes 4 d)), !(wsum_app _ (be_bytes 4 s)), !(wsum_app _ (be_bytes 2 _)), !wsum_be2
    by (lia || by rewrite ?length_app, ?be_bytes_length). lia.
Qed.

Lemma wsum_head_pos x y b : Forall is_byte (x :: y :: b) → 0 < x → 0 < wsum (x :: y :: b).
Proof.
  intros Hb Hx. apply Forall_cons in Hb as [_ Hb]. apply Forall_cons in Hb as [Hy Hb].
  pose proof (wsum_bound b Hb). unfold is_byte in Hy. cbn [wsum]. lia.
Qed.

Lemma ip4_fields_wsum_pos h len s d ck : 0 < wsum (ip4_fields h len s d ck).
Proof. apply wsum_head_pos; [apply ip4_fields_byte|lia]. Qed.

(** The marshalled IPv4 header: its fields, with a checksum that verifies. *)
Lemma IP4_Marshal_Ok h l rest s d :
  length l = 20%nat → ip4_Src h = Addr4 s → ip4_Dst h = Addr4 d → zlen (l ++ rest) <= 65535 →
  ∃ ck, 0 <= ck <= 65535 ∧
    IP4_Marshal h (l ++ rest) = Ok (ip4_fields h (zlen (l ++ rest)) s d ck ++ rest) ∧
    ip4Checksum (ip4_fields h (zlen (l ++ rest)) s d ck) = Ok 0.
Proof.
  intros Hl Hs Hd Hlen. rewrite (IP4_Marshal_fields _ _ _ s d) by done.
  generalize (zlen (l ++ rest)). intros len.
  assert (∀ ck, zlen (ip4_fields h len s d ck) <= 65535) as Hz
    by (intros; unfold zlen; rewrite ip4_fields_length; lia).
  destruct (ip4Checksum_spec (ip4_fields h len s d 0)) as (ck & -> & Hr & Hm & _);
    [apply ip4_fields_byte|apply Hz|].
  exists ck. split; [done|]. split; [done|].
  apply ip4Checksum_verifies; [apply ip4_fields_byte|apply Hz| |apply ip4_fields_wsum_pos].
  by rewrite ip4_fields_wsum.
Qed.

Definition pseudo4 (s d proto len : Z) : bytes :=
  be_bytes 4 s ++ be_bytes 4 d ++ [0; u8 proto] ++ be_bytes 2 len.

Definition udp_fields (sp dp len ck : Z) : bytes :=
  be_bytes 2 sp ++ be_bytes 2 dp ++ be_bytes 2 len ++ be_bytes 2 ck.

Lemma IP4_marshalPseudo_fields h l rest s d :
  length l = 20%nat → ip4_Src h = Addr4 s → ip4_Dst h = Addr4 d → zlen (l ++ rest) <= 65535 →
  IP4_marshalPseudo h (l ++ rest) =
    Ok (take 8 l ++ pseudo4 s d (ip4_IPProto h) (zlen (l ++ rest) - 20) ++ rest).
Proof.
  intros Hl Hs Hd Hlen.
  assert (20 <= zlen (l ++ rest)) as H20 by (unfold zlen; rewrite length_app; lia).
  explode_exact l Hl 20.
  match goal with |- context [zlen ?x] => remember (zlen x) as len eqn:Elen end.
  unfold IP4_marshalPseudo. rewrite <- Elen. clear Elen.
  unfold ip4HeaderLength, maxPacketLength.
  assert (u16 (len - 20) = len - 20) as -> by (apply Z.mod_small; lia).
  replace (len <? 20) with false by lia. replace (65535 <? len) with false by lia.
  rewrite Hs, Hd. unfold pseudo4. cbn [take]. by buf_run.
Qed.

Lemma pseudo_udp_wsum s d sp dp len ck rest :
  0 <= ck <= 65535 →
  wsum (pseudo4 s d UDP len ++ udp_fields sp dp len ck ++ rest) =
  wsum (pseudo4 s d UDP len ++ udp_fields sp dp len 0 ++ rest) + ck.
Proof.
  intros Hck. unfold udp_fields. rewrite !app_assoc.
  rewrite !(wsum_app _ rest), !(wsum_app _ (be_bytes 2 ck)), !(wsum_app _ (be_bytes 2 0)), !wsum_be2
    by (lia || by unfold pseudo4; rewrite ?length_app, ?be_bytes_length). lia.
Qed.

Lemma pseudo_udp_byte s d sp dp len ck rest :
  Forall is_byte rest → Forall is_byte (pseudo4 s d UDP len ++ udp_fields sp dp len ck ++ rest).
Proof.
  intros. unfold pseudo4, udp_fields. rewrite !Forall_app. split_and!; try apply be_bytes_byte; try done.
  by apply (bool_decide_unpack _).
Qed.

Lemma udp_fields_wsum_len s d sp dp len ck rest :
  Forall is_byte rest → 0 < len <= 65535 →
  0 < wsum (pseudo4 s d UDP len ++ udp_fields sp dp len ck ++ rest).
Proof.
  intros Hr Hl. unfold pseudo4. rewrite <- !app_assoc.
  rewrite !wsum_app by by rewrite ?be_bytes_length. rewrite wsum_be2 by lia.
  assert (∀ b, Forall is_byte b → 0 <= wsum b) as Hnn by (intros b Hb; apply (wsum_bound b Hb)).
  pose proof (Hnn _ (be_bytes_byte 4 s)). pose proof (Hnn _ (be_bytes_byte 4 d)).
  assert (0 <= wsum [0; u8 UDP]) by done.
  assert (0 <= wsum rest) by auto.
  assert (0 <= wsum (udp_fields sp dp len ck)); [|lia].
  apply Hnn. unfold udp_fields. rewrite !Forall_app. split_and!; apply be_bytes_byte.
Qed.

(** The UDP checksum, computed over the pseudo header and the blank field. *)
Lemma udp_checksum_Ok s d sp dp len rest :
  Forall is_byte rest → zlen rest = len - 8 → len + 12 <= 65535 →
  ∃ ck, 0 <= ck <= 65535 ∧
    ip4Checksum (pseudo4 s d UDP len ++ udp_fields sp dp len 0 ++ rest) = Ok ck ∧
    ip4Checksum (pseudo4 s d UDP len ++ udp_fields sp dp len ck ++ rest) = Ok 0.
Proof.
  intros Hr Hz Hl. pose proof (zlen_nonneg rest).
  assert (∀ ck, zlen (pseudo4 s d UDP len ++ udp_fields sp dp len ck ++ rest) = len + 12) as Ez.
  { intros. unfold zlen, pseudo4, udp_fields in *. rewrite !length_app, !be_bytes_length. cbn [length]. lia. }
  destruct (ip4Checksum_spec (pseudo4 s d UDP len ++ udp_fields sp dp len 0 ++ rest))
    as (ck & -> & Hck & Hm & _); [by apply pseudo_udp_byte|rewrite Ez; lia|].
  exists ck. split; [done|]. split; [done|].
  apply ip4Checksum_verifies; [by apply pseudo_udp_byte|rewrite Ez; lia| |apply udp_fields_wsum_len; [done|lia]].
  by rewrite pseudo_udp_wsum.
Qed.

(** The UDP header is written first, with a blank checksum. *)
Lemma UDP4_put_header l1 l2 rest sp dp len :
  length l1 = 20%nat → length l2 = 8%nat →
  (b ← PutUint16 (l1 ++ l2 ++ rest) 20 sp; b ← PutUint16 b 22 dp; b ← PutUint16 b 24 len;
   PutUint16 b 26 0) = Ok (l1 ++ udp_fields sp dp len 0 ++ rest).
Proof. intros H1 H2. explode_exact l1 H1 20. explode_exact l2 H2 8. unfold udp_fields. by buf_run. Qed.

Lemma UDP4_put_checksum l1 rest sp dp len ck :
  length l1 = 20%nat →
  PutUint16 (l1 ++ udp_fields sp dp len 0 ++ rest) 26 ck = Ok (l1 ++ udp_fields sp dp len ck ++ rest).
Proof. intros H1. explode_exact l1 H1 20. unfold udp_fields. by buf_run. Qed.

(** A marshalled UDP packet: the fields of both headers, and two checksums that
    verify (the UDP one over the pseudo header). *)
Lemma UDP4_Marshal_Ok h l1 l2 rest s d :
  let iph := set_ip4_IPProto UDP (udp4_IP4Header h) in
  let len := zlen (l1 ++ l2 ++ rest) in
  length l1 = 20%nat → length l2 = 8%nat →
  ip4_Src iph = Addr4 s → ip4_Dst iph = Addr4 d → len <= 65535 → Forall is_byte rest →
  ∃ ck ck', 0 <= ck <= 65535 ∧ 0 <= ck' <= 65535 ∧
    let udp := udp_fields (udp4_SrcPort h) (udp4_DstPort h) (len - 20) ck' ++ rest in
    UDP4_Marshal h (l1 ++ l2 ++ rest) = Ok (ip4_fields iph len s d ck ++ udp) ∧
    ip4Checksum (ip4_fields iph len s d ck) = Ok 0 ∧
    ip4Checksum (pseudo4 s d UDP (len - 20) ++ udp) = Ok 0.
Proof.
  cbn zeta. intros Hl1 Hl2 Hs Hd Hlen Hrest.
  set (iph := set_ip4_IPProto UDP (udp4_IP4Header h)) in *.
  assert (zlen (l1 ++ l2 ++ rest) = 28 + zlen rest) as Ez
    by (unfold zlen; rewrite !length_app, Hl1, Hl2; lia).
  pose proof (zlen_nonneg rest) as Hn.
  set (len := zlen (l1 ++ l2 ++ rest)) in *.
  set (udp := λ ck, udp_fields (udp4_SrcPort h) (udp4_DstPort h) (len - 20) ck ++ rest).
  assert (∀ l ck, length l = 20%nat → zlen (l ++ udp ck) = len) as El.
  { intros l ck Hl. unfold udp, udp_fields, zlen in *. rewrite !length_app, !be_bytes_length. lia. }
  destruct (udp_checksum_Ok s d (udp4_SrcPort h) (udp4_DstPort h) (len - 20) rest)
    as (ck' & Hck' & Ec & Ev); [done|lia|lia|].
  change (ip4Checksum (pseudo4 s d UDP (len - 20) ++ udp 0) = Ok ck') in Ec.
  pose proof (IP4_marshalPseudo_fields iph l1 (udp 0) s d Hl1 Hs Hd) as Hp.
  rewrite El in Hp by done. specialize (Hp Hlen).
  set (l1' := take 8 l1 ++ pseudo4 s d UDP (len - 20)).
  assert (length l1' = 20%nat) as Hl1'.
  { unfold l1', pseudo4. rewrite !length_app, length_take, !be_bytes_length, Hl1. done. }
  destruct (IP4_Marshal_Ok iph l1' (udp ck') s d Hl1' Hs Hd) as (ck & Hck & Em & Evi);
    [by rewrite El|]. rewrite El in Em, Evi by done.
  exists ck, ck'. split; [done|]. split; [done|]. split; [|done].
  unfold UDP4_Marshal. fold len iph. unfold ip4HeaderLength, udpHeaderLength, maxPacketLength.
  replace (len <? 20 + 8) with false by lia. replace (65535 <? len) with false by lia.
  assert (u16 (len - 20) = len - 20) as -> by (apply Z.mod_small; lia).
  pose proof (UDP4_put_header l1 l2 rest (udp4_SrcPort h) (udp4_DstPort h) (len - 20) Hl1 Hl2) as Hh.
  apply bind_Ok in Hh as (b1 & -> & Hh). cbn [mbind res_bind].
  apply bind_Ok in Hh as (b2 & -> & Hh). cbn [mbind res_bind].
  apply bind_Ok in Hh as (b3 & -> & Hh). cbn [mbind res_bind]. rewrite Hh. cbn [mbind res_bind].
  fold (udp 0). rewrite Hp. cbn [ignore_err mbind res_bind].
  change (ip4_IPProto iph) with UDP. rewrite app_assoc. fold l1'.
  assert (slice_from (l1' ++ udp 0) ip4PseudoHeaderOffset =
          Ok (pseudo4 s d UDP (len - 20) ++ udp 0)) as ->.
  { unfold ip4PseudoHeaderOffset. rewrite slice_from_Ok by (rewrite El by done; lia).
    change (Z.to_nat 8) with 8%nat. unfold l1'. rewrite <- app_assoc, drop_app_length'; [done|].
    rewrite length_take. lia. }
  cbn [mbind res_bind]. rewrite Ec. cbn [mbind res_bind].
  assert (PutUint16 (l1' ++ udp 0) 26 ck' = Ok (l1' ++ udp ck')) as -> by by apply UDP4_put_checksum.
  cbn [mbind res_bind]. by rewrite Em.
Qed.

(** ** Decoding what was built *)

(** An unfragmented IPv4 packet without options goes to the transport switch. *)
Lemma Decode_plain4 q b :
  20 <= zlen b → byte_at b 0 = 0x45 → 20 <= be_at 2 b 2 <= zlen b → be_at 2 b 6 = 0 →
  Decode q b = decode4_first (drop 20 b) false
    (mkParsed b 20 (dataofs q) (be_at 2 b 2) 4 (byte_at b 9)
       (AddrPortFrom (Addr4 (be_at 4 b 12)) (ap_Port (Src q)))
       (AddrPortFrom (Addr4 (be_at 4 b 16)) (ap_Port (Dst q))) (TCPFlags q) CaptureMeta_zero).
Proof.
  intros Hl H0 Hlen Hf. unfold Decode, decode4, ip4HeaderLength.
  replace (zlen b <? 1) with false by lia. pkt_access. rewrite H0. change (Z.shiftr 69 4 =? 4) with true.
  cbn match. replace (zlen b <? 20) with false by lia. pkt_access.
  replace (zlen b <? be_at 2 b 2) with false by lia.
  change (u8 (Z.shiftl (Z.land 69 15) 2)) with 20.
  replace (be_at 2 b 2 <? 20) with false by lia. pkt_access. rewrite Hf.
  change (Z.land 0 8191 =? 0) with true. done.
Qed.

Section Fields4.
Context (h : IP4Header) (s d ck : Z) (rest : bytes).
Hypothesis Hs : 0 <= s < 2 ^ 32.
Hypothesis Hd : 0 <= d < 2 ^ 32.
Hypothesis Hlen : 20 + zlen rest <= 65535.
Let b := ip4_fields h (20 + zlen rest) s d ck ++ rest.

Lemma fields4_zlen : zlen b = 20 + zlen rest.
Proof using. unfold b, zlen. rewrite length_app, ip4_fields_length. lia. Qed.

Lemma fields4_drop : drop 20 b = rest.
Proof using. unfold b. apply drop_app_length'. by rewrite ip4_fields_length. Qed.

Lemma fields4_take : take 20 b = ip4_fields h (20 + zlen rest) s d ck.
Proof using. unfold b. apply take_app_length'. by rewrite ip4_fields_length. Qed.

(** A packet that starts with a marshalled IPv4 header. *)
Lemma Decode_fields4 q :
  Decode q b = decode4_first rest false
    (mkParsed b 20 (dataofs q) (20 + zlen rest) 4 (u8 (ip4_IPProto h))
       (AddrPortFrom (Addr4 s) (ap_Port (Src q))) (AddrPortFrom (Addr4 d) (ap_Port (Dst q)))
       (TCPFlags q) CaptureMeta_zero).
Proof using Hs Hd Hlen.
  pose proof (zlen_nonneg rest).
  assert (be_at 2 b 2 = 20 + zlen rest) as E2.
  { transitivity (be_val (be_bytes 2 (20 + zlen rest))); [done|]. apply be_val_bytes_id. lia. }
  assert (be_at 4 b 12 = s) as E12.
  { transitivity (be_val (be_bytes 4 s)); [done|]. by apply be_val_bytes_id. }
  assert (be_at 4 b 16 = d) as E16.
  { transitivity (be_val (be_bytes 4 d)); [done|]. by apply be_val_bytes_id. }
  rewrite Decode_plain4; rewrite ?E2, ?fields4_zlen; try done; try lia.
  by rewrite fields4_drop, E12, E16.
Qed.

Lemma fields4_ipid : 0 <= ip4_IPID h < 65536 → be_at 2 b 4 = ip4_IPID h.
Proof using. intros. transitivity (be_val (be_bytes 2 (ip4_IPID h))); [done|]. by apply be_val_bytes_id. Qed.
End Fields4.

(** The header value a UDP4 packet carries. *)
Definition UDP4_wf (h : UDP4Header) : Prop :=
  Is4 (ip4_Src (udp4_IP4Header h)) = true ∧ Addr_wf (ip4_Src (udp4_IP4Header h)) ∧
  Is4 (ip4_Dst (udp4_IP4Header h)) = true ∧ Addr_wf (ip4_Dst (udp4_IP4Header h)) ∧
  0 <= ip4_IPID (udp4_IP4Header h) < 65536 ∧
  0 <= udp4_SrcPort h < 65536 ∧ 0 <= udp4_DstPort h < 65536.

Definition UDP4_normal (h : UDP4Header) : UDP4Header :=
  {| udp4_IP4Header := set_ip4_IPProto UDP (udp4_IP4Header h);
     udp4_SrcPort := udp4_SrcPort h; udp4_DstPort := udp4_DstPort h |}.

(** A UDP packet built by [Generate] from a [UDP4Header] and a payload
    decodes, into any recycled [Parsed], to the same header (with the protocol
    filled in) and payload, and both of its checksums verify: the IPv4 header's
    and the UDP one over the pseudo header. *)
Theorem UDP4_Generate_roundtrip h payload q :
  UDP4_wf h → Forall is_byte payload → 28 + zlen payload <= 65535 →
  ∃ buf q', Generate h payload = Ok buf ∧ Decode q buf = Ok q' ∧
    Parsed_UDP4Header q' = Ok (UDP4_normal h) ∧ Payload q' = Ok payload ∧
    ip4Checksum (take 20 buf) = Ok 0 ∧
    ip4Checksum (pseudo4 (addr_val (ap_Addr (Src q'))) (addr_val (ap_Addr (Dst q'))) UDP
                   (8 + zlen payload) ++ drop 20 buf) = Ok 0.
Proof.
  intros (H4s & Hws & H4d & Hwd & Hid & Hsp & Hdp) Hp Hlen. pose proof (zlen_nonneg payload).
  destruct (ip4_Src (udp4_IP4Header h)) as [|s|] eqn:Es; try done.
  destruct (ip4_Dst (udp4_IP4Header h)) as [|d|] eqn:Ed; try done.
  assert (zlen (replicate 20 0 ++ replicate 8 0 ++ payload) = 28 + zlen payload) as Ez
    by (unfold zlen; rewrite !length_app, !length_replicate; lia).
  destruct (UDP4_Marshal_Ok h (replicate 20 0) (replicate 8 0) payload s d)
    as (ck & ck' & Hck & Hck' & Em & Ei & Eu); try done; [by rewrite Ez|]. rewrite Ez in Em, Ei, Eu.
  replace (28 + zlen payload - 20) with (8 + zlen payload) in * by lia.
  set (udp := udp_fields (udp4_SrcPort h) (udp4_DstPort h) (8 + zlen payload) ck' ++ payload) in *.
  assert (zlen udp = 8 + zlen payload) as Eul
    by (unfold udp, udp_fields, zlen; rewrite !length_app, !be_bytes_length; lia).
  replace (28 + zlen payload) with (20 + zlen udp) in Em, Ei by lia.
  eexists _, _. split.
  { unfold Generate. change (replicate (Z.to_nat (Len h)) 0 ++ payload)
      with (replicate 20 0 ++ replicate 8 0 ++ payload).
    change (Marshal h) with (UDP4_Marshal h). by rewrite Em. }
  rewrite (Decode_fields4 _ s d ck udp Hws Hwd ltac:(lia)). cbn [set_ip4_IPProto ip4_IPProto].
  rewrite fields4_take, fields4_drop.
  unfold decode4_first. cbn [IPProto]. change (u8 UDP) with UDP.
  change (UDP =? ICMPv4) with false. change (UDP =? IGMP) with false. change (UDP =? TCP) with false.
  change (UDP =? UDP) with true. cbn match. rewrite decodeUDP_Ok.
  replace (zlen udp <? udpHeaderLength) with false by (unfold udpHeaderLength; lia).
  split; [done|].
  assert (be_at 2 udp 0 = udp4_SrcPort h) as Esp.
  { transitivity (be_val (be_bytes 2 (udp4_SrcPort h))); [done|]. by apply be_val_bytes_id. }
  assert (be_at 2 udp 2 = udp4_DstPort h) as Edp.
  { transitivity (be_val (be_bytes 2 (udp4_DstPort h))); [done|]. by apply be_val_bytes_id. }
  rewrite Esp, Edp. split_and!; [| |done|done].
  - unfold Parsed_UDP4Header, Parsed_IP4Header. pkt_fields. cbn [negb Z.eqb Pos.eqb].
    rewrite Uint16_Ok by (rewrite ?fields4_zlen; lia). rewrite fields4_ipid by done. pkt_fields.
    unfold UDP4_normal, set_ip4_IPProto. by rewrite Es, Ed.
  - unfold Payload. pkt_fields. rewrite fields4_zlen.
    replace (_ <? _) with false by lia. unfold udpHeaderLength.
    replace (_ <? 20 + 8) with false by lia. cbn [orb].
    rewrite slice_Ok by (rewrite ?fields4_zlen; lia). f_equal.
    change (Z.to_nat (20 + 8)) with (20 + 8)%nat. rewrite <- drop_drop, fields4_drop.
    unfold udp. rewrite drop_app_length' by (unfold udp_fields; by rewrite !length_app, !be_bytes_length).
    apply take_ge. fold udp. rewrite Eul. unfold zlen. lia.
Qed.

Definition sampleUDP4 : UDP4Header :=
  {| udp4_IP4Header := {| ip4_IPProto := 0; ip4_IPID := 7;
                          ip4_Src := ip4 100 64 0 1; ip4_Dst := ip4 100 64 0 2 |};
     udp4_SrcPort := 53; udp4_DstPort := 4242 |}.

Lemma sampleUDP4_wf : UDP4_wf sampleUDP4.
Proof. done. Qed.

Lemma UDP4_Generate_roundtrip_witness :
  ∃ buf q', Generate sampleUDP4 [104; 105] = Ok buf ∧ Decode staleParsed buf = Ok q' ∧
    Parsed_UDP4Header q' = Ok (UDP4_normal sampleUDP4) ∧ Payload q' = Ok [104; 105] ∧
    ip4Checksum (take 20 buf) = Ok 0 ∧
    ip4Checksum (pseudo4 (addr_val (ap_Addr (Src q'))) (addr_val (ap_Addr (Dst q'))) UDP
                   (8 + zlen [104; 105]) ++ drop 20 buf) = Ok 0.
Proof.
  apply (UDP4_Generate_roundtrip sampleUDP4 [104; 105] staleParsed sampleUDP4_wf);
    [by apply (bool_decide_unpack _)|done].
Defined.
