(* ===== verification/PacketTsmp.v ===== *)
(** * net/packet: TSMP messages and the Geneve header

    [net/packet/tsmp.go], the messages nodes exchange about a connection
    (rejections, pings, pongs, disco key advertisements), built over an IPv4 or
    IPv6 header and parsed from a decoded packet; and [net/packet/geneve.go],
    the fixed header of relayed packets. *)
From S2P Require Import Prelude NetBuf NetAddr Packet PacketHeaders.

Definition TSMPTypeRejectedConn : Z := 33.        (* '!' *)
Definition TSMPTypePing : Z := 112.               (* 'p' *)
Definition TSMPTypePong : Z := 111.               (* 'o' *)
Definition TSMPTypeDiscoAdvertisement : Z := 97.  (* 'a' *)

Definition TailscaleRejectReasonNone : Z := 0.
Definition RejectedDueToACLs : Z := 65.           (* 'A' *)
Definition RejectedDueToShieldsUp : Z := 83.      (* 'S' *)
Definition RejectReason_IsZero (r : Z) : bool := r =? TailscaleRejectReasonNone.

Definition rejectFlagBitMaybeBroken : Z := 0x1.

Record TailscaleRejectedHeader := {
  rh_IPSrc : Addr; rh_IPDst : Addr;
  rh_Src : AddrPort; rh_Dst : AddrPort;
  rh_Proto : Z; rh_Reason : Z;
  rh_MaybeBroken : bool
}.

Definition hasFlags (h : TailscaleRejectedHeader) : bool := rh_MaybeBroken h.

Definition Rejected_Len (h : TailscaleRejectedHeader) : Z :=
  let v := 1 + 1 + 1 + 2 * 2 in
  let v := if Is4 (rh_IPSrc h) then v + ip4HeaderLength
           else if Is6 (rh_IPSrc h) then v + ip6HeaderLength else v in
  if hasFlags h then v + 1 else v.

(** The body, written at the offset where the IP header ended. *)
Definition Rejected_body (h : TailscaleRejectedHeader) (off : Z) (buf : bytes) : res bytes :=
  buf ← put buf (off + 0) TSMPTypeRejectedConn;
  buf ← put buf (off + 1) (u8 (rh_Proto h));
  buf ← put buf (off + 2) (u8 (rh_Reason h));
  buf ← PutUint16 buf (off + 3) (ap_Port (rh_Src h));
  buf ← PutUint16 buf (off + 5) (ap_Port (rh_Dst h));
  if hasFlags h then
    put buf (off + 7) (if rh_MaybeBroken h then rejectFlagBitMaybeBroken else 0)
  else Ok buf.

Definition Rejected_Marshal (h : TailscaleRejectedHeader) (buf : bytes) : res bytes :=
  if zlen buf <? Rejected_Len h then Err errSmallBuffer else
  if maxPacketLength <? zlen buf then Err errLargePacket else
  if Is4 (ap_Addr (rh_Src h)) then
    let iph := {| ip4_IPProto := TSMP; ip4_IPID := 0; ip4_Src := rh_IPSrc h; ip4_Dst := rh_IPDst h |} in
    buf ← ignore_err buf (IP4_Marshal iph buf);
    Rejected_body h ip4HeaderLength buf
  else if Is6 (ap_Addr (rh_Src h)) then
    let iph := {| ip6_IPProto := TSMP; ip6_IPID := 0; ip6_Src := rh_IPSrc h; ip6_Dst := rh_IPDst h |} in
    buf ← ignore_err buf (IP6_Marshal iph buf);
    Rejected_body h ip6HeaderLength buf
  else Err (Errorf "bogus src IP").

#[global] Instance Rejected_Header : Header TailscaleRejectedHeader :=
  {| Len := Rejected_Len; Marshal := Rejected_Marshal; WriteChecksum := None |}.

(** The parsers return [None] for [ok == false]. *)
Definition AsTailscaleRejectedHeader (pp : Parsed) : res (option TailscaleRejectedHeader) :=
  p ← Payload pp;
  if zlen p <? 7 then Ok None else
  t ← idx p 0;
  if negb (t =? TSMPTypeRejectedConn) then Ok None else
  proto ← idx p 1;
  reason ← idx p 2;
  sp ← Uint16 p 3;
  dp ← Uint16 p 5;
  let h b := {| rh_Proto := proto; rh_Reason := reason;
                rh_IPSrc := ap_Addr (Src pp); rh_IPDst := ap_Addr (Dst pp);
                rh_Src := AddrPortFrom (ap_Addr (Dst pp)) sp;
                rh_Dst := AddrPortFrom (ap_Addr (Src pp)) dp;
                rh_MaybeBroken := b |} in
  if 7 <? zlen p then
    flags ← idx p 7;
    Ok (Some (h (negb (Z.land flags rejectFlagBitMaybeBroken =? 0))))
  else Ok (Some (h false)).

(** [TSMPPingRequest.Data], and the pong that echoes it. *)
Definition AsTSMPPing (pp : Parsed) : res (option bytes) :=
  if negb (IPProto pp =? TSMP) then Ok None else
  p ← Payload pp;
  if zlen p <? 9 then Ok None else
  t ← idx p 0;
  if negb (t =? TSMPTypePing) then Ok None else
  data ← slice_from p 1;
  Ok (Some (copy_array 8 data)).

Record TSMPPongReply (H : Type) := {
  pong_IPHeader : option H;
  pong_Data : bytes;
  pong_PeerAPIPort : Z
}.
Arguments pong_IPHeader {H} _.
Arguments pong_Data {H} _.
Arguments pong_PeerAPIPort {H} _.

Definition AsTSMPPong (H : Type) (pp : Parsed) : res (option (TSMPPongReply H)) :=
  if negb (IPProto pp =? TSMP) then Ok None else
  p ← Payload pp;
  if zlen p <? 9 then Ok None else
  t ← idx p 0;
  if negb (t =? TSMPTypePong) then Ok None else
  data ← slice_from p 1;
  port ← (if 11 <=? zlen p then Uint16 p 9 else Ok 0);
  Ok (Some {| pong_IPHeader := None; pong_Data := copy_array 8 data; pong_PeerAPIPort := port |}).

Section Pong.
Context {H : Type} `{Header H}.

(** A nil [IPHeader] is a nil interface: the call on it panics. *)
Definition Pong_Marshal (h : TSMPPongReply H) (buf : bytes) : res bytes :=
  match pong_IPHeader h with
  | None => Panic
  | Some iph =>
      if zlen buf <? Len iph + 11 then Err errSmallBuffer else
      buf ← Marshal iph buf;
      let off := Len iph in
      buf ← put buf (off + 0) TSMPTypePong;
      buf ← put_bytes buf (off + 1) (pong_Data h);
      PutUint16 buf (off + 9) (pong_PeerAPIPort h)
  end.

#[global] Instance Pong_Header : Header (TSMPPongReply H) :=
  {| Len h := match pong_IPHeader h with Some iph => Len iph + 11 | None => 11 end;
     Marshal := Pong_Marshal; WriteChecksum := None |}.
End Pong.

Record TSMPDiscoKeyAdvertisement := { ka_Src : Addr; ka_Dst : Addr; ka_Key : bytes }.

Definition DiscoAdvertisement_Marshal (ka : TSMPDiscoKeyAdvertisement) : res bytes :=
  let payload := TSMPTypeDiscoAdvertisement :: ka_Key ka in
  if negb (zlen payload =? 33) then Err (Errorf "expected payload length 33") else
  if Is4 (ka_Src ka) then
    Generate {| ip4_IPProto := TSMP; ip4_IPID := 0; ip4_Src := ka_Src ka; ip4_Dst := ka_Dst ka |} payload
  else
    Generate {| ip6_IPProto := TSMP; ip6_IPID := 0; ip6_Src := ka_Src ka; ip6_Dst := ka_Dst ka |} payload.

Definition AsTSMPDiscoAdvertisement (pp : Parsed) : res (option TSMPDiscoKeyAdvertisement) :=
  if negb (IPProto pp =? TSMP) then Ok None else
  p ← Payload pp;
  if zlen p <? 33 then Ok None else
  t ← idx p 0;
  if negb (t =? TSMPTypeDiscoAdvertisement) then Ok None else
  k ← slice p 1 33;
  Ok (Some {| ka_Src := ap_Addr (Src pp); ka_Dst := ap_Addr (Dst pp); ka_Key := k |}).

(** ** Geneve *)
Definition GeneveFixedHeaderLength : Z := 8.
Definition vniSetMask : Z := 0xFF000000.
Definition vniGetMask : Z := 0x00FFFFFF.

(** [VirtualNetworkID._vni], a [uint32] whose top byte marks it as set *)
Definition VNI_IsSet (v : Z) : bool := negb (Z.land v vniSetMask =? 0).
Definition VNI_Set (vni : Z) : Z := Z.lor vni vniSetMask.
Definition VNI_Get (v : Z) : Z := Z.land v vniGetMask.

Record GeneveHeader := { gh_Version : Z; gh_Protocol : Z; gh_VNI : Z; gh_Control : bool }.

Definition Geneve_Encode (h : GeneveHeader) (b : bytes) : res bytes :=
  if zlen b <? GeneveFixedHeaderLength then Err (Errorf "short buffer") else
  if negb (VNI_IsSet (gh_VNI h)) then Err (Errorf "VNI is unset") else
  if gh_Version h >? 3 then Err (Errorf "version must be <= 3") else
  b ← put b 0 (Z.lor 0 (u8 (Z.shiftl (gh_Version h) 6)));
  b ← put b 1 (if gh_Control h then Z.lor 0 0x80 else 0);
  b ← PutUint16 b 2 (gh_Protocol h);
  PutUint32 b 4 (u32 (Z.shiftl (VNI_Get (gh_VNI h)) 8)).

(** [Decode] fills in a header; it sets [Control] but never clears it. *)
Definition Geneve_Decode (h : GeneveHeader) (b : bytes) : res GeneveHeader :=
  if zlen b <? GeneveFixedHeaderLength then Err (Errorf "short buffer") else
  b0 ← idx b 0;
  b1 ← idx b 1;
  proto ← Uint16 b 2;
  vni ← Uint32 b 4;
  Ok {| gh_Version := Z.shiftr b0 6;
        gh_Control := if negb (Z.land b1 0x80 =? 0) then true else gh_Control h;
        gh_Protocol := proto;
        gh_VNI := VNI_Set (Z.shiftr vni 8) |}.

(** ** IPv6 headers on the wire *)
Definition ip6_fields (h : IP6Header) (plen s d : Z) : bytes :=
  (0x60 :: drop 1 (be_bytes 4 (Z.land (ip6_IPID h) 0x000FFFFF))) ++ be_bytes 2 plen ++
  [u8 (ip6_IPProto h); 64] ++ be_bytes 16 s ++ be_bytes 16 d.

Lemma IP6_Marshal_fields h l rest :
  length l = 40%nat → zlen (l ++ rest) <= 65535 →
  IP6_Marshal h (l ++ rest) =
    Ok (ip6_fields h (zlen rest) (As16_val (ip6_Src h)) (As16_val (ip6_Dst h)) ++ rest).
Proof.
  intros Hl Hlen. assert (zlen (l ++ rest) = 40 + zlen rest) as Ez
    by (unfold zlen; rewrite length_app, Hl; lia).
  pose proof (zlen_nonneg rest). explode_exact l Hl 40.
  unfold IP6_Marshal. rewrite Ez. unfold ip6HeaderLength, maxPacketLength. rewrite Ez in Hlen.
  replace (40 + zlen rest <? 40) with false by lia. replace (65535 <? 40 + zlen rest) with false by lia.
  replace (40 + zlen rest - 40) with (zlen rest) by lia.
  assert (u16 (zlen rest) = zlen rest) as -> by (apply Z.mod_small; lia).
  unfold ip6_fields. buf_run. done.
Qed.

Lemma ip6_fields_length h plen s d : length (ip6_fields h plen s d) = 40%nat.
Proof. unfold ip6_fields. rewrite !length_app, !be_bytes_length. done. Qed.

Lemma be_at_mid n (a m c : bytes) i :
  length m = n → length a = Z.to_nat i → be_at n (a ++ m ++ c) i = be_val m.
Proof.
  intros Hm Ha. unfold be_at. rewrite drop_app_length' by done. by rewrite take_app_length' by done.
Qed.

(** An IPv6 packet goes to the protocol switch. *)
Lemma Decode_plain6 q b :
  40 <= zlen b → byte_at b 0 = 0x60 → be_at 2 b 4 + 40 <= zlen b →
  Decode q b = decode6_switch (drop 40 b)
    (mkParsed b 40 (dataofs q) (be_at 2 b 4 + 40) 6 (byte_at b 6)
       (AddrPortFrom (Addr6 (be_at 16 b 8) "") (ap_Port (Src q)))
       (AddrPortFrom (Addr6 (be_at 16 b 24) "") (ap_Port (Dst q)))
       (TCPFlags q) CaptureMeta_zero).
Proof.
  intros Hl H0 Hlen. unfold Decode, decode6, ip6HeaderLength.
  replace (zlen b <? 1) with false by lia.
  pkt_access. rewrite H0. change (Z.shiftr 0x60 4 =? 4) with false.
  change (Z.shiftr 0x60 4 =? 6) with true. cbn match. replace (zlen b <? 40) with false by lia.
  replace (zlen b <? be_at 2 b 4 + 40) with false by lia. done.
Qed.

Section Fields6.
Context (h : IP6Header) (s d : Z) (rest : bytes).
Hypothesis Hs : 0 <= s < 2 ^ 128.
Hypothesis Hd : 0 <= d < 2 ^ 128.
Hypothesis Hlen : zlen rest <= 65535 - 40.
Let b := ip6_fields h (zlen rest) s d ++ rest.
Let front := 0x60 :: drop 1 (be_bytes 4 (Z.land (ip6_IPID h) 0x000FFFFF)).
Let mid := [u8 (ip6_IPProto h); 64].

Lemma fields6_eq : b = front ++ be_bytes 2 (zlen rest) ++ mid ++ be_bytes 16 s ++ be_bytes 16 d ++ rest.
Proof using. unfold b, ip6_fields, front, mid. by rewrite <- !app_assoc. Qed.

Lemma front_length : length front = 4%nat.
Proof using. done. Qed.

Lemma fields6_zlen : zlen b = 40 + zlen rest.
Proof using. unfold b, zlen. rewrite length_app, ip6_fields_length. lia. Qed.

Lemma fields6_drop : drop 40 b = rest.
Proof using. apply drop_app_length'. by rewrite ip6_fields_length. Qed.

Lemma fields6_len : be_at 2 b 4 = zlen rest.
Proof using Hlen.
  pose proof (zlen_nonneg rest).
  rewrite fields6_eq, be_at_mid by (apply be_bytes_length || done). apply be_val_bytes_id. lia.
Qed.

Lemma fields6_src : be_at 16 b 8 = s.
Proof using Hs.
  rewrite fields6_eq, (app_assoc (be_bytes 2 _)), (app_assoc front).
  rewrite be_at_mid; [by apply be_val_bytes_id|apply be_bytes_length|].
  rewrite !length_app, be_bytes_length, front_length. done.
Qed.

Lemma fields6_dst : be_at 16 b 24 = d.
Proof using Hd.
  rewrite fields6_eq, (app_assoc mid), (app_assoc (be_bytes 2 _)), (app_assoc front).
  rewrite be_at_mid; [by apply be_val_bytes_id|apply be_bytes_length|].
  rewrite !length_app, !be_bytes_length, front_length. done.
Qed.

Lemma fields6_proto : byte_at b 6 = u8 (ip6_IPProto h).
Proof using. rewrite fields6_eq. done. Qed.

(** A packet that starts with a marshalled IPv6 header. *)
Lemma Decode_fields6 q :
  Decode q b = decode6_switch rest
    (mkParsed b 40 (dataofs q) (40 + zlen rest) 6 (u8 (ip6_IPProto h))
       (AddrPortFrom (Addr6 s "") (ap_Port (Src q))) (AddrPortFrom (Addr6 d "") (ap_Port (Dst q)))
       (TCPFlags q) CaptureMeta_zero).
Proof using Hs Hd Hlen.
  pose proof (zlen_nonneg rest).
  rewrite Decode_plain6; rewrite ?fields6_len, ?fields6_zlen; [|lia|by rewrite fields6_eq|lia].
  by rewrite fields6_drop, fields6_src, fields6_dst, fields6_proto, (Z.add_comm (zlen rest)).
Qed.
End Fields6.

(** ** TSMP payloads *)

(** A TSMP packet over either header: what it carries reads back as the payload. *)
Lemma Payload_tsmp q payload hdr :
  zlen hdr = subofs q → dataofs q = subofs q → q_length q = subofs q + zlen payload →
  q_b q = hdr ++ payload → Payload q = Ok payload.
Proof.
  intros Hh Hd Hl Hb. unfold Payload. rewrite Hd, Hl, Hb.
  assert (zlen (hdr ++ payload) = subofs q + zlen payload) as Ez
    by (rewrite <- Hh; unfold zlen; rewrite length_app; lia).
  pose proof (zlen_nonneg payload). pose proof (zlen_nonneg hdr). rewrite Ez.
  replace (_ <? _) with false by lia. replace (_ <? subofs q) with false by lia. cbn [orb].
  rewrite slice_Ok by lia. rewrite <- Hh. f_equal.
  rewrite drop_app_length' by (unfold zlen; lia). apply take_ge. unfold zlen. lia.
Qed.

Lemma Decode_tsmp4 h s d ck payload q :
  0 <= s < 2 ^ 32 → 0 <= d < 2 ^ 32 → 20 + zlen payload <= 65535 → 7 <= zlen payload →
  ip4_IPProto h = TSMP →
  ∃ q', Decode q (ip4_fields h (20 + zlen payload) s d ck ++ payload) = Ok q' ∧
    IPProto q' = TSMP ∧ ap_Addr (Src q') = Addr4 s ∧ ap_Addr (Dst q') = Addr4 d ∧
    Payload q' = Ok payload.
Proof.
  intros Hs Hd Hl Hm Hp. rewrite Decode_fields4 by done. rewrite Hp. change (u8 TSMP) with TSMP.
  unfold decode4_first. cbn [IPProto Z.eqb TSMP ICMPv4 IGMP TCP UDP SCTP Pos.eqb].
  unfold minTSMPSize. replace (zlen payload <? 7) with false by lia.
  eexists. split; [done|]. split_and!; [done..|].
  eapply Payload_tsmp; [|done..]. unfold zlen. by rewrite ip4_fields_length.
Qed.

Lemma Decode_tsmp6 h s d payload q :
  0 <= s < 2 ^ 128 → 0 <= d < 2 ^ 128 → 40 + zlen payload <= 65535 → 7 <= zlen payload →
  ip6_IPProto h = TSMP →
  ∃ q', Decode q (ip6_fields h (zlen payload) s d ++ payload) = Ok q' ∧
    IPProto q' = TSMP ∧ ap_Addr (Src q') = Addr6 s "" ∧ ap_Addr (Dst q') = Addr6 d "" ∧
    Payload q' = Ok payload.
Proof.
  intros Hs Hd Hl Hm Hp. rewrite Decode_fields6 by (done || lia). rewrite Hp. change (u8 TSMP) with TSMP.
  unfold decode6_switch. cbn [IPProto Z.eqb TSMP ICMPv6 TCP UDP SCTP Pos.eqb].
  unfold minTSMPSize. replace (zlen payload <? 7) with false by lia.
  eexists. split; [done|]. split_and!; [done..|].
  eapply Payload_tsmp; [|done..]. unfold zlen. by rewrite ip6_fields_length.
Qed.

(** ** Bodies behind a header *)
Lemma overwrite_at_app n a b src :
  overwrite_at (length a + n) (a ++ b) src = r ← overwrite_at n b src; Ok (a ++ r).
Proof.
  induction a as [|x a IH]; cbn [app length Nat.add overwrite_at]; [by destruct (overwrite_at n b src)|].
  rewrite IH. by destruct (overwrite_at n b src).
Qed.

Lemma put_bytes_app a b i src :
  0 <= i → put_bytes (a ++ b) (zlen a + i) src = r ← put_bytes b i src; Ok (a ++ r).
Proof.
  intros Hi. unfold put_bytes. pose proof (zlen_nonneg a).
  replace (i <? 0) with false by lia. replace (zlen a + i <? 0) with false by lia.
  rewrite Z2Nat.inj_add by lia. unfold zlen. rewrite Nat2Z.id. apply overwrite_at_app.
Qed.

Lemma put_app a b i v :
  0 <= i → put (a ++ b) (zlen a + i) v = r ← put b i v; Ok (a ++ r).
Proof. apply (put_bytes_app a b i [v]). Qed.

(** One write behind the header [a]. *)
Ltac put_step :=
  first [rewrite put_app by lia | rewrite put_bytes_app by lia];
  match goal with
  | |- context [put ?b ?i ?v] =>
      let r := eval lazy [put overwrite overwrite_at Z.to_nat Pos.to_nat Pos.iter_op Nat.add
        Z.ltb Z.compare mbind res_bind] in (put b i v) in
      match r with Ok _ => change (put b i v) with r end
  | |- context [put_bytes ?b ?i ?v] =>
      let r := eval lazy [put_bytes overwrite overwrite_at be_bytes app Z.to_nat Pos.to_nat
        Pos.iter_op Nat.add Z.ltb Z.compare mbind res_bind] in (put_bytes b i v) in
      match r with Ok _ => change (put_bytes b i v) with r end
  end; cbn [mbind res_bind].

Definition rejected_payload (h : TailscaleRejectedHeader) : bytes :=
  [TSMPTypeRejectedConn; u8 (rh_Proto h); u8 (rh_Reason h)] ++ be_bytes 2 (ap_Port (rh_Src h)) ++
  be_bytes 2 (ap_Port (rh_Dst h)) ++ (if rh_MaybeBroken h then [1] else []).

Lemma Rejected_body_app h a n :
  n = (if rh_MaybeBroken h then 8%nat else 7%nat) →
  Rejected_body h (zlen a) (a ++ replicate n 0) = Ok (a ++ rejected_payload h).
Proof.
  intros ->. unfold Rejected_body, rejected_payload, PutUint16, hasFlags.
  destruct (rh_MaybeBroken h); cbn [replicate]; repeat put_step; done.
Qed.

(** A rejection as the receiver of a flow sends it: from the flow's
    destination back to its source. *)
Definition Rejected_wf (h : TailscaleRejectedHeader) : Prop :=
  Addr_wf (rh_IPSrc h) ∧ Addr_wf (rh_IPDst h) ∧
  BitLen (rh_IPSrc h) = BitLen (rh_IPDst h) ∧ rh_IPSrc h ≠ AddrZero ∧
  hasZone (rh_IPSrc h) = false ∧ hasZone (rh_IPDst h) = false ∧
  ap_Addr (rh_Src h) = rh_IPDst h ∧ ap_Addr (rh_Dst h) = rh_IPSrc h ∧
  0 <= ap_Port (rh_Src h) < 65536 ∧ 0 <= ap_Port (rh_Dst h) < 65536 ∧
  is_byte (rh_Proto h) ∧ is_byte (rh_Reason h).

Lemma rejected_payload_zlen h : zlen (rejected_payload h) = if rh_MaybeBroken h then 8 else 7.
Proof. unfold rejected_payload, zlen. rewrite !length_app, !be_bytes_length. by destruct (rh_MaybeBroken h). Qed.

(** Reading the body back. *)
Lemma rejected_payload_parse h q :
  Rejected_wf h → ap_Addr (Src q) = rh_IPSrc h → ap_Addr (Dst q) = rh_IPDst h →
  Payload q = Ok (rejected_payload h) → AsTailscaleRejectedHeader q = Ok (Some h).
Proof.
  intros (_ & _ & _ & _ & _ & _ & Es & Ed & Hsp & Hdp & Hp & Hr) Hsrc Hdst Hpay.
  unfold AsTailscaleRejectedHeader. rewrite Hpay. cbn [mbind res_bind].
  pose proof (rejected_payload_zlen h) as Hz.
  assert (7 <= zlen (rejected_payload h)) as H7 by (destruct (rh_MaybeBroken h); lia).
  replace (zlen (rejected_payload h) <? 7) with false by lia.
  rewrite (idx_at _ 0), (idx_at _ 1), (idx_at _ 2), !Uint16_Ok by lia. cbn [mbind res_bind].
  assert (be_at 2 (rejected_payload h) 3 = ap_Port (rh_Src h)) as Esp.
  { transitivity (be_val (be_bytes 2 (ap_Port (rh_Src h)))); [done|]. by apply be_val_bytes_id. }
  assert (be_at 2 (rejected_payload h) 5 = ap_Port (rh_Dst h)) as Edp.
  { transitivity (be_val (be_bytes 2 (ap_Port (rh_Dst h)))); [done|]. by apply be_val_bytes_id. }
  rewrite Esp, Edp. change (byte_at (rejected_payload h) 0) with TSMPTypeRejectedConn.
  change (byte_at (rejected_payload h) 1) with (u8 (rh_Proto h)).
  change (byte_at (rejected_payload h) 2) with (u8 (rh_Reason h)).
  unfold u8. rewrite !(Z.mod_small _ (2 ^ 8)) by done. cbn [negb Z.eqb TSMPTypeRejectedConn Pos.eqb].
  rewrite Hsrc, Hdst, Hz.
  destruct h as [a1 a2 [sa sp] [da dp] pr re mb]. cbn in Es, Ed. subst sa da.
  cbn [rh_MaybeBroken] in *. destruct mb; cbn [Z.ltb Z.compare Pos.compare Pos.compare_cont]; [|done].
  rewrite idx_at by lia. done.
Qed.

(** The built packet: an IP header of either family, then the body. *)
Section Rejected_packet.
Context (h : TailscaleRejectedHeader) (q : Parsed).
Let n := if rh_MaybeBroken h then 8%nat else 7%nat.

Lemma rejected_n : Z.of_nat n = zlen (rejected_payload h) ∧ 7 <= Z.of_nat n <= 8.
Proof using. rewrite rejected_payload_zlen. unfold n. by destruct (rh_MaybeBroken h). Qed.

Lemma zlen_zeros k : zlen (replicate k 0 ++ replicate n 0) = Z.of_nat k + Z.of_nat n.
Proof using. unfold zlen. rewrite length_app, !length_replicate. lia. Qed.

(** [Generate] is the marshalling of a buffer of zeros. *)
Lemma Rejected_Generate_zeros k :
  Rejected_Len h = Z.of_nat k + Z.of_nat n →
  Generate h [] = ignore_err (replicate k 0 ++ replicate n 0)
                    (Rejected_Marshal h (replicate k 0 ++ replicate n 0)).
Proof using.
  intros Hlen. unfold Generate. cbn [Len Marshal WriteChecksum Rejected_Header].
  rewrite app_nil_r, Hlen, <- Nat2Z.inj_add, Nat2Z.id, replicate_add.
  by destruct (ignore_err _ _).
Qed.

Lemma Rejected_Marshal_head k :
  Rejected_Len h = Z.of_nat k + Z.of_nat n → (k <= 40)%nat →
  let buf := replicate k 0 ++ replicate n 0 in
  (zlen buf <? Rejected_Len h) = false ∧ (maxPacketLength <? zlen buf) = false.
Proof using.
  intros Hlen Hk. cbn zeta. rewrite zlen_zeros, Hlen, Z.ltb_irrefl. split; [done|].
  pose proof rejected_n. unfold maxPacketLength. lia.
Qed.

Definition tsmp_packet (buf : bytes) (q' : Parsed) : Prop :=
  Generate h [] = Ok buf ∧ Decode q buf = Ok q' ∧ IPProto q' = TSMP ∧
  ap_Addr (Src q') = rh_IPSrc h ∧ ap_Addr (Dst q') = rh_IPDst h ∧
  Payload q' = Ok (rejected_payload h).

Lemma Rejected_Generate4 s d :
  rh_IPSrc h = Addr4 s → rh_IPDst h = Addr4 d → ap_Addr (rh_Src h) = Addr4 d →
  0 <= s < 2 ^ 32 → 0 <= d < 2 ^ 32 → ∃ buf q', tsmp_packet buf q'.
Proof using.
  intros Esrc Edst Es Hws Hwd. destruct rejected_n as [Hn Hr].
  assert (Rejected_Len h = Z.of_nat 20 + Z.of_nat n) as Hlen
    by (unfold Rejected_Len, hasFlags, n; rewrite Esrc; by destruct (rh_MaybeBroken h)).
  set (iph := {| ip4_IPProto := TSMP; ip4_IPID := 0; ip4_Src := Addr4 s; ip4_Dst := Addr4 d |}).
  destruct (IP4_Marshal_Ok iph (replicate 20 0) (replicate n 0) s d) as (ck & Hck & Em & _);
    [done|done|done|rewrite zlen_zeros; lia|].
  rewrite zlen_zeros in Em. change (Z.of_nat 20) with 20 in Em.
  destruct (Decode_tsmp4 iph s d ck (rejected_payload h) q) as (q' & Hq & Hp & Ha & Hb & Hpay);
    try done; [lia|lia|].
  exists (ip4_fields iph (20 + zlen (rejected_payload h)) s d ck ++ rejected_payload h), q'.
  split; [|by rewrite Esrc, Edst].
  rewrite (Rejected_Generate_zeros 20) by done. unfold Rejected_Marshal.
  destruct (Rejected_Marshal_head 20) as [-> ->]; [done|lia|].
  rewrite Es, Esrc, Edst. cbn [Is4]. fold iph. rewrite Em. cbn [ignore_err mbind res_bind].
  replace ip4HeaderLength with (zlen (ip4_fields iph (20 + Z.of_nat n) s d ck))
    by (unfold zlen; by rewrite ip4_fields_length).
  rewrite Rejected_body_app by done. by rewrite Hn.
Qed.

Lemma Rejected_Generate6 s d :
  rh_IPSrc h = Addr6 s "" → rh_IPDst h = Addr6 d "" → ap_Addr (rh_Src h) = Addr6 d "" →
  0 <= s < 2 ^ 128 → 0 <= d < 2 ^ 128 → ∃ buf q', tsmp_packet buf q'.
Proof using.
  intros Esrc Edst Es Hws Hwd. destruct rejected_n as [Hn Hr].
  assert (Rejected_Len h = Z.of_nat 40 + Z.of_nat n) as Hlen
    by (unfold Rejected_Len, hasFlags, n; rewrite Esrc; by destruct (rh_MaybeBroken h)).
  set (iph := {| ip6_IPProto := TSMP; ip6_IPID := 0; ip6_Src := Addr6 s ""; ip6_Dst := Addr6 d "" |}).
  assert (IP6_Marshal iph (replicate 40 0 ++ replicate n 0) =
          Ok (ip6_fields iph (Z.of_nat n) s d ++ replicate n 0)) as Em.
  { rewrite IP6_Marshal_fields; [|done|rewrite zlen_zeros; lia].
    unfold iph. cbn [ip6_Src ip6_Dst As16_val].
    assert (zlen (replicate n 0) = Z.of_nat n) as -> by (unfold zlen; by rewrite length_replicate). done. }
  destruct (Decode_tsmp6 iph s d (rejected_payload h) q) as (q' & Hq & Hp & Ha & Hb & Hpay);
    try done; [lia|lia|].
  exists (ip6_fields iph (zlen (rejected_payload h)) s d ++ rejected_payload h), q'.
  split; [|by rewrite Esrc, Edst].
  rewrite (Rejected_Generate_zeros 40) by done. unfold Rejected_Marshal.
  destruct (Rejected_Marshal_head 40) as [-> ->]; [done|lia|].
  rewrite Es, Esrc, Edst. cbn [Is4 Is6]. fold iph. rewrite Em. cbn [ignore_err mbind res_bind].
  replace ip6HeaderLength with (zlen (ip6_fields iph (Z.of_nat n) s d))
    by (unfold zlen; by rewrite ip6_fields_length).
  rewrite Rejected_body_app by done. by rewrite Hn.
Qed.
End Rejected_packet.

(** A TSMP rejection built by [Generate], over IPv4 or IPv6, decodes as a
    TSMP packet (into any recycled [Parsed]) and parses back to the same
    rejection: addresses, flow, protocol, reason, and the "maybe broken" flag. *)
Theorem Rejected_roundtrip h q :
  Rejected_wf h →
  ∃ buf q', Generate h [] = Ok buf ∧ Decode q buf = Ok q' ∧ IPProto q' = TSMP ∧
    AsTailscaleRejectedHeader q' = Ok (Some h).
Proof.
  intros Hwf. pose proof Hwf as (Hws & Hwd & Hfam & Hnz & Hzs & Hzd & Es & _).
  assert (∃ buf q', tsmp_packet h q buf q') as (buf & q' & Hg & Hq & Hp & Ha & Hb & Hpay).
  { unfold hasZone in Hzs, Hzd. bool_prop.
    destruct (rh_IPSrc h) as [|s|s z] eqn:Esrc, (rh_IPDst h) as [|d|d z'] eqn:Edst; try done;
      cbn in Hzs, Hzd; subst; [by eapply Rejected_Generate4|by eapply Rejected_Generate6]. }
  exists buf, q'. split_and!; [done..|]. by eapply rejected_payload_parse.
Qed.

Definition sampleRejected : TailscaleRejectedHeader := {|
  rh_IPSrc := Addr6 (0xfd7a * 2 ^ 112 + 1) ""; rh_IPDst := Addr6 (0xfd7a * 2 ^ 112 + 2) "";
  rh_Src := AddrPortFrom (Addr6 (0xfd7a * 2 ^ 112 + 2) "") 40000;
  rh_Dst := AddrPortFrom (Addr6 (0xfd7a * 2 ^ 112 + 1) "") 22;
  rh_Proto := TCP; rh_Reason := RejectedDueToShieldsUp; rh_MaybeBroken := true |}.

Lemma sampleRejected_wf : Rejected_wf sampleRejected.
Proof. by split_and!. Qed.

Lemma Rejected_roundtrip_witness :
  ∃ buf q', Generate sampleRejected [] = Ok buf ∧ Decode staleParsed buf = Ok q' ∧ IPProto q' = TSMP ∧
    AsTailscaleRejectedHeader q' = Ok (Some sampleRejected).
Proof. exact (Rejected_roundtrip sampleRejected staleParsed sampleRejected_wf). Defined.

(** ** Geneve *)
Lemma VNI_Get_Set vni : 0 <= vni < 2 ^ 24 → VNI_Get (VNI_Set vni) = vni.
Proof.
  intros Hv. unfold VNI_Get, VNI_Set. rewrite Z.land_lor_distr_l.
  change (Z.land vniSetMask vniGetMask) with 0. rewrite Z.lor_0_r.
  change vniGetMask with (Z.ones 24). rewrite Z.land_ones by lia. by apply Z.mod_small.
Qed.

Lemma VNI_IsSet_Set vni : VNI_IsSet (VNI_Set vni) = true.
Proof.
  unfold VNI_IsSet, VNI_Set. apply negb_true_iff, Z.eqb_neq. intros E.
  assert (Z.testbit (Z.land (Z.lor vni vniSetMask) vniSetMask) 24 = true) as Ht.
  { rewrite Z.land_spec, Z.lor_spec. by rewrite orb_true_r. }
  by rewrite E in Ht.
Qed.

(** A header that [VirtualNetworkID.Set] and the wire format admit. *)
Definition Geneve_wf (h : GeneveHeader) : Prop :=
  0 <= gh_Version h <= 3 ∧ 0 <= gh_Protocol h < 65536 ∧ ∃ vni, 0 <= vni < 2 ^ 24 ∧ gh_VNI h = VNI_Set vni.

(** Encoding a Geneve header writes the first eight bytes of the buffer and
    nothing else, and decoding them gives the header back; the [Control] flag
    of the header decoded into is kept when it was already set. *)
Theorem Geneve_roundtrip h b h0 :
  Geneve_wf h → 8 <= zlen b →
  ∃ b', Geneve_Encode h b = Ok b' ∧ drop 8 b' = drop 8 b ∧
    Geneve_Decode h0 b' = Ok {| gh_Version := gh_Version h; gh_Protocol := gh_Protocol h;
                                gh_VNI := gh_VNI h; gh_Control := gh_Control h || gh_Control h0 |}.
Proof.
  intros (Hv & Hp & vni & Hvni & Ev) Hl. unfold Geneve_Encode, GeneveFixedHeaderLength.
  replace (zlen b <? 8) with false by lia. rewrite Ev, VNI_IsSet_Set. cbn [negb].
  replace (gh_Version h >? 3) with false by lia. rewrite VNI_Get_Set by done.
  assert (u8 (Z.shiftl (gh_Version h) 6) = gh_Version h * 64) as ->.
  { unfold u8. rewrite Z.shiftl_mul_pow2 by lia. apply Z.mod_small. lia. }
  assert (u32 (Z.shiftl vni 8) = vni * 256) as ->.
  { unfold u32. rewrite Z.shiftl_mul_pow2 by lia. apply Z.mod_small. lia. }
  rewrite !Z.lor_0_l.
  assert (length (take 8 b) = 8%nat) as H8 by (rewrite length_take; unfold zlen in Hl; lia).
  rewrite <- (take_drop 8 b). revert H8. generalize (take 8 b), (drop 8 b). intros l rest H8.
  rewrite (drop_app_length' l) by lia. explode_exact l H8 8.
  set (c := if gh_Control h then 128 else 0).
  set (b' := [gh_Version h * 64; c] ++ be_bytes 2 (gh_Protocol h) ++ be_bytes 4 (vni * 256) ++ rest).
  exists b'. split; [by unfold b'; buf_run|]. split; [done|].
  assert (8 <= zlen b') as Hz by (unfold b', zlen; rewrite !length_app, !be_bytes_length; cbn [length]; lia).
  assert (be_at 2 b' 2 = gh_Protocol h) as E2.
  { unfold b'. rewrite be_at_mid by done. by apply be_val_bytes_id. }
  assert (be_at 4 b' 4 = vni * 256) as E4.
  { unfold b'. rewrite (app_assoc [_; _]), be_at_mid by done. apply be_val_bytes_id. lia. }
  assert (byte_at b' 0 = gh_Version h * 64 ∧ byte_at b' 1 = c) as [E0 E1] by done. clearbody b'.
  unfold Geneve_Decode, GeneveFixedHeaderLength. replace (zlen b' <? 8) with false by lia.
  pkt_access. rewrite E0, E1, E2, E4, !Z.shiftr_div_pow2 by lia.
  change (2 ^ 6) with 64. change (2 ^ 8) with 256. rewrite !Z.div_mul by done.
  unfold c. by destruct (gh_Control h).
Qed.

Definition sampleGeneve : GeneveHeader :=
  {| gh_Version := 1; gh_Protocol := 0x7A12; gh_VNI := VNI_Set 0xabcdef; gh_Control := true |}.
Definition zeroGeneve : GeneveHeader :=
  {| gh_Version := 0; gh_Protocol := 0; gh_VNI := 0; gh_Control := false |}.

Lemma sampleGeneve_wf : Geneve_wf sampleGeneve.
Proof. split_and!; try done. by exists 0xabcdef. Qed.

Lemma Geneve_roundtrip_witness :
  ∃ b', Geneve_Encode sampleGeneve (replicate 9 7) = Ok b' ∧ drop 8 b' = drop 8 (replicate 9 7) ∧
    Geneve_Decode zeroGeneve b' = Ok {| gh_Version := 1; gh_Protocol := 0x7A12;
      gh_VNI := VNI_Set 0xabcdef; gh_Control := true || false |}.
Proof. by apply (Geneve_roundtrip sampleGeneve (replicate 9 7) zeroGeneve sampleGeneve_wf). Defined.
