(* ===== verification/PacketIcmp6.v ===== *)
(** * net/packet: ICMPv6

    [icmp6.go]: the ICMPv6 header with its checksum, which [Generate] writes
    after the packet is marshalled. *)
From S2P Require Import Prelude NetBuf NetAddr Packet PacketHeaders PacketTsmp.

(** ** The checksum *)
Definition checksumCombine (a b : Z) : Z :=
  let v := u32 (a + b) in u16 (u32 (v + Z.shiftr v 16)).

(** [for i := 0; i < n; i += 2 { v += (uint32(buf[i]) << 8) + uint32(buf[i+1]) }] *)
Fixpoint sumPairs (v : Z) (buf : bytes) : Z :=
  match buf with
  | x :: y :: buf => sumPairs (u32 (v + u32 (u32 (Z.shiftl x 8) + y))) buf
  | _ => v
  end.

Definition checksumBytes (buf : bytes) (initial : Z) : Z :=
  let '(v, buf) :=
    match buf with
    | b0 :: rest => if zlen buf mod 2 =? 1 then (u32 (initial + b0), rest) else (initial, buf)
    | [] => (initial, [])
    end in
  let n := zlen buf in
  let '(n, v) :=
    if negb (Z.land n 1 =? 0) then (n - 1, u32 (v + u32 (Z.shiftl (byte_at buf (n - 1)) 8))) else (n, v) in
  let v := sumPairs v (take (Z.to_nat n) buf) in
  checksumCombine (u16 v) (u16 (Z.shiftr v 16)).

Definition icmp6Checksum (header src dst payload : bytes) : Z :=
  let xsum := checksumBytes src 0 in
  let xsum := checksumBytes dst xsum in
  let scratch := be_bytes 4 (u32 (zlen header + zlen payload)) in
  let xsum := checksumBytes scratch xsum in
  let xsum := checksumBytes [0; 0; 0; u8 ICMPv6] xsum in
  let xsum := checksumBytes payload xsum in
  let hdrz := take 4 (header ++ replicate 4 0) in
  let hdrz := <[2%nat := 0]> hdrz in
  let hdrz := <[3%nat := 0]> hdrz in
  u16 (Z.lnot (checksumBytes hdrz xsum)).

(** ** The header *)
Record ICMP6Header := { icmp6_IP6Header : IP6Header; icmp6_Type : Z; icmp6_Code : Z }.

Definition ICMP6_Len (h : ICMP6Header) : Z := Len (icmp6_IP6Header h) + icmp6HeaderLength.

Definition ICMP6_Marshal (h : ICMP6Header) (buf : bytes) : res bytes :=
  if zlen buf <? ICMP6_Len h then Err errSmallBuffer else
  if maxPacketLength <? zlen buf then Err errLargePacket else
  let iph := set_ip6_IPProto ICMPv6 (icmp6_IP6Header h) in
  buf ← ignore_err buf (IP6_Marshal iph buf);
  buf ← put buf (ip6HeaderLength + 0) (u8 (icmp6_Type h));
  buf ← put buf (ip6HeaderLength + 1) (u8 (icmp6_Code h));
  buf ← put buf (ip6HeaderLength + 2) 0;
  put buf (ip6HeaderLength + 3) 0.

Definition ICMP6_ToResponse (h : ICMP6Header) : ICMP6Header :=
  {| icmp6_IP6Header := IP6_ToResponse (icmp6_IP6Header h);
     icmp6_Type := ICMP6EchoReply; icmp6_Code := ICMP6NoCode |}.

Definition ICMP6_WriteChecksum (h : ICMP6Header) (p : bytes) : res bytes :=
  let payOff := ip6HeaderLength + icmp6HeaderLength in
  header ← slice p ip6HeaderLength payOff;
  payload ← slice_from p payOff;
  let xsum := icmp6Checksum header (As16 (ip6_Src (icmp6_IP6Header h))) (As16 (ip6_Dst (icmp6_IP6Header h))) payload in
  PutUint16 p (ip6HeaderLength + 2) xsum.

#[global] Instance ICMP6_Header : Header ICMP6Header :=
  {| Len := ICMP6_Len; Marshal := ICMP6_Marshal; WriteChecksum := Some ICMP6_WriteChecksum |}.

Definition Parsed_ICMP6Header (q : Parsed) : res ICMP6Header :=
  h ← Parsed_IP6Header q;
  t ← idx (q_b q) (subofs q + 0);
  c ← idx (q_b q) (subofs q + 1);
  Ok {| icmp6_IP6Header := h; icmp6_Type := t; icmp6_Code := c |}.

(** ** Even-length buffers *)
Lemma sumPairs_wsum v b :
  Forall is_byte b → Nat.even (length b) = true → 0 <= v → v + wsum b < 2 ^ 32 → sumPairs v b = v + wsum b.
Proof.
  revert v. induction b as [|x|x y b IH] using pair_ind; intros v Hb He Hv Hs; cbn [sumPairs wsum] in *.
  - lia.
  - done.
  - apply Forall_cons in Hb as [Hx Hb]. apply Forall_cons in Hb as [Hy Hb].
    pose proof (wsum_bound b Hb). unfold is_byte in *. rewrite Z.shiftl_mul_pow2 by lia.
    unfold u32. rewrite !(Z.mod_small (x * _)), !(Z.mod_small (x * _ + _)), Z.mod_small, IH by (done || lia). lia.
Qed.

Lemma checksumCombine_spec v :
  0 <= v < 2 ^ 32 →
  let r := checksumCombine (u16 v) (u16 (Z.shiftr v 16)) in
  0 <= r <= 65535 ∧ r mod 65535 = v mod 65535 ∧ (0 < v → 0 < r).
Proof.
  intros Hv. cbn zeta. unfold checksumCombine. rewrite Z.shiftr_div_pow2 by lia.
  assert (v = 65536 * (v / 65536) + v mod 65536) as Hdm by (apply Z.div_mod; lia).
  assert (0 <= v mod 65536 < 65536) as Hlo by (apply Z.mod_pos_bound; lia).
  change (2 ^ 16) with 65536. change (u16 v) with (v mod 65536).
  assert (u16 (v / 65536) = v / 65536) as -> by (apply Z.mod_small; change (2 ^ 16) with 65536; lia).
  assert (u32 (v mod 65536 + v / 65536) = v mod 65536 + v / 65536) as -> by (apply Z.mod_small; lia).
  set (w := v mod 65536 + v / 65536) in *. rewrite Z.shiftr_div_pow2 by lia. change (2 ^ 16) with 65536.
  assert (w = 65536 * (w / 65536) + w mod 65536) as Hdw by (apply Z.div_mod; lia).
  assert (0 <= w mod 65536 < 65536) by (apply Z.mod_pos_bound; lia).
  assert (u32 (w + w / 65536) = w + w / 65536) as -> by (apply Z.mod_small; lia).
  assert (u16 (w + w / 65536) = w mod 65536 + w / 65536) as ->.
  { unfold u16. change (2 ^ 16) with 65536.
    replace (w + w / 65536) with (w mod 65536 + w / 65536 + (w / 65536) * 65536) by lia.
    rewrite Z_mod_plus_full. apply Z.mod_small. lia. }
  split_and!; [lia|lia| |lia].
  replace (v mod 65535) with ((w mod 65536 + w / 65536 + (w / 65536 + v / 65536) * 65535) mod 65535)
    by (f_equal; lia).
  by rewrite Z_mod_plus_full.
Qed.

Lemma checksumBytes_spec b init :
  Forall is_byte b → Nat.even (length b) = true → zlen b <= 65535 → 0 <= init <= 65535 →
  let r := checksumBytes b init in
  0 <= r <= 65535 ∧ r mod 65535 = (init + wsum b) mod 65535 ∧ (0 < init + wsum b → 0 < r).
Proof.
  intros Hb He Hl Hi. pose proof (wsum_bound b Hb) as Hw.
  assert ((zlen b + 1) / 2 <= 32768) by (apply Z.div_le_upper_bound; lia).
  assert (∃ k, zlen b = 2 * k) as [k Hk].
  { apply Nat.even_spec in He as [k Hk]. exists (Z.of_nat k). unfold zlen. lia. }
  unfold checksumBytes.
  assert ((match b with
           | b0 :: rest => if zlen b mod 2 =? 1 then (u32 (init + b0), rest) else (init, b)
           | [] => (init, []) end) = (init, b)) as ->.
  { destruct b; [done|]. rewrite Hk, Z.mul_comm, Z_mod_mult. done. }
  assert (Z.land (zlen b) 1 = 0) as ->.
  { change 1 with (Z.ones 1). rewrite Z.land_ones, Hk, Z.mul_comm by lia. apply Z_mod_mult. }
  cbn [Z.eqb negb]. rewrite take_ge by (unfold zlen; lia). rewrite sumPairs_wsum by (done || lia).
  apply checksumCombine_spec. lia.
Qed.

(** The pseudo-header an ICMPv6 checksum covers. *)
Definition pseudo6 (s d len : Z) : bytes := be_bytes 16 s ++ be_bytes 16 d ++ be_bytes 4 len ++ [0; 0; 0; ICMPv6].

Lemma pseudo6_byte s d len : Forall is_byte (pseudo6 s d len).
Proof.
  unfold pseudo6. rewrite !Forall_app. split_and!; try apply be_bytes_byte. by apply (bool_decide_unpack _).
Qed.

Lemma pseudo6_wsum s d len b :
  wsum (pseudo6 s d len ++ b) =
  wsum (be_bytes 16 s) + wsum (be_bytes 16 d) + wsum (be_bytes 4 len) + ICMPv6 + wsum b.
Proof.
  unfold pseudo6. rewrite <- !app_assoc.
  rewrite !(wsum_app (be_bytes _ _)) by (by rewrite be_bytes_length).
  rewrite (wsum_app [0; 0; 0; ICMPv6]) by done. cbn [wsum]. lia.
Qed.

Definition wsum_all (chunks : list bytes) : Z := foldr (λ b acc, wsum b + acc) 0 chunks.

(** Checksums of even-length chunks, one after the other. *)
Definition even_chunk (b : bytes) : Prop :=
  Forall is_byte b ∧ Nat.even (length b) = true ∧ zlen b <= 65535.

Lemma checksum_chunks chunks init :
  Forall even_chunk chunks → 0 <= init <= 65535 →
  let r := foldl (λ x b, checksumBytes b x) init chunks in
  0 <= r <= 65535 ∧ r mod 65535 = (init + wsum_all chunks) mod 65535.
Proof.
  intros Hc. revert init. induction Hc as [|b chunks (Hb & He & Hl) _ IH]; intros init Hi; cbn [foldl].
  - by rewrite Z.add_0_r.
  - change (wsum_all (b :: chunks)) with (wsum b + wsum_all chunks).
    destruct (checksumBytes_spec b init Hb He Hl Hi) as (Hr & Hm & _). cbn zeta in *.
    destruct (IH (checksumBytes b init) Hr) as [Hr' Hm']. split; [done|].
    rewrite Hm', <- Zplus_mod_idemp_l, Hm, Zplus_mod_idemp_l. f_equal. lia.
Qed.

Lemma even_chunk_be n v : (n = 16 ∨ n = 4)%nat → even_chunk (be_bytes n v).
Proof.
  intros Hn. split_and!; [apply be_bytes_byte| |unfold zlen]; rewrite be_bytes_length; [|lia].
  by destruct Hn as [-> | ->].
Qed.

Lemma icmp6Checksum_fold header src dst payload :
  icmp6Checksum header src dst payload =
  u16 (Z.lnot (foldl (λ x b, checksumBytes b x) 0
    [src; dst; be_bytes 4 (u32 (zlen header + zlen payload)); [0; 0; 0; u8 ICMPv6]; payload;
     <[3%nat := 0]> (<[2%nat := 0]> (take 4 (header ++ replicate 4 0)))])).
Proof. reflexivity. Qed.

(** The checksum of an even-length message completes the pseudo-header and the
    message to a multiple of 65535. *)
Lemma icmp6Checksum_words t c src dst payload :
  is_byte t → is_byte c → even_chunk src → even_chunk dst → even_chunk payload → zlen payload <= 65000 →
  let ck := icmp6Checksum [t; c; 0; 0] src dst payload in
  0 <= ck <= 65535 ∧
  (wsum src + wsum dst + wsum (be_bytes 4 (4 + zlen payload)) + ICMPv6 + (t * 256 + c + ck + wsum payload))
    mod 65535 = 0.
Proof.
  intros Ht Hc Hs Hd Hp Hl. cbn zeta. rewrite icmp6Checksum_fold. pose proof (zlen_nonneg payload).
  assert (u32 (zlen [t; c; 0; 0] + zlen payload) = 4 + zlen payload) as ->
    by (apply Z.mod_small; change (zlen [t; c; 0; 0]) with 4; lia).
  assert (<[3%nat:=0]> (<[2%nat:=0]> (take 4 ([t; c; 0; 0] ++ replicate 4 0))) = [t; c; 0; 0]) as -> by done.
  assert (u8 ICMPv6 = ICMPv6) as -> by done.
  assert (even_chunk (be_bytes 4 (4 + zlen payload))) as Hlen by (apply even_chunk_be; lia).
  revert Hlen. generalize (be_bytes 4 (4 + zlen payload)). intros len Hlen.
  assert (Forall even_chunk [src; dst; len; [0; 0; 0; ICMPv6]; payload; [t; c; 0; 0]]) as Hall.
  { repeat apply Forall_cons_2; try done.
    - split_and!; [by apply (bool_decide_unpack _)|done|done].
    - split_and!; [|done|done]. by rewrite !Forall_cons. }
  destruct (checksum_chunks _ 0 Hall) as [Hr Hm]; [lia|]. revert Hr Hm.
  generalize (foldl (λ x b, checksumBytes b x) 0 [src; dst; len; [0; 0; 0; ICMPv6]; payload; [t; c; 0; 0]]).
  intros r Hr Hm.
  assert (u16 (Z.lnot r) = 65535 - r) as ->.
  { unfold u16, Z.lnot. replace (Z.pred (- r)) with (65535 - r + (-1) * 2 ^ 16) by lia.
    rewrite Z_mod_plus_full. apply Z.mod_small. lia. }
  split; [lia|]. cbn [wsum_all foldr wsum] in Hm.
  match type of Hm with _ = ?y mod _ =>
    match goal with |- ?x mod _ = 0 => replace x with (y + (65535 - r)) by lia end end.
  rewrite <- Zplus_mod_idemp_l, <- Hm, Zplus_mod_idemp_l. by replace (r + (65535 - r)) with (1 * 65535) by lia.
Qed.

Lemma icmp6Checksum_spec t c s d payload :
  is_byte t → is_byte c → Forall is_byte payload → Nat.even (length payload) = true → zlen payload <= 65000 →
  let ck := icmp6Checksum [t; c; 0; 0] (be_bytes 16 s) (be_bytes 16 d) payload in
  0 <= ck <= 65535 ∧
  wsum (pseudo6 s d (4 + zlen payload) ++ [t; c] ++ be_bytes 2 ck ++ payload) mod 65535 = 0.
Proof.
  intros Ht Hc Hp He Hl.
  destruct (icmp6Checksum_words t c (be_bytes 16 s) (be_bytes 16 d) payload Ht Hc) as [Hr Hm];
    [apply even_chunk_be; lia..|split_and!; done || lia|done|].
  cbn zeta in *. split; [done|].
  rewrite pseudo6_wsum, (wsum_app [t; c]), (wsum_app (be_bytes 2 _)), wsum_be2 by done.
  etrans; [|exact Hm]. change (wsum [t; c]) with (t * 256 + c + 0). f_equal. lia.
Qed.

(** ** Generated ICMPv6 packets *)
Definition icmp6_body (t c : Z) (payload : bytes) (ck : Z) : bytes := [t; c] ++ be_bytes 2 ck ++ payload.

Lemma body_zlen t c payload ck : zlen (icmp6_body t c payload ck) = 4 + zlen payload.
Proof. unfold zlen, icmp6_body. rewrite !length_app, be_bytes_length. cbn [length]. lia. Qed.

Section Generated.
Context (iph : IP6Header) (s d t c : Z) (payload : bytes).
Let h := {| icmp6_IP6Header := iph; icmp6_Type := t; icmp6_Code := c |}.
Hypothesis Hsrc : ip6_Src iph = Addr6 s "".
Hypothesis Hdst : ip6_Dst iph = Addr6 d "".
Hypothesis Ht : is_byte t.
Hypothesis Hc : is_byte c.
Hypothesis Hlen : zlen payload <= 65000.
Let ck := icmp6Checksum [t; c; 0; 0] (be_bytes 16 s) (be_bytes 16 d) payload.
Let iph' := set_ip6_IPProto ICMPv6 iph.

Let icmp6_message := icmp6_body t c payload.
Let icmp6_packet (ck : Z) : bytes := ip6_fields iph' (4 + zlen payload) s d ++ icmp6_message ck.

Lemma ICMP6_Marshal_Ok :
  ICMP6_Marshal h (replicate 44 0 ++ payload) = Ok (icmp6_packet 0).
Proof using Hsrc Hdst Ht Hc Hlen.
  pose proof (zlen_nonneg payload).
  assert (zlen (replicate 44 0 ++ payload) = 44 + zlen payload) as Ez
    by (unfold zlen; rewrite length_app, length_replicate; lia).
  unfold ICMP6_Marshal. rewrite Ez. change (ICMP6_Len h) with 44. unfold maxPacketLength.
  replace (44 + zlen payload <? 44) with false by lia. replace (65535 <? 44 + zlen payload) with false by lia.
  change (icmp6_IP6Header h) with iph. fold iph'.
  change (replicate 44 0 ++ payload) with (replicate 40 0 ++ [0; 0; 0; 0] ++ payload).
  assert (zlen ([0; 0; 0; 0] ++ payload) = 4 + zlen payload) as Ez4.
  { unfold zlen. rewrite length_app. cbn [length]. lia. }
  rewrite (IP6_Marshal_fields iph'); [|done|].
  2: { unfold zlen in *. rewrite length_app, length_replicate. lia. }
  rewrite Ez4. unfold iph' at 2 3. cbn [set_ip6_IPProto ip6_Src ip6_Dst ignore_err]. rewrite Hsrc, Hdst.
  cbn [As16_val mbind res_bind].
  set (hdr := ip6_fields iph' (4 + zlen payload) s d).
  assert (ip6HeaderLength = zlen hdr) as -> by (unfold zlen, hdr; by rewrite ip6_fields_length).
  change (icmp6_Type h) with t. change (icmp6_Code h) with c.
  assert (u8 t = t) as -> by (by apply Z.mod_small). assert (u8 c = c) as -> by (by apply Z.mod_small).
  cbn [app]. repeat put_step. done.
Qed.

Lemma ICMP6_Generate_Ok : Generate h payload = Ok (icmp6_packet ck).
Proof using Hsrc Hdst Ht Hc Hlen.
  unfold Generate. change (Len h) with 44. change (Z.to_nat 44) with 44%nat.
  change (Marshal h (replicate 44 0 ++ payload)) with (ICMP6_Marshal h (replicate 44 0 ++ payload)).
  rewrite ICMP6_Marshal_Ok. cbn [ignore_err mbind res_bind].
  change (@WriteChecksum ICMP6Header ICMP6_Header) with (Some ICMP6_WriteChecksum). cbn match.
  unfold ICMP6_WriteChecksum, icmp6_packet. set (hdr := ip6_fields _ _ _ _).
  assert (length hdr = 40%nat) as Eh by apply ip6_fields_length.
  pose proof (zlen_nonneg payload).
  assert (zlen (hdr ++ icmp6_message 0) = 44 + zlen payload) as Ez.
  { pose proof (body_zlen t c payload 0). unfold icmp6_message, zlen in *. rewrite length_app. lia. }
  change (ip6HeaderLength + icmp6HeaderLength) with 44. change ip6HeaderLength with 40.
  rewrite slice_Ok by lia. cbn [mbind res_bind]. rewrite slice_from_Ok by lia. cbn [mbind res_bind].
  change (Z.to_nat 40) with 40%nat. change (Z.to_nat 44) with 44%nat.
  rewrite (drop_app_length' hdr) by done.
  change 44%nat with (40 + 4)%nat. rewrite <- (drop_drop (hdr ++ icmp6_message 0) 4 40), (drop_app_length' hdr) by done.
  change (icmp6_IP6Header h) with iph. rewrite Hsrc, Hdst.
  change (take (40 + 4 - 40) (icmp6_message 0)) with [t; c; 0; 0]. change (drop 4 (icmp6_message 0)) with payload.
  change (As16 (Addr6 s "")) with (be_bytes 16 s). change (As16 (Addr6 d "")) with (be_bytes 16 d). fold ck.
  assert (40 = zlen hdr) as E40 by (unfold zlen; lia). rewrite E40. unfold PutUint16.
  rewrite put_bytes_app by lia. done.
Qed.
End Generated.

(** Generated ICMPv6 packets are well formed when the payload has an even
    number of bytes: [Generate] succeeds, the checksum over the IPv6
    pseudo-header and the ICMPv6 message verifies, and the decoder reads the
    packet back as ICMPv6 with its addresses, type and code. *)
Theorem ICMP6_Generate_verifies iph s d t c payload q :
  ip6_Src iph = Addr6 s "" → ip6_Dst iph = Addr6 d "" → 0 <= s < 2 ^ 128 → 0 <= d < 2 ^ 128 →
  is_byte t → is_byte c → Forall is_byte payload → Nat.even (length payload) = true → zlen payload <= 65000 →
  ∃ p q' h', Generate {| icmp6_IP6Header := iph; icmp6_Type := t; icmp6_Code := c |} payload = Ok p ∧
    ip4Checksum (pseudo6 s d (4 + zlen payload) ++ drop 40 p) = Ok 0 ∧
    Decode q p = Ok q' ∧ IPProto q' = ICMPv6 ∧ ap_Addr (Src q') = Addr6 s "" ∧ ap_Addr (Dst q') = Addr6 d "" ∧
    Parsed_ICMP6Header q' = Ok h' ∧ icmp6_Type h' = t ∧ icmp6_Code h' = c.
Proof.
  intros Hsrc Hdst Hs Hd Ht Hc Hp He Hl. rewrite (ICMP6_Generate_Ok iph s d) by done.
  destruct (icmp6Checksum_spec t c s d payload Ht Hc Hp He Hl) as [Hr Hm]. cbn zeta in Hm. revert Hr Hm.
  generalize (icmp6Checksum [t; c; 0; 0] (be_bytes 16 s) (be_bytes 16 d) payload). intros ck Hr Hm.
  fold (icmp6_body t c payload ck) in Hm. pose proof (body_zlen t c payload ck) as Eb.
  pose proof (zlen_nonneg payload). rewrite <- Eb. set (iph' := set_ip6_IPProto ICMPv6 iph).
  assert (Forall is_byte (icmp6_body t c payload ck)) as Hbody.
  { apply Forall_app_2; [by rewrite !Forall_cons|]. apply Forall_app_2; [apply be_bytes_byte|done]. }
  eexists _, _, _. split; [done|].
  rewrite Decode_fields6 by (done || lia). rewrite drop_app_length' by (by rewrite ip6_fields_length).
  change (u8 (ip6_IPProto iph')) with ICMPv6.
  unfold decode6_switch. cbn [IPProto Z.eqb ICMPv6 Pos.eqb]. rewrite decodeICMP_Ok.
  rewrite Eb. unfold icmp6HeaderLength. replace (4 + zlen payload <? 4) with false by lia.
  split.
  { apply ip4Checksum_verifies; [|..|done|].
    - apply Forall_app_2; [apply pseudo6_byte|done].
    - unfold zlen in *. rewrite length_app. unfold pseudo6 at 1. rewrite !length_app, !be_bytes_length.
      cbn [length]. lia.
    - rewrite pseudo6_wsum.
      pose proof (wsum_bound _ (be_bytes_byte 16 s)). pose proof (wsum_bound _ (be_bytes_byte 16 d)).
      pose proof (wsum_bound _ (be_bytes_byte 4 (4 + zlen payload))). pose proof (wsum_bound _ Hbody).
      unfold ICMPv6. lia. }
  split; [done|]. pkt_fields. split_and!; try done.
Qed.

(** An echo request between two nodes. *)
Definition sampleIP6 : IP6Header :=
  {| ip6_IPProto := 0; ip6_IPID := 7; ip6_Src := Addr6 (0xfd7a115ca1e0 * 2 ^ 80 + 1) "";
     ip6_Dst := Addr6 (0xfd7a115ca1e0 * 2 ^ 80 + 2) "" |}.

Lemma ICMP6_Generate_verifies_witness :
  ∃ p q' h', Generate {| icmp6_IP6Header := sampleIP6; icmp6_Type := ICMP6EchoRequest; icmp6_Code := 0 |}
               [0; 1; 0; 2; 104; 105] = Ok p ∧
    ip4Checksum (pseudo6 (0xfd7a115ca1e0 * 2 ^ 80 + 1) (0xfd7a115ca1e0 * 2 ^ 80 + 2) 10 ++ drop 40 p) = Ok 0 ∧
    Decode Parsed_zero p = Ok q' ∧ IPProto q' = ICMPv6 ∧
    ap_Addr (Src q') = Addr6 (0xfd7a115ca1e0 * 2 ^ 80 + 1) "" ∧
    ap_Addr (Dst q') = Addr6 (0xfd7a115ca1e0 * 2 ^ 80 + 2) "" ∧
    Parsed_ICMP6Header q' = Ok h' ∧ icmp6_Type h' = ICMP6EchoRequest ∧ icmp6_Code h' = 0.
Proof.
  apply (ICMP6_Generate_verifies sampleIP6 _ _ ICMP6EchoRequest 0 [0; 1; 0; 2; 104; 105] Parsed_zero);
    try reflexivity; try (by apply (bool_decide_unpack _)); try (unfold is_byte, ICMP6EchoRequest; lia).
Defined.

(** With an odd number of payload bytes the checksum is wrong: the first byte is
    added as a low byte, so every following pair is taken off its boundary. *)
Lemma odd_payload_checksum_wrong :
  ∃ p, Generate {| icmp6_IP6Header := sampleIP6; icmp6_Type := ICMP6EchoRequest; icmp6_Code := 0 |}
         [0; 1; 0; 2; 104] = Ok p ∧
    ip4Checksum (pseudo6 (0xfd7a115ca1e0 * 2 ^ 80 + 1) (0xfd7a115ca1e0 * 2 ^ 80 + 2) 9 ++ drop 40 p) ≠ Ok 0.
Proof. eexists. split; [vm_compute; reflexivity|]. vm_compute. done. Qed.
