(* ===== verification/PacketPanics.v ===== *)
(** * net/packet: which accessors of a decoded packet can panic

    [packet.go]: the accessors of [Parsed], on the result of decoding any bytes
    into any recycled [Parsed]. *)
From S2P Require Import Prelude NetBuf NetAddr Packet PacketHeaders PacketTsmp PacketIcmp6.

(** ** The headers of a known packet *)
Lemma IP4Header_Ok b q : describes b q → IPProto q ≠ Unknown → IPVersion q = 4 → ∃ h, Parsed_IP4Header q = Ok h.
Proof.
  intros (Hb & _ & [?|[[(_ & _ & ? & _)|(? & _)] _]]) Hn Hv; [done| |congruence].
  unfold Parsed_IP4Header. rewrite Hv, Hb. change (negb (4 =? 4)) with false. cbv iota. pkt_access. eauto.
Qed.

Lemma IP6Header_Ok b q : describes b q → IPProto q ≠ Unknown → IPVersion q = 6 → ∃ h, Parsed_IP6Header q = Ok h.
Proof.
  intros (Hb & _ & [?|[[(? & _)|(_ & _ & _ & _ & _ & _ & ? & _)] _]]) Hn Hv; [done|congruence|].
  unfold Parsed_IP6Header. rewrite Hv, Hb. change (negb (6 =? 6)) with false. cbv iota. pkt_access. eauto.
Qed.

(** An echo request has eight bytes behind the transport offset. *)
Lemma IsEchoRequest_room q : IsEchoRequest q = Ok true → IPProto q ≠ Unknown ∧ subofs q + 8 <= zlen (q_b q).
Proof.
  unfold IsEchoRequest, icmpIs. intros Hq.
  destruct (_ =? ICMPv4) eqn:E4; [|destruct (_ =? ICMPv6) eqn:E6; [|done]]; bool_prop;
    (split; [by intros Hu; rewrite Hu in *|]); destruct (_ <? _) eqn:E; [done| |done|]; bool_prop; lia.
Qed.

Lemma ICMP4Header_Ok b q :
  describes b q → IsEchoRequest q = Ok true → IPVersion q = 4 → ∃ h, Parsed_ICMP4Header q = Ok h.
Proof.
  intros Hd (Hn & Hr)%IsEchoRequest_room Hv. destruct (known_subofs b q Hd Hn) as [_ Hs].
  destruct (IP4Header_Ok b q Hd Hn Hv) as [h Hh].
  unfold Parsed_ICMP4Header. rewrite Hh. pkt_fields. pkt_access. eauto.
Qed.

Lemma ICMP6Header_Ok b q :
  describes b q → IsEchoRequest q = Ok true → IPVersion q = 6 → ∃ h, Parsed_ICMP6Header q = Ok h.
Proof.
  intros Hd (Hn & Hr)%IsEchoRequest_room Hv. destruct (known_subofs b q Hd Hn) as [_ Hs].
  destruct (IP6Header_Ok b q Hd Hn Hv) as [h Hh].
  unfold Parsed_ICMP6Header. rewrite Hh. pkt_fields. pkt_access. eauto.
Qed.

(** ** The payload *)

(** [b[lo:hi]] *)
Definition sub_bytes (b : bytes) (lo hi : Z) : bytes := take (Z.to_nat hi - Z.to_nat lo) (drop (Z.to_nat lo) b).

(** The three cases of [Payload], by where the payload starts and where the IP
    header says that the packet ends. *)
Definition payload_result (b : bytes) (start stop : Z) : res bytes :=
  if zlen b <? start then Ok []
  else if stop <? start then Panic
  else Ok (sub_bytes b start stop).

Lemma Payload_cases b q n :
  describes b q → payload_start b q = Some n → Payload q = payload_result b (subofs q + n) (q_length q).
Proof.
  intros Hd Hn. assert (IPProto q ≠ Unknown) as Hk by (intros Hu; unfold payload_start in Hn; by rewrite Hu, !andb_false_r in Hn).
  destruct (known_subofs b q Hd Hk) as [_ Hs]. destruct Hd as (Hb & _ & [?|[Hh (_ & _ & _ & Hd & _)]]); [done|].
  assert (q_length q <= zlen b) as Hl by (destruct Hh as [(_ & _ & _ & _ & _ & _ & _ & ?)|(_ & _ & _ & _ & _ & _ & _ & ?)]; lia).
  assert (0 <= n) as Hn0.
  { unfold payload_start in Hn. pose proof (Z.mod_pos_bound (byte_at b (subofs q + 12) / 16) 16).
    repeat case_match; simplify_eq; pkt_consts; lia. }
  unfold Payload, payload_result. rewrite (Hd n Hn), Hb. rewrite (proj2 (Z.ltb_ge (zlen b) (q_length q))) by lia.
  cbn [orb]. destruct (zlen b <? subofs q + n) eqn:E1; [done|]. bool_prop.
  destruct (q_length q <? subofs q + n) eqn:E2; bool_prop; [|by rewrite slice_Ok by lia].
  unfold slice. by rewrite (proj2 (Z.ltb_lt (q_length q) (subofs q + n))), orb_true_r by lia.
Qed.


(** The ICMP echo request of a peer, in a buffer that is longer than its total length says. *)
Definition shortEcho : bytes :=
  [0x45; 0; 0; 20; 0; 1; 0; 0; 64; 1; 0; 0; 100; 64; 0; 1; 100; 64; 0; 2; 8; 0; 0; 0; 0; 1; 0; 1].


(** An IPv6 packet whose next header is ICMPv4 passes for an echo request, and its
    payload starts where that of the packet decoded before it did. *)
Definition echo4in6 : bytes :=
  [0x60; 0; 0; 0; 0; 12; 1; 64] ++ replicate 16 1 ++ replicate 16 2 ++ [8; 0; 0; 0; 1; 2; 3; 4; 5; 6; 7; 8].

Example echo_payload_of_previous_packet :
  ∃ q1 q2, Decode (set_dataofs 48 Parsed_zero) echo4in6 = Ok q1 ∧ Decode (set_dataofs 51 Parsed_zero) echo4in6 = Ok q2 ∧
    IsEchoRequest q1 = Ok true ∧ IsEchoRequest q2 = Ok true ∧ Payload q1 = Ok [5; 6; 7; 8] ∧ Payload q2 = Ok [8].
Proof. eexists _, _. split_and!; by vm_compute. Qed.
