(* ===== verification/Disco.v ===== *)
(** * disco: discovery messages

    [disco/disco.go]: the messages nodes and relays exchange to find a path
    ([Ping], [Pong], [CallMeMaybe] and the UDP relay messages), their marshalling
    into a buffer and their parser.  A buffer is written through a slice that
    moves along it: a cursor holds the bytes already passed and those ahead.
    A key is its 32 bytes. *)
From S2P Require Import Prelude NetBuf NetAddr.

(** ** Writing *)
Abbreviation cursor := (bytes * bytes)%type.

(** [copy(d, src)], which stops at the shorter of the two *)
Definition c_copy (src : bytes) (c : cursor) : cursor :=
  let '(w, d) := c in (w, take (length d) src ++ drop (length src) d).

(** [d = d[n:]] *)
Definition c_skip (n : Z) (c : cursor) : res cursor :=
  let '(w, d) := c in r ← slice_from d n; Ok (w ++ take (Z.to_nat n) d, r).

(** [binary.BigEndian.PutUintN(d, v)], of [n] bytes *)
Definition c_put (n : nat) (v : Z) (c : cursor) : res cursor :=
  let '(w, d) := c in d ← put_bytes d 0 (be_bytes n v); Ok (w, d).

(** ** Messages *)
Definition Magic : bytes := [0x54; 0x53; 0xf0; 0x9f; 0x92; 0xac].
Definition keyLen : Z := 32.
Definition NonceLen : Z := 24.
Definition NodePublicRawLen32 : Z := 32.
Definition DiscoPublicRawLen : Z := 32.

Definition TypePing : Z := 0x01.
Definition TypePong : Z := 0x02.
Definition TypeCallMeMaybe : Z := 0x03.
Definition TypeBindUDPRelayEndpoint : Z := 0x04.
Definition TypeBindUDPRelayEndpointChallenge : Z := 0x05.
Definition TypeBindUDPRelayEndpointAnswer : Z := 0x06.
Definition TypeCallMeMaybeVia : Z := 0x07.
Definition TypeAllocateUDPRelayEndpointRequest : Z := 0x08.
Definition TypeAllocateUDPRelayEndpointResponse : Z := 0x09.
Definition v0 : Z := 0.
Definition errShort : error := Errorf "short message".

Definition LooksLikeDiscoWrapper (p : bytes) : res bool :=
  if zlen p <? zlen Magic + keyLen + NonceLen then Ok false
  else m ← slice p 0 (zlen Magic); Ok (bool_decide (m = Magic)).

Definition Source (p : bytes) : res (option bytes) :=
  ok ← LooksLikeDiscoWrapper p;
  if negb ok then Ok None
  else r ← slice_from p (zlen Magic); s ← slice r 0 keyLen; Ok (Some s).

Record Ping := mkPing { ping_TxID : bytes; ping_NodeKey : bytes; ping_Padding : Z }.
Record Pong := mkPong { pong_TxID : bytes; pong_Src : AddrPort }.
Record BindUDPRelayEndpointCommon := mkBind {
  bind_VNI : Z;
  bind_Generation : Z;
  bind_RemoteKey : bytes;
  bind_Challenge : bytes
}.
Record UDPRelayEndpoint := mkRelay {
  re_ServerDisco : bytes;
  re_ClientDisco : bytes * bytes;
  re_LamportID : Z;
  re_VNI : Z;
  re_BindLifetime : Z;
  re_SteadyStateLifetime : Z;
  re_AddrPorts : list AddrPort
}.

Inductive Message :=
  | MPing (m : Ping)
  | MPong (m : Pong)
  | MCallMeMaybe (MyNumber : list AddrPort)
  | MBindUDPRelayEndpoint (m : BindUDPRelayEndpointCommon)
  | MBindUDPRelayEndpointChallenge (m : BindUDPRelayEndpointCommon)
  | MBindUDPRelayEndpointAnswer (m : BindUDPRelayEndpointCommon)
  | MCallMeMaybeVia (m : UDPRelayEndpoint)
  | MAllocateUDPRelayEndpointRequest (ClientDisco : bytes * bytes) (Generation : Z)
  | MAllocateUDPRelayEndpointResponse (Generation : Z) (m : UDPRelayEndpoint).

Definition zeroKey : bytes := replicate 32 0.
Definition zeroRelay : UDPRelayEndpoint := mkRelay zeroKey (zeroKey, zeroKey) 0 0 0 0 [].

Definition PingLen : Z := 12 + NodePublicRawLen32.
Definition epLength : Z := 16 + 2.
Definition pongLen : Z := 12 + 16 + 2.
Definition bindUDPRelayEndpointCommonLen : Z := 72.
Definition BindUDPRelayChallengeLen : Z := 32.
Definition allocateUDPRelayEndpointRequestLen : Z := DiscoPublicRawLen * 2 + 4.
Definition udpRelayEndpointLenMinusAddrPorts : Z := DiscoPublicRawLen + DiscoPublicRawLen * 2 + 8 + 4 + 8 + 8.

(** ** Marshalling *)

(** The message with its data still zero: the header, and a cursor on the data. *)
Definition appendMsgHeader (b : bytes) (t ver dataLen : Z) : res cursor :=
  if dataLen <? 0 then Panic
  else Ok (b ++ [t; ver], replicate (Z.to_nat dataLen) 0).

Definition written (c : cursor) : bytes := let '(w, d) := c in w ++ d.

(** The padding is a count of bytes, so it is not negative. *)
Definition Ping_AppendMarshal (m : Ping) (b : bytes) : res bytes :=
  let hasKey := negb (bool_decide (ping_NodeKey m = zeroKey)) in
  let dataLen := if hasKey then 12 + NodePublicRawLen32 else 12 in
  c ← appendMsgHeader b TypePing v0 (dataLen + ping_Padding m);
  c ← c_skip 12 (c_copy (ping_TxID m) c);
  let c := if hasKey then c_copy (ping_NodeKey m) c else c in
  Ok (written c).

(** One endpoint: its address in 16 bytes and its port. *)
Definition writeEndpoint (c : cursor) (ipp : AddrPort) : res cursor :=
  let c := c_copy (As16 (ap_Addr ipp)) c in
  c ← c_skip 16 c;
  c ← c_put 2 (ap_Port ipp) c;
  c_skip (epLength - 16) c.

Definition writeEndpoints (eps : list AddrPort) (c : cursor) : res cursor := foldM writeEndpoint c eps.

Definition CallMeMaybe_AppendMarshal (MyNumber : list AddrPort) (b : bytes) : res bytes :=
  c ← appendMsgHeader b TypeCallMeMaybe v0 (epLength * zlen MyNumber);
  c ← writeEndpoints MyNumber c;
  Ok (written c).

Definition Pong_AppendMarshal (m : Pong) (b : bytes) : res bytes :=
  c ← appendMsgHeader b TypePong v0 pongLen;
  c ← c_skip 12 (c_copy (pong_TxID m) c);
  c ← c_skip 16 (c_copy (As16 (ap_Addr (pong_Src m))) c);
  c ← c_put 2 (ap_Port (pong_Src m)) c;
  Ok (written c).

Definition Bind_encode (m : BindUDPRelayEndpointCommon) (c : cursor) : res cursor :=
  c ← c_put 4 (bind_VNI m) c;
  c ← c_skip 4 c;
  c ← c_put 4 (bind_Generation m) c;
  c ← c_skip 4 c;
  c ← c_skip DiscoPublicRawLen (c_copy (bind_RemoteKey m) c);
  Ok (c_copy (bind_Challenge m) c).

Definition Bind_AppendMarshal (t : Z) (m : BindUDPRelayEndpointCommon) (b : bytes) : res bytes :=
  c ← appendMsgHeader b t v0 bindUDPRelayEndpointCommonLen;
  c ← Bind_encode m c;
  Ok (written c).

Definition AllocateRequest_AppendMarshal (ClientDisco : bytes * bytes) (Generation : Z) (b : bytes) : res bytes :=
  c ← appendMsgHeader b TypeAllocateUDPRelayEndpointRequest v0 allocateUDPRelayEndpointRequestLen;
  c ← c_skip DiscoPublicRawLen (c_copy ClientDisco.1 c);
  c ← c_skip DiscoPublicRawLen (c_copy ClientDisco.2 c);
  c ← c_put 4 Generation c;
  Ok (written c).

(** [uint64(d)] of a duration is its two's complement, which the bytes spell. *)
Definition Relay_encode (m : UDPRelayEndpoint) (c : cursor) : res cursor :=
  c ← c_skip DiscoPublicRawLen (c_copy (re_ServerDisco m) c);
  c ← c_skip DiscoPublicRawLen (c_copy (re_ClientDisco m).1 c);
  c ← c_skip DiscoPublicRawLen (c_copy (re_ClientDisco m).2 c);
  c ← c_put 8 (re_LamportID m) c;
  c ← c_skip 8 c;
  c ← c_put 4 (re_VNI m) c;
  c ← c_skip 4 c;
  c ← c_put 8 (u64 (re_BindLifetime m)) c;
  c ← c_skip 8 c;
  c ← c_put 8 (u64 (re_SteadyStateLifetime m)) c;
  c ← c_skip 8 c;
  writeEndpoints (re_AddrPorts m) c.

Definition AllocateResponse_AppendMarshal (Generation : Z) (m : UDPRelayEndpoint) (b : bytes) : res bytes :=
  let endpointsLen := epLength * zlen (re_AddrPorts m) in
  c ← appendMsgHeader b TypeAllocateUDPRelayEndpointResponse v0
        (4 + udpRelayEndpointLenMinusAddrPorts + endpointsLen);
  c ← c_put 4 Generation c;
  c ← c_skip 4 c;
  c ← Relay_encode m c;
  Ok (written c).

Definition CallMeMaybeVia_AppendMarshal (m : UDPRelayEndpoint) (b : bytes) : res bytes :=
  let endpointsLen := epLength * zlen (re_AddrPorts m) in
  c ← appendMsgHeader b TypeCallMeMaybeVia v0 (udpRelayEndpointLenMinusAddrPorts + endpointsLen);
  c ← Relay_encode m c;
  Ok (written c).

Definition AppendMarshal (m : Message) (b : bytes) : res bytes :=
  match m with
  | MPing m => Ping_AppendMarshal m b
  | MPong m => Pong_AppendMarshal m b
  | MCallMeMaybe eps => CallMeMaybe_AppendMarshal eps b
  | MBindUDPRelayEndpoint m => Bind_AppendMarshal TypeBindUDPRelayEndpoint m b
  | MBindUDPRelayEndpointChallenge m => Bind_AppendMarshal TypeBindUDPRelayEndpointChallenge m b
  | MBindUDPRelayEndpointAnswer m => Bind_AppendMarshal TypeBindUDPRelayEndpointAnswer m b
  | MCallMeMaybeVia m => CallMeMaybeVia_AppendMarshal m b
  | MAllocateUDPRelayEndpointRequest ks g => AllocateRequest_AppendMarshal ks g b
  | MAllocateUDPRelayEndpointResponse g m => AllocateResponse_AppendMarshal g m b
  end.

(** ** Parsing *)
Definition parsePing (ver : Z) (p : bytes) : res Ping :=
  if zlen p <? 12 then Err errShort else
  let padding := zlen p in
  tx ← slice p 0 12;
  p ← slice_from p 12;
  let padding := padding - 12 in
  if NodePublicRawLen32 <=? zlen p then
    k ← slice p 0 NodePublicRawLen32;
    Ok (mkPing tx k (padding - NodePublicRawLen32))
  else Ok (mkPing tx zeroKey padding).

(** [for len(p) > 0 { .. p = p[epLength:] }], with fuel *)
Fixpoint parseEndpoints (fuel : nat) (p : bytes) : res (list AddrPort) :=
  match fuel with
  | O => NoFuel
  | S fuel =>
      if zlen p =? 0 then Ok [] else
      let a := take 16 (p ++ replicate 16 0) in
      pp ← slice p 16 18;
      port ← Uint16 pp 0;
      rest ← slice_from p epLength;
      eps ← parseEndpoints fuel rest;
      Ok (AddrPortFrom (Unmap (AddrFrom16 a)) port :: eps)
  end.

Definition parseCallMeMaybe (ver : Z) (p : bytes) : res (list AddrPort) :=
  if negb (zlen p mod epLength =? 0) || negb (ver =? 0) || (zlen p =? 0) then Ok []
  else parseEndpoints (S (length p)) p.

Definition parsePong (ver : Z) (p : bytes) : res Pong :=
  if zlen p <? pongLen then Err errShort else
  tx ← slice p 0 12;
  p ← slice_from p 12;
  ip ← slice p 0 16;
  p ← slice_from p 16;
  port ← Uint16 p 0;
  Ok (mkPong tx (AddrPortFrom (Unmap (AddrFrom16 ip)) port)).

Definition Bind_decode (b : bytes) : res BindUDPRelayEndpointCommon :=
  if zlen b <? bindUDPRelayEndpointCommonLen then Err errShort else
  vni ← Uint32 b 0;
  b ← slice_from b 4;
  gen ← Uint32 b 0;
  b ← slice_from b 4;
  k ← slice b 0 DiscoPublicRawLen;
  b ← slice_from b DiscoPublicRawLen;
  ch ← slice b 0 BindUDPRelayChallengeLen;
  Ok (mkBind vni gen k ch).

Definition parseAllocateUDPRelayEndpointRequest (ver : Z) (p : bytes) : res (bytes * bytes * Z) :=
  if negb (ver =? 0) then Ok (zeroKey, zeroKey, 0) else
  if zlen p <? allocateUDPRelayEndpointRequestLen then Err errShort else
  k1 ← slice p 0 DiscoPublicRawLen;
  p ← slice_from p DiscoPublicRawLen;
  k2 ← slice p 0 DiscoPublicRawLen;
  p ← slice_from p DiscoPublicRawLen;
  gen ← Uint32 p 0;
  Ok (k1, k2, gen).

(** [time.Duration(x)] *)
Definition s64 (x : Z) : Z := if x <? 2 ^ 63 then x else x - 2 ^ 64.

Definition Relay_decode (b : bytes) : res UDPRelayEndpoint :=
  if (zlen b <? udpRelayEndpointLenMinusAddrPorts + epLength) ||
     negb ((zlen b - udpRelayEndpointLenMinusAddrPorts) mod epLength =? 0)
  then Err errShort else
  server ← slice b 0 DiscoPublicRawLen;
  b ← slice_from b DiscoPublicRawLen;
  k1 ← slice b 0 DiscoPublicRawLen;
  b ← slice_from b DiscoPublicRawLen;
  k2 ← slice b 0 DiscoPublicRawLen;
  b ← slice_from b DiscoPublicRawLen;
  lamport ← Uint64 b 0;
  b ← slice_from b 8;
  vni ← Uint32 b 0;
  b ← slice_from b 4;
  bl ← Uint64 b 0;
  b ← slice_from b 8;
  ssl ← Uint64 b 0;
  b ← slice_from b 8;
  (* make([]netip.AddrPort, 0, len(b)-124/18) panics on a negative capacity *)
  if zlen b - udpRelayEndpointLenMinusAddrPorts / epLength <? 0 then Panic else
  eps ← parseEndpoints (S (length b)) b;
  Ok (mkRelay server (k1, k2) lamport vni (s64 bl) (s64 ssl) eps).

Definition parseAllocateUDPRelayEndpointResponse (ver : Z) (p : bytes) : res (Z * UDPRelayEndpoint) :=
  if negb (ver =? 0) then Ok (0, zeroRelay) else
  if zlen p <? 4 then Err errShort else
  gen ← Uint32 p 0;
  p ← slice_from p 4;
  m ← Relay_decode p;
  Ok (gen, m).

Definition parseCallMeMaybeVia (ver : Z) (p : bytes) : res UDPRelayEndpoint :=
  if negb (ver =? 0) then Ok zeroRelay else Relay_decode p.

#[local] Instance res_fmap : FMap res := λ A B f r, r ← r; Ok (f r).

Definition Parse (p : bytes) : res Message :=
  if zlen p <? 2 then Err errShort else
  t ← idx p 0;
  ver ← idx p 1;
  p ← slice_from p 2;
  if t =? TypePing then MPing <$> parsePing ver p
  else if t =? TypePong then MPong <$> parsePong ver p
  else if t =? TypeCallMeMaybe then MCallMeMaybe <$> parseCallMeMaybe ver p
  else if t =? TypeBindUDPRelayEndpoint then MBindUDPRelayEndpoint <$> Bind_decode p
  else if t =? TypeBindUDPRelayEndpointChallenge then MBindUDPRelayEndpointChallenge <$> Bind_decode p
  else if t =? TypeBindUDPRelayEndpointAnswer then MBindUDPRelayEndpointAnswer <$> Bind_decode p
  else if t =? TypeCallMeMaybeVia then MCallMeMaybeVia <$> parseCallMeMaybeVia ver p
  else if t =? TypeAllocateUDPRelayEndpointRequest then
    '(k1, k2, gen) ← parseAllocateUDPRelayEndpointRequest ver p;
    Ok (MAllocateUDPRelayEndpointRequest (k1, k2) gen)
  else if t =? TypeAllocateUDPRelayEndpointResponse then
    '(gen, m) ← parseAllocateUDPRelayEndpointResponse ver p;
    Ok (MAllocateUDPRelayEndpointResponse gen m)
  else Err (Errorf "unknown message type").

(** ** Writing into a zeroed buffer *)
Lemma overwrite_front (src rest : bytes) n :
  length src = n → overwrite (replicate n 0 ++ rest) src = Ok (src ++ rest).
Proof.
  intros <-. induction src as [|x src IH]; cbn; [done|]. by rewrite IH.
Qed.

Section Write.
Context (w : bytes) (k : nat).

Lemma write_copy (src : bytes) n :
  zlen src = n → c_skip n (c_copy src (w, replicate (Z.to_nat n + k) 0)) = Ok (w ++ src, replicate k 0).
Proof using.
  intros <-. unfold zlen. rewrite Nat2Z.id. cbn [c_copy c_skip].
  rewrite (take_ge src) by (rewrite length_replicate; lia). rewrite drop_replicate.
  replace (length src + k - length src)%nat with k by lia.
  rewrite slice_from_Ok by (unfold zlen; rewrite length_app; lia). rewrite Nat2Z.id.
  cbn [mbind res_bind]. by rewrite take_app_length, drop_app_length.
Qed.

Lemma write_put n v z :
  z = Z.of_nat n →
  (c ← c_put n v (w, replicate (n + k) 0); c_skip z c) = Ok (w ++ be_bytes n v, replicate k 0).
Proof using.
  intros ->. cbn [c_put]. unfold put_bytes. cbn [Z.ltb Z.compare Z.to_nat overwrite_at].
  rewrite replicate_add, overwrite_front by apply be_bytes_length. cbn [mbind res_bind c_skip].
  rewrite slice_from_Ok by (unfold zlen; rewrite length_app, be_bytes_length; lia). rewrite Nat2Z.id.
  cbn [mbind res_bind]. by rewrite take_app_length', drop_app_length' by (by rewrite be_bytes_length).
Qed.
End Write.

(** The last number of a message. *)
Lemma write_last w n v : (c ← c_put n v (w, replicate n 0); Ok (written c)) = Ok (w ++ be_bytes n v).
Proof.
  cbn [c_put]. unfold put_bytes. cbn [Z.ltb Z.compare Z.to_nat overwrite_at].
  rewrite <- (app_nil_r (replicate n 0)), overwrite_front by apply be_bytes_length.
  cbn [mbind res_bind written]. by rewrite app_nil_r.
Qed.

(** ** The bytes of a message *)
Definition ep_bytes (ipp : AddrPort) : bytes := As16 (ap_Addr ipp) ++ be_bytes 2 (ap_Port ipp).
Definition eps_bytes (eps : list AddrPort) : bytes := eps ≫= ep_bytes.

Lemma ep_bytes_length ipp : length (ep_bytes ipp) = 18%nat.
Proof. unfold ep_bytes, As16. by rewrite length_app, !be_bytes_length. Qed.

Lemma eps_bytes_cons e eps : eps_bytes (e :: eps) = ep_bytes e ++ eps_bytes eps.
Proof. done. Qed.

Lemma eps_bytes_length eps : length (eps_bytes eps) = (18 * length eps)%nat.
Proof.
  induction eps as [|e eps IH]; [done|]. rewrite eps_bytes_cons, length_app, ep_bytes_length, IH. cbn [length]. lia.
Qed.

Definition bind_bytes (m : BindUDPRelayEndpointCommon) : bytes :=
  be_bytes 4 (bind_VNI m) ++ be_bytes 4 (bind_Generation m) ++ bind_RemoteKey m ++ bind_Challenge m.
Definition relay_bytes (m : UDPRelayEndpoint) : bytes :=
  re_ServerDisco m ++ (re_ClientDisco m).1 ++ (re_ClientDisco m).2 ++ be_bytes 8 (re_LamportID m) ++
  be_bytes 4 (re_VNI m) ++ be_bytes 8 (u64 (re_BindLifetime m)) ++ be_bytes 8 (u64 (re_SteadyStateLifetime m)) ++
  eps_bytes (re_AddrPorts m).

Definition msg_bytes (m : Message) : bytes :=
  match m with
  | MPing m => [TypePing; v0] ++ ping_TxID m ++ (if decide (ping_NodeKey m = zeroKey) then [] else ping_NodeKey m)
                 ++ replicate (Z.to_nat (ping_Padding m)) 0
  | MPong m => [TypePong; v0] ++ pong_TxID m ++ ep_bytes (pong_Src m)
  | MCallMeMaybe eps => [TypeCallMeMaybe; v0] ++ eps_bytes eps
  | MBindUDPRelayEndpoint m => [TypeBindUDPRelayEndpoint; v0] ++ bind_bytes m
  | MBindUDPRelayEndpointChallenge m => [TypeBindUDPRelayEndpointChallenge; v0] ++ bind_bytes m
  | MBindUDPRelayEndpointAnswer m => [TypeBindUDPRelayEndpointAnswer; v0] ++ bind_bytes m
  | MCallMeMaybeVia m => [TypeCallMeMaybeVia; v0] ++ relay_bytes m
  | MAllocateUDPRelayEndpointRequest ks g =>
      [TypeAllocateUDPRelayEndpointRequest; v0] ++ ks.1 ++ ks.2 ++ be_bytes 4 g
  | MAllocateUDPRelayEndpointResponse g m =>
      [TypeAllocateUDPRelayEndpointResponse; v0] ++ be_bytes 4 g ++ relay_bytes m
  end.

(** The fields fit their types; endpoints are valid addresses without a zone, in
    the form the parser gives them. *)
Definition key_wf (k : bytes) : Prop := zlen k = 32.
Definition ep_wf (ipp : AddrPort) : Prop :=
  match ap_Addr ipp with
  | AddrZero => False
  | Addr4 v => 0 <= v < 2 ^ 32
  | Addr6 v z => 0 <= v < 2 ^ 128 ∧ z = "" ∧ Is4In6 (Addr6 v z) = false
  end ∧ 0 <= ap_Port ipp < 2 ^ 16.
Definition bind_wf (m : BindUDPRelayEndpointCommon) : Prop :=
  0 <= bind_VNI m < 2 ^ 32 ∧ 0 <= bind_Generation m < 2 ^ 32 ∧ key_wf (bind_RemoteKey m) ∧
  zlen (bind_Challenge m) = BindUDPRelayChallengeLen.
Definition relay_wf (m : UDPRelayEndpoint) : Prop :=
  key_wf (re_ServerDisco m) ∧ key_wf (re_ClientDisco m).1 ∧ key_wf (re_ClientDisco m).2 ∧
  0 <= re_LamportID m < 2 ^ 64 ∧ 0 <= re_VNI m < 2 ^ 32 ∧
  - 2 ^ 63 <= re_BindLifetime m < 2 ^ 63 ∧ - 2 ^ 63 <= re_SteadyStateLifetime m < 2 ^ 63 ∧
  re_AddrPorts m ≠ [] ∧ Forall ep_wf (re_AddrPorts m).
Definition msg_wf (m : Message) : Prop :=
  match m with
  | MPing m => zlen (ping_TxID m) = 12 ∧ key_wf (ping_NodeKey m) ∧ 0 <= ping_Padding m ∧
                 (ping_NodeKey m = zeroKey → ping_Padding m < 32)
  | MPong m => zlen (pong_TxID m) = 12 ∧ ep_wf (pong_Src m)
  | MCallMeMaybe eps => Forall ep_wf eps
  | MBindUDPRelayEndpoint m | MBindUDPRelayEndpointChallenge m | MBindUDPRelayEndpointAnswer m => bind_wf m
  | MCallMeMaybeVia m => relay_wf m
  | MAllocateUDPRelayEndpointRequest ks g => key_wf ks.1 ∧ key_wf ks.2 ∧ 0 <= g < 2 ^ 32
  | MAllocateUDPRelayEndpointResponse g m => 0 <= g < 2 ^ 32 ∧ relay_wf m
  end.

Lemma As16_zlen a : zlen (As16 a) = 16.
Proof. unfold zlen, As16. by rewrite be_bytes_length. Qed.

Lemma writeEndpoint_Ok w k ipp :
  writeEndpoint (w, replicate (18 + k) 0) ipp = Ok (w ++ ep_bytes ipp, replicate k 0).
Proof.
  unfold writeEndpoint, ep_bytes. change (18 + k)%nat with (Z.to_nat 16 + (2 + k))%nat.
  rewrite write_copy by apply As16_zlen. cbn [mbind res_bind].
  rewrite app_assoc. by apply write_put.
Qed.

Lemma writeEndpoints_Ok eps w k :
  writeEndpoints eps (w, replicate (18 * length eps + k) 0) = Ok (w ++ eps_bytes eps, replicate k 0).
Proof.
  unfold writeEndpoints. revert w. induction eps as [|e eps IH]; intros w; cbn [foldM].
  - by rewrite app_nil_r.
  - replace (18 * length (e :: eps) + k)%nat with (18 + (18 * length eps + k))%nat by (cbn [length]; lia).
    rewrite writeEndpoint_Ok. cbn [mbind res_bind]. rewrite IH, <- app_assoc. done.
Qed.

(** Reading numbers and slices from the front. *)
Section Read.
Context (a r : bytes) (n : Z).
Hypothesis Hn : zlen a = n.

Lemma read_slice : slice (a ++ r) 0 n = Ok a.
Proof using Hn.
  subst n. rewrite slice_Ok by (unfold zlen; rewrite ?length_app; lia).
  unfold zlen. rewrite Nat2Z.id. cbn [Z.to_nat]. rewrite skipn_O, Nat.sub_0_r. by rewrite take_app_length.
Qed.

Lemma read_from : slice_from (a ++ r) n = Ok r.
Proof using Hn.
  subst n. rewrite slice_from_Ok by (unfold zlen; rewrite length_app; lia).
  unfold zlen. rewrite Nat2Z.id. by rewrite drop_app_length.
Qed.
End Read.

Lemma zlen_be n v : zlen (be_bytes n v) = Z.of_nat n.
Proof. unfold zlen. by rewrite be_bytes_length. Qed.

Lemma zlen_app (a b : bytes) : zlen (a ++ b) = zlen a + zlen b.
Proof. unfold zlen. rewrite length_app. lia. Qed.

Lemma read_be n (v : Z) (r : bytes) :
  0 <= v < 256 ^ Z.of_nat n →
  (s ← slice_from (be_bytes n v ++ r) 0; s ← take_exact n s; Ok (be_val s)) = Ok v.
Proof.
  intros Hv. rewrite slice_from_Ok by (pose proof (zlen_nonneg (be_bytes n v ++ r)); lia).
  cbn [mbind res_bind Z.to_nat]. rewrite skipn_O, take_exact_spec, decide_True.
  2: { rewrite length_app, be_bytes_length. lia. }
  cbn [mbind res_bind]. rewrite take_app_length' by (by rewrite be_bytes_length). by rewrite be_val_bytes_id.
Qed.

Lemma read_Uint16 v r : 0 <= v < 2 ^ 16 → Uint16 (be_bytes 2 v ++ r) 0 = Ok v.
Proof. apply (read_be 2 v r). Qed.
Lemma read_Uint32 v r : 0 <= v < 2 ^ 32 → Uint32 (be_bytes 4 v ++ r) 0 = Ok v.
Proof. apply (read_be 4 v r). Qed.
Lemma read_Uint64 v r : 0 <= v < 2 ^ 64 → Uint64 (be_bytes 8 v ++ r) 0 = Ok v.
Proof. apply (read_be 8 v r). Qed.

Lemma Unmap_As16 ipp : ep_wf ipp → Unmap (AddrFrom16 (As16 (ap_Addr ipp))) = ap_Addr ipp.
Proof.
  intros [Ha _]. unfold AddrFrom16, As16. destruct (ap_Addr ipp) as [|v|v z]; [done| |].
  - cbn [As16_val]. rewrite be_val_bytes_id by (unfold v4mapped; lia). unfold Unmap, Is4In6, v4mapped.
    rewrite Z.shiftr_div_pow2, Z.div_add_l, (Z.div_small v), Z.add_0_r, Z.eqb_refl by lia.
    by rewrite Z.add_comm, Z_mod_plus_full, Z.mod_small.
  - destruct Ha as (Hv & -> & H4). cbn [As16_val]. rewrite be_val_bytes_id by done. unfold Unmap. by rewrite H4.
Qed.

(** ** Marshalling writes the bytes of the message *)
Ltac header :=
  unfold appendMsgHeader; match goal with |- context [?n <? 0] => replace (n <? 0) with false by lia end;
  cbn [mbind res_bind].

(** A number in the middle of a message. *)
Lemma write_put_then {A} (f : cursor → res A) w k n v z :
  z = Z.of_nat n →
  (c ← c_put n v (w, replicate (n + k) 0); c ← c_skip z c; f c) = f (w ++ be_bytes n v, replicate k 0).
Proof.
  intros Hz. pose proof (write_put w k n v z Hz) as Hw. destruct (c_put _ _ _) as [c| | |]; [|done..].
  cbn [mbind res_bind] in *. by rewrite Hw.
Qed.

Lemma Bind_encode_Ok m w :
  bind_wf m → (c ← Bind_encode m (w, replicate 72 0); Ok (written c)) = Ok (w ++ bind_bytes m).
Proof.
  intros (_ & _ & Hk & Hc). unfold Bind_encode, bind_bytes. change 72%nat with (4 + (4 + (Z.to_nat 32 + 32)))%nat.
  rewrite write_put_then by done. rewrite write_put_then by done. rewrite write_copy by done.
  cbn [mbind res_bind c_copy written]. unfold BindUDPRelayChallengeLen, zlen in Hc.
  rewrite take_ge, drop_ge by (rewrite length_replicate; lia). by rewrite app_nil_r, <- !app_assoc.
Qed.

Lemma Relay_encode_Ok m w :
  relay_wf m →
  Relay_encode m (w, replicate (124 + 18 * length (re_AddrPorts m)) 0) = Ok (w ++ relay_bytes m, []).
Proof.
  intros (Hk & Hk1 & Hk2 & _). unfold Relay_encode, relay_bytes, DiscoPublicRawLen.
  replace (124 + 18 * length (re_AddrPorts m))%nat
    with (Z.to_nat 32 + (Z.to_nat 32 + (Z.to_nat 32 + (8 + (4 + (8 + (8 + (18 * length (re_AddrPorts m) + 0))))))))%nat by lia.
  rewrite write_copy by done. cbn [mbind res_bind]. rewrite write_copy by done. cbn [mbind res_bind].
  rewrite write_copy by done. cbn [mbind res_bind]. rewrite !write_put_then by done.
  rewrite writeEndpoints_Ok. by rewrite <- !app_assoc.
Qed.

Lemma AppendMarshal_bytes m b : msg_wf m → AppendMarshal m b = Ok (b ++ msg_bytes m).
Proof.
  assert (∀ t c, bind_wf c → Bind_AppendMarshal t c b = Ok (b ++ [t; v0] ++ bind_bytes c)) as Hbind.
  { intros t c Hc. unfold Bind_AppendMarshal, bindUDPRelayEndpointCommonLen. header.
    change (Z.to_nat 72) with 72%nat. by rewrite Bind_encode_Ok, <- app_assoc. }
  destruct m as [m|m|eps|m|m|m|m|ks g|g m]; intros Hwf; cbn [AppendMarshal msg_bytes]; [..|].
  - destruct Hwf as (Ht & Hk & Hp & _). unfold Ping_AppendMarshal, NodePublicRawLen32.
    destruct (decide (ping_NodeKey m = zeroKey)) as [Hz|Hz].
    + rewrite bool_decide_eq_true_2 by done. cbn [negb]. header.
      rewrite Z2Nat.inj_add, write_copy by (done || lia). cbn [mbind res_bind written]. by rewrite <- !app_assoc.
    + rewrite bool_decide_eq_false_2 by done. cbn [negb]. header.
      replace (Z.to_nat (12 + 32 + ping_Padding m)) with (Z.to_nat 12 + (32 + Z.to_nat (ping_Padding m)))%nat by lia.
      rewrite write_copy by done. cbn [mbind res_bind written c_copy]. unfold key_wf, zlen in Hk.
      rewrite take_ge by (rewrite length_replicate; lia). rewrite drop_replicate.
      replace (32 + Z.to_nat (ping_Padding m) - length (ping_NodeKey m))%nat with (Z.to_nat (ping_Padding m)) by lia.
      by rewrite <- !app_assoc.
  - destruct Hwf as (Ht & _). unfold Pong_AppendMarshal, pongLen. header.
    change (Z.to_nat (12 + 16 + 2)) with (Z.to_nat 12 + (Z.to_nat 16 + 2))%nat.
    rewrite write_copy by done. cbn [mbind res_bind]. rewrite write_copy by apply As16_zlen. cbn [mbind res_bind].
    rewrite write_last. unfold ep_bytes. by rewrite <- !app_assoc.
  - unfold CallMeMaybe_AppendMarshal, epLength. pose proof (zlen_nonneg eps). header.
    replace (Z.to_nat ((16 + 2) * zlen eps)) with (18 * length eps + 0)%nat by (unfold zlen; lia).
    rewrite writeEndpoints_Ok. cbn [mbind res_bind written replicate]. by rewrite app_nil_r, <- app_assoc.
  - by apply Hbind.
  - by apply Hbind.
  - by apply Hbind.
  - unfold CallMeMaybeVia_AppendMarshal, epLength, udpRelayEndpointLenMinusAddrPorts, DiscoPublicRawLen.
    pose proof (zlen_nonneg (re_AddrPorts m)). header.
    replace (Z.to_nat _) with (124 + 18 * length (re_AddrPorts m))%nat by (unfold zlen; lia).
    rewrite Relay_encode_Ok by done. cbn [mbind res_bind written]. by rewrite app_nil_r, <- app_assoc.
  - destruct Hwf as (H1 & H2 & _). unfold AllocateRequest_AppendMarshal, allocateUDPRelayEndpointRequestLen, DiscoPublicRawLen.
    header. change (Z.to_nat (32 * 2 + 4)) with (Z.to_nat 32 + (Z.to_nat 32 + 4))%nat.
    rewrite write_copy by done. cbn [mbind res_bind]. rewrite write_copy by done. cbn [mbind res_bind].
    rewrite write_last. by rewrite <- !app_assoc.
  - destruct Hwf as (_ & Hm). unfold AllocateResponse_AppendMarshal, epLength, udpRelayEndpointLenMinusAddrPorts, DiscoPublicRawLen.
    pose proof (zlen_nonneg (re_AddrPorts m)). header.
    replace (Z.to_nat _) with (4 + (124 + 18 * length (re_AddrPorts m)))%nat by (unfold zlen; lia).
    rewrite write_put_then by done. rewrite Relay_encode_Ok by done.
    cbn [mbind res_bind written]. by rewrite app_nil_r, <- !app_assoc.
Qed.

(** ** Parsing reads them back *)
Lemma parseEndpoints_Ok eps fuel :
  Forall ep_wf eps → (length eps < fuel)%nat → parseEndpoints fuel (eps_bytes eps) = Ok eps.
Proof.
  intros Hwf. revert fuel. induction Hwf as [|e eps He Hwf IH]; intros [|fuel] Hf; cbn [length] in *; try lia; [done|].
  cbn [parseEndpoints]. rewrite eps_bytes_cons.
  assert (zlen (ep_bytes e ++ eps_bytes eps) = 18 + zlen (eps_bytes eps)) as Hz
    by (rewrite zlen_app; unfold zlen at 1; by rewrite ep_bytes_length).
  pose proof (zlen_nonneg (eps_bytes eps)).
  replace (zlen (ep_bytes e ++ eps_bytes eps) =? 0) with false by lia.
  rewrite slice_Ok by lia. cbn [mbind res_bind].
  replace (take 16 ((ep_bytes e ++ eps_bytes eps) ++ replicate 16 0)) with (As16 (ap_Addr e)).
  2: { unfold ep_bytes. rewrite <- !app_assoc. symmetry. apply take_app_length'. unfold As16. by rewrite be_bytes_length. }
  replace (take (Z.to_nat 18 - Z.to_nat 16) (drop (Z.to_nat 16) (ep_bytes e ++ eps_bytes eps)))
    with (be_bytes 2 (ap_Port e) ++ []).
  2: { unfold ep_bytes. rewrite <- app_assoc, drop_app_length' by (unfold As16; by rewrite be_bytes_length).
       rewrite take_app_length' by (by rewrite be_bytes_length). by rewrite app_nil_r. }
  rewrite read_Uint16 by apply He. cbn [mbind res_bind].
  rewrite read_from by (unfold zlen; by rewrite ep_bytes_length). cbn [mbind res_bind].
  rewrite IH by lia. cbn [mbind res_bind]. rewrite Unmap_As16 by done. by destruct e.
Qed.

Lemma s64_u64 d : - 2 ^ 63 <= d < 2 ^ 63 → s64 (u64 d) = d.
Proof.
  intros Hd. unfold s64, u64. destruct (decide (0 <= d)).
  - rewrite Z.mod_small by lia. replace (d <? 2 ^ 63) with true by lia. done.
  - assert (d mod 2 ^ 64 = d + 2 ^ 64) as -> by (symmetry; apply (Z.mod_unique_pos _ _ (-1)); lia).
    replace (d + 2 ^ 64 <? 2 ^ 63) with false by lia. lia.
Qed.

Lemma u64_bound x : 0 <= u64 x < 2 ^ 64.
Proof. apply Z.mod_pos_bound. lia. Qed.

Lemma Bind_decode_Ok m : bind_wf m → Bind_decode (bind_bytes m) = Ok m.
Proof.
  intros (H1 & H2 & Hk & Hc). unfold Bind_decode, bind_bytes.
  rewrite !zlen_app, !zlen_be, Hk, Hc. cbn [Z.ltb]. change (_ <? _) with false. cbn match.
  rewrite read_Uint32 by done. cbn [mbind res_bind]. rewrite read_from by apply zlen_be. cbn [mbind res_bind].
  rewrite read_Uint32 by done. cbn [mbind res_bind]. rewrite read_from by apply zlen_be. cbn [mbind res_bind].
  rewrite read_slice by done. cbn [mbind res_bind]. rewrite read_from by done. cbn [mbind res_bind].
  rewrite <- (app_nil_r (bind_Challenge m)), read_slice by done. cbn [mbind res_bind]. by destruct m.
Qed.

Lemma relay_zlen m : relay_wf m → zlen (relay_bytes m) = 124 + 18 * zlen (re_AddrPorts m).
Proof.
  intros (Hk & Hk1 & Hk2 & _). unfold relay_bytes. rewrite !zlen_app, !zlen_be, Hk, Hk1, Hk2.
  unfold zlen. rewrite eps_bytes_length. lia.
Qed.

Lemma Relay_decode_Ok m : relay_wf m → Relay_decode (relay_bytes m) = Ok m.
Proof.
  intros Hwf. pose proof (relay_zlen m Hwf) as Hz. destruct Hwf as (Hk & Hk1 & Hk2 & Hl & Hv & Hb & Hs & Hne & He).
  assert (0 < zlen (re_AddrPorts m)) as Hpos by (destruct (re_AddrPorts m); [done|unfold zlen; cbn [length]; lia]).
  unfold Relay_decode. rewrite Hz. unfold udpRelayEndpointLenMinusAddrPorts, epLength, DiscoPublicRawLen.
  replace (124 + 18 * zlen (re_AddrPorts m) <? _) with false by lia.
  replace (124 + 18 * zlen (re_AddrPorts m) - _) with (zlen (re_AddrPorts m) * (16 + 2)) by lia.
  rewrite Z_mod_mult. cbn [Z.eqb negb orb]. unfold relay_bytes.
  rewrite read_slice by done. cbn [mbind res_bind]. rewrite read_from by done. cbn [mbind res_bind].
  rewrite read_slice by done. cbn [mbind res_bind]. rewrite read_from by done. cbn [mbind res_bind].
  rewrite read_slice by done. cbn [mbind res_bind]. rewrite read_from by done. cbn [mbind res_bind].
  rewrite read_Uint64 by done. cbn [mbind res_bind]. rewrite read_from by apply zlen_be. cbn [mbind res_bind].
  rewrite read_Uint32 by done. cbn [mbind res_bind]. rewrite read_from by apply zlen_be. cbn [mbind res_bind].
  rewrite read_Uint64 by apply u64_bound. cbn [mbind res_bind]. rewrite read_from by apply zlen_be. cbn [mbind res_bind].
  rewrite read_Uint64 by apply u64_bound. cbn [mbind res_bind]. rewrite read_from by apply zlen_be. cbn [mbind res_bind].
  assert (zlen (eps_bytes (re_AddrPorts m)) = 18 * zlen (re_AddrPorts m)) as Hez
    by (unfold zlen; rewrite eps_bytes_length; lia).
  rewrite Hez. change ((32 + 32 * 2 + 8 + 4 + 8 + 8) / (16 + 2)) with 6.
  replace (18 * zlen (re_AddrPorts m) - 6 <? 0) with false by lia.
  rewrite parseEndpoints_Ok; [|done|rewrite eps_bytes_length; lia]. cbn [mbind res_bind].
  rewrite !s64_u64 by done. by destruct m as [? [? ?] ? ? ? ? ?].
Qed.

Lemma Parse_header t ver p :
  Parse ([t; ver] ++ p) =
  if t =? TypePing then MPing <$> parsePing ver p
  else if t =? TypePong then MPong <$> parsePong ver p
  else if t =? TypeCallMeMaybe then MCallMeMaybe <$> parseCallMeMaybe ver p
  else if t =? TypeBindUDPRelayEndpoint then MBindUDPRelayEndpoint <$> Bind_decode p
  else if t =? TypeBindUDPRelayEndpointChallenge then MBindUDPRelayEndpointChallenge <$> Bind_decode p
  else if t =? TypeBindUDPRelayEndpointAnswer then MBindUDPRelayEndpointAnswer <$> Bind_decode p
  else if t =? TypeCallMeMaybeVia then MCallMeMaybeVia <$> parseCallMeMaybeVia ver p
  else if t =? TypeAllocateUDPRelayEndpointRequest then
    '(k1, k2, gen) ← parseAllocateUDPRelayEndpointRequest ver p;
    Ok (MAllocateUDPRelayEndpointRequest (k1, k2) gen)
  else if t =? TypeAllocateUDPRelayEndpointResponse then
    '(gen, m) ← parseAllocateUDPRelayEndpointResponse ver p;
    Ok (MAllocateUDPRelayEndpointResponse gen m)
  else Err (Errorf "unknown message type").
Proof.
  unfold Parse. pose proof (zlen_nonneg p).
  replace (zlen ([t; ver] ++ p) <? 2) with false by (rewrite zlen_app; change (zlen [t; ver]) with 2; lia).
  change (idx ([t; ver] ++ p) 0) with (Ok t). cbn [mbind res_bind].
  change (idx ([t; ver] ++ p) 1) with (Ok ver). cbn [mbind res_bind].
  rewrite read_from by done. done.
Qed.

Lemma Parse_msg_bytes m : msg_wf m → Parse (msg_bytes m) = Ok m.
Proof.
  destruct m as [m|m|eps|m|m|m|m|ks g|g m]; intros Hwf; cbn [msg_bytes];
    rewrite Parse_header; cbn [Z.eqb Pos.eqb TypePing TypePong TypeCallMeMaybe TypeBindUDPRelayEndpoint
      TypeBindUDPRelayEndpointChallenge TypeBindUDPRelayEndpointAnswer TypeCallMeMaybeVia
      TypeAllocateUDPRelayEndpointRequest TypeAllocateUDPRelayEndpointResponse].
  - destruct Hwf as (Ht & Hk & Hp & Hz). unfold parsePing, NodePublicRawLen32.
    set (pad := replicate (Z.to_nat (ping_Padding m)) 0).
    assert (zlen pad = ping_Padding m) as Hpad by (unfold pad, zlen; rewrite length_replicate; lia).
    rewrite zlen_app, Ht. destruct (decide (ping_NodeKey m = zeroKey)) as [Hk0|Hk0]; rewrite zlen_app, Hpad.
    + change (zlen []) with 0. replace (12 + (0 + ping_Padding m) <? 12) with false by lia.
      rewrite read_slice by done. cbn [mbind res_bind]. rewrite read_from by done. cbn [mbind res_bind app].
      rewrite Hpad. replace (32 <=? ping_Padding m) with false by (specialize (Hz Hk0); lia).
      cbn [fmap res_fmap mbind res_bind]. rewrite <- Hk0.
      replace (12 + (0 + ping_Padding m) - 12) with (ping_Padding m) by lia. by destruct m.
    + unfold key_wf in Hk. rewrite Hk. replace (12 + (32 + ping_Padding m) <? 12) with false by lia.
      rewrite read_slice by done. cbn [mbind res_bind]. rewrite read_from by done. cbn [mbind res_bind].
      rewrite zlen_app, Hk, Hpad. replace (32 <=? 32 + ping_Padding m) with true by lia.
      rewrite read_slice by done. cbn [fmap res_fmap mbind res_bind].
      replace (12 + (32 + ping_Padding m) - 12 - 32) with (ping_Padding m) by lia. by destruct m.
  - destruct Hwf as (Ht & He). unfold parsePong, pongLen, ep_bytes.
    rewrite !zlen_app, Ht, As16_zlen, zlen_be. change (_ <? _) with false. cbn match.
    rewrite read_slice by done. cbn [mbind res_bind]. rewrite read_from by done. cbn [mbind res_bind].
    rewrite read_slice by apply As16_zlen. cbn [mbind res_bind]. rewrite read_from by apply As16_zlen. cbn [mbind res_bind].
    rewrite <- (app_nil_r (be_bytes 2 _)), read_Uint16 by apply He. cbn [fmap res_fmap mbind res_bind].
    rewrite Unmap_As16 by done. by destruct m as [? []].
  - unfold parseCallMeMaybe, epLength. assert (zlen (eps_bytes eps) = zlen eps * 18) as ->
      by (unfold zlen; rewrite eps_bytes_length; lia).
    change (16 + 2) with 18. rewrite Z_mod_mult. cbn [Z.eqb negb orb v0]. destruct eps as [|e eps]; [done|].
    assert (0 < zlen (e :: eps)) by (unfold zlen; cbn [length]; lia).
    replace (zlen (e :: eps) * 18 =? 0) with false by lia.
    rewrite parseEndpoints_Ok; [done|done|]. rewrite eps_bytes_length. cbn [length]. lia.
  - by rewrite Bind_decode_Ok.
  - by rewrite Bind_decode_Ok.
  - by rewrite Bind_decode_Ok.
  - unfold parseCallMeMaybeVia. cbn [Z.eqb negb v0]. by rewrite Relay_decode_Ok.
  - destruct Hwf as (H1 & H2 & Hg). unfold parseAllocateUDPRelayEndpointRequest, allocateUDPRelayEndpointRequestLen, DiscoPublicRawLen.
    cbn [Z.eqb negb v0]. rewrite !zlen_app, H1, H2, zlen_be. change (_ <? _) with false. cbn match.
    rewrite read_slice by done. cbn [mbind res_bind]. rewrite read_from by done. cbn [mbind res_bind].
    rewrite read_slice by done. cbn [mbind res_bind]. rewrite read_from by done. cbn [mbind res_bind].
    rewrite <- (app_nil_r (be_bytes 4 g)), read_Uint32 by done. cbn [mbind res_bind]. by destruct ks.
  - destruct Hwf as (Hg & Hm). unfold parseAllocateUDPRelayEndpointResponse. cbn [Z.eqb negb v0].
    pose proof (zlen_nonneg (relay_bytes m)).
    rewrite zlen_app, zlen_be. change (Z.of_nat 4) with 4.
    replace (4 + zlen (relay_bytes m) <? 4) with false by lia.
    rewrite read_Uint32 by done. cbn [mbind res_bind]. rewrite read_from by apply zlen_be. cbn [mbind res_bind].
    by rewrite Relay_decode_Ok.
Qed.

(** ** Parsing arbitrary bytes *)
Lemma returns_fmap {A B} (r : res A) (f : A → B) : returns r → returns (f <$> r).
Proof. intros Hr. by apply returns_bind. Qed.

(** Taking the next [n] bytes, or numbers, of a long enough buffer. *)
Lemma next_slice {B} (p : bytes) n (f : bytes → res B) :
  0 <= n <= zlen p → (∀ s, zlen s = n → returns (f s)) → returns (s ← slice p 0 n; f s).
Proof.
  intros Hn Hf. rewrite slice_Ok by lia. apply Hf. cbn [Z.to_nat]. rewrite skipn_O, Nat.sub_0_r.
  unfold zlen in *. rewrite length_take. lia.
Qed.

Lemma next_from {B} (p : bytes) n (f : bytes → res B) :
  0 <= n <= zlen p → (∀ r, zlen r = zlen p - n → returns (f r)) → returns (r ← slice_from p n; f r).
Proof.
  intros Hn Hf. rewrite slice_from_Ok by lia. apply Hf. unfold zlen in *. rewrite length_drop. lia.
Qed.

Lemma next_be {B} (p : bytes) n (f : Z → res B) :
  Z.of_nat n <= zlen p → (∀ v, returns (f v)) →
  returns (v ← (r ← slice_from p 0; s ← take_exact n r; Ok (be_val s)); f v).
Proof.
  intros Hn Hf. rewrite slice_from_Ok by (unfold zlen in *; lia). cbn [mbind res_bind Z.to_nat].
  rewrite skipn_O, take_exact_spec, decide_True by (unfold zlen in Hn; lia). apply Hf.
Qed.

Lemma next_Uint32 {B} (p : bytes) (f : Z → res B) : 4 <= zlen p → (∀ v, returns (f v)) → returns (v ← Uint32 p 0; f v).
Proof. apply (next_be p 4 f). Qed.
Lemma next_Uint64 {B} (p : bytes) (f : Z → res B) : 8 <= zlen p → (∀ v, returns (f v)) → returns (v ← Uint64 p 0; f v).
Proof. apply (next_be p 8 f). Qed.

(** Step over the reads of a parser whose length was checked. *)
Ltac next_read :=
  first
    [ apply next_slice; [lia|intros ? ?]
    | apply next_from; [lia|intros ? ?]
    | apply next_Uint32; [lia|intros ?]
    | apply next_Uint64; [lia|intros ?] ].

Lemma parseEndpoints_returns fuel (p : bytes) k :
  zlen p = 18 * k → (length p < fuel)%nat → returns (parseEndpoints fuel p).
Proof.
  revert p k. induction fuel as [|fuel IH]; intros p k Hk Hf; [lia|]. cbn [parseEndpoints].
  destruct (zlen p =? 0) eqn:E; bool_prop; [done|]. pose proof (zlen_nonneg p).
  assert (18 <= zlen p) by lia. rewrite slice_Ok by lia. cbn [mbind res_bind].
  set (pp := take _ (drop _ p)).
  assert (2 <= zlen pp) by (unfold pp, zlen in *; rewrite length_take, length_drop; lia).
  apply (next_be pp 2); [done|]. intros v. unfold epLength. change (16 + 2) with 18.
  apply next_from; [lia|]. intros r Hr. apply returns_bind; [|done].
  apply (IH r (k - 1)); [lia|]. unfold zlen in *. lia.
Qed.

Lemma Relay_decode_returns (b : bytes) : returns (Relay_decode b).
Proof.
  unfold Relay_decode, udpRelayEndpointLenMinusAddrPorts, epLength, DiscoPublicRawLen.
  change (32 + 32 * 2 + 8 + 4 + 8 + 8) with 124. change (16 + 2) with 18.
  destruct (_ || _) eqn:E; [done|]. bool_prop. pose proof (Z.div_mod (zlen b - 124) 18 ltac:(lia)).
  do 14 next_read. change (124 / 18) with 6.
  match goal with |- returns (if ?c then _ else _) => replace c with false by lia end.
  apply returns_bind; [|done]. eapply (parseEndpoints_returns _ _ ((zlen b - 124) / 18)); [lia|lia].
Qed.

Lemma Bind_decode_returns (b : bytes) : returns (Bind_decode b).
Proof.
  unfold Bind_decode, bindUDPRelayEndpointCommonLen, DiscoPublicRawLen, BindUDPRelayChallengeLen.
  destruct (_ <? _) eqn:E; [done|]. bool_prop. repeat next_read. done.
Qed.

Lemma parse_returns ver (p : bytes) :
  returns (parsePing ver p) ∧ returns (parsePong ver p) ∧ returns (parseCallMeMaybe ver p) ∧
  returns (parseCallMeMaybeVia ver p) ∧ returns (parseAllocateUDPRelayEndpointRequest ver p) ∧
  returns (parseAllocateUDPRelayEndpointResponse ver p).
Proof.
  split_and!.
  - unfold parsePing, NodePublicRawLen32. destruct (_ <? _) eqn:E; [done|]. bool_prop. do 2 next_read.
    destruct (_ <=? _) eqn:E2; [|done]. bool_prop. by next_read.
  - unfold parsePong, pongLen. destruct (_ <? _) eqn:E; [done|]. bool_prop. do 4 next_read.
    apply (next_be _ 2); [lia|done].
  - unfold parseCallMeMaybe, epLength. change (16 + 2) with 18. destruct (_ || _) eqn:E; [done|]. bool_prop.
    pose proof (Z.div_mod (zlen p) 18 ltac:(lia)). apply (parseEndpoints_returns _ _ (zlen p / 18)); lia.
  - unfold parseCallMeMaybeVia. destruct (negb _); [done|]. apply Relay_decode_returns.
  - unfold parseAllocateUDPRelayEndpointRequest, allocateUDPRelayEndpointRequestLen, DiscoPublicRawLen.
    destruct (negb _); [done|]. destruct (_ <? _) eqn:E; [done|]. bool_prop. repeat next_read. done.
  - unfold parseAllocateUDPRelayEndpointResponse. destruct (negb _); [done|].
    destruct (_ <? _) eqn:E; [done|]. bool_prop. do 2 next_read. apply returns_bind; [apply Relay_decode_returns|done].
Qed.

(** No bytes make the discovery parser panic or run forever: whatever a peer
    or a relay sends, [Parse] returns a message or an error, and [Source]
    returns. *)
Theorem disco_Parse_returns p : returns (Parse p) ∧ returns (Source p).
Proof.
  split.
  - destruct p as [|t [|ver p]]; [done|done|]. change (t :: ver :: p) with ([t; ver] ++ p). rewrite Parse_header.
    destruct (parse_returns ver p) as (H1 & H2 & H3 & H4 & H5 & H6). pose proof (Bind_decode_returns p) as Hb.
    repeat match goal with |- returns (if ?c then _ else _) => destruct c; [by apply returns_fmap|] end.
    destruct (_ =? _); [apply returns_bind; [done|by intros [[? ?] ?]]|].
    destruct (_ =? _); [apply returns_bind; [done|by intros [? ?]]|done].
  - unfold Source, LooksLikeDiscoWrapper, keyLen, NonceLen. change (zlen Magic) with 6.
    destruct (_ <? _) eqn:E; [done|]. bool_prop. rewrite slice_Ok by lia. cbn [mbind res_bind].
    destruct (negb _); [done|]. next_read. next_read. done.
Qed.

(** Discovery messages round-trip: [AppendMarshal] keeps what is in the
    buffer and appends bytes that [Parse] reads back as the same message, for
    every message whose fields are in range (for a ping without a node key, with
    less than 32 bytes of padding, which would be read as a key). *)
Theorem disco_roundtrip m b :
  msg_wf m → ∃ p, AppendMarshal m b = Ok (b ++ p) ∧ Parse p = Ok m.
Proof. intros Hwf. exists (msg_bytes m). split; [by apply AppendMarshal_bytes|by apply Parse_msg_bytes]. Qed.

(** An answer of a relay server with two endpoints. *)
Definition sampleResponse : Message :=
  MAllocateUDPRelayEndpointResponse 7
    (mkRelay (replicate 32 1) (replicate 32 2, replicate 32 3) 5 6 300 (-1)
       [AddrPortFrom (ip4 203 0 113 1) 41641; AddrPortFrom (Addr6 (0x20010db8 * 2 ^ 96 + 1) "") 443]).

Lemma disco_roundtrip_witness : ∃ p, AppendMarshal sampleResponse [1; 2] = Ok ([1; 2] ++ p) ∧ Parse p = Ok sampleResponse.
Proof.
  apply (disco_roundtrip sampleResponse [1; 2]). split; [lia|]. unfold relay_wf, key_wf. cbn.
  split_and!; try done; try lia. repeat constructor; done || (cbn; lia).
Defined.

(** A ping without a node key and 40 bytes of padding comes back with 8. *)
Lemma padding_read_as_key :
  ∃ p, AppendMarshal (MPing (mkPing (replicate 12 9) zeroKey 40)) [] = Ok p ∧
    Parse p = Ok (MPing (mkPing (replicate 12 9) zeroKey 8)).
Proof. eexists. split; [vm_compute; reflexivity|]. vm_compute. reflexivity. Qed.
