(* ===== verification/Flowtrack.v ===== *)
(** * net/flowtrack: the LRU cache of flows

    [net/flowtrack/flowtrack.go]: the 5-tuple that identifies a flow, and a
    cache keyed by it that keeps a doubly linked list in order of use and a map
    from the key to its list element.  List elements are heap objects; here
    each has an identity, which the map holds and the list operations look for.
    The cache refines an association list in order of use. *)
From S2P Require Import Prelude NetBuf NetAddr Packet.

Record Tuple := mkTuple {
  t_src : bytes; t_dst : bytes; t_srcPort : Z; t_dstPort : Z; t_proto : Z
}.

#[global] Instance Tuple_eq_dec : EqDecision Tuple.
Proof. solve_decision. Defined.

#[global] Instance Tuple_countable : Countable Tuple.
Proof.
  refine (inj_countable'
    (λ t, (t_src t, t_dst t, t_srcPort t, t_dstPort t, t_proto t))
    (λ '(a, b, c, d, e), mkTuple a b c d e) _).
  by intros [].
Defined.

Definition MakeTuple (proto : Z) (src dst : AddrPort) : Tuple := {|
  t_proto := proto;
  t_src := As16 (ap_Addr src); t_srcPort := ap_Port src;
  t_dst := As16 (ap_Addr dst); t_dstPort := ap_Port dst |}.

Definition SrcAddr (t : Tuple) : Addr := Unmap (AddrFrom16 (t_src t)).
Definition DstAddr (t : Tuple) : Addr := Unmap (AddrFrom16 (t_dst t)).

(** [list.Element] of an [entry]; [el_id] is the pointer. *)
Record Element (V : Type) := mkElement { el_id : nat; el_key : Tuple; el_value : V }.
Arguments mkElement {V} _ _ _.
Arguments el_id {V} _.
Arguments el_key {V} _.
Arguments el_value {V} _.

(** [c_m = None] is the nil map of the zero value (where [ll] is nil too). *)
Record Cache (V : Type) := mkCache {
  MaxEntries : Z;
  c_ll : list (Element V);
  c_m : option (gmap Tuple nat);
  c_next : nat
}.
Arguments mkCache {V} _ _ _ _.
Arguments MaxEntries {V} _.
Arguments c_ll {V} _.
Arguments c_m {V} _.
Arguments c_next {V} _.

Section Cache.
Context {V : Type}.
Implicit Types (c : Cache V) (l : list (Element V)).

Definition NewCache (max : Z) : Cache V := mkCache max [] None 0.

(** [container/list]: find an element by its pointer, move it to the front,
    remove it. *)
Definition elem_at (id : nat) l : option (Element V) :=
  snd <$> list_find (λ e, el_id e = id) l.
Definition unlink (id : nat) l : list (Element V) := filter (λ e, el_id e ≠ id) l.
Definition MoveToFront (id : nat) l : list (Element V) :=
  match elem_at id l with Some e => e :: unlink id l | None => l end.
Definition set_value (id : nat) (v : V) l : list (Element V) :=
  map (λ e, if decide (el_id e = id) then mkElement (el_id e) (el_key e) v else e) l.

(** A lookup in a nil map finds nothing. *)
Definition m_lookup c (key : Tuple) : option nat := c_m c ≫= λ m, m !! key.

Definition cache_Len c : Z := match c_m c with Some m => Z.of_nat (size m) | None => 0 end.

Definition removeElement c (e : Element V) : Cache V :=
  mkCache (MaxEntries c) (unlink (el_id e) (c_ll c)) (delete (el_key e) <$> c_m c) (c_next c).

Definition RemoveOldest c : Cache V :=
  match last (c_ll c) with
  | Some e => removeElement c e
  | None => c
  end.

Definition Cache_Add c (key : Tuple) (value : V) : Cache V :=
  let m := default ∅ (c_m c) in
  match m !! key with
  | Some ee =>
      mkCache (MaxEntries c) (set_value ee value (MoveToFront ee (c_ll c))) (Some m) (c_next c)
  | None =>
      let ele := mkElement (c_next c) key value in
      let c := mkCache (MaxEntries c) (ele :: c_ll c) (Some (<[key := c_next c]> m)) (S (c_next c)) in
      if negb (MaxEntries c =? 0) && (cache_Len c >? MaxEntries c) then RemoveOldest c else c
  end.

Definition Cache_Get c (key : Tuple) : Cache V * option V :=
  match m_lookup c key with
  | Some ele =>
      (mkCache (MaxEntries c) (MoveToFront ele (c_ll c)) (c_m c) (c_next c),
       el_value <$> elem_at ele (c_ll c))
  | None => (c, None)
  end.

Definition Cache_Remove c (key : Tuple) : Cache V :=
  match m_lookup c key with
  | Some ele =>
      match elem_at ele (c_ll c) with Some e => removeElement c e | None => c end
  | None => c
  end.

(** ** The abstract cache: entries in order of use, each key once *)
Definition entries c : list (Tuple * V) := (λ e, (el_key e, el_value e)) <$> c_ll c.

Definition lookup_entry (k : Tuple) (s : list (Tuple * V)) : option V :=
  snd <$> (snd <$> list_find (λ p, p.1 = k) s).
Definition without (k : Tuple) (s : list (Tuple * V)) : list (Tuple * V) := filter (λ p, p.1 ≠ k) s.

(** At most [max] entries, the most recently used ones; 0 means no limit. *)
Definition bounded (max : Z) (s : list (Tuple * V)) : list (Tuple * V) :=
  if max =? 0 then s else take (Z.to_nat max) s.

Definition lru_add (max : Z) (k : Tuple) (v : V) (s : list (Tuple * V)) : list (Tuple * V) :=
  bounded max ((k, v) :: without k s).
Definition lru_get (k : Tuple) (s : list (Tuple * V)) : list (Tuple * V) :=
  match lookup_entry k s with Some v => (k, v) :: without k s | None => s end.

(** The list and the map describe the same elements. *)
Record cache_inv c : Prop := {
  inv_ids : NoDup (el_id <$> c_ll c);
  inv_fresh : ∀ e, e ∈ c_ll c → (el_id e < c_next c)%nat;
  inv_keys : NoDup (el_key <$> c_ll c);
  inv_map : ∀ k id, m_lookup c k = Some id ↔ ∃ v, mkElement id k v ∈ c_ll c;
  inv_bound : MaxEntries c ≠ 0 → zlen (c_ll c) <= MaxEntries c
}.

(** ** Lists with distinct images *)
Lemma NoDup_fmap_eq {A B} (f : A → B) (l : list A) x y :
  NoDup (f <$> l) → x ∈ l → y ∈ l → f x = f y → x = y.
Proof.
  induction l as [|z l IH]; cbn; intros Hd Hx Hy E; [by apply not_elem_of_nil in Hx|].
  apply NoDup_cons in Hd as [Hn Hd].
  apply elem_of_cons in Hx as [->|Hx]; apply elem_of_cons in Hy as [->|Hy]; [done|..|auto].
  - exfalso. apply Hn. rewrite E. by apply list_elem_of_fmap_2.
  - exfalso. apply Hn. rewrite <- E. by apply list_elem_of_fmap_2.
Qed.

Lemma fmap_filter_iff {A B} (f : A → B) (P : A → Prop) (Q : B → Prop)
    `{∀ x, Decision (P x), ∀ y, Decision (Q y)} (l : list A) :
  (∀ x, x ∈ l → P x ↔ Q (f x)) → f <$> filter P l = filter Q (f <$> l).
Proof.
  induction l as [|x l IH]; intros Hpq; [done|]. cbn [fmap list_fmap].
  specialize (IH ltac:(set_solver)). specialize (Hpq x ltac:(set_solver)).
  destruct (decide (P x)).
  - rewrite !filter_cons_True by tauto. cbn [fmap list_fmap]. by rewrite IH.
  - by rewrite !filter_cons_False by tauto.
Qed.

Lemma NoDup_fmap_filter {A B} (f : A → B) (P : A → Prop) `{∀ x, Decision (P x)} (l : list A) :
  NoDup (f <$> l) → NoDup (f <$> filter P l).
Proof.
  induction l as [|x l IH]; [done|]. cbn [fmap list_fmap]. intros [Hn Hd]%NoDup_cons. rewrite filter_cons.
  destruct (decide (P x)); cbn [fmap list_fmap]; [|auto]. constructor; [|auto].
  intros (y & E & Hy%list_elem_of_filter)%list_elem_of_fmap. apply Hn. rewrite E.
  apply list_elem_of_fmap_2, Hy.
Qed.

Lemma filter_neq_last {A B} `{EqDecision B} (f : A → B) (l : list A) e :
  NoDup (f <$> (l ++ [e])) → filter (λ x, f x ≠ f e) (l ++ [e]) = l.
Proof.
  rewrite fmap_app. intros (_ & Hd & _)%NoDup_app. rewrite filter_app.
  rewrite (filter_cons_False _ e) by (intros Hx; by apply Hx). rewrite app_nil_r.
  apply filter_all. intros x Hx E. apply (Hd (f x)); [by apply list_elem_of_fmap_2|]. cbn. set_solver.
Qed.

(** ** Elements by pointer *)
Lemma elem_at_Some id l e : elem_at id l = Some e → e ∈ l ∧ el_id e = id.
Proof.
  unfold elem_at. rewrite fmap_Some. intros ((i & x) & (Hx & Hid & _)%list_find_Some & ->). cbn.
  split; [by eapply list_elem_of_lookup_2|done].
Qed.

Lemma elem_at_elem id l e : NoDup (el_id <$> l) → e ∈ l → el_id e = id → elem_at id l = Some e.
Proof.
  intros Hd He Hid. destruct (elem_at id l) as [e'|] eqn:E.
  - apply elem_at_Some in E as [He' Hid']. f_equal. apply (NoDup_fmap_eq el_id l); congruence.
  - exfalso. unfold elem_at in E. rewrite fmap_None, list_find_None, Forall_forall in E. by apply (E e).
Qed.

Lemma unlink_perm l e : NoDup (el_id <$> l) → e ∈ l → l ≡ₚ e :: unlink (el_id e) l.
Proof.
  intros Hd He. apply list_elem_of_split in He as (l1 & l2 & ->). unfold unlink.
  rewrite filter_app, filter_cons_False by (intros Hx; by apply Hx).
  rewrite <- Permutation_middle. constructor.
  rewrite fmap_app in Hd. cbn in Hd. apply NoDup_app in Hd as (_ & H1 & H2).
  apply NoDup_cons in H2 as [H2 _].
  rewrite !filter_all; [done|..]; intros x Hx E.
  - apply H2. rewrite <- E. by apply list_elem_of_fmap_2.
  - apply (H1 (el_id x)); [by apply list_elem_of_fmap_2|]. rewrite E. by left.
Qed.

Lemma unlink_entries c e :
  cache_inv c → e ∈ c_ll c →
  (λ e, (el_key e, el_value e)) <$> unlink (el_id e) (c_ll c) = without (el_key e) (entries c).
Proof.
  intros Hi He. unfold unlink, without, entries. apply fmap_filter_iff. intros x Hx. cbn.
  split; intros Hne E; apply Hne; [|by rewrite (NoDup_fmap_eq el_id _ x e (inv_ids c Hi) Hx He E)].
  by rewrite (NoDup_fmap_eq el_key _ x e (inv_keys c Hi) Hx He E).
Qed.

Lemma cache_Len_zlen c : cache_inv c → cache_Len c = zlen (c_ll c).
Proof.
  intros [_ _ Hk Hm _]. unfold cache_Len, m_lookup in *. destruct (c_m c) as [m|] eqn:Em; cbn in Hm.
  - unfold zlen. f_equal. rewrite <- (length_fmap el_key), <- (size_list_to_set (C := gset Tuple)) by done.
    rewrite <- size_dom. f_equal. apply set_eq. intros k.
    rewrite elem_of_dom, elem_of_list_to_set, list_elem_of_fmap. split.
    + intros [id [v Hv]%Hm]. by exists (mkElement id k v).
    + intros ([id k' v] & -> & He). exists id. apply Hm. by exists v.
  - destruct (c_ll c) as [|[id k v] l]; [done|]. exfalso.
    assert (@None nat = Some id) as Hx; [|done]. apply (Hm k id). exists v. by left.
Qed.

(** A key in the map has its element in the list. *)
Lemma m_lookup_elem c k id :
  cache_inv c → m_lookup c k = Some id →
  ∃ v, mkElement id k v ∈ c_ll c ∧ elem_at id (c_ll c) = Some (mkElement id k v).
Proof.
  intros Hi [v Hv]%(inv_map c Hi). exists v. split; [done|].
  apply elem_at_elem; [apply Hi|done|done].
Qed.

Lemma lookup_entry_Some c k id v :
  cache_inv c → mkElement id k v ∈ c_ll c → lookup_entry k (entries c) = Some v.
Proof.
  intros Hi He. unfold lookup_entry.
  destruct (list_find _ (entries c)) as [[i [k' v']]|] eqn:E.
  - apply list_find_Some in E as (Hl & Hk & _). cbn in Hk. subst k'. cbn. f_equal.
    apply list_elem_of_lookup_2 in Hl. unfold entries in Hl. apply list_elem_of_fmap in Hl as (e' & [= Ek Ev] & He').
    by rewrite Ev, (NoDup_fmap_eq el_key _ e' _ (inv_keys c Hi) He' He (eq_sym Ek)).
  - exfalso. rewrite list_find_None, Forall_forall in E. apply (E (k, v)); [|done].
    unfold entries. apply list_elem_of_fmap. by exists (mkElement id k v).
Qed.

Lemma lookup_entry_None c k :
  cache_inv c → m_lookup c k = None →
  lookup_entry k (entries c) = None ∧ without k (entries c) = entries c.
Proof.
  intros Hi Hn.
  assert (∀ e, e ∈ c_ll c → el_key e ≠ k) as Hk.
  { intros [id k' v] He. cbn. intros ->. assert (m_lookup c k = Some id) by (apply (inv_map c Hi); eauto).
    congruence. }
  split.
  - unfold lookup_entry. replace (list_find _ (entries c)) with (@None (nat * (Tuple * V))); [done|].
    symmetry. apply list_find_None, Forall_forall. intros p Hp.
    unfold entries in Hp. apply list_elem_of_fmap in Hp as (e & -> & He). by apply Hk.
  - unfold without, entries. apply filter_all. intros p (e & -> & He)%list_elem_of_fmap. by apply Hk.
Qed.

(** ** The operations refine the abstract cache *)

Lemma NewCache_inv max : 0 <= max → cache_inv (NewCache max) ∧ entries (NewCache max) = [].
Proof.
  intros. split; [|done]. constructor; cbn; [constructor|set_solver|constructor| |done].
  intros k id. split; [done|]. intros [v Hv]. by apply not_elem_of_nil in Hv.
Qed.

(** Moving an element to the front keeps the elements. *)
Lemma MoveToFront_perm id l : NoDup (el_id <$> l) → MoveToFront id l ≡ₚ l.
Proof.
  intros Hd. unfold MoveToFront. destruct (elem_at id l) as [e|] eqn:E; [|done].
  apply elem_at_Some in E as [He <-]. by rewrite <- unlink_perm.
Qed.

Lemma reorder_inv c l' :
  cache_inv c → l' ≡ₚ c_ll c → cache_inv (mkCache (MaxEntries c) l' (c_m c) (c_next c)).
Proof.
  intros [H1 H2 H3 H4 H5] Hp. constructor; cbn.
  - by rewrite Hp.
  - intros e. rewrite Hp. apply H2.
  - by rewrite Hp.
  - intros k id. unfold m_lookup in *. cbn. setoid_rewrite Hp. apply H4.
  - unfold zlen in *. by rewrite Hp.
Qed.

Lemma Cache_Get_refines c k :
  cache_inv c →
  cache_inv (Cache_Get c k).1 ∧ entries (Cache_Get c k).1 = lru_get k (entries c) ∧
  (Cache_Get c k).2 = lookup_entry k (entries c).
Proof.
  intros Hi. unfold Cache_Get, lru_get. destruct (m_lookup c k) as [id|] eqn:E.
  - destruct (m_lookup_elem c k id Hi E) as (v & He & Hat).
    rewrite (lookup_entry_Some c k id v) by done. cbn [fst snd]. split_and!.
    + apply reorder_inv, MoveToFront_perm; [done|apply Hi].
    + unfold MoveToFront. rewrite Hat. unfold entries at 1. cbn [c_ll fmap list_fmap el_key el_value].
      f_equal. apply (unlink_entries c (mkElement id k v) Hi He).
    + by rewrite Hat.
  - destruct (lookup_entry_None c k Hi E) as [-> _]. done.
Qed.

Lemma removeElement_refines c e :
  cache_inv c → e ∈ c_ll c →
  cache_inv (removeElement c e) ∧ entries (removeElement c e) = without (el_key e) (entries c).
Proof.
  intros Hi He. split; [|by apply unlink_entries]. destruct Hi as [H1 H2 H3 H4 H5].
  constructor; cbn; [by apply NoDup_fmap_filter| |by apply NoDup_fmap_filter| |].
  - intros x [_ Hx]%list_elem_of_filter. auto.
  - intros k id. unfold m_lookup in *. cbn.
    assert (∀ v, mkElement id k v ∈ unlink (el_id e) (c_ll c) ↔
                 el_key e ≠ k ∧ mkElement id k v ∈ c_ll c) as Hu.
    { intros v. unfold unlink. rewrite list_elem_of_filter. cbn. split; intros [Hne Hx]; (split; [|done]).
      - intros E. apply Hne. by rewrite (NoDup_fmap_eq el_key _ e _ H3 He Hx E).
      - intros E. apply Hne. by rewrite <- (NoDup_fmap_eq el_id _ _ e H1 Hx He E). }
    setoid_rewrite Hu. specialize (H4 k id). destruct (c_m c) as [m|]; cbn in *.
    + rewrite lookup_delete_Some, H4. split; [intros (? & v & ?)|intros (v & ? & ?)]; eauto.
    + split; [done|]. intros (v & _ & Hv). apply H4. eauto.
  - intros Hm. specialize (H5 Hm). unfold zlen in *.
    pose proof (length_filter (λ x, el_id x ≠ el_id e) (c_ll c)). unfold unlink. lia.
Qed.

Lemma Cache_Remove_refines c k :
  cache_inv c → cache_inv (Cache_Remove c k) ∧ entries (Cache_Remove c k) = without k (entries c).
Proof.
  intros Hi. unfold Cache_Remove. destruct (m_lookup c k) as [id|] eqn:E.
  - destruct (m_lookup_elem c k id Hi E) as (v & He & ->). by apply (removeElement_refines c (mkElement id k v)).
  - destruct (lookup_entry_None c k Hi E) as [_ ->]. done.
Qed.

(** Adding a key that is present. *)
Lemma Add_hit_list id k v v' l :
  NoDup (el_id <$> l) → mkElement id k v' ∈ l →
  set_value id v (MoveToFront id l) = mkElement id k v :: unlink id l.
Proof.
  intros Hd He. unfold MoveToFront. rewrite (elem_at_elem id l (mkElement id k v')) by done.
  cbn. rewrite decide_True by done. f_equal.
  rewrite <- (list_fmap_id (unlink id l)) at 2. apply list_fmap_ext. intros i x Hx.
  apply list_elem_of_lookup_2, list_elem_of_filter in Hx as [Hne _]. by rewrite decide_False.
Qed.

Lemma Cache_Add_hit c id k v :
  cache_inv c → m_lookup c k = Some id →
  let c' := mkCache (MaxEntries c) (set_value id v (MoveToFront id (c_ll c))) (c_m c) (c_next c) in
  cache_inv c' ∧ entries c' = (k, v) :: without k (entries c).
Proof.
  intros Hi E. cbn zeta. destruct (m_lookup_elem c k id Hi E) as (v' & He & _).
  rewrite (Add_hit_list id k v v') by (done || apply Hi). split.
  - pose proof (reorder_inv c _ Hi (symmetry (unlink_perm _ _ (inv_ids c Hi) He))) as [H1 H2 H3 H4 H5].
    constructor; [done| |done| |done]; cbn in *.
    + intros x [->|Hx]%elem_of_cons; [apply (H2 (mkElement id k v')); by left|]. apply H2. by right.
    + intros k' id'. unfold m_lookup in *. cbn in *. rewrite H4. setoid_rewrite elem_of_cons.
      split; intros [w [[= -> -> ->]|Hw]]; eauto.
  - unfold entries at 1. cbn. f_equal. apply (unlink_entries c (mkElement id k v') Hi He).
Qed.

(** Adding a key that is not present, before the limit is applied. *)
Lemma Cache_push c k v :
  cache_inv c → m_lookup c k = None →
  let ele := mkElement (c_next c) k v in
  let c' := mkCache (MaxEntries c) (ele :: c_ll c) (Some (<[k := c_next c]> (default ∅ (c_m c))))
              (S (c_next c)) in
  (NoDup (el_id <$> c_ll c') ∧ (∀ e, e ∈ c_ll c' → (el_id e < c_next c')%nat) ∧
   NoDup (el_key <$> c_ll c') ∧
   (∀ k id, m_lookup c' k = Some id ↔ ∃ v, mkElement id k v ∈ c_ll c')) ∧
  entries c' = (k, v) :: without k (entries c).
Proof.
  intros Hi E. cbn zeta. destruct (lookup_entry_None c k Hi E) as [_ ->].
  destruct Hi as [H1 H2 H3 H4 H5]. split; [|done]. cbn. split_and!.
  - constructor; [|done]. intros (x & Ex & Hx)%list_elem_of_fmap. specialize (H2 x Hx). lia.
  - intros x [->|Hx]%elem_of_cons; cbn; [lia|]. specialize (H2 x Hx). lia.
  - constructor; [|done]. intros ([id k' w] & Ex & Hx)%list_elem_of_fmap. cbn in Ex. subst k'.
    assert (m_lookup c k = Some id) by (apply H4; eauto). congruence.
  - intros k' id. rewrite lookup_insert_Some. setoid_rewrite elem_of_cons.
    assert (default ∅ (c_m c) !! k' = m_lookup c k') as -> by (unfold m_lookup; by destruct (c_m c)).
    rewrite H4. split.
    + intros [[-> ->]|[Hne [w Hw]]]; eauto.
    + intros [w [[= -> -> ->]|Hw]]; [by left|]. right. split; [|eauto].
      intros ->. assert (m_lookup c k' = Some id) by (apply H4; eauto). congruence.
Qed.

Lemma bounded_entries c : cache_inv c → bounded (MaxEntries c) (entries c) = entries c.
Proof.
  intros Hi. unfold bounded. destruct (_ =? 0) eqn:E; [done|]. bool_prop.
  pose proof (inv_bound c Hi E). apply take_ge. unfold entries. rewrite length_fmap.
  unfold zlen in *. lia.
Qed.

(** Removing the last element of the list. *)
Lemma RemoveOldest_take c (P : cache_inv (mkCache 0 (c_ll c) (c_m c) (c_next c))) :
  c_ll c ≠ [] →
  cache_inv (mkCache 0 (c_ll (RemoveOldest c)) (c_m (RemoveOldest c)) (c_next (RemoveOldest c))) ∧
  c_ll (RemoveOldest c) = take (length (c_ll c) - 1) (c_ll c) ∧ MaxEntries (RemoveOldest c) = MaxEntries c.
Proof.
  intros Hne. destruct (exists_last Hne) as (l & e & El).
  unfold RemoveOldest. rewrite El in *. rewrite last_snoc.
  split_and!; [|cbn; rewrite El|done].
  - destruct (removeElement_refines (mkCache 0 (l ++ [e]) (c_m c) (c_next c)) e) as [Hr _];
      [done|apply elem_of_app; right; by left|]. cbn in *. by rewrite El.
  - unfold unlink. rewrite filter_neq_last by apply P.
    rewrite length_app, Nat.add_sub. by rewrite take_app_length.
Qed.

Lemma Cache_Add_refines c k v :
  cache_inv c → 0 <= MaxEntries c →
  cache_inv (Cache_Add c k v) ∧ entries (Cache_Add c k v) = lru_add (MaxEntries c) k v (entries c) ∧
  MaxEntries (Cache_Add c k v) = MaxEntries c.
Proof.
  intros Hi Hmax. unfold Cache_Add, lru_add.
  assert (default ∅ (c_m c) !! k = m_lookup c k) as -> by (unfold m_lookup; by destruct (c_m c)).
  destruct (m_lookup c k) as [id|] eqn:E.
  - assert (Some (default ∅ (c_m c)) = c_m c) as -> by (unfold m_lookup in E; by destruct (c_m c)).
    destruct (Cache_Add_hit c id k v Hi E) as [Hi' <-]. split_and!; [done| |done].
    symmetry. apply (bounded_entries _ Hi').
  - destruct (Cache_push c k v Hi E) as [(H1 & H2 & H3 & H4) He].
    set (c' := mkCache (MaxEntries c) _ _ _) in *. change (MaxEntries c') with (MaxEntries c).
    assert (cache_inv (mkCache 0 (c_ll c') (c_m c') (c_next c'))) as Hi' by (by constructor).
    assert (cache_Len c' = zlen (c_ll c')) as -> by apply (cache_Len_zlen _ Hi').
    assert (zlen (c_ll c') = zlen (c_ll c) + 1) as Hz by (unfold zlen; cbn; lia).
    rewrite <- He. pose proof (inv_bound c Hi) as Hb.
    assert (length (entries c') = length (c_ll c')) as Hle by (unfold entries; by rewrite length_fmap).
    destruct (MaxEntries c =? 0) eqn:E0; cbn [negb andb]; bool_prop.
    + split_and!; [|unfold bounded; by rewrite E0|done]. by constructor.
    + unfold bounded. replace (MaxEntries c =? 0) with false by lia.
      destruct (zlen (c_ll c') >? MaxEntries c) eqn:Eg.
      * assert (zlen (c_ll c') = MaxEntries c + 1) as Hm by lia.
        destruct (RemoveOldest_take c' Hi' ltac:(done)) as ([G1 G2 G3 G4 _] & Ht & Hmx).
        split_and!; [constructor; try done|unfold entries; rewrite Ht, fmap_take; f_equal|done].
        -- intros _. rewrite Hmx, Ht. change (MaxEntries c') with (MaxEntries c). unfold zlen in *. rewrite length_take. lia.
        -- unfold zlen in Hm. lia.
      * split_and!; [constructor; try done; intros _; change (MaxEntries c') with (MaxEntries c); lia| |done].
        rewrite take_ge; [done|]. unfold zlen in *. lia.
Qed.

(** ** Runs of operations *)
Inductive cache_op :=
  | OpAdd (k : Tuple) (v : V)
  | OpGet (k : Tuple)
  | OpRemove (k : Tuple).

Definition run_op c (o : cache_op) : Cache V :=
  match o with
  | OpAdd k v => Cache_Add c k v
  | OpGet k => (Cache_Get c k).1
  | OpRemove k => Cache_Remove c k
  end.

Definition spec_op (max : Z) (s : list (Tuple * V)) (o : cache_op) : list (Tuple * V) :=
  match o with
  | OpAdd k v => lru_add max k v s
  | OpGet k => lru_get k s
  | OpRemove k => without k s
  end.

Lemma run_op_refines c o :
  cache_inv c → 0 <= MaxEntries c →
  cache_inv (run_op c o) ∧ entries (run_op c o) = spec_op (MaxEntries c) (entries c) o ∧
  MaxEntries (run_op c o) = MaxEntries c.
Proof.
  intros Hi Hm. destruct o; cbn [run_op spec_op].
  - by apply Cache_Add_refines.
  - destruct (Cache_Get_refines c k Hi) as (H1 & H2 & _). split_and!; [done..|].
    unfold Cache_Get. by destruct (m_lookup c k).
  - destruct (Cache_Remove_refines c k Hi) as [H1 H2]. split_and!; [done..|].
    unfold Cache_Remove. destruct (m_lookup c k); [|done]. by destruct (elem_at _ _).
Qed.

Lemma run_ops_refine ops c :
  cache_inv c → 0 <= MaxEntries c →
  cache_inv (foldl run_op c ops) ∧
  entries (foldl run_op c ops) = foldl (spec_op (MaxEntries c)) (entries c) ops ∧
  MaxEntries (foldl run_op c ops) = MaxEntries c.
Proof.
  revert c. induction ops as [|o ops IH]; intros c Hi Hm; [done|]. cbn.
  destruct (run_op_refines c o Hi Hm) as (Hi' & He & Hm').
  destruct (IH (run_op c o)) as (H1 & H2 & H3); [done|by rewrite Hm'|].
  rewrite H2, H3, Hm', He. done.
Qed.

(** The cache is an LRU cache: after any sequence of additions, lookups and
    removals on a new cache, its contents are those of the abstract cache (the
    entries in order of use, each key once, cut to [MaxEntries] on every
    addition), a lookup returns what the abstract cache holds, and the number
    of entries never exceeds [MaxEntries]. *)
Theorem Cache_is_LRU max (ops : list cache_op) :
  0 <= max →
  let c := foldl run_op (NewCache max) ops in
  let s := foldl (spec_op max) [] ops in
  entries c = s ∧ cache_Len c = zlen s ∧ (max ≠ 0 → cache_Len c <= max) ∧
  ∀ k, (Cache_Get c k).2 = lookup_entry k s.
Proof.
  intros Hmax. destruct (NewCache_inv max Hmax) as [Hi He].
  destruct (run_ops_refine ops (NewCache max) Hi Hmax) as (Hi' & Hs & Hm). rewrite He in Hs. cbn zeta.
  cbn [MaxEntries NewCache] in Hs, Hm. rewrite (cache_Len_zlen _ Hi'), <- Hs.
  split_and!; [done| | |].
  - unfold zlen, entries. by rewrite length_fmap.
  - intros Hne. pose proof (inv_bound _ Hi') as Hb. rewrite Hm in Hb. auto.
  - intros k. by destruct (Cache_Get_refines _ k Hi') as (_ & _ & ->).
Qed.
End Cache.

(** ** How long an entry stays

    An entry at position [i] in the order of use is at most one position
    further back after another addition or lookup, so it outlives any run of
    operations shorter than the cache. *)
Section Recency.
Context {V : Type}.

Definition within (k : Tuple) (i : nat) (s : list (Tuple * V)) : Prop :=
  ∃ j, (j <= i)%nat ∧ s.*1 !! j = Some k.

(** The operations other than a removal. *)
Definition uses (o : @cache_op V) : Prop := match o with OpRemove _ => False | _ => True end.

Lemma without_position k k' (s : list (Tuple * V)) i :
  k ≠ k' → within k i s → within k i (without k' s).
Proof.
  intros Hne. revert i. induction s as [|[k1 v1] s IH]; intros i (j & Hj & Hk); [done|].
  unfold without. destruct j as [|j]; cbn in Hk.
  - simplify_eq. rewrite filter_cons_True by done. exists 0%nat. split; [lia|done].
  - destruct (IH (i - 1)%nat) as (j' & Hj' & Hk'); [exists j; split; [lia|done]|].
    destruct (decide (k1 = k')) as [->|].
    + rewrite filter_cons_False by (intros Hx; by apply Hx). exists j'. split; [lia|done].
    + rewrite filter_cons_True by done. exists (S j'). split; [lia|done].
Qed.

Lemma cons_position k (p : Tuple * V) s i : within k i s → within k (S i) (p :: s).
Proof. intros (j & Hj & Hk). exists (S j). split; [lia|done]. Qed.

Lemma bounded_position max k i (s : list (Tuple * V)) :
  Z.of_nat i < max → within k i s → within k i (bounded max s).
Proof.
  intros Hm (j & Hj & Hk). exists j. split; [done|]. unfold bounded.
  replace (max =? 0) with false by lia. rewrite fmap_take, lookup_take_lt by lia. done.
Qed.

Lemma spec_op_position max k i (s : list (Tuple * V)) o :
  Z.of_nat (S i) < max → uses o → within k i s → within k (S i) (spec_op max s o).
Proof.
  intros Hm Ho Hk. destruct o as [k' v|k'|k']; [..|done]; cbn [spec_op].
  - apply bounded_position; [done|]. destruct (decide (k = k')) as [->|Hne].
    + exists 0%nat. split; [lia|done].
    + by apply cons_position, without_position.
  - unfold lru_get. destruct (lookup_entry k' s) as [v|] eqn:E.
    + destruct (decide (k = k')) as [->|Hne]; [exists 0%nat; split; [lia|done]|].
      by apply cons_position, without_position.
    + destruct Hk as (j & Hj & Hk). exists j. split; [lia|done].
Qed.

Lemma within_lookup k i (s : list (Tuple * V)) : within k i s → is_Some (lookup_entry k s).
Proof.
  intros (j & _ & Hk). unfold lookup_entry. rewrite !fmap_is_Some.
  apply list_lookup_fmap_Some in Hk as (p & Hp & Hk).
  apply (list_find_elem_of (λ p, p.1 = k) s p); [by eapply list_elem_of_lookup_2|done].
Qed.

(** An entry just added survives any [n < max] uses of the cache. *)
Lemma added_survives max k v (s : list (Tuple * V)) ops :
  zlen ops < max → Forall uses ops →
  is_Some (lookup_entry k (foldl (spec_op max) (lru_add max k v s) ops)).
Proof.
  intros Hn Hu. apply (within_lookup k (length ops)).
  assert (∀ l i s', Forall uses l → within k i s' → Z.of_nat (i + length l) < max →
    within k (i + length l) (foldl (spec_op max) s' l)) as Hrun.
  { induction l as [|o l IH]; intros i s' Hl Hk Hlt; cbn [foldl length].
    - by rewrite Nat.add_0_r.
    - inversion Hl; subst. replace (i + S (length l))%nat with (S i + length l)%nat by lia.
      apply IH; [done| |cbn in Hlt; lia]. apply spec_op_position; [cbn in Hlt; lia|done|done]. }
  apply (Hrun ops 0%nat); [done| |unfold zlen in Hn; lia].
  unfold lru_add. apply bounded_position; [unfold zlen in Hn; lia|]. exists 0%nat. split; [lia|done].
Qed.
End Recency.

(** Three flows through a cache of two entries. *)
Definition flowN (n : Z) : Tuple :=
  MakeTuple UDP (AddrPortFrom (ip4 100 64 0 n) 1000) (AddrPortFrom (ip4 100 64 0 1) 53).
Definition sampleOps : list (@cache_op unit) :=
  [OpAdd (flowN 2) (); OpAdd (flowN 3) (); OpGet (flowN 2); OpAdd (flowN 4) ()].

Lemma Cache_is_LRU_witness :
  entries (foldl run_op (NewCache 2) sampleOps) = [(flowN 4, ()); (flowN 2, ())] ∧
  cache_Len (foldl run_op (NewCache 2) sampleOps) <= 2.
Proof.
  pose proof (Cache_is_LRU 2 sampleOps ltac:(lia)) as (He & _ & Hl & _).
  split; [rewrite He; reflexivity|apply Hl; lia].
Defined.
