(* ===== verification/FilterModel.v ===== *)
(** * wgengine/filter: the packet filter

    [filter.go], [match.go] and [filtertype]: the rules, the split of the rules
    by address family when a filter is made, the rule matchers, and the
    decision procedure for inbound and outbound packets.  The connection
    tracking state is an object several filters can share
    ([shareStateWith]): a filter holds a location of the heap of flow caches.
    The two logging rate limiters are an input of each run, and what would be
    logged is an output. *)
From stdpp Require Import pretty.
From S2P Require Import Prelude NetBuf NetAddr Packet Flowtrack.

(** ** Rules: [filtertype] *)
Record PortRange := mkPortRange { First : Z; Last : Z }.
#[global] Instance PortRange_eq_dec : EqDecision PortRange.
Proof. solve_decision. Defined.

Definition AllPorts : PortRange := mkPortRange 0 0xffff.
Definition PortRange_Contains (pr : PortRange) (port : Z) : bool := (First pr <=? port) && (port <=? Last pr).

Record NetPortRange := mkNetPortRange { npr_Net : Prefix; npr_Ports : PortRange }.

Abbreviation NodeCapability := string.
Abbreviation PeerCapability := string.
Abbreviation RawMessage := string.

Record CapMatch := mkCapMatch { cm_Dst : Prefix; cm_Cap : PeerCapability; cm_Values : list RawMessage }.

Record Match := mkMatch {
  m_IPProto : list Z;
  m_Srcs : list Prefix;
  m_SrcsContains : Addr → bool;
  m_SrcCaps : list NodeCapability;
  m_Dsts : list NetPortRange;
  m_Caps : list CapMatch
}.

Abbreviation CapTestFunc := (Addr → NodeCapability → bool).

(** ** Matchers: [match.go] *)
Definition srcMatches (m : Match) (srcAddr : Addr) (hasCap : option CapTestFunc) : bool :=
  if m_SrcsContains m srcAddr then true
  else match hasCap with
       | Some f => existsb (f srcAddr) (m_SrcCaps m)
       | None => false
       end.

(** One rule of [matches.match]. *)
Definition match_one (q : Parsed) (hasCap : option CapTestFunc) (m : Match) : bool :=
  if negb (bool_decide (IPProto q ∈ m_IPProto m)) then false
  else if negb (srcMatches m (ap_Addr (Src q)) hasCap) then false
  else existsb (λ dst, if negb (Contains (npr_Net dst) (ap_Addr (Dst q))) then false
                       else PortRange_Contains (npr_Ports dst) (ap_Port (Dst q))) (m_Dsts m).

Definition matches_match (ms : list Match) (q : Parsed) (hasCap : option CapTestFunc) : bool :=
  existsb (match_one q hasCap) ms.

Definition matchIPsOnly (ms : list Match) (q : Parsed) (hasCap : option CapTestFunc) : bool :=
  let srcAddr := ap_Addr (Src q) in
  if existsb (λ m, if negb (m_SrcsContains m srcAddr) then false
                   else existsb (λ dst, Contains (npr_Net dst) (ap_Addr (Dst q))) (m_Dsts m)) ms
  then true
  else match hasCap with
       | Some f => existsb (λ m, existsb (f srcAddr) (m_SrcCaps m)) ms
       | None => false
       end.

Definition matchProtoAndIPsOnlyIfAllPorts (ms : list Match) (q : Parsed) : bool :=
  existsb (λ m,
    if negb (bool_decide (IPProto q ∈ m_IPProto m)) then false
    else if negb (m_SrcsContains m (ap_Addr (Src q))) then false
    else existsb (λ dst, if negb (bool_decide (npr_Ports dst = AllPorts)) then false
                         else Contains (npr_Net dst) (ap_Addr (Dst q))) (m_Dsts m)) ms.

(** ** The filter *)
Definition PacketMatch : Type := Parsed → bool * string.

Record Filter := mkFilter {
  f_local4 : Addr → bool;
  f_local6 : Addr → bool;
  f_logIPs4 : Addr → bool;
  f_logIPs6 : Addr → bool;
  f_srcIPHasCap : option CapTestFunc;
  f_matches4 : list Match;
  f_matches6 : list Match;
  f_cap4 : list Match;
  f_cap6 : list Match;
  f_state : nat;
  f_shieldsUp : bool;
  f_IngressAllowHooks : list PacketMatch;
  f_LinkLocalAllowHooks : list PacketMatch
}.

(** [filterState] objects, by location *)
Abbreviation Heap := (list (Cache unit)).
Definition lruMax : Z := 512.

Inductive Response := Drop | DropSilently | Accept | noVerdict.
#[global] Instance Response_eq_dec : EqDecision Response.
Proof. solve_decision. Defined.

Definition IsDrop (r : Response) : bool := bool_decide (r = Drop) || bool_decide (r = DropSilently).

Inductive direction := dir_in | dir_out.

Section Construction.
(** [bart.Lite], see [NetAddr]. *)
Context (bart : list Prefix → Addr → bool).

(** [slicesx.Partition] *)
Fixpoint Partition {A} (cb : A → bool) (s : list A) : list A * list A :=
  match s with
  | [] => ([], [])
  | x :: s =>
      let '(trues, falses) := Partition cb s in
      if cb x then (x :: trues, falses) else (trues, x :: falses)
  end.

Fixpoint matchesFamily (ms : list Match) (keep : Addr → bool) : list Match :=
  match ms with
  | [] => []
  | m :: ms =>
      let srcs := filter (λ src, keep (p_Addr src) = true) (m_Srcs m) in
      let dsts := filter (λ dst, keep (p_Addr (npr_Net dst)) = true) (m_Dsts m) in
      if ((0 <? zlen srcs) || (0 <? zlen (m_SrcCaps m))) && (0 <? zlen dsts) then
        mkMatch (m_IPProto m) srcs (NewContainsIPFunc bart srcs) (m_SrcCaps m) dsts []
          :: matchesFamily ms keep
      else matchesFamily ms keep
  end.

Fixpoint capMatchesFunc (ms : list Match) (keep : Addr → bool) : list Match :=
  match ms with
  | [] => []
  | m :: ms =>
      if zlen (m_Caps m) =? 0 then capMatchesFunc ms keep else
      let srcs := filter (λ src, keep (p_Addr src) = true) (m_Srcs m) in
      if 0 <? zlen srcs then
        mkMatch [] srcs (NewContainsIPFunc bart srcs) [] [] (m_Caps m) :: capMatchesFunc ms keep
      else capMatchesFunc ms keep
  end.

(** The membership functions of an IP set (given by its [Prefixes()]), by
    family; a nil set contains nothing. *)
Definition splitSet (nets : option (list Prefix)) : (Addr → bool) * (Addr → bool) :=
  match nets with
  | None => (emptySet, emptySet)
  | Some p =>
      let '(p4, p6) := Partition (λ p, Is4 (p_Addr p)) p in
      (NewContainsIPFunc bart p4, NewContainsIPFunc bart p6)
  end.

Definition New (ms : list Match) (capTest : option CapTestFunc) (localNets logIPs : option (list Prefix))
    (shareStateWith : option Filter) (heap : Heap) : Filter * Heap :=
  let '(state, heap) :=
    match shareStateWith with
    | Some f => (f_state f, heap)
    | None => (length heap, heap ++ [NewCache lruMax])
    end in
  let '(l4, l6) := splitSet localNets in
  let '(g4, g6) := splitSet logIPs in
  (mkFilter l4 l6 g4 g6 capTest
     (matchesFamily ms Is4) (matchesFamily ms Is6) (capMatchesFunc ms Is4) (capMatchesFunc ms Is6)
     state false [] [], heap).

Definition NewAllowNone (logIPs : option (list Prefix)) (heap : Heap) : Filter * Heap :=
  New [] None (Some []) logIPs None heap.

Definition set_shieldsUp (f : Filter) : Filter :=
  mkFilter (f_local4 f) (f_local6 f) (f_logIPs4 f) (f_logIPs6 f) (f_srcIPHasCap f) (f_matches4 f)
    (f_matches6 f) (f_cap4 f) (f_cap6 f) (f_state f) true (f_IngressAllowHooks f) (f_LinkLocalAllowHooks f).

Definition NewShieldsUpFilter (localNets logIPs : option (list Prefix)) (shareStateWith : option Filter)
    (heap : Heap) : Filter * Heap :=
  let shareStateWith :=
    match shareStateWith with
    | Some f => if negb (f_shieldsUp f) then None else Some f
    | None => None
    end in
  let '(f, heap) := New [] None localNets logIPs shareStateWith heap in
  (set_shieldsUp f, heap).
End Construction.

(** ** Logging *)
Definition LogDrops : Z := 1.
Definition LogAccepts : Z := 2.
Definition HexdumpDrops : Z := 4.
Definition HexdumpAccepts : Z := 8.

(** What the two rate limiters would answer now. *)
Record Limits := { dropAllow : bool; acceptAllow : bool }.
Record LogEntry := { log_verdict : string; log_why : string; log_hexdump : bool }.

Definition gcpDNSAddr : Addr := ip4 169 254 169 254.

Definition loggingAllowed (f : Filter) (p : Parsed) : bool :=
  if IPVersion p =? 4 then f_logIPs4 f (ap_Addr (Src p)) && f_logIPs4 f (ap_Addr (Dst p))
  else if IPVersion p =? 6 then f_logIPs6 f (ap_Addr (Src p)) && f_logIPs6 f (ap_Addr (Dst p))
  else false.

Definition omitDropLogging (p : Parsed) (dir : direction) : bool :=
  match dir with
  | dir_in => false
  | dir_out =>
      IsMulticast (ap_Addr (Dst p)) ||
      (IsLinkLocalUnicast (ap_Addr (Dst p)) && negb (bool_decide (ap_Addr (Dst p) = gcpDNSAddr))) ||
      (IPProto p =? IGMP)
  end.

Definition logRateLimit (f : Filter) (lim : Limits) (runflags : Z) (q : Parsed) (dir : direction)
    (r : Response) (why : string) : option LogEntry :=
  if (runflags =? 0) || negb (loggingAllowed f q) then None
  else if bool_decide (r = Drop) && omitDropLogging q dir then None
  else if bool_decide (r = Drop) && negb (Z.land runflags LogDrops =? 0) && dropAllow lim then
    Some {| log_verdict := "Drop"; log_why := why;
            log_hexdump := negb (Z.land runflags HexdumpDrops =? 0) |}
  else if bool_decide (r = Accept) && negb (Z.land runflags LogAccepts =? 0) && acceptAllow lim then
    Some {| log_verdict := "[v1] Accept"; log_why := why;
            log_hexdump := negb (Z.land runflags HexdumpAccepts =? 0) |}
  else None.

(** ** Decisions *)
Definition isAllowedLinkLocal (f : Filter) (q : Parsed) : bool :=
  if bool_decide (ap_Addr (Dst q) = gcpDNSAddr) then true
  else existsb (λ pm, fst (pm q)) (f_LinkLocalAllowHooks f).

Definition ReasonMulticast : string := "multicast".
Definition ReasonLinkLocalUnicast : string := "link_local_unicast".
Definition ReasonTooShort : string := "too_short".
Definition ReasonUnknownProtocol : string := "unknown_protocol".

Definition pre (f : Filter) (lim : Limits) (q : Parsed) (rf : Z) (dir : direction)
    : Response * string * option LogEntry :=
  if zlen (Buffer q) =? 0 then (Accept, "", None)
  else if zlen (Buffer q) <? 20 then
    (Drop, ReasonTooShort, logRateLimit f lim rf q dir Drop "too short")
  else if IPProto q =? Unknown then
    (Drop, ReasonUnknownProtocol, logRateLimit f lim rf q dir Drop "unknown proto")
  else if IsMulticast (ap_Addr (Dst q)) then
    (Drop, ReasonMulticast, logRateLimit f lim rf q dir Drop "multicast")
  else if IsLinkLocalUnicast (ap_Addr (Dst q)) && negb (isAllowedLinkLocal f q) then
    (Drop, ReasonLinkLocalUnicast, logRateLimit f lim rf q dir Drop "link-local-unicast")
  else if IPProto q =? Fragment then
    (Accept, "", logRateLimit f lim rf q dir Accept "fragment")
  else (noVerdict, "", None).

Definition unknownProtoString (proto : Z) : string := String.append "unknown-protocol-" (pretty proto).

(** The flow cache of a filter; a lookup moves the entry to the front. *)
Definition state_Get (heap : Heap) (f : Filter) (t : Tuple) : res (bool * Heap) :=
  match heap !! f_state f with
  | Some c => let '(c', v) := Cache_Get c t in Ok (bool_decide (is_Some v), <[f_state f := c']> heap)
  | None => Panic
  end.

Definition state_Add (heap : Heap) (f : Filter) (t : Tuple) : res Heap :=
  match heap !! f_state f with
  | Some c => Ok (<[f_state f := Cache_Add c t ()]> heap)
  | None => Panic
  end.

(** [runIn4] and [runIn6] have one body, for the rules and the ICMP number of
    their family. *)
Definition runInFamily (local : Addr → bool) (ms : list Match) (icmp : Z) (f : Filter) (heap : Heap)
    (q : Parsed) : res (Response * string * Heap) :=
  if negb (local (ap_Addr (Dst q))) then Ok (noVerdict, "destination not allowed", heap) else
  if IPProto q =? icmp then
    echo ← IsEchoResponse q;
    err ← (if (echo : bool) then Ok true else IsError q);
    if (err : bool) then Ok (Accept, "icmp response ok", heap)
    else if matchIPsOnly ms q (f_srcIPHasCap f) then Ok (Accept, "icmp ok", heap)
    else Ok (noVerdict, "no rules matched", heap)
  else if IPProto q =? TCP then
    if negb (IsTCPSyn q) then Ok (Accept, "tcp non-syn", heap)
    else if matches_match ms q (f_srcIPHasCap f) then Ok (Accept, "tcp ok", heap)
    else Ok (noVerdict, "no rules matched", heap)
  else if (IPProto q =? UDP) || (IPProto q =? SCTP) then
    let t := MakeTuple (IPProto q) (Src q) (Dst q) in
    '(ok, heap) ← state_Get heap f t;
    if (ok : bool) then Ok (Accept, "cached", heap)
    else if matches_match ms q (f_srcIPHasCap f) then Ok (Accept, "ok", heap)
    else Ok (noVerdict, "no rules matched", heap)
  else if IPProto q =? TSMP then Ok (Accept, "tsmp ok", heap)
  else if matchProtoAndIPsOnlyIfAllPorts ms q then Ok (Accept, "other-portless ok", heap)
  else Ok (noVerdict, unknownProtoString (IPProto q), heap).

Definition runIn4 (f : Filter) (heap : Heap) (q : Parsed) : res (Response * string * Heap) :=
  runInFamily (f_local4 f) (f_matches4 f) ICMPv4 f heap q.

Definition runIn6 (f : Filter) (heap : Heap) (q : Parsed) : res (Response * string * Heap) :=
  runInFamily (f_local6 f) (f_matches6 f) ICMPv6 f heap q.

(** The first hook that matches. *)
Fixpoint firstHook (hooks : list PacketMatch) (q : Parsed) : option string :=
  match hooks with
  | [] => None
  | pm :: hooks => let '(b, why) := pm q in if (b : bool) then Some why else firstHook hooks q
  end.

Definition RunIn (f : Filter) (heap : Heap) (lim : Limits) (q : Parsed) (rf : Z)
    : res (Response * Heap * option LogEntry) :=
  let '(r, _, entry) := pre f lim q rf dir_in in
  if bool_decide (r = Accept) || bool_decide (r = Drop) then Ok (r, heap, entry) else
  '(r, why, heap) ←
    (if IPVersion q =? 4 then runIn4 f heap q
     else if IPVersion q =? 6 then runIn6 f heap q
     else Ok (Drop, "not-ip", heap));
  if bool_decide (r = noVerdict) then
    match firstHook (f_IngressAllowHooks f) q with
    | Some why => Ok (Accept, heap, logRateLimit f lim rf q dir_in Accept why)
    | None => Ok (Drop, heap, logRateLimit f lim rf q dir_in Drop why)
    end
  else Ok (r, heap, logRateLimit f lim rf q dir_in r why).

Definition runOut (f : Filter) (heap : Heap) (q : Parsed) : res (Response * string * Heap) :=
  heap ← (if (IPProto q =? UDP) || (IPProto q =? SCTP)
          then state_Add heap f (MakeTuple (IPProto q) (Dst q) (Src q))
          else Ok heap);
  Ok (Accept, "ok out", heap).

Definition RunOut (f : Filter) (heap : Heap) (lim : Limits) (q : Parsed) (rf : Z)
    : res (Response * string * Heap * option LogEntry) :=
  let '(r, reason, entry) := pre f lim q rf dir_out in
  if bool_decide (r = Accept) || bool_decide (r = Drop) then Ok (r, reason, heap, entry) else
  '(r, why, heap) ← runOut f heap q;
  Ok (r, "", heap, logRateLimit f lim rf q dir_out r why).

Definition dummyPacket : bytes := replicate 20 0xFF.
Definition noLimits : Limits := {| dropAllow := false; acceptAllow := false |}.

Definition Check (f : Filter) (heap : Heap) (srcIP dstIP : Addr) (dstPort proto : Z)
    : res (Response * Heap) :=
  pkt ← Decode Parsed_zero dummyPacket;
  if (Is4 srcIP && Is6 dstIP) || (Is6 srcIP && Is4 srcIP) then Ok (Drop, heap) else
  pkt ← (if Is4 srcIP then Ok (set_IPVersion 4 pkt)
         else if Is6 srcIP then Ok (set_IPVersion 6 pkt) else Panic);
  let pkt := set_Src (AddrPortFrom srcIP 0) pkt in
  let pkt := set_Dst (AddrPortFrom dstIP dstPort) pkt in
  let pkt := set_IPProto proto pkt in
  let pkt := if proto =? TCP then set_TCPFlags TCPSyn pkt else pkt in
  '(r, heap, _) ← RunIn f heap noLimits pkt 0;
  Ok (r, heap).

Definition CheckTCP (f : Filter) (heap : Heap) (srcIP dstIP : Addr) (dstPort : Z) : res (Response * Heap) :=
  Check f heap srcIP dstIP dstPort TCP.

Abbreviation PeerCapMap := (gmap PeerCapability (list RawMessage)).

(** One grant of [CapsWithValues]. *)
Definition addCap (dstIP : Addr) (out : PeerCapMap) (cm : CapMatch) : PeerCapMap :=
  if negb (bool_decide (cm_Cap cm = "")) && Contains (cm_Dst cm) dstIP then
    match out !! cm_Cap cm with
    | None => <[cm_Cap cm := cm_Values cm]> out
    | Some prev => <[cm_Cap cm := prev ++ cm_Values cm]> out
    end
  else out.

Definition CapsWithValues (f : Filter) (srcIP dstIP : Addr) : PeerCapMap :=
  let mm := if Is4 srcIP then f_cap4 f else if Is6 srcIP then f_cap6 f else [] in
  foldl (λ out m, if negb (m_SrcsContains m srcIP) then out
                  else foldl (addCap dstIP) out (m_Caps m)) ∅ mm.

Definition ShieldsUp (f : Filter) : bool := f_shieldsUp f.
