(* ===== verification/FilterPolicy.v ===== *)
(** * The packet filter implements its policy

    The rules a filter is made from, read as a policy on packets, and the
    theorem that the filter (which splits the rules by address family and
    compiles their sources to membership functions) decides that policy for
    every packet the decoder delivers. *)
From S2P Require Import Prelude NetBuf NetAddr Packet Flowtrack FilterModel.

(** ** The policy *)
Section Policy.
Context (hasCap : option CapTestFunc).

(** The source is one of the rule's addresses, or has one of its capabilities. *)
Definition src_in (m : Match) (a : Addr) : Prop := ∃ p, p ∈ m_Srcs m ∧ covers p a.
Definition src_has_cap (m : Match) (a : Addr) : Prop :=
  ∃ f c, hasCap = Some f ∧ c ∈ m_SrcCaps m ∧ f a c = true.

Definition dst_in (m : Match) (a : Addr) (ports : PortRange → Prop) : Prop :=
  ∃ d, d ∈ m_Dsts m ∧ covers (npr_Net d) a ∧ ports (npr_Ports d).

(** The rule permits the packet. *)
Definition rule_allows (q : Parsed) (m : Match) : Prop :=
  IPProto q ∈ m_IPProto m ∧
  (src_in m (ap_Addr (Src q)) ∨ src_has_cap m (ap_Addr (Src q))) ∧
  dst_in m (ap_Addr (Dst q)) (λ pr, First pr <= ap_Port (Dst q) <= Last pr).

(** The comments: a source matches by address or by capability; ICMP is allowed to an
    address when any port of it is open, and a protocol without ports when all are. *)
Definition documented_icmp (q : Parsed) (m : Match) : Prop :=
  (src_in m (ap_Addr (Src q)) ∨ src_has_cap m (ap_Addr (Src q))) ∧
  dst_in m (ap_Addr (Dst q)) (λ _, True).
Definition documented_portless (q : Parsed) (m : Match) : Prop :=
  IPProto q ∈ m_IPProto m ∧
  (src_in m (ap_Addr (Src q)) ∨ src_has_cap m (ap_Addr (Src q))) ∧
  dst_in m (ap_Addr (Dst q)) (λ pr, pr = AllPorts).

(** The code: capabilities do not count for a protocol without ports; and a rule whose
    capability the source has permits ICMP to every destination of the family that the
    rule names a destination of. *)
Definition rule_allows_portless (q : Parsed) (m : Match) : Prop :=
  IPProto q ∈ m_IPProto m ∧ src_in m (ap_Addr (Src q)) ∧
  dst_in m (ap_Addr (Dst q)) (λ pr, pr = AllPorts).
Definition rule_allows_icmp (q : Parsed) (m : Match) : Prop :=
  src_in m (ap_Addr (Src q)) ∧ dst_in m (ap_Addr (Dst q)) (λ _, True) ∨
  src_has_cap m (ap_Addr (Src q)) ∧
  ∃ d, d ∈ m_Dsts m ∧ BitLen (p_Addr (npr_Net d)) = BitLen (ap_Addr (Dst q)).

Definition some_rule (P : Match → Prop) (ms : list Match) : Prop := ∃ m, m ∈ ms ∧ P m.

Definition icmp_proto (q : Parsed) : Z := if IPVersion q =? 4 then ICMPv4 else ICMPv6.

(** Why an inbound packet to a local address is let in, for a reading of the rules on
    ICMP and on protocols without ports. *)
Inductive permittedBy (icmp portless : Parsed → Match → Prop) (ms : list Match) (flows : list (Tuple * unit)) (q : Parsed) : Prop :=
  | permit_icmp_reply :
      IPProto q = icmp_proto q → IsEchoResponse q = Ok true ∨ IsError q = Ok true → permittedBy icmp portless ms flows q
  | permit_icmp_rule :
      IPProto q = icmp_proto q → some_rule (icmp q) ms → permittedBy icmp portless ms flows q
  | permit_tcp_established : IPProto q = TCP → IsTCPSyn q = false → permittedBy icmp portless ms flows q
  | permit_rule :
      has_ports (IPProto q) = true → some_rule (rule_allows q) ms → permittedBy icmp portless ms flows q
  | permit_flow :
      IPProto q = UDP ∨ IPProto q = SCTP →
      is_Some (lookup_entry (MakeTuple (IPProto q) (Src q) (Dst q)) flows) → permittedBy icmp portless ms flows q
  | permit_tsmp : IPProto q = TSMP → permittedBy icmp portless ms flows q
  | permit_portless :
      has_ports (IPProto q) = false → IPProto q ≠ icmp_proto q → IPProto q ≠ TSMP →
      some_rule (portless q) ms → permittedBy icmp portless ms flows q.

Definition permitted := permittedBy rule_allows_icmp rule_allows_portless.
Definition documented := permittedBy documented_icmp documented_portless.

(** The packets the filter lets in, given which of those to a local address it does. *)
Definition admittedBy (allowed : list Match → list (Tuple * unit) → Parsed → Prop)
    (ms : list Match) (local : list Prefix) (flows : list (Tuple * unit)) (q : Parsed) : Prop :=
  q_b q = [] ∨
  20 <= zlen (q_b q) ∧ IPProto q ≠ Unknown ∧ IsMulticast (ap_Addr (Dst q)) = false ∧
  (IsLinkLocalUnicast (ap_Addr (Dst q)) = true → ap_Addr (Dst q) = gcpDNSAddr) ∧
  (IPProto q = Fragment ∨
   (∃ p, p ∈ local ∧ covers p (ap_Addr (Dst q))) ∧ allowed ms flows q).
Definition admitted := admittedBy permitted.
Definition documented_admitted := admittedBy documented.

(** Where the code departs from the comments, with rules that match by capability. *)
Definition icmp_by_capability (ms : list Match) (q : Parsed) : Prop :=
  IPProto q = icmp_proto q ∧
  some_rule (λ m, src_has_cap m (ap_Addr (Src q)) ∧
    ∃ d, d ∈ m_Dsts m ∧ BitLen (p_Addr (npr_Net d)) = BitLen (ap_Addr (Dst q))) ms.
Definition portless_by_capability (ms : list Match) (q : Parsed) : Prop :=
  has_ports (IPProto q) = false ∧ IPProto q ≠ icmp_proto q ∧ IPProto q ≠ TSMP ∧
  some_rule (λ m, IPProto q ∈ m_IPProto m ∧ src_has_cap m (ap_Addr (Src q)) ∧
    dst_in m (ap_Addr (Dst q)) (λ pr, pr = AllPorts)) ms.

Lemma permitted_documented ms flows q :
  permitted ms flows q → documented ms flows q ∨ icmp_by_capability ms q.
Proof.
  unfold permitted, documented. intros [| Hi (m & Hm & [[? ?]|?])| | | | |??? (m & Hm & ? & ? & ?)].
  1, 4, 5, 6, 7: left; by eauto using permittedBy.
  - left. apply permit_icmp_rule; [done|]. exists m. unfold documented_icmp. eauto.
  - right. split; [done|]. by exists m.
  - left. apply permit_portless; [done..|]. exists m. unfold documented_portless. eauto.
Qed.

Lemma documented_permitted ms flows q :
  documented ms flows q → permitted ms flows q ∨ portless_by_capability ms q.
Proof.
  unfold permitted, documented.
  intros [| Hi (m & Hm & Hs & d & Hd & Hc & _)| | | | |??? (m & Hm & ? & [?|?] & ?)].
  1, 3, 4, 5, 6: left; by eauto using permittedBy.
  - left. apply permit_icmp_rule; [done|]. exists m. split; [done|]. destruct Hs as [Hs|Hs]; [left|right]; (split; [done|]).
    + by exists d.
    + exists d. split; [done|]. apply Hc.
  - left. apply permit_portless; [done..|]. by exists m.
  - right. repeat (split; [done|]). by exists m.
Qed.

Lemma admittedBy_mono (P Q : list Match → list (Tuple * unit) → Parsed → Prop) R ms local flows q :
  (P ms flows q → Q ms flows q ∨ R) → admittedBy P ms local flows q → admittedBy Q ms local flows q ∨ R.
Proof. unfold admittedBy. tauto. Qed.
End Policy.

Definition rules_wf (ms : list Match) : Prop :=
  ∀ m, m ∈ ms → Forall Prefix_wf (m_Srcs m) ∧ Forall (λ d, Prefix_wf (npr_Net d)) (m_Dsts m).

(** ** Rules by family *)
Section Family.
Context (bart : list Prefix → Addr → bool).
Hypothesis bart_Contains : ∀ addrs ip, hasZone ip = false → bart addrs ip = in_prefixes addrs ip.
Context (keep : Addr → bool).
(** [keep] selects one family. *)
Hypothesis keep_family : ∀ a b, BitLen a = BitLen b → keep a = keep b.
Hypothesis keep_one : ∀ a b, keep a = true → keep b = true → BitLen a = BitLen b.

Definition keep_srcs (m : Match) : list Prefix := filter (λ p, keep (p_Addr p) = true) (m_Srcs m).
Definition keep_dsts (m : Match) : list NetPortRange :=
  filter (λ d, keep (p_Addr (npr_Net d)) = true) (m_Dsts m).
Definition family_rule (m : Match) : Match :=
  mkMatch (m_IPProto m) (keep_srcs m) (NewContainsIPFunc bart (keep_srcs m)) (m_SrcCaps m) (keep_dsts m) [].

Lemma elem_of_matchesFamily ms m' :
  m' ∈ matchesFamily bart ms keep ↔
  ∃ m, m ∈ ms ∧ m' = family_rule m ∧ (keep_srcs m ≠ [] ∨ m_SrcCaps m ≠ []) ∧ keep_dsts m ≠ [].
Proof using.
  assert (∀ A (l : list A), (0 <? zlen l) = true ↔ l ≠ []) as Hne.
  { intros A l. rewrite Z.ltb_lt. unfold zlen. destruct l; cbn [length]; [split; [lia|done]|]. split; [done|lia]. }
  induction ms as [|m ms IH]; cbn [matchesFamily].
  - split; [by intros ?%not_elem_of_nil|intros (m & Hm & _); by apply not_elem_of_nil in Hm].
  - fold (keep_srcs m) (keep_dsts m). destruct (_ && _) eqn:E.
    + apply andb_true_iff in E as [E1 E2]. apply orb_true_iff in E1. rewrite !Hne in *.
      rewrite elem_of_cons, IH. setoid_rewrite elem_of_cons.
      split; [intros [->|(m1 & ? & ? & ?)]|intros (m1 & [->|?] & ? & ?)]; eauto 10.
    + rewrite IH. setoid_rewrite elem_of_cons. split; [intros (m1 & ? & ? & ?); eauto 10|].
      intros (m1 & [->|?] & -> & Hs & Hd); [|eauto 10]. exfalso.
      apply andb_false_iff in E as [E|E].
      * apply orb_false_iff in E as [E3 E4]. destruct Hs as [Hs|Hs]; apply Hne in Hs; congruence.
      * apply Hne in Hd. congruence.
Qed.

Lemma kept_src_covers m a :
  keep a = true → src_in m a ↔ ∃ p, p ∈ keep_srcs m ∧ covers p a.
Proof using keep_family.
  intros Ha. unfold src_in, keep_srcs. setoid_rewrite list_elem_of_filter.
  split; [intros (p & Hp & Hc)|intros (p & (_ & Hp) & Hc); eauto]. exists p. split_and!; [|done..].
  rewrite (keep_family (p_Addr p) a); [done|apply Hc].
Qed.

Lemma kept_dst_covers m a ports :
  keep a = true →
  dst_in m a ports ↔ ∃ d, d ∈ keep_dsts m ∧ covers (npr_Net d) a ∧ ports (npr_Ports d).
Proof using keep_family.
  intros Ha. unfold dst_in, keep_dsts. setoid_rewrite list_elem_of_filter.
  split; [intros (d & Hd & Hc & Hp)|intros (d & (_ & Hd) & Hc); eauto]. exists d. split_and!; [|done..].
  rewrite (keep_family (p_Addr (npr_Net d)) a); [done|apply Hc].
Qed.

(** The compiled source test of a kept rule. *)
Lemma family_SrcsContains m a :
  Forall Prefix_wf (m_Srcs m) → keep a = true → hasZone a = false →
  m_SrcsContains (family_rule m) a = true ↔ src_in m a.
Proof using keep_family bart_Contains.
  intros Hwf Ha Hz. cbn [m_SrcsContains family_rule]. rewrite kept_src_covers by done.
  assert (Forall Prefix_wf (keep_srcs m)) as Hwf'.
  { unfold keep_srcs. rewrite Forall_forall in *. intros p [_ Hp]%list_elem_of_filter. auto. }
  rewrite NewContainsIPFunc_in_prefixes by done. unfold in_prefixes. rewrite existsb_exists.
  rewrite Forall_forall in Hwf'.
  split; intros (p & Hin & Hc); exists p; rewrite ?list_elem_of_In in *; (split; [done|]);
    apply (Contains_covers p a); auto; by apply Hwf', list_elem_of_In.
Qed.

Lemma kept_dst_Contains m a :
  Forall (λ d, Prefix_wf (npr_Net d)) (m_Dsts m) → hasZone a = false →
  ∀ d, d ∈ keep_dsts m → Contains (npr_Net d) a = true ↔ covers (npr_Net d) a.
Proof using.
  intros Hwf Hz d Hd. apply Contains_covers; [|done].
  rewrite Forall_forall in Hwf. apply Hwf. unfold keep_dsts in Hd. by apply list_elem_of_filter in Hd as [_ ?].
Qed.

Section Packet.
Context (ms : list Match) (hasCap : option CapTestFunc) (q : Parsed).
Hypothesis Hwf : rules_wf ms.
Hypothesis Hsrc : keep (ap_Addr (Src q)) = true.
Hypothesis Hdst : keep (ap_Addr (Dst q)) = true.
Hypothesis Hzs : hasZone (ap_Addr (Src q)) = false.
Hypothesis Hzd : hasZone (ap_Addr (Dst q)) = false.

Lemma existsb_family (test : Match → bool) (P : Match → Prop) :
  (∀ m, m ∈ ms → keep_dsts m ≠ [] → test (family_rule m) = true ↔ P m) →
  (∀ m, m ∈ ms → P m → (keep_srcs m ≠ [] ∨ m_SrcCaps m ≠ []) ∧ keep_dsts m ≠ []) →
  existsb test (matchesFamily bart ms keep) = true ↔ some_rule P ms.
Proof using.
  intros Ht Hk. rewrite existsb_exists. setoid_rewrite <- list_elem_of_In.
  setoid_rewrite elem_of_matchesFamily. unfold some_rule. split.
  - intros (m' & (m & Hm & -> & _ & Hd) & Hx). exists m. split; [done|]. by apply Ht.
  - intros (m & Hm & Hp). exists (family_rule m). destruct (Hk m Hm Hp). split; [eauto 10|]. by apply Ht.
Qed.

Lemma src_has_cap_existsb m a :
  match hasCap with Some f => existsb (f a) (m_SrcCaps m) | None => false end = true ↔
  src_has_cap hasCap m a.
Proof using.
  unfold src_has_cap. destruct hasCap as [f|]; [|split; [done|naive_solver]].
  rewrite existsb_exists. setoid_rewrite <- list_elem_of_In. naive_solver.
Qed.

Lemma src_has_cap_nonempty m a : src_has_cap hasCap m a → m_SrcCaps m ≠ [].
Proof using. intros (f & c & _ & Hc & _) E. rewrite E in Hc. by apply not_elem_of_nil in Hc. Qed.

Lemma src_in_nonempty m : src_in m (ap_Addr (Src q)) → keep_srcs m ≠ [].
Proof using keep_family Hsrc.
  rewrite kept_src_covers by done. intros (p & Hp & _) E. rewrite E in Hp. by apply not_elem_of_nil in Hp.
Qed.

Lemma dst_in_nonempty m ports : dst_in m (ap_Addr (Dst q)) ports → keep_dsts m ≠ [].
Proof using keep_family Hdst.
  rewrite kept_dst_covers by done. intros (d & Hd & _) E. rewrite E in Hd. by apply not_elem_of_nil in Hd.
Qed.

Lemma existsb_dsts m (test : NetPortRange → bool) (ports : PortRange → Prop) :
  m ∈ ms →
  (∀ d, d ∈ keep_dsts m → test d = true ↔
        Contains (npr_Net d) (ap_Addr (Dst q)) = true ∧ ports (npr_Ports d)) →
  existsb test (keep_dsts m) = true ↔ dst_in m (ap_Addr (Dst q)) ports.
Proof using keep_family Hdst Hzd Hwf.
  intros Hm Ht. destruct (Hwf m Hm) as [_ Hwd].
  rewrite existsb_exists, kept_dst_covers by done. setoid_rewrite <- list_elem_of_In.
  split; intros (d & Hd & Hx); exists d; (split; [done|]).
  - apply Ht in Hx as [Hc Hp]; [|done]. by rewrite (kept_dst_Contains m) in Hc.
  - destruct Hx as [Hc Hp]. apply Ht; [done|]. by rewrite (kept_dst_Contains m).
Qed.

Lemma matches_match_policy :
  matches_match (matchesFamily bart ms keep) q hasCap = true ↔ some_rule (rule_allows hasCap q) ms.
Proof using All.
  unfold matches_match. apply existsb_family.
  - intros m Hm _. destruct (Hwf m Hm) as [Hws Hwd]. unfold match_one, rule_allows.
    change (m_IPProto (family_rule m)) with (m_IPProto m).
    case_bool_decide as Hp; cbn [negb]; [|split; [done|tauto]].
    assert (srcMatches (family_rule m) (ap_Addr (Src q)) hasCap = true ↔
            src_in m (ap_Addr (Src q)) ∨ src_has_cap hasCap m (ap_Addr (Src q))) as Hs.
    { unfold srcMatches. change (m_SrcCaps (family_rule m)) with (m_SrcCaps m).
      destruct (m_SrcsContains _ _) eqn:E.
      - apply family_SrcsContains in E; [|done..]. tauto.
      - rewrite src_has_cap_existsb. split; [tauto|]. intros [Hx|]; [|done].
        apply (family_SrcsContains m) in Hx; [congruence|done..]. }
    destruct (srcMatches _ _ _) eqn:E; cbn [negb]; [|split; [done|intros (_ & Hx & _); apply Hs in Hx; done]].
    change (m_Dsts (family_rule m)) with (keep_dsts m).
    rewrite (existsb_dsts m _ (λ pr, First pr <= ap_Port (Dst q) <= Last pr)); [tauto|done|].
    intros d Hd. destruct (Contains _ _); cbn [negb]; [|naive_solver].
    unfold PortRange_Contains. rewrite andb_true_iff, !Z.leb_le. naive_solver.
  - intros m Hm (_ & Hs & Hd). split; [|by eapply dst_in_nonempty].
    destruct Hs as [Hs|Hs]; [left; by apply src_in_nonempty|right; by eapply src_has_cap_nonempty].
Qed.

Lemma matchProto_policy :
  matchProtoAndIPsOnlyIfAllPorts (matchesFamily bart ms keep) q = true ↔
  some_rule (rule_allows_portless q) ms.
Proof using All.
  unfold matchProtoAndIPsOnlyIfAllPorts. apply existsb_family.
  - intros m Hm _. destruct (Hwf m Hm) as [Hws Hwd]. unfold rule_allows_portless.
    change (m_IPProto (family_rule m)) with (m_IPProto m).
    case_bool_decide as Hp; cbn [negb]; [|split; [done|tauto]].
    destruct (m_SrcsContains _ _) eqn:E; cbn [negb].
    + apply family_SrcsContains in E; [|done..].
      change (m_Dsts (family_rule m)) with (keep_dsts m).
      rewrite (existsb_dsts m _ (λ pr, pr = AllPorts)); [tauto|done|].
      intros d Hd. case_bool_decide; cbn [negb]; naive_solver.
    + split; [done|]. intros (_ & Hs & _). apply (family_SrcsContains m) in Hs; [congruence|done..].
  - intros m Hm (_ & Hs & Hd). split; [left; by apply src_in_nonempty|by eapply dst_in_nonempty].
Qed.

Lemma kept_dst_family m :
  keep_dsts m ≠ [] ↔ ∃ d, d ∈ m_Dsts m ∧ BitLen (p_Addr (npr_Net d)) = BitLen (ap_Addr (Dst q)).
Proof using keep_family keep_one Hdst.
  split.
  - intros Hne. destruct (keep_dsts m) as [|d ds] eqn:E; [done|].
    assert (d ∈ keep_dsts m) as Hd by (rewrite E; left).
    unfold keep_dsts in Hd. apply list_elem_of_filter in Hd as [Hk Hd]. eauto.
  - intros (d & Hd & Hb) E. apply (not_elem_of_nil (A:=NetPortRange) d). rewrite <- E.
    unfold keep_dsts. apply list_elem_of_filter. by rewrite (keep_family _ _ Hb).
Qed.

Lemma existsb_orb {A} (f g : A → bool) l : existsb (λ x, f x || g x) l = existsb f l || existsb g l.
Proof using.
  induction l as [|x l IH]; [done|]. cbn [existsb]. rewrite IH. by destruct (f x), (g x), (existsb f l).
Qed.

Lemma matchIPsOnly_policy :
  matchIPsOnly (matchesFamily bart ms keep) q hasCap = true ↔ some_rule (rule_allows_icmp hasCap q) ms.
Proof using All.
  assert (matchIPsOnly (matchesFamily bart ms keep) q hasCap =
          existsb (λ m, (if negb (m_SrcsContains m (ap_Addr (Src q))) then false
                         else existsb (λ dst, Contains (npr_Net dst) (ap_Addr (Dst q))) (m_Dsts m)) ||
                        match hasCap with
                        | Some f => existsb (f (ap_Addr (Src q))) (m_SrcCaps m)
                        | None => false
                        end) (matchesFamily bart ms keep)) as ->.
  { unfold matchIPsOnly. rewrite existsb_orb. destruct (existsb _ _); [done|]. destruct hasCap; [done|].
    cbn [orb]. by induction (matchesFamily bart ms keep). }
  apply existsb_family.
  - intros m Hm Hne. destruct (Hwf m Hm) as [Hws Hwd]. unfold rule_allows_icmp.
    rewrite orb_true_iff, <- kept_dst_family, <- src_has_cap_existsb.
    change (m_SrcCaps (family_rule m)) with (m_SrcCaps m). change (m_Dsts (family_rule m)) with (keep_dsts m).
    rewrite <- (existsb_dsts m (λ dst, Contains (npr_Net dst) (ap_Addr (Dst q))) (λ _, True))
      by (try done; naive_solver).
    rewrite <- (family_SrcsContains m) by done. destruct (m_SrcsContains _ _); cbn [negb]; naive_solver.
  - intros m Hm [[Hs Hd]|[Hs Hd]].
    + split; [left; by apply src_in_nonempty|by eapply dst_in_nonempty].
    + split; [right; by eapply src_has_cap_nonempty|by apply kept_dst_family].
Qed.
End Packet.
End Family.

Lemma keep_Is4_one a b : Is4 a = true → Is4 b = true → BitLen a = BitLen b.
Proof. by destruct a, b. Qed.
Lemma keep_Is6_one a b : Is6 a = true → Is6 b = true → BitLen a = BitLen b.
Proof. by destruct a, b. Qed.

(** What the decision procedures need of a packet: its addresses are of the
    family its version says, and its ICMP predicates return. *)
Definition packet_ok (q : Parsed) : Prop :=
  hasZone (ap_Addr (Src q)) = false ∧ hasZone (ap_Addr (Dst q)) = false ∧
  (IPVersion q = 4 ∧ Is4 (ap_Addr (Src q)) = true ∧ Is4 (ap_Addr (Dst q)) = true ∨
   IPVersion q = 6 ∧ Is6 (ap_Addr (Src q)) = true ∧ Is6 (ap_Addr (Dst q)) = true) ∧
  (∃ r, IsEchoResponse q = Ok r) ∧ (∃ r, IsError q = Ok r).

Lemma describes_packet_ok b q : describes b q → IPProto q ≠ Unknown → packet_ok q.
Proof.
  intros Hd Hk. destruct (IsEchoResponse_Ok b q Hd), (IsError_Ok b q Hd).
  destruct Hd as (_ & _ & [?|[Hh _]]); [done|].
  destruct Hh as [(Hv & _ & _ & _ & E1 & E2 & _)|(Hv & _ & _ & E1 & E2 & _)];
    unfold packet_ok; rewrite E1, E2; split_and!; eauto.
Qed.

Lemma packet_ok_version b q : describes b q → IPProto q ≠ Unknown → IPVersion q = 4 ∨ IPVersion q = 6.
Proof. intros Hd Hk. destruct (describes_packet_ok b q Hd Hk) as (_ & _ & [[? _]|[? _]] & _); auto. Qed.

(** ** The verdict for a local destination *)
Section Verdict.
Context (bart : list Prefix → Addr → bool).
Hypothesis bart_Contains : ∀ addrs ip, hasZone ip = false → bart addrs ip = in_prefixes addrs ip.
Context (ms : list Match) (hasCap : option CapTestFunc) (q : Parsed).
Hypothesis Hwf : rules_wf ms.
Hypothesis Hok : packet_ok q.

(** The result of a family's decision procedure. *)
Definition decides (c : Cache unit) (local : bool) (res : res (Response * string * Heap)) : Prop :=
  ∃ r why heap', res = Ok (r, why, heap') ∧ (r = Accept ∨ r = noVerdict) ∧
    (r = Accept ↔ local = true ∧ permitted hasCap ms (entries c) q).

Section Body.
Context (lf : Addr → bool) (keep : Addr → bool) (f : Filter) (heap : Heap) (c : Cache unit).
Hypothesis keep_family : ∀ a b, BitLen a = BitLen b → keep a = keep b.
Hypothesis keep_one : ∀ a b, keep a = true → keep b = true → BitLen a = BitLen b.
Hypothesis Hsrc : keep (ap_Addr (Src q)) = true.
Hypothesis Hdst : keep (ap_Addr (Dst q)) = true.
Hypothesis Hcap : f_srcIPHasCap f = hasCap.
Hypothesis Hc : heap !! f_state f = Some c.
Hypothesis Hinv : cache_inv c.
Let fms := matchesFamily bart ms keep.

Lemma match_rule :
  matches_match fms q hasCap = true ↔ some_rule (rule_allows hasCap q) ms.
Proof using All. destruct Hok as (? & ? & _). by apply matches_match_policy. Qed.

Lemma match_portless :
  matchProtoAndIPsOnlyIfAllPorts fms q = true ↔ some_rule (rule_allows_portless q) ms.
Proof using All. destruct Hok as (? & ? & _). by apply matchProto_policy. Qed.

Lemma match_icmp :
  matchIPsOnly fms q hasCap = true ↔ some_rule (rule_allows_icmp hasCap q) ms.
Proof using All. destruct Hok as (? & ? & _). by apply matchIPsOnly_policy. Qed.

(** Inverting [permitted] when the protocol is known. *)
Lemma permitted_iff :
  permitted hasCap ms (entries c) q ↔
  if IPProto q =? icmp_proto q then
    IsEchoResponse q = Ok true ∨ IsError q = Ok true ∨ some_rule (rule_allows_icmp hasCap q) ms
  else if IPProto q =? TCP then IsTCPSyn q = false ∨ some_rule (rule_allows hasCap q) ms
  else if (IPProto q =? UDP) || (IPProto q =? SCTP) then
    is_Some (lookup_entry (MakeTuple (IPProto q) (Src q) (Dst q)) (entries c)) ∨
    some_rule (rule_allows hasCap q) ms
  else IPProto q = TSMP ∨ some_rule (rule_allows_portless q) ms.
Proof using.
  unfold permitted. assert (icmp_proto q = ICMPv4 ∨ icmp_proto q = ICMPv6) as Hi by (unfold icmp_proto; destruct (_ =? _); auto).
  unfold ICMPv4, ICMPv6 in Hi.
  destruct (IPProto q =? icmp_proto q) eqn:E1; bool_prop.
  { split; [|by intros [?|[?|?]]; eauto using permittedBy].
    intros [? []|? ?|Hp ?|Hp ?|Hp ?|Hp|? ? ? ?]; auto; exfalso; unfold has_ports, TCP, UDP, SCTP, TSMP in *; lia. }
  destruct (IPProto q =? TCP) eqn:E2; bool_prop.
  { split; [|intros [?|?]; [by apply permit_tcp_established|apply permit_rule; [unfold has_ports; lia|done]]].
    intros [? ?|? ?|Hp ?|Hp ?|Hp ?|Hp|Hp ? ? ?]; auto; exfalso; unfold has_ports, TCP, UDP, SCTP, TSMP in *; lia. }
  destruct (_ || _) eqn:E3; bool_prop.
  { apply orb_true_iff in E3. rewrite !Z.eqb_eq in E3. split; [|intros [?|?]; [by apply permit_flow|apply permit_rule; [unfold has_ports; lia|done]]].
    intros [? ?|? ?|Hp ?|Hp ?|Hp ?|Hp|Hp ? ? ?]; auto; exfalso; unfold has_ports, TCP, UDP, SCTP, TSMP in *; lia. }
  split.
  - intros [? ?|? ?|Hp ?|Hp ?|Hp ?|Hp|Hp ? ? ?]; auto; exfalso; unfold has_ports, TCP, UDP, SCTP, TSMP in *; lia.
  - intros [?|?]; [by apply permit_tsmp|]. destruct (decide (IPProto q = TSMP)); [by apply permit_tsmp|].
    apply permit_portless; auto. unfold has_ports. lia.
Qed.
Lemma runInFamily_decides :
  decides c (lf (ap_Addr (Dst q))) (runInFamily lf fms (icmp_proto q) f heap q).
Proof using All.
  unfold decides, runInFamily. setoid_rewrite permitted_iff. rewrite Hcap.
  destruct (lf _); cbn [negb]; [|by eexists _, _, _; split_and!; [done|by right|naive_solver]].
  pose proof match_rule as Hr. pose proof match_portless as Hpl. pose proof match_icmp as Hic.
  destruct (IPProto q =? icmp_proto q).
  { destruct Hok as (_ & _ & _ & [e1 ->] & [e2 ->]).
    destruct e1; cbn [mbind res_bind]; [by eexists _, _, _; split_and!; [done|by left|naive_solver]|].
    destruct e2; cbn [mbind res_bind]; [by eexists _, _, _; split_and!; [done|by left|naive_solver]|].
    destruct (matchIPsOnly _ _ _); eexists _, _, _; (split; [done|]); naive_solver. }
  destruct (IPProto q =? TCP).
  { destruct (IsTCPSyn q); cbn [negb]; [|eexists _, _, _; (split; [done|]); naive_solver].
    destruct (matches_match _ _ _); eexists _, _, _; (split; [done|]); naive_solver. }
  destruct (_ || _).
  { unfold state_Get. rewrite Hc.
    destruct (Cache_Get_refines c (MakeTuple (IPProto q) (Src q) (Dst q)) Hinv) as (_ & _ & Hg).
    destruct (Cache_Get _ _) as [c' v]; cbn in Hg |- *. rewrite <- Hg.
    destruct v; cbn [mbind res_bind]; [eexists _, _, _; (split; [done|]); naive_solver|].
    case_bool_decide as Hx; [by destruct Hx|].
    destruct (matches_match _ _ _); eexists _, _, _; (split; [done|]); naive_solver. }
  destruct (IPProto q =? TSMP) eqn:E; bool_prop; [eexists _, _, _; (split; [done|]); naive_solver|].
  destruct (matchProtoAndIPsOnlyIfAllPorts _ _); eexists _, _, _; (split; [done|]); naive_solver.
Qed.
End Body.
End Verdict.

(** ** The local addresses *)
Lemma Partition_filter {A} (cb : A → bool) (s : list A) :
  Partition cb s = (filter (λ x, cb x = true) s, filter (λ x, cb x = false) s).
Proof.
  induction s as [|x s IH]; [done|]. cbn [Partition]. rewrite IH. destruct (cb x) eqn:E.
  - by rewrite filter_cons_True, filter_cons_False by congruence.
  - by rewrite filter_cons_False, filter_cons_True by congruence.
Qed.

Section LocalSet.
Context (bart : list Prefix → Addr → bool).
Hypothesis bart_Contains : ∀ addrs ip, hasZone ip = false → bart addrs ip = in_prefixes addrs ip.

Lemma kept_prefixes (P : Prefix → Prop) `{∀ p, Decision (P p)} local a :
  Forall Prefix_wf local → hasZone a = false → (∀ p, covers p a → P p) →
  NewContainsIPFunc bart (filter P local) a = true ↔ ∃ p, p ∈ local ∧ covers p a.
Proof using bart_Contains.
  intros Hwf Hz HP. rewrite Forall_forall in Hwf.
  rewrite NewContainsIPFunc_in_prefixes; [|done| |done].
  2: { apply Forall_forall. intros p [_ Hp]%list_elem_of_filter. auto. }
  unfold in_prefixes. rewrite existsb_exists. setoid_rewrite <- list_elem_of_In.
  setoid_rewrite list_elem_of_filter. split.
  - intros (p & [_ Hp] & Hc). exists p. split; [done|]. apply Contains_covers; auto.
  - intros (p & Hp & Hc). exists p. split; [auto|]. apply Contains_covers; auto.
Qed.

Lemma splitSet_covers local a :
  Forall Prefix_wf local → hasZone a = false →
  (Is4 a = true → (splitSet bart (Some local)).1 a = true ↔ ∃ p, p ∈ local ∧ covers p a) ∧
  (Is6 a = true → (splitSet bart (Some local)).2 a = true ↔ ∃ p, p ∈ local ∧ covers p a).
Proof using bart_Contains.
  intros Hwf Hz. unfold splitSet. rewrite Partition_filter. cbn [fst snd].
  split; intros Ha; apply kept_prefixes; try done; intros p (_ & Hb & _).
  - by rewrite (BitLen_Is4 _ _ Hb).
  - rewrite (BitLen_Is4 _ _ Hb). by destruct a.
Qed.
End LocalSet.

(** ** Every inbound packet *)
Section NewFilter.
Context (bart : list Prefix → Addr → bool).
Hypothesis bart_Contains : ∀ addrs ip, hasZone ip = false → bart addrs ip = in_prefixes addrs ip.
Context (ms : list Match) (capTest : option CapTestFunc) (local : list Prefix).
Context (logIPs : option (list Prefix)) (share : option Filter) (heap0 : Heap).
Hypothesis Hwf : rules_wf ms.
Hypothesis Hlocal : Forall Prefix_wf local.
Let f := (New bart ms capTest (Some local) logIPs share heap0).1.

Lemma New_fields :
  f_local4 f = (splitSet bart (Some local)).1 ∧ f_local6 f = (splitSet bart (Some local)).2 ∧
  f_matches4 f = matchesFamily bart ms Is4 ∧ f_matches6 f = matchesFamily bart ms Is6 ∧
  f_srcIPHasCap f = capTest ∧ f_IngressAllowHooks f = [] ∧ f_LinkLocalAllowHooks f = [].
Proof using.
  unfold f, New. destruct share; destruct (splitSet bart (Some local)), (splitSet bart logIPs); done.
Qed.

Lemma isAllowedLinkLocal_New q : isAllowedLinkLocal f q = bool_decide (ap_Addr (Dst q) = gcpDNSAddr).
Proof using.
  unfold isAllowedLinkLocal. destruct New_fields as (_ & _ & _ & _ & _ & _ & ->). by case_bool_decide.
Qed.

Lemma run_decides q heap c :
  packet_ok q → heap !! f_state f = Some c → cache_inv c →
  ∃ r why heap',
    (if IPVersion q =? 4 then runIn4 f heap q
     else if IPVersion q =? 6 then runIn6 f heap q else Ok (Drop, "not-ip", heap)) = Ok (r, why, heap') ∧
    (r = Accept ∨ r = noVerdict) ∧
    (r = Accept ↔ (∃ p, p ∈ local ∧ covers p (ap_Addr (Dst q))) ∧ permitted capTest ms (entries c) q).
Proof using All.
  intros Hok Hc Hi. destruct New_fields as (E1 & E2 & E3 & E4 & E5 & _).
  pose proof Hok as (Hzs & Hzd & Hv & _).
  destruct (splitSet_covers bart bart_Contains local (ap_Addr (Dst q)) Hlocal Hzd) as [H4 H6].
  destruct Hv as [(Hv & Hs & Hdst)|(Hv & Hs & Hdst)]; rewrite Hv; cbn [Z.eqb Pos.eqb].
  - unfold runIn4. rewrite E1, E3. setoid_rewrite <- (H4 Hdst).
    replace ICMPv4 with (icmp_proto q) by (unfold icmp_proto; by rewrite Hv).
    eapply runInFamily_decides; eauto using BitLen_Is4, keep_Is4_one.
  - unfold runIn6. rewrite E2, E4. setoid_rewrite <- (H6 Hdst).
    replace ICMPv6 with (icmp_proto q) by (unfold icmp_proto; by rewrite Hv).
    eapply runInFamily_decides; eauto using BitLen_Is6, keep_Is6_one.
Qed.

Lemma RunIn_admitted q heap c lim rf :
  (IPProto q ≠ Unknown → packet_ok q) → heap !! f_state f = Some c → cache_inv c →
  ∃ r heap' e, RunIn f heap lim q rf = Ok (r, heap', e) ∧ (r = Accept ∨ r = Drop) ∧
    (r = Accept ↔ admitted capTest ms local (entries c) q).
Proof using All.
  intros Hd Hc Hi. unfold RunIn, pre, admitted, admittedBy, Buffer. rewrite isAllowedLinkLocal_New.
  destruct New_fields as (_ & _ & _ & _ & _ & -> & _).
  destruct (zlen (q_b q) =? 0) eqn:E0; bool_prop.
  { eexists _, _, _; split; [done|]. split; [by left|]. split; [left|done].
    apply nil_length_inv. unfold zlen in E0. lia. }
  assert (q_b q ≠ []) as Hne by (by intros Hx; rewrite Hx in E0).
  destruct (zlen (q_b q) <? 20) eqn:E1; bool_prop.
  { eexists _, _, _; split; [done|]. split; [by right|]. split; [done|]. intros [?|?]; [done|lia]. }
  destruct (IPProto q =? Unknown) eqn:E2; bool_prop.
  { eexists _, _, _; split; [done|]. split; [by right|]. naive_solver. }
  destruct (IsMulticast _) eqn:E3.
  { eexists _, _, _; split; [done|]. split; [by right|]. naive_solver. }
  destruct (_ && _) eqn:E4.
  { bool_prop. eexists _, _, _; split; [done|]. split; [by right|]. naive_solver. }
  assert (IsLinkLocalUnicast (ap_Addr (Dst q)) = true → ap_Addr (Dst q) = gcpDNSAddr) as Hll.
  { intros Hx. rewrite Hx in E4. cbn [andb] in E4. by bool_prop. }
  destruct (IPProto q =? Fragment) eqn:E5; bool_prop.
  { eexists _, _, _; split; [done|]. split; [by left|]. naive_solver lia. }
  cbn [bool_decide orb]. destruct (run_decides q heap c (Hd E2) Hc Hi) as (r & why & heap' & -> & Hr & Hiff).
  destruct Hr as [-> | ->]; cbn [mbind res_bind bool_decide]; eexists _, _, _; (split; [done|]).
  - split; [by left|]. naive_solver lia.
  - split; [by right|]. split; [done|]. intros [?|(_ & _ & _ & _ & [?|Hp])]; [done..|]. by apply Hiff in Hp.
Qed.
End NewFilter.

(** C10. The filter lets a packet in exactly when its policy admits it.  For
    every packet the decoder delivers, a filter made by [New] answers Accept or
    Drop, and Accept exactly when the packet is empty, or when it is long
    enough, of a known protocol, not multicast, not link-local (but for the
    metadata address), and either a later fragment, or destined to a local
    address and permitted: by some rule, as an ICMP reply or error, as a TCP
    segment other than a SYN, as a flow the node opened, or as TSMP.  The rules
    and local addresses are read as given, before [New] splits them by family
    and compiles them.  The policy of the code is the one of its comments but for
    two cases, both of rules that match a source by capability: a rule lets ICMP
    through to every local address of a family that it names a destination of (the
    comments: to an address of which some port is open), and does not let a protocol
    without ports through (the comment on [SrcCaps]: such a source is also
    permitted).  In all other cases the packet is accepted exactly when the
    documented policy admits it. *)
Theorem RunIn_implements_policy bart ms capTest local logIPs share heap0 heap c lim q0 b rf :
  (∀ addrs ip, hasZone ip = false → bart addrs ip = in_prefixes addrs ip) →
  rules_wf ms → Forall Prefix_wf local →
  let f := (New bart ms capTest (Some local) logIPs share heap0).1 in
  heap !! f_state f = Some c → cache_inv c →
  ∃ q r heap' e, Decode q0 b = Ok q ∧ RunIn f heap lim q rf = Ok (r, heap', e) ∧
    (r = Accept ∨ r = Drop) ∧ (r = Accept ↔ admitted capTest ms local (entries c) q) ∧
    (r = Accept → documented_admitted capTest ms local (entries c) q ∨ icmp_by_capability capTest ms q) ∧
    (documented_admitted capTest ms local (entries c) q → r = Accept ∨ portless_by_capability capTest ms q).
Proof.
  intros Hbart Hwf Hl f Hc Hi. destruct (Decode_describes q0 b) as (q & Hq & Hd).
  destruct (RunIn_admitted bart Hbart ms capTest local logIPs share heap0 Hwf Hl q heap c lim rf)
    as (r & heap' & e & Hr & Hv & Hiff); [by apply (describes_packet_ok b)|done..|].
  exists q, r, heap', e. split_and!; [done..| |].
  - intros Ha%Hiff. revert Ha. apply admittedBy_mono, permitted_documented.
  - rewrite Hiff. apply admittedBy_mono, documented_permitted.
Qed.

(** A rule set: 100.64.0.1 may reach UDP ports 4000-5000 of 100.64.0.0/24. *)
Definition exactTable : list Prefix → Addr → bool := in_prefixes.
Definition sampleRules : list Match :=
  [mkMatch [UDP] [PrefixFrom (ip4 100 64 0 1) 32] emptySet []
     [mkNetPortRange (PrefixFrom (ip4 100 64 0 0) 24) (mkPortRange 4000 5000)] []].
Definition sampleLocal : list Prefix := [PrefixFrom (ip4 100 64 0 2) 32].

Lemma sample_wf : rules_wf sampleRules ∧ Forall Prefix_wf sampleLocal.
Proof.
  split; [|by repeat constructor].
  intros m ->%list_elem_of_singleton. split; by repeat constructor.
Qed.

Lemma RunIn_implements_policy_witness :
  ∃ q r heap' e, Decode Parsed_zero udpPkt = Ok q ∧
    RunIn (New exactTable sampleRules None (Some sampleLocal) None None []).1 [NewCache lruMax] noLimits q 0
      = Ok (r, heap', e) ∧
    (r = Accept ∨ r = Drop) ∧ (r = Accept ↔ admitted None sampleRules sampleLocal [] q) ∧
    (r = Accept → documented_admitted None sampleRules sampleLocal [] q ∨ icmp_by_capability None sampleRules q) ∧
    (documented_admitted None sampleRules sampleLocal [] q → r = Accept ∨ portless_by_capability None sampleRules q).
Proof.
  apply (RunIn_implements_policy exactTable sampleRules None sampleLocal None None [] [NewCache lruMax]
           (NewCache lruMax) noLimits Parsed_zero udpPkt 0).
  - done.
  - apply sample_wf.
  - apply sample_wf.
  - reflexivity.
  - by apply NewCache_inv.
Defined.
