(* ===== verification/FilterFlows.v ===== *)
(** * The packet filter's flow state, and what its verdicts depend on

    The effect of a run on the shared flow caches, the theorem that replies to
    outbound UDP and SCTP packets are let in, and the independence of the
    verdict from the recycled [Parsed]. *)
From S2P Require Import Prelude NetBuf NetAddr Packet Flowtrack FilterModel FilterPolicy.

(** ** What a run does to the flow caches *)
Abbreviation flow_ops := (list (@cache_op unit)).

(** Every cache underwent at most [n] additions and lookups, and no removal. *)
Definition flow_steps (n : nat) (heap heap' : Heap) : Prop :=
  ∀ i c, heap !! i = Some c →
    ∃ ops : flow_ops, (length ops <= n)%nat ∧ Forall uses ops ∧ heap' !! i = Some (foldl run_op c ops).

Lemma flow_steps_refl n heap : flow_steps n heap heap.
Proof. intros i c Hc. exists []. split_and!; [cbn; lia|done..]. Qed.

Lemma flow_steps_op heap j c o :
  heap !! j = Some c → uses o → flow_steps 1 heap (<[j := run_op c o]> heap).
Proof.
  intros Hj Ho i c' Hi. destruct (decide (i = j)) as [->|Hne].
  - simplify_eq. exists [o]. split_and!; [cbn; lia|by constructor|].
    rewrite list_lookup_insert_eq; [done|by eapply lookup_lt_Some].
  - exists []. split_and!; [cbn; lia|done|]. by rewrite list_lookup_insert_ne by done.
Qed.

Lemma flow_steps_trans n1 n2 h1 h2 h3 :
  flow_steps n1 h1 h2 → flow_steps n2 h2 h3 → flow_steps (n1 + n2) h1 h3.
Proof.
  intros S1 S2 i c Hi. destruct (S1 i c Hi) as (o1 & L1 & U1 & E1).
  destruct (S2 i _ E1) as (o2 & L2 & U2 & E2). exists (o1 ++ o2).
  rewrite length_app, foldl_app. split_and!; [lia|by apply Forall_app|done].
Qed.

Lemma state_Get_steps heap f t :
  (f_state f < length heap)%nat → ∃ ok heap', state_Get heap f t = Ok (ok, heap') ∧ flow_steps 1 heap heap'.
Proof.
  intros (c & Hc)%lookup_lt_is_Some. unfold state_Get. rewrite Hc.
  pose proof (flow_steps_op heap (f_state f) c (OpGet t) Hc I) as Hs. cbn [run_op] in Hs.
  destruct (Cache_Get c t). eauto.
Qed.

Lemma state_Add_steps heap f t :
  (f_state f < length heap)%nat → ∃ heap', state_Add heap f t = Ok heap' ∧ flow_steps 1 heap heap'.
Proof.
  intros (c & Hc)%lookup_lt_is_Some. unfold state_Add. rewrite Hc.
  eexists. split; [done|]. by apply (flow_steps_op heap (f_state f) c (OpAdd t ())).
Qed.

Section Runs.
Context (f : Filter) (heap : Heap) (lim : Limits) (q : Parsed) (b : bytes) (rf : Z).
Hypothesis Hstate : (f_state f < length heap)%nat.
Hypothesis Hd : describes b q.

Lemma runInFamily_steps lf ms icmp :
  ∃ r why heap', runInFamily lf ms icmp f heap q = Ok (r, why, heap') ∧ flow_steps 1 heap heap'.
Proof using All.
  unfold runInFamily. pose proof (flow_steps_refl 1 heap).
  destruct (IsEchoResponse_Ok b q Hd) as [e1 ->], (IsError_Ok b q Hd) as [e2 ->].
  destruct (state_Get_steps heap f (MakeTuple (IPProto q) (Src q) (Dst q)) Hstate) as (ok & heap' & -> & Hs).
  destruct (negb (lf _)); [eauto 6|]. destruct (_ =? icmp).
  { destruct e1, e2; cbn [mbind res_bind]; eauto 6; destruct (matchIPsOnly _ _ _); eauto 6. }
  destruct (_ =? TCP).
  { destruct (negb _); [eauto 6|]. destruct (matches_match _ _ _); eauto 6. }
  destruct (_ || _).
  { destruct ok; cbn [mbind res_bind]; [eauto 6|]. destruct (matches_match _ _ _); eauto 6. }
  destruct (_ =? TSMP); [eauto 6|]. destruct (matchProtoAndIPsOnlyIfAllPorts _ _); eauto 6.
Qed.

Lemma RunIn_steps : ∃ r heap' e, RunIn f heap lim q rf = Ok (r, heap', e) ∧ flow_steps 1 heap heap'.
Proof using All.
  unfold RunIn. pose proof (flow_steps_refl 1 heap).
  destruct (pre f lim q rf dir_in) as [[r why] e]. destruct (_ || _); [eauto 6|].
  assert (∃ r why heap',
    (if IPVersion q =? 4 then runIn4 f heap q
     else if IPVersion q =? 6 then runIn6 f heap q else Ok (Drop, "not-ip", heap)) = Ok (r, why, heap') ∧
    flow_steps 1 heap heap') as (r' & why' & heap' & -> & Hs).
  { unfold runIn4, runIn6. destruct (_ =? 4); [|destruct (_ =? 6); [|eauto 6]]; apply runInFamily_steps. }
  cbn [mbind res_bind]. case_bool_decide; [destruct (firstHook _ _)|]; eauto 6.
Qed.

Lemma RunOut_steps : ∃ r why heap' e, RunOut f heap lim q rf = Ok (r, why, heap', e) ∧ flow_steps 1 heap heap'.
Proof using Hstate.
  unfold RunOut, runOut. pose proof (flow_steps_refl 1 heap).
  destruct (pre f lim q rf dir_out) as [[r why] e]. destruct (bool_decide _ || _); [eauto 8|].
  destruct (state_Add_steps heap f (MakeTuple (IPProto q) (Dst q) (Src q)) Hstate) as (heap' & -> & Hs).
  destruct (_ || _); cbn [mbind res_bind]; eauto 8.
Qed.
End Runs.

(** ** Replies *)

(** Packets other flows run through filters that may share the cache. *)
Inductive event :=
  | EvIn (f : Filter) (lim : Limits) (q : Parsed) (rf : Z)
  | EvOut (f : Filter) (lim : Limits) (q : Parsed) (rf : Z).

Definition run_event (heap : Heap) (ev : event) : res Heap :=
  match ev with
  | EvIn f lim q rf => '(_, heap, _) ← RunIn f heap lim q rf; Ok heap
  | EvOut f lim q rf => '(_, _, heap, _) ← RunOut f heap lim q rf; Ok heap
  end.

Fixpoint run_events (heap : Heap) (evs : list event) : res Heap :=
  match evs with
  | [] => Ok heap
  | ev :: evs => heap ← run_event heap ev; run_events heap evs
  end.

Definition decoded (q : Parsed) : Prop := ∃ q0 b, Decode q0 b = Ok q.

Definition event_ok (n : nat) (ev : event) : Prop :=
  match ev with EvIn f _ q _ | EvOut f _ q _ => (f_state f < n)%nat ∧ decoded q end.

Lemma decoded_describes q : decoded q → ∃ b, describes b q.
Proof. intros (q0 & b & Hq). destruct (Decode_describes q0 b) as (q' & Hq' & Hd). exists b. rewrite Hq in Hq'. by injection Hq' as <-. Qed.

Lemma run_event_steps heap ev :
  event_ok (length heap) ev → ∃ heap', run_event heap ev = Ok heap' ∧ flow_steps 1 heap heap'.
Proof.
  destruct ev as [f lim q rf|f lim q rf]; intros [Hf (b & Hd)%decoded_describes]; cbn [run_event].
  - destruct (RunIn_steps f heap lim q b rf Hf Hd) as (r & heap' & e & -> & Hs). by exists heap'.
  - destruct (RunOut_steps f heap lim q rf Hf) as (r & why & heap' & e & -> & Hs). by exists heap'.
Qed.

Lemma flow_steps_length n h1 h2 : flow_steps n h1 h2 → (length h1 <= length h2)%nat.
Proof.
  intros Hs. destruct (decide (length h1 = 0)%nat) as [->|Hne]; [lia|].
  destruct (lookup_lt_is_Some_2 h1 (length h1 - 1)) as [c Hc]; [lia|].
  destruct (Hs _ _ Hc) as (ops & _ & _ & Ho). apply lookup_lt_Some in Ho. lia.
Qed.

Lemma run_events_steps evs heap :
  Forall (event_ok (length heap)) evs →
  ∃ heap', run_events heap evs = Ok heap' ∧ flow_steps (length evs) heap heap'.
Proof.
  revert heap. induction evs as [|ev evs IH]; intros heap Hok; cbn [run_events length].
  { exists heap. split; [done|apply flow_steps_refl]. }
  inversion Hok as [|? ? H1 H2]; subst.
  destruct (run_event_steps heap ev H1) as (heap1 & -> & S1). cbn [mbind res_bind].
  destruct (IH heap1) as (heap2 & -> & S2).
  - eapply Forall_impl; [exact H2|]. pose proof (flow_steps_length _ _ _ S1).
    intros [] [? ?]; (split; [lia|done]).
  - exists heap2. split; [done|]. by apply (flow_steps_trans 1 (length evs) heap heap1).
Qed.

Lemma known_long b q : describes b q → IPProto q ≠ Unknown → 20 <= zlen (q_b q).
Proof.
  intros (-> & _ & [?|[Hh _]]) Hk; [done|].
  destruct Hh as [(_ & _ & ? & _)|(_ & _ & _ & _ & _ & _ & ? & _)]; lia.
Qed.

Lemma pre_known f lim b q rf dir :
  describes b q → IPProto q ≠ Unknown → IPProto q ≠ Fragment →
  IsMulticast (ap_Addr (Dst q)) = false →
  (IsLinkLocalUnicast (ap_Addr (Dst q)) = true → isAllowedLinkLocal f q = true) →
  pre f lim q rf dir = (noVerdict, "", None).
Proof.
  intros Hd Hk Hf Hm Hl. pose proof (known_long b q Hd Hk). unfold pre, Buffer. rewrite Hm.
  replace (zlen (q_b q) =? 0) with false by lia. replace (zlen (q_b q) <? 20) with false by lia.
  replace (IPProto q =? Unknown) with false by lia. replace (IPProto q =? Fragment) with false by lia.
  destruct (IsLinkLocalUnicast _); [by rewrite Hl|done].
Qed.

Definition udp_or_sctp (q : Parsed) : Prop := IPProto q = UDP ∨ IPProto q = SCTP.

Lemma flow_proto q : udp_or_sctp q →
  (IPProto q =? UDP) || (IPProto q =? SCTP) = true ∧ IPProto q ≠ Unknown ∧ IPProto q ≠ Fragment ∧
  IPProto q ≠ TCP ∧ IPProto q ≠ ICMPv4 ∧ IPProto q ≠ ICMPv6.
Proof. unfold udp_or_sctp, UDP, SCTP, Unknown, Fragment, TCP, ICMPv4, ICMPv6. intros [->| ->]; split_and!; done || lia. Qed.

(** An outbound UDP or SCTP packet that passes is recorded. *)
Lemma RunOut_records f heap lim b q rf why heap' e :
  describes b q → udp_or_sctp q → RunOut f heap lim q rf = Ok (Accept, why, heap', e) →
  state_Add heap f (MakeTuple (IPProto q) (Dst q) (Src q)) = Ok heap'.
Proof.
  intros Hd Hp. destruct (flow_proto q Hp) as (E & Hk & Hf & _). pose proof (known_long b q Hd Hk).
  unfold RunOut, pre, Buffer, runOut. rewrite E.
  replace (zlen (q_b q) =? 0) with false by lia. replace (zlen (q_b q) <? 20) with false by lia.
  replace (IPProto q =? Unknown) with false by lia. replace (IPProto q =? Fragment) with false by lia.
  destruct (IsMulticast _); [done|]. destruct (_ && _); [done|].
  cbn [bool_decide orb]. destruct (state_Add _ _ _); cbn [mbind res_bind]; [|done..]. by intros [= _ -> _].
Qed.

(** An inbound packet of a recorded flow passes. *)
Lemma RunIn_cached f heap c lim b q rf :
  describes b q → udp_or_sctp q → heap !! f_state f = Some c → cache_inv c →
  is_Some (lookup_entry (MakeTuple (IPProto q) (Src q) (Dst q)) (entries c)) →
  IsMulticast (ap_Addr (Dst q)) = false →
  (IsLinkLocalUnicast (ap_Addr (Dst q)) = true → isAllowedLinkLocal f q = true) →
  (if IPVersion q =? 4 then f_local4 f else f_local6 f) (ap_Addr (Dst q)) = true →
  ∃ heap' e, RunIn f heap lim q rf = Ok (Accept, heap', e).
Proof.
  intros Hd Hp Hc Hi Hin Hm Hl Hloc. destruct (flow_proto q Hp) as (E & Hk & Hf & Ht & H4 & H6).
  unfold RunIn. rewrite (pre_known f lim b q) by done. cbn [bool_decide orb].
  assert (∀ lf ms icmp, lf (ap_Addr (Dst q)) = true → IPProto q ≠ icmp →
    ∃ heap', runInFamily lf ms icmp f heap q = Ok (Accept, "cached", heap')) as Hrun.
  { intros lf ms icmp Hlf Hic. unfold runInFamily. rewrite Hlf, E. cbn [negb].
    replace (IPProto q =? icmp) with false by lia. replace (IPProto q =? TCP) with false by lia.
    unfold state_Get. rewrite Hc. destruct (Cache_Get_refines c (MakeTuple (IPProto q) (Src q) (Dst q)) Hi) as (_ & _ & Hg).
    destruct (Cache_Get _ _) as [c' v]. cbn in Hg. subst v. rewrite bool_decide_eq_true_2 by done. eauto. }
  destruct (packet_ok_version b q Hd Hk) as [Hv|Hv]; rewrite Hv in *; cbn [Z.eqb Pos.eqb] in *.
  - destruct (Hrun (f_local4 f) (f_matches4 f) ICMPv4 Hloc H4) as [heap' Hr].
    unfold runIn4. rewrite Hr. cbn. eauto.
  - destruct (Hrun (f_local6 f) (f_matches6 f) ICMPv6 Hloc H6) as [heap' Hr].
    unfold runIn6. rewrite Hr. cbn. eauto.
Qed.

(** C11. Replies get in.  After an outbound UDP or SCTP packet passed a filter,
    the first reply (the same protocol, endpoints swapped) to an address that is
    local to the node, neither multicast nor link-local (unless the filter allows
    that link-local packet), is let in, although no rule may permit it: after any run of fewer than [lruMax] other packets
    through filters on the same or other flow caches (none of which fails), and
    also through another filter, with other rules, that shares the state. *)
Theorem reply_is_let_in f heap c lim q rf why heap1 e evs f' lim' q' rf' :
  heap !! f_state f = Some c → cache_inv c → MaxEntries c = lruMax →
  decoded q → udp_or_sctp q → RunOut f heap lim q rf = Ok (Accept, why, heap1, e) →
  Forall (event_ok (length heap)) evs → zlen evs < lruMax →
  f_state f' = f_state f →
  decoded q' → IPProto q' = IPProto q → Src q' = Dst q → Dst q' = Src q →
  IsMulticast (ap_Addr (Dst q')) = false →
  (IsLinkLocalUnicast (ap_Addr (Dst q')) = true → isAllowedLinkLocal f' q' = true) →
  (if IPVersion q' =? 4 then f_local4 f' else f_local6 f') (ap_Addr (Dst q')) = true →
  ∃ heap2 heap3 e', run_events heap1 evs = Ok heap2 ∧ RunIn f' heap2 lim' q' rf' = Ok (Accept, heap3, e').
Proof.
  intros Hc Hi Hmax (b & Hd)%decoded_describes Hp Hout Hevs Hn Hst (b' & Hd')%decoded_describes
    Eproto Esrc Edst Hm Hl Hloc.
  pose proof (RunOut_records _ _ _ b _ _ _ _ _ Hd Hp Hout) as Hadd.
  unfold state_Add in Hadd. rewrite Hc in Hadd. injection Hadd as <-.
  set (t := MakeTuple (IPProto q) (Dst q) (Src q)) in *.
  assert (f_state f < length heap)%nat as Hlt by by eapply lookup_lt_Some.
  destruct (run_events_steps evs (<[f_state f := Cache_Add c t ()]> heap)) as (heap2 & Hrun & Hs).
  { by rewrite length_insert. }
  destruct (Hs (f_state f) (Cache_Add c t ())) as (ops & Hlen & Hu & Hc2).
  { by apply list_lookup_insert_eq. }
  assert (0 <= MaxEntries c) as H0 by (rewrite Hmax; unfold lruMax; lia).
  destruct (run_ops_refine (OpAdd t () :: ops) c Hi H0) as (Hi2 & He2 & _).
  cbn [foldl run_op] in Hi2, He2. cbn [spec_op] in He2. rewrite Hmax in He2.
  destruct (RunIn_cached f' heap2 (foldl run_op (Cache_Add c t ()) ops) lim' b' q' rf') as (heap3 & e' & Hin);
    try done.
  - unfold udp_or_sctp. by rewrite Eproto.
  - by rewrite Hst.
  - rewrite Eproto, Esrc, Edst. fold t. rewrite He2. apply added_survives; [unfold zlen in *; lia|done].
  - by exists heap2, heap3, e'.
Qed.

(** The reply to [udpPkt], to 100.64.0.1:53 from 100.64.0.2:4242. *)
Definition replyPkt : bytes :=
  [0x45; 0; 0; 30; 0; 1; 0; 0; 64; 17; 0; 0; 100; 64; 0; 2; 100; 64; 0; 1;
   16; 146; 0; 53; 0; 10; 0; 0; 104; 105].
Definition replyParsed : Parsed := match Decode Parsed_zero replyPkt with Ok q => q | _ => Parsed_zero end.

(** A filter that has no rules, on a node with address 100.64.0.1, and the
    filter that replaces it. *)
Definition dnsLocal : list Prefix := [PrefixFrom (ip4 100 64 0 1) 32].
Definition noRules : Filter := (New exactTable [] None (Some dnsLocal) None None []).1.
Definition noRules' : Filter := (New exactTable sampleRules None (Some dnsLocal) None (Some noRules) [NewCache lruMax]).1.
Definition afterOut : Heap :=
  match RunOut noRules [NewCache lruMax] noLimits udpParsed 0 with Ok (_, _, h, _) => h | _ => [] end.

Lemma reply_is_let_in_witness :
  ∃ heap2 heap3 e', run_events afterOut [EvIn noRules noLimits udpParsed 0] = Ok heap2 ∧
    RunIn noRules' heap2 noLimits replyParsed 0 = Ok (Accept, heap3, e').
Proof.
  apply (reply_is_let_in noRules [NewCache lruMax] (NewCache lruMax) noLimits udpParsed 0 "" afterOut None
           [EvIn noRules noLimits udpParsed 0] noRules' noLimits replyParsed 0).
  all: try reflexivity; try done.
  - by apply NewCache_inv.
  - exists Parsed_zero, udpPkt. reflexivity.
  - by left.
  - constructor; [|constructor]. split; [cbn; lia|]. exists Parsed_zero, udpPkt. reflexivity.
  - exists Parsed_zero, replyPkt. reflexivity.
Defined.

(** ** The verdict depends on the wire *)
Section Wire.
Context (q1 q2 : Parsed).
Hypothesis Hsame : same_packet q1 q2.
Hypothesis Hknown : IPProto q1 ≠ Unknown.

Lemma same_addrs :
  IPProto q1 = IPProto q2 ∧ ap_Addr (Src q1) = ap_Addr (Src q2) ∧ ap_Addr (Dst q1) = ap_Addr (Dst q2) ∧
  q_b q1 = q_b q2 ∧ subofs q1 = subofs q2.
Proof using All. destruct Hsame as (? & ? & ? & Hk & _). destruct (Hk Hknown) as (? & ? & ? & _). done. Qed.

Lemma same_icmp : IsEchoResponse q1 = IsEchoResponse q2 ∧ IsError q1 = IsError q2.
Proof using All.
  destruct same_addrs as (Ep & _ & _ & Eb & Es). unfold IsEchoResponse, IsError, icmpIs.
  by rewrite Ep, Eb, Es.
Qed.

Lemma same_portless ms hasCap :
  matchIPsOnly ms q1 hasCap = matchIPsOnly ms q2 hasCap ∧
  matchProtoAndIPsOnlyIfAllPorts ms q1 = matchProtoAndIPsOnlyIfAllPorts ms q2.
Proof using All.
  destruct same_addrs as (Ep & E1 & E2 & _). unfold matchIPsOnly, matchProtoAndIPsOnlyIfAllPorts.
  by rewrite Ep, E1, E2.
Qed.

Lemma same_match ms hasCap :
  has_ports (IPProto q1) = true → matches_match ms q1 hasCap = matches_match ms q2 hasCap.
Proof using All.
  intros Hp. destruct same_addrs as (Ep & _). destruct Hsame as (_ & _ & _ & _ & Hports & _).
  destruct (Hports Hp) as [E1 E2]. unfold matches_match, match_one. by rewrite Ep, E1, E2.
Qed.

Lemma same_flow :
  has_ports (IPProto q1) = true →
  MakeTuple (IPProto q1) (Src q1) (Dst q1) = MakeTuple (IPProto q2) (Src q2) (Dst q2) ∧
  MakeTuple (IPProto q1) (Dst q1) (Src q1) = MakeTuple (IPProto q2) (Dst q2) (Src q2).
Proof using All.
  intros Hp. destruct same_addrs as (Ep & _). destruct Hsame as (_ & _ & _ & _ & Hports & _).
  destruct (Hports Hp) as [E1 E2]. by rewrite Ep, E1, E2.
Qed.

Lemma same_runInFamily lf ms icmp f heap :
  runInFamily lf ms icmp f heap q1 = runInFamily lf ms icmp f heap q2.
Proof using All.
  pose proof same_addrs as (Ep & Esrc & Edst & _). pose proof same_icmp as [Ei1 Ei2].
  destruct (same_portless ms (f_srcIPHasCap f)) as [Em1 Em2].
  pose proof (same_match ms (f_srcIPHasCap f)) as Em. pose proof same_flow as Ef.
  destruct Hsame as (_ & _ & _ & _ & _ & Hflags).
  unfold runInFamily. rewrite Ei1, Ei2, Em1, Em2, Edst. rewrite Ep in Em, Ef, Hflags |- *.
  destruct (negb _); [done|]. destruct (_ =? icmp); [done|].
  destruct (_ =? TCP) eqn:Et.
  { bool_prop. rewrite Em by (by rewrite Et). unfold IsTCPSyn. by rewrite Hflags. }
  destruct (_ || _) eqn:Eu; [|done].
  assert (has_ports (IPProto q2) = true) as Hp by (unfold has_ports; by rewrite Et).
  rewrite Em by done. destruct (Ef Hp) as [-> _]. done.
Qed.
End Wire.

(** A hook that does not look at the stale fields. *)
Definition respects_wire (pm : PacketMatch) : Prop := ∀ q1 q2, same_packet q1 q2 → pm q1 = pm q2.

Definition in_verdict (r : res (Response * Heap * option LogEntry)) : res (Response * Heap) :=
  '(r, heap, _) ← r; Ok (r, heap).
Definition out_verdict (r : res (Response * string * Heap * option LogEntry)) : res (Response * string * Heap) :=
  '(r, why, heap, _) ← r; Ok (r, why, heap).

Section WireRuns.
Context (f : Filter) (heap : Heap) (lim : Limits) (rf : Z) (q1 q2 : Parsed).
Hypothesis Hingress : Forall respects_wire (f_IngressAllowHooks f).
Hypothesis Hlinklocal : Forall respects_wire (f_LinkLocalAllowHooks f).
Hypothesis Hsame : same_packet q1 q2.

Lemma same_firstHook : firstHook (f_IngressAllowHooks f) q1 = firstHook (f_IngressAllowHooks f) q2.
Proof using All.
  induction Hingress as [|pm hooks Hpm Hrest IH]; [done|]. cbn [firstHook].
  rewrite (Hpm q1 q2 Hsame). destruct (pm q2) as [[] why]; [done|]. exact (IH Hrest).
Qed.

Lemma same_isAllowedLinkLocal :
  IPProto q1 ≠ Unknown → isAllowedLinkLocal f q1 = isAllowedLinkLocal f q2.
Proof using All.
  intros Hk. destruct (same_addrs q1 q2 Hsame Hk) as (_ & _ & Edst & _). unfold isAllowedLinkLocal.
  rewrite Edst. case_bool_decide; [done|].
  induction Hlinklocal as [|pm hooks Hpm Hrest IH]; [done|]. cbn [existsb].
  by rewrite (Hpm q1 q2 Hsame), (IH Hrest).
Qed.

Lemma same_pre dir : (pre f lim q1 rf dir).1 = (pre f lim q2 rf dir).1.
Proof using All.
  pose proof Hsame as (Eb & _ & Ep & _). unfold pre, Buffer. rewrite <- Eb, <- Ep.
  destruct (_ =? 0); [done|]. destruct (_ <? 20); [done|].
  destruct (_ =? Unknown) eqn:E; bool_prop; [done|].
  destruct (same_addrs q1 q2 Hsame E) as (_ & _ & <- & _). rewrite <- same_isAllowedLinkLocal by done.
  destruct (IsMulticast _); [done|]. destruct (_ && _); [done|]. by destruct (_ =? Fragment).
Qed.

Lemma pre_noVerdict_known dir q r why e :
  pre f lim q rf dir = (r, why, e) → bool_decide (r = Accept) || bool_decide (r = Drop) = false →
  IPProto q ≠ Unknown.
Proof using.
  unfold pre. destruct (_ =? 0); [by intros [= <- <- <-]|]. destruct (_ <? 20); [by intros [= <- <- <-]|].
  destruct (_ =? Unknown) eqn:E; bool_prop; [by intros [= <- <- <-]|done].
Qed.

Lemma same_RunIn : in_verdict (RunIn f heap lim q1 rf) = in_verdict (RunIn f heap lim q2 rf).
Proof using All.
  unfold RunIn. pose proof (same_pre dir_in) as Hpre.
  destruct (pre f lim q1 rf dir_in) as [[r1 why1] e1] eqn:P1, (pre f lim q2 rf dir_in) as [[r2 why2] e2].
  cbn in Hpre. injection Hpre as <- <-. destruct (_ || _) eqn:Ev; [done|].
  pose proof (pre_noVerdict_known dir_in q1 r1 why1 e1 P1 Ev) as Hk.
  pose proof Hsame as (_ & Evers & _). unfold runIn4, runIn6. rewrite <- Evers.
  rewrite <- !(same_runInFamily q1 q2) by done.
  destruct (if _ =? 4 then _ else _) as [[[r why] h]|?| |]; [|done..]. cbn [mbind res_bind].
  rewrite same_firstHook. clear Ev.
  case_bool_decide; [by destruct (firstHook _ _)|done].
Qed.

Lemma same_RunOut : out_verdict (RunOut f heap lim q1 rf) = out_verdict (RunOut f heap lim q2 rf).
Proof using All.
  unfold RunOut, runOut. pose proof (same_pre dir_out) as Hpre.
  destruct (pre f lim q1 rf dir_out) as [[r1 why1] e1] eqn:P1, (pre f lim q2 rf dir_out) as [[r2 why2] e2].
  cbn in Hpre. injection Hpre as <- <-. destruct (bool_decide _ || _) eqn:Ev; [done|].
  pose proof (pre_noVerdict_known dir_out q1 r1 why1 e1 P1 Ev) as Hk.
  pose proof (same_flow q1 q2 Hsame Hk) as Hf. pose proof Hsame as (_ & _ & Ep & _). rewrite Ep in *.
  clear Ev P1.
  destruct (_ || _) eqn:E.
  - destruct Hf as [_ ->]; [unfold has_ports; destruct (_ =? TCP); [done|exact E]|].
    by destruct (state_Add _ _ _).
  - done.
Qed.
End WireRuns.

(** The verdict is a function of the bytes on the wire: whatever the two
    recycled [Parsed] values held, decoding the same bytes into them gives the
    same verdict, inbound and outbound, with the same effect on the flow
    caches, provided the hooks do not look at stale fields.  (The log line is
    not part of this: for a malformed packet it names stale addresses.) *)
Theorem verdict_depends_on_wire_only f heap lim rf p1 p2 b q1 q2 :
  Forall respects_wire (f_IngressAllowHooks f) → Forall respects_wire (f_LinkLocalAllowHooks f) →
  Decode p1 b = Ok q1 → Decode p2 b = Ok q2 →
  in_verdict (RunIn f heap lim q1 rf) = in_verdict (RunIn f heap lim q2 rf) ∧
  out_verdict (RunOut f heap lim q1 rf) = out_verdict (RunOut f heap lim q2 rf).
Proof.
  intros Hi Hl H1 H2. pose proof (Decode_same_packet _ _ _ _ _ H1 H2) as Hs.
  split; [by apply same_RunIn|by apply same_RunOut].
Qed.

Lemma verdict_depends_on_wire_only_witness :
  ∃ q1 q2, Decode Parsed_zero udpPkt = Ok q1 ∧ Decode replyParsed udpPkt = Ok q2 ∧
    in_verdict (RunIn noRules [NewCache lruMax] noLimits q1 0) =
    in_verdict (RunIn noRules [NewCache lruMax] noLimits q2 0).
Proof.
  eexists _, _. split; [vm_compute; reflexivity|]. split; [vm_compute; reflexivity|].
  eapply (verdict_depends_on_wire_only noRules [NewCache lruMax] noLimits 0 Parsed_zero replyParsed udpPkt);
    [constructor|constructor|vm_compute; reflexivity|vm_compute; reflexivity].
Defined.

(** A truncated packet is marked unknown before its addresses are read: the
    decision to log its drop looks at the addresses of the previous packet. *)
Definition sampleNet : list Prefix := [PrefixFrom (ip4 100 64 0 0) 24].
Definition truncatedPkt : bytes := take 24 replyPkt.
Definition logFilter : Filter := (New exactTable [] None None (Some sampleNet) None []).1.
Definition allLimits : Limits := {| dropAllow := true; acceptAllow := true |}.

Lemma truncated_packet_logged_as_previous :
  ∃ q1 q2, Decode Parsed_zero truncatedPkt = Ok q1 ∧ Decode udpParsed truncatedPkt = Ok q2 ∧
    IPVersion q1 = 4 ∧ IPProto q1 = Unknown ∧ ap_Addr (Src q1) = AddrZero ∧
    ap_Addr (Src q2) = ap_Addr (Src udpParsed) ∧
    logRateLimit logFilter allLimits LogDrops q1 dir_in Drop "unknown proto" = None ∧
    is_Some (logRateLimit logFilter allLimits LogDrops q2 dir_in Drop "unknown proto").
Proof.
  eexists _, _. split; [vm_compute; reflexivity|]. split; [vm_compute; reflexivity|].
  vm_compute. eauto 10.
Qed.
