(* ===== verification/FilterAdmin.v ===== *)
(** * Shields-up filters, rule queries and capability grants

    What a filter made by [NewShieldsUpFilter] lets in, what [CheckTCP] answers,
    and what [CapsWithValues] returns for a filter made by [New]. *)
From S2P Require Import Prelude NetBuf NetAddr Packet Flowtrack FilterModel FilterPolicy FilterFlows.

(** ** Shields up *)

(** What no rule is needed for. *)
Definition solicited (flows : list (Tuple * unit)) (q : Parsed) : Prop :=
  q_b q = [] ∨ IPProto q = Fragment ∨ IPProto q = TSMP ∨
  IPProto q = TCP ∧ IsTCPSyn q = false ∨
  IPProto q = icmp_proto q ∧ (IsEchoResponse q = Ok true ∨ IsError q = Ok true) ∨
  udp_or_sctp q ∧ is_Some (lookup_entry (MakeTuple (IPProto q) (Src q) (Dst q)) flows).

Lemma permitted_no_rules hasCap flows q : permitted hasCap [] flows q → solicited flows q.
Proof.
  assert (∀ P, ¬ some_rule P []) as Hno by (by intros P (m & ?%not_elem_of_nil & _)).
  unfold solicited, udp_or_sctp.
  intros [? ?|? Hr|? ?|? Hr|? ?|?|? ? ? Hr]; try (by apply Hno in Hr); naive_solver.
Qed.

Lemma RunIn_set_shieldsUp f heap lim q rf : RunIn (set_shieldsUp f) heap lim q rf = RunIn f heap lim q rf.
Proof. reflexivity. Qed.

(** Shields up: a filter made by [NewShieldsUpFilter] on a node that was not
    shields-up starts with an empty flow cache of its own, and at any later
    time lets in only what answers the node's own traffic: TCP segments that
    are not SYNs, ICMP replies and errors, UDP and SCTP packets of flows
    recorded in its own cache, and TSMP and later fragments.  No rule of the
    previous filter, and no flow recorded under it, lets anything in. *)
Theorem shields_up_admits_only_solicited bart local logIPs prev heap :
  (∀ addrs ip, hasZone ip = false → bart addrs ip = in_prefixes addrs ip) →
  Forall Prefix_wf local → (∀ g, prev = Some g → f_shieldsUp g = false) →
  let '(f, heap') := NewShieldsUpFilter bart (Some local) logIPs prev heap in
  ShieldsUp f = true ∧ f_state f = length heap ∧ heap' !! f_state f = Some (NewCache lruMax) ∧
  ∀ heap2 c lim q rf, heap2 !! f_state f = Some c → cache_inv c → decoded q →
    ∃ r h e, RunIn f heap2 lim q rf = Ok (r, h, e) ∧ (r = Accept ∨ r = Drop) ∧
      (r = Accept → solicited (entries c) q).
Proof.
  intros Hbart Hl Hprev. unfold NewShieldsUpFilter.
  assert (match prev with Some f => if negb (f_shieldsUp f) then None else Some f | None => None end = None) as ->.
  { destruct prev as [g|]; [|done]. by rewrite (Hprev g). }
  destruct (New bart [] None (Some local) logIPs None heap) as [f heap'] eqn:En.
  assert (f = (New bart [] None (Some local) logIPs None heap).1) as Hf by (by rewrite En).
  assert (f_state f = length heap ∧ heap' = heap ++ [NewCache lruMax]) as [Hst ->].
  { revert En. unfold New. destruct (splitSet _ _), (splitSet _ _). by intros [= <- <-]. }
  split_and!; [done|done| |].
  { change (f_state (set_shieldsUp f)) with (f_state f). rewrite Hst. by rewrite list_lookup_middle. }
  intros heap2 c lim q rf Hc Hi (b & Hd)%decoded_describes. rewrite RunIn_set_shieldsUp.
  change (f_state (set_shieldsUp f)) with (f_state f) in Hc. rewrite Hf in Hc |- *.
  destruct (RunIn_admitted bart Hbart [] None local logIPs None heap ltac:(by intros m ?%not_elem_of_nil) Hl
              q heap2 c lim rf) as (r & h & e & Hr & Hv & Hiff);
    [by apply (describes_packet_ok b)|done..|].
  exists r, h, e. split_and!; [done..|]. intros Ha. apply Hiff in Ha.
  destruct Ha as [?|(_ & _ & _ & _ & [?|[_ Hp]])]; [by left|by right; left|].
  by apply permitted_no_rules in Hp.
Qed.

Lemma shields_up_admits_only_solicited_witness :
  ∃ r h e, RunIn (NewShieldsUpFilter exactTable (Some dnsLocal) None (Some noRules) afterOut).1
             (NewShieldsUpFilter exactTable (Some dnsLocal) None (Some noRules) afterOut).2
             noLimits replyParsed 0 = Ok (r, h, e) ∧ (r = Accept → solicited [] replyParsed).
Proof.
  pose proof (shields_up_admits_only_solicited exactTable dnsLocal None (Some noRules) afterOut) as H.
  destruct H as (_ & _ & Hc & Hrun); [done|by repeat constructor|by intros g [= <-]|].
  destruct (Hrun _ (NewCache lruMax) noLimits replyParsed 0 Hc) as (r & h & e & Hr & _ & Hs).
  - by apply NewCache_inv.
  - exists Parsed_zero, replyPkt. reflexivity.
  - by exists r, h, e.
Defined.

(** ** Rule queries *)
Definition synPacket (v : Z) (srcIP dstIP : Addr) (dstPort : Z) : Parsed :=
  match Decode Parsed_zero dummyPacket with
  | Ok pkt => set_TCPFlags TCPSyn (set_IPProto TCP (set_Dst (AddrPortFrom dstIP dstPort)
                (set_Src (AddrPortFrom srcIP 0) (set_IPVersion v pkt))))
  | _ => Parsed_zero
  end.

Lemma synPacket_fields v src dst port :
  let q := synPacket v src dst port in
  zlen (q_b q) = 20 ∧ IPVersion q = v ∧ IPProto q = TCP ∧ Src q = AddrPortFrom src 0 ∧
  Dst q = AddrPortFrom dst port ∧ IsTCPSyn q = true.
Proof. vm_compute. done. Qed.

Lemma Check_syn f heap src dst port v :
  Is4 src && Is6 dst = false → (Is4 src = true ∧ v = 4 ∨ Is6 src = true ∧ v = 6) →
  CheckTCP f heap src dst port =
    '(r, heap, _) ← RunIn f heap noLimits (synPacket v src dst port) 0; Ok (r, heap).
Proof.
  intros Hfam Hv. unfold CheckTCP, Check, synPacket.
  destruct (Decode Parsed_zero dummyPacket) as [pkt| | |] eqn:E; [|by vm_compute in E..].
  cbn [mbind res_bind]. rewrite Hfam. destruct Hv as [[Hs ->]|[Hs ->]].
  - rewrite Hs. replace (Is6 src) with false by (by destruct src). reflexivity.
  - rewrite Hs. replace (Is4 src) with false by (by destruct src). reflexivity.
Qed.

(** An address of another family is not local. *)
Lemma splitSet_other_family bart local a :
  (∀ addrs ip, hasZone ip = false → bart addrs ip = in_prefixes addrs ip) →
  Forall Prefix_wf local → hasZone a = false →
  (Is4 a = false → (splitSet bart (Some local)).1 a = false) ∧
  (Is4 a = true → (splitSet bart (Some local)).2 a = false).
Proof.
  intros Hbart Hwf Hz. unfold splitSet. rewrite Partition_filter. cbn [fst snd].
  assert (∀ P `{∀ p : Prefix, Decision (P p)}, (∀ p, covers p a → ¬ P p) →
            NewContainsIPFunc bart (filter P local) a = false) as Hno.
  { intros P HP Hc. rewrite Forall_forall in Hwf.
    assert (Forall Prefix_wf (filter P local)) as Hwf'
      by (apply Forall_forall; intros p [_ ?]%list_elem_of_filter; auto).
    rewrite NewContainsIPFunc_in_prefixes by done. apply not_true_iff_false. unfold in_prefixes.
    rewrite existsb_exists. intros (p & Hp & Hcov). apply list_elem_of_In in Hp.
    rewrite Forall_forall in Hwf'. apply Contains_covers in Hcov; [|by auto|done].
    apply list_elem_of_filter in Hp as [Hp _]. by apply (Hc p). }
  split; intros Ha; apply Hno; intros p (_ & Hb & _); rewrite (BitLen_Is4 _ _ Hb); congruence.
Qed.

Lemma zero_not_local bart local :
  (∀ addrs ip, hasZone ip = false → bart addrs ip = in_prefixes addrs ip) →
  Forall Prefix_wf local → (splitSet bart (Some local)).2 AddrZero = false.
Proof.
  intros Hbart Hwf. apply not_true_iff_false. unfold splitSet. rewrite Partition_filter. cbn [snd].
  intros Hin. apply kept_prefixes in Hin as (p & _ & _ & _ & Hz & _); try done.
  by intros p (_ & _ & Hz & _).
Qed.

Lemma pre_not_accept f lim q rf dir r why e :
  zlen (q_b q) ≠ 0 → IPProto q ≠ Fragment → pre f lim q rf dir = (r, why, e) → r = Drop ∨ r = noVerdict.
Proof.
  intros Hl Hf. unfold pre, Buffer. replace (zlen (q_b q) =? 0) with false by lia.
  replace (IPProto q =? Fragment) with false by lia.
  destruct (_ <? 20); [intros [= <- _ _]; by left|]. destruct (_ =? Unknown); [intros [= <- _ _]; by left|].
  destruct (IsMulticast _); [intros [= <- _ _]; by left|].
  destruct (_ && _); [intros [= <- _ _]; by left|]. intros [= <- _ _]. by right.
Qed.

(** A destination that is not local is dropped when there are no hooks. *)
Lemma RunIn_not_local f heap lim q rf :
  zlen (q_b q) ≠ 0 → IPProto q ≠ Fragment → f_IngressAllowHooks f = [] →
  (IPVersion q = 4 → f_local4 f (ap_Addr (Dst q)) = false) →
  (IPVersion q = 6 → f_local6 f (ap_Addr (Dst q)) = false) →
  ∃ e, RunIn f heap lim q rf = Ok (Drop, heap, e).
Proof.
  intros Hl Hf Hh H4 H6. unfold RunIn. destruct (pre f lim q rf dir_in) as [[r why] e] eqn:Ep.
  destruct (pre_not_accept _ _ _ _ _ _ _ _ Hl Hf Ep) as [-> | ->]; cbn [bool_decide orb]; [eauto|].
  rewrite Hh. unfold runIn4, runIn6, runInFamily.
  destruct (IPVersion q =? 4) eqn:E4; bool_prop; [rewrite H4 by done; cbn; eauto|].
  destruct (IPVersion q =? 6) eqn:E6; bool_prop; [rewrite H6 by done; cbn; eauto|]. cbn. eauto.
Qed.

(** The connection a rule must permit. *)
Definition tcp_rule (hasCap : option CapTestFunc) (src dst : Addr) (port : Z) (m : Match) : Prop :=
  TCP ∈ m_IPProto m ∧ (src_in m src ∨ src_has_cap hasCap m src) ∧
  dst_in m dst (λ pr, First pr <= port <= Last pr).

Lemma syn_packet_ok v src dst port :
  hasZone src = false → hasZone dst = false →
  (v = 4 ∧ Is4 src = true ∧ Is4 dst = true ∨ v = 6 ∧ Is6 src = true ∧ Is6 dst = true) →
  packet_ok (synPacket v src dst port).
Proof.
  intros Hs Hd Hv. destruct (synPacket_fields v src dst port) as (_ & E1 & E2 & E3 & E4 & _).
  unfold packet_ok, IsEchoResponse, IsError. rewrite E1, E2, E3, E4. cbn [AddrPortFrom ap_Addr].
  split_and!; eauto.
Qed.

Lemma syn_admitted hasCap ms local c v src dst port :
  admitted hasCap ms local (entries c) (synPacket v src dst port) ↔
  IsMulticast dst = false ∧ (IsLinkLocalUnicast dst = true → dst = gcpDNSAddr) ∧
  (∃ p, p ∈ local ∧ covers p dst) ∧ some_rule (tcp_rule hasCap src dst port) ms.
Proof.
  destruct (synPacket_fields v src dst port) as (El & Ev & Ep & Es & Ed & Esyn).
  assert (q_b (synPacket v src dst port) ≠ []) as Hne by (by intros E; rewrite E in El).
  unfold admitted, admittedBy. rewrite permitted_iff, Ep, Ed, Esyn.
  assert ((TCP =? icmp_proto (synPacket v src dst port)) = false) as ->.
  { unfold icmp_proto. by destruct (_ =? 4). }
  unfold some_rule, rule_allows, tcp_rule. rewrite Ep, Es, Ed. cbn [AddrPortFrom ap_Addr ap_Port Z.eqb TCP Pos.eqb].
  rewrite El. unfold Unknown, Fragment. split.
  - intros [?|(_ & _ & Hm & Hl & [?|(Hloc & [?|Hr])])]; done.
  - intros (Hm & Hl & Hloc & Hr). right. split_and!; try done. right. split; [done|by right].
Qed.

(** [CheckTCP] answers what the policy says of a new TCP connection: Accept
    exactly when the two addresses are of one family, the destination is not
    multicast, nor link-local (but for the metadata address), is local, and
    some rule permits TCP from the source (by address or capability) to that
    port.  It panics only on an invalid source address. *)
Theorem CheckTCP_decides_policy bart ms capTest local logIPs share heap0 heap c src dst port :
  (∀ addrs ip, hasZone ip = false → bart addrs ip = in_prefixes addrs ip) →
  rules_wf ms → Forall Prefix_wf local →
  let f := (New bart ms capTest (Some local) logIPs share heap0).1 in
  heap !! f_state f = Some c → cache_inv c →
  hasZone src = false → hasZone dst = false → src ≠ AddrZero →
  ∃ r heap', CheckTCP f heap src dst port = Ok (r, heap') ∧ (r = Accept ∨ r = Drop) ∧
    (r = Accept ↔ BitLen src = BitLen dst ∧ IsMulticast dst = false ∧
       (IsLinkLocalUnicast dst = true → dst = gcpDNSAddr) ∧
       (∃ p, p ∈ local ∧ covers p dst) ∧ some_rule (tcp_rule capTest src dst port) ms).
Proof.
  intros Hbart Hwf Hl f Hc Hi Hzs Hzd Hnz.
  destruct (New_fields bart ms capTest local logIPs share heap0) as (E4 & E6 & _ & _ & _ & Eh & _). fold f in E4, E6, Eh.
  destruct (splitSet_other_family bart local dst Hbart Hl Hzd) as [Hn4 Hn6]. rewrite <- E4 in Hn4. rewrite <- E6 in Hn6.
  destruct (Is4 src && Is6 dst) eqn:Emix.
  { bool_prop. eexists Drop, heap. split_and!; [|by right|].
    - unfold CheckTCP, Check. destruct (Decode Parsed_zero dummyPacket) as [pkt| | |] eqn:E; [|by vm_compute in E..].
      cbn [mbind res_bind]. by rewrite H, H0.
    - split; [done|]. intros (Hb & _). by destruct src, dst. }
  assert (∃ v, Is4 src = true ∧ v = 4 ∨ Is6 src = true ∧ v = 6) as [v Hv] by (destruct src; eauto; done).
  rewrite (Check_syn f heap src dst port v) by done.
  destruct (synPacket_fields v src dst port) as (El & Ev & Ep & Es & Ed & Esyn).
  destruct (decide (BitLen src = BitLen dst)) as [Hb|Hb].
  - destruct (RunIn_admitted bart Hbart ms capTest local logIPs share heap0 Hwf Hl (synPacket v src dst port)
                heap c noLimits 0) as (r & h & e & Hr & Hv' & Hiff); [|done..|].
    { intros _. apply syn_packet_ok; [done..|].
      destruct Hv as [[Hs ->]|[Hs ->]]; [left|right]; by destruct src, dst. }
    fold f in Hr. rewrite Hr. exists r, h. cbn. split_and!; [done..|]. rewrite Hiff, syn_admitted. naive_solver.
  - destruct (RunIn_not_local f heap noLimits (synPacket v src dst port) 0) as (e & ->).
    + by rewrite El.
    + by rewrite Ep.
    + done.
    + rewrite Ev, Ed. intros ->. apply Hn4. destruct Hv as [[Hs _]|[_ ?]]; [|done]. by destruct src, dst.
    + rewrite Ev, Ed. intros ->. destruct Hv as [[_ ?]|[Hs _]]; [done|].
      destruct dst as [|d|d z]; [|by apply Hn6|by destruct src].
      rewrite E6. by apply zero_not_local.
    + eexists Drop, heap. split_and!; [done|by right|]. split; [done|]. by intros (? & _).
Qed.

(** 100.64.0.1 may connect to ports 22-80 of 100.64.0.2. *)
Definition tcpRules : list Match :=
  [mkMatch [TCP] [PrefixFrom (ip4 100 64 0 1) 32] emptySet []
     [mkNetPortRange (PrefixFrom (ip4 100 64 0 0) 24) (mkPortRange 22 80)] []].

Lemma CheckTCP_decides_policy_witness :
  ∃ r heap', CheckTCP (New exactTable tcpRules None (Some sampleLocal) None None []).1 [NewCache lruMax]
               (ip4 100 64 0 1) (ip4 100 64 0 2) 22 = Ok (r, heap') ∧ (r = Accept ∨ r = Drop) ∧
    (r = Accept ↔ BitLen (ip4 100 64 0 1) = BitLen (ip4 100 64 0 2) ∧ IsMulticast (ip4 100 64 0 2) = false ∧
       (IsLinkLocalUnicast (ip4 100 64 0 2) = true → ip4 100 64 0 2 = gcpDNSAddr) ∧
       (∃ p, p ∈ sampleLocal ∧ covers p (ip4 100 64 0 2)) ∧
       some_rule (tcp_rule None (ip4 100 64 0 1) (ip4 100 64 0 2) 22) tcpRules).
Proof.
  apply (CheckTCP_decides_policy exactTable tcpRules None sampleLocal None None [] [NewCache lruMax]
           (NewCache lruMax)).
  - done.
  - intros m ->%list_elem_of_singleton. split; by repeat constructor.
  - apply sample_wf.
  - reflexivity.
  - by apply NewCache_inv.
  - reflexivity.
  - reflexivity.
  - done.
Defined.

(** ** Capability grants *)

(** The grants of the rules, in order, that give [cap] on [dst] to [src]. *)
Definition is_grant (dst : Addr) (cap : PeerCapability) (cm : CapMatch) : Prop :=
  cm_Cap cm = cap ∧ cap ≠ "" ∧ Contains (cm_Dst cm) dst = true.
#[global] Instance is_grant_dec dst cap cm : Decision (is_grant dst cap cm).
Proof. unfold is_grant. apply _. Defined.

Definition rule_grants (src dst : Addr) (cap : PeerCapability) (m : Match) : list CapMatch :=
  if in_prefixes (m_Srcs m) src then filter (is_grant dst cap) (m_Caps m) else [].

Definition grants (ms : list Match) (src dst : Addr) (cap : PeerCapability) : list CapMatch :=
  ms ≫= rule_grants src dst cap.

(** The values of the grants added to those already found. *)
Definition granted (prev : option (list RawMessage)) (gs : list CapMatch) : option (list RawMessage) :=
  match gs with [] => prev | _ => Some (default [] prev ++ (gs ≫= cm_Values)) end.

Lemma granted_app prev gs1 gs2 : granted (granted prev gs1) gs2 = granted prev (gs1 ++ gs2).
Proof.
  destruct gs1 as [|g1 gs1]; [done|]. destruct gs2 as [|g2 gs2]; [by rewrite app_nil_r|].
  unfold granted. change ((g1 :: gs1) ++ g2 :: gs2) with (g1 :: gs1 ++ g2 :: gs2). f_equal.
  change (g1 :: gs1 ++ g2 :: gs2) with ((g1 :: gs1) ++ g2 :: gs2). rewrite bind_app.
  cbn [default from_option id]. by rewrite app_assoc.
Qed.

Lemma addCap_granted dst out cm cap :
  addCap dst out cm !! cap = granted (out !! cap) (filter (is_grant dst cap) [cm]).
Proof.
  unfold addCap. destruct (decide (is_grant dst cap cm)) as [Hg|Hg].
  - rewrite filter_cons_True, filter_nil by done. destruct Hg as (Hc & Hne & Hd). rewrite Hc, Hd.
    rewrite bool_decide_eq_false_2 by done. cbn [negb andb granted mbind list_bind]. rewrite app_nil_r.
    destruct (out !! cap); cbn [default]; by rewrite lookup_insert_eq.
  - rewrite filter_cons_False, filter_nil by done. cbn [granted].
    destruct (_ && _) eqn:E; [|done]. bool_prop.
    assert (cm_Cap cm ≠ cap) by (intros <-; by apply Hg).
    destruct (out !! cm_Cap cm); by rewrite lookup_insert_ne.
Qed.

Lemma addCaps_granted dst cap cms out :
  foldl (addCap dst) out cms !! cap = granted (out !! cap) (filter (is_grant dst cap) cms).
Proof.
  revert out. induction cms as [|cm cms IH]; intros out; [done|]. cbn [foldl].
  rewrite IH, addCap_granted, granted_app, <- filter_app. done.
Qed.

Section Grants.
Context (bart : list Prefix → Addr → bool).
Hypothesis bart_Contains : ∀ addrs ip, hasZone ip = false → bart addrs ip = in_prefixes addrs ip.
Context (src dst : Addr) (cap : PeerCapability) (keep : Addr → bool).
Hypothesis keep_family : ∀ a b, BitLen a = BitLen b → keep a = keep b.
Hypothesis Hsrc : keep src = true.
Hypothesis Hz : hasZone src = false.

Lemma in_prefixes_kept srcs :
  in_prefixes (filter (λ p, keep (p_Addr p) = true) srcs) src = in_prefixes srcs src.
Proof using keep_family Hsrc.
  unfold in_prefixes. induction srcs as [|p srcs IH]; [done|].
  destruct (decide (keep (p_Addr p) = true)) as [Hk|Hk].
  - rewrite filter_cons_True by done. cbn [existsb]. by rewrite IH.
  - rewrite filter_cons_False by done. cbn [existsb]. rewrite IH.
    destruct (Contains p src) eqn:E; [|done]. apply Contains_family in E as [E _].
    by rewrite (keep_family _ _ E) in Hk.
Qed.

Lemma capMatches_granted ms out :
  (∀ m, m ∈ ms → Forall Prefix_wf (m_Srcs m)) →
  foldl (λ out m, if negb (m_SrcsContains m src) then out else foldl (addCap dst) out (m_Caps m)) out
    (capMatchesFunc bart ms keep) !! cap
  = granted (out !! cap) (grants ms src dst cap).
Proof using All.
  revert out. induction ms as [|m ms IH]; intros out Hwf; [done|].
  assert (∀ m', m' ∈ ms → Forall Prefix_wf (m_Srcs m')) as Hwf' by (intros m' Hm; apply Hwf; by right).
  assert (Forall Prefix_wf (m_Srcs m)) as Hm by (apply Hwf; by left).
  unfold grants. cbn [capMatchesFunc mbind list_bind]. fold (grants ms src dst cap).
  change (list_bind _ _ (rule_grants src dst cap) ms) with (grants ms src dst cap).
  destruct (zlen (m_Caps m) =? 0) eqn:E0; bool_prop.
  { rewrite IH by done. unfold rule_grants.
    assert (m_Caps m = []) as -> by (apply nil_length_inv; unfold zlen in E0; lia).
    by destruct (in_prefixes _ _). }
  set (srcs := filter _ (m_Srcs m)). assert (in_prefixes srcs src = in_prefixes (m_Srcs m) src) as Es.
  { apply in_prefixes_kept. }
  unfold rule_grants. destruct (0 <? zlen srcs) eqn:E1; bool_prop.
  - cbn [foldl m_SrcsContains m_Caps].
    assert (Forall Prefix_wf srcs) as Hws.
    { rewrite Forall_forall in Hm |- *. intros p [_ Hp]%list_elem_of_filter. auto. }
    rewrite (NewContainsIPFunc_in_prefixes bart bart_Contains) by done. rewrite Es, IH by done.
    destruct (in_prefixes (m_Srcs m) src); cbn [negb]; [|reflexivity]. by rewrite addCaps_granted, granted_app.
  - rewrite IH by done. rewrite <- Es. assert (srcs = []) as ->; [|done].
    apply nil_length_inv. unfold zlen in E1. lia.
Qed.
End Grants.

(** The capabilities [CapsWithValues] returns for a source and destination
    are those of the grants the rules make: a capability is present exactly
    when some rule whose sources contain the source grants it on a prefix
    containing the destination, and its values are those of all such grants,
    in the order of the rules and of the grants within a rule. *)
Theorem CapsWithValues_are_the_grants bart ms capTest local logIPs share heap src dst cap :
  (∀ addrs ip, hasZone ip = false → bart addrs ip = in_prefixes addrs ip) →
  rules_wf ms → hasZone src = false →
  CapsWithValues (New bart ms capTest local logIPs share heap).1 src dst !! cap =
  match grants ms src dst cap with [] => None | gs => Some (gs ≫= cm_Values) end.
Proof.
  intros Hbart Hwf Hz. set (f := (New _ _ _ _ _ _ _).1).
  assert (f_cap4 f = capMatchesFunc bart ms Is4 ∧ f_cap6 f = capMatchesFunc bart ms Is6) as [E4 E6].
  { unfold f, New. by destruct share, (splitSet bart local), (splitSet bart logIPs). }
  assert (∀ m, m ∈ ms → Forall Prefix_wf (m_Srcs m)) as Hsrcs by (intros m Hm; by apply Hwf).
  assert (granted None (grants ms src dst cap) =
          match grants ms src dst cap with [] => None | gs => Some (gs ≫= cm_Values) end) as <- by
    (by destruct (grants ms src dst cap)).
  unfold CapsWithValues. rewrite E4, E6. rewrite <- (lookup_empty (M:=gmap PeerCapability) cap).
  destruct src as [|v|v z]; cbn [Is4 Is6].
  - assert (grants ms AddrZero dst cap = []) as ->; [|done].
    unfold grants. clear. induction ms as [|m ms IH]; [done|]. cbn [mbind list_bind].
    change (list_bind _ _ ?g ms) with (ms ≫= g). rewrite IH, app_nil_r. unfold rule_grants.
    assert (in_prefixes (m_Srcs m) AddrZero = false) as ->; [|done].
    apply not_true_iff_false. unfold in_prefixes. rewrite existsb_exists.
    intros (p & _ & Hc). by apply Contains_family in Hc as [_ ?].
  - apply capMatches_granted; auto using BitLen_Is4.
  - apply capMatches_granted; auto using BitLen_Is6.
Qed.

(** Two rules grant one capability to 100.64.0.1. *)
Definition capRules : list Match :=
  [mkMatch [] [PrefixFrom (ip4 100 64 0 1) 32] emptySet [] []
     [mkCapMatch (PrefixFrom (ip4 100 64 0 2) 32) "cap/ssh" ["a"]];
   mkMatch [] [PrefixFrom (ip4 100 64 0 0) 24] emptySet [] []
     [mkCapMatch (PrefixFrom (ip4 100 64 0 0) 24) "cap/ssh" ["b"; "c"];
      mkCapMatch (PrefixFrom (ip4 100 64 9 0) 24) "cap/ssh" ["d"]]].

Lemma CapsWithValues_are_the_grants_witness :
  CapsWithValues (New exactTable capRules None None None None []).1 (ip4 100 64 0 1) (ip4 100 64 0 2) !! "cap/ssh"
  = Some ["a"; "b"; "c"].
Proof.
  rewrite (CapsWithValues_are_the_grants exactTable capRules None None None None []).
  - reflexivity.
  - done.
  - intros m Hm. repeat (apply elem_of_cons in Hm as [->|Hm]; [split; by repeat constructor|]).
    by apply not_elem_of_nil in Hm.
  - reflexivity.
Defined.
