(* ===== verification/Shaper.v ===== *)
(** * net/tstun: the traffic shaper

    [traffic_shaper.go]: the aggregate bandwidth limits of the TUN device.  Any
    number of packet goroutines wait on a pacer ([waitBytes]) while limits are
    replaced or the device is closed.  The goroutines are interleaved at their
    atomic operations; [Configure] and [close] run under a mutex, so at most one
    of them is under way, and what it has still to do is a list of atomic
    actions.  A limiter is a heap object: a goroutine keeps waiting on the one it
    loaded after the pacer has been given another.
    [golang.org/x/time/rate] is third-party: what [Limiter.WaitN] may return is
    the parameter [WaitN]. *)
From S2P Require Import Prelude.

Definition minTrafficShaperBurstBytes : Z := 4 * 2 ^ 10.
Definition maxTrafficShaperBurstBytes : Z := 256 * 2 ^ 10.

Record TrafficShaperConfig := mkConfig { UploadBitsPerSecond : Z; DownloadBitsPerSecond : Z }.
#[global] Instance TrafficShaperConfig_eq_dec : EqDecision TrafficShaperConfig.
Proof. solve_decision. Defined.

(** ** Pacers *)

(** [trafficPacerState]: a limiter with its context, which is canceled or not. *)
Record trafficPacerState := mkPacerState { ps_rate : Z; ps_burst : Z; ps_canceled : bool }.

(** [trafficPacer]: the limiter in force, and every limiter made so far. *)
Record trafficPacer := mkPacer { p_closed : bool; p_state : option nat; p_objs : list trafficPacerState }.

Definition trafficShaperBurst (bytesPerSecond : Z) : Z :=
  let burst := bytesPerSecond / 20 in
  let burst := Z.max burst minTrafficShaperBurstBytes in
  Z.min burst maxTrafficShaperBurstBytes.

(** The limiter [configure] makes; a zero rate means none. *)
Definition newState (bitsPerSecond : Z) : option trafficPacerState :=
  if 0 <? bitsPerSecond then
    let bytesPerSecond := Z.max 1 (bitsPerSecond / 8) in
    Some (mkPacerState bytesPerSecond (trafficShaperBurst bytesPerSecond) false)
  else None.

(** [p.state.Swap(next)]: the pacer, and the limiter that was in force. *)
Definition swapState (next : option trafficPacerState) (p : trafficPacer) : trafficPacer * option nat :=
  match next with
  | Some st => (mkPacer (p_closed p) (Some (length (p_objs p))) (p_objs p ++ [st]), p_state p)
  | None => (mkPacer (p_closed p) None (p_objs p), p_state p)
  end.

Definition cancel (id : nat) (p : trafficPacer) : trafficPacer :=
  mkPacer (p_closed p) (p_state p)
    (alter (λ st, mkPacerState (ps_rate st) (ps_burst st) true) id (p_objs p)).

Definition cancelOld (old : option nat) (p : trafficPacer) : trafficPacer :=
  match old with Some id => cancel id p | None => p end.

Definition configure (bitsPerSecond : Z) (p : trafficPacer) : trafficPacer :=
  if p_closed p then p
  else let '(p, old) := swapState (newState bitsPerSecond) p in cancelOld old p.

Definition setClosed (p : trafficPacer) : trafficPacer := mkPacer true (p_state p) (p_objs p).

Definition pacer_close (p : trafficPacer) : trafficPacer :=
  if p_closed p then p
  else let '(p, old) := swapState None (setClosed p) in cancelOld old p.

(** ** Waiting *)
Inductive wait_result := Granted | Canceled | Failed.
Inductive wait_error := ErrClosed | LimiterErr.

(** Where a goroutine is in [waitUpload] or [waitDownload]: at the head of the
    loop of [waitBytes], before loading the limiter, in [WaitN] for a chunk,
    before adding to the two counters, or returned. *)
Inductive wait_pc :=
  | WLoop | WLoad | WWait (id : nat) (chunk : Z) | WBytes | WNanos | WDone (err : option wait_error).

(** The chunks it was granted, and whether it found no limit in force, are
    recorded beside the variables of the code. *)
Record Waiter := mkWaiter {
  w_count : Z;
  w_remaining : Z;
  w_paced : bool;
  w_pc : wait_pc;
  w_granted : list Z;
  w_unlimited : bool
}.

Definition newWaiter (byteCount : Z) : Waiter := mkWaiter byteCount byteCount false WLoop [] false.

Definition goto (pc : wait_pc) (w : Waiter) : Waiter :=
  mkWaiter (w_count w) (w_remaining w) (w_paced w) pc (w_granted w) (w_unlimited w).

(** [return paced, nil]: the caller updates the counters if the bytes were paced. *)
Definition waitReturn (w : Waiter) : Waiter := goto (if w_paced w then WBytes else WDone None) w.

(** One atomic step of a goroutine; [r] is what [WaitN] returns, if it is in it. *)
Definition waiter_step (p : trafficPacer) (r : wait_result) (w : Waiter) : option Waiter :=
  match w_pc w with
  | WLoop =>
      if negb (0 <? w_remaining w) then Some (waitReturn w)
      else if p_closed p then Some (goto (WDone (Some ErrClosed)) w)
      else Some (goto WLoad w)
  | WLoad =>
      match p_state p with
      | None =>
          Some (waitReturn (mkWaiter (w_count w) (w_remaining w) (w_paced w) WLoad (w_granted w) true))
      | Some id =>
          match p_objs p !! id with
          | Some st =>
              let chunk := Z.min (w_remaining w) (ps_burst st) in
              Some (mkWaiter (w_count w) (w_remaining w) true (WWait id chunk) (w_granted w) (w_unlimited w))
          | None => None
          end
      end
  | WWait id chunk =>
      match r with
      | Granted =>
          Some (mkWaiter (w_count w) (w_remaining w - chunk) (w_paced w) WLoop (w_granted w ++ [chunk])
                  (w_unlimited w))
      | Canceled => Some (goto WLoop w)
      | Failed => Some (goto (WDone (Some LimiterErr)) w)
      end
  | WBytes => Some (goto WNanos w)
  | WNanos => Some (goto (WDone None) w)
  | WDone _ => None
  end.

(** ** The shaper *)
Inductive Dir := Upload | Download.

(** One direction: its pacer, its two counters and its goroutines. *)
Record Side := mkSide { sd_pacer : trafficPacer; sd_bytes : Z; sd_nanos : Z; sd_waiters : list Waiter }.

(** The atomic operations of [Configure] and [close]. *)
Inductive action :=
  | AResetBytes (d : Dir)
  | AResetNanos (d : Dir)
  | AConfigure (d : Dir) (bits : Z)
  | AClose (d : Dir)
  | AClear (d : Dir)
  | ACancel (d : Dir) (id : nat).

Record TrafficShaper := mkShaper {
  s_config : TrafficShaperConfig;
  s_updatedAt : Z;
  s_closed : bool;
  s_upload : Side;
  s_download : Side;
  s_pending : list action
}.

Record TrafficShaperStatus := mkStatus {
  st_Config : TrafficShaperConfig;
  st_Active : bool;
  st_UpdatedAt : Z;
  st_UploadBytes : Z;
  st_DownloadBytes : Z;
  st_UploadWaitNanos : Z;
  st_DownloadWaitNanos : Z
}.

Definition side (d : Dir) (s : TrafficShaper) : Side :=
  match d with Upload => s_upload s | Download => s_download s end.
Definition set_side (d : Dir) (x : Side) (s : TrafficShaper) : TrafficShaper :=
  match d with
  | Upload => mkShaper (s_config s) (s_updatedAt s) (s_closed s) x (s_download s) (s_pending s)
  | Download => mkShaper (s_config s) (s_updatedAt s) (s_closed s) (s_upload s) x (s_pending s)
  end.
Definition set_pending (l : list action) (s : TrafficShaper) : TrafficShaper :=
  mkShaper (s_config s) (s_updatedAt s) (s_closed s) (s_upload s) (s_download s) l.

Definition bits_of (d : Dir) (c : TrafficShaperConfig) : Z :=
  match d with Upload => UploadBitsPerSecond c | Download => DownloadBitsPerSecond c end.

Definition set_pacer (p : trafficPacer) (x : Side) : Side := mkSide p (sd_bytes x) (sd_nanos x) (sd_waiters x).

Definition cancelLater (d : Dir) (old : option nat) : list action :=
  match old with Some id => [ACancel d id] | None => [] end.

Definition action_dir (a : action) : Dir :=
  match a with
  | AResetBytes d | AResetNanos d | AConfigure d _ | AClose d | AClear d | ACancel d _ => d
  end.

(** What an action does to its direction, and what it leaves to be done next. *)
Definition act (a : action) (x : Side) : Side * list action :=
  let p := sd_pacer x in
  match a with
  | AResetBytes d => (mkSide p 0 (sd_nanos x) (sd_waiters x), [])
  | AResetNanos d => (mkSide p (sd_bytes x) 0 (sd_waiters x), [])
  | AConfigure d bits =>
      if p_closed p then (x, [])
      else let '(p, old) := swapState (newState bits) p in (set_pacer p x, cancelLater d old)
  | AClose d => if p_closed p then (x, []) else (set_pacer (setClosed p) x, [AClear d])
  | AClear d => let '(p, old) := swapState None p in (set_pacer p x, cancelLater d old)
  | ACancel d id => (set_pacer (cancel id p) x, [])
  end.

Definition resets : list action :=
  [AResetBytes Upload; AResetBytes Download; AResetNanos Upload; AResetNanos Download].

Definition beginConfigure (config : TrafficShaperConfig) (now : Z) (s : TrafficShaper) : TrafficShaper :=
  mkShaper config now (s_closed s) (s_upload s) (s_download s)
    (resets ++ [AConfigure Upload (UploadBitsPerSecond config); AConfigure Download (DownloadBitsPerSecond config)]).

Definition beginClose (now : Z) (s : TrafficShaper) : TrafficShaper :=
  mkShaper (mkConfig 0 0) now true (s_upload s) (s_download s) (resets ++ [AClose Upload; AClose Download]).

(** The counters the goroutine updates in this step. *)
Definition count (w : Waiter) (elapsed : Z) (x : Side) : Side :=
  match w_pc w with
  | WBytes => mkSide (sd_pacer x) (u64 (sd_bytes x + u64 (Z.max 0 (w_count w)))) (sd_nanos x) (sd_waiters x)
  | WNanos => mkSide (sd_pacer x) (sd_bytes x) (u64 (sd_nanos x + u64 elapsed)) (sd_waiters x)
  | _ => x
  end.

Definition set_waiter (i : nat) (w : Waiter) (x : Side) : Side :=
  mkSide (sd_pacer x) (sd_bytes x) (sd_nanos x) (<[i := w]> (sd_waiters x)).

(** ** Whole calls *)
Definition statusLocked (s : TrafficShaper) : TrafficShaperStatus :=
  mkStatus (s_config s) ((0 <? UploadBitsPerSecond (s_config s)) || (0 <? DownloadBitsPerSecond (s_config s)))
    (s_updatedAt s) (sd_bytes (s_upload s)) (sd_bytes (s_download s))
    (sd_nanos (s_upload s)) (sd_nanos (s_download s)).

Definition resetSide (f : trafficPacer → trafficPacer) (x : Side) : Side :=
  mkSide (f (sd_pacer x)) 0 0 (sd_waiters x).

(** [Configure] when nothing runs beside it. *)
Definition Configure (config : TrafficShaperConfig) (now : Z) (s : TrafficShaper)
    : TrafficShaper * TrafficShaperStatus :=
  if s_closed s then (s, statusLocked s)
  else if bool_decide (s_config s = config) then (s, statusLocked s)
  else
    let s := mkShaper config now false
               (resetSide (configure (UploadBitsPerSecond config)) (s_upload s))
               (resetSide (configure (DownloadBitsPerSecond config)) (s_download s)) (s_pending s) in
    (s, statusLocked s).

Definition shaper_close (now : Z) (s : TrafficShaper) : TrafficShaper :=
  if s_closed s then s
  else mkShaper (mkConfig 0 0) now true (resetSide pacer_close (s_upload s))
         (resetSide pacer_close (s_download s)) (s_pending s).

Definition SetTrafficShaper := Configure.
Definition ClearTrafficShaper : Z → TrafficShaper → TrafficShaper * TrafficShaperStatus := Configure (mkConfig 0 0).

Definition newPacer : trafficPacer := mkPacer false None [].
Definition newSide : Side := mkSide newPacer 0 0 [].
Definition newShaper : TrafficShaper := mkShaper (mkConfig 0 0) 0 false newSide newSide [].

(** ** Interleaved runs *)
Section Runs.
(** [Limiter.WaitN(ctx, n)] may return this for a limiter in this state. *)
Context (WaitN : trafficPacerState → Z → wait_result → Prop).

(** What [WaitN] may return to the goroutine, if it is in it. *)
Definition may_return (p : trafficPacer) (w : Waiter) (r : wait_result) : Prop :=
  match w_pc w with
  | WWait id chunk => ∃ st, p_objs p !! id = Some st ∧ WaitN st chunk r
  | _ => True
  end.

Inductive step : TrafficShaper → TrafficShaper → Prop :=
  | step_configure s config now :
      s_pending s = [] → s_closed s = false → s_config s ≠ config → step s (beginConfigure config now s)
  | step_close s now :
      s_pending s = [] → s_closed s = false → step s (beginClose now s)
  | step_act s a l x l' :
      s_pending s = a :: l → act a (side (action_dir a) s) = (x, l') →
      step s (set_side (action_dir a) x (set_pending (l' ++ l) s))
  | step_spawn s d byteCount :
      let x := side d s in
      step s (set_side d (mkSide (sd_pacer x) (sd_bytes x) (sd_nanos x) (sd_waiters x ++ [newWaiter byteCount])) s)
  | step_wait s d i w w' r elapsed :
      let x := side d s in
      sd_waiters x !! i = Some w → may_return (sd_pacer x) w r → waiter_step (sd_pacer x) r w = Some w' →
      step s (set_side d (set_waiter i w' (count w elapsed x)) s).

(** ** The pacer, when everything begun is done *)
Definition exec (a : action) (p : trafficPacer) : trafficPacer :=
  match a with
  | AResetBytes _ | AResetNanos _ => p
  | AConfigure _ bits => configure bits p
  | AClose _ => pacer_close p
  | AClear _ => let '(p, old) := swapState None p in cancelOld old p
  | ACancel _ id => cancel id p
  end.

Definition dir_eqb (d d' : Dir) : bool :=
  match d, d' with Upload, Upload | Download, Download => true | _, _ => false end.

Definition settle (d : Dir) (l : list action) (p : trafficPacer) : trafficPacer :=
  foldl (λ p a, if dir_eqb (action_dir a) d then exec a p else p) p l.

Lemma dir_eqb_eq d d' : dir_eqb d d' = true ↔ d = d'.
Proof. by destruct d, d'. Qed.

Lemma act_dir a x x' l' b : act a x = (x', l') → b ∈ l' → action_dir b = action_dir a.
Proof.
  assert (∀ d old c, c ∈ cancelLater d old → action_dir c = d) as Hc.
  { intros d [id|] c; cbn; [by intros ->%list_elem_of_singleton|by intros ?%not_elem_of_nil]. }
  destruct a as [d|d|d bits|d|d|d id]; cbn.
  - intros [= <- <-] ?%not_elem_of_nil. done.
  - intros [= <- <-] ?%not_elem_of_nil. done.
  - destruct (p_closed _); [by intros [= <- <-] ?%not_elem_of_nil|].
    destruct (swapState _ _). intros [= <- <-]. apply Hc.
  - destruct (p_closed _); [by intros [= <- <-] ?%not_elem_of_nil|].
    by intros [= <- <-] ->%list_elem_of_singleton.
  - intros [= <- <-]. apply Hc.
  - intros [= <- <-] ?%not_elem_of_nil. done.
Qed.

Lemma act_settle a l x x' l' :
  act a x = (x', l') →
  settle (action_dir a) (l' ++ l) (sd_pacer x') = settle (action_dir a) (a :: l) (sd_pacer x).
Proof.
  assert (∀ d, dir_eqb d d = true) as Hd by by intros [].
  destruct a as [d|d|d bits|d|d|d id]; cbn [act action_dir].
  - intros [= <- <-]. unfold settle. cbn. by rewrite Hd.
  - intros [= <- <-]. unfold settle. cbn. by rewrite Hd.
  - unfold settle. cbn. rewrite Hd. unfold configure. destruct (p_closed _) eqn:E.
    + intros [= <- <-]. done.
    + destruct (swapState _ _) as [p old]. intros [= <- <-]. destruct old as [id|]; cbn; [by rewrite Hd|done].
  - unfold settle. cbn. rewrite Hd. unfold pacer_close. destruct (p_closed _) eqn:E.
    + intros [= <- <-]. done.
    + intros [= <- <-]. cbn. by rewrite Hd.
  - unfold settle. cbn. rewrite Hd. intros [= <- <-]. destruct (p_state _) as [id|]; cbn; [by rewrite Hd|done].
  - unfold settle. cbn. rewrite Hd. intros [= <- <-]. done.
Qed.

Lemma settle_other d l l' p :
  (∀ b, b ∈ l' → action_dir b ≠ d) → settle d (l' ++ l) p = settle d l p.
Proof.
  unfold settle. induction l' as [|b l' IH]; intros Hb; [done|]. cbn [app foldl].
  assert (dir_eqb (action_dir b) d = false) as ->.
  { apply not_true_iff_false. rewrite dir_eqb_eq. apply Hb. by left. }
  apply IH. intros c Hc. apply Hb. by right.
Qed.

(** ** What the pacer enforces *)
Definition ps_ok (st : trafficPacerState) : Prop :=
  1 <= ps_rate st ∧ minTrafficShaperBurstBytes <= ps_burst st <= maxTrafficShaperBurstBytes.

Lemma trafficShaperBurst_bounds r :
  minTrafficShaperBurstBytes <= trafficShaperBurst r <= maxTrafficShaperBurstBytes.
Proof. unfold trafficShaperBurst, minTrafficShaperBurstBytes, maxTrafficShaperBurstBytes. lia. Qed.

Lemma newState_ok bits st : newState bits = Some st → ps_ok st ∧ ps_canceled st = false.
Proof.
  unfold newState. destruct (_ <? _); [|done]. intros [= <-]. split; [|done].
  split; cbn [ps_rate ps_burst]; [lia|apply trafficShaperBurst_bounds].
Qed.

(** The limiter in force is the configured one, or none; every other one is
    canceled. *)
Definition enforces (bits : Z) (closed : bool) (p : trafficPacer) : Prop :=
  p_closed p = closed ∧
  match (if closed then None else newState bits) with
  | None => p_state p = None
  | Some st => ∃ id, p_state p = Some id ∧ p_objs p !! id = Some st
  end ∧
  ∀ i st, p_objs p !! i = Some st → p_state p ≠ Some i → ps_canceled st = true.

Lemma cancel_lookup id p i st' :
  p_objs (cancel id p) !! i = Some st' →
  ∃ st, p_objs p !! i = Some st ∧ ps_rate st' = ps_rate st ∧ ps_burst st' = ps_burst st ∧
    ps_canceled st' = (if decide (i = id) then true else ps_canceled st).
Proof.
  cbn [cancel p_objs]. rewrite list_lookup_alter. destruct (decide (id = i)) as [->|Hne].
  - rewrite fmap_Some. intros (st & Hst & ->). exists st. by rewrite decide_True.
  - intros Hst. exists st'. by rewrite decide_False.
Qed.

Lemma cancelOld_others (old : option nat) (p : trafficPacer) :
  (∀ i st, p_objs p !! i = Some st → p_state p ≠ Some i → Some i ≠ old → ps_canceled st = true) →
  ∀ i st, p_objs (cancelOld old p) !! i = Some st → p_state p ≠ Some i → ps_canceled st = true.
Proof.
  intros Hc i st Hi Hs. destruct old as [id|]; cbn [cancelOld] in Hi; [|by eapply Hc].
  apply cancel_lookup in Hi as (st0 & Hi & _ & _ & ->). case_decide; [done|].
  eapply Hc; [done..|congruence].
Qed.

Lemma configure_enforces bits0 bits p :
  enforces bits0 false p → (∀ id, p_state p = Some id → (id < length (p_objs p))%nat) →
  enforces bits false (configure bits p).
Proof.
  intros (Hcl & _ & Hcan) Hid. unfold configure. rewrite Hcl.
  destruct (newState bits) as [st|] eqn:En; cbn [swapState].
  - set (p1 := mkPacer _ _ _). split_and!.
    + by destruct (p_state p).
    + rewrite En. exists (length (p_objs p)). split; [by destruct (p_state p)|].
      destruct (p_state p) as [id|] eqn:Es; cbn [cancelOld cancel p_objs p1].
      * rewrite list_lookup_alter_ne by (specialize (Hid id eq_refl); lia). by rewrite list_lookup_middle.
      * by rewrite list_lookup_middle.
    + assert (p_state (cancelOld (p_state p) p1) = p_state p1) as -> by by destruct (p_state p).
      apply cancelOld_others. intros i st' Hi Hne Hold. subst p1. cbn [p_objs p_state] in *.
      apply (Hcan i); [|congruence]. apply lookup_app_Some in Hi as [Hi|[Hi Hlen]]; [done|].
      exfalso. apply Hne. apply list_lookup_singleton_Some in Hlen as [? _]. f_equal. lia.
  - set (p1 := mkPacer _ _ _). split_and!.
    + by destruct (p_state p).
    + rewrite En. by destruct (p_state p).
    + assert (p_state (cancelOld (p_state p) p1) = p_state p1) as -> by by destruct (p_state p).
      apply cancelOld_others. intros i st' Hi _ Hold. apply (Hcan i); [done|congruence].
Qed.

Lemma close_enforces bits0 bits p : enforces bits0 false p → enforces bits true (pacer_close p).
Proof.
  intros (Hcl & _ & Hcan). unfold pacer_close. rewrite Hcl. cbn [swapState setClosed p_closed p_state p_objs].
  set (p1 := mkPacer _ _ _). split_and!.
  - by destruct (p_state p).
  - by destruct (p_state p).
  - assert (p_state (cancelOld (p_state p) p1) = p_state p1) as -> by by destruct (p_state p).
    apply cancelOld_others. intros i st' Hi _ Hold. apply (Hcan i); [done|congruence].
Qed.

(** ** What is true of the pacer at every moment *)
Definition pacer_wf (p : trafficPacer) : Prop :=
  Forall ps_ok (p_objs p) ∧ ∀ id, p_state p = Some id → (id < length (p_objs p))%nat.

(** Limiters are never removed and keep their burst. *)
Definition keeps_limiters (p p' : trafficPacer) : Prop :=
  ∀ i st, p_objs p !! i = Some st → ∃ st', p_objs p' !! i = Some st' ∧ ps_burst st' = ps_burst st.

Lemma swap_wf bits p : pacer_wf p → pacer_wf (swapState (newState bits) p).1 ∧ keeps_limiters p (swapState (newState bits) p).1.
Proof.
  intros [Ho Hs]. unfold pacer_wf, keeps_limiters. destruct (newState bits) as [st|] eqn:E; cbn.
  - apply newState_ok in E as [Hst _]. split_and!.
    + apply Forall_app_2; [done|by constructor].
    + intros id [= <-]. rewrite length_app. cbn. lia.
    + intros i st' Hi. exists st'. split; [by apply lookup_app_l_Some|done].
  - split_and!; [done|done|eauto].
Qed.

Lemma cancel_wf id p : pacer_wf p → pacer_wf (cancel id p) ∧ keeps_limiters p (cancel id p).
Proof.
  intros [Ho Hs]. split; [split|].
  - cbn [cancel p_objs]. apply Forall_alter; [done|]. intros st Hst [? ?]. done.
  - cbn. intros i Hi. rewrite length_alter. auto.
  - intros i st Hi. cbn [cancel p_objs]. rewrite list_lookup_alter.
    destruct (decide (id = i)) as [->|]; [rewrite Hi; cbn; eauto|eauto].
Qed.

Lemma keeps_refl p : keeps_limiters p p.
Proof. intros i st Hi. eauto. Qed.

Lemma act_wf a x x' l' :
  act a x = (x', l') → pacer_wf (sd_pacer x) →
  pacer_wf (sd_pacer x') ∧ keeps_limiters (sd_pacer x) (sd_pacer x') ∧ sd_waiters x' = sd_waiters x.
Proof.
  intros Ha Hw. pose proof (keeps_refl (sd_pacer x)) as Hk. destruct a as [d|d|d bits|d|d|d id]; cbn in Ha.
  - by injection Ha as <- <-.
  - by injection Ha as <- <-.
  - destruct (p_closed _); [by injection Ha as <- <-|].
    destruct (swap_wf bits (sd_pacer x) Hw). destruct (swapState _ _). by injection Ha as <- <-.
  - destruct (p_closed _); by injection Ha as <- <-.
  - injection Ha as <- <-. cbn. destruct (swap_wf 0 (sd_pacer x) Hw). done.
  - injection Ha as <- <-. cbn [set_pacer sd_pacer sd_waiters]. destruct (cancel_wf id (sd_pacer x) Hw). done.
Qed.

(** ** The goroutines *)
Definition sumZ (l : list Z) : Z := foldr Z.add 0 l.

Lemma sumZ_app l l' : sumZ (l ++ l') = sumZ l + sumZ l'.
Proof. unfold sumZ. induction l as [|x l IH]; cbn; [done|]. rewrite IH. lia. Qed.

Definition waiter_ok (p : trafficPacer) (w : Waiter) : Prop :=
  w_remaining w + sumZ (w_granted w) = w_count w ∧
  Forall (λ c, 0 < c <= maxTrafficShaperBurstBytes) (w_granted w) ∧
  (w_granted w ≠ [] → 0 <= w_remaining w) ∧
  match w_pc w with
  | WLoop => True
  | WLoad => 0 < w_remaining w
  | WWait id chunk =>
      ∃ st, p_objs p !! id = Some st ∧ 0 < w_remaining w ∧ 0 < chunk ∧ chunk = Z.min (w_remaining w) (ps_burst st)
        ∧ chunk <= maxTrafficShaperBurstBytes
  | WBytes | WNanos | WDone None => w_remaining w <= 0 ∨ w_unlimited w = true
  | WDone (Some ErrClosed) => True
  | WDone (Some LimiterErr) => False
  end.

Lemma waiter_ok_keeps p p' w : keeps_limiters p p' → waiter_ok p w → waiter_ok p' w.
Proof.
  intros Hk (Hs & Hg & Hr & Hpc). split_and!; try done. destruct (w_pc w); try done.
  destruct Hpc as (st & Hst & ? & ? & -> & ?). destruct (Hk _ _ Hst) as (st' & Hst' & E).
  exists st'. by rewrite E.
Qed.

(** [WaitN] fails only on a request larger than the burst, and reports a
    canceled context only when it is; a wait on a canceled context returns. *)
Hypothesis WaitN_failed : ∀ st n, WaitN st n Failed → ps_burst st < n.
Hypothesis WaitN_canceled : ∀ st n, WaitN st n Canceled → ps_canceled st = true.
Hypothesis WaitN_returns : ∀ st n, ps_canceled st = true → ∃ r, WaitN st n r.

Lemma waiter_step_ok p r w w' :
  pacer_wf p → waiter_ok p w → may_return p w r → waiter_step p r w = Some w' → waiter_ok p w'.
Proof using WaitN_failed.
  intros [Ho Hst] (Hs & Hg & Hr & Hpc) Hm. unfold waiter_step, may_return in *.
  destruct (w_pc w) as [| |id chunk| | |err] eqn:Epc; try done.
  - destruct (0 <? w_remaining w) eqn:E; cbn [negb].
    + destruct (p_closed p); intros [= <-]; bool_prop; split_and!; try done.
    + intros [= <-]. bool_prop. unfold waitReturn. split_and!; try done. cbn. destruct (w_paced w); cbn; auto.
  - destruct (p_state p) as [id|] eqn:Es.
    + destruct (p_objs p !! id) as [st|] eqn:E; [|done]. intros [= <-]. split_and!; try done. cbn.
      assert (ps_ok st) as [_ Hb] by (by eapply (Forall_lookup_1 ps_ok)).
      unfold minTrafficShaperBurstBytes in Hb. exists st. split_and!; try done; lia.
    + intros [= <-]. unfold waitReturn. cbn. split_and!; try done. cbn. destruct (w_paced w); cbn; auto.
  - destruct Hm as (st' & Hst' & HW). destruct Hpc as (st & Hst0 & Hrem & Hch & Ech & Hmax). simplify_eq.
    destruct r; intros [= <-]; cbn.
    + split_and!; cbn; try done.
      * rewrite sumZ_app. cbn. lia.
      * apply Forall_app_2; [done|]. constructor; [lia|constructor].
      * intros _. lia.
    + split_and!; try done.
    + apply WaitN_failed in HW. lia.
  - intros [= <-]. split_and!; try done.
  - intros [= <-]. split_and!; try done.
Qed.

(** ** The invariant *)
Definition side_inv (config : TrafficShaperConfig) (closed : bool) (pending : list action) (d : Dir) (x : Side) : Prop :=
  pacer_wf (sd_pacer x) ∧ enforces (bits_of d config) closed (settle d pending (sd_pacer x)) ∧
  pacer_wf (settle d pending (sd_pacer x)) ∧ Forall (waiter_ok (sd_pacer x)) (sd_waiters x).

Definition shaper_inv (s : TrafficShaper) : Prop :=
  ∀ d, side_inv (s_config s) (s_closed s) (s_pending s) d (side d s).

Lemma swap_cancel_wf next p :
  (next = None ∨ ∃ bits, next = newState bits) → pacer_wf p →
  pacer_wf (let '(p, old) := swapState next p in cancelOld old p).
Proof using.
  intros Hn Hw. assert (∃ bits, next = newState bits) as [bits ->] by (destruct Hn as [->|]; [by exists 0|done]).
  destruct (swap_wf bits p Hw) as [Hw' _]. destruct (swapState _ _) as [p' [id|]]; [|done]. by apply cancel_wf.
Qed.

Lemma configure_wf bits p : pacer_wf p → pacer_wf (configure bits p).
Proof using. intros Hw. unfold configure. destruct (p_closed p); [done|]. apply swap_cancel_wf; eauto. Qed.

Lemma pacer_close_wf p : pacer_wf p → pacer_wf (pacer_close p).
Proof using.
  intros Hw. unfold pacer_close. destruct (p_closed p); [done|]. apply swap_cancel_wf; [by left|done].
Qed.

Lemma side_set_side d d' x s : side d (set_side d' x s) = if dir_eqb d d' then x else side d s.
Proof using. by destruct d, d'. Qed.

Lemma set_side_fields d x s :
  s_config (set_side d x s) = s_config s ∧ s_closed (set_side d x s) = s_closed s ∧
  s_pending (set_side d x s) = s_pending s.
Proof using. by destruct d. Qed.

(** A step that leaves the controller alone, and the pacer of the direction. *)
Lemma shaper_inv_waiters s d x :
  shaper_inv s → sd_pacer x = sd_pacer (side d s) → Forall (waiter_ok (sd_pacer x)) (sd_waiters x) →
  shaper_inv (set_side d x s).
Proof using.
  intros Hi Hp Hw d'. destruct (set_side_fields d x s) as (-> & -> & ->). rewrite side_set_side.
  destruct (dir_eqb d' d) eqn:E; [|apply Hi]. apply dir_eqb_eq in E as ->.
  destruct (Hi d) as (H1 & H2 & H3 & _). unfold side_inv. rewrite Hp in *. done.
Qed.

Lemma settle_resets d l p : settle d (resets ++ l) p = settle d l p.
Proof using. by destruct d. Qed.

Lemma step_inv s s' : step s s' → shaper_inv s → shaper_inv s'.
Proof using WaitN_failed.
  intros Hstep Hi. destruct Hstep as [s config now Hp Hc Hne|s now Hp Hc|s a l x l' Hp Ha|s d n x|s d i w w' r el x Hw Hm Hs].
  - intros d. destruct (Hi d) as (H1 & H2 & H3 & H4). rewrite Hp, Hc in *. cbn in H2, H3.
    unfold beginConfigure. cbn [s_config s_closed s_pending]. rewrite Hc.
    change (side d _) with (side d s). unfold side_inv. rewrite settle_resets.
    assert (settle d [AConfigure Upload (UploadBitsPerSecond config); AConfigure Download (DownloadBitsPerSecond config)]
              (sd_pacer (side d s)) = configure (bits_of d config) (sd_pacer (side d s))) as -> by by destruct d.
    split_and!; [done| |by apply configure_wf|done]. eapply configure_enforces; [done|apply H1].
  - intros d. destruct (Hi d) as (H1 & H2 & H3 & H4). rewrite Hp, Hc in *. cbn in H2, H3.
    unfold beginClose. cbn [s_config s_closed s_pending]. change (side d _) with (side d s).
    unfold side_inv. rewrite settle_resets.
    assert (settle d [AClose Upload; AClose Download] (sd_pacer (side d s)) = pacer_close (sd_pacer (side d s)))
      as -> by by destruct d.
    split_and!; [done| |by apply pacer_close_wf|done]. by eapply close_enforces.
  - intros d. destruct (Hi d) as (H1 & H2 & H3 & H4).
    destruct (set_side_fields (action_dir a) x (set_pending (l' ++ l) s)) as (-> & -> & ->).
    cbn [set_pending s_config s_closed s_pending]. rewrite side_set_side. rewrite Hp in H2, H3.
    destruct (dir_eqb d (action_dir a)) eqn:E.
    + apply dir_eqb_eq in E as ->. destruct (act_wf a _ _ _ Ha H1) as (W1 & W2 & W3).
      unfold side_inv. rewrite (act_settle _ _ _ _ _ Ha), W3. split_and!; try done.
      eapply Forall_impl; [exact H4|]. intros w. by apply waiter_ok_keeps.
    + assert (action_dir a ≠ d) as Hne by (intros Hx; symmetry in Hx; apply dir_eqb_eq in Hx; congruence).
      change (side d (set_pending (l' ++ l) s)) with (side d s). unfold side_inv.
      rewrite settle_other by (intros b' Hb; by rewrite (act_dir _ _ _ _ _ Ha Hb)).
      rewrite <- (settle_other d l [a]) in * by (by intros b' ->%list_elem_of_singleton). done.
  - apply shaper_inv_waiters; [done|done|]. destruct (Hi d) as (_ & _ & _ & H4). cbn.
    apply Forall_app_2; [done|]. constructor; [|constructor]. split_and!; cbn; try done. lia.
  - destruct (Hi d) as (H1 & _ & _ & H4). pose proof (Forall_lookup_1 _ _ _ _ H4 Hw) as Hok.
    assert (sd_pacer (count w el x) = sd_pacer x ∧ sd_waiters (count w el x) = sd_waiters x) as [E1 E2]
      by (unfold count; by destruct (w_pc w)).
    apply shaper_inv_waiters; [done|exact E1|]. cbn [set_waiter sd_pacer sd_waiters]. rewrite E1, E2.
    apply Forall_insert; [done|]. by eapply waiter_step_ok.
Qed.

Lemma newShaper_inv : shaper_inv newShaper.
Proof using.
  intros d. unfold side_inv. replace (side d newShaper) with newSide by by destruct d. cbn.
  split_and!; try constructor; cbn; try done.
  destruct d; cbn; (split; [done|intros i st Hi; by rewrite lookup_nil in Hi]).
Qed.

Lemma reachable_inv s : rtc step newShaper s → shaper_inv s.
Proof using WaitN_failed.
  intros Hr. pose proof newShaper_inv as H0. induction Hr as [|s1 s2 s3 Hs _ IH]; [done|].
  apply IH. by eapply step_inv.
Qed.

(** ** Whole calls are runs *)
Lemma run_act s a l x l' :
  s_pending s = a :: l → act a (side (action_dir a) s) = (x, l') →
  rtc step s (set_side (action_dir a) x (set_pending (l' ++ l) s)).
Proof using. intros Hp Ha. apply rtc_once. by eapply step_act. Qed.

(** The controller's actions, carried out with nothing in between. *)
Definition drain (s : TrafficShaper) : option TrafficShaper :=
  match s_pending s with
  | [] => None
  | a :: l =>
      let '(x, l') := act a (side (action_dir a) s) in
      Some (set_side (action_dir a) x (set_pending (l' ++ l) s))
  end.

Lemma drain_step s s' : drain s = Some s' → step s s'.
Proof using.
  unfold drain. destruct (s_pending s) as [|a l] eqn:E; [done|]. destruct (act _ _) as [x l'] eqn:Ea.
  intros [= <-]. by apply step_act.
Qed.

Fixpoint drains (n : nat) (s : TrafficShaper) : TrafficShaper :=
  match n with O => s | S n => match drain s with Some s' => drains n s' | None => s end end.

Lemma drains_steps n s : rtc step s (drains n s).
Proof using.
  revert s. induction n as [|n IH]; intros s; cbn [drains]; [done|]. destruct (drain s) as [s'|] eqn:E; [|done].
  eapply rtc_l; [by apply drain_step|apply IH].
Qed.

Lemma configure_unfold bits p :
  p_closed p = false → configure bits p = cancelOld (p_state p) (swapState (newState bits) p).1.
Proof using. unfold configure. intros ->. by destruct (newState bits). Qed.

(** [Configure] and [close] are runs of their actions. *)
Lemma Configure_is_a_run config now s :
  s_pending s = [] → (s_closed s = false → p_closed (sd_pacer (s_upload s)) = false ∧ p_closed (sd_pacer (s_download s)) = false) →
  rtc step s (Configure config now s).1.
Proof using.
  intros Hp Hcl. unfold Configure. destruct (s_closed s) eqn:Ec; [done|]. case_bool_decide as Hx; [done|].
  eapply rtc_l; [by apply (step_configure s config now)|].
  assert (drains 8 (beginConfigure config now s) =
    mkShaper config now false (resetSide (configure (UploadBitsPerSecond config)) (s_upload s))
      (resetSide (configure (DownloadBitsPerSecond config)) (s_download s)) (s_pending s)) as <-; [|apply drains_steps].
  destruct (Hcl eq_refl) as [H1 H2]. destruct s as [cfg upd cl [[pc1 st1 ob1] b1 n1 w1] [[pc2 st2 ob2] b2 n2 w2] pend].
  cbn in *. subst. unfold resetSide, configure, beginConfigure. cbn.
  destruct (newState (UploadBitsPerSecond config)) eqn:E1, (newState (DownloadBitsPerSecond config)) eqn:E2, st1, st2;
    repeat (cbn -[newState]; unfold drain; rewrite ?E1, ?E2); reflexivity.
Qed.

Lemma close_is_a_run now s :
  s_pending s = [] → (s_closed s = false → p_closed (sd_pacer (s_upload s)) = false ∧ p_closed (sd_pacer (s_download s)) = false) →
  rtc step s (shaper_close now s).
Proof using.
  intros Hp Hcl. unfold shaper_close. destruct (s_closed s) eqn:Ec; [done|].
  eapply rtc_l; [by apply (step_close s now)|].
  assert (drains 10 (beginClose now s) =
    mkShaper (mkConfig 0 0) now true (resetSide pacer_close (s_upload s))
      (resetSide pacer_close (s_download s)) (s_pending s)) as <-; [|apply drains_steps].
  destruct (Hcl eq_refl) as [H1 H2]. destruct s as [cfg upd cl [[pc1 st1 ob1] b1 n1 w1] [[pc2 st2 ob2] b2 n2 w2] pend].
  cbn in *. subst. unfold resetSide, pacer_close, beginClose. cbn. destruct st1, st2; reflexivity.
Qed.

(** ** After closing *)

(** Every run of the goroutine's steps on this pacer ends. *)
Inductive ends (p : trafficPacer) : Waiter → Prop :=
  | ends_done w err : w_pc w = WDone err → ends p w
  | ends_step w :
      (∃ r w', may_return p w r ∧ waiter_step p r w = Some w') →
      (∀ r w', may_return p w r → waiter_step p r w = Some w' → ends p w') → ends p w.

Lemma closed_waiter_ends bits p w : enforces bits true p → waiter_ok p w → ends p w.
Proof using WaitN_returns.
  intros (Hcl & Hst & Hcan) (_ & _ & _ & Hpc).
  assert (∀ w, w_pc w = WNanos → ends p w) as EN.
  { intros w0 E. apply ends_step; unfold may_return, waiter_step; rewrite E; [by exists Granted, (goto (WDone None) w0)|].
    intros r w' _ [= <-]. by eapply ends_done. }
  assert (∀ w, w_pc w = WBytes → ends p w) as EB.
  { intros w0 E. apply ends_step; unfold may_return, waiter_step; rewrite E; [by exists Granted, (goto WNanos w0)|].
    intros r w' _ [= <-]. by apply EN. }
  assert (∀ w, ends p (waitReturn w)) as ER.
  { intros w0. unfold waitReturn. destruct (w_paced w0); [by apply EB|by eapply ends_done]. }
  assert (∀ w, w_pc w = WLoop → ends p w) as EL.
  { intros w0 E. apply ends_step; unfold may_return, waiter_step; rewrite E, Hcl.
    - exists Granted. destruct (negb _); eauto.
    - intros r w' _. destruct (negb _); intros [= <-]; [apply ER|by eapply ends_done]. }
  destruct (w_pc w) as [| |id chunk| | |err] eqn:E; eauto using ends_done.
  - apply ends_step; unfold may_return, waiter_step; rewrite E, Hst; [exists Granted; eauto|].
    intros r w' _ [= <-]. apply ER.
  - destruct Hpc as (st & Hs & _). apply ends_step; unfold may_return, waiter_step; rewrite E.
    + destruct (WaitN_returns st chunk) as [r Hr]; [eapply Hcan; [done|by rewrite Hst]|].
      exists r. destruct r; eexists; (split; [eauto|done]).
    + intros r w' _. destruct r; intros [= <-]; [by apply EL|by apply EL|by eapply ends_done].
Qed.
End Runs.

(** C37. The configured limits are the ones enforced.  Whatever is interleaved,
    when no [Configure] or [close] is under way each direction has the limiter
    of the current configuration in force (its rate the configured bits over
    eight, at least one byte per second, its burst 50 ms of that within 4 to 256
    KiB), or none if the configured rate is zero or the shaper is closed, and
    every limiter it had before is canceled, so that no goroutine stays on a
    limit that was replaced. *)
Theorem shaper_enforces_config (WaitN : trafficPacerState → Z → wait_result → Prop) s d :
  (∀ st n, WaitN st n Failed → ps_burst st < n) →
  rtc (step WaitN) newShaper s → s_pending s = [] →
  enforces (bits_of d (s_config s)) (s_closed s) (sd_pacer (side d s)) ∧
  Forall ps_ok (p_objs (sd_pacer (side d s))).
Proof.
  intros HW Hr Hp. destruct (reachable_inv WaitN HW s Hr d) as ([Ho _] & He & _). by rewrite Hp in He.
Qed.

(** Pacing neither loses nor invents bytes.  In every interleaving, for every
    goroutine, the chunks it was granted and what remains add up to the bytes it
    was called with; each chunk is between 1 byte and 256 KiB; [WaitN] never
    refuses a chunk as larger than the burst; and a call returns without error
    only when all its bytes were granted, or it found no limit in force. *)
Theorem waits_account_for_all_bytes (WaitN : trafficPacerState → Z → wait_result → Prop) s d w :
  (∀ st n, WaitN st n Failed → ps_burst st < n) →
  rtc (step WaitN) newShaper s → w ∈ sd_waiters (side d s) →
  w_remaining w + sumZ (w_granted w) = w_count w ∧
  Forall (λ c, 0 < c <= maxTrafficShaperBurstBytes) (w_granted w) ∧
  w_pc w ≠ WDone (Some LimiterErr) ∧
  (w_pc w = WDone None → w_remaining w <= 0 ∨ w_unlimited w = true).
Proof.
  intros HW Hr Hw. destruct (reachable_inv WaitN HW s Hr d) as (_ & _ & _ & Hok).
  rewrite Forall_forall in Hok. destruct (Hok w Hw) as (Hs & Hg & _ & Hpc).
  split_and!; [done|done| |]; intros E; by rewrite E in Hpc.
Qed.

(** Closing ends every wait.  Once [close] has returned, no later step
    changes a pacer, and every goroutine that is still in a wait can proceed and
    returns after finitely many steps of its own, whatever they are. *)
Theorem close_ends_every_wait (WaitN : trafficPacerState → Z → wait_result → Prop) s d w :
  (∀ st n, WaitN st n Failed → ps_burst st < n) →
  (∀ st n, ps_canceled st = true → ∃ r, WaitN st n r) →
  rtc (step WaitN) newShaper s → s_pending s = [] → s_closed s = true →
  (∀ s', step WaitN s s' →
     sd_pacer (side d s') = sd_pacer (side d s) ∧ s_closed s' = true ∧ s_pending s' = []) ∧
  (w ∈ sd_waiters (side d s) → ends WaitN (sd_pacer (side d s)) w).
Proof.
  intros HW HR Hr Hp Hc. destruct (reachable_inv WaitN HW s Hr d) as (_ & He & _ & Hok). rewrite Hp, Hc in He. split.
  - intros s' Hs. destruct Hs as [? ? ? ? ? ?|? ? ? ?|? ? ? ? ? ? ?|s d' n x|s d' i w0 w' r el x ? ? ?]; try congruence;
      rewrite side_set_side; destruct (dir_eqb d d') eqn:E; destruct d'; split_and!; try done;
      try (apply dir_eqb_eq in E as ->; try done; unfold set_waiter, count; by destruct (w_pc w0)).
  - intros Hw. rewrite Forall_forall in Hok. eapply (closed_waiter_ends WaitN HR); [exact He|by apply Hok].
Qed.

(** A limiter that answers as documented. *)
Definition sampleWaitN (st : trafficPacerState) (n : Z) (r : wait_result) : Prop :=
  match r with
  | Granted => n <= ps_burst st
  | Canceled => ps_canceled st = true
  | Failed => ps_burst st < n
  end.

(** 8 Mbit/s up, unlimited down. *)
Definition limited : TrafficShaper := (Configure (mkConfig 8000000 0) 1 newShaper).1.

Lemma limited_reachable : rtc (step sampleWaitN) newShaper limited.
Proof. by apply Configure_is_a_run. Qed.

Lemma shaper_enforces_config_witness :
  enforces 8000000 false (sd_pacer (s_upload limited)) ∧ Forall ps_ok (p_objs (sd_pacer (s_upload limited))).
Proof. exact (shaper_enforces_config sampleWaitN limited Upload (λ _ _ H, H) limited_reachable eq_refl). Defined.

(** A goroutine of 100,000 bytes, in its first wait. *)
Definition waiting : TrafficShaper :=
  set_side Upload
    (mkSide (sd_pacer (s_upload limited)) 0 0 [mkWaiter 100000 100000 true (WWait 0 50000) [] false]) limited.

Lemma waiting_reachable : rtc (step sampleWaitN) newShaper waiting.
Proof.
  etrans; [apply limited_reachable|].
  eapply rtc_l; [apply (step_spawn sampleWaitN limited Upload 100000)|].
  eapply rtc_l; [by eapply (step_wait sampleWaitN _ Upload 0 (newWaiter 100000) _ Granted 0)|].
  eapply rtc_l; [by eapply (step_wait sampleWaitN _ Upload 0 (goto WLoad (newWaiter 100000)) _ Granted 0)|].
  apply rtc_refl.
Qed.

Lemma waits_account_for_all_bytes_witness :
  let w := mkWaiter 100000 100000 true (WWait 0 50000) [] false in
  w_remaining w + sumZ (w_granted w) = w_count w ∧ w_pc w ≠ WDone (Some LimiterErr).
Proof.
  destruct (waits_account_for_all_bytes sampleWaitN waiting Upload
              (mkWaiter 100000 100000 true (WWait 0 50000) [] false) (λ _ _ H, H) waiting_reachable) as (H1 & _ & H2 & _).
  - left.
  - split; [exact H1|exact H2].
Defined.

Lemma close_ends_every_wait_witness :
  ends sampleWaitN (sd_pacer (s_upload (shaper_close 2 waiting))) (mkWaiter 100000 100000 true (WWait 0 50000) [] false).
Proof.
  assert (rtc (step sampleWaitN) newShaper (shaper_close 2 waiting)) as Hr.
  { etrans; [apply waiting_reachable|]. by apply close_is_a_run. }
  apply (close_ends_every_wait sampleWaitN (shaper_close 2 waiting) Upload
           (mkWaiter 100000 100000 true (WWait 0 50000) [] false) (λ _ _ H, H)); try done.
  - intros st n Hc. by exists Canceled.
  - left.
Defined.

(** The counters can count bytes paced before the last configuration change: a
    goroutine that was granted all its bytes adds them after the counters were
    reset. *)
Lemma counters_include_earlier_traffic :
  ∃ s, rtc (step sampleWaitN) newShaper s ∧ s_pending s = [] ∧
    s_config s = mkConfig 16000000 0 ∧ s_updatedAt s = 2 ∧
    st_UploadBytes (statusLocked s) = 1000 ∧
    Forall (λ w, w_granted w = [1000] ∧ ∀ id chunk, w_pc w ≠ WWait id chunk) (sd_waiters (s_upload s)) ∧
    ps_canceled <$> p_objs (sd_pacer (s_upload s)) !! 0%nat = Some true.
Proof.
  set (w k := mkWaiter 1000 (if (k <? 3) then 1000 else 0) (1 <? k)
      (if k =? 0 then WLoop else if k =? 1 then WLoad else if k =? 2 then WWait 0 1000
       else if k =? 3 then WLoop else WBytes) (if k <? 3 then [] else [1000]) false).
  eexists. split; [|split_and!].
  { etrans; [apply limited_reachable|].
    eapply rtc_l; [apply (step_spawn sampleWaitN limited Upload 1000)|].
    eapply rtc_l; [by eapply (step_wait sampleWaitN _ Upload 0 (w 0) _ Granted 0)|].
    eapply rtc_l; [by eapply (step_wait sampleWaitN _ Upload 0 (w 1) _ Granted 0)|].
    eapply rtc_l; [eapply (step_wait sampleWaitN _ Upload 0 (w 2) _ Granted 0); [done| |done]|].
    { eexists. split; [done|]. cbn. done. }
    eapply rtc_l; [by eapply (step_wait sampleWaitN _ Upload 0 (w 3) _ Granted 0)|].
    etrans; [by apply (Configure_is_a_run sampleWaitN (mkConfig 16000000 0) 2)|].
    eapply rtc_l; [by eapply (step_wait sampleWaitN _ Upload 0 (w 4) _ Granted 0)|].
    apply rtc_refl. }
  all: try done. vm_compute. by repeat constructor.
Qed.
