(* ===== verification/GoState.v ===== *)
(** * Stateful code

    A state-and-outcome monad for methods that change their receiver and may
    return an error or panic, with the tactics that take a run apart. *)
From S2P Require Import Prelude.

(** A method with a receiver of type [S]: the receiver as it is left, also when
    the method returns an error. *)
Definition stM (S A : Type) : Type := S → S * res A.

#[global] Instance stM_ret {S} : MRet (stM S) := λ A a s, (s, Ok a).
#[global] Instance stM_bind {S} : MBind (stM S) := λ A B f m s,
  match m s with
  | (s, Ok a) => f a s
  | (s, Err e) => (s, Err e)
  | (s, Panic) => (s, Panic)
  | (s, NoFuel) => (s, NoFuel)
  end.

(** A pure computation, and access to the state. *)
Definition lift {S A} (r : res A) : stM S A := λ s, (s, r).
Definition getS {S} : stM S S := λ s, (s, Ok s).
Definition modS {S} (f : S → S) : stM S unit := λ s, (f s, Ok tt).
Definition throw {S A} (e : error) : stM S A := λ s, (s, Err e).
Definition panic {S A} : stM S A := λ s, (s, Panic).

(** [if err != nil { return nil, fmt.Errorf(msg + ": %w", err) }] *)
Definition wrapS {S A} (msg : string) (m : stM S A) : stM S A :=
  λ s, let '(s, r) := m s in (s, wrapf msg r).

Lemma stM_bind_Ok {S A B} (m : stM S A) (f : A → stM S B) s s' b :
  (m ≫= f) s = (s', Ok b) ↔ ∃ s1 a, m s = (s1, Ok a) ∧ f a s1 = (s', Ok b).
Proof.
  unfold mbind, stM_bind. destruct (m s) as [s1 [a|e| |]]; naive_solver.
Qed.

Lemma stM_bind_run {S A B} (m : stM S A) (f : A → stM S B) s s1 a :
  m s = (s1, Ok a) → (m ≫= f) s = f a s1.
Proof. unfold mbind, stM_bind. by intros ->. Qed.

Lemma stM_bind_assoc {S A B C} (m : stM S A) (f : A → stM S B) (g : B → stM S C) s :
  ((m ≫= f) ≫= g) s = (m ≫= λ a, f a ≫= g) s.
Proof. unfold mbind, stM_bind. by destruct (m s) as [s1 [a|e| |]]. Qed.

Lemma stM_bind_ext {S A B} (m : stM S A) (f g : A → stM S B) s :
  (∀ a s1, f a s1 = g a s1) → (m ≫= f) s = (m ≫= g) s.
Proof. intros Hfg. unfold mbind, stM_bind. destruct (m s) as [s1 [a|e| |]]; auto. Qed.

Lemma wrapS_Ok {S A} msg (m : stM S A) s s' a :
  wrapS msg m s = (s', Ok a) ↔ m s = (s', Ok a).
Proof.
  unfold wrapS. destruct (m s) as [s1 r]. split; intros Heq.
  - injection Heq as <- Hr. apply wrapf_Ok in Hr. by subst.
  - by simplify_eq.
Qed.

Lemma lift_Ok {S A} (r : res A) (s s' : S) a : lift r s = (s', Ok a) ↔ s' = s ∧ r = Ok a.
Proof. unfold lift. naive_solver. Qed.

(** Break a hypothesis [method s = (s', Ok v)] into the facts about its parts. *)
Ltac st_inv_step :=
  match goal with
  | H : (_ ≫= _) _ = (_, Ok _) |- _ => apply stM_bind_Ok in H as (? & ? & ? & ?)
  | H : wrapS _ _ _ = (_, Ok _) |- _ => apply wrapS_Ok in H
  | H : lift _ _ = (_, Ok _) |- _ => apply lift_Ok in H as [-> ?]
  | H : getS _ = (_, Ok _) |- _ => injection H as <- <-
  | H : modS _ _ = (_, Ok _) |- _ => injection H as <- _
  | H : throw _ _ = (_, Ok _) |- _ => discriminate H
  | H : panic _ = (_, Ok _) |- _ => discriminate H
  | H : mret _ _ = (_, Ok _) |- _ => injection H as <- <-
  | H : (if ?b then _ else _) _ = (_, Ok _) |- _ => destruct b eqn:?
  | H : match ?x with _ => _ end _ = (_, Ok _) |- _ => destruct x eqn:?
  end.
Ltac st_inv := repeat first [st_inv_step | res_inv_step]; try done.
