(* ===== verification/GoStrings.v ===== *)
(** * Strings

    Go strings are byte strings; literals of the code are written with [str].
    The functions of [strings] and [strconv] that the modelled code calls. *)
From stdpp Require Import pretty.
From S2P Require Import Prelude NetBuf.

(** The bytes of a string literal. *)
Definition str (s : string) : bytes :=
  map (λ c, Z.of_N (Ascii.N_of_ascii c)) (String.list_ascii_of_string s).

(** [strconv.Itoa], [strconv.AppendUint(.., 10)] *)
Definition itoa (n : Z) : bytes := str (pretty n).

Lemma str_inj s1 s2 : str s1 = str s2 → s1 = s2.
Proof.
  unfold str. intros H.
  rewrite <- (String.string_of_list_ascii_of_string s1), <- (String.string_of_list_ascii_of_string s2).
  f_equal. revert H. generalize (String.list_ascii_of_string s1), (String.list_ascii_of_string s2).
  induction l as [|c l IH]; intros [|d l0]; cbn; intros H; simplify_eq; [done|]. f_equal; [|eauto].
  rewrite <- (Ascii.ascii_N_embedding c), <- (Ascii.ascii_N_embedding d). congruence.
Qed.

Lemma itoa_inj n m : itoa n = itoa m → n = m.
Proof. intros H%str_inj. by apply (inj pretty). Qed.
