(* ===== verification/NetConn.v ===== *)
(** * Connections

    The model of a [net.Conn] that the control protocol runs on: the bytes the peer delivers arrive in pieces of any size,
    with errors in between, and a write may fail after any part of it was sent.
    How reads are cut up and which calls fail is data of the connection, so a
    theorem about every connection is a theorem about every schedule. *)
From S2P Require Import Prelude NetBuf GoState.

(** ** net.Conn *)

(** What one call of [Read] does: it delivers at most this many bytes, and it
    reports an error or not. *)
Record ReadEvent := mkRead { r_max : nat; r_err : bool }.

Record NetConn := mkConn {
  c_in : bytes;                 (** what the peer sent and has not been read *)
  c_reads : list ReadEvent;     (** the next calls of [Read]; then they are unimpeded *)
  c_sent : bytes;               (** what has been sent to the peer *)
  c_writes : list bytes;        (** the arguments of the calls of [Write] *)
  c_wfail : list (option nat)   (** the next calls of [Write]: fail after so many bytes? *)
}.

Definition ioErr : error := Errorf "i/o error".
Definition EOF : error := Errorf "EOF".

(** [conn.Read(p)] with [len(p) = cap]: the bytes delivered and the error. *)
Definition conn_Read (cap : nat) (c : NetConn) : NetConn * (bytes * option error) :=
  match c_reads c with
  | ev :: reads =>
      let n := Nat.min cap (r_max ev) in
      (mkConn (drop n (c_in c)) reads (c_sent c) (c_writes c) (c_wfail c),
       (take n (c_in c), if r_err ev then Some ioErr else None))
  | [] =>
      match c_in c with
      | [] => (c, ([], Some EOF))
      | _ => (mkConn (drop cap (c_in c)) [] (c_sent c) (c_writes c) (c_wfail c),
              (take cap (c_in c), None))
      end
  end.

(** [conn.Write(p)] *)
Definition conn_Write (p : bytes) : stM NetConn unit := λ c,
  match c_wfail c with
  | Some k :: fails =>
      (mkConn (c_in c) (c_reads c) (c_sent c ++ take k p) (c_writes c ++ [p]) fails, Err ioErr)
  | None :: fails =>
      (mkConn (c_in c) (c_reads c) (c_sent c ++ p) (c_writes c ++ [p]) fails, Ok tt)
  | [] =>
      (mkConn (c_in c) (c_reads c) (c_sent c ++ p) (c_writes c ++ [p]) [], Ok tt)
  end.

(** The loop of [io.ReadFull(conn, buf)] for the [want] bytes still missing. *)
Fixpoint ReadFull_loop (fuel want : nat) (got : bytes) : stM NetConn bytes := λ c,
  match fuel with
  | O => (c, NoFuel)
  | S fuel =>
      match want with
      | O => (c, Ok got)
      | _ =>
          let '(c, (bs, err)) := conn_Read want c in
          match (want - length bs)%nat, err with
          | O, _ => (c, Ok (got ++ bs))
          | want, None => ReadFull_loop fuel want (got ++ bs) c
          | _, Some e => (c, Err e)
          end
      end
  end.

(** [io.ReadFull(conn, buf)] with [len(buf) = n]. *)
Definition ReadFull (n : nat) : stM NetConn bytes := λ c,
  ReadFull_loop (length (c_reads c) + n + 1) n [] c.

(** ** What reading does *)

(** The stream does not lose or reorder bytes: what a call delivers is the front
    of what was waiting. *)
Lemma conn_Read_stream cap c c' bs err :
  conn_Read cap c = (c', (bs, err)) →
  c_in c = bs ++ c_in c' ∧ (length bs <= cap)%nat ∧
  c_sent c' = c_sent c ∧ c_writes c' = c_writes c ∧ c_wfail c' = c_wfail c.
Proof.
  unfold conn_Read. destruct (c_reads c) as [|ev reads].
  - destruct (c_in c) eqn:E; intros; simplify_eq; cbn -[take drop]; rewrite ?E.
    + split_and!; (done || cbn; lia).
    + rewrite take_drop, length_take. split_and!; (done || lia).
  - intros; simplify_eq; cbn. rewrite take_drop, length_take. split_and!; (done || lia).
Qed.

(** Each call uses up an event or makes progress; the bound on their number. *)
Definition read_calls (c : NetConn) : nat := length (c_reads c) + length (c_in c).

Lemma conn_Read_progress cap c c' bs :
  (0 < cap)%nat → conn_Read cap c = (c', (bs, None)) → (read_calls c' < read_calls c)%nat.
Proof.
  unfold conn_Read, read_calls. destruct (c_reads c) as [|ev reads].
  - destruct (c_in c) as [|x l] eqn:E; intros; simplify_eq; cbn -[drop].
    rewrite length_drop. cbn. lia.
  - intros; simplify_eq; cbn. rewrite length_drop. lia.
Qed.

Lemma conn_Read_shrinks cap c c' bs :
  (0 < cap)%nat → conn_Read cap c = (c', (bs, None)) →
  (length (c_reads c') + (cap - length bs) < length (c_reads c) + cap)%nat.
Proof.
  intros Hcap. unfold conn_Read. destruct (c_reads c) as [|ev reads].
  - destruct (c_in c) as [|x l]; intros; simplify_eq. rewrite length_take. cbn. lia.
  - intros; simplify_eq; cbn. lia.
Qed.

Lemma ReadFull_loop_spec fuel want got c c' r :
  ReadFull_loop fuel want got c = (c', r) →
  (length (c_reads c) + want < fuel)%nat →
  (∃ bs, r = Ok (got ++ bs) ∧ length bs = want ∧ c_in c = bs ++ c_in c' ∧
         c_sent c' = c_sent c ∧ c_writes c' = c_writes c ∧ c_wfail c' = c_wfail c)
  ∨ (∃ e, r = Err e).
Proof.
  revert want got c. induction fuel as [|fuel IH]; intros want got c Hl Hf; [lia|].
  cbn [ReadFull_loop] in Hl. destruct want as [|want].
  { simplify_eq. left. exists []. rewrite app_nil_r. done. }
  destruct (conn_Read (S want) c) as [c1 [bs err]] eqn:Er.
  pose proof (conn_Read_stream _ _ _ _ _ Er) as (Hin & Hlen & Hs & Hw & Hwf).
  destruct (S want - length bs)%nat as [|rest] eqn:Erest.
  - simplify_eq. left. exists bs. split_and!; (done || lia).
  - destruct err as [e|]; [simplify_eq; eauto|].
    assert (length (c_reads c1) + S rest < fuel)%nat as Hf'.
    { pose proof (conn_Read_shrinks (S want) c c1 bs ltac:(lia) Er). lia. }
    destruct (IH _ _ _ Hl Hf') as [(bs' & -> & Hlen' & Hin' & Hs' & Hw' & Hwf')|[e ->]]; [|eauto].
    left. exists (bs ++ bs'). rewrite app_assoc. split_and!; [done| | |congruence..].
    + rewrite length_app. lia.
    + rewrite Hin, Hin', app_assoc. done.
Qed.

(** [io.ReadFull] returns, with the next [n] bytes of the stream or an error. *)
Lemma ReadFull_spec n c c' r :
  ReadFull n c = (c', r) →
  (∃ bs, r = Ok bs ∧ length bs = n ∧ c_in c = bs ++ c_in c' ∧
         c_sent c' = c_sent c ∧ c_writes c' = c_writes c ∧ c_wfail c' = c_wfail c)
  ∨ (∃ e, r = Err e).
Proof.
  intros H. apply ReadFull_loop_spec in H; [|lia].
  destruct H as [(bs & -> & ?)|[e ->]]; [left|right]; eauto.
Qed.

Lemma ReadFull_Ok n c c' bs :
  ReadFull n c = (c', Ok bs) →
  length bs = n ∧ c_in c = bs ++ c_in c' ∧
  c_sent c' = c_sent c ∧ c_writes c' = c_writes c ∧ c_wfail c' = c_wfail c.
Proof. intros [(? & ? & ?)|[? ?]]%ReadFull_spec; by simplify_eq. Qed.

(** No call of [Read] reports an error until the stream ends. *)
Definition reads_ok (c : NetConn) : Prop := Forall (λ ev, r_err ev = false) (c_reads c).

Lemma conn_Read_ok cap c c' bs err :
  conn_Read cap c = (c', (bs, err)) → reads_ok c → reads_ok c' ∧ (c_in c ≠ [] → err = None).
Proof.
  unfold conn_Read, reads_ok. destruct (c_reads c) as [|ev reads] eqn:Ec.
  - destruct (c_in c) eqn:E; intros Heq Hok; simplify_eq; cbn; [|done].
    by rewrite Ec.
  - intros Heq Hok. inversion Hok as [|? ? He Hr]; subst. simplify_eq; cbn. by rewrite He.
Qed.

Lemma ReadFull_loop_ok fuel want got c bs rest :
  reads_ok c → c_in c = bs ++ rest → length bs = want →
  (length (c_reads c) + want < fuel)%nat →
  ∃ c', ReadFull_loop fuel want got c = (c', Ok (got ++ bs)) ∧ c_in c' = rest ∧ reads_ok c'.
Proof.
  revert want got c bs. induction fuel as [|fuel IH]; intros want got c bs Hok Hin Hlen Hf; [lia|].
  cbn [ReadFull_loop]. destruct want as [|want].
  { apply length_zero_iff_nil in Hlen as ->. rewrite app_nil_r. eauto. }
  destruct (conn_Read (S want) c) as [c1 [b1 err]] eqn:Er.
  pose proof (conn_Read_stream _ _ _ _ _ Er) as (Hin1 & Hl1 & _).
  destruct (conn_Read_ok _ _ _ _ _ Er Hok) as [Hok1 Herr].
  rewrite Herr in * by (rewrite Hin; by destruct bs).
  assert (b1 = take (length b1) bs ∧ bs = b1 ++ drop (length b1) bs) as [Eb1 Ebs].
  { assert (take (length b1) (c_in c) = b1) as Ht by (rewrite Hin1; apply take_app_length).
    rewrite Hin, take_app_le in Ht by lia. split; [done|]. rewrite <- Ht at 1. by rewrite take_drop. }
  assert (c_in c1 = drop (length b1) bs ++ rest) as Hin2.
  { rewrite Hin1 in Hin. rewrite Ebs, <- app_assoc in Hin. by apply app_inv_head in Hin. }
  destruct (S want - length b1)%nat as [|w] eqn:Ew.
  - exists c1. rewrite Hin2, (drop_ge bs) in * by lia. rewrite app_nil_r in Ebs. by subst.
  - destruct (IH (S w) (got ++ b1) c1 (drop (length b1) bs)) as (c' & Hl & Hr & Hok'); [done|done| | |].
    + rewrite length_drop. lia.
    + pose proof (conn_Read_shrinks (S want) c c1 b1 ltac:(lia) Er). lia.
    + exists c'. rewrite Hl, <- app_assoc, <- Ebs. done.
Qed.

(** On a connection that delivers, [io.ReadFull] succeeds as soon as the stream
    has enough bytes, however they are cut up. *)
Lemma ReadFull_ok n c bs rest :
  reads_ok c → c_in c = bs ++ rest → length bs = n →
  ∃ c', ReadFull n c = (c', Ok bs) ∧ c_in c' = rest ∧ reads_ok c'.
Proof.
  intros Hok Hin Hlen. unfold ReadFull.
  destruct (ReadFull_loop_ok (length (c_reads c) + n + 1) n [] c bs rest) as (c' & ? & ?);
    [done..|lia|]. eauto.
Qed.
