(* ===== verification/NoiseHandshake.v ===== *)
(** * control/controlbase: the Noise handshake

    [handshake.go] and [messages.go]: a node and its coordination server agree on
    two session keys with the Noise IK pattern.  The node knows the server's
    public key beforehand and sends its own, encrypted, in its first message; the
    continuation that completes the handshake on the node's side is a closure over
    the same [symmetricState].

    X25519, BLAKE2s, HKDF and ChaCha20-Poly1305 come from [golang.org/x/crypto]:
    they are the fields of [NoiseCrypto]. *)
From S2P Require Import Prelude NetBuf GoStrings GoState NetConn.

(** ** Primitives *)
Class NoiseCrypto := {
  (** [blake2s.Sum256], and [blake2s.New256(nil)] on the bytes written to it *)
  blake2s : bytes → bytes;
  (** [curve25519.X25519(priv, pub)]; an error when the result is all zeros *)
  X25519 : bytes → bytes → option bytes;
  (** [curve25519.ScalarBaseMult] *)
  ScalarBaseMult : bytes → bytes;
  (** [hkdf.New(blake2s, secret, salt, nil)]: the bytes its reader yields *)
  hkdf : bytes → bytes → bytes;
  (** [Seal(nil, nonce, plaintext, additionalData)] of the AEAD with a key *)
  aead_Seal : bytes → bytes → bytes → bytes → bytes;
  (** [Open(nil, nonce, ciphertext, additionalData)] *)
  aead_Open : bytes → bytes → bytes → bytes → option bytes
}.

Definition chp_KeySize : Z := 32.
Definition chp_NonceSize : nat := 12.
Definition chp_Overhead : Z := 16.
Definition blake2s_Size : nat := 32.

(** What the handshake and the transport rely on. *)
Class NoiseLaws `{NoiseCrypto} : Prop := {
  blake2s_length b : length (blake2s b) = blake2s_Size;
  X25519_comm a b : X25519 a (ScalarBaseMult b) = X25519 b (ScalarBaseMult a);
  ScalarBaseMult_length a : length (ScalarBaseMult a) = 32%nat;
  hkdf_length secret salt : zlen (hkdf secret salt) = 255 * 32;
  Seal_byte k n p ad : Forall is_byte p → Forall is_byte (aead_Seal k n p ad);
  Seal_length k n p ad : zlen (aead_Seal k n p ad) = zlen p + chp_Overhead;
  Open_Seal k n p ad : aead_Open k n (aead_Seal k n p ad) ad = Some p;
  Seal_Open k n c ad p : aead_Open k n c ad = Some p → c = aead_Seal k n p ad
}.

(** ** Messages *)
Definition msgTypeInitiation : Z := 1.
Definition msgTypeResponse : Z := 2.
Definition msgTypeError : Z := 3.
Definition msgTypeRecord : Z := 4.
Definition headerLen : Z := 3.
Definition initiationHeaderLen : Z := 5.

(** [type initiationMessage [101]byte], [type responseMessage [51]byte] *)
Definition initiationLen : nat := 101.
Definition responseLen : nat := 51.

Definition init_Header (m : bytes) : res bytes := slice m 0 initiationHeaderLen.
Definition init_Payload (m : bytes) : res bytes := slice_from m initiationHeaderLen.
Definition init_Version (m : bytes) : res Z := Uint16 m 0.
Definition init_Type (m : bytes) : res Z := idx m 2.
Definition init_Length (m : bytes) : res Z := Uint16 m 3.
Definition init_EphemeralPub (m : bytes) : res bytes :=
  slice m initiationHeaderLen (initiationHeaderLen + 32).
Definition init_MachinePub (m : bytes) : res bytes :=
  slice m (initiationHeaderLen + 32) (initiationHeaderLen + 32 + 48).
Definition init_Tag (m : bytes) : res bytes := slice_from m (initiationHeaderLen + 32 + 48).

Definition mkInitiationMessage (protocolVersion : Z) : res bytes :=
  ret ← PutUint16 (replicate initiationLen 0) 0 protocolVersion;
  ret ← put ret 2 msgTypeInitiation;
  payload ← init_Payload ret;
  PutUint16 ret 3 (u16 (zlen payload)).

Definition resp_Header (m : bytes) : res bytes := slice m 0 headerLen.
Definition resp_Payload (m : bytes) : res bytes := slice_from m headerLen.
Definition resp_Type (m : bytes) : res Z := idx m 0.
Definition resp_Length (m : bytes) : res Z := Uint16 m 1.
Definition resp_EphemeralPub (m : bytes) : res bytes := slice m headerLen (headerLen + 32).
Definition resp_Tag (m : bytes) : res bytes := slice_from m (headerLen + 32).

Definition mkResponseMessage : res bytes :=
  ret ← put (replicate responseLen 0) 0 msgTypeResponse;
  payload ← resp_Payload ret;
  PutUint16 ret 1 (u16 (zlen payload)).

(** [copy(m[off:off+n], src)] *)
Definition copy_at (m : bytes) (off : Z) (n : nat) (src : bytes) : res bytes :=
  put_bytes m off (take n src).

Definition protocolName : bytes := str "Noise_IK_25519_ChaChaPoly_BLAKE2s".
Definition protocolVersionPrefix : bytes := str "Tailscale Control Protocol v".
Definition protocolVersionPrologue (version : Z) : bytes := protocolVersionPrefix ++ itoa version.

Section Handshake.
Context `{NoiseCrypto}.

(** ** Machine keys *)

(** [key.MachinePrivate.Public]: panics on the zero key. *)
Definition MachinePrivate_Public (k : bytes) : res bytes :=
  if bool_decide (k = replicate 32 0) then Panic else Ok (ScalarBaseMult k).

Definition MachinePublicFromRaw32 (raw : bytes) : res bytes :=
  if negb (zlen raw =? 32) then Panic else Ok raw.

(** ** A cipher that can be used once *)

(** The key of the cipher, or [None] ([c.c == nil]) after its use. *)
Definition singleUseCHP : Type := option bytes.

Definition newCHP (key : bytes) : res bytes :=
  if negb (zlen key =? chp_KeySize) then Panic else Ok key.
Definition newSingleUseCHP (key : bytes) : res singleUseCHP := k ← newCHP key; Ok (Some k).

Definition zeroNonce : bytes := replicate chp_NonceSize 0.

Definition single_Seal (c : singleUseCHP) (plaintext additionalData : bytes)
    : res (singleUseCHP * bytes) :=
  match c with
  | None => Panic
  | Some k => Ok (None, aead_Seal k zeroNonce plaintext additionalData)
  end.

Definition single_Open (c : singleUseCHP) (ciphertext additionalData : bytes)
    : res (singleUseCHP * option bytes) :=
  match c with
  | None => Panic
  | Some k => Ok (None, aead_Open k zeroNonce ciphertext additionalData)
  end.

(** ** symmetricState *)
Record symmetricState := mkSym { finished : bool; s_h : bytes; s_ck : bytes }.

Definition checkFinished : stM symmetricState unit := λ s,
  if finished s then (s, Panic) else (s, Ok tt).

Definition Initialize : stM symmetricState unit :=
  _ ← checkFinished;
  modS (λ s, mkSym (finished s) (blake2s protocolName) (blake2s protocolName)).

Definition MixHash (data : bytes) : stM symmetricState unit :=
  _ ← checkFinished;
  modS (λ s, mkSym (finished s) (blake2s (s_h s ++ data)) (s_ck s)).

(** [io.ReadFull(r, buf)] with [len(buf) = n] on the reader of [hkdf.New]. *)
Definition hkdf_Read (n : nat) (r : bytes) : res (bytes * bytes) :=
  if (length r <? n)%nat then Err (Errorf "hkdf: entropy limit reached")
  else Ok (take n r, drop n r).

Definition MixDH (priv pub : bytes) : stM symmetricState singleUseCHP :=
  _ ← checkFinished;
  keyData ← lift (match X25519 priv pub with
                  | Some d => Ok d
                  | None => Err (Errorf "computing X25519")
                  end);
  s ← getS;
  let r := hkdf keyData (s_ck s) in
  '(ck, r) ← lift (wrapf "extracting ck" (hkdf_Read blake2s_Size r));
  _ ← modS (λ s, mkSym (finished s) (s_h s) ck);
  '(k, r) ← lift (wrapf "extracting k" (hkdf_Read (Z.to_nat chp_KeySize) r));
  lift (newSingleUseCHP k).

(** [ciphertext] is written in place in the code; here its length is passed, and
    what is written to it returned. *)
Definition EncryptAndHash (cipher : singleUseCHP) (ciphertextLen : Z) (plaintext : bytes)
    : stM symmetricState bytes :=
  _ ← checkFinished;
  if negb (ciphertextLen =? zlen plaintext + chp_Overhead) then panic else
  s ← getS;
  '(_, ret) ← lift (single_Seal cipher plaintext (s_h s));
  _ ← MixHash ret;
  mret ret.

(** The plaintext is returned; the code writes it to a buffer of [plaintextLen]. *)
Definition DecryptAndHash (cipher : singleUseCHP) (plaintextLen : Z) (ciphertext : bytes)
    : stM symmetricState bytes :=
  _ ← checkFinished;
  if negb (zlen ciphertext =? plaintextLen + chp_Overhead)
  then throw (Errorf "plaintext is wrong size for given ciphertext") else
  s ← getS;
  '(_, opened) ← lift (single_Open cipher ciphertext (s_h s));
  match opened with
  | None => throw (Errorf "message authentication failed")
  | Some plaintext => _ ← MixHash ciphertext; mret plaintext
  end.

(** [chp.New]: an error when the key has the wrong length. *)
Definition chp_New (key : bytes) : res bytes :=
  if negb (zlen key =? chp_KeySize) then Err (Errorf "chacha20poly1305: bad key length") else Ok key.

Definition Split : stM symmetricState (bytes * bytes) :=
  _ ← modS (λ s, mkSym true (s_h s) (s_ck s));
  s ← getS;
  let r := hkdf [] (s_ck s) in
  '(k1, r) ← lift (wrapf "extracting k1" (hkdf_Read (Z.to_nat chp_KeySize) r));
  '(k2, r) ← lift (wrapf "extracting k2" (hkdf_Read (Z.to_nat chp_KeySize) r));
  c1 ← lift (wrapf "constructing AEAD c1" (chp_New k1));
  c2 ← lift (wrapf "constructing AEAD c2" (chp_New k2));
  mret (c1, c2).

(** ** The result of a handshake *)

(** What the handshake puts into a [Conn]; its other fields start out zero. *)
Record Session := mkSession {
  se_version : Z;
  se_peer : bytes;
  se_handshakeHash : bytes;
  se_tx : bytes;
  se_rx : bytes
}.

(** Both ends work on their [symmetricState] and the connection. *)
Definition HS : Type := symmetricState * NetConn.

Definition onSym {A} (m : stM symmetricState A) : stM HS A := λ '(s, c),
  let '(s, r) := m s in ((s, c), r).
Definition onConn {A} (m : stM NetConn A) : stM HS A := λ '(s, c),
  let '(c, r) := m c in ((s, c), r).

(** [if deadline, ok := ctx.Deadline(); ok { .. }]: [None] without a deadline,
    otherwise whether setting it fails. *)
Definition setDeadline (deadline : option bool) : stM HS unit :=
  match deadline with
  | Some true => throw (Errorf "setting conn deadline")
  | _ => mret tt
  end.

(** ** The client *)

(** [ClientDeferred]; [machineEphemeral] is the key that [key.NewMachine] makes.
    The continuation is [continueClientHandshake] with the state returned. *)
Definition ClientDeferred_body (machineKey controlKey : bytes) (protocolVersion : Z)
    (machineEphemeral : bytes) : stM symmetricState bytes :=
  _ ← Initialize;
  _ ← MixHash (protocolVersionPrologue protocolVersion);
  _ ← MixHash controlKey;
  init ← lift (mkInitiationMessage protocolVersion);
  machineEphemeralPub ← lift (MachinePrivate_Public machineEphemeral);
  init ← lift (copy_at init initiationHeaderLen 32 machineEphemeralPub);
  _ ← MixHash machineEphemeralPub;
  cipher ← wrapS "computing es" (MixDH machineEphemeral controlKey);
  machineKeyPub ← lift (MachinePrivate_Public machineKey);
  machinePub ← lift (init_MachinePub init);
  ct ← EncryptAndHash cipher (zlen machinePub) machineKeyPub;
  init ← lift (put_bytes init (initiationHeaderLen + 32) ct);
  cipher ← wrapS "computing ss" (MixDH machineKey controlKey);
  tag ← lift (init_Tag init);
  ct ← EncryptAndHash cipher (zlen tag) [];
  lift (put_bytes init (initiationHeaderLen + 32 + 48) ct).

Definition zeroSym : symmetricState := mkSym false (replicate 32 0) (replicate 32 0).

Definition ClientDeferred (machineKey controlKey : bytes) (protocolVersion : Z)
    (machineEphemeral : bytes) : symmetricState * res bytes :=
  ClientDeferred_body machineKey controlKey protocolVersion machineEphemeral zeroSym.

(** Reading the server's answer: the message, or the error it reported. *)
Definition readResponse : stM NetConn bytes :=
  hdr ← wrapS "reading response header" (ReadFull (Z.to_nat headerLen));
  resp ← lift (put_bytes (replicate responseLen 0) 0 hdr);
  typ ← lift (resp_Type resp);
  len ← lift (resp_Length resp);
  if negb (typ =? msgTypeResponse) then
    if negb (typ =? msgTypeError) then throw (Errorf "unexpected response message type") else
    msg ← ReadFull (Z.to_nat len);
    throw (Errorf "server error")
  else
  payload ← lift (resp_Payload resp);
  if negb (len =? zlen payload) then throw (Errorf "wrong length received for handshake response") else
  payload ← ReadFull (length payload);
  lift (put_bytes resp headerLen payload).

Definition continue_body (deadline : option bool) (machineKey machineEphemeral controlKey : bytes)
    (protocolVersion : Z) : stM HS Session :=
  _ ← setDeadline deadline;
  resp ← onConn readResponse;
  raw ← lift (resp_EphemeralPub resp);
  controlEphemeralPub ← lift (MachinePublicFromRaw32 raw);
  _ ← onSym (MixHash controlEphemeralPub);
  _ ← onSym (wrapS "computing ee" (MixDH machineEphemeral controlEphemeralPub));
  cipher ← onSym (wrapS "computing se" (MixDH machineKey controlEphemeralPub));
  tag ← lift (resp_Tag resp);
  _ ← onSym (wrapS "decrypting payload" (DecryptAndHash cipher 0 tag));
  '(c1, c2) ← onSym (wrapS "finalizing handshake" Split);
  '(s, _) ← getS;
  mret (mkSession protocolVersion controlKey (s_h s) c1 c2).

(** No matter how it ends, the state is finished ([defer]). *)
Definition continueClientHandshake (deadline : option bool)
    (machineKey machineEphemeral controlKey : bytes) (protocolVersion : Z) : stM HS Session := λ hs,
  let '((s, c), r) := continue_body deadline machineKey machineEphemeral controlKey protocolVersion hs in
  ((mkSym true (s_h s) (s_ck s), c), r).

Definition Client (deadline : option bool) (machineKey controlKey : bytes) (protocolVersion : Z)
    (machineEphemeral : bytes) (c : NetConn) : (symmetricState * NetConn) * res Session :=
  match ClientDeferred machineKey controlKey protocolVersion machineEphemeral with
  | (s, Ok init) =>
      (_ ← onConn (conn_Write init);
       continueClientHandshake deadline machineKey machineEphemeral controlKey protocolVersion) (s, c)
  | (s, Err e) => ((s, c), Err e)
  | (s, Panic) => ((s, c), Panic)
  | (s, NoFuel) => ((s, c), NoFuel)
  end.

(** ** The server *)

(** [sendErr]: reports the message to the client, and always returns an error. *)
Definition sendErr {A} (msg : bytes) : stM NetConn A :=
  let msg := if 2 ^ 16 <=? zlen msg then take (Z.to_nat (2 ^ 16)) msg else msg in
  hdr ← lift (put (replicate (Z.to_nat headerLen) 0) 0 msgTypeError);
  hdr ← lift (PutUint16 hdr 1 (u16 (zlen msg)));
  _ ← wrapS "sending error to client" (conn_Write hdr);
  _ ← wrapS "sending error to client" (conn_Write msg);
  throw (Errorf "refused client handshake").

(** The initiation message: given by the caller, or read. *)
Definition readInitiation (optionalInit : option bytes) : stM NetConn bytes :=
  init ← match optionalInit with
         | Some b =>
             if negb (zlen b =? Z.of_nat initiationLen) then sendErr (str "wrong handshake initiation size")
             else mret b
         | None =>
             hdr ← ReadFull (Z.to_nat initiationHeaderLen);
             lift (put_bytes (replicate initiationLen 0) 0 hdr)
         end;
  typ ← lift (init_Type init);
  if negb (typ =? msgTypeInitiation) then sendErr (str "unexpected handshake message type") else
  len ← lift (init_Length init);
  payload ← lift (init_Payload init);
  if negb (len =? zlen payload) then sendErr (str "wrong handshake initiation length") else
  match optionalInit with
  | Some _ => mret init
  | None =>
      payload ← ReadFull (length payload);
      lift (put_bytes init initiationHeaderLen payload)
  end.

(** [controlEphemeral] is the key that [key.NewMachine] makes. *)
Definition Server_body (deadline : option bool) (controlKey controlEphemeral : bytes)
    (optionalInit : option bytes) : stM HS Session :=
  _ ← setDeadline deadline;
  _ ← onSym Initialize;
  init ← onConn (readInitiation optionalInit);
  clientVersion ← lift (init_Version init);
  _ ← onSym (MixHash (protocolVersionPrologue clientVersion));
  controlKeyPub ← lift (MachinePrivate_Public controlKey);
  _ ← onSym (MixHash controlKeyPub);
  raw ← lift (init_EphemeralPub init);
  machineEphemeralPub ← lift (MachinePublicFromRaw32 raw);
  _ ← onSym (MixHash machineEphemeralPub);
  cipher ← onSym (wrapS "computing es" (MixDH controlKey machineEphemeralPub));
  machinePub ← lift (init_MachinePub init);
  machineKeyBytes ← onSym (wrapS "decrypting machine key" (DecryptAndHash cipher 32 machinePub));
  machineKey ← lift (MachinePublicFromRaw32 machineKeyBytes);
  cipher ← onSym (wrapS "computing ss" (MixDH controlKey machineKey));
  tag ← lift (init_Tag init);
  _ ← onSym (wrapS "decrypting initiation tag" (DecryptAndHash cipher 0 tag));
  resp ← lift mkResponseMessage;
  controlEphemeralPub ← lift (MachinePrivate_Public controlEphemeral);
  resp ← lift (copy_at resp headerLen 32 controlEphemeralPub);
  _ ← onSym (MixHash controlEphemeralPub);
  _ ← onSym (wrapS "computing ee" (MixDH controlEphemeral machineEphemeralPub));
  cipher ← onSym (wrapS "computing se" (MixDH controlEphemeral machineKey));
  tag ← lift (resp_Tag resp);
  ct ← onSym (EncryptAndHash cipher (zlen tag) []);
  resp ← lift (put_bytes resp (headerLen + 32) ct);
  '(c1, c2) ← onSym (wrapS "finalizing handshake" Split);
  _ ← onConn (conn_Write resp);
  '(s, _) ← getS;
  mret (mkSession clientVersion machineKey (s_h s) c2 c1).

Definition Server (deadline : option bool) (controlKey controlEphemeral : bytes)
    (optionalInit : option bytes) (c : NetConn) : HS * res Session :=
  Server_body deadline controlKey controlEphemeral optionalInit (zeroSym, c).

End Handshake.
