(* ===== verification/NoiseAgree.v ===== *)
(** * The two ends of a handshake agree

    Theorems about [NoiseHandshake].  The state of a handshake is described by
    its hash [h] and chaining key [ck]; each operation is first evaluated as a
    function of them. *)
From S2P Require Import Prelude NetBuf GoStrings GoState NetConn NoiseHandshake.

#[local] Arguments zeroNonce : simpl never.

(** ** Messages *)

(** Overwriting a field of a message that is written as its fields. *)
Lemma overwrite_app a b src :
  length src = length a → overwrite (a ++ b) src = Ok (src ++ b).
Proof.
  revert src. induction a as [|x a IH]; intros [|y src] Hl; try discriminate Hl; [done|].
  cbn. rewrite IH by (cbn in Hl; lia). done.
Qed.

Lemma put_bytes_mid pre mid post i src :
  i = zlen pre → length src = length mid →
  put_bytes (pre ++ mid ++ post) i src = Ok (pre ++ src ++ post).
Proof.
  intros -> Hl. unfold put_bytes, zlen. case_match eqn:E; [bool_prop; lia|].
  rewrite Nat2Z.id. clear E. induction pre as [|x pre IH]; cbn; [by apply overwrite_app|].
  by rewrite IH.
Qed.

Lemma slice_mid pre mid post lo hi :
  lo = zlen pre → hi = lo + zlen mid → slice (pre ++ mid ++ post) lo hi = Ok mid.
Proof.
  intros -> ->. pose proof (zlen_nonneg pre). pose proof (zlen_nonneg mid).
  rewrite slice_Ok; [|lia|unfold zlen; rewrite !length_app; lia].
  unfold zlen. rewrite !Nat2Z.id, drop_app_length. f_equal.
  replace (_ - _)%nat with (length mid) by lia. apply take_app_length.
Qed.

Lemma slice_from_app pre post lo : lo = zlen pre → slice_from (pre ++ post) lo = Ok post.
Proof.
  intros ->. pose proof (zlen_nonneg pre). rewrite slice_from_Ok by (unfold zlen; rewrite length_app; lia).
  unfold zlen. by rewrite Nat2Z.id, drop_app_length.
Qed.

(** An initiation message as its fields. *)
Definition initMsg (v : Z) (e ct1 ct2 : bytes) : bytes :=
  be_bytes 2 v ++ [msgTypeInitiation] ++ be_bytes 2 96 ++ e ++ ct1 ++ ct2.

Definition respMsg (e ct : bytes) : bytes := [msgTypeResponse] ++ be_bytes 2 48 ++ e ++ ct.

Definition initHdr (v : Z) : bytes := be_bytes 2 v ++ [msgTypeInitiation] ++ be_bytes 2 96.
Definition respHdr : bytes := [msgTypeResponse] ++ be_bytes 2 48.

Lemma initMsg_hdr v e ct1 ct2 : initMsg v e ct1 ct2 = initHdr v ++ e ++ ct1 ++ ct2.
Proof. done. Qed.

Lemma mkInitiationMessage_eq v :
  mkInitiationMessage v = Ok (initHdr v ++ replicate 32 0 ++ replicate 48 0 ++ replicate 16 0).
Proof. done. Qed.

Lemma mkResponseMessage_eq : mkResponseMessage = Ok (respHdr ++ replicate 32 0 ++ replicate 16 0).
Proof. done. Qed.

Section Agreement.
Context `{NoiseLaws}.

(** ** The operations as functions of the hash and the chaining key *)
Definition mixH (h data : bytes) : bytes := blake2s (h ++ data).
Definition nextCk (dh ck : bytes) : bytes := take 32 (hkdf dh ck).
Definition nextKey (dh ck : bytes) : bytes := take 32 (drop 32 (hkdf dh ck)).

Lemma hkdf_take secret salt : length (take 32 (hkdf secret salt)) = 32%nat.
Proof. pose proof (hkdf_length secret salt). unfold zlen in *. rewrite length_take. lia. Qed.

Lemma hkdf_take2 secret salt : length (take 32 (drop 32 (hkdf secret salt))) = 32%nat.
Proof. pose proof (hkdf_length secret salt). unfold zlen in *. rewrite length_take, length_drop. lia. Qed.

Lemma hkdf_Read_Ok n r : (n <= length r)%nat → hkdf_Read n r = Ok (take n r, drop n r).
Proof. intros Hn%Nat.ltb_ge. unfold hkdf_Read. by rewrite Hn. Qed.

Lemma MixHash_run data h ck :
  MixHash data (mkSym false h ck) = (mkSym false (mixH h data) ck, Ok tt).
Proof. done. Qed.

Lemma MixDH_run priv pub dh h ck :
  X25519 priv pub = Some dh →
  MixDH priv pub (mkSym false h ck) = (mkSym false h (nextCk dh ck), Ok (Some (nextKey dh ck))).
Proof.
  intros Hdh. pose proof (hkdf_length dh ck) as Hlen. unfold zlen in Hlen.
  unfold MixDH, mbind, stM_bind. cbn [checkFinished finished]. rewrite Hdh. cbn [lift getS s_ck].
  rewrite hkdf_Read_Ok by (unfold blake2s_Size; lia). cbn [wrapf].
  rewrite hkdf_Read_Ok by (rewrite length_drop; unfold blake2s_Size, chp_KeySize; lia). cbn [wrapf].
  unfold newSingleUseCHP, newCHP. replace (zlen _ =? chp_KeySize) with true; [done|].
  symmetry. apply Z.eqb_eq. unfold zlen, blake2s_Size, chp_KeySize.
  change (Z.to_nat 32) with 32%nat. by rewrite hkdf_take2.
Qed.

Lemma MixDH_inv priv pub s s' c :
  MixDH priv pub s = (s', Ok c) → finished s = false ∧ ∃ dh, X25519 priv pub = Some dh.
Proof.
  unfold MixDH. intros Hm. apply stM_bind_Ok in Hm as (s1 & u & Hf & Hm).
  unfold checkFinished in Hf. destruct (finished s) eqn:E; simplify_eq. split; [done|].
  apply stM_bind_Ok in Hm as (s2 & dh & Hx & _). apply lift_Ok in Hx as [_ Hx].
  destruct (X25519 priv pub); [eauto|done].
Qed.

Lemma EncryptAndHash_run k n p h ck :
  n = zlen p + chp_Overhead →
  EncryptAndHash (Some k) n p (mkSym false h ck) =
  (mkSym false (mixH h (aead_Seal k zeroNonce p h)) ck, Ok (aead_Seal k zeroNonce p h)).
Proof.
  intros ->. unfold EncryptAndHash, mbind, stM_bind. cbn [checkFinished finished].
  by rewrite Z.eqb_refl.
Qed.

Lemma DecryptAndHash_run k n ct p h ck :
  zlen ct = n + chp_Overhead → aead_Open k zeroNonce ct h = Some p →
  DecryptAndHash (Some k) n ct (mkSym false h ck) = (mkSym false (mixH h ct) ck, Ok p).
Proof.
  intros Hn Ho. unfold DecryptAndHash, mbind, stM_bind. cbn [checkFinished finished].
  rewrite Hn, Z.eqb_refl. cbn. by rewrite Ho.
Qed.

Lemma DecryptAndHash_inv k n ct p h ck s' :
  DecryptAndHash (Some k) n ct (mkSym false h ck) = (s', Ok p) →
  zlen ct = n + chp_Overhead ∧ aead_Open k zeroNonce ct h = Some p.
Proof.
  unfold DecryptAndHash, mbind, stM_bind. cbn [checkFinished finished].
  destruct (negb _) eqn:E; [done|]. cbn. bool_prop. destruct (aead_Open k zeroNonce ct h); [|done].
  rewrite MixHash_run. intros Heq. injection Heq as _ <-. done.
Qed.

Lemma Split_run h ck :
  Split (mkSym false h ck) =
  (mkSym true h ck, Ok (take 32 (hkdf [] ck), take 32 (drop 32 (hkdf [] ck)))).
Proof.
  pose proof (hkdf_length [] ck) as Hlen. unfold zlen in Hlen.
  unfold Split, mbind, stM_bind. cbn [modS getS finished s_h s_ck lift].
  rewrite hkdf_Read_Ok by (unfold chp_KeySize; lia). cbn [wrapf].
  rewrite hkdf_Read_Ok by (rewrite length_drop; unfold chp_KeySize; lia). cbn [wrapf].
  change (Z.to_nat chp_KeySize) with 32%nat.
  unfold chp_New. unfold zlen, chp_KeySize. by rewrite hkdf_take, hkdf_take2.
Qed.

Lemma Seal_nil_length k h : length (aead_Seal k zeroNonce [] h) = 16%nat.
Proof. pose proof (Seal_length k zeroNonce [] h). unfold zlen, chp_Overhead in *. cbn in *. lia. Qed.

Lemma Seal_key_length k h p :
  length p = 32%nat → length (aead_Seal k zeroNonce p h) = 48%nat.
Proof. pose proof (Seal_length k zeroNonce p h). unfold zlen, chp_Overhead in *. lia. Qed.

(** ** The transcript *)

(** The hash after the prologue, the server's key and the client's ephemeral key. *)
Definition hE (v : Z) (C E : bytes) : bytes :=
  mixH (mixH (mixH (blake2s protocolName) (protocolVersionPrologue v)) C) E.

Definition ck0 : bytes := blake2s protocolName.

(** The chaining key after the two exchanges of each message. *)
Definition ckES (es : bytes) : bytes := nextCk es ck0.
Definition ckSS (es ss : bytes) : bytes := nextCk ss (ckES es).
Definition ckEE (es ss ee : bytes) : bytes := nextCk ee (ckSS es ss).
Definition ckSE (es ss ee se : bytes) : bytes := nextCk se (ckEE es ss ee).

(** The final hash. *)
Definition hFinal (v : Z) (C E ct1 ct2 E2 ct3 : bytes) : bytes :=
  mixH (mixH (mixH (mixH (hE v C E) ct1) ct2) E2) ct3.

(** What a client's first message contains. *)
Definition clientCt1 (v : Z) (m e C es : bytes) : bytes :=
  aead_Seal (nextKey es ck0) zeroNonce (ScalarBaseMult m) (hE v C (ScalarBaseMult e)).
Definition clientCt2 (v : Z) (m e C es ss : bytes) : bytes :=
  aead_Seal (nextKey ss (ckES es)) zeroNonce [] (mixH (hE v C (ScalarBaseMult e)) (clientCt1 v m e C es)).
Definition hInit (v : Z) (m e C es ss : bytes) : bytes :=
  mixH (mixH (hE v C (ScalarBaseMult e)) (clientCt1 v m e C es)) (clientCt2 v m e C es ss).

(** A private key that [MachinePrivate.Public] accepts. *)
Definition nonzero (k : bytes) : Prop := k ≠ replicate 32 0.

Lemma Public_run k : nonzero k → MachinePrivate_Public k = Ok (ScalarBaseMult k).
Proof. intros Hk. unfold MachinePrivate_Public. by rewrite bool_decide_false. Qed.

Lemma Public_inv k p : MachinePrivate_Public k = Ok p → nonzero k ∧ p = ScalarBaseMult k.
Proof. unfold MachinePrivate_Public. case_bool_decide; intros; by simplify_eq. Qed.

(** ** Running the two roles *)

(** Take the next step of a run, whose result the lemma gives. *)
Lemma lift_run {S A} (r : res A) a (s : S) : r = Ok a → lift r s = (s, Ok a).
Proof. by intros ->. Qed.

Lemma wrapS_run {S A} msg (m : stM S A) s s' a : m s = (s', Ok a) → wrapS msg m s = (s', Ok a).
Proof. apply wrapS_Ok. Qed.

Lemma onSym_run {A} (m : stM symmetricState A) s s' c r :
  m s = (s', r) → onSym m (s, c) = ((s', c), r).
Proof. cbn. by intros ->. Qed.

Lemma onConn_run {A} (m : stM NetConn A) s c c' r :
  m c = (c', r) → onConn m (s, c) = ((s, c'), r).
Proof. cbn. by intros ->. Qed.

Ltac st_step tac := erewrite stM_bind_run by (tac; fail); cbn beta.
(** Evaluate the closed condition of the conditional at hand. *)
Ltac eval_if :=
  match goal with
  | |- (if ?b then _ else _) _ = _ =>
      let v := eval vm_compute in b in replace b with v by (vm_compute; reflexivity); cbn iota
  end.
Ltac sym_step lem := st_step ltac:(apply onSym_run; first [apply lem|apply wrapS_run, lem]; (done || eassumption)).

(** The fields of an initiation message, and writing them. *)
Section InitFields.
Context (hdr e ct1 ct2 : bytes).
Hypothesis (Hh : length hdr = 5%nat) (He : length e = 32%nat).
Hypothesis (H1 : length ct1 = 48%nat) (H2 : length ct2 = 16%nat).
Let m := hdr ++ e ++ ct1 ++ ct2.

Lemma zlen_hdr_e : zlen (hdr ++ e) = 37.
Proof using Hh He. unfold zlen. rewrite length_app, Hh, He. done. Qed.

Lemma zlen_hdr_e_ct : zlen (hdr ++ e ++ ct1) = 85.
Proof using Hh He H1. unfold zlen. rewrite !length_app, Hh, He, H1. done. Qed.

Lemma init_EphemeralPub_run : init_EphemeralPub m = Ok e.
Proof using Hh He. apply slice_mid; unfold zlen; [by rewrite Hh|by rewrite He]. Qed.

Lemma init_MachinePub_run : init_MachinePub m = Ok ct1.
Proof using Hh He H1.
  unfold init_MachinePub, m. rewrite app_assoc. apply slice_mid; [by rewrite zlen_hdr_e|].
  unfold zlen. rewrite H1. done.
Qed.

Lemma init_Tag_run : init_Tag m = Ok ct2.
Proof using Hh He H1.
  unfold init_Tag, m. rewrite !app_assoc. apply slice_from_app. rewrite <- app_assoc.
  by rewrite zlen_hdr_e_ct.
Qed.

Lemma put_EphemeralPub src :
  length src = 32%nat → put_bytes m initiationHeaderLen src = Ok (hdr ++ src ++ ct1 ++ ct2).
Proof using Hh He. intros. apply put_bytes_mid; [unfold zlen; by rewrite Hh|congruence]. Qed.

Lemma put_MachinePub src :
  length src = 48%nat → put_bytes m (initiationHeaderLen + 32) src = Ok (hdr ++ e ++ src ++ ct2).
Proof using Hh He H1.
  intros. unfold m. rewrite app_assoc, (app_assoc _ e). apply put_bytes_mid; [by rewrite zlen_hdr_e|congruence].
Qed.

Lemma put_Tag src :
  length src = 16%nat →
  put_bytes m (initiationHeaderLen + 32 + 48) src = Ok (hdr ++ e ++ ct1 ++ src).
Proof using Hh He H1 H2.
  intros. unfold m. pose proof (put_bytes_mid (hdr ++ e ++ ct1) ct2 [] 85 src) as Hp.
  rewrite !app_nil_r, <- !app_assoc in Hp. apply Hp; [by rewrite zlen_hdr_e_ct|congruence].
Qed.
End InitFields.

(** The same for a response. *)
Section RespFields.
Context (hdr e ct : bytes).
Hypothesis (Hh : length hdr = 3%nat) (He : length e = 32%nat) (H1 : length ct = 16%nat).
Let m := hdr ++ e ++ ct.

Lemma resp_EphemeralPub_run : resp_EphemeralPub m = Ok e.
Proof using Hh He. apply slice_mid; unfold zlen; [by rewrite Hh|by rewrite He]. Qed.

Lemma resp_Tag_run : resp_Tag m = Ok ct.
Proof using Hh He.
  unfold resp_Tag, m. rewrite app_assoc. apply slice_from_app.
  unfold zlen. rewrite length_app, Hh, He. done.
Qed.

Lemma put_resp_EphemeralPub src :
  length src = 32%nat → put_bytes m headerLen src = Ok (hdr ++ src ++ ct).
Proof using Hh He. intros. apply put_bytes_mid; [unfold zlen; by rewrite Hh|congruence]. Qed.

Lemma put_resp_Tag src :
  length src = 16%nat → put_bytes m (headerLen + 32) src = Ok (hdr ++ e ++ src).
Proof using Hh He H1.
  intros. unfold m. pose proof (put_bytes_mid (hdr ++ e) ct [] 35 src) as Hp.
  rewrite !app_nil_r, <- !app_assoc in Hp. apply Hp; [|congruence].
  unfold zlen. rewrite length_app, Hh, He. done.
Qed.
End RespFields.

(** ** The client's first message *)
Lemma ClientDeferred_run m e C v es ss :
  nonzero m → nonzero e → X25519 e C = Some es → X25519 m C = Some ss →
  ClientDeferred m C v e =
  (mkSym false (hInit v m e C es ss) (ckSS es ss),
   Ok (initMsg v (ScalarBaseMult e) (clientCt1 v m e C es) (clientCt2 v m e C es ss))).
Proof.
  intros Hm He Hes Hss. unfold ClientDeferred, ClientDeferred_body.
  assert (length (ScalarBaseMult e) = 32%nat) as Hle by apply ScalarBaseMult_length.
  st_step ltac:(done).
  do 2 st_step ltac:(apply MixHash_run).
  st_step ltac:(apply lift_run, mkInitiationMessage_eq).
  st_step ltac:(by apply lift_run, Public_run).
  st_step ltac:(apply lift_run, put_EphemeralPub; [done|done|by rewrite take_ge by lia]).
  rewrite take_ge by lia.
  st_step ltac:(apply MixHash_run).
  st_step ltac:(apply wrapS_run, MixDH_run; eassumption).
  st_step ltac:(by apply lift_run, Public_run).
  st_step ltac:(by apply lift_run, init_MachinePub_run).
  st_step ltac:(apply EncryptAndHash_run; unfold zlen; by rewrite ScalarBaseMult_length).
  st_step ltac:(apply lift_run, put_MachinePub; [done..|apply Seal_key_length, ScalarBaseMult_length]).
  st_step ltac:(apply wrapS_run, MixDH_run; eassumption).
  st_step ltac:(apply lift_run, init_Tag_run; [done|done|apply Seal_key_length, ScalarBaseMult_length]).
  st_step ltac:(by apply EncryptAndHash_run).
  erewrite lift_run; [done|].
  apply put_Tag; [done|done|apply Seal_key_length, ScalarBaseMult_length|done|apply Seal_nil_length].
Qed.

Lemma ClientDeferred_dh m e C v s init :
  ClientDeferred m C v e = (s, Ok init) →
  nonzero m ∧ nonzero e ∧ ∃ es ss, X25519 e C = Some es ∧ X25519 m C = Some ss.
Proof.
  unfold ClientDeferred, ClientDeferred_body. intros Hc. st_inv.
  repeat match goal with
  | Hp : MachinePrivate_Public _ = Ok _ |- _ => apply Public_inv in Hp as [? ->]
  | Hd : MixDH _ _ _ = (_, Ok _) |- _ => apply MixDH_inv in Hd as (_ & ? & ?)
  end. eauto 10.
Qed.

(** ** Reading the messages *)
Lemma readResponse_inv c c' resp :
  readResponse c = (c', Ok resp) →
  ∃ hdr e ct, resp = hdr ++ e ++ ct ∧ length hdr = 3%nat ∧ length e = 32%nat ∧ length ct = 16%nat ∧
              c_in c = resp ++ c_in c'.
Proof.
  unfold readResponse. intros Hr.
  apply stM_bind_Ok in Hr as (c1 & hdr & Hh%wrapS_Ok & Hr). apply ReadFull_Ok in Hh as (Hlh & Hin & _).
  apply stM_bind_Ok in Hr as (c2 & r0 & Hr0 & Hr). apply lift_Ok in Hr0 as [-> Hr0].
  assert (r0 = hdr ++ replicate 48 0) as ->.
  { change (replicate responseLen 0) with ([] ++ replicate 3 0 ++ replicate 48 0) in Hr0.
    rewrite put_bytes_mid in Hr0; [by simplify_eq|done|by rewrite Hlh]. }
  assert (resp_Payload (hdr ++ replicate 48 0) = Ok (replicate 48 0)) as Hpay.
  { apply slice_from_app. unfold zlen. by rewrite Hlh. }
  st_inv. match goal with Hp : resp_Payload _ = Ok _ |- _ => rewrite Hpay in Hp; injection Hp as <- end.
  match goal with Hf : ReadFull _ _ = (_, Ok ?pl) |- _ =>
    apply ReadFull_Ok in Hf as (Hlp & Hin' & _); rename pl into payload end.
  match goal with Hp : put_bytes _ _ payload = Ok _ |- _ => rename Hp into Hput end.
  pose proof (put_bytes_mid hdr (replicate 48 0) [] headerLen payload) as Hp.
  rewrite !app_nil_r in Hp. rewrite Hp in Hput; [|unfold zlen; by rewrite Hlh|done].
  injection Hput as <-.
  exists hdr, (take 32 payload), (drop 32 payload). rewrite length_take, length_drop, Hlp, take_drop.
  split_and!; [done..|]. by rewrite Hin, Hin', app_assoc.
Qed.

Lemma readResponse_frame c c' resp :
  readResponse c = (c', Ok resp) → c_sent c' = c_sent c ∧ c_wfail c' = c_wfail c.
Proof.
  unfold readResponse. intros Hr. st_inv.
  repeat match goal with Hf : ReadFull _ _ = (_, Ok _) |- _ => apply ReadFull_Ok in Hf as (_ & _ & ? & _ & ?) end.
  split; congruence.
Qed.

Lemma readResponse_run c e ct rest :
  reads_ok c → c_in c = respMsg e ct ++ rest → length e = 32%nat → length ct = 16%nat →
  ∃ c', readResponse c = (c', Ok (respMsg e ct)) ∧ c_in c' = rest ∧ reads_ok c'.
Proof.
  intros Hok Hin He Hct. unfold readResponse.
  destruct (ReadFull_ok 3 c respHdr ((e ++ ct) ++ rest)) as (c1 & R1 & Hin1 & Hok1); [done| |done|].
  { rewrite Hin. unfold respMsg, respHdr. by rewrite <- !app_assoc. }
  destruct (ReadFull_ok 48 c1 (e ++ ct) rest) as (c2 & R2 & Hin2 & Hok2);
    [done|done|by rewrite length_app, He, Hct|].
  exists c2. split; [|done].
  st_step ltac:(apply wrapS_run, R1).
  do 3 st_step ltac:(done).
  eval_if. st_step ltac:(done). eval_if. st_step ltac:(apply R2). apply lift_run.
  change (put_bytes _ _ _) with (put_bytes (respHdr ++ replicate 48 0 ++ []) headerLen (e ++ ct)).
  rewrite (put_bytes_mid respHdr (replicate 48 0) [] headerLen (e ++ ct)); [|done|by rewrite length_app, He, Hct].
  by rewrite app_nil_r.
Qed.

(** ** Inverting a run, one operation at a time *)
Lemma Ok_inj {A} (a b : A) : Ok a = Ok b → a = b.
Proof. congruence. Qed.

Lemma lift_bind_inv {S A B} (r : res A) (f : A → stM S B) s s' b :
  (lift r ≫= f) s = (s', Ok b) → ∃ a, r = Ok a ∧ f a s = (s', Ok b).
Proof. intros (s1 & a & [-> ?]%lift_Ok & ?)%stM_bind_Ok. eauto. Qed.

Lemma onConn_bind_inv {A B} (m : stM NetConn A) (f : A → stM HS B) s c hs' b :
  (onConn m ≫= f) (s, c) = (hs', Ok b) → ∃ c1 a, m c = (c1, Ok a) ∧ f a (s, c1) = (hs', Ok b).
Proof.
  intros (s1 & a & Hm & ?)%stM_bind_Ok. cbn in Hm. destruct (m c) as [c1 r]. simplify_eq. eauto.
Qed.

Lemma MixHash_bind_inv {B} data (f : unit → stM HS B) h ck c hs' b :
  (onSym (MixHash data) ≫= f) (mkSym false h ck, c) = (hs', Ok b) →
  f tt (mkSym false (mixH h data) ck, c) = (hs', Ok b).
Proof. done. Qed.

Lemma MixDH_bind_inv {B} msg priv pub (f : singleUseCHP → stM HS B) h ck c hs' b :
  (onSym (wrapS msg (MixDH priv pub)) ≫= f) (mkSym false h ck, c) = (hs', Ok b) →
  ∃ dh, X25519 priv pub = Some dh ∧
        f (Some (nextKey dh ck)) (mkSym false h (nextCk dh ck), c) = (hs', Ok b).
Proof.
  intros Hb. destruct (X25519 priv pub) as [dh|] eqn:Hdh.
  - exists dh. split; [done|].
    by erewrite stM_bind_run in Hb by (by apply onSym_run, wrapS_run, MixDH_run).
  - exfalso. apply stM_bind_Ok in Hb as (hs1 & a & Hm & _). cbn in Hm.
    destruct (wrapS msg (MixDH priv pub) _) as [s1 r] eqn:E. simplify_eq.
    apply wrapS_Ok, MixDH_inv in E as (_ & dh & ?). congruence.
Qed.

Lemma Decrypt_bind_inv {B} msg k n ct (f : bytes → stM HS B) h ck c hs' b :
  (onSym (wrapS msg (DecryptAndHash (Some k) n ct)) ≫= f) (mkSym false h ck, c) = (hs', Ok b) →
  ∃ p, zlen ct = n + chp_Overhead ∧ aead_Open k zeroNonce ct h = Some p ∧
       f p (mkSym false (mixH h ct) ck, c) = (hs', Ok b).
Proof.
  intros Hb. pose proof Hb as (hs1 & p & Hm & _)%stM_bind_Ok. cbn in Hm.
  destruct (wrapS msg (DecryptAndHash _ _ _) _) as [s1 r] eqn:E. simplify_eq.
  apply wrapS_Ok, DecryptAndHash_inv in E as [Hn Ho]. exists p. split_and!; [done..|].
  by erewrite stM_bind_run in Hb by (by apply onSym_run, wrapS_run, DecryptAndHash_run).
Qed.

(** The session keys that [Split] derives. *)
Definition sessKey1 (ck : bytes) : bytes := take 32 (hkdf [] ck).
Definition sessKey2 (ck : bytes) : bytes := take 32 (drop 32 (hkdf [] ck)).

(** ** The client's side of the second message *)
Lemma continue_run dl m e C v h ck c c1 hdr e2 ct p ee se :
  dl ≠ Some true → readResponse c = (c1, Ok (hdr ++ e2 ++ ct)) →
  length hdr = 3%nat → length e2 = 32%nat → length ct = 16%nat →
  X25519 e e2 = Some ee → X25519 m e2 = Some se →
  aead_Open (nextKey se (nextCk ee ck)) zeroNonce ct (mixH h e2) = Some p →
  continueClientHandshake dl m e C v (mkSym false h ck, c) =
  ((mkSym true (mixH (mixH h e2) ct) (nextCk se (nextCk ee ck)), c1),
   Ok (mkSession v C (mixH (mixH h e2) ct) (sessKey1 (nextCk se (nextCk ee ck)))
         (sessKey2 (nextCk se (nextCk ee ck))))).
Proof.
  intros Hdl Hr Hh He2 Hct Hee Hse Ho. unfold continueClientHandshake, continue_body.
  erewrite stM_bind_run; [|by destruct dl as [[]|]]. cbn beta.
  st_step ltac:(apply onConn_run, Hr).
  st_step ltac:(by apply lift_run, resp_EphemeralPub_run).
  st_step ltac:(apply lift_run; unfold MachinePublicFromRaw32, zlen; by rewrite He2).
  st_step ltac:(apply onSym_run, MixHash_run).
  st_step ltac:(by apply onSym_run, wrapS_run, MixDH_run).
  st_step ltac:(by apply onSym_run, wrapS_run, MixDH_run).
  st_step ltac:(by apply lift_run, resp_Tag_run).
  st_step ltac:(apply onSym_run, wrapS_run, DecryptAndHash_run; [unfold zlen; by rewrite Hct|eassumption]).
  st_step ltac:(apply onSym_run, wrapS_run, Split_run). done.
Qed.

Lemma continue_inv dl m e C v h ck c hs sess :
  continueClientHandshake dl m e C v (mkSym false h ck, c) = (hs, Ok sess) →
  ∃ e2 ct p ee se,
    X25519 e e2 = Some ee ∧ X25519 m e2 = Some se ∧ length e2 = 32%nat ∧ length ct = 16%nat ∧
    aead_Open (nextKey se (nextCk ee ck)) zeroNonce ct (mixH h e2) = Some p ∧
    sess = mkSession v C (mixH (mixH h e2) ct) (sessKey1 (nextCk se (nextCk ee ck)))
             (sessKey2 (nextCk se (nextCk ee ck))).
Proof.
  intros Hc. assert (dl ≠ Some true) as Hdl by (by intros ->).
  pose proof Hc as Hrun. unfold continueClientHandshake in Hc.
  destruct (continue_body _ _ _ _ _ _) as [[s' c'] r] eqn:Hb. injection Hc as _ ->.
  unfold continue_body in Hb. erewrite stM_bind_run in Hb; [|by destruct dl as [[]|]].
  apply onConn_bind_inv in Hb as (c1 & resp & Hr & Hb).
  pose proof Hr as (hdr & e2 & ct & -> & Hh & He2 & Hct & _)%readResponse_inv.
  apply lift_bind_inv in Hb as (raw & Hraw & Hb). rewrite resp_EphemeralPub_run in Hraw by done.
  injection Hraw as <-.
  apply lift_bind_inv in Hb as (e2' & He2' & Hb). unfold MachinePublicFromRaw32 in He2'.
  destruct (negb _); simplify_eq.
  apply MixHash_bind_inv in Hb. apply MixDH_bind_inv in Hb as (ee & Hee & Hb).
  apply MixDH_bind_inv in Hb as (se & Hse & Hb). apply lift_bind_inv in Hb as (tag & Htag & Hb).
  rewrite resp_Tag_run in Htag by done. injection Htag as <-.
  apply Decrypt_bind_inv in Hb as (p & _ & Ho & _).
  exists e2', ct, p, ee, se. split_and!; [done..|].
  rewrite (continue_run _ _ _ _ _ _ _ _ _ _ _ _ _ _ _ Hdl Hr Hh He2 Hct Hee Hse Ho) in Hrun. congruence.
Qed.

(** ** The server *)
Lemma sendErr_fails {A} msg c c' (a : A) : sendErr msg c ≠ (c', Ok a).
Proof. unfold sendErr. intros Hs. st_inv. Qed.

Lemma readInitiation_inv oi c c' init :
  readInitiation oi c = (c', Ok init) →
  ∃ hdr e ct1 ct2, init = hdr ++ e ++ ct1 ++ ct2 ∧ length hdr = 5%nat ∧ length e = 32%nat ∧
                   length ct1 = 48%nat ∧ length ct2 = 16%nat.
Proof.
  intros Hr. cut (length init = 101%nat).
  { intros Hl. exists (take 5 init), (take 32 (drop 5 init)), (take 48 (drop 37 init)), (drop 85 init).
    rewrite !length_take, !length_drop, Hl. split_and!; [|done..].
    rewrite <- (take_drop 5 init) at 1. f_equal. rewrite <- (take_drop 32 (drop 5 init)) at 1. f_equal.
    rewrite drop_drop. rewrite <- (take_drop 48 (drop (5 + 32) init)) at 1. f_equal. by rewrite drop_drop. }
  unfold readInitiation in Hr. apply stM_bind_Ok in Hr as (c1 & init0 & H0' & Hr).
  assert (length init0 = 101%nat) as Hl.
  { destruct oi as [b|].
    - destruct (negb _) eqn:E in H0'; [by apply sendErr_fails in H0'|]. injection H0' as <- <-.
      bool_prop. unfold zlen, initiationLen in *. lia.
    - apply stM_bind_Ok in H0' as (c2 & hdr & (Hlh & _)%ReadFull_Ok & Hput). apply lift_Ok in Hput as [_ Hput].
      change (replicate initiationLen 0) with ([] ++ replicate 5 0 ++ replicate 96 0) in Hput.
      rewrite put_bytes_mid in Hput; [|done|by rewrite Hlh]. injection Hput as <-.
      by rewrite !length_app, Hlh. }
  apply lift_bind_inv in Hr as (typ & _ & Hr).
  destruct (negb _) in Hr; [by apply sendErr_fails in Hr|]. apply lift_bind_inv in Hr as (len & _ & Hr).
  apply lift_bind_inv in Hr as (payload & Hp & Hr). unfold init_Payload in Hp.
  rewrite slice_from_Ok in Hp by (unfold zlen; rewrite Hl; done). injection Hp as <-.
  destruct (negb _) in Hr; [by apply sendErr_fails in Hr|].
  destruct oi as [b|]; [by injection Hr as _ <-|].
  apply stM_bind_Ok in Hr as (c3 & payload & (Hlp & _)%ReadFull_Ok & Hput). apply lift_Ok in Hput as [_ Hput].
  rewrite <- (take_drop 5 init0), <- (app_nil_r (drop 5 init0)) in Hput.
  rewrite put_bytes_mid in Hput.
  - injection Hput as <-. rewrite app_nil_r, length_app, length_take, Hlp, length_drop, Hl. done.
  - unfold zlen. by rewrite length_take, Hl.
  - by rewrite Hlp.
Qed.

Lemma initMsg_length v e ct1 ct2 :
  length e = 32%nat → length ct1 = 48%nat → length ct2 = 16%nat → length (initMsg v e ct1 ct2) = 101%nat.
Proof. intros. unfold initMsg. rewrite !length_app. cbn. lia. Qed.

Lemma init_checks v rest :
  init_Type (initHdr v ++ rest) = Ok msgTypeInitiation ∧ init_Length (initHdr v ++ rest) = Ok 96 ∧
  init_Payload (initHdr v ++ rest) = Ok rest ∧ init_Version (initHdr v ++ rest) = Ok (u16 v).
Proof.
  split_and!; [done|done|by apply slice_from_app|].
  change (init_Version _) with (Ok (be_val (be_bytes 2 v))). by rewrite be_val_bytes.
Qed.

(** The message arrives, from the caller or on the connection. *)
Lemma readInitiation_run oi v e ct1 ct2 c rest :
  length e = 32%nat → length ct1 = 48%nat → length ct2 = 16%nat →
  reads_ok c → (oi = Some (initMsg v e ct1 ct2) ∧ rest = c_in c ∨
                oi = None ∧ c_in c = initMsg v e ct1 ct2 ++ rest) →
  ∃ c', readInitiation oi c = (c', Ok (initMsg v e ct1 ct2)) ∧ c_in c' = rest ∧ reads_ok c' ∧
        c_sent c' = c_sent c ∧ c_wfail c' = c_wfail c.
Proof.
  intros He H1 H2 Hok Hoi. unfold readInitiation.
  destruct (init_checks v (e ++ ct1 ++ ct2)) as (Ht & Hl & Hp & _).
  assert (zlen (e ++ ct1 ++ ct2) = 96) as Hz by (unfold zlen; rewrite !length_app, He, H1, H2; done).
  destruct Hoi as [[-> ->]|[-> Hin]].
  - exists c. split_and!; [|done..]. erewrite stM_bind_run.
    2:{ unfold zlen. rewrite initMsg_length by done. done. }
    rewrite initMsg_hdr. st_step ltac:(apply lift_run, Ht). eval_if.
    st_step ltac:(apply lift_run, Hl). st_step ltac:(apply lift_run, Hp). rewrite Hz. eval_if. done.
  - destruct (ReadFull_ok 5 c (initHdr v) ((e ++ ct1 ++ ct2) ++ rest)) as (c1 & R1 & Hin1 & Hok1); [done| |done|].
    { rewrite Hin, initMsg_hdr. by rewrite <- !app_assoc. }
    destruct (ReadFull_ok 96 c1 (e ++ ct1 ++ ct2) rest) as (c2 & R2 & Hin2 & Hok2); [done|done| |].
    { unfold zlen in Hz. lia. }
    pose proof R1 as (_ & _ & Hs1 & _ & Hw1)%ReadFull_Ok. pose proof R2 as (_ & _ & Hs2 & _ & Hw2)%ReadFull_Ok.
    exists c2. split_and!; [|done|done|congruence..].
    destruct (init_checks v (replicate 96 0)) as (Ht0 & Hl0 & Hp0 & _).
    erewrite stM_bind_run.
    2:{ erewrite stM_bind_run by apply R1. cbn beta. apply lift_run.
        change (replicate initiationLen 0) with ([] ++ replicate 5 0 ++ replicate 96 0).
        by apply put_bytes_mid. }
    cbn [app]. st_step ltac:(apply lift_run, Ht0). eval_if.
    st_step ltac:(apply lift_run, Hl0). st_step ltac:(apply lift_run, Hp0). eval_if.
    st_step ltac:(apply R2). apply lift_run. rewrite initMsg_hdr.
    rewrite <- (app_nil_r (replicate 96 0)), put_bytes_mid; [by rewrite app_nil_r|done|].
    unfold zlen in Hz. rewrite length_replicate. lia.
Qed.

(** What the server computes from an initiation message that it accepts. *)
Record Accepted (K K2 : bytes) (v : Z) (E ct1 ct2 : bytes) (es ss ee se mk : bytes) : Prop := {
  acc_K : nonzero K;
  acc_K2 : nonzero K2;
  acc_es : X25519 K E = Some es;
  acc_mk : aead_Open (nextKey es ck0) zeroNonce ct1 (hE v (ScalarBaseMult K) E) = Some mk;
  acc_mk_len : length mk = 32%nat;
  acc_ss : X25519 K mk = Some ss;
  acc_tag : ∃ p, aead_Open (nextKey ss (ckES es)) zeroNonce ct2
                   (mixH (hE v (ScalarBaseMult K) E) ct1) = Some p;
  acc_ee : X25519 K2 E = Some ee;
  acc_se : X25519 K2 mk = Some se
}.

Definition hResp (v : Z) (C E ct1 ct2 E2 : bytes) : bytes := mixH (mixH (mixH (hE v C E) ct1) ct2) E2.
Definition serverCt (v : Z) (C E ct1 ct2 E2 es ss ee se : bytes) : bytes :=
  aead_Seal (nextKey se (ckEE es ss ee)) zeroNonce [] (hResp v C E ct1 ct2 E2).

Section ServerRun.
Context (dl : option bool) (K K2 : bytes) (oi : option bytes) (c c1 : NetConn).
Context (hdr E ct1 ct2 : bytes) (v : Z).
Hypothesis Hh : length hdr = 5%nat.
Hypothesis HE : length E = 32%nat.
Hypothesis H1 : length ct1 = 48%nat.
Hypothesis H2 : length ct2 = 16%nat.
Hypothesis Hread : readInitiation oi c = (c1, Ok (hdr ++ E ++ ct1 ++ ct2)).
Hypothesis Hv : init_Version (hdr ++ E ++ ct1 ++ ct2) = Ok v.

Let C := ScalarBaseMult K.
Let E2 := ScalarBaseMult K2.

Lemma Server_run es ss ee se mk c2 :
  dl ≠ Some true → Accepted K K2 v E ct1 ct2 es ss ee se mk →
  let ct3 := serverCt v C E ct1 ct2 E2 es ss ee se in
  conn_Write (respMsg E2 ct3) c1 = (c2, Ok tt) →
  Server dl K K2 oi c =
  ((mkSym true (hFinal v C E ct1 ct2 E2 ct3) (ckSE es ss ee se), c2),
   Ok (mkSession v mk (hFinal v C E ct1 ct2 E2 ct3) (sessKey2 (ckSE es ss ee se))
         (sessKey1 (ckSE es ss ee se)))).
Proof using All.
  intros Hdl [HK HK2 Hes Hmk Hmkl Hss [p Htag] Hee Hse] ct3 Hw. unfold Server, Server_body.
  erewrite stM_bind_run; [|by destruct dl as [[]|]]. cbn beta. st_step ltac:(done).
  st_step ltac:(apply onConn_run, Hread). st_step ltac:(apply lift_run, Hv).
  st_step ltac:(apply onSym_run, MixHash_run). st_step ltac:(by apply lift_run, Public_run).
  st_step ltac:(apply onSym_run, MixHash_run). st_step ltac:(by apply lift_run, init_EphemeralPub_run).
  st_step ltac:(apply lift_run; unfold MachinePublicFromRaw32, zlen; by rewrite HE).
  st_step ltac:(apply onSym_run, MixHash_run). st_step ltac:(by apply onSym_run, wrapS_run, MixDH_run).
  st_step ltac:(by apply lift_run, init_MachinePub_run).
  st_step ltac:(apply onSym_run, wrapS_run, DecryptAndHash_run; [unfold zlen; by rewrite H1|apply Hmk]).
  st_step ltac:(apply lift_run; unfold MachinePublicFromRaw32, zlen; by rewrite Hmkl).
  st_step ltac:(by apply onSym_run, wrapS_run, MixDH_run).
  st_step ltac:(by apply lift_run, init_Tag_run).
  st_step ltac:(apply onSym_run, wrapS_run, DecryptAndHash_run; [unfold zlen; by rewrite H2|apply Htag]).
  st_step ltac:(apply lift_run, mkResponseMessage_eq). st_step ltac:(by apply lift_run, Public_run).
  st_step ltac:(apply lift_run, put_resp_EphemeralPub; [done|done|]; rewrite take_ge; rewrite ScalarBaseMult_length; done).
  rewrite take_ge by (by rewrite ScalarBaseMult_length).
  st_step ltac:(apply onSym_run, MixHash_run).
  do 2 st_step ltac:(by apply onSym_run, wrapS_run, MixDH_run).
  st_step ltac:(apply lift_run, resp_Tag_run; [done|apply ScalarBaseMult_length]).
  st_step ltac:(by apply onSym_run, EncryptAndHash_run).
  st_step ltac:(apply lift_run, put_resp_Tag; [done|apply ScalarBaseMult_length|done|apply Seal_nil_length]).
  st_step ltac:(apply onSym_run, wrapS_run, Split_run). cbn iota.
  change (respHdr ++ _) with (respMsg E2 ct3).
  st_step ltac:(apply onConn_run, Hw). done.
Qed.

Lemma Server_accepts hs sess :
  Server dl K K2 oi c = (hs, Ok sess) →
  dl ≠ Some true ∧
  ∃ es ss ee se mk c2, Accepted K K2 v E ct1 ct2 es ss ee se mk ∧
    conn_Write (respMsg E2 (serverCt v C E ct1 ct2 E2 es ss ee se)) c1 = (c2, Ok tt).
Proof using All.
  intros Hb. unfold Server, Server_body in Hb. assert (dl ≠ Some true) as Hdl by (by intros ->).
  split; [done|]. erewrite stM_bind_run in Hb; [|by destruct dl as [[]|]]. cbn beta in Hb.
  erewrite stM_bind_run in Hb by done. cbn beta in Hb.
  apply onConn_bind_inv in Hb as (c1' & init & Hread' & Hb). rewrite Hread in Hread'. injection Hread' as <- <-.
  apply lift_bind_inv in Hb as (v' & Hv' & Hb). rewrite Hv in Hv'. injection Hv' as <-.
  apply MixHash_bind_inv in Hb. apply lift_bind_inv in Hb as (C' & [HK ->]%Public_inv & Hb).
  apply MixHash_bind_inv in Hb. apply lift_bind_inv in Hb as (E' & HE' & Hb).
  rewrite init_EphemeralPub_run in HE' by done. injection HE' as <-.
  apply lift_bind_inv in Hb as (E' & HE' & Hb). unfold MachinePublicFromRaw32 in HE'.
  destruct (negb _) in HE'; [done|]. injection HE' as <-. apply MixHash_bind_inv in Hb.
  apply MixDH_bind_inv in Hb as (es & Hes & Hb). apply lift_bind_inv in Hb as (mp & Hmp & Hb).
  rewrite init_MachinePub_run in Hmp by done. injection Hmp as <-.
  apply Decrypt_bind_inv in Hb as (mk & _ & Hmk & Hb). apply lift_bind_inv in Hb as (mk' & Hmk' & Hb).
  unfold MachinePublicFromRaw32 in Hmk'. destruct (negb _) eqn:Hl in Hmk'; [done|]. injection Hmk' as <-.
  apply MixDH_bind_inv in Hb as (ss & Hss & Hb). apply lift_bind_inv in Hb as (tag & Htag & Hb).
  rewrite init_Tag_run in Htag by done. injection Htag as <-.
  apply Decrypt_bind_inv in Hb as (p & _ & Hp & Hb). apply lift_bind_inv in Hb as (r0 & Hr0 & Hb).
  rewrite mkResponseMessage_eq in Hr0. apply Ok_inj in Hr0 as <-.
  apply lift_bind_inv in Hb as (E2' & [HK2 ->]%Public_inv & Hb). apply lift_bind_inv in Hb as (r1 & Hr1 & Hb).
  unfold copy_at in Hr1. rewrite take_ge in Hr1 by (by rewrite ScalarBaseMult_length).
  rewrite put_resp_EphemeralPub in Hr1; [|done|done|apply ScalarBaseMult_length]. apply Ok_inj in Hr1 as <-.
  apply MixHash_bind_inv in Hb. apply MixDH_bind_inv in Hb as (ee & Hee & Hb).
  apply MixDH_bind_inv in Hb as (se & Hse & Hb). apply lift_bind_inv in Hb as (tag & Htag & Hb).
  rewrite resp_Tag_run in Htag; [|done|apply ScalarBaseMult_length]. injection Htag as <-.
  erewrite stM_bind_run in Hb by (by apply onSym_run, EncryptAndHash_run). cbn beta in Hb.
  apply lift_bind_inv in Hb as (r2 & Hr2 & Hb).
  rewrite put_resp_Tag in Hr2; [|done|apply ScalarBaseMult_length|done|apply Seal_nil_length]. apply Ok_inj in Hr2 as <-.
  erewrite stM_bind_run in Hb by (apply onSym_run, wrapS_run, Split_run). cbn beta iota in Hb.
  apply onConn_bind_inv in Hb as (c2 & [] & Hw & _).
  exists es, ss, ee, se, mk, c2. split; [|exact Hw]. split; eauto.
  bool_prop. unfold zlen in Hl. lia.
Qed.
End ServerRun.

(** The continuation can complete a handshake once: however a call ended, another
    one with the same state does not succeed. *)
Lemma continuation_runs_once dl m e C v hs hs1 r1 dl' m' e' C' v' c hs2 sess :
  continueClientHandshake dl m e C v hs = (hs1, r1) →
  continueClientHandshake dl' m' e' C' v' (hs1.1, c) ≠ (hs2, Ok sess).
Proof.
  intros H1 H2. unfold continueClientHandshake in H1.
  destruct (continue_body dl m e C v hs) as [[s1 c1] r] eqn:Hb. injection H1 as <- _. cbn in H2.
  unfold continueClientHandshake in H2.
  destruct (continue_body dl' m' e' C' v' _) as [[s2 c2] r'] eqn:Hb2. injection H2 as _ ->.
  unfold continue_body in Hb2. apply stM_bind_Ok in Hb2 as (hs3 & u & Hd & Hb2).
  assert (hs3 = (mkSym true (s_h s1) (s_ck s1), c)) as -> by (destruct dl' as [[]|]; by injection Hd as <-).
  apply onConn_bind_inv in Hb2 as (c3 & resp & _ & Hb2). apply lift_bind_inv in Hb2 as (raw & _ & Hb2).
  apply lift_bind_inv in Hb2 as (e2 & _ & Hb2). apply stM_bind_Ok in Hb2 as (hs4 & u4 & Hm & _). done.
Qed.

(** A message of 2^16 bytes or more is cut to 2^16, which the length field of the
    header cannot express: it announces an empty one. *)
Lemma sendErr_long_message msg c :
  c_wfail c = [] → 2 ^ 16 <= zlen msg →
  c_writes (sendErr (A := unit) msg c).1 = c_writes c ++ [[msgTypeError; 0; 0]; take (Z.to_nat (2 ^ 16)) msg].
Proof.
  intros Hw Hl. unfold sendErr. replace (2 ^ 16 <=? zlen msg) with true by lia.
  assert (zlen (take (Z.to_nat (2 ^ 16)) msg) = 2 ^ 16) as -> by (unfold zlen in *; rewrite length_take; lia).
  do 2 erewrite stM_bind_run by done. cbn beta.
  erewrite stM_bind_run by (apply wrapS_run; unfold conn_Write; by rewrite Hw). cbn beta.
  erewrite stM_bind_run by (apply wrapS_run; done). cbn. by rewrite <- app_assoc.
Qed.

(** ** Agreement *)

(** The sessions of a client with key [m] and a server with key [K] are the two
    ends of one connection: each names the other, and what one end encrypts with
    is what the other decrypts with. *)
Record partners (m K : bytes) (client server : Session) : Prop := {
  pt_version : se_version client = se_version server;
  pt_server : se_peer client = ScalarBaseMult K;
  pt_client : se_peer server = ScalarBaseMult m;
  pt_hash : se_handshakeHash client = se_handshakeHash server;
  pt_up : se_tx client = se_rx server;
  pt_down : se_rx client = se_tx server
}.

(** The client's message, when the exchanges succeed, is accepted by the server
    that has the key the client expects. *)
Lemma client_accepted m e K K2 v es ss ee se :
  nonzero K → nonzero K2 →
  X25519 e (ScalarBaseMult K) = Some es → X25519 m (ScalarBaseMult K) = Some ss →
  X25519 e (ScalarBaseMult K2) = Some ee → X25519 m (ScalarBaseMult K2) = Some se →
  let C := ScalarBaseMult K in
  Accepted K K2 v (ScalarBaseMult e) (clientCt1 v m e C es) (clientCt2 v m e C es ss) es ss ee se
    (ScalarBaseMult m).
Proof.
  intros HK HK2 Hes Hss Hee Hse. split; try done.
  - by rewrite X25519_comm.
  - apply Open_Seal.
  - apply ScalarBaseMult_length.
  - by rewrite X25519_comm.
  - eexists. apply Open_Seal.
  - by rewrite X25519_comm.
  - by rewrite X25519_comm.
Qed.

(** The messages and sessions of a run of both roles over connections that
    deliver. *)
Lemma honest_run m e K K2 v es ss ee se :
  nonzero m → nonzero e → nonzero K → nonzero K2 → 0 <= v < 2 ^ 16 →
  X25519 e (ScalarBaseMult K) = Some es → X25519 m (ScalarBaseMult K) = Some ss →
  X25519 e (ScalarBaseMult K2) = Some ee → X25519 m (ScalarBaseMult K2) = Some se →
  ∃ s init resp sessC sessS,
    ClientDeferred m (ScalarBaseMult K) v e = (s, Ok init) ∧
    partners m K sessC sessS ∧ se_version sessS = v ∧
    (∀ oi c rest, reads_ok c → c_wfail c = [] →
      (oi = Some init ∧ rest = c_in c ∨ oi = None ∧ c_in c = init ++ rest) →
      ∃ hs, Server None K K2 oi c = (hs, Ok sessS) ∧ c_sent hs.2 = c_sent c ++ resp ∧
            c_in hs.2 = rest ∧ reads_ok hs.2 ∧ c_wfail hs.2 = []) ∧
    (∀ c rest, reads_ok c → c_in c = resp ++ rest →
      ∃ hs, continueClientHandshake None m e (ScalarBaseMult K) v (s, c) = (hs, Ok sessC) ∧
            c_sent hs.2 = c_sent c ∧ c_in hs.2 = rest ∧ reads_ok hs.2 ∧ c_wfail hs.2 = c_wfail c).
Proof.
  intros Hm He HK HK2 Hv Hes Hss Hee Hse.
  pose proof (client_accepted m e K K2 v es ss ee se HK HK2 Hes Hss Hee Hse) as Hacc. cbn in Hacc.
  set (C := ScalarBaseMult K) in *. set (E := ScalarBaseMult e) in *.
  set (ct1 := clientCt1 v m e C es) in *. set (ct2 := clientCt2 v m e C es ss) in *.
  assert (length E = 32%nat) as HlE by apply ScalarBaseMult_length.
  assert (length ct1 = 48%nat) as Hl1 by (apply Seal_key_length, ScalarBaseMult_length).
  assert (length ct2 = 16%nat) as Hl2 by apply Seal_nil_length.
  set (ct3 := serverCt v C E ct1 ct2 (ScalarBaseMult K2) es ss ee se).
  set (resp := respMsg (ScalarBaseMult K2) ct3).
  eexists _, _, resp, (mkSession v C (hFinal v C E ct1 ct2 (ScalarBaseMult K2) ct3) _ _), _.
  split; [by apply ClientDeferred_run|]. split; [|split; [|split]].
  3:{ intros oi sconn rest Hok Hwf Hoi.
    destruct (readInitiation_run oi v E ct1 ct2 sconn rest HlE Hl1 Hl2 Hok Hoi)
      as (c1 & Hread & Hin1 & Hok1 & Hs1 & Hw1).
    assert (conn_Write resp c1 = (mkConn (c_in c1) (c_reads c1) (c_sent c1 ++ resp) (c_writes c1 ++ [resp]) [], Ok tt))
      as Hw by (unfold conn_Write; by rewrite Hw1, Hwf).
    eexists. split.
    { rewrite initMsg_hdr in Hread.
      apply (Server_run None K K2 oi sconn c1 (initHdr v) E ct1 ct2 v) with (mk := ScalarBaseMult m); try done.
      destruct (init_checks v (E ++ ct1 ++ ct2)) as (_ & _ & _ & ->). f_equal. by apply Z.mod_small. }
    cbn. rewrite Hs1. done. }
  3:{ intros cconn rest Hok Hin.
    destruct (readResponse_run _ _ _ _ Hok Hin) as (c2 & Hr & Hin2 & Hok2);
      [apply ScalarBaseMult_length|apply Seal_nil_length|].
    pose proof (readResponse_frame _ _ _ Hr) as [Hs Hw].
    eexists. split.
    { eapply (continue_run None m e C v _ _ cconn c2 respHdr);
        [done|apply Hr|done|apply ScalarBaseMult_length|apply Seal_nil_length|done|done|apply Open_Seal]. }
    done. }
  - done.
  - done.
Qed.

(** C22. A client and a server that run the handshake on connections that deliver the other's message,
    in pieces of any size and with more bytes behind it, both finish. Their sessions agree on the protocol
    version and on the handshake hash, each names the other's machine key as its peer, and what one encrypts
    with is what the other decrypts with. Each has sent its one message and consumed the other's and nothing
    beyond it. *)
Theorem handshake_completes m e K K2 v es ss ee se :
  nonzero m → nonzero e → nonzero K → nonzero K2 → 0 <= v < 2 ^ 16 →
  X25519 e (ScalarBaseMult K) = Some es → X25519 m (ScalarBaseMult K) = Some ss →
  X25519 e (ScalarBaseMult K2) = Some ee → X25519 m (ScalarBaseMult K2) = Some se →
  ∃ init resp sessC sessS, partners m K sessC sessS ∧ se_version sessC = v ∧
    ∀ cconn crest sconn srest,
      reads_ok cconn → c_wfail cconn = [] → c_in cconn = resp ++ crest →
      reads_ok sconn → c_wfail sconn = [] → c_in sconn = init ++ srest →
      ∃ hsC hsS,
        Client None m (ScalarBaseMult K) v e cconn = (hsC, Ok sessC) ∧
        Server None K K2 None sconn = (hsS, Ok sessS) ∧
        c_sent hsC.2 = c_sent cconn ++ init ∧ c_in hsC.2 = crest ∧
        c_sent hsS.2 = c_sent sconn ++ resp ∧ c_in hsS.2 = srest.
Proof.
  intros Hm He HK HK2 Hv Hes Hss Hee Hse.
  destruct (honest_run m e K K2 v es ss ee se) as (s & init & resp & sessC & sessS & Hc & Hp & Hver & HS & HC);
    [done..|].
  exists init, resp, sessC, sessS. split; [done|]. split; [by rewrite (pt_version _ _ _ _ Hp)|].
  intros cconn crest sconn srest Hok Hw Hin Hok' Hw' Hin'.
  destruct (HS None sconn srest) as (hsS & Hserver & ? & ? & _); [auto..|].
  destruct (HC (mkConn (c_in cconn) (c_reads cconn) (c_sent cconn ++ init) (c_writes cconn ++ [init]) []) crest)
    as (hsC & Hclient & ? & ? & _); [done..|].
  exists hsC, hsS. split_and!; [|done..]. unfold Client. rewrite Hc.
  erewrite stM_bind_run; [exact Hclient|]. apply onConn_run. unfold conn_Write. by rewrite Hw.
Qed.

(** ** The handshake hash *)
Section HashBinds.
Hypothesis blake2s_inj : ∀ x y, blake2s x = blake2s y → x = y.

Lemma mixH_inj h d h' d' : mixH h d = mixH h' d' → length h = length h' → h = h' ∧ d = d'.
Proof using blake2s_inj. intros Heq%blake2s_inj Hl. by apply app_inj_1 in Heq. Qed.

Lemma mixH_length h d : length (mixH h d) = 32%nat.
Proof. apply blake2s_length. Qed.

Lemma hE_inj v C E v' C' E' :
  hE v C E = hE v' C' E' → v = v' ∧ C = C' ∧ E = E'.
Proof using H0 blake2s_inj.
  unfold hE. intros Hh. do 2 (apply mixH_inj in Hh as [Hh ?]; [|by rewrite !mixH_length]).
  apply mixH_inj in Hh as [_ Hp]; [|done]. apply app_inj_1 in Hp as [_ Hv%itoa_inj]; done.
Qed.

Lemma hFinal_inj v C E ct1 ct2 E2 ct3 v' C' E' ct1' ct2' E2' ct3' :
  hFinal v C E ct1 ct2 E2 ct3 = hFinal v' C' E' ct1' ct2' E2' ct3' →
  v = v' ∧ C = C' ∧ E = E' ∧ ct1 = ct1' ∧ ct2 = ct2' ∧ E2 = E2' ∧ ct3 = ct3'.
Proof using H0 blake2s_inj.
  unfold hFinal. intros Hh. do 4 (apply mixH_inj in Hh as [Hh ->]; [|unfold hE; by rewrite !mixH_length]).
  apply hE_inj in Hh as (-> & -> & ->). done.
Qed.

(** C16. Channel binding: whatever an attacker did to the messages in between, if a client and a server
    that both finished hold the same handshake hash then they spoke to each other. They agree on the version,
    each has the other's machine key as its peer, and they hold the same pair of transport keys. The hash
    function is taken to have no collisions. *)
Theorem handshake_hash_binds m e C v dl s init cconn hs1 sessC dl' K K2 oi sconn hs2 sessS :
  ClientDeferred m C v e = (s, Ok init) →
  continueClientHandshake dl m e C v (s, cconn) = (hs1, Ok sessC) →
  Server dl' K K2 oi sconn = (hs2, Ok sessS) →
  se_handshakeHash sessC = se_handshakeHash sessS →
  partners m K sessC sessS.
Proof using blake2s_inj H0.
  intros HC HCont HS Hhash.
  pose proof HC as (Hm & He & es & ss & Hes & Hss)%ClientDeferred_dh.
  rewrite (ClientDeferred_run m e C v es ss Hm He Hes Hss) in HC. injection HC as <- _.
  apply continue_inv in HCont as (e2 & ct & p & ee & se & Hee & Hse & _ & _ & _ & ->).
  assert (∃ c1 initS, readInitiation oi sconn = (c1, Ok initS)) as (c1 & initS & Hread).
  { unfold Server, Server_body in HS. erewrite stM_bind_run in HS; [|by destruct dl' as [[]|]].
    erewrite stM_bind_run in HS by done. apply onConn_bind_inv in HS as (? & ? & ? & _). eauto. }
  pose proof Hread as (hdr & E & ct1 & ct2 & -> & Hh & HlE & Hl1 & Hl2)%readInitiation_inv.
  assert (∃ v', init_Version (hdr ++ E ++ ct1 ++ ct2) = Ok v') as [v' Hv'].
  { eexists. apply Uint16_Ok; [done|]. unfold zlen. rewrite length_app, Hh. lia. }
  destruct (Server_accepts dl' K K2 oi sconn c1 hdr E ct1 ct2 _ Hh HlE Hl1 Hl2 Hread Hv' hs2 sessS HS)
    as (Hdl & es' & ss' & ee' & se' & mk & c2 & Hacc & Hw).
  rewrite (Server_run dl' K K2 oi sconn c1 hdr E ct1 ct2 _ Hh HlE Hl1 Hl2 Hread Hv' es' ss' ee' se' mk c2
             Hdl Hacc Hw) in HS. injection HS as _ <-. cbn in Hhash.
  apply hFinal_inj in Hhash as (<- & -> & <- & <- & <- & -> & ->).
  destruct Hacc as [HK HK2 Hes' Hmk _ Hss' _ Hee' Hse'].
  assert (es' = es) as -> by (rewrite X25519_comm in Hes'; congruence).
  unfold clientCt1 in Hmk. rewrite Open_Seal in Hmk. injection Hmk as <-.
  assert (ss' = ss) as -> by (rewrite X25519_comm in Hss'; congruence).
  assert (ee' = ee) as -> by (rewrite X25519_comm in Hee'; congruence).
  assert (se' = se) as -> by (rewrite X25519_comm in Hse'; congruence).
  done.
Qed.
End HashBinds.

End Agreement.

(** ** A concrete instance *)
Module ToyNoise.

Definition sum (l : bytes) : Z := fold_right Z.add 0 l.

(** An injective digest of 32 numbers: only the last carries information. *)
Definition digest (b : bytes) : bytes := replicate 31 0 ++ [Zpos (encode b)].

Definition scalarBaseMult (a : bytes) : bytes := replicate 31 9 ++ [sum a].
Definition x25519 (a p : bytes) : option bytes := Some (replicate 31 5 ++ [sum a + List.last p 0]).
Definition expand (secret salt : bytes) : bytes :=
  take (Z.to_nat (255 * 32)) (secret ++ salt ++ replicate (Z.to_nat (255 * 32)) 0).

(** The tag: the nonce, and a checksum. *)
Definition tag (k n p ad : bytes) : bytes :=
  copy_array 12 (u8 <$> n) ++ [u8 (sum k * 3 + sum ad * 7 + sum p); 0; 0; 0].
Definition seal (k n p ad : bytes) : bytes := p ++ tag k n p ad.
Definition open (k n c ad : bytes) : option bytes :=
  let p := take (length c - 16) c in
  if bool_decide (c = seal k n p ad) then Some p else None.

#[export] Instance crypto : NoiseCrypto := {
  blake2s := digest;
  X25519 := x25519;
  ScalarBaseMult := scalarBaseMult;
  hkdf := expand;
  aead_Seal := seal;
  aead_Open := open
}.

Lemma tag_length k n p ad : length (tag k n p ad) = 16%nat.
Proof. unfold tag. by rewrite length_app, copy_array_length. Qed.

Lemma u8_byte z : is_byte (u8 z).
Proof. apply Z.mod_pos_bound. lia. Qed.

Lemma tag_byte k n p ad : Forall is_byte (tag k n p ad).
Proof.
  unfold tag, copy_array. apply Forall_app; split; [apply Forall_app; split|].
  - apply Forall_take, Forall_fmap, Forall_true. intros z. apply u8_byte.
  - by apply Forall_replicate.
  - repeat constructor; apply u8_byte || done.
Qed.

#[export] Instance laws : NoiseLaws.
Proof.
  split.
  - intros b. change (blake2s b) with (digest b). unfold digest. rewrite length_app, length_replicate. done.
  - intros a b. change (x25519 a (scalarBaseMult b) = x25519 b (scalarBaseMult a)).
    unfold x25519, scalarBaseMult. rewrite !last_last. by rewrite Z.add_comm.
  - intros a. change (ScalarBaseMult a) with (scalarBaseMult a). unfold scalarBaseMult. rewrite length_app, length_replicate. done.
  - intros secret salt. change (hkdf secret salt) with (expand secret salt). unfold expand, zlen. rewrite length_take, !length_app, length_replicate. lia.
  - intros k n p ad Hp. change (aead_Seal k n p ad) with (seal k n p ad).
    apply Forall_app; split; [done|apply tag_byte].
  - intros k n p ad. change (aead_Seal k n p ad) with (seal k n p ad). unfold seal, zlen, chp_Overhead.
    rewrite length_app, tag_length. lia.
  - intros k n p ad. change (open k n (seal k n p ad) ad = Some p). unfold open. replace (take _ (seal k n p ad)) with p; [by rewrite bool_decide_true|].
    unfold seal. rewrite length_app, tag_length.
    replace (_ - 16)%nat with (length p) by lia. by rewrite take_app_length.
  - intros k n c ad p. change (open k n c ad = Some p → c = seal k n p ad). unfold open. case_bool_decide as Hc; [|done]. intros. by simplify_eq.
Qed.

Lemma digest_inj x y : blake2s x = blake2s y → x = y.
Proof. change (digest x = digest y → x = y). unfold digest. intros [_ Heq]%app_inj_1; [|done]. by simplify_eq. Qed.

Definition mKey : bytes := replicate 31 0 ++ [1].
Definition mEph : bytes := replicate 31 0 ++ [2].
Definition kKey : bytes := replicate 31 0 ++ [3].
Definition kEph : bytes := replicate 31 0 ++ [4].

(** A connection on which the peer's bytes arrive in small pieces. *)
Definition piecemeal (b : bytes) : NetConn := mkConn b (replicate 7 (mkRead 2 false)) [] [] [].

End ToyNoise.
Import ToyNoise.

Lemma handshake_completes_witness :
  ∃ hsC hsS sessC sessS cconn sconn,
    Client None mKey (ScalarBaseMult kKey) 39 mEph cconn = (hsC, Ok sessC) ∧
    Server None kKey kEph None sconn = (hsS, Ok sessS) ∧ partners mKey kKey sessC sessS.
Proof.
  destruct (handshake_completes mKey mEph kKey kEph 39
              _ _ _ _ ltac:(done) ltac:(done) ltac:(done) ltac:(done) ltac:(lia) eq_refl eq_refl eq_refl eq_refl)
    as (init & resp & sessC & sessS & Hp & _ & Hrun).
  destruct (Hrun (piecemeal resp) [] (piecemeal init) []) as (hsC & hsS & HC & HS & _);
    try done; try (by repeat constructor); [by rewrite app_nil_r..|].
  exists hsC, hsS, sessC, sessS, (piecemeal resp), (piecemeal init). done.
Defined.

Lemma handshake_hash_binds_witness :
  ∃ sessC sessS, se_handshakeHash sessC = se_handshakeHash sessS ∧ partners mKey kKey sessC sessS.
Proof.
  destruct (honest_run mKey mEph kKey kEph 39 _ _ _ _ ltac:(done) ltac:(done) ltac:(done) ltac:(done)
              ltac:(lia) eq_refl eq_refl eq_refl eq_refl)
    as (s & init & resp & sessC & sessS & Hc & Hp & _ & Hserver & Hclient).
  destruct (Hserver (Some init) (piecemeal []) []) as (hs & Hs & _);
    [by repeat constructor|done|by left|].
  destruct (Hclient (piecemeal resp) []) as (hs' & Hcl & _); [by repeat constructor|by rewrite app_nil_r|].
  exists sessC, sessS. split; [apply Hp|].
  exact (handshake_hash_binds digest_inj _ _ _ _ _ _ _ _ _ _ _ _ _ _ _ _ _ Hc Hcl Hs (pt_hash _ _ _ _ Hp)).
Defined.
