(* ===== verification/NoiseConn.v ===== *)
(** * control/controlbase: the transport

    [conn.go]: after the handshake each direction is a sequence of frames, each
    of at most 4096 bytes, encrypted under consecutive nonces.  [Read] keeps one
    buffer that may hold parts of several frames, decrypts in place, and gives the
    buffer back to a pool when it is empty; [Write] cuts its argument into frames
    and refuses to go on after any error. *)
From S2P Require Import Prelude NetBuf GoState NetConn NoiseHandshake.

Definition maxMessageSize : Z := 4096.
Definition maxCiphertextSize : Z := maxMessageSize - 3.
Definition maxPlaintextSize : Z := maxCiphertextSize - chp_Overhead.

Definition ErrClosed : error := Errorf "use of closed network connection".
Definition errReadTooBig : error := Errorf "requested read exceeds max allowed Noise frame size".
Definition errCipherExhausted : error := Errorf "cipher exhausted".
Definition errPartialWrite : error := Errorf "cipher state desynchronized due to partial write".

(** ** Nonces *)
Definition invalidNonce : Z := 2 ^ 64 - 1.

(** [binary.BigEndian.PutUint64(b[i:], v)] *)
Definition PutUint64 (b : bytes) (i v : Z) : res bytes := put_bytes b i (be_bytes 8 v).

Definition nonce_Valid (n : bytes) : res bool :=
  hi ← Uint32 n 0; lo ← Uint64 n 4; Ok ((hi =? 0) && negb (lo =? invalidNonce)).

Definition nonce_Increment (n : bytes) : res bytes :=
  valid ← nonce_Valid n;
  if negb valid then Panic else
  lo ← Uint64 n 4; PutUint64 n 4 (u64 (1 + lo)).

(** ** State *)

(** [rxState]: [rx_buf] is [None] while no buffer is held. *)
Record rxState := mkRx {
  rx_cipher : option bytes;
  rx_nonce : bytes;
  rx_buf : option bytes;
  rx_n : Z;
  rx_next : Z;
  rx_plaintext : bytes
}.

Record txState := mkTx { tx_cipher : option bytes; tx_nonce : bytes; tx_err : option error }.

(** [Conn]; the connection below it is part of the state. *)
Record Conn := mkCConn {
  cc_conn : NetConn;
  cc_version : Z;
  cc_peer : bytes;
  cc_handshakeHash : bytes;
  cc_rx : rxState;
  cc_tx : txState
}.

Definition ProtocolVersion (c : Conn) : Z := cc_version c.
Definition HandshakeHash (c : Conn) : bytes := cc_handshakeHash c.
Definition Peer (c : Conn) : bytes := cc_peer c.

Definition newRx (key : bytes) : rxState :=
  mkRx (Some key) (replicate chp_NonceSize 0) None 0 0 [].
Definition newTx (key : bytes) : txState := mkTx (Some key) (replicate chp_NonceSize 0) None.

(** The [Conn] that a handshake builds. *)
Definition newConn (s : Session) (c : NetConn) : Conn :=
  mkCConn c (se_version s) (se_peer s) (se_handshakeHash s) (newRx (se_rx s)) (newTx (se_tx s)).

(** Record updates. *)
Definition set_cipher (k : option bytes) (r : rxState) : rxState :=
  mkRx k (rx_nonce r) (rx_buf r) (rx_n r) (rx_next r) (rx_plaintext r).
Definition set_nonce (n : bytes) (r : rxState) : rxState :=
  mkRx (rx_cipher r) n (rx_buf r) (rx_n r) (rx_next r) (rx_plaintext r).
Definition set_buf (b : option bytes) (n : Z) (r : rxState) : rxState :=
  mkRx (rx_cipher r) (rx_nonce r) b n (rx_next r) (rx_plaintext r).
Definition set_next (next : Z) (r : rxState) : rxState :=
  mkRx (rx_cipher r) (rx_nonce r) (rx_buf r) (rx_n r) next (rx_plaintext r).
Definition set_plaintext (p : bytes) (r : rxState) : rxState :=
  mkRx (rx_cipher r) (rx_nonce r) (rx_buf r) (rx_n r) (rx_next r) p.

(** What [Read] works on. *)
Definition RX : Type := rxState * NetConn.
Definition getRx : stM RX rxState := λ st, (st, Ok st.1).
Definition modRx (f : rxState → rxState) : stM RX unit := λ st, ((f st.1, st.2), Ok tt).
Definition readConn (cap : Z) : stM RX (bytes * option error) := λ st,
  let '(c, r) := conn_Read (Z.to_nat cap) st.2 in ((st.1, c), Ok r).

(** [*c.rx.buf]: a nil pointer panics. *)
Definition theBuf (r : rxState) : res bytes :=
  match rx_buf r with Some b => Ok b | None => Panic end.

Section Transport.
Context `{NoiseCrypto}.

(** [getMaxMsgBuffer]: the pool hands out a buffer with whatever it was last used
    for in it. *)
Context (getMaxMsgBuffer : NetConn → bytes).

(** ** Reading *)

(** [if n > 0 { c.rx.buf = getMaxMsgBuffer(); copy(c.rx.buf[:], c.rx.hdrBuf[:n]) }] *)
Definition keepHeader (bs : bytes) : stM RX unit := λ st,
  if 0 <? zlen bs then
    (buf ← lift (put_bytes (getMaxMsgBuffer st.2) 0 bs);
     modRx (λ rx, set_buf (Some buf) (rx_n rx) rx)) st
  else (st, Ok tt).

(** The read of one turn of the loop: into the small header buffer while no
    buffer is held, else behind the valid bytes of the buffer. *)
Definition readSome (total : Z) : stM RX (bytes * option error) :=
  rx ← getRx;
  match rx_buf rx with
  | None =>
      if negb (rx_n rx =? 0) || negb (total =? headerLen) then panic else
      r ← readConn headerLen;
      _ ← keepHeader r.1;
      mret r
  | Some buf =>
      room ← lift (slice_from buf (rx_n rx));
      r ← readConn (zlen room);
      buf ← lift (put_bytes buf (rx_n rx) r.1);
      _ ← modRx (λ rx, set_buf (Some buf) (rx_n rx) rx);
      mret r
  end.

Definition readOnce (total : Z) : stM RX unit :=
  r ← readSome total;
  _ ← modRx (λ rx, set_buf (rx_buf rx) (rx_n rx + zlen r.1) rx);
  match r.2 with Some e => throw e | None => mret tt end.

(** The loop, until the buffer holds enough. *)
Fixpoint readLoop (fuel : nat) (total : Z) : stM RX unit := λ st,
  match fuel with
  | O => (st, NoFuel)
  | S fuel =>
      if total <=? rx_n st.1 then
        (buf ← lift (theBuf st.1); _ ← lift (slice buf 0 total); mret tt) st
      else (_ ← readOnce total; readLoop fuel total) st
  end.

(** On success the message is [c.rx.buf[:total]]. *)
Definition readNLocked (total : Z) : stM RX unit := λ st,
  if maxMessageSize <? total then (st, Err errReadTooBig)
  else readLoop (S (read_calls st.2)) total st.

(** [msg] is [c.rx.buf[off:off+len]]; the plaintext is written over it. *)
Definition decryptLocked (off len : Z) : stM RX unit :=
  rx ← getRx;
  buf ← lift (theBuf rx);
  msg ← lift (slice buf off (off + len));
  msgType ← lift (idx msg 0);
  if negb (msgType =? msgTypeRecord) then throw (Errorf "received message with unexpected type") else
  ciphertext ← lift (slice_from msg headerLen);
  valid ← lift (nonce_Valid (rx_nonce rx));
  if negb valid then throw errCipherExhausted else
  match rx_cipher rx with
  | None => panic
  | Some key =>
      let opened := aead_Open key (rx_nonce rx) ciphertext [] in
      nonce ← lift (nonce_Increment (rx_nonce rx));
      _ ← modRx (set_nonce nonce);
      match opened with
      | Some plaintext =>
          buf ← lift (put_bytes buf (off + headerLen) plaintext);
          _ ← modRx (λ rx, set_plaintext plaintext (set_buf (Some buf) (rx_n rx) rx));
          mret tt
      | None =>
          _ ← modRx (λ rx, set_cipher None (set_plaintext [] rx));
          throw (Errorf "message authentication failed")
      end
  end.

(** The offset and length of the next whole message in the buffer, if any. *)
Definition wholeMessageLocked : stM RX (option (Z * Z)) :=
  rx ← getRx;
  let available := rx_n rx - rx_next rx in
  if available <? headerLen then mret None else
  buf ← lift (theBuf rx);
  bs ← lift (slice buf (rx_next rx) (rx_n rx));
  len ← lift (Uint16 bs 1);
  let totalSize := headerLen + len in
  if zlen bs <? totalSize then mret None else
  _ ← modRx (λ rx, set_next (rx_next rx + totalSize) rx);
  mret (Some (rx_next rx, totalSize)).

(** [c.rx.n = copy(c.rx.buf[:], c.rx.buf[c.rx.next:c.rx.n]); c.rx.next = 0] *)
Definition moveToHead : stM RX unit :=
  rx ← getRx;
  buf ← lift (theBuf rx);
  rest ← lift (slice buf (rx_next rx) (rx_n rx));
  buf ← lift (put_bytes buf 0 rest);
  modRx (λ rx, set_next 0 (set_buf (Some buf) (zlen rest) rx)).

Definition decryptOneLocked : stM RX unit :=
  _ ← modRx (set_plaintext []);
  whole ← wholeMessageLocked;
  match whole with
  | Some (off, len) => decryptLocked off len
  | None =>
      rx ← getRx;
      _ ← (if negb (rx_next rx =? 0) then moveToHead else mret tt);
      _ ← modRx (λ rx, if (rx_n rx =? 0) && (rx_next rx =? 0) && bool_decide (is_Some (rx_buf rx))
                       then set_buf None (rx_n rx) rx else rx);
      _ ← readNLocked headerLen;
      rx ← getRx;
      buf ← lift (theBuf rx);
      bs ← lift (slice buf 0 headerLen);
      len ← lift (Uint16 bs 1);
      let messageLen := headerLen + len in
      _ ← readNLocked messageLen;
      _ ← modRx (set_next messageLen);
      decryptLocked 0 messageLen
  end.

(** [for len(c.rx.plaintext) == 0 { .. }] *)
Fixpoint plaintextLoop (fuel : nat) : stM RX unit := λ st,
  match fuel with
  | O => (st, NoFuel)
  | S fuel =>
      if zlen (rx_plaintext st.1) =? 0 then (_ ← decryptOneLocked; plaintextLoop fuel) st
      else (st, Ok tt)
  end.

(** The bytes that are buffered or still to come bound the number of frames. *)
Definition unread (st : RX) : nat := Z.to_nat (rx_n st.1 - rx_next st.1) + length (c_in st.2).

(** [Read(bs)] with [len(bs) = cap]: the bytes copied to [bs]. *)
Definition Read (cap : nat) : stM RX bytes := λ st,
  match rx_cipher st.1 with
  | None => (st, Err ErrClosed)
  | Some _ =>
      (_ ← plaintextLoop (S (unread st));
       rx ← getRx;
       let out := take cap (rx_plaintext rx) in
       _ ← modRx (set_plaintext (drop (length out) (rx_plaintext rx)));
       mret out) st
  end.

(** ** Writing *)
Definition TX : Type := txState * NetConn.

Definition encryptLocked (plaintext : bytes) (buf : bytes) (tx : txState) : res (txState * bytes) :=
  valid ← nonce_Valid (tx_nonce tx);
  if negb valid then Err errCipherExhausted else
  buf ← put buf 0 msgTypeRecord;
  buf ← PutUint16 buf 1 (u16 (zlen plaintext + chp_Overhead));
  hdr ← slice buf 0 headerLen;
  match tx_cipher tx with
  | None => Panic
  | Some key =>
      let ret := hdr ++ aead_Seal key (tx_nonce tx) plaintext [] in
      nonce ← nonce_Increment (tx_nonce tx);
      Ok (mkTx (tx_cipher tx) nonce (tx_err tx), ret)
  end.

(** The loop over the argument: what was sent, and the error.  Each turn finds
    in the buffer what an earlier use of it left there. *)
Fixpoint writeLoop (fuel : nat) (bs : bytes) (sent : Z) (tx : txState) (c : NetConn)
    : TX * res (Z * option error) :=
  match fuel with
  | O => ((tx, c), NoFuel)
  | S fuel =>
      if negb (0 <? zlen bs) then ((tx, c), Ok (sent, None)) else
      let toSend := if maxPlaintextSize <? zlen bs then take (Z.to_nat maxPlaintextSize) bs else bs in
      let bs := drop (length toSend) bs in
      match encryptLocked toSend (getMaxMsgBuffer c) tx with
      | Err e => ((tx, c), Ok (sent, Some e))
      | Panic => ((tx, c), Panic)
      | NoFuel => ((tx, c), NoFuel)
      | Ok (tx, ciphertext) =>
          match conn_Write ciphertext c with
          | (c, Err e) =>
              ((mkTx (tx_cipher tx) (tx_nonce tx) (Some errPartialWrite), c), Ok (sent, Some e))
          | (c, _) => writeLoop fuel bs (sent + zlen toSend) tx c
          end
      end
  end.

(** The deferred function. *)
Definition noteError (err : option error) (tx : txState) : txState :=
  mkTx (match err with Some _ => None | None => tx_cipher tx end) (tx_nonce tx)
       (match tx_err tx with Some e => Some e | None => err end).

Definition Write (bs : bytes) (st : TX) : TX * res (Z * option error) :=
  match tx_err st.1 with
  | Some e => (st, Ok (0, Some e))
  | None =>
      let '((tx, c), r) :=
        match tx_cipher st.1 with
        | None => (st, Ok (0, Some ErrClosed))
        | Some _ => writeLoop (S (length bs)) bs 0 st.1 st.2
        end in
      match r with
      | Ok (n, err) => ((noteError err tx, c), Ok (n, err))
      | r => ((tx, c), r)
      end
  end.

(** [Close]: both ciphers are dropped. *)
Definition Close (c : Conn) : Conn :=
  mkCConn (cc_conn c) (cc_version c) (cc_peer c) (cc_handshakeHash c)
    (set_cipher None (cc_rx c)) (mkTx None (tx_nonce (cc_tx c)) (tx_err (cc_tx c))).

(** [Read] and [Write] as methods of [Conn]. *)
Definition Conn_Read (cap : nat) (c : Conn) : Conn * res bytes :=
  let '((rx, nc), r) := Read cap (cc_rx c, cc_conn c) in
  (mkCConn nc (cc_version c) (cc_peer c) (cc_handshakeHash c) rx (cc_tx c), r).
Definition Conn_Write (bs : bytes) (c : Conn) : Conn * res (Z * option error) :=
  let '((tx, nc), r) := Write bs (cc_tx c, cc_conn c) in
  (mkCConn nc (cc_version c) (cc_peer c) (cc_handshakeHash c) (cc_rx c) tx, r).

End Transport.
