(* ===== verification/NoiseStream.v ===== *)
(** * The transport is a reliable, tamper-evident byte stream

    Theorems about [NoiseConn]: what one end writes is what the other reads, in
    whatever pieces the connection delivers it; bytes an attacker inserts, drops,
    repeats or reorders are never returned; and no nonce is used twice. *)
From S2P Require Import Prelude NetBuf GoState NetConn NoiseHandshake NoiseConn.

(** ** Nonces *)
Definition nonceOf (i : Z) : bytes := be_bytes 4 0 ++ be_bytes 8 i.

#[global] Arguments nonceOf : simpl never.

Lemma nonceOf_zero : replicate chp_NonceSize 0 = nonceOf 0.
Proof. done. Qed.

Lemma Uint64_nonce i : 0 <= i < 2 ^ 64 → Uint64 (nonceOf i) 4 = Ok i.
Proof.
  intros Hi. change (Uint64 (nonceOf i) 4) with (Ok (be_val (be_bytes 8 i))).
  by rewrite be_val_bytes_id.
Qed.

Lemma nonce_Valid_at i : 0 <= i < 2 ^ 64 → nonce_Valid (nonceOf i) = Ok (negb (i =? invalidNonce)).
Proof.
  intros Hi. unfold nonce_Valid. change (Uint32 (nonceOf i) 0) with (Ok 0). cbn [mbind res_bind].
  by rewrite Uint64_nonce.
Qed.

Lemma nonce_Increment_at i : 0 <= i < invalidNonce → nonce_Increment (nonceOf i) = Ok (nonceOf (i + 1)).
Proof.
  unfold invalidNonce. intros Hi. unfold nonce_Increment. rewrite nonce_Valid_at by lia.
  cbn [mbind res_bind]. replace (i =? invalidNonce) with false by (unfold invalidNonce; lia). cbn [negb].
  rewrite Uint64_nonce by lia. cbn [mbind res_bind]. rewrite u64_small by lia.
  change (PutUint64 (nonceOf i) 4 (1 + i)) with (Ok (be_bytes 4 0 ++ be_bytes 8 (1 + i))).
  by rewrite Z.add_comm.
Qed.

(** ** Frames *)
Section Frames.
Context `{NoiseLaws}.

Definition frame (key : bytes) (i : Z) (p : bytes) : bytes :=
  [msgTypeRecord] ++ be_bytes 2 (zlen p + chp_Overhead) ++ aead_Seal key (nonceOf i) p [].

Fixpoint frames (key : bytes) (i : Z) (ps : list bytes) : bytes :=
  match ps with
  | [] => []
  | p :: ps => frame key i p ++ frames key (i + 1) ps
  end.

(** A plaintext that fits into a frame. *)
Definition fits (p : bytes) : Prop := zlen p <= maxPlaintextSize.

Lemma frames_app key i ps qs :
  frames key i (ps ++ qs) = frames key i ps ++ frames key (i + zlen ps) qs.
Proof.
  revert i; induction ps as [|p ps IH]; intros i; cbn [frames app].
  - by rewrite Z.add_0_r.
  - rewrite IH, app_assoc. do 2 f_equal. unfold zlen. cbn [length]. lia.
Qed.

Lemma frame_length key i p : zlen (frame key i p) = 3 + (zlen p + chp_Overhead).
Proof.
  pose proof (Seal_length key (nonceOf i) p []). unfold frame, zlen in *. rewrite !length_app. cbn [length].
  rewrite be_bytes_length. lia.
Qed.

(** ** The receiving end *)

(** What is in the buffer and has not been handed to decryption. *)
Definition buffered (rx : rxState) : bytes :=
  match rx_buf rx with
  | None => []
  | Some b => take (Z.to_nat (rx_n rx - rx_next rx)) (drop (Z.to_nat (rx_next rx)) b)
  end.

(** The ciphertext that [Read] has still to go through. *)
Definition stream (st : RX) : bytes := buffered st.1 ++ c_in st.2.

Record RxWf (rx : rxState) : Prop := {
  wf_next : 0 <= rx_next rx <= rx_n rx;
  wf_n : rx_n rx <= maxMessageSize;
  wf_nil : rx_buf rx = None → rx_n rx = 0;
  wf_buf : ∀ b, rx_buf rx = Some b → zlen b = maxMessageSize
}.

(** Reading from the connection changes none of these. *)
Definition same_keys (rx rx' : rxState) : Prop :=
  rx_cipher rx' = rx_cipher rx ∧ rx_nonce rx' = rx_nonce rx ∧ rx_plaintext rx' = rx_plaintext rx.

Lemma buffered_length rx : RxWf rx → zlen (buffered rx) = rx_n rx - rx_next rx.
Proof.
  intros [Hn Hm Hnil Hb]. unfold buffered. destruct (rx_buf rx) as [b|] eqn:E.
  - specialize (Hb b eq_refl). unfold zlen, maxMessageSize in *. rewrite length_take, length_drop. lia.
  - rewrite Hnil in * by done. unfold zlen. cbn. lia.
Qed.

Lemma unread_stream st : RxWf st.1 → unread st = length (stream st).
Proof.
  intros Hwf. pose proof (buffered_length _ Hwf). unfold unread, stream, zlen in *.
  rewrite length_app. lia.
Qed.

(** Overwriting part of a buffer. *)
Lemma overwrite_spec b src : (length src <= length b)%nat → overwrite b src = Ok (src ++ drop (length src) b).
Proof.
  revert b. induction src as [|x src IH]; intros [|y b] Hl; cbn in *; try lia; [done..|].
  by rewrite IH by lia.
Qed.

Lemma put_bytes_spec b i src :
  0 <= i → i + zlen src <= zlen b →
  put_bytes b i src = Ok (take (Z.to_nat i) b ++ src ++ drop (Z.to_nat i + length src) b).
Proof.
  intros Hi Hl. unfold put_bytes, zlen in *. destruct (i <? 0) eqn:E; [bool_prop; lia|]. clear E.
  assert (Z.to_nat i + length src <= length b)%nat as Hlen by lia. clear Hi Hl. revert b Hlen.
  induction (Z.to_nat i) as [|n IH]; intros b Hlen; cbn [overwrite_at Nat.add].
  - rewrite overwrite_spec by lia. by destruct b.
  - destruct b as [|y b]; [cbn in Hlen; lia|]. cbn [overwrite_at]. rewrite IH by (cbn in Hlen; lia). done.
Qed.

(** ** Filling the buffer *)
Section Filling.
Context (pool : NetConn → bytes).
Hypothesis pool_length : ∀ c, zlen (pool c) = maxMessageSize.

(** The buffer is being filled from its head. *)
Record Filling (total : Z) (st : RX) : Prop := {
  fl_wf : RxWf st.1;
  fl_next : rx_next st.1 = 0;
  fl_total : headerLen <= total <= maxMessageSize;
  fl_nil : rx_buf st.1 = None → total = headerLen
}.

Lemma buffered_head rx b : rx_buf rx = Some b → rx_next rx = 0 → buffered rx = take (Z.to_nat (rx_n rx)) b.
Proof. intros Hb Hn. unfold buffered. rewrite Hb, Hn, Z.sub_0_r. done. Qed.

(** After a call of [Read] that delivered [bs]. *)
Definition grown (st st' : RX) (bs : bytes) (total : Z) : Prop :=
  Filling total st' ∧ buffered st'.1 = buffered st.1 ++ bs ∧ same_keys st.1 st'.1.

Lemma readSome_nil total st c' bs err :
  Filling total st → rx_buf st.1 = None → conn_Read 3 st.2 = (c', (bs, err)) →
  ∃ rx', readSome pool total st = ((rx', c'), Ok (bs, err)) ∧
    grown st (set_buf (rx_buf rx') (rx_n rx' + zlen bs) rx', c') bs total.
Proof using pool_length.
  intros [Hwf Hnext Ht Hnil] Hbuf Hr. destruct st as [rx c]; cbn in *.
  pose proof (wf_nil _ Hwf Hbuf) as Hn0. specialize (Hnil Hbuf) as ->.
  destruct (conn_Read_stream _ _ _ _ _ Hr) as (_ & Hlen & _).
  unfold readSome. erewrite stM_bind_run by done. cbn [fst]. rewrite Hbuf, Hn0. cbn [negb orb Z.eqb].
  change (headerLen =? headerLen) with true. cbn [negb orb].
  erewrite stM_bind_run; [|unfold readConn; cbn [snd]; change (Z.to_nat headerLen) with 3%nat; by rewrite Hr].
  unfold keepHeader. cbn [fst snd]. unfold mbind, stM_bind. destruct (0 <? zlen bs) eqn:E.
  - rewrite put_bytes_spec; [|lia|rewrite pool_length; unfold zlen, maxMessageSize in *; lia].
    cbn. eexists. split; [done|]. unfold grown. rewrite Hn0. bool_prop.
    assert (zlen (bs ++ drop (length bs) (pool c')) = maxMessageSize) as Hz.
    { pose proof (pool_length c'). unfold zlen, maxMessageSize in *. rewrite length_app, length_drop. lia. }
    split; [|split; [|done]].
    + split; cbn; [|done|done|done]. split; cbn; [lia| |done|].
      * unfold zlen, maxMessageSize in *. lia.
      * intros b Hb. by simplify_eq.
    + unfold buffered; cbn [fst set_buf rx_buf rx_n rx_next]. rewrite Hbuf, Hnext.
      replace (Z.to_nat (_ - _)) with (length bs) by (unfold zlen; lia). change (Z.to_nat 0) with 0%nat.
      rewrite skipn_O, firstn_O. cbn [app]. apply take_app_length.
  - assert (bs = []) as -> by (destruct bs; [done|bool_prop; unfold zlen in *; cbn in *; lia]).
    eexists. split; [done|]. unfold grown. cbn. rewrite Hbuf, Hn0. cbn.
    split; [|split; [|done]].
    + split; cbn; [|done|done|done]. change (zlen []) with 0. split; cbn; [lia| |done|done].
      unfold maxMessageSize; lia.
    + unfold buffered; cbn. by rewrite Hbuf.
Qed.

Lemma readSome_some total st b c' bs err :
  Filling total st → rx_buf st.1 = Some b →
  conn_Read (Z.to_nat (maxMessageSize - rx_n st.1)) st.2 = (c', (bs, err)) →
  ∃ rx', readSome pool total st = ((rx', c'), Ok (bs, err)) ∧
    grown st (set_buf (rx_buf rx') (rx_n rx' + zlen bs) rx', c') bs total.
Proof using pool_length.
  intros [Hwf Hnext Ht Hnil] Hbuf Hr. destruct st as [rx c]; cbn in *.
  pose proof (wf_buf _ Hwf _ Hbuf) as Hlb. destruct (conn_Read_stream _ _ _ _ _ Hr) as (_ & Hlen & _).
  destruct (wf_next _ Hwf) as [_ Hn0]. pose proof (wf_n _ Hwf) as Hn. rewrite Hnext in Hn0.
  unfold readSome. erewrite stM_bind_run by done. cbn [fst]. rewrite Hbuf.
  erewrite stM_bind_run by (unfold lift; by rewrite slice_from_Ok by lia).
  erewrite stM_bind_run.
  2:{ unfold readConn; cbn [snd fst]. replace (Z.to_nat (zlen _)) with (Z.to_nat (maxMessageSize - rx_n rx)).
      - by rewrite Hr.
      - unfold zlen in *. rewrite length_drop. lia. }
  cbn [fst]. unfold zlen, maxMessageSize in *.
  erewrite stM_bind_run by (unfold lift; by rewrite put_bytes_spec by (unfold zlen in *; lia)).
  unfold mbind, stM_bind. cbn. eexists. split; [done|]. unfold grown. cbn.
  assert (zlen (take (Z.to_nat (rx_n rx)) b ++ bs ++ drop (Z.to_nat (rx_n rx) + length bs) b) = maxMessageSize) as Hz.
  { unfold zlen, maxMessageSize in *. rewrite !length_app, length_take, length_drop. lia. }
  split; [|split; [|done]].
  - split; cbn; [|done|done|done]. split; cbn; [unfold zlen; lia|unfold zlen, maxMessageSize; lia|done|].
    intros b' Hb'. by simplify_eq.
  - rewrite (buffered_head _ _ Hbuf Hnext). unfold buffered; cbn [fst set_buf rx_buf rx_n rx_next].
    rewrite Hnext, Z.sub_0_r. change (Z.to_nat 0) with 0%nat. rewrite skipn_O. unfold zlen.
    rewrite app_assoc, take_app_le by (rewrite length_app, length_take; lia).
    apply take_ge. rewrite length_app, length_take. lia.
Qed.

Lemma readOnce_spec total st st' r :
  Filling total st → rx_n st.1 < total → readOnce pool total st = (st', r) →
  Filling total st' ∧ stream st' = stream st ∧ same_keys st.1 st'.1 ∧
  ((r = Ok tt ∧ (read_calls st'.2 < read_calls st.2)%nat) ∨ ∃ e, r = Err e) ∧
  (reads_ok st.2 → reads_ok st'.2 ∧ (c_in st.2 ≠ [] → r = Ok tt)).
Proof using pool_length.
  intros Hf Hlt Ho. pose proof Hf as [Hwf Hnext Ht Hnil].
  assert (∃ cap c' bs err rx', (0 < cap)%nat ∧ conn_Read cap st.2 = (c', (bs, err)) ∧
            readSome pool total st = ((rx', c'), Ok (bs, err)) ∧
            grown st (set_buf (rx_buf rx') (rx_n rx' + zlen bs) rx', c') bs total)
    as (cap & c' & bs & err & rx' & Hcap & Hr & Hs & (Hf' & Hb & Hk)).
  { destruct (rx_buf st.1) as [b|] eqn:Hbuf.
    - destruct (conn_Read (Z.to_nat (maxMessageSize - rx_n st.1)) st.2) as [c' [bs err]] eqn:Hr.
      destruct (readSome_some _ _ _ _ _ _ Hf Hbuf Hr) as (rx' & ? & ?).
      eexists _, c', bs, err, rx'. split_and!; [|done..]. lia.
    - destruct (conn_Read 3 st.2) as [c' [bs err]] eqn:Hr.
      destruct (readSome_nil _ _ _ _ _ Hf Hbuf Hr) as (rx' & ? & ?).
      exists 3%nat, c', bs, err, rx'. split_and!; [lia|done..]. }
  unfold readOnce in Ho. erewrite stM_bind_run in Ho by exact Hs. cbn [fst snd] in Ho.
  erewrite stM_bind_run in Ho by done. cbn [fst snd] in Ho.
  destruct (conn_Read_stream _ _ _ _ _ Hr) as (Hin & _).
  assert (st' = (set_buf (rx_buf rx') (rx_n rx' + zlen bs) rx', c') ∧
          r = match err with Some e => Err e | None => Ok tt end) as [-> ->].
  { destruct err; cbn in Ho; unfold throw, mret, stM_ret in Ho; by simplify_eq. }
  split_and!; [done| |done| |].
  - unfold stream. rewrite Hb, <- app_assoc. cbn. by rewrite Hin.
  - destruct err; [by eauto|]. left. split; [done|]. by eapply conn_Read_progress.
  - intros Hok. destruct (conn_Read_ok _ _ _ _ _ Hr Hok) as [? Herr]. split; [done|].
    intros Hne. by rewrite Herr.
Qed.

(** The loop fills the buffer up to what is asked for, or reports an error of the
    connection; it does the former when the connection delivers enough. *)
Lemma readLoop_spec total fuel st st' r :
  Filling total st → (read_calls st.2 < fuel)%nat → readLoop pool fuel total st = (st', r) →
  Filling total st' ∧ stream st' = stream st ∧ same_keys st.1 st'.1 ∧
  ((r = Ok tt ∧ total <= rx_n st'.1) ∨ ∃ e, r = Err e) ∧
  (reads_ok st.2 → reads_ok st'.2 ∧ (total <= zlen (stream st) → r = Ok tt)).
Proof using pool_length.
  revert st. induction fuel as [|fuel IH]; intros st Hf Hfuel Hl; [lia|]. cbn [readLoop] in Hl.
  destruct (total <=? rx_n st.1) eqn:Hle; bool_prop.
  - destruct (rx_buf st.1) as [b|] eqn:Hbuf.
    + unfold mbind, stM_bind, theBuf in Hl. rewrite Hbuf in Hl. cbn [lift] in Hl. destruct Hf as [Hwf Hnext Ht Hnil].
      pose proof (wf_buf _ Hwf _ Hbuf) as Hlb. unfold headerLen in *.
      rewrite slice_Ok in Hl by lia. cbn in Hl.
      unfold mret, stM_ret in Hl. simplify_eq. split_and!; try done. left. done.
    + destruct Hf as [Hwf Hnext Ht Hnil]. rewrite (wf_nil _ Hwf Hbuf) in Hle. unfold headerLen in *. lia.
  - destruct (readOnce pool total st) as [st1 r1] eqn:Ho.
    destruct (readOnce_spec _ _ _ _ Hf Hle Ho) as (Hf1 & Hst & Hk & Hr & Hok).
    assert (reads_ok st.2 → total <= zlen (stream st) → c_in st.2 ≠ []) as Hmore.
    { intros _ Htot Hnil. destruct Hf as [Hwf Hnext _ _]. pose proof (buffered_length _ Hwf) as Hbl.
      unfold stream in Htot. rewrite Hnil, app_nil_r in Htot. lia. }
    unfold mbind, stM_bind in Hl. rewrite Ho in Hl. destruct Hr as [[-> Hcalls]|[e ->]].
    + destruct (IH _ Hf1 ltac:(lia) Hl) as (Hf2 & Hst2 & Hk2 & Hr2 & Hok2).
      split_and!; [done|congruence| |done|].
      * unfold same_keys in *. destruct Hk as (? & ? & ?), Hk2 as (? & ? & ?). split_and!; congruence.
      * intros Hrok. destruct (Hok Hrok) as [Hrok1 _]. destruct (Hok2 Hrok1) as [? Hdone].
        split; [done|]. intros Htot. apply Hdone. by rewrite Hst.
    + simplify_eq. split_and!; try done; [by eauto|]. intros Hrok. destruct (Hok Hrok) as [? Hno].
      split; [done|]. intros Htot. by discriminate (Hno (Hmore Hrok Htot)).
Qed.

Lemma readNLocked_spec total st st' r :
  Filling total st → readNLocked pool total st = (st', r) →
  Filling total st' ∧ stream st' = stream st ∧ same_keys st.1 st'.1 ∧
  ((r = Ok tt ∧ total <= rx_n st'.1) ∨ ∃ e, r = Err e) ∧
  (reads_ok st.2 → reads_ok st'.2 ∧ (total <= zlen (stream st) → r = Ok tt)).
Proof using pool_length.
  intros Hf Hr. unfold readNLocked in Hr. destruct (maxMessageSize <? total) eqn:E.
  - bool_prop. pose proof (fl_total _ _ Hf). lia.
  - by eapply readLoop_spec; [| |exact Hr]; [done|lia].
Qed.

(** ** Finding the next message *)

(** The length that the header at the front of a byte string announces. *)
Definition announced (b : bytes) : Z := headerLen + be_at 2 b 1.

Lemma announced_bound b : Forall is_byte b → headerLen <= zlen b → headerLen <= announced b < 2 ^ 17.
Proof.
  intros Hb Hl. unfold announced, headerLen in *. pose proof (be_at_bound 2 b 1 Hb). unfold zlen in *. lia.
Qed.

Lemma announced_prefix b1 b2 : headerLen <= zlen b1 → announced (b1 ++ b2) = announced b1.
Proof.
  intros Hl. unfold announced, be_at, zlen, headerLen in *. do 2 f_equal. change (Z.to_nat 1) with 1%nat.
  rewrite drop_app_le by lia. rewrite take_app_le by (rewrite length_drop; lia). done.
Qed.

(** Moving [next] forward takes a message off the front of the buffer. *)
Lemma advance rx t :
  RxWf rx → 0 <= t <= rx_n rx - rx_next rx →
  let rx' := set_next (rx_next rx + t) rx in
  RxWf rx' ∧ buffered rx = take (Z.to_nat t) (buffered rx) ++ buffered rx' ∧
  (∀ b, rx_buf rx = Some b →
        slice b (rx_next rx) (rx_next rx + t) = Ok (take (Z.to_nat t) (buffered rx))).
Proof.
  intros [Hn Hm Hnil Hb] Ht rx'. split; [|split].
  - split; cbn; [lia|done|done|done].
  - unfold buffered, rx'. cbn. destruct (rx_buf rx) as [b|]; [|by rewrite take_nil].
    rewrite <- (take_drop (Z.to_nat t) (take _ (drop (Z.to_nat (rx_next rx)) b))) at 1. f_equal.
    rewrite skipn_firstn_comm, drop_drop. f_equal; [lia|]. f_equal. lia.
  - intros b Hbuf. specialize (Hb b Hbuf). unfold buffered. rewrite Hbuf.
    rewrite slice_Ok by (unfold zlen, maxMessageSize in *; lia). f_equal.
    rewrite firstn_firstn. f_equal. lia.
Qed.

Lemma wholeMessage_spec st st' r :
  RxWf st.1 → Forall is_byte (buffered st.1) → wholeMessageLocked st = (st', r) →
  (r = Ok None ∧ st' = st ∧
   (zlen (buffered st.1) < headerLen ∨ zlen (buffered st.1) < announced (buffered st.1))) ∨
  (r = Ok (Some (rx_next st.1, announced (buffered st.1))) ∧
   headerLen <= announced (buffered st.1) <= zlen (buffered st.1) ∧
   st' = (set_next (rx_next st.1 + announced (buffered st.1)) st.1, st.2)).
Proof.
  intros Hwf Hbyte Hw. pose proof (buffered_length _ Hwf) as Hbl. destruct st as [rx c]. cbn in *.
  unfold wholeMessageLocked in Hw. erewrite stM_bind_run in Hw by done. cbn beta zeta in Hw. cbn [fst] in Hw.
  rewrite <- Hbl in Hw. destruct (zlen (buffered rx) <? headerLen) eqn:E; bool_prop.
  { left. unfold mret, stM_ret in Hw. simplify_eq. eauto. }
  destruct (rx_buf rx) as [b|] eqn:Hbuf.
  2:{ unfold buffered in E. rewrite Hbuf in E. unfold headerLen, zlen in E. cbn in E. lia. }
  erewrite stM_bind_run in Hw by (unfold lift, theBuf; cbn; by rewrite Hbuf).
  assert (slice b (rx_next rx) (rx_n rx) = Ok (buffered rx)) as Hsl.
  { destruct Hwf as [Hn Hm _ Hb]. specialize (Hb b Hbuf). rewrite slice_Ok by lia. unfold buffered. rewrite Hbuf.
    f_equal. f_equal. lia. }
  erewrite stM_bind_run in Hw by (unfold lift; cbn; by rewrite Hsl).
  erewrite stM_bind_run in Hw by (unfold lift; by rewrite Uint16_Ok by (unfold headerLen in *; lia)).
  cbn beta zeta in Hw. change (headerLen + be_at 2 (buffered rx) 1) with (announced (buffered rx)) in Hw.
  pose proof (announced_bound _ Hbyte E). destruct (zlen (buffered rx) <? announced (buffered rx)) eqn:E2; bool_prop.
  - left. unfold mret, stM_ret in Hw. simplify_eq. eauto.
  - right. unfold mbind, stM_bind, mret, stM_ret in Hw. cbn in Hw. simplify_eq. split_and!; (done || lia).
Qed.

(** Before more is read, what is left in the buffer is moved to its head. *)
Definition rewind : stM RX unit :=
  rx ← getRx;
  _ ← (if negb (rx_next rx =? 0) then moveToHead else mret tt);
  modRx (λ rx, if (rx_n rx =? 0) && (rx_next rx =? 0) && bool_decide (is_Some (rx_buf rx))
               then set_buf None (rx_n rx) rx else rx).

Lemma moveToHead_spec st :
  RxWf st.1 → rx_next st.1 ≠ 0 →
  ∃ rx', moveToHead st = ((rx', st.2), Ok tt) ∧ RxWf rx' ∧ rx_next rx' = 0 ∧
         buffered rx' = buffered st.1 ∧ same_keys st.1 rx'.
Proof.
  intros Hwf Hne. destruct st as [rx c]. cbn in *. pose proof (buffered_length _ Hwf) as Hbl.
  pose proof Hwf as [Hn Hm Hnil Hb]. unfold moveToHead. erewrite stM_bind_run by done. cbn beta.
  destruct (rx_buf rx) as [b|] eqn:Hbuf; [|specialize (Hnil eq_refl); lia]. specialize (Hb b eq_refl).
  erewrite stM_bind_run by (unfold lift, theBuf; cbn; by rewrite Hbuf).
  assert (slice b (rx_next rx) (rx_n rx) = Ok (buffered rx)) as Hsl.
  { rewrite slice_Ok by lia. unfold buffered. rewrite Hbuf. f_equal. f_equal. lia. }
  erewrite stM_bind_run by (unfold lift; cbn; by rewrite Hsl).
  erewrite stM_bind_run by (unfold lift; by rewrite put_bytes_spec by lia).
  eexists. split; [done|]. cbn. change (Z.to_nat 0) with 0%nat. rewrite firstn_O. cbn [app Nat.add].
  assert (zlen (buffered rx ++ drop (length (buffered rx)) b) = maxMessageSize) as Hz.
  { unfold zlen, maxMessageSize in *. rewrite length_app, length_drop. lia. }
  split_and!; [|done| |done].
  - split; cbn; [lia|lia|done|]. intros b' Hb'. by simplify_eq.
  - unfold buffered at 1. cbn. rewrite Z.sub_0_r. unfold zlen. rewrite Nat2Z.id. apply take_app_length.
Qed.

Lemma rewind_spec st :
  RxWf st.1 →
  ∃ rx', rewind st = ((rx', st.2), Ok tt) ∧ Filling headerLen (rx', st.2) ∧
         buffered rx' = buffered st.1 ∧ same_keys st.1 rx'.
Proof.
  intros Hwf. destruct st as [rx c]. cbn in *. unfold rewind. erewrite stM_bind_run by done. cbn beta.
  assert (∃ rx1, (if negb (rx_next rx =? 0) then moveToHead else mret tt) (rx, c) = ((rx1, c), Ok tt) ∧
            RxWf rx1 ∧ rx_next rx1 = 0 ∧ buffered rx1 = buffered rx ∧ same_keys rx rx1)
    as (rx1 & Hrun & Hwf1 & Hn1 & Hb1 & Hk1).
  { destruct (rx_next rx =? 0) eqn:E; bool_prop; cbn [negb].
    - exists rx. unfold same_keys. done.
    - by apply (moveToHead_spec (rx, c)). }
  erewrite stM_bind_run by exact Hrun. cbn beta. eexists. split; [done|]. cbn.
  destruct (_ && _) eqn:E; bool_prop.
  - unfold same_keys in *. split_and!; try done; try apply Hk1.
    + split; cbn; [|done|unfold headerLen, maxMessageSize; lia|done].
      destruct Hwf1 as [Hn Hm Hnil Hb]. split; cbn; [lia|done|done|done].
    + rewrite <- Hb1. unfold buffered. cbn. destruct (rx_buf rx1); [|done].
      match goal with Hz : rx_n rx1 = 0 |- _ => rewrite Hz, Hn1 end. done.
  - split_and!; [|done|apply Hk1..]. split; cbn; [done|done|unfold headerLen, maxMessageSize; lia|done].
Qed.

(** The part of [decryptOneLocked] before the decryption: where the message is. *)
Definition fetch : stM RX (Z * Z) :=
  _ ← readNLocked pool headerLen;
  rx ← getRx;
  buf ← lift (theBuf rx);
  bs ← lift (slice buf 0 headerLen);
  len ← lift (Uint16 bs 1);
  _ ← readNLocked pool (headerLen + len);
  _ ← modRx (set_next (headerLen + len));
  mret (0, headerLen + len).

Definition locate : stM RX (Z * Z) :=
  _ ← modRx (set_plaintext []);
  whole ← wholeMessageLocked;
  match whole with
  | Some p => mret p
  | None => _ ← rewind; fetch
  end.

Lemma decryptOne_locate st :
  decryptOneLocked pool st = (locate ≫= λ p, decryptLocked p.1 p.2) st.
Proof.
  unfold decryptOneLocked, locate. rewrite stM_bind_assoc. apply stM_bind_ext. intros _ s1.
  rewrite stM_bind_assoc. apply stM_bind_ext. intros [[off len]|] s2; [done|].
  rewrite stM_bind_assoc. unfold rewind. rewrite stM_bind_assoc. apply stM_bind_ext. intros rx s3.
  rewrite stM_bind_assoc. apply stM_bind_ext. intros _ s4. apply stM_bind_ext. intros _ s5.
  unfold fetch. repeat (rewrite stM_bind_assoc; apply stM_bind_ext; intros ? ?). done.
Qed.

(** A message was taken off the stream, and lies in the buffer before [next]. *)
Definition taken (st st' : RX) (off len : Z) : Prop :=
  ∃ msg b, stream st = msg ++ stream st' ∧ zlen msg = len ∧ headerLen <= len ∧ announced msg = len ∧
    rx_buf st'.1 = Some b ∧ slice b off (off + len) = Ok msg ∧ 0 <= off ∧ off + len <= rx_next st'.1.

Lemma fetch_spec st st' r :
  Filling headerLen st → Forall is_byte (stream st) → fetch st = (st', r) →
  RxWf st'.1 ∧ same_keys st.1 st'.1 ∧
  ((∃ off len, r = Ok (off, len) ∧ taken st st' off len) ∨ (∃ e, r = Err e ∧ stream st' = stream st)) ∧
  (reads_ok st.2 → reads_ok st'.2 ∧
     (headerLen <= zlen (stream st) → announced (stream st) <= maxMessageSize →
      announced (stream st) <= zlen (stream st) → ∃ p, r = Ok p)).
Proof using pool_length.
  intros Hf Hbyte Hl. unfold fetch in Hl. destruct (readNLocked pool headerLen st) as [st1 r1] eqn:Hr1.
  destruct (readNLocked_spec _ _ _ _ Hf Hr1) as (Hf1 & Hs1 & Hk1 & Hc1 & Hok1).
  unfold mbind at 1, stM_bind at 1 in Hl. rewrite Hr1 in Hl. destruct Hc1 as [[-> Hn1]|[e ->]].
  2:{ simplify_eq. split_and!; [apply Hf1|done|right; eauto|]. intros Hok. destruct (Hok1 Hok) as [? Hdone].
      split; [done|]. intros Hlen _ _. by discriminate (Hdone Hlen). }
  pose proof Hf1 as [Hwf1 Hnext1 _ _]. pose proof (buffered_length _ Hwf1) as Hbl1. rewrite Hnext1 in Hbl1.
  destruct (rx_buf st1.1) as [b1|] eqn:Hb1.
  2:{ rewrite (wf_nil _ Hwf1 Hb1) in Hn1. unfold headerLen in Hn1. lia. }
  pose proof (wf_buf _ Hwf1 _ Hb1) as Hlb1. pose proof (wf_n _ Hwf1) as Hm1.
  pose proof (buffered_head _ _ Hb1 Hnext1) as Hbh1.
  erewrite stM_bind_run in Hl by done. cbn beta in Hl.
  erewrite stM_bind_run in Hl by (unfold lift, theBuf; by rewrite Hb1).
  assert (slice b1 0 headerLen = Ok (take 3 (stream st))) as Hsl.
  { unfold headerLen in *. rewrite slice_Ok by lia. f_equal. rewrite <- Hs1. unfold stream.
    rewrite take_app_le by (unfold zlen in *; lia). rewrite Hbh1, firstn_firstn. change (Z.to_nat 0) with 0%nat.
    rewrite skipn_O. f_equal. lia. }
  erewrite stM_bind_run in Hl by (unfold lift; by rewrite Hsl).
  assert (headerLen <= zlen (stream st)) as Hlen.
  { rewrite <- Hs1. unfold stream. unfold zlen in *. rewrite length_app. lia. }
  assert (headerLen + be_at 2 (take 3 (stream st)) 1 = announced (stream st)) as Han.
  { rewrite <- (take_drop 3 (stream st)) at 2. symmetry. apply announced_prefix.
    unfold zlen, headerLen in *. rewrite length_take. lia. }
  erewrite stM_bind_run in Hl.
  2:{ unfold lift. rewrite Uint16_Ok; [done|lia|]. unfold zlen, headerLen in *. rewrite length_take. lia. }
  cbn beta in Hl. rewrite Han in Hl. pose proof (announced_bound _ Hbyte Hlen) as Hab.
  destruct (readNLocked pool (announced (stream st)) st1) as [st2 r2] eqn:Hr2.
  unfold mbind at 1, stM_bind at 1 in Hl. rewrite Hr2 in Hl.
  destruct (decide (announced (stream st) <= maxMessageSize)) as [Hfit|Hbig].
  2:{ unfold readNLocked in Hr2. destruct (maxMessageSize <? announced (stream st)) eqn:E; bool_prop; [|lia].
      simplify_eq. split_and!; [done|done|right; eauto|]. intros Hok. destruct (Hok1 Hok). split; [done|lia]. }
  assert (Filling (announced (stream st)) st1) as Hf2.
  { split; [done|done|lia|]. intros Hnil. congruence. }
  destruct (readNLocked_spec _ _ _ _ Hf2 Hr2) as (Hf3 & Hs2 & Hk2 & Hc2 & Hok2).
  assert (same_keys st.1 st2.1) as Hk.
  { unfold same_keys in *. destruct Hk1 as (? & ? & ?), Hk2 as (? & ? & ?). split_and!; congruence. }
  destruct Hc2 as [[-> Hn2]|[e ->]].
  2:{ simplify_eq. split_and!; [apply Hf3|done|right; eexists; split; [done|congruence]|].
      intros Hok. destruct (Hok1 Hok) as [Hok' _]. destruct (Hok2 Hok') as [? Hdone].
      split; [done|]. intros _ _ Hall. rewrite <- Hs1 in Hall at 2. by discriminate (Hdone Hall). }
  erewrite stM_bind_run in Hl by done. unfold mret, stM_ret in Hl. simplify_eq. destruct Hf3 as [Hwf3 Hnext3 _ Hnil3].
  destruct (rx_buf st2.1) as [b2|] eqn:Hb2; [|rewrite (wf_nil _ Hwf3 Hb2) in Hn2; unfold headerLen in *; lia].
  destruct (advance st2.1 (announced (stream st)) Hwf3) as (Hwf4 & Hsplit & Hslice).
  { rewrite Hnext3. unfold headerLen in *. lia. }
  rewrite Hnext3, Z.add_0_l in Hwf4, Hsplit, Hslice. pose proof (buffered_length _ Hwf3) as Hbl3.
  assert (zlen (take (Z.to_nat (announced (stream st))) (buffered st2.1)) = announced (stream st)) as Hzl.
  { unfold zlen, headerLen in *. rewrite length_take. lia. }
  assert (stream st = take (Z.to_nat (announced (stream st))) (buffered st2.1) ++
            stream (set_next (announced (stream st)) st2.1, st2.2)) as Hcut.
  { unfold stream at 3. cbn [fst snd]. rewrite app_assoc, <- Hsplit. by rewrite <- Hs1, <- Hs2. }
  split_and!; [exact Hwf4|exact Hk| |].
  - left. eexists _, _. split; [done|]. eexists _, b2. cbn [fst snd set_next rx_buf rx_next].
    split_and!; [exact Hcut|done|lia| |done|by apply Hslice|lia|lia].
    erewrite <- announced_prefix by (rewrite Hzl; lia). by rewrite <- Hcut.
  - intros Hok. destruct (Hok1 Hok) as [Hok' _]. destruct (Hok2 Hok') as [? _]. split; [done|eauto].
Qed.

Lemma locate_spec st st' r :
  RxWf st.1 → Forall is_byte (stream st) → locate st = (st', r) →
  RxWf st'.1 ∧ rx_cipher st'.1 = rx_cipher st.1 ∧ rx_nonce st'.1 = rx_nonce st.1 ∧ rx_plaintext st'.1 = [] ∧
  ((∃ off len, r = Ok (off, len) ∧ taken st st' off len) ∨ (∃ e, r = Err e ∧ stream st' = stream st)) ∧
  (reads_ok st.2 → reads_ok st'.2 ∧
     (headerLen <= zlen (stream st) → announced (stream st) <= maxMessageSize →
      announced (stream st) <= zlen (stream st) → ∃ p, r = Ok p)).
Proof using pool_length.
  intros Hwf Hbyte Hl. unfold locate in Hl. erewrite stM_bind_run in Hl by done. cbn beta in Hl.
  set (st1 := (set_plaintext [] st.1, st.2)) in *.
  assert (RxWf st1.1) as Hwf1 by (destruct Hwf; by split).
  assert (stream st1 = stream st ∧ st1.2 = st.2 ∧ rx_cipher st1.1 = rx_cipher st.1 ∧
          rx_nonce st1.1 = rx_nonce st.1 ∧ rx_plaintext st1.1 = []) as (Hst1 & Hc1 & Hk1 & Hn1 & Hp1) by done.
  clearbody st1. unfold taken. rewrite <- Hst1, <- Hk1, <- Hn1, <- Hc1 in *.
  assert (Forall is_byte (buffered st1.1)) as Hbb by (by apply Forall_app in Hbyte as [? _]).
  destruct (wholeMessageLocked st1) as [st2 rw] eqn:Hw.
  destruct (wholeMessage_spec _ _ _ Hwf1 Hbb Hw) as [(-> & -> & _)|(-> & Han & ->)];
    erewrite stM_bind_run in Hl by exact Hw; cbn beta iota in Hl.
  - destruct (rewind_spec st1 Hwf1) as (rx' & Hrew & Hf & Hb & Hk).
    erewrite stM_bind_run in Hl by exact Hrew. cbn beta in Hl.
    assert (stream (rx', st1.2) = stream st1) as Hst by (unfold stream; cbn; by rewrite Hb).
    rewrite <- Hst in Hbyte. destruct (fetch_spec _ _ _ Hf Hbyte Hl) as (Hwf' & Hk' & Hc & Hok). cbn [fst snd] in *.
    unfold same_keys in *. destruct Hk as (? & ? & ?), Hk' as (? & ? & ?).
    split_and!; [done|congruence..| |].
    + unfold taken in Hc. by rewrite Hst in Hc.
    + by rewrite Hst in Hok.
  - unfold mret, stM_ret in Hl. injection Hl as <- <-. cbn [fst snd].
    pose proof (buffered_length _ Hwf1) as Hbl.
    destruct (advance st1.1 (announced (buffered st1.1)) Hwf1) as (Hwf2 & Hsplit & Hslice);
      [unfold headerLen in *; lia|].
    split_and!; [done..| |intros; eauto]. left. eexists _, _. split; [done|].
    destruct (rx_buf st1.1) as [b|] eqn:Hbuf.
    2:{ unfold buffered in Han. rewrite Hbuf in Han. unfold headerLen, zlen in Han. cbn in Han. lia. }
    assert (zlen (take (Z.to_nat (announced (buffered st1.1))) (buffered st1.1)) = announced (buffered st1.1)) as Hzl.
    { unfold zlen, headerLen in *. rewrite length_take. lia. }
    exists (take (Z.to_nat (announced (buffered st1.1))) (buffered st1.1)), b.
    pose proof (wf_next _ Hwf1). cbn [fst snd set_next rx_buf rx_next].
    split_and!; [|done|lia| |done|by apply Hslice|lia|lia].
    + unfold stream. cbn [fst snd]. by rewrite app_assoc, <- Hsplit.
    + erewrite <- announced_prefix by (rewrite Hzl; lia). by rewrite <- Hsplit.
Qed.

(** ** Decryption *)

(** Decrypting in place leaves the part of the buffer after [next] alone. *)
Lemma buffered_below rx b off p :
  RxWf rx → rx_buf rx = Some b → 0 <= off → off + zlen p <= rx_next rx →
  ∃ b', put_bytes b off p = Ok b' ∧ zlen b' = maxMessageSize ∧
        take (Z.to_nat (rx_n rx - rx_next rx)) (drop (Z.to_nat (rx_next rx)) b') = buffered rx.
Proof.
  intros Hwf Hbuf Hoff Hle. pose proof (wf_buf _ Hwf _ Hbuf) as Hlb. destruct Hwf as [Hn Hm _ _].
  eexists. split; [apply put_bytes_spec; lia|]. split.
  - unfold zlen, maxMessageSize in *. rewrite !length_app, length_take, length_drop. lia.
  - unfold buffered. rewrite Hbuf. f_equal. rewrite app_assoc. unfold zlen in *.
    rewrite drop_app_ge by (rewrite length_app, length_take; lia).
    rewrite length_app, length_take, drop_drop. f_equal. lia.
Qed.

(** What a decryption can do; [Authentic] with the plaintext of the message. *)
Lemma decryptLocked_spec key i off msg b st st' r :
  RxWf st.1 → rx_cipher st.1 = Some key → rx_nonce st.1 = nonceOf i → 0 <= i <= invalidNonce →
  rx_plaintext st.1 = [] → rx_buf st.1 = Some b → slice b off (off + zlen msg) = Ok msg →
  headerLen <= zlen msg → 0 <= off → off + zlen msg <= rx_next st.1 →
  decryptLocked off (zlen msg) st = (st', r) →
  RxWf st'.1 ∧ st'.2 = st.2 ∧ buffered st'.1 = buffered st.1 ∧
  ((∃ p, r = Ok tt ∧ byte_at msg 0 = msgTypeRecord ∧ aead_Open key (nonceOf i) (drop 3 msg) [] = Some p ∧
         i < invalidNonce ∧ rx_cipher st'.1 = Some key ∧ rx_nonce st'.1 = nonceOf (i + 1) ∧ rx_plaintext st'.1 = p)
   ∨ (∃ e, r = Err e ∧ rx_plaintext st'.1 = [] ∧
         (rx_cipher st'.1 = None ∨ rx_cipher st'.1 = Some key ∧ rx_nonce st'.1 = nonceOf i) ∧
         (byte_at msg 0 = msgTypeRecord → i < invalidNonce →
          aead_Open key (nonceOf i) (drop 3 msg) [] = None))).
Proof.
  intros Hwf Hkey Hnonce Hi Hpl Hbuf Hsl Hlen Hoff Hle Hd. destruct st as [rx c]. cbn in *.
  unfold decryptLocked in Hd. erewrite stM_bind_run in Hd by done. cbn beta in Hd. cbn [fst] in Hd.
  erewrite stM_bind_run in Hd by (unfold lift, theBuf; by rewrite Hbuf).
  erewrite stM_bind_run in Hd by (unfold lift; by rewrite Hsl).
  erewrite stM_bind_run in Hd by (unfold lift; by rewrite idx_at by (unfold headerLen in *; lia)).
  cbn beta in Hd. destruct (byte_at msg 0 =? msgTypeRecord) eqn:Ht; bool_prop; cbn [negb] in Hd.
  2:{ unfold throw in Hd. simplify_eq. split_and!; [done..|]. right. eexists. split_and!; eauto. done. }
  erewrite stM_bind_run in Hd by (unfold lift; by rewrite slice_from_Ok by (unfold headerLen in *; lia)).
  change (Z.to_nat headerLen) with 3%nat in Hd. cbn beta in Hd. rewrite Hnonce, Hkey in Hd.
  erewrite stM_bind_run in Hd by (unfold lift; by rewrite nonce_Valid_at by (unfold invalidNonce in *; lia)).
  cbn beta in Hd. destruct (i =? invalidNonce) eqn:Ei; bool_prop; cbn [negb] in Hd.
  { unfold throw in Hd. simplify_eq. split_and!; [done..|]. right. eexists. split_and!; eauto. lia. }
  erewrite stM_bind_run in Hd by (unfold lift; by rewrite nonce_Increment_at by lia).
  cbn beta in Hd. erewrite stM_bind_run in Hd by done. cbn [fst snd] in Hd.
  destruct (aead_Open key (nonceOf i) (drop 3 msg) []) as [p|] eqn:Ho.
  - assert (zlen p = zlen msg - 3 - chp_Overhead) as Hzp.
    { apply Seal_Open in Ho as Hs. pose proof (Seal_length key (nonceOf i) p []) as Hsl'. rewrite <- Hs in Hsl'.
      unfold zlen, headerLen in *. rewrite length_drop in Hsl'. lia. }
    assert (0 <= chp_Overhead) by done.
    destruct (buffered_below rx b (off + headerLen) p Hwf Hbuf) as (b' & Hput & Hlb' & Hbuff);
      [unfold headerLen in *; lia..|].
    erewrite stM_bind_run in Hd by (unfold lift; by rewrite Hput).
    erewrite stM_bind_run in Hd by done. unfold mret, stM_ret in Hd. cbn [fst snd] in Hd. simplify_eq.
    cbn. split_and!; [|done| |].
    + destruct Hwf. split; cbn; [done|done|done|]. intros b0 Hb0. by simplify_eq.
    + unfold buffered at 1. cbn. exact Hbuff.
    + left. eexists. split_and!; try done. lia.
  - erewrite stM_bind_run in Hd by done. unfold throw in Hd. cbn [fst snd] in Hd. simplify_eq. cbn.
    split_and!; [by destruct Hwf; split|done|done|]. right. eexists. split_and!; eauto.
Qed.

(** ** One frame *)
Lemma frame_announced key i p rest :
  fits p → announced (frame key i p ++ rest) = zlen (frame key i p) ∧ zlen (frame key i p) <= maxMessageSize ∧
  byte_at (frame key i p) 0 = msgTypeRecord ∧ drop 3 (frame key i p) = aead_Seal key (nonceOf i) p [].
Proof.
  intros Hfit. pose proof (zlen_nonneg p). unfold fits, maxPlaintextSize, maxCiphertextSize, maxMessageSize in *.
  assert (headerLen <= zlen (frame key i p)) as Hh by (rewrite frame_length; unfold headerLen, chp_Overhead; lia).
  rewrite announced_prefix by done. split_and!; [|rewrite frame_length; lia|done|done].
  rewrite frame_length. unfold announced. change (be_at 2 (frame key i p) 1) with (be_val (be_bytes 2 (zlen p + chp_Overhead))).
  rewrite be_val_bytes_id; [done|]. unfold chp_Overhead in *. cbn. lia.
Qed.

Definition Keyed (key : bytes) (i : Z) (st : RX) : Prop :=
  RxWf st.1 ∧ Forall is_byte (stream st) ∧ rx_cipher st.1 = Some key ∧ rx_nonce st.1 = nonceOf i ∧
  0 <= i <= invalidNonce.

(** [decryptOneLocked] takes an authentic message off the stream, or reports an
    error; it does the former when the stream goes on with the next frame. *)
Lemma decryptOne_spec key i st st' r :
  Keyed key i st → decryptOneLocked pool st = (st', r) →
  RxWf st'.1 ∧ (∃ pre, stream st = pre ++ stream st') ∧
  ((∃ hdr ct p, r = Ok tt ∧ stream st = hdr ++ ct ++ stream st' ∧ length hdr = 3%nat ∧
      aead_Open key (nonceOf i) ct [] = Some p ∧ i < invalidNonce ∧
      rx_cipher st'.1 = Some key ∧ rx_nonce st'.1 = nonceOf (i + 1) ∧ rx_plaintext st'.1 = p)
   ∨ (∃ e, r = Err e ∧ rx_plaintext st'.1 = [] ∧
      (rx_cipher st'.1 = None ∧ (length (stream st') < length (stream st))%nat ∨
       rx_cipher st'.1 = Some key ∧ rx_nonce st'.1 = nonceOf i))) ∧
  (reads_ok st.2 → reads_ok st'.2 ∧
     ∀ p rest, fits p → i < invalidNonce → stream st = frame key i p ++ rest →
       r = Ok tt ∧ rx_plaintext st'.1 = p ∧ stream st' = rest).
Proof using pool_length H0.
  intros (Hwf & Hbyte & Hkey & Hnonce & Hi) Hd. rewrite decryptOne_locate in Hd.
  destruct (locate st) as [st1 r1] eqn:Hl.
  destruct (locate_spec _ _ _ Hwf Hbyte Hl) as (Hwf1 & Hk1 & Hn1 & Hp1 & Hc & Hok).
  unfold mbind, stM_bind in Hd. rewrite Hl in Hd.
  destruct Hc as [(off & len & -> & msg & b & Hst & <- & Hlen & Han & Hbuf & Hsl & Hoff & Hle)|(e & -> & Hst)].
  2:{ simplify_eq. split_and!; [done|exists []; by rewrite Hst| |].
      - right. eexists. rewrite Hk1, Hn1. eauto 6.
      - intros Hrok. destruct (Hok Hrok) as [? Hdone]. split; [done|]. intros p rest Hfit _ Heq.
        destruct (frame_announced key i p rest Hfit) as (Ha & Hm & _). rewrite Heq, Ha in Hdone.
        pose proof (zlen_nonneg p). pose proof (zlen_nonneg rest).
        assert (zlen (frame key i p ++ rest) = zlen (frame key i p) + zlen rest) as Hz
          by (unfold zlen; rewrite length_app; lia).
        assert (headerLen <= zlen (frame key i p)) by (rewrite frame_length; unfold headerLen, chp_Overhead; lia).
        destruct Hdone as [? ?]; [lia..|done]. }
  cbn [fst snd] in Hd. rewrite Hkey in Hk1. rewrite Hnonce in Hn1.
  destruct (decryptLocked_spec key i off msg b st1 st' r Hwf1 Hk1 Hn1 Hi Hp1 Hbuf Hsl Hlen Hoff Hle Hd)
    as (Hwf' & Hc' & Hb' & Hcase).
  assert (stream st' = stream st1) as Hst' by (unfold stream; by rewrite Hb', Hc').
  rewrite Hst'. split; [done|]. split; [by exists msg|]. split.
  - destruct Hcase as [(p & -> & _ & Ho & Hlt & ? & ? & ?)|(e & -> & ? & Hc2 & _)]; [left|right].
    2:{ exists e. split_and!; [done..|]. destruct Hc2; [left|right; done]. split; [done|].
        rewrite Hst, length_app. unfold zlen, headerLen in Hlen. lia. }
    exists (take 3 msg), (drop 3 msg), p. rewrite app_assoc, take_drop. split_and!; try done.
    rewrite length_take. unfold headerLen, zlen in Hlen. lia.
  - intros Hrok. rewrite Hc'. destruct (Hok Hrok) as [? _]. split; [done|]. intros p rest Hfit Hlt Heq.
    destruct (frame_announced key i p rest Hfit) as (Ha & Hm & Ht & Hdrop).
    assert (msg = frame key i p ∧ stream st1 = rest) as [-> ->].
    { rewrite Hst in Heq. rewrite <- Heq, announced_prefix, Han in Ha by lia.
      apply app_inj_1 in Heq; [done|]. unfold zlen in Ha. lia. }
    rewrite Hdrop in Hcase. rewrite Open_Seal in Hcase.
    destruct Hcase as [(p' & -> & _ & Ho & _ & _ & _ & Hp')|(e & _ & _ & _ & Hno)].
    + injection Ho as ->. done.
    + by discriminate (Hno Ht Hlt).
Qed.

(** ** The loop of [Read] *)
Lemma plaintextLoop_spec (P E : RX → Prop) :
  (∀ st st' r, P st → rx_plaintext st.1 = [] → decryptOneLocked pool st = (st', r) →
     (r = Ok tt ∧ P st' ∧ (length (stream st') < length (stream st))%nat) ∨ (∃ e, r = Err e ∧ E st')) →
  ∀ fuel st st' r, P st → (length (stream st) < fuel)%nat → plaintextLoop pool fuel st = (st', r) →
     (r = Ok tt ∧ P st' ∧ rx_plaintext st'.1 ≠ []) ∨ (∃ e, r = Err e ∧ E st').
Proof.
  intros Hstep fuel. induction fuel as [|fuel IH]; intros st st' r HP Hf Hl; [lia|]. cbn [plaintextLoop] in Hl.
  destruct (zlen (rx_plaintext st.1) =? 0) eqn:Hz; bool_prop.
  - assert (rx_plaintext st.1 = []) as Hnil by (destruct (rx_plaintext st.1); [done|unfold zlen in Hz; cbn in Hz; lia]).
    destruct (decryptOneLocked pool st) as [st1 r1] eqn:Hd. unfold mbind, stM_bind in Hl. rewrite Hd in Hl.
    destruct (Hstep _ _ _ HP Hnil Hd) as [(-> & HP1 & Hlt)|(e & -> & HE)].
    + apply (IH _ _ _ HP1 ltac:(lia) Hl).
    + simplify_eq. eauto.
  - simplify_eq. left. split_and!; [done..|]. intros Hnil. rewrite Hnil in Hz. done.
Qed.

Lemma Read_spec (P E : RX → Prop) cap st st' r :
  (∀ st st' r, P st → rx_plaintext st.1 = [] → decryptOneLocked pool st = (st', r) →
     (r = Ok tt ∧ P st' ∧ (length (stream st') < length (stream st))%nat) ∨ (∃ e, r = Err e ∧ E st')) →
  is_Some (rx_cipher st.1) → RxWf st.1 → P st → Read pool cap st = (st', r) →
  (∃ st1, P st1 ∧ rx_plaintext st1.1 ≠ [] ∧ r = Ok (take cap (rx_plaintext st1.1)) ∧
          st' = (set_plaintext (drop cap (rx_plaintext st1.1)) st1.1, st1.2)) ∨
  (∃ e, r = Err e ∧ E st').
Proof.
  intros Hstep [k Hk] Hwf HP Hr. unfold Read in Hr. rewrite Hk in Hr.
  destruct (plaintextLoop pool (S (unread st)) st) as [st1 r1] eqn:Hl.
  unfold mbind, stM_bind in Hr. rewrite Hl in Hr.
  assert (length (stream st) < S (unread st))%nat as Hfuel by (rewrite (unread_stream _ Hwf); lia).
  destruct (plaintextLoop_spec P E Hstep _ _ _ _ HP Hfuel Hl)
    as [(-> & HP1 & Hne)|(e & -> & HE)].
  - cbn in Hr. injection Hr as <- <-. left. exists st1. split_and!; try done. f_equal. f_equal.
    rewrite length_take. destruct (le_lt_dec cap (length (rx_plaintext st1.1))).
    + by rewrite Nat.min_l by lia.
    + rewrite Nat.min_r by lia. by rewrite !drop_ge by lia.
  - simplify_eq. eauto.
Qed.

(** A sequence of calls of [Read], whose results are collected. *)
Fixpoint readSeq (caps : list nat) (st : RX) : RX * list (res bytes) :=
  match caps with
  | [] => (st, [])
  | cap :: caps =>
      let '(st, r) := Read pool cap st in
      let '(st, rs) := readSeq caps st in
      (st, r :: rs)
  end.

(** The data that the calls returned. *)
Definition received (rs : list (res bytes)) : bytes :=
  concat ((λ r, match r with Ok b => b | _ => [] end) <$> rs).

(** No call panicked. *)
Definition returned (r : res bytes) : Prop := (∃ b, r = Ok b) ∨ (∃ e, r = Err e).

End Filling.

End Frames.
