(* ===== verification/NoiseSecure.v ===== *)
(** * What the control channel guarantees

    The main theorems about [NoiseConn], on sequences of calls of [Read] and
    [Write] by the two ends. *)
From S2P Require Import Prelude NetBuf GoState NetConn NoiseHandshake NoiseAgree NoiseConn NoiseStream.

Lemma nonceOf_inj i j : 0 <= i < 2 ^ 64 → 0 <= j < 2 ^ 64 → nonceOf i = nonceOf j → i = j.
Proof.
  intros Hi Hj [_ Heq]%app_inj_1; [|done]. apply (f_equal be_val) in Heq.
  by rewrite !be_val_bytes_id in Heq.
Qed.

#[local] Arguments frame : simpl never.

Section Secure.
Context `{NoiseLaws}.
Context (pool : NetConn → bytes).
Hypothesis pool_length : ∀ c, zlen (pool c) = maxMessageSize.

(** ** Reading what an attacker may have tampered with *)

(** [ps] is what the peer encrypted under the nonces 0, 1, ..; nothing else on the
    wire [w] passes for a message under any of them. *)
Definition no_forgery (key : bytes) (ps : list bytes) (w : bytes) : Prop :=
  ∀ (i : nat) ct p, (∃ pre post, w = pre ++ ct ++ post) → Z.of_nat i < invalidNonce →
    aead_Open key (nonceOf (Z.of_nat i)) ct [] = Some p → ps !! i = Some p.

Section Tampering.
Context (key : bytes) (ps : list bytes) (w : bytes).
Hypothesis Hforge : no_forgery key ps w.
Hypothesis Hps : zlen ps <= invalidNonce.
Hypothesis Hw : Forall is_byte w.

(** [d] has been returned; the rest of what was decrypted is waiting. *)
Definition Safe (d : bytes) (st : RX) : Prop :=
  ∃ i : nat, (i <= length ps)%nat ∧ Keyed key (Z.of_nat i) st ∧ (∃ pre, w = pre ++ stream st) ∧
             d ++ rx_plaintext st.1 = concat (take i ps).

Definition SafeOrDead (d : bytes) (st : RX) : Prop :=
  Safe d st ∨ (rx_cipher st.1 = None ∧ d `prefix_of` concat ps).

Lemma concat_take_prefix (i : nat) : concat (take i ps) `prefix_of` concat ps.
Proof. exists (concat (drop i ps)). by rewrite <- concat_app, take_drop. Qed.

Lemma Safe_step d st st' r :
  Safe d st → rx_plaintext st.1 = [] → decryptOneLocked pool st = (st', r) →
  (r = Ok tt ∧ Safe d st' ∧ (length (stream st') < length (stream st))%nat) ∨ (∃ e, r = Err e ∧ SafeOrDead d st').
Proof using pool_length Hforge Hps Hw H0.
  intros (i & Hi & Hk & (pre & Hpre) & Hd) Hnil Hdec.
  destruct (decryptOne_spec pool pool_length _ _ _ _ _ Hk Hdec) as (Hwf & (pre' & Hpre') & Hcase & _).
  rewrite Hnil, app_nil_r in Hd.
  assert (Forall is_byte (stream st')) as Hb.
  { destruct Hk as (_ & Hb & _). rewrite Hpre' in Hb. by apply Forall_app in Hb as [_ ?]. }
  assert (w = (pre ++ pre') ++ stream st') as Hw' by (by rewrite <- app_assoc, <- Hpre', <- Hpre).
  destruct Hcase as [(hdr & ct & p & -> & Hst & Hh & Ho & Hlt & ? & Hn & Hp)|(e & -> & Hp & Hc)].
  - left. assert (ps !! i = Some p) as Hlook.
    { apply (Hforge i ct p); [|done..]. exists (pre ++ hdr), (stream st'). rewrite Hpre, Hst. by rewrite !app_assoc. }
    split_and!; [done| |].
    + exists (S i). apply lookup_lt_Some in Hlook as ?. split; [lia|]. split; [|split; [eauto|]].
      * unfold Keyed. rewrite Nat2Z.inj_succ, <- Z.add_1_r. split_and!; try done; lia.
      * rewrite (take_S_r _ _ _ Hlook), concat_app, Hp, Hd. cbn. by rewrite app_nil_r.
    + rewrite Hst, !length_app. lia.
  - right. eexists. split; [done|]. destruct Hc as [[Hnone _]|[Hsome Hn]].
    + right. split; [done|]. rewrite Hd. apply concat_take_prefix.
    + left. exists i. destruct Hk as (_ & _ & _ & _ & ?). split; [done|]. split; [by unfold Keyed|].
      split; [eauto|]. by rewrite Hp, app_nil_r.
Qed.

Lemma Read_safe d cap st st' r :
  SafeOrDead d st → Read pool cap st = (st', r) →
  returned r ∧ SafeOrDead (d ++ match r with Ok b => b | _ => [] end) st'.
Proof using pool_length Hforge Hps Hw H0.
  intros [HS|[Hnone Hpre]] Hr.
  - pose proof HS as (i & Hi & (Hwf & _ & Hkey & _) & _).
    destruct (Read_spec pool (Safe d) (SafeOrDead d) cap st st' r) as [(st1 & HS1 & _ & -> & ->)|(e & -> & HE)];
      [apply Safe_step|by rewrite Hkey|done|done|done| |].
    + split; [left; eauto|]. destruct HS1 as (j & Hj & (Hwf1 & Hb1 & Hk1 & Hn1 & Hi1) & Hw1 & Hd1).
      left. exists j. split; [done|]. split; [|split; [done|]].
      * unfold Keyed. split_and!; try done; try lia. destruct Hwf1. by split.
      * cbn. by rewrite <- app_assoc, take_drop.
    + split; [right; eauto|]. by rewrite app_nil_r.
  - unfold Read in Hr. rewrite Hnone in Hr. injection Hr as <- <-. split; [right; eauto|].
    rewrite app_nil_r. by right.
Qed.

Lemma readSeq_safe caps d st st' rs :
  SafeOrDead d st → readSeq pool caps st = (st', rs) →
  Forall returned rs ∧ SafeOrDead (d ++ received rs) st'.
Proof using pool_length Hforge Hps Hw H0.
  revert d st st' rs. induction caps as [|cap caps IH]; intros d st st' rs HS Hr; cbn [readSeq] in Hr.
  - simplify_eq. split; [done|]. unfold received. cbn. by rewrite app_nil_r.
  - destruct (Read pool cap st) as [st1 r] eqn:Hr1. destruct (readSeq pool caps st1) as [st2 rs2] eqn:Hr2.
    simplify_eq. destruct (Read_safe _ _ _ _ _ HS Hr1) as [Hret HS1]. destruct (IH _ _ _ _ HS1 Hr2) as [? ?].
    split; [by constructor|]. unfold received in *. cbn. by rewrite app_assoc.
Qed.

Lemma newRx_Keyed c : c_in c = w → Keyed key 0 (newRx key, c).
Proof using Hw.
  intros Hin. unfold Keyed, stream. cbn. rewrite Hin. split_and!; done.
Qed.

(** C18. Whatever bytes an attacker puts on the wire, dropping, replaying, reordering, cutting or making up
    frames, every call of [Read] returns, and what the calls return in total is a prefix of what the peer
    encrypted: nothing is altered, repeated, reordered or left out. The attacker is taken to be unable to
    forge a ciphertext that opens under a nonce to something the peer did not encrypt under it. *)
Theorem reads_are_authentic caps c st' rs :
  c_in c = w → readSeq pool caps (newRx key, c) = (st', rs) →
  Forall returned rs ∧ received rs `prefix_of` concat ps.
Proof using pool_length Hforge Hps Hw H0.
  intros Hin Hr. assert (SafeOrDead [] (newRx key, c)) as H0'.
  { left. exists 0%nat. split; [lia|]. split; [by apply newRx_Keyed|]. split; [|done].
    exists []. unfold stream. cbn. by rewrite Hin. }
  destruct (readSeq_safe _ _ _ _ _ H0' Hr) as [Hret HS]. split; [done|]. cbn in HS. destruct HS as [(i & _ & _ & _ & Hd)|[_ ?]]; [|done].
  trans (concat (take i ps)); [|apply concat_take_prefix]. rewrite <- Hd. by exists (rx_plaintext st'.1).
Qed.
End Tampering.

(** ** Writing *)

(** The frames of consecutive messages, one by one. *)
Definition frameList (key : bytes) (i : Z) (ps : list bytes) : list bytes :=
  imap (λ j p, frame key (i + Z.of_nat j) p) ps.

Lemma frameList_cons key i p ps : frameList key i (p :: ps) = frame key i p :: frameList key (i + 1) ps.
Proof.
  unfold frameList. cbn. rewrite Z.add_0_r. f_equal. apply imap_ext. intros j q _. unfold compose. cbn beta. f_equal. lia.
Qed.

Lemma frameList_app key i ps qs :
  frameList key i (ps ++ qs) = frameList key i ps ++ frameList key (i + zlen ps) qs.
Proof.
  revert i. induction ps as [|p ps IH]; intros i; cbn [app].
  - by rewrite Z.add_0_r.
  - rewrite !frameList_cons, IH. cbn. do 3 f_equal. unfold zlen. cbn [length]. lia.
Qed.

Lemma concat_frameList key i ps : concat (frameList key i ps) = frames key i ps.
Proof. revert i. induction ps as [|p ps IH]; intros i; [done|]. rewrite frameList_cons. cbn. by rewrite IH. Qed.

(** What [Write] cuts its argument into. *)
Definition chunk (p : bytes) : Prop := p ≠ [] ∧ fits p.

Lemma encryptLocked_run key i p buf err :
  0 <= i < invalidNonce → fits p → zlen buf = maxMessageSize →
  encryptLocked p buf (mkTx (Some key) (nonceOf i) err) =
  Ok (mkTx (Some key) (nonceOf (i + 1)) err, frame key i p).
Proof.
  intros Hi Hfit Hbuf. pose proof (zlen_nonneg p) as Hp.
  unfold fits, maxPlaintextSize, maxCiphertextSize, maxMessageSize, chp_Overhead in *.
  unfold encryptLocked. cbn [tx_nonce tx_cipher tx_err].
  rewrite nonce_Valid_at by (unfold invalidNonce in *; lia). cbn [mbind res_bind].
  replace (i =? invalidNonce) with false by lia. cbn [negb].
  unfold put. change (0 <? 0) with false. cbn iota.
  destruct buf as [|b0 [|b1 [|b2 buf]]]; try (unfold zlen in Hbuf; cbn in Hbuf; lia).
  change (overwrite_at (Z.to_nat 0) (b0 :: b1 :: b2 :: buf) [msgTypeRecord]) with
    (Ok (msgTypeRecord :: b1 :: b2 :: buf)). cbn [mbind res_bind].
  unfold u16. rewrite Z.mod_small by (unfold chp_Overhead; lia).
  change (PutUint16 (msgTypeRecord :: b1 :: b2 :: buf) 1 (zlen p + chp_Overhead)) with
    (Ok (msgTypeRecord :: be_bytes 2 (zlen p + chp_Overhead) ++ buf)). cbn [mbind res_bind].
  change (slice _ 0 headerLen) with (Ok (msgTypeRecord :: be_bytes 2 (zlen p + chp_Overhead))).
  cbn [mbind res_bind]. by rewrite nonce_Increment_at by done.
Qed.

Lemma encryptLocked_exhausted key p buf err :
  encryptLocked p buf (mkTx (Some key) (nonceOf invalidNonce) err) = Err errCipherExhausted.
Proof. done. Qed.

(** Where a write can have got to: it encrypted the messages [ps]. *)
Record Wrote (key : bytes) (i : Z) (c : NetConn) (tx : txState) (c' : NetConn) (ps : list bytes) : Prop := {
  wr_writes : c_writes c' = c_writes c ++ frameList key i ps;
  wr_chunks : Forall chunk ps;
  wr_cipher : tx_cipher tx = Some key;
  wr_nonce : tx_nonce tx = nonceOf (i + zlen ps);
  wr_range : 0 <= i + zlen ps <= invalidNonce
}.

Lemma Wrote_nil key i c tx :
  tx_cipher tx = Some key → tx_nonce tx = nonceOf i → 0 <= i <= invalidNonce → Wrote key i c tx c [].
Proof.
  intros. assert (i + zlen (A := bytes) [] = i) as Hi by (change (zlen []) with 0; lia).
  split; rewrite ?Hi; try done. by rewrite app_nil_r.
Qed.

Lemma conn_Write_spec b c :
  ∃ c', (conn_Write b c = (c', Ok tt) ∧ c_sent c' = c_sent c ++ b ∨
         conn_Write b c = (c', Err ioErr) ∧ c_wfail c ≠ []) ∧
        c_writes c' = c_writes c ++ [b] ∧ c_in c' = c_in c ∧ c_reads c' = c_reads c ∧
        (c_wfail c = [] → c_wfail c' = []).
Proof. unfold conn_Write. destruct (c_wfail c) as [|[k|] fails]; eexists;
  (split; [first [left; split; reflexivity|right; split; [reflexivity|done]]|done]). Qed.

Lemma writeLoop_spec key i fuel bs sent tx c tx' c' r :
  tx = mkTx (Some key) (nonceOf i) None → 0 <= i <= invalidNonce → (length bs < fuel)%nat →
  writeLoop pool fuel bs sent tx c = ((tx', c'), r) →
  ∃ ps n err, r = Ok (n, err) ∧ Wrote key i c tx' c' ps ∧ sent <= n <= sent + zlen bs ∧
    (err = None → concat ps = bs ∧ n = sent + zlen bs ∧ tx_err tx' = None ∧ c_sent c' = c_sent c ++ frames key i ps) ∧
    (c_wfail c = [] → c_wfail c' = [] ∧ (i + zlen bs <= invalidNonce → err = None)).
Proof using pool_length H0.
  revert i bs sent tx c. induction fuel as [|fuel IH]; intros i bs sent tx c -> Hi Hf Hl; [lia|].
  cbn [writeLoop] in Hl. pose proof (zlen_nonneg bs) as Hnn. destruct (0 <? zlen bs) eqn:E; bool_prop; cbn [negb] in Hl.
  2:{ simplify_eq. exists [], sent, None. assert (bs = []) as -> by (destruct bs; [done|unfold zlen in E; cbn in E; lia]).
      split_and!; try done; [|cbn; lia..|].
      - by apply Wrote_nil.
      - intros _. cbn. rewrite app_nil_r. split_and!; (done || lia). }
  set (toSend := if maxPlaintextSize <? zlen bs then take (Z.to_nat maxPlaintextSize) bs else bs) in *.
  assert (bs = toSend ++ drop (length toSend) bs ∧ chunk toSend) as [Hsplit Hchunk].
  { unfold toSend, chunk, fits. destruct (maxPlaintextSize <? zlen bs) eqn:Eb; bool_prop.
    - rewrite length_take, Nat.min_l by (unfold zlen in Eb; lia). rewrite take_drop. split_and!; [done| |].
      + destruct bs; [done|]. by destruct (Z.to_nat maxPlaintextSize) eqn:Em; [discriminate Em|].
      + unfold zlen. rewrite length_take. assert (0 <= maxPlaintextSize) by done. lia.
    - rewrite drop_all, app_nil_r. split_and!; [done| |done]. intros ->. done. }
  clearbody toSend. destruct Hchunk as [Hne Hfit].
  destruct (decide (i = invalidNonce)) as [->|Hlt].
  { rewrite encryptLocked_exhausted in Hl. simplify_eq. exists [], sent, (Some errCipherExhausted).
    split_and!; [done|by apply Wrote_nil|lia|lia|done|]. intros ?. split; [done|]. lia. }
  rewrite encryptLocked_run in Hl by (done || lia).
  assert (zlen bs = zlen toSend + zlen (drop (length toSend) bs)) as Hzl.
  { rewrite Hsplit at 1. unfold zlen. rewrite length_app. lia. }
  assert (0 < zlen toSend) as Hpos by (destruct toSend; [done|unfold zlen; cbn; lia]).
  pose proof (zlen_nonneg (drop (length toSend) bs)) as Hnn2.
  destruct (conn_Write_spec (frame key i toSend) c) as (c1 & Hcase & Hw1 & Hin1 & Hrd1 & Hwf1).
  destruct Hcase as [[Hcw Hsent]|[Hcw Hfail]]; rewrite Hcw in Hl.
  - assert (length (drop (length toSend) bs) < fuel)%nat as Hf' by (unfold zlen in *; lia).
    destruct (IH (i + 1) _ _ _ _ eq_refl ltac:(lia) Hf' Hl)
      as (ps & n & err & -> & [Hwr Hch Hci Hno Hra] & Hn & Hnone & Hwf).
    exists (toSend :: ps), n, err. split_and!; [done| |lia|lia| |].
    + split; [|by constructor|done| |].
      * by rewrite Hwr, Hw1, frameList_cons, <- app_assoc.
      * rewrite Hno. f_equal. unfold zlen. cbn [length]. lia.
      * unfold zlen in *. cbn [length]. lia.
    + intros Herr. destruct (Hnone Herr) as (Hc & -> & ? & Hs). cbn [concat frames].
      split_and!; [by rewrite Hc|lia|done|]. by rewrite Hs, Hsent, <- app_assoc.
    + intros Hok. destruct (Hwf (Hwf1 Hok)) as [? Hgood]. split; [done|]. intros Hle. apply Hgood. lia.
  - simplify_eq. exists [toSend], sent, (Some ioErr). split_and!; [done| |lia|lia|done|done].
    change (zlen [toSend]) with 1.
    split; [|by repeat constructor|done|done|change (zlen [toSend]) with 1; lia].
    by rewrite Hw1, frameList_cons.
Qed.

(** [Write] on a connection that has had no error. *)
Lemma Write_spec key i bs c st' r :
  0 <= i <= invalidNonce → Write pool bs (mkTx (Some key) (nonceOf i) None, c) = (st', r) →
  ∃ ps n err, r = Ok (n, err) ∧
    c_writes st'.2 = c_writes c ++ frameList key i ps ∧ Forall chunk ps ∧ i + zlen ps <= invalidNonce ∧
    (err = None → st'.1 = mkTx (Some key) (nonceOf (i + zlen ps)) None ∧ concat ps = bs ∧ n = zlen bs ∧
                  c_sent st'.2 = c_sent c ++ frames key i ps) ∧
    (err ≠ None → is_Some (tx_err st'.1)) ∧
    (c_wfail c = [] → c_wfail st'.2 = [] ∧ (i + zlen bs <= invalidNonce → err = None)).
Proof using pool_length H0.
  intros Hi Hw. unfold Write in Hw. cbn [tx_err tx_cipher fst snd] in Hw.
  destruct (writeLoop pool (S (length bs)) bs 0 _ c) as [[tx1 c1] r1] eqn:Hl.
  destruct (writeLoop_spec _ _ _ _ _ _ _ _ _ _ eq_refl Hi (Nat.lt_succ_diag_r _) Hl)
    as (ps & n & err & -> & [Hwr Hch Hci Hno Hra] & Hn & Hnone & Hwf).
  injection Hw as <- <-. exists ps, n, err. cbn [fst snd]. split_and!; try done; try lia.
  - intros ->. destruct (Hnone eq_refl) as (? & -> & Herr & ?). split_and!; try done.
    unfold noteError. by rewrite Hci, Hno, Herr.
  - intros Hne. unfold noteError. cbn. destruct (tx_err tx1); [done|]. destruct err; done.
Qed.

Fixpoint writeSeq (msgs : list bytes) (st : TX) : TX * list (res (Z * option error)) :=
  match msgs with
  | [] => (st, [])
  | bs :: msgs =>
      let '(st, r) := Write pool bs st in
      let '(st, rs) := writeSeq msgs st in
      (st, r :: rs)
  end.

(** Once there was an error, nothing more is written. *)
Lemma writeSeq_dead msgs tx c st' rs :
  is_Some (tx_err tx) → writeSeq msgs (tx, c) = (st', rs) →
  st' = (tx, c) ∧ Forall (λ r, ∃ e, r = Ok (0, Some e)) rs.
Proof.
  intros [e He]. revert st' rs. induction msgs as [|bs msgs IH]; intros st' rs Hw; cbn [writeSeq] in Hw; [by simplify_eq|].
  unfold Write in Hw. cbn [fst snd] in Hw. rewrite He in Hw. destruct (writeSeq msgs (tx, c)) as [st2 rs2] eqn:Hs.
  simplify_eq. destruct (IH _ _ eq_refl) as [-> ?]. split; [done|]. constructor; eauto.
Qed.

(** What a sequence of calls puts on the wire, in every case. *)
Lemma writeSeq_spec key i msgs c st' rs :
  0 <= i <= invalidNonce → writeSeq msgs (mkTx (Some key) (nonceOf i) None, c) = (st', rs) →
  ∃ ps, c_writes st'.2 = c_writes c ++ frameList key i ps ∧ Forall chunk ps ∧ i + zlen ps <= invalidNonce ∧
    Forall (λ r, ∃ n err, r = Ok (n, err)) rs.
Proof using pool_length H0.
  revert i c st' rs. induction msgs as [|bs msgs IH]; intros i c st' rs Hi Hw; cbn [writeSeq] in Hw.
  { simplify_eq. exists []. rewrite app_nil_r. split_and!; try done. change (zlen []) with 0. lia. }
  destruct (Write pool bs _) as [st1 r] eqn:Hr. destruct (writeSeq msgs st1) as [st2 rs2] eqn:Hs. simplify_eq.
  destruct (Write_spec _ _ _ _ _ _ Hi Hr) as (ps & n & err & -> & Hw1 & Hch & Hra & Hnone & Hsome & _).
  destruct st1 as [tx1 c1]. destruct err as [e|].
  - destruct (writeSeq_dead _ _ _ _ _ (Hsome ltac:(done)) Hs) as [-> Hdead]. exists ps. split_and!; try done.
    constructor; [by eauto|]. eapply Forall_impl; [done|]. naive_solver.
  - destruct (Hnone eq_refl) as (Htx & _). cbn in *. subst tx1. pose proof (zlen_nonneg ps).
    destruct (IH (i + zlen ps) _ _ _ ltac:(lia) Hs) as (qs & Hw2 & Hch2 & Hra2 & Hres).
    exists (ps ++ qs). rewrite Hw2, Hw1, frameList_app, <- app_assoc. split_and!; try done.
    + by apply Forall_app.
    + unfold zlen in *. rewrite length_app. lia.
    + constructor; eauto.
Qed.

(** Whatever is written, and whichever writes to the connection fail, everything [Write] puts on the
    connection is a sequence of frames sealed under the nonces 0, 1, 2 .. in order: no nonce is used twice
    under a key, also after an error and when the nonces run out. No frame is longer than [maxMessageSize],
    and every call returns. *)
Theorem writes_use_fresh_nonces key msgs c st' rs :
  writeSeq msgs (newTx key, c) = (st', rs) →
  ∃ ps, c_writes st'.2 = c_writes c ++ imap (λ i p, frame key (Z.of_nat i) p) ps ∧
    NoDup ((λ i, nonceOf (Z.of_nat i)) <$> seq 0 (length ps)) ∧
    Forall (λ f, zlen f <= maxMessageSize) (imap (λ i p, frame key (Z.of_nat i) p) ps) ∧
    Forall (λ r, ∃ n err, r = Ok (n, err)) rs.
Proof using pool_length H0.
  unfold newTx. rewrite nonceOf_zero. intros Hw.
  destruct (writeSeq_spec key 0 msgs c st' rs) as (ps & Hwr & Hch & Hra & Hres); [done|done|].
  exists ps. split_and!; [done| | |done].
  - apply NoDup_fmap_2_strong; [|apply NoDup_seq]. intros x y Hx%elem_of_seq Hy%elem_of_seq Heq.
    unfold invalidNonce, zlen in Hra. apply nonceOf_inj in Heq; lia.
  - rewrite Forall_forall. intros f (i & p & -> & Hp)%elem_of_lookup_imap.
    rewrite Forall_lookup in Hch. destruct (Hch _ _ Hp) as [_ Hfit]. rewrite frame_length.
    unfold fits, maxPlaintextSize, maxCiphertextSize in Hfit. lia.
Qed.

(** A failed [Write] is the last that touches the connection: later calls report
    an error and send nothing. *)
Lemma write_error_is_final bs st st' n e msgs st'' rs :
  Write pool bs st = (st', Ok (n, Some e)) → writeSeq msgs st' = (st'', rs) →
  st'' = st' ∧ Forall (λ r, ∃ e', r = Ok (0, Some e')) rs.
Proof.
  intros Hw Hs. destruct st' as [tx c]. apply (writeSeq_dead msgs tx c st'' rs); [|done].
  unfold Write in Hw. destruct (tx_err st.1) as [e0|] eqn:Ee.
  - injection Hw as -> <- <-. by exists e0.
  - assert (∃ tx1, tx = noteError (Some e) tx1) as [tx1 ->].
    { destruct (tx_cipher st.1).
      - destruct (writeLoop _ _ _ _ _ _) as [[tx1 c1] [[n1 err]| | |]]; try done. simplify_eq. eauto.
      - destruct st. simplify_eq. eauto. }
    unfold noteError. cbn. by destruct (tx_err tx1).
Qed.

(** ** Delivery *)

(** The messages [ps] are on their way and [d] has still to be returned. *)
Definition Live (key : bytes) (d : bytes) (st : RX) : Prop :=
  ∃ i ps, Keyed key i st ∧ i + zlen ps <= invalidNonce ∧ Forall chunk ps ∧ stream st = frames key i ps ∧
          d = rx_plaintext st.1 ++ concat ps ∧ reads_ok st.2.

Lemma Live_step key d st st' r :
  Live key d st → rx_plaintext st.1 = [] → decryptOneLocked pool st = (st', r) →
  (r = Ok tt ∧ (Live key d st' ∧ d ≠ []) ∧ (length (stream st') < length (stream st))%nat) ∨
  (∃ e, r = Err e ∧ Live key d st' ∧ d = []).
Proof using pool_length H0.
  intros (i & ps & Hk & Hra & Hch & Hst & Hd & Hrok) Hnil Hdec. rewrite Hnil in Hd. cbn in Hd.
  destruct (decryptOne_spec pool pool_length _ _ _ _ _ Hk Hdec) as (Hwf & (pre & Hpre) & Hcase & Hok).
  destruct (Hok Hrok) as [Hrok' Hframe].
  assert (Forall is_byte (stream st')) as Hb.
  { destruct Hk as (_ & Hb & _). rewrite Hpre in Hb. by apply Forall_app in Hb as [_ ?]. }
  destruct Hk as (_ & _ & _ & _ & Hi). destruct ps as [|p ps].
  - right. cbn in Hst. destruct Hcase as [(hdr & ct & p & _ & Hst' & Hh & _)|(e & -> & Hp & Hc)].
    { rewrite Hst in Hst'. by destruct hdr. }
    assert (stream st' = []) as Hs' by (rewrite Hst in Hpre; symmetry in Hpre; by apply app_eq_nil in Hpre as [_ ?]).
    exists e. split; [done|]. split; [|done].
    destruct Hc as [[_ Hlt]|[Hsome Hn]]; [rewrite Hst in Hlt; cbn in Hlt; lia|].
    exists i, []. unfold Keyed. rewrite Hp. split_and!; (done || lia).
  - left. inversion Hch as [|? ? [Hne Hfit] Hch']; subst.
    assert (i < invalidNonce) as Hlt by (pose proof (zlen_nonneg ps); unfold zlen in *; cbn [length] in Hra; lia).
    destruct (Hframe p (frames key (i + 1) ps) Hfit Hlt Hst) as (-> & Hp & Hs').
    destruct Hcase as [(hdr & ct & p' & _ & _ & _ & _ & _ & Hkey' & Hn' & _)|(e & ? & _)]; [|done].
    split_and!; [done| | |].
    + exists (i + 1), ps. split_and!; try done.
      * unfold Keyed. split_and!; try done; lia.
      * unfold zlen in *. cbn [length] in Hra. lia.
      * by rewrite Hp.
    + cbn. by destruct p.
    + rewrite Hst, Hs'. cbn [frames]. rewrite length_app. pose proof (frame_length key i p) as Hfl.
      pose proof (zlen_nonneg p). unfold zlen, chp_Overhead in *. lia.
Qed.

Lemma Read_live key d cap st st' r :
  Live key d st → (0 < cap)%nat → Read pool cap st = (st', r) →
  ∃ out d', d = out ++ d' ∧ Live key d' st' ∧
    ((r = Ok out ∧ out ≠ []) ∨ (∃ e, r = Err e ∧ out = [] ∧ d = [])).
Proof using pool_length H0.
  intros HL Hcap Hr. pose proof HL as (i & ps & (Hwf & _ & Hkey & _) & _).
  destruct (Read_spec pool (Live key d) (λ st, Live key d st ∧ d = []) cap st st' r)
    as [(st1 & HL1 & Hne & -> & ->)|(e & -> & HL1 & ->)]; [|by rewrite Hkey|done|done|done| |].
  - intros s1 s2 r1 HL1 Hnil Hdec. destruct (Live_step _ _ _ _ _ HL1 Hnil Hdec) as [(-> & [? ?] & ?)|?]; eauto.
  - destruct HL1 as (j & qs & (Hwf1 & Hb1 & Hk1 & Hn1 & Hi1) & Hra1 & Hch1 & Hst1 & -> & Hok1).
    exists (take cap (rx_plaintext st1.1)), (drop cap (rx_plaintext st1.1) ++ concat qs).
    split; [by rewrite app_assoc, take_drop|]. split.
    + exists j, qs. split_and!; try done; try lia. unfold Keyed. split_and!; try done; try lia.
      destruct Hwf1. by split.
    + left. split; [done|]. destruct (rx_plaintext st1.1); [done|]. by destruct cap; [lia|].
  - exists [], []. split_and!; eauto 10.
Qed.

Lemma readSeq_live key caps d st st' rs :
  Live key d st → Forall (λ cap, (0 < cap)%nat) caps → readSeq pool caps st = (st', rs) →
  Forall returned rs ∧
  ∃ rest, d = received rs ++ rest ∧ ((length d <= length caps)%nat → rest = []).
Proof using pool_length H0.
  revert d st st' rs. induction caps as [|cap caps IH]; intros d st st' rs HL Hcaps Hr; cbn [readSeq] in Hr.
  - simplify_eq. split; [done|]. exists d. split; [done|]. destruct d; cbn; [done|lia].
  - destruct (Read pool cap st) as [st1 r] eqn:Hr1. destruct (readSeq pool caps st1) as [st2 rs2] eqn:Hr2.
    simplify_eq. inversion Hcaps as [|? ? Hcap Hcaps']; subst.
    destruct (Read_live _ _ _ _ _ _ HL Hcap Hr1) as (out & d' & -> & HL' & Hcase).
    destruct (IH _ _ _ _ HL' Hcaps' Hr2) as (Hret & rest & -> & Hall).
    destruct Hcase as [(-> & Hne)|(e & -> & -> & Hnil)].
    + split; [constructor; [left; eauto|done]|]. exists rest. unfold received in *. cbn [fmap list_fmap concat].
      split; [by rewrite app_assoc|]. rewrite length_app. cbn [length]. intros Hle. apply Hall.
      destruct out; [done|]. cbn in Hle. lia.
    + split; [constructor; [right; eauto|done]|]. exists rest. split; [done|]. intros _. cbn in Hnil.
      by apply app_eq_nil in Hnil as [_ ?].
Qed.

(** Every byte is in a frame of its own message at most: there are no more frames
    than bytes. *)
Lemma chunks_count ps : Forall chunk ps → zlen ps <= zlen (concat ps).
Proof.
  induction 1 as [|p ps [Hne _] _ IH]; [done|]. unfold zlen in *. cbn. rewrite length_app.
  destruct p; [done|]. cbn. lia.
Qed.

Lemma writeSeq_good key i msgs c st' rs :
  0 <= i → i + zlen (concat msgs) <= invalidNonce → c_wfail c = [] →
  writeSeq msgs (mkTx (Some key) (nonceOf i) None, c) = (st', rs) →
  rs = (λ m, Ok (zlen m, None)) <$> msgs ∧
  ∃ ps, c_sent st'.2 = c_sent c ++ frames key i ps ∧ Forall chunk ps ∧ concat ps = concat msgs.
Proof using pool_length H0.
  revert i c st' rs. induction msgs as [|bs msgs IH]; intros i c st' rs Hi Hra Hwf Hw; cbn [writeSeq] in Hw.
  { simplify_eq. split; [done|]. exists []. by rewrite app_nil_r. }
  destruct (Write pool bs _) as [st1 r] eqn:Hr. destruct (writeSeq msgs st1) as [st2 rs2] eqn:Hs. simplify_eq.
  assert (zlen (concat (bs :: msgs)) = zlen bs + zlen (concat msgs)) as Hz
    by (unfold zlen; cbn; rewrite length_app; lia).
  pose proof (zlen_nonneg bs). pose proof (zlen_nonneg (concat msgs)).
  destruct (Write_spec key i bs c st1 r ltac:(lia) Hr) as (ps & n & err & -> & _ & Hch & _ & Hnone & _ & Hgood).
  destruct (Hgood Hwf) as [Hwf1 Herr]. rewrite Herr in * by lia.
  destruct (Hnone eq_refl) as (Htx & Hc & -> & Hsent). destruct st1 as [tx1 c1]. cbn [fst snd] in *. subst tx1.
  pose proof (chunks_count _ Hch) as Hcount. rewrite Hc in Hcount. pose proof (zlen_nonneg ps).
  destruct (IH (i + zlen ps) c1 st' rs2) as (-> & qs & Hsent2 & Hch2 & Hc2); [lia|lia|done|done|].
  split; [done|]. exists (ps ++ qs). rewrite frames_app, Hsent2, Hsent, concat_app, Hc, Hc2, <- app_assoc.
  split_and!; try done. by apply Forall_app.
Qed.

Lemma frames_byte key i ps : Forall is_byte (concat ps) → Forall is_byte (frames key i ps).
Proof using H0.
  revert i. induction ps as [|p ps IH]; intros i Hb; [done|]. cbn in *. apply Forall_app in Hb as [Hp Hb].
  apply Forall_app. split; [|auto]. unfold frame. apply Forall_app. split; [by repeat constructor|].
  apply Forall_app. split; [apply be_bytes_byte|by apply Seal_byte].
Qed.

(** C20. Between the two ends of a finished handshake, in either direction, everything written is reported
    as written in full and is read back in order, however the writes are cut into messages, the network into
    pieces and the reads into buffers. With one read for each byte written nothing is left unread. *)
Theorem control_channel_delivers m K sessC sessS kw kr msgs wconn stw ws rconn caps str rs :
  partners m K sessC sessS →
  (kw = se_tx sessC ∧ kr = se_rx sessS ∨ kw = se_tx sessS ∧ kr = se_rx sessC) →
  Forall is_byte (concat msgs) → zlen (concat msgs) <= invalidNonce →
  c_wfail wconn = [] → c_sent wconn = [] → writeSeq msgs (newTx kw, wconn) = (stw, ws) →
  c_in rconn = c_sent stw.2 → reads_ok rconn → Forall (λ cap, (0 < cap)%nat) caps →
  readSeq pool caps (newRx kr, rconn) = (str, rs) →
  ws = (λ m, Ok (zlen m, None)) <$> msgs ∧ Forall returned rs ∧
  ∃ rest, concat msgs = received rs ++ rest ∧ ((length (concat msgs) <= length caps)%nat → rest = []).
Proof using pool_length H0.
  intros [_ _ _ _ Hup Hdown] Hkeys Hbyte Hra Hwf Hsent Hw Hin Hok Hcaps Hr.
  assert (kr = kw) as -> by (destruct Hkeys as [[-> ->]|[-> ->]]; congruence).
  unfold newTx in Hw. rewrite nonceOf_zero in Hw.
  destruct (writeSeq_good kw 0 msgs wconn stw ws) as (-> & ps & Hs & Hch & Hc); [done|lia|done|done|].
  split; [done|]. apply (readSeq_live kw caps _ (newRx kw, rconn) str rs); [|done|done].
  rewrite Hsent in Hs. cbn in Hs. rewrite Hs in Hin. exists 0, ps. rewrite <- Hc in *.
  split_and!; try done.
  - apply (newRx_Keyed _ (frames kw 0 ps)); [by apply frames_byte|done].
  - pose proof (chunks_count _ Hch). lia.
Qed.

End Secure.

(** ** Witnesses *)
Module ToyChannel.
Import ToyNoise.

Definition pool (c : NetConn) : bytes := replicate 4096 7.

Lemma pool_length c : zlen (pool c) = maxMessageSize.
Proof. unfold pool, zlen. by rewrite length_replicate. Qed.

Definition quiet (b : bytes) : NetConn := mkConn b [mkRead 1 false; mkRead 0 false; mkRead 9 false] [] [] [].

Definition clientSession : Session := mkSession 39 (ScalarBaseMult kKey) [] [1] [2].
Definition serverSession : Session := mkSession 39 (ScalarBaseMult mKey) [] [2] [1].

Definition msgs : list bytes := [[1; 2; 3]; []; [4]].
Definition written : TX * list (res (Z * option error)) := writeSeq pool msgs (newTx [1], quiet []).

(** An attacker replays the frame that the peer sent, and adds garbage. *)
Definition oneFrame : bytes := frame [1] 0 [5].
Definition attacked : bytes := oneFrame ++ oneFrame ++ [4; 0].

Definition infixes (w : bytes) : list bytes :=
  i ← seq 0 (S (length w)); j ← seq 0 (S (length w)); mret (take j (drop i w)).

Lemma infix_listed w ct : (∃ pre post, w = pre ++ ct ++ post) → ct ∈ infixes w.
Proof.
  intros (pre & post & ->). unfold infixes. apply list_elem_of_bind. exists (length pre). split.
  - apply list_elem_of_bind. exists (length ct). split.
    + apply list_elem_of_singleton. by rewrite drop_app_length, take_app_length.
    + apply elem_of_seq. rewrite !length_app. lia.
  - apply elem_of_seq. rewrite !length_app. lia.
Qed.

(** Reading the nonce off a ciphertext. *)
Definition tagNonce (ct : bytes) : bytes := take 12 (drop (length ct - 16) ct).

Lemma tagNonce_seal k i p ad : tagNonce (seal k (nonceOf i) p ad) = nonceOf i.
Proof.
  unfold tagNonce, seal. rewrite length_app, tag_length, Nat.add_sub, drop_app_length.
  unfold tag. rewrite copy_array_id by done. rewrite take_app_le by done. rewrite take_ge by done.
  assert (Forall is_byte (nonceOf i)) as Hb by (apply Forall_app; split; apply be_bytes_byte).
  induction Hb as [|x l Hx _ IH]; [done|]. cbn. rewrite IH. f_equal. apply Z.mod_small. exact Hx.
Qed.

Definition genuine (ct : bytes) : bool :=
  match open [1] (tagNonce ct) ct [] with
  | None => true
  | Some p => bool_decide (p = [5]) && bool_decide (tagNonce ct = nonceOf 0)
  end.

Lemma attacked_no_forgery : no_forgery [1] [[5]] attacked.
Proof.
  intros i ct p Hin Hi Ho.
  assert (forallb genuine (infixes attacked) = true) as Hall by (vm_compute; reflexivity).
  apply (forallb_elem _ _ ct) in Hall; [|by apply infix_listed]. unfold genuine in Hall.
  assert (tagNonce ct = nonceOf (Z.of_nat i)) as Hn by (rewrite (Seal_Open _ _ _ _ _ Ho) at 1; apply tagNonce_seal).
  rewrite Hn in Hall. change (aead_Open [1] (nonceOf (Z.of_nat i)) ct [] = Some p) in Ho. cbn [aead_Open crypto] in Ho.
  rewrite Ho in Hall. apply andb_true_iff in Hall as [->%bool_decide_eq_true Heq%bool_decide_eq_true].
  apply nonceOf_inj in Heq; [|unfold invalidNonce in *; lia..]. by replace i with 0%nat by lia.
Qed.

End ToyChannel.
Import ToyNoise ToyChannel.

Lemma reads_are_authentic_witness :
  received (readSeq pool [3; 3]%nat (newRx [1], quiet attacked)).2 `prefix_of` [5].
Proof.
  apply (reads_are_authentic pool pool_length [1] [[5]] attacked attacked_no_forgery ltac:(done)
           ltac:(vm_compute; repeat constructor; done) [3; 3]%nat (quiet attacked)
           (readSeq pool [3; 3]%nat (newRx [1], quiet attacked)).1);
    [done|apply surjective_pairing].
Defined.

Lemma writes_use_fresh_nonces_witness :
  ∃ ps, c_writes written.1.2 = imap (λ i p, frame [1] (Z.of_nat i) p) ps.
Proof.
  destruct (writes_use_fresh_nonces pool pool_length [1] msgs (quiet []) written.1 written.2) as (ps & Hw & _);
    [apply surjective_pairing|]. exists ps. exact Hw.
Defined.

Lemma control_channel_delivers_witness :
  received (readSeq pool [2; 1; 1; 9]%nat (newRx [1], quiet (c_sent written.1.2))).2 = [1; 2; 3; 4].
Proof.
  destruct (control_channel_delivers pool pool_length mKey kKey clientSession serverSession [1] [1] msgs
              (quiet []) written.1 written.2 (quiet (c_sent written.1.2)) [2; 1; 1; 9]%nat
              (readSeq pool [2; 1; 1; 9]%nat (newRx [1], quiet (c_sent written.1.2))).1
              (readSeq pool [2; 1; 1; 9]%nat (newRx [1], quiet (c_sent written.1.2))).2)
    as (_ & _ & rest & Hall & Hnil);
    [done|by left|by repeat constructor|done|done|done|apply surjective_pairing|done
    |by repeat constructor|by repeat (constructor; [lia|])|apply surjective_pairing|].
  rewrite Hnil, app_nil_r in Hall by done. symmetry. exact Hall.
Defined.
