(* ===== verification/LruRing.v ===== *)
(** * The ring of [util/lru] is a list

    Lemmas on rings of pointers, the representation predicate [rep], and the proof
    that every operation of [Lru] implements its operation on lists. *)
From S2P Require Import Prelude GoState Lru.

(** Runs the first operation of a sequence. *)
Ltac lru_step tac := erewrite stM_bind_run by (tac; fail); cbn beta.

Section Ring.
Context {K V : Type} `{Countable K}.
Abbreviation cache := (Cache K V).
Abbreviation heap := (gmap loc (entry K V)).
Implicit Types (c : cache) (h : heap) (x y a b p n t : loc) (l : list loc) (k : K) (v : V).

(** ** Links *)
Definition updNext x n h : heap := alter (λ e, mkEntry (e_prev e) n (e_key e) (e_value e)) x h.
Definition updPrev x p h : heap := alter (λ e, mkEntry p (e_next e) (e_key e) (e_value e)) x h.

Definition nextIs h a b : Prop := e_next <$> h !! a = Some b.
Definition prevIs h a b : Prop := e_prev <$> h !! a = Some b.

(** From [a] the pointers run through [l], forwards and backwards. *)
Fixpoint seg h a (l : list loc) : Prop :=
  match l with
  | [] => True
  | b :: l => nextIs h a b ∧ prevIs h b a ∧ seg h b l
  end.

Definition ring h (l : list loc) : Prop :=
  match l with [] => True | x :: xs => seg h x (xs ++ [x]) end.

(** The entries whose [next] pointer a segment uses. *)
Fixpoint srcs a (l : list loc) : list loc :=
  match l with [] => [] | b :: l => a :: srcs b l end.

Lemma srcs_snoc a l b : srcs a (l ++ [b]) = a :: l.
Proof. revert a. induction l as [|x l IH]; intros a; cbn; [done|]. by rewrite IH. Qed.

Lemma seg_app h a l1 b l2 : seg h a (l1 ++ b :: l2) ↔ seg h a (l1 ++ [b]) ∧ seg h b l2.
Proof. revert a. induction l1 as [|x l1 IH]; intros a; cbn; [naive_solver|]. rewrite IH. naive_solver. Qed.

Lemma nextIs_updNext h a n : is_Some (h !! a) → nextIs (updNext a n h) a n.
Proof. intros [e He]. unfold nextIs, updNext. by rewrite lookup_alter_eq, He. Qed.

Lemma prevIs_updPrev h a p : is_Some (h !! a) → prevIs (updPrev a p h) a p.
Proof. intros [e He]. unfold prevIs, updPrev. by rewrite lookup_alter_eq, He. Qed.

Lemma nextIs_frame h x n a b : x ≠ a → nextIs (updNext x n h) a b ↔ nextIs h a b.
Proof. intros Hne. unfold nextIs, updNext. by rewrite lookup_alter_ne by done. Qed.

Lemma prevIs_frame h x p a b : x ≠ a → prevIs (updPrev x p h) a b ↔ prevIs h a b.
Proof. intros Hne. unfold prevIs, updPrev. by rewrite lookup_alter_ne by done. Qed.

(** Writing one pointer leaves the other alone. *)
Lemma nextIs_updPrev h x p a b : nextIs (updPrev x p h) a b ↔ nextIs h a b.
Proof.
  unfold nextIs, updPrev. destruct (decide (x = a)) as [->|]; [|by rewrite lookup_alter_ne by done].
  rewrite lookup_alter_eq. by destruct (h !! a).
Qed.

Lemma prevIs_updNext h x n a b : prevIs (updNext x n h) a b ↔ prevIs h a b.
Proof.
  unfold prevIs, updNext. destruct (decide (x = a)) as [->|]; [|by rewrite lookup_alter_ne by done].
  rewrite lookup_alter_eq. by destruct (h !! a).
Qed.

Lemma seg_updNext h x n a l : x ∉ srcs a l → seg h a l → seg (updNext x n h) a l.
Proof.
  revert a. induction l as [|b l IH]; intros a Hx Hs; cbn in *; [done|].
  destruct Hs as (? & ? & ?). apply not_elem_of_cons in Hx as [? ?].
  rewrite nextIs_frame, prevIs_updNext by done. auto.
Qed.

Lemma seg_updPrev h x p a l : x ∉ l → seg h a l → seg (updPrev x p h) a l.
Proof.
  revert a. induction l as [|b l IH]; intros a Hx Hs; cbn in *; [done|].
  destruct Hs as (? & ? & ?). apply not_elem_of_cons in Hx as [? ?].
  rewrite nextIs_updPrev, prevIs_frame by done. auto.
Qed.

Lemma upd_comm h x n y p : updNext x n (updPrev y p h) = updPrev y p (updNext x n h).
Proof.
  apply map_eq. intros i. unfold updNext, updPrev. rewrite !lookup_alter.
  repeat case_decide; subst; by destruct (h !! _).
Qed.

Lemma is_Some_updNext h x n y : is_Some (updNext x n h !! y) ↔ is_Some (h !! y).
Proof. unfold updNext. apply lookup_alter_is_Some. Qed.
Lemma is_Some_updPrev h x p y : is_Some (updPrev x p h !! y) ↔ is_Some (h !! y).
Proof. unfold updPrev. apply lookup_alter_is_Some. Qed.

(** ** Rings *)
Lemma nextIs_Some h a b : nextIs h a b → is_Some (h !! a).
Proof. unfold nextIs. destruct (h !! a); [eauto|done]. Qed.
Lemma prevIs_Some h a b : prevIs h a b → is_Some (h !! a).
Proof. unfold prevIs. destruct (h !! a); [eauto|done]. Qed.

Lemma ring_rotate h x y xs : ring h (x :: y :: xs) → ring h (y :: xs ++ [x]).
Proof.
  cbn. rewrite <- app_assoc. cbn. rewrite (seg_app _ _ xs x [y]). cbn. naive_solver.
Qed.

(** The last entry is before the first. *)
Lemma ring_last h x xs : ring h (x :: xs) → prevIs h x (List.last (x :: xs) x) ∧ nextIs h (List.last (x :: xs) x) x.
Proof.
  cbn [ring]. destruct xs as [|t xs _] using rev_ind; [by cbn; naive_solver|].
  rewrite <- app_assoc. cbn [app]. rewrite seg_app. intros [_ (? & ? & _)].
  change (x :: xs ++ [t]) with ((x :: xs) ++ [t]). by rewrite last_last.
Qed.

(** Taking an entry out of a ring. *)
Lemma ring_unlink h x A ent B :
  NoDup (x :: A ++ ent :: B) → ring h (x :: A ++ ent :: B) →
  ∃ p n, prevIs h ent p ∧ nextIs h ent n ∧ p ≠ ent ∧ n ≠ ent ∧ (p ∈ x :: A ++ B) ∧ (n ∈ x :: A ++ B) ∧
         ring (updPrev n p (updNext p n h)) (x :: A ++ B).
Proof.
  intros Hnd Hr. remember (List.last (x :: A) x) as p eqn:Ep.
  assert (∃ A', x :: A = A' ++ [p]) as [A' HA].
  { exists (removelast (x :: A)). rewrite Ep. by apply app_removelast_last. }
  remember (hd x B) as n eqn:En. assert (∃ B', B ++ [x] = n :: B') as [B' HB].
  { rewrite En. destruct B; cbn; eauto. }
  assert (seg h x (A ++ [ent]) ∧ prevIs h ent p ∧ nextIs h p ent) as (H1 & Hp & Hpn).
  { cbn [ring] in Hr. rewrite <- app_assoc in Hr. cbn [app] in Hr. rewrite seg_app in Hr. destruct Hr as [H1 _].
    split; [done|]. rewrite Ep. clear Ep HA. destruct A as [|t A _] using rev_ind; cbn in H1; [naive_solver|].
    rewrite <- app_assoc in H1. cbn in H1. rewrite seg_app in H1. destruct H1 as [_ (? & ? & _)].
    change (x :: A ++ [t]) with ((x :: A) ++ [t]). by rewrite last_last. }
  assert (seg h ent (B ++ [x])) as H2.
  { cbn [ring] in Hr. rewrite <- app_assoc in Hr. cbn [app] in Hr. rewrite seg_app in Hr. by destruct Hr. }
  rewrite HB in H2. cbn in H2. destruct H2 as (Hn & Hnp & H3).
  assert (p ∈ x :: A) as HpA by (rewrite HA; set_solver).
  assert (n ∈ x :: B) as HnB by (rewrite En; destruct B; set_solver).
  rewrite NoDup_cons, NoDup_app, NoDup_cons in Hnd. destruct Hnd as (HxAB & HndA & HAB & HentB & HndB).
  assert ((n ∉ A) ∧ p ≠ ent ∧ n ≠ ent ∧ (p ∈ x :: A ++ B) ∧ (n ∈ x :: A ++ B) ∧ (p ∉ B) ∧ (x ∉ A) ∧ (x ∉ B))
    as (HnA & ? & ? & ? & ? & HpB & HxA & HxB) by (clear -HxAB HAB HentB HpA HnB; set_solver).
  exists p, n. split_and!; [done..|].
  cbn [ring]. rewrite <- app_assoc, HB.
  assert (NoDup (A' ++ [p])) as HndA' by (rewrite <- HA; by apply NoDup_cons).
  assert (NoDup (n :: B')) as HndB'.
  { rewrite <- HB. apply NoDup_app. split; [done|]. split; [clear -HxB; set_solver|apply NoDup_singleton]. }
  rewrite NoDup_cons in HndB'. destruct HndB' as [HnB' _].
  rewrite NoDup_app in HndA'. destruct HndA' as (_ & HpA' & _).
  rewrite seg_app. split.
  - (* up to p, then to n *)
    assert (seg (updPrev n p (updNext p n h)) x A) as HsegA.
    { destruct A as [|t A _] using rev_ind; [done|].
      assert (p = t ∧ A' = x :: A) as [-> ->].
      { change (x :: A ++ [t]) with ((x :: A) ++ [t]) in HA. apply app_inj_tail in HA as [-> ->]. done. }
      apply seg_updPrev; [done|]. apply seg_updNext; [rewrite srcs_snoc; set_solver|].
      rewrite <- app_assoc in H1. cbn in H1. rewrite seg_app in H1. by destruct H1. }
    assert (seg (updPrev n p (updNext p n h)) p [n]) as Hpn'.
    { cbn. split; [|split; [|done]].
      - apply nextIs_updPrev, nextIs_updNext. by eapply nextIs_Some.
      - apply prevIs_updPrev, is_Some_updNext. by eapply prevIs_Some. }
    destruct A as [|t A _] using rev_ind.
    + assert (p = x) as -> by done. done.
    + rewrite <- app_assoc. cbn. rewrite seg_app. split; [done|].
      assert (p = t) as <- by (rewrite Ep; change (x :: A ++ [t]) with ((x :: A) ++ [t]); by rewrite last_last). done.
  - apply seg_updPrev; [done|]. apply seg_updNext; [|done].
    assert (srcs n B' = B) as ->.
    { destruct B as [|b B]; cbn in HB; injection HB as <- <-; [done|]. cbn. apply srcs_snoc. }
    done.
Qed.

(** Putting an entry before the first of a ring. *)
Lemma ring_link h x A ent t :
  NoDup (x :: A) → ent ∉ x :: A → is_Some (h !! ent) → ring h (x :: A) → prevIs h x t →
  (t ∈ x :: A) ∧ ring (updPrev x ent (updNext t ent (updNext ent x (updPrev ent t h)))) (ent :: x :: A).
Proof.
  intros Hnd Hent He Hr Ht. pose proof (ring_last _ _ _ Hr) as [Hl Hln].
  set (t' := List.last (x :: A) x) in *. assert (t' = t) as Htt by (unfold prevIs in *; congruence).
  assert (∃ A', x :: A = A' ++ [t]) as [A' HA].
  { exists (removelast (x :: A)). rewrite <- Htt. unfold t'. by apply app_removelast_last. }
  assert (t ∈ x :: A) as HtA by (rewrite HA; set_solver). split; [done|].
  assert (ent ≠ x ∧ ent ≠ t) as [Hex Het] by set_solver.
  assert (is_Some (h !! x)) as Hx by (by eapply prevIs_Some).
  assert (is_Some (h !! t)) as Hts by (rewrite <- Htt; by eapply nextIs_Some).
  cbn [ring]. change ((x :: A) ++ [ent]) with (x :: A ++ [ent]). cbn [seg]. split_and!.
  - apply nextIs_updPrev. rewrite nextIs_frame by done. apply nextIs_updNext, is_Some_updPrev. done.
  - apply prevIs_updPrev. by rewrite !is_Some_updNext, is_Some_updPrev.
  - set (h' := updPrev x ent _).
    assert (seg h' x A) as HsegA.
    { apply NoDup_cons in Hnd as [HxA HndA]. unfold h'. apply seg_updPrev; [done|].
      destruct A as [|a A _] using rev_ind; [done|].
      assert (a = t ∧ A' = x :: A) as [-> ->].
      { change (x :: A ++ [a]) with ((x :: A) ++ [a]) in HA. apply app_inj_tail in HA as [-> ->]. done. }
      apply NoDup_app in HndA as (_ & HaA & _).
      apply seg_updNext; [rewrite srcs_snoc; set_solver|]. apply seg_updNext; [rewrite srcs_snoc; set_solver|].
      apply seg_updPrev; [set_solver|]. cbn [ring] in Hr. rewrite <- app_assoc in Hr. cbn in Hr.
      rewrite seg_app in Hr. by destruct Hr. }
    assert (nextIs h' t ent ∧ prevIs h' ent t) as [Hte Hpe].
    { unfold h'. rewrite nextIs_updPrev, prevIs_frame by done. rewrite !prevIs_updNext. split.
      - apply nextIs_updNext. by rewrite is_Some_updNext, is_Some_updPrev.
      - by apply prevIs_updPrev. }
    destruct A as [|a A _] using rev_ind.
    + apply (app_inj_tail [] A') in HA as [_ ->]. done.
    + assert (a = t) as ->.
      { change (x :: A ++ [a]) with ((x :: A) ++ [a]) in HA. by apply app_inj_tail in HA as [_ ?]. }
      rewrite <- app_assoc. cbn. rewrite seg_app. done.
Qed.

(** ** The heap as a list of entries *)
Definition dataIs h x (kv : K * V) : Prop := (λ e, (e_key e, e_value e)) <$> h !! x = Some kv.

Lemma dataIs_updNext h x n y kv : dataIs (updNext x n h) y kv ↔ dataIs h y kv.
Proof.
  unfold dataIs, updNext. rewrite lookup_alter. case_decide; [|done]. subst. by destruct (h !! y).
Qed.

Lemma dataIs_updPrev h x p y kv : dataIs (updPrev x p h) y kv ↔ dataIs h y kv.
Proof.
  unfold dataIs, updPrev. rewrite lookup_alter. case_decide; [|done]. subst. by destruct (h !! y).
Qed.

Abbreviation node := (loc * (K * V))%type.
Implicit Types (L A B : list node).

Definition keysOf L : list K := (λ nd, nd.2.1) <$> L.

(** The cache holds the entries [L], most recently used first. *)
Record rep c L : Prop := {
  rp_head : c_head c = head L.*1;
  rp_ring : ring (c_heap c) L.*1;
  rp_nodup : NoDup L.*1;
  rp_keys : NoDup (keysOf L);
  rp_data : ∀ x kv, (x, kv) ∈ L → dataIs (c_heap c) x kv;
  rp_lookup : ∀ k x, c_lookup c !! k = Some x ↔ ∃ v, (x, (k, v)) ∈ L;
  rp_free : ∀ x, is_Some (c_heap c !! x) → (x < c_free c)%nat
}.

Lemma rep_size c L : rep c L → size (c_lookup c) = length L.
Proof.
  intros [_ _ _ Hk _ Hl _]. rewrite <- size_dom.
  assert (dom (c_lookup c) = list_to_set (keysOf L)) as ->.
  { apply set_eq. intros k. rewrite elem_of_dom, elem_of_list_to_set. unfold keysOf. rewrite list_elem_of_fmap. split.
    - intros [x Hx]. apply Hl in Hx as [v Hv]. by exists (x, (k, v)).
    - intros ([x [k' v]] & -> & Hin). exists x. apply Hl. eauto. }
  rewrite size_list_to_set by done. unfold keysOf. apply length_fmap.
Qed.

Lemma keysOf_perm L L' : L ≡ₚ L' → keysOf L ≡ₚ keysOf L'.
Proof. unfold keysOf. by intros ->. Qed.

(** Reordering the entries, with the ring relinked accordingly. *)
Lemma rep_perm c L L' h' :
  rep c L → L' ≡ₚ L → ring h' L'.*1 →
  (∀ x kv, dataIs h' x kv ↔ dataIs (c_heap c) x kv) → (∀ x, is_Some (h' !! x) ↔ is_Some (c_heap c !! x)) →
  rep (mkCache (MaxEntries c) (head L'.*1) (c_lookup c) h' (c_free c)) L'.
Proof.
  intros [Hh Hr Hnd Hk Hd Hl Hf] HP Hr' Hd' Hs'. split; cbn; [done|done| | | | |].
  - by rewrite HP.
  - by rewrite (keysOf_perm _ _ HP).
  - intros x kv Hin. apply Hd'. apply Hd. by rewrite <- HP.
  - intros k x. rewrite Hl. by setoid_rewrite HP.
  - intros x Hx. by apply Hf, Hs'.
Qed.

(** ** Running the primitives *)
Lemma alter_insert_Some (f : entry K V → entry K V) x e h : h !! x = Some e → <[x := f e]> h = alter f x h.
Proof.
  intros He. apply map_eq. intros i. rewrite lookup_alter, lookup_insert.
  repeat case_decide; subst; by rewrite ?He.
Qed.

Lemma load_run x e c : c_heap c !! x = Some e → load x c = (c, Ok e).
Proof. unfold load. by intros ->. Qed.

Lemma store_run x f c : is_Some (c_heap c !! x) → store x f c = (setHeap (alter f x (c_heap c)) c, Ok tt).
Proof.
  intros [e He]. unfold store. erewrite stM_bind_run by (by apply load_run).
  unfold modS. by rewrite (alter_insert_Some _ _ _ _ He).
Qed.

Lemma setNext_run x n c : is_Some (c_heap c !! x) → setNext x n c = (setHeap (updNext x n (c_heap c)) c, Ok tt).
Proof. apply store_run. Qed.
Lemma setPrev_run x p c : is_Some (c_heap c !! x) → setPrev x p c = (setHeap (updPrev x p (c_heap c)) c, Ok tt).
Proof. apply store_run. Qed.

Lemma theHead_run x c : c_head c = Some x → theHead c = (c, Ok x).
Proof. unfold theHead. by intros ->. Qed.

Lemma links_Some h x p n : prevIs h x p → nextIs h x n → ∃ e, h !! x = Some e ∧ e_prev e = p ∧ e_next e = n.
Proof. unfold prevIs, nextIs. destruct (h !! x); cbn; naive_solver. Qed.

Lemma prev_Some h x p : prevIs h x p → ∃ e, h !! x = Some e ∧ e_prev e = p.
Proof. unfold prevIs. destruct (h !! x); cbn; naive_solver. Qed.

Lemma lookup_updNext_ne h x n y : x ≠ y → updNext x n h !! y = h !! y.
Proof. intros. unfold updNext. by rewrite lookup_alter_ne. Qed.
Lemma lookup_updPrev_ne h x p y : x ≠ y → updPrev x p h !! y = h !! y.
Proof. intros. unfold updPrev. by rewrite lookup_alter_ne. Qed.

(** [ent.prev.next = ent.next; ent.next.prev = ent.prev] takes the entry out. *)
Lemma moveToFront_run c ent x p n t :
  let h := c_heap c in let h1 := updPrev n p (updNext p n h) in
  c_head c = Some x → x ≠ ent → prevIs h ent p → nextIs h ent n → p ≠ ent → n ≠ ent →
  is_Some (h !! p) → is_Some (h !! n) → prevIs h1 x t → is_Some (h !! t) →
  moveToFront ent c =
  (mkCache (MaxEntries c) (Some ent) (c_lookup c)
     (updPrev x ent (updNext t ent (updNext ent x (updPrev ent t h1)))) (c_free c), Ok tt).
Proof.
  intros h h1 Hh Hne Hp Hn Hpe Hnn Hps Hns Ht Hts. unfold moveToFront. lru_step ltac:(done).
  rewrite Hh. rewrite bool_decide_false by congruence.
  destruct (links_Some _ _ _ _ Hp Hn) as (e & He & Hep & Hen).
  lru_step ltac:(by apply load_run). rewrite Hep, Hen. lru_step ltac:(by apply setNext_run).
  lru_step ltac:(apply load_run; cbn; rewrite lookup_updNext_ne by done; exact He). rewrite Hep, Hen.
  lru_step ltac:(apply setPrev_run; cbn; by apply is_Some_updNext).
  lru_step ltac:(apply theHead_run; exact Hh).
  destruct (prev_Some _ _ _ Ht) as (ex & Hex & Hext).
  lru_step ltac:(apply load_run; exact Hex). rewrite Hext.
  assert (∀ y, is_Some (h1 !! y) ↔ is_Some (h !! y)) as Hsome by (intros y; unfold h1; by rewrite is_Some_updPrev, is_Some_updNext).
  lru_step ltac:(apply setPrev_run; cbn; apply Hsome; eauto).
  lru_step ltac:(apply setNext_run; cbn; apply is_Some_updPrev, Hsome; eauto).
  lru_step ltac:(apply load_run; cbn; rewrite lookup_updNext_ne, lookup_updPrev_ne by done; exact Hex). rewrite Hext.
  lru_step ltac:(apply setNext_run; cbn; by apply is_Some_updNext, is_Some_updPrev, Hsome).
  lru_step ltac:(apply setPrev_run; cbn; apply is_Some_updNext, is_Some_updNext, is_Some_updPrev; eauto).
  done.
Qed.

Lemma rep_lookup_split c L k x :
  rep c L → c_lookup c !! k = Some x → ∃ v A B, L = A ++ (x, (k, v)) :: B.
Proof.
  intros Hrep Hx. apply (rp_lookup _ _ Hrep) in Hx as [v Hin].
  apply list_elem_of_split in Hin as (A & B & ->). eauto.
Qed.

Lemma rep_member c L x : rep c L → x ∈ L.*1 → is_Some (c_heap c !! x).
Proof.
  intros Hrep Hin. apply list_elem_of_fmap in Hin as ([y kv] & -> & Hin).
  apply (rp_data _ _ Hrep) in Hin. unfold dataIs in Hin. cbn in *. destruct (c_heap c !! y); [eauto|done].
Qed.

Lemma moveToFront_rep c A x kv B :
  rep c (A ++ (x, kv) :: B) →
  ∃ c', moveToFront x c = (c', Ok tt) ∧ rep c' ((x, kv) :: A ++ B) ∧ MaxEntries c' = MaxEntries c ∧
        c_lookup c' = c_lookup c.
Proof.
  intros Hrep. pose proof Hrep as [Hh Hr Hnd Hk Hd Hl Hf]. destruct A as [|[y kvy] A].
  { exists c. cbn in *. split_and!; [|done..]. unfold moveToFront. erewrite stM_bind_run by done. cbn beta.
    by rewrite bool_decide_true. }
  rewrite fmap_app in *. cbn [fmap list_fmap fst app] in *.
  destruct (ring_unlink _ _ _ _ _ Hnd Hr) as (p & n & Hp & Hn & Hpx & Hnx & HpL & HnL & Hring).
  set (h1 := updPrev n p (updNext p n (c_heap c))) in *.
  assert (NoDup (y :: A.*1 ++ B.*1) ∧ x ∉ y :: A.*1 ++ B.*1) as [Hnd1 Hx].
  { assert (y :: A.*1 ++ x :: B.*1 ≡ₚ x :: y :: A.*1 ++ B.*1) as HP by solve_Permutation.
    rewrite HP in Hnd. apply NoDup_cons in Hnd as [? ?]. done. }
  destruct (ring_last _ _ _ Hring) as [Ht _]. set (t := List.last _ y) in *.
  assert (∀ z, is_Some (h1 !! z) ↔ is_Some (c_heap c !! z)) as Hsome
    by (intros z; unfold h1; by rewrite is_Some_updPrev, is_Some_updNext).
  assert (is_Some (c_heap c !! x)) as Hxs by (by eapply prevIs_Some).
  destruct (ring_link h1 y (A.*1 ++ B.*1) x t Hnd1 Hx) as [HtL Hlink]; [by apply Hsome|done|done|].
  assert (∀ z, z ∈ y :: A.*1 ++ B.*1 → is_Some (c_heap c !! z)) as Hmem.
  { intros z Hz. apply (rep_member _ _ _ Hrep). cbn. rewrite fmap_app. cbn. clear -Hz. set_solver. }
  eexists. split.
  { apply (moveToFront_run c x y p n t); try done; try (by apply Hmem). clear -Hx. set_solver. }
  split; [|done].
  apply (rep_perm c _ ((x, kv) :: (y, kvy) :: A ++ B)
    (updPrev y x (updNext t x (updNext x y (updPrev x t h1)))) Hrep).
  - solve_Permutation.
  - cbn. by rewrite fmap_app.
  - intros z kvz. unfold h1. by rewrite !dataIs_updPrev, !dataIs_updNext, !dataIs_updPrev, !dataIs_updNext.
  - intros z. by rewrite is_Some_updPrev, !is_Some_updNext, is_Some_updPrev.
Qed.

(** [ent.value = value] *)
Lemma setValue_rep c x k v v' L :
  rep c ((x, (k, v)) :: L) →
  ∃ c', setValue x v' c = (c', Ok tt) ∧ rep c' ((x, (k, v')) :: L) ∧ MaxEntries c' = MaxEntries c.
Proof.
  intros Hrep. pose proof Hrep as [Hh Hr Hnd Hk Hd Hl Hf]. cbn in *.
  assert (is_Some (c_heap c !! x)) as Hx by (apply (rep_member _ _ _ Hrep); cbn; set_solver).
  eexists. split; [by apply store_run|]. split; [|done].
  set (f := λ e : entry K V, mkEntry (e_prev e) (e_next e) (e_key e) v').
  assert (∀ y b, nextIs (alter f x (c_heap c)) y b ↔ nextIs (c_heap c) y b) as Hnext.
  { intros y b. unfold nextIs. rewrite lookup_alter. case_decide; [|done]. subst. by destruct (c_heap c !! y). }
  assert (∀ y b, prevIs (alter f x (c_heap c)) y b ↔ prevIs (c_heap c) y b) as Hprev.
  { intros y b. unfold prevIs. rewrite lookup_alter. case_decide; [|done]. subst. by destruct (c_heap c !! y). }
  assert (∀ l y, seg (c_heap c) y l → seg (alter f x (c_heap c)) y l) as Hseg.
  { induction l as [|b l IH]; intros y; cbn; [done|]. rewrite Hnext, Hprev. naive_solver. }
  apply NoDup_cons in Hnd as [HxL HndL].
  split; cbn; [done|by apply Hseg|by apply NoDup_cons|done| | |].
  - intros y kvy [[= -> ->]|Hin]%elem_of_cons.
    + specialize (Hd x (k, v) ltac:(set_solver)). unfold dataIs in *. rewrite lookup_alter_eq.
      destruct (c_heap c !! x); cbn in *; [|done]. by simplify_eq.
    + specialize (Hd y kvy ltac:(set_solver)). unfold dataIs in *. rewrite lookup_alter_ne; [done|].
      intros <-. apply HxL. apply list_elem_of_fmap. by exists (x, kvy).
  - intros k' y. rewrite Hl. split; intros [w Hw]; apply elem_of_cons in Hw as [[= -> -> ->]|Hw]; set_solver.
  - intros y Hy. apply Hf. by apply lookup_alter_is_Some in Hy.
Qed.

(** ** A new entry *)
Lemma nextIs_insert_fresh h r e a b : h !! r = None → nextIs h a b → nextIs (<[r := e]> h) a b.
Proof. unfold nextIs. intros Hr Ha. rewrite lookup_insert_ne; [done|]. intros ->. by rewrite Hr in Ha. Qed.
Lemma prevIs_insert_fresh h r e a b : h !! r = None → prevIs h a b → prevIs (<[r := e]> h) a b.
Proof. unfold prevIs. intros Hr Ha. rewrite lookup_insert_ne; [done|]. intros ->. by rewrite Hr in Ha. Qed.
Lemma dataIs_insert_fresh h r e a kv : h !! r = None → dataIs h a kv → dataIs (<[r := e]> h) a kv.
Proof. unfold dataIs. intros Hr Ha. rewrite lookup_insert_ne; [done|]. intros ->. by rewrite Hr in Ha. Qed.

Lemma seg_insert_fresh h r e a l : h !! r = None → seg h a l → seg (<[r := e]> h) a l.
Proof.
  intros Hr. revert a. induction l as [|b l IH]; intros a; cbn; [done|]. intros (? & ? & ?).
  split_and!; [by apply nextIs_insert_fresh|by apply prevIs_insert_fresh|auto].
Qed.

Lemma ring_insert_fresh h r e l : h !! r = None → ring h l → ring (<[r := e]> h) l.
Proof. destruct l; cbn; [done|]. apply seg_insert_fresh. Qed.

(** The heap that [newAtFront] leaves. *)
Definition frontHeap c k v : heap :=
  let r := c_free c in let h0 := <[r := mkEntry r r k v]> (c_heap c) in
  match c_head c with
  | None => updNext r r (updPrev r r h0)
  | Some x => match e_prev <$> c_heap c !! x with
              | Some t => updPrev x r (updNext t r (updNext r x (updPrev r t h0)))
              | None => h0
              end
  end.

Lemma newAtFront_run c k v :
  let r := c_free c in
  c_heap c !! r = None →
  (∀ x, c_head c = Some x → ∃ t, prevIs (c_heap c) x t ∧ is_Some (c_heap c !! t)) →
  newAtFront k v c =
  (mkCache (MaxEntries c) (Some r) (c_lookup c) (frontHeap c k v) (S r), Ok r).
Proof.
  intros r Hr Hhd. unfold newAtFront. lru_step ltac:(done). lru_step ltac:(done). cbn [c_head].
  unfold frontHeap. fold r. set (h0 := <[r := _]> _). set (c0 := mkCache _ _ _ h0 _).
  assert (is_Some (h0 !! r)) as Hr0 by (unfold h0; rewrite lookup_insert_eq; eauto).
  destruct (c_head c) as [x|] eqn:Ehd.
  - destruct (Hhd x eq_refl) as (t & Ht & Hts). unfold prevIs in Ht. rewrite Ht.
    destruct (prev_Some _ _ _ Ht) as (e & He & Het).
    assert (x ≠ r) as Hxr by (intros ->; congruence).
    assert (t ≠ r) as Htr by (intros ->; rewrite Hr in Hts; by destruct Hts).
    assert (h0 !! x = Some e) as He0 by (unfold h0; by rewrite lookup_insert_ne).
    assert (is_Some (h0 !! t)) as Hts0 by (unfold h0; by rewrite lookup_insert_ne).
    erewrite stM_bind_run. 2: {
      lru_step ltac:(apply setNext_run; exact Hr0).
      lru_step ltac:(apply load_run; cbn; rewrite lookup_updNext_ne by done; exact He0). rewrite Het.
      lru_step ltac:(apply setPrev_run; cbn; by apply is_Some_updNext).
      lru_step ltac:(apply load_run; cbn; rewrite lookup_updPrev_ne, lookup_updNext_ne by done; exact He0). rewrite Het.
      lru_step ltac:(apply setNext_run; cbn; by apply is_Some_updPrev, is_Some_updNext).
      apply setPrev_run. cbn. apply is_Some_updNext, is_Some_updPrev, is_Some_updNext. eauto. }
    cbn. unfold setHead, modS. cbn. by rewrite (upd_comm h0).
  - erewrite stM_bind_run. 2: {
      lru_step ltac:(apply setPrev_run; exact Hr0). apply setNext_run. cbn. by apply is_Some_updPrev. }
    done.
Qed.

Lemma rep_fresh c L : rep c L → c_heap c !! c_free c = None.
Proof.
  intros Hrep. destruct (c_heap c !! c_free c) eqn:E; [|done].
  pose proof (rp_free _ _ Hrep (c_free c) ltac:(eauto)). lia.
Qed.

Lemma rep_head_prev c L x :
  rep c L → c_head c = Some x → ∃ t, prevIs (c_heap c) x t ∧ t ∈ L.*1.
Proof.
  intros Hrep Hh. rewrite (rp_head _ _ Hrep) in Hh. pose proof (rp_ring _ _ Hrep) as Hr.
  destruct L.*1 as [|y l]; [done|]. injection Hh as ->. destruct (ring_last _ _ _ Hr) as [Ht _].
  exists (List.last (x :: l) x). split; [done|].
  destruct l as [|z l _] using rev_ind; [cbn; set_solver|].
  change (x :: l ++ [z]) with ((x :: l) ++ [z]). rewrite last_last. set_solver.
Qed.

Lemma frontHeap_data c k v x kv :
  dataIs (<[c_free c := mkEntry (c_free c) (c_free c) k v]> (c_heap c)) x kv → dataIs (frontHeap c k v) x kv.
Proof.
  unfold frontHeap. intros Hd. destruct (c_head c) as [y|]; [destruct (_ <$> _); [|done]|];
  by rewrite ?dataIs_updPrev, ?dataIs_updNext, ?dataIs_updNext, ?dataIs_updPrev.
Qed.

Lemma frontHeap_Some c k v x :
  is_Some (frontHeap c k v !! x) ↔ is_Some (<[c_free c := mkEntry (c_free c) (c_free c) k v]> (c_heap c) !! x).
Proof.
  unfold frontHeap. destruct (c_head c) as [y|]; [destruct (_ <$> _); [|done]|];
  by rewrite ?is_Some_updPrev, ?is_Some_updNext, ?is_Some_updNext, ?is_Some_updPrev.
Qed.

Lemma frontHeap_ring c L k v : rep c L → ring (frontHeap c k v) (c_free c :: L.*1).
Proof.
  intros Hrep. pose proof (rep_fresh _ _ Hrep) as Hfr. pose proof Hrep as [Hh Hr Hnd _ _ _ Hf].
  set (r := c_free c) in *. set (h0 := <[r := mkEntry r r k v]> (c_heap c)).
  assert (is_Some (h0 !! r)) as Hr0 by (unfold h0; rewrite lookup_insert_eq; eauto).
  assert (r ∉ L.*1) as HrL.
  { intros Hin. apply (rep_member _ _ _ Hrep) in Hin. rewrite Hfr in Hin. by destruct Hin. }
  unfold frontHeap. fold r h0. destruct (c_head c) as [x|] eqn:Ehd.
  - destruct (rep_head_prev _ _ _ Hrep Ehd) as (t & Ht & HtL). pose proof Ht as Ht'. unfold prevIs in Ht'. rewrite Ht'.
    destruct L.*1 as [|y l]; [done|]. injection Hh as ->.
    apply (ring_link h0 y l r t Hnd HrL Hr0); [by apply ring_insert_fresh|by apply prevIs_insert_fresh].
  - destruct L.*1 as [|y l]; [|done]. cbn. split_and!; [|by apply prevIs_updNext, prevIs_updPrev|done].
    by apply nextIs_updNext, is_Some_updPrev.
Qed.

(** [ent := c.newAtFront(key, value); c.lookup[key] = ent] *)
Lemma insert_rep c L k v :
  rep c L → k ∉ keysOf L →
  rep (mkCache (MaxEntries c) (Some (c_free c)) (<[k := c_free c]> (c_lookup c)) (frontHeap c k v) (S (c_free c)))
      ((c_free c, (k, v)) :: L).
Proof.
  intros Hrep Hk. pose proof (rep_fresh _ _ Hrep) as Hfr. pose proof Hrep as [Hh Hr Hnd HK Hd Hl Hf]. split; cbn.
  - done.
  - by apply (frontHeap_ring _ L).
  - apply NoDup_cons. split; [|done].
    intros Hin. apply (rep_member _ _ _ Hrep) in Hin. rewrite Hfr in Hin. by destruct Hin.
  - unfold keysOf in *. cbn. by apply NoDup_cons.
  - intros x kv [[= -> ->]|Hin]%elem_of_cons; apply frontHeap_data.
    + unfold dataIs. by rewrite lookup_insert_eq.
    + apply dataIs_insert_fresh; auto.
  - intros k' x. rewrite lookup_insert. case_decide as Hkk.
    + subst k'. split; [intros [= <-]; exists v; set_solver|]. intros [w [[= -> ->]|Hin]%elem_of_cons]; [done|].
      exfalso. apply Hk. apply list_elem_of_fmap. by exists (x, (k, w)).
    + rewrite Hl. split; intros [w Hw]; exists w; [set_solver|]. apply elem_of_cons in Hw as [[= -> -> ->]|?]; done.
  - intros x Hx. apply frontHeap_Some in Hx. rewrite lookup_insert_is_Some in Hx.
    destruct Hx as [->|[_ Hx]]; [lia|]. apply Hf in Hx. lia.
Qed.

(** ** Removing an entry *)
Lemma deleteElement_run c ent p n k v :
  let h := c_heap c in
  prevIs h ent p → nextIs h ent n → p ≠ ent → n ≠ ent → is_Some (h !! p) → is_Some (h !! n) → dataIs h ent (k, v) →
  deleteElement ent c =
  (mkCache (MaxEntries c) (if bool_decide (c_head c = Some ent) then Some n else c_head c) (delete k (c_lookup c))
     (updPrev n p (updNext p n h)) (c_free c), Ok tt).
Proof.
  intros h Hp Hn Hpe Hne Hps Hns Hd. unfold deleteElement.
  destruct (links_Some _ _ _ _ Hp Hn) as (e & He & Hep & Hen).
  assert (e_key e = k) as Hk by (unfold dataIs in Hd; rewrite He in Hd; cbn in Hd; congruence).
  lru_step ltac:(by apply load_run). rewrite Hen. rewrite bool_decide_false by done.
  rewrite <- upd_comm.
  assert (updNext p n (updPrev n p h) !! ent = Some e) as He'
    by (by rewrite lookup_updNext_ne, lookup_updPrev_ne by done).
  erewrite stM_bind_run. 2: {
    lru_step ltac:(by apply load_run). rewrite Hen, Hep.
    lru_step ltac:(by apply setPrev_run).
    lru_step ltac:(apply load_run; cbn; rewrite lookup_updPrev_ne by done; exact He). rewrite Hen, Hep.
    lru_step ltac:(apply setNext_run; cbn; by apply is_Some_updPrev).
    lru_step ltac:(done). cbn [c_head setHeap].
    instantiate (1 := tt).
    instantiate (1 := mkCache (MaxEntries c) (if bool_decide (c_head c = Some ent) then Some n else c_head c)
       (c_lookup c) (updNext p n (updPrev n p h)) (c_free c)).
    case_bool_decide; [|by destruct c].
    lru_step ltac:(apply load_run; exact He'). by rewrite Hen. }
  lru_step ltac:(apply load_run; exact He'). by rewrite Hk.
Qed.

Lemma rep_remove c A x k v B h' hd :
  rep c (A ++ (x, (k, v)) :: B) → ring h' (A ++ B).*1 → hd = head (A ++ B).*1 →
  (∀ x kv, dataIs h' x kv ↔ dataIs (c_heap c) x kv) → (∀ x, is_Some (h' !! x) ↔ is_Some (c_heap c !! x)) →
  rep (mkCache (MaxEntries c) hd (delete k (c_lookup c)) h' (c_free c)) (A ++ B).
Proof.
  intros [Hh Hr Hnd HK Hd Hl Hf] Hr' -> Hd' Hs'.
  assert (A ++ (x, (k, v)) :: B ≡ₚ (x, (k, v)) :: A ++ B) as HP by solve_Permutation.
  rewrite (fmap_Permutation fst _ _ HP) in Hnd. cbn in Hnd. apply NoDup_cons in Hnd as [Hx Hnd].
  rewrite (keysOf_perm _ _ HP) in HK. unfold keysOf in HK. cbn in HK. apply NoDup_cons in HK as [Hk HK].
  split; cbn; [done..| | |].
  - intros y kv Hin. apply Hd', Hd. rewrite HP. by apply elem_of_cons; right.
  - intros k' y. rewrite lookup_delete. case_decide as Hkk.
    + subst k'. split; [done|]. intros [w Hw]. exfalso. apply Hk, list_elem_of_fmap. by exists (y, (k, w)).
    + rewrite Hl. setoid_rewrite HP. split; intros [w Hw]; exists w; [|by apply elem_of_cons; right].
      apply elem_of_cons in Hw as [[= -> -> ->]|?]; done.
  - intros y Hy. by apply Hf, Hs'.
Qed.

Lemma deleteElement_rep c A x k v B :
  rep c (A ++ (x, (k, v)) :: B) →
  ∃ c', deleteElement x c = (c', Ok tt) ∧ rep c' (A ++ B) ∧ MaxEntries c' = MaxEntries c.
Proof.
  intros Hrep. pose proof Hrep as [Hh Hr Hnd HK Hd _ _].
  assert (dataIs (c_heap c) x (k, v)) as Hdx by (apply Hd; set_solver).
  assert (∃ y l l', (A ++ B).*1 = y :: l ++ l' ∧ NoDup (y :: l ++ x :: l') ∧ ring (c_heap c) (y :: l ++ x :: l') ∧
            (c_head c = Some x → nextIs (c_heap c) x y) ∧ (c_head c = Some x ∨ c_head c = Some y) ∨
          A = [] ∧ B = []) as (y & l & l' & [(Hl & Hndl & Hrl & Hhx & Hhy)|[-> ->]]).
  { destruct A as [|[y kvy] A]; cbn in *.
    - destruct B as [|[y kvy] B]; cbn in *; [by exists 0%nat, [], []; right|].
      exists y, B.*1, []. left. rewrite app_nil_r.
      assert (x :: y :: B.*1 ≡ₚ y :: B.*1 ++ [x]) as HP by solve_Permutation. rewrite HP in Hnd.
      split_and!; [done|done|by apply ring_rotate|by destruct Hr|by left].
    - exists y, A.*1, B.*1. left. rewrite fmap_app in *. cbn in *. split_and!; [done..| |by right].
      intros Hhx. rewrite Hh in Hhx. injection Hhx as ->. exfalso. apply NoDup_cons in Hnd as [Hnd _]. set_solver. }
  - destruct (ring_unlink _ _ _ _ _ Hndl Hrl) as (p & n & Hp & Hn & Hpx & Hnx & HpL & HnL & Hring).
    rewrite <- Hl in HpL, HnL. assert (∀ z, z ∈ (A ++ B).*1 → is_Some (c_heap c !! z)) as Hmem.
    { intros z Hz. apply (rep_member _ _ _ Hrep). rewrite fmap_app in *. cbn. clear -Hz. set_solver. }
    eexists. split; [by apply (deleteElement_run c x p n k v); auto|]. split; [|done].
    apply (rep_remove c A x k v B); [done|by rewrite Hl| | |].
    + rewrite Hl. cbn. case_bool_decide as Hcx; [|by destruct Hhy].
      apply Hhx in Hcx. unfold nextIs in *. congruence.
    + intros z kvz. by rewrite dataIs_updPrev, dataIs_updNext.
    + intros z. by rewrite is_Some_updPrev, is_Some_updNext.
  - cbn in Hr. destruct Hr as (Hn & Hp & _). destruct (links_Some _ _ _ _ Hp Hn) as (e & He & Hep & Hen).
    assert (e_key e = k) as Hk by (unfold dataIs in Hdx; rewrite He in Hdx; cbn in Hdx; congruence).
    eexists. split.
    { unfold deleteElement. lru_step ltac:(by apply load_run). rewrite bool_decide_true by done.
      lru_step ltac:(done). lru_step ltac:(apply load_run; exact He). rewrite Hk. done. }
    cbn. split; [|done]. by apply (rep_remove c [] x k v [] (c_heap c) None).
Qed.

(** ** [ForEach] visits the entries from the most to the least recently used. *)
Lemma forEachLoop_run {T} (fn : T → K → V → T) c x kv A y (kvs : list (K * V)) (s : T) fuel :
  (∀ z kvz, (z, kvz) ∈ (x, kv) :: A → dataIs (c_heap c) z kvz) → y ∉ A.*1 →
  seg (c_heap c) x (A.*1 ++ [y]) → (length A < fuel)%nat →
  kvs = kv :: A.*2 →
  forEachLoop fn fuel x y s c = (c, Ok (fold_left (λ s kv, fn s kv.1 kv.2) kvs s)).
Proof.
  intros Hd Hy Hs Hf ->. revert x kv s fuel Hd Hs Hf. induction A as [|[z kvz] A IH]; intros x kv s fuel Hd Hs Hf;
    (destruct fuel as [|fuel]; [cbn in Hf; lia|]); cbn [forEachLoop];
    pose proof (Hd x kv ltac:(set_solver)) as Hx; unfold dataIs in Hx; cbn in Hs; destruct Hs as (Hn & Hs);
    unfold nextIs in Hn; destruct (c_heap c !! x) as [e|] eqn:He; try done; cbn in Hx, Hn;
    injection Hx as <-; injection Hn as Hn; (lru_step ltac:(by apply load_run)); cbn [fst snd].
  - by rewrite bool_decide_true.
  - rewrite bool_decide_false by (cbn in Hy; set_solver). cbn [length] in Hf. rewrite Hn.
    rewrite (IH ltac:(cbn in Hy; set_solver) z kvz); [done| |naive_solver|lia].
    intros z' kvz' Hin. apply Hd. by apply elem_of_cons; right.
Qed.

Lemma ForEach_rep {T} (fn : T → K → V → T) c L (s : T) :
  rep c L → ForEach fn s c = (c, Ok (fold_left (λ s kv, fn s kv.1 kv.2) L.*2 s)).
Proof.
  intros Hrep. pose proof Hrep as [Hh Hr Hnd _ Hd _ _]. unfold ForEach. lru_step ltac:(done). rewrite Hh.
  rewrite (rep_size _ _ Hrep). destruct L as [|[x kv] A]; [done|]. cbn in Hr, Hnd.
  apply NoDup_cons in Hnd as [Hx _]. by apply (forEachLoop_run fn c x kv A); [..|cbn; lia|].
Qed.

End Ring.
