(* ===== verification/LruRefine.v ===== *)
(** * [util/lru] implements a most-recently-used list

    The abstract cache is a list of key/value pairs with distinct keys, most recently
    used first.  Every sequence of calls on the ring of pointers gives the results of
    the same sequence on the list, and no call dereferences a nil pointer. *)
From S2P Require Import Prelude GoState Lru LruRing.

Section Spec.
Context {K V : Type} `{Countable K}.
Abbreviation cache := (Cache K V).
Implicit Types (k : K) (v : V) (m : list (K * V)) (max : Z) (c : cache) (L : list (loc * (K * V))).

(** ** The abstract cache *)
Fixpoint assoc k m : option V :=
  match m with [] => None | (k', v) :: m => if decide (k' = k) then Some v else assoc k m end.

Fixpoint without k m : list (K * V) :=
  match m with [] => [] | kv :: m => if decide (kv.1 = k) then m else kv :: without k m end.

Definition spec_Set max k v m : list (K * V) :=
  match assoc k m with
  | Some _ => (k, v) :: without k m
  | None =>
      if negb (max =? 0) && (max <? Z.of_nat (S (length m))) then removelast ((k, v) :: m) else (k, v) :: m
  end.

Definition spec_GetOk k m : list (K * V) :=
  match assoc k m with Some v => (k, v) :: without k m | None => m end.

(** ** Calls and their results *)
Inductive call :=
  | CSet k v | CClear | CGetOk k | CContains k | CPeekOk k | CDelete k | CDeleteOldest | CLen | CForEach.

Inductive result :=
  | RUnit | RValue (o : option V) | RBool (b : bool) | RInt (n : Z) | RList m.

Definition invoke (o : call) : stM cache result :=
  match o with
  | CSet k v => _ ← Set_ k v; mret RUnit
  | CClear => _ ← Clear; mret RUnit
  | CGetOk k => r ← GetOk k; mret (RValue r)
  | CContains k => r ← Contains k; mret (RBool r)
  | CPeekOk k => r ← PeekOk k; mret (RValue r)
  | CDelete k => _ ← Delete k; mret RUnit
  | CDeleteOldest => _ ← DeleteOldest; mret RUnit
  | CLen => c ← getS; mret (RInt (Len c))
  | CForEach => r ← ForEach (λ s k v, s ++ [(k, v)]) []; mret (RList r)
  end.

Definition spec max (o : call) m : list (K * V) * result :=
  match o with
  | CSet k v => (spec_Set max k v m, RUnit)
  | CClear => ([], RUnit)
  | CGetOk k => (spec_GetOk k m, RValue (assoc k m))
  | CContains k => (spec_GetOk k m, RBool (bool_decide (is_Some (assoc k m))))
  | CPeekOk k => (m, RValue (assoc k m))
  | CDelete k => (without k m, RUnit)
  | CDeleteOldest => (removelast m, RUnit)
  | CLen => (m, RInt (Z.of_nat (length m)))
  | CForEach => (m, RList m)
  end.

Fixpoint invokeAll (os : list call) : stM cache (list result) :=
  match os with
  | [] => mret []
  | o :: os => r ← invoke o; rs ← invokeAll os; mret (r :: rs)
  end.

Fixpoint specAll max (os : list call) m : list (K * V) * list result :=
  match os with
  | [] => (m, [])
  | o :: os => let '(m, r) := spec max o m in let '(m, rs) := specAll max os m in (m, r :: rs)
  end.

(** ** Looking up *)
Lemma assoc_keys k m : assoc k m = None ↔ k ∉ m.*1.
Proof.
  induction m as [|[k' v] m IH]; cbn; [split; [intros _; set_solver|done]|].
  case_decide; subst; [split; [done|set_solver]|]. rewrite IH. set_solver.
Qed.

Lemma assoc_split k v (A B : list (loc * (K * V))) x :
  NoDup (keysOf (A ++ (x, (k, v)) :: B)) →
  assoc k (A ++ (x, (k, v)) :: B).*2 = Some v ∧ without k (A ++ (x, (k, v)) :: B).*2 = (A ++ B).*2.
Proof.
  unfold keysOf. induction A as [|[y [k' w]] A IH]; cbn; [by rewrite !decide_True|].
  rewrite NoDup_cons. intros [Hk Hnd]. rewrite !decide_False; [|intros ->; apply Hk..].
  - destruct (IH Hnd) as [-> ->]. done.
  - rewrite fmap_app. cbn. set_solver.
  - rewrite fmap_app. cbn. set_solver.
Qed.

Lemma keysOf_snd (L : list (loc * (K * V))) : keysOf L = L.*2.*1.
Proof. unfold keysOf. by rewrite <- list_fmap_compose. Qed.

(** A key is bound to an entry of the ring, or it is nowhere. *)
Lemma rep_lookup_cases c L k :
  rep c L →
  (∃ x v A B, c_lookup c !! k = Some x ∧ L = A ++ (x, (k, v)) :: B ∧
              assoc k L.*2 = Some v ∧ without k L.*2 = (A ++ B).*2) ∨
  (c_lookup c !! k = None ∧ (k ∉ keysOf L) ∧ assoc k L.*2 = None).
Proof.
  intros Hrep. destruct (c_lookup c !! k) as [x|] eqn:E; [left|right].
  - destruct (rep_lookup_split _ _ _ _ Hrep E) as (v & A & B & ->). exists x, v, A, B.
    pose proof (assoc_split k v A B x (rp_keys _ _ Hrep)) as [? ?]. done.
  - assert (k ∉ keysOf L) as Hk.
    { unfold keysOf. rewrite list_elem_of_fmap. intros ([x [k' v]] & -> & Hin). cbn in E.
      enough (c_lookup c !! k' = Some x) by congruence. apply (rp_lookup _ _ Hrep). eauto. }
    split_and!; [done..|]. rewrite assoc_keys. by rewrite <- keysOf_snd.
Qed.

Lemma rep_value c A x k v B : rep c (A ++ (x, (k, v)) :: B) → ∃ e, load x c = (c, Ok e) ∧ e_value e = v.
Proof.
  intros Hrep. pose proof (rp_data _ _ Hrep x (k, v) ltac:(set_solver)) as Hd. unfold dataIs in Hd.
  destruct (c_heap c !! x) as [e|] eqn:E; [|done]. exists e. split; [by apply load_run|]. cbn in Hd. congruence.
Qed.

(** ** Each operation *)
Definition implements (c : cache) m' (r : cache * res result) (out : result) : Prop :=
  ∃ c' L', r = (c', Ok out) ∧ rep c' L' ∧ L'.*2 = m' ∧ MaxEntries c' = MaxEntries c.

Lemma deleteOldest_rep c L nd :
  rep c (L ++ [nd]) → ∃ c', deleteOldest c = (c', Ok tt) ∧ rep c' L ∧ MaxEntries c' = MaxEntries c.
Proof.
  intros Hrep. destruct nd as [x [k v]]. pose proof (rp_head _ _ Hrep) as Hh. pose proof (rp_ring _ _ Hrep) as Hr.
  destruct (deleteElement_rep _ _ _ _ _ _ Hrep) as (c' & Hrun & Hrep' & HM). rewrite app_nil_r in Hrep'.
  exists c'. split; [|done]. unfold deleteOldest. rewrite fmap_app in Hh, Hr. cbn in Hh, Hr.
  destruct (head (L.*1 ++ [x])) as [y|] eqn:Ey; [|by destruct L.*1]. lru_step ltac:(by apply theHead_run).
  destruct (L.*1 ++ [x]) as [|y' l] eqn:EL; [done|]. injection Ey as ->.
  destruct (ring_last _ _ _ Hr) as [Ht _]. rewrite <- EL, last_last in Ht.
  destruct (prev_Some _ _ _ Ht) as (e & He & Hep). lru_step ltac:(by apply load_run). by rewrite Hep.
Qed.

Lemma removelast_fmap_snoc (L : list (loc * (K * V))) nd : removelast (L ++ [nd]).*2 = L.*2.
Proof. rewrite fmap_app. cbn. apply removelast_last. Qed.

Lemma Set_implements c L k v :
  rep c L → implements c (spec_Set (MaxEntries c) k v L.*2) ((_ ← Set_ k v; mret RUnit) c) RUnit.
Proof.
  intros Hrep. unfold Set_. rewrite stM_bind_assoc. lru_step ltac:(done). unfold spec_Set.
  destruct (rep_lookup_cases c L k Hrep) as [(x & w & A & B & -> & -> & -> & ->)|(-> & Hk & ->)].
  - destruct (moveToFront_rep _ _ _ _ _ Hrep) as (c1 & H1 & Hrep1 & HM1 & _).
    destruct (setValue_rep _ _ _ _ v _ Hrep1) as (c2 & H2 & Hrep2 & HM2).
    exists c2, ((x, (k, v)) :: A ++ B). split_and!; [|done|done|congruence].
    lru_step ltac:(lru_step ltac:(exact H1); exact H2). done.
  - pose proof (insert_rep c L k v Hrep Hk) as Hrep1. set (c1 := mkCache _ _ _ _ _) in Hrep1.
    rewrite stM_bind_assoc. lru_step ltac:(apply newAtFront_run; [by apply (rep_fresh _ L)|]; intros x Hx;
      destruct (rep_head_prev _ _ _ Hrep Hx) as (t & ? & ?); exists t; split; [done|by eapply rep_member]).
    rewrite stM_bind_assoc. lru_step ltac:(done). rewrite stM_bind_assoc. lru_step ltac:(done).
    fold c1. change (MaxEntries _) with (MaxEntries c). unfold Len.
    assert (size (c_lookup c1) = S (length L)) as Hsz by (by rewrite (rep_size _ _ Hrep1)).
    change (c_lookup c1) with (<[k := c_free c]> (c_lookup c)) in Hsz. cbn [c_lookup]. rewrite Hsz, length_fmap.
    destruct (negb _ && _).
    + destruct (exists_last (l := (c_free c, (k, v)) :: L)) as (L' & nd & HL); [done|].
      rewrite HL in Hrep1. destruct (deleteOldest_rep _ _ _ Hrep1) as (c2 & H2 & Hrep2 & HM2).
      exists c2, L'. split_and!; [|done| |done].
      * lru_step ltac:(exact H2). done.
      * change ((k, v) :: L.*2) with (((c_free c, (k, v)) :: L).*2). by rewrite HL, removelast_fmap_snoc.
    + exists c1, ((c_free c, (k, v)) :: L). by split_and!.
Qed.

Lemma GetOk_rep c L k :
  rep c L → ∃ c' L', GetOk k c = (c', Ok (assoc k L.*2)) ∧ rep c' L' ∧ L'.*2 = spec_GetOk k L.*2 ∧
    MaxEntries c' = MaxEntries c.
Proof.
  intros Hrep. unfold GetOk, spec_GetOk. lru_step ltac:(done).
  destruct (rep_lookup_cases c L k Hrep) as [(x & w & A & B & -> & -> & -> & ->)|(-> & Hk & ->)].
  - destruct (moveToFront_rep _ _ _ _ _ Hrep) as (c1 & H1 & Hrep1 & HM1 & _).
    exists c1, ((x, (k, w)) :: A ++ B). split_and!; [|done..].
    lru_step ltac:(exact H1). destruct (rep_value _ [] _ _ _ _ Hrep1) as (e & He & <-).
    lru_step ltac:(exact He). done.
  - by exists c, L.
Qed.

Lemma Delete_implements c L k :
  rep c L → implements c (without k L.*2) ((_ ← Delete k; mret RUnit) c) RUnit.
Proof.
  intros Hrep. unfold Delete. rewrite stM_bind_assoc. lru_step ltac:(done).
  destruct (rep_lookup_cases c L k Hrep) as [(x & w & A & B & -> & -> & _ & ->)|(-> & Hk & Ha)].
  - destruct (deleteElement_rep _ _ _ _ _ _ Hrep) as (c' & Hrun & Hrep' & HM).
    exists c', (A ++ B). split_and!; [|done..]. lru_step ltac:(exact Hrun). done.
  - exists c, L. split_and!; [done..| |done]. rewrite assoc_keys in Ha. clear -Ha.
    induction L.*2 as [|[k' w] m IH]; cbn in *; [done|]. rewrite decide_False by set_solver. rewrite <- IH; set_solver.
Qed.

(** No entries: on a new cache, and on one that was cleared. *)
Lemma rep_nil max (h : gmap loc (entry K V)) fr : (∀ x, is_Some (h !! x) → (x < fr)%nat) → rep (mkCache max None (∅ : gmap K loc) h fr) [].
Proof.
  intros Hfr. split; cbn; [done|done|apply NoDup_nil_2|apply NoDup_nil_2| | |done].
  - intros x kv []%not_elem_of_nil.
  - intros k x. rewrite lookup_empty. split; [done|]. by intros [v []%not_elem_of_nil].
Qed.

Lemma rep_empty max : rep (NewCache max) ([] : list (loc * (K * V))).
Proof. apply rep_nil. intros x [e He]. by rewrite lookup_empty in He. Qed.

Lemma invoke_implements c L o :
  rep c L → let '(m', out) := spec (MaxEntries c) o L.*2 in implements c m' (invoke o c) out.
Proof.
  intros Hrep. destruct o as [k v| |k|k|k|k| | |]; cbn [spec invoke].
  - by apply Set_implements.
  - exists (mkCache (MaxEntries c) None ∅ (c_heap c) (c_free c)), []. split_and!; [done| |done..].
    apply rep_nil, (rp_free _ _ Hrep).
  - destruct (GetOk_rep c L k Hrep) as (c' & L' & Hrun & ? & ? & ?). exists c', L'. split_and!; [|done..].
    lru_step ltac:(exact Hrun). done.
  - destruct (GetOk_rep c L k Hrep) as (c' & L' & Hrun & ? & ? & ?). exists c', L'. split_and!; [|done..].
    unfold Contains. rewrite stM_bind_assoc. lru_step ltac:(exact Hrun). done.
  - exists c, L. split_and!; [|done..]. unfold PeekOk. rewrite stM_bind_assoc. lru_step ltac:(done).
    destruct (rep_lookup_cases c L k Hrep) as [(x & w & A & B & -> & -> & -> & _)|(-> & _ & ->)]; [|done].
    destruct (rep_value _ _ _ _ _ _ Hrep) as (e & He & <-). rewrite stM_bind_assoc. lru_step ltac:(exact He). done.
  - by apply Delete_implements.
  - unfold DeleteOldest. rewrite stM_bind_assoc. lru_step ltac:(done). rewrite (rp_head _ _ Hrep).
    destruct L as [|nd L] using rev_ind; [by exists c, []|clear IHL].
    rewrite removelast_fmap_snoc. destruct (deleteOldest_rep _ _ _ Hrep) as (c' & Hrun & Hrep' & HM).
    exists c', L. split_and!; [|done..]. rewrite fmap_app. cbn. destruct L as [|nd' L]; cbn; lru_step ltac:(exact Hrun); done.
  - exists c, L. split_and!; [|done..]. lru_step ltac:(done). unfold Len. by rewrite (rep_size _ _ Hrep), length_fmap.
  - exists c, L. split_and!; [|done..]. lru_step ltac:(by apply ForEach_rep).
    assert (∀ l s, fold_left (λ s (kv : K * V), s ++ [(kv.1, kv.2)]) l s = s ++ l) as ->; [|done].
    induction l as [|[k v] l IH]; intros s; cbn; [by rewrite app_nil_r|]. by rewrite IH, <- app_assoc.
Qed.

Lemma invokeAll_rep os c L :
  rep c L → ∃ c' L', invokeAll os c = (c', Ok (specAll (MaxEntries c) os L.*2).2) ∧ rep c' L' ∧
    L'.*2 = (specAll (MaxEntries c) os L.*2).1 ∧ MaxEntries c' = MaxEntries c.
Proof.
  revert c L. induction os as [|o os IH]; intros c L Hrep; cbn; [by exists c, L|].
  pose proof (invoke_implements c L o Hrep) as Ho. destruct (spec _ o _) as [m r].
  destruct Ho as (c1 & L1 & Hrun & Hrep1 & <- & HM). destruct (IH c1 L1 Hrep1) as (c2 & L2 & Hrun2 & Hrep2 & HL2 & HM2).
  rewrite HM in *. destruct (specAll _ os _) as [m' rs]. cbn in *. exists c2, L2. split_and!; [|done..|congruence].
  lru_step ltac:(exact Hrun). lru_step ltac:(exact Hrun2). done.
Qed.

(** ** The abstract cache stays within its limit *)
Lemma length_without k m : (length (without k m) ≤ length m)%nat.
Proof. induction m as [|[k' v] m IH]; cbn; [lia|]. case_decide; cbn; lia. Qed.

Lemma length_without_Some k v m : assoc k m = Some v → S (length (without k m)) = length m.
Proof. induction m as [|[k' w] m IH]; cbn; [done|]. case_decide; cbn; [done|]. intros ?. by rewrite IH. Qed.

Lemma length_removelast {A} (l : list A) : length (removelast l) = pred (length l).
Proof.
  destruct l as [|x l _] using rev_ind; [done|]. rewrite removelast_last, length_app. cbn. lia.
Qed.

Lemma spec_limit max o m : max ≤ 0 ∨ Z.of_nat (length m) ≤ max → max ≤ 0 ∨ Z.of_nat (length (spec max o m).1) ≤ max.
Proof.
  intros [Hm|Hm]; [by left|]. destruct (Z.le_gt_cases max 0); [by left|]. right.
  destruct o as [k v| |k|k|k|k| | |]; cbn [spec fst]; try done.
  - unfold spec_Set. destruct (assoc k m) eqn:E.
    + cbn [length]. by rewrite (length_without_Some _ _ _ E).
    + destruct (Z.eqb_spec max 0); [lia|]. destruct (Z.ltb_spec max (Z.of_nat (S (length m)))); cbn [negb andb].
      * rewrite length_removelast. cbn [length]. lia.
      * cbn [length]. lia.
  - cbn. lia.
  - unfold spec_GetOk. destruct (assoc k m) eqn:E; [|done]. cbn [length]. by rewrite (length_without_Some _ _ _ E).
  - unfold spec_GetOk. destruct (assoc k m) eqn:E; [|done]. cbn [length]. by rewrite (length_without_Some _ _ _ E).
  - pose proof (length_without k m). lia.
  - rewrite length_removelast. lia.
Qed.

Lemma specAll_limit max os m :
  max ≤ 0 ∨ Z.of_nat (length m) ≤ max → max ≤ 0 ∨ Z.of_nat (length (specAll max os m).1) ≤ max.
Proof.
  revert m. induction os as [|o os IH]; intros m Hm; cbn; [done|]. pose proof (spec_limit max o m Hm) as Ho.
  destruct (spec max o m) as [m' r]. cbn in Ho. specialize (IH m' Ho). by destruct (specAll max os m').
Qed.

(** C38. Whatever is called on a new cache, and in whatever order, the ring of pointers answers every
    call as the most-recently-used list does: no call panics, [GetOk] and [Contains] move the key to the
    front and [PeekOk] does not, a [Set] of a new key that goes over [MaxEntries] evicts the entry that
    was used least recently, and [ForEach] visits the entries from the most to the least recently used.
    A cache with a positive limit never holds more entries than that. *)
Theorem lru_refines_list max (os : list call) :
  ∃ c, invokeAll os (NewCache max) = (c, Ok (specAll max os []).2) ∧
       Len c = Z.of_nat (length (specAll max os []).1) ∧ (max ≤ 0 ∨ Len c ≤ max).
Proof.
  destruct (invokeAll_rep os (NewCache max) [] (rep_empty max)) as (c & L & Hrun & Hrep & HL & _). cbn in *.
  exists c. split; [done|]. assert (Len c = Z.of_nat (length (specAll max os []).1)) as HLen.
  { unfold Len. by rewrite (rep_size _ _ Hrep), <- HL, length_fmap. }
  split; [done|]. rewrite HLen. apply specAll_limit. cbn. lia.
Qed.

End Spec.
