(* ===== verification/Limiter.v ===== *)
(** * util/limiter: a token bucket for each key

    [limiter.go] keeps the buckets of the keys seen most recently in a cache of
    [util/lru], by pointer.  Times are nanoseconds since the zero [time.Time]. *)
From S2P Require Import Prelude GoState Lru LruRing LruRefine.

(** ** Go's [time] and [int64] *)
Definition maxInt64 : Z := 2 ^ 63 - 1.
Definition minInt64 : Z := - 2 ^ 63.
Definition int64 (z : Z) : Z := (z + 2 ^ 63) mod 2 ^ 64 - 2 ^ 63.

(** [t.Truncate(d)]: [t] itself when [d] is not positive. *)
Definition Truncate (t d : Z) : Z := if d <=? 0 then t else t - t mod d.
(** [t.Sub(u)], which saturates. *)
Definition Sub (t u : Z) : Z := Z.max minInt64 (Z.min maxInt64 (t - u)).
(** Integer division, which panics on a zero divisor. *)
Definition quot64 (a b : Z) : res Z := if b =? 0 then Panic else Ok (int64 (Z.quot a b)).

Lemma int64_id z : minInt64 <= z <= maxInt64 → int64 z = z.
Proof. unfold minInt64, maxInt64, int64. intros ?. rewrite Z.mod_small; lia. Qed.

Record bucket := mkBucket { cur : Z; lastUpdate : Z }.

(** The limiter, with the buckets its cache points to. *)
Record Limiter (K : Type) `{Countable K} := mkLimiter {
  Size : Z;
  Max : Z;
  RefillInterval : Z;
  Overdraft : Z;
  lm_cache : option (Cache K loc);
  lm_buckets : gmap loc bucket;
  lm_free : loc
}.
Arguments mkLimiter {K _ _}.
Arguments Size {K _ _}.
Arguments Max {K _ _}.
Arguments RefillInterval {K _ _}.
Arguments Overdraft {K _ _}.
Arguments lm_cache {K _ _}.
Arguments lm_buckets {K _ _}.
Arguments lm_free {K _ _}.

Section Limiter.
Context {K : Type} `{Countable K}.
Abbreviation limiter := (Limiter K).
Implicit Types (lm : limiter) (k key : K) (b : loc) (now : Z).

Definition NewLimiter (size max interval overdraft : Z) : limiter :=
  mkLimiter size max interval overdraft None ∅ 0%nat.

Definition setCache (c : option (Cache K loc)) lm : limiter :=
  mkLimiter (Size lm) (Max lm) (RefillInterval lm) (Overdraft lm) c (lm_buckets lm) (lm_free lm).
Definition setBuckets (bs : gmap loc bucket) lm : limiter :=
  mkLimiter (Size lm) (Max lm) (RefillInterval lm) (Overdraft lm) (lm_cache lm) bs (lm_free lm).

(** A method of [lm.cache]; a nil cache is dereferenced. *)
Definition onCache {A} (m : stM (Cache K loc) A) : stM limiter A := λ lm,
  match lm_cache lm with
  | None => (lm, Panic)
  | Some c => let '(c, r) := m c in (setCache (Some c) lm, r)
  end.

Definition loadBucket b : stM limiter bucket := λ lm,
  match lm_buckets lm !! b with Some bk => (lm, Ok bk) | None => (lm, Panic) end.
Definition storeBucket b (bk : bucket) : stM limiter unit := modS (λ lm, setBuckets (<[b := bk]> (lm_buckets lm)) lm).
(** [&bucket{...}] *)
Definition newBucket (bk : bucket) : stM limiter loc := λ lm,
  (mkLimiter (Size lm) (Max lm) (RefillInterval lm) (Overdraft lm) (lm_cache lm)
     (<[lm_free lm := bk]> (lm_buckets lm)) (S (lm_free lm)), Ok (lm_free lm)).

(** The body of [updateBucketLocked] on the bucket it is given. *)
Definition refill (interval max : Z) (bk : bucket) now : res bucket :=
  let now := Truncate now interval in
  if now <? lastUpdate bk then mret bk else
  let timeDelta := Z.max (Sub now (lastUpdate bk)) 0 in
  tokenDelta ← quot64 timeDelta interval;
  mret (mkBucket (Z.min (int64 (cur bk + tokenDelta)) max) now).

Definition updateBucketLocked b now : stM limiter unit :=
  lm ← getS;
  bk ← loadBucket b;
  bk ← lift (refill (RefillInterval lm) (Max lm) bk now);
  storeBucket b bk.

Definition allowBucketLocked b now : stM limiter bool :=
  bk ← loadBucket b;
  _ ← (if cur bk <=? 0 then updateBucketLocked b now else mret tt);
  bk ← loadBucket b;
  let ret := 0 <? cur bk in
  lm ← getS;
  _ ← (if int64 (- Overdraft lm) <? cur bk then storeBucket b (mkBucket (int64 (cur bk - 1)) (lastUpdate bk)) else mret tt);
  mret ret.

(** [lm.cache.Get(key)]: the zero value is the nil pointer. *)
Definition getBucketLocked key now : stM limiter loc :=
  lm ← getS;
  hit ← match lm_cache lm with
        | None => _ ← modS (setCache (Some (NewCache (Size lm)))); mret None
        | Some _ => onCache (GetOk key)
        end;
  match hit with
  | Some b => mret b
  | None =>
      b ← newBucket (mkBucket (Max lm) (Truncate now (RefillInterval lm)));
      _ ← onCache (Set_ key b);
      mret b
  end.

Definition allow key now : stM limiter bool := b ← getBucketLocked key now; allowBucketLocked b now.

Definition tokensForTest key : stM limiter (option Z) :=
  hit ← onCache (PeekOk key);
  match hit with Some b => bk ← loadBucket b; mret (Some (cur bk)) | None => mret None end.

(** The closure of [collectDump], on the buckets and the lines collected. *)
Definition collectOne lm now (s : res (gmap loc bucket * list (K * Z))) k b : res (gmap loc bucket * list (K * Z)) :=
  '(bs, ret) ← s;
  match bs !! b with
  | None => Panic
  | Some bk =>
      bk ← refill (RefillInterval lm) (Max lm) bk now;
      mret (<[b := bk]> bs, ret ++ [(k, cur bk)])
  end.

Definition collectDump now : stM limiter (list (K * Z)) :=
  lm ← getS;
  match lm_cache lm with
  | None => mret []
  | Some _ =>
      r ← onCache (ForEach (collectOne lm now) (Ok (lm_buckets lm, [])));
      '(bs, ret) ← lift r;
      _ ← modS (setBuckets bs);
      mret ret
  end.

(** ** The abstract limiter: a most-recently-used list of buckets *)
Definition charge (interval max overdraft : Z) (bk : bucket) now : res (bucket * bool) :=
  bk ← (if cur bk <=? 0 then refill interval max bk now else mret bk);
  mret (if int64 (- overdraft) <? cur bk then mkBucket (int64 (cur bk - 1)) (lastUpdate bk) else bk, 0 <? cur bk).

(** The bucket of a key that is not tracked is full. *)
Definition bucketOf (interval max : Z) k now (M : list (K * bucket)) : bucket :=
  default (mkBucket max (Truncate now interval)) (assoc k M).

Definition spec_allow (size max interval overdraft : Z) k now (M : list (K * bucket)) : res (list (K * bucket) * bool) :=
  '(bk, ok) ← charge interval max overdraft (bucketOf interval max k now M) now;
  mret (spec_Set size k bk M, ok).

(** The buckets the cache points to. *)
Definition bucketAt (bs : gmap loc bucket) b : bucket := default (mkBucket 0 0) (bs !! b).
Definition view (bs : gmap loc bucket) (m : list (K * loc)) : list (K * bucket) := prod_map id (bucketAt bs) <$> m.

(** [m] is what the cache holds; no two keys share a bucket. *)
Record holds lm (m : list (K * loc)) : Prop := {
  hd_cache : match lm_cache lm with
             | None => m = []
             | Some c => MaxEntries c = Size lm ∧ ∃ L, rep c L ∧ L.*2 = m
             end;
  hd_nodup : NoDup m.*2;
  hd_some : ∀ b, b ∈ m.*2 → is_Some (lm_buckets lm !! b);
  hd_free : ∀ b, is_Some (lm_buckets lm !! b) → (b < lm_free lm)%nat
}.

Definition params lm : Z * Z * Z * Z := (Size lm, Max lm, RefillInterval lm, Overdraft lm).

(** *** Lists of buckets *)
Lemma assoc_view bs k m : assoc k (view bs m) = bucketAt bs <$> assoc k m.
Proof. unfold view. induction m as [|[k' b] m IH]; cbn; [done|]. case_decide; [done|exact IH]. Qed.

Lemma without_view bs k m : without k (view bs m) = view bs (without k m).
Proof. unfold view. induction m as [|[k' b] m IH]; cbn; [done|]. case_decide; [done|]. by rewrite IH. Qed.

Lemma removelast_view bs m : removelast (view bs m) = view bs (removelast m).
Proof.
  destruct m as [|x m _] using rev_ind; [done|]. unfold view. rewrite fmap_app. cbn. by rewrite !removelast_last.
Qed.

Lemma spec_Set_view bs size k b m : spec_Set size k (bucketAt bs b) (view bs m) = view bs (spec_Set size k b m).
Proof.
  unfold spec_Set. rewrite assoc_view, without_view. unfold view at 2. rewrite length_fmap.
  destruct (assoc k m); cbn [fmap option_fmap option_map]; [done|].
  change ((k, bucketAt bs b) :: view bs m) with (view bs ((k, b) :: m)). rewrite removelast_view. by case_match.
Qed.

Lemma view_insert bs b bk m : b ∉ m.*2 → view (<[b := bk]> bs) m = view bs m.
Proof.
  unfold view. induction m as [|[k' b'] m IH]; cbn; [done|]. intros Hb. rewrite IH by set_solver.
  unfold prod_map, bucketAt. cbn. rewrite lookup_insert_ne by set_solver. done.
Qed.

Lemma bucketAt_insert bs b bk : bucketAt (<[b := bk]> bs) b = bk.
Proof. unfold bucketAt. by rewrite lookup_insert_eq. Qed.

Lemma without_snd k b (m : list (K * loc)) : NoDup m.*2 → assoc k m = Some b → m.*2 ≡ₚ b :: (without k m).*2.
Proof.
  induction m as [|[k' b'] m IH]; cbn; [done|]. rewrite NoDup_cons. intros [Hb Hnd]. case_decide; cbn.
  - by intros [= ->].
  - intros Ha. rewrite (IH Hnd Ha). solve_Permutation.
Qed.

Lemma removelast_sub {A} (l : list A) x : x ∈ removelast l → x ∈ l.
Proof. destruct l as [|y l _] using rev_ind; [done|]. rewrite removelast_last. set_solver. Qed.

(** Where the limiter puts the bucket of a key it looked up. *)
Lemma spec_Set_front size k b (m : list (K * loc)) :
  0 <= size → NoDup m.*2 → (assoc k m = Some b ∨ assoc k m = None ∧ b ∉ m.*2) →
  ∃ m', spec_Set size k b m = (k, b) :: m' ∧ NoDup (b :: m'.*2) ∧
        (∀ x, x ∈ m'.*2 → x ∈ m.*2) ∧ (∀ bs bk, spec_Set size k bk (view (<[b := bk]> bs) m) = spec_Set size k bk (view bs m)).
Proof.
  intros Hs Hnd [Ha|[Ha Hb]]; unfold spec_Set; rewrite Ha.
  - pose proof (without_snd _ _ _ Hnd Ha) as HP. exists (without k m). rewrite <- HP. split_and!; [done..| |].
    + intros x. rewrite HP. set_solver.
    + intros bs bk. rewrite !assoc_view, Ha, !without_view. cbn. f_equal. apply view_insert.
      rewrite HP in Hnd. by apply NoDup_cons in Hnd as [? _].
  - assert (∀ bs bk, view (<[b := bk]> bs) m = view bs m) as Hv by (intros; by apply view_insert).
    destruct (negb _ && _) eqn:E.
    + destruct m as [|x m _] using rev_ind.
      { exfalso. apply andb_true_iff in E as [E1 E2]. apply Z.ltb_lt in E2. cbn in E2.
        apply negb_true_iff, Z.eqb_neq in E1. lia. }
      exists m. split_and!; [| | |intros; by rewrite Hv].
      * change ((k, b) :: m ++ [x]) with (((k, b) :: m) ++ [x]). apply removelast_last.
      * rewrite fmap_app in Hb, Hnd. apply NoDup_app in Hnd as [? _]. apply NoDup_cons. set_solver.
      * rewrite fmap_app. set_solver.
    + exists m. split_and!; [done|by apply NoDup_cons|done|intros; by rewrite Hv].
Qed.

(** ** The limiter implements the list of buckets *)
Lemma onCache_run {A} (f : stM (Cache K loc) A) lm c c' r :
  lm_cache lm = Some c → f c = (c', r) → onCache f lm = (setCache (Some c') lm, r).
Proof. unfold onCache. by intros -> ->. Qed.

Lemma Set_rep (c : Cache K loc) L k b :
  rep c L → ∃ c' L', Set_ k b c = (c', Ok tt) ∧ rep c' L' ∧ L'.*2 = spec_Set (MaxEntries c) k b L.*2 ∧
    MaxEntries c' = MaxEntries c.
Proof.
  intros Hrep. destruct (Set_implements c L k b Hrep) as (c' & L' & Hrun & ? & ? & ?). exists c', L'.
  split_and!; [|done..]. unfold mbind, stM_bind, mret, stM_ret in Hrun. by destruct (Set_ k b c) as [? [[]| | |]]; simplify_eq.
Qed.

Lemma getBucketLocked_run lm m key now :
  0 <= Size lm → holds lm m →
  ∃ lm' b, getBucketLocked key now lm = (lm', Ok b) ∧ params lm' = params lm ∧
    holds lm' (spec_Set (Size lm) key b m) ∧ (assoc key m = Some b ∨ assoc key m = None ∧ b ∉ m.*2) ∧
    (∀ x, x ∈ m.*2 → lm_buckets lm' !! x = lm_buckets lm !! x) ∧
    lm_buckets lm' !! b = Some (bucketOf (RefillInterval lm) (Max lm) key now (view (lm_buckets lm) m)).
Proof.
  intros Hs Hh. pose proof Hh as [Hc Hnd Hsome Hfree]. unfold getBucketLocked. lru_step ltac:(done).
  assert (∃ c, MaxEntries c = Size lm ∧ (∃ L, rep c L ∧ L.*2 = spec_GetOk key m) ∧
    (match lm_cache lm with
     | None => _ ← modS (setCache (Some (NewCache (Size lm)))); mret None
     | Some _ => onCache (GetOk key)
     end) lm = (setCache (Some c) lm, Ok (assoc key m))) as (c & HM & (L & Hrep & HL) & Hrun).
  { destruct (lm_cache lm) as [c|] eqn:Ec.
    - destruct Hc as (HM & L & Hrep & <-). destruct (GetOk_rep c L key Hrep) as (c' & L' & Hrun & Hrep' & HL' & HM').
      exists c'. split_and!; [congruence|eauto|]. by apply (onCache_run _ _ c).
    - subst m. exists (NewCache (Size lm)). split_and!; [done| |done]. exists []. split; [apply rep_empty|done]. }
  lru_step ltac:(exact Hrun). unfold bucketOf. rewrite assoc_view. unfold spec_GetOk in HL.
  destruct (assoc key m) as [b|] eqn:Ea.
  - exists (setCache (Some c) lm), b.
    assert (spec_Set (Size lm) key b m = (key, b) :: without key m) as HS by (unfold spec_Set; by rewrite Ea).
    pose proof (without_snd _ _ _ Hnd Ea) as HP.
    split_and!; [done..| |by left|done|].
    + rewrite HS. split; cbn; [by split; [|exists L]|by rewrite <- HP| |done].
      intros x Hx. apply Hsome. by rewrite HP.
    + cbn. assert (is_Some (lm_buckets lm !! b)) as [bk Hbk] by (apply Hsome; rewrite HP; set_solver).
      unfold bucketAt. by rewrite Hbk.
  - set (b := lm_free lm). set (bk := mkBucket _ _).
    assert (b ∉ m.*2) as Hb by (intros Hin; apply Hsome, Hfree in Hin; unfold b in Hin; lia).
    destruct (Set_rep c L key b Hrep) as (c' & L' & HrunS & Hrep' & HL' & HM').
    lru_step ltac:(done). lru_step ltac:(eapply onCache_run; [done|exact HrunS]).
    eexists _, b. split_and!; [done..| |by right| |].
    + rewrite HL, HM in HL'. destruct (spec_Set_front (Size lm) key b m Hs Hnd) as (m' & HS & Hnd' & Hsub & _); [by right|].
      rewrite HS in HL' |- *. split; cbn.
      * split; [congruence|]. by exists L'.
      * done.
      * intros x Hx. destruct (decide (x = b)) as [->|Hne]; [unfold b; rewrite lookup_insert_eq; eauto|].
        apply elem_of_cons in Hx as [|Hx]; [done|]. fold b. rewrite lookup_insert_ne by done. auto.
      * intros x. rewrite lookup_insert_is_Some. intros [<-|[_ Hx]]; [lia|]. apply Hfree in Hx. lia.
    + intros x Hx. cbn. apply lookup_insert_ne. fold b. set_solver.
    + cbn. apply lookup_insert_eq.
Qed.

Lemma loadBucket_run lm b bk : lm_buckets lm !! b = Some bk → loadBucket b lm = (lm, Ok bk).
Proof. unfold loadBucket. by intros ->. Qed.

Lemma allowBucketLocked_run lm b bk bk' ok now :
  lm_buckets lm !! b = Some bk → charge (RefillInterval lm) (Max lm) (Overdraft lm) bk now = Ok (bk', ok) →
  allowBucketLocked b now lm = (setBuckets (<[b := bk']> (lm_buckets lm)) lm, Ok ok).
Proof.
  intros Hb Hc. unfold charge in Hc. apply bind_Ok in Hc as (bk1 & H1 & Hc). injection Hc as <- <-.
  unfold allowBucketLocked. lru_step ltac:(by apply loadBucket_run).
  assert (setBuckets (<[b := bk]> (lm_buckets lm)) lm = lm) as Hid by (rewrite insert_id by done; by destruct lm).
  set (lm1 := setBuckets (<[b := bk1]> (lm_buckets lm)) lm).
  assert ((if cur bk <=? 0 then updateBucketLocked b now else mret tt) lm = (lm1, Ok tt)) as Hrun1.
  { destruct (cur bk <=? 0); [|injection H1 as <-; unfold lm1; by rewrite Hid].
    unfold updateBucketLocked. lru_step ltac:(done). lru_step ltac:(by apply loadBucket_run).
    unfold lift. lru_step ltac:(rewrite H1; done). done. }
  lru_step ltac:(exact Hrun1).
  assert (lm_buckets lm1 !! b = Some bk1) as Hb1 by (unfold lm1; cbn; apply lookup_insert_eq).
  lru_step ltac:(by apply loadBucket_run). lru_step ltac:(done).
  change (Overdraft lm1) with (Overdraft lm). destruct (int64 (- Overdraft lm) <? cur bk1); [|done].
  lru_step ltac:(done). unfold lm1. cbn. by rewrite insert_insert_eq.
Qed.

Lemma refill_Ok interval max bk now : interval ≠ 0 → ∃ bk', refill interval max bk now = Ok bk'.
Proof.
  intros Hi. unfold refill, quot64. destruct (_ <? _); [eauto|]. rewrite (proj2 (Z.eqb_neq _ _) Hi). cbn. eauto.
Qed.

Lemma charge_Ok interval max od bk now : interval ≠ 0 → ∃ r, charge interval max od bk now = Ok r.
Proof.
  intros Hi. unfold charge. destruct (_ <=? _); [|cbn; eauto]. destruct (refill_Ok interval max bk now Hi) as [? ->]. cbn. eauto.
Qed.

Lemma allow_run lm m key now M' ok :
  0 <= Size lm → holds lm m →
  spec_allow (Size lm) (Max lm) (RefillInterval lm) (Overdraft lm) key now (view (lm_buckets lm) m) = Ok (M', ok) →
  ∃ lm' m', allow key now lm = (lm', Ok ok) ∧ params lm' = params lm ∧ holds lm' m' ∧ view (lm_buckets lm') m' = M'.
Proof.
  intros Hs Hh Hspec. unfold spec_allow in Hspec. apply bind_Ok in Hspec as ([bk ok'] & Hch & Hspec).
  injection Hspec as <- <-.
  destruct (getBucketLocked_run lm m key now Hs Hh) as (lm1 & b & Hrun & Hp & Hh1 & Hb & Hsame & Hbk).
  destruct (spec_Set_front (Size lm) key b m Hs (hd_nodup _ _ Hh) Hb) as (m' & HS & Hnd & Hsub & Hview).
  unfold params in Hp. injection Hp as HSz HMx HR HO.
  exists (setBuckets (<[b := bk]> (lm_buckets lm1)) lm1), (spec_Set (Size lm) key b m). split_and!.
  - unfold allow. lru_step ltac:(exact Hrun). apply allowBucketLocked_run with (bk := _) (1 := Hbk). by rewrite HR, HMx, HO.
  - unfold params. cbn. congruence.
  - pose proof Hh1 as [Hc1 Hnd1 Hsome1 Hfree1]. split; cbn; [done|done| |].
    + intros x Hx. rewrite lookup_insert_is_Some'. auto.
    + intros x. rewrite lookup_insert_is_Some'. intros [<-|Hx]; [|auto]. apply Hfree1. eauto.
  - cbn. rewrite <- spec_Set_view, bucketAt_insert, Hview. f_equal. unfold view. apply list_fmap_ext.
    intros i [k' b'] Hi. unfold prod_map, bucketAt. cbn. rewrite Hsame; [done|].
    apply list_elem_of_fmap. exists (k', b'). split; [done|]. by eapply list_elem_of_lookup_2.
Qed.

End Limiter.
