(* ===== verification/LimiterRate.v ===== *)
(** * What a limiter enforces

    While no key is evicted, the limiter gives every key a bucket of its own; from
    that follow the bound on the requests it lets through and the cooldown of a key
    that is in debt. *)
From S2P Require Import Prelude GoState Lru LruRing LruRefine Limiter.

Section Rate.
Context {K : Type} `{Countable K}.
Abbreviation limiter := (Limiter K).
Implicit Types (lm : limiter) (k : K) (now t : Z) (reqs : list (K * Z)) (M : list (K * bucket)) (oks : list bool).

(** [Allow] for each request in turn. *)
Fixpoint allowAll reqs : stM limiter (list bool) :=
  match reqs with
  | [] => mret []
  | (k, now) :: reqs => ok ← allow k now; oks ← allowAll reqs; mret (ok :: oks)
  end.

(** The requests of one key, and the answers to them. *)
Definition timesOf k reqs : list Z := (filter (λ r, r.1 = k) reqs).*2.
Fixpoint answersOf k reqs oks : list bool :=
  match reqs, oks with
  | (k', _) :: reqs, ok :: oks => if decide (k' = k) then ok :: answersOf k reqs oks else answersOf k reqs oks
  | _, _ => []
  end.

(** A token bucket by itself; it is made at the first request. *)
Fixpoint bucketRun (max interval overdraft : Z) (o : option bucket) (ts : list Z) : res (list bool) :=
  match ts with
  | [] => mret []
  | now :: ts =>
      '(bk, ok) ← charge interval max overdraft (default (mkBucket max (Truncate now interval)) o) now;
      oks ← bucketRun max interval overdraft (Some bk) ts;
      mret (ok :: oks)
  end.

(** The keys fit: [Size] is zero, which is no limit, or they are at most [Size]. *)
Definition fits (size : Z) (ks : list K) : Prop :=
  size = 0 ∨ Z.of_nat (base.size (list_to_set ks : gset K)) <= size.

(** ** One request *)
Lemma assoc_without_ne {V} k k' (m : list (K * V)) : k ≠ k' → assoc k (without k' m) = assoc k m.
Proof.
  intros Hne. induction m as [|[k2 v] m IH]; cbn; [done|]. destruct (decide (k2 = k')) as [->|].
  - by rewrite decide_False.
  - cbn. by rewrite IH.
Qed.

Lemma without_keys {V} k (m : list (K * V)) v : NoDup m.*1 → assoc k m = Some v → m.*1 ≡ₚ k :: (without k m).*1.
Proof.
  induction m as [|[k' b'] m IH]; cbn; [done|]. rewrite NoDup_cons. intros [Hb Hnd]. case_decide; cbn; [by subst|].
  intros Ha. rewrite (IH Hnd Ha). solve_Permutation.
Qed.

(** Without an eviction, setting a key changes that key only. *)
Lemma spec_Set_fits {V} size k (v : V) (m : list (K * V)) ks :
  NoDup m.*1 → fits size (m.*1 ++ k :: ks) →
  let m' := spec_Set size k v m in
  NoDup m'.*1 ∧ fits size (m'.*1 ++ ks) ∧ ∀ k', assoc k' m' = if decide (k' = k) then Some v else assoc k' m.
Proof.
  intros Hnd Hf. unfold spec_Set. destruct (assoc k m) as [w|] eqn:Ea; cbn zeta.
  - pose proof (without_keys _ _ _ Hnd Ea) as HP. cbn. rewrite <- HP. split_and!; [done| |].
    + unfold fits in *. rewrite HP in Hf. rewrite !list_to_set_app_L in Hf. cbn in *. rewrite list_to_set_app_L.
      replace ({[k]} ∪ (list_to_set (without k m).*1 ∪ list_to_set ks) : gset K)
        with ({[k]} ∪ list_to_set (without k m).*1 ∪ ({[k]} ∪ list_to_set ks) : gset K) by set_solver. done.
    + intros k'. case_decide as Hk; [subst; by rewrite decide_True|]. rewrite decide_False by done.
      by apply assoc_without_ne.
  - assert (k ∉ m.*1) as Hk by (by apply assoc_keys).
    assert (negb (size =? 0) && (size <? Z.of_nat (S (length m))) = false) as ->.
    { apply andb_false_iff. destruct Hf as [->|Hf]; [by left|]. right. apply Z.ltb_ge.
      enough (S (length m) ≤ base.size (list_to_set (m.*1 ++ k :: ks) : gset K))%nat by lia.
      transitivity (base.size (list_to_set (k :: m.*1) : gset K)).
      - rewrite size_list_to_set by (by apply NoDup_cons). cbn. by rewrite length_fmap.
      - apply subseteq_size. set_solver. }
    cbn. split_and!; [by apply NoDup_cons| |].
    + unfold fits in *. rewrite list_to_set_app_L in Hf. cbn in *. rewrite list_to_set_app_L.
      replace ({[k]} ∪ (list_to_set m.*1 ∪ list_to_set ks) : gset K)
        with (list_to_set m.*1 ∪ ({[k]} ∪ list_to_set ks) : gset K) by set_solver. done.
    + intros k'. case_decide; [subst; by rewrite decide_True|]. by rewrite decide_False by done.
Qed.

(** A limiter whose buckets are [M]. *)
Definition tracks lm M : Prop := ∃ m, holds lm m ∧ view (lm_buckets lm) m = M ∧ NoDup M.*1.

Lemma tracks_new size max interval od : tracks (NewLimiter size max interval od) [].
Proof.
  exists []. split_and!; [|done|by apply NoDup_nil_2].
  split; cbn; [done|apply NoDup_nil_2|by intros b []%not_elem_of_nil|]. intros b [? Hb]. by rewrite lookup_empty in Hb.
Qed.

Lemma allow_tracks lm M k now ks :
  0 <= Size lm → RefillInterval lm ≠ 0 → tracks lm M → fits (Size lm) (M.*1 ++ k :: ks) →
  ∃ lm' M' bk ok, allow k now lm = (lm', Ok ok) ∧ params lm' = params lm ∧ tracks lm' M' ∧
    fits (Size lm) (M'.*1 ++ ks) ∧
    charge (RefillInterval lm) (Max lm) (Overdraft lm) (bucketOf (RefillInterval lm) (Max lm) k now M) now = Ok (bk, ok) ∧
    ∀ k', assoc k' M' = if decide (k' = k) then Some bk else assoc k' M.
Proof.
  intros Hs Hr (m & Hh & Hv & Hnd) Hf.
  destruct (charge_Ok (RefillInterval lm) (Max lm) (Overdraft lm) (bucketOf (RefillInterval lm) (Max lm) k now M) now Hr)
    as [[bk ok] Hch].
  destruct (spec_Set_fits (Size lm) k bk M ks Hnd Hf) as (Hnd' & Hf' & Ha).
  destruct (allow_run lm m k now (spec_Set (Size lm) k bk M) ok Hs Hh) as (lm' & m' & Hrun & Hp & Hh' & Hv').
  { unfold spec_allow. rewrite Hv, Hch. done. }
  exists lm', (spec_Set (Size lm) k bk M), bk, ok. split_and!; try done. by exists m'.
Qed.

(** ** Many requests *)
Lemma allowAll_tracks lm M reqs ks :
  0 <= Size lm → RefillInterval lm ≠ 0 → tracks lm M → fits (Size lm) (M.*1 ++ reqs.*1 ++ ks) →
  ∃ lm' M' oks, allowAll reqs lm = (lm', Ok oks) ∧ params lm' = params lm ∧ tracks lm' M' ∧
    fits (Size lm) (M'.*1 ++ ks) ∧
    ∀ k, bucketRun (Max lm) (RefillInterval lm) (Overdraft lm) (assoc k M) (timesOf k reqs) = Ok (answersOf k reqs oks).
Proof.
  revert lm M. induction reqs as [|[k now] reqs IH]; intros lm M Hs Hr Ht Hf; cbn [allowAll].
  { exists lm, M, []. by split_and!. }
  cbn in Hf. destruct (allow_tracks lm M k now (reqs.*1 ++ ks) Hs Hr Ht Hf) as (lm1 & M1 & bk & ok & Hrun & Hp & Ht1 & Hf1 & Hch & Ha).
  pose proof Hp as Hp'. unfold params in Hp'. injection Hp' as HS HM HR HO.
  destruct (IH lm1 M1) as (lm2 & M2 & oks & Hrun2 & Hp2 & Ht2 & Hf2 & Hall); [by rewrite HS|by rewrite HR|done|by rewrite HS|].
  exists lm2, M2, (ok :: oks). split_and!; [|congruence|done|by rewrite <- HS|].
  { lru_step ltac:(exact Hrun). lru_step ltac:(exact Hrun2). done. }
  intros k'. specialize (Hall k'). rewrite Ha, HM, HR, HO in Hall. unfold timesOf in *. rewrite filter_cons. cbn [fst answersOf].
  destruct (decide (k = k')) as [->|Hne].
  - rewrite decide_True in Hall by done. cbn. unfold bucketOf in Hch. rewrite Hch. cbn. by rewrite Hall.
  - rewrite decide_False in Hall by congruence. done.
Qed.

Lemma limiter_run size max interval od reqs k :
  0 <= size → interval ≠ 0 → fits size reqs.*1 →
  ∃ lm oks, allowAll reqs (NewLimiter size max interval od) = (lm, Ok oks) ∧
    bucketRun max interval od None (timesOf k reqs) = Ok (answersOf k reqs oks).
Proof.
  intros Hs Hi Hf. destruct (allowAll_tracks (NewLimiter size max interval od) [] reqs [] Hs Hi (tracks_new _ _ _ _))
    as (lm & M & oks & Hrun & _ & _ & _ & Hall); [cbn; by rewrite app_nil_r|].
  exists lm, oks. split; [done|]. exact (Hall k).
Qed.

End Rate.

(** ** A bucket by itself *)
Section Bucket.
Context (max interval overdraft : Z).
Hypothesis (Hmax : 0 <= max <= maxInt64) (Hint : 0 < interval <= maxInt64) (Hod : 0 <= overdraft <= maxInt64).
Implicit Types (bk : bucket) (now t q n : Z) (ts : list Z).

Lemma Truncate_spec now : Truncate now interval = interval * (now / interval).
Proof. unfold Truncate. rewrite (proj2 (Z.leb_gt _ _)) by lia. pose proof (Z.div_mod now interval). lia. Qed.

(** A bucket that was last updated at the start of refill interval [q]. *)
Definition bucketIn bk q : Prop := lastUpdate bk = interval * q ∧ - overdraft <= cur bk <= max.

Lemma bucketIn_new now : bucketIn (mkBucket max (Truncate now interval)) (now / interval).
Proof. split; cbn; [apply Truncate_spec|lia]. Qed.

(** The tokens that [d] intervals bring: fewer than [d] if the time between saturates. *)
Lemma tokens_bound d : 0 <= d → ∃ x, quot64 (Z.max (Z.min maxInt64 (interval * d)) 0) interval = Ok x ∧ 0 <= x <= d ∧ x <= maxInt64.
Proof.
  intros Hd. unfold quot64. rewrite (proj2 (Z.eqb_neq _ _)) by lia. set (a := Z.max _ 0).
  assert (0 <= a <= maxInt64 ∧ a <= interval * d) as [Ha Had] by (unfold a, maxInt64 in *; nia).
  assert (0 <= Z.quot a interval <= a) as Hq.
  { split; [apply Z.quot_pos; lia|]. rewrite Z.quot_div_nonneg by lia. apply Z.div_le_upper_bound; nia. }
  rewrite int64_id by (unfold minInt64; lia). eexists. split; [done|]. split; [|lia]. split; [lia|].
  rewrite Z.quot_div_nonneg by lia. apply Z.div_le_upper_bound; lia.
Qed.

(** [updateBucketLocked] on a bucket without tokens. *)
Lemma refill_spec bk q now :
  bucketIn bk q → cur bk <= 0 →
  ∃ bk', refill interval max bk now = Ok bk' ∧ bucketIn bk' (Z.max q (now / interval)) ∧
    cur bk <= cur bk' <= cur bk + Z.max 0 (now / interval - q).
Proof.
  intros [Hq Hc] H0. unfold refill. rewrite Truncate_spec, Hq. destruct (Z.ltb_spec (interval * (now / interval)) (interval * q)) as [Hlt|Hge].
  - assert (now / interval < q) by nia. exists bk. rewrite Z.max_l by lia. split; [done|]. split; [done|]. lia.
  - assert (q <= now / interval) as Hle by nia. unfold Sub. rewrite <- Z.mul_sub_distr_l.
    rewrite (Z.max_r minInt64) by (unfold minInt64, maxInt64; nia).
    destruct (tokens_bound (now / interval - q)) as (x & -> & Hx & Hx2); [lia|]. cbn.
    rewrite int64_id by (unfold minInt64, maxInt64 in *; lia).
    eexists. split; [done|]. rewrite Z.max_r by lia. cbn. split; [split; cbn; [done|lia]|lia].
Qed.

(** One request: it is let through only for a token, and the bucket stays within its limits. *)
Lemma charge_spec bk q now :
  bucketIn bk q →
  ∃ bk' ok q', charge interval max overdraft bk now = Ok (bk', ok) ∧ bucketIn bk' q' ∧ q <= q' <= Z.max q (now / interval) ∧
    (if ok : bool then 1 else 0) + Z.max 0 (cur bk') <= Z.max 0 (cur bk) + (q' - q) ∧
    (ok = false → cur bk' <= Z.max (- overdraft) (-1) ∧ now / interval <= q') ∧
    (cur bk + Z.max 0 (now / interval - q) <= 0 → ok = false).
Proof.
  intros Hbk. unfold charge. destruct (Z.leb_spec (cur bk) 0) as [Hle|Hgt].
  - destruct (refill_spec bk q now Hbk Hle) as (bk1 & -> & [Hq1 Hc1] & Hcur). cbn.
    rewrite int64_id by (unfold minInt64, maxInt64 in *; lia).
    eexists _, _, (Z.max q (now / interval)). split; [done|]. destruct (Z.ltb_spec (- overdraft) (cur bk1)) as [Hod1|Hod1].
    + rewrite int64_id by (unfold minInt64, maxInt64 in *; lia). cbn [cur]. destruct (Z.ltb_spec 0 (cur bk1)).
      * split_and!; [split; cbn; [done|lia]|lia|lia|lia|done|lia].
      * split_and!; [split; cbn; [done|lia]|lia|lia|lia|intros _; split; lia|done].
    + destruct (Z.ltb_spec 0 (cur bk1)); [lia|]. split_and!; [done..|lia|lia|lia|intros _; split; lia|done].
  - cbn. destruct Hbk as [Hq Hc]. rewrite int64_id by (unfold minInt64, maxInt64 in *; lia).
    eexists _, _, q. split; [done|]. rewrite (proj2 (Z.ltb_lt (- overdraft) (cur bk))) by lia.
    rewrite int64_id by (unfold minInt64, maxInt64 in *; lia). rewrite (proj2 (Z.ltb_lt 0 (cur bk))) by lia. cbn.
    split_and!; [split; cbn; [done|lia]|lia|lia|lia|done|lia].
Qed.

(** A request that finds no tokens: what the bucket then has was credited by this request,
    and is at most [max]. *)
Lemma charge_empty bk q now :
  bucketIn bk q → cur bk <= 0 →
  ∃ bk' ok q', charge interval max overdraft bk now = Ok (bk', ok) ∧ bucketIn bk' q' ∧ q <= q' ∧ now / interval <= q' ∧
    (if ok : bool then 1 else 0) + Z.max 0 (cur bk') <= max.
Proof.
  intros Hbk Hle. unfold charge. rewrite (proj2 (Z.leb_le _ _)) by done.
  destruct (refill_spec bk q now Hbk Hle) as (bk1 & -> & [Hq1 Hc1] & _). cbn.
  rewrite int64_id by (unfold minInt64, maxInt64 in *; lia).
  eexists _, _, (Z.max q (now / interval)). split; [done|].
  destruct (Z.ltb_spec (- overdraft) (cur bk1)), (Z.ltb_spec 0 (cur bk1)); rewrite ?int64_id by (unfold minInt64, maxInt64 in *; lia);
    cbn [cur]; split_and!; try lia; split; cbn; done || lia.
Qed.

(** A request always leaves room for a token. *)
Lemma charge_room bk q now bk' ok :
  bucketIn bk q → charge interval max overdraft bk now = Ok (bk', ok) → cur bk' <= Z.max 0 (max - 1).
Proof.
  intros Hbk Hch. unfold charge in Hch. apply bind_Ok in Hch as (bk1 & H1 & Hch). injection Hch as <- _.
  assert (- overdraft <= cur bk1 <= max) as Hc1.
  { destruct (Z.leb_spec (cur bk) 0); [|injection H1 as <-; apply Hbk].
    destruct (refill_spec bk q now Hbk) as (b & Hb & [_ ?] & _); [done|]. rewrite H1 in Hb. by injection Hb as <-. }
  rewrite int64_id by (unfold minInt64, maxInt64 in *; lia).
  destruct (Z.ltb_spec (- overdraft) (cur bk1)); cbn [cur]; [|lia].
  rewrite int64_id by (unfold minInt64, maxInt64 in *; lia). lia.
Qed.

Definition granted (oks : list bool) : Z := Z.of_nat (length (filter (λ ok, ok = true) oks)).

Lemma granted_cons ok oks : granted (ok :: oks) = (if ok : bool then 1 else 0) + granted oks.
Proof. unfold granted. rewrite filter_cons. destruct ok; cbn [length decide]; [rewrite decide_True by done|rewrite decide_False by done]; cbn [length]; lia. Qed.

Lemma bucketRun_bound ts bk q t1 oks :
  bucketIn bk q → Forall (λ t, t <= t1) ts →
  bucketRun max interval overdraft (Some bk) ts = Ok oks →
  granted oks <= Z.max 0 (cur bk) + Z.max 0 (t1 / interval - q).
Proof.
  revert bk q oks. induction ts as [|now ts IH]; intros bk q oks Hbk Ht Hrun; cbn in Hrun.
  { injection Hrun as <-. unfold granted. cbn. lia. }
  destruct (charge_spec bk q now Hbk) as (bk' & ok & q' & Hch & Hbk' & Hq & Hn & _). rewrite Hch in Hrun. cbn in Hrun.
  apply bind_Ok in Hrun as (oks' & Hrun & [= <-]). apply Forall_cons in Ht as [Ht Hts].
  specialize (IH bk' q' oks' Hbk' Hts Hrun). rewrite granted_cons.
  assert (now / interval <= t1 / interval) by (apply Z.div_le_mono; lia). lia.
Qed.

(** A bucket that may have been idle: the tokens of the time before are credited once,
    up to [max], when it runs out. *)
Lemma bucketRun_window ts bk q t0 t1 oks :
  bucketIn bk q → Forall (λ t, t0 <= t <= t1) ts → t0 <= t1 →
  bucketRun max interval overdraft (Some bk) ts = Ok oks →
  granted oks <= Z.max 0 (cur bk) + max + (t1 / interval - t0 / interval).
Proof.
  intros Hbk Ht Hle. assert (t0 / interval <= t1 / interval) by (apply Z.div_le_mono; lia).
  revert bk q oks Hbk. induction ts as [|now ts IH]; intros bk q oks Hbk Hrun; cbn in Hrun.
  { injection Hrun as <-. unfold granted. cbn. lia. }
  apply Forall_cons in Ht as [Hnow Hts].
  assert (t0 / interval <= now / interval <= t1 / interval) by (split; apply Z.div_le_mono; lia).
  destruct (Z.le_gt_cases (cur bk) 0) as [Hc|Hc].
  - destruct (charge_empty bk q now Hbk Hc) as (bk' & ok & q' & Hch & Hbk' & Hq & Hq' & Hn). rewrite Hch in Hrun. cbn in Hrun.
    apply bind_Ok in Hrun as (oks' & Hrun & [= <-]). rewrite granted_cons.
    eapply (bucketRun_bound ts bk' q' t1) in Hrun; [|done|eapply Forall_impl; [exact Hts|]; cbn; lia]. lia.
  - destruct (charge_spec bk q now Hbk) as (bk' & ok & q' & Hch & Hbk' & _ & _ & _). pose proof Hch as Hch2. rewrite Hch in Hrun.
    cbn in Hrun. apply bind_Ok in Hrun as (oks' & Hrun & [= <-]). rewrite granted_cons.
    unfold charge in Hch2. rewrite (proj2 (Z.leb_gt _ _)) in Hch2 by done. cbn in Hch2. destruct Hbk as [_ Hin].
    rewrite int64_id in Hch2 by (unfold minInt64, maxInt64 in *; lia). rewrite (proj2 (Z.ltb_lt (- overdraft) (cur bk))) in Hch2 by lia.
    injection Hch2 as <- <-. cbn in *. rewrite int64_id in * by (unfold minInt64, maxInt64 in *; lia).
    specialize (IH Hts _ q' oks' Hbk' Hrun). cbn in IH. rewrite (proj2 (Z.ltb_lt 0 (cur bk))) by done. lia.
Qed.

(** The bucket of a new key. *)
Lemma bucketRun_fresh ts t0 t1 oks :
  Forall (λ t, t0 <= t <= t1) ts → t0 <= t1 → bucketRun max interval overdraft None ts = Ok oks →
  granted oks <= max + (t1 / interval - t0 / interval).
Proof.
  intros Ht Hle Hrun. assert (t0 / interval <= t1 / interval) by (apply Z.div_le_mono; lia).
  destruct ts as [|now ts]; [injection Hrun as <-; unfold granted; cbn; lia|].
  change (bucketRun max interval overdraft (Some (mkBucket max (Truncate now interval))) (now :: ts) = Ok oks) in Hrun.
  eapply (bucketRun_bound (now :: ts) _ (now / interval) t1) in Hrun;
    [|by apply bucketIn_new|eapply Forall_impl; [exact Ht|]; cbn; lia].
  apply Forall_cons in Ht as [Hnow _]. assert (t0 / interval <= now / interval <= t1 / interval)
    by (split; apply Z.div_le_mono; lia). cbn in Hrun. lia.
Qed.

(** Requests that follow each other by at most one refill interval. *)
Fixpoint hammering t ts : bool :=
  match ts with
  | [] => true
  | u :: ts => (t <=? u) && (u / interval <=? t / interval + 1) && hammering u ts
  end.

Lemma bucketRun_cooldown ts bk q t oks :
  1 <= overdraft → bucketIn bk q → cur bk <= -1 → t / interval <= q → hammering t ts = true →
  bucketRun max interval overdraft (Some bk) ts = Ok oks → granted oks = 0.
Proof.
  intros Ho. revert bk q t oks. induction ts as [|now ts IH]; intros bk q t oks Hbk Hc Hq Ht Hrun; cbn in Hrun.
  { by injection Hrun as <-. }
  cbn in Ht. apply andb_true_iff in Ht as [Ht Hts]. apply andb_true_iff in Ht as [Ht1 Ht2].
  apply Z.leb_le in Ht1, Ht2.
  destruct (charge_spec bk q now Hbk) as (bk' & ok & q' & Hch & Hbk' & Hq' & _ & Hd & Hfree). rewrite Hch in Hrun. cbn in Hrun.
  apply bind_Ok in Hrun as (oks' & Hrun & [= <-]). rewrite Hfree by lia. destruct (Hd (Hfree ltac:(lia))) as [Hc' Hq''].
  rewrite granted_cons. rewrite (IH bk' q' now oks'); [lia|done|lia|lia|done|done].
Qed.

End Bucket.

Section Theorems.
Context {K : Type} `{Countable K}.
Implicit Types (k : K) (now t : Z) (reqs : list (K * Z)) (oks : list bool).

(** The requests of one key only. *)
Definition requestsOf k reqs : list (K * Z) := filter (λ r, r.1 = k) reqs.

Lemma timesOf_requestsOf k reqs : timesOf k (requestsOf k reqs) = timesOf k reqs.
Proof. unfold timesOf, requestsOf. by rewrite list_filter_filter_l by done. Qed.

Lemma answersOf_requestsOf k reqs oks :
  length oks = length (requestsOf k reqs) → answersOf k (requestsOf k reqs) oks = oks.
Proof.
  unfold requestsOf. revert oks. induction reqs as [|[k' t] reqs IH]; intros oks; rewrite ?filter_nil, ?filter_cons; cbn [fst].
  - by destruct oks.
  - destruct (decide (k' = k)) as [->|]; [|apply IH]. destruct oks as [|ok oks]; [done|]. intros [= Hl]. cbn.
    rewrite decide_True by done. by rewrite IH.
Qed.

Lemma allowAll_length reqs (lm lm' : Limiter K) oks : allowAll reqs lm = (lm', Ok oks) → length oks = length reqs.
Proof.
  revert lm oks. induction reqs as [|[k t] reqs IH]; intros lm oks Hrun; cbn in Hrun.
  - by injection Hrun as _ <-.
  - apply stM_bind_Ok in Hrun as (lm1 & ok & _ & Hrun). apply stM_bind_Ok in Hrun as (lm2 & oks' & Hrun & Heq).
    injection Heq as -> <-. cbn. by rewrite (IH _ _ Hrun).
Qed.

Lemma fits_requestsOf size k reqs : fits size reqs.*1 → fits size (requestsOf k reqs).*1.
Proof.
  intros [?|Hf]; [by left|right]. etransitivity; [|exact Hf]. apply inj_le, subseteq_size.
  unfold requestsOf. intros x. rewrite !elem_of_list_to_set, !list_elem_of_fmap.
  intros (r & -> & [_ Hr]%list_elem_of_filter). eauto.
Qed.

(** While the keys in use fit in [Size], the limiter keeps a separate bucket for each of them:
    the answers it gives to the requests of a key, among the requests of any other keys in any order,
    are those a limiter gives that only ever sees that key. *)
Theorem limiter_isolates_keys (size max interval od : Z) reqs k :
  0 <= size → interval ≠ 0 → fits size reqs.*1 →
  ∃ lm oks lm', allowAll reqs (NewLimiter size max interval od) = (lm, Ok oks) ∧
    allowAll (requestsOf k reqs) (NewLimiter size max interval od) = (lm', Ok (answersOf k reqs oks)).
Proof.
  intros Hs Hi Hf. destruct (limiter_run size max interval od reqs k Hs Hi Hf) as (lm & oks & Hrun & Hb).
  destruct (limiter_run size max interval od (requestsOf k reqs) k Hs Hi (fits_requestsOf _ _ _ Hf)) as (lm' & oks' & Hrun' & Hb').
  rewrite timesOf_requestsOf, Hb in Hb'. injection Hb' as Hb'.
  rewrite answersOf_requestsOf in Hb' by (by eapply allowAll_length). exists lm, oks, lm'. by rewrite Hb'.
Qed.

(** Every bucket of a limiter is within its limits, with room for a token. *)
Lemma charge_bucketIn max interval od (bk : bucket) q now bk' ok :
  0 <= max <= maxInt64 → 0 < interval <= maxInt64 → 0 <= od <= maxInt64 →
  bucketIn max interval od bk q → charge interval max od bk now = Ok (bk', ok) →
  ∃ q', bucketIn max interval od bk' q' ∧ cur bk' <= Z.max 0 (max - 1).
Proof.
  intros Hm Hi Ho Hbk Hch. destruct (charge_spec max interval od Hm Hi Ho bk q now Hbk) as (b & o & q' & Hc & Hb & _).
  pose proof (charge_room max interval od Hm Hi Ho bk q now bk' ok Hbk Hch).
  rewrite Hc in Hch. injection Hch as <- <-. eauto.
Qed.

Definition allIn (lm : Limiter K) (M : list (K * bucket)) : Prop :=
  ∀ k bk, assoc k M = Some bk → ∃ q, bucketIn (Max lm) (RefillInterval lm) (Overdraft lm) bk q ∧ cur bk <= Z.max 0 (Max lm - 1).

Lemma allowAll_allIn (lm : Limiter K) M reqs ks :
  0 <= Size lm → 0 <= Max lm <= maxInt64 → 0 < RefillInterval lm <= maxInt64 → 0 <= Overdraft lm <= maxInt64 →
  tracks lm M → allIn lm M → fits (Size lm) (M.*1 ++ reqs.*1 ++ ks) →
  ∃ lm' M' oks, allowAll reqs lm = (lm', Ok oks) ∧ params lm' = params lm ∧ tracks lm' M' ∧ allIn lm' M' ∧
    fits (Size lm) (M'.*1 ++ ks) ∧ ∀ k, timesOf k reqs = [] → assoc k M' = assoc k M.
Proof.
  revert lm M. induction reqs as [|[k now] reqs IH]; intros lm M Hs Hm Hi Ho Ht Ha Hf; cbn [allowAll].
  { exists lm, M, []. by split_and!. }
  cbn in Hf. destruct (allow_tracks lm M k now (reqs.*1 ++ ks) Hs ltac:(lia) Ht Hf)
    as (lm1 & M1 & bk & ok & Hrun & Hp & Ht1 & Hf1 & Hch & HM1).
  pose proof Hp as Hp'. unfold params in Hp'. injection Hp' as HS HM HR HO.
  assert (allIn lm1 M1) as Ha1.
  { intros k' bk'. rewrite HM1. unfold allIn in Ha. rewrite HM, HR, HO. case_decide; [|apply Ha]. intros [= <-].
    unfold bucketOf in Hch. destruct (assoc k M) as [b0|] eqn:Eb; cbn in Hch.
    - destruct (Ha k b0 Eb) as (q & Hq & _). by eapply charge_bucketIn.
    - eapply charge_bucketIn; [..|exact Hch]; try done. by apply bucketIn_new. }
  destruct (IH lm1 M1) as (lm2 & M2 & oks & Hrun2 & Hp2 & Ht2 & Ha2 & Hf2 & Hno); rewrite ?HS, ?HM, ?HR, ?HO; try done.
  exists lm2, M2, (ok :: oks). split_and!; [|congruence|done|done|by rewrite <- HS|].
  - lru_step ltac:(exact Hrun). lru_step ltac:(exact Hrun2). done.
  - intros k'. unfold timesOf. rewrite filter_cons. cbn. case_decide as Hk; [done|]. intros Hn.
    by rewrite (Hno k' Hn), HM1, decide_False by congruence.
Qed.


(** The doc of [Limiter] has a key regain tokens "up to [Max]".  A key with ten tokens that asked
    once, and then not for a hundred intervals, is let through nineteen times at one instant. *)
Example idle_key_overruns_Max :
  (allowAll ((1%nat, 0) :: replicate 20 (1%nat, 1000)) (NewLimiter 1 10 10 0)).2 = Ok (replicate 20 true ++ [false]).
Proof. by vm_compute. Qed.

(** With an overdraft, a key that was turned away and keeps asking, each time within a refill
    interval of its last request, is not let through again: it has to stop to pay back its debt. *)
Theorem limiter_cools_down (size max interval od : Z) reqs1 k t reqs2 lm1 oks1 lm2 :
  0 <= size → 0 <= max <= maxInt64 → 0 < interval <= maxInt64 → 1 <= od <= maxInt64 →
  fits size (reqs1.*1 ++ k :: reqs2.*1) →
  allowAll reqs1 (NewLimiter size max interval od) = (lm1, Ok oks1) →
  allow k t lm1 = (lm2, Ok false) →
  hammering interval t (timesOf k reqs2) = true →
  ∃ lm3 oks2, allowAll reqs2 lm2 = (lm3, Ok oks2) ∧ granted (answersOf k reqs2 oks2) = 0.
Proof.
  intros Hs Hm Hi Ho Hf Hrun1 Hrun2 Hham.
  destruct (allowAll_allIn (NewLimiter size max interval od) [] reqs1 (k :: reqs2.*1) Hs Hm Hi ltac:(cbn; lia)
    (tracks_new _ _ _ _)) as (lm1' & M1 & oks1' & Hr1 & Hp1 & Ht1 & Ha1 & Hf1 & _); [done|done|].
  rewrite Hrun1 in Hr1. injection Hr1 as <- <-. unfold params in Hp1. injection Hp1 as HS HM HR HO. cbn in HS, HM, HR, HO, Hf1.
  destruct (allow_tracks lm1 M1 k t reqs2.*1) as (lm2' & M2 & bk & ok & Hr2 & Hp2 & Ht2 & Hf2 & Hch & HM2);
    [by rewrite HS|rewrite HR; lia|done|by rewrite HS|].
  rewrite Hrun2 in Hr2. injection Hr2 as <- <-. rewrite HS, HM, HR, HO in *.
  assert (∃ q, bucketIn max interval od (bucketOf interval max k t M1) q) as [q Hq].
  { unfold bucketOf. destruct (assoc k M1) as [b0|] eqn:Eb; cbn; [|exists (t / interval); by apply bucketIn_new; lia].
    destruct (Ha1 k b0 Eb) as (q & Hq & _). rewrite HM, HR, HO in Hq. eauto. }
  destruct (charge_spec max interval od Hm Hi ltac:(lia) _ q t Hq) as (bk' & ok' & q' & Hch' & Hq' & _ & _ & Hd & _).
  rewrite Hch in Hch'. injection Hch' as <- <-. destruct (Hd eq_refl) as [Hcur Hqt].
  unfold params in Hp2. injection Hp2 as HS2 HMx2 HR2 HO2.
  destruct (allowAll_tracks lm2 M2 reqs2 []) as (lm3 & M3 & oks2 & Hr3 & _ & _ & _ & Hall);
    [rewrite HS2, HS; lia|rewrite HR2, HR; lia|done|rewrite app_nil_r, HS2, HS; done|].
  exists lm3, oks2. split; [done|]. specialize (Hall k). rewrite HM2, decide_True, HMx2, HR2, HO2, HM, HR, HO in Hall by done.
  eapply (bucketRun_cooldown max interval od Hm Hi ltac:(lia) _ bk q' t); [lia|done|lia|done|exact Hham|exact Hall].
Qed.

(** The comment on [Limiter] calls the zero value a limiter that rejects all requests;
    it divides by its zero refill interval. *)
Lemma zero_limiter_panics k now : (allow k now (NewLimiter 0 0 0 0)).2 = Panic.
Proof.
  unfold allow. destruct (getBucketLocked_run (NewLimiter 0 0 0 0) [] k now) as (lm & b & Hrun & Hp & _ & _ & _ & Hb); [done| |].
  { destruct (tracks_new (K := K) 0 0 0 0) as (m & Hm & Hv & _). by destruct m. }
  unfold params in Hp. injection Hp as HS HM HR HO. cbn in HS, HM, HR, HO.
  erewrite stM_bind_run by exact Hrun. unfold allowBucketLocked. erewrite stM_bind_run by (by apply loadBucket_run). cbn.
  unfold updateBucketLocked, mbind, stM_bind, getS. cbn. rewrite (loadBucket_run _ _ _ Hb). unfold lift. rewrite HM, HR.
  unfold refill, Truncate. cbn. by rewrite Z.ltb_irrefl.
Qed.

End Theorems.

(** ** Witnesses: two keys, numbered 1 and 2 *)
Definition traffic : list (nat * Z) := [(1%nat, 5); (2%nat, 6); (1%nat, 7); (1%nat, 8); (2%nat, 31); (1%nat, 12)].

Lemma limiter_isolates_keys_witness :
  ∃ lm oks lm', allowAll traffic (NewLimiter 2 2 10 1) = (lm, Ok oks) ∧
    allowAll (requestsOf 1%nat traffic) (NewLimiter 2 2 10 1) = (lm', Ok (answersOf 1%nat traffic oks)).
Proof.
  apply (limiter_isolates_keys 2 2 10 1 traffic 1%nat); [lia|lia|]. right. vm_compute. discriminate.
Defined.

Definition later : list (nat * Z) := [(1%nat, 42); (2%nat, 43); (1%nat, 45); (1%nat, 51); (1%nat, 58)].


Lemma limiter_cools_down_witness :
  let burst := [(1%nat, 5); (1%nat, 6); (2%nat, 6)] in
  ∃ lm1 oks1 lm2, allowAll burst (NewLimiter 2 2 10 1) = (lm1, Ok oks1) ∧ allow 1%nat 7 lm1 = (lm2, Ok false) ∧
    ∃ lm3 oks2, allowAll [(1%nat, 12); (2%nat, 14); (1%nat, 20)] lm2 = (lm3, Ok oks2) ∧
      granted (answersOf 1%nat [(1%nat, 12); (2%nat, 14); (1%nat, 20)] oks2) = 0.
Proof.
  cbv zeta. destruct (allowAll [(1%nat, 5); (1%nat, 6); (2%nat, 6)] (NewLimiter 2 2 10 1)) as [lm1 r1] eqn:E1.
  assert (r1 = Ok [true; true; true]) as -> by (change r1 with (lm1, r1).2; rewrite <- E1; vm_compute; reflexivity).
  destruct (allow 1%nat 7 lm1) as [lm2 r2] eqn:E2.
  assert (r2 = Ok false) as ->.
  { change r2 with (lm2, r2).2. rewrite <- E2. change lm1 with (lm1, Ok [true; true; true]).1. rewrite <- E1. vm_compute. reflexivity. }
  exists lm1, [true; true; true], lm2. split; [reflexivity|]. split; [exact E2|].
  apply (limiter_cools_down 2 2 10 1 [(1%nat, 5); (1%nat, 6); (2%nat, 6)] 1%nat 7 [(1%nat, 12); (2%nat, 14); (1%nat, 20)] lm1 [true; true; true] lm2);
    try (unfold maxInt64; lia); [|exact E1|exact E2|vm_compute; reflexivity].
  right. vm_compute. discriminate.
Defined.
