(* ===== verification/Stun.v ===== *)
(** * net/stun: binding requests and responses

    [stun.go]: the STUN messages a node exchanges to learn its public address.
    [hash/crc32] is modelled bit by bit. *)
From S2P Require Import Prelude NetBuf NetAddr.

(** ** Constants *)
Definition attrNumSoftware : Z := 0x8022.
Definition attrNumFingerprint : Z := 0x8028.
Definition attrMappedAddress : Z := 0x0001.
Definition attrXorMappedAddress : Z := 0x0020.
Definition attrXorMappedAddressAlt : Z := 0x8020.
(** ["tailnode"] *)
Definition software : bytes := [0x74; 0x61; 0x69; 0x6c; 0x6e; 0x6f; 0x64; 0x65].
Definition bindingRequest : bytes := [0x00; 0x01].
Definition magicCookie : bytes := [0x21; 0x12; 0xa4; 0x42].
Definition lenFingerprint : Z := 8.
Definition headerLen : Z := 20.

Definition ErrNotSTUN : error := Errorf "response is not a STUN packet".
Definition ErrNotSuccessResponse : error := Errorf "STUN packet is not a response".
Definition ErrMalformedAttrs : error := Errorf "STUN response has malformed attributes".
Definition ErrNotBindingRequest : error := Errorf "STUN request not a binding request".
Definition ErrWrongSoftware : error := Errorf "STUN request came from non-Tailscale software".
Definition ErrNoFingerprint : error := Errorf "STUN request didn't end in fingerprint".
Definition ErrWrongFingerprint : error := Errorf "STUN request had bogus fingerprint".

(** [TxID{}], the zero transaction id *)
Definition zeroTxID : bytes := replicate 12 0.

(** ** [crc32.ChecksumIEEE] *)
Definition crcBit (c : Z) : Z :=
  if Z.testbit c 0 then Z.lxor (Z.shiftr c 1) 0xEDB88320 else Z.shiftr c 1.
Definition crcByte (c b : Z) : Z := Nat.iter 8 crcBit (Z.lxor c b).
Definition ChecksumIEEE (b : bytes) : Z := Z.lxor (fold_left crcByte b 0xFFFFFFFF) 0xFFFFFFFF.

(** ** Writing *)
Definition appendU16 (b : bytes) (v : Z) : bytes := b ++ be_bytes 2 v.
Definition appendU32 (b : bytes) (v : Z) : bytes := b ++ be_bytes 4 v.

Definition fingerPrint (b : bytes) : Z := Z.lxor (ChecksumIEEE b) 0x5354554e.

Definition Request (tID : bytes) : bytes :=
  let lenAttrSoftware := 4 + zlen software in
  let b := bindingRequest in
  let b := appendU16 b (u16 (lenAttrSoftware + lenFingerprint)) in
  let b := b ++ magicCookie in
  let b := b ++ tID in
  let b := appendU16 b attrNumSoftware in
  let b := appendU16 b (u16 (zlen software)) in
  let b := b ++ software in
  let fp := fingerPrint b in
  let b := appendU16 b attrNumFingerprint in
  let b := appendU16 b 4 in
  appendU32 b fp.

(** ** Reading *)
Definition Is (b : bytes) : bool :=
  (headerLen <=? zlen b) && (Z.land (byte_at b 0) 0xc0 =? 0) && bool_decide (take 4 (drop 4 b) = magicCookie).

(** [for len(b) > 0 { ... }], calling [fn] on the variables its closure captures. *)
Fixpoint foreachLoop {S} (fn : S → Z → bytes → res S) (fuel : nat) (b : bytes) (s : S) : res S :=
  match fuel with
  | O => NoFuel
  | Datatypes.S fuel =>
      if zlen b <=? 0 then mret s else
      if zlen b <? 4 then Err ErrMalformedAttrs else
      attrType ← Uint16 b 0;
      attrLen ← Uint16 b 2;
      let attrLenWithPad := Z.ldiff (attrLen + 3) 3 in
      b ← slice_from b 4;
      if zlen b <? attrLenWithPad then Err ErrMalformedAttrs else
      a ← slice b 0 attrLen;
      s ← fn s attrType a;
      b ← slice_from b attrLenWithPad;
      foreachLoop fn fuel b s
  end.

Definition foreachAttr {S} (fn : S → Z → bytes → res S) (b : bytes) (s : S) : res S :=
  foreachLoop fn (Datatypes.S (length b)) b s.

(** The variables [softwareOK], [lastAttr] and [gotFP], and the closure. *)
Definition requestAttr (s : bool * Z * Z) (attrType : Z) (a : bytes) : res (bool * Z * Z) :=
  let '(softwareOK, _, gotFP) := s in
  let softwareOK := if (attrType =? attrNumSoftware) && bool_decide (a = software) then true else softwareOK in
  gotFP ← (if (attrType =? attrNumFingerprint) && (zlen a =? 4) then Uint32 a 0 else mret gotFP);
  mret (softwareOK, attrType, gotFP).

Definition ParseBindingRequest (b : bytes) : res bytes :=
  if negb (Is b) then Err ErrNotSTUN else
  kind ← slice b 0 (zlen bindingRequest);
  if negb (bool_decide (kind = bindingRequest)) then Err ErrNotBindingRequest else
  txID ← slice b 8 (8 + 12);
  attrs ← slice_from b headerLen;
  '(softwareOK, lastAttr, gotFP) ← foreachAttr requestAttr attrs (false, 0, 0);
  if negb softwareOK then Err ErrWrongSoftware else
  if negb (lastAttr =? attrNumFingerprint) then Err ErrNoFingerprint else
  signed ← slice b 0 (zlen b - lenFingerprint);
  if negb (gotFP =? fingerPrint signed) then Err ErrWrongFingerprint else
  mret txID.

(** [o ^ magicCookie[i]] for the first four bytes, then [o ^ txID[i-4]] *)
Definition xorAddress (txID b : bytes) : bytes := zip_with Z.lxor b (magicCookie ++ txID).

Definition Response (txID : bytes) (addrPort : AddrPort) : bytes :=
  let addr := ap_Addr addrPort in
  match (if Is4 addr then Some 1 else if Is6 addr then Some 2 else None) with
  | None => []
  | Some fam =>
      let attrsLen := 8 + BitLen addr / 8 in
      let b := [0x01; 0x01] in
      let b := appendU16 b (u16 attrsLen) in
      let b := b ++ magicCookie in
      let b := b ++ txID in
      let b := appendU16 b attrXorMappedAddress in
      let b := appendU16 b (u16 (4 + BitLen addr / 8)) in
      let b := b ++ [0; fam] in
      let b := appendU16 b (Z.lxor (ap_Port addrPort) 0x2112) in
      b ++ xorAddress txID (drop (Z.to_nat (16 - BitLen addr / 8)) (As16 addr))
  end.

Definition familyAddrLen (fam : Z) : Z := if fam =? 1 then 4 else if fam =? 2 then 16 else 0.

Definition xorMappedAddress (tID b : bytes) : res (bytes * Z) :=
  if zlen b <? 4 then Err ErrMalformedAttrs else
  xorPort ← Uint16 b 2;
  addrField ← slice_from b 4;
  let port := Z.lxor xorPort 0x2112 in
  fam ← idx b 1;
  let addrLen := familyAddrLen fam in
  if addrLen =? 0 then Err ErrMalformedAttrs else
  if zlen addrField <? addrLen then Err ErrMalformedAttrs else
  xorAddr ← slice addrField 0 addrLen;
  mret (xorAddress tID xorAddr, port).

Definition mappedAddress (b : bytes) : res (bytes * Z) :=
  if zlen b <? 4 then Err ErrMalformedAttrs else
  b2 ← idx b 2; b3 ← idx b 3;
  let port := Z.lor (u16 (Z.shiftl b2 8)) b3 in
  addrField ← slice_from b 4;
  fam ← idx b 1;
  let addrLen := familyAddrLen fam in
  if addrLen =? 0 then Err ErrMalformedAttrs else
  if zlen addrField <? addrLen then Err ErrMalformedAttrs else
  addr ← slice addrField 0 addrLen;
  mret (addr, port).

(** [netip.AddrFromSlice] *)
Definition AddrFromSlice (b : bytes) : option Addr :=
  if zlen b =? 4 then Some (AddrFrom4 b) else if zlen b =? 16 then Some (AddrFrom16 b) else None.

Definition AddrPort_IsValid (ap : AddrPort) : bool := negb (bool_decide (ap_Addr ap = AddrZero)).

(** [if ip, ok := netip.AddrFromSlice(ipSlice); ok { v = netip.AddrPortFrom(ip.Unmap(), port) }] *)
Definition setAddr (v : AddrPort) (r : bytes * Z) : AddrPort :=
  match AddrFromSlice r.1 with Some ip => AddrPortFrom (Unmap ip) r.2 | None => v end.

(** The variables [addr] and [fallbackAddr], and the closure. *)
Definition responseAttr (tID : bytes) (s : AddrPort * AddrPort) (attrType : Z) (attr : bytes) : res (AddrPort * AddrPort) :=
  let '(addr, fallbackAddr) := s in
  if (attrType =? attrXorMappedAddress) || (attrType =? attrXorMappedAddressAlt) then
    r ← xorMappedAddress tID attr; mret (setAddr addr r, fallbackAddr)
  else if attrType =? attrMappedAddress then
    match mappedAddress attr with
    | Err _ => Err ErrMalformedAttrs
    | r => r ← r; mret (addr, setAddr fallbackAddr r)
    end
  else mret (addr, fallbackAddr).

(** The three results: the transaction id is also returned with most errors. *)
Definition ParseResponse (b : bytes) : res (bytes * AddrPort * option error) :=
  if negb (Is b) then mret (zeroTxID, zeroAddrPort, Some ErrNotSTUN) else
  tID ← slice b 8 (8 + 12);
  b0 ← idx b 0; b1 ← idx b 1;
  if negb (b0 =? 0x01) || negb (b1 =? 0x01) then mret (tID, zeroAddrPort, Some ErrNotSuccessResponse) else
  attrsLen ← Uint16 b 2;
  b ← slice_from b headerLen;
  if zlen b <? attrsLen then mret (tID, zeroAddrPort, Some ErrMalformedAttrs) else
  b ← (if attrsLen <? zlen b then slice b 0 attrsLen else mret b);
  match foreachAttr (responseAttr tID) b (zeroAddrPort, zeroAddrPort) with
  | Err e => mret (zeroTxID, zeroAddrPort, Some e)
  | r =>
      '(addr, fallbackAddr) ← r;
      if AddrPort_IsValid addr then mret (tID, addr, None) else
      if AddrPort_IsValid fallbackAddr then mret (tID, fallbackAddr, None) else
      mret (tID, zeroAddrPort, Some ErrMalformedAttrs)
  end.

(** ** The checksum is a 32-bit number *)
Lemma lxor_bound n a b : 0 <= n → 0 <= a < 2 ^ n → 0 <= b < 2 ^ n → 0 <= Z.lxor a b < 2 ^ n.
Proof.
  intros Hn Ha Hb. split; [apply Z.lxor_nonneg; lia|].
  destruct (Z.eq_dec (Z.lxor a b) 0) as [->|Hne]; [lia|].
  assert (0 <= Z.lxor a b) by (apply Z.lxor_nonneg; lia).
  apply Z.log2_lt_pow2; [lia|]. eapply Z.le_lt_trans; [apply Z.log2_lxor; lia|].
  destruct (Z.eq_dec n 0) as [->|]; [assert (a = 0 ∧ b = 0) as [-> ->] by lia; done|].
  assert (∀ x, 0 <= x < 2 ^ n → Z.log2 x < n) as Hlog.
  { intros x Hx. destruct (Z.eq_dec x 0) as [->|]; [cbn; lia|]. apply Z.log2_lt_pow2; lia. }
  pose proof (Hlog a Ha). pose proof (Hlog b Hb). lia.
Qed.

Lemma crcBit_bound c : 0 <= c < 2 ^ 32 → 0 <= crcBit c < 2 ^ 32.
Proof.
  intros Hc. unfold crcBit. assert (0 <= Z.shiftr c 1 < 2 ^ 32) as Hs.
  { rewrite Z.shiftr_div_pow2 by lia. change (2 ^ 1) with 2. split; [apply Z.div_pos; lia|]. apply Z.div_lt_upper_bound; lia. }
  destruct (Z.testbit c 0); [|done]. by apply lxor_bound.
Qed.

Lemma crcByte_bound c b : 0 <= c < 2 ^ 32 → is_byte b → 0 <= crcByte c b < 2 ^ 32.
Proof.
  intros Hc Hb. unfold crcByte. assert (0 <= Z.lxor c b < 2 ^ 32) as Hx by (apply lxor_bound; unfold is_byte in Hb; lia).
  revert Hx. generalize (Z.lxor c b). generalize 8%nat. induction n as [|n IH]; intros x Hx; [done|].
  cbn [Nat.iter nat_rect]. apply crcBit_bound. by apply IH.
Qed.

Lemma fingerPrint_bound b : Forall is_byte b → 0 <= fingerPrint b < 2 ^ 32.
Proof.
  intros Hb. unfold fingerPrint, ChecksumIEEE. apply lxor_bound; [lia| |lia]. apply lxor_bound; [lia| |lia].
  assert (0 <= 0xFFFFFFFF < 2 ^ 32) as H0 by lia. revert H0. generalize 0xFFFFFFFF.
  induction Hb as [|x b Hx Hb IH]; intros c Hc; cbn [fold_left]; [done|]. apply IH. by apply crcByte_bound.
Qed.

(** ** The parsers return *)
Lemma land_ldiff_bound n : 0 <= n → n <= Z.ldiff (n + 3) 3.
Proof.
  intros Hn. change 3 with (Z.ones 2) at 2. rewrite Z.ldiff_ones_r by lia. rewrite Z.shiftl_mul_pow2, Z.shiftr_div_pow2 by lia.
  change (2 ^ 2) with 4. pose proof (Z.div_mod (n + 3) 4 ltac:(lia)). pose proof (Z.mod_pos_bound (n + 3) 4). lia.
Qed.

Lemma foreachLoop_returns {S} (fn : S → Z → bytes → res S) fuel b s :
  (∀ s t a, Forall is_byte a → returns (fn s t a)) → Forall is_byte b → (length b < fuel)%nat →
  returns (foreachLoop fn fuel b s).
Proof.
  intros Hfn. revert b s. induction fuel as [|fuel IH]; intros b s Hb Hf; [lia|]. cbn [foreachLoop].
  destruct (Z.leb_spec (zlen b) 0); [by split|]. destruct (Z.ltb_spec (zlen b) 4); [by split|].
  rewrite !Uint16_Ok by lia. cbn [mbind res_bind]. rewrite slice_from_Ok by lia. cbn [mbind res_bind].
  pose proof (be_at_bound 2 b 2 Hb ltac:(lia) ltac:(lia)) as Hl. pose proof (land_ldiff_bound (be_at 2 b 2) ltac:(lia)).
  set (b' := drop (Z.to_nat 4) b). assert (Forall is_byte b') as Hb' by (by apply Forall_drop).
  destruct (Z.ltb_spec (zlen b') (Z.ldiff (be_at 2 b 2 + 3) 3)); [by split|].
  rewrite slice_Ok by lia. cbn [mbind res_bind]. apply returns_bind; [apply Hfn; by apply Forall_take, Forall_drop|].
  intros s' _. rewrite slice_from_Ok by lia. cbn [mbind res_bind]. apply IH; [by apply Forall_drop|].
  unfold b'. rewrite !length_drop. unfold zlen in *. lia.
Qed.

Lemma requestAttr_returns s t a : returns (requestAttr s t a).
Proof.
  unfold requestAttr. destruct s as [[? ?] ?]. destruct (_ && (zlen a =? 4)) eqn:E; [|by split].
  apply andb_true_iff in E as [_ E]. apply Z.eqb_eq in E. rewrite Uint32_Ok by lia. by split.
Qed.

Lemma Is_length b : Is b = true → 20 <= zlen b.
Proof. unfold Is, headerLen. intros [[H _]%andb_true_iff _]%andb_true_iff. by apply Z.leb_le. Qed.

Lemma ParseBindingRequest_returns b : Forall is_byte b → returns (ParseBindingRequest b).
Proof.
  intros Hb. unfold ParseBindingRequest. destruct (Is b) eqn:Eis; cbn [negb]; [|by split]. apply Is_length in Eis.
  change (zlen bindingRequest) with 2. rewrite (slice_Ok b 0 2) by lia. cbn [mbind res_bind].
  destruct (negb _); [by split|]. rewrite (slice_Ok b 8 (8 + 12)) by lia. cbn [mbind res_bind].
  rewrite slice_from_Ok by (unfold headerLen; lia). cbn [mbind res_bind].
  apply returns_bind; [apply foreachLoop_returns; [intros; apply requestAttr_returns|by apply Forall_drop|lia]|].
  intros [[ok last] fp] _. destruct (negb ok); [by split|]. destruct (negb _); [by split|].
  rewrite slice_Ok by (unfold lenFingerprint; lia). cbn [mbind res_bind]. destruct (negb _); by split.
Qed.

Lemma familyAddrLen_nonneg f : 0 <= familyAddrLen f.
Proof. unfold familyAddrLen. repeat case_match; lia. Qed.

Lemma xorMappedAddress_returns t a : returns (xorMappedAddress t a).
Proof.
  unfold xorMappedAddress. destruct (Z.ltb_spec (zlen a) 4); [by split|]. rewrite Uint16_Ok by lia. cbn [mbind res_bind].
  rewrite slice_from_Ok by lia. cbn [mbind res_bind]. rewrite idx_at by lia. cbn [mbind res_bind].
  destruct (_ =? 0); [by split|]. destruct (Z.ltb_spec (zlen (drop (Z.to_nat 4) a)) (familyAddrLen (byte_at a 1))); [by split|].
  rewrite slice_Ok by (pose proof (familyAddrLen_nonneg (byte_at a 1)); lia). by split.
Qed.

Lemma mappedAddress_returns a : returns (mappedAddress a).
Proof.
  unfold mappedAddress. destruct (Z.ltb_spec (zlen a) 4); [by split|]. rewrite !idx_at by lia. cbn [mbind res_bind].
  rewrite slice_from_Ok by lia. cbn [mbind res_bind].
  destruct (_ =? 0); [by split|]. destruct (Z.ltb_spec (zlen (drop (Z.to_nat 4) a)) (familyAddrLen (byte_at a 1))); [by split|].
  rewrite slice_Ok by (pose proof (familyAddrLen_nonneg (byte_at a 1)); lia). by split.
Qed.

Lemma responseAttr_returns t s ty a : returns (responseAttr t s ty a).
Proof.
  unfold responseAttr. destruct s as [addr fb]. destruct (_ || _).
  - apply returns_bind; [apply xorMappedAddress_returns|]. by split.
  - destruct (_ =? _); [|by split]. pose proof (mappedAddress_returns a) as [? ?]. destruct (mappedAddress a); by split.
Qed.

Lemma ParseResponse_returns b : Forall is_byte b → returns (ParseResponse b).
Proof.
  intros Hb. unfold ParseResponse. destruct (Is b) eqn:Eis; cbn [negb]; [|by split]. apply Is_length in Eis.
  rewrite (slice_Ok b 8 (8 + 12)) by lia. cbn [mbind res_bind]. rewrite !idx_at by lia. cbn [mbind res_bind].
  destruct (_ || _); [by split|]. rewrite Uint16_Ok by lia. cbn [mbind res_bind].
  rewrite slice_from_Ok by (unfold headerLen; lia). cbn [mbind res_bind]. set (b' := drop _ b).
  assert (Forall is_byte b') as Hb' by (by apply Forall_drop).
  pose proof (be_at_bound 2 b 2 Hb ltac:(lia) ltac:(lia)).
  destruct (Z.ltb_spec (zlen b') (be_at 2 b 2)); [by split|]. apply returns_bind.
  { destruct (Z.ltb_spec (be_at 2 b 2) (zlen b')); [|by split]. by rewrite slice_Ok by lia. }
  intros b2 E2. assert (Forall is_byte b2) as Hb2.
  { destruct (_ <? _) in E2; [|by injection E2 as <-]. rewrite slice_Ok in E2 by lia. injection E2 as <-. by apply Forall_take, Forall_drop. }
  set (t := take _ _). destruct (foreachLoop_returns (responseAttr t) (S (length b2)) b2 (zeroAddrPort, zeroAddrPort))
    as [H1 H2]; [intros; apply responseAttr_returns|done|lia|].
  unfold foreachAttr. destruct (foreachLoop _ _ _ _) as [[addr fb]| | |]; [|by split|done|done].
  cbn. repeat case_match; by split.
Qed.

(** The STUN parsers return on any packet, well-formed or not: neither reads out of bounds, and the
    loop over the attributes ends. *)
Theorem stun_parsers_return b : Forall is_byte b → returns (ParseBindingRequest b) ∧ returns (ParseResponse b).
Proof. intros Hb. split; [by apply ParseBindingRequest_returns|by apply ParseResponse_returns]. Qed.

Lemma stun_parsers_return_witness :
  let b := [1; 1; 0; 12] ++ magicCookie ++ replicate 12 7 ++ [0; 32; 0; 8; 0; 1; 0; 0; 1; 2] in
  returns (ParseBindingRequest b) ∧ returns (ParseResponse b).
Proof. apply stun_parsers_return. vm_compute. repeat constructor; discriminate. Defined.

(** ** Round trips *)
Lemma bytes12 (t : bytes) : length t = 12%nat →
  ∃ a b c d e f g h i j k l, t = [a; b; c; d; e; f; g; h; i; j; k; l].
Proof. intros H. do 12 (destruct t as [|? t]; [done|]). destruct t; [|done]. by repeat eexists. Qed.

(** One attribute of the list. *)
Lemma foreachLoop_attr {S} (fn : S → Z → bytes → res S) fuel t a rest s :
  0 <= t < 2 ^ 16 → zlen a < 2 ^ 16 → Z.ldiff (zlen a + 3) 3 = zlen a →
  foreachLoop fn (Datatypes.S fuel) (be_bytes 2 t ++ be_bytes 2 (zlen a) ++ a ++ rest) s =
  (fn s t a ≫= foreachLoop fn fuel rest).
Proof.
  intros Ht Ha Hpad. set (b := be_bytes 2 t ++ _). pose proof (zlen_nonneg a). pose proof (zlen_nonneg rest).
  assert (zlen b = 4 + zlen a + zlen rest) as Hlen.
  { unfold b, zlen. rewrite !length_app, !be_bytes_length. lia. }
  cbn [foreachLoop]. rewrite (proj2 (Z.leb_gt _ _)), (proj2 (Z.ltb_ge _ _)) by lia. rewrite !Uint16_Ok by lia. cbn [mbind res_bind].
  assert (be_at 2 b 0 = t) as ->.
  { unfold be_at, b. change (Z.to_nat 0) with 0%nat. rewrite drop_0. rewrite take_app_length' by (by rewrite be_bytes_length). apply be_val_bytes_id. done. }
  assert (be_at 2 b 2 = zlen a) as ->.
  { unfold be_at, b. change (Z.to_nat 2) with 2%nat. rewrite drop_app_length' by (by rewrite be_bytes_length).
    rewrite take_app_length' by (by rewrite be_bytes_length). apply be_val_bytes_id. lia. }
  rewrite slice_from_Ok by lia. cbn [mbind res_bind]. rewrite Hpad.
  assert (drop (Z.to_nat 4) b = a ++ rest) as ->.
  { unfold b. rewrite app_assoc. change (Z.to_nat 4) with 4%nat. apply drop_app_length'. by rewrite length_app, !be_bytes_length. }
  assert (zlen (a ++ rest) = zlen a + zlen rest) as Har by (unfold zlen; rewrite length_app; lia).
  rewrite (proj2 (Z.ltb_ge _ _)) by lia. rewrite slice_Ok by lia. cbn [mbind res_bind].
  change (Z.to_nat 0) with 0%nat. rewrite drop_0, Nat.sub_0_r.
  assert (Z.to_nat (zlen a) = length a) as -> by (unfold zlen; lia). rewrite take_app_length.
  destruct (fn s t a); cbn; [|done..]. rewrite slice_from_Ok by lia. cbn [mbind res_bind].
  assert (Z.to_nat (zlen a) = length a) as -> by (unfold zlen; lia). by rewrite drop_app_length.
Qed.

Lemma foreachLoop_end {S} (fn : S → Z → bytes → res S) fuel s : foreachLoop fn (Datatypes.S fuel) [] s = Ok s.
Proof. done. Qed.

Lemma Request_shape tID :
  Request tID =
  (bindingRequest ++ be_bytes 2 20 ++ magicCookie ++ tID) ++
  (be_bytes 2 attrNumSoftware ++ be_bytes 2 (zlen software) ++ software ++
   be_bytes 2 attrNumFingerprint ++ be_bytes 2 4 ++
   be_bytes 4 (fingerPrint ((bindingRequest ++ be_bytes 2 20 ++ magicCookie ++ tID) ++
                            be_bytes 2 attrNumSoftware ++ be_bytes 2 (zlen software) ++ software)) ++ []).
Proof.
  unfold Request, appendU16, appendU32. rewrite app_nil_r. repeat rewrite <- app_assoc.
  change (u16 (4 + zlen software + lenFingerprint)) with 20. change (u16 (zlen software)) with (zlen software). done.
Qed.

(** What the header of a message with the magic cookie reads as. *)
Lemma header_spec k0 k1 len tID rest :
  is_byte k0 → Z.land k0 0xc0 = 0 → length tID = 12%nat →
  let b := ([k0; k1] ++ be_bytes 2 len ++ magicCookie ++ tID) ++ rest in
  zlen b = 20 + zlen rest ∧ Is b = true ∧ slice b 8 (8 + 12) = Ok tID ∧ slice_from b headerLen = Ok rest ∧
  idx b 0 = Ok k0 ∧ idx b 1 = Ok k1 ∧ slice b 0 2 = Ok [k0; k1] ∧ Uint16 b 2 = Ok (len mod 2 ^ 16).
Proof.
  intros Hk Hland HtID b. pose proof (zlen_nonneg rest).
  assert (∃ x y, be_bytes 2 len = [x; y] ∧ be_val [x; y] = len mod 2 ^ 16) as (x & y & Hxy & Hval).
  { exists (len / 256 mod 256), (len mod 256). split; [done|]. exact (be_val_bytes 2 len). }
  destruct (bytes12 tID HtID) as (a1&a2&a3&a4&a5&a6&a7&a8&a9&a10&a11&a12&->).
  unfold b. rewrite Hxy. assert (∀ l, zlen (([k0; k1] ++ [x; y] ++ magicCookie ++ [a1;a2;a3;a4;a5;a6;a7;a8;a9;a10;a11;a12]) ++ l)
    = 20 + zlen l) as Hl by (intros l; unfold zlen; rewrite length_app; cbn; lia).
  split; [apply Hl|]. split; [|split_and!; try done].
  - unfold Is. rewrite Hl. unfold headerLen. rewrite (proj2 (Z.leb_le _ _)) by lia.
    change (byte_at _ 0) with k0. rewrite Hland. done.
  - unfold Uint16. rewrite slice_from_Ok by (rewrite Hl; lia). cbn. by rewrite <- Hval.
Qed.

(** The attributes of a request, as the closure sees them. *)
Lemma request_attrs fp :
  0 <= fp < 2 ^ 32 →
  foreachAttr requestAttr (be_bytes 2 attrNumSoftware ++ be_bytes 2 (zlen software) ++ software ++
    be_bytes 2 attrNumFingerprint ++ be_bytes 2 4 ++ be_bytes 4 fp ++ []) (false, 0, 0) =
  Ok (true, attrNumFingerprint, fp).
Proof.
  intros Hfp. assert (zlen (be_bytes 4 fp) = 4) as H4 by (unfold zlen; by rewrite be_bytes_length).
  unfold foreachAttr. set (n := length _). assert (n = 20%nat) as ->.
  { unfold n. rewrite !length_app, !be_bytes_length. done. }
  rewrite foreachLoop_attr by (vm_compute; done).
  change (requestAttr (false, 0, 0) attrNumSoftware software) with (Ok (true, attrNumSoftware, 0)). cbn [mbind res_bind].
  assert (be_bytes 2 4 = be_bytes 2 (zlen (be_bytes 4 fp))) as -> by (by rewrite H4).
  rewrite foreachLoop_attr; [|done|rewrite H4; done|rewrite H4; done].
  unfold requestAttr. rewrite H4. cbn [Z.eqb andb attrNumFingerprint attrNumSoftware Pos.eqb].
  rewrite Uint32_Ok by (rewrite ?H4; lia). cbn [mbind res_bind mret res_ret]. rewrite foreachLoop_end. do 2 f_equal.
  unfold be_at. change (Z.to_nat 0) with 0%nat. rewrite drop_0, take_ge by (by rewrite be_bytes_length).
  by apply be_val_bytes_id.
Qed.

(** [ParseBindingRequest] accepts every request that [Request] builds and gives its transaction id
    back: the fingerprint it checks is the CRC-32 of what precedes it. *)
Theorem stun_request_roundtrip tID :
  length tID = 12%nat → Forall is_byte tID → ParseBindingRequest (Request tID) = Ok tID.
Proof.
  intros Hlen Hb. rewrite Request_shape. set (fp := fingerPrint _).
  assert (0 <= fp < 2 ^ 32) as Hfp.
  { apply fingerPrint_bound. rewrite !Forall_app. split_and!; try done; try apply be_bytes_byte; vm_compute; repeat constructor; discriminate. }
  set (attrs := be_bytes 2 attrNumSoftware ++ _).
  destruct (header_spec 0 1 20 tID attrs ltac:(done) eq_refl Hlen) as (Hl & HIs & Htx & Hat & _ & _ & Hk & _).
  change [0; 1] with bindingRequest in *. unfold ParseBindingRequest. rewrite HIs. cbn [negb]. change (zlen bindingRequest) with 2. rewrite Hk. cbn [mbind res_bind].
  rewrite bool_decide_true by done. cbn [negb]. rewrite Htx. cbn [mbind res_bind]. rewrite Hat. cbn [mbind res_bind].
  assert (foreachAttr requestAttr attrs (false, 0, 0) = Ok (true, attrNumFingerprint, fp)) as -> by exact (request_attrs fp Hfp).
  cbn [mbind res_bind negb].
  rewrite (proj2 (Z.eqb_eq _ _)) by done. cbn [negb]. rewrite Hl. change (zlen attrs) with 20. rewrite slice_Ok by (rewrite ?Hl; unfold lenFingerprint; change (zlen attrs) with 20; lia).
  cbn [mbind res_bind]. change (Z.to_nat (20 + 20 - lenFingerprint) - Z.to_nat 0)%nat with 32%nat. change (Z.to_nat 0) with 0%nat. rewrite drop_0.
  unfold attrs. assert (∀ A B C D E F : bytes, A ++ B ++ C ++ D ++ E ++ F = (A ++ B ++ C ++ D) ++ E ++ F) as Hassoc
    by (intros; by rewrite <- !app_assoc). rewrite Hassoc. clear Hassoc.
  rewrite take_app_length' by (rewrite !length_app, Hlen; done). fold fp. by rewrite Z.eqb_refl.
Qed.

Lemma stun_request_roundtrip_witness :
  let tx := [1; 2; 3; 4; 5; 6; 7; 8; 9; 10; 11; 255] in ParseBindingRequest (Request tx) = Ok tx.
Proof. apply stun_request_roundtrip; [reflexivity|]. vm_compute. repeat constructor; discriminate. Defined.

Lemma be_bytes_split n m v : be_bytes (n + m) v = be_bytes n (v / 256 ^ Z.of_nat m) ++ be_bytes m v.
Proof.
  revert v. induction m as [|m IH]; intros v.
  - rewrite Nat.add_0_r. change (256 ^ Z.of_nat 0) with 1. by rewrite Z.div_1_r, app_nil_r.
  - rewrite Nat.add_succ_r. cbn [be_bytes]. rewrite IH, <- app_assoc. do 2 f_equal.
    rewrite Z.div_div by (try apply Z.pow_pos_nonneg; lia). f_equal. rewrite Nat2Z.inj_succ, Z.pow_succ_r by lia. done.
Qed.

Lemma be_bytes_mod m v w : v mod 256 ^ Z.of_nat m = w mod 256 ^ Z.of_nat m → be_bytes m v = be_bytes m w.
Proof.
  intros Heq. rewrite <- (be_val_bytes m v), <- (be_val_bytes m w) in Heq.
  rewrite <- (be_bytes_val (be_bytes m v)) by apply be_bytes_byte. rewrite Heq, be_bytes_length.
  rewrite <- (be_bytes_length m w) at 1. by rewrite be_bytes_val by apply be_bytes_byte.
Qed.

Lemma xorAddress_involutive tID b :
  (length b <= 4 + length tID)%nat → xorAddress tID (xorAddress tID b) = b.
Proof.
  unfold xorAddress. change (4 + length tID)%nat with (length magicCookie + length tID)%nat. rewrite <- length_app.
  generalize (magicCookie ++ tID). induction b as [|x b IH]; intros key Hl; [done|]. destruct key as [|y key]; cbn in *; [lia|].
  rewrite IH by lia. by rewrite Z.lxor_assoc, Z.lxor_nilpotent, Z.lxor_0_r.
Qed.

(** The address as it is sent, and as it is read back. *)
Definition addrBytes (a : Addr) : bytes := match a with AddrZero => [] | Addr4 v => be_bytes 4 v | Addr6 v _ => be_bytes 16 v end.

Lemma As16_tail a : a ≠ AddrZero → Addr_wf a → drop (Z.to_nat (16 - BitLen a / 8)) (As16 a) = addrBytes a.
Proof.
  destruct a as [|v|v z]; [done| |done]. intros _ Hv. unfold As16, As16_val, v4mapped. cbn in Hv.
  change (Z.to_nat (16 - BitLen (Addr4 v) / 8)) with 12%nat. rewrite (be_bytes_split 12 4).
  rewrite drop_app_length' by (by rewrite be_bytes_length). apply be_bytes_mod.
  change (256 ^ Z.of_nat 4) with (2 ^ 32). rewrite (Z.add_comm (0xffff * 2 ^ 32)). by rewrite Z_mod_plus_full.
Qed.

Lemma addrBytes_length a : zlen (addrBytes a) = BitLen a / 8.
Proof. destruct a; cbn [addrBytes]; unfold zlen; rewrite ?be_bytes_length; done. Qed.

Lemma AddrFromSlice_addrBytes a : a ≠ AddrZero → Addr_wf a → AddrFromSlice (addrBytes a) = Some (withoutZone a).
Proof.
  intros Ha Hwf. unfold AddrFromSlice. rewrite addrBytes_length. destruct a as [|v|v z]; [done|..]; cbn -[be_bytes be_val Z.pow] in *.
  - unfold AddrFrom4. by rewrite (be_val_bytes_id 4) by done.
  - unfold AddrFrom16. by rewrite (be_val_bytes_id 16) by done.
Qed.

Lemma Unmap_valid a : a ≠ AddrZero → Unmap (withoutZone a) ≠ AddrZero.
Proof. destruct a; cbn; [done..|]. by case_match. Qed.

Lemma xorMappedAddress_spec tID a port fam :
  a ≠ AddrZero → Addr_wf a → 0 <= port < 2 ^ 16 → length tID = 12%nat → fam = (if Is4 a then 1 else 2) →
  xorMappedAddress tID ([0; fam] ++ be_bytes 2 (Z.lxor port 0x2112) ++ xorAddress tID (addrBytes a)) = Ok (addrBytes a, port).
Proof.
  intros Ha Hwf Hp Htx Hfam. set (x := xorAddress tID (addrBytes a)).
  assert (length (addrBytes a) <= 16)%nat as Hle by (destruct a; cbn [addrBytes]; rewrite ?be_bytes_length; cbn; lia).
  assert (zlen x = BitLen a / 8) as Hx.
  { rewrite <- addrBytes_length. unfold x, xorAddress, zlen. rewrite length_zip_with, length_app, Htx.
    change (length magicCookie) with 4%nat. lia. }
  assert (∃ p q, be_bytes 2 (Z.lxor port 0x2112) = [p; q] ∧ be_val [p; q] = Z.lxor port 0x2112) as (p & q & Hpq & Hval).
  { eexists _, _. split; [done|]. apply (be_val_bytes_id 2). apply (lxor_bound 16); lia. }
  rewrite Hpq. assert (zlen ([0; fam] ++ [p; q] ++ x) = 4 + zlen x) as Hl by (unfold zlen; cbn [app length]; lia).
  assert (familyAddrLen fam = zlen x ∧ 4 <= zlen x) as [Hf Hx4].
  { rewrite Hx, Hfam. destruct a; [done|split; done..]. }
  unfold xorMappedAddress. rewrite Hl, (proj2 (Z.ltb_ge _ _)) by lia.
  rewrite Uint16_Ok by lia. change (be_at 2 _ 2) with (be_val [p; q]). rewrite Hval. cbn [mbind res_bind].
  rewrite slice_from_Ok by lia. change (drop (Z.to_nat 4) ([0; fam] ++ [p; q] ++ x)) with x. cbn [mbind res_bind].
  change (idx _ 1) with (Ok fam). cbn [mbind res_bind]. rewrite Hf, (proj2 (Z.eqb_neq _ _)), Z.ltb_irrefl by lia.
  rewrite slice_Ok by lia. cbn [mbind res_bind]. change (Z.to_nat 0) with 0%nat.
  rewrite drop_0, Nat.sub_0_r, take_ge by (unfold zlen; lia). unfold x. rewrite xorAddress_involutive by lia.
  by rewrite Z.lxor_assoc, Z.lxor_nilpotent, Z.lxor_0_r.
Qed.

(** A client reads from a response the transaction id and the address and port that the server
    put in it, with the address unmapped and without its zone. *)
Theorem stun_response_roundtrip tID addr port :
  length tID = 12%nat → addr ≠ AddrZero → Addr_wf addr → 0 <= port < 2 ^ 16 →
  ParseResponse (Response tID (AddrPortFrom addr port)) =
  Ok (tID, AddrPortFrom (Unmap (withoutZone addr)) port, None).
Proof.
  intros Htx Ha Hwf Hp. set (fam := if Is4 addr then 1 else 2).
  set (n := BitLen addr / 8). set (attr := [0; fam] ++ be_bytes 2 (Z.lxor port 0x2112) ++ xorAddress tID (addrBytes addr)).
  assert (zlen attr = 4 + n ∧ (n = 4 ∨ n = 16)) as [Hattr Hn].
  { unfold attr, xorAddress, zlen. rewrite !length_app, length_zip_with, length_app, Htx, be_bytes_length.
    pose proof (addrBytes_length addr) as Hl. unfold zlen in Hl. cbn [length magicCookie]. fold n in Hl.
    assert (n = 4 ∨ n = 16) by (unfold n; destruct addr; [done|by left|by right]). split; [lia|done]. }
  set (attrs := be_bytes 2 attrXorMappedAddress ++ be_bytes 2 (zlen attr) ++ attr ++ []).
  assert (Response tID (AddrPortFrom addr port) = ([1; 1] ++ be_bytes 2 (8 + n) ++ magicCookie ++ tID) ++ attrs) as ->.
  { unfold Response, appendU16. cbn [ap_Addr ap_Port AddrPortFrom].
    assert ((if Is4 addr then Some 1 else if Is6 addr then Some 2 else None) = Some fam) as -> by (unfold fam; by destruct addr).
    rewrite As16_tail by done. fold n. unfold attrs. rewrite Hattr. unfold attr, u16. rewrite app_nil_r.
    rewrite !Z.mod_small by lia. repeat rewrite <- app_assoc. done. }
  assert (zlen attrs = 8 + n) as Hal.
  { unfold attrs, zlen in *. rewrite !length_app, !be_bytes_length. cbn [length]. lia. }
  destruct (header_spec 1 1 (8 + n) tID attrs ltac:(done) eq_refl Htx) as (Hl & HIs & Hs & Hat & H0 & H1 & _ & Hu).
  unfold ParseResponse. rewrite HIs. cbn [negb]. rewrite Hs. cbn [mbind res_bind]. rewrite H0. cbn [mbind res_bind].
  rewrite H1. cbn [mbind res_bind Z.eqb Pos.eqb negb orb]. rewrite Hu. cbn [mbind res_bind]. rewrite Hat. cbn [mbind res_bind].
  rewrite Z.mod_small by lia. rewrite Hal, Z.ltb_irrefl. cbn [mbind res_bind mret res_ret].
  assert (foreachAttr (responseAttr tID) attrs (zeroAddrPort, zeroAddrPort)
    = Ok (AddrPortFrom (Unmap (withoutZone addr)) port, zeroAddrPort)) as ->.
  { unfold foreachAttr, attrs at 2. replace (S (length attrs)) with (S (S (pred (length attrs)))) by (unfold zlen in Hal; lia).
    rewrite foreachLoop_attr; [|done|lia|rewrite Hattr; destruct Hn as [Hn4 | Hn4]; by rewrite Hn4].
    unfold responseAttr. cbn [Z.eqb attrXorMappedAddress attrXorMappedAddressAlt Pos.eqb orb].
    unfold attr. rewrite xorMappedAddress_spec by done. cbn [mbind res_bind mret res_ret]. rewrite foreachLoop_end.
    unfold setAddr. cbn [fst snd]. by rewrite AddrFromSlice_addrBytes. }
  cbn [mbind res_bind]. unfold AddrPort_IsValid. cbn [ap_Addr AddrPortFrom].
  rewrite bool_decide_false by (by apply Unmap_valid). done.
Qed.

Lemma stun_response_roundtrip_witness :
  let tx := [1; 2; 3; 4; 5; 6; 7; 8; 9; 10; 11; 255] in
  ParseResponse (Response tx (AddrPortFrom (Addr6 (0x20010db8 * 2 ^ 96 + 1) "eth0") 41641)) =
  Ok (tx, AddrPortFrom (Addr6 (0x20010db8 * 2 ^ 96 + 1) "") 41641, None).
Proof.
  apply (stun_response_roundtrip [1; 2; 3; 4; 5; 6; 7; 8; 9; 10; 11; 255] (Addr6 (0x20010db8 * 2 ^ 96 + 1) "eth0") 41641);
    [reflexivity|discriminate|vm_compute; split; [discriminate|reflexivity]|lia].
Defined.
