(* ===== verification/DerpServer.v ===== *)
(** * derp/derpserver: the registry of connections

    The part of [derpserver.go] that [Server.mu] guards: which connections each key
    has and which of them is active, the mesh of forwarders, the watchers that are
    told who is connected, and the clients that are told when a peer is gone.
    A connection ([*sclient]) is an object on a heap; every operation below is one
    critical section.  Channels, frames and metrics other than the gauges of the
    registry are left out; a goroutine that is started is recorded. *)
From S2P Require Import Prelude GoState NetBuf NetAddr.

Abbreviation conn := nat.
Abbreviation handle := nat.

(** [key.NodePublic] *)
Definition NodePublic : Type := bytes.
#[global] Instance NodePublic_eq_dec : EqDecision NodePublic := list_eq_dec.
#[global] Instance NodePublic_countable : Countable NodePublic := list_countable.

Inductive dupPolicy := lastWriterIsActive | disableFighters.
#[global] Instance dupPolicy_eq_dec : EqDecision dupPolicy.
Proof. solve_decision. Defined.

(** [derp.PeerPresentFlags] *)
Definition PeerPresentIsRegular : Z := 1.
Definition PeerPresentIsMeshPeer : Z := 2.
Definition PeerPresentIsProber : Z := 4.
Definition PeerPresentNotIdeal : Z := 8.

Record peerConnState := mkPeerConnState { pcs_ipPort : AddrPort; pcs_peer : NodePublic; pcs_flags : Z; pcs_present : bool }.

(** [sclient]: what it is made with, and its state. *)
Record sclient := mkClient {
  sc_key : NodePublic;
  sc_remoteIPPort : AddrPort;
  sc_canMesh : bool;
  sc_isNotIdealConn : bool;
  sc_isProber : bool;
  sc_isDup : bool;
  sc_isDisabled : bool;
  sc_preferred : bool;
  sc_sawSrc : gmap NodePublic handle;
  sc_peerStateChange : list peerConnState
}.

Record dupClientSet := mkDup { d_set : gset conn; d_last : option conn; d_sendHistory : list conn }.
Record clientSet := mkSet { activeClient : option conn; cs_dup : option dupClientSet }.

(** [PacketForwarder]s are compared by identity. *)
Abbreviation forwarder := nat.
Record multiForwarder := mkMulti { mf_fwd : forwarder; mf_all : gmap forwarder Z }.
(** A value of [clientsMesh]. *)
Inductive meshEntry := MeshNil | MeshOne (f : forwarder) | MeshMulti (m : multiForwarder).
#[global] Instance multiForwarder_eq_dec : EqDecision multiForwarder.
Proof. solve_decision. Defined.
#[global] Instance meshEntry_eq_dec : EqDecision meshEntry.
Proof. solve_decision. Defined.

Record Server := mkServer {
  srv_publicKey : NodePublic;
  srv_dupPolicy : dupPolicy;
  srv_conns : gmap conn sclient;
  clients : gmap NodePublic clientSet;
  watchers : gset conn;
  clientsMesh : gmap NodePublic meshEntry;
  peerGoneWatchers : gmap NodePublic (gmap handle conn);
  srv_handles : handle;
  keyOfAddr : gmap (Addr * Z) NodePublic;
  (** gauges *)
  curClients : Z;
  curClientsNotIdeal : Z;
  curHomeClients : Z;
  dupClientKeys : Z;
  dupClientConns : Z;
  dupClientConnTotal : Z;
  (** [go f(key)]: who is told that which peer is gone *)
  srv_gone : list (conn * NodePublic)
}.

Definition New (publicKey : NodePublic) (policy : dupPolicy) : Server :=
  mkServer publicKey policy ∅ ∅ ∅ ∅ ∅ 0%nat ∅ 0 0 0 0 0 0 [].

(** ** Field updates *)
Definition setConns f (s : Server) := mkServer (srv_publicKey s) (srv_dupPolicy s) (f (srv_conns s)) (clients s) (watchers s)
  (clientsMesh s) (peerGoneWatchers s) (srv_handles s) (keyOfAddr s) (curClients s) (curClientsNotIdeal s) (curHomeClients s)
  (dupClientKeys s) (dupClientConns s) (dupClientConnTotal s) (srv_gone s).
Definition setClients f (s : Server) := mkServer (srv_publicKey s) (srv_dupPolicy s) (srv_conns s) (f (clients s)) (watchers s)
  (clientsMesh s) (peerGoneWatchers s) (srv_handles s) (keyOfAddr s) (curClients s) (curClientsNotIdeal s) (curHomeClients s)
  (dupClientKeys s) (dupClientConns s) (dupClientConnTotal s) (srv_gone s).
Definition setWatchers f (s : Server) := mkServer (srv_publicKey s) (srv_dupPolicy s) (srv_conns s) (clients s) (f (watchers s))
  (clientsMesh s) (peerGoneWatchers s) (srv_handles s) (keyOfAddr s) (curClients s) (curClientsNotIdeal s) (curHomeClients s)
  (dupClientKeys s) (dupClientConns s) (dupClientConnTotal s) (srv_gone s).
Definition setMesh f (s : Server) := mkServer (srv_publicKey s) (srv_dupPolicy s) (srv_conns s) (clients s) (watchers s)
  (f (clientsMesh s)) (peerGoneWatchers s) (srv_handles s) (keyOfAddr s) (curClients s) (curClientsNotIdeal s) (curHomeClients s)
  (dupClientKeys s) (dupClientConns s) (dupClientConnTotal s) (srv_gone s).
Definition setGoneWatchers f (s : Server) := mkServer (srv_publicKey s) (srv_dupPolicy s) (srv_conns s) (clients s) (watchers s)
  (clientsMesh s) (f (peerGoneWatchers s)) (srv_handles s) (keyOfAddr s) (curClients s) (curClientsNotIdeal s) (curHomeClients s)
  (dupClientKeys s) (dupClientConns s) (dupClientConnTotal s) (srv_gone s).
Definition setKeyOfAddr f (s : Server) := mkServer (srv_publicKey s) (srv_dupPolicy s) (srv_conns s) (clients s) (watchers s)
  (clientsMesh s) (peerGoneWatchers s) (srv_handles s) (f (keyOfAddr s)) (curClients s) (curClientsNotIdeal s) (curHomeClients s)
  (dupClientKeys s) (dupClientConns s) (dupClientConnTotal s) (srv_gone s).
Definition addClients n ni nh (s : Server) := mkServer (srv_publicKey s) (srv_dupPolicy s) (srv_conns s) (clients s) (watchers s)
  (clientsMesh s) (peerGoneWatchers s) (srv_handles s) (keyOfAddr s) (curClients s + n) (curClientsNotIdeal s + ni) (curHomeClients s + nh)
  (dupClientKeys s) (dupClientConns s) (dupClientConnTotal s) (srv_gone s).
Definition addDups nk nc nt (s : Server) := mkServer (srv_publicKey s) (srv_dupPolicy s) (srv_conns s) (clients s) (watchers s)
  (clientsMesh s) (peerGoneWatchers s) (srv_handles s) (keyOfAddr s) (curClients s) (curClientsNotIdeal s) (curHomeClients s)
  (dupClientKeys s + nk) (dupClientConns s + nc) (dupClientConnTotal s + nt) (srv_gone s).
Definition goGone l (s : Server) := mkServer (srv_publicKey s) (srv_dupPolicy s) (srv_conns s) (clients s) (watchers s)
  (clientsMesh s) (peerGoneWatchers s) (srv_handles s) (keyOfAddr s) (curClients s) (curClientsNotIdeal s) (curHomeClients s)
  (dupClientKeys s) (dupClientConns s) (dupClientConnTotal s) (srv_gone s ++ l).

Definition setIsDup b (sc : sclient) := mkClient (sc_key sc) (sc_remoteIPPort sc) (sc_canMesh sc) (sc_isNotIdealConn sc) (sc_isProber sc)
  b (sc_isDisabled sc) (sc_preferred sc) (sc_sawSrc sc) (sc_peerStateChange sc).
Definition setIsDisabled b (sc : sclient) := mkClient (sc_key sc) (sc_remoteIPPort sc) (sc_canMesh sc) (sc_isNotIdealConn sc) (sc_isProber sc)
  (sc_isDup sc) b (sc_preferred sc) (sc_sawSrc sc) (sc_peerStateChange sc).
Definition setPref b (sc : sclient) := mkClient (sc_key sc) (sc_remoteIPPort sc) (sc_canMesh sc) (sc_isNotIdealConn sc) (sc_isProber sc)
  (sc_isDup sc) (sc_isDisabled sc) b (sc_sawSrc sc) (sc_peerStateChange sc).
Definition setSawSrc f (sc : sclient) := mkClient (sc_key sc) (sc_remoteIPPort sc) (sc_canMesh sc) (sc_isNotIdealConn sc) (sc_isProber sc)
  (sc_isDup sc) (sc_isDisabled sc) (sc_preferred sc) (f (sc_sawSrc sc)) (sc_peerStateChange sc).
Definition setState f (sc : sclient) := mkClient (sc_key sc) (sc_remoteIPPort sc) (sc_canMesh sc) (sc_isNotIdealConn sc) (sc_isProber sc)
  (sc_isDup sc) (sc_isDisabled sc) (sc_preferred sc) (sc_sawSrc sc) (f (sc_peerStateChange sc)).

(** Dereferencing and changing a connection. *)
Definition theConn (c : conn) : stM Server sclient := λ s,
  match srv_conns s !! c with Some sc => (s, Ok sc) | None => (s, Panic) end.
Definition modConn (c : conn) (f : sclient → sclient) : stM Server unit := modS (setConns (alter f c)).

(** ** [clientSet] *)
Definition Len (cs : clientSet) : Z :=
  match cs_dup cs with
  | Some d => Z.of_nat (size (d_set d))
  | None => match activeClient cs with Some _ => 1 | None => 0 end
  end.

(** The connections [ForeachClient] visits. *)
Definition members (cs : clientSet) : gset conn :=
  match cs_dup cs with
  | Some d => d_set d
  | None => match activeClient cs with Some c => {[c]} | None => ∅ end
  end.

Definition pickActiveClient (s : Server) (cs : clientSet) : option conn :=
  match cs_dup cs with
  | None => activeClient cs
  | Some d =>
      match d_last d with
      | Some l => if default false (sc_isDisabled <$> srv_conns s !! l) then None else Some l
      | None => None
      end
  end.

(** The loop of [removeClient] over [sendHistory]: what it appends to [trim]. *)
Fixpoint trimHistory (set : gset conn) (lastKept : option conn) (l : list conn) : list conn :=
  match l with
  | [] => []
  | v :: l => if bool_decide (v ∈ set) && negb (bool_decide (lastKept = Some v))
              then v :: trimHistory set (Some v) l else trimHistory set lastKept l
  end.

Definition removeClient (c : conn) (d : dupClientSet) : dupClientSet * bool :=
  let set := d_set d ∖ {[c]} in
  let lst := if bool_decide (d_last d = Some c) then None else d_last d in
  if bool_decide (size set = size (d_set d)) then (mkDup set lst (d_sendHistory d), false) else
  let trim := trimHistory set None (d_sendHistory d) in
  let lst := match lst with None => last trim | Some _ => lst end in
  (mkDup set lst trim, true).

Definition presentFlags (sc : sclient) : Z :=
  let f := 0 in
  let f := if sc_isProber sc then Z.lor f PeerPresentIsProber else f in
  let f := if sc_canMesh sc then Z.lor f PeerPresentIsMeshPeer else f in
  let f := if sc_isNotIdealConn sc then Z.lor f PeerPresentNotIdeal else f in
  if f =? 0 then PeerPresentIsRegular else f.

(** ** Watchers *)
Definition broadcastPeerStateChangeLocked (peer : NodePublic) (ipPort : AddrPort) (flags : Z) (present : bool) : stM Server unit :=
  modS (λ s, setConns (map_imap (λ c sc, Some (if bool_decide (c ∈ watchers s)
      then setState (λ l, l ++ [mkPeerConnState ipPort peer flags present]) sc else sc))) s).

(** [for peer, clientSet := range s.clients], in the order [ks]. *)
Definition initialState (s : Server) (peer : NodePublic) : list peerConnState :=
  match clients s !! peer with
  | Some cs => match activeClient cs with
               | Some a => match srv_conns s !! a with
                           | Some ac => [mkPeerConnState (sc_remoteIPPort ac) peer (presentFlags ac) true]
                           | None => []
                           end
               | None => []
               end
  | None => []
  end.

Definition addWatcher (c : conn) (ks : list NodePublic) : stM Server unit :=
  sc ← theConn c;
  if negb (sc_canMesh sc) then panic else
  s ← getS;
  if bool_decide (sc_key sc = srv_publicKey s) then mret tt else
  _ ← modConn c (setState (λ l, l ++ (ks ≫= initialState s)));
  modS (setWatchers (λ w, w ∪ {[c]})).

(** [takeAll] of [sendMeshUpdates] *)
Definition takeAll (c : conn) : stM Server (list peerConnState) :=
  sc ← theConn c;
  _ ← modConn c (setState (λ _, []));
  mret (sc_peerStateChange sc).

(** ** Peers that are gone *)
Definition notePeerGoneFromRegionLocked (key : NodePublic) : stM Server unit :=
  s ← getS;
  if bool_decide (is_Some (clientsMesh s !! key)) then panic else
  _ ← modS (goGone ((λ hc, (hc.2, key)) <$> map_to_list (default ∅ (peerGoneWatchers s !! key))));
  modS (setGoneWatchers (delete key)).

Definition addPeerGoneFromRegionWatcher (peer : NodePublic) (c : conn) : stM Server handle := λ s,
  let h := srv_handles s in
  (mkServer (srv_publicKey s) (srv_dupPolicy s) (srv_conns s) (clients s) (watchers s) (clientsMesh s)
     (<[peer := <[h := c]> (default ∅ (peerGoneWatchers s !! peer))]> (peerGoneWatchers s)) (S h)
     (keyOfAddr s) (curClients s) (curClientsNotIdeal s) (curHomeClients s)
     (dupClientKeys s) (dupClientConns s) (dupClientConnTotal s) (srv_gone s), Ok h).

Definition removePeerGoneFromRegionWatcher (peer : NodePublic) (h : handle) : stM Server unit :=
  s ← getS;
  match peerGoneWatchers s !! peer with
  | None => mret tt
  | Some hset =>
      let hset := delete h hset in
      modS (setGoneWatchers (if bool_decide (hset = ∅) then delete peer else <[peer := hset]>))
  end.

Definition noteSendFromSrc (c : conn) (src : NodePublic) : stM Server unit :=
  sc ← theConn c;
  match sc_sawSrc sc !! src with
  | Some _ => mret tt
  | None =>
      h ← addPeerGoneFromRegionWatcher src c;
      modConn c (setSawSrc <[src := h]>)
  end.

(** The watches [onSendLoopDone] cleans up. *)
Fixpoint removeWatches (l : list (NodePublic * handle)) : stM Server unit :=
  match l with
  | [] => mret tt
  | (peer, h) :: l => _ ← removePeerGoneFromRegionWatcher peer h; removeWatches l
  end.
Definition onSendLoopDone (c : conn) : stM Server unit := sc ← theConn c; removeWatches (map_to_list (sc_sawSrc sc)).

(** ** Registering and unregistering *)
Definition setSet (key : NodePublic) (cs : clientSet) : stM Server unit := modS (setClients <[key := cs]>).

Definition registerClient (c : conn) : stM Server unit :=
  sc ← theConn c;
  s ← getS;
  let key := sc_key sc in
  let cs := default (mkSet None None) (clients s !! key) in
  let was := activeClient cs in
  _ ← match was with
      | None => mret tt
      | Some w => _ ← modConn w (setIsDup true); modConn c (setIsDup true)
      end;
  dup ← match cs_dup cs, was with
        | None, Some w => _ ← modS (addDups 1 2 1); mret (Some (mkDup {[c; w]} (Some c) [w]))
        | Some d, _ => _ ← modS (addDups 0 1 1); mret (Some (mkDup (d_set d ∪ {[c]}) (Some c) (d_sendHistory d ++ [c])))
        | None, None => mret None
        end;
  _ ← setSet key (mkSet (Some c) dup);
  _ ← modS (setMesh (λ m, match m !! key with None => <[key := MeshNil]> m | Some _ => m end));
  _ ← modS (setKeyOfAddr <[(ap_Addr (sc_remoteIPPort sc), ap_Port (sc_remoteIPPort sc)) := key]>);
  _ ← modS (addClients 1 (if sc_isNotIdealConn sc then 1 else 0) 0);
  broadcastPeerStateChangeLocked key (sc_remoteIPPort sc) (presentFlags sc) true.

(** The common case of [unregisterClient]; [false] when it returns early. *)
Definition unregisterSingle (c : conn) (key : NodePublic) (cs : clientSet) : stM Server bool :=
  if bool_decide (activeClient cs ≠ Some c) then mret false else
  _ ← modS (setClients (delete key));
  s ← getS;
  _ ← match clientsMesh s !! key with
      | Some MeshNil => _ ← modS (setMesh (delete key)); notePeerGoneFromRegionLocked key
      | _ => mret tt
      end;
  _ ← broadcastPeerStateChangeLocked key (AddrPortFrom AddrZero 0) 0 false;
  mret true.

Definition unregisterDup (c : conn) (key : NodePublic) (cs : clientSet) (d : dupClientSet) : stM Server unit :=
  let '(d, removed) := removeClient c d in
  _ ← (if removed : bool then modS (addDups 0 (-1) 0) else mret tt);
  if bool_decide (size (d_set d) = 1%nat) then
    _ ← modS (addDups (-1) (-1) 0);
    match elements (d_set d) with
    | [] => panic
    | remain :: _ =>
        _ ← modConn remain (setIsDisabled false);
        _ ← modConn remain (setIsDup false);
        setSet key (mkSet (Some remain) None)
    end
  else
    s ← getS;
    setSet key (mkSet (pickActiveClient s (mkSet (activeClient cs) (Some d))) (Some d)).

Definition unregisterClient (c : conn) : stM Server unit :=
  sc ← theConn c;
  s ← getS;
  let key := sc_key sc in
  match clients s !! key with
  | None => mret tt
  | Some cs =>
      continue ← match cs_dup cs with
                 | None => unregisterSingle c key cs
                 | Some d => _ ← unregisterDup c key cs d; mret true
                 end;
      if negb continue then mret tt else
      _ ← (if sc_canMesh sc then modS (setWatchers (λ w, w ∖ {[c]})) else mret tt);
      _ ← modS (setKeyOfAddr (delete (ap_Addr (sc_remoteIPPort sc), ap_Port (sc_remoteIPPort sc))));
      modS (addClients (-1) (if sc_isNotIdealConn sc then -1 else 0) (if sc_preferred sc then -1 else 0))
  end.

(** ** Activity of duplicates *)

(** [noteClientActivity] from where it takes the lock. *)
Definition noteClientActivityLocked (c : conn) : stM Server unit :=
  sc ← theConn c;
  s ← getS;
  let key := sc_key sc in
  match clients s !! key with
  | None => mret tt
  | Some cs =>
      match cs_dup cs with
      | None => mret tt
      | Some d =>
          let promote := bool_decide (srv_dupPolicy s = lastWriterIsActive) || bool_decide (d_last d = None) in
          let d := if promote then mkDup (d_set d) (Some c) (d_sendHistory d) else d in
          let active := if promote then Some c else activeClient cs in
          _ ← setSet key (mkSet active (Some d));
          if bool_decide (last (d_sendHistory d) = Some c) then mret tt else
          active ← (if bool_decide (srv_dupPolicy s = disableFighters) && bool_decide (c ∈ d_sendHistory d) then
                      _ ← modS (setConns (map_imap (λ c' sc, Some (if bool_decide (c' ∈ d_set d) then setIsDisabled true sc else sc))));
                      mret (match active with Some a => if bool_decide (a ∈ d_set d) then None else Some a | None => None end)
                    else mret active);
          setSet key (mkSet active (Some (mkDup (d_set d) (d_last d) (d_sendHistory d ++ [c]))))
      end
  end.

Definition noteClientActivity (c : conn) : stM Server unit :=
  sc ← theConn c;
  if negb (sc_isDup sc) then mret tt else
  if sc_isDisabled sc then mret tt else
  noteClientActivityLocked c.

(** [setPreferred], without the counters of moves. *)
Definition setPreferred (c : conn) (v : bool) : stM Server unit :=
  sc ← theConn c;
  if bool_decide (sc_preferred sc = v) then mret tt else
  _ ← modConn c (setPref v);
  modS (addClients 0 0 (if v then 1 else -1)).

(** ** The mesh *)
Definition newMultiForwarder (f1 f2 : forwarder) : multiForwarder := mkMulti f1 (<[f2 := 1]> {[f1 := 0]}).

Definition multi_add (m : multiForwarder) (fwd : forwarder) : multiForwarder :=
  let max := map_fold (λ _ v max, if max <? v then v else max) 0 (mf_all m) in
  mkMulti (mf_fwd m) (<[fwd := u8 (max + 1)]> (mf_all m)).

(** The forwarder with the lowest number. *)
Definition lowest (all : gmap forwarder Z) : option (forwarder * Z) :=
  map_fold (λ k v acc, match acc with
                       | Some (_, lo) => if v <? lo then Some (k, v) else acc
                       | None => Some (k, v)
                       end) None all.

Definition deleteLocked (m : multiForwarder) (fwd : forwarder) : multiForwarder * option forwarder :=
  let all := delete fwd (mf_all m) in
  let pref := if bool_decide (fwd = mf_fwd m)
              then match lowest all with Some (k, _) => k | None => mf_fwd m end
              else mf_fwd m in
  (mkMulti pref all, if bool_decide (size all = 1%nat) then fst <$> head (map_to_list all) else None).

Definition AddPacketForwarder (dst : NodePublic) (fwd : forwarder) : stM Server unit :=
  s ← getS;
  match clientsMesh s !! dst with
  | Some (MeshOne prev) =>
      if bool_decide (prev = fwd) then mret tt
      else modS (setMesh <[dst := MeshMulti (newMultiForwarder prev fwd)]>)
  | Some (MeshMulti m) =>
      if bool_decide (is_Some (mf_all m !! fwd)) then mret tt
      else modS (setMesh <[dst := MeshMulti (multi_add m fwd)]>)
  | Some MeshNil | None => modS (setMesh <[dst := MeshOne fwd]>)
  end.

Definition RemovePacketForwarder (dst : NodePublic) (fwd : forwarder) : stM Server unit :=
  s ← getS;
  match clientsMesh s !! dst with
  | None => mret tt
  | Some (MeshMulti m) =>
      if (size (mf_all m) <? 2)%nat then panic else
      let '(m, last) := deleteLocked m fwd in
      modS (setMesh <[dst := match last with Some remain => MeshOne remain | None => MeshMulti m end]>)
  | Some v =>
      if negb (match v with MeshOne f => bool_decide (f = fwd) | _ => false end) then mret tt else
      if bool_decide (is_Some (clients s !! dst)) then modS (setMesh <[dst := MeshNil]>)
      else _ ← modS (setMesh (delete dst)); notePeerGoneFromRegionLocked dst
  end.

(** ** Where packets go *)
Inductive dropReason :=
  | dropReasonUnknownDest | dropReasonUnknownDestOnFwd | dropReasonGoneDisconnected
  | dropReasonQueueHead | dropReasonQueueTail | dropReasonWriteError | dropReasonDupClient.
Inductive route := ToClient (c : conn) | Forward (f : forwarder) | Drop (r : dropReason) (peerGone : bool).

(** [dstLen] and [dst], read under the lock. *)
Definition destination (s : Server) (dstKey : NodePublic) : Z * option conn :=
  match clients s !! dstKey with Some cs => (Len cs, activeClient cs) | None => (0, None) end.

(** [handleFrameSendPacket] once the frame is read *)
Definition handleFrameSendPacket (s : Server) (dstKey : NodePublic) : route :=
  let '(dstLen, dst) := destination s dstKey in
  match dst with
  | Some c => ToClient c
  | None =>
      match (if dstLen <? 1 then clientsMesh s !! dstKey else None) with
      | Some (MeshOne f) => Forward f
      | Some (MeshMulti m) => Forward (mf_fwd m)
      | _ => if 1 <? dstLen then Drop dropReasonDupClient false else Drop dropReasonUnknownDest true
      end
  end.

(** [handleFrameForwardPacket] once the frame is read *)
Definition handleFrameForwardPacket (s : Server) (dstKey : NodePublic) : route :=
  let '(dstLen, dst) := destination s dstKey in
  match dst with
  | Some c => ToClient c
  | None => if 1 <? dstLen then Drop dropReasonDupClient false else Drop dropReasonUnknownDestOnFwd true
  end.

(** [handleFrameClosePeer] once the frame is read: the connections it closes. *)
Definition handleFrameClosePeer (s : Server) (targetKey : NodePublic) : gset conn :=
  match clients s !! targetKey with Some cs => members cs | None => ∅ end.

Definition IsClientConnectedForTest (s : Server) (k : NodePublic) : bool :=
  match clients s !! k with Some cs => bool_decide (is_Some (activeClient cs)) | None => false end.

(** [ConsistencyCheck] of a server that does not verify clients with a local daemon:
    the number of findings. *)
Definition nilMeshNotInClient (s : Server) : nat :=
  size (filter (λ km, km.2 = true ∧ clients s !! km.1 = None)
          ((λ e, match e with MeshNil => true | _ => false end) <$> clientsMesh s)).
Definition clientNotInMesh (s : Server) : nat := size (dom (clients s) ∖ dom (clientsMesh s)).
Definition ConsistencyCheck (s : Server) : res unit :=
  fail_if (negb (nilMeshNotInClient s =? 0)%nat || negb (clientNotInMesh s =? 0)%nat ||
           negb (curClients s =? Z.of_nat (size (clients s)))) "inconsistent".
