(* ===== verification/DerpInv.v ===== *)
(** * The invariant of the DERP server's registry

    What holds of the registry between two critical sections, and that every
    operation of [DerpServer] keeps it and returns.  The policy for duplicates is
    [lastWriterIsActive], the one a server starts with. *)
From S2P Require Import Prelude GoState NetBuf NetAddr DerpServer.

(** Runs the operations that only change the state. *)
Ltac st_run := repeat (erewrite stM_bind_run by reflexivity; cbn beta).

(** ** Sums over the registry *)
Definition total {A} (f : A → Z) (m : gmap NodePublic A) : Z := map_fold (λ _ x n, f x + n) 0 m.

Lemma total_insert {A} (f : A → Z) m k x : m !! k = None → total f (<[k := x]> m) = f x + total f m.
Proof. intros Hk. unfold total. rewrite map_fold_insert_L; [done| |done]. intros. lia. Qed.

Lemma total_delete {A} (f : A → Z) m k x : m !! k = Some x → total f m = f x + total f (delete k m).
Proof. intros Hk. unfold total. rewrite (map_fold_delete_L _ _ k x); [done| |done]. intros. lia. Qed.

Lemma total_replace {A} (f : A → Z) m k x y : m !! k = Some x → total f (<[k := y]> m) = total f m - f x + f y.
Proof.
  intros Hk. rewrite (total_delete f m k x Hk). rewrite (total_delete f (<[k := y]> m) k y) by apply lookup_insert_eq.
  rewrite delete_insert_eq. lia.
Qed.

Lemma total_upsert {A} (f : A → Z) m k y :
  total f (<[k := y]> m) = total f m - default 0 (f <$> m !! k) + f y.
Proof.
  destruct (m !! k) as [x|] eqn:E; cbn; [by apply total_replace|]. rewrite total_insert by done. lia.
Qed.

(** ** What the invariant is about *)

(** The part of a connection the registry depends on. *)
Record core := mkCore { k_key : NodePublic; k_mesh : bool; k_dup : bool; k_disabled : bool }.
Definition coreOf (sc : sclient) : core := mkCore (sc_key sc) (sc_canMesh sc) (sc_isDup sc) (sc_isDisabled sc).

Record reg := mkReg {
  r_policy : dupPolicy;
  r_core : gmap conn core;
  r_clients : gmap NodePublic clientSet;
  r_mesh : gmap NodePublic meshEntry;
  r_watchers : gset conn;
  r_cur : Z;
  r_dupKeys : Z;
  r_dupConns : Z
}.
Definition regOf (s : Server) : reg :=
  mkReg (srv_dupPolicy s) (coreOf <$> srv_conns s) (clients s) (clientsMesh s) (watchers s)
        (curClients s) (dupClientKeys s) (dupClientConns s).

Definition isDupSet (cs : clientSet) : Z := match cs_dup cs with Some _ => 1 | None => 0 end.
Definition dupLen (cs : clientSet) : Z := match cs_dup cs with Some d => Z.of_nat (size (d_set d)) | None => 0 end.

(** The set of a key: one connection, or several of which the last one to speak is active and
    at most one has never spoken nor been added to the history. *)
Definition shapeOk (cs : clientSet) : Prop :=
  match cs_dup cs with
  | None => is_Some (activeClient cs)
  | Some d =>
      (2 <= size (d_set d))%nat ∧
      (∃ a, d_last d = Some a ∧ activeClient cs = Some a ∧ a ∈ d_set d) ∧
      (∀ x, x ∈ d_sendHistory d → x ∈ d_set d) ∧
      (size (d_set d ∖ list_to_set (d_sendHistory d)) <= 1)%nat
  end.

Definition setOk (r : reg) (k : NodePublic) (cs : clientSet) : Prop :=
  shapeOk cs ∧
  ∀ c, c ∈ members cs → ∃ mesh, r_core r !! c = Some (mkCore k mesh (bool_decide (is_Some (cs_dup cs))) false).

Definition multiOk (e : meshEntry) : Prop :=
  match e with MeshMulti m => (2 <= size (mf_all m))%nat ∧ is_Some (mf_all m !! mf_fwd m) | _ => True end.

Record inv (r : reg) : Prop := {
  iv_policy : r_policy r = lastWriterIsActive;
  iv_sets : ∀ k cs, r_clients r !! k = Some cs → setOk r k cs;
  iv_mesh : ∀ k, is_Some (r_clients r !! k) → is_Some (r_mesh r !! k);
  iv_nil : ∀ k, r_mesh r !! k = Some MeshNil → is_Some (r_clients r !! k);
  iv_multi : ∀ k e, r_mesh r !! k = Some e → multiOk e;
  iv_watch : ∀ w, w ∈ r_watchers r → ∃ k cs d, r_core r !! w = Some (mkCore k true d false) ∧
                 r_clients r !! k = Some cs ∧ w ∈ members cs;
  iv_cur : r_cur r = total Len (r_clients r);
  iv_dupKeys : r_dupKeys r = total isDupSet (r_clients r);
  iv_dupConns : r_dupConns r = total dupLen (r_clients r)
}.

Definition registered (s : Server) (c : conn) : Prop :=
  ∃ sc cs, srv_conns s !! c = Some sc ∧ clients s !! sc_key sc = Some cs ∧ c ∈ members cs.

Lemma inv_new pk : inv (regOf (New pk lastWriterIsActive)).
Proof.
  split; cbn; try done; intros *; rewrite ?lookup_empty; done.
Qed.

Lemma shapeOk_active cs : shapeOk cs → ∃ a, activeClient cs = Some a ∧ a ∈ members cs.
Proof.
  unfold shapeOk, members. destruct (cs_dup cs) as [d|].
  - intros (_ & (a & _ & Ha & Hin) & _). eauto.
  - intros [a Ha]. exists a. rewrite Ha. set_solver.
Qed.

Lemma Len_members cs : shapeOk cs → Len cs = Z.of_nat (size (members cs)) ∧ 1 <= Len cs.
Proof.
  unfold shapeOk, Len, members. destruct (cs_dup cs) as [d|].
  - intros (? & _). split; [done|lia].
  - intros [a ->]. rewrite size_singleton. done.
Qed.

(** A connection is in the set of its own key only. *)
Lemma members_key r k cs k' cs' c :
  inv r → r_clients r !! k = Some cs → r_clients r !! k' = Some cs' → c ∈ members cs → c ∈ members cs' → k = k'.
Proof.
  intros Hi H1 H2 Hc1 Hc2. destruct (iv_sets _ Hi _ _ H1) as [_ Hm1]. destruct (iv_sets _ Hi _ _ H2) as [_ Hm2].
  destruct (Hm1 c Hc1) as [? E1]. destruct (Hm2 c Hc2) as [? E2]. congruence.
Qed.

(** ** Operations that leave the registry alone *)
Lemma coreOf_alter (f : sclient → sclient) c (m : gmap conn sclient) :
  (∀ sc, coreOf (f sc) = coreOf sc) → coreOf <$> alter f c m = coreOf <$> m.
Proof.
  intros Hf. apply map_eq. intros i. rewrite !lookup_fmap, lookup_alter. case_decide; [|done].
  subst. destruct (m !! i); cbn; [by rewrite Hf|done].
Qed.

Lemma coreOf_imap (f : conn → sclient → sclient) (m : gmap conn sclient) :
  (∀ c sc, coreOf (f c sc) = coreOf sc) → coreOf <$> map_imap (λ c sc, Some (f c sc)) m = coreOf <$> m.
Proof.
  intros Hf. apply map_eq. intros i. rewrite !lookup_fmap, map_lookup_imap. destruct (m !! i); cbn; [by rewrite Hf|done].
Qed.

Lemma regOf_broadcast peer ip fl b s s' r :
  broadcastPeerStateChangeLocked peer ip fl b s = (s', r) → regOf s' = regOf s ∧ r = Ok tt.
Proof.
  unfold broadcastPeerStateChangeLocked, modS. intros [= <- <-]. split; [|done]. unfold regOf. cbn. f_equal.
  apply (coreOf_imap (λ c sc, if bool_decide (c ∈ watchers s) then _ else _)). intros c sc. by case_bool_decide.
Qed.

(** What a connection has yet to write to its watcher. *)
Definition pending (s : Server) (c : conn) : option (list peerConnState) := sc_peerStateChange <$> srv_conns s !! c.

Lemma pending_alter (f : sclient → sclient) c (m : gmap conn sclient) x :
  (∀ sc, sc_peerStateChange (f sc) = sc_peerStateChange sc) →
  sc_peerStateChange <$> alter f c m !! x = sc_peerStateChange <$> m !! x.
Proof.
  intros Hf. rewrite lookup_alter. case_decide; [|done]. subst. destruct (m !! x); cbn; [by rewrite Hf|done].
Qed.

Lemma broadcast_run peer ip fl b s :
  ∃ s', broadcastPeerStateChangeLocked peer ip fl b s = (s', Ok tt) ∧ regOf s' = regOf s ∧
    ∀ x, pending s' x = (λ l, if bool_decide (x ∈ watchers s) then l ++ [mkPeerConnState ip peer fl b] else l) <$> pending s x.
Proof.
  destruct (broadcastPeerStateChangeLocked peer ip fl b s) as [s' r] eqn:E.
  destruct (regOf_broadcast _ _ _ _ _ _ _ E) as [? ->]. exists s'. split_and!; [done..|].
  injection E as <-. intros x. unfold pending. cbn. rewrite map_lookup_imap. destruct (srv_conns s !! x); cbn; [|done].
  by case_bool_decide.
Qed.

Lemma notePeerGone_run k s :
  clientsMesh s !! k = None →
  ∃ s', notePeerGoneFromRegionLocked k s = (s', Ok tt) ∧ regOf s' = regOf s ∧ srv_conns s' = srv_conns s.
Proof.
  intros Hk. unfold notePeerGoneFromRegionLocked. erewrite stM_bind_run by done. cbn beta.
  rewrite bool_decide_false by (rewrite Hk; by intros [? ?]). eexists. split; [done|]. done.
Qed.

(** ** Changing one set *)
Definition meshFlag (r : reg) (c : conn) : option bool := k_mesh <$> r_core r !! c.

Lemma inv_update r r' k cs' :
  inv r → r_policy r' = r_policy r → r_clients r' = <[k := cs']> (r_clients r) → setOk r' k cs' →
  (∀ k2 cs2 c, k2 ≠ k → r_clients r !! k2 = Some cs2 → c ∈ members cs2 → r_core r' !! c = r_core r !! c) →
  (∀ c, meshFlag r' c = meshFlag r c) →
  r_mesh r' = (if bool_decide (is_Some (r_mesh r !! k)) then r_mesh r else <[k := MeshNil]> (r_mesh r)) →
  (∀ w, w ∈ r_watchers r' → w ∈ r_watchers r ∧ ∀ cs, r_clients r !! k = Some cs → w ∈ members cs → w ∈ members cs') →
  r_cur r' = r_cur r - default 0 (Len <$> r_clients r !! k) + Len cs' →
  r_dupKeys r' = r_dupKeys r - default 0 (isDupSet <$> r_clients r !! k) + isDupSet cs' →
  r_dupConns r' = r_dupConns r - default 0 (dupLen <$> r_clients r !! k) + dupLen cs' →
  inv r'.
Proof.
  intros Hi Hpol Hcl Hset Hcore Hflag Hmesh Hw Hcur Hdk Hdc. split.
  - rewrite Hpol. apply Hi.
  - rewrite Hcl. intros k2 cs2. rewrite lookup_insert. case_decide as E; [intros [= <-]; by subst|]. intros H2.
    destruct (iv_sets _ Hi _ _ H2) as [Hsh Hm]. split; [done|]. intros c Hc. rewrite (Hcore k2 cs2 c) by done. by apply Hm.
  - rewrite Hcl, Hmesh. intros k2. rewrite lookup_insert. case_decide as E.
    + subst k2. intros _. case_bool_decide; [done|]. rewrite lookup_insert_eq. eauto.
    + intros H2. pose proof (iv_mesh _ Hi _ H2). case_bool_decide; [done|]. by rewrite lookup_insert_ne.
  - rewrite Hcl, Hmesh. intros k2 Hk2. destruct (decide (k = k2)) as [->|]; [rewrite lookup_insert_eq; eauto|].
    rewrite lookup_insert_ne by done. apply (iv_nil _ Hi). case_bool_decide; [done|]. by rewrite lookup_insert_ne in Hk2.
  - rewrite Hmesh. intros k2 e. case_bool_decide; [apply (iv_multi _ Hi)|]. rewrite lookup_insert.
    case_decide; [intros [= <-]; done|apply (iv_multi _ Hi)].
  - intros w Hww. destruct (Hw w Hww) as [Hwr Hmem]. destruct (iv_watch _ Hi w Hwr) as (k2 & cs2 & d & Hc & Hk2 & Hin).
    pose proof (Hflag w) as Hf. unfold meshFlag in Hf. rewrite Hc in Hf. cbn in Hf. rewrite Hcl.
    destruct (decide (k = k2)) as [<-|Hne].
    + specialize (Hmem cs2 Hk2 Hin). destruct Hset as [_ Hs]. destruct (Hs w Hmem) as [mesh Hw']. rewrite Hw' in Hf. cbn in Hf.
      injection Hf as ->. eexists k, cs', _. rewrite lookup_insert_eq. split_and!; [exact Hw'|done|done].
    + exists k2, cs2, d. rewrite lookup_insert_ne by done. rewrite (Hcore k2 cs2 w) by done. done.
  - rewrite Hcur, Hcl, total_upsert. rewrite (iv_cur _ Hi). done.
  - rewrite Hdk, Hcl, total_upsert. rewrite (iv_dupKeys _ Hi). done.
  - rewrite Hdc, Hcl, total_upsert. rewrite (iv_dupConns _ Hi). done.
Qed.

(** A connection that is not registered can change. *)
Lemma inv_core r c kc :
  inv r → (∀ k cs, r_clients r !! k = Some cs → c ∉ members cs) →
  inv (mkReg (r_policy r) (<[c := kc]> (r_core r)) (r_clients r) (r_mesh r) (r_watchers r) (r_cur r) (r_dupKeys r) (r_dupConns r)).
Proof.
  intros Hi Hc. split; cbn; try apply Hi.
  - intros k cs Hk. destruct (iv_sets _ Hi _ _ Hk) as [? Hm]. split; [done|]. intros c' Hc'. cbn. specialize (Hc _ _ Hk).
    rewrite lookup_insert_ne by (intros ->; done). by apply Hm.
  - intros w Hw. destruct (iv_watch _ Hi w Hw) as (k & cs & d & Hcore & Hk & Hin). exists k, cs, d. specialize (Hc _ _ Hk).
    rewrite lookup_insert_ne by (intros ->; done). done.
Qed.

(** What [registerClient] stores for the key. *)
Definition registerSet (c : conn) (cs : clientSet) : clientSet :=
  mkSet (Some c) (match cs_dup cs, activeClient cs with
                  | None, Some w => Some (mkDup {[c; w]} (Some c) [w])
                  | Some d, _ => Some (mkDup (d_set d ∪ {[c]}) (Some c) (d_sendHistory d ++ [c]))
                  | None, None => None
                  end).

Definition markDup (km : gmap conn core) (c : conn) (was : option conn) : gmap conn core :=
  let f k := mkCore (k_key k) (k_mesh k) true (k_disabled k) in
  match was with None => km | Some w => alter f c (alter f w km) end.

Lemma coreOf_setIsDup c (m : gmap conn sclient) b :
  coreOf <$> alter (setIsDup b) c m = alter (λ k, mkCore (k_key k) (k_mesh k) b (k_disabled k)) c (coreOf <$> m).
Proof.
  apply map_eq. intros i. rewrite lookup_fmap, !lookup_alter, !lookup_fmap. case_decide; [subst; by destruct (m !! i)|done].
Qed.

Lemma coreOf_setIsDisabled c (m : gmap conn sclient) b :
  coreOf <$> alter (setIsDisabled b) c m = alter (λ k, mkCore (k_key k) (k_mesh k) (k_dup k) b) c (coreOf <$> m).
Proof.
  apply map_eq. intros i. rewrite lookup_fmap, !lookup_alter, !lookup_fmap. case_decide; [subst; by destruct (m !! i)|done].
Qed.

Lemma registerClient_run s c sc :
  srv_conns s !! c = Some sc →
  let cs := default (mkSet None None) (clients s !! sc_key sc) in
  ∃ s', registerClient c s = (s', Ok tt) ∧
    regOf s' = mkReg (srv_dupPolicy s) (markDup (coreOf <$> srv_conns s) c (activeClient cs))
      (<[sc_key sc := registerSet c cs]> (clients s))
      (match clientsMesh s !! sc_key sc with None => <[sc_key sc := MeshNil]> (clientsMesh s) | Some _ => clientsMesh s end)
      (watchers s) (curClients s + 1)
      (dupClientKeys s + isDupSet (registerSet c cs) - isDupSet cs)
      (dupClientConns s + match cs_dup cs, activeClient cs with None, Some _ => 2 | Some _, _ => 1 | None, None => 0 end) ∧
    ∀ x, pending s' x = (λ l, if bool_decide (x ∈ watchers s)
      then l ++ [mkPeerConnState (sc_remoteIPPort sc) (sc_key sc) (presentFlags sc) true] else l) <$> pending s x.
Proof.
  intros Hc cs. unfold registerClient, theConn. unfold mbind at 1, stM_bind at 1. rewrite Hc.
  erewrite stM_bind_run by done. cbn beta zeta. fold cs. unfold registerSet, isDupSet. cbn [cs_dup].
  destruct (activeClient cs) as [w|]; destruct (cs_dup cs) as [d|]; st_run;
  match goal with |- context [broadcastPeerStateChangeLocked ?a ?b ?c ?d ?e] =>
    destruct (broadcast_run a b c d e) as (s' & -> & Hreg & Hp) end; exists s';
  (split_and!; [done| |intros x; rewrite Hp; unfold pending; cbn; by rewrite ?pending_alter]); rewrite Hreg;
  unfold regOf; cbn; unfold markDup; rewrite ?coreOf_setIsDup; f_equal; lia.
Qed.

Lemma markDup_ne km c was x : x ≠ c → was ≠ Some x → markDup km c was !! x = km !! x.
Proof. intros Hc Hw. unfold markDup. destruct was as [w|]; [|done]. rewrite !lookup_alter_ne by congruence. done. Qed.

Lemma markDup_in km c w x kx :
  x = c ∨ x = w → km !! x = Some kx → markDup km c (Some w) !! x = Some (mkCore (k_key kx) (k_mesh kx) true (k_disabled kx)).
Proof.
  intros Hx Hk. unfold markDup. set (f := λ k, mkCore _ _ true _). destruct Hx as [-> | ->].
  - rewrite lookup_alter_eq, lookup_alter. case_decide; subst; by rewrite Hk.
  - rewrite (lookup_alter f _ c). case_decide; subst; by rewrite lookup_alter_eq, Hk.
Qed.

Lemma meshFlag_markDup km c was x : k_mesh <$> markDup km c was !! x = k_mesh <$> km !! x.
Proof.
  unfold markDup. destruct was as [w|]; [|done]. set (f := λ k, mkCore _ _ true _).
  rewrite (lookup_alter f _ c). case_decide; subst; rewrite lookup_alter; case_decide; subst; by destruct (km !! _).
Qed.

Lemma registerSet_members c cs : shapeOk cs ∨ cs = mkSet None None → members (registerSet c cs) = {[c]} ∪ members cs.
Proof.
  intros Hs. unfold registerSet, members. cbn. destruct (cs_dup cs) as [d|] eqn:Ed; cbn.
  - set_solver.
  - destruct (activeClient cs) as [w|]; cbn; set_solver.
Qed.

Lemma registerSet_shape c cs : shapeOk cs ∨ cs = mkSet None None → c ∉ members cs → shapeOk (registerSet c cs).
Proof.
  intros Hs Hc. unfold registerSet, shapeOk, members in *. cbn. destruct (cs_dup cs) as [d|] eqn:Ed.
  - destruct Hs as [(Hsz & (a & Hl & Ha & Hin) & Hh & Hone)| ->]; [|discriminate Ed]. cbn. split_and!.
    + rewrite size_union by set_solver. rewrite size_singleton. lia.
    + exists c. set_solver.
    + intros x [Hx|Hx]%elem_of_app; [apply Hh in Hx|]; set_solver.
    + etransitivity; [|exact Hone]. apply subseteq_size. set_solver.
  - destruct Hs as [Hs| ->]; [|cbn; eauto]. destruct Hs as [w Hw]. rewrite Hw in *. cbn. split_and!.
    + rewrite size_union, !size_singleton by set_solver. lia.
    + exists c. set_solver.
    + set_solver.
    + transitivity (size ({[c]} : gset conn)); [|by rewrite size_singleton]. apply subseteq_size. set_solver.
Qed.

Lemma inv_register s s' c sc :
  inv (regOf s) → srv_conns s !! c = Some sc → sc_isDup sc = false → sc_isDisabled sc = false →
  (∀ k cs, clients s !! k = Some cs → c ∉ members cs) →
  registerClient c s = (s', Ok tt) → inv (regOf s').
Proof.
  intros Hi Hc Hdup Hdis Hnew Hrun. destruct (registerClient_run s c sc Hc) as (s1 & Hrun1 & Hreg & _).
  rewrite Hrun in Hrun1. injection Hrun1 as <-. rewrite Hreg. clear Hreg Hrun.
  set (k := sc_key sc) in *. set (cs := default _ _) in *.
  assert (shapeOk cs ∨ cs = mkSet None None) as Hsh.
  { unfold cs. destruct (clients s !! k) as [cs0|] eqn:E; cbn; [left; by apply (iv_sets _ Hi k)|by right]. }
  assert (c ∉ members cs) as Hcm.
  { unfold cs. destruct (clients s !! k) as [cs0|] eqn:E; cbn; [by eapply Hnew|set_solver]. }
  assert (∀ x, x ∈ members cs → ∃ mesh, (coreOf <$> srv_conns s) !! x = Some (mkCore k mesh (bool_decide (is_Some (cs_dup cs))) false)) as Hmem.
  { unfold cs. destruct (clients s !! k) as [cs0|] eqn:E; cbn; [by apply (iv_sets _ Hi k)|set_solver]. }
  assert ((coreOf <$> srv_conns s) !! c = Some (mkCore k (sc_canMesh sc) false false)) as Hcc.
  { rewrite lookup_fmap, Hc. cbn. unfold coreOf. by rewrite Hdup, Hdis. }
  apply (inv_update (regOf s) _ k (registerSet c cs) Hi); cbn.
  - done.
  - done.
  - split; [by apply registerSet_shape|]. rewrite registerSet_members by done. cbn. intros x Hx.
    unfold registerSet. cbn [cs_dup]. destruct (activeClient cs) as [w|] eqn:Ew.
    + assert (bool_decide (is_Some (match cs_dup cs with Some d => Some (mkDup (d_set d ∪ {[c]}) (Some c) (d_sendHistory d ++ [c]))
        | None => Some (mkDup {[c; w]} (Some c) [w]) end)) = true) as -> by (destruct (cs_dup cs); by apply bool_decide_true).
      destruct (decide (x = c ∨ x = w)) as [Hxw|Hxw].
      * assert (∃ mesh dp, (coreOf <$> srv_conns s) !! x = Some (mkCore k mesh dp false)) as (mesh & dp & Hxx).
        { destruct (decide (x = c)) as [->|]; [eauto|]. destruct (Hmem x) as [mesh Hm]; [|eauto]. set_solver. }
        exists mesh. by rewrite (markDup_in _ _ _ _ _ Hxw Hxx).
      * rewrite markDup_ne by naive_solver. assert (x ∈ members cs) as Hxm by set_solver. destruct (Hmem x Hxm) as [mesh Hm].
        exists mesh. rewrite Hm. do 2 f_equal. apply bool_decide_true. unfold members in Hxm. rewrite Ew in Hxm.
        destruct (cs_dup cs); [eauto|set_solver].
    + assert (cs = mkSet None None) as Hcs.
      { destruct Hsh as [Hsh|]; [|done]. destruct (shapeOk_active _ Hsh) as (a & Ha & _). congruence. }
      cbn. rewrite Hcs in *. cbn in *. assert (x = c) as -> by set_solver. exists (sc_canMesh sc). done.
  - intros k2 cs2 x Hne Hk2 Hx. apply markDup_ne; [intros ->; by apply (Hnew k2 cs2)|].
    intros Hw. unfold cs in Hw. destruct (clients s !! k) as [cs0|] eqn:E; [|done]. cbn in Hw.
    apply Hne. symmetry. apply (members_key (regOf s) k cs0 k2 cs2 x Hi E Hk2); [|done].
    destruct (shapeOk_active cs0) as (a & Ha & Hin); [by apply (iv_sets _ Hi k)|]. congruence.
  - intros x. unfold meshFlag. cbn. apply meshFlag_markDup.
  - destruct (clientsMesh s !! k) eqn:E; case_bool_decide as Hb; done.
  - intros w Hw. split; [done|]. intros cs0 Hk Hin. rewrite registerSet_members by done. unfold cs. rewrite Hk. cbn. set_solver.
  - assert (default 0 (Len <$> clients s !! k) = Len cs) as -> by (unfold cs; by destruct (clients s !! k)).
    unfold Len, registerSet. cbn. destruct (cs_dup cs) as [d|] eqn:Ed; cbn.
    + unfold members in Hcm. rewrite Ed in Hcm. rewrite size_union, size_singleton by set_solver. lia.
    + destruct (activeClient cs) as [w|] eqn:Ew; cbn; [|lia]. unfold members in Hcm. rewrite Ed, Ew in Hcm.
      rewrite size_union, !size_singleton by set_solver. lia.
  - assert (default 0 (isDupSet <$> clients s !! k) = isDupSet cs) as -> by (unfold cs; by destruct (clients s !! k)). lia.
  - assert (default 0 (dupLen <$> clients s !! k) = dupLen cs) as -> by (unfold cs; by destruct (clients s !! k)).
    unfold dupLen, registerSet. cbn. destruct (cs_dup cs) as [d|] eqn:Ed; cbn.
    + unfold members in Hcm. rewrite Ed in Hcm. rewrite size_union, size_singleton by set_solver. lia.
    + destruct (activeClient cs) as [w|] eqn:Ew; cbn; [|lia]. unfold members in Hcm. rewrite Ed, Ew in Hcm.
      rewrite size_union, !size_singleton by set_solver. lia.
Qed.

(** ** Unregistering one of several connections *)
Lemma elem_of_trimHistory set lk l x : x ∈ trimHistory set lk l → x ∈ set ∧ x ∈ l.
Proof.
  revert lk. induction l as [|v l IH]; intros lk; cbn; [set_solver|].
  destruct (bool_decide (v ∈ set)) eqn:Ev; cbn; [apply bool_decide_eq_true in Ev|].
  - destruct (negb _); intros Hx; [apply elem_of_cons in Hx as [->|Hx]|]; try apply IH in Hx; set_solver.
  - intros Hx%IH. set_solver.
Qed.

Lemma trimHistory_elem set lk l x : x ∈ set → x ∈ l → x ∈ trimHistory set lk l ∨ lk = Some x.
Proof.
  intros Hs. revert lk. induction l as [|v l IH]; intros lk Hx; cbn; [set_solver|].
  apply elem_of_cons in Hx as [->|Hx].
  - rewrite bool_decide_true by done. cbn. case_bool_decide; cbn; [by right|left; set_solver].
  - destruct (bool_decide (v ∈ set) && negb (bool_decide (lk = Some v))) eqn:E.
    + destruct (IH (Some v) Hx) as [|[= ->]]; left; set_solver.
    + by apply IH.
Qed.

(** The set that is left, still of several connections. *)
Lemma removeClient_shape c cs d :
  shapeOk cs → cs_dup cs = Some d → c ∈ d_set d → size (d_set d ∖ {[c]}) ≠ 1%nat →
  let d' := (removeClient c d).1 in
  (removeClient c d).2 = true ∧ d_set d' = d_set d ∖ {[c]} ∧
  ∃ a, d_last d' = Some a ∧ a ∈ d_set d' ∧ shapeOk (mkSet (Some a) (Some d')).
Proof.
  intros Hs Hd Hc H1. unfold shapeOk in Hs. rewrite Hd in Hs. destruct Hs as (Hsz & (a & Hl & _ & Ha) & Hh & Hone).
  set (set' := d_set d ∖ {[c]}) in *.
  assert (size set' = size (d_set d) - 1)%nat as Hsz' by (unfold set'; rewrite size_difference, size_singleton by set_solver; lia).
  unfold removeClient. fold set'. rewrite bool_decide_false by lia. cbn.
  set (trim := trimHistory set' None (d_sendHistory d)).
  assert (∀ x, x ∈ trim ↔ x ∈ set' ∧ x ∈ d_sendHistory d) as Htrim.
  { intros x. split; [apply elem_of_trimHistory|]. intros [Hx1 Hx2]. by destruct (trimHistory_elem set' None _ x Hx1 Hx2). }
  assert (size (set' ∖ list_to_set trim) <= 1)%nat as Hone'.
  { etransitivity; [|exact Hone]. apply subseteq_size. intros x. rewrite !elem_of_difference, !elem_of_list_to_set, Htrim. unfold set'. set_solver. }
  split; [done|]. split; [done|].
  assert (∃ b, match (if bool_decide (d_last d = Some c) then None else d_last d) with
               | Some l => Some l | None => last trim end = Some b ∧ b ∈ set') as (b & Hb & Hbs).
  { case_bool_decide as Hlc.
    - destruct (last trim) as [b|] eqn:Eb.
      + exists b. split; [done|]. apply last_Some_elem_of in Eb. by apply Htrim in Eb as [? _].
      + exfalso. apply last_None in Eb. rewrite Eb in Hone'. cbn in Hone'. rewrite difference_empty_L in Hone'. lia.
    - exists a. split; [by rewrite Hl|]. unfold set'. set_solver. }
  exists b. split; [|split; [done|]].
  - rewrite <- Hb. by case_bool_decide; [destruct (last trim)|destruct (d_last d)].
  - unfold shapeOk. cbn. split_and!; [lia| | |done].
    + exists b. split_and!; [|done|done]. rewrite <- Hb. by case_bool_decide; [destruct (last trim)|destruct (d_last d)].
    + intros x Hx. by apply Htrim in Hx as [? _].
Qed.

Lemma size_1_elements (X : gset conn) : size X = 1%nat → ∃ x, elements X = [x] ∧ X = {[x]}.
Proof.
  intros [x Hx]%size_1_elem_of. assert (X = {[x]}) as -> by set_solver. exists x. by rewrite elements_singleton.
Qed.

Lemma unregisterDup_run s c k cs d :
  inv (regOf s) → clients s !! k = Some cs → cs_dup cs = Some d → c ∈ d_set d →
  ∃ s' cs', unregisterDup c k cs d s = (s', Ok tt) ∧ shapeOk cs' ∧ members cs' = members cs ∖ {[c]} ∧
    clients s' = <[k := cs']> (clients s) ∧ setOk (regOf s') k cs' ∧
    (∀ x, x ∉ members cs' → srv_conns s' !! x = srv_conns s !! x) ∧
    (∀ x, meshFlag (regOf s') x = meshFlag (regOf s) x) ∧
    (∀ x, sc_peerStateChange <$> srv_conns s' !! x = sc_peerStateChange <$> srv_conns s !! x) ∧
    srv_dupPolicy s' = srv_dupPolicy s ∧ clientsMesh s' = clientsMesh s ∧ watchers s' = watchers s ∧
    curClients s' = curClients s ∧ dupClientKeys s' = dupClientKeys s - 1 + isDupSet cs' ∧
    dupClientConns s' = dupClientConns s - dupLen cs + dupLen cs'.
Proof.
  intros Hi Hk Hd Hc. destruct (iv_sets _ Hi k cs Hk) as [Hsh Hmem].
  assert (members cs = d_set d) as Hms by (unfold members; by rewrite Hd).
  assert (dupLen cs = Z.of_nat (size (d_set d))) as HdL by (unfold dupLen; by rewrite Hd).
  assert (size (d_set d ∖ {[c]}) = size (d_set d) - 1 ∧ 2 <= size (d_set d))%nat as [Hsz H2].
  { split; [by rewrite size_difference, size_singleton by set_solver|]. unfold shapeOk in Hsh. rewrite Hd in Hsh. apply Hsh. }
  unfold unregisterDup. destruct (removeClient c d) as [d' b] eqn:Erm.
  assert (b = true ∧ d_set d' = d_set d ∖ {[c]}) as [-> Hset'].
  { unfold removeClient in Erm. rewrite bool_decide_false in Erm by lia. by injection Erm as <- <-. }
  st_run. rewrite Hset'. destruct (decide (size (d_set d ∖ {[c]}) = 1%nat)) as [E1|E1].
  - rewrite bool_decide_true by done. st_run. destruct (size_1_elements _ E1) as (x & -> & HX). st_run.
    assert (x ∈ members cs) as Hx by (rewrite Hms; set_solver). destruct (Hmem x Hx) as [mesh Hcore].
    eexists _, (mkSet (Some x) None). split; [done|]. cbn. split_and!; try done.
    + rewrite Hms, HX. done.
    + split; [unfold shapeOk; cbn; eauto|]. intros y Hy. unfold members in Hy. cbn in Hy. apply elem_of_singleton in Hy as ->.
      exists mesh. cbn. rewrite coreOf_setIsDup, coreOf_setIsDisabled, !lookup_alter_eq. cbn in Hcore. by rewrite Hcore.
    + intros y Hy. unfold members in Hy. cbn in Hy. rewrite !lookup_alter_ne by set_solver. done.
    + intros y. unfold meshFlag. cbn. rewrite coreOf_setIsDup, coreOf_setIsDisabled, !lookup_alter.
      repeat case_decide; try done. subst. by destruct ((coreOf <$> srv_conns s) !! y).
    + intros y. rewrite !lookup_alter. repeat case_decide; try done. subst. by destruct (srv_conns s !! y).
    + unfold isDupSet. cbn. lia.
    + rewrite HdL. unfold dupLen. cbn. lia.
  - rewrite bool_decide_false by done. st_run.
    destruct (removeClient_shape c cs d Hsh Hd Hc E1) as (_ & _ & a & Hl & Ha & Hsh'). rewrite Erm in *. cbn [fst] in *.
    assert (a ∈ members cs) as Ham by (rewrite Hms; rewrite Hset' in Ha; set_solver).
    destruct (Hmem a Ham) as [mesh Hcore]. cbn in Hcore. rewrite lookup_fmap in Hcore.
    assert (∀ s2, srv_conns s2 = srv_conns s → pickActiveClient s2 (mkSet (activeClient cs) (Some d')) = Some a) as Hpick.
    { intros s2 Hs2. unfold pickActiveClient. cbn. rewrite Hl, Hs2. destruct (srv_conns s !! a) as [sca|]; [|done]. cbn in *.
      unfold coreOf in Hcore. injection Hcore as _ _ _ Hdis. by rewrite Hdis. }
    rewrite Hpick by done. eexists _, (mkSet (Some a) (Some d')). split; [done|].
    split; [exact Hsh'|]. split; [rewrite Hms; exact Hset'|]. split; [done|]. split; [|cbn; split_and!; try done].
    + split; [done|]. intros y Hy. unfold members in Hy. cbn in Hy. rewrite Hset' in Hy.
      destruct (Hmem y) as [my Hy']; [rewrite Hms; set_solver|]. exists my. cbn. rewrite Hd in Hy'. done.
    + unfold isDupSet. cbn. lia.
    + rewrite HdL. unfold dupLen. cbn. rewrite Hset'. lia.
Qed.

(** ** Unregistering *)
Lemma inv_delete r r' k cs :
  inv r → r_clients r !! k = Some cs → r_policy r' = r_policy r → r_clients r' = delete k (r_clients r) →
  r_core r' = r_core r →
  r_mesh r' = (if bool_decide (r_mesh r !! k = Some MeshNil) then delete k (r_mesh r) else r_mesh r) →
  (∀ w, w ∈ r_watchers r' → w ∈ r_watchers r ∧ w ∉ members cs) →
  r_cur r' = r_cur r - Len cs → r_dupKeys r' = r_dupKeys r - isDupSet cs → r_dupConns r' = r_dupConns r - dupLen cs →
  inv r'.
Proof.
  intros Hi Hk Hpol Hcl Hcore Hmesh Hw Hcur Hdk Hdc. split.
  - rewrite Hpol. apply Hi.
  - rewrite Hcl. intros k2 cs2 [_ H2]%lookup_delete_Some. destruct (iv_sets _ Hi _ _ H2) as [Hsh Hm]. split; [done|]. by rewrite Hcore.
  - rewrite Hcl, Hmesh. intros k2 [cs2 [Hne H2]%lookup_delete_Some]. pose proof (iv_mesh _ Hi k2 ltac:(eauto)).
    case_bool_decide; [|done]. by rewrite lookup_delete_ne.
  - rewrite Hcl, Hmesh. intros k2 Hk2. case_bool_decide as Hb.
    + apply lookup_delete_Some in Hk2 as [Hne Hk2]. rewrite lookup_delete_ne by done. by apply (iv_nil _ Hi).
    + rewrite lookup_delete_ne by congruence. by apply (iv_nil _ Hi).
  - rewrite Hmesh. intros k2 e. case_bool_decide; [intros [_ ?]%lookup_delete_Some|]; by eapply (iv_multi _ Hi).
  - intros w Hww. destruct (Hw w Hww) as [Hwr Hnm]. destruct (iv_watch _ Hi w Hwr) as (k2 & cs2 & d & Hc & Hk2 & Hin).
    exists k2, cs2, d. rewrite Hcore, Hcl. split_and!; [done| |done]. rewrite lookup_delete_ne; [done|]. intros ->. congruence.
  - rewrite Hcur, (iv_cur _ Hi), Hcl, (total_delete Len _ _ _ Hk). lia.
  - rewrite Hdk, (iv_dupKeys _ Hi), Hcl, (total_delete isDupSet _ _ _ Hk). lia.
  - rewrite Hdc, (iv_dupConns _ Hi), Hcl, (total_delete dupLen _ _ _ Hk). lia.
Qed.

Lemma unregisterSingle_run s c k cs :
  activeClient cs = Some c →
  ∃ s', unregisterSingle c k cs s = (s', Ok true) ∧
    regOf s' = mkReg (srv_dupPolicy s) (coreOf <$> srv_conns s) (delete k (clients s))
      (if bool_decide (clientsMesh s !! k = Some MeshNil) then delete k (clientsMesh s) else clientsMesh s)
      (watchers s) (curClients s) (dupClientKeys s) (dupClientConns s) ∧
    ∀ x, pending s' x = (λ l, if bool_decide (x ∈ watchers s)
      then l ++ [mkPeerConnState (AddrPortFrom AddrZero 0) k 0 false] else l) <$> pending s x.
Proof.
  intros Ha. unfold unregisterSingle. rewrite bool_decide_false by (intros ?; congruence). st_run. cbn [clientsMesh setClients].
  set (s1 := setClients (delete k) s).
  assert (∃ s2, (match clientsMesh s !! k with
                 | Some MeshNil => _ ← modS (setMesh (delete k)); notePeerGoneFromRegionLocked k
                 | _ => mret tt end) s1 = (s2, Ok tt) ∧ srv_conns s2 = srv_conns s ∧ watchers s2 = watchers s ∧
     regOf s2 = mkReg (srv_dupPolicy s) (coreOf <$> srv_conns s) (delete k (clients s))
      (if bool_decide (clientsMesh s !! k = Some MeshNil) then delete k (clientsMesh s) else clientsMesh s)
      (watchers s) (curClients s) (dupClientKeys s) (dupClientConns s)) as (s2 & Hrun & Hconns & Hwat & Hreg).
  { destruct (decide (clientsMesh s !! k = Some MeshNil)) as [E|E].
    - rewrite E, bool_decide_true by done. st_run. destruct (notePeerGone_run k (setMesh (delete k) s1)) as (s2 & Hrun & Hreg & Hc).
      { cbn. apply lookup_delete_eq. }
      exists s2. rewrite Hrun. split_and!; [done|by rewrite Hc|by injection Hreg|by rewrite Hreg].
    - rewrite bool_decide_false by done. exists s1. split_and!; [|done..]. by destruct (clientsMesh s !! k) as [[]|]. }
  erewrite stM_bind_run by exact Hrun. cbn beta.
  destruct (broadcast_run k (AddrPortFrom AddrZero 0) 0 false s2) as (s3 & Hrun3 & Hreg3 & Hp).
  erewrite stM_bind_run by exact Hrun3. cbn beta. exists s3. split_and!; [done|by rewrite Hreg3, Hreg|].
  intros x. rewrite Hp, Hwat. unfold pending. by rewrite Hconns.
Qed.

(** The end of [unregisterClient], for a connection of the set. *)
Lemma unregisterClient_run s c :
  inv (regOf s) → registered s c →
  ∃ s' sc cs, unregisterClient c s = (s', Ok tt) ∧ inv (regOf s') ∧
    srv_conns s !! c = Some sc ∧ clients s !! sc_key sc = Some cs ∧ c ∈ members cs ∧
    (∀ w, w ∈ watchers s' ↔ w ∈ watchers s ∧ w ≠ c) ∧
    dom (clients s') = (if bool_decide (is_Some (cs_dup cs)) then dom (clients s) else dom (clients s) ∖ {[sc_key sc]}) ∧
    (∀ x, pending s' x = (λ l, if bool_decide (cs_dup cs = None ∧ x ∈ watchers s)
      then l ++ [mkPeerConnState (AddrPortFrom AddrZero 0) (sc_key sc) 0 false] else l) <$> pending s x) ∧
    (∀ k' cs', clients s' !! k' = Some cs' → ∃ cs0, clients s !! k' = Some cs0 ∧ members cs' = members cs0 ∖ {[c]}).
Proof.
  intros Hi (sc & cs & Hc & Hk & Hin). set (k := sc_key sc) in *.
  destruct (iv_sets _ Hi k cs Hk) as [Hsh Hmem]. destruct (Len_members cs Hsh) as [HL HL1].
  unfold unregisterClient, theConn. unfold mbind at 1, stM_bind at 1. rewrite Hc. st_run. fold k. rewrite Hk.
  assert (∀ w, w ∈ (if sc_canMesh sc then watchers s ∖ {[c]} else watchers s) ↔ w ∈ watchers s ∧ w ≠ c) as Hwc.
  { intros w. destruct (sc_canMesh sc) eqn:Em; [set_solver|]. split; [|tauto]. intros Hw. split; [done|]. intros ->.
    destruct (iv_watch _ Hi c Hw) as (k2 & cs2 & d2 & Hcore & _). cbn in Hcore. rewrite lookup_fmap, Hc in Hcore. cbn in Hcore.
    unfold coreOf in Hcore. congruence. }
  assert (∀ k' cs', k' ≠ k → clients s !! k' = Some cs' → members cs' = members cs' ∖ {[c]}) as Hothers.
  { intros k' cs' Hne Hk'. enough (c ∉ members cs') by set_solver. intros Hc'. apply Hne.
    by apply (members_key (regOf s) k' cs' k cs c). }
  destruct (cs_dup cs) as [d|] eqn:Ed.
  - assert (c ∈ d_set d) as Hcd by (unfold members in Hin; by rewrite Ed in Hin).
    destruct (unregisterDup_run s c k cs d Hi Hk Ed Hcd) as (s1 & cs' & Hrun & Hsh' & Hms' & Hcl & Hset & Hother & Hflag & Hpend & Hpol & Hmesh & Hw & Hcur & Hdk & Hdc).
    erewrite stM_bind_run by (erewrite stM_bind_run by exact Hrun; done). cbn [negb].
    destruct (Len_members cs' Hsh') as [HL' _].
    assert (Z.of_nat (size (members cs')) = Z.of_nat (size (members cs)) - 1) as Hsz.
    { rewrite Hms', size_difference, size_singleton by set_solver. lia. }
    set (w' := if sc_canMesh sc then watchers s ∖ {[c]} else watchers s) in *.
    eexists _, sc, cs. split.
    { erewrite stM_bind_run by (instantiate (1 := tt); instantiate (1 := setWatchers (λ _, w') s1); unfold w', modS;
        destruct (sc_canMesh sc); [by rewrite <- Hw|by rewrite <- Hw; destruct s1]). st_run. done. }
    split; [|split_and!; try done].
    + apply (inv_update (regOf s) _ k cs' Hi); cbn; try done.
      * intros k2 cs2 x Hne Hk2 Hx. rewrite !lookup_fmap, Hother; [done|]. rewrite Hms'. intros [Hxc _]%elem_of_difference.
        apply Hne. by apply (members_key (regOf s) k2 cs2 k cs x).
      * rewrite bool_decide_true by (apply (iv_mesh _ Hi); eauto). done.
      * intros w Hw'. destruct (proj1 (Hwc w) Hw') as [? ?]. split; [done|]. intros cs0 Hcs0 Hin0. rewrite Hk in Hcs0. injection Hcs0 as <-.
        rewrite Hms'. set_solver.
      * rewrite Hk. cbn. rewrite Hcur. lia.
      * rewrite Hk. cbn. rewrite Hdk. unfold isDupSet at 2. rewrite Ed. lia.
      * rewrite Hk. cbn. lia.
    + cbn. rewrite Hcl, Ed. rewrite bool_decide_true by eauto. apply dom_insert_lookup_L. eauto.
    + intros x. rewrite Ed. rewrite bool_decide_false by (intros [? _]; done).
      rewrite (option_fmap_ext _ id) by done. rewrite option_fmap_id. apply Hpend.
    + cbn. rewrite Hcl. intros k' cs2. rewrite lookup_insert. case_decide; [intros [= <-]; subst k'; eauto|eauto].
  - assert (activeClient cs = Some c) as Ha.
    { unfold members in Hin. rewrite Ed in Hin. destruct (activeClient cs); [set_solver|set_solver]. }
    destruct (unregisterSingle_run s c k cs Ha) as (s1 & Hrun & Hreg & Hpend).
    assert (members cs = {[c]}) as Hms by (unfold members; by rewrite Ed, Ha).
    erewrite stM_bind_run by exact Hrun. cbn [negb].
    set (w' := if sc_canMesh sc then watchers s ∖ {[c]} else watchers s) in *.
    assert (watchers s1 = watchers s) as Hw by (by injection Hreg).
    eexists _, sc, cs. split.
    { erewrite stM_bind_run by (instantiate (1 := tt); instantiate (1 := setWatchers (λ _, w') s1); unfold w', modS;
        destruct (sc_canMesh sc); [by rewrite <- Hw|by rewrite <- Hw; destruct s1]). st_run. done. }
    injection Hreg as Hpol Hcore Hcl Hmesh Hw1 Hcur Hdk Hdc.
    split; [|split_and!; try done].
    + apply (inv_delete (regOf s) _ k cs Hi); cbn; try done.
      * intros w Hw'. rewrite Hms. destruct (proj1 (Hwc w) Hw'). set_solver.
      * rewrite Hcur. unfold Len. rewrite Ed, Ha. lia.
      * rewrite Hdk. unfold isDupSet. rewrite Ed. lia.
      * rewrite Hdc. unfold dupLen. rewrite Ed. lia.
    + cbn. rewrite Hcl, Ed. rewrite bool_decide_false by (by intros []). apply dom_delete_L.
    + intros x. unfold pending at 1. cbn. change (sc_peerStateChange <$> srv_conns s1 !! x) with (pending s1 x). rewrite Hpend, Ed.
      destruct (pending s x); cbn; [|done]. f_equal. repeat case_bool_decide; naive_solver.
    + cbn. rewrite Hcl. intros k' cs2 [Hne Hk']%lookup_delete_Some. eauto.
Qed.
