(* ===== verification/DerpOps.v ===== *)
(** * The other operations of the registry

    Activity of duplicate connections, the mesh of forwarders, watchers and the
    bookkeeping that leaves the registry alone: they keep the invariant and return. *)
From S2P Require Import Prelude GoState NetBuf NetAddr DerpServer DerpInv.

(** ** Activity *)
Lemma noteClientActivityLocked_run s c :
  inv (regOf s) → registered s c →
  ∃ s', noteClientActivityLocked c s = (s', Ok tt) ∧ inv (regOf s') ∧
    dom (clients s') = dom (clients s) ∧ watchers s' = watchers s ∧ srv_conns s' = srv_conns s ∧ registered s' c ∧
    (∀ sc cs, srv_conns s !! c = Some sc → clients s' !! sc_key sc = Some cs → activeClient cs = Some c) ∧
    (∀ k' cs', clients s' !! k' = Some cs' → ∃ cs0, clients s !! k' = Some cs0 ∧ members cs' = members cs0).
Proof.
  intros Hi Hreg. pose proof Hreg as (sc & cs & Hc & Hk & Hin). set (k := sc_key sc) in *.
  destruct (iv_sets _ Hi k cs Hk) as [Hsh Hmem]. pose proof (iv_policy _ Hi) as Hpol. cbn in Hpol.
  unfold noteClientActivityLocked, theConn. unfold mbind at 1, stM_bind at 1. rewrite Hc. st_run. fold k. rewrite Hk.
  destruct (cs_dup cs) as [d|] eqn:Ed.
  - rewrite Hpol. rewrite (bool_decide_true (lastWriterIsActive = lastWriterIsActive)) by done. cbn [orb d_sendHistory d_set d_last].
    rewrite (bool_decide_false (lastWriterIsActive = disableFighters)) by done. cbn [andb].
    assert (members cs = d_set d) as Hms by (unfold members; by rewrite Ed). rewrite Hms in Hin.
    pose proof Hsh as Hsh0. unfold shapeOk in Hsh0. rewrite Ed in Hsh0. destruct Hsh0 as (Hsz & _ & Hh & Hone).
    set (hist := if bool_decide (last (d_sendHistory d) = Some c) then d_sendHistory d else d_sendHistory d ++ [c]).
    set (cs' := mkSet (Some c) (Some (mkDup (d_set d) (Some c) hist))).
    assert (setOk (regOf s) k cs') as Hset.
    { split; [|intros x; unfold members; cbn; intros Hx; destruct (Hmem x) as [m Hm]; [by rewrite Hms|]; exists m; exact Hm].
      unfold shapeOk. cbn. split_and!; [done|by exists c| |].
      - unfold hist. destruct (bool_decide (last _ = _)); [exact Hh|]. intros x [?|Hx]%elem_of_app; [by apply Hh|]. apply list_elem_of_singleton in Hx as ->. done.
      - unfold hist. destruct (bool_decide (last _ = _)); [done|]. etransitivity; [|exact Hone]. apply subseteq_size. set_solver. }
    assert (∀ s', regOf s' = mkReg (srv_dupPolicy s) (coreOf <$> srv_conns s) (<[k := cs']> (clients s)) (clientsMesh s) (watchers s)
      (curClients s) (dupClientKeys s) (dupClientConns s) → inv (regOf s')) as Hinv.
    { intros s' Hr. rewrite Hr. apply (inv_update (regOf s) _ k cs' Hi); cbn; try done.
      - rewrite bool_decide_true by (apply (iv_mesh _ Hi); eauto). done.
      - intros w Hw. split; [done|]. intros cs0 Hk0. rewrite Hk in Hk0. injection Hk0 as <-. by rewrite Hms.
      - rewrite Hk. cbn. unfold Len. rewrite Ed. cbn. lia.
      - rewrite Hk. cbn. unfold isDupSet. rewrite Ed. cbn. lia.
      - rewrite Hk. cbn. unfold dupLen. rewrite Ed. cbn. lia. }
    assert (∃ s', (_ ← setSet k (mkSet (Some c) (Some (mkDup (d_set d) (Some c) (d_sendHistory d))));
       if bool_decide (last (d_sendHistory d) = Some c) then mret ()
       else active ← mret (Some c); setSet k (mkSet active (Some (mkDup (d_set d) (Some c) (d_sendHistory d ++ [c]))))) s = (s', Ok tt) ∧
       srv_conns s' = srv_conns s ∧
       regOf s' = mkReg (srv_dupPolicy s) (coreOf <$> srv_conns s) (<[k := cs']> (clients s)) (clientsMesh s) (watchers s)
      (curClients s) (dupClientKeys s) (dupClientConns s)) as (s' & Hrun & Hcs & Hr).
    { st_run. unfold cs', hist. destruct (bool_decide (last _ = _)); [by eexists|]. st_run. eexists. split; [done|]. split; [done|].
      unfold regOf. cbn. by rewrite insert_insert_eq. }
    exists s'. split; [exact Hrun|]. split; [by apply Hinv|]. injection Hr as Hp' Hc' Hcl' Hm' Hw' _ _ _. split_and!; [|done|done| | |].
    + rewrite Hcl'. apply dom_insert_lookup_L. eauto.
    + exists sc, cs'. rewrite Hcs, Hcl'. split_and!; [done|fold k; by rewrite lookup_insert_eq|done].
    + intros sc0 cs0 Hsc0 Hcs0. injection Hsc0 as <-. fold k in Hcs0. rewrite Hcl', lookup_insert_eq in Hcs0.
      by injection Hcs0 as <-.
    + rewrite Hcl'. intros k' cs2. rewrite lookup_insert. destruct (decide (k = k')) as [<-|]; [|eauto]. intros [= Heq]. exists cs. by rewrite <- Heq.
  - exists s. split_and!; try done; [|eauto]. intros sc0 cs0 Hsc0 Hcs0. injection Hsc0 as <-. fold k in Hcs0.
    rewrite Hk in Hcs0. injection Hcs0 as <-. unfold members in Hin. rewrite Ed in Hin. destruct (activeClient cs); set_solver.
Qed.

(** ** Forwarders *)
Lemma inv_setMesh r m' :
  inv r →
  (∀ k, is_Some (r_clients r !! k) → is_Some (m' !! k)) → (∀ k, m' !! k = Some MeshNil → is_Some (r_clients r !! k)) →
  (∀ k e, m' !! k = Some e → multiOk e) →
  inv (mkReg (r_policy r) (r_core r) (r_clients r) m' (r_watchers r) (r_cur r) (r_dupKeys r) (r_dupConns r)).
Proof. intros [] H1 H2 H3. by split. Qed.

Lemma inv_meshInsert r k e :
  inv r → multiOk e → (e = MeshNil → is_Some (r_clients r !! k)) →
  inv (mkReg (r_policy r) (r_core r) (r_clients r) (<[k := e]> (r_mesh r)) (r_watchers r) (r_cur r) (r_dupKeys r) (r_dupConns r)).
Proof.
  intros Hi He Hnil. apply inv_setMesh; [done|..].
  - intros k2 Hk2. rewrite lookup_insert_is_Some'. right. by apply (iv_mesh _ Hi).
  - intros k2. rewrite lookup_insert. case_decide; [subst; intros [= ->]; auto|apply (iv_nil _ Hi)].
  - intros k2 e2. rewrite lookup_insert. case_decide; [intros [= <-]; done|apply (iv_multi _ Hi)].
Qed.

Definition frame (s s' : Server) : Prop :=
  srv_conns s' = srv_conns s ∧ clients s' = clients s ∧ watchers s' = watchers s.

Lemma multi_add_Ok m f : mf_all m !! f = None → multiOk (MeshMulti m) → multiOk (MeshMulti (multi_add m f)).
Proof.
  intros Hf [H1 H2]. split; cbn.
  - rewrite map_size_insert_None by done. lia.
  - rewrite lookup_insert_is_Some'. by right.
Qed.

Lemma AddPacketForwarder_run s k f :
  inv (regOf s) → ∃ s', AddPacketForwarder k f s = (s', Ok tt) ∧ inv (regOf s') ∧ frame s s'.
Proof.
  intros Hi. unfold AddPacketForwarder. st_run. destruct (clientsMesh s !! k) as [[|prev|m]|] eqn:E.
  - eexists. split; [done|]. split; [by apply (inv_meshInsert _ k (MeshOne f) Hi)|done].
  - case_bool_decide as Hpf; [by exists s|]. eexists. split; [done|]. split; [|done]. apply (inv_meshInsert _ k _ Hi); [|done].
    split; cbn; [|rewrite lookup_insert_is_Some'; right; rewrite lookup_singleton_eq; eauto].
    rewrite map_size_insert_None by (by rewrite lookup_singleton_ne). by rewrite map_size_singleton.
  - case_bool_decide as Hmf; [by exists s|]. eexists. split; [done|]. split; [|done]. apply (inv_meshInsert _ k _ Hi); [|done].
    apply multi_add_Ok; [by destruct (mf_all m !! f); [destruct Hmf; eauto|]|]. by apply (iv_multi _ Hi k).
  - eexists. split; [done|]. split; [by apply (inv_meshInsert _ k (MeshOne f) Hi)|done].
Qed.

(** [lowest] finds a forwarder with the smallest number. *)
Lemma lowest_spec (all : gmap forwarder Z) :
  match lowest all with
  | Some (k, v) => all !! k = Some v ∧ ∀ k' v', all !! k' = Some v' → v <= v'
  | None => all = ∅
  end.
Proof.
  unfold lowest. apply (map_fold_weak_ind (λ acc m, match acc with
    | Some (k, v) => m !! k = Some v ∧ ∀ k' v', m !! k' = Some v' → v <= v' | None => m = ∅ end)); [done|].
  intros k v m acc Hk IH. destruct acc as [[k0 v0]|].
  - destruct IH as [H0 Hmin]. assert (k ≠ k0) by congruence. destruct (Z.ltb_spec v v0).
    + split; [apply lookup_insert_eq|]. intros k' v'. rewrite lookup_insert. case_decide; [intros [= <-]; lia|].
      intros H'%Hmin. lia.
    + split; [by rewrite lookup_insert_ne|]. intros k' v'. rewrite lookup_insert. case_decide; [intros [= <-]; lia|]. apply Hmin.
  - subst m. split; [apply lookup_insert_eq|]. intros k' v'. rewrite lookup_insert. case_decide; [intros [= <-]; lia|].
    by rewrite lookup_empty.
Qed.

Lemma deleteLocked_Ok m f m' o :
  multiOk (MeshMulti m) → deleteLocked m f = (m', o) →
  multiOk (match o with Some r => MeshOne r | None => MeshMulti m' end) ∧
  (match o with Some r => MeshOne r | None => MeshMulti m' end) ≠ MeshNil.
Proof.
  intros [Hsz Hpref] Hdel. unfold deleteLocked in Hdel. set (all := delete f (mf_all m)) in *. injection Hdel as <- <-.
  split; [|by case_match]. assert (1 <= size all)%nat as H1.
  { unfold all. rewrite map_size_delete. case_match; unfold id; lia. }
  case_bool_decide as H2.
  - destruct (map_to_list all) as [|[k v] l] eqn:El; [|done]. apply map_to_list_empty_iff in El. rewrite El, map_size_empty in H1. lia.
  - split; cbn; [lia|]. case_bool_decide as Hf; [|unfold all; by rewrite lookup_delete_ne].
    pose proof (lowest_spec all) as Hlow. destruct (lowest all) as [[k v]|]; [destruct Hlow as [-> _]; eauto|].
    rewrite Hlow, map_size_empty in H1. lia.
Qed.

Lemma RemovePacketForwarder_run s k f :
  inv (regOf s) → ∃ s', RemovePacketForwarder k f s = (s', Ok tt) ∧ inv (regOf s') ∧ frame s s'.
Proof.
  intros Hi. unfold RemovePacketForwarder. st_run. destruct (clientsMesh s !! k) as [[|g|m]|] eqn:E; [by exists s| | |by exists s].
  - case_bool_decide as Hgf; cbn [negb]; [|by exists s]. destruct (decide (is_Some (clients s !! k))) as [Hk|Hk].
    + rewrite bool_decide_true by done. eexists. split; [done|]. split; [|done]. by apply (inv_meshInsert _ k MeshNil Hi).
    + rewrite bool_decide_false by done. st_run.
      destruct (notePeerGone_run k (setMesh (delete k) s)) as (s' & Hrun & Hreg & Hc); [cbn; apply lookup_delete_eq|].
      exists s'. split; [exact Hrun|]. injection Hreg as Hp Hcr Hcl Hm Hw Hcu Hdk Hdc. split; [|done].
      unfold regOf. rewrite Hp, Hcr, Hcl, Hm, Hw, Hcu, Hdk, Hdc.
      apply (inv_setMesh (regOf s) (delete k (clientsMesh s)) Hi).
      * intros k2 Hk2. rewrite lookup_delete_ne; [by apply (iv_mesh _ Hi)|]. intros <-. done.
      * intros k2 [_ Hk2]%lookup_delete_Some. by apply (iv_nil _ Hi).
      * intros k2 e [_ Hk2]%lookup_delete_Some. by eapply (iv_multi _ Hi).
  - pose proof (iv_multi _ Hi k _ E) as Hm. destruct Hm as [Hsz Hpref].
    rewrite (proj2 (Nat.ltb_ge _ _)) by lia. destruct (deleteLocked m f) as [m' o] eqn:Edel.
    eexists. split; [done|]. split; [|done]. destruct (deleteLocked_Ok m f m' o) as [H1 H2]; [done|done|].
    apply (inv_meshInsert _ k _ Hi); [done|]. intros Hnil. by destruct H2.
Qed.
