(* ===== verification/DerpSteps.v ===== *)
(** * The DERP server as a state machine

    The critical sections of the server, in any order the connections' goroutines
    may run them, and what holds in every state that they reach. *)
From S2P Require Import Prelude GoState NetBuf NetAddr DerpServer DerpInv DerpOps.

(** The server, what each watcher was sent already, and the connections whose
    send loop is done. *)
Record sys := mkSys { sy_srv : Server; sy_told : gmap conn (list peerConnState); sy_done : gset conn }.

(** A connection as [accept] makes it. *)
Definition fresh (sc : sclient) : Prop :=
  sc_isDup sc = false ∧ sc_isDisabled sc = false ∧ sc_preferred sc = false ∧ sc_sawSrc sc = ∅ ∧ sc_peerStateChange sc = [].

(** One critical section.  The goroutine of a connection runs only while it is
    registered; [step_activity] may follow a check of [isDup] that is out of date. *)
Inductive step : sys → sys → Prop :=
  | step_accept s told dn c sc s' :
      srv_conns s !! c = None → fresh sc →
      registerClient c (setConns <[c := sc]> s) = (s', Ok tt) → step (mkSys s told dn) (mkSys s' told dn)
  | step_unregister s told dn c s' :
      registered s c → unregisterClient c s = (s', Ok tt) → step (mkSys s told dn) (mkSys s' told dn)
  | step_activity s told dn c s' :
      registered s c → noteClientActivityLocked c s = (s', Ok tt) → step (mkSys s told dn) (mkSys s' told dn)
  | step_watch s told dn c ks s' :
      registered s c → c ∉ dn → ks ≡ₚ elements (dom (clients s)) →
      (∀ sc, srv_conns s !! c = Some sc → sc_canMesh sc = true) →
      addWatcher c ks s = (s', Ok tt) → step (mkSys s told dn) (mkSys s' told dn)
  | step_take s told dn c s' batch :
      registered s c → c ∉ dn → takeAll c s = (s', Ok batch) →
      step (mkSys s told dn) (mkSys s' (<[c := default [] (told !! c) ++ batch]> told) dn)
  | step_send s told dn c src s' :
      registered s c → c ∉ dn → noteSendFromSrc c src s = (s', Ok tt) → step (mkSys s told dn) (mkSys s' told dn)
  | step_done s told dn c s' :
      registered s c → c ∉ dn → onSendLoopDone c s = (s', Ok tt) → step (mkSys s told dn) (mkSys s' told (dn ∪ {[c]}))
  | step_preferred s told dn c v s' :
      registered s c → setPreferred c v s = (s', Ok tt) → step (mkSys s told dn) (mkSys s' told dn)
  | step_addForwarder s told dn k f s' :
      AddPacketForwarder k f s = (s', Ok tt) → step (mkSys s told dn) (mkSys s' told dn)
  | step_removeForwarder s told dn k f s' :
      RemovePacketForwarder k f s = (s', Ok tt) → step (mkSys s told dn) (mkSys s' told dn).

Definition start (pk : NodePublic) : sys := mkSys (New pk lastWriterIsActive) ∅ ∅.
Definition reachable (pk : NodePublic) : sys → Prop := rtc step (start pk).

(** ** Bookkeeping leaves the registry alone *)
Lemma theConn_run s c sc : srv_conns s !! c = Some sc → theConn c s = (s, Ok sc).
Proof. unfold theConn. by intros ->. Qed.

Definition sameReg (s s' : Server) : Prop := regOf s' = regOf s ∧ ∀ x, pending s' x = pending s x.

Lemma sameReg_trans s1 s2 s3 : sameReg s1 s2 → sameReg s2 s3 → sameReg s1 s3.
Proof. intros [? H1] [? H2]. split; [congruence|]. intros x. by rewrite H2, H1. Qed.

Lemma modConn_sameReg c f s :
  (∀ sc, coreOf (f sc) = coreOf sc) → (∀ sc, sc_peerStateChange (f sc) = sc_peerStateChange sc) →
  ∃ s', modConn c f s = (s', Ok tt) ∧ sameReg s s' ∧ peerGoneWatchers s' = peerGoneWatchers s ∧ srv_handles s' = srv_handles s ∧
    srv_gone s' = srv_gone s ∧ srv_conns s' = alter f c (srv_conns s).
Proof.
  intros H1 H2. eexists. split; [done|]. split_and!; try done. split.
  - unfold regOf. cbn. f_equal. by apply coreOf_alter.
  - intros x. unfold pending. cbn. by apply pending_alter.
Qed.

Lemma noteSendFromSrc_run s c src :
  is_Some (srv_conns s !! c) → ∃ s', noteSendFromSrc c src s = (s', Ok tt) ∧ sameReg s s'.
Proof.
  intros [sc Hc]. unfold noteSendFromSrc. erewrite stM_bind_run by (by apply theConn_run). cbn beta.
  destruct (sc_sawSrc sc !! src); [by exists s|]. erewrite stM_bind_run by done. cbn beta.
  edestruct (modConn_sameReg c (setSawSrc <[src := srv_handles s]>)) as (s' & Hrun & Hs & _); [done|done|]. by exists s'.
Qed.

Lemma setPreferred_run s c v :
  is_Some (srv_conns s !! c) →
  ∃ s', setPreferred c v s = (s', Ok tt) ∧ sameReg s s' ∧ peerGoneWatchers s' = peerGoneWatchers s ∧ srv_gone s' = srv_gone s.
Proof.
  intros [sc Hc]. unfold setPreferred. erewrite stM_bind_run by (by apply theConn_run). cbn beta.
  case_bool_decide; [by exists s|]. edestruct (modConn_sameReg c (setPref v)) as (s' & Hrun & Hs & Hw & _ & Hg & _); [done|done|].
  erewrite stM_bind_run by exact Hrun. eexists. split; [done|]. split_and!; [|done|done]. destruct Hs as [Hr Hp]. split; [|done].
  unfold regOf in *. cbn. injection Hr as -> -> -> -> -> Hc1 -> ->. by rewrite Hc1, Z.add_0_r.
Qed.

Lemma removeWatches_run l s : ∃ s', removeWatches l s = (s', Ok tt) ∧ sameReg s s' ∧ srv_gone s' = srv_gone s.
Proof.
  revert s. induction l as [|[peer h] l IH]; intros s; cbn [removeWatches]; [by exists s|].
  assert (∃ s1, removePeerGoneFromRegionWatcher peer h s = (s1, Ok tt) ∧ sameReg s s1 ∧ srv_gone s1 = srv_gone s) as (s1 & Hrun & Hs & Hg).
  { unfold removePeerGoneFromRegionWatcher. st_run. destruct (peerGoneWatchers s !! peer); [|by exists s]. by eexists. }
  erewrite stM_bind_run by exact Hrun. destruct (IH s1) as (s2 & Hrun2 & Hs2 & Hg2). exists s2. split_and!; [done| |congruence].
  by eapply sameReg_trans.
Qed.

Lemma onSendLoopDone_run s c :
  is_Some (srv_conns s !! c) → ∃ s', onSendLoopDone c s = (s', Ok tt) ∧ sameReg s s' ∧ srv_gone s' = srv_gone s.
Proof.
  intros [sc Hc]. unfold onSendLoopDone. erewrite stM_bind_run by (by apply theConn_run). cbn beta. apply removeWatches_run.
Qed.

(** ** Watchers *)

(** The keys that a watcher who reads [l] believes connected. *)
Definition view (l : list peerConnState) : gset NodePublic :=
  fold_left (λ v m, if pcs_present m then v ∪ {[pcs_peer m]} else v ∖ {[pcs_peer m]}) l ∅.

Lemma view_snoc l m : view (l ++ [m]) = if pcs_present m then view l ∪ {[pcs_peer m]} else view l ∖ {[pcs_peer m]}.
Proof. unfold view. by rewrite fold_left_app. Qed.

Lemma view_app_present l ks ms :
  Forall2 (λ k m, pcs_present m = true ∧ pcs_peer m = k) ks ms → view (l ++ ms) = view l ∪ list_to_set ks.
Proof.
  intros H. revert l. induction H as [|k m ks ms [Hp Hk] H IH]; intros l; [rewrite app_nil_r; set_solver|].
  replace (l ++ m :: ms) with ((l ++ [m]) ++ ms) by (by rewrite <- app_assoc).
  rewrite IH, view_snoc, Hp, Hk. set_solver.
Qed.

Lemma initialState_spec s ks :
  inv (regOf s) → (∀ k, k ∈ ks → k ∈ dom (clients s)) →
  Forall2 (λ k m, pcs_present m = true ∧ pcs_peer m = k) ks (ks ≫= initialState s).
Proof.
  intros Hi. induction ks as [|k ks IH]; intros Hks; [constructor|]. cbn [mbind list_bind].
  assert (∃ m, initialState s k = [m] ∧ pcs_present m = true ∧ pcs_peer m = k) as (m & -> & Hm).
  { assert (is_Some (clients s !! k)) as [cs Hcs] by (apply elem_of_dom, Hks; set_solver).
    destruct (iv_sets _ Hi k cs Hcs) as [Hsh Hmem]. destruct (shapeOk_active cs Hsh) as (a & Ha & Hin).
    destruct (Hmem a Hin) as [mesh Hcore]. cbn in Hcore. rewrite lookup_fmap in Hcore.
    unfold initialState. rewrite Hcs, Ha. destruct (srv_conns s !! a); [|done]. by eexists. }
  constructor; [done|]. apply IH. intros k' Hk'. apply Hks. set_solver.
Qed.

Lemma addWatcher_run s c ks sc :
  inv (regOf s) → registered s c → srv_conns s !! c = Some sc → sc_canMesh sc = true →
  ∃ s', addWatcher c ks s = (s', Ok tt) ∧ inv (regOf s') ∧ clients s' = clients s ∧
    if bool_decide (sc_key sc = srv_publicKey s) then s' = s
    else watchers s' = watchers s ∪ {[c]} ∧
         ∀ x, pending s' x = (λ l, if bool_decide (x = c) then l ++ (ks ≫= initialState s) else l) <$> pending s x.
Proof.
  intros Hi Hreg Hc Hm. unfold addWatcher. erewrite stM_bind_run by (by apply theConn_run). cbn beta. rewrite Hm. cbn [negb]. st_run.
  case_bool_decide as Hself; [by exists s|]. st_run. eexists. split; [done|]. split_and!; [|done|done|].
  - destruct Hreg as (sc' & cs & Hc' & Hk & Hin). rewrite Hc in Hc'. injection Hc' as <-.
    assert (regOf (setWatchers (λ w, w ∪ {[c]}) (setConns (alter (setState (λ l, l ++ (ks ≫= initialState s))) c) s)) =
      mkReg (srv_dupPolicy s) (coreOf <$> srv_conns s) (clients s) (clientsMesh s) (watchers s ∪ {[c]}) (curClients s) (dupClientKeys s) (dupClientConns s)) as ->.
    { unfold regOf. cbn. f_equal. by apply coreOf_alter. }
    pose proof Hi as [Hp Hsets Hmesh Hnil Hmulti Hw H1 H2 H3]. split; cbn; try done.
    intros w [Hww| ->%elem_of_singleton]%elem_of_union; [by apply Hw|].
    destruct (Hsets _ _ Hk) as [_ Hmem]. destruct (Hmem c Hin) as [mesh Hcore]. cbn in Hcore.
    exists (sc_key sc), cs, (sc_isDup sc). cbn in *. rewrite lookup_fmap, Hc in *. cbn in *. unfold coreOf in *. rewrite Hm in *.
    injection Hcore as _ _ Hdis. by rewrite Hdis.
  - intros x. unfold pending. cbn. rewrite lookup_alter. case_decide as Hx.
    + subst x. rewrite bool_decide_true by done. by rewrite Hc.
    + rewrite bool_decide_false by congruence. by destruct (srv_conns s !! x).
Qed.

Lemma takeAll_run s c sc :
  srv_conns s !! c = Some sc →
  ∃ s', takeAll c s = (s', Ok (sc_peerStateChange sc)) ∧ regOf s' = regOf s ∧
    ∀ x, pending s' x = (λ l, if bool_decide (x = c) then [] else l) <$> pending s x.
Proof.
  intros Hc. unfold takeAll. erewrite stM_bind_run by (by apply theConn_run). st_run. eexists. split; [done|]. split.
  - unfold regOf. cbn. f_equal. by apply coreOf_alter.
  - intros x. unfold pending. cbn. rewrite lookup_alter. case_decide as Hx.
    + subst x. rewrite bool_decide_true by done. by rewrite Hc.
    + rewrite bool_decide_false by congruence. by destruct (srv_conns s !! x).
Qed.

(** ** The invariant of the system *)
Definition inSome (s : Server) (c : conn) : Prop := ∃ k cs, clients s !! k = Some cs ∧ c ∈ members cs.

(** All that a watcher was or will be sent. *)
Definition log (y : sys) (c : conn) : list peerConnState :=
  default [] (sy_told y !! c) ++ default [] (pending (sy_srv y) c).

Record sysInv (y : sys) : Prop := {
  si_reg : inv (regOf (sy_srv y));
  si_view : ∀ c, inSome (sy_srv y) c →
    view (log y c) = if bool_decide (c ∈ watchers (sy_srv y)) then dom (clients (sy_srv y)) else ∅;
  si_told : ∀ c, is_Some (sy_told y !! c) → is_Some (srv_conns (sy_srv y) !! c)
}.

Lemma inSome_conn s c : inv (regOf s) → inSome s c → ∃ sc, srv_conns s !! c = Some sc ∧ registered s c.
Proof.
  intros Hi (k & cs & Hk & Hin). destruct (iv_sets _ Hi k cs Hk) as [_ Hm]. destruct (Hm c Hin) as [mesh Hc].
  cbn in Hc. rewrite lookup_fmap in Hc. destruct (srv_conns s !! c) as [sc|] eqn:E; [|done]. exists sc. split; [done|].
  cbn in Hc. unfold coreOf in Hc. exists sc, cs. split_and!; [done| |done]. congruence.
Qed.

Lemma registered_inSome s c : registered s c → inSome s c.
Proof. intros (sc & cs & _ & Hk & Hin). by exists (sc_key sc), cs. Qed.

Lemma registered_conn s c : registered s c → is_Some (srv_conns s !! c).
Proof. intros (sc & cs & Hc & _). eauto. Qed.

(** A step that changes neither the registry nor the log. *)
Lemma sysInv_same s s' told dn dn' :
  sysInv (mkSys s told dn) → sameReg s s' → sysInv (mkSys s' told dn').
Proof.
  intros [Hi Hv Ht] [Hr Hp]. cbn in *. pose proof Hr as Hr'. injection Hr' as _ Hcore Hcl _ Hw _ _ _. split; cbn.
  - by rewrite Hr.
  - intros c Hc. unfold log in *. cbn in *. rewrite Hp, Hw, Hcl. apply Hv. unfold inSome in *. by rewrite <- Hcl.
  - intros c Hc. apply Ht in Hc. specialize (Hp c). unfold pending in Hp.
    destruct Hc as [sc Hc]. rewrite Hc in Hp. destruct (srv_conns s' !! c); [eauto|done].
Qed.

Lemma sysInv_frame s s' told dn : sysInv (mkSys s told dn) → inv (regOf s') → frame s s' → sysInv (mkSys s' told dn).
Proof.
  intros [Hi Hv Ht] Hi' (Hc & Hcl & Hw). cbn in *. split; cbn; [done| |by rewrite Hc].
  intros c Hin. unfold log, pending, inSome in *. cbn in *. rewrite Hc, Hcl, Hw in *. by apply Hv.
Qed.

(** The log of a connection after a broadcast to the watchers. *)
Lemma log_broadcast s s' told dn c m (b : bool) :
  (pending s' c = (λ l, if b then l ++ [m] else l) <$> pending s c) → is_Some (pending s c) →
  log (mkSys s' told dn) c = if b then log (mkSys s told dn) c ++ [m] else log (mkSys s told dn) c.
Proof.
  intros Hp [l Hl]. unfold log. cbn. rewrite Hp, Hl. cbn. destruct b; [|done]. by rewrite app_assoc.
Qed.

Lemma pending_Some s c : is_Some (srv_conns s !! c) → is_Some (pending s c).
Proof. intros [sc Hc]. unfold pending. rewrite Hc. cbn. eauto. Qed.

Lemma told_keeps s s' (told : gmap conn (list peerConnState)) (f : conn → list peerConnState → list peerConnState) :
  (∀ x, pending s' x = f x <$> pending s x) →
  (∀ c, is_Some (told !! c) → is_Some (srv_conns s !! c)) → ∀ c, is_Some (told !! c) → is_Some (srv_conns s' !! c).
Proof.
  intros Hp Ht c Hc. apply Ht in Hc as [sc Hc]. specialize (Hp c). unfold pending in Hp. rewrite Hc in Hp.
  destruct (srv_conns s' !! c); [eauto|done].
Qed.

Lemma sysInv_accept s told dn c sc s' :
  sysInv (mkSys s told dn) → srv_conns s !! c = None → fresh sc →
  registerClient c (setConns <[c := sc]> s) = (s', Ok tt) → sysInv (mkSys s' told dn).
Proof.
  intros [Hi Hv Ht] Hnew Hfresh Hrun. cbn in *. set (s0 := setConns <[c := sc]> s) in *.
  destruct Hfresh as (Hdup & Hdis & _ & _ & Hpsc).
  assert (∀ k cs, clients s !! k = Some cs → c ∉ members cs) as Hnot.
  { intros k cs Hk Hin. destruct (inSome_conn s c Hi ltac:(by exists k, cs)) as (sc0 & Hc0 & _). congruence. }
  assert (inv (regOf s0)) as Hi0.
  { unfold s0, regOf. cbn. rewrite fmap_insert. by apply (inv_core (regOf s) c (coreOf sc) Hi). }
  assert (srv_conns s0 !! c = Some sc) as Hc0 by (cbn; apply lookup_insert_eq).
  destruct (registerClient_run s0 c sc Hc0) as (s1 & Hrun1 & Hreg & Hp). rewrite Hrun in Hrun1. injection Hrun1 as <-.
  assert (inv (regOf s')) as Hi' by (by apply (inv_register s0 s' c sc)).
  set (k := sc_key sc) in *. set (cs := default _ _) in *. injection Hreg as _ _ Hcl _ Hw _ _ _.
  assert (c ∉ watchers s) as Hcw.
  { intros Hcw. destruct (iv_watch _ Hi c Hcw) as (k2 & cs2 & d & Hcore & _). cbn in Hcore. by rewrite lookup_fmap, Hnew in Hcore. }
  assert (∀ x, x ≠ c → inSome s' x → inSome s x) as Hback.
  { intros x Hx (k2 & cs2 & Hk2 & Hin). rewrite Hcl in Hk2. destruct (decide (k = k2)) as [<-|Hne].
    - rewrite lookup_insert_eq in Hk2. injection Hk2 as <-.
      assert (shapeOk cs ∨ cs = mkSet None None) as Hsh.
      { unfold cs. destruct (clients s0 !! k) as [cs0|] eqn:E; cbn; [left; by apply (iv_sets _ Hi0 k)|by right]. }
      rewrite registerSet_members in Hin by done. unfold cs in Hin. cbn in Hin.
      destruct (clients s !! k) as [cs0|] eqn:E; [exists k, cs0|]; set_solver.
    - rewrite lookup_insert_ne in Hk2 by done. by exists k2, cs2. }
  assert (dom (clients s') = dom (clients s) ∪ {[k]}) as Hdom by (rewrite Hcl, dom_insert_L; cbn; set_solver).
  split; cbn; [done| |].
  - intros x Hx. rewrite Hw. cbn [watchers s0]. destruct (decide (x = c)) as [->|Hxc].
    + rewrite bool_decide_false by done. unfold log. cbn. rewrite Hp. cbn. rewrite bool_decide_false by done.
      unfold pending. rewrite Hc0. cbn. rewrite Hpsc. destruct (told !! c) eqn:Et; [|done].
      exfalso. destruct (Ht c ltac:(eauto)) as [? ?]. congruence.
    + specialize (Hback x Hxc Hx). specialize (Hv x Hback). destruct (inSome_conn s x Hi Hback) as (scx & Hcx & _).
      assert (pending s0 x = pending s x) as Hp0 by (unfold pending; cbn; by rewrite lookup_insert_ne).
      rewrite (log_broadcast s s' told dn x _ _ ltac:(rewrite Hp, Hp0; reflexivity)) by (apply pending_Some; eauto).
      cbn [watchers setConns]. change (watchers s0) with (watchers s). case_bool_decide; [|done]. rewrite view_snoc. cbn. by rewrite Hv, Hdom.
  - eapply (told_keeps s0 s'); [exact Hp|]. intros x Hx. cbn. rewrite lookup_insert_is_Some'. right. by apply Ht.
Qed.

Lemma sysInv_unregister s told dn c s' :
  sysInv (mkSys s told dn) → registered s c → unregisterClient c s = (s', Ok tt) → sysInv (mkSys s' told dn).
Proof.
  intros [Hi Hv Ht] Hreg Hrun. cbn in *.
  destruct (unregisterClient_run s c Hi Hreg) as (s1 & sc & cs & Hrun1 & Hi' & Hc & Hk & Hin & Hw & Hdom & Hp & Hback).
  rewrite Hrun in Hrun1. injection Hrun1 as <-. split; cbn; [done| |eapply (told_keeps s s'); [exact Hp|exact Ht]].
  intros x (k2 & cs2 & Hk2 & Hx). destruct (Hback k2 cs2 Hk2) as (cs0 & Hcs0 & Hm). rewrite Hm in Hx.
  assert (inSome s x) as Hxs by (exists k2, cs0; set_solver). assert (x ≠ c) as Hxc by set_solver.
  specialize (Hv x Hxs). destruct (inSome_conn s x Hi Hxs) as (scx & Hcx & _).
  rewrite (log_broadcast s s' told dn x _ _ (Hp x)) by (apply pending_Some; eauto).
  assert (bool_decide (x ∈ watchers s') = bool_decide (x ∈ watchers s)) as -> by (apply bool_decide_ext; rewrite Hw; tauto).
  rewrite Hdom. destruct (cs_dup cs) as [d|].
  - rewrite (bool_decide_false (_ ∧ _)) by naive_solver. rewrite (bool_decide_true (is_Some (Some d))) by eauto. done.
  - rewrite (bool_decide_false (is_Some None)) by (by intros []).
    destruct (decide (x ∈ watchers s)) as [Hb|Hb].
    + rewrite !bool_decide_true in * by done. rewrite view_snoc. cbn. by rewrite Hv.
    + rewrite (bool_decide_false (_ ∧ _)) by naive_solver. rewrite bool_decide_false in * by done. done.
Qed.

Lemma sysInv_step y y' : sysInv y → step y y' → sysInv y'.
Proof.
  intros Hs Hstep. pose proof Hs as [Hi Hv Ht]. destruct Hstep as
    [s told dn c sc s' Hnew Hfr Hrun|s told dn c s' Hreg Hrun|s told dn c s' Hreg Hrun|s told dn c ks s' Hreg Hdn Hks Hmesh Hrun
    |s told dn c s' batch Hreg Hdn Hrun|s told dn c src s' Hreg Hdn Hrun|s told dn c s' Hreg Hdn Hrun|s told dn c v s' Hreg Hrun
    |s told dn k f s' Hrun|s told dn k f s' Hrun]; cbn in *.
  - by eapply sysInv_accept.
  - by eapply sysInv_unregister.
  - destruct (noteClientActivityLocked_run s c Hi Hreg) as (s1 & Hrun1 & Hi' & Hdom & Hw & Hconns & _ & _ & Hback).
    rewrite Hrun in Hrun1. injection Hrun1 as <-. split; cbn; [done| |by rewrite Hconns].
    intros x (k2 & cs2 & Hk2 & Hx). destruct (Hback k2 cs2 Hk2) as (cs0 & Hcs0 & Hm). rewrite Hm in Hx.
    specialize (Hv x ltac:(by exists k2, cs0)). unfold log, pending in *. cbn in *. by rewrite Hconns, Hdom, Hw.
  - destruct (registered_conn s c Hreg) as [sc Hc].
    destruct (addWatcher_run s c ks sc Hi Hreg Hc (Hmesh sc Hc)) as (s1 & Hrun1 & Hi' & Hcl & Hif).
    rewrite Hrun in Hrun1. injection Hrun1 as <-. case_bool_decide; [by subst|]. destruct Hif as [Hw Hp].
    split; cbn; [done| |eapply (told_keeps s s'); [exact Hp|exact Ht]].
    intros x Hx. rewrite Hcl, Hw. assert (inSome s x) as Hxs by (unfold inSome in *; by rewrite <- Hcl). specialize (Hv x Hxs).
    destruct (decide (x = c)) as [->|Hxc].
    + rewrite bool_decide_true by set_solver. unfold log in *. cbn in *. rewrite Hp, bool_decide_true by done.
      unfold pending in *. rewrite Hc in *. cbn in *. rewrite app_assoc.
      rewrite (view_app_present _ ks) by (apply initialState_spec; [done|]; intros k; rewrite Hks; apply elem_of_elements).
      rewrite Hv. assert (list_to_set ks = dom (clients s)) as ->.
      { apply set_eq. intros k. rewrite elem_of_list_to_set, Hks. apply elem_of_elements. }
      case_bool_decide; set_solver.
    + assert (bool_decide (x ∈ watchers s ∪ {[c]}) = bool_decide (x ∈ watchers s)) as -> by (apply bool_decide_ext; set_solver).
      unfold log in *. cbn in *. rewrite Hp, bool_decide_false by done. rewrite (option_fmap_ext _ id) by done. by rewrite option_fmap_id.
  - destruct (registered_conn s c Hreg) as [sc Hc]. destruct (takeAll_run s c sc Hc) as (s1 & Hrun1 & Hr & Hp).
    rewrite Hrun in Hrun1. injection Hrun1 as <- ->. pose proof Hr as Hr'. injection Hr' as _ _ Hcl _ Hw _ _ _. split; cbn.
    + by rewrite Hr.
    + intros x Hx. rewrite Hcl, Hw. assert (inSome s x) as Hxs by (unfold inSome in *; by rewrite <- Hcl). rewrite <- (Hv x Hxs).
      f_equal. unfold log. cbn. rewrite Hp, lookup_insert. case_decide as Hxc.
      * subst x. rewrite bool_decide_true by done. unfold pending. rewrite Hc. cbn. by rewrite app_nil_r.
      * rewrite bool_decide_false by congruence. rewrite (option_fmap_ext _ id) by done. by rewrite option_fmap_id.
    + intros x Hx. assert (is_Some (srv_conns s !! x)) as Hsx.
      { apply lookup_insert_is_Some' in Hx as [<-|Hx]; [eauto|by apply Ht]. }
      apply pending_Some in Hsx as [l Hl]. specialize (Hp x). rewrite Hl in Hp. unfold pending in Hp.
      destruct (srv_conns s' !! x); [eauto|done].
  - destruct (noteSendFromSrc_run s c src (registered_conn s c Hreg)) as (s1 & Hrun1 & Hsame). rewrite Hrun in Hrun1.
    injection Hrun1 as <-. by eapply sysInv_same.
  - destruct (onSendLoopDone_run s c (registered_conn s c Hreg)) as (s1 & Hrun1 & Hsame & _). rewrite Hrun in Hrun1.
    injection Hrun1 as <-. by eapply sysInv_same.
  - destruct (setPreferred_run s c v (registered_conn s c Hreg)) as (s1 & Hrun1 & Hsame & _). rewrite Hrun in Hrun1.
    injection Hrun1 as <-. by eapply sysInv_same.
  - destruct (AddPacketForwarder_run s k f Hi) as (s1 & Hrun1 & Hi' & Hf). rewrite Hrun in Hrun1.
    injection Hrun1 as <-. by eapply sysInv_frame.
  - destruct (RemovePacketForwarder_run s k f Hi) as (s1 & Hrun1 & Hi' & Hf). rewrite Hrun in Hrun1.
    injection Hrun1 as <-. by eapply sysInv_frame.
Qed.

Lemma sysInv_start pk : sysInv (start pk).
Proof.
  split; cbn; [apply inv_new| |].
  - intros c (k & cs & Hk & _). cbn in Hk. by rewrite lookup_empty in Hk.
  - intros c [x Hx]. by rewrite lookup_empty in Hx.
Qed.

Lemma steps_inv x y : rtc step x y → sysInv x → sysInv y.
Proof. induction 1 as [|x z y Hxz _ IH]; [done|]. intros Hx. apply IH. by eapply sysInv_step. Qed.

Lemma reachable_sysInv pk y : reachable pk y → sysInv y.
Proof. intros Hr. eapply steps_inv; [exact Hr|apply sysInv_start]. Qed.
