(* ===== verification/DerpServing.v ===== *)
(** * What the DERP server guarantees

    Theorems about every state the server reaches, with a run of it as witness. *)
From S2P Require Import Prelude GoState NetBuf NetAddr DerpServer DerpInv DerpOps DerpSteps.

(** ** A run: two connections of one key, one of another, a mesh watcher *)
Definition keyA : NodePublic := [1].
Definition keyB : NodePublic := [2].
Definition keyM : NodePublic := [9].
Definition newConn (k : NodePublic) (mesh : bool) (port : Z) : sclient :=
  mkClient k (AddrPortFrom (Addr4 (be_val [10; 0; 0; 1])) port) mesh false false false false false ∅ [].

(** Starting a connection. *)
Definition acceptConn (c : conn) (sc : sclient) : stM Server unit :=
  _ ← modS (setConns <[c := sc]>); registerClient c.

Definition demo : stM Server unit :=
  _ ← acceptConn 1%nat (newConn keyM true 1);
  _ ← acceptConn 2%nat (newConn keyA false 2);
  _ ← addWatcher 1%nat [keyA; keyM];
  _ ← acceptConn 3%nat (newConn keyA false 3);
  _ ← acceptConn 4%nat (newConn keyB false 4);
  _ ← noteClientActivityLocked 2%nat;
  unregisterClient 4%nat.

Definition demoState : Server := (demo (New [0] lastWriterIsActive)).1.
Definition demoSys : sys := mkSys demoState ∅ ∅.

Ltac is_registered := eexists _, _; split_and!; [vm_compute; reflexivity|vm_compute; reflexivity|vm_compute; tauto].

(** One more step of a run of the server, computed. *)
Lemma steps_one pk s s' told dn : reachable pk (mkSys s told dn) → step (mkSys s told dn) (mkSys s' told dn) → reachable pk (mkSys s' told dn).
Proof. intros H1 H2. eapply rtc_r; [exact H1|exact H2]. Qed.

Definition runTo (m : stM Server unit) (s : Server) : Server := (m s).1.

Lemma runs (m : stM Server unit) s : is_ok (m s).2 = true → m s = (runTo m s, Ok tt).
Proof. unfold runTo. destruct (m s) as [s' [[]| | |]]; done. Qed.

Lemma fresh_newConn k mesh port : fresh (newConn k mesh port).
Proof. by split_and!. Qed.

Lemma accept_step pk s told dn c sc :
  reachable pk (mkSys s told dn) → srv_conns s !! c = None → fresh sc → is_ok (acceptConn c sc s).2 = true →
  reachable pk (mkSys (runTo (acceptConn c sc) s) told dn).
Proof.
  intros Hr Hc Hf Hok. eapply steps_one; [exact Hr|]. apply (step_accept s told dn c sc _ Hc Hf). apply (runs (acceptConn c sc) s Hok).
Qed.

Lemma demo_reachable : reachable [0] demoSys.
Proof.
  set (s0 := New [0] lastWriterIsActive).
  assert (reachable [0] (mkSys s0 ∅ ∅)) as H0 by apply rtc_refl.
  set (s1 := runTo (acceptConn 1%nat (newConn keyM true 1)) s0).
  assert (reachable [0] (mkSys s1 ∅ ∅)) as H1 by (apply (accept_step _ _ _ _ _ _ H0); [vm_compute; reflexivity|apply fresh_newConn|vm_compute; reflexivity]).
  set (s2 := runTo (acceptConn 2%nat (newConn keyA false 2)) s1).
  assert (reachable [0] (mkSys s2 ∅ ∅)) as H2 by (apply (accept_step _ _ _ _ _ _ H1); [vm_compute; reflexivity|apply fresh_newConn|vm_compute; reflexivity]).
  set (s3 := runTo (addWatcher 1%nat [keyA; keyM]) s2).
  assert (reachable [0] (mkSys s3 ∅ ∅)) as H3.
  { eapply steps_one; [exact H2|]. eapply (step_watch s2 ∅ ∅ 1%nat [keyA; keyM]); [is_registered|set_solver|vm_compute; solve_Permutation| |].
    - intros sc Hsc. vm_compute in Hsc. by simplify_eq.
    - apply runs. vm_compute. reflexivity. }
  set (s4 := runTo (acceptConn 3%nat (newConn keyA false 3)) s3).
  assert (reachable [0] (mkSys s4 ∅ ∅)) as H4 by (apply (accept_step _ _ _ _ _ _ H3); [vm_compute; reflexivity|apply fresh_newConn|vm_compute; reflexivity]).
  set (s5 := runTo (acceptConn 4%nat (newConn keyB false 4)) s4).
  assert (reachable [0] (mkSys s5 ∅ ∅)) as H5 by (apply (accept_step _ _ _ _ _ _ H4); [vm_compute; reflexivity|apply fresh_newConn|vm_compute; reflexivity]).
  set (s6 := runTo (noteClientActivityLocked 2%nat) s5).
  assert (reachable [0] (mkSys s6 ∅ ∅)) as H6.
  { eapply steps_one; [exact H5|]. apply (step_activity s5 ∅ ∅ 2%nat); [is_registered|]. apply runs. vm_compute. reflexivity. }
  set (s7 := runTo (unregisterClient 4%nat) s6).
  assert (reachable [0] (mkSys s7 ∅ ∅)) as H7.
  { eapply steps_one; [exact H6|]. apply (step_unregister s6 ∅ ∅ 4%nat); [is_registered|]. apply runs. vm_compute. reflexivity. }
  assert (s7 = demoState) as Heq by (vm_compute; reflexivity). unfold demoSys. rewrite <- Heq. exact H7.
Qed.

(** ** Routing *)

(** C33. In every state the server reaches, a packet goes to a connection of the key it is for, or to a
    forwarder registered for that key if the key has no connection here, and it is dropped only if the
    key is known neither here nor in the mesh: with the server's policy for duplicates, a key with
    connections always has an active one. *)
Theorem derp_routes_to_key pk y k :
  reachable pk y →
  match handleFrameSendPacket (sy_srv y) k with
  | ToClient c => ∃ sc, srv_conns (sy_srv y) !! c = Some sc ∧ sc_key sc = k ∧ registered (sy_srv y) c ∧
                        handleFrameForwardPacket (sy_srv y) k = ToClient c
  | Forward f => clients (sy_srv y) !! k = None ∧
                 (clientsMesh (sy_srv y) !! k = Some (MeshOne f) ∨
                  ∃ m, clientsMesh (sy_srv y) !! k = Some (MeshMulti m) ∧ is_Some (mf_all m !! f))
  | Drop r peerGone => r = dropReasonUnknownDest ∧ peerGone = true ∧
                       clients (sy_srv y) !! k = None ∧ clientsMesh (sy_srv y) !! k = None
  end.
Proof.
  intros Hr. destruct (reachable_sysInv pk y Hr) as [Hi _ _]. set (s := sy_srv y) in *.
  unfold handleFrameSendPacket, handleFrameForwardPacket, destination. destruct (clients s !! k) as [cs|] eqn:Ek.
  - destruct (iv_sets _ Hi k cs Ek) as [Hsh Hmem]. destruct (shapeOk_active cs Hsh) as (a & Ha & Hin). rewrite Ha.
    destruct (inSome_conn s a Hi ltac:(by exists k, cs)) as (sc & Hsc & Hreg). exists sc. split_and!; try done.
    destruct (Hmem a Hin) as [mesh Hc]. cbn in Hc. rewrite lookup_fmap, Hsc in Hc. cbn in Hc. unfold coreOf in Hc. congruence.
  - cbn. destruct (clientsMesh s !! k) as [[|f|m]|] eqn:Em; cbn; [|by auto| |done].
    + destruct (iv_nil _ Hi k Em) as [cs Hcs]. cbn in Hcs. congruence.
    + split; [done|]. right. exists m. split; [done|]. by destruct (iv_multi _ Hi k _ Em) as [_ ?].
Qed.

Lemma derp_routes_to_key_witness : handleFrameSendPacket demoState keyA = ToClient 2%nat ∧
  ∃ sc, srv_conns demoState !! 2%nat = Some sc ∧ sc_key sc = keyA ∧ registered demoState 2%nat ∧
        handleFrameForwardPacket demoState keyA = ToClient 2%nat.
Proof.
  split; [vm_compute; reflexivity|]. pose proof (derp_routes_to_key [0] demoSys keyA demo_reachable) as H.
  assert (handleFrameSendPacket (sy_srv demoSys) keyA = ToClient 2%nat) as Heq by (vm_compute; reflexivity).
  rewrite Heq in H. exact H.
Defined.

(** ** Watchers *)

(** A mesh watcher that applies what it was sent and what is queued for it has exactly the keys
    connected to the server: the initial dump and every later change, in whatever order connections
    come, go, are duplicated and are taken from the queue. *)
Theorem derp_watchers_see_clients pk y w :
  reachable pk y → w ∈ watchers (sy_srv y) → view (log y w) = dom (clients (sy_srv y)).
Proof.
  intros Hr Hw. destruct (reachable_sysInv pk y Hr) as [Hi Hv _].
  destruct (iv_watch _ Hi w Hw) as (k & cs & d & _ & Hk & Hin). rewrite (Hv w) by (by exists k, cs).
  by rewrite bool_decide_true.
Qed.

Lemma derp_watchers_see_clients_witness : view (log demoSys 1%nat) = {[keyA; keyM]}.
Proof.
  rewrite (derp_watchers_see_clients [0] demoSys 1%nat demo_reachable) by (vm_compute; tauto). vm_compute. reflexivity.
Defined.

(** ** Panics *)

(** No operation of the registry panics in a state that the server reaches: a registered connection
    can be unregistered, note activity, record senders and finish, a mesh peer can become a watcher, and
    forwarders can be added and removed, also when the connection or the forwarder that goes is the last
    one, the active one or the preferred one. *)
Theorem derp_never_panics pk y c :
  reachable pk y → registered (sy_srv y) c →
  let ok {A} (m : stM Server A) := is_ok (m (sy_srv y)).2 = true in
  ok (unregisterClient c) ∧ ok (noteClientActivity c) ∧ ok (noteClientActivityLocked c) ∧
  (∀ src, ok (noteSendFromSrc c src)) ∧ ok (onSendLoopDone c) ∧ (∀ v, ok (setPreferred c v)) ∧ ok (takeAll c) ∧
  (∀ ks, (∀ sc, srv_conns (sy_srv y) !! c = Some sc → sc_canMesh sc = true) → ok (addWatcher c ks)) ∧
  (∀ k f, ok (AddPacketForwarder k f)) ∧ (∀ k f, ok (RemovePacketForwarder k f)).
Proof.
  intros Hr Hreg ok. unfold ok. destruct (reachable_sysInv pk y Hr) as [Hi _ _]. set (s := sy_srv y) in *.
  pose proof (registered_conn s c Hreg) as [sc Hc].
  destruct (noteClientActivityLocked_run s c Hi Hreg) as (s2 & Hact & _).
  split_and!.
  - destruct (unregisterClient_run s c Hi Hreg) as (s' & ? & ? & Hrun & _). by rewrite Hrun.
  - unfold noteClientActivity. erewrite stM_bind_run by (by apply theConn_run). cbn beta.
    destruct (negb _); [done|]. destruct (sc_isDisabled sc); [done|]. by rewrite Hact.
  - by rewrite Hact.
  - intros src. destruct (noteSendFromSrc_run s c src ltac:(eauto)) as (s' & Hrun & _). by rewrite Hrun.
  - destruct (onSendLoopDone_run s c ltac:(eauto)) as (s' & Hrun & _). by rewrite Hrun.
  - intros v. destruct (setPreferred_run s c v ltac:(eauto)) as (s' & Hrun & _). by rewrite Hrun.
  - destruct (takeAll_run s c sc Hc) as (s' & Hrun & _). by rewrite Hrun.
  - intros ks Hm. destruct (addWatcher_run s c ks sc Hi Hreg Hc (Hm sc Hc)) as (s' & Hrun & _). by rewrite Hrun.
  - intros k f. destruct (AddPacketForwarder_run s k f Hi) as (s' & Hrun & _). by rewrite Hrun.
  - intros k f. destruct (RemovePacketForwarder_run s k f Hi) as (s' & Hrun & _). by rewrite Hrun.
Qed.

Lemma derp_never_panics_witness : is_ok (unregisterClient 2%nat demoState).2 = true.
Proof.
  assert (registered (sy_srv demoSys) 2%nat) as Hreg by is_registered.
  destruct (derp_never_panics [0] demoSys 2%nat demo_reachable Hreg) as [H _]. exact H.
Defined.

(** ** The gauges and [ConsistencyCheck] *)
Lemma total_le {A} (f g : A → Z) (m : gmap NodePublic A) :
  (∀ k x, m !! k = Some x → g x <= f x) → total g m <= total f m ∧ (total g m = total f m → ∀ k x, m !! k = Some x → g x = f x).
Proof.
  induction m as [|k x m Hk IH] using map_ind; intros Hle; [split; [done|intros _ k x Hk; by rewrite lookup_empty in Hk]|].
  rewrite !total_insert by done. destruct IH as [H1 H2]; [intros k' x' Hk'; apply (Hle k'); rewrite lookup_insert_ne; [done|congruence]|].
  pose proof (Hle k x (lookup_insert_eq _ _ _)). split; [lia|]. intros Heq k' x'. rewrite lookup_insert.
  case_decide; [intros [= <-]; lia|]. apply H2. lia.
Qed.

Lemma total_one {A} (m : gmap NodePublic A) : total (λ _, 1) m = Z.of_nat (size m).
Proof.
  induction m as [|k x m Hk IH] using map_ind; [done|]. rewrite total_insert, map_size_insert_None by done. lia.
Qed.

Lemma total_ext {A} (f g : A → Z) (m : gmap NodePublic A) : (∀ k x, m !! k = Some x → f x = g x) → total f m = total g m.
Proof.
  intros H. destruct (total_le f g m) as [? _]; [intros k x Hk; rewrite (H k x Hk); lia|].
  destruct (total_le g f m) as [? _]; [intros k x Hk; rewrite (H k x Hk); lia|]. lia.
Qed.

(** The gauges of a server that is reached are exact: [curClients] counts the connections of all
    keys, [dupClientKeys] the keys with more than one and [dupClientConns] the connections these have.
    [ConsistencyCheck], which compares [curClients] with the number of keys, therefore succeeds exactly
    while no key is connected twice. *)
Theorem derp_gauges_exact pk y :
  reachable pk y →
  let s := sy_srv y in
  curClients s = total (λ cs, Z.of_nat (size (members cs))) (clients s) ∧
  dupClientKeys s = Z.of_nat (size (filter (λ kcs, is_Some (cs_dup kcs.2)) (clients s))) ∧
  dupClientConns s = total (λ cs, if bool_decide (is_Some (cs_dup cs)) then Z.of_nat (size (members cs)) else 0) (clients s) ∧
  (ConsistencyCheck s = Ok tt ↔ ∀ k cs, clients s !! k = Some cs → size (members cs) = 1%nat).
Proof.
  intros Hr s. destruct (reachable_sysInv pk y Hr) as [Hi _ _]. fold s in Hi.
  assert (∀ k cs, clients s !! k = Some cs → Len cs = Z.of_nat (size (members cs)) ∧ 1 <= Len cs) as HL.
  { intros k cs Hk. apply Len_members. by apply (iv_sets _ Hi k). }
  assert (curClients s = total (λ cs, Z.of_nat (size (members cs))) (clients s)) as Hcur.
  { pose proof (iv_cur _ Hi) as Hc. cbn in Hc. rewrite Hc. apply total_ext. intros k cs Hk. by apply (HL k). }
  split_and!; [done| | |].
  - pose proof (iv_dupKeys _ Hi) as Hdk. cbn in Hdk. rewrite Hdk. clear. induction (clients s) as [|k x m Hk IH] using map_ind; [done|].
    rewrite total_insert by done. destruct (decide (is_Some (cs_dup x))) as [Hd|Hd].
    + rewrite map_filter_insert_True by done. rewrite map_size_insert_None by (apply map_lookup_filter_None; by left).
      assert (isDupSet x = 1) as -> by (unfold isDupSet; destruct Hd as [d Hd]; by rewrite Hd). lia.
    + rewrite map_filter_insert_not' by (done || (intros ? Hy; congruence)). assert (isDupSet x = 0) as -> by (unfold isDupSet; destruct (cs_dup x); [destruct Hd; eauto|done]). lia.
  - pose proof (iv_dupConns _ Hi) as Hdc. cbn in Hdc. rewrite Hdc. apply total_ext. intros k cs Hk.
    unfold dupLen, members. destruct (cs_dup cs); [by rewrite bool_decide_true by eauto|by rewrite bool_decide_false by (by intros [])].
  - unfold ConsistencyCheck. rewrite fail_if_Ok. assert (nilMeshNotInClient s = 0%nat) as ->.
    { unfold nilMeshNotInClient. apply map_size_empty_iff, map_empty. intros k. apply map_lookup_filter_None_2. right.
      intros b Hb [Hb2 Hn]. cbn in Hb2, Hn. subst b. rewrite lookup_fmap in Hb. destruct (clientsMesh s !! k) as [[]|] eqn:Em; try done.
      destruct (iv_nil _ Hi k Em) as [cs Hcs]. cbn in *. congruence. }
    assert (clientNotInMesh s = 0%nat) as ->.
    { unfold clientNotInMesh. enough (dom (clients s) ∖ dom (clientsMesh s) = ∅) as -> by apply size_empty. apply set_eq. intros k. rewrite elem_of_difference, !elem_of_dom.
      split; [|set_solver]. intros [H1 H2]. destruct H2. by apply (iv_mesh _ Hi). }
    cbn. rewrite negb_false_iff, Z.eqb_eq, Hcur, <- total_one.
    destruct (total_le (λ cs, Z.of_nat (size (members cs))) (λ _, 1) (clients s)) as [_ Heq].
    { intros k cs Hk. destruct (HL k cs Hk). lia. }
    split.
    + intros Ht k cs Hk. specialize (Heq (eq_sym Ht) k cs Hk). lia.
    + intros H1. apply total_ext. intros k cs Hk. by rewrite (H1 k cs Hk).
Qed.

Lemma derp_gauges_exact_witness : ConsistencyCheck demoState ≠ Ok tt ∧ curClients demoState = 3 ∧ size (clients demoState) = 2%nat ∧
  (ConsistencyCheck demoState = Ok tt ↔ ∀ k cs, clients demoState !! k = Some cs → size (members cs) = 1%nat).
Proof.
  split; [vm_compute; discriminate|]. split; [vm_compute; reflexivity|]. split; [vm_compute; reflexivity|].
  exact (proj2 (proj2 (proj2 (derp_gauges_exact [0] demoSys demo_reachable)))).
Defined.
