(* ===== verification/DerpGone.v ===== *)
(** * Peers that are gone from the region

    A client that was sent a packet of a peer is told when that peer leaves the
    region; the second time the peer leaves, it is not. *)
From S2P Require Import Prelude GoState NetBuf NetAddr DerpServer DerpInv DerpOps DerpSteps DerpServing.

(** ** Handles *)
Definition sawOf (s : Server) : gmap conn (gmap NodePublic handle) := sc_sawSrc <$> srv_conns s.
Definition saw (s : Server) (c : conn) (src : NodePublic) (h : handle) : Prop :=
  ∃ m, sawOf s !! c = Some m ∧ m !! src = Some h.
Definition watching (s : Server) (c : conn) (src : NodePublic) (h : handle) : Prop :=
  ∃ hset, peerGoneWatchers s !! src = Some hset ∧ hset !! h = Some c.

(** The part of the state these operations use. *)
Definition goneState (s : Server) := (sawOf s, peerGoneWatchers s, srv_handles s, srv_gone s).

(** [notePeerGoneFromRegionLocked] was run for [k]. *)
Definition noted (k : NodePublic) (s s' : Server) : Prop :=
  sawOf s' = sawOf s ∧ peerGoneWatchers s' = delete k (peerGoneWatchers s) ∧ srv_handles s' = srv_handles s ∧
  srv_gone s' = srv_gone s ++ ((λ hc, (hc.2, k)) <$> map_to_list (default ∅ (peerGoneWatchers s !! k))).

Lemma sawOf_alter (f : sclient → sclient) c (m : gmap conn sclient) :
  (∀ sc, sc_sawSrc (f sc) = sc_sawSrc sc) → sc_sawSrc <$> alter f c m = sc_sawSrc <$> m.
Proof.
  intros Hf. apply map_eq. intros i. rewrite !lookup_fmap, lookup_alter. case_decide; [|done]. subst.
  destruct (m !! i); cbn; [by rewrite Hf|done].
Qed.

Lemma sawOf_imap (f : conn → sclient → sclient) (m : gmap conn sclient) :
  (∀ c sc, sc_sawSrc (f c sc) = sc_sawSrc sc) → sc_sawSrc <$> map_imap (λ c sc, Some (f c sc)) m = sc_sawSrc <$> m.
Proof.
  intros Hf. apply map_eq. intros i. rewrite !lookup_fmap, map_lookup_imap. destruct (m !! i); cbn; [by rewrite Hf|done].
Qed.

Lemma broadcast_gone peer ip fl b s s' :
  broadcastPeerStateChangeLocked peer ip fl b s = (s', Ok tt) → goneState s' = goneState s ∧ clientsMesh s' = clientsMesh s.
Proof.
  unfold broadcastPeerStateChangeLocked, modS. intros [= <-]. split; [|done]. unfold goneState, sawOf. cbn. do 3 f_equal.
  apply (sawOf_imap (λ c sc, if bool_decide (c ∈ watchers s) then _ else _)). intros c sc. by case_bool_decide.
Qed.

Lemma notePeerGone_noted k s s' : notePeerGoneFromRegionLocked k s = (s', Ok tt) → noted k s s' ∧ clientsMesh s' = clientsMesh s.
Proof.
  unfold notePeerGoneFromRegionLocked. erewrite stM_bind_run by done. cbn beta. case_bool_decide; [done|].
  st_run. intros [= <-]. done.
Qed.

(** A step of the server leaves the watches alone, or notes that a peer is gone, or
    changes those of one client. *)
Definition meshKept (s s' : Server) : Prop := ∀ k, is_Some (clientsMesh s !! k) → is_Some (clientsMesh s' !! k).
Definition goneStep (s s' : Server) : Prop :=
  (goneState s' = goneState s ∧ meshKept s s') ∨
  ∃ k, noted k s s' ∧ (is_Some (clientsMesh s !! k) ∧ clientsMesh s' !! k = None) ∧
       ∀ k', k' ≠ k → is_Some (clientsMesh s !! k') → is_Some (clientsMesh s' !! k').

Lemma goneStep_refl s : goneStep s s.
Proof. left. split; [done|]. by intros k. Qed.

Lemma goneState_of s s' :
  goneState s' = goneState s → clientsMesh s' = clientsMesh s → goneState s' = goneState s ∧ meshKept s s'.
Proof. intros Hg Hm. split; [done|]. intros k. by rewrite Hm. Qed.

Lemma registerClient_gone s c sc s' :
  srv_conns s !! c = Some sc → registerClient c s = (s', Ok tt) → goneState s' = goneState s ∧ meshKept s s'.
Proof.
  intros Hc. unfold registerClient, theConn. unfold mbind at 1, stM_bind at 1. rewrite Hc.
  erewrite stM_bind_run by done. cbn beta zeta. set (cs := default _ _).
  destruct (activeClient cs) as [w|]; destruct (cs_dup cs) as [d|]; st_run; intros Hrun; apply broadcast_gone in Hrun as [Hg Hm];
  (split; [rewrite Hg; unfold goneState, sawOf; cbn; by rewrite ?sawOf_alter|]);
  intros k Hk; rewrite Hm; cbn; (destruct (clientsMesh s !! sc_key sc); [exact Hk|apply lookup_insert_is_Some'; by right]).
Qed.

Lemma unregisterDup_gone s c k cs d s' :
  unregisterDup c k cs d s = (s', Ok tt) → goneState s' = goneState s ∧ clientsMesh s' = clientsMesh s.
Proof.
  unfold unregisterDup. destruct (removeClient c d) as [d' b]. destruct b; st_run;
  (case_bool_decide; st_run; [destruct (elements (d_set d')) as [|x l]; [done|]; st_run|]);
  intros [= <-]; (split; [|done]); unfold goneState, sawOf; cbn; by rewrite ?sawOf_alter.
Qed.

Lemma unregisterSingle_gone s c k cs s' b :
  unregisterSingle c k cs s = (s', Ok b) → goneStep s s'.
Proof.
  unfold unregisterSingle. case_bool_decide; [intros [= <- <-]; apply goneStep_refl|]. st_run. cbn [clientsMesh setClients].
  set (s1 := setClients (delete k) s). intros (s2 & [] & Hnote & Hrun)%stM_bind_Ok.
  apply stM_bind_Ok in Hrun as (s3 & [] & Hb & Hret). injection Hret as <- <-. apply broadcast_gone in Hb as [Hg Hm].
  unfold goneState in Hg. destruct (clientsMesh s !! k) as [[]|] eqn:Ek; try (injection Hnote as <-; left; split; [exact Hg|]; intros k'; by rewrite Hm).
  erewrite stM_bind_run in Hnote by done. apply notePeerGone_noted in Hnote as [(H1 & H2 & H3 & H4) Hm2]. right. exists k.
  injection Hg as G1 G2 G3 G4.
  split; [|split; [split; [by eexists|rewrite Hm, Hm2; apply lookup_delete_eq]|intros k' Hne Hk'; rewrite Hm, Hm2; cbn; by rewrite lookup_delete_ne]].
  split_and!; [by rewrite G1|by rewrite G2|by rewrite G3|by rewrite G4].
Qed.

Lemma goneStep_after s s1 s2 :
  goneStep s s1 → goneState s2 = goneState s1 → clientsMesh s2 = clientsMesh s1 → goneStep s s2.
Proof.
  intros [[Hg Hm]|(k & (H1 & H2 & H3 & H4) & [Hk Hk'] & Hm)] Hg2 Hm2.
  - left. split; [congruence|]. intros k Hk. rewrite Hm2. auto.
  - right. exists k. injection Hg2 as G1 G2 G3 G4. split; [split_and!; congruence|]. by rewrite Hm2.
Qed.

Lemma unregisterClient_gone s c s' : unregisterClient c s = (s', Ok tt) → goneStep s s'.
Proof.
  unfold unregisterClient. intros (s0 & sc & Hsc & Hrun)%stM_bind_Ok. unfold theConn in Hsc.
  destruct (srv_conns s !! c); [|done]. injection Hsc as <- ->. erewrite stM_bind_run in Hrun by done. cbn beta in Hrun.
  destruct (clients s !! sc_key sc) as [cs|]; [|injection Hrun as <-; apply goneStep_refl].
  apply stM_bind_Ok in Hrun as (s1 & b & Hfirst & Hrun).
  assert (goneStep s s1) as Hs1.
  { destruct (cs_dup cs) as [d|]; [|by eapply unregisterSingle_gone].
    apply stM_bind_Ok in Hfirst as (s2 & [] & Hd & Hret). injection Hret as <- <-. apply unregisterDup_gone in Hd as [Hg Hm].
    left. split; [done|]. intros k. by rewrite Hm. }
  destruct b; cbn [negb] in Hrun; [|injection Hrun as <-; exact Hs1].
  eapply goneStep_after; [exact Hs1|..]; destruct (sc_canMesh sc); erewrite !stM_bind_run in Hrun by done; by injection Hrun as <-.
Qed.

Lemma noteClientActivityLocked_gone s c s' :
  noteClientActivityLocked c s = (s', Ok tt) → goneState s' = goneState s ∧ meshKept s s'.
Proof.
  unfold noteClientActivityLocked. intros (s0 & sc & Hsc & Hrun)%stM_bind_Ok. unfold theConn in Hsc.
  destruct (srv_conns s !! c); [|done]. injection Hsc as <- ->. erewrite stM_bind_run in Hrun by done. cbn beta in Hrun.
  destruct (clients s !! sc_key sc) as [cs|]; [|injection Hrun as <-; apply goneState_of; reflexivity].
  destruct (cs_dup cs) as [d|]; [|injection Hrun as <-; apply goneState_of; reflexivity]. cbn zeta in Hrun. erewrite stM_bind_run in Hrun by done. cbn beta in Hrun.
  set (prom := bool_decide _ || _) in Hrun. destruct (bool_decide (last _ = _)); [injection Hrun as <-; apply goneState_of; reflexivity|].
  destruct (bool_decide _ && _).
  - erewrite stM_bind_run in Hrun by (erewrite stM_bind_run by done; done). injection Hrun as <-. apply goneState_of; [|reflexivity].
    unfold goneState, sawOf. cbn. do 3 f_equal. rewrite sawOf_imap; [done|]. intros c' sc'. by case_bool_decide.
  - erewrite stM_bind_run in Hrun by done. injection Hrun as <-. apply goneState_of; reflexivity.
Qed.

Lemma addWatcher_gone s c ks s' : addWatcher c ks s = (s', Ok tt) → goneState s' = goneState s ∧ meshKept s s'.
Proof.
  unfold addWatcher. intros (s0 & sc & Hsc & Hrun)%stM_bind_Ok. unfold theConn in Hsc.
  destruct (srv_conns s !! c); [|done]. injection Hsc as <- ->. destruct (negb _); [done|].
  erewrite stM_bind_run in Hrun by done. cbn beta in Hrun. case_bool_decide; [injection Hrun as <-; apply goneState_of; reflexivity|].
  erewrite stM_bind_run in Hrun by done. injection Hrun as <-. apply goneState_of; [|reflexivity]. unfold goneState, sawOf. cbn. by rewrite sawOf_alter.
Qed.

Lemma takeAll_gone s c s' b : takeAll c s = (s', Ok b) → goneState s' = goneState s ∧ meshKept s s'.
Proof.
  unfold takeAll. intros (s0 & sc & Hsc & Hrun)%stM_bind_Ok. unfold theConn in Hsc.
  destruct (srv_conns s !! c); [|done]. injection Hsc as <- ->. erewrite stM_bind_run in Hrun by done. injection Hrun as <- _.
  apply goneState_of; [|reflexivity]. unfold goneState, sawOf. cbn. by rewrite sawOf_alter.
Qed.

Lemma setPreferred_gone s c v s' : setPreferred c v s = (s', Ok tt) → goneState s' = goneState s ∧ meshKept s s'.
Proof.
  unfold setPreferred. intros (s0 & sc & Hsc & Hrun)%stM_bind_Ok. unfold theConn in Hsc.
  destruct (srv_conns s !! c); [|done]. injection Hsc as <- ->. case_bool_decide; [injection Hrun as <-; apply goneState_of; reflexivity|].
  erewrite stM_bind_run in Hrun by done. injection Hrun as <-. apply goneState_of; [|reflexivity]. unfold goneState, sawOf. cbn. by rewrite sawOf_alter.
Qed.

Lemma AddPacketForwarder_gone s k f s' : AddPacketForwarder k f s = (s', Ok tt) → goneState s' = goneState s ∧ meshKept s s'.
Proof.
  unfold AddPacketForwarder. st_run. intros Hrun.
  assert (∀ e, meshKept s (setMesh <[k := e]> s)) as Hkept by (intros e k' Hk'; cbn; rewrite lookup_insert_is_Some'; auto).
  destruct (clientsMesh s !! k) as [[|prev|m]|]; try case_bool_decide; injection Hrun as <-;
    first [apply goneState_of; reflexivity|split; [reflexivity|apply Hkept]].
Qed.

Lemma RemovePacketForwarder_gone s k f s' : RemovePacketForwarder k f s = (s', Ok tt) → goneStep s s'.
Proof.
  unfold RemovePacketForwarder. st_run. intros Hrun.
  assert (∀ e, goneStep s (setMesh <[k := e]> s)) as Hkept
    by (intros e; left; split; [done|]; intros k' Hk'; cbn; apply lookup_insert_is_Some'; auto).
  destruct (clientsMesh s !! k) as [[|g|m]|] eqn:Ek; try (injection Hrun as <-; apply goneStep_refl).
  - destruct (negb _); [injection Hrun as <-; apply goneStep_refl|]. case_bool_decide; [injection Hrun as <-; apply Hkept|].
    erewrite stM_bind_run in Hrun by done. apply notePeerGone_noted in Hrun as [Hn Hm]. right. exists k. split; [exact Hn|].
    split; [split; [by eexists|rewrite Hm; apply lookup_delete_eq]|]. intros k' Hne Hk'. rewrite Hm. cbn. by rewrite lookup_delete_ne.
  - destruct (_ <? _)%nat; [done|]. destruct (deleteLocked m f) as [m' o]. injection Hrun as <-. apply Hkept.
Qed.

(** ** The watches of the clients

    A client is told, or is watching, for every source it has on record; it watches only
    for those, and not for one that it was told about; so it is told once. *)
Record goneInv (y : sys) : Prop := {
  gi_lt : ∀ c src h, saw (sy_srv y) c src h → (h < srv_handles (sy_srv y))%nat;
  gi_inj : ∀ c1 src1 c2 src2 h, saw (sy_srv y) c1 src1 h → saw (sy_srv y) c2 src2 h → c1 = c2 ∧ src1 = src2;
  gi_told : ∀ c src h, saw (sy_srv y) c src h → c ∉ sy_done y →
              (c, src) ∈ srv_gone (sy_srv y) ∨ watching (sy_srv y) c src h;
  gi_watch : ∀ c src h, watching (sy_srv y) c src h → saw (sy_srv y) c src h ∧ (c, src) ∉ srv_gone (sy_srv y);
  gi_gone : ∀ c src, (c, src) ∈ srv_gone (sy_srv y) → ∃ h, saw (sy_srv y) c src h;
  gi_once : NoDup (srv_gone (sy_srv y))
}.

Lemma goneInv_same s s' told told' dn :
  goneInv (mkSys s told dn) → goneState s' = goneState s → goneInv (mkSys s' told' dn).
Proof.
  intros [H1 H2 H3 H4 H5 H6] Hg. injection Hg as G1 G2 G3 G4. cbn in *.
  split; cbn; unfold saw, watching in *; rewrite ?G1, ?G2, ?G3, ?G4; eauto.
Qed.

Lemma noted_told k s s' c src h :
  noted k s s' → (c, src) ∈ srv_gone s ∨ watching s c src h →
  (c, src) ∈ srv_gone s' ∨ (src ≠ k ∧ watching s' c src h).
Proof.
  intros (_ & Hw & _ & Hg) [Hin|(hset & Hs & Hh)]; [left; rewrite Hg; set_solver|].
  destruct (decide (src = k)) as [->|Hne].
  - left. rewrite Hg. apply elem_of_app. right. apply list_elem_of_fmap. exists (h, c). split; [done|].
    rewrite Hs. cbn. by apply elem_of_map_to_list.
  - right. split; [done|]. exists hset. rewrite Hw. by rewrite lookup_delete_ne.
Qed.

(** Those that are told of [k]: the ones that watch for it. *)
Definition tellOf (k : NodePublic) (s : Server) : list (conn * NodePublic) :=
  (λ hc, (hc.2, k)) <$> map_to_list (default ∅ (peerGoneWatchers s !! k)).

Lemma tellOf_elem k s c src : (c, src) ∈ tellOf k s ↔ src = k ∧ ∃ h, watching s c k h.
Proof.
  unfold tellOf, watching. rewrite list_elem_of_fmap. split.
  - intros ([h c'] & [= -> ->] & Hin%elem_of_map_to_list). split; [done|]. exists h.
    destruct (peerGoneWatchers s !! k) as [hset|]; cbn in Hin; [by exists hset|by rewrite lookup_empty in Hin].
  - intros (-> & h & hset & Hs & Hh). exists (h, c). split; [done|]. rewrite Hs. by apply elem_of_map_to_list.
Qed.

Lemma saw_fun s c src h1 h2 : saw s c src h1 → saw s c src h2 → h1 = h2.
Proof. intros (m1 & E1 & H1) (m2 & E2 & H2). congruence. Qed.

Lemma told_once k s told dn : goneInv (mkSys s told dn) → NoDup (srv_gone s ++ tellOf k s).
Proof.
  intros [_ _ _ H4 _ H6]. cbn in *. apply NoDup_app. split_and!; [done| |].
  - intros [c src] Hin [-> [h Hw]]%tellOf_elem. by apply (H4 c k h Hw).
  - apply NoDup_fmap_2_strong; [|apply NoDup_map_to_list]. intros [h1 c1] [h2 c2] H1%elem_of_map_to_list H2%elem_of_map_to_list E.
    cbn in E. injection E as ->. f_equal. destruct (peerGoneWatchers s !! k) as [hset|] eqn:Ek; cbn in *; [|by rewrite lookup_empty in H1].
    eapply (saw_fun s c2 k); (apply H4; by exists hset).
Qed.

Lemma goneInv_noted s s' told told' dn k :
  goneInv (mkSys s told dn) → noted k s s' → goneInv (mkSys s' told' dn).
Proof.
  intros Hi Hn. pose proof (told_once k _ _ _ Hi) as Honce. destruct Hi as [H1 H2 H3 H4 H5 H6].
  pose proof Hn as (G1 & G2 & G3 & G4). cbn in *. fold (tellOf k s) in G4.
  assert (∀ c src h, saw s' c src h ↔ saw s c src h) as Hsaw by (unfold saw; rewrite G1; done).
  split; cbn.
  - intros c src h. rewrite Hsaw, G3. apply H1.
  - intros c1 src1 c2 src2 h. rewrite !Hsaw. apply H2.
  - intros c src h Hs Hdn. destruct (noted_told k s s' c src h Hn (H3 c src h (proj1 (Hsaw _ _ _) Hs) Hdn)); naive_solver.
  - intros c src h (hset & Hl & Hh). rewrite G2 in Hl. apply lookup_delete_Some in Hl as [Hne Hl].
    destruct (H4 c src h ltac:(by exists hset)) as [Hs Hg]. rewrite Hsaw, G4. split; [done|].
    intros [?|[-> _]%tellOf_elem]%elem_of_app; done.
  - intros c src. rewrite G4. intros [Hg|[-> [h Hw]]%tellOf_elem]%elem_of_app; setoid_rewrite Hsaw; [by apply H5|].
    exists h. by apply H4.
  - by rewrite G4.
Qed.

Lemma goneInv_goneStep s s' told told' dn : goneInv (mkSys s told dn) → goneStep s s' → goneInv (mkSys s' told' dn).
Proof. intros Hi [[Hg _]|(k & Hn & _)]; [by eapply goneInv_same|by eapply goneInv_noted]. Qed.

Lemma saw_fresh s c sc c' src h :
  srv_conns s !! c = None → sc_sawSrc sc = ∅ → saw (setConns <[c := sc]> s) c' src h → saw s c' src h.
Proof.
  intros Hc Hsc (m & Hm & Hh). unfold sawOf in Hm. cbn in Hm. rewrite fmap_insert, lookup_insert in Hm.
  case_decide; [|by exists m]. injection Hm as <-. by rewrite Hsc, lookup_empty in Hh.
Qed.

Lemma saw_insert s c src h0 c' src' h' :
  saw (setConns (alter (setSawSrc <[src := h0]>) c) s) c' src' h' →
  (c' = c ∧ src' = src ∧ h' = h0) ∨ (saw s c' src' h' ∧ ¬ (c' = c ∧ src' = src)).
Proof.
  intros (m & Hm & Hh). unfold saw, sawOf in *. cbn in Hm. rewrite lookup_fmap, lookup_alter in Hm. case_decide as Hc.
  - subst c'. destruct (srv_conns s !! c) as [sc|] eqn:E; [|done]. cbn in Hm. injection Hm as <-. rewrite lookup_insert in Hh.
    case_decide as Hsrc; [left; naive_solver|right]. split; [|naive_solver]. exists (sc_sawSrc sc). by rewrite lookup_fmap, E.
  - right. split; [exists m; by rewrite lookup_fmap|naive_solver].
Qed.

Lemma noteSendFromSrc_gone s c src s' : noteSendFromSrc c src s = (s', Ok tt) → srv_gone s' = srv_gone s.
Proof.
  unfold noteSendFromSrc. intros (s0 & sc & Hsc & Hrun)%stM_bind_Ok. unfold theConn in Hsc.
  destruct (srv_conns s !! c); [|done]. injection Hsc as <- ->. destruct (sc_sawSrc sc !! src); [by injection Hrun as <-|].
  erewrite stM_bind_run in Hrun by done. by injection Hrun as <-.
Qed.

Lemma goneInv_send s told dn c src s' :
  goneInv (mkSys s told dn) → noteSendFromSrc c src s = (s', Ok tt) → goneInv (mkSys s' told dn).
Proof.
  intros Hi. pose proof Hi as [H1 H2 H3 H4 H5 H6]. cbn in *. unfold noteSendFromSrc. intros (s0 & sc & Hsc & Hrun)%stM_bind_Ok.
  unfold theConn in Hsc. destruct (srv_conns s !! c) as [sc0|] eqn:Ec; [|done]. injection Hsc as <- ->.
  destruct (sc_sawSrc sc !! src) eqn:Esrc; [injection Hrun as <-; exact Hi|].
  erewrite stM_bind_run in Hrun by done. injection Hrun as <-. set (s1 := mkServer _ _ _ _ _ _ _ _ _ _ _ _ _ _ _ _).
  assert (∀ c' src' h', saw (setConns (alter (setSawSrc <[src := srv_handles s]>) c) s1) c' src' h' →
    (c' = c ∧ src' = src ∧ h' = srv_handles s) ∨ (saw s c' src' h' ∧ ¬ (c' = c ∧ src' = src))) as Hsaw by (intros *; apply (saw_insert s1)).
  split; cbn.
  - intros c' src' h' [(_ & _ & ->)|[Hs _]]%Hsaw; [lia|]. apply H1 in Hs. lia.
  - intros c1 src1 c2 src2 h [(-> & -> & ->)|[Hs1 _]]%Hsaw [(-> & -> & Hh)|[Hs2 _]]%Hsaw; [done| | |eauto].
    + apply H1 in Hs2. lia.
    + subst h. apply H1 in Hs1. lia.
  - intros c' src' h' [(-> & -> & ->)|[Hs Hne]]%Hsaw Hdn.
    + right. eexists. split; [apply lookup_insert_eq|]. apply lookup_insert_eq.
    + destruct (H3 c' src' h' Hs Hdn) as [?|(hset & Hhs & Hh)]; [by left|right]. apply H1 in Hs. unfold watching. cbn.
      destruct (decide (src = src')) as [<-|Hd].
      * eexists. split; [apply lookup_insert_eq|]. rewrite Hhs. cbn. rewrite lookup_insert_ne; [done|lia].
      * exists hset. rewrite lookup_insert_ne by done. done.
  - assert (∀ c' src' h', saw s c' src' h' → ¬ (c' = c ∧ src' = src) ∧ saw (setConns (alter (setSawSrc <[src := srv_handles s]>) c) s1) c' src' h') as Hkeep.
    { intros c' src' h' Hs. pose proof Hs as (m & Hm & Hh). unfold sawOf in Hm. rewrite lookup_fmap in Hm.
      assert (¬ (c' = c ∧ src' = src)) as Hne.
      { intros [-> ->]. rewrite Ec in Hm. injection Hm as <-. congruence. }
      split; [done|]. unfold saw, sawOf. cbn. rewrite lookup_fmap, lookup_alter. case_decide as Hc.
      - subst c'. rewrite Ec in Hm |- *. injection Hm as <-. eexists. split; [done|]. cbn. rewrite lookup_insert_ne; naive_solver.
      - destruct (srv_conns s !! c') eqn:E'; [|done]. injection Hm as <-. eexists. split; [done|]. done. }
    intros c' src' h' (hset & Hl & Hh). cbn in Hl. rewrite lookup_insert in Hl. case_decide as Hd.
    + injection Hl as <-. subst src'. rewrite lookup_insert in Hh. case_decide as Hh2.
      * injection Hh as <-. subst h'. split.
        -- unfold saw, sawOf. cbn. rewrite lookup_fmap, lookup_alter_eq, Ec. eexists. split; [done|]. apply lookup_insert_eq.
        -- intros [h Hs]%H5. by destruct (Hkeep _ _ _ Hs) as [[] _].
      * destruct (peerGoneWatchers s !! src) as [hs|] eqn:Ew; cbn in Hh; [|by rewrite lookup_empty in Hh].
        destruct (H4 c' src h' ltac:(by exists hs)) as [Hs Hg]. split; [by apply Hkeep|done].
    + destruct (H4 c' src' h' ltac:(by exists hset)) as [Hs Hg]. split; [by apply Hkeep|done].
  - intros c' src' [h Hs]%H5. exists h. pose proof Hs as (m & Hm & Hh). unfold sawOf in Hm. rewrite lookup_fmap in Hm.
    unfold saw, sawOf. cbn. rewrite lookup_fmap, lookup_alter. case_decide as Hc.
    + subst c'. rewrite Ec in Hm |- *. injection Hm as <-. eexists. split; [done|]. cbn. rewrite lookup_insert. case_decide; [|done]. congruence.
    + destruct (srv_conns s !! c') eqn:E'; [|done]. injection Hm as <-. eexists. by split.
  - done.
Qed.

Lemma removeWatches_gone l s s' :
  removeWatches l s = (s', Ok tt) →
  sawOf s' = sawOf s ∧ srv_handles s' = srv_handles s ∧ srv_gone s' = srv_gone s ∧ clientsMesh s' = clientsMesh s ∧
  (∀ c src h, watching s' c src h → watching s c src h) ∧
  ∀ c src h, watching s c src h → (src, h) ∉ l → watching s' c src h.
Proof.
  revert s. induction l as [|[peer h0] l IH]; intros s Hrun; cbn [removeWatches] in Hrun.
  { injection Hrun as <-. by split_and!. }
  apply stM_bind_Ok in Hrun as (s1 & [] & Hr & Hrun). destruct (IH s1 Hrun) as (I1 & I2 & I3 & I4 & I0 & I5).
  unfold removePeerGoneFromRegionWatcher in Hr. erewrite stM_bind_run in Hr by done. cbn beta in Hr.
  destruct (peerGoneWatchers s !! peer) as [hset|] eqn:E; injection Hr as <-.
  - split_and!; [done..| |].
    { intros c src h (hs & Hs & Hh)%I0. cbn in Hs. case_bool_decide.
      - apply lookup_delete_Some in Hs as [_ Hs]. by exists hs.
      - apply lookup_insert_Some in Hs as [[<- <-]|[_ Hs]]; [|by exists hs]. apply lookup_delete_Some in Hh as [_ Hh]. by exists hset. }
    intros c src h (hs & Hs & Hh) Hl. apply I5; [|set_solver]. unfold watching. cbn.
    destruct (decide (src = peer)) as [->|Hne].
    + assert (hs = hset) as -> by congruence. assert (h ≠ h0) as Hhh by set_solver. exists (delete h0 hset).
      rewrite bool_decide_false; [rewrite lookup_insert_eq, lookup_delete_ne; done|]. intros He. apply (f_equal (lookup h)) in He.
      rewrite lookup_delete_ne, lookup_empty in He by done. congruence.
    + exists hs. split; [|done]. case_bool_decide; [by rewrite lookup_delete_ne|by rewrite lookup_insert_ne].
  - split_and!; [done..|]. intros c src h Hw Hl. apply I5; [done|set_solver].
Qed.

Lemma goneInv_done s told dn c s' :
  goneInv (mkSys s told dn) → onSendLoopDone c s = (s', Ok tt) → goneInv (mkSys s' told (dn ∪ {[c]})).
Proof.
  intros [H1 H2 H3 H4 H5 H6]. cbn in *. unfold onSendLoopDone. intros (s0 & sc & Hsc & Hrun)%stM_bind_Ok.
  unfold theConn in Hsc. destruct (srv_conns s !! c) as [sc0|] eqn:Ec; [|done]. injection Hsc as <- ->.
  destruct (removeWatches_gone _ _ _ Hrun) as (I1 & I2 & I3 & _ & I0 & I5).
  assert (∀ c src h, saw s' c src h ↔ saw s c src h) as Hsaw by (unfold saw; rewrite I1; done).
  split; cbn; rewrite ?I3; [rewrite I2; setoid_rewrite Hsaw; eauto|setoid_rewrite Hsaw; eauto| |
    intros c' src h Hw%I0; rewrite Hsaw; by apply H4|setoid_rewrite Hsaw; eauto|done]. intros c' src h Hs%Hsaw Hdn. assert (c' ≠ c ∧ c' ∉ dn) as [Hne Hdn'] by set_solver.
  destruct (H3 c' src h Hs Hdn') as [?|Hw]; [by left|right]. apply I5; [done|]. intros Hin%elem_of_map_to_list.
  destruct (H2 c' src c src h Hs) as [? _]; [|done]. exists (sc_sawSrc sc). unfold sawOf. by rewrite lookup_fmap, Ec.
Qed.

Lemma goneInv_step y y' : goneInv y → step y y' → goneInv y'.
Proof.
  intros Hi Hstep. destruct Hstep as
    [s told dn c sc s' Hnew Hfr Hrun|s told dn c s' Hreg Hrun|s told dn c s' Hreg Hrun|s told dn c ks s' Hreg Hdn Hks Hmesh Hrun
    |s told dn c s' batch Hreg Hdn Hrun|s told dn c src s' Hreg Hdn Hrun|s told dn c s' Hreg Hdn Hrun|s told dn c v s' Hreg Hrun
    |s told dn k f s' Hrun|s told dn k f s' Hrun].
  - eapply registerClient_gone in Hrun as [Hg _]; [|cbn; apply lookup_insert_eq]. apply (goneInv_same (setConns <[c := sc]> s) s' told told dn); [|exact Hg].
    destruct Hi as [H1 H2 H3 H4 H5 H6]. destruct Hfr as (_ & _ & _ & Hsaw & _). cbn in *.
    assert (∀ c' src h, saw (setConns <[c := sc]> s) c' src h ↔ saw s c' src h) as Hs.
    { intros *. split; [by apply saw_fresh|]. intros (m & Hm & Hh). exists m. split; [|done]. unfold sawOf in *. cbn.
      rewrite lookup_fmap in *. rewrite lookup_insert_ne; [done|]. intros <-. by rewrite Hnew in Hm. }
    split; cbn; [setoid_rewrite Hs; eauto|setoid_rewrite Hs; eauto|setoid_rewrite Hs; exact H3| |setoid_rewrite Hs; eauto|done].
    intros c' src h Hw. rewrite Hs. by apply H4.
  - eapply goneInv_goneStep; [exact Hi|]. by eapply unregisterClient_gone.
  - eapply goneInv_same; [exact Hi|]. by eapply noteClientActivityLocked_gone.
  - eapply goneInv_same; [exact Hi|]. by eapply addWatcher_gone.
  - eapply goneInv_same; [exact Hi|]. by eapply takeAll_gone.
  - by eapply goneInv_send.
  - by eapply goneInv_done.
  - eapply goneInv_same; [exact Hi|]. by eapply setPreferred_gone.
  - eapply goneInv_same; [exact Hi|]. by eapply AddPacketForwarder_gone.
  - eapply goneInv_goneStep; [exact Hi|]. by eapply RemovePacketForwarder_gone.
Qed.

Lemma reachable_goneInv pk y : reachable pk y → goneInv y.
Proof.
  intros Hr. assert (goneInv (start pk)) as H0.
  { assert (∀ c src h, ¬ saw (sy_srv (start pk)) c src h) as Hno.
    { intros c src h (m & Hm & _). unfold sawOf in Hm. cbn in Hm. by rewrite fmap_empty, lookup_empty in Hm. }
    split.
    - by intros c src h Hs%Hno.
    - by intros c1 src1 c2 src2 h Hs%Hno.
    - by intros c src h Hs%Hno.
    - intros c src h (hset & Hl & _). cbn in Hl. by rewrite lookup_empty in Hl.
    - intros c src Hin. by apply elem_of_nil in Hin.
    - constructor. }
  unfold reachable in Hr. revert H0. generalize (start pk) Hr. clear Hr. intros x Hr. induction Hr as [|x z y' Hxz _ IH]; [done|].
  intros Hx. apply IH. by eapply goneInv_step.
Qed.

(** ** What clients are told *)

(** What a critical section does to the watches. *)
Lemma step_gone y y' :
  step y y' →
  (srv_gone (sy_srv y') = srv_gone (sy_srv y) ∧ meshKept (sy_srv y) (sy_srv y')) ∨
  ∃ k, srv_gone (sy_srv y') = srv_gone (sy_srv y) ++ tellOf k (sy_srv y) ∧
       (is_Some (clientsMesh (sy_srv y) !! k) ∧ clientsMesh (sy_srv y') !! k = None) ∧
       ∀ k', k' ≠ k → is_Some (clientsMesh (sy_srv y) !! k') → is_Some (clientsMesh (sy_srv y') !! k').
Proof.
  assert (∀ s s', goneState s' = goneState s ∧ meshKept s s' → srv_gone s' = srv_gone s ∧ meshKept s s') as Hkept.
  { intros s s' [Hg Hm]. split; [|done]. by injection Hg. }
  assert (∀ s s', sameReg s s' → meshKept s s') as Hreg.
  { intros s s' [Hr _] k. injection Hr as _ _ _ Hmm _ _ _ _. by rewrite Hmm. }
  assert (∀ s s', goneStep s s' → (srv_gone s' = srv_gone s ∧ meshKept s s') ∨ ∃ k, srv_gone s' = srv_gone s ++ tellOf k s ∧
    (is_Some (clientsMesh s !! k) ∧ clientsMesh s' !! k = None) ∧ ∀ k', k' ≠ k → is_Some (clientsMesh s !! k') → is_Some (clientsMesh s' !! k')) as Hgo.
  { intros s s' [Hg|(k & (_ & _ & _ & Hn) & Hk)]; [left; by apply Hkept|right; by exists k]. }
  intros Hstep. destruct Hstep as
    [s told dn c0 sc s' Hnew Hfr Hrun|s told dn c0 s' Hreg0 Hrun|s told dn c0 s' Hreg0 Hrun|s told dn c0 ks s' Hreg0 Hdn0 Hks Hmesh Hrun
    |s told dn c0 s' batch Hreg0 Hdn0 Hrun|s told dn c0 src0 s' Hreg0 Hdn0 Hrun|s told dn c0 s' Hreg0 Hdn0 Hrun|s told dn c0 v s' Hreg0 Hrun
    |s told dn k f s' Hrun|s told dn k f s' Hrun]; cbn.
  - left. eapply registerClient_gone in Hrun; [|cbn; apply lookup_insert_eq]. by apply Hkept in Hrun.
  - by apply Hgo, (unregisterClient_gone s c0).
  - left. by apply Hkept, (noteClientActivityLocked_gone s c0).
  - left. by apply Hkept, (addWatcher_gone s c0 ks).
  - left. by apply Hkept, (takeAll_gone s c0 s' batch).
  - left. destruct (noteSendFromSrc_run s c0 src0 (registered_conn s c0 Hreg0)) as (s1 & Hrun1 & Hs). rewrite Hrun in Hrun1.
    injection Hrun1 as <-. split; [by eapply noteSendFromSrc_gone|by apply Hreg].
  - left. destruct (onSendLoopDone_run s c0 (registered_conn s c0 Hreg0)) as (s1 & Hrun1 & Hs & Hg). rewrite Hrun in Hrun1.
    injection Hrun1 as <-. split; [done|by apply Hreg].
  - left. by apply Hkept, (setPreferred_gone s c0 v).
  - left. by apply Hkept, (AddPacketForwarder_gone s k f).
  - by apply Hgo, (RemovePacketForwarder_gone s k f).
Qed.


(** ** A run: [keyA] sends to [keyB] and leaves *)
Definition talk : Server :=
  runTo (noteSendFromSrc 4%nat keyA) (runTo (acceptConn 4%nat (newConn keyB false 4)) (runTo (acceptConn 2%nat (newConn keyA false 2)) (New [0] lastWriterIsActive))).

Lemma talk_reachable : reachable [0] (mkSys talk ∅ ∅).
Proof.
  set (s0 := New [0] lastWriterIsActive). assert (reachable [0] (mkSys s0 ∅ ∅)) as H0 by apply rtc_refl.
  set (s1 := runTo (acceptConn 2%nat (newConn keyA false 2)) s0).
  assert (reachable [0] (mkSys s1 ∅ ∅)) as H1 by (apply (accept_step _ _ _ _ _ _ H0); [vm_compute; reflexivity|apply fresh_newConn|vm_compute; reflexivity]).
  set (s2 := runTo (acceptConn 4%nat (newConn keyB false 4)) s1).
  assert (reachable [0] (mkSys s2 ∅ ∅)) as H2 by (apply (accept_step _ _ _ _ _ _ H1); [vm_compute; reflexivity|apply fresh_newConn|vm_compute; reflexivity]).
  eapply steps_one; [exact H2|]. apply (step_send s2 ∅ ∅ 4%nat keyA); [is_registered|set_solver|]. apply runs. vm_compute. reflexivity.
Qed.


(** The client keeps the record of a peer that left: when the peer comes back, sends again
    and leaves again, the client is not told. *)
Definition talkAgain : Server :=
  let s := runTo (unregisterClient 2%nat) talk in
  let s := runTo (acceptConn 5%nat (newConn keyA false 5)) s in
  let s := runTo (noteSendFromSrc 4%nat keyA) s in
  runTo (unregisterClient 5%nat) s.

Lemma second_departure_is_not_told :
  srv_gone (runTo (unregisterClient 2%nat) talk) = [(4%nat, keyA)] ∧ srv_gone talkAgain = [(4%nat, keyA)] ∧
  clientsMesh talkAgain !! keyA = None.
Proof. vm_compute. done. Qed.

(** With [disableFighters], a connection that joins while the others of its key are disabled
    is not marked as a duplicate. *)
Lemma joining_fighters_is_not_marked :
  let s := New [0] disableFighters in
  let s := runTo (acceptConn 1%nat (newConn keyA false 1)) s in
  let s := runTo (acceptConn 2%nat (newConn keyA false 2)) s in
  let s := runTo (noteClientActivity 2%nat) s in
  let s := runTo (noteClientActivity 1%nat) s in
  let s := runTo (acceptConn 3%nat (newConn keyA false 3)) s in
  (sc_isDup <$> srv_conns s !! 3%nat) = Some false ∧ (Len <$> clients s !! keyA) = Some 3.
Proof. vm_compute. done. Qed.

(** The numbers of a [multiForwarder] wrap around: the newest forwarder then has the lowest one. *)
Lemma multi_add_wraps (m : multiForwarder) g f :
  mf_all m !! g = Some 255 → (∀ x v, mf_all m !! x = Some v → v <= 255) → mf_all (multi_add m f) !! f = Some 0.
Proof.
  intros Hg Hle. unfold multi_add. cbn. rewrite lookup_insert_eq. f_equal.
  enough (map_fold (λ (_ : forwarder) v max, if max <? v then v else max) 0 (mf_all m) = 255) as -> by done.
  set (F := λ (_ : forwarder) v max, if max <? v then v else max).
  assert (∀ mm : gmap forwarder Z, (∀ x v, mm !! x = Some v → v <= 255) →
    map_fold F 0 mm <= 255 ∧ ∀ x v, mm !! x = Some v → v <= map_fold F 0 mm) as Hmax.
  { intros mm. induction mm as [|x v mm Hx IH] using map_ind; intros Hb.
    - rewrite map_fold_empty. split; [lia|]. intros x v Hx. by rewrite lookup_empty in Hx.
    - rewrite map_fold_insert_L; [|unfold F; intros; repeat case_match; lia|done].
      destruct IH as [I1 I2]; [intros y w Hy; apply (Hb y); rewrite lookup_insert_ne; [done|congruence]|].
      pose proof (Hb x v (lookup_insert_eq _ _ _)). unfold F at 1 3. destruct (Z.ltb_spec (map_fold F 0 mm) v); (split; [lia|]);
      intros y w; rewrite lookup_insert; (case_decide; [intros [= <-]; lia|]); intros Hy; apply I2 in Hy; lia. }
  destruct (Hmax (mf_all m) Hle) as [H1 H2]. specialize (H2 g 255 Hg). fold F. lia.
Qed.
