(* ===== verification/DerpWire.v ===== *)
(** * derp: frames on the wire

    [derp.go], the client of [derp_client.go] and the frames that [derpserver.go] reads
    and writes.  A [bufio.Reader] is the bytes that are still to come; a [bufio.Writer]
    is its buffer in front of a connection, whose writes may fail. *)
From S2P Require Import Prelude NetBuf NetAddr GoState NetConn DerpServer.

(** ** [bufio] *)
Definition ErrUnexpectedEOF : error := Errorf "unexpected EOF".

(** [br.Peek(n)] and [br.Discard(n)], for [n] within the size of the buffer *)
Definition Peek (n : nat) : stM bytes bytes := λ br,
  if (n <=? length br)%nat then (br, Ok (take n br)) else (br, Err EOF).
Definition Discard (n : nat) : stM bytes unit := modS (drop n).
(** [io.ReadFull(br, b)] with [len(b) = n], and [io.CopyN(io.Discard, br, n)] *)
Definition br_ReadFull (n : nat) : stM bytes bytes := λ br,
  if (n <=? length br)%nat then (drop n br, Ok (take n br)) else ([], Err ErrUnexpectedEOF).
Definition CopyN (n : nat) : stM bytes unit := λ br,
  if (n <=? length br)%nat then (drop n br, Ok tt) else ([], Err EOF).
Definition br_ReadByte : stM bytes Z := λ br, match br with x :: br => (br, Ok x) | [] => ([], Err EOF) end.

(** [bufiox.ReadFull] *)
Definition bufiox_ReadFull (n : nat) : stM bytes bytes := b ← Peek n; _ ← Discard n; mret b.

(** [bufio.Writer] *)
Record Writer := mkWriter { bw_size : nat; bw_buf : bytes; bw_err : option error; bw_conn : NetConn }.

Definition Available (w : Writer) : nat := bw_size w - length (bw_buf w).

(** [b.wr.Write(p)], keeping the error *)
Definition wr_Write (p rest : bytes) : stM Writer unit := λ w,
  let '(c, r) := conn_Write p (bw_conn w) in
  match r with
  | Ok _ => (mkWriter (bw_size w) rest (bw_err w) c, Ok tt)
  | _ => (mkWriter (bw_size w) (bw_buf w) (Some ioErr) c, Err ioErr)
  end.

Definition Flush : stM Writer unit := λ w,
  match bw_err w with
  | Some e => (w, Err e)
  | None => match bw_buf w with [] => (w, Ok tt) | p => wr_Write p [] w end
  end.

Definition appendBuf (p : bytes) : stM Writer unit :=
  modS (λ w, mkWriter (bw_size w) (bw_buf w ++ p) (bw_err w) (bw_conn w)).

(** [b.Write(p)]: a large write with an empty buffer goes to the connection directly. *)
Fixpoint bw_WriteLoop (fuel : nat) (p : bytes) : stM Writer unit := λ w,
  match fuel with
  | O => (w, NoFuel)
  | S fuel =>
      match bw_err w with
      | Some e => (w, Err e)
      | None =>
          if (length p <=? Available w)%nat then appendBuf p w else
          match bw_buf w with
          | [] => wr_Write p [] w
          | _ => (_ ← appendBuf (take (Available w) p); _ ← Flush; bw_WriteLoop fuel (drop (Available w) p)) w
          end
      end
  end.
Definition bw_Write (p : bytes) : stM Writer unit := bw_WriteLoop 3 p.

Definition WriteByte (x : Z) : stM Writer unit := λ w,
  match bw_err w with
  | Some e => (w, Err e)
  | None => (_ ← (if (Available w <=? 0)%nat then Flush else mret tt); appendBuf [x]) w
  end.

Fixpoint WriteBytes (p : bytes) : stM Writer unit :=
  match p with [] => mret tt | x :: p => _ ← WriteByte x; WriteBytes p end.

(** ** [derp.go] *)
Definition MaxPacketSize : Z := 64 * 2 ^ 10.
(** ["DERP🔑"] *)
Definition derpMagic : bytes := [0x44; 0x45; 0x52; 0x50; 0xf0; 0x9f; 0x94; 0x91].
Definition derpNonceLen : Z := 24.
Definition FrameHeaderLen : nat := 5.
Definition KeyLen : Z := 32.
Definition MaxInfoLen : Z := 2 ^ 20.

Definition FrameServerKey : Z := 0x01.
Definition FrameClientInfo : Z := 0x02.
Definition FrameServerInfo : Z := 0x03.
Definition FrameSendPacket : Z := 0x04.
Definition FrameRecvPacket : Z := 0x05.
Definition FrameKeepAlive : Z := 0x06.
Definition FrameNotePreferred : Z := 0x07.
Definition FramePeerGone : Z := 0x08.
Definition FramePeerPresent : Z := 0x09.
Definition FrameForwardPacket : Z := 0x0a.
Definition FrameWatchConns : Z := 0x10.
Definition FrameClosePeer : Z := 0x11.
Definition FramePing : Z := 0x12.
Definition FramePong : Z := 0x13.
Definition FrameHealth : Z := 0x14.
Definition FrameRestarting : Z := 0x15.
Definition PeerGoneReasonDisconnected : Z := 0x00.
Definition PeerGoneReasonNotHere : Z := 0x01.

Definition writeUint32 (v : Z) : stM Writer unit := WriteBytes (be_bytes 4 v).

Definition ReadFrameHeader : stM bytes (Z * Z) :=
  hdr ← Peek FrameHeaderLen;
  t ← lift (idx hdr 0);
  n ← lift (Uint32 hdr 1);
  _ ← Discard FrameHeaderLen;
  mret (t, n).

(** The length is returned also when the type is not the one wanted. *)
Definition ReadFrameTypeHeader (wantType : Z) : stM bytes (Z * option error) :=
  '(gotType, frameLen) ← ReadFrameHeader;
  mret (frameLen, if negb (wantType =? gotType) then Some (Errorf "bad frame type") else None).

(** The type, the length, the bytes read and whether there were more. *)
Definition readFrame (maxSize : Z) (bufLen : nat) : stM bytes (Z * Z * bytes * bool) :=
  '(t, frameLen) ← ReadFrameHeader;
  if maxSize <? frameLen then throw (Errorf "frame header size exceeds reader limit") else
  b ← br_ReadFull (Nat.min (Z.to_nat frameLen) bufLen);
  let remain := frameLen - zlen b in
  if 0 <? remain then _ ← CopyN (Z.to_nat remain); mret (t, frameLen, b, true)
  else mret (t, frameLen, b, false).

Definition WriteFrameHeader (t frameLen : Z) : stM Writer unit :=
  w ← getS;
  if (FrameHeaderLen <=? Available w)%nat then bw_Write ([t] ++ be_bytes 4 frameLen)
  else _ ← WriteByte t; writeUint32 frameLen.

Definition WriteFrame (t : Z) (b : bytes) : stM Writer unit :=
  if 10 * 2 ^ 20 <? zlen b then throw (Errorf "unreasonably large frame write") else
  _ ← WriteFrameHeader t (u32 (zlen b));
  _ ← bw_Write b;
  Flush.

(** ** Keys: [types/key/node.go] *)
Definition ReadRawWithoutAllocating : stM bytes NodePublic := bufiox_ReadFull 32.
Definition WriteRawWithoutAllocating (k : NodePublic) : stM Writer unit :=
  w ← getS;
  if (32 <=? Available w)%nat then bw_Write k else WriteBytes k.
Definition zeroPublic : NodePublic := replicate 32 0.

(** ** What the server writes *)
Definition sendKeepAlive : stM Writer unit := WriteFrameHeader FrameKeepAlive 0.
Definition sendPong (data : bytes) : stM Writer unit := _ ← WriteFrameHeader FramePong 8; bw_Write data.
Definition sendPeerGone (peer : NodePublic) (reason : Z) : stM Writer unit :=
  let data := peer ++ [reason] in
  _ ← WriteFrameHeader FramePeerGone (u32 (zlen data)); bw_Write data.
Definition peerPresentFrameLen : Z := KeyLen + 16 + 2 + 1.
Definition sendPeerPresent (peer : NodePublic) (ipPort : AddrPort) (flags : Z) : stM Writer unit :=
  _ ← WriteFrameHeader FramePeerPresent peerPresentFrameLen;
  bw_Write (peer ++ As16 (ap_Addr ipPort) ++ be_bytes 2 (ap_Port ipPort) ++ [flags]).
Definition sendPacket (srcKey : NodePublic) (contents : bytes) : stM Writer unit :=
  let withKey := negb (bool_decide (srcKey = zeroPublic)) in
  let pktLen := zlen contents + (if withKey then 32 else 0) in
  _ ← WriteFrameHeader FrameRecvPacket (u32 pktLen);
  _ ← (if withKey then WriteRawWithoutAllocating srcKey else mret tt);
  bw_Write contents.
Definition sendServerKey (publicKey : NodePublic) : stM Writer unit := WriteFrame FrameServerKey (derpMagic ++ publicKey).

(** ** What the server reads *)
Definition recvPacket (frameLen : Z) : stM bytes (NodePublic * bytes) :=
  if frameLen <? KeyLen then throw (Errorf "short send packet frame") else
  dstKey ← ReadRawWithoutAllocating;
  let packetLen := frameLen - KeyLen in
  if MaxPacketSize <? packetLen then throw (Errorf "data packet longer than max") else
  contents ← br_ReadFull (Z.to_nat packetLen);
  mret (dstKey, contents).
Definition recvForwardPacket (frameLen : Z) : stM bytes (NodePublic * NodePublic * bytes) :=
  if frameLen <? KeyLen * 2 then throw (Errorf "short send packet frame") else
  srcKey ← ReadRawWithoutAllocating;
  dstKey ← ReadRawWithoutAllocating;
  let packetLen := frameLen - KeyLen * 2 in
  if MaxPacketSize <? packetLen then throw (Errorf "data packet longer than max") else
  contents ← br_ReadFull (Z.to_nat packetLen);
  mret (srcKey, dstKey, contents).

(** The frames of a client, as [sclient.run] dispatches them, with what each handler reads. *)
Inductive clientFrame :=
  | CfNotePreferred (v : bool)
  | CfSendPacket (dst : NodePublic) (contents : bytes)
  | CfForwardPacket (src dst : NodePublic) (contents : bytes)
  | CfWatchConns
  | CfClosePeer (target : NodePublic)
  | CfPing (data : bytes)
  | CfUnknown.

Definition handleFrameNotePreferred (fl : Z) : stM bytes clientFrame :=
  if negb (fl =? 1) then throw (Errorf "frameNotePreferred wrong size") else
  v ← br_ReadByte; mret (CfNotePreferred (negb (v =? 0))).
Definition handleFrameWatchConns (canMesh : bool) (fl : Z) : stM bytes clientFrame :=
  if negb (fl =? 0) then throw (Errorf "handleFrameWatchConns wrong size") else
  if negb canMesh then throw (Errorf "insufficient permissions") else mret CfWatchConns.
Definition handleFramePing (fl : Z) : stM bytes clientFrame :=
  if fl <? 8 then throw (Errorf "short ping") else
  if 1000 <? fl then throw (Errorf "ping body too large") else
  m ← bufiox_ReadFull 8;
  let extra := fl - 8 in
  _ ← (if 0 <? extra then CopyN (Z.to_nat extra) else mret tt);
  mret (CfPing m).
Definition readClosePeer (canMesh : bool) (fl : Z) : stM bytes clientFrame :=
  if negb (fl =? KeyLen) then throw (Errorf "handleFrameClosePeer wrong size") else
  if negb canMesh then throw (Errorf "insufficient permissions") else
  target ← ReadRawWithoutAllocating; mret (CfClosePeer target).
Definition readForwardPacket (canMesh : bool) (fl : Z) : stM bytes clientFrame :=
  if negb canMesh then throw (Errorf "insufficient permissions") else
  '(src, dst, contents) ← wrapS "recvForwardPacket" (recvForwardPacket fl); mret (CfForwardPacket src dst contents).
Definition readSendPacket (fl : Z) : stM bytes clientFrame :=
  '(dst, contents) ← wrapS "recvPacket" (recvPacket fl); mret (CfSendPacket dst contents).
Definition handleUnknownFrame (fl : Z) : stM bytes clientFrame := _ ← CopyN (Z.to_nat fl); mret CfUnknown.

(** One round of the loop of [sclient.run]. *)
Definition readClientFrame (canMesh : bool) : stM bytes clientFrame :=
  '(ft, fl) ← ReadFrameHeader;
  if ft =? FrameNotePreferred then handleFrameNotePreferred fl
  else if ft =? FrameSendPacket then readSendPacket fl
  else if ft =? FrameForwardPacket then readForwardPacket canMesh fl
  else if ft =? FrameWatchConns then handleFrameWatchConns canMesh fl
  else if ft =? FrameClosePeer then readClosePeer canMesh fl
  else if ft =? FramePing then handleFramePing fl
  else handleUnknownFrame fl.

(** ** What the client writes *)

(** [allow] is the answer of the send rate limiter, if the server asked for one. *)
Definition send (allow : option bool) (dstKey : NodePublic) (pkt : bytes) : stM Writer unit :=
  wrapS "derp.Send" (
    if MaxPacketSize <? zlen pkt then throw (Errorf "packet too big") else
    if bool_decide (allow = Some false) then mret tt else
    _ ← WriteFrameHeader FrameSendPacket (u32 (32 + zlen pkt));
    _ ← bw_Write dstKey;
    _ ← bw_Write pkt;
    Flush).
Definition ForwardPacket (srcKey dstKey : NodePublic) (pkt : bytes) : stM Writer unit :=
  wrapS "derp.ForwardPacket" (
    if MaxPacketSize <? zlen pkt then throw (Errorf "packet too big") else
    _ ← WriteFrameHeader FrameForwardPacket (u32 (KeyLen * 2 + zlen pkt));
    _ ← bw_Write srcKey;
    _ ← bw_Write dstKey;
    _ ← bw_Write pkt;
    Flush).
Definition sendPingOrPong (typ : Z) (data : bytes) : stM Writer unit :=
  _ ← WriteFrameHeader typ 8; _ ← bw_Write data; Flush.
Definition NotePreferred (preferred : bool) : stM Writer unit :=
  wrapS "derp.NotePreferred" (_ ← WriteFrameHeader FrameNotePreferred 1; _ ← WriteByte (if preferred then 1 else 0); Flush).
Definition WatchConnectionChanges : stM Writer unit := _ ← WriteFrameHeader FrameWatchConns 0; Flush.
Definition ClosePeer (target : NodePublic) : stM Writer unit := WriteFrame FrameClosePeer target.

(** ** What the client reads *)
Definition recvServerKey : stM bytes NodePublic :=
  '(t, flen, buf, _) ← readFrame (2 ^ 10) 40;
  if (flen <? 40) || negb (t =? FrameServerKey) || negb (bool_decide (take 8 buf = derpMagic))
  then throw (Errorf "invalid server greeting") else mret (drop 8 buf).

Inductive ReceivedMessage :=
  | ReceivedPacket (Source : NodePublic) (Data : bytes)
  | PeerGoneMessage (Peer : NodePublic) (Reason : Z)
  | PeerPresentMessage (Key : NodePublic) (IPPort : AddrPort) (Flags : Z)
  | ServerInfoMessage (bytesPerSecond burst : Z)
  | PingMessage (data : bytes)
  | PongMessage (data : bytes)
  | KeepAliveMessage
  | HealthMessage (Problem : bytes)
  | ServerRestartingMessage (ReconnectIn TryFor : Z).

Definition cutLeadingN (b : bytes) (n : nat) : option (bytes * bytes) :=
  if (n <=? length b)%nat then Some (take n b, drop n b) else None.

Section Client.
(** [c.privateKey.OpenFrom(c.serverKey, b)] and the JSON in it: the two limits of a
    [ServerInfo], or the error. *)
Context (openServerInfo : bytes → res (Z * Z)).

Definition parseServerInfo (b : bytes) : res (Z * Z) :=
  let fl := zlen b in
  if fl <? derpNonceLen then Err (Errorf "short serverInfo frame") else
  if derpNonceLen + MaxInfoLen <? fl then Err (Errorf "long serverInfo frame") else
  openServerInfo b.

(** The [switch] on the frame type: a message, or nothing for a frame that is skipped. *)
Definition decodeFrame (t n : Z) (b : bytes) : res (option ReceivedMessage) :=
  if t =? FrameServerInfo then
    '(bps, burst) ← wrapf "invalid server info frame" (parseServerInfo b); mret (Some (ServerInfoMessage bps burst))
  else if t =? FrameKeepAlive then mret (Some KeepAliveMessage)
  else if t =? FramePeerGone then
    if n <? KeyLen then mret None else
    reason ← (if KeyLen <? n then idx b KeyLen else mret PeerGoneReasonDisconnected);
    peer ← slice b 0 KeyLen;
    mret (Some (PeerGoneMessage peer reason))
  else if t =? FramePeerPresent then
    match cutLeadingN b 32 with
    | None => mret None
    | Some (key, remain) =>
        match cutLeadingN remain 18 with
        | None => mret (Some (PeerPresentMessage key (AddrPortFrom AddrZero 0) 0))
        | Some (chunk, remain) =>
            port ← Uint16 chunk 16;
            let ipPort := AddrPortFrom (Unmap (AddrFrom16 (take 16 chunk))) port in
            match cutLeadingN remain 1 with
            | None => mret (Some (PeerPresentMessage key ipPort 0))
            | Some (chunk, _) => fl ← idx chunk 0; mret (Some (PeerPresentMessage key ipPort fl))
            end
        end
    end
  else if t =? FrameRecvPacket then
    if n <? KeyLen then mret None else
    src ← slice b 0 KeyLen; data ← slice b KeyLen n;
    mret (Some (ReceivedPacket src data))
  else if t =? FramePing then if n <? 8 then mret None else mret (Some (PingMessage (take 8 b)))
  else if t =? FramePong then if n <? 8 then mret None else mret (Some (PongMessage (take 8 b)))
  else if t =? FrameHealth then mret (Some (HealthMessage b))
  else if t =? FrameRestarting then
    if n <? 8 then mret None else
    r ← Uint32 b 0; y ← Uint32 b 4;
    mret (Some (ServerRestartingMessage (r * 1000000) (y * 1000000)))
  else mret None.

(** [Client], its reading side. *)
Record Client := mkDerpClient { dc_br : bytes; dc_size : Z; dc_peeked : nat; dc_readErr : option error; dc_rate : option (Z * Z) }.

Definition onReader {A} (m : stM bytes A) : stM Client A := λ c,
  let '(br, r) := m (dc_br c) in (mkDerpClient br (dc_size c) (dc_peeked c) (dc_readErr c) (dc_rate c), r).
Definition setPeeked (n : nat) : stM Client unit :=
  modS (λ c, mkDerpClient (dc_br c) (dc_size c) n (dc_readErr c) (dc_rate c)).
Definition setSendRateLimiter (bps burst : Z) : stM Client unit :=
  modS (λ c, mkDerpClient (dc_br c) (dc_size c) (dc_peeked c) (dc_readErr c) (if bps =? 0 then None else Some (bps, burst))).

(** [b, err = c.br.Peek(int(n)); c.peeked = int(n)] *)
Definition peekFrame (n : nat) : stM Client bytes := λ c,
  let '(c, r) := onReader (Peek n) c in ((setPeeked n c).1, r).

(** [for { ... }] of [recvTimeout] *)
Fixpoint recvLoop (fuel : nat) : stM Client ReceivedMessage :=
  match fuel with
  | O => λ c, (c, NoFuel)
  | S fuel =>
      c ← getS;
      _ ← (if (dc_peeked c =? 0)%nat then mret tt else _ ← onReader (Discard (dc_peeked c)); setPeeked 0);
      '(t, n) ← onReader ReadFrameHeader;
      if 2 ^ 20 <? n then throw (Errorf "unexpectedly large frame") else
      c ← getS;
      b ← (if n <=? dc_size c then peekFrame (Z.to_nat n) else onReader (br_ReadFull (Z.to_nat n)));
      o ← lift (decodeFrame t n b);
      match o with
      | None => recvLoop fuel
      | Some (ServerInfoMessage bps burst) => _ ← setSendRateLimiter bps burst; mret (ServerInfoMessage bps burst)
      | Some m => mret m
      end
  end.

(** [recvTimeout]: an error is kept, and returned by every later call. *)
Definition Recv : stM Client ReceivedMessage := λ c,
  match dc_readErr c with
  | Some e => (c, Err e)
  | None =>
      match recvLoop (S (length (dc_br c))) c with
      | (c, Err e) =>
          let e := Errorf "derp.Recv" in
          (mkDerpClient (dc_br c) (dc_size c) (dc_peeked c) (Some e) (dc_rate c), Err e)
      | r => r
      end
  end.

End Client.
