(* ===== verification/DerpFrames.v ===== *)
(** * DERP frames arrive as they were sent

    What the operations of [DerpWire] put on a connection, and what the other side
    makes of it. *)
From S2P Require Import Prelude NetBuf NetAddr GoState NetConn DerpServer DerpWire.

(** ** Writing *)
Definition streamed (w : Writer) : bytes := c_sent (bw_conn w) ++ bw_buf w.
Definition healthy (w : Writer) : Prop := bw_err w = None ∧ (0 < bw_size w)%nat ∧ (length (bw_buf w) <= bw_size w)%nat.
Definition reliable (w : Writer) : Prop := c_wfail (bw_conn w) = [].

(** [m] puts [p] behind what was written so far, or the connection fails. *)
Definition emits (m : stM Writer unit) (p : bytes) : Prop :=
  ∀ w, healthy w →
  match m w with
  | (w', Ok _) => healthy w' ∧ streamed w' = streamed w ++ p ∧ (reliable w → reliable w')
  | (_, Err _) => ¬ reliable w
  | _ => False
  end.

Lemma emits_bind m n p q : emits m p → emits n q → emits (_ ← m; n) (p ++ q).
Proof.
  intros Hm Hn w Hw. specialize (Hm w Hw). unfold mbind, stM_bind. destruct (m w) as [w1 [[]|e| |]]; [|done..].
  destruct Hm as (Hw1 & Hs1 & Hr1). specialize (Hn w1 Hw1). destruct (n w1) as [w2 [[]|e| |]]; [|tauto|done..].
  destruct Hn as (Hw2 & Hs2 & Hr2). split_and!; [done| |tauto]. by rewrite Hs2, Hs1, app_assoc.
Qed.

Lemma emits_nil : emits (mret tt) [].
Proof. intros w Hw. cbn. by rewrite app_nil_r. Qed.

Lemma emits_eq m p q : emits m p → p = q → emits m q.
Proof. by intros ? <-. Qed.

Lemma wr_Write_spec p rest w :
  match wr_Write p rest w with
  | (w', Ok _) => bw_size w' = bw_size w ∧ bw_buf w' = rest ∧ bw_err w' = bw_err w ∧
                  c_sent (bw_conn w') = c_sent (bw_conn w) ++ p ∧ (reliable w → reliable w')
  | (_, Err _) => ¬ reliable w
  | _ => False
  end.
Proof.
  unfold wr_Write, conn_Write, reliable. destruct (c_wfail (bw_conn w)) as [|[k|] l]; cbn; [done|by intros ?|].
  split_and!; try done.
Qed.

Lemma emits_Flush : emits Flush [].
Proof.
  intros w (He & Hsz & Hl). unfold Flush. rewrite He. destruct (bw_buf w) as [|x l] eqn:Eb.
  - unfold streamed, healthy. rewrite Eb, !app_nil_r. cbn. split_and!; try done; lia.
  - pose proof (wr_Write_spec (x :: l) [] w) as H. destruct (wr_Write (x :: l) [] w) as [w' [[]|e| |]]; [|done..].
    destruct H as (H1 & H2 & H3 & H4 & H5). unfold healthy, streamed. rewrite H1, H2, H3, H4, He, Eb, !app_nil_r. cbn. split_and!; try done; lia.
Qed.

(** After a flush nothing is left in the buffer. *)
Lemma Flush_empties w w' : Flush w = (w', Ok tt) → bw_buf w' = [].
Proof.
  unfold Flush. destruct (bw_err w); [done|]. destruct (bw_buf w) as [|x l] eqn:E; [by intros [= <-]|].
  intros Hf. pose proof (wr_Write_spec (x :: l) [] w) as H. rewrite Hf in H. by destruct H as (_ & ? & _).
Qed.

Lemma emits_append p w : healthy w → (length p <= Available w)%nat →
  match appendBuf p w with
  | (w', Ok _) => healthy w' ∧ streamed w' = streamed w ++ p ∧ (reliable w → reliable w')
  | _ => False
  end.
Proof.
  intros (He & Hsz & Hl) Hp. unfold appendBuf, modS, healthy, streamed, reliable, Available in *. cbn. rewrite length_app, app_assoc.
  split_and!; try done. lia.
Qed.

Lemma emits_Write p : emits (bw_Write p) p.
Proof.
  intros w Hw. unfold bw_Write. pose proof Hw as (He & Hsz & Hl). cbn [bw_WriteLoop]. rewrite He.
  destruct (Nat.leb_spec (length p) (Available w)) as [Hp|Hp].
  { pose proof (emits_append p w Hw Hp) as H. by destruct (appendBuf p w) as [w' [[]|e| |]]. }
  destruct (bw_buf w) as [|x l] eqn:Eb.
  - pose proof (wr_Write_spec p [] w) as H. destruct (wr_Write p [] w) as [w' [[]|e| |]]; [|done..].
    destruct H as (H1 & H2 & H3 & H4 & H5). unfold healthy, streamed. rewrite H1, H2, H3, H4, He, Eb, !app_nil_r. cbn. split_and!; try done; lia.
  - set (k := Available w) in *. assert (length (take k p) <= Available w)%nat as Hk by (rewrite length_take; fold k; lia).
    pose proof (emits_append (take k p) w Hw Hk) as Ha. unfold mbind, stM_bind.
    destruct (appendBuf (take k p) w) as [w1 [[]|e| |]]; [|done..]. destruct Ha as (Hw1 & Hs1 & Hr1).
    pose proof (emits_Flush w1 Hw1) as Hf. destruct (Flush w1) as [w2 [[]|e| |]] eqn:Ef; [|tauto|done..].
    destruct Hf as (Hw2 & Hs2 & Hr2). pose proof (Flush_empties _ _ Ef) as Hb2. rewrite app_nil_r in Hs2.
    assert (streamed w ++ p = streamed w2 ++ drop k p) as Hall by (rewrite Hs2, Hs1, <- app_assoc, take_drop; done).
    destruct Hw2 as (He2 & Hsz2 & Hl2). rewrite He2.
    destruct (Nat.leb_spec (length (drop k p)) (Available w2)) as [Hp2|Hp2].
    + pose proof (emits_append (drop k p) w2 (conj He2 (conj Hsz2 Hl2)) Hp2) as H.
      destruct (appendBuf (drop k p) w2) as [w' [[]|e| |]]; [|done..]. rewrite Hall. naive_solver.
    + rewrite Hb2. pose proof (wr_Write_spec (drop k p) [] w2) as H. destruct (wr_Write (drop k p) [] w2) as [w' [[]|e| |]]; [|naive_solver|done..].
      destruct H as (H1 & H2 & H3 & H4 & H5). rewrite Hall. unfold healthy, streamed. rewrite H1, H2, H3, H4, He2, Hb2, !app_nil_r. cbn.
      split_and!; try done; [lia|tauto].
Qed.

Lemma emits_WriteByte x : emits (WriteByte x) [x].
Proof.
  intros w Hw. pose proof Hw as (He & Hsz & Hl). unfold WriteByte. rewrite He. unfold mbind, stM_bind.
  destruct (Nat.leb_spec (Available w) 0) as [Ha|Ha].
  - pose proof (emits_Flush w Hw) as Hf. destruct (Flush w) as [w2 [[]|e| |]] eqn:Ef; [|done..].
    destruct Hf as (Hw2 & Hs2 & Hr2). pose proof (Flush_empties _ _ Ef) as Hb2. rewrite app_nil_r in Hs2.
    assert (length [x] <= Available w2)%nat as Hle by (unfold Available; rewrite Hb2; cbn; destruct Hw2 as (_ & ? & _); lia).
    pose proof (emits_append [x] w2 Hw2 Hle) as H. destruct (appendBuf [x] w2) as [w' [[]|e| |]]; [|done..]. rewrite <- Hs2. naive_solver.
  - unfold mret, stM_ret. assert (length [x] <= Available w)%nat as Hle by (cbn; lia).
    pose proof (emits_append [x] w Hw Hle) as H. by destruct (appendBuf [x] w) as [w' [[]|e| |]].
Qed.

Lemma emits_WriteBytes p : emits (WriteBytes p) p.
Proof.
  induction p as [|x p IH]; cbn [WriteBytes]; [apply emits_nil|]. apply (emits_bind _ _ [x] p); [apply emits_WriteByte|exact IH].
Qed.

(** A write that chooses its path by the room in the buffer. *)
Lemma emits_if (f : Writer → bool) m n p :
  emits m p → emits n p → emits (w ← getS; if f w then m else n) p.
Proof. intros Hm Hn w Hw. unfold mbind, stM_bind, getS. destruct (f w); [by apply Hm|by apply Hn]. Qed.

(** Both paths of [WriteFrameHeader] write the same header. *)
Lemma emits_header t n : emits (WriteFrameHeader t n) ([t] ++ be_bytes 4 n).
Proof.
  unfold WriteFrameHeader. apply (emits_if (λ w, (FrameHeaderLen <=? Available w)%nat)); [apply emits_Write|].
  apply emits_bind; [apply emits_WriteByte|apply emits_WriteBytes].
Qed.

Lemma emits_key k : emits (WriteRawWithoutAllocating k) k.
Proof.
  unfold WriteRawWithoutAllocating. apply (emits_if (λ w, (32 <=? Available w)%nat)); [apply emits_Write|apply emits_WriteBytes].
Qed.

Lemma emits_wrapS msg m p : emits m p → emits (wrapS msg m) p.
Proof. intros Hm w Hw. specialize (Hm w Hw). unfold wrapS. by destruct (m w) as [w' [[]|e| |]]. Qed.

Create HintDb derp.
#[export] Hint Resolve emits_header emits_Write emits_Flush emits_WriteByte emits_WriteBytes emits_key emits_nil emits_bind : derp.

(** ** Frames *)
Definition frame (t : Z) (body : bytes) : bytes := [t] ++ be_bytes 4 (zlen body) ++ body.

Lemma u32_small z : 0 <= z < 2 ^ 32 → u32 z = z.
Proof. intros. unfold u32. by apply Z.mod_small. Qed.

Lemma emits_frame t body n : n = zlen body → emits (_ ← WriteFrameHeader t n; bw_Write body) (frame t body).
Proof. intros ->. eapply emits_eq; [eauto with derp|]. unfold frame. by rewrite <- app_assoc. Qed.

(** ** Reading *)
Lemma header_read t n rest :
  0 <= n < 2 ^ 32 → ReadFrameHeader ([t] ++ be_bytes 4 n ++ rest) = (rest, Ok (t, n)).
Proof.
  intros Hn. unfold ReadFrameHeader. rewrite (app_assoc [t]). remember ([t] ++ be_bytes 4 n) as hdr eqn:Eh.
  assert (length hdr = 5%nat) as Hl by (rewrite Eh, length_app, be_bytes_length; done).
  assert (idx hdr 0 = Ok t) as Ht by (by rewrite Eh).
  assert (Uint32 hdr 1 = Ok n) as HU.
  { rewrite Uint32_Ok by (unfold zlen; rewrite ?Hl; lia). f_equal. unfold be_at. change (Z.to_nat 1) with 1%nat. rewrite Eh.
    change (drop 1 ([t] ++ be_bytes 4 n)) with (be_bytes 4 n). rewrite take_ge by (by rewrite be_bytes_length).
    apply be_val_bytes_id. exact Hn. }
  erewrite stM_bind_run. 2: {
    unfold Peek, FrameHeaderLen. rewrite (proj2 (Nat.leb_le 5 _)) by (rewrite length_app, Hl; lia). rewrite take_app_length' by done. reflexivity. }
  cbn beta. unfold lift. erewrite stM_bind_run by (rewrite Ht; reflexivity). cbn beta.
  erewrite stM_bind_run by (rewrite HU; reflexivity). cbn beta. erewrite stM_bind_run by reflexivity.
  unfold FrameHeaderLen. by rewrite drop_app_length'.
Qed.

Lemma frame_read t body rest :
  zlen body < 2 ^ 32 → ReadFrameHeader (frame t body ++ rest) = (body ++ rest, Ok (t, zlen body)).
Proof.
  intros Hl. unfold frame. rewrite <- !app_assoc. apply header_read. pose proof (zlen_nonneg body). lia.
Qed.

Lemma br_ReadFull_app b rest n : length b = n → br_ReadFull n (b ++ rest) = (rest, Ok b).
Proof.
  intros <-. unfold br_ReadFull. rewrite length_app, (proj2 (Nat.leb_le _ _)) by lia. by rewrite drop_app_length, take_app_length.
Qed.

Lemma bufiox_ReadFull_app b rest n : length b = n → bufiox_ReadFull n (b ++ rest) = (rest, Ok b).
Proof.
  intros <-. unfold bufiox_ReadFull. erewrite stM_bind_run by (unfold Peek; rewrite length_app, (proj2 (Nat.leb_le _ _)) by lia; reflexivity).
  cbn beta. erewrite stM_bind_run by reflexivity. by rewrite drop_app_length, take_app_length.
Qed.

(** ** From the client to the server *)
Definition isKey (k : NodePublic) : Prop := length k = 32%nat.

(** What a client asks for, how it is sent and how the server reads it. *)
Definition request (f : clientFrame) : option (stM Writer unit) :=
  match f with
  | CfNotePreferred v => Some (NotePreferred v)
  | CfSendPacket dst pkt => Some (send None dst pkt)
  | CfForwardPacket src dst pkt => Some (ForwardPacket src dst pkt)
  | CfWatchConns => Some WatchConnectionChanges
  | CfClosePeer target => Some (ClosePeer target)
  | CfPing data => Some (sendPingOrPong FramePing data)
  | CfUnknown => None
  end.

Definition requestOk (f : clientFrame) : Prop :=
  match f with
  | CfSendPacket dst pkt => isKey dst ∧ zlen pkt <= MaxPacketSize
  | CfForwardPacket src dst pkt => isKey src ∧ isKey dst ∧ zlen pkt <= MaxPacketSize
  | CfClosePeer target => isKey target
  | CfPing data => length data = 8%nat
  | CfNotePreferred _ | CfWatchConns => True
  | CfUnknown => False
  end.

Definition requestFrame (f : clientFrame) : bytes :=
  match f with
  | CfNotePreferred v => frame FrameNotePreferred [if v then 1 else 0]
  | CfSendPacket dst pkt => frame FrameSendPacket (dst ++ pkt)
  | CfForwardPacket src dst pkt => frame FrameForwardPacket (src ++ dst ++ pkt)
  | CfWatchConns => frame FrameWatchConns []
  | CfClosePeer target => frame FrameClosePeer target
  | CfPing data => frame FramePing data
  | CfUnknown => []
  end.

Lemma request_emits f m : requestOk f → request f = Some m → emits m (requestFrame f).
Proof.
  destruct f as [v|dst pkt|src dst pkt| |target|data|]; cbn [requestOk request requestFrame]; intros Hok [= <-].
  - unfold NotePreferred. apply emits_wrapS. eapply emits_eq; [eauto 10 with derp|]. done.
  - destruct Hok as [Hk Hl]. unfold send. apply emits_wrapS. rewrite (proj2 (Z.ltb_ge _ _)) by done. rewrite bool_decide_false by done.
    unfold isKey in Hk. pose proof (zlen_nonneg pkt). eapply emits_eq; [eauto 10 with derp|].
    unfold frame. rewrite u32_small by (unfold MaxPacketSize in *; lia). repeat rewrite <- app_assoc. rewrite app_nil_r. do 3 f_equal.
    unfold zlen. rewrite length_app. lia.
  - destruct Hok as (Hk1 & Hk2 & Hl). unfold ForwardPacket. apply emits_wrapS. rewrite (proj2 (Z.ltb_ge _ _)) by done.
    unfold isKey in *. pose proof (zlen_nonneg pkt). eapply emits_eq; [eauto 10 with derp|].
    unfold frame. rewrite u32_small by (unfold MaxPacketSize, KeyLen in *; lia). repeat rewrite <- app_assoc. rewrite app_nil_r. do 3 f_equal.
    unfold zlen, KeyLen. rewrite !length_app. lia.
  - unfold WatchConnectionChanges. eapply emits_eq; [eauto 10 with derp|]. done.
  - unfold ClosePeer, WriteFrame. unfold isKey in Hok. assert (zlen target = 32) as Hz by (unfold zlen; lia).
    rewrite (proj2 (Z.ltb_ge _ _)) by (rewrite Hz; lia). eapply emits_eq; [eauto 10 with derp|].
    unfold frame. rewrite u32_small by lia. by rewrite app_nil_r, <- app_assoc.
  - unfold sendPingOrPong. eapply emits_eq; [eauto 10 with derp|]. unfold frame. replace (zlen data) with 8 by (unfold zlen; lia).
    by rewrite app_nil_r, <- app_assoc.
Qed.

Lemma recvPacket_app dst pkt rest :
  length dst = 32%nat → zlen pkt <= MaxPacketSize →
  recvPacket (32 + zlen pkt) (dst ++ pkt ++ rest) = (rest, Ok (dst, pkt)).
Proof.
  intros Hk Hl. pose proof (zlen_nonneg pkt). unfold recvPacket. rewrite (proj2 (Z.ltb_ge _ _)) by (unfold KeyLen; lia).
  erewrite stM_bind_run by (by apply bufiox_ReadFull_app). cbn beta zeta. rewrite (proj2 (Z.ltb_ge MaxPacketSize _)) by (unfold KeyLen; lia).
  erewrite stM_bind_run by (apply br_ReadFull_app; unfold KeyLen, zlen; lia). reflexivity.
Qed.

Lemma recvForwardPacket_app src dst pkt rest :
  length src = 32%nat → length dst = 32%nat → zlen pkt <= MaxPacketSize →
  recvForwardPacket (64 + zlen pkt) (src ++ dst ++ pkt ++ rest) = (rest, Ok (src, dst, pkt)).
Proof.
  intros Hk1 Hk2 Hl. pose proof (zlen_nonneg pkt). unfold recvForwardPacket. rewrite (proj2 (Z.ltb_ge _ _)) by (unfold KeyLen; lia).
  erewrite stM_bind_run by (by apply bufiox_ReadFull_app). cbn beta.
  erewrite stM_bind_run by (by apply bufiox_ReadFull_app). cbn beta zeta. rewrite (proj2 (Z.ltb_ge MaxPacketSize _)) by (unfold KeyLen; lia).
  erewrite stM_bind_run by (apply br_ReadFull_app; unfold KeyLen, zlen; lia). reflexivity.
Qed.

(** The frames that only a mesh peer may send. *)
Definition privileged (f : clientFrame) : bool :=
  match f with CfForwardPacket _ _ _ | CfWatchConns | CfClosePeer _ => true | _ => false end.

Lemma readClientFrame_spec canMesh f rest :
  requestOk f → (privileged f = true → canMesh = true) →
  readClientFrame canMesh (requestFrame f ++ rest) = (rest, Ok f).
Proof.
  destruct f as [v|dst pkt|src dst pkt| |target|data|]; cbn [requestOk requestFrame privileged]; intros Hok Hmesh; unfold readClientFrame;
    try rewrite (Hmesh eq_refl).
  - erewrite stM_bind_run by (by apply frame_read). cbn. by destruct v.
  - destruct Hok as [Hk Hl]. unfold isKey in Hk. pose proof (zlen_nonneg pkt).
    assert (zlen (dst ++ pkt) = 32 + zlen pkt) as Hz by (unfold zlen; rewrite length_app; lia).
    erewrite stM_bind_run by (apply frame_read; rewrite Hz; unfold MaxPacketSize in *; lia). cbn beta iota.
    change (FrameSendPacket =? FrameNotePreferred) with false. change (FrameSendPacket =? FrameSendPacket) with true. cbv iota.
    rewrite Hz, <- app_assoc. unfold readSendPacket, wrapS, mbind, stM_bind. by rewrite recvPacket_app.
  - destruct Hok as (Hk1 & Hk2 & Hl). unfold isKey in *. pose proof (zlen_nonneg pkt).
    assert (zlen (src ++ dst ++ pkt) = 64 + zlen pkt) as Hz by (unfold zlen; rewrite !length_app; lia).
    erewrite stM_bind_run by (apply frame_read; rewrite Hz; unfold MaxPacketSize in *; lia). cbn beta iota.
    change (FrameForwardPacket =? FrameNotePreferred) with false. change (FrameForwardPacket =? FrameSendPacket) with false.
    change (FrameForwardPacket =? FrameForwardPacket) with true. cbv iota.
    rewrite Hz, <- !app_assoc. unfold readForwardPacket, wrapS, mbind, stM_bind. cbn [negb]. by rewrite recvForwardPacket_app.
  - erewrite stM_bind_run by (by apply frame_read). reflexivity.
  - unfold isKey in Hok. assert (zlen target = 32) as Hz by (unfold zlen; lia).
    erewrite stM_bind_run by (apply frame_read; rewrite Hz; lia). cbn beta iota. rewrite Hz. cbn -[ReadRawWithoutAllocating].
    unfold readClosePeer. cbn -[ReadRawWithoutAllocating]. erewrite stM_bind_run by (by apply bufiox_ReadFull_app). reflexivity.
  - assert (zlen data = 8) as Hz by (unfold zlen; lia).
    erewrite stM_bind_run by (apply frame_read; rewrite Hz; lia). cbn beta iota. rewrite Hz. cbn -[bufiox_ReadFull].
    unfold handleFramePing. cbn -[bufiox_ReadFull]. erewrite stM_bind_run by (by apply bufiox_ReadFull_app). reflexivity.
  - done.
Qed.

(** ** From the server to the client *)
Inductive serverSend :=
  | SsPacket (src : NodePublic) (contents : bytes)
  | SsPong (data : bytes)
  | SsPeerGone (peer : NodePublic) (reason : Z)
  | SsPeerPresent (peer : NodePublic) (ipPort : AddrPort) (flags : Z)
  | SsKeepAlive.

Definition serverWrite (m : serverSend) : stM Writer unit :=
  match m with
  | SsPacket src contents => sendPacket src contents
  | SsPong data => sendPong data
  | SsPeerGone peer reason => sendPeerGone peer reason
  | SsPeerPresent peer ipPort flags => sendPeerPresent peer ipPort flags
  | SsKeepAlive => sendKeepAlive
  end.

Definition serverOk (m : serverSend) : Prop :=
  match m with
  | SsPacket src contents => isKey src ∧ src ≠ zeroPublic ∧ zlen contents <= 2 ^ 20 - 32
  | SsPong data => length data = 8%nat
  | SsPeerGone peer _ => isKey peer
  | SsPeerPresent peer ipPort _ => isKey peer ∧ Addr_wf (ap_Addr ipPort) ∧ 0 <= ap_Port ipPort < 2 ^ 16
  | SsKeepAlive => True
  end.

Definition serverFrame (m : serverSend) : Z * bytes :=
  match m with
  | SsPacket src contents => (FrameRecvPacket, src ++ contents)
  | SsPong data => (FramePong, data)
  | SsPeerGone peer reason => (FramePeerGone, peer ++ [reason])
  | SsPeerPresent peer ipPort flags => (FramePeerPresent, peer ++ As16 (ap_Addr ipPort) ++ be_bytes 2 (ap_Port ipPort) ++ [flags])
  | SsKeepAlive => (FrameKeepAlive, [])
  end.

(** What the client is to make of it: an address without its zone, and unmapped. *)
Definition received (m : serverSend) : ReceivedMessage :=
  match m with
  | SsPacket src contents => ReceivedPacket src contents
  | SsPong data => PongMessage data
  | SsPeerGone peer reason => PeerGoneMessage peer reason
  | SsPeerPresent peer ipPort flags =>
      PeerPresentMessage peer (AddrPortFrom (Unmap (Addr6 (As16_val (ap_Addr ipPort)) "")) (ap_Port ipPort)) flags
  | SsKeepAlive => KeepAliveMessage
  end.

Lemma serverWrite_emits m : serverOk m → emits (serverWrite m) (frame (serverFrame m).1 (serverFrame m).2).
Proof.
  destruct m as [src contents|data|peer reason|peer ipPort flags|]; cbn [serverOk serverWrite serverFrame fst snd]; intros Hok.
  - destruct Hok as (Hk & Hnz & Hl). unfold isKey in Hk. pose proof (zlen_nonneg contents).
    unfold sendPacket. rewrite bool_decide_false by done. cbn [negb]. rewrite u32_small by lia.
    eapply emits_eq; [eauto 10 with derp|]. unfold frame. rewrite <- !app_assoc. do 3 f_equal.
    unfold zlen. rewrite length_app. lia.
  - apply emits_frame. unfold zlen. lia.
  - unfold isKey in Hok. assert (zlen (peer ++ [reason]) = 33) as Hz by (unfold zlen; rewrite length_app; cbn; lia).
    apply emits_frame. rewrite u32_small; lia.
  - destruct Hok as (Hk & _). unfold isKey in Hk. apply emits_frame. unfold peerPresentFrameLen, KeyLen, zlen, As16.
    rewrite !length_app, !be_bytes_length. cbn. lia.
  - unfold sendKeepAlive. eapply emits_eq; [apply emits_header|]. done.
Qed.

Section Recv.
Context (openServerInfo : bytes → res (Z * Z)).

Lemma serverFrame_length m : serverOk m → zlen (serverFrame m).2 <= 2 ^ 20.
Proof.
  destruct m as [src contents|data|peer reason|peer ipPort flags|]; cbn [serverOk serverFrame snd]; unfold isKey, zlen, As16; intros Hok;
  rewrite ?length_app, ?be_bytes_length; cbn; lia.
Qed.

Lemma cutLeadingN_app a b n : length a = n → cutLeadingN (a ++ b) n = Some (a, b).
Proof.
  intros <-. unfold cutLeadingN. rewrite length_app, (proj2 (Nat.leb_le _ _)) by lia. by rewrite take_app_length, drop_app_length.
Qed.

Lemma decode_serverFrame m :
  serverOk m → decodeFrame openServerInfo (serverFrame m).1 (zlen (serverFrame m).2) (serverFrame m).2 = Ok (Some (received m)).
Proof.
  destruct m as [src contents|data|peer reason|peer ipPort flags|]; cbn [serverOk serverFrame fst snd received]; intros Hok;
    unfold decodeFrame; cbn [Z.eqb Pos.eqb FrameServerInfo FrameKeepAlive FramePeerGone FramePeerPresent FrameRecvPacket FramePing FramePong].
  - destruct Hok as (Hk & _ & _). unfold isKey in Hk. pose proof (zlen_nonneg contents).
    assert (zlen (src ++ contents) = 32 + zlen contents) as Hz by (unfold zlen; rewrite length_app; lia). rewrite Hz.
    rewrite (proj2 (Z.ltb_ge _ _)) by (unfold KeyLen; lia). rewrite (slice_Ok _ 0) by (unfold KeyLen; lia). cbn [mbind res_bind].
    rewrite (slice_Ok _ KeyLen) by (unfold KeyLen; lia). cbn [mbind res_bind mret res_ret]. unfold KeyLen. do 3 f_equal.
    + change (Z.to_nat 0) with 0%nat. rewrite drop_0. by apply take_app_length'.
    + rewrite drop_app_length' by done. apply take_ge. unfold zlen. lia.
  - assert (zlen data = 8) as -> by (unfold zlen; lia). cbn. rewrite take_ge by lia. done.
  - unfold isKey in Hok. assert (zlen (peer ++ [reason]) = 33) as Hz by (unfold zlen; rewrite length_app; cbn; lia). rewrite Hz. unfold KeyLen.
    cbn [Z.ltb Z.compare Pos.compare Pos.compare_cont]. rewrite idx_at by (rewrite Hz; lia). cbn [mbind res_bind].
    rewrite slice_Ok by (rewrite ?Hz; lia). cbn [mbind res_bind mret res_ret]. do 3 f_equal.
    + change (Z.to_nat 0) with 0%nat. rewrite drop_0. by apply take_app_length'.
    + unfold byte_at. rewrite lookup_app_r by (rewrite Hok; cbn; lia). rewrite Hok. done.
  - destruct Hok as (Hk & Hwf & Hp). unfold isKey in Hk. rewrite cutLeadingN_app by done.
    assert (length (As16 (ap_Addr ipPort)) = 16%nat) as Hl16 by (unfold As16; by rewrite be_bytes_length).
    rewrite (app_assoc (As16 _)). rewrite cutLeadingN_app by (rewrite length_app, be_bytes_length, Hl16; done).
    set (chunk := As16 (ap_Addr ipPort) ++ be_bytes 2 (ap_Port ipPort)).
    assert (length chunk = 18%nat) as Hc by (unfold chunk; rewrite length_app, be_bytes_length, Hl16; done).
    rewrite Uint16_Ok by (unfold zlen; rewrite ?Hc; lia). cbn [mbind res_bind].
    assert (be_at 2 chunk 16 = ap_Port ipPort) as ->.
    { unfold be_at, chunk. change (Z.to_nat 16) with 16%nat. rewrite drop_app_length' by done. rewrite take_ge by (by rewrite be_bytes_length).
      by apply be_val_bytes_id. }
    change (cutLeadingN [flags] 1) with (Some ([flags], [] : bytes)). cbv iota beta. change (idx [flags] 0) with (Ok flags).
    cbn [mbind res_bind mret res_ret]. do 4 f_equal. unfold chunk. rewrite take_app_length' by done. unfold AddrFrom16, As16.
    rewrite (be_val_bytes_id 16); [done|]. change (256 ^ Z.of_nat 16) with (2 ^ 128). destruct (ap_Addr ipPort) as [|v|v z]; cbn -[Z.pow] in *; [lia| |lia].
    unfold v4mapped. lia.
  - done.
Qed.

(** What the client has not returned yet. *)
Definition remaining (c : Client) : bytes := drop (dc_peeked c) (dc_br c).

Lemma onReader_run {A} (m : stM bytes A) c br r :
  m (dc_br c) = (br, r) → onReader m c = (mkDerpClient br (dc_size c) (dc_peeked c) (dc_readErr c) (dc_rate c), r).
Proof. unfold onReader. by intros ->. Qed.

Lemma recvLoop_frame fuel c t body rest m :
  remaining c = frame t body ++ rest → zlen body <= 2 ^ 20 →
  decodeFrame openServerInfo t (zlen body) body = Ok (Some m) → (∀ a b, m ≠ ServerInfoMessage a b) →
  ∃ c', recvLoop openServerInfo (S fuel) c = (c', Ok m) ∧ remaining c' = rest ∧ dc_readErr c' = dc_readErr c ∧ dc_size c' = dc_size c.
Proof.
  intros Hrem Hl Hdec Hm. pose proof (zlen_nonneg body). unfold recvLoop. erewrite stM_bind_run by reflexivity. cbn beta.
  set (c1 := mkDerpClient (remaining c) (dc_size c) 0 (dc_readErr c) (dc_rate c)).
  assert ((if (dc_peeked c =? 0)%nat then mret tt else _ ← onReader (Discard (dc_peeked c)); setPeeked 0) c = (c1, Ok tt)) as Hdis.
  { destruct (Nat.eqb_spec (dc_peeked c) 0) as [E|E]; [|reflexivity]. unfold c1, remaining. rewrite E, drop_0. destruct c; cbn in *. by subst. }
  erewrite stM_bind_run by exact Hdis. cbn beta.
  erewrite stM_bind_run by (apply onReader_run; unfold c1; cbn [dc_br]; rewrite Hrem; apply frame_read; lia). cbn beta iota.
  rewrite (proj2 (Z.ltb_ge _ _)) by done. erewrite stM_bind_run by reflexivity. cbn beta. cbn [dc_size].
  set (c2 := mkDerpClient (body ++ rest) (dc_size c1) (dc_peeked c1) (dc_readErr c1) (dc_rate c1)).
  assert (∃ c3, (if zlen body <=? dc_size c1 then peekFrame (Z.to_nat (zlen body)) else onReader (br_ReadFull (Z.to_nat (zlen body)))) c2 = (c3, Ok body)
    ∧ remaining c3 = rest ∧ dc_readErr c3 = dc_readErr c ∧ dc_size c3 = dc_size c) as (c3 & Hrd & Hrem3 & He3 & Hs3).
  { assert (Z.to_nat (zlen body) = length body) as -> by (unfold zlen; lia). destruct (zlen body <=? dc_size c1).
    - unfold peekFrame, onReader, Peek. cbn [dc_br c2]. rewrite length_app, (proj2 (Nat.leb_le _ _)) by lia. rewrite take_app_length.
      eexists. split; [reflexivity|]. split_and!; [|done|done]. unfold remaining. cbn. apply drop_app_length.
    - erewrite onReader_run by (cbn [dc_br c2]; apply br_ReadFull_app; done). eexists. split; [reflexivity|]. split_and!; [|done|done].
      unfold remaining. cbn. by rewrite drop_0. }
  erewrite stM_bind_run by exact Hrd. cbn beta. unfold lift. rewrite Hdec. erewrite stM_bind_run by reflexivity. cbn beta iota.
  exists c3. split_and!; [|done..]. destruct m; try reflexivity. by destruct (Hm bytesPerSecond burst).
Qed.

Lemma Recv_frame c t body rest m :
  dc_readErr c = None → remaining c = frame t body ++ rest → zlen body <= 2 ^ 20 →
  decodeFrame openServerInfo t (zlen body) body = Ok (Some m) → (∀ a b, m ≠ ServerInfoMessage a b) →
  ∃ c', Recv openServerInfo c = (c', Ok m) ∧ remaining c' = rest ∧ dc_readErr c' = None.
Proof.
  intros He Hrem Hl Hdec Hm. unfold Recv. rewrite He.
  destruct (recvLoop_frame (length (dc_br c)) c t body rest m Hrem Hl Hdec Hm) as (c' & Hrun & Hrem' & He' & _).
  rewrite Hrun. exists c'. split_and!; [done|done|congruence].
Qed.

Fixpoint recvAll (n : nat) : stM Client (list ReceivedMessage) :=
  match n with O => mret [] | S n => m ← Recv openServerInfo; ms ← recvAll n; mret (m :: ms) end.

Lemma recvAll_frames ms c rest :
  Forall serverOk ms → dc_readErr c = None →
  remaining c = (ms ≫= λ m, frame (serverFrame m).1 (serverFrame m).2) ++ rest →
  ∃ c', recvAll (length ms) c = (c', Ok (received <$> ms)) ∧ remaining c' = rest ∧ dc_readErr c' = None.
Proof.
  intros Hok. revert c. induction Hok as [|m ms Hm Hms IH]; intros c He Hrem; [by exists c|].
  cbn [mbind list_bind] in Hrem. rewrite <- app_assoc in Hrem.
  destruct (Recv_frame c _ _ _ (received m) He Hrem (serverFrame_length m Hm) (decode_serverFrame m Hm)) as (c1 & Hrun & Hrem1 & He1).
  { intros a b. by destruct m. }
  destruct (IH c1 He1 Hrem1) as (c2 & Hrun2 & Hrem2 & He2). exists c2. split_and!; [|done|done].
  cbn [length recvAll fmap list_fmap]. erewrite stM_bind_run by exact Hrun. erewrite stM_bind_run by exact Hrun2. reflexivity.
Qed.

End Recv.

Fixpoint writeAll (l : list (stM Writer unit)) : stM Writer unit :=
  match l with [] => Flush | m :: l => _ ← m; writeAll l end.

Lemma emits_writeAll {A} (f : A → stM Writer unit) (g : A → bytes) (l : list A) :
  (∀ x, x ∈ l → emits (f x) (g x)) → emits (writeAll (f <$> l)) (l ≫= g).
Proof.
  induction l as [|x l IH]; intros H; cbn [fmap list_fmap writeAll mbind list_bind]; [apply emits_Flush|].
  apply emits_bind; [apply H; set_solver|]. apply IH. intros y Hy. apply H. set_solver.
Qed.

Lemma writeAll_flushes l w w' : writeAll l w = (w', Ok tt) → bw_buf w' = [].
Proof.
  revert w. induction l as [|m l IH]; intros w Hw; cbn [writeAll] in Hw; [by eapply Flush_empties|].
  apply stM_bind_Ok in Hw as (w1 & ? & _ & Hw). by eapply IH.
Qed.

(** A writer on a new connection. *)
Definition newWriter (size : nat) : Writer := mkWriter size [] None (mkConn [] [] [] [] []).
Definition newClient (size : Z) (br : bytes) : Client := mkDerpClient br size 0 None None.

(** On a connection that works, everything that is written arrives. *)
Lemma writeAll_sent {A} (f : A → stM Writer unit) (g : A → bytes) (l : list A) size :
  (0 < size)%nat → (∀ x, x ∈ l → emits (f x) (g x)) →
  ∃ w, writeAll (f <$> l) (newWriter size) = (w, Ok tt) ∧ c_sent (bw_conn w) = l ≫= g.
Proof.
  intros Hs Hl. pose proof (emits_writeAll f g l Hl (newWriter size)) as H.
  assert (healthy (newWriter size)) as Hh by (split_and!; cbn; [done|lia|lia]). specialize (H Hh).
  destruct (writeAll (f <$> l) (newWriter size)) as [w [[]|e| |]] eqn:E; [|by destruct H|done..].
  exists w. split; [done|]. destruct H as (_ & Hst & _). unfold streamed in Hst. rewrite (writeAll_flushes _ _ _ E), app_nil_r in Hst. exact Hst.
Qed.
