(* ===== verification/DerpQueue.v ===== *)
(** * The queues of the relay

    A packet that the server has routed to a connection goes through the queues of
    [sendPkt], [sendLoop] and [onSendLoopDone] of [derpserver.go]: two bounded channels
    per connection, filled by the goroutines that read the other connections and emptied
    by the connection's own send loop.  Each [select] on a channel is one step, so the
    steps of several senders and of the send loop interleave in any order. *)
From S2P Require Import Prelude NetBuf NetAddr GoState NetConn Disco DerpServer DerpInv DerpOps DerpSteps DerpWire DerpFrames.

(** ** The key of a connection never changes *)
Definition keyOf (s : Server) : gmap conn NodePublic := sc_key <$> srv_conns s.

Definition keeps {A} (m : stM Server A) : Prop := ∀ s, keyOf (m s).1 = keyOf s.

Lemma keeps_bind {A B} (m : stM Server A) (f : A → stM Server B) :
  keeps m → (∀ a, keeps (f a)) → keeps (m ≫= f).
Proof.
  intros Hm Hf s. unfold mbind, stM_bind. specialize (Hm s). destruct (m s) as [s1 [a| | |]]; cbn in *; [|done..].
  by rewrite Hf.
Qed.

Lemma keyOf_alter (f : sclient → sclient) c (m : gmap conn sclient) :
  (∀ sc, sc_key (f sc) = sc_key sc) → sc_key <$> alter f c m = sc_key <$> m.
Proof.
  intros Hf. apply map_eq. intros i. rewrite !lookup_fmap, lookup_alter. case_decide; [|done]. subst.
  destruct (m !! i); cbn; [by rewrite Hf|done].
Qed.

Lemma keyOf_imap (f : conn → sclient → sclient) (m : gmap conn sclient) :
  (∀ c sc, sc_key (f c sc) = sc_key sc) → sc_key <$> map_imap (λ c sc, Some (f c sc)) m = sc_key <$> m.
Proof.
  intros Hf. apply map_eq. intros i. rewrite !lookup_fmap, map_lookup_imap. destruct (m !! i); cbn; [by rewrite Hf|done].
Qed.

Lemma keeps_modConn c f : (∀ sc, sc_key (f sc) = sc_key sc) → keeps (modConn c f).
Proof. intros Hf s. unfold keyOf. cbn. by apply keyOf_alter. Qed.

Lemma keeps_theConn c : keeps (theConn c).
Proof. intros s. unfold theConn. by destruct (srv_conns s !! c). Qed.

Lemma keeps_broadcast peer ip fl b : keeps (broadcastPeerStateChangeLocked peer ip fl b).
Proof.
  intros s. unfold keyOf. cbn. apply (keyOf_imap (λ c sc, if bool_decide (c ∈ watchers s) then _ else _)).
  intros c sc. by case_bool_decide.
Qed.

Create HintDb keeps.
#[export] Hint Resolve keeps_theConn keeps_broadcast : keeps.

(** Operations that leave the connections alone. *)
Ltac keeps :=
  repeat first
    [ progress cbn beta zeta
    | apply keeps_bind; [|intros ?]
    | solve [auto with keeps]
    | apply keeps_modConn; reflexivity
    | intros ?s; reflexivity
    | case_match ].

Lemma keeps_removeWatches l : keeps (removeWatches l).
Proof.
  induction l as [|[peer h] l IH]; cbn [removeWatches]; [by intros s|]. apply keeps_bind; [|done].
  unfold removePeerGoneFromRegionWatcher. keeps.
Qed.
Lemma keeps_notePeerGone k : keeps (notePeerGoneFromRegionLocked k).
Proof. unfold notePeerGoneFromRegionLocked. keeps. Qed.
#[export] Hint Resolve keeps_removeWatches keeps_notePeerGone : keeps.

Lemma keeps_registerClient c : keeps (registerClient c).
Proof. unfold registerClient, setSet. keeps. Qed.
Lemma keeps_unregisterDup c k cs d : keeps (unregisterDup c k cs d).
Proof. unfold unregisterDup, setSet. keeps. Qed.
Lemma keeps_unregisterSingle c k cs : keeps (unregisterSingle c k cs).
Proof. unfold unregisterSingle. keeps. Qed.
#[export] Hint Resolve keeps_unregisterDup keeps_unregisterSingle : keeps.
Lemma keeps_unregisterClient c : keeps (unregisterClient c).
Proof. unfold unregisterClient. keeps. Qed.
Lemma keeps_noteClientActivityLocked c : keeps (noteClientActivityLocked c).
Proof.
  unfold noteClientActivityLocked, setSet. keeps. all: intros s; unfold keyOf; cbn.
  all: apply (keyOf_imap (λ c' sc, if bool_decide (c' ∈ d_set d) then setIsDisabled true sc else sc)); intros ? ?; cbn; by case_match.
Qed.
Lemma keeps_addWatcher c ks : keeps (addWatcher c ks).
Proof. unfold addWatcher. keeps. Qed.
Lemma keeps_takeAll c : keeps (takeAll c).
Proof. unfold takeAll. keeps. Qed.
Lemma keeps_noteSendFromSrc c src : keeps (noteSendFromSrc c src).
Proof. unfold noteSendFromSrc, addPeerGoneFromRegionWatcher. keeps. Qed.
Lemma keeps_onSendLoopDone c : keeps (onSendLoopDone c).
Proof. unfold onSendLoopDone. keeps. Qed.
Lemma keeps_setPreferred c v : keeps (setPreferred c v).
Proof. unfold setPreferred. keeps. Qed.
Lemma keeps_AddPacketForwarder k f : keeps (AddPacketForwarder k f).
Proof. unfold AddPacketForwarder. keeps. Qed.
Lemma keeps_RemovePacketForwarder k f : keeps (RemovePacketForwarder k f).
Proof. unfold RemovePacketForwarder. keeps. Qed.

Lemma keeps_run {A} (m : stM Server A) s s' r : keeps m → m s = (s', r) → keyOf s' = keyOf s.
Proof. intros Hm E. specialize (Hm s). by rewrite E in Hm. Qed.

Lemma step_keys y y' : step y y' → keyOf (sy_srv y) ⊆ keyOf (sy_srv y').
Proof.
  destruct 1 as [s told dn c sc s' Hnew _ Hrun|s told dn c s' _ Hrun|s told dn c s' _ Hrun|s told dn c ks s' _ _ _ _ Hrun
    |s told dn c s' batch _ _ Hrun|s told dn c src s' _ _ Hrun|s told dn c s' _ _ Hrun|s told dn c v s' _ Hrun
    |s told dn k f s' Hrun|s told dn k f s' Hrun]; cbn.
  1: { rewrite (keeps_run _ _ _ _ (keeps_registerClient c) Hrun). unfold keyOf. cbn. rewrite fmap_insert.
       apply insert_subseteq. by rewrite lookup_fmap, Hnew. }
  all: apply reflexive_eq; symmetry; eapply keeps_run; [|exact Hrun].
  - apply keeps_unregisterClient.
  - apply keeps_noteClientActivityLocked.
  - apply keeps_addWatcher.
  - apply keeps_takeAll.
  - apply keeps_noteSendFromSrc.
  - apply keeps_onSendLoopDone.
  - apply keeps_setPreferred.
  - apply keeps_AddPacketForwarder.
  - apply keeps_RemovePacketForwarder.
Qed.

(** ** Packets and queues *)

(** [pkt], without the time that the queue metric uses. *)
Record pkt := mkPkt { pkt_src : NodePublic; pkt_bs : bytes }.
(** A packet and the connection whose goroutine read it, which the code does not keep. *)
Record qpkt := mkQpkt { en_from : conn; en_pkt : pkt }.

(** Which of the two channels a packet takes. *)
Definition isDisco (e : qpkt) : bool :=
  match LooksLikeDiscoWrapper (pkt_bs (en_pkt e)) with Ok b => b | _ => false end.

(** The call of [sendPkt] that a connection is in: the three selects of an attempt. *)
Inductive phase := AtDone | AtEnqueue | AtDropHead.
Record sending := mkSending { sd_dst : conn; sd_entry : qpkt; sd_attempt : nat; sd_phase : phase }.

(** [rl_queue] at [(d, true)] is [discoSendQueue] of [d], at [(d, false)] its [sendQueue];
    [rl_gone] holds the connections whose context is done, [rl_stopped] those whose
    [sendLoop] has returned. *)
Record relay := mkRelay {
  rl_sys : sys;
  rl_queue : gmap (conn * bool) (list qpkt);
  rl_sending : gmap conn sending;
  rl_gone : gset conn;
  rl_stopped : gset conn
}.

Definition queueOf (r : relay) (q : conn * bool) : list qpkt := default [] (rl_queue r !! q).
Definition setSys y (r : relay) := mkRelay y (rl_queue r) (rl_sending r) (rl_gone r) (rl_stopped r).
Definition setQueue q l (r : relay) := mkRelay (rl_sys r) (<[q := l]> (rl_queue r)) (rl_sending r) (rl_gone r) (rl_stopped r).
Definition setSending c (o : option sending) (r : relay) :=
  mkRelay (rl_sys r) (rl_queue r) ((match o with Some sd => <[c := sd]> | None => delete c end) (rl_sending r)) (rl_gone r) (rl_stopped r).
Definition setGone c (r : relay) := mkRelay (rl_sys r) (rl_queue r) (rl_sending r) (rl_gone r ∪ {[c]}) (rl_stopped r).
Definition setStopped c (r : relay) := mkRelay (rl_sys r) (rl_queue r) (rl_sending r) (rl_gone r) (rl_stopped r ∪ {[c]}).

Definition keyAt (r : relay) (c : conn) : NodePublic := default ([] : NodePublic) (keyOf (sy_srv (rl_sys r)) !! c).

(** [env] is [TS_DEBUG_DERP_PER_CLIENT_SEND_QUEUE_DEPTH]. *)
Definition getPerClientSendQueueDepth (env : option Z) : Z := default 32 env.

(** What happens to packets, and the other frames that the send loop writes. *)
Inductive event :=
  | Read (c : conn) (f : clientFrame)
  | ForwardedOut (f : forwarder) (dst : NodePublic) (e : qpkt)
  | Wrote (d : conn) (e : qpkt)
  | WroteOther (d : conn) (m : serverSend)
  | Dropped (reason : dropReason) (srcKey dstKey : NodePublic) (e : qpkt).

(** ** Reading a packet *)

(** What happens to a packet once it is routed: [sendPkt] is called, or it is
    forwarded, or dropped. *)
Definition dispatch (r : relay) (c : conn) (f : clientFrame) (dst : NodePublic) (e : qpkt) (to : route) : relay * list event :=
  match to with
  | ToClient d => (setSending c (Some (mkSending d e 0 AtDone)) r, [Read c f])
  | Forward fwd => (r, [Read c f; ForwardedOut fwd dst e])
  | Drop reason _ => (r, [Read c f; Dropped reason (pkt_src (en_pkt e)) dst e])
  end.

(** [handleFrameSendPacket] and [handleFrameForwardPacket]: a client's packet is stamped
    with the key of its connection, a mesh peer's has the key the frame names. *)
Definition readPacketFrame (r : relay) (c : conn) (f : clientFrame) : relay * list event :=
  let s := sy_srv (rl_sys r) in
  match f with
  | CfSendPacket dst contents =>
      dispatch r c f dst (mkQpkt c (mkPkt (keyAt r c) contents)) (handleFrameSendPacket s dst)
  | CfForwardPacket src dst contents =>
      dispatch r c f dst (mkQpkt c (mkPkt src contents)) (handleFrameForwardPacket s dst)
  | _ => (r, [])
  end.

(** ** [sendPkt], one [select] at a time *)
Definition sendPkt (depth : nat) (r : relay) (c : conn) (sd : sending) : relay * list event :=
  let d := sd_dst sd in let e := sd_entry sd in
  let q := (d, isDisco e) in
  let drop reason e := Dropped reason (keyAt r c) (keyAt r d) e in
  match sd_phase sd with
  | AtDone =>
      if bool_decide (d ∈ rl_gone r) then (setSending c None r, [drop dropReasonGoneDisconnected e])
      else (setSending c (Some (mkSending d e (sd_attempt sd) AtEnqueue)) r, [])
  | AtEnqueue =>
      if (length (queueOf r q) <? depth)%nat then (setSending c None (setQueue q (queueOf r q ++ [e]) r), [])
      else (setSending c (Some (mkSending d e (sd_attempt sd) AtDropHead)) r, [])
  | AtDropHead =>
      let '(r, evs) := match queueOf r q with
                       | h :: rest => (setQueue q rest r, [drop dropReasonQueueHead h])
                       | [] => (r, [])
                       end in
      if (sd_attempt sd <? 2)%nat
      then (setSending c (Some (mkSending d e (S (sd_attempt sd)) AtDone)) r, evs)
      else (setSending c None r, evs ++ [drop dropReasonQueueTail e])
  end.

(** ** The send loop *)

(** [sendPacket] of the head of a queue; [ok] when the write succeeds. *)
Definition writeHead (ok : bool) (r : relay) (q : conn * bool) : option (relay * list event) :=
  match queueOf r q with
  | [] => None
  | e :: rest =>
      let src := pkt_src (en_pkt e) in
      let s := sy_srv (rl_sys r) in
      let s' := if bool_decide (src = zeroPublic) then s else (noteSendFromSrc q.1 src s).1 in
      let r := setQueue q rest (setSys (mkSys s' (sy_told (rl_sys r)) (sy_done (rl_sys r))) r) in
      Some (if ok then (r, [Wrote q.1 e])
            else (setStopped q.1 r, [Dropped dropReasonWriteError src (keyAt r q.1) e]))
  end.

(** A packet that [onSendLoopDone] takes from a queue. *)
Definition drainHead (r : relay) (q : conn * bool) : option (relay * list event) :=
  match queueOf r q with
  | [] => None
  | e :: rest => Some (setQueue q rest r, [Dropped dropReasonGoneDisconnected (pkt_src (en_pkt e)) (keyAt r q.1) e])
  end.

Definition isPacket (m : serverSend) : bool := match m with SsPacket _ _ => true | _ => false end.

(** The connection's send loop runs. *)
Definition looping (r : relay) (d : conn) : Prop :=
  registered (sy_srv (rl_sys r)) d ∧ (d ∉ sy_done (rl_sys r)) ∧ (d ∉ rl_stopped r).

(** One step of the server.  A goroutine reads its next frame once [sendPkt] has returned. *)
Inductive rstep (depth : nat) : relay → list event → relay → Prop :=
  | r_server r y' : step (rl_sys r) y' → rstep depth r [] (setSys y' r)
  | r_read r c sc f r' evs :
      registered (sy_srv (rl_sys r)) c → srv_conns (sy_srv (rl_sys r)) !! c = Some sc →
      (privileged f = true → sc_canMesh sc = true) → requestOk f → rl_sending r !! c = None →
      readPacketFrame r c f = (r', evs) → rstep depth r evs r'
  | r_sendPkt r c sd r' evs :
      rl_sending r !! c = Some sd → sendPkt depth r c sd = (r', evs) → rstep depth r evs r'
  | r_write r d b ok r' evs : looping r d → writeHead ok r (d, b) = Some (r', evs) → rstep depth r evs r'
  | r_writeOther r d m : looping r d → isPacket m = false → serverOk m → rstep depth r [WroteOther d m] r
  | r_cancel r d : rstep depth r [] (setGone d r)
  | r_stop r d : d ∈ rl_gone r → rstep depth r [] (setStopped d r)
  | r_drain r d b r' evs :
      d ∈ rl_stopped r → drainHead r (d, b) = Some (r', evs) → rstep depth r evs r'.

Inductive rsteps (depth : nat) : relay → list event → relay → Prop :=
  | rsteps_refl r : rsteps depth r [] r
  | rsteps_snoc r tr r1 evs r2 : rsteps depth r tr r1 → rstep depth r1 evs r2 → rsteps depth r (tr ++ evs) r2.

Definition relayStart (pk : NodePublic) : relay := mkRelay (start pk) ∅ ∅ ∅ ∅.

(** ** What a trace says *)

(** What a frame asks for: to whom, and the packet as the receiver is to see it. *)
Definition asked (key : NodePublic) (c : conn) (f : clientFrame) : option (NodePublic * qpkt) :=
  match f with
  | CfSendPacket dst contents => Some (dst, mkQpkt c (mkPkt key contents))
  | CfForwardPacket src dst contents => Some (dst, mkQpkt c (mkPkt src contents))
  | _ => None
  end.

Definition routeOf (s : Server) (f : clientFrame) (dst : NodePublic) : route :=
  match f with CfForwardPacket _ _ _ => handleFrameForwardPacket s dst | _ => handleFrameSendPacket s dst end.

Lemma readPacketFrame_asked r c f :
  readPacketFrame r c f = match asked (keyAt r c) c f with
                    | Some (dst, e) => dispatch r c f dst e (routeOf (sy_srv (rl_sys r)) f dst)
                    | None => (r, [])
                    end.
Proof. by destruct f. Qed.

(** The packets that [c] sent for the key [k], in order. *)
Definition readBy (key : NodePublic) (c : conn) (k : NodePublic) (tr : list event) : list qpkt :=
  omap (λ ev, match ev with
              | Read c' f => if bool_decide (c' = c) then
                               match asked key c f with
                               | Some (k', e) => if bool_decide (k' = k) then Some e else None
                               | None => None
                               end else None
              | _ => None end) tr.

(** The packets that were written to [d], in order; and all its frames. *)
Definition wroteTo (d : conn) (tr : list event) : list qpkt :=
  omap (λ ev, match ev with Wrote d' e => if bool_decide (d' = d) then Some e else None | _ => None end) tr.
Definition framesTo (d : conn) (tr : list event) : list serverSend :=
  omap (λ ev, match ev with
              | Wrote d' e => if bool_decide (d' = d) then Some (SsPacket (pkt_src (en_pkt e)) (pkt_bs (en_pkt e))) else None
              | WroteOther d' m => if bool_decide (d' = d) then Some m else None
              | _ => None end) tr.

(** Every packet that was read, and where it went. *)
Definition allRead (keys : gmap conn NodePublic) (tr : list event) : list qpkt :=
  omap (λ ev, match ev with Read c f => snd <$> asked (default ([] : NodePublic) (keys !! c)) c f | _ => None end) tr.
Definition accounted (tr : list event) : list qpkt :=
  omap (λ ev, match ev with Wrote _ e | ForwardedOut _ _ e | Dropped _ _ _ e => Some e | _ => None end) tr.
Definition queued (Q : gmap (conn * bool) (list qpkt)) : list qpkt := concat (snd <$> map_to_list Q).
Definition inFlight (S : gmap conn sending) : list qpkt := (λ cs, sd_entry cs.2) <$> map_to_list S.

Lemma sublist_filter {A} (P : A → Prop) `{!∀ x, Decision (P x)} (l1 l2 : list A) :
  sublist l1 l2 → sublist (filter P l1) (filter P l2).
Proof.
  induction 1 as [|x l1 l2 _ IH|x l1 l2 _ IH]; [constructor|..]; rewrite ?filter_cons; case_decide; try done.
  - by constructor.
  - by constructor.
Qed.

(** ** The invariant of the queues *)
Section Inv.
Context (pk : NodePublic) (depth : nat).

Definition ofSender (c : conn) (b : bool) (l : list qpkt) : list qpkt :=
  filter (λ e, en_from e = c ∧ isDisco e = b) l.
Definition flying (S : gmap conn sending) (c d : conn) (b : bool) : list qpkt :=
  match S !! c with
  | Some sd => if decide (sd_dst sd = d ∧ isDisco (sd_entry sd) = b) then [sd_entry sd] else []
  | None => []
  end.
Definition qAt (Q : gmap (conn * bool) (list qpkt)) q : list qpkt := default [] (Q !! q).

(** What [c] has under way to [d], oldest first. *)
Definition under (Q : gmap (conn * bool) (list qpkt)) S tr c d b : list qpkt :=
  ofSender c b (wroteTo d tr) ++ ofSender c b (qAt Q (d, b)) ++ flying S c d b.

Record relayInv (y : sys) (Q : gmap (conn * bool) (list qpkt)) (S : gmap conn sending) (tr : list event) : Prop := {
  ri_reach : reachable pk y;
  ri_order c d b kc k :
    keyOf (sy_srv y) !! c = Some kc → keyOf (sy_srv y) !! d = Some k →
    sublist (under Q S tr c d b) (filter (λ e, isDisco e = b) (readBy kc c k tr));
  ri_wrote d e : e ∈ wroteTo d tr → d ∈ dom (keyOf (sy_srv y)) ∧ en_from e ∈ dom (keyOf (sy_srv y));
  ri_queue d b e : e ∈ qAt Q (d, b) → isDisco e = b ∧ d ∈ dom (keyOf (sy_srv y)) ∧ en_from e ∈ dom (keyOf (sy_srv y));
  ri_fly c sd : S !! c = Some sd →
    en_from (sd_entry sd) = c ∧ c ∈ dom (keyOf (sy_srv y)) ∧ sd_dst sd ∈ dom (keyOf (sy_srv y));
  ri_read c f : Read c f ∈ tr → c ∈ dom (keyOf (sy_srv y)) ∧ requestOk f;
  ri_other d m : WroteOther d m ∈ tr → isPacket m = false ∧ serverOk m;
  ri_len q : (length (qAt Q q) <= depth)%nat;
  ri_acc : allRead (keyOf (sy_srv y)) tr ≡ₚ accounted tr ++ queued Q ++ inFlight S
}.

Lemma wroteTo_app d tr1 tr2 : wroteTo d (tr1 ++ tr2) = wroteTo d tr1 ++ wroteTo d tr2.
Proof using. apply omap_app. Qed.
Lemma readBy_app kc c k tr1 tr2 : readBy kc c k (tr1 ++ tr2) = readBy kc c k tr1 ++ readBy kc c k tr2.
Proof using. apply omap_app. Qed.
Lemma allRead_app keys tr1 tr2 : allRead keys (tr1 ++ tr2) = allRead keys tr1 ++ allRead keys tr2.
Proof using. apply omap_app. Qed.
Lemma accounted_app tr1 tr2 : accounted (tr1 ++ tr2) = accounted tr1 ++ accounted tr2.
Proof using. apply omap_app. Qed.
Lemma ofSender_app c b l1 l2 : ofSender c b (l1 ++ l2) = ofSender c b l1 ++ ofSender c b l2.
Proof using. apply filter_app. Qed.

Lemma qAt_insert Q q l q' : qAt (<[q := l]> Q) q' = if decide (q = q') then l else qAt Q q'.
Proof using. unfold qAt. rewrite lookup_insert. by case_decide. Qed.

(** ** Counting *)
Lemma queued_split Q q : queued Q ≡ₚ qAt Q q ++ queued (delete q Q).
Proof using.
  unfold queued, qAt. destruct (Q !! q) as [l|] eqn:E; cbn; [|by rewrite delete_id].
  rewrite <- (map_to_list_delete Q q l E). done.
Qed.

Lemma queued_insert Q q l : queued (<[q := l]> Q) ≡ₚ l ++ queued (delete q Q).
Proof using.
  rewrite (queued_split _ q), qAt_insert, decide_True by done. by rewrite delete_insert_eq.
Qed.

Lemma inFlight_split S c sd : S !! c = Some sd → inFlight S ≡ₚ sd_entry sd :: inFlight (delete c S).
Proof using. intros E. unfold inFlight. rewrite <- (map_to_list_delete S c sd E). done. Qed.

Lemma inFlight_insert S c sd : inFlight (<[c := sd]> S) ≡ₚ sd_entry sd :: inFlight (delete c S).
Proof using. rewrite (inFlight_split _ c sd) by apply lookup_insert_eq. by rewrite delete_insert_eq. Qed.

(** ** The steps of the queues keep it *)

(** Only what is under way and where it counts changes. *)
Lemma inv_less y y' Q Q' S S' tr ev :
  relayInv y Q S tr → reachable pk y' → keyOf (sy_srv y') = keyOf (sy_srv y) →
  (∀ c kc k, readBy kc c k [ev] = []) → allRead (keyOf (sy_srv y)) [ev] = [] →
  (∀ c d b, sublist (under Q' S' (tr ++ [ev]) c d b) (under Q S tr c d b)) →
  (∀ d e, e ∈ wroteTo d [ev] → d ∈ dom (keyOf (sy_srv y)) ∧ en_from e ∈ dom (keyOf (sy_srv y))) →
  (∀ q e, e ∈ qAt Q' q → e ∈ qAt Q q ∨ ∃ c sd, S !! c = Some sd ∧ e = sd_entry sd ∧ q = (sd_dst sd, isDisco e)) →
  (∀ c sd, S' !! c = Some sd → ∃ sd0, S !! c = Some sd0 ∧ sd_entry sd = sd_entry sd0 ∧ sd_dst sd = sd_dst sd0) →
  (∀ d m, ev = WroteOther d m → isPacket m = false ∧ serverOk m) → (∀ c f, ev ≠ Read c f) →
  (∀ q, (length (qAt Q' q) <= depth)%nat) →
  accounted [ev] ++ queued Q' ++ inFlight S' ≡ₚ queued Q ++ inFlight S →
  relayInv y' Q' S' (tr ++ [ev]).
Proof using.
  intros [I1 I2 I3 I4 I5 I6 I7 I8 I9] Hr Hk Hrd Har Hund Hwr Hq Hs Hother Hnr Hlen Hacc.
  split; rewrite ?Hk; try done.
  - intros c d b kc k Hc Hd. rewrite readBy_app, Hrd, app_nil_r. etrans; [apply Hund|by apply I2].
  - intros d e. rewrite wroteTo_app, elem_of_app. intros [?|?]; [by apply I3|by apply Hwr].
  - intros d b e [He|(c & sd & Hsd & -> & Hq')]%Hq; [by apply I4|]. apply I5 in Hsd as (Hf & ? & ?). injection Hq' as -> ->.
    split_and!; [done|done|by rewrite Hf].
  - intros c sd (sd0 & H0 & He & Hd)%Hs. rewrite He, Hd. by apply I5.
  - intros c f [?|E%list_elem_of_singleton]%elem_of_app; [by apply I6|]. by destruct (Hnr c f).
  - intros d m [?|E%list_elem_of_singleton]%elem_of_app; [by eapply I7|by eapply Hother].
  - rewrite allRead_app, accounted_app, Har, app_nil_r, I9, <- app_assoc. by rewrite Hacc.
Qed.

(** [sendPkt] gives a packet up. *)
Lemma inv_giveUp y Q S tr c sd reason k1 k2 :
  relayInv y Q S tr → S !! c = Some sd → relayInv y Q (delete c S) (tr ++ [Dropped reason k1 k2 (sd_entry sd)]).
Proof using.
  intros Hi Hsd. eapply (inv_less y y Q Q S); [exact Hi|apply Hi|done..| | | | | | | |].
  - intros c' d b. unfold under. rewrite wroteTo_app, app_nil_r. do 2 (apply sublist_app; [done|]). unfold flying.
    destruct (decide (c = c')) as [<-|]; [rewrite lookup_delete_eq; apply sublist_nil_l|by rewrite lookup_delete_ne].
  - intros d e He. by apply elem_of_nil in He.
  - by left.
  - intros c' sd' [_ ?]%lookup_delete_Some. by exists sd'.
  - done.
  - done.
  - apply Hi.
  - cbn. rewrite (inFlight_split S c sd Hsd). apply Permutation_middle.
Qed.

(** The head of a queue is dropped. *)
Lemma inv_dropHead y Q S tr q h rest reason k1 k2 :
  relayInv y Q S tr → qAt Q q = h :: rest → relayInv y (<[q := rest]> Q) S (tr ++ [Dropped reason k1 k2 h]).
Proof using.
  intros Hi Hq. eapply (inv_less y y Q _ S); [exact Hi|apply Hi|done..| | | | | | | |].
  - intros c d b. unfold under. rewrite wroteTo_app, app_nil_r. apply sublist_app; [done|]. apply sublist_app; [|done].
    rewrite qAt_insert. case_decide as E; [|done]. subst q. rewrite Hq. unfold ofSender. apply sublist_filter. by apply sublist_cons.
  - intros d e He. by apply elem_of_nil in He.
  - intros q' e. rewrite qAt_insert. case_decide as E; [|by left]. subst. intros He. left. rewrite Hq. by apply elem_of_cons; right.
  - intros c sd Hs. by exists sd.
  - done.
  - done.
  - intros q'. rewrite qAt_insert. case_decide as E; [|apply Hi]. subst. pose proof (ri_len _ _ _ _ Hi q') as Hl. rewrite Hq in Hl. cbn in Hl. lia.
  - cbn. rewrite queued_insert, (queued_split Q q), Hq. done.
Qed.

(** The head of a queue is written. *)
Lemma inv_write y y' Q S tr d b h rest :
  relayInv y Q S tr → qAt Q (d, b) = h :: rest → reachable pk y' → keyOf (sy_srv y') = keyOf (sy_srv y) →
  relayInv y' (<[(d, b) := rest]> Q) S (tr ++ [Wrote d h]).
Proof using.
  intros Hi Hq Hr Hk. destruct (ri_queue _ _ _ _ Hi d b h) as (Hkind & Hd & Hf); [rewrite Hq; by left|].
  eapply (inv_less y y' Q _ S); [exact Hi|done..| | | | | | | |].
  - intros c d' b'. unfold under. rewrite wroteTo_app, ofSender_app, qAt_insert, <- app_assoc. apply sublist_app; [done|].
    cbn. case_decide as E.
    + injection E as <- <-. rewrite bool_decide_true, Hq by done.
      change (h :: rest) with ([h] ++ rest). by rewrite ofSender_app, <- app_assoc.
    + case_bool_decide as Hdd; [|done]. subst d'. unfold ofSender at 1. rewrite filter_cons_False; [done|]. naive_solver.
  - intros d' e He. cbn in He. case_bool_decide; [|by apply elem_of_nil in He]. apply list_elem_of_singleton in He. by subst.
  - intros q' e. rewrite qAt_insert. case_decide as E; [|by left]. subst q'. intros He. left. rewrite Hq. by apply elem_of_cons; right.
  - intros c sd Hs. by exists sd.
  - done.
  - done.
  - intros q'. rewrite qAt_insert. case_decide as E; [|apply Hi]. subst q'. pose proof (ri_len _ _ _ _ Hi (d, b)) as Hl. rewrite Hq in Hl. cbn in Hl. lia.
  - cbn. rewrite queued_insert, (queued_split Q (d, b)), Hq. done.
Qed.

(** A step that no packet is part of. *)
Lemma inv_quiet y Q S tr : relayInv y Q S tr → relayInv y Q S (tr ++ []).
Proof using. by rewrite app_nil_r. Qed.

Lemma flying_same S c sd sd' c' d b :
  S !! c = Some sd → sd_dst sd' = sd_dst sd → sd_entry sd' = sd_entry sd → flying (<[c := sd']> S) c' d b = flying S c' d b.
Proof using.
  intros Hs Hd He. unfold flying. rewrite lookup_insert. case_decide as E; [|done]. subst. by rewrite Hs, Hd, He.
Qed.

Lemma inv_resend y Q S tr c sd sd' :
  relayInv y Q S tr → S !! c = Some sd → sd_dst sd' = sd_dst sd → sd_entry sd' = sd_entry sd →
  relayInv y Q (<[c := sd']> S) tr.
Proof using.
  intros [I1 I2 I3 I4 I5 I6 I7 I8 I9] Hs Hd He. split; try done.
  - intros c' d b kc k Hc Hk. unfold under. rewrite (flying_same S c sd) by done. by apply I2.
  - intros c' sd0 [[<- <-]|[_ ?]]%lookup_insert_Some; [rewrite Hd, He|]; by apply I5.
  - rewrite I9, inFlight_insert, He. by rewrite <- (inFlight_split S c sd Hs).
Qed.

(** A packet is put at the end of its queue. *)
Lemma inv_enqueue y Q S tr c sd :
  relayInv y Q S tr → S !! c = Some sd →
  let q := (sd_dst sd, isDisco (sd_entry sd)) in
  (length (qAt Q q) < depth)%nat →
  relayInv y (<[q := qAt Q q ++ [sd_entry sd]]> Q) (delete c S) tr.
Proof using.
  intros [I1 I2 I3 I4 I5 I6 I7 I8 I9] Hsd q Hl. destruct (I5 c sd Hsd) as (Hf & Hc & Hd). split; try done.
  - intros c' d b kc k Hc' Hd'. etrans; [|by apply I2]. unfold under. rewrite qAt_insert. apply sublist_app; [done|].
    unfold flying. destruct (decide (c = c')) as [<-|Hne].
    + rewrite lookup_delete_eq, Hsd, app_nil_r. subst q. case_decide as E.
      * injection E as <- <-. rewrite decide_True by done. rewrite ofSender_app. apply sublist_app; [done|].
        unfold ofSender. by rewrite filter_cons_True.
      * rewrite decide_False by naive_solver. by rewrite app_nil_r.
    + rewrite lookup_delete_ne by done. apply sublist_app; [|done]. case_decide as E; [|done]. subst q. injection E as <- <-.
      rewrite ofSender_app. unfold ofSender at 2. rewrite filter_cons_False by naive_solver. by rewrite filter_nil, app_nil_r.
  - intros d b e. rewrite qAt_insert. case_decide as E; [|by apply I4]. subst q. injection E as <- <-.
    intros [?|He%list_elem_of_singleton]%elem_of_app; [by apply I4|]. subst e. by rewrite Hf.
  - intros c' sd' [_ ?]%lookup_delete_Some. by apply I5.
  - intros q'. rewrite qAt_insert. case_decide; [|done]. subst q'. rewrite length_app. cbn. lia.
  - rewrite I9, queued_insert, (queued_split Q q), (inFlight_split S c sd Hsd), <- !app_assoc. cbn.
    do 2 apply Permutation_app_head. symmetry. apply Permutation_middle.
Qed.

(** ** The registry changes *)
Lemma ofSender_nil c b l : (∀ e, e ∈ l → en_from e ≠ c) → ofSender c b l = [].
Proof using.
  intros Hl. unfold ofSender. destruct (filter _ l) as [|e l'] eqn:E; [done|].
  assert (e ∈ filter (λ e, en_from e = c ∧ isDisco e = b) l) as [[Hc _] He]%list_elem_of_filter by (rewrite E; by left).
  by destruct (Hl e He).
Qed.

Lemma under_unknown y Q S tr c d b :
  relayInv y Q S tr → c ∉ dom (keyOf (sy_srv y)) ∨ d ∉ dom (keyOf (sy_srv y)) → under Q S tr c d b = [].
Proof using.
  intros [_ _ I3 I4 I5 _ _ _ _] Hn. unfold under.
  assert (ofSender c b (wroteTo d tr) = []) as ->.
  { destruct (wroteTo d tr) as [|e0 l0] eqn:E; [done|]. apply ofSender_nil. rewrite <- E. intros e He Hf.
    apply I3 in He as [? ?]. subst. tauto. }
  assert (ofSender c b (qAt Q (d, b)) = []) as ->.
  { apply ofSender_nil. intros e He Hf. apply I4 in He as (? & ? & ?). subst. tauto. }
  unfold flying. destruct (S !! c) as [sd|] eqn:E; [|done]. apply I5 in E as (? & ? & ?).
  rewrite decide_False; [done|]. intros [<- _]. tauto.
Qed.

Lemma omap_same {A B} (f g : A → option B) (l : list A) : (∀ x, x ∈ l → f x = g x) → omap f l = omap g l.
Proof using.
  induction l as [|x l IH]; intros H; [done|]. cbn. rewrite (H x) by (by left). rewrite IH; [done|]. intros y Hy. apply H. by right.
Qed.

Lemma inv_server y y' Q S tr : relayInv y Q S tr → step y y' → relayInv y' Q S tr.
Proof using.
  intros Hi Hstep. pose proof (step_keys _ _ Hstep) as Hsub. pose proof (subseteq_dom _ _ Hsub) as Hdom.
  pose proof Hi as [I1 I2 I3 I4 I5 I6 I7 I8 I9]. split; try done.
  - by eapply rtc_r.
  - intros c d b kc k Hc Hd. destruct (keyOf (sy_srv y) !! c) as [kc'|] eqn:Ec; [|rewrite (under_unknown y) by (done || (left; by apply not_elem_of_dom)); apply sublist_nil_l].
    destruct (keyOf (sy_srv y) !! d) as [k'|] eqn:Ed; [|rewrite (under_unknown y) by (done || (right; by apply not_elem_of_dom)); apply sublist_nil_l].
    assert (kc' = kc) as -> by (eapply lookup_weaken in Ec; [|exact Hsub]; congruence).
    assert (k' = k) as -> by (eapply lookup_weaken in Ed; [|exact Hsub]; congruence). by apply I2.
  - intros d e [? ?]%I3. split; by apply Hdom.
  - intros d b e (? & ? & ?)%I4. split_and!; [done|by apply Hdom..].
  - intros c sd (? & ? & ?)%I5. split_and!; [done|by apply Hdom..].
  - intros c f [? ?]%I6. split; [by apply Hdom|done].
  - assert (allRead (keyOf (sy_srv y')) tr = allRead (keyOf (sy_srv y)) tr) as ->; [|done].
    apply omap_same. intros ev Hev. destruct ev as [c f| | | |]; try done.
    apply I6 in Hev as [[kc Hc]%elem_of_dom _]. cbn. by rewrite Hc, (lookup_weaken _ _ _ _ Hc Hsub).
Qed.

(** ** A packet is read *)
Lemma asked_from kc c f dst e : asked kc c f = Some (dst, e) → en_from e = c.
Proof using. destruct f; cbn; intros E; try done; by injection E as _ <-. Qed.

Lemma readBy_self kc c k f dst e :
  asked kc c f = Some (dst, e) → readBy kc c k [Read c f] = if bool_decide (dst = k) then [e] else [].
Proof using. intros Hs. cbn. rewrite bool_decide_true, Hs by done. by case_bool_decide. Qed.

Lemma readBy_other kc c c' k f : c' ≠ c → readBy kc c' k [Read c f] = [].
Proof using. intros Hn. cbn. by rewrite bool_decide_false. Qed.

Lemma inv_readTo y Q S tr c f kc dst e d :
  relayInv y Q S tr → S !! c = None → requestOk f → keyOf (sy_srv y) !! c = Some kc → asked kc c f = Some (dst, e) →
  keyOf (sy_srv y) !! d = Some dst → relayInv y Q (<[c := mkSending d e 0 AtDone]> S) (tr ++ [Read c f]).
Proof using.
  intros [I1 I2 I3 I4 I5 I6 I7 I8 I9] Hn Hok Hkc Hst Hd. pose proof (asked_from _ _ _ _ _ Hst) as Hf. split; try done.
  - intros c' d' b kc' k Hc' Hd'. specialize (I2 c' d' b kc' k Hc' Hd'). unfold under in *. rewrite wroteTo_app, app_nil_r, readBy_app, filter_app.
    unfold flying in *. rewrite lookup_insert. case_decide as E.
    + subst c'. rewrite Hn, app_nil_r in I2. assert (kc' = kc) as -> by congruence. rewrite (readBy_self _ _ _ _ _ _ Hst), app_assoc. cbn [sd_dst sd_entry].
      apply sublist_app; [done|]. case_decide as E2; [|apply sublist_nil_l]. destruct E2 as [-> Hb].
      rewrite bool_decide_true by congruence. by rewrite filter_cons_True.
    + rewrite (readBy_other kc' c c') by done. cbn. by rewrite app_nil_r.
  - intros d' e'. rewrite wroteTo_app, app_nil_r. by apply I3.
  - intros c' sd [[<- <-]|[_ ?]]%lookup_insert_Some; [|by apply I5]. cbn. split_and!; [done|by eapply elem_of_dom_2..].
  - intros c' f' [?|E%list_elem_of_singleton]%elem_of_app; [by apply I6|]. injection E as -> ->. split; [by eapply elem_of_dom_2|done].
  - intros d' m [?|E%list_elem_of_singleton]%elem_of_app; [by eapply I7|done].
  - rewrite allRead_app, accounted_app, I9, inFlight_insert, delete_id, app_nil_r by done. cbn. rewrite Hkc. cbn. rewrite Hst. cbn.
    rewrite <- !app_assoc. do 2 apply Permutation_app_head. by rewrite Permutation_app_comm.
Qed.

Lemma inv_readOut y Q S tr c f kc dst e ev :
  relayInv y Q S tr → requestOk f → keyOf (sy_srv y) !! c = Some kc → asked kc c f = Some (dst, e) →
  (∃ fwd k, ev = ForwardedOut fwd k e) ∨ (∃ reason k1 k2, ev = Dropped reason k1 k2 e) →
  relayInv y Q S (tr ++ [Read c f; ev]).
Proof using.
  intros [I1 I2 I3 I4 I5 I6 I7 I8 I9] Hok Hkc Hst Hev.
  assert (∀ d, wroteTo d [Read c f; ev] = []) as Hw by (intros d; by destruct Hev as [(?&?&->)|(?&?&?&->)]).
  split; try done.
  - intros c' d' b kc' k Hc' Hd'. unfold under. rewrite wroteTo_app, Hw, app_nil_r, readBy_app, filter_app. apply sublist_inserts_r. by apply I2.
  - intros d' e'. rewrite wroteTo_app, Hw, app_nil_r. by apply I3.
  - intros c' f' [?|[E|E%list_elem_of_singleton]%elem_of_cons]%elem_of_app; [by apply I6| |by destruct Hev as [(?&?&->)|(?&?&?&->)]].
    injection E as -> ->. split; [by eapply elem_of_dom_2|done].
  - intros d' m [?|[E|E%list_elem_of_singleton]%elem_of_cons]%elem_of_app; [by eapply I7|done|by destruct Hev as [(?&?&->)|(?&?&?&->)]].
  - rewrite allRead_app, accounted_app, I9. assert (accounted [Read c f; ev] = [e]) as -> by (by destruct Hev as [(?&?&->)|(?&?&?&->)]).
    assert (allRead (keyOf (sy_srv y)) [Read c f; ev] = [e]) as ->.
    { destruct Hev as [(?&?&->)|(?&?&?&->)]; cbn; rewrite Hkc; cbn; by rewrite Hst. }
    rewrite <- !app_assoc. apply Permutation_app_head.
    rewrite (app_assoc (queued Q)). apply Permutation_app_comm.
Qed.

Lemma destination_key y k n d :
  reachable pk y → destination (sy_srv y) k = (n, Some d) → keyOf (sy_srv y) !! d = Some k.
Proof using.
  intros Hr. destruct (reachable_sysInv pk y Hr) as [Hi _ _]. unfold destination.
  destruct (clients (sy_srv y) !! k) as [cs|] eqn:Ek; [|done]. destruct (iv_sets _ Hi k cs Ek) as [Hsh Hmem].
  destruct (shapeOk_active cs Hsh) as (a & Ha & Hin). rewrite Ha. intros [= _ <-].
  destruct (Hmem a Hin) as [mesh Hc]. cbn in Hc. rewrite lookup_fmap in Hc. unfold keyOf. rewrite lookup_fmap.
  destruct (srv_conns (sy_srv y) !! a) as [sc|]; [|done]. cbn in *. unfold coreOf in Hc. congruence.
Qed.

Lemma route_key y f k d : reachable pk y → routeOf (sy_srv y) f k = ToClient d → keyOf (sy_srv y) !! d = Some k.
Proof using.
  intros Hr Hro. destruct (destination (sy_srv y) k) as [n [d'|]] eqn:E.
  - assert (d' = d) as <-; [|by eapply destination_key].
    unfold routeOf, handleFrameForwardPacket, handleFrameSendPacket in Hro. rewrite E in Hro. destruct f; congruence.
  - exfalso. unfold routeOf, handleFrameForwardPacket, handleFrameSendPacket in Hro. rewrite E in Hro.
    destruct f; repeat case_match; congruence.
Qed.

End Inv.

(** ** Runs *)
Lemma rsteps_trans depth r1 tr1 r2 tr2 r3 : rsteps depth r1 tr1 r2 → rsteps depth r2 tr2 r3 → rsteps depth r1 (tr1 ++ tr2) r3.
Proof.
  intros H1 H2. induction H2 as [|r tr r2 evs r3 _ IH Hs]; [by rewrite app_nil_r|]. rewrite app_assoc. eapply rsteps_snoc; [by apply IH|done].
Qed.

Lemma rsteps_one depth r evs r' : rstep depth r evs r' → rsteps depth r evs r'.
Proof. intros H. change evs with ([] ++ evs). eapply rsteps_snoc; [constructor|exact H]. Qed.

Lemma rsteps_cons depth r1 evs r2 tr r3 : rstep depth r1 evs r2 → rsteps depth r2 tr r3 → rsteps depth r1 (evs ++ tr) r3.
Proof. intros H1%rsteps_one H2. by eapply rsteps_trans. Qed.

Lemma relayInv_start pk depth : relayInv pk depth (start pk) ∅ ∅ [].
Proof.
  assert (∀ q, qAt ∅ q = []) as Hq by (intros q; unfold qAt; by rewrite lookup_empty).
  split; first [done|apply rtc_refl|by intros ? ? ?%elem_of_nil|idtac].
  - intros d b e. rewrite Hq. by intros ?%elem_of_nil.
  - intros q. rewrite Hq. cbn. lia.
Qed.

(** Writing a packet notes its source, which is a step of the registry. *)
Lemma noted_step (y : sys) d src :
  registered (sy_srv y) d → d ∉ sy_done y →
  let s' := if bool_decide (src = zeroPublic) then sy_srv y else (noteSendFromSrc d src (sy_srv y)).1 in
  (y = mkSys s' (sy_told y) (sy_done y) ∨ step y (mkSys s' (sy_told y) (sy_done y))) ∧ sameReg (sy_srv y) s'.
Proof.
  intros Hreg Hdn. case_bool_decide; cbn zeta.
  - split; [left; by destruct y|by split].
  - destruct (noteSendFromSrc_run (sy_srv y) d src (registered_conn _ _ Hreg)) as (s' & Hrun & Hs). rewrite Hrun. cbn.
    split; [right|done]. destruct y as [s told dn]. cbn in *. by apply (step_send s told dn d src).
Qed.

Lemma relayInv_quiet pk depth y Q S tr : relayInv pk depth y Q S tr → relayInv pk depth y Q S (tr ++ []).
Proof. by rewrite app_nil_r. Qed.

Lemma sendPkt_inv pk depth r c sd r' evs tr :
  relayInv pk depth (rl_sys r) (rl_queue r) (rl_sending r) tr → rl_sending r !! c = Some sd → sendPkt depth r c sd = (r', evs) →
  relayInv pk depth (rl_sys r') (rl_queue r') (rl_sending r') (tr ++ evs).
Proof.
  intros Hi Hsd Hrun. unfold sendPkt in Hrun. destruct (sd_phase sd).
  - case_bool_decide; injection Hrun as <- <-; cbn.
    + by apply inv_giveUp.
    + apply relayInv_quiet. by eapply inv_resend.
  - destruct (Nat.ltb_spec (length (queueOf r (sd_dst sd, isDisco (sd_entry sd)))) depth); injection Hrun as <- <-; cbn; apply relayInv_quiet.
    + by apply (inv_enqueue pk depth _ _ _ _ c sd).
    + by eapply inv_resend.
  - destruct (queueOf r (sd_dst sd, isDisco (sd_entry sd))) as [|h rest] eqn:Hq.
    + destruct (_ <? 2)%nat; injection Hrun as <- <-; cbn; [apply relayInv_quiet; by eapply inv_resend|by apply inv_giveUp].
    + assert (relayInv pk depth (rl_sys r) (<[(sd_dst sd, isDisco (sd_entry sd)) := rest]> (rl_queue r)) (rl_sending r)
                (tr ++ [Dropped dropReasonQueueHead (keyAt r c) (keyAt r (sd_dst sd)) h])) as Hi1 by (by apply inv_dropHead).
      destruct (_ <? 2)%nat; injection Hrun as <- <-; cbn; [by eapply inv_resend|]. rewrite cons_middle, app_assoc. by apply inv_giveUp.
Qed.

Lemma readPacketFrame_inv pk depth r c sc f r' evs tr :
  relayInv pk depth (rl_sys r) (rl_queue r) (rl_sending r) tr → srv_conns (sy_srv (rl_sys r)) !! c = Some sc → requestOk f →
  rl_sending r !! c = None → readPacketFrame r c f = (r', evs) →
  relayInv pk depth (rl_sys r') (rl_queue r') (rl_sending r') (tr ++ evs).
Proof.
  intros Hi Hsc Hok Hn Hrun. rewrite readPacketFrame_asked in Hrun.
  assert (keyOf (sy_srv (rl_sys r)) !! c = Some (sc_key sc)) as Hkc by (unfold keyOf; by rewrite lookup_fmap, Hsc).
  assert (keyAt r c = sc_key sc) as Hka by (unfold keyAt; by rewrite Hkc). rewrite Hka in Hrun.
  destruct (asked (sc_key sc) c f) as [[dst e]|] eqn:Hst; [|injection Hrun as <- <-; by apply relayInv_quiet].
  destruct (routeOf (sy_srv (rl_sys r)) f dst) as [d|fwd|reason pg] eqn:Hro; injection Hrun as <- <-; cbn.
  - eapply inv_readTo; [done..|]. eapply route_key; [apply Hi|exact Hro].
  - eapply inv_readOut; [done..|]. left. eauto.
  - eapply inv_readOut; [done..|]. right. eauto.
Qed.

Lemma rstep_inv pk depth r evs r' tr :
  relayInv pk depth (rl_sys r) (rl_queue r) (rl_sending r) tr → rstep depth r evs r' →
  relayInv pk depth (rl_sys r') (rl_queue r') (rl_sending r') (tr ++ evs).
Proof.
  intros Hi Hstep. destruct Hstep as
    [r y' Hs|r c sc f r' evs Hreg Hsc Hpriv Hok Hn Hrun|r c sd r' evs Hsd Hrun|r d b ok r' evs [Hreg [Hdn Hst]] Hrun
    |r d m _ Hp Hok|r d|r d _|r d b r' evs _ Hrun].
  - apply relayInv_quiet. by eapply inv_server.
  - by eapply readPacketFrame_inv.
  - by eapply sendPkt_inv.
  - unfold writeHead in Hrun. destruct (queueOf r (d, b)) as [|e rest] eqn:Hq; [done|].
    destruct (noted_step (rl_sys r) d (pkt_src (en_pkt e)) Hreg Hdn) as [Hy _]. cbn [fst] in Hrun.
    set (y' := mkSys _ _ _) in *. assert (relayInv pk depth y' (rl_queue r) (rl_sending r) tr) as Hi'.
    { destruct Hy as [<-|Hy]; [exact Hi|by eapply inv_server]. }
    destruct ok; injection Hrun as <- <-; cbn.
    + eapply inv_write; [exact Hi'|done|apply Hi'|done].
    + by apply inv_dropHead.
  - cbn. eapply (inv_less pk depth _ _ _ _ (rl_sending r)); [exact Hi|apply Hi|done..| | | | | | | |].
    + intros c d' b. unfold under. rewrite wroteTo_app, app_nil_r. done.
    + intros d' e He. by apply elem_of_nil in He.
    + by left.
    + intros c sd Hsd. by exists sd.
    + intros d' m' [= <- <-]. done.
    + done.
    + apply Hi.
    + done.
  - by apply relayInv_quiet.
  - by apply relayInv_quiet.
  - unfold drainHead in Hrun. destruct (queueOf r (d, b)) as [|e rest] eqn:Hq; [done|]. injection Hrun as <- <-. cbn. by apply inv_dropHead.
Qed.

Lemma rsteps_inv pk depth tr r :
  rsteps depth (relayStart pk) tr r → relayInv pk depth (rl_sys r) (rl_queue r) (rl_sending r) tr.
Proof.
  intros H. remember (relayStart pk) as r0 eqn:E. induction H as [|r tr r1 evs r2 _ IH Hs]; [subst; apply relayInv_start|].
  eapply rstep_inv; [by apply IH|done].
Qed.

(** ** A packet gets through *)
Lemma registered_sameReg s s' c : sameReg s s' → registered s c → registered s' c.
Proof.
  intros [Hr _] (sc & cs & Hc & Hk & Hin). injection Hr as _ Hcore Hcl _ _ _ _ _.
  apply (f_equal (lookup c)) in Hcore. rewrite !lookup_fmap, Hc in Hcore. destruct (srv_conns s' !! c) as [sc'|] eqn:E; [|done].
  cbn in Hcore. injection Hcore as Hkey _ _ _. exists sc', cs. by rewrite Hkey, Hcl.
Qed.

(** The send loop empties the queue up to a packet. *)
Lemma write_up_to depth d b e q' : ∀ r rest,
  queueOf r (d, b) = q' ++ e :: rest → looping r d → ∃ tr r', rsteps depth r tr r' ∧ Wrote d e ∈ tr.
Proof.
  induction q' as [|h q' IH]; intros r rest Hq [Hreg [Hdn Hst]].
  - eexists _, _. split; [eapply rsteps_one, (r_write depth r d b true); [by split_and!|unfold writeHead; rewrite Hq; reflexivity]|]. by left.
  - destruct (noted_step (rl_sys r) d (pkt_src (en_pkt h)) Hreg Hdn) as [_ Hs].
    set (s' := if bool_decide _ then _ else _) in Hs.
    destruct (IH (setQueue (d, b) (q' ++ e :: rest) (setSys (mkSys s' (sy_told (rl_sys r)) (sy_done (rl_sys r))) r)) rest) as (tr & r' & Hsteps & Hin).
    { unfold queueOf. cbn. by rewrite lookup_insert_eq. }
    { split_and!; [by eapply registered_sameReg|done|done]. }
    exists ([Wrote d h] ++ tr), r'. split; [|by right].
    eapply rsteps_cons; [|exact Hsteps]. apply (r_write depth r d b true); [by split_and!|]. unfold writeHead. by rewrite Hq.
Qed.

(** [sendPkt] with nobody else at the queue puts the packet at its end. *)
Lemma sendPkt_alone depth r c d e :
  (1 <= depth)%nat → (∀ q, length (queueOf r q) <= depth)%nat → d ∉ rl_gone r →
  rl_sending r !! c = Some (mkSending d e 0 AtDone) →
  ∃ tr r' q', rsteps depth r tr r' ∧ queueOf r' (d, isDisco e) = q' ++ [e] ∧
    q' = (if length (queueOf r (d, isDisco e)) <? depth then queueOf r (d, isDisco e) else tail (queueOf r (d, isDisco e)))%nat ∧
    rl_sys r' = rl_sys r ∧ rl_stopped r' = rl_stopped r ∧ rl_gone r' = rl_gone r.
Proof.
  intros Hd Hl Hg Hs. set (q := (d, isDisco e)).
  set (r1 := setSending c (Some (mkSending d e 0 AtEnqueue)) r).
  assert (rstep depth r [] r1) as H1.
  { eapply r_sendPkt; [exact Hs|]. unfold sendPkt. cbn [sd_phase sd_dst sd_entry sd_attempt]. by rewrite bool_decide_false. }
  assert (∀ r0 n, rl_sending r0 !! c = Some (mkSending d e n AtEnqueue) → (length (queueOf r0 q) < depth)%nat →
    rstep depth r0 [] (setSending c None (setQueue q (queueOf r0 q ++ [e]) r0))) as Henq.
  { intros r0 n Hs0 Hl0. eapply r_sendPkt; [exact Hs0|]. unfold sendPkt. cbn [sd_phase sd_dst sd_entry sd_attempt]. fold q. by rewrite (proj2 (Nat.ltb_lt _ _) Hl0). }
  destruct (Nat.ltb_spec (length (queueOf r q)) depth) as [Hlt|Hge].
  - eexists _, _, (queueOf r q). split_and!; [eapply rsteps_cons; [exact H1|]; eapply rsteps_one, (Henq r1 0%nat)| | | | |]; try done.
    + cbn. apply lookup_insert_eq.
    + unfold queueOf. cbn. by rewrite lookup_insert_eq.
  - destruct (queueOf r q) as [|h rest] eqn:Hq; [cbn in Hge; lia|]. pose proof (Hl q) as Hlen. rewrite Hq in Hlen. cbn in Hlen.
    set (r2 := setSending c (Some (mkSending d e 0 AtDropHead)) r1).
    set (r3 := setSending c (Some (mkSending d e 1 AtDone)) (setQueue q rest r2)).
    set (r4 := setSending c (Some (mkSending d e 1 AtEnqueue)) r3).
    assert (rstep depth r1 [] r2) as H2.
    { eapply r_sendPkt; [cbn; apply lookup_insert_eq|]. unfold sendPkt. cbn [sd_phase sd_dst sd_entry sd_attempt]. fold q. change (queueOf r1 q) with (queueOf r q).
      rewrite Hq. by rewrite (proj2 (Nat.ltb_ge _ _) Hge). }
    assert (rstep depth r2 [Dropped dropReasonQueueHead (keyAt r2 c) (keyAt r2 d) h] r3) as H3.
    { eapply r_sendPkt; [cbn; apply lookup_insert_eq|]. unfold sendPkt. cbn [sd_phase sd_dst sd_entry sd_attempt]. fold q. change (queueOf r2 q) with (queueOf r q). by rewrite Hq. }
    assert (rstep depth r3 [] r4) as H4.
    { eapply r_sendPkt; [cbn; apply lookup_insert_eq|]. unfold sendPkt. cbn [sd_phase sd_dst sd_entry sd_attempt]. by rewrite bool_decide_false. }
    assert (queueOf r4 q = rest) as Hq4 by (unfold queueOf; cbn; by rewrite lookup_insert_eq).
    eexists _, _, rest. split_and!; [do 4 (eapply rsteps_cons; [eassumption|]); eapply rsteps_one, (Henq r4 1%nat)| | | | |]; try done.
    + cbn. apply lookup_insert_eq.
    + rewrite Hq4. lia.
    + unfold queueOf at 1. cbn. rewrite lookup_insert_eq. cbn. by rewrite Hq4.
Qed.
