(* ===== verification/DerpRelay.v ===== *)
(** * A packet through the relay

    The two directions of the DERP protocol put together with the routing and the
    queues of the server, and the client on a stream that is not what it should be. *)
From S2P Require Import Prelude NetBuf NetAddr GoState NetConn DerpServer DerpInv DerpSteps DerpServing DerpWire DerpFrames DerpQueue.

(** ** Requests *)
Fixpoint readAll (canMesh : bool) (n : nat) : stM bytes (list clientFrame) :=
  match n with O => mret [] | S n => f ← readClientFrame canMesh; fs ← readAll canMesh n; mret (f :: fs) end.

Definition clientWrite (f : clientFrame) : stM Writer unit := default (mret tt) (request f).

Lemma clientWrite_emits f : requestOk f → emits (clientWrite f) (requestFrame f).
Proof. intros Hok. unfold clientWrite. destruct (request f) eqn:E; [by eapply request_emits|]. by destruct f. Qed.

Lemma readAll_frames canMesh fs rest :
  Forall (λ f, requestOk f ∧ (privileged f = true → canMesh = true)) fs →
  readAll canMesh (length fs) ((fs ≫= requestFrame) ++ rest) = (rest, Ok fs).
Proof.
  induction 1 as [|f fs [Hok Hm] _ IH]; [done|]. cbn [length readAll mbind list_bind]. rewrite <- app_assoc.
  erewrite stM_bind_run by (by apply readClientFrame_spec). cbn beta. erewrite stM_bind_run by exact IH. done.
Qed.

(** Whatever a client sends, packets, forwarded packets, pings and the requests of a mesh peer, the server reads back
    as it was meant, in order and with nothing left over, for any size of the client's write buffer: also
    when a frame header or a key has to be split between two flushes. *)
Theorem derp_requests_arrive canMesh size fs :
  (0 < size)%nat → Forall (λ f, requestOk f ∧ (privileged f = true → canMesh = true)) fs →
  ∃ w, writeAll (clientWrite <$> fs) (newWriter size) = (w, Ok tt) ∧
       readAll canMesh (length fs) (c_sent (bw_conn w)) = ([], Ok fs).
Proof.
  intros Hs Hfs. destruct (writeAll_sent clientWrite requestFrame fs size Hs) as (w & Hrun & Hsent).
  { intros f Hf. apply clientWrite_emits. rewrite Forall_forall in Hfs. by apply Hfs. }
  exists w. split; [done|]. rewrite Hsent. pose proof (readAll_frames canMesh fs [] Hfs) as Hr. by rewrite app_nil_r in Hr.
Qed.

Definition someKey : NodePublic := replicate 32 7.

Lemma derp_requests_arrive_witness :
  let fs := [CfNotePreferred true; CfSendPacket someKey [1; 2; 3]; CfPing [1; 2; 3; 4; 5; 6; 7; 8]] in
  ∃ w, writeAll (clientWrite <$> fs) (newWriter 16) = (w, Ok tt) ∧ readAll false (length fs) (c_sent (bw_conn w)) = ([], Ok fs).
Proof.
  apply derp_requests_arrive; [lia|].
  repeat (apply Forall_cons; split; [split; [vm_compute; repeat split; discriminate|discriminate]|]). apply Forall_nil. exact I.
Defined.

(** ** Messages *)

(** Whatever the server writes to a client, packets with their source, pongs, keep-alives and the
    presence of peers, the client's [Recv] returns in order, for any size of the two buffers: a frame
    that fits in the reader's buffer is returned from there and discarded by the next call, a larger
    one is copied. *)
Theorem derp_messages_arrive openServerInfo wsize rsize ms :
  (0 < wsize)%nat → Forall serverOk ms →
  ∃ w c, writeAll (serverWrite <$> ms) (newWriter wsize) = (w, Ok tt) ∧
         recvAll openServerInfo (length ms) (newClient rsize (c_sent (bw_conn w))) = (c, Ok (received <$> ms)) ∧ remaining c = [].
Proof.
  intros Hs Hms. destruct (writeAll_sent serverWrite (λ m, frame (serverFrame m).1 (serverFrame m).2) ms wsize Hs) as (w & Hrun & Hsent).
  { intros m Hm. apply serverWrite_emits. rewrite Forall_forall in Hms. by apply Hms. }
  destruct (recvAll_frames openServerInfo ms (newClient rsize (c_sent (bw_conn w))) [] Hms) as (c & Hrecv & Hrem & _); [done| |].
  { unfold remaining. cbn. by rewrite drop_0, Hsent, app_nil_r. }
  exists w, c. done.
Qed.

Lemma derp_messages_arrive_witness :
  let ms := [SsPacket someKey [1; 2; 3]; SsPeerPresent someKey (AddrPortFrom (Addr4 0x0a000001) 443) 1; SsKeepAlive] in
  ∃ w c, writeAll (serverWrite <$> ms) (newWriter 16) = (w, Ok tt) ∧
         recvAll (λ _, Err EOF) (length ms) (newClient 40 (c_sent (bw_conn w))) = (c, Ok (received <$> ms)) ∧ remaining c = [].
Proof.
  apply derp_messages_arrive; [lia|].
  repeat (apply Forall_cons; split; [vm_compute; repeat split; discriminate|]). apply Forall_nil. exact I.
Defined.

(** ** End to end *)

Lemma readBy_elem kc c k tr e : e ∈ readBy kc c k tr → ∃ f, Read c f ∈ tr ∧ asked kc c f = Some (k, e).
Proof.
  unfold readBy. rewrite list_elem_of_omap. intros (ev & Hin & Hev). destruct ev as [c' f| | | |]; try done.
  case_bool_decide; [|done]. subst c'. destruct (asked kc c f) as [[k' e']|] eqn:E; [|done]. case_bool_decide; [|done].
  subst k'. injection Hev as ->. by exists f.
Qed.

Lemma wroteTo_elem d e tr : Wrote d e ∈ tr → e ∈ wroteTo d tr.
Proof. intros Hin. unfold wroteTo. apply list_elem_of_omap. exists (Wrote d e). by rewrite bool_decide_true. Qed.

Section EndToEnd.
Context (pk : NodePublic) (depth : nat) (tr : list event) (r : relay).
Hypothesis run : rsteps depth (relayStart pk) tr r.

Let keys := keyOf (sy_srv (rl_sys r)).
Let Hinv : relayInv pk depth (rl_sys r) (rl_queue r) (rl_sending r) tr := rsteps_inv pk depth tr r run.

Lemma wrote_order c d kc k b :
  keys !! c = Some kc → keys !! d = Some k →
  sublist (ofSender c b (wroteTo d tr)) (filter (λ e, isDisco e = b) (readBy kc c k tr)).
Proof using run Hinv.
  intros Hc Hd. etrans; [|by apply (ri_order _ _ _ _ _ _ Hinv c d b kc k)]. unfold under. apply sublist_inserts_r. done.
Qed.

(** A packet that was written was read, from a connection whose key it bears or from a mesh peer. *)
Lemma wrote_read d e :
  e ∈ wroteTo d tr → ∃ kc k f, keys !! en_from e = Some kc ∧ keys !! d = Some k ∧ Read (en_from e) f ∈ tr ∧ requestOk f ∧
    asked kc (en_from e) f = Some (k, e).
Proof using run Hinv.
  intros He. destruct (ri_wrote _ _ _ _ _ _ Hinv d e He) as [[k Hk]%elem_of_dom [kc Hkc]%elem_of_dom].
  pose proof (wrote_order (en_from e) d kc k (isDisco e) Hkc Hk) as Hsub.
  assert (e ∈ filter (λ e', isDisco e' = isDisco e) (readBy kc (en_from e) k tr)) as [_ Hin]%list_elem_of_filter.
  { eapply elem_of_sublist; [|exact Hsub]. unfold ofSender. by apply list_elem_of_filter. }
  apply readBy_elem in Hin as (f & Hf & Hst). exists kc, k, f. destruct (ri_read _ _ _ _ _ _ Hinv _ _ Hf). by split_and!.
Qed.

(** The keys of connections, and those that mesh peers name, are public keys. *)
Definition goodKeys : Prop :=
  (∀ c k, keys !! c = Some k → isKey k ∧ k ≠ zeroPublic) ∧
  ∀ c src dst bs, Read c (CfForwardPacket src dst bs) ∈ tr → src ≠ zeroPublic.

Lemma framesTo_ok d : goodKeys → Forall serverOk (framesTo d tr).
Proof using run Hinv.
  intros [Hkeys Hfwd]. apply Forall_forall. intros m Hm. unfold framesTo in Hm. apply list_elem_of_omap in Hm as (ev & Hin & Hev).
  destruct ev as [| |d' e|d' m'|]; try done; case_bool_decide; try done; subst d'; injection Hev as <-.
  - apply wroteTo_elem, wrote_read in Hin as (kc & k & f & Hkc & _ & Hf & Hok & Hst).
    destruct f; cbn in Hst; try done; injection Hst as _ He; rewrite <- He; cbn in *; unfold MaxPacketSize in Hok.
    + destruct (Hkeys _ _ Hkc). split_and!; [done|done|lia].
    + destruct Hok as (? & _ & ?). split_and!; [done|by eapply Hfwd|lia].
  - by eapply (ri_other _ _ _ _ _ _ Hinv).
Qed.

Lemma packet_gets_through c sc f dst e d :
  (1 <= depth)%nat → registered (sy_srv (rl_sys r)) c → srv_conns (sy_srv (rl_sys r)) !! c = Some sc →
  (privileged f = true → sc_canMesh sc = true) → requestOk f → rl_sending r !! c = None →
  asked (sc_key sc) c f = Some (dst, e) → routeOf (sy_srv (rl_sys r)) f dst = ToClient d →
  looping r d → d ∉ rl_gone r → ∃ tr' r', rsteps depth r (Read c f :: tr') r' ∧ Wrote d e ∈ tr'.
Proof using run Hinv.
  intros Hd Hreg Hsc Hpriv Hok Hn Hst Hro Hloop Hg.
  assert (keyAt r c = sc_key sc) as Hka by (unfold keyAt, keyOf; by rewrite lookup_fmap, Hsc).
  set (r1 := setSending c (Some (mkSending d e 0 AtDone)) r).
  assert (rstep depth r [Read c f] r1) as Hread.
  { eapply r_read; [done..|]. by rewrite readPacketFrame_asked, Hka, Hst, Hro. }
  destruct (sendPkt_alone depth r1 c d e) as (tr1 & r2 & q' & Hsteps & Hq & _ & Hy & Hs & _); [done| |done|cbn; apply lookup_insert_eq|].
  { intros q. apply (ri_len _ _ _ _ _ _ Hinv). }
  destruct (write_up_to depth d (isDisco e) e q' r2 []) as (tr2 & r3 & Hsteps2 & Hin).
  { exact Hq. }
  { destruct Hloop as (? & ? & ?). unfold looping. rewrite Hy, Hs. by split_and!. }
  exists (tr1 ++ tr2), r3. split; [|apply elem_of_app; by right].
  change (Read c f :: tr1 ++ tr2) with ([Read c f] ++ (tr1 ++ tr2)). eapply rsteps_cons; [exact Hread|]. by eapply rsteps_trans.
Qed.

End EndToEnd.


(** A run: [someKey] sends a packet to [otherKey]. *)
Definition otherKey : NodePublic := replicate 32 5.
Definition relayConns : Server :=
  runTo (acceptConn 2%nat (newConn otherKey false 2)) (runTo (acceptConn 1%nat (newConn someKey false 1)) (New [0] lastWriterIsActive)).
Definition relayed : qpkt := mkQpkt 1%nat (mkPkt someKey [1; 2]).
Definition relayed_frame : clientFrame := CfSendPacket otherKey [1; 2].
Definition relay0 : relay := mkRelay (mkSys relayConns ∅ ∅) ∅ ∅ ∅ ∅.
Definition relay1 : relay := (readPacketFrame relay0 1%nat relayed_frame).1.
Definition relay2 : relay := (sendPkt 32 relay1 1%nat (mkSending 2%nat relayed 0 AtDone)).1.
Definition relay3 : relay := (sendPkt 32 relay2 1%nat (mkSending 2%nat relayed 0 AtEnqueue)).1.
Definition relay4 : relay := (default (relay3, []) (writeHead true relay3 (2%nat, false))).1.

Lemma relay_run : rsteps 32 (relayStart [0]) [Read 1%nat relayed_frame; Wrote 2%nat relayed] relay4.
Proof.
  set (s0 := New [0] lastWriterIsActive). set (s1 := runTo (acceptConn 1%nat (newConn someKey false 1)) s0).
  assert (step (start [0]) (mkSys s1 ∅ ∅)) as H1.
  { apply (step_accept s0 ∅ ∅ 1%nat (newConn someKey false 1)); [vm_compute; reflexivity|apply fresh_newConn|].
    apply (runs (acceptConn 1%nat (newConn someKey false 1)) s0). vm_compute. reflexivity. }
  assert (step (mkSys s1 ∅ ∅) (mkSys relayConns ∅ ∅)) as H2.
  { apply (step_accept s1 ∅ ∅ 2%nat (newConn otherKey false 2)); [vm_compute; reflexivity|apply fresh_newConn|].
    apply (runs (acceptConn 2%nat (newConn otherKey false 2)) s1). vm_compute. reflexivity. }
  eapply (rsteps_cons 32 _ [] (mkRelay (mkSys s1 ∅ ∅) ∅ ∅ ∅ ∅)); [exact (r_server 32 (relayStart [0]) _ H1)|].
  eapply (rsteps_cons 32 _ [] relay0); [exact (r_server 32 (mkRelay (mkSys s1 ∅ ∅) ∅ ∅ ∅ ∅) _ H2)|].
  eapply (rsteps_cons 32 _ [Read 1%nat relayed_frame] relay1).
  { eapply (r_read 32 relay0 1%nat _ relayed_frame); [is_registered|vm_compute; reflexivity|discriminate|vm_compute; split; [reflexivity|discriminate]|reflexivity|].
    vm_compute. reflexivity. }
  eapply (rsteps_cons 32 _ [] relay2).
  { eapply (r_sendPkt 32 relay1 1%nat); vm_compute; reflexivity. }
  eapply (rsteps_cons 32 _ [] relay3).
  { eapply (r_sendPkt 32 relay2 1%nat); vm_compute; reflexivity. }
  apply rsteps_one, (r_write 32 relay3 2%nat false true); [|vm_compute; reflexivity].
  split_and!; [is_registered|apply not_elem_of_empty|apply not_elem_of_empty].
Qed.

Lemma relay_goodKeys : goodKeys [Read 1%nat relayed_frame; Wrote 2%nat relayed] relay4.
Proof.
  split.
  - assert (keyOf (sy_srv (rl_sys relay4)) = <[2%nat := otherKey]> {[1%nat := someKey]}) as -> by (vm_compute; reflexivity).
    intros c k [[_ <-]|[_ [_ <-]%lookup_singleton_Some]]%lookup_insert_Some; done.
  - intros c src dst bs [E|[E|E%elem_of_nil]%elem_of_cons]%elem_of_cons; done.
Qed.


(** ** A stream from a server that does not follow the protocol *)
Definition returnsSt {S A} (r : S * res A) : Prop := returns r.2.

Section Hostile.
Context (openServerInfo : bytes → res (Z * Z)).
Hypothesis (open_returns : ∀ b, returns (openServerInfo b)).

Lemma decodeFrame_returns t b : returns (decodeFrame openServerInfo t (zlen b) b).
Proof.
  pose proof (zlen_nonneg b). unfold decodeFrame. destruct (t =? FrameServerInfo).
  { unfold parseServerInfo. destruct (_ <? _); [done|]. destruct (_ <? _); [done|]. destruct (open_returns b). by destruct (openServerInfo b) as [[]| | |]. }
  destruct (t =? FrameKeepAlive); [done|]. destruct (t =? FramePeerGone).
  { destruct (Z.ltb_spec (zlen b) KeyLen); [done|]. unfold KeyLen in *. rewrite slice_Ok by lia.
    destruct (Z.ltb_spec 32 (zlen b)); [rewrite idx_at by lia|]; done. }
  destruct (t =? FramePeerPresent).
  { unfold cutLeadingN. destruct (Nat.leb_spec 32 (length b)); [|done]. destruct (Nat.leb_spec 18 (length (drop 32 b))) as [H18|]; [|done].
    rewrite Uint16_Ok by (unfold zlen; rewrite ?length_take; lia). cbn [mbind res_bind].
    destruct (Nat.leb_spec 1 (length (drop 18 (drop 32 b)))); [|done]. rewrite idx_at by (unfold zlen; rewrite length_take; lia). done. }
  destruct (t =? FrameRecvPacket).
  { destruct (Z.ltb_spec (zlen b) KeyLen); [done|]. unfold KeyLen in *. rewrite !slice_Ok by lia. done. }
  destruct (t =? FramePing); [by destruct (_ <? _)|]. destruct (t =? FramePong); [by destruct (_ <? _)|].
  destruct (t =? FrameHealth); [done|]. destruct (t =? FrameRestarting); [|done].
  destruct (Z.ltb_spec (zlen b) 8); [done|]. rewrite !Uint32_Ok by lia. done.
Qed.

Lemma ReadFrameHeader_cases br :
  Forall is_byte br →
  (∃ t n, ReadFrameHeader br = (drop 5 br, Ok (t, n)) ∧ (5 <= length br)%nat ∧ 0 <= n) ∨ (∃ e, ReadFrameHeader br = (br, Err e)).
Proof.
  intros Hb.
  unfold ReadFrameHeader, Peek, FrameHeaderLen. destruct (Nat.leb_spec 5 (length br)) as [H|H].
  - left. unfold mbind, stM_bind. rewrite (proj2 (Nat.leb_le _ _)) by done. unfold lift.
    assert (zlen (take 5 br) = 5) as Hz by (unfold zlen; rewrite length_take; lia).
    rewrite idx_at by lia. rewrite Uint32_Ok by lia. eexists _, _. split; [reflexivity|]. split; [done|].
    pose proof (be_at_bound 4 (take 5 br) 1 (Forall_take _ _ _ Hb) ltac:(lia) ltac:(lia)). lia.
  - right. unfold mbind, stM_bind. rewrite (proj2 (Nat.leb_gt _ _)) by done. eauto.
Qed.

Lemma recvLoop_returns fuel c :
  (length (remaining c) < fuel)%nat → Forall is_byte (remaining c) → returnsSt (recvLoop openServerInfo fuel c).
Proof.
  revert c. induction fuel as [|fuel IH]; intros c Hf Hb; [lia|]. cbn [recvLoop]. erewrite stM_bind_run by reflexivity. cbn beta.
  set (c1 := mkDerpClient (remaining c) (dc_size c) 0 (dc_readErr c) (dc_rate c)).
  assert ((if (dc_peeked c =? 0)%nat then mret tt else _ ← onReader (Discard (dc_peeked c)); setPeeked 0) c = (c1, Ok tt)) as Hdis.
  { destruct (Nat.eqb_spec (dc_peeked c) 0) as [E|E]; [|reflexivity]. unfold c1, remaining. rewrite E, drop_0. destruct c; cbn in *. by subst. }
  erewrite stM_bind_run by exact Hdis. cbn beta. unfold mbind at 1, stM_bind at 1. unfold onReader at 1. cbn [dc_br c1].
  destruct (ReadFrameHeader_cases (remaining c) Hb) as [(t & n & -> & H5 & Hn)|(e & ->)]; [|done].
  destruct (_ <? n); [done|]. erewrite stM_bind_run by reflexivity. cbn beta. cbn [dc_size c1].
  set (c2 := mkDerpClient (drop 5 (remaining c)) _ _ _ _).
  assert (∃ c3 r, (if n <=? dc_size c then peekFrame (Z.to_nat n) else onReader (br_ReadFull (Z.to_nat n))) c2 = (c3, r) ∧
    (∀ b, r = Ok b → (length (remaining c3) < fuel)%nat ∧ length b = Z.to_nat n ∧ Forall is_byte (remaining c3)) ∧ r ≠ Panic ∧ r ≠ NoFuel) as (c3 & r & Hrd & Hok & Hnp & Hnf).
  { destruct (n <=? dc_size c).
    - unfold peekFrame, onReader, Peek. cbn [dc_br c2]. destruct (Nat.leb_spec (Z.to_nat n) (length (drop 5 (remaining c)))).
      + eexists _, _. split; [reflexivity|]. split_and!; [|done|done]. intros b [= <-]. cbn. rewrite length_take, !length_drop in *.
        split_and!; [lia|lia|auto using Forall_drop].
      + eexists _, _. split; [reflexivity|]. done.
    - unfold onReader, br_ReadFull. cbn [dc_br c2]. destruct (Nat.leb_spec (Z.to_nat n) (length (drop 5 (remaining c)))).
      + eexists _, _. split; [reflexivity|]. split_and!; [|done|done]. intros b [= <-]. cbn. rewrite length_take, !length_drop in *.
        split_and!; [lia|lia|auto using Forall_drop].
      + eexists _, _. split; [reflexivity|]. done. }
  unfold mbind at 1, stM_bind at 1. rewrite Hrd. destruct r as [b|e| |]; [|done..]. destruct (Hok b eq_refl) as (Hlt & Hlb & Hb3).
  assert (n = zlen b) as -> by (unfold zlen; lia). unfold mbind at 1, stM_bind at 1, lift. destruct (decodeFrame_returns t b) as [Hd1 Hd2].
  destruct (decodeFrame openServerInfo t (zlen b) b) as [[m|]|e| |]; [|by apply IH|done..]. by destruct m.
Qed.

(** [Recv] returns on whatever bytes a server sends: it does not read past the end of a frame nor
    loop on frames that it skips, and once it has returned an error it returns that error for ever. *)
Theorem derp_client_survives c :
  Forall is_byte (dc_br c) → dc_readErr c = None ∧ dc_peeked c = 0%nat →
  returnsSt (Recv openServerInfo c) ∧
  ∀ c' e, Recv openServerInfo c = (c', Err e) → Recv openServerInfo c' = (c', Err e).
Proof.
  intros Hb [He Hp]. unfold Recv. rewrite He.
  assert (remaining c = dc_br c) as Hrem by (unfold remaining; by rewrite Hp, drop_0).
  destruct (recvLoop_returns (S (length (dc_br c))) c) as [H1 H2]; [rewrite Hrem; lia|by rewrite Hrem|].
  destruct (recvLoop openServerInfo (S (length (dc_br c))) c) as [c1 [m|e| |]]; cbn in H1, H2; [|split|done..].
  - split; [done|]. intros c' e Heq. discriminate Heq.
  - done.
  - intros c' e' [= <- <-]. done.
Qed.

End Hostile.

Lemma derp_client_survives_witness :
  let c := newClient 4096 [FramePeerGone; 0; 0; 0; 3; 1; 2; 3; FrameHealth; 0; 0; 0; 200; 1] in
  returnsSt (Recv (λ _, Err EOF) c) ∧ ∀ c' e, Recv (λ _, Err EOF) c = (c', Err e) → Recv (λ _, Err EOF) c' = (c', Err e).
Proof.
  apply derp_client_survives; [intros b; split; discriminate| |split; reflexivity].
  vm_compute. repeat constructor; discriminate.
Defined.

(** [ReadFrameTypeHeader] returns the length of a frame of another type, not zero. *)
Lemma frame_type_mismatch_keeps_length :
  (ReadFrameTypeHeader FrameServerKey [FrameHealth; 0; 0; 0; 7]).2 = Ok (7, Some (Errorf "bad frame type")).
Proof. reflexivity. Qed.
