(* ===== verification/GoText.v ===== *)
(** * Text functions

    What the code uses of [strings], [strconv], [encoding/hex] and
    [encoding/base64].  Unicode's case tables are a parameter: on strings of
    ASCII bytes the functions are written out. *)
From Stdlib Require Import Ascii.
From stdpp Require Import pretty.
From S2P Require Import Prelude NetBuf GoStrings.

(** The code of a character of the source. *)
Definition chr (c : Ascii.ascii) : Z := Z.of_N (Ascii.N_of_ascii c).
#[global] Arguments chr c%_char.

(** ** Characters *)
Definition within (lo hi c : Z) : bool := (lo <=? c) && (c <=? hi).
Definition isDigit (c : Z) : bool := within (chr "0") (chr "9") c.
Definition isLower (c : Z) : bool := within (chr "a") (chr "z") c.
Definition isUpper (c : Z) : bool := within (chr "A") (chr "Z") c.
Definition isHexDigit (c : Z) : bool := isDigit c || within (chr "a") (chr "f") c || within (chr "A") (chr "F") c.
Definition unhex (c : Z) : Z :=
  if isDigit c then c - chr "0" else
  if within (chr "a") (chr "f") c then c - chr "a" + 10 else
  if within (chr "A") (chr "F") c then c - chr "A" + 10 else 0.
Definition isASCII (s : bytes) : bool := forallb (within 0 127) s.
Definition lowerByte (c : Z) : Z := if isUpper c then c + 32 else c.
Definition upperByte (c : Z) : Z := if isLower c then c - 32 else c.

(** ** Searching and cutting *)
Definition HasPrefix (s p : bytes) : bool := bool_decide (take (length p) s = p).
Definition HasSuffix (s p : bytes) : bool := HasPrefix (rev s) (rev p).
Definition TrimPrefix (s p : bytes) : bytes := if HasPrefix s p then drop (length p) s else s.
Definition TrimSuffix (s p : bytes) : bytes := rev (TrimPrefix (rev s) (rev p)).
(** [strings.CutPrefix] *)
Definition CutPrefix (s p : bytes) : option bytes := if HasPrefix s p then Some (drop (length p) s) else None.

(** [strings.Cut(s, c)] for a single byte: what is before and after its first occurrence. *)
Fixpoint Cut (c : Z) (s : bytes) : option (bytes * bytes) :=
  match s with
  | [] => None
  | x :: s => if x =? c then Some ([], s) else
              match Cut c s with Some (a, b) => Some (x :: a, b) | None => None end
  end.
(** The same for the last occurrence, as the code cuts at [strings.LastIndexByte]. *)
Definition CutLast (c : Z) (s : bytes) : option (bytes * bytes) :=
  match Cut c (rev s) with Some (a, b) => Some (rev b, rev a) | None => None end.
Definition ContainsByte (c : Z) (s : bytes) : bool := bool_decide (c ∈ s).
Definition CountByte (c : Z) (s : bytes) : nat := length (filter (λ x, x = c) s).
(** [strings.Split(s, c)] *)
Fixpoint Split_ (c : Z) (s : bytes) : list bytes :=
  match s with
  | [] => [[]]
  | x :: s => if x =? c then [] :: Split_ c s else
              match Split_ c s with w :: ws => (x :: w) :: ws | [] => [[x]] end
  end.
(** [strings.TrimRight(s, c)] *)
Fixpoint dropByte (c : Z) (s : bytes) : bytes :=
  match s with x :: s' => if x =? c then dropByte c s' else s | [] => [] end.
Definition TrimRight (c : Z) (s : bytes) : bytes := rev (dropByte c (rev s)).

(** ** White space: the UTF-8 encodings of what [unicode.IsSpace] accepts *)
Definition spaces : list bytes :=
  [[9]; [10]; [11]; [12]; [13]; [32]; [0xc2; 0x85]; [0xc2; 0xa0]; [0xe1; 0x9a; 0x80]] ++
  ((λ x, [0xe2; 0x80; x]) <$> [0x80; 0x81; 0x82; 0x83; 0x84; 0x85; 0x86; 0x87; 0x88; 0x89; 0x8a; 0xa8; 0xa9; 0xaf]) ++
  [[0xe2; 0x81; 0x9f]; [0xe3; 0x80; 0x80]].
Fixpoint trimWith (sp : list bytes) (fuel : nat) (s : bytes) : bytes :=
  match fuel with
  | O => s
  | S fuel => match List.find (HasPrefix s) sp with
              | Some w => trimWith sp fuel (drop (length w) s)
              | None => s
              end
  end.
Definition TrimSpace (s : bytes) : bytes :=
  let s := trimWith spaces (length s) s in
  rev (trimWith ((λ w, rev w) <$> spaces) (length s) (rev s)).

(** ** Case *)
Class Unicode := {
  (** [strings.ToLower] of a string that is not ASCII *)
  lowerRunes : bytes → bytes;
  (** [strings.EqualFold] of strings that are not both ASCII *)
  foldRunes : bytes → bytes → bool
}.
Class UnicodeLaws `{Unicode} : Prop := {
  (** lower-casing leaves no letter that has a lower-case form *)
  lowerRunes_lower s : Forall (λ c, isUpper c = false) (lowerRunes s);
  foldRunes_refl s : foldRunes s s = true
}.

Section Case.
Context `{Unicode}.

Definition ToLower (s : bytes) : bytes := if isASCII s then lowerByte <$> s else lowerRunes s.
Definition EqualFold (s t : bytes) : bool :=
  if isASCII s && isASCII t then bool_decide (lowerByte <$> s = lowerByte <$> t) else foldRunes s t.

End Case.

(** ** Numbers *)
Definition digitsVal (s : bytes) : Z := fold_left (λ n c, n * 10 + (c - chr "0")) s 0.

(** [strconv.Atoi] *)
Definition Atoi (s : bytes) : option Z :=
  let '(neg, ds) := match s with
                    | c :: ds => if c =? chr "-" then (true, ds) else if c =? chr "+" then (false, ds) else (false, s)
                    | [] => (false, [])
                    end in
  if bool_decide (ds = []) || negb (forallb isDigit ds) then None else
  let n := if neg : bool then - digitsVal ds else digitsVal ds in
  if within (- 2 ^ 63) (2 ^ 63 - 1) n then Some n else None.

(** [strconv.ParseUint(s, 16, 8)] of two characters *)
Definition ParseHexByte (a b : Z) : option Z :=
  if isHexDigit a && isHexDigit b then Some (unhex a * 16 + unhex b) else None.

(** [hex.DecodeString(s)] succeeds *)
Definition hexOk (s : bytes) : bool := Nat.even (length s) && forallb isHexDigit s.

(** ** Base 64 *)
Definition base64Char (v : Z) : Z :=
  if v <? 26 then chr "A" + v else if v <? 52 then chr "a" + (v - 26) else
  if v <? 62 then chr "0" + (v - 52) else if v =? 62 then chr "+" else chr "/".
Definition base64Val (c : Z) : option Z :=
  if isUpper c then Some (c - chr "A") else if isLower c then Some (c - chr "a" + 26) else
  if isDigit c then Some (c - chr "0" + 52) else if c =? chr "+" then Some 62 else
  if c =? chr "/" then Some 63 else None.

(** [base64.StdEncoding.EncodeToString] *)
Fixpoint EncodeToString (b : bytes) : bytes :=
  match b with
  | x :: y :: z :: b =>
      base64Char (x / 4) :: base64Char (x mod 4 * 16 + y / 16) :: base64Char (y mod 16 * 4 + z / 64) ::
      base64Char (z mod 64) :: EncodeToString b
  | [x; y] => [base64Char (x / 4); base64Char (x mod 4 * 16 + y / 16); base64Char (y mod 16 * 4); chr "="]
  | [x] => [base64Char (x / 4); base64Char (x mod 4 * 16); chr "="; chr "="]
  | [] => []
  end.

(** [base64.StdEncoding.DecodeString]: line ends are skipped, bits that no byte uses are ignored. *)
Fixpoint decodeQuanta (s : bytes) : option bytes :=
  match s with
  | [] => Some []
  | a :: b :: c :: d :: s =>
      x ← base64Val a; y ← base64Val b;
      if (c =? chr "=") && (d =? chr "=") && bool_decide (s = []) then Some [(x * 4 + y / 16) mod 256] else
      z ← base64Val c;
      if (d =? chr "=") && bool_decide (s = []) then Some [(x * 4 + y / 16) mod 256; (y * 16 + z / 4) mod 256] else
      w ← base64Val d;
      r ← decodeQuanta s;
      Some ((x * 4 + y / 16) mod 256 :: (y * 16 + z / 4) mod 256 :: (z * 64 + w) mod 256 :: r)
  | _ => None
  end.
Definition DecodeString (s : bytes) : option bytes :=
  decodeQuanta (filter (λ c, c ≠ 10 ∧ c ≠ 13) s).

(** ** [net.JoinHostPort] *)
Definition JoinHostPort (host port : bytes) : bytes :=
  if ContainsByte (chr ":") host then [chr "["] ++ host ++ [chr "]"; chr ":"] ++ port
  else host ++ [chr ":"] ++ port.

(** ** Laws *)
Lemma Cut_Some c s a b : Cut c s = Some (a, b) ↔ s = a ++ c :: b ∧ c ∉ a.
Proof.
  revert a b. induction s as [|x s IH]; intros a b; cbn.
  - split; [done|]. intros [Heq _]. by destruct a.
  - destruct (Z.eqb_spec x c) as [->|Hx].
    + split; [intros; simplify_eq; set_solver|]. intros [Heq Hn]. destruct a as [|y a]; cbn in Heq; simplify_eq; [done|set_solver].
    + destruct (Cut c s) as [[a' b']|].
      * split; [intros; simplify_eq|].
        -- destruct (proj1 (IH a' b)) as [-> ?]; [done|]. set_solver.
        -- intros [Heq Hn]. destruct a as [|y a]; cbn in Heq; simplify_eq.
           assert (Some (a', b') = Some (a, b)) as [= -> ->] by (apply IH; set_solver). done.
      * split; [done|]. intros [Heq Hn]. destruct a as [|y a]; cbn in Heq; simplify_eq.
        enough (None = Some (a, b)) by done. apply IH. set_solver.
Qed.

Lemma Cut_None c s : Cut c s = None ↔ c ∉ s.
Proof.
  split.
  - intros H Hin. apply list_elem_of_split in Hin as (l1 & l2 & Heq).
    induction s as [|x s IH] in l1, Heq, H |- *; [by destruct l1|]. cbn in H. destruct (Z.eqb_spec x c); [done|].
    destruct (Cut c s) as [[]|]; [done|]. destruct l1; cbn in Heq; simplify_eq. eauto.
  - intros Hn. destruct (Cut c s) as [[a b]|] eqn:Hc; [|done]. apply Cut_Some in Hc as [-> _]. set_solver.
Qed.

Lemma CutLast_Some c s a b : CutLast c s = Some (a, b) ↔ s = a ++ c :: b ∧ c ∉ b.
Proof.
  unfold CutLast. split.
  - destruct (Cut c (rev s)) as [[x y]|] eqn:Hc; [|done]. intros [= <- <-]. apply Cut_Some in Hc as [Heq Hn].
    apply (f_equal (λ l, rev l)) in Heq. rewrite rev_involutive, rev_app_distr in Heq. cbn in Heq. rewrite <- app_assoc in Heq.
    split; [done|]. by rewrite list_elem_of_In, <- in_rev, <- list_elem_of_In.
  - intros [-> Hn]. rewrite rev_app_distr. cbn. rewrite <- app_assoc. cbn.
    rewrite (proj2 (Cut_Some c (rev b ++ c :: rev a) (rev b) (rev a))); [by rewrite !rev_involutive|].
    split; [done|]. by rewrite list_elem_of_In, <- in_rev, <- list_elem_of_In.
Qed.

Lemma CutLast_None c s : CutLast c s = None ↔ c ∉ s.
Proof.
  unfold CutLast. transitivity (c ∉ rev s); [rewrite <- Cut_None; by destruct (Cut c (rev s)) as [[]|]|].
  by rewrite list_elem_of_In, <- in_rev, <- list_elem_of_In.
Qed.

Lemma HasPrefix_iff s p : HasPrefix s p = true ↔ ∃ r, s = p ++ r.
Proof.
  unfold HasPrefix. rewrite bool_decide_eq_true. split.
  - intros Heq. exists (drop (length p) s). rewrite <- Heq at 1. by rewrite take_drop.
  - intros [r ->]. by rewrite take_app_length.
Qed.

Lemma HasSuffix_iff s p : HasSuffix s p = true ↔ ∃ r, s = r ++ p.
Proof.
  unfold HasSuffix. rewrite HasPrefix_iff. split; intros [r Heq].
  - exists (rev r). rewrite <- (rev_involutive s), Heq, rev_app_distr. by rewrite rev_involutive.
  - exists (rev r). by rewrite Heq, rev_app_distr.
Qed.

Lemma TrimSuffix_cases s p : (HasSuffix s p = false ∧ TrimSuffix s p = s) ∨ (∃ r, s = r ++ p ∧ TrimSuffix s p = r).
Proof.
  unfold TrimSuffix, TrimPrefix. change (HasPrefix (rev s) (rev p)) with (HasSuffix s p).
  destruct (HasSuffix s p) eqn:Hs; [right|left; by rewrite rev_involutive].
  apply HasSuffix_iff in Hs as [r ->]. exists r. split; [done|].
  rewrite rev_app_distr, drop_app_length. apply rev_involutive.
Qed.

Lemma elem_of_TrimSuffix s p x : x ∈ TrimSuffix s p → x ∈ s.
Proof. destruct (TrimSuffix_cases s p) as [[_ ->]|(r & -> & ->)]; set_solver. Qed.

Lemma elem_of_TrimSuffix' s p x : x ∈ s → x ∉ p → x ∈ TrimSuffix s p.
Proof. destruct (TrimSuffix_cases s p) as [[_ ->]|(r & -> & ->)]; set_solver. Qed.

Lemma isASCII_app s t : isASCII (s ++ t) = isASCII s && isASCII t.
Proof. apply forallb_app. Qed.

Lemma isASCII_elem s : isASCII s = true ↔ ∀ c, c ∈ s → 0 <= c < 128.
Proof.
  unfold isASCII, within. rewrite forallb_forall. setoid_rewrite <- list_elem_of_In.
  split; intros Hs c Hc; specialize (Hs c Hc); lia.
Qed.

Lemma lowerByte_idem c : lowerByte (lowerByte c) = lowerByte c.
Proof.
  unfold lowerByte, isUpper, within. change (chr "A") with 65. change (chr "Z") with 90.
  destruct (65 <=? c) eqn:?, (c <=? 90) eqn:?; cbn; rewrite ?Heqb, ?Heqb0; cbn; try done.
  replace (c + 32 <=? 90) with false by lia. by rewrite andb_false_r.
Qed.

Lemma lowerByte_upper c : isUpper (lowerByte c) = false.
Proof.
  unfold lowerByte, isUpper, within. change (chr "A") with 65. change (chr "Z") with 90.
  destruct (65 <=? c) eqn:?, (c <=? 90) eqn:?; cbn; lia.
Qed.

(** Only letters change: a character that is no letter is in the lower-cased string where it was before. *)
Lemma lowerByte_other c x : isLower x = false → lowerByte c = x ↔ c = x ∧ isUpper x = false.
Proof.
  unfold lowerByte, isUpper, isLower, within. change (chr "A") with 65. change (chr "Z") with 90. change (chr "a") with 97. change (chr "z") with 122.
  destruct (65 <=? c) eqn:?, (c <=? 90) eqn:?; cbn; lia.
Qed.

Lemma elem_of_lower (s : bytes) x : isLower x = false → isUpper x = false → x ∈ lowerByte <$> s ↔ x ∈ s.
Proof.
  intros Hl Hu. rewrite list_elem_of_fmap. split.
  - intros (c & Heq & Hc). symmetry in Heq. apply lowerByte_other in Heq as [-> _]; done.
  - intros Hx. exists x. split; [|done]. symmetry. by apply lowerByte_other.
Qed.

Lemma lower_isASCII (s : bytes) : isASCII s = true → isASCII (lowerByte <$> s) = true.
Proof.
  rewrite !isASCII_elem. intros Hs c (x & -> & Hx)%list_elem_of_fmap. specialize (Hs x Hx).
  unfold lowerByte, isUpper, within. change (chr "A") with 65. change (chr "Z") with 90. destruct (65 <=? x) eqn:?, (x <=? 90) eqn:?; cbn; lia.
Qed.

Lemma TrimSuffix_isASCII s p : isASCII s = true → isASCII (TrimSuffix s p) = true.
Proof. rewrite !isASCII_elem. intros Hs c Hc. apply Hs. by eapply elem_of_TrimSuffix. Qed.

(** ** Decimal numbers *)
Lemma digitsVal_snoc ds c : digitsVal (ds ++ [c]) = digitsVal ds * 10 + (c - chr "0").
Proof. unfold digitsVal. by rewrite fold_left_app. Qed.

Lemma pretty_char x : (x < 10)%N → isDigit (chr (pretty_N_char x)) = true ∧ chr (pretty_N_char x) - chr "0" = Z.of_N x.
Proof. intros Hx. destruct x as [|[[[[]|[]|]|[[]|[]|]|]|[[[]|[]|]|[[]|[]|]|]|]]; by (split; vm_compute) || lia. Qed.

Lemma pretty_go x s :
  ∃ ds, str (pretty_N_go x s) = ds ++ str s ∧ forallb isDigit ds = true ∧ digitsVal ds = Z.of_N x ∧ ((0 < x)%N → ds ≠ []).
Proof.
  revert s. induction (N.lt_wf_0 x) as [x _ IH]; intros s. destruct (decide (0 < x)%N) as [Hx|Hx].
  - rewrite pretty_N_go_step by done.
    destruct (IH (x `div` 10)%N ltac:(by apply N.div_lt) (String (pretty_N_char (x `mod` 10)) s)) as (ds & Heq & Hd & Hv & _).
    destruct (pretty_char (x `mod` 10)%N) as [H1 H2]; [by apply N.mod_lt|].
    exists (ds ++ [chr (pretty_N_char (x `mod` 10)%N)]). split_and!.
    + rewrite Heq, <- app_assoc. done.
    + rewrite forallb_app, Hd. cbn. by rewrite H1.
    + rewrite digitsVal_snoc, Hv, H2. pose proof (N.div_mod' x 10). lia.
    + intros _ Hn. by apply app_nil in Hn as [_ ?].
  - replace x with 0%N by lia. exists []. by rewrite pretty_N_go_0.
Qed.

Lemma itoa_digits n : 0 <= n → forallb isDigit (itoa n) = true ∧ itoa n ≠ [] ∧ digitsVal (itoa n) = n.
Proof.
  intros Hn. destruct n as [|p|p]; [done| |lia].
  assert (itoa (Zpos p) = str (pretty_N_go (N.pos p) "")) as -> by reflexivity.
  destruct (pretty_go (N.pos p) "") as (ds & -> & Hd & Hv & Hne). rewrite app_nil_r. split_and!; [done|by apply Hne|done].
Qed.

Lemma Atoi_itoa n : 0 <= n < 2 ^ 63 → Atoi (itoa n) = Some n.
Proof.
  intros Hn. destruct (itoa_digits n) as (Hd & Hne & Hv); [lia|]. unfold Atoi. destruct (itoa n) as [|c ds] eqn:Hi; [done|].
  assert (isDigit c = true) as Hc by (cbn in Hd; by apply andb_true_iff in Hd as [? _]).
  destruct (Z.eqb_spec c (chr "-")) as [->|]; [done|]. destruct (Z.eqb_spec c (chr "+")) as [->|]; [done|].
  rewrite bool_decide_false, Hd, Hv by done. cbn [orb negb]. unfold within. by replace (_ && _) with true by lia.
Qed.
