(* ===== verification/NetipParse.v ===== *)
(** * Textual addresses

    [netip.ParseAddr] and [netip.ParsePrefix]. *)
From Stdlib Require Import Ascii.
From S2P Require Import Prelude NetBuf NetAddr GoStrings GoText.

(** A zone is text of the address. *)
Definition zoneOf (z : bytes) : string :=
  String.string_of_list_ascii (map (λ c, ascii_of_N (Z.to_N c)) z).

(** [parseIPv4Fields]: the octets read so far, the value and number of digits of the current one. *)
Fixpoint ipv4Loop (s : bytes) (fields : list Z) (val : Z) (digLen : nat) : option (list Z) :=
  match s with
  | [] => if (length fields <? 3)%nat then None else Some (fields ++ [val])
  | c :: s =>
      if isDigit c then
        if (digLen =? 1)%nat && (val =? 0) then None else
        let val := val * 10 + (c - chr "0") in
        if 255 <? val then None else ipv4Loop s fields val (S digLen)
      else if c =? chr "." then
        if (digLen =? 0)%nat || bool_decide (s = []) then None else
        if (length fields =? 3)%nat then None else ipv4Loop s (fields ++ [val]) 0 0
      else None
  end.
Definition parseIPv4Fields (s : bytes) : option (list Z) := ipv4Loop s [] 0 0.
Definition parseIPv4 (s : bytes) : option Addr :=
  fields ← parseIPv4Fields s; Some (Addr4 (be_val fields)).

(** The hex digits at the front: their number, their value and the rest; [None] for a fifth digit. *)
Fixpoint hexField (s : bytes) (off : nat) (acc : Z) : option (nat * Z * bytes) :=
  match s with
  | c :: s' =>
      if isHexDigit c then
        if (3 <? off)%nat then None else
        let acc := acc * 16 + unhex c in
        if 0xffff <? acc then None else hexField s' (S off) acc
      else Some (off, acc, s)
  | [] => Some (off, acc, [])
  end.

(** The loop of [parseIPv6]: the bytes read, the position of the ellipsis, and the rest. *)
Fixpoint ipv6Loop (fuel : nat) (s ip : bytes) (ellipsis : option nat) : option (bytes * bytes * option nat) :=
  match fuel with
  | O => Some (s, ip, ellipsis)
  | S fuel =>
      if (16 <=? length ip)%nat then Some (s, ip, ellipsis) else
      '(off, acc, r) ← hexField s 0 0;
      if (off =? 0)%nat then None else
      if bool_decide (head r = Some (chr ".")) then
        if bool_decide (ellipsis = None) && negb (length ip =? 12)%nat then None else
        if (16 <? length ip + 4)%nat then None else
        fields ← parseIPv4Fields s; Some ([], ip ++ fields, ellipsis)
      else
        let ip := ip ++ [acc / 256; acc mod 256] in
        match r with
        | [] => Some ([], ip, ellipsis)
        | c :: r =>
            if negb (c =? chr ":") then None else
            match r with
            | [] => None
            | c :: r' =>
                if c =? chr ":" then
                  if bool_decide (ellipsis ≠ None) then None else
                  if bool_decide (r' = []) then Some ([], ip, Some (length ip))
                  else ipv6Loop fuel r' ip (Some (length ip))
                else ipv6Loop fuel r ip ellipsis
            end
        end
  end.

Definition expandEllipsis (ip : bytes) (ellipsis : option nat) : option bytes :=
  if (length ip <? 16)%nat then
    match ellipsis with
    | None => None
    | Some e => Some (take e ip ++ replicate (16 - length ip) 0 ++ drop e ip)
    end
  else if bool_decide (ellipsis ≠ None) then None else Some ip.

Definition parseIPv6 (s : bytes) : option Addr :=
  '(s, zone) ← match Cut (chr "%") s with
               | Some (_, []) => None
               | Some (s, zone) => Some (s, zone)
               | None => Some (s, [])
               end;
  let lead := HasPrefix s (str "::") in
  let s := if lead then drop 2 s else s in
  if lead && bool_decide (s = []) then Some (Addr6 0 (zoneOf zone)) else
  '(s, ip, ellipsis) ← ipv6Loop 8 s [] (if lead then Some 0%nat else None);
  if bool_decide (s ≠ []) then None else
  ip ← expandEllipsis ip ellipsis;
  Some (Addr6 (be_val ip) (zoneOf zone)).

(** The first separator decides the family. *)
Fixpoint addrKind (s : bytes) : option Z :=
  match s with
  | [] => None
  | c :: s => if (c =? chr ".") || (c =? chr ":") || (c =? chr "%") then Some c else addrKind s
  end.
Definition ParseAddr (s : bytes) : option Addr :=
  match addrKind s with
  | Some c => if c =? chr "." then parseIPv4 s else if c =? chr ":" then parseIPv6 s else None
  | None => None
  end.

Definition ParsePrefix (s : bytes) : option Prefix :=
  '(a, bitsStr) ← CutLast (chr "/") s;
  ip ← ParseAddr a;
  if hasZone ip then None else
  if (1 <? length bitsStr)%nat && negb (match bitsStr with c :: _ => within (chr "1") (chr "9") c | [] => false end) then None else
  bits ← Atoi bitsStr;
  if (bits <? 0) || ((if Is6 ip then 128 else 32) <? bits) then None else
  Some (PrefixFrom ip bits).

Example parse_v4 : ParseAddr (str "192.0.2.10") = Some (Addr4 0xc000020a).
Proof. reflexivity. Qed.
Example parse_v6 : ParseAddr (str "2001:db8::1:0.0.0.2%eth0") = Some (Addr6 (0x20010db8 * 2 ^ 96 + 2 ^ 32 + 2) "eth0").
Proof. reflexivity. Qed.
Example parse_bad :
  (λ s, ParseAddr (str s)) <$> ["1.2.3"; "01.2.3.4"; "1.2.3.4."; "::1::"; "1:2:3:4:5:6:7"; "1:2:3:4:5:6:7:8::"; "12345::"; "fe80::1%"; "host"]
  = replicate 9 None.
Proof. reflexivity. Qed.
Example parse_prefix : ParsePrefix (str "10.0.0.0/8") = Some (PrefixFrom (Addr4 0x0a000000) 8) ∧ ParsePrefix (str "10.0.0.0/08") = None.
Proof. split; reflexivity. Qed.
