(* ===== verification/GoUrl.v ===== *)
(** * URLs

    What the code uses of [net/url]: [Parse], [URL.Hostname], [URL.Port],
    [URL.EscapedPath] and [URL.String]. *)
From Stdlib Require Import Ascii.
From S2P Require Import Prelude NetBuf NetAddr GoStrings GoText NetipParse.

Inductive encoding := encodePath | encodeHost | encodeZone | encodeUserPassword | encodeFragment.

Definition isAlnum (c : Z) : bool := isLower c || isUpper c || isDigit c.
Definition isOneOf (set : string) (c : Z) : bool := bool_decide (c ∈ str set).
Definition quote : Z := 34.

Definition shouldEscape (mode : encoding) (c : Z) : bool :=
  if isAlnum c then false else
  match mode with
  | encodeHost | encodeZone => negb (isOneOf "!$&'()*+,;=:[]<>-_.~" c || (c =? quote))
  | encodePath => negb (isOneOf "-_.~$&+,/:;=@" c)
  | encodeUserPassword => negb (isOneOf "-_.~$&+,;=" c)
  | encodeFragment => negb (isOneOf "-_.~$&+,/:;=?@!()*" c)
  end.

(** An escape [%ab] that is not accepted in this part of a URL. *)
Definition badEscape (mode : encoding) (a b : Z) : bool :=
  let v := unhex a * 16 + unhex b in
  match mode with
  | encodeHost => (unhex a <? 8) && negb (v =? chr "%")
  | encodeZone => negb (v =? chr "%") && negb (v =? chr " ") && shouldEscape encodeHost v
  | _ => false
  end.
Definition badChar (mode : encoding) (c : Z) : bool :=
  match mode with encodeHost | encodeZone => (c <? 128) && shouldEscape mode c | _ => false end.

Fixpoint unescape (mode : encoding) (s : bytes) : option bytes :=
  match s with
  | [] => Some []
  | c :: s =>
      if c =? chr "%" then
        match s with
        | a :: b :: s =>
            if negb (isHexDigit a && isHexDigit b) || badEscape mode a b then None else
            r ← unescape mode s; Some (unhex a * 16 + unhex b :: r)
        | _ => None
        end
      else if badChar mode c then None else r ← unescape mode s; Some (c :: r)
  end.

Definition upperhex (v : Z) : Z := if v <? 10 then chr "0" + v else chr "A" + (v - 10).
Definition escapeByte (mode : encoding) (c : Z) : bytes :=
  if shouldEscape mode c then [chr "%"; upperhex (c / 16); upperhex (c mod 16)] else [c].
Definition escape (mode : encoding) (s : bytes) : bytes := s ≫= escapeByte mode.

Definition validEncoded (mode : encoding) (s : bytes) : bool :=
  forallb (λ c, isOneOf "!$&'()*+,;=:@[]%" c || negb (shouldEscape mode c)) s.

(** ** [URL] *)
Record URL := mkURL {
  Scheme : bytes; Opaque : bytes;
  User : option bytes;  (** the user information, as it is written *)
  Host : bytes; Path : bytes; RawPath : bytes; OmitHost : bool;
  ForceQuery : bool; RawQuery : bytes; Fragment : bytes; RawFragment : bytes
}.

(** [setPath], [setFragment]: the decoded form, and the raw one where it is not the default encoding. *)
Definition setRaw (mode : encoding) (s : bytes) : option (bytes * bytes) :=
  d ← unescape mode s; Some (d, if bool_decide (s = escape mode d) then [] else s).
Definition escaped (mode : encoding) (decoded raw : bytes) : bytes :=
  if negb (bool_decide (raw = [])) && validEncoded mode raw && bool_decide (unescape mode raw = Some decoded) then raw
  else escape mode decoded.
Definition EscapedPath (u : URL) : bytes :=
  if bool_decide (Path u = [chr "*"]) && negb (negb (bool_decide (RawPath u = [])) && validEncoded encodePath (RawPath u) &&
       bool_decide (unescape encodePath (RawPath u) = Some (Path u)))
  then [chr "*"] else escaped encodePath (Path u) (RawPath u).
Definition EscapedFragment (u : URL) : bytes := escaped encodeFragment (Fragment u) (RawFragment u).

(** ** Parsing *)

(** [getScheme]: the scheme and the rest; [None] for a missing scheme. *)
Fixpoint schemeLoop (s seen : bytes) : option (bytes * bytes) :=
  match s with
  | [] => Some ([], seen)
  | c :: s' =>
      if isLower c || isUpper c then schemeLoop s' (seen ++ [c])
      else if isDigit c || isOneOf "+-." c then
        if bool_decide (seen = []) then Some ([], s) else schemeLoop s' (seen ++ [c])
      else if c =? chr ":" then if bool_decide (seen = []) then None else Some (seen, s')
      else Some ([], seen ++ s)
  end.
Definition getScheme (s : bytes) : option (bytes * bytes) := schemeLoop s [].

Definition validOptionalPort (port : bytes) : bool :=
  match port with [] => true | c :: ds => (c =? chr ":") && forallb isDigit ds end.

(** What is before and after the first [%25]. *)
Fixpoint cutZone (s : bytes) : option (bytes * bytes) :=
  match s with
  | [] => None
  | c :: s' => if HasPrefix s (str "%25") then Some ([], s)
               else match cutZone s' with Some (a, b) => Some (c :: a, b) | None => None end
  end.
Definition unescapeLiteral (hostname : bytes) : option bytes :=
  match cutZone hostname with
  | Some (h, z) => h ← unescape encodeHost h; z ← unescape encodeZone z; Some (h ++ z)
  | None => unescape encodeHost hostname
  end.

Definition parseHost (host : bytes) : option bytes :=
  match CutLast (chr "[") host with
  | Some (pre, rest) =>
      if bool_decide (pre ≠ []) then None else
      '(hostname, colonPort) ← CutLast (chr "]") rest;
      if negb (validOptionalPort colonPort) then None else
      port ← unescape encodeHost colonPort;
      h ← unescapeLiteral hostname;
      addr ← ParseAddr h;
      if Is4 addr then None else Some ([chr "["] ++ h ++ [chr "]"] ++ port)
  | None =>
      match Cut (chr ":") host with
      | Some (_, port) => if forallb isDigit port then unescape encodeHost host else None
      | None => unescape encodeHost host
      end
  end.

Definition validUserinfo (s : bytes) : bool := forallb (λ c, isAlnum c || isOneOf "-._:~!$&'()*+,;=%@" c) s.
Definition userOk (userinfo : bytes) : bool :=
  validUserinfo userinfo &&
  match Cut (chr ":") userinfo with
  | Some (a, b) => bool_decide (is_Some (unescape encodeUserPassword a)) && bool_decide (is_Some (unescape encodeUserPassword b))
  | None => bool_decide (is_Some (unescape encodeUserPassword userinfo))
  end.
Definition parseAuthority (authority : bytes) : option (option bytes * bytes) :=
  match CutLast (chr "@") authority with
  | None => h ← parseHost authority; Some (None, h)
  | Some (userinfo, host) => h ← parseHost host; if userOk userinfo then Some (Some userinfo, h) else None
  end.

Definition isCTL (c : Z) : bool := (c <? 32) || (c =? 127).

(** What precedes and follows the first [?], and whether there is an empty query. *)
Definition cutQuery (rest : bytes) : bytes * bytes * bool :=
  if HasSuffix rest [chr "?"] && (CountByte (chr "?") rest =? 1)%nat
  then (take (length rest - 1) rest, [], true)
  else match Cut (chr "?") rest with Some (r, q) => (r, q, false) | None => (rest, [], false) end.

Definition pathURL (scheme : bytes) (user : option bytes) (host rest : bytes) (omit force : bool) (query : bytes) : option URL :=
  '(path, raw) ← setRaw encodePath rest;
  Some (mkURL scheme [] user host path raw omit force query [] []).

Definition parse (s : bytes) : option URL :=
  if existsb isCTL s then None else
  if bool_decide (s = [chr "*"]) then Some (mkURL [] [] None [] [chr "*"] [] false false [] [] []) else
  '(scheme, rest) ← getScheme s;
  let scheme := lowerByte <$> scheme in
  let '(rest, query, force) := cutQuery rest in
  if negb (HasPrefix rest [chr "/"]) && negb (bool_decide (scheme = [])) then
    Some (mkURL scheme rest None [] [] [] false force query [] [])
  else if negb (HasPrefix rest [chr "/"]) &&
          ContainsByte (chr ":") (match Cut (chr "/") rest with Some (a, _) => a | None => rest end) then None
  else if (negb (bool_decide (scheme = [])) || negb (HasPrefix rest (str "///"))) && HasPrefix rest (str "//") then
    let authority := drop 2 rest in
    let '(authority, rest) := match Cut (chr "/") authority with Some (a, r) => (a, chr "/" :: r) | None => (authority, []) end in
    '(user, host) ← parseAuthority authority;
    pathURL scheme user host rest false force query
  else pathURL scheme None [] rest (negb (bool_decide (scheme = [])) && HasPrefix rest [chr "/"]) force query.

Definition url_Parse (raw : bytes) : option URL :=
  let '(s, frag) := match Cut (chr "#") raw with Some (a, b) => (a, b) | None => (raw, []) end in
  u ← parse s;
  if bool_decide (frag = []) then Some u else
  '(f, rf) ← setRaw encodeFragment frag;
  Some (mkURL (Scheme u) (Opaque u) (User u) (Host u) (Path u) (RawPath u) (OmitHost u) (ForceQuery u) (RawQuery u) f rf).

(** ** [Hostname], [Port] and [String] *)
Definition splitHostPort (hostPort : bytes) : bytes * bytes :=
  let '(host, port) := match CutLast (chr ":") hostPort with
                       | Some (h, p) => if forallb isDigit p then (h, p) else (hostPort, [])
                       | None => (hostPort, [])
                       end in
  let host := if HasPrefix host [chr "["] && HasSuffix host [chr "]"] then take (length host - 2) (drop 1 host) else host in
  (host, port).
Definition Hostname (u : URL) : bytes := (splitHostPort (Host u)).1.
Definition Port (u : URL) : bytes := (splitHostPort (Host u)).2.

(** [URL.String] of a URL with a scheme, a host and no user, as the code calls it. *)
Definition url_String (u : URL) : bytes :=
  let path := EscapedPath u in
  Scheme u ++ str "://" ++ escape encodeHost (Host u) ++
  (if negb (bool_decide (path = [])) && negb (HasPrefix path [chr "/"]) then [chr "/"] else []) ++ path ++
  (if ForceQuery u || negb (bool_decide (RawQuery u = [])) then chr "?" :: RawQuery u else []) ++
  (if bool_decide (Fragment u = []) then [] else chr "#" :: EscapedFragment u).

Example parse_demo :
  let u := url_Parse (str "HTTPS://Control.Example:443/a%2Fb?x=1#f") in
  (Scheme <$> u, Host <$> u, Path <$> u, RawPath <$> u, RawQuery <$> u, Fragment <$> u, Hostname <$> u, Port <$> u)
  = (Some (str "https"), Some (str "Control.Example:443"), Some (str "/a/b"), Some (str "/a%2Fb"), Some (str "x=1"), Some (str "f"),
     Some (str "Control.Example"), Some (str "443")).
Proof. reflexivity. Qed.
Example parse_hosts :
  (λ s, Hostname <$> url_Parse (str s)) <$>
    ["http://[2001:db8::1]:80"; "http://[fe80::1%25eth0]/"; "http://[::1"; "http://[1.2.3.4]/"; "http://a:b:80/"; "http://a b/"; "http://./"]
  = [Some (str "2001:db8::1"); Some (str "fe80::1%eth0"); None; None; None; None; Some (str ".")].
Proof. reflexivity. Qed.

(** ** Laws *)
#[global] Arguments badEscape : simpl never.
#[global] Arguments badChar : simpl never.
#[global] Arguments shouldEscape : simpl never.

Lemma unescape_cut mode a c b h :
  c ≠ chr "%" → isHexDigit c = false → unescape mode (a ++ c :: b) = Some h →
  ∃ a' b', unescape mode a = Some a' ∧ unescape mode b = Some b' ∧ badChar mode c = false ∧ h = a' ++ c :: b'.
Proof.
  intros Hc Hx. revert h. induction a as [a IH] using (induction_ltof1 _ length). unfold ltof in IH. intros h Hu.
  destruct a as [|x a].
  - cbn in Hu. rewrite (proj2 (Z.eqb_neq _ _) Hc) in Hu. destruct (badChar mode c); [done|].
    destruct (unescape mode b) as [b'|]; cbn in Hu; simplify_eq. by exists [], b'.
  - cbn in Hu. destruct (Z.eqb_spec x (chr "%")) as [->|Hxp].
    + destruct a as [|y a]; cbn in Hu; [destruct b; [done|]; rewrite Hx in Hu; done|].
      destruct a as [|z a]; cbn in Hu; [rewrite Hx, andb_false_r in Hu; done|].
      destruct (negb _ || badEscape mode y z) eqn:Hbad; [done|].
      destruct (unescape mode (a ++ c :: b)) as [r|] eqn:Hr; cbn in Hu; simplify_eq.
      destruct (IH a ltac:(cbn; lia) r Hr) as (a' & b' & Ha & Hb & Hbc & ->).
      exists (unhex y * 16 + unhex z :: a'), b'. cbn. by rewrite Hbad, Ha.
    + destruct (badChar mode x) eqn:Hbx; [done|].
      destruct (unescape mode (a ++ c :: b)) as [r|] eqn:Hr; cbn in Hu; simplify_eq.
      destruct (IH a ltac:(cbn; lia) r Hr) as (a' & b' & Ha & Hb & Hbc & ->).
      exists (x :: a'), b'. cbn. by rewrite (proj2 (Z.eqb_neq _ _) Hxp), Hbx, Ha.
Qed.

Lemma unescape_id mode s :
  Forall (λ c, c ≠ chr "%" ∧ badChar mode c = false) s → unescape mode s = Some s.
Proof.
  induction 1 as [|c s [Hc Hb] _ IH]; [done|]. cbn. by rewrite (proj2 (Z.eqb_neq _ _) Hc), Hb, IH.
Qed.

Lemma digit_host c : isDigit c = true → c ≠ chr "%" ∧ badChar encodeHost c = false.
Proof.
  intros Hd. split; [intros ->; done|]. unfold badChar, shouldEscape, isAlnum. by rewrite Hd, !orb_true_r, andb_false_r.
Qed.

Lemma unescape_digits ds : forallb isDigit ds = true → unescape encodeHost ds = Some ds.
Proof.
  intros Hd. apply unescape_id, Forall_forall. intros c Hc. apply digit_host.
  rewrite forallb_forall in Hd. by apply Hd, list_elem_of_In.
Qed.

(** Decoding a host yields no new ASCII characters but the percent sign. *)
Lemma unescape_host_elem s h c : unescape encodeHost s = Some h → c ∈ h → c ∈ s ∨ 128 <= c ∨ c = chr "%".
Proof.
  revert h. induction s as [s IH] using (induction_ltof1 _ length). unfold ltof in IH. intros h Hu Hc.
  destruct s as [|x s]; cbn in Hu; [simplify_eq; set_solver|].
  destruct (Z.eqb_spec x (chr "%")) as [->|Hx].
  - destruct s as [|y [|z s]]; [done..|]. destruct (negb _ || badEscape encodeHost y z) eqn:Hbad; [done|].
    destruct (unescape encodeHost s) as [r|] eqn:Hr; cbn in Hu; simplify_eq. apply elem_of_cons in Hc as [->|Hc].
    + apply orb_false_iff in Hbad as [Hhex Hbad]. apply negb_false_iff, andb_true_iff in Hhex as [Hy Hz]. unfold badEscape in Hbad.
      destruct (Z.eqb_spec (unhex y * 16 + unhex z) (chr "%")); [tauto|]. rewrite andb_true_r in Hbad. right; left.
      assert (0 <= unhex z) by (unfold unhex, isHexDigit, isDigit, within in *; change (chr "0") with 48; change (chr "9") with 57; change (chr "a") with 97; change (chr "f") with 102; change (chr "A") with 65; change (chr "F") with 70 in *; repeat case_match; lia).
      lia.
    + destruct (IH s ltac:(cbn; lia) r Hr Hc); [|tauto]. set_solver.
  - destruct (badChar encodeHost x); [done|]. destruct (unescape encodeHost s) as [r|] eqn:Hr; cbn in Hu; simplify_eq.
    apply elem_of_cons in Hc as [->|Hc]; [set_solver|]. destruct (IH s ltac:(cbn; lia) r Hr Hc); [set_solver|tauto].
Qed.

Lemma unescape_host_absent s h c : unescape encodeHost s = Some h → (c <? 128) = true → c ≠ chr "%" → c ∉ s → c ∉ h.
Proof. intros Hu Hc Hp Hn Hin. destruct (unescape_host_elem _ _ _ Hu Hin) as [|[?|?]]; [done|lia|done]. Qed.

Lemma upperhex_inj x y : 0 <= x < 16 → 0 <= y < 16 → upperhex x = upperhex y → x = y.
Proof.
  unfold upperhex. change (chr "0") with 48. change (chr "A") with 65. intros ? ?.
  destruct (Z.ltb_spec x 10), (Z.ltb_spec y 10); lia.
Qed.

Lemma escape_inj mode s t : isASCII s = true → isASCII t = true → escape mode s = escape mode t → s = t.
Proof.
  rewrite !isASCII_elem. unfold escape. revert t. induction s as [|c s IH]; intros [|d t] Hs Ht Heq; cbn in Heq; [done| | |].
  - unfold escapeByte in Heq. by destruct (shouldEscape mode d).
  - unfold escapeByte in Heq. by destruct (shouldEscape mode c).
  - assert (0 <= c < 128 ∧ 0 <= d < 128) as [Hc Hd] by (split; [apply Hs|apply Ht]; set_solver).
    assert (∀ x, shouldEscape mode x = false → x ≠ chr "%") as Hpct by (intros x Hx ->; by destruct mode).
    enough (c = d ∧ s ≫= escapeByte mode = t ≫= escapeByte mode) as [-> Hr]
      by (f_equal; apply IH; [intros; apply Hs; set_solver|intros; apply Ht; set_solver|done]).
    unfold escapeByte in Heq at 1 3. destruct (shouldEscape mode c) eqn:Ec, (shouldEscape mode d) eqn:Ed; cbn in Heq.
    + injection Heq as H1 H2 Hr. split; [|done].
      apply upperhex_inj in H1; [|pose proof (Z.div_mod c 16); pose proof (Z.mod_pos_bound c 16); lia|pose proof (Z.div_mod d 16); pose proof (Z.mod_pos_bound d 16); lia].
      apply upperhex_inj in H2; [|apply Z.mod_pos_bound; lia..]. rewrite (Z.div_mod c 16), (Z.div_mod d 16) by lia. lia.
    + injection Heq as H1 _. by destruct (Hpct d Ed).
    + injection Heq as H1 _. by destruct (Hpct c Ec).
    + by injection Heq.
Qed.

(** ** The hosts that [Parse] accepts *)

(** A name with an optional port: an address in brackets, or a name with neither bracket nor colon. *)
Inductive hostShape : bytes → bytes → bytes → Prop :=
  | literalHost n cp : chr ":" ∈ n → validOptionalPort cp = true → hostShape n cp ([chr "["] ++ n ++ [chr "]"] ++ cp)
  | namedHost n cp : chr ":" ∉ n → chr "[" ∉ n → validOptionalPort cp = true → hostShape n cp (n ++ cp).

Lemma ParseAddr_colon s a : ParseAddr s = Some a → Is4 a = false → chr ":" ∈ s.
Proof.
  unfold ParseAddr. destruct (addrKind s) as [k|] eqn:Hk; [|done].
  assert (k ∈ s) as Hin.
  { induction s as [|c s IH]; [done|]. cbn in Hk. destruct (_ || _ || _); [simplify_eq; set_solver|]. set_solver. }
  destruct (k =? chr "."); [|destruct (Z.eqb_spec k (chr ":")) as [->|]; done].
  unfold parseIPv4. destruct (parseIPv4Fields s); cbn; [|done]. intros [= <-]. done.
Qed.

Lemma validOptionalPort_unescape cp : validOptionalPort cp = true → unescape encodeHost cp = Some cp.
Proof.
  destruct cp as [|c ds]; [done|]. cbn. rewrite andb_true_iff. intros [->%Z.eqb_eq Hd].
  change (unescape encodeHost (chr ":" :: ds)) with (r ← unescape encodeHost ds; Some (chr ":" :: r)). by rewrite unescape_digits.
Qed.

Lemma parseHost_shape host h : parseHost host = Some h → ∃ n cp, hostShape n cp h.
Proof.
  unfold parseHost. destruct (CutLast (chr "[") host) as [[pre rest]|] eqn:Hb.
  - case_bool_decide; [done|]. destruct (CutLast (chr "]") rest) as [[name cp]|] eqn:Hc; cbn; [|done].
    destruct (validOptionalPort cp) eqn:Hv; cbn; [|done]. rewrite validOptionalPort_unescape by done. cbn.
    destruct (unescapeLiteral name) as [n|]; cbn; [|done]. destruct (ParseAddr n) as [a|] eqn:Ha; cbn; [|done].
    destruct (Is4 a) eqn:H4; [done|]. intros [= <-]. exists n, cp. apply literalHost; [|done]. by eapply ParseAddr_colon.
  - apply CutLast_None in Hb. destruct (Cut (chr ":") host) as [[n p]|] eqn:Hc.
    + destruct (forallb isDigit p) eqn:Hd; [|done]. intros Hu. apply Cut_Some in Hc as [-> Hn].
      apply unescape_cut in Hu as (n' & p' & Hn' & Hp' & _ & ->); [|done..].
      rewrite unescape_digits in Hp' by done. simplify_eq. exists n', (chr ":" :: p'). apply namedHost; [| |by cbn].
      * by apply (unescape_host_absent n).
      * apply (unescape_host_absent n); [done..|set_solver].
    + intros Hu. apply Cut_None in Hc. exists h, []. rewrite <- (app_nil_r h) at 2. apply namedHost; [| |done].
      * by apply (unescape_host_absent host).
      * by apply (unescape_host_absent host).
Qed.

Lemma validOptionalPort_no cp x : validOptionalPort cp = true → isDigit x = false → x ≠ chr ":" → x ∉ cp.
Proof.
  destruct cp as [|c ds]; cbn; [set_solver|]. rewrite andb_true_iff, forallb_forall. intros [->%Z.eqb_eq Hd] Hx Hne Hin.
  apply elem_of_cons in Hin as [|Hin%list_elem_of_In]; [done|]. by rewrite (Hd _ Hin) in Hx.
Qed.

Lemma splitHostPort_shape n cp h : hostShape n cp h → splitHostPort h = (n, tail cp).
Proof.
  intros Hs. unfold splitHostPort. destruct Hs as [n cp Hn Hcp|n cp Hn Hb Hcp].
  - assert (HasPrefix ([chr "["] ++ n ++ [chr "]"]) [chr "["] && HasSuffix ([chr "["] ++ n ++ [chr "]"]) [chr "]"] = true) as Hbr.
    { apply andb_true_iff. split; [apply HasPrefix_iff; eauto|]. apply HasSuffix_iff. exists ([chr "["] ++ n). by rewrite app_assoc. }
    assert (take (length ([chr "["] ++ n ++ [chr "]"]) - 2) (drop 1 ([chr "["] ++ n ++ [chr "]"])) = n) as Htk.
    { change (drop 1 ([chr "["] ++ n ++ [chr "]"])) with (n ++ [chr "]"]). rewrite !length_app.
      change (length [chr "["]) with 1%nat. change (length [chr "]"]) with 1%nat.
      replace (1 + (length n + 1) - 2)%nat with (length n) by lia. apply take_app_length. }
    destruct cp as [|c ds]; cbn [tail].
    + rewrite app_nil_r. apply list_elem_of_split in Hn as (n1 & n2 & ->).
      destruct (CutLast (chr ":") _) as [[h p]|] eqn:Hc; [|by rewrite Hbr, Htk].
      replace (forallb isDigit p) with false; [by rewrite Hbr, Htk|]. symmetry. apply not_true_iff_false. intros Hd.
      apply CutLast_Some in Hc as [Heq Hp]. apply (f_equal (λ l, last l)) in Heq.
      cbn beta in Heq. rewrite app_assoc, last_snoc in Heq. destruct p as [|y p _] using rev_ind.
      * by rewrite last_snoc in Heq.
      * rewrite app_comm_cons, app_assoc, last_snoc in Heq. simplify_eq. rewrite forallb_app in Hd. by rewrite andb_false_r in Hd.
    + cbn in Hcp. apply andb_true_iff in Hcp as [->%Z.eqb_eq Hd].
      rewrite (proj2 (CutLast_Some (chr ":") ([chr "["] ++ n ++ [chr "]"] ++ chr ":" :: ds) ([chr "["] ++ n ++ [chr "]"]) ds)).
      * by rewrite Hd, Hbr, Htk.
      * split; [by rewrite <- !app_assoc|]. rewrite forallb_forall in Hd. intros Hin%list_elem_of_In. by apply Hd in Hin.
  - assert (HasPrefix n [chr "["] = false) as Hbr.
    { apply not_true_iff_false. intros [r ->]%HasPrefix_iff. set_solver. }
    destruct cp as [|c ds]; cbn [tail].
    + rewrite app_nil_r. rewrite (proj2 (CutLast_None _ _)) by done. by rewrite Hbr.
    + cbn in Hcp. apply andb_true_iff in Hcp as [->%Z.eqb_eq Hd].
      rewrite (proj2 (CutLast_Some (chr ":") (n ++ chr ":" :: ds) n ds)); [by rewrite Hd, Hbr|].
      split; [done|]. rewrite forallb_forall in Hd. intros Hin%list_elem_of_In. by apply Hd in Hin.
Qed.

#[local] Arguments pathURL : simpl never.

Lemma pathURL_host scheme user host rest omit force query u :
  pathURL scheme user host rest omit force query = Some u → Host u = host ∧ Scheme u = scheme.
Proof. unfold pathURL. destruct (setRaw encodePath rest) as [[]|]; cbn; [|done]. by intros [= <-]. Qed.

Lemma parse_host s u : parse s = Some u → Host u = [] ∨ ∃ host, parseHost host = Some (Host u).
Proof.
  unfold parse. destruct (existsb isCTL s); [done|]. case_bool_decide; [intros [= <-]; by left|].
  destruct (getScheme s) as [[scheme rest]|]; cbn; [|done]. destruct (cutQuery rest) as [[r q] f].
  match goal with |- (if ?b then _ else _) = _ → _ => destruct b end; [intros [= <-]; by left|].
  match goal with |- (if ?b then _ else _) = _ → _ => destruct b end; [done|].
  match goal with |- (if ?b then _ else _) = _ → _ => destruct b end.
  - destruct (Cut (chr "/") (drop 2 r)) as [[a p]|].
    all: match goal with |- context [parseAuthority ?x] => destruct (parseAuthority x) as [[user host]|] eqn:Ha end; cbn; [|done].
    all: intros [-> _]%pathURL_host; right; unfold parseAuthority in Ha; destruct (CutLast _ _) as [[ui h]|].
    all: match type of Ha with context [parseHost ?x] => destruct (parseHost x) eqn:Hp end; cbn in Ha; repeat case_match; simplify_eq; eauto.
  - intros [-> _]%pathURL_host. by left.
Qed.

Lemma url_Parse_host raw u : url_Parse raw = Some u → Host u = [] ∨ ∃ n cp, hostShape n cp (Host u).
Proof.
  unfold url_Parse. destruct (Cut (chr "#") raw) as [[s f]|].
  all: match goal with |- context [parse ?x] => destruct (parse x) as [v|] eqn:Hp end; cbn; [|done].
  all: intros Hu; assert (Host u = Host v) as ->
    by (first [congruence | case_bool_decide; [congruence|]; destruct (setRaw encodeFragment _) as [[]|]; cbn in Hu; [by simplify_eq|done]]).
  all: destruct (parse_host _ _ Hp) as [->|[host Hh]]; [by left|right; by eapply parseHost_shape].
Qed.
