(* ===== verification/ControlUrl.v ===== *)
(** * Control server URLs and the account credential

    [internal/controlurl] and [internal/accountauth]: which URLs a control
    server may have, when two of them are the same server, and the credential
    that the daemon keeps for one of them. *)
From Stdlib Require Import Ascii.
From S2P Require Import Prelude NetBuf GoState GoStrings GoText NetipParse GoUrl.

Section Url.
Context `{Unicode}.

Definition canonicalHostname (hostname : bytes) : bytes := TrimSuffix (ToLower hostname) (str ".").

Definition effectivePort (u : URL) : bytes :=
  if negb (bool_decide (Port u = [])) then
    match Atoi (Port u) with Some n => itoa n | None => Port u end
  else
    let s := ToLower (Scheme u) in
    if bool_decide (s = str "https") then str "443" else if bool_decide (s = str "http") then str "80" else [].

Definition setScheme (scheme : bytes) (u : URL) : URL :=
  mkURL scheme (Opaque u) (User u) (Host u) (Path u) (RawPath u) (OmitHost u) (ForceQuery u) (RawQuery u) (Fragment u) (RawFragment u).

Definition parseServer (raw : bytes) : res URL :=
  match url_Parse (TrimSpace raw) with
  | None => Err (Errorf "invalid ScaleTail server URL")
  | Some u =>
      if bool_decide (Scheme u = []) || bool_decide (Host u = []) ||
         bool_decide (canonicalHostname (Hostname u) = []) || bool_decide (User u ≠ None)
      then Err (Errorf "invalid ScaleTail server URL") else
      if HasSuffix (Host u) (str ":") then Err (Errorf "invalid ScaleTail server port") else
      _ ← (if bool_decide (Port u = []) then Ok tt else
           match Atoi (Port u) with
           | None => Err (Errorf "invalid ScaleTail server port")
           | Some n => fail_if ((n <? 1) || (65535 <? n)) "invalid ScaleTail server port"
           end);
      let u := setScheme (ToLower (Scheme u)) u in
      if bool_decide (Scheme u = str "http") || bool_decide (Scheme u = str "https") then Ok u
      else Err (Errorf "invalid control server URL scheme")
  end.

Definition ParseControl (raw : bytes) : res URL :=
  u ← parseServer raw;
  if negb (bool_decide (RawQuery u = [])) || ForceQuery u || negb (bool_decide (Fragment u = [])) ||
     negb (bool_decide (RawPath u = [])) || (negb (bool_decide (Path u = [])) && negb (bool_decide (Path u = str "/")))
  then Err (Errorf "invalid control server URL") else Ok u.

Definition ParseAuth (raw : bytes) : res URL :=
  u ← parseServer raw;
  if negb (bool_decide (RawQuery u = [])) || ForceQuery u || negb (bool_decide (Fragment u = []))
  then Err (Errorf "invalid authentication URL") else Ok u.

Definition SameOrigin (a b : URL) : bool :=
  EqualFold (Scheme a) (Scheme b) &&
  EqualFold (canonicalHostname (Hostname a)) (canonicalHostname (Hostname b)) &&
  bool_decide (effectivePort a = effectivePort b).

Definition schemeOnly (scheme : bytes) : URL := mkURL scheme [] None [] [] [] false false [] [] [].

Definition Origin (u : URL) : bytes :=
  let scheme := ToLower (Scheme u) in
  let hostname := canonicalHostname (Hostname u) in
  let port := if bool_decide (Port u = []) then [] else itoa (default (2 ^ 63 - 1) (Atoi (Port u))) in
  let port := if bool_decide (port = effectivePort (schemeOnly scheme)) then [] else port in
  let hostname := if negb (bool_decide (port = [])) then JoinHostPort hostname port
                  else if ContainsByte (chr ":") hostname then [chr "["] ++ hostname ++ [chr "]"] else hostname in
  scheme ++ str "://" ++ hostname.

(** ** The account credential *)
Definition setHostPath (host path raw : bytes) (u : URL) : URL :=
  mkURL (Scheme u) (Opaque u) (User u) host path raw (OmitHost u) (ForceQuery u) (RawQuery u) (Fragment u) (RawFragment u).

Definition canonicalControlURL (controlURL : bytes) : bytes :=
  match url_Parse (TrimSpace controlURL) with
  | None => []
  | Some u =>
      if bool_decide (Scheme u = []) || bool_decide (Host u = []) || bool_decide (User u ≠ None) then [] else
      let u := setScheme (ToLower (Scheme u)) u in
      let hostname := ToLower (Hostname u) in
      let port := Port u in
      let port := if (bool_decide (Scheme u = str "https") && bool_decide (port = str "443")) ||
                     (bool_decide (Scheme u = str "http") && bool_decide (port = str "80")) then [] else port in
      let host := if negb (bool_decide (port = [])) then JoinHostPort hostname port
                  else if ContainsByte (chr ":") hostname then [chr "["] ++ hostname ++ [chr "]"] else hostname in
      url_String (setHostPath host (TrimRight (chr "/") (Path u)) (TrimRight (chr "/") (RawPath u)) u)
  end.

(** [current] *)
Record Current := mkCurrent { requestID : Z; cur_controlURL : bytes; cur_username : bytes; cur_password : bytes }.
Definition noCurrent : Current := mkCurrent 0 [] [] [].

Definition BeginRequest : stM Current Z := λ c,
  let id := u64 (requestID c + 1) in
  (mkCurrent id (cur_controlURL c) (cur_username c) (cur_password c), Ok id).

Definition SetIfCurrentRequest (token : Z) (controlURL username password : bytes) : stM Current bool := λ c,
  let controlURL := canonicalControlURL controlURL in
  let username := TrimSpace username in
  if bool_decide (controlURL = []) || bool_decide (username = []) || bool_decide (password = []) then (c, Ok false) else
  if (token =? 0) || negb (token =? requestID c) then (c, Ok false) else
  (mkCurrent (u64 (requestID c + 1)) controlURL username password, Ok true).

Definition Get (controlURL : bytes) (c : Current) : option (bytes * bytes) :=
  if bool_decide (cur_controlURL c = []) || negb (bool_decide (cur_controlURL c = canonicalControlURL controlURL)) ||
     bool_decide (cur_username c = []) || bool_decide (cur_password c = []) then None
  else Some (cur_username c, cur_password c).

Definition ClearCredential : stM Current unit := λ c, (mkCurrent (u64 (requestID c + 1)) [] [] [], Ok tt).

End Url.
