(* ===== verification/ControlOrigin.v ===== *)
(** * Origins of control servers

    Two accepted URLs are of one server exactly if their origins are the same
    string, and a credential stored for one URL is given out for no other server. *)
From Stdlib Require Import Ascii.
From S2P Require Import Prelude NetBuf GoState GoStrings GoText NetipParse GoUrl ControlUrl.

(** A host with its port, as both canonical forms write it. *)
Definition joined (h p : bytes) : bytes :=
  if negb (bool_decide (p = [])) then JoinHostPort h p
  else if ContainsByte (chr ":") h then [chr "["] ++ h ++ [chr "]"] else h.

Definition plainName (h : bytes) : Prop := chr ":" ∈ h ∨ chr "[" ∉ h.

Lemma digits_absent p x : forallb isDigit p = true → isDigit x = false → x ∉ p.
Proof. rewrite forallb_forall. intros Hp Hx Hin%list_elem_of_In. by rewrite (Hp _ Hin) in Hx. Qed.

(** The name is what the last closing bracket or the first colon ends. *)
Lemma joined_colon h p :
  chr ":" ∈ h → joined h p = [chr "["] ++ h ++ chr "]" :: (if bool_decide (p = []) then [] else chr ":" :: p).
Proof.
  intros Hc. unfold joined, JoinHostPort, ContainsByte. rewrite !(bool_decide_true (chr ":" ∈ h)) by done.
  destruct (bool_decide (p = [])); cbn; by rewrite <- ?app_assoc.
Qed.

Lemma joined_name h p :
  chr ":" ∉ h → joined h p = h ++ (if bool_decide (p = []) then [] else chr ":" :: p).
Proof.
  intros Hc. unfold joined, JoinHostPort, ContainsByte. rewrite !(bool_decide_false (chr ":" ∈ h)) by done.
  case_bool_decide; cbn; [by rewrite app_nil_r|done].
Qed.

Definition portPart (p : bytes) : bytes := if bool_decide (p = []) then [] else chr ":" :: p.

Lemma portPart_inj p q : portPart p = portPart q → p = q.
Proof. unfold portPart. repeat case_bool_decide; congruence. Qed.

Lemma portPart_absent p x : forallb isDigit p = true → isDigit x = false → x ≠ chr ":" → x ∉ portPart p.
Proof.
  intros Hp Hx Hne. unfold portPart. case_bool_decide; [set_solver|]. intros [|Hin]%elem_of_cons; [done|].
  by eapply digits_absent.
Qed.

Lemma app_cons_last_inj (c : Z) a b a' b' : a ++ c :: b = a' ++ c :: b' → c ∉ b → c ∉ b' → a = a' ∧ b = b'.
Proof.
  intros Heq Hb Hb'. assert (CutLast c (a ++ c :: b) = Some (a, b)) as H1 by by apply CutLast_Some.
  assert (CutLast c (a' ++ c :: b') = Some (a', b')) as H2 by by apply CutLast_Some. rewrite Heq in H1. by simplify_eq.
Qed.

Lemma app_cons_first_inj (c : Z) a b a' b' : a ++ c :: b = a' ++ c :: b' → c ∉ a → c ∉ a' → a = a' ∧ b = b'.
Proof.
  intros Heq Hb Hb'. assert (Cut c (a ++ c :: b) = Some (a, b)) as H1 by by apply Cut_Some.
  assert (Cut c (a' ++ c :: b') = Some (a', b')) as H2 by by apply Cut_Some. rewrite Heq in H1. by simplify_eq.
Qed.

Lemma named_port_inj h p h' p' : chr ":" ∉ h → chr ":" ∉ h' → h ++ portPart p = h' ++ portPart p' → h = h' ∧ p = p'.
Proof.
  intros Hh Hh' Heq. unfold portPart in Heq.
  destruct (bool_decide_reflect (p = [])) as [->|Hp], (bool_decide_reflect (p' = [])) as [->|Hp'].
  - by rewrite !app_nil_r in Heq.
  - rewrite app_nil_r in Heq. subst. set_solver.
  - rewrite app_nil_r in Heq. subst. set_solver.
  - by apply app_cons_first_inj in Heq.
Qed.

Lemma joined_inj h p h' p' :
  plainName h → plainName h' → forallb isDigit p = true → forallb isDigit p' = true →
  h ≠ [] → h' ≠ [] → joined h p = joined h' p' → h = h' ∧ p = p'.
Proof.
  intros Hh Hh' Hp Hp' Hne Hne' Heq.
  destruct (decide (chr ":" ∈ h)) as [Hc|Hc], (decide (chr ":" ∈ h')) as [Hc'|Hc'].
  - rewrite !joined_colon in Heq by done. cbn in Heq. injection Heq as Heq.
    apply app_cons_last_inj in Heq as [-> Hpp]; [|by apply portPart_absent..]. split; [done|]. by apply portPart_inj.
  - rewrite joined_colon, joined_name in Heq by done. destruct Hh' as [|Hb]; [done|].
    destruct h'; [done|]. cbn in Heq. simplify_eq. set_solver.
  - rewrite joined_name, joined_colon in Heq by done. destruct Hh as [|Hb]; [done|].
    destruct h; [done|]. cbn in Heq. simplify_eq. set_solver.
  - rewrite !joined_name in Heq by done. by apply named_port_inj.
Qed.

Section Origins.
Context `{Unicode}.

(** What [parseServer] guarantees of the URLs it returns: name, port and scheme. *)
Record validated (u : URL) (n p : bytes) : Prop := {
  v_scheme : Scheme u = str "http" ∨ Scheme u = str "https";
  v_name : Hostname u = n;
  v_port : Port u = p;
  v_digits : forallb isDigit p = true;
  v_range : p ≠ [] → ∃ k, Atoi p = Some k ∧ 1 <= k <= 65535;
  v_plain : plainName n;
  v_nonempty : canonicalHostname n ≠ [];
  v_within : ∀ c, c ∈ n → c ∈ Host u
}.

Lemma hostShape_plain n cp h : hostShape n cp h → plainName n ∧ forallb isDigit (tail cp) = true ∧ (∀ c, c ∈ n → c ∈ h).
Proof.
  intros [n' cp' Hc Hcp|n' cp' Hc Hb Hcp].
  - split; [by left|]. split; [|set_solver]. destruct cp'; [done|]. by apply andb_true_iff in Hcp as [_ ?].
  - split; [by right|]. split; [|set_solver]. destruct cp'; [done|]. by apply andb_true_iff in Hcp as [_ ?].
Qed.

Lemma parseServer_validated raw u : parseServer raw = Ok u → ∃ n p, validated u n p.
Proof.
  unfold parseServer. destruct (url_Parse (TrimSpace raw)) as [v|] eqn:Hp; [|done].
  destruct (_ || _ || _ || _) eqn:Hbad; [done|]. destruct (HasSuffix _ _); [done|]. intros Hu.
  apply bind_Ok in Hu as ([] & Hport & Hu).
  apply orb_false_iff in Hbad as [[[Hs Hh]%orb_false_iff Hc]%orb_false_iff Husr].
  apply bool_decide_eq_false in Hh, Hc.
  destruct (url_Parse_host _ _ Hp) as [|(n & cp & Hshape)]; [done|].
  destruct (hostShape_plain _ _ _ Hshape) as (Hpl & Hd & Hin). pose proof (splitHostPort_shape _ _ _ Hshape) as Hsplit.
  exists n, (tail cp). assert (Hostname v = n ∧ Port v = tail cp) as [Hn Hpt] by (unfold Hostname, Port; by rewrite Hsplit).
  rewrite Hn in Hc. rewrite Hpt in Hport.
  destruct (_ || _) eqn:Hsch in Hu; [|done]. injection Hu as <-. split; try done.
  - apply orb_true_iff in Hsch as [?%bool_decide_eq_true|?%bool_decide_eq_true]; tauto.
  - intros Hne. rewrite bool_decide_false in Hport by done. destruct (Atoi (tail cp)) as [k|]; [|done].
    exists k. split; [done|]. apply fail_if_Ok in Hport. lia.
Qed.

Lemma ToLower_ASCII s : isASCII s = true → ToLower s = lowerByte <$> s.
Proof. unfold ToLower. by intros ->. Qed.

Lemma validated_ASCII u n p : validated u n p → isASCII (Host u) = true → isASCII n = true.
Proof. intros [_ _ _ _ _ _ _ Hin]. rewrite !isASCII_elem. eauto. Qed.

(** Lower-casing and dropping a final dot keep brackets and colons. *)
Lemma canonicalHostname_plain n : isASCII n = true → plainName n → plainName (canonicalHostname n).
Proof.
  intros Ha [Hc|Hb]; unfold canonicalHostname; rewrite ToLower_ASCII by done; [left|right].
  - apply elem_of_TrimSuffix'; [by rewrite elem_of_lower|]. by apply (bool_decide_unpack (chr ":" ∉ str ".")).
  - intros Hin%elem_of_TrimSuffix. by rewrite elem_of_lower in Hin.
Qed.

Lemma canonicalHostname_ASCII n : isASCII n = true → isASCII (canonicalHostname n) = true.
Proof. intros Ha. unfold canonicalHostname. rewrite ToLower_ASCII by done. by apply TrimSuffix_isASCII, lower_isASCII. Qed.

Lemma canonicalHostname_lower n : isASCII n = true → lowerByte <$> canonicalHostname n = canonicalHostname n.
Proof.
  intros Ha. unfold canonicalHostname. rewrite ToLower_ASCII by done.
  assert (∀ l : bytes, Forall (λ c, lowerByte c = c) l → lowerByte <$> l = l) as Hid
    by (induction 1 as [|? ? Hx _ IH]; [done|]; cbn; by rewrite Hx, IH).
  apply Hid, Forall_forall. intros c Hc%elem_of_TrimSuffix. apply list_elem_of_fmap in Hc as (x & -> & _). apply lowerByte_idem.
Qed.

(** ** Origins in terms of name and port *)
Definition defaultPort (scheme : bytes) : bytes := if bool_decide (scheme = str "https") then str "443" else str "80".
Definition portText (p : bytes) : bytes := if bool_decide (p = []) then [] else itoa (default (2 ^ 63 - 1) (Atoi p)).
Definition shownPort (scheme p : bytes) : bytes :=
  if bool_decide (portText p = defaultPort scheme) then [] else portText p.

Lemma lower_scheme s : s = str "http" ∨ s = str "https" → ToLower s = s.
Proof. by intros [-> | ->]. Qed.

Lemma defaultPort_eq s : s = str "http" ∨ s = str "https" → effectivePort (schemeOnly s) = defaultPort s.
Proof. by intros [-> | ->]. Qed.

Lemma Origin_eq u n p :
  validated u n p → Origin u = Scheme u ++ str "://" ++ joined (canonicalHostname n) (shownPort (Scheme u) p).
Proof.
  intros Hv. unfold Origin. rewrite (lower_scheme _ (v_scheme _ _ _ Hv)), (defaultPort_eq _ (v_scheme _ _ _ Hv)).
  rewrite (v_name _ _ _ Hv), (v_port _ _ _ Hv). reflexivity.
Qed.

Lemma effectivePort_eq u n p :
  validated u n p → effectivePort u = if bool_decide (p = []) then defaultPort (Scheme u) else portText p.
Proof.
  intros Hv. unfold effectivePort, portText. rewrite (v_port _ _ _ Hv). case_bool_decide as Hp; cbn [negb].
  - destruct (v_scheme _ _ _ Hv) as [-> | ->]; reflexivity.
  - destruct (v_range _ _ _ Hv Hp) as (k & -> & _). done.
Qed.

Lemma portText_nonempty u n p : validated u n p → p ≠ [] → portText p ≠ [].
Proof.
  intros Hv Hp. unfold portText. rewrite bool_decide_false by done. destruct (v_range _ _ _ Hv Hp) as (k & -> & Hk). apply itoa_digits. cbn. lia.
Qed.

Lemma shownPort_effective u n p :
  validated u n p → (if bool_decide (shownPort (Scheme u) p = []) then defaultPort (Scheme u) else shownPort (Scheme u) p) = effectivePort u.
Proof.
  intros Hv. rewrite (effectivePort_eq u n p Hv). unfold shownPort.
  destruct (bool_decide_reflect (portText p = defaultPort (Scheme u))) as [Heq|Hne].
  - rewrite bool_decide_true by done. destruct (bool_decide_reflect (p = [])); done.
  - destruct (bool_decide_reflect (p = [])) as [->|Hp]; [done|]. rewrite bool_decide_false by by eapply portText_nonempty. done.
Qed.

Lemma shownPort_digits u n p : validated u n p → forallb isDigit (shownPort (Scheme u) p) = true.
Proof.
  intros Hv. unfold shownPort. case_bool_decide; [done|]. unfold portText. case_bool_decide as Hp; [done|].
  destruct (v_range _ _ _ Hv Hp) as (k & -> & Hk). apply itoa_digits. cbn. lia.
Qed.

Lemma scheme_inj s s' r r' :
  s = str "http" ∨ s = str "https" → s' = str "http" ∨ s' = str "https" →
  s ++ str "://" ++ r = s' ++ str "://" ++ r' → s = s' ∧ r = r'.
Proof. intros [-> | ->] [-> | ->] Heq; cbn in Heq; by simplify_eq. Qed.

(** C28. Two URLs that the daemon accepts, with ASCII hosts, have the same origin as strings exactly if
    [SameOrigin] says so: scheme and name compared without regard to case, a final dot of the name and a
    default port ignored, and ports compared as numbers. *)
Theorem origins_are_canonical ra rb a b :
  parseServer ra = Ok a → parseServer rb = Ok b → isASCII (Host a) = true → isASCII (Host b) = true →
  SameOrigin a b = true ↔ Origin a = Origin b.
Proof.
  intros (n & p & Ha)%parseServer_validated (n' & p' & Hb)%parseServer_validated Haa Hab.
  pose proof (validated_ASCII _ _ _ Ha Haa) as Hna. pose proof (validated_ASCII _ _ _ Hb Hab) as Hnb.
  rewrite (Origin_eq a n p Ha), (Origin_eq b n' p' Hb). unfold SameOrigin.
  rewrite (v_name _ _ _ Ha), (v_name _ _ _ Hb). unfold EqualFold.
  rewrite !canonicalHostname_ASCII, !canonicalHostname_lower by done.
  rewrite !andb_true_iff, bool_decide_eq_true. cbn [andb].
  assert ((if isASCII (Scheme a) && isASCII (Scheme b) then bool_decide (lowerByte <$> Scheme a = lowerByte <$> Scheme b)
           else foldRunes (Scheme a) (Scheme b)) = bool_decide (Scheme a = Scheme b)) as ->.
  { destruct (v_scheme _ _ _ Ha) as [-> | ->], (v_scheme _ _ _ Hb) as [-> | ->]; reflexivity. }
  rewrite !bool_decide_eq_true. split.
  - intros [[Hs Hn] Hp]. rewrite Hs, Hn. do 2 f_equal.
    assert (shownPort (Scheme a) p = shownPort (Scheme b) p'); [|by rewrite <- Hs at 1; congruence].
    rewrite <- (shownPort_effective a n p Ha), <- (shownPort_effective b n' p' Hb), Hs in Hp.
    rewrite Hs. unfold shownPort in *.
    repeat match goal with |- context [bool_decide ?P] => destruct (bool_decide_reflect P) end; cbn in Hp; try done.
    all: repeat match type of Hp with context [bool_decide ?P] => destruct (bool_decide_reflect P) in Hp end; congruence.
  - intros Heq. destruct (scheme_inj _ _ _ _ (v_scheme _ _ _ Ha) (v_scheme _ _ _ Hb) Heq) as [Hs Hj].
    apply joined_inj in Hj as [Hn Hp]; try by (apply canonicalHostname_plain; [done|apply Ha || apply Hb]).
    + split; [done|]. rewrite <- (shownPort_effective a n p Ha), <- (shownPort_effective b n' p' Hb). by rewrite Hp, Hs.
    + by eapply shownPort_digits.
    + by eapply shownPort_digits.
    + apply Ha.
    + apply Hb.
Qed.

End Origins.

(** ** Witness: case, a final dot and the default port make no difference *)
Definition asciiHosts : Unicode := {| lowerRunes := λ s, filter (λ c, isUpper c = false) s; foldRunes := λ s t, bool_decide (s = t) |}.

Lemma origins_are_canonical_witness :
  match @parseServer asciiHosts (str "HTTPS://Control.Example.:443/"), @parseServer asciiHosts (str "https://control.example") with
  | Ok a, Ok b => @Origin asciiHosts a = @Origin asciiHosts b
  | _, _ => False
  end.
Proof.
  destruct (@parseServer asciiHosts (str "HTTPS://Control.Example.:443/")) as [a| | |] eqn:Ha; [|discriminate Ha..].
  destruct (@parseServer asciiHosts (str "https://control.example")) as [b| | |] eqn:Hb; [|discriminate Hb..].
  apply (proj1 (@origins_are_canonical asciiHosts (str "HTTPS://Control.Example.:443/") (str "https://control.example") a b Ha Hb
    ltac:(vm_compute in Ha; injection Ha as <-; reflexivity) ltac:(vm_compute in Hb; injection Hb as <-; reflexivity))).
  vm_compute in Ha. vm_compute in Hb. injection Ha as <-. injection Hb as <-. vm_compute. reflexivity.
Defined.
