(* ===== verification/AccountAuth.v ===== *)
(** * The account credential

    Theorems about [internal/accountauth]: the request started last decides,
    whatever the order of the responses, and a credential is given out only for
    the server it was stored for. *)
From Stdlib Require Import Ascii.
From S2P Require Import Prelude NetBuf GoState GoStrings GoText NetipParse GoUrl ControlUrl ControlOrigin.

Section Account.
Context `{Unicode}.

(** ** The canonical URL of a control server *)
Definition rawPort (scheme p : bytes) : bytes :=
  if (bool_decide (scheme = str "https") && bool_decide (p = str "443")) ||
     (bool_decide (scheme = str "http") && bool_decide (p = str "80")) then [] else p.

Lemma ParseControl_inv raw u :
  ParseControl raw = Ok u →
  ∃ v, url_Parse (TrimSpace raw) = Some v ∧ u = setScheme (ToLower (Scheme v)) v ∧ Scheme v ≠ [] ∧ Host v ≠ [] ∧ User v = None ∧
       RawQuery v = [] ∧ ForceQuery v = false ∧ Fragment v = [] ∧ RawPath v = [] ∧ (Path v = [] ∨ Path v = str "/").
Proof.
  unfold ParseControl, parseServer. intros (w & Hs & Hc)%bind_Ok. destruct (url_Parse (TrimSpace raw)) as [v|]; [|done].
  destruct (_ || _ || _ || _) eqn:Hbad in Hs; [done|]. destruct (HasSuffix _ _); [done|]. apply bind_Ok in Hs as (_ & _ & Hs).
  destruct (_ || _) eqn:? in Hs; [|done]. injection Hs as <-.
  destruct (_ || _ || _ || _ || _) eqn:Hq in Hc; [done|]. injection Hc as <-. exists v. cbn in Hq.
  rewrite !orb_false_iff, !negb_false_iff in Hq. destruct Hq as [[[[Hq Hf] Hfr] Hr] Hp].
  rewrite !orb_false_iff in Hbad. destruct Hbad as [[[Hb1 Hb2] Hb3] Hb4].
  apply bool_decide_eq_true in Hq, Hfr, Hr. apply bool_decide_eq_false in Hb1, Hb2, Hb4.
  split_and!; try done; [by apply dec_stable|]. destruct (bool_decide_reflect (Path v = [])) as [|Hne]; [by left|right].
  cbn in Hp. by apply negb_false_iff, bool_decide_eq_true in Hp.
Qed.

Lemma canonicalControlURL_eq raw u n p :
  ParseControl raw = Ok u → validated u n p →
  canonicalControlURL raw = Scheme u ++ str "://" ++ escape encodeHost (joined (ToLower n) (rawPort (Scheme u) p)).
Proof.
  intros (v & Hp & -> & Hs & Hh & Hu & Hq & Hf & Hfr & Hr & Hpath)%ParseControl_inv Hv. unfold canonicalControlURL. rewrite Hp.
  rewrite (bool_decide_false (Scheme v = [])), (bool_decide_false (Host v = [])), (bool_decide_false (User v ≠ None))
    by (rewrite ?Hu; tauto). cbn [orb].
  change (Hostname (setScheme (ToLower (Scheme v)) v)) with (Hostname v) in *.
  change (Port (setScheme (ToLower (Scheme v)) v)) with (Port v) in *.
  pose proof (v_name _ _ _ Hv) as Hn. pose proof (v_port _ _ _ Hv) as Hpt.
  change (Hostname (setScheme (ToLower (Scheme v)) v)) with (Hostname v) in Hn.
  change (Port (setScheme (ToLower (Scheme v)) v)) with (Port v) in Hpt. rewrite Hn, Hpt.
  change (Scheme (setScheme (ToLower (Scheme v)) v)) with (ToLower (Scheme v)).
  fold (rawPort (ToLower (Scheme v)) p). fold (joined (ToLower n) (rawPort (ToLower (Scheme v)) p)).
  change (Path (setScheme (ToLower (Scheme v)) v)) with (Path v). change (RawPath (setScheme (ToLower (Scheme v)) v)) with (RawPath v).
  assert (TrimRight (chr "/") (Path v) = []) as -> by (by destruct Hpath as [-> | ->]). rewrite Hr. change (TrimRight (chr "/") []) with (@nil Z).
  unfold url_String, EscapedPath, escaped. cbn [setHostPath setScheme Scheme Host Path RawPath RawQuery ForceQuery Fragment].
  rewrite Hq, Hf, Hfr. cbn. by rewrite app_nil_r.
Qed.

Lemma rawPort_effective u n p :
  validated u n p →
  effectivePort u = if bool_decide (rawPort (Scheme u) p = []) then defaultPort (Scheme u) else portText (rawPort (Scheme u) p).
Proof.
  intros Hv. rewrite (effectivePort_eq u n p Hv). unfold rawPort.
  destruct (decide (p = str "443")) as [->|H1]; [by destruct (v_scheme _ _ _ Hv) as [-> | ->]|].
  destruct (decide (p = str "80")) as [->|H2]; [by destruct (v_scheme _ _ _ Hv) as [-> | ->]|].
  rewrite (bool_decide_false (p = str "443")), (bool_decide_false (p = str "80")), !andb_false_r by done. done.
Qed.

Lemma lower_plain n : isASCII n = true → plainName n → plainName (ToLower n) ∧ (n ≠ [] → ToLower n ≠ []) ∧ isASCII (ToLower n) = true.
Proof.
  intros Ha Hp. rewrite ToLower_ASCII by done. split_and!; [|by destruct n|by apply lower_isASCII].
  destruct Hp as [Hc|Hb]; [left|right]; by rewrite elem_of_lower.
Qed.

Lemma rawPort_digits scheme p : forallb isDigit p = true → forallb isDigit (rawPort scheme p) = true.
Proof. unfold rawPort. by destruct (_ || _). Qed.

Lemma joined_ASCII h p : isASCII h = true → forallb isDigit p = true → isASCII (joined h p) = true.
Proof.
  intros Hh Hp. assert (isASCII p = true) as Hpa.
  { rewrite isASCII_elem. rewrite forallb_forall in Hp. intros c Hc%list_elem_of_In. specialize (Hp c Hc).
    unfold isDigit, within in Hp. change (chr "0") with 48 in Hp. change (chr "9") with 57 in Hp. lia. }
  unfold joined, JoinHostPort. repeat destruct (bool_decide _); destruct (ContainsByte _ _); cbn [negb]; rewrite ?isASCII_app, ?Hh, ?Hpa; done.
Qed.

Lemma canonical_same_origin ra rb a b :
  ParseControl ra = Ok a → ParseControl rb = Ok b → isASCII (Host a) = true → isASCII (Host b) = true →
  canonicalControlURL ra = canonicalControlURL rb → SameOrigin a b = true.
Proof.
  intros Ha Hb Haa Hab Heq.
  pose proof Ha as (wa & (na & pa & Hva)%parseServer_validated & Hwa)%bind_Ok. pose proof Hb as (wb & (nb & pb & Hvb)%parseServer_validated & Hwb)%bind_Ok.
  destruct (_ || _) in Hwa; [done|]. destruct (_ || _) in Hwb; [done|]. injection Hwa as <-. injection Hwb as <-.
  rewrite (canonicalControlURL_eq ra wa na pa Ha Hva), (canonicalControlURL_eq rb wb nb pb Hb Hvb) in Heq.
  pose proof (validated_ASCII _ _ _ Hva Haa) as Hna. pose proof (validated_ASCII _ _ _ Hvb Hab) as Hnb.
  destruct (lower_plain na Hna (v_plain _ _ _ Hva)) as (Hpl & Hne & Hla). destruct (lower_plain nb Hnb (v_plain _ _ _ Hvb)) as (Hpl' & Hne' & Hlb).
  assert (∀ n, canonicalHostname n ≠ [] → isASCII n = true → n ≠ []) as Hnon by (intros n Hc _ ->; by apply Hc).
  apply scheme_inj in Heq as [Hs Hj]; [|apply Hva|apply Hvb].
  apply escape_inj in Hj; [|apply joined_ASCII; [done|apply rawPort_digits, Hva]|apply joined_ASCII; [done|apply rawPort_digits, Hvb]].
  apply joined_inj in Hj as [Hn Hp]; [|done|done|apply rawPort_digits, Hva|apply rawPort_digits, Hvb
    |apply Hne, Hnon; [apply Hva|done]|apply Hne', Hnon; [apply Hvb|done]].
  unfold SameOrigin. rewrite (v_name _ _ _ Hva), (v_name _ _ _ Hvb), (rawPort_effective _ _ _ Hva), (rawPort_effective _ _ _ Hvb), Hp, Hs.
  unfold canonicalHostname at 1 2. rewrite Hn. rewrite bool_decide_true by done.
  assert (∀ s, isASCII s = true → EqualFold s s = true) as Hrefl by (intros s Hsa; unfold EqualFold; rewrite Hsa; by apply bool_decide_eq_true).
  rewrite !Hrefl; [done|by apply TrimSuffix_isASCII|]. by destruct (v_scheme _ _ _ Hvb) as [-> | ->].
Qed.

(** C25. A credential that was stored for one control server is given out only for URLs of the same origin: same
    scheme, same host and same port; and it is the one that was stored.  Both URLs parse and their hosts are ASCII. *)
Theorem credential_stays_with_server token ra rb a b username password c c' cred :
  ParseControl ra = Ok a → ParseControl rb = Ok b → isASCII (Host a) = true → isASCII (Host b) = true →
  SetIfCurrentRequest token ra username password c = (c', Ok true) → Get rb c' = Some cred →
  SameOrigin a b = true ∧ cred = (TrimSpace username, password).
Proof.
  intros Ha Hb Haa Hab Hset Hget. unfold SetIfCurrentRequest in Hset. destruct (_ || _ || _); [done|]. destruct (_ || _); [done|].
  injection Hset as <-. unfold Get in Hget. cbn in Hget. destruct (_ || _) eqn:Hbad in Hget; [done|]. injection Hget as <-.
  rewrite !orb_false_iff, negb_false_iff, bool_decide_eq_true in Hbad. destruct Hbad as [[[_ Heq] _] _].
  split; [|done]. by eapply canonical_same_origin.
Qed.

(** ** The request started last decides *)

(** Calls of the daemon: [ASet i] is the response to the [i]th request that was started. *)
Inductive authCall :=
  | ABegin | ASet (i : nat) (controlURL username password : bytes) | AClear | AGet (controlURL : bytes).
Inductive authAnswer := ADone | AStored (b : bool) | ACred (o : option (bytes * bytes)).

(** The package's state with the tokens given out. *)
Definition authState : Type := Current * list Z.
Definition runCall (st : authState) (o : authCall) : authState * authAnswer :=
  let '(c, tokens) := st in
  match o with
  | ABegin => let '(c, r) := BeginRequest c in ((c, match r with Ok t => tokens ++ [t] | _ => tokens end), ADone)
  | ASet i url user pw =>
      let '(c, r) := SetIfCurrentRequest (default 0 (tokens !! i)) url user pw c in
      ((c, tokens), AStored (match r with Ok b => b | _ => false end))
  | AClear => ((ClearCredential c).1, tokens, ADone)
  | AGet url => (c, tokens, ACred (Get url c))
  end.

(** The specification: at most one request is open, the one started last, until it is answered or cleared. *)
Record account := mkAccount { ac_started : nat; ac_open : option nat; ac_cred : option (bytes * bytes * bytes) }.
Definition storable (url user pw : bytes) : bool :=
  negb (bool_decide (canonicalControlURL url = []) || bool_decide (TrimSpace user = []) || bool_decide (pw = [])).
Definition specCall (a : account) (o : authCall) : account * authAnswer :=
  match o with
  | ABegin => (mkAccount (S (ac_started a)) (Some (ac_started a)) (ac_cred a), ADone)
  | ASet i url user pw =>
      if storable url user pw && bool_decide (ac_open a = Some i)
      then (mkAccount (ac_started a) None (Some (canonicalControlURL url, TrimSpace user, pw)), AStored true)
      else (a, AStored false)
  | AClear => (mkAccount (ac_started a) None None, ADone)
  | AGet url =>
      (a, ACred (match ac_cred a with
                 | Some (u, user, pw) => if bool_decide (u = canonicalControlURL url) then Some (user, pw) else None
                 | None => None
                 end))
  end.

Fixpoint answers {S} (step : S → authCall → S * authAnswer) (s : S) (os : list authCall) : list authAnswer :=
  match os with [] => [] | o :: os => let '(s, r) := step s o in r :: answers step s os end.

(** Tokens are distinct numbers up to the counter, and the open request is the one whose token it is. *)
Record authInv (k : Z) (st : authState) (a : account) : Prop := {
  ai_id : 0 <= requestID st.1 <= k;
  ai_len : length st.2 = ac_started a;
  ai_tok : ∀ i t, st.2 !! i = Some t → 1 <= t <= requestID st.1;
  ai_open : ∀ i t, st.2 !! i = Some t → t = requestID st.1 ↔ ac_open a = Some i;
  ai_started : ∀ i, ac_open a = Some i → (i < length st.2)%nat;
  ai_cred : match ac_cred a with
            | None => cur_controlURL st.1 = []
            | Some (u, user, pw) => cur_controlURL st.1 = u ∧ cur_username st.1 = user ∧ cur_password st.1 = pw ∧ u ≠ [] ∧ user ≠ [] ∧ pw ≠ []
            end
}.

(** Moving the counter on closes the open request. *)
Lemma authInv_close k st a u user pw cred :
  authInv k st a → k < 2 ^ 64 - 1 →
  match cred with
  | None => u = []
  | Some (u', user', pw') => u = u' ∧ user = user' ∧ pw = pw' ∧ u' ≠ [] ∧ user' ≠ [] ∧ pw' ≠ []
  end →
  authInv (k + 1) (mkCurrent (u64 (requestID st.1 + 1)) u user pw, st.2) (mkAccount (ac_started a) None cred).
Proof.
  intros [Hid Hlen Htok Hop Hst Hcr] Hk Hcred. rewrite u64_small by lia. split; cbn; [lia|done| | |done|done].
  - intros i t Ht. specialize (Htok i t Ht). lia.
  - intros i t Ht. specialize (Htok i t Ht). split; [lia|done].
Qed.

Lemma runCall_spec k st a o :
  authInv k st a → k < 2 ^ 64 - 1 → authInv (k + 1) (runCall st o).1 (specCall a o).1 ∧ (runCall st o).2 = (specCall a o).2.
Proof.
  intros Hi Hk. pose proof Hi as [Hid Hlen Htok Hop Hst Hcr].
  assert (authInv (k + 1) st a) as Hi1 by (split; try done; lia). destruct st as [c tokens]; cbn in *.
  destruct o as [|i url user pw| |url]; cbn.
  - split; [|done]. rewrite u64_small by lia. split; cbn; [lia|rewrite length_app; cbn; lia| | | |done].
    + intros i t [Ht|[-> <-]]%lookup_snoc_Some; [|lia]. specialize (Htok i t ltac:(naive_solver)). lia.
    + intros i t [[Hlt Ht]|[-> <-]]%lookup_snoc_Some; [|split; [intros _; congruence|done]]. specialize (Htok i t Ht). split; [lia|]. intros [= Heq]. lia.
    + intros i [= <-]. rewrite length_app. cbn. lia.
  - unfold SetIfCurrentRequest, storable. destruct (_ || _ || _) eqn:Hbad; cbn [negb andb]; [done|].
    rewrite !orb_false_iff, !bool_decide_eq_false in Hbad. destruct Hbad as [[Hu Hus] Hpw].
    destruct (tokens !! i) as [t|] eqn:Ht; cbn [from_option id].
    + pose proof (Htok i t Ht). pose proof (Hop i t Ht) as Hiff. replace (t =? 0) with false by lia. cbn [orb].
      destruct (Z.eqb_spec t (requestID c)) as [He|He]; cbn [negb].
      * rewrite (bool_decide_true (ac_open a = Some i)) by by apply Hiff. cbn. split; [|done].
        by apply (authInv_close k (c, tokens) a _ _ _ (Some (canonicalControlURL url, TrimSpace user, pw))).
      * rewrite (bool_decide_false (ac_open a = Some i)) by (by rewrite <- Hiff). done.
    + rewrite (bool_decide_false (ac_open a = Some i)); [done|]. intros Hopen. specialize (Hst i Hopen). apply lookup_ge_None in Ht. lia.
  - split; [|done]. by apply (authInv_close k (c, tokens) a [] [] [] None).
  - split; [done|]. f_equal. unfold Get. destruct (ac_cred a) as [[[u user] pw]|].
    + destruct Hcr as (-> & -> & -> & Hu & Hus & Hpw). rewrite (bool_decide_false (u = [])), (bool_decide_false (user = [])), (bool_decide_false (pw = [])) by done.
      destruct (bool_decide _); done.
    + by rewrite Hcr.
Qed.

(** C26. Whatever the order of requests, responses and resets, the package behaves as one that remembers only the
    request started last: a response is stored exactly if its request is still the last one started and was
    neither answered nor cleared since, and [Get] returns what was stored last, for that server only. *)
Theorem account_latest_request_wins os :
  Z.of_nat (length os) < 2 ^ 64 →
  answers runCall (noCurrent, []) os = answers specCall (mkAccount 0 None None) os.
Proof.
  assert (∀ k st a, authInv k st a → k + Z.of_nat (length os) < 2 ^ 64 → answers runCall st os = answers specCall a os) as Hgen.
  { induction os as [|o os IH]; intros k st a Hi Hk; [done|]. cbn [answers length] in *.
    destruct (runCall_spec k st a o Hi) as [Hi' Hr]; [lia|].
    destruct (runCall st o) as [st' r], (specCall a o) as [a' r']; cbn in Hi', Hr. f_equal; [done|]. apply (IH (k + 1)); [done|lia]. }
  intros Hlen. apply (Hgen 0); [|lia]. by split.
Qed.

End Account.

(** ** Witnesses *)

(** ASCII text needs no case tables. *)
#[local] Instance asciiOnly : Unicode := {| lowerRunes := λ s, filter (λ c, isUpper c = false) s; foldRunes := λ s t, bool_decide (s = t) |}.

Lemma credential_stays_with_server_witness :
  ∃ a b, SameOrigin a b = true ∧
    Get (str "HTTPS://CONTROL.EXAMPLE:443/")
      (SetIfCurrentRequest 1 (str "https://control.example") (str " alice ") (str "pw") (mkCurrent 1 [] [] [])).1 = Some (str "alice", str "pw").
Proof.
  destruct (ParseControl (str "https://control.example")) as [a| | |] eqn:Ha; [|discriminate Ha..].
  destruct (ParseControl (str "HTTPS://CONTROL.EXAMPLE:443/")) as [b| | |] eqn:Hb; [|discriminate Hb..].
  exists a, b. split; [|reflexivity].
  destruct (credential_stays_with_server 1 (str "https://control.example") (str "HTTPS://CONTROL.EXAMPLE:443/") a b (str " alice ") (str "pw")
    (mkCurrent 1 [] [] []) (mkCurrent 2 (str "https://control.example") (str "alice") (str "pw")) (str "alice", str "pw") Ha Hb) as [H _];
    [vm_compute in Ha; injection Ha as <-; reflexivity|vm_compute in Hb; injection Hb as <-; reflexivity|reflexivity|reflexivity|exact H].
Defined.

Lemma account_latest_request_wins_witness :
  let os := [ABegin; ABegin; ASet 0 (str "http://a") (str "u") (str "old"); ASet 1 (str "http://a") (str "u") (str "new");
             AGet (str "http://a/"); AGet (str "http://b"); AClear; ASet 1 (str "http://a") (str "u") (str "late"); AGet (str "http://a")] in
  answers runCall (noCurrent, []) os =
    [ADone; ADone; AStored false; AStored true; ACred (Some (str "u", str "new")); ACred None; ADone; AStored false; ACred None].
Proof. intros os. rewrite account_latest_request_wins by reflexivity. reflexivity. Defined.
