(* ===== verification/GoRegexp.v ===== *)
(** * Regular expressions

    The patterns that the code compiles with [regexp], and [MatchString] on
    anchored ones, by derivatives. *)
From Stdlib Require Import Ascii.
From S2P Require Import Prelude NetBuf GoStrings GoText.

Inductive regexp :=
  | RNone | REmpty
  | RChar (class : Z → bool)
  | RSeq (r1 r2 : regexp)
  | RAlt (r1 r2 : regexp)
  | RStar (r : regexp).

Definition RLit (s : string) : regexp := foldr (λ c r, RSeq (RChar (Z.eqb c)) r) REmpty (str s).
Definition ROpt (r : regexp) : regexp := RAlt REmpty r.
Definition RPlus (r : regexp) : regexp := RSeq r (RStar r).

Fixpoint nullable (r : regexp) : bool :=
  match r with
  | RNone | RChar _ => false
  | REmpty | RStar _ => true
  | RSeq r1 r2 => nullable r1 && nullable r2
  | RAlt r1 r2 => nullable r1 || nullable r2
  end.

(** Sequence and alternative with the impossible cases removed, so that derivatives stay small. *)
Definition seq' (r1 r2 : regexp) : regexp :=
  match r1 with RNone => RNone | REmpty => r2 | _ => RSeq r1 r2 end.
Definition alt' (r1 r2 : regexp) : regexp :=
  match r1, r2 with RNone, r => r | r, RNone => r | _, _ => RAlt r1 r2 end.

Fixpoint derive (c : Z) (r : regexp) : regexp :=
  match r with
  | RNone | REmpty => RNone
  | RChar p => if p c then REmpty else RNone
  | RSeq r1 r2 => if nullable r1 then alt' (seq' (derive c r1) r2) (derive c r2) else seq' (derive c r1) r2
  | RAlt r1 r2 => alt' (derive c r1) (derive c r2)
  | RStar r => seq' (derive c r) (RStar r)
  end.

(** [MatchString] of a pattern that is anchored at both ends. *)
Fixpoint MatchString (r : regexp) (s : bytes) : bool :=
  match s with [] => nullable r | c :: s => MatchString (derive c r) s end.

(** ** The language of an expression *)
Inductive lang : regexp → bytes → Prop :=
  | lang_empty : lang REmpty []
  | lang_char p c : p c = true → lang (RChar p) [c]
  | lang_seq r1 r2 s1 s2 : lang r1 s1 → lang r2 s2 → lang (RSeq r1 r2) (s1 ++ s2)
  | lang_alt_l r1 r2 s : lang r1 s → lang (RAlt r1 r2) s
  | lang_alt_r r1 r2 s : lang r2 s → lang (RAlt r1 r2) s
  | lang_star_nil r : lang (RStar r) []
  | lang_star_cons r s1 s2 : lang r s1 → lang (RStar r) s2 → lang (RStar r) (s1 ++ s2).
#[export] Hint Constructors lang : scaletail.

Lemma nullable_lang r : nullable r = true ↔ lang r [].
Proof.
  split.
  - induction r; cbn; try done; eauto with scaletail.
    + rewrite andb_true_iff. intros [? ?]. change (lang (RSeq r1 r2) ([] ++ [])). eauto with scaletail.
    + rewrite orb_true_iff. intros [?|?]; eauto with scaletail.
  - intros Hl. remember (@nil Z) as s eqn:Hs. induction Hl; cbn; try done.
    + apply app_nil in Hs as [-> ->]. by rewrite IHHl1, IHHl2.
    + by rewrite IHHl.
    + by rewrite IHHl, orb_true_r.
Qed.

Lemma lang_seq' r1 r2 s : lang (seq' r1 r2) s ↔ lang (RSeq r1 r2) s.
Proof.
  destruct r1; cbn; try done; split; intros Hl.
  - inversion Hl.
  - inversion Hl as [| |? ? ? ? H1 H2| | | |]. inversion H1.
  - change s with ([] ++ s). eauto with scaletail.
  - inversion Hl as [| |? ? ? ? H1 H2| | | |]. by inversion H1; subst.
Qed.

Lemma lang_alt r1 r2 s : lang (RAlt r1 r2) s ↔ lang r1 s ∨ lang r2 s.
Proof. split; [by inversion 1; auto|]. intros []; eauto with scaletail. Qed.

Lemma lang_RNone s : ¬ lang RNone s.
Proof. by inversion 1. Qed.

Lemma lang_alt' r1 r2 s : lang (alt' r1 r2) s ↔ lang (RAlt r1 r2) s.
Proof. rewrite lang_alt. pose proof (lang_RNone s). destruct r1, r2; cbn; rewrite ?lang_alt; tauto. Qed.

Lemma lang_RSeq r1 r2 s : lang (RSeq r1 r2) s ↔ ∃ s1 s2, s = s1 ++ s2 ∧ lang r1 s1 ∧ lang r2 s2.
Proof. split; [inversion 1; subst; eauto|]. intros (s1 & s2 & -> & ? & ?). eauto with scaletail. Qed.

Lemma derive_lang c r s : lang (derive c r) s ↔ lang r (c :: s).
Proof.
  revert s. induction r as [| |p|r1 IH1 r2 IH2|r1 IH1 r2 IH2|r IH]; intros s; cbn.
  - split; by inversion 1.
  - split; by inversion 1.
  - destruct (p c) eqn:Hp; split; inversion 1; subst; eauto with scaletail; congruence.
  - rewrite lang_RSeq. transitivity ((∃ s1 s2, s = s1 ++ s2 ∧ lang r1 (c :: s1) ∧ lang r2 s2) ∨ (nullable r1 = true ∧ lang r2 (c :: s))).
    + destruct (nullable r1); rewrite ?lang_alt', ?lang_alt, lang_seq', lang_RSeq; setoid_rewrite IH1; rewrite ?IH2; naive_solver.
    + split.
      * intros [(s1 & s2 & -> & ? & ?)|[?%nullable_lang ?]]; [exists (c :: s1), s2|exists [], (c :: s)]; done.
      * intros ([|d s1] & s2 & Heq & ? & ?); cbn in Heq; simplify_eq; [right; by rewrite nullable_lang|left; eauto].
  - by rewrite lang_alt', !lang_alt, IH1, IH2.
  - rewrite lang_seq', lang_RSeq. setoid_rewrite IH. split.
    + intros (s1 & s2 & -> & ? & ?). rewrite app_comm_cons. eauto with scaletail.
    + intros Hl. remember (RStar r) as rr eqn:Hr. remember (c :: s) as t eqn:Ht. induction Hl; simplify_eq.
      destruct s1 as [|d s1]; cbn in Ht; simplify_eq; eauto.
Qed.

Theorem MatchString_lang r s : MatchString r s = true ↔ lang r s.
Proof.
  revert r. induction s as [|c s IH]; intros r; cbn; [apply nullable_lang|]. by rewrite IH, derive_lang.
Qed.

(** Every character of a matching string is in one of the classes of the expression. *)
Fixpoint classes (P : Z → Prop) (r : regexp) : Prop :=
  match r with
  | RNone | REmpty => True
  | RChar p => ∀ c, p c = true → P c
  | RSeq r1 r2 | RAlt r1 r2 => classes P r1 ∧ classes P r2
  | RStar r => classes P r
  end.
Lemma lang_classes P r s : lang r s → classes P r → Forall P s.
Proof. induction 1; cbn; intros Hc; [done|auto|apply Forall_app; naive_solver|naive_solver|naive_solver|done|apply Forall_app; naive_solver]. Qed.
