(* ===== verification/Ota.v ===== *)
(** * Signed update policies

    [clientupdate/scaletailota/manifest.go]: the policy that a publisher signs,
    its canonical form, and the checks before it is trusted. *)
From Stdlib Require Import Ascii.
From S2P Require Import Prelude NetBuf NetAddr GoState GoStrings GoText GoRegexp NetipParse GoUrl.

(** Code outside the repository: [golang.org/x/mod/semver], [ed25519.Verify], and the platform. *)
Class OtaEnv := {
  semver_IsValid : bytes → bool;
  semver_Compare : bytes → bytes → Z;
  ed25519_Verify : bytes → bytes → bytes → bool;
  runtime_GOOS : bytes;
  runtime_GOARCH : bytes
}.
Definition ed25519_SignatureSize : Z := 64.
Definition ed25519_PublicKeySize : Z := 32.

Definition PublicKeyBase64 : bytes := str "vLGmMjFWFdcyPurQt1EZ1cDZgY4FcroH4aRMfDpEP2o=".
Definition signatureV3Prefix : bytes := str "v3.".
Definition maxPolicyRevision : Z := 2 ^ 53 - 1.
Definition maxPolicyArtifactSize : Z := 2 ^ 30.

Definition ActionSuggested : bytes := str "suggested".
Definition ActionForced : bytes := str "forced".
Definition ActionClear : bytes := str "clear".

Record Policy := mkPolicy {
  Revision : Z; Action : bytes; Version : bytes; Platform : bytes;
  SHA256 : bytes; FileSize : Z; DownloadURL : bytes; Signature : bytes
}.
#[global] Instance Policy_eq_dec : EqDecision Policy.
Proof. solve_decision. Defined.
Definition noPolicy : Policy := mkPolicy 0 [] [] [] [] 0 [] [].

(** ** The pattern of versions *)
Definition numericId : regexp := RAlt (RLit "0") (RSeq (RChar (within (chr "1") (chr "9"))) (RStar (RChar isDigit))).
Definition idChar (c : Z) : bool := isDigit c || isUpper c || isLower c || (c =? chr "-").
Definition dotIds : regexp := RSeq (RPlus (RChar idChar)) (RStar (RSeq (RLit ".") (RPlus (RChar idChar)))).
Definition versionCore : regexp :=
  RSeq numericId (RSeq (RLit ".") (RSeq numericId (RSeq (RLit ".") (RSeq numericId
    (RSeq (ROpt (RSeq (RLit "-") dotIds)) (ROpt (RSeq (RLit "+") dotIds))))))).
Definition semanticVersionPattern : regexp :=
  RSeq (ROpt (RChar (λ c, (c =? chr "v") || (c =? chr "V")))) versionCore.

Section Ota.
Context `{Unicode, OtaEnv}.

Definition canonicalVersion (value : bytes) : option bytes :=
  let value := TrimSpace value in
  if negb (MatchString semanticVersionPattern value) then None else
  let value := str "v" ++ TrimPrefix (TrimPrefix value (str "v")) (str "V") in
  if semver_IsValid value then Some value else None.

Definition validPlatform (platform : bytes) : bool :=
  if bool_decide (platform = []) || (64 <? zlen platform) then false
  else forallb (λ r, isLower r || isDigit r || (r =? chr "-")) platform.

(** ** Download URLs *)
Definition numericLabel (label : bytes) : bool :=
  if bool_decide (label = []) then false else
  if HasPrefix label (str "0x") then
    negb (zlen label =? 2) && forallb (λ r, isDigit r || within (chr "a") (chr "f") r) (drop 2 label)
  else forallb isDigit label.
Definition numericHostLiteral (host : bytes) : bool := forallb numericLabel (Split_ (chr ".") host).

Definition hostChar (r : Z) : bool := isLower r || isDigit r || (r =? chr ".") || (r =? chr "-").
Definition validLabel (label : bytes) : bool :=
  negb (bool_decide (label = []) || (63 <? zlen label) || HasPrefix label (str "-") || HasSuffix label (str "-")).
Definition validOTAHost (host : bytes) : bool :=
  if bool_decide (host = []) || HasSuffix host (str ".") || bool_decide (host = str "localhost") || HasSuffix host (str ".localhost")
  then false else
  if bool_decide (is_Some (ParseAddr host)) || numericHostLiteral host then false else
  forallb hostChar host && forallb validLabel (Split_ (chr ".") host).

Definition unreserved (c : Z) : bool := isLower c || isUpper c || isDigit c || isOneOf "-._~" c.

Fixpoint normalizeURLComponent (value : bytes) : res bytes :=
  match value with
  | [] => Ok []
  | c :: value =>
      if (c <? 0x21) || (0x7e <? c) || (c =? 92) then Err (Errorf "invalid OTA download URL component") else
      if negb (c =? chr "%") then r ← normalizeURLComponent value; Ok (c :: r) else
      match value with
      | a :: b :: value =>
          match ParseHexByte a b with
          | None => Err (Errorf "invalid OTA download URL escape")
          | Some d =>
              r ← normalizeURLComponent value;
              Ok (if unreserved d then d :: r else chr "%" :: upperByte a :: upperByte b :: r)
          end
      | _ => Err (Errorf "invalid OTA download URL escape")
      end
  end.

Definition NormalizeDownloadURL (raw : bytes) : res bytes :=
  let raw := TrimSpace raw in
  if bool_decide (raw = []) || (2048 <? zlen raw) then Err (Errorf "invalid OTA download URL") else
  match url_Parse raw with
  | None => Err (Errorf "invalid OTA download URL")
  | Some u =>
      if bool_decide (Scheme u = []) || bool_decide (Host u = []) || negb (bool_decide (Opaque u = [])) ||
         bool_decide (User u ≠ None) || negb (bool_decide (Fragment u = [])) || ForceQuery u
      then Err (Errorf "invalid OTA download URL") else
      if negb (EqualFold (Scheme u) (str "https")) then Err (Errorf "OTA download URL must use HTTPS") else
      let host := ToLower (Hostname u) in
      if negb (validOTAHost host) then Err (Errorf "OTA download URL host is not allowed") else
      port ← (if bool_decide (Port u = []) then Ok [] else
              match Atoi (Port u) with
              | None => Err (Errorf "invalid OTA download URL port")
              | Some n => if (n <? 1) || (65535 <? n) then Err (Errorf "invalid OTA download URL port")
                          else Ok (if n =? 443 then [] else itoa n)
              end);
      path ← normalizeURLComponent (EscapedPath u);
      let path := if bool_decide (path = []) then str "/" else path in
      query ← normalizeURLComponent (RawQuery u);
      Ok (str "https://" ++ host ++ (if bool_decide (port = []) then [] else chr ":" :: port) ++ path ++
          (if bool_decide (query = []) then [] else chr "?" :: query))
  end.

(** ** Policies *)
Definition clean (p : Policy) : Policy :=
  mkPolicy (Revision p) (ToLower (TrimSpace (Action p))) (TrimSpace (Version p)) (ToLower (TrimSpace (Platform p)))
    (ToLower (TrimSpace (SHA256 p))) (FileSize p) (TrimSpace (DownloadURL p)) (TrimSpace (Signature p)).
Definition setVersion (v : bytes) (p : Policy) : Policy :=
  mkPolicy (Revision p) (Action p) v (Platform p) (SHA256 p) (FileSize p) (DownloadURL p) (Signature p).
Definition setURL (u : bytes) (p : Policy) : Policy :=
  mkPolicy (Revision p) (Action p) (Version p) (Platform p) (SHA256 p) (FileSize p) u (Signature p).

Definition Canonicalize (policy : Policy) : res Policy :=
  let p := clean policy in
  if (Revision p =? 0) || (maxPolicyRevision <? Revision p) then Err (Errorf "invalid OTA policy revision") else
  if negb (bool_decide (Action p = ActionSuggested)) && negb (bool_decide (Action p = ActionForced)) && negb (bool_decide (Action p = ActionClear))
  then Err (Errorf "invalid OTA policy action") else
  match canonicalVersion (Version p) with
  | None => Err (Errorf "invalid OTA policy version")
  | Some version =>
      let p := setVersion (TrimPrefix version (str "v")) p in
      if negb (validPlatform (Platform p)) then Err (Errorf "invalid OTA policy platform") else
      if bool_decide (Action p = ActionClear) then
        if negb (bool_decide (SHA256 p = [])) || negb (FileSize p =? 0) || negb (bool_decide (DownloadURL p = []))
        then Err (Errorf "clear OTA policy must not include installer metadata") else Ok p
      else
        if negb (zlen (SHA256 p) =? 64) then Err (Errorf "invalid OTA policy SHA-256") else
        if negb (hexOk (SHA256 p)) then Err (Errorf "invalid OTA policy SHA-256") else
        if (FileSize p <=? 0) || (maxPolicyArtifactSize <? FileSize p) then Err (Errorf "invalid OTA policy file size") else
        downloadURL ← NormalizeDownloadURL (DownloadURL p);
        Ok (setURL downloadURL p)
  end.

Definition nl : bytes := [10].
Definition messageOf (p : Policy) : bytes :=
  str "scaletail-update-v3" ++ nl ++ itoa (Revision p) ++ nl ++ Action p ++ nl ++ Version p ++ nl ++ Platform p ++ nl ++
  SHA256 p ++ nl ++ itoa (FileSize p) ++ nl ++ DownloadURL p ++ nl.
Definition Message (policy : Policy) : res bytes := p ← Canonicalize policy; Ok (messageOf p).

Definition EncodeSignature (signature : bytes) : res bytes :=
  if negb (zlen signature =? ed25519_SignatureSize) then Err (Errorf "invalid OTA signature length")
  else Ok (signatureV3Prefix ++ EncodeToString signature).

Definition parseSignature (value : bytes) : res bytes :=
  let value := TrimSpace value in
  if negb (HasPrefix value signatureV3Prefix) || negb (CountByte (chr ".") value =? 1)%nat
  then Err (Errorf "OTA signature must use v3 envelope") else
  match DecodeString (TrimPrefix value signatureV3Prefix) with
  | Some signature => if negb (zlen signature =? ed25519_SignatureSize) then Err (Errorf "invalid OTA signature encoding") else Ok signature
  | None => Err (Errorf "invalid OTA signature encoding")
  end.

Definition Verify (policy : Policy) : res Policy :=
  canonical ← Canonicalize policy;
  match DecodeString PublicKeyBase64 with
  | Some publicKey =>
      if negb (zlen publicKey =? ed25519_PublicKeySize) then Err (Errorf "invalid embedded OTA public key") else
      signature ← parseSignature (Signature canonical);
      message ← Message canonical;
      if negb (ed25519_Verify publicKey message signature) then Err (Errorf "OTA signature verification failed") else Ok canonical
  | None => Err (Errorf "invalid embedded OTA public key")
  end.

Definition IsNewerVersion (candidate current : bytes) : bool :=
  match canonicalVersion candidate, canonicalVersion current with
  | Some a, Some b => 0 <? semver_Compare a b
  | _, _ => false
  end.
Definition VersionAtLeast (current required : bytes) : bool :=
  match canonicalVersion current, canonicalVersion required with
  | Some a, Some b => 0 <=? semver_Compare a b
  | _, _ => false
  end.
Definition CurrentPlatform : bytes := runtime_GOOS ++ str "-" ++ runtime_GOARCH.

End Ota.

(** Checked on concrete policies. *)
Definition trustAll : OtaEnv := {|
  semver_IsValid := λ _, true; semver_Compare := λ _ _, 1; ed25519_Verify := λ _ _ _, true;
  runtime_GOOS := str "windows"; runtime_GOARCH := str "amd64" |}.
Definition asciiText : Unicode := {| lowerRunes := λ s, filter (λ c, isUpper c = false) s; foldRunes := λ s t, bool_decide (s = t) |}.

Example normalize_demo :
  NormalizeDownloadURL (H := asciiText) (str " HTTPS://Downloads.Example.com:443/a%2fb/%7Ec?x=%41#") =
  Ok (str "https://downloads.example.com/a%2Fb/~c?x=A").
Proof. vm_compute. reflexivity. Qed.
Example normalize_rejects :
  (λ s, is_ok (NormalizeDownloadURL (H := asciiText) (str s))) <$>
  ["http://a.com/"; "https://127.0.0.1/"; "https://0x7f.1/"; "https://localhost/"; "https://a.com/?"; "https://u@a.com/"; "https://a_b.com/"; "https://-a.com/"; "https://a.com/%zz"]
  = replicate 9 false.
Proof. vm_compute. reflexivity. Qed.
Example versions :
  (λ s, MatchString semanticVersionPattern (str s)) <$> ["1.2.3"; "v1.2.3-rc.1+build"; "V10.0.0"; "01.2.3"; "1.2"; "vV1.2.3"; "1.2.3-"]
  = [true; true; true; false; false; false; false].
Proof. reflexivity. Qed.
