(* ===== verification/UrlBuild.v ===== *)
(** * Building and parsing URLs

    [Parse] takes apart what is put together from a scheme, a plain host, a
    port, an encoded path and a query; and what its results look like. *)
From Stdlib Require Import Ascii.
From S2P Require Import Prelude NetBuf GoStrings GoText NetipParse GoUrl ControlOrigin.

(** ** Properties of characters, by evaluation *)
Lemma byte_forall (f : Z → bool) : forallb f (seqZ 0 256) = true → ∀ c, 0 <= c < 256 → f c = true.
Proof. rewrite forallb_forall. intros Hf c Hc. apply Hf, list_elem_of_In, elem_of_seqZ. lia. Qed.

Lemma byte_imp (P Q : Z → bool) :
  forallb (λ c, implb (P c) (Q c)) (seqZ 0 256) = true → ∀ c, 0 <= c < 256 → P c = true → Q c = true.
Proof. intros Hf c Hc HP. pose proof (byte_forall _ Hf c Hc) as Hi. cbn in Hi. by rewrite HP in Hi. Qed.

Lemma within_byte lo hi c : 0 <= lo → hi < 256 → within lo hi c = true → 0 <= c < 256.
Proof. unfold within. lia. Qed.

Lemma isOneOf_byte set c : isOneOf set c = true → 0 <= c < 256.
Proof.
  unfold isOneOf. rewrite bool_decide_eq_true. unfold str. rewrite list_elem_of_In, in_map_iff. intros (a & <- & _).
  pose proof (N_ascii_bounded a). lia.
Qed.

Lemma isAlnum_byte c : isAlnum c = true → 0 <= c < 256.
Proof. unfold isAlnum. rewrite !orb_true_iff. intros [[?|?]|?]; by eapply within_byte; [| |done]. Qed.

Lemma isHexDigit_byte c : isHexDigit c = true → 0 <= c < 256.
Proof. unfold isHexDigit. rewrite !orb_true_iff. intros [[?|?]|?]; by eapply within_byte; [| |done]. Qed.

Lemma isDigit_byte c : isDigit c = true → 0 <= c < 256.
Proof. intros Hc. by eapply within_byte; [| |done]. Qed.

(** ** The characters of plain hosts and of encoded paths *)
Definition plainHost (c : Z) : bool := isAlnum c || isOneOf "-._~!$&'()*+,;=" c.
Definition pathChar (c : Z) : bool := isOneOf "!$&'()*+,;=:@[]%" c || negb (shouldEscape encodePath c).

Lemma plainHost_byte c : plainHost c = true → 0 <= c < 256.
Proof. unfold plainHost. rewrite orb_true_iff. intros [?|?]; [by apply isAlnum_byte|by eapply isOneOf_byte]. Qed.

Lemma pathChar_byte c : pathChar c = true → 0 <= c < 256.
Proof.
  unfold pathChar, shouldEscape. rewrite orb_true_iff, negb_true_iff. intros [?|Hs]; [by eapply isOneOf_byte|].
  destruct (isAlnum c) eqn:Ha; [by apply isAlnum_byte|]. apply negb_false_iff in Hs. by eapply isOneOf_byte.
Qed.

Definition noneOf (set : string) (c : Z) : bool := negb (isOneOf set c) && negb (isCTL c).

Lemma plainHost_ok c : plainHost c = true → noneOf "[]:/?#@% " c = true ∧ badChar encodeHost c = false.
Proof.
  intros Hc. pose proof (plainHost_byte c Hc) as Hb. split; [|apply negb_true_iff]; revert c Hb Hc.
  - apply (byte_imp plainHost (noneOf "[]:/?#@% ")). vm_compute. reflexivity.
  - apply (byte_imp plainHost (λ c, negb (badChar encodeHost c))). vm_compute. reflexivity.
Qed.

Lemma pathChar_ok c : pathChar c = true → noneOf "?# " c = true.
Proof. intros Hc. pose proof (pathChar_byte c Hc) as Hb. revert c Hb Hc. apply byte_imp. vm_compute. reflexivity. Qed.

Lemma digit_ok c : isDigit c = true → plainHost c = true.
Proof. intros Hc. unfold plainHost, isAlnum. by rewrite Hc, !orb_true_r. Qed.

Lemma noneOf_elem set c x : noneOf set c = true → x ∈ str set → c ≠ x.
Proof. unfold noneOf, isOneOf. rewrite andb_true_iff, negb_true_iff, bool_decide_eq_false. intros [Hn _] Hx ->. done. Qed.

Lemma forallb_absent (f : Z → bool) (l : bytes) x : forallb f l = true → f x = false → x ∉ l.
Proof. rewrite forallb_forall. intros Hf Hx Hin%list_elem_of_In. by rewrite (Hf _ Hin) in Hx. Qed.

Lemma cutQuery_some f q : chr "?" ∉ f → q ≠ [] → cutQuery (f ++ chr "?" :: q) = (f, q, false).
Proof.
  intros Hf Hq. unfold cutQuery. rewrite (proj2 (Cut_Some (chr "?") (f ++ chr "?" :: q) f q)) by done.
  replace (HasSuffix _ _ && _) with false; [done|]. symmetry. apply not_true_iff_false.
  intros [[r Heq]%HasSuffix_iff Hct%Nat.eqb_eq]%andb_true_iff.
  unfold CountByte in Hct. rewrite filter_app, filter_cons_True, length_app in Hct by done. cbn [length] in Hct.
  assert (filter (λ x, x = chr "?") q = []) as Hnil by (apply nil_length_inv; lia).
  destruct q as [|y q _] using rev_ind; [done|]. rewrite app_comm_cons, app_assoc in Heq.
  apply app_inj_tail in Heq as [_ ->]. rewrite filter_app, filter_cons_True in Hnil by done. by apply app_nil in Hnil as [_ ?].
Qed.

(** ** Parsing what was put together *)
Section Build.
Context (host port path query : bytes) (d : bytes).
Hypothesis Hhost : host ≠ [] ∧ forallb plainHost host = true.
Hypothesis Hport : forallb isDigit port = true.
Hypothesis Hpath : path = [] ∨ ∃ r, path = chr "/" :: r.
Hypothesis Hchars : forallb pathChar path = true.
Hypothesis Hdec : unescape encodePath path = Some d.
Hypothesis Hquery : forallb (noneOf "#") query = true.

Definition queryPart : bytes := if bool_decide (query = []) then [] else chr "?" :: query.
Definition authorityPart : bytes := host ++ portPart port.

Lemma authority_chars : forallb (λ c, plainHost c || (c =? chr ":")) authorityPart = true.
Proof using All.
  unfold authorityPart, portPart. rewrite forallb_app. apply andb_true_iff. split.
  - rewrite forallb_forall. destruct Hhost as [_ Hh]. rewrite forallb_forall in Hh. intros c Hc. by rewrite (Hh c Hc).
  - pose proof Hport as Hp. case_bool_decide; [done|]. cbn. rewrite forallb_forall in Hp. apply forallb_forall. intros c Hc. by rewrite (digit_ok c (Hp c Hc)).
Qed.

Lemma authority_absent x : plainHost x = false → x ≠ chr ":" → x ∉ authorityPart.
Proof using All.
  intros Hx Hne. eapply forallb_absent; [exact authority_chars|]. cbn. rewrite Hx. by apply Z.eqb_neq in Hne.
Qed.

Lemma parseHost_plain : parseHost authorityPart = Some authorityPart.
Proof using All.
  unfold parseHost. rewrite (proj2 (CutLast_None _ _)) by (by apply authority_absent).
  assert (unescape encodeHost authorityPart = Some authorityPart) as Hu.
  { apply unescape_id, Forall_forall. intros c Hc. pose proof authority_chars as Ha. rewrite forallb_forall in Ha.
    specialize (Ha c (proj1 (list_elem_of_In _ _) Hc)). apply orb_true_iff in Ha as [Ha| ->%Z.eqb_eq]; [|done].
    apply plainHost_ok in Ha as [Hn ?]. split; [|done]. eapply noneOf_elem; [done|]. by apply (bool_decide_unpack (chr "%" ∈ str _)). }
  destruct (Cut (chr ":") authorityPart) as [[a b]|] eqn:Hc; [|done].
  replace (forallb isDigit b) with true; [done|]. symmetry. apply Cut_Some in Hc as [Heq Ha].
  unfold authorityPart, portPart in Heq. destruct Hhost as [_ Hh]. case_bool_decide as Hp.
  - rewrite app_nil_r in Heq. exfalso. apply (forallb_absent plainHost host (chr ":")); [done|done|]. rewrite Heq. set_solver.
  - apply app_cons_first_inj in Heq as [_ <-]; [done| |done]. by apply (forallb_absent plainHost host).
Qed.

Lemma path_absent x : pathChar x = false → x ∉ path.
Proof using All. by apply forallb_absent. Qed.

Lemma front_absent x : plainHost x = false → x ≠ chr ":" → x ≠ chr "/" → pathChar x = false → x ∉ str "//" ++ authorityPart ++ path.
Proof using All.
  intros H1 H2 H3 H4. rewrite !elem_of_app. intros [Hin|[Hin|Hin]].
  - change (str "//") with [chr "/"; chr "/"] in Hin. set_solver.
  - by eapply authority_absent.
  - by eapply path_absent.
Qed.

Lemma cutQuery_built : cutQuery (str "//" ++ authorityPart ++ path ++ queryPart) = (str "//" ++ authorityPart ++ path, query, false).
Proof using All.
  assert (chr "?" ∉ str "//" ++ authorityPart ++ path) as Hno by by apply front_absent.
  unfold cutQuery, queryPart. destruct (bool_decide_reflect (query = [])) as [Hq|Hq].
  - rewrite app_nil_r.
    replace (HasSuffix _ _) with false; [rewrite (proj2 (Cut_None _ _) Hno); by rewrite Hq|].
    symmetry. apply not_true_iff_false. intros [r Heq]%HasSuffix_iff. rewrite Heq in Hno. set_solver.
  - rewrite !app_assoc. rewrite !app_assoc in Hno. by apply cutQuery_some.
Qed.

Lemma noneOf_hash l : forallb (noneOf "#") l = true → (chr "#" ∉ l) ∧ (existsb isCTL l = false).
Proof using.
  rewrite forallb_forall. intros Hl. split.
  - intros Hin%list_elem_of_In. by specialize (Hl _ Hin).
  - apply not_true_iff_false. rewrite existsb_exists. intros (c & Hin & Hc). specialize (Hl c Hin). unfold noneOf in Hl. by rewrite Hc, andb_false_r in Hl.
Qed.

Lemma front_clean : forallb (noneOf "#") (authorityPart ++ path ++ queryPart) = true.
Proof using All.
  rewrite !forallb_app, !andb_true_iff. split_and!.
  - pose proof authority_chars as Ha. rewrite forallb_forall in Ha. apply forallb_forall. intros c Hc. specialize (Ha c Hc).
    assert (0 <= c < 256) as Hb by (apply orb_true_iff in Ha as [Ha| ->%Z.eqb_eq]; [by apply plainHost_byte|done]).
    revert c Hb Hc Ha. intros c Hb _. revert c Hb. apply (byte_imp (λ c, plainHost c || (c =? chr ":")) (noneOf "#")). vm_compute. reflexivity.
  - pose proof Hchars as Hp. rewrite forallb_forall in Hp. apply forallb_forall. intros c Hc. specialize (Hp c Hc). pose proof (pathChar_byte c Hp) as Hb.
    clear Hc. revert c Hb Hp. apply (byte_imp pathChar (noneOf "#")). vm_compute. reflexivity.
  - unfold queryPart. case_bool_decide; [done|]. cbn. done.
Qed.

Definition builtURL (scheme : bytes) : URL :=
  mkURL scheme [] None authorityPart d (if bool_decide (path = escape encodePath d) then [] else path) false false query [] [].

Lemma url_Parse_built scheme :
  scheme = str "http" ∨ scheme = str "https" →
  url_Parse (scheme ++ str "://" ++ authorityPart ++ path ++ queryPart) = Some (builtURL scheme).
Proof using All.
  intros Hs. pose proof front_clean as Hc. destruct (noneOf_hash _ Hc) as [Hhash Hctl].
  assert (chr "#" ∉ scheme ++ str "://" ++ authorityPart ++ path ++ queryPart) as Hh.
  { rewrite !elem_of_app in *. intros [Hin|[Hin|Hin]]; [| |tauto]; [destruct Hs as [-> | ->]|]; by apply (bool_decide_unpack (chr "#" ∉ str _)) in Hin. }
  unfold url_Parse. rewrite (proj2 (Cut_None _ _) Hh).
  assert (parse (scheme ++ str "://" ++ authorityPart ++ path ++ queryPart) = Some (builtURL scheme)) as ->; [|done].
  unfold parse. rewrite (existsb_app isCTL scheme), (existsb_app isCTL (str "://")), Hctl.
  assert (getScheme (scheme ++ str "://" ++ authorityPart ++ path ++ queryPart) = Some (scheme, str "//" ++ authorityPart ++ path ++ queryPart)) as Hg
    by (by destruct Hs as [-> | ->]).
  rewrite Hg. cbn [mbind option_bind]. rewrite cutQuery_built.
  assert ((existsb isCTL scheme) = false ∧ lowerByte <$> scheme = scheme ∧ scheme ≠ []) as (-> & -> & Hne) by (by destruct Hs as [-> | ->]).
  rewrite (bool_decide_false (scheme = [])) by done.
  change (existsb isCTL (str "://")) with false. cbn [orb].
  rewrite bool_decide_false by (destruct Hs as [-> | ->]; discriminate).
  change (HasPrefix (str "//" ++ authorityPart ++ path) [chr "/"]) with true.
  change (HasPrefix (str "//" ++ authorityPart ++ path) (str "//")) with true. cbn [negb orb andb].
  change (drop 2 (str "//" ++ authorityPart ++ path)) with (authorityPart ++ path).
  assert (parseAuthority authorityPart = Some (None, authorityPart)) as Hpa.
  { unfold parseAuthority. rewrite (proj2 (CutLast_None _ _)) by by apply authority_absent. by rewrite parseHost_plain. }
  assert (match Cut (chr "/") (authorityPart ++ path) with Some (a, r) => (a, chr "/" :: r) | None => (authorityPart ++ path, []) end
          = (authorityPart, path)) as ->.
  { assert (chr "/" ∉ authorityPart) as Hsl by by apply authority_absent. clear -Hpath Hsl. destruct Hpath as [->|[r ->]].
    - by rewrite app_nil_r, (proj2 (Cut_None _ _)).
    - by rewrite (proj2 (Cut_Some _ _ authorityPart r)). }
  rewrite Hpa. cbn [mbind option_bind]. unfold pathURL, setRaw. by rewrite Hdec.
Qed.

Lemma EscapedPath_built scheme : EscapedPath (builtURL scheme) = path.
Proof using All.
  unfold EscapedPath, escaped. cbn [builtURL Path RawPath].
  assert (d ≠ [chr "*"]) as Hstar.
  { intros ->. destruct Hpath as [->|[r ->]]; [done|]. cbn in Hdec. change (badChar encodePath (chr "/")) with false in Hdec.
    destruct (unescape encodePath r); cbn in Hdec; [|done]. discriminate. }
  rewrite (bool_decide_false (d = [chr "*"])) by done. cbn [andb].
  destruct (bool_decide_reflect (path = escape encodePath d)) as [->|Hne].
  - done.
  - destruct (bool_decide_reflect (path = [])) as [Hnil|Hp].
    { rewrite Hnil in Hdec, Hne. injection Hdec as <-. by destruct Hne. }
    cbn [negb andb].
    change (validEncoded encodePath path) with (forallb pathChar path). rewrite Hchars, Hdec. cbn. by rewrite bool_decide_true.
Qed.

Lemma split_built scheme : Hostname (builtURL scheme) = host ∧ Port (builtURL scheme) = port.
Proof using All.
  unfold Hostname, Port. cbn [builtURL Host]. destruct Hhost as [Hne Hh].
  assert (hostShape host (portPart port) authorityPart) as Hs.
  { apply namedHost; [by apply (forallb_absent plainHost)..|]. unfold portPart. case_bool_decide; [done|]. done. }
  rewrite (splitHostPort_shape _ _ _ Hs). split; [done|]. unfold portPart. case_bool_decide as Hp; [by rewrite Hp|done].
Qed.

End Build.

(** ** What a parsed URL with a host looks like *)
Record parsedParts (raw : bytes) (u : URL) (rest : bytes) : Prop := {
  pp_opaque : Opaque u = [];
  pp_path : setRaw encodePath rest = Some (Path u, RawPath u);
  pp_slash : rest = [] ∨ ∃ r, rest = chr "/" :: r;
  pp_rest : ∀ c, c ∈ rest → c ∈ raw;
  pp_query : ∀ c, c ∈ RawQuery u → c ∈ raw ∧ c ≠ chr "#" ∧ isCTL c = false
}.

Lemma cutQuery_within s r q f c : cutQuery s = (r, q, f) → (c ∈ r → c ∈ s) ∧ (c ∈ q → c ∈ s).
Proof.
  unfold cutQuery. destruct (_ && _).
  - intros [= <- <- _]. split; [|set_solver]. intros Hin. rewrite <- (take_drop (length s - 1) s). set_solver.
  - destruct (Cut (chr "?") s) as [[a b]|] eqn:Hc; intros [= <- <- _]; [|set_solver]. apply Cut_Some in Hc as [-> _]. set_solver.
Qed.

Lemma getScheme_within s a r c : getScheme s = Some (a, r) → c ∈ r → c ∈ s.
Proof.
  unfold getScheme. enough (∀ seen, schemeLoop s seen = Some (a, r) → c ∈ r → c ∈ seen ++ s) as Hg by (intros H1 H2; by apply (Hg [])).
  induction s as [|x s IH]; intros seen; cbn; [intros [= <- <-]; by rewrite app_nil_r|].
  repeat case_match; intros Hl Hin; simplify_eq; try set_solver.
  - specialize (IH _ Hl Hin). set_solver.
  - specialize (IH _ Hl Hin). set_solver.
Qed.

Lemma pathURL_inv scheme user host rest omit force query u :
  pathURL scheme user host rest omit force query = Some u →
  setRaw encodePath rest = Some (Path u, RawPath u) ∧ Opaque u = [] ∧ RawQuery u = query ∧ Host u = host.
Proof. unfold pathURL. destruct (setRaw encodePath rest) as [[p r]|]; cbn; [|done]. by intros [= <-]. Qed.

Lemma parse_parts s u : parse s = Some u → Host u ≠ [] → chr "#" ∉ s → ∃ rest, parsedParts s u rest.
Proof.
  unfold parse. destruct (existsb isCTL s) eqn:Hctl; [done|]. case_bool_decide; [intros [= <-]; done|].
  destruct (getScheme s) as [[scheme rest]|] eqn:Hg; cbn [mbind option_bind]; [|done]. destruct (cutQuery rest) as [[r q] f] eqn:Hq.
  match goal with |- (if ?b then _ else _) = _ → _ => destruct b end; [intros [= <-]; done|].
  match goal with |- (if ?b then _ else _) = _ → _ => destruct b end; [done|].
  match goal with |- (if ?b then _ else _) = _ → _ => destruct b end.
  2: { intros (_ & _ & _ & Hh)%pathURL_inv ?. done. }
  set (ar := match Cut (chr "/") (drop 2 r) with Some (a, r) => (a, chr "/" :: r) | None => (drop 2 r, []) end).
  assert ((ar.2 = [] ∨ ∃ t, ar.2 = chr "/" :: t) ∧ ∀ c, c ∈ ar.2 → c ∈ r) as [Hsl Hin].
  { unfold ar. destruct (Cut (chr "/") (drop 2 r)) as [[a t]|] eqn:Hc; cbn; [|split; [by left|set_solver]].
    split; [right; eauto|]. apply Cut_Some in Hc as [Heq _]. intros c Hc. apply (elem_of_drop_weaken _ 2) || idtac.
    rewrite <- (take_drop 2 r), Heq. set_solver. }
  destruct ar as [auth rest']. cbn in Hsl, Hin. destruct (parseAuthority auth) as [[user host]|]; cbn [mbind option_bind]; [|done].
  intros (Hp & Ho & Hqq & Hh)%pathURL_inv Hne Hhash. exists rest'. split; [done|done|done| |].
  - intros c Hc. eapply getScheme_within; [done|]. apply (proj1 (cutQuery_within _ _ _ _ c Hq)). by apply Hin.
  - rewrite Hqq. intros c Hc. assert (c ∈ s) as Hcs by (eapply getScheme_within; [done|]; by apply (proj2 (cutQuery_within _ _ _ _ c Hq))).
    split; [done|]. split; [intros ->; done|]. apply not_true_iff_false. intros Hctlc. apply not_true_iff_false in Hctl. apply Hctl.
    apply existsb_exists. exists c. split; [by apply list_elem_of_In|done].
Qed.

Lemma url_Parse_parts raw u : url_Parse raw = Some u → Host u ≠ [] → ∃ rest, parsedParts raw u rest.
Proof.
  unfold url_Parse. intros Hu Hh.
  set (sf := match Cut (chr "#") raw with Some (a, b) => (a, b) | None => (raw, []) end) in Hu.
  assert ((chr "#" ∉ sf.1) ∧ ∀ c, c ∈ sf.1 → c ∈ raw) as [Hn Hw].
  { unfold sf. destruct (Cut (chr "#") raw) as [[a b]|] eqn:Hc; cbn; [apply Cut_Some in Hc as [-> ?]; set_solver|by apply Cut_None in Hc]. }
  destruct sf as [s f]. cbn in Hn, Hw. destruct (parse s) as [v|] eqn:Hp; cbn [mbind option_bind] in Hu; [|done].
  assert (Host u = Host v ∧ Opaque u = Opaque v ∧ Path u = Path v ∧ RawPath u = RawPath v ∧ RawQuery u = RawQuery v) as (Eh & Eo & Ep & Er & Eq).
  { case_bool_decide; [by simplify_eq|]. destruct (setRaw encodeFragment f) as [[]|]; cbn in Hu; [by simplify_eq|done]. }
  destruct (parse_parts s v Hp) as (rest & [H1 H2 H3 H4 H5]); [congruence|done|]. exists rest. split.
  - congruence.
  - by rewrite Ep, Er.
  - done.
  - eauto.
  - rewrite Eq. intros c Hc. destruct (H5 c Hc) as (? & ? & ?). eauto.
Qed.

(** ** The encoded path *)
Lemma unhex_bound c : isHexDigit c = true → 0 <= unhex c < 16.
Proof.
  intros Hc. pose proof (isHexDigit_byte c Hc) as Hb.
  assert (within 0 15 (unhex c) = true) as Hw; [|unfold within in Hw; lia]. revert c Hb Hc.
  apply (byte_imp isHexDigit (λ c, within 0 15 (unhex c))). vm_compute. reflexivity.
Qed.

Lemma unescape_bytes mode s d : unescape mode s = Some d → Forall is_byte s → Forall is_byte d.
Proof.
  revert d. induction s as [s IH] using (induction_ltof1 _ length). unfold ltof in IH. intros d Hu Hs.
  destruct s as [|c s]; cbn in Hu; [by simplify_eq|]. inversion_clear Hs as [|? ? Hc Hs'].
  destruct (c =? chr "%").
  - destruct s as [|a [|b s]]; [done..|]. destruct (negb _ || _) eqn:Hbad; [done|].
    apply orb_false_iff in Hbad as [Hhex _]. apply negb_false_iff, andb_true_iff in Hhex as [Ha Hb].
    destruct (unescape mode s) as [r|] eqn:Hr; cbn in Hu; simplify_eq. inversion_clear Hs' as [|? ? _ Hs'']. inversion_clear Hs'' as [|? ? _ Hs3].
    constructor; [|by apply (IH s); [cbn; lia|..]]. pose proof (unhex_bound a Ha). pose proof (unhex_bound b Hb). unfold is_byte. lia.
  - destruct (badChar mode c); [done|]. destruct (unescape mode s) as [r|] eqn:Hr; cbn in Hu; simplify_eq. constructor; [done|].
    by apply (IH s); [cbn; lia|..].
Qed.

Lemma escape_chars d : Forall is_byte d → forallb pathChar (escape encodePath d) = true.
Proof.
  induction 1 as [|c d Hc _ IH]; [done|]. unfold escape in *. cbn. rewrite forallb_app, IH, andb_true_r.
  revert c Hc. apply (byte_forall (λ c, forallb pathChar (escapeByte encodePath c))). vm_compute. reflexivity.
Qed.

Lemma EscapedPath_parts raw u rest :
  parsedParts raw u rest → Forall is_byte raw →
  forallb pathChar (EscapedPath u) = true ∧ (EscapedPath u = [] ∨ ∃ r, EscapedPath u = chr "/" :: r).
Proof.
  intros [_ Hp Hsl Hin _] Hraw. unfold setRaw in Hp. destruct (unescape encodePath rest) as [d|] eqn:Hd; cbn in Hp; [|done].
  assert (Forall is_byte rest) as Hrb by (rewrite Forall_forall in *; eauto).
  injection Hp as Hpath Hrawp. unfold EscapedPath, escaped. rewrite <- Hpath, <- Hrawp.
  assert (d = [] ∨ ∃ r, d = chr "/" :: r) as Hd'.
  { destruct Hsl as [->|[r ->]]; [left; by injection Hd|right]. cbn in Hd. change (badChar encodePath (chr "/")) with false in Hd.
    destruct (unescape encodePath r); cbn in Hd; [|done]. injection Hd as <-. eauto. }
  rewrite (bool_decide_false (d = [chr "*"])) by (destruct Hd' as [->|[r ->]]; [done|intros [= ?]]). cbn [andb].
  destruct (negb _ && _ && _) eqn:Hv.
  - apply andb_true_iff in Hv as [[_ Hv]%andb_true_iff _]. split; [exact Hv|]. case_bool_decide; [by left|done].
  - split; [apply escape_chars; by eapply unescape_bytes|]. destruct Hd' as [->|[r ->]]; [by left|right]. unfold escape. cbn. eauto.
Qed.
