(* ===== verification/NetipWf.v ===== *)
(** * Parsed addresses

    What [ParseAddr] and [ParsePrefix] return is well formed, and has a zone
    only if the text names one. *)
From Stdlib Require Import Ascii.
From S2P Require Import Prelude NetBuf NetAddr GoStrings GoText NetipParse UrlBuild.

Lemma ipv4Loop_wf s fields val d out :
  ipv4Loop s fields val d = Some out → Forall is_byte fields → 0 <= val <= 255 → (length fields <= 3)%nat →
  Forall is_byte out ∧ length out = 4%nat.
Proof.
  revert fields val d. induction s as [|c s IH]; intros fields val d; cbn [ipv4Loop].
  - destruct (length fields <? 3)%nat eqn:Hl; [done|]. apply Nat.ltb_ge in Hl. intros [= <-] Hf Hv Hl'. rewrite Forall_app, length_app. cbn.
    split; [|lia]. split; [done|]. constructor; [unfold is_byte; lia|done].
  - destruct (isDigit c) eqn:Hd.
    + destruct (_ && _); [done|]. destruct (Z.ltb_spec 255 (val * 10 + (c - chr "0"))); [done|]. intros Hs Hf Hv Hl. eapply IH; [exact Hs|done| |done].
      unfold isDigit, within in Hd. change (chr "0") with 48 in *. change (chr "9") with 57 in *. lia.
    + destruct (c =? chr "."); [|done]. destruct (_ || _); [done|]. destruct (length fields =? 3)%nat eqn:Hl3; [done|]. apply Nat.eqb_neq in Hl3.
      intros Hs Hf Hv Hl. eapply IH; [exact Hs| |lia|rewrite length_app; cbn; lia]. apply Forall_app. split; [done|]. constructor; [unfold is_byte; lia|done].
Qed.

Lemma hexField_bound s off acc off' acc' r : hexField s off acc = Some (off', acc', r) → 0 <= acc <= 0xffff → 0 <= acc' <= 0xffff.
Proof.
  revert off acc. induction s as [|c s IH]; intros off acc; cbn [hexField]; [by intros [= <- <- <-]|]. destruct (isHexDigit c) eqn:Hc; [|by intros [= <- <- <-]].
  destruct (3 <? off)%nat; [done|]. destruct (Z.ltb_spec 0xffff (acc * 16 + unhex c)); [done|]. intros Hs Ha. eapply IH; [exact Hs|].
  pose proof (unhex_bound c Hc). lia.
Qed.

Lemma ipv6Loop_wf fuel s ip e s' ip' e' :
  ipv6Loop fuel s ip e = Some (s', ip', e') → Forall is_byte ip → (length ip <= 16)%nat → Nat.Even (length ip) →
  Forall is_byte ip' ∧ (length ip' <= 16)%nat.
Proof.
  revert s ip e. induction fuel as [|fuel IH]; intros s ip e; cbn [ipv6Loop]; [by intros [= <- <- <-]|].
  destruct (16 <=? length ip)%nat eqn:H16; [by intros [= <- <- <-]|]. apply Nat.leb_gt in H16.
  destruct (hexField s 0 0) as [[[off acc] r]|] eqn:Hh; cbn [mbind option_bind]; [|done]. apply hexField_bound in Hh; [|lia].
  destruct (off =? 0)%nat; [done|]. intros Hl Hf _ Hev.
  set (ip2 := ip ++ [acc / 256; acc mod 256]) in *.
  assert (Forall is_byte ip2 ∧ (length ip2 <= 16)%nat ∧ Nat.Even (length ip2)) as (Hf' & Hl' & Hev').
  { unfold ip2. rewrite Forall_app, length_app. cbn [length]. split_and!; [done| |destruct Hev; lia|destruct Hev as [k ->]; exists (k + 1)%nat; lia].
    repeat constructor; unfold is_byte; Z.div_mod_to_equations; lia. }
  destruct (bool_decide (head r = Some (chr "."))).
  { destruct (_ && _); [done|]. destruct (16 <? length ip + 4)%nat eqn:Hlt; [done|]. apply Nat.ltb_ge in Hlt.
    destruct (parseIPv4Fields s) as [fields|] eqn:H4; cbn in Hl; [|done]. injection Hl as <- <- <-.
    destruct (ipv4Loop_wf _ _ _ _ _ H4) as [Hb Hn]; [done|lia|cbn; lia|]. rewrite Forall_app, length_app, Hn. done. }
  destruct r as [|c [|c' r]]; [by injection Hl as <- <- <-|by destruct (negb _)|]. destruct (negb _); [done|].
  destruct (c' =? chr ":"); [|by eapply IH]. destruct (bool_decide (e ≠ None)); [done|].
  destruct (bool_decide (r = [])); [by injection Hl as <- <- <-|by eapply IH].
Qed.

Lemma expandEllipsis_wf ip e out : expandEllipsis ip e = Some out → Forall is_byte ip → (length ip <= 16)%nat → Forall is_byte out ∧ length out = 16%nat.
Proof.
  unfold expandEllipsis. destruct (length ip <? 16)%nat eqn:Hl.
  - apply Nat.ltb_lt in Hl. destruct e as [e|]; [|done]. intros [= <-] Hf _. split.
    + rewrite !Forall_app. split_and!; [by apply Forall_take|by apply Forall_replicate|by apply Forall_drop].
    + rewrite !length_app, length_take, length_replicate, length_drop. lia.
  - apply Nat.ltb_ge in Hl. destruct (bool_decide _); [done|]. intros [= <-] Hf Hl'. split; [done|lia].
Qed.

Lemma be_val_Addr4 b : Forall is_byte b → length b = 4%nat → 0 <= be_val b < 2 ^ 32.
Proof. intros Hb Hl. pose proof (be_val_bound b Hb) as Hv. by rewrite Hl in Hv. Qed.
Lemma be_val_Addr6 b : Forall is_byte b → length b = 16%nat → 0 <= be_val b < 2 ^ 128.
Proof. intros Hb Hl. pose proof (be_val_bound b Hb) as Hv. by rewrite Hl in Hv. Qed.

Lemma ParseAddr_wf s a : ParseAddr s = Some a → Addr_wf a ∧ a ≠ AddrZero ∧ (hasZone a = true → chr "%" ∈ s).
Proof.
  unfold ParseAddr. destruct (addrKind s) as [c|]; [|done]. destruct (c =? chr ".").
  - unfold parseIPv4. destruct (parseIPv4Fields s) as [fields|] eqn:Hf; cbn; [|done]. intros [= <-].
    destruct (ipv4Loop_wf _ _ _ _ _ Hf) as [Hb Hn]; [done|lia|cbn; lia|]. split_and!; [by apply be_val_Addr4|done|done].
  - destruct (c =? chr ":"); [|done]. unfold parseIPv6.
    assert (∃ t zone, (match Cut (chr "%") s with Some (_, []) => None | Some (s, zone) => Some (s, zone) | None => Some (s, []) end = Some (t, zone) ∧
      (zone ≠ [] → chr "%" ∈ s)) ∨ match Cut (chr "%") s with Some (_, []) => None | Some (s, zone) => Some (s, zone) | None => Some (s, []) end = None)
      as (t & zone & [[-> Hz]| ->]); [| |done].
    { destruct (Cut (chr "%") s) as [[x [|z zs]]|] eqn:Hc; [exists [], []; by right|exists x, (z :: zs); left|exists s, []; left; done].
      split; [done|]. intros _. apply Cut_Some in Hc as [-> _]. set_solver. }
    cbn [mbind option_bind].
    assert (∀ v, 0 <= v < 2 ^ 128 → Addr_wf (Addr6 v (zoneOf zone)) ∧ Addr6 v (zoneOf zone) ≠ AddrZero ∧ (hasZone (Addr6 v (zoneOf zone)) = true → chr "%" ∈ s)) as Hres.
    { intros v Hv. split_and!; [done|done|]. intros Hh. apply Hz. intros ->. done. }
    destruct (_ && _); [intros [= <-]; by apply Hres|].
    match goal with |- context [ipv6Loop 8 ?x [] ?y] => destruct (ipv6Loop 8 x [] y) as [[[s1 ip1] e1]|] eqn:Hl end; cbn [mbind option_bind]; [|done].
    destruct (bool_decide _); [done|]. apply ipv6Loop_wf in Hl as [Hb Hn]; [|done|cbn; lia|by exists 0%nat].
    destruct (expandEllipsis ip1 e1) as [ip2|] eqn:He; cbn; [|done]. apply expandEllipsis_wf in He as [Hb2 Hn2]; [|done|done].
    intros [= <-]. by apply Hres, be_val_Addr6.
Qed.

Lemma ParsePrefix_wf s p : ParsePrefix s = Some p → Prefix_wf p ∧ 0 <= p_Bits p <= BitLen (p_Addr p) ∧ p_Addr p ≠ AddrZero.
Proof.
  unfold ParsePrefix. destruct (CutLast (chr "/") s) as [[a bs]|]; cbn [mbind option_bind]; [|done].
  destruct (ParseAddr a) as [ip|] eqn:Ha; cbn [mbind option_bind]; [|done]. apply ParseAddr_wf in Ha as (Hw & Hnz & _).
  destruct (hasZone ip); [done|]. destruct (_ && _); [done|]. destruct (Atoi bs) as [bits|]; cbn [mbind option_bind]; [|done].
  destruct (Z.ltb_spec bits 0); [done|]. cbn [orb]. destruct (Z.ltb_spec (if Is6 ip then 128 else 32) bits); [done|]. intros [= <-].
  split; [by apply PrefixFrom_wf|]. unfold PrefixFrom. cbn. rewrite bool_decide_false by done. cbn [orb].
  destruct ip as [|v|v z]; cbn in *; [done| |]; (replace (bits <? 0) with false by lia; cbn [orb]).
  - replace (32 <? bits) with false by lia. split; [lia|done].
  - replace (128 <? bits) with false by lia. split; [lia|done].
Qed.
