(* ===== verification/FilterRules.v ===== *)
(** * Filter rules from the control server

    [wgengine/filter/tailcfg.go]: the rules that the control server sends, with
    addresses as text, become the rules of the filter.  The theorem relates the
    two: a packet matches the converted rules exactly if a rule, read as
    intervals of addresses, allows it. *)
From stdpp Require Import pretty.
From Stdlib Require Import Ascii.
From S2P Require Import Prelude NetBuf NetAddr Packet Flowtrack FilterModel FilterPolicy FilterFlows GoStrings GoText NetipParse NetipWf.

(** [tailcfg.NetPortRange], [tailcfg.CapGrant] and [tailcfg.FilterRule]; a map is listed in the order of an iteration. *)
Record DstPort := mkDstPort { dp_IP : bytes; dp_Bits : option Z; dp_Ports : PortRange }.
Record CapGrant := mkCapGrant { cg_Dsts : list Prefix; cg_Caps : list PeerCapability; cg_CapMap : list (PeerCapability * list RawMessage) }.
Record FilterRule := mkFilterRule {
  SrcIPs : list bytes; SrcBits : list Z; DstPorts : list DstPort; fr_IPProto : list Z; fr_CapGrant : list CapGrant
}.

(** [netip.Prefix.Masked] *)
Definition Masked (p : Prefix) : Prefix :=
  if negb (Prefix_IsValid p) then {| p_Addr := AddrZero; p_Bits := -1 |} else
  {| p_Addr := match p_Addr p with
               | Addr4 v => Addr4 (v - v mod 2 ^ (32 - p_Bits p))
               | Addr6 v z => Addr6 (v - v mod 2 ^ (128 - p_Bits p)) z
               | AddrZero => AddrZero
               end;
     p_Bits := p_Bits p |}.

(** [netipx.IPRange] *)
Class Netipx := {
  IPRange_IsValid : Addr → Addr → bool;
  IPRange_Prefixes : Addr → Addr → list Prefix
}.
Definition plainAddr (a : Addr) : Prop := Addr_wf a ∧ a ≠ AddrZero ∧ hasZone a = false.
Class NetipxLaws `{Netipx} : Prop := {
  IPRange_valid lo hi : plainAddr lo → plainAddr hi →
    IPRange_IsValid lo hi = (BitLen lo =? BitLen hi) && (addr_val lo <=? addr_val hi);
  IPRange_wf lo hi : plainAddr lo → plainAddr hi → IPRange_IsValid lo hi = true → Forall Prefix_wf (IPRange_Prefixes lo hi);
  (** the prefixes cover exactly the range *)
  IPRange_covers lo hi ip : plainAddr lo → plainAddr hi → IPRange_IsValid lo hi = true → plainAddr ip →
    in_prefixes (IPRange_Prefixes lo hi) ip = true ↔ BitLen ip = BitLen lo ∧ addr_val lo <= addr_val ip <= addr_val hi
}.

Section Rules.
Context (bart : list Prefix → Addr → bool) `{Netipx}.

Definition defaultProtos : list Z := [TCP; UDP; ICMPv4; ICMPv6].
Definition zeroIP4 : Addr := Addr4 0.
Definition zeroIP6 : Addr := Addr6 0 "".

Definition parseIPSet (arg : bytes) : res (list Prefix * NodeCapability) :=
  if bool_decide (arg = str "*") then Ok ([PrefixFrom zeroIP4 0; PrefixFrom zeroIP6 0], ""%string) else
  match CutPrefix arg (str "cap:") with
  | Some cap => Ok ([], zoneOf cap)
  | None =>
      if ContainsByte (chr "/") arg then
        match ParsePrefix arg with
        | None => Err (Errorf "parse prefix")
        | Some pfx => if negb (bool_decide (pfx = Masked pfx)) then Err (Errorf "contains non-network bits set") else Ok ([pfx], ""%string)
        end
      else if (CountByte (chr "-") arg =? 1)%nat then
        match Cut (chr "-") arg with
        | Some (ip1s, ip2s) =>
            match ParseAddr ip1s, ParseAddr ip2s with
            | Some ip1, Some ip2 => if IPRange_IsValid ip1 ip2 then Ok (IPRange_Prefixes ip1 ip2, ""%string) else Err (Errorf "invalid IP range")
            | _, _ => Err (Errorf "parse address")
            end
        | None => Err (Errorf "parse address")
        end
      else match ParseAddr arg with
           | None => Err (Errorf "invalid IP address")
           | Some ip => Ok ([PrefixFrom ip (BitLen ip)], ""%string)
           end
  end.

(** The loops over a rule's sources and destinations; the first error is kept. *)
Definition srcStep (acc : list Prefix * list NodeCapability * option error) (s : bytes) : list Prefix * list NodeCapability * option error :=
  let '(srcs, caps, erracc) := acc in
  match parseIPSet s with
  | Ok (nets, cap) => (srcs ++ nets, if bool_decide (cap = ""%string) then caps else caps ++ [cap], erracc)
  | Err e => (srcs, caps, match erracc with None => Some e | Some _ => erracc end)
  | _ => acc
  end.
Definition dstStep (acc : list NetPortRange * option error) (d : DstPort) : res (list NetPortRange * option error) :=
  let '(dsts, erracc) := acc in
  if bool_decide (dp_Bits d ≠ None) then Err (Errorf "unexpected DstBits") else
  match parseIPSet (dp_IP d) with
  | Ok (nets, cap) =>
      if negb (bool_decide (cap = ""%string)) then Ok (dsts, Some (Errorf "unexpected capability in DstPorts")) else
      Ok (dsts ++ ((λ net, mkNetPortRange net (mkPortRange (First (dp_Ports d)) (Last (dp_Ports d)))) <$> nets), erracc)
  | Err e => Ok (dsts, match erracc with None => Some e | Some _ => erracc end)
  | _ => Panic
  end.
Definition grantCaps (cm : CapGrant) : list CapMatch :=
  cg_Dsts cm ≫= λ dstNet,
    ((λ cap, mkCapMatch dstNet cap []) <$> cg_Caps cm) ++ ((λ '(cap, val), mkCapMatch dstNet cap val) <$> cg_CapMap cm).
Definition ruleProtos (r : FilterRule) : list Z :=
  if bool_decide (fr_IPProto r = []) then defaultProtos else filter (λ n, 0 <= n <= 0xff) (fr_IPProto r).

Definition ruleStep (acc : list Match * option error) (r : FilterRule) : res (list Match * option error) :=
  let '(mm, erracc) := acc in
  if bool_decide (SrcBits r ≠ []) then Err (Errorf "unexpected SrcBits") else
  let '(srcs, caps, erracc) := foldl srcStep ([], [], erracc) (SrcIPs r) in
  '(dsts, erracc) ← foldM dstStep ([], erracc) (DstPorts r);
  Ok (mm ++ [mkMatch (ruleProtos r) srcs (NewContainsIPFunc bart srcs) caps dsts (fr_CapGrant r ≫= grantCaps)], erracc).

(** [Err] is the case without a result; an error beside the result is the second component. *)
Definition MatchesFromFilterRules (pf : list FilterRule) : res (list Match * option error) := foldM ruleStep ([], None) pf.

(** ** What a rule means *)

(** The addresses an argument names: the length of the addresses, the first and the last. *)
Definition intervals (arg : bytes) : list (Z * Z * Z) :=
  if bool_decide (arg = str "*") then [(32, 0, 2 ^ 32 - 1); (128, 0, 2 ^ 128 - 1)] else
  if HasPrefix arg (str "cap:") then [] else
  if ContainsByte (chr "/") arg then
    match ParsePrefix arg with
    | Some p => let base := addr_val (p_Addr p) in let size := 2 ^ (BitLen (p_Addr p) - p_Bits p) in
                if base mod size =? 0 then [(BitLen (p_Addr p), base, base + size - 1)] else []
    | None => []
    end
  else if (CountByte (chr "-") arg =? 1)%nat then
    match Cut (chr "-") arg with
    | Some (a, b) => match ParseAddr a, ParseAddr b with
                     | Some lo, Some hi => if BitLen lo =? BitLen hi then [(BitLen lo, addr_val lo, addr_val hi)] else []
                     | _, _ => []
                     end
    | None => []
    end
  else match ParseAddr arg with Some ip => [(BitLen ip, addr_val ip, addr_val ip)] | None => [] end.
Definition named (arg : bytes) (ip : Addr) : Prop := ∃ w lo hi, (w, lo, hi) ∈ intervals arg ∧ BitLen ip = w ∧ lo <= addr_val ip <= hi.
Definition capArg (arg : bytes) (cap : NodeCapability) : Prop :=
  ∃ c, arg = str "cap:" ++ c ∧ zoneOf c = cap ∧ cap ≠ ""%string.

Definition allowsSrc (r : FilterRule) (hasCap : option CapTestFunc) (ip : Addr) : Prop :=
  (∃ s, s ∈ SrcIPs r ∧ named s ip) ∨ (∃ f s cap, hasCap = Some f ∧ s ∈ SrcIPs r ∧ capArg s cap ∧ f ip cap = true).
Definition allowsDst (r : FilterRule) (ip : Addr) (port : Z) : Prop :=
  ∃ d, d ∈ DstPorts r ∧ named (dp_IP d) ip ∧ First (dp_Ports d) <= port <= Last (dp_Ports d).
Definition fr_allows (r : FilterRule) (hasCap : option CapTestFunc) (q : Parsed) : Prop :=
  IPProto q ∈ ruleProtos r ∧ allowsSrc r hasCap (ap_Addr (Src q)) ∧ allowsDst r (ap_Addr (Dst q)) (ap_Port (Dst q)).

End Rules.

(** ** The conversion of one argument *)
Section Argument.
Context `{Netipx}.

Lemma in_prefixes_elem nets ip : in_prefixes nets ip = true ↔ ∃ p, p ∈ nets ∧ Contains p ip = true.
Proof. unfold in_prefixes. rewrite existsb_exists. by setoid_rewrite <- list_elem_of_In. Qed.

Lemma in_prefixes_one p ip : in_prefixes [p] ip = true ↔ Contains p ip = true.
Proof. unfold in_prefixes. cbn. by rewrite orb_false_r. Qed.

Lemma plain_val ip : plainAddr ip → 0 <= addr_val ip < 2 ^ BitLen ip.
Proof. intros (Hw & Hz & _). destruct ip; cbn in *; [done|lia|lia]. Qed.

(** A block of addresses that starts where its prefix says. *)
Lemma block_interval p ip :
  Prefix_wf p → 0 <= p_Bits p <= BitLen (p_Addr p) → addr_val (p_Addr p) mod 2 ^ (BitLen (p_Addr p) - p_Bits p) = 0 → plainAddr ip →
  Contains p ip = true ↔ BitLen ip = BitLen (p_Addr p) ∧ addr_val (p_Addr p) <= addr_val ip <= addr_val (p_Addr p) + 2 ^ (BitLen (p_Addr p) - p_Bits p) - 1.
Proof.
  intros Hw Hb Hm (_ & Hnz & Hz). rewrite Contains_covers by done. unfold covers.
  set (k := 2 ^ (BitLen (p_Addr p) - p_Bits p)) in *. assert (0 < k) as Hk by (apply Z.pow_pos_nonneg; lia).
  split.
  - intros (_ & Hl & _ & Hd). rewrite <- Hl in Hd. fold k in Hd. split; [done|]. Z.div_mod_to_equations. nia.
  - intros (Hl & Hr). split_and!; [lia|done|done|]. rewrite Hl. fold k. Z.div_mod_to_equations. nia.
Qed.

Lemma Masked_aligned p :
  Prefix_wf p → 0 <= p_Bits p <= BitLen (p_Addr p) → p = Masked p ↔ addr_val (p_Addr p) mod 2 ^ (BitLen (p_Addr p) - p_Bits p) = 0.
Proof.
  intros (_ & _ & _ & Hv) Hb. unfold Masked. replace (Prefix_IsValid p) with true by (unfold Prefix_IsValid; lia). cbn [negb].
  destruct p as [[|v|v z] bits]; cbn in *; [by destruct (Hv ltac:(lia))|..].
  - pose proof (Z.mod_pos_bound v (2 ^ (32 - bits)) ltac:(apply Z.pow_pos_nonneg; lia)).
    split; [intros [= Heq]; lia|]. intros ->. by rewrite Z.sub_0_r.
  - pose proof (Z.mod_pos_bound v (2 ^ (128 - bits)) ltac:(apply Z.pow_pos_nonneg; lia)).
    split; [intros [= Heq]; lia|]. intros ->. by rewrite Z.sub_0_r.
Qed.

Lemma named_one arg w lo hi ip : intervals arg = [(w, lo, hi)] → named arg ip ↔ BitLen ip = w ∧ lo <= addr_val ip <= hi.
Proof.
  intros Hi. unfold named. rewrite Hi. split.
  - intros (w' & lo' & hi' & Hin%list_elem_of_singleton & Hr). by simplify_eq.
  - intros Hr. exists w, lo, hi. split; [by apply list_elem_of_singleton|done].
Qed.

Lemma named_none arg ip : intervals arg = [] → ¬ named arg ip.
Proof. intros Hi (w & lo & hi & Hin & _). rewrite Hi in Hin. by apply not_elem_of_nil in Hin. Qed.

(** What [parseIPSet] promises. *)
Definition argSpec (arg : bytes) (r : res (list Prefix * NodeCapability)) : Prop :=
  match r with
  | Ok (nets, cap) => Forall Prefix_wf nets ∧ (∀ ip, plainAddr ip → in_prefixes nets ip = true ↔ named arg ip) ∧
                      (∀ c, capArg arg c ↔ c = cap ∧ cap ≠ ""%string)
  | Err _ => (∀ ip, plainAddr ip → ¬ named arg ip) ∧ ∀ c, ¬ capArg arg c
  | _ => False
  end.

Lemma no_capArg arg : HasPrefix arg (str "cap:") = false → ∀ c, ¬ capArg arg c.
Proof. intros Hp c (x & -> & _). apply not_true_iff_false in Hp. apply Hp, HasPrefix_iff. by exists x. Qed.

Lemma single_wf ip : plainAddr ip → Prefix_wf (PrefixFrom ip (BitLen ip)) ∧ p_Bits (PrefixFrom ip (BitLen ip)) = BitLen ip ∧ p_Addr (PrefixFrom ip (BitLen ip)) = ip.
Proof.
  intros (Hw & Hnz & Hz). split; [by apply PrefixFrom_wf|]. unfold PrefixFrom. cbn. rewrite bool_decide_false, Z.ltb_irrefl by done.
  destruct ip as [|v|v z]; cbn in *; [done|done|]. unfold hasZone in Hz. cbn in Hz. apply negb_false_iff, bool_decide_eq_true in Hz. by subst.
Qed.

Lemma parseAddr_plain s a : ParseAddr s = Some a → chr "%" ∉ s → plainAddr a.
Proof. intros (Hw & Hnz & Hz)%ParseAddr_wf Hp. split_and!; [done|done|]. apply not_true_iff_false. auto. Qed.

Context `{!NetipxLaws}.

Lemma Contains_all a ip : plainAddr a → plainAddr ip → addr_val a = 0 → BitLen ip = BitLen a → Contains (PrefixFrom a 0) ip = true.
Proof.
  intros Ha Hip Hv Hl. pose proof (plain_val ip Hip) as Hr. destruct Ha as (Hw & Hnz & Hz).
  assert (BitLen (withoutZone a) = BitLen a ∧ addr_val (withoutZone a) = addr_val a ∧ 0 <= BitLen a) as (Hl' & Hv' & Hge) by (by destruct a).
  assert (p_Bits (PrefixFrom a 0) = 0) as Hb.
  { unfold PrefixFrom. cbn [p_Bits]. rewrite bool_decide_false by done. cbn [orb]. change (0 <? 0) with false. cbn [orb]. by rewrite (proj2 (Z.ltb_ge _ _)). }
  apply block_interval; rewrite ?Hb; cbn [p_Addr PrefixFrom]; rewrite ?Hl', ?Hv', ?Hv, ?Z.sub_0_r; [by apply PrefixFrom_wf|lia|by rewrite Z.mod_0_l; [|apply Z.pow_nonzero; lia]|done|].
  rewrite <- Hl. lia.
Qed.

Lemma star_spec : argSpec (str "*") (parseIPSet (str "*")).
Proof.
  unfold parseIPSet. rewrite bool_decide_true by done. cbn [argSpec]. split_and!.
  - repeat constructor; try done; vm_compute; congruence.
  - intros ip Hip. pose proof (plain_val ip Hip) as Hv. destruct Hip as (Hw & Hnz & Hz). split.
    + intros _. destruct ip as [|v|v z]; [done|exists 32, 0, (2 ^ 32 - 1)|exists 128, 0, (2 ^ 128 - 1)]; (split; [set_solver|]); cbn [BitLen addr_val] in *; lia.
    + intros _. apply in_prefixes_elem. destruct ip as [|v|v z]; [done|exists (PrefixFrom zeroIP4 0)|exists (PrefixFrom zeroIP6 0)];
        (split; [set_solver|]); by apply Contains_all.
  - intros c. split; [|by intros [_ ?]]. intros (x & Hx & _). discriminate.
Qed.

Lemma parseIPSet_spec arg : chr "%" ∉ arg → argSpec arg (parseIPSet arg).
Proof.
  intros Hpc. unfold parseIPSet. destruct (bool_decide_reflect (arg = str "*")) as [->|Hstar]; [exact star_spec|].
  assert (Hint : intervals arg = if HasPrefix arg (str "cap:") then [] else _) by (unfold intervals; by rewrite bool_decide_false).
  unfold CutPrefix. destruct (HasPrefix arg (str "cap:")) eqn:Hcap.
  { cbn [argSpec]. split_and!; [done| |].
    - intros ip _. split; [done|]. by intros ?%named_none.
    - intros c. apply HasPrefix_iff in Hcap as [x ->]. rewrite drop_app_length. unfold capArg. split.
      + intros (y & Heq & <- & ?). by apply app_inv_head in Heq as <-.
      + intros [-> ?]. by exists x. }
  pose proof (no_capArg arg Hcap) as Hno. assert (∀ c : NodeCapability, capArg arg c ↔ c = ""%string ∧ ""%string ≠ ""%string) as Hnil by (intros c; split; [by intros ?%Hno|by intros [_ ?]]).
  destruct (ContainsByte (chr "/") arg).
  { destruct (ParsePrefix arg) as [p|] eqn:Hp; cbn [argSpec]; [|split; [intros ip _; by apply named_none|done]].
    destruct (ParsePrefix_wf arg p Hp) as (Hw & Hb & Hnz). pose proof (Masked_aligned p Hw Hb) as Hma.
    destruct (bool_decide_reflect (p = Masked p)) as [Hm|Hm]; cbn [negb argSpec].
    - apply Hma in Hm. apply Z.eqb_eq in Hm as Hm'. rewrite Hm' in Hint. split_and!; [by constructor| |done].
      intros ip Hip. rewrite in_prefixes_one, (named_one _ _ _ _ _ Hint). by apply block_interval.
    - rewrite Hma in Hm. apply Z.eqb_neq in Hm. rewrite Hm in Hint. split; [intros ip _; by apply named_none|done]. }
  destruct (CountByte (chr "-") arg =? 1)%nat.
  { destruct (Cut (chr "-") arg) as [[a b]|] eqn:Hc; cbn [argSpec]; [|split; [intros ip _; by apply named_none|done]]. apply Cut_Some in Hc as [Heq _].
    destruct (ParseAddr a) as [lo|] eqn:Ha; cbn [argSpec]; [|split; [intros ip _; by apply named_none|done]].
    destruct (ParseAddr b) as [hi|] eqn:Hb; cbn [argSpec]; [|split; [intros ip _; by apply named_none|done]].
    apply parseAddr_plain in Ha; [|set_solver]. apply parseAddr_plain in Hb; [|set_solver].
    destruct (IPRange_IsValid lo hi) eqn:Hv; cbn [argSpec].
    - split_and!; [by apply IPRange_wf| |done]. intros ip Hip. rewrite IPRange_covers by done. rewrite IPRange_valid in Hv by done.
      apply andb_true_iff in Hv as [Hl _]. rewrite Hl in Hint. by rewrite (named_one _ _ _ _ _ Hint).
    - rewrite IPRange_valid in Hv by done. split; [|done]. intros ip _. destruct (BitLen lo =? BitLen hi); [|by apply named_none].
      rewrite (named_one _ _ _ _ _ Hint). cbn in Hv. lia. }
  destruct (ParseAddr arg) as [a|] eqn:Ha; cbn [argSpec]; [|split; [intros ip _; by apply named_none|done]].
  apply parseAddr_plain in Ha; [|done]. destruct (single_wf a Ha) as (Hw & Hb & Hpa). split_and!; [by constructor| |done].
  intros ip Hip. rewrite in_prefixes_one, (named_one _ _ _ _ _ Hint).
  rewrite block_interval; [|done|rewrite Hb, Hpa; destruct Ha as (_ & ? & _); by destruct a|by rewrite Hb, Hpa, Z.sub_diag, Z.mod_1_r|done].
  rewrite Hb, Hpa, Z.sub_diag. change (2 ^ 0) with 1. split; intros [? ?]; (split; [done|lia]).
Qed.

End Argument.

(** ** The conversion of a rule *)
Definition argOk (arg : bytes) : Prop := chr "%" ∉ arg.
Definition rule_ok (r : FilterRule) : Prop := Forall argOk (SrcIPs r) ∧ Forall (λ d, argOk (dp_IP d)) (DstPorts r).

Section Conversion.
Context (bart : list Prefix → Addr → bool) `{Netipx, !NetipxLaws}.

Lemma in_prefixes_app l1 l2 ip : in_prefixes (l1 ++ l2) ip = true ↔ in_prefixes l1 ip = true ∨ in_prefixes l2 ip = true.
Proof. unfold in_prefixes. by rewrite existsb_app, orb_true_iff. Qed.

Lemma srcs_spec l srcs caps e srcs' caps' e' :
  foldl srcStep (srcs, caps, e) l = (srcs', caps', e') → Forall argOk l → Forall Prefix_wf srcs →
  Forall Prefix_wf srcs' ∧
  (∀ ip, plainAddr ip → in_prefixes srcs' ip = true ↔ in_prefixes srcs ip = true ∨ ∃ s, s ∈ l ∧ named s ip) ∧
  (∀ c, c ∈ caps' ↔ c ∈ caps ∨ ∃ s, s ∈ l ∧ capArg s c).
Proof.
  revert srcs caps e. induction l as [|s l IH]; intros srcs caps e; cbn [foldl].
  - intros [= <- <- <-] _ Hw. split_and!; [done|set_solver|set_solver].
  - intros Hf [Hs Hl]%Forall_cons Hw. setoid_rewrite elem_of_cons. pose proof (parseIPSet_spec s Hs) as Hp. unfold srcStep in Hf at 2.
    destruct (parseIPSet s) as [[nets cap]|err| |]; cbn [argSpec] in Hp; [..|done|done].
    + destruct Hp as (Hwn & Hnets & Hcap). destruct (IH _ _ _ Hf Hl) as (Hw' & Hin & Hc); [by apply Forall_app|]. split_and!; [done| |].
      * intros ip Hip. rewrite Hin, in_prefixes_app, (Hnets ip Hip) by done. naive_solver.
      * intros c. rewrite Hc. pose proof (Hcap c) as Hcc. case_bool_decide; [|rewrite elem_of_app, list_elem_of_singleton]; naive_solver.
    + destruct Hp as (Hnets & Hcap). destruct (IH _ _ _ Hf Hl Hw) as (Hw' & Hin & Hc). split_and!; [done| |].
      * intros ip Hip. pose proof (Hnets ip Hip). rewrite Hin by done. naive_solver.
      * intros c. pose proof (Hcap c). rewrite Hc. naive_solver.
Qed.

(** The destinations of a rule, with their ports. *)
Definition dsts_mean (dsts : list NetPortRange) (l : list DstPort) : Prop :=
  ∀ ip, plainAddr ip → ∀ P : PortRange → Prop, (∃ d, d ∈ dsts ∧ Contains (npr_Net d) ip = true ∧ P (npr_Ports d)) ↔
    ∃ d, d ∈ l ∧ named (dp_IP d) ip ∧ P (dp_Ports d).

Lemma dsts_mean_app dsts1 dsts2 l1 l2 : dsts_mean dsts1 l1 → dsts_mean dsts2 l2 → dsts_mean (dsts1 ++ dsts2) (l1 ++ l2).
Proof.
  intros Hm1 Hm2 ip Hip P. specialize (Hm1 ip Hip P). specialize (Hm2 ip Hip P). setoid_rewrite elem_of_app.
  split; intros (d & [Hd|Hd] & Hr); [apply proj1 in Hm1|apply proj1 in Hm2|apply proj2 in Hm1|apply proj2 in Hm2]; naive_solver.
Qed.

Lemma dstStep_spec dsts e d dsts' e' : dstStep (dsts, e) d = Ok (dsts', e') → argOk (dp_IP d) →
  ∃ new, dsts' = dsts ++ new ∧ Forall (λ n, Prefix_wf (npr_Net n)) new ∧ dsts_mean new [d].
Proof.
  unfold dstStep. intros Hs Hd. pose proof (parseIPSet_spec _ Hd) as Hp. case_bool_decide; [done|].
  assert (∀ (nets : list Prefix), (∀ ip, plainAddr ip → in_prefixes nets ip = true ↔ named (dp_IP d) ip) →
    dsts_mean ((λ net, mkNetPortRange net (mkPortRange (First (dp_Ports d)) (Last (dp_Ports d)))) <$> nets) [d]) as Hnew.
  { intros nets Hn ip Hip P. specialize (Hn ip Hip). rewrite in_prefixes_elem in Hn. setoid_rewrite list_elem_of_fmap. setoid_rewrite list_elem_of_singleton.
    destruct (dp_Ports d) as [lo hi] eqn:Hpr. cbn. split.
    - intros (x & (p & -> & Hin) & Hc & HP). exists d. rewrite Hpr. cbn in *. naive_solver.
    - intros (x & -> & Hnm%Hn & HP). destruct Hnm as (p & Hin & Hc). rewrite Hpr in HP. naive_solver. }
  destruct (parseIPSet (dp_IP d)) as [[nets cap]|err| |]; cbn [argSpec] in Hp; [..|done|done].
  - destruct Hp as (Hwn & Hnets & Hcap). destruct (bool_decide_reflect (cap = ""%string)) as [Hc|Hc]; cbn [negb] in Hs.
    + injection Hs as <- <-. eexists. split_and!; [done| |by apply Hnew]. by apply Forall_fmap.
    + injection Hs as <- <-. exists []. rewrite app_nil_r. split_and!; [done|done|]. apply (Hnew []). intros ip Hip. split; [done|].
      destruct (proj2 (Hcap cap) (conj eq_refl Hc)) as (x & Hx & _). intros Hn. exfalso. revert Hn. apply named_none. unfold intervals.
      rewrite Hx. rewrite bool_decide_false by (intros Heq%(f_equal length); rewrite length_app in Heq; cbn in Heq; lia).
      assert (HasPrefix (str "cap:" ++ x) (str "cap:") = true) as -> by (apply HasPrefix_iff; by exists x). done.
  - destruct Hp as (Hnets & _). injection Hs as <- <-. exists []. rewrite app_nil_r. split_and!; [done|done|]. apply (Hnew []). intros ip Hip. split; [done|]. by intros ?%Hnets.
Qed.

Lemma dsts_spec l dsts e dsts' e' : foldM dstStep (dsts, e) l = Ok (dsts', e') → Forall (λ d, argOk (dp_IP d)) l →
  ∃ new, dsts' = dsts ++ new ∧ Forall (λ n, Prefix_wf (npr_Net n)) new ∧ dsts_mean new l.
Proof.
  revert dsts e. induction l as [|d l IH]; intros dsts e; cbn [foldM].
  - intros [= <- <-] _. exists []. rewrite app_nil_r. split_and!; [done|done|]. intros ip _ P. set_solver.
  - intros ([dsts1 e1] & Hs & Hf)%bind_Ok [Hd Hl]%Forall_cons. apply dstStep_spec in Hs as (n1 & -> & Hw1 & Hm1); [|done].
    apply IH in Hf as (n2 & -> & Hw2 & Hm2); [|done]. exists (n1 ++ n2). rewrite app_assoc. split_and!; [done|by apply Forall_app|].
    by apply (dsts_mean_app n1 n2 [d] l).
Qed.

(** A converted rule: well formed, and allowing what the text allows. *)
Definition converts (r : FilterRule) (m : Match) : Prop :=
  Forall Prefix_wf (m_Srcs m) ∧ Forall (λ d, Prefix_wf (npr_Net d)) (m_Dsts m) ∧
  ∀ hasCap q, plainAddr (ap_Addr (Src q)) → plainAddr (ap_Addr (Dst q)) → rule_allows hasCap q m ↔ fr_allows r hasCap q.

Lemma covered_in_prefixes nets ip : Forall Prefix_wf nets → plainAddr ip → (∃ p, p ∈ nets ∧ covers p ip) ↔ in_prefixes nets ip = true.
Proof.
  intros Hw (_ & _ & Hz). rewrite in_prefixes_elem. rewrite Forall_forall in Hw.
  split; intros (p & Hp & Hc); exists p; (split; [done|]); by apply (Contains_covers p ip (Hw p Hp) Hz).
Qed.

Lemma ruleStep_spec mm e r mm' e' : ruleStep bart (mm, e) r = Ok (mm', e') → rule_ok r → ∃ m, mm' = mm ++ [m] ∧ converts r m.
Proof using Type*.
  unfold ruleStep. case_bool_decide; [done|]. destruct (foldl srcStep _ _) as [[srcs caps] e1] eqn:Hs.
  intros ([dsts e2] & Hd & [= <- <-])%bind_Ok [Hos Hod]. eexists. split; [done|].
  destruct (srcs_spec _ _ _ _ _ _ _ Hs Hos) as (Hws & Hin & Hcap); [done|]. apply dsts_spec in Hd as (new & -> & Hwd & Hm); [|done].
  unfold converts. cbn [m_Srcs m_Dsts app]. split_and!; [done|done|]. intros hasCap q Hps Hpd.
  unfold rule_allows, fr_allows, src_in, src_has_cap, dst_in, allowsSrc, allowsDst. cbn [m_IPProto m_Srcs m_SrcCaps m_Dsts].
  rewrite covered_in_prefixes, Hin by done. rewrite <- (Hm _ Hpd (λ pr, First pr <= ap_Port (Dst q) <= Last pr)).
  setoid_rewrite Hcap. rewrite Forall_forall in Hwd. destruct Hpd as (_ & _ & Hz).
  assert (∀ d, d ∈ new → covers (npr_Net d) (ap_Addr (Dst q)) ↔ Contains (npr_Net d) (ap_Addr (Dst q)) = true) as Hcov.
  { intros d Hd. symmetry. by apply Contains_covers; [apply Hwd|]. }
  apply and_iff_compat_l, Morphisms_Prop.and_iff_morphism; [apply Morphisms_Prop.or_iff_morphism|].
  - split; [intros [?|?]; [done|by auto]|by auto].
  - split; [intros (f & c & ? & [?%not_elem_of_nil|(s & ? & ?)] & ?); [done|]; by exists f, s, c|]. intros (f & s & c & ? & ? & ? & ?). exists f, c. split_and!; eauto.
  - split; intros (d & Hd & Hc & Hr); exists d; specialize (Hcov d Hd); naive_solver.
Qed.

Lemma MatchesFromFilterRules_converts pf mm err :
  MatchesFromFilterRules bart pf = Ok (mm, err) → Forall rule_ok pf → Forall2 converts pf mm.
Proof using Type*.
  unfold MatchesFromFilterRules. intros Hf Hok. change mm with ([] ++ mm).
  assert (∃ new, mm = [] ++ new ∧ Forall2 converts pf new) as (new & -> & Hn); [|done].
  revert Hf. generalize (@nil Match) (@None error). induction Hok as [|r pf Hr _ IH]; intros mm0 e0; cbn [foldM].
  - intros [= <- <-]. exists []. by rewrite app_nil_r.
  - intros ([mm1 e1] & Hs & Hf)%bind_Ok. apply ruleStep_spec in Hs as (m & -> & Hm); [|done]. apply IH in Hf as (new & -> & Hn).
    exists (m :: new). rewrite <- app_assoc. split; [done|]. by constructor.
Qed.
End Conversion.

(** ** Errors *)
Section Errors.
Context (bart : list Prefix → Addr → bool) `{Netipx}.

Definition usable (arg : bytes) : Prop := ∃ nets cap, parseIPSet arg = Ok (nets, cap).
Definition usableDst (d : DstPort) : Prop := ∃ nets, parseIPSet (dp_IP d) = Ok (nets, ""%string).
(** The fields of older protocol versions that the conversion refuses. *)
Definition old_format (r : FilterRule) : Prop := SrcBits r ≠ [] ∨ ∃ d, d ∈ DstPorts r ∧ dp_Bits d ≠ None.
Definition all_usable (r : FilterRule) : Prop := Forall usable (SrcIPs r) ∧ Forall usableDst (DstPorts r).

Lemma parseIPSet_total arg : (∃ nets cap, parseIPSet arg = Ok (nets, cap)) ∨ ∃ e, parseIPSet arg = Err e.
Proof. unfold parseIPSet. repeat (case_match; eauto). Qed.

Lemma srcStep_error l srcs caps e srcs' caps' e' :
  foldl srcStep (srcs, caps, e) l = (srcs', caps', e') → e' = None ↔ e = None ∧ Forall usable l.
Proof.
  revert srcs caps e. induction l as [|s l IH]; intros srcs caps e; cbn [foldl].
  - intros [= <- <- <-]. naive_solver.
  - intros Hf. rewrite Forall_cons. unfold usable at 1. unfold srcStep in Hf at 2.
    destruct (parseIPSet_total s) as [(nets & cap & Hs)|[er Hs]]; rewrite Hs in *; rewrite (IH _ _ _ Hf); [naive_solver|].
    destruct e; naive_solver.
Qed.

Lemma dstStep_error l dsts e :
  (∃ d, d ∈ l ∧ dp_Bits d ≠ None) ∧ (∃ er, foldM dstStep (dsts, e) l = Err er) ∨
  (¬ ∃ d, d ∈ l ∧ dp_Bits d ≠ None) ∧ ∃ dsts' e', foldM dstStep (dsts, e) l = Ok (dsts', e') ∧ (e' = None ↔ e = None ∧ Forall usableDst l).
Proof.
  revert dsts e. induction l as [|d l IH]; intros dsts e; cbn [foldM].
  { right. split; [set_solver|]. naive_solver. }
  setoid_rewrite elem_of_cons. setoid_rewrite Forall_cons.
  assert ((dp_Bits d ≠ None ∧ ∃ er, dstStep (dsts, e) d = Err er) ∨
          dp_Bits d = None ∧ ∃ dsts1 e1, dstStep (dsts, e) d = Ok (dsts1, e1) ∧ (e1 = None ↔ e = None ∧ usableDst d))
    as [[Hb [er ->]]|(Hb & dsts1 & e1 & -> & He1)].
  - unfold dstStep, usableDst. case_bool_decide as Hb; [left; eauto|right]. split; [by destruct (dp_Bits d); [destruct Hb|]|].
    destruct (parseIPSet_total (dp_IP d)) as [(nets & cap & ->)|[er ->]].
    + destruct (bool_decide_reflect (cap = ""%string)) as [Hc|Hc]; cbn [negb]; eexists _, _; (split; [done|]); [|naive_solver]. subst cap. naive_solver.
    + eexists _, _. split; [done|]. destruct e; naive_solver.
  - left. split; [exists d; auto|]. cbn. eauto.
  - cbn [mbind res_bind]. destruct (IH dsts1 e1) as [[(x & Hx & Hxb) He]|[Hno (dsts' & e' & -> & He')]]; [left|right].
    + split; [exists x; auto|done].
    + split; [naive_solver|]. eexists _, _. split; [done|]. rewrite He', He1. tauto.
Qed.

Lemma ruleStep_error mm e r :
  old_format r ∧ (∃ er, ruleStep bart (mm, e) r = Err er) ∨
  ¬ old_format r ∧ ∃ m e', ruleStep bart (mm, e) r = Ok (mm ++ [m], e') ∧ (e' = None ↔ e = None ∧ all_usable r).
Proof.
  unfold ruleStep, old_format. case_bool_decide as Hb; [left; eauto|].
  destruct (foldl srcStep _ _) as [[srcs caps] e1] eqn:Hs. apply srcStep_error in Hs.
  destruct (dstStep_error (DstPorts r) [] e1) as [[Hd [er ->]]|[Hd (dsts & e2 & -> & He2)]]; [left|right].
  - split; [auto|]. cbn. eauto.
  - split; [tauto|]. cbn [mbind res_bind]. eexists _, _. split; [done|]. unfold all_usable. tauto.
Qed.

(** Which rules convert, and what the error beside them means.  The
    conversion fails, with no rules, exactly if a rule uses the fields of an
    older protocol version.  Otherwise it returns one rule for each rule given,
    and an error exactly if some argument could not be used: an address that
    does not parse, a prefix with bits outside its mask, an empty range, or a
    capability as a destination. *)
Theorem MatchesFromFilterRules_errors pf :
  (∃ r, r ∈ pf ∧ old_format r) ∧ (∃ e, MatchesFromFilterRules bart pf = Err e) ∨
  Forall (λ r, ¬ old_format r) pf ∧
  ∃ mm err, MatchesFromFilterRules bart pf = Ok (mm, err) ∧ length mm = length pf ∧ (err = None ↔ Forall all_usable pf).
Proof.
  unfold MatchesFromFilterRules.
  assert (∀ mm0 e0, (∃ r, r ∈ pf ∧ old_format r) ∧ (∃ e, foldM (ruleStep bart) (mm0, e0) pf = Err e) ∨
    Forall (λ r, ¬ old_format r) pf ∧ ∃ mm err, foldM (ruleStep bart) (mm0, e0) pf = Ok (mm0 ++ mm, err) ∧ length mm = length pf ∧
      (err = None ↔ e0 = None ∧ Forall all_usable pf)) as Hall.
  { induction pf as [|r pf IH]; intros mm0 e0; cbn [foldM].
    - right. split; [done|]. exists [], e0. rewrite app_nil_r. naive_solver.
    - setoid_rewrite elem_of_cons. setoid_rewrite Forall_cons. destruct (ruleStep_error mm0 e0 r) as [[Ho [er ->]]|(Ho & m & e1 & -> & He1)].
      + left. split; [exists r; auto|]. cbn. eauto.
      + cbn [mbind res_bind]. destruct (IH (mm0 ++ [m]) e1) as [[(x & Hx & Hxo) He]|(Hno & mm & err & -> & Hlen & Herr)]; [left|right].
        * split; [exists x; auto|done].
        * split; [done|]. exists (m :: mm), err. rewrite <- app_assoc. cbn [length]. rewrite Herr, He1, Hlen. tauto. }
  destruct (Hall [] None) as [?|(? & mm & err & ? & ? & ?)]; [by left|right]. split; [done|]. exists mm, err. naive_solver.
Qed.
End Errors.

(** ** From the text of a rule to the verdict of the filter *)
Lemma described_plain b q : describes b q → Forall is_byte b → IPProto q ≠ Unknown → plainAddr (ap_Addr (Src q)) ∧ plainAddr (ap_Addr (Dst q)).
Proof.
  intros (_ & _ & [?|[[H4|H6] _]]) Hb Hk; [done|..].
  - destruct H4 as (_ & _ & Hl & _ & -> & -> & _). split; (split_and!; [|done|done]); cbn; change (2 ^ 32) with (256 ^ Z.of_nat 4); apply be_at_bound; cbn; done || lia.
  - destruct H6 as (_ & _ & _ & -> & -> & _ & Hl & _). split; (split_and!; [|done|done]); cbn; change (2 ^ 128) with (256 ^ Z.of_nat 16); apply be_at_bound; cbn; done || lia.
Qed.

(** Only a rule lets the first segment of a connection in. *)
Lemma permitted_syn hasCap ms flows q : IPProto q = TCP → IsTCPSyn q = true → permitted hasCap ms flows q → some_rule (rule_allows hasCap q) ms.
Proof.
  intros Ht Hs Hp. assert (icmp_proto q ≠ TCP) as Hi by (unfold icmp_proto; by case_match).
  destruct Hp as [He _|He _|_ Hn|_ ?|[He|He] _|He|He _ _ _]; rewrite ?Ht in *; by first [done|congruence].
Qed.

Lemma converts_wf `{Netipx} pf mm : Forall2 converts pf mm → rules_wf mm.
Proof. intros Hc m Hm. apply list_elem_of_lookup in Hm as [i Hi]. destruct (Forall2_lookup_r _ _ _ _ _ Hc Hi) as (r & _ & Hs & Hd & _). done. Qed.

Lemma converts_some_rule `{Netipx} pf mm hasCap q : Forall2 converts pf mm → plainAddr (ap_Addr (Src q)) → plainAddr (ap_Addr (Dst q)) →
  some_rule (rule_allows hasCap q) mm ↔ ∃ r, r ∈ pf ∧ fr_allows r hasCap q.
Proof.
  intros Hc Hs Hd. split.
  - intros (m & Hm & Ha). apply list_elem_of_lookup in Hm as [i Hi]. destruct (Forall2_lookup_r _ _ _ _ _ Hc Hi) as (r & Hr & _ & _ & Hiff).
    exists r. split; [by eapply list_elem_of_lookup_2|]. by apply Hiff.
  - intros (r & Hr & Ha). apply list_elem_of_lookup in Hr as [i Hi]. destruct (Forall2_lookup_l _ _ _ _ _ Hc Hi) as (m & Hm & _ & _ & Hiff).
    exists m. split; [by eapply list_elem_of_lookup_2|]. by apply Hiff.
Qed.

(** C12. A TCP connection comes in exactly if the rules of the control server
    allow it.  Take rules whose addresses name no zone, the filter made from
    their conversion, and a TCP SYN that the decoder delivers.  The filter
    accepts it exactly if it goes to a local address, which is neither
    multicast nor link-local (but for the metadata address), and some rule of
    the control server, read as text, allows it: the protocol is among the
    rule's (or the defaults), the source lies in an address, block or range
    that the rule names or has a capability that it names, and the destination
    lies in one that it names, on one of its ports.  Arguments that do not
    parse allow nothing, and do not change what the others allow. *)
Theorem connections_follow_filter_rules `{Netipx, !NetipxLaws} bart pf mm err capTest local logIPs share heap0 heap c lim q0 b q rf :
  (∀ addrs ip, hasZone ip = false → bart addrs ip = in_prefixes addrs ip) →
  Forall rule_ok pf → MatchesFromFilterRules bart pf = Ok (mm, err) → Forall Prefix_wf local →
  let f := (New bart mm capTest (Some local) logIPs share heap0).1 in
  heap !! f_state f = Some c → cache_inv c →
  Forall is_byte b → Decode q0 b = Ok q → IPProto q = TCP → IsTCPSyn q = true →
  ∃ r heap' e, RunIn f heap lim q rf = Ok (r, heap', e) ∧ (r = Accept ∨ r = Drop) ∧
    (r = Accept ↔
      IsMulticast (ap_Addr (Dst q)) = false ∧
      (IsLinkLocalUnicast (ap_Addr (Dst q)) = true → ap_Addr (Dst q) = gcpDNSAddr) ∧
      (∃ p, p ∈ local ∧ covers p (ap_Addr (Dst q))) ∧
      ∃ rule, rule ∈ pf ∧ fr_allows rule capTest q).
Proof.
  intros Hbart Hok Hm Hl f Hc Hi Hb Hq Ht Hsyn. destruct (Decode_describes q0 b) as (q' & Hq' & Hd). assert (q' = q) as -> by congruence.
  assert (IPProto q ≠ Unknown) as Hk by (rewrite Ht; done). destruct (described_plain b q Hd Hb Hk) as [Hps Hpd].
  pose proof (MatchesFromFilterRules_converts bart pf mm err Hm Hok) as Hconv.
  destruct (RunIn_admitted bart Hbart mm capTest local logIPs share heap0 (converts_wf _ _ Hconv) Hl q heap c lim rf)
    as (r & heap' & e & Hrun & Hr & Hiff); [by apply (describes_packet_ok b)|done..|].
  exists r, heap', e. split_and!; [done|done|]. rewrite Hiff, <- (converts_some_rule _ _ _ _ Hconv Hps Hpd).
  pose proof (known_long b q Hd Hk) as Hlong. unfold admitted, admittedBy. split.
  - intros [Hnil|(_ & _ & Hmc & Hll & [Hf|[Hloc Hp]])]; [by rewrite Hnil in Hlong|by rewrite Ht in Hf|]. split_and!; [done..|].
    by apply permitted_syn in Hp.
  - intros (Hmc & Hll & Hloc & Hsome). right. split_and!; [done..|]. right. split; [done|]. apply permit_rule; [by rewrite Ht|done].
Qed.

(** A library in which a range is the list of its addresses. *)
#[local] Instance eachAddress : Netipx := {|
  IPRange_IsValid lo hi := (BitLen lo =? BitLen hi) && (addr_val lo <=? addr_val hi);
  IPRange_Prefixes lo hi :=
    (λ v, {| p_Addr := if Is4 lo then Addr4 v else Addr6 v ""; p_Bits := BitLen lo |}) <$> seqZ (addr_val lo) (addr_val hi - addr_val lo + 1)
|}.

#[local] Instance eachAddress_laws : NetipxLaws.
Proof.
  split; [done|..].
  - intros lo hi Hlo Hhi Hv. apply Forall_fmap, Forall_forall. intros v Hin%elem_of_seqZ. pose proof (plain_val lo Hlo). pose proof (plain_val hi Hhi).
    destruct Hlo as (_ & Hnz & _). cbn in Hv. apply andb_true_iff in Hv as [Hb%Z.eqb_eq _].
    destruct lo as [|x|x z], hi as [|y|y z']; try done; (split_and!; [done| |cbn; lia|done]); cbn -[Z.pow] in *; lia.
  - intros lo hi ip Hlo Hhi Hv Hip. rewrite in_prefixes_elem. setoid_rewrite list_elem_of_fmap.
    assert (∀ v, Contains {| p_Addr := if Is4 lo then Addr4 v else Addr6 v ""; p_Bits := BitLen lo |} ip = true ↔ BitLen ip = BitLen lo ∧ addr_val ip = v) as Hone.
    { intros v. destruct Hlo as (_ & Hnz & _), Hip as (_ & Hnz' & Hz). unfold Contains. cbn [p_Addr p_Bits]. rewrite Hz.
      destruct lo as [|x|x z], ip as [|y|y z']; try done; unfold Prefix_IsValid; cbn [p_Bits BitLen Is4 addr_val]; cbn; rewrite ?Z.shiftr_0_r, ?Z.eqb_eq; naive_solver. }
    split.
    + intros (p & (v & -> & Hin%elem_of_seqZ) & [Hb Hval]%Hone). split; [done|lia].
    + intros (Hb & Hr). eexists. split; [exists (addr_val ip); split; [done|apply elem_of_seqZ; lia]|]. by apply Hone.
Qed.

(** Sources 100.64.0.0/30 and an argument that does not parse; destinations 100.64.0.2 to 100.64.0.3, ports 80 to 90. *)
Definition webRule : FilterRule :=
  mkFilterRule [str "100.64.0.0/30"; str "bogus"] [] [mkDstPort (str "100.64.0.2-100.64.0.3") None (mkPortRange 80 90)] [] [].
(** A SYN from 100.64.0.1 to port 80 of 100.64.0.2 *)
Definition synPkt : bytes :=
  [0x45; 0; 0; 40; 0; 0; 0; 0; 64; 6; 0; 0; 100; 64; 0; 1; 100; 64; 0; 2; 0x30; 0x39; 0; 80; 0; 0; 0; 1; 0; 0; 0; 0; 0x50; 2; 0; 0; 0; 0; 0; 0].
Definition webMatches : list Match := match MatchesFromFilterRules exactTable [webRule] with Ok (mm, _) => mm | _ => [] end.
Definition synParsed : Parsed := match Decode Parsed_zero synPkt with Ok q => q | _ => Parsed_zero end.

Lemma connections_follow_filter_rules_witness :
  ∃ r heap' e, RunIn (New exactTable webMatches None (Some sampleLocal) None None []).1 [NewCache lruMax] noLimits synParsed 0 = Ok (r, heap', e) ∧
    (r = Accept ∨ r = Drop) ∧
    (r = Accept ↔
      IsMulticast (ap_Addr (Dst synParsed)) = false ∧
      (IsLinkLocalUnicast (ap_Addr (Dst synParsed)) = true → ap_Addr (Dst synParsed) = gcpDNSAddr) ∧
      (∃ p, p ∈ sampleLocal ∧ covers p (ap_Addr (Dst synParsed))) ∧
      ∃ rule, rule ∈ [webRule] ∧ fr_allows rule None synParsed).
Proof.
  apply (connections_follow_filter_rules exactTable [webRule] webMatches (Some (Errorf "invalid IP address")) None sampleLocal None None []
           [NewCache lruMax] (NewCache lruMax) noLimits Parsed_zero synPkt synParsed 0).
  - done.
  - repeat constructor; unfold argOk; set_solver by (vm_compute; congruence).
  - vm_compute. reflexivity.
  - apply sample_wf.
  - reflexivity.
  - by apply NewCache_inv.
  - repeat (constructor; [unfold is_byte; lia|]). constructor.
  - vm_compute. reflexivity.
  - vm_compute. reflexivity.
  - vm_compute. reflexivity.
Defined.

(** The filter does accept it. *)
Example web_connection_accepted :
  ∃ heap' e, RunIn (New exactTable webMatches None (Some sampleLocal) None None []).1 [NewCache lruMax] noLimits synParsed 0 = Ok (Accept, heap', e).
Proof. eexists _, _. vm_compute. reflexivity. Qed.
