(* ===== verification/TextCanon.v ===== *)
(** * Canonical text

    [TrimSpace] and [ToLower] leave trimmed and lower-case text alone, and
    [base64] decodes what it encoded. *)
From Stdlib Require Import Ascii.
From S2P Require Import Prelude NetBuf GoStrings GoText.

(** ** Trimming *)
Definition graphic (c : Z) : bool := within 0x21 0x7e c.

(** No element of [sp] starts the text. *)
Definition trimmedBy (sp : list bytes) (s : bytes) : Prop := Forall (λ w, HasPrefix s w = false) sp.

Lemma trimWith_stop sp fuel s : trimmedBy sp s → trimWith sp fuel s = s.
Proof.
  intros Ht. destruct fuel as [|fuel]; [done|]. cbn. destruct (List.find (HasPrefix s) sp) as [w|] eqn:Hf; [|done].
  apply find_some in Hf as [Hin Hp]. rewrite (proj1 (Forall_forall _ _) Ht w) in Hp; [done|by apply list_elem_of_In].
Qed.

Lemma trimWith_trimmed sp fuel s :
  Forall (λ w, w ≠ []) sp → (length s <= fuel)%nat → trimmedBy sp (trimWith sp fuel s) ∧ ∃ a, s = a ++ trimWith sp fuel s.
Proof.
  intros Hne. revert s. induction fuel as [|fuel IH]; intros s Hl; cbn.
  - assert (s = []) as -> by (apply nil_length_inv; lia). split; [|by exists []]. eapply Forall_impl; [exact Hne|].
    intros w Hw. unfold HasPrefix. rewrite take_nil. apply bool_decide_eq_false. congruence.
  - destruct (List.find (HasPrefix s) sp) as [w|] eqn:Hf.
    + apply find_some in Hf as [Hin [r ->]%HasPrefix_iff]. rewrite drop_app_length.
      assert (w ≠ []) as Hw by (apply (proj1 (Forall_forall _ _) Hne); by apply list_elem_of_In).
      destruct (IH r) as [H1 [a H2]]; [rewrite length_app in Hl; destruct w; [done|cbn in Hl; lia]|].
      split; [done|]. exists (w ++ a). by rewrite <- app_assoc, <- H2.
    + split; [|by exists []]. apply Forall_forall. intros w Hw%list_elem_of_In. by eapply find_none in Hf.
Qed.

Lemma trimmedBy_prefix sp s t : trimmedBy sp (s ++ t) → trimmedBy sp s.
Proof.
  intros Ht. eapply Forall_impl; [exact Ht|]. intros w Hw. apply not_true_iff_false. intros [r ->]%HasPrefix_iff. apply not_true_iff_false in Hw. apply Hw.
  apply HasPrefix_iff. exists (r ++ t). by rewrite app_assoc.
Qed.

Definition trimmed (s : bytes) : Prop := trimmedBy spaces s ∧ trimmedBy ((λ w, rev w) <$> spaces) (rev s).

Lemma TrimSpace_id s : trimmed s → TrimSpace s = s.
Proof. intros [H1 H2]. unfold TrimSpace. rewrite (trimWith_stop _ _ _ H1). rewrite trimWith_stop by done. apply rev_involutive. Qed.

Lemma TrimSpace_trimmed s : trimmed (TrimSpace s).
Proof.
  unfold TrimSpace. destruct (trimWith_trimmed spaces (length s) s) as [H1 _]; [|done|].
  { apply (bool_decide_unpack (Forall (λ w, w ≠ []) spaces)). by vm_compute. }
  set (t := trimWith spaces (length s) s) in *.
  destruct (trimWith_trimmed ((λ w, rev w) <$> spaces) (length t) (rev t)) as [H2 [a Ha]]; [|by rewrite length_rev|].
  { apply (bool_decide_unpack (Forall (λ w, w ≠ []) ((λ w, rev w) <$> spaces))). by vm_compute. }
  set (u := trimWith _ _ (rev t)) in *. split; [|by rewrite rev_involutive].
  apply (f_equal (λ l, rev l)) in Ha. rewrite rev_involutive, rev_app_distr in Ha. rewrite Ha in H1. by eapply trimmedBy_prefix.
Qed.

Lemma TrimSpace_idem s : TrimSpace (TrimSpace s) = TrimSpace s.
Proof. apply TrimSpace_id, TrimSpace_trimmed. Qed.

Lemma TrimSpace_Forall (P : Z → Prop) s : Forall P s → Forall P (TrimSpace s).
Proof.
  intros Hs. unfold TrimSpace. destruct (trimWith_trimmed spaces (length s) s) as [_ [a Ha]]; [|done|].
  { apply (bool_decide_unpack (Forall (λ w, w ≠ []) spaces)). by vm_compute. }
  set (t := trimWith spaces (length s) s) in *. rewrite Ha in Hs. apply Forall_app in Hs as [_ Hs]. apply Forall_rev in Hs.
  destruct (trimWith_trimmed ((λ w, rev w) <$> spaces) (length t) (rev t)) as [_ [b Hb]]; [|by rewrite length_rev|].
  { apply (bool_decide_unpack (Forall (λ w, w ≠ []) ((λ w, rev w) <$> spaces))). by vm_compute. }
  rewrite Hb in Hs. apply Forall_app in Hs as [_ Hs]. by apply Forall_rev.
Qed.

(** Spaces begin and end with bytes that are not graphic. *)
Lemma trimmedBy_graphic sp s :
  Forall (λ w, match w with [] => False | x :: _ => graphic x = false end) sp → forallb graphic s = true → trimmedBy sp s.
Proof.
  intros Hsp Hs. eapply Forall_impl; [exact Hsp|]. intros [|x w] Hx; [done|]. apply not_true_iff_false. intros [r ->]%HasPrefix_iff.
  cbn in Hs. by rewrite Hx in Hs.
Qed.

Lemma forallb_rev {A} (f : A → bool) l : forallb f (rev l) = forallb f l.
Proof. induction l as [|x l IH]; [done|]. cbn. rewrite forallb_app, IH. cbn. by rewrite andb_true_r, andb_comm. Qed.

Lemma TrimSpace_graphic s : forallb graphic s = true → TrimSpace s = s.
Proof.
  intros Hs. apply TrimSpace_id. split; apply trimmedBy_graphic; [|done| |by rewrite forallb_rev].
  - repeat constructor.
  - repeat constructor.
Qed.

Lemma forallb_imp {A} (f g : A → bool) l : (∀ x, f x = true → g x = true) → forallb f l = true → forallb g l = true.
Proof. rewrite !forallb_forall. eauto. Qed.

(** ** Lower case *)
Section Lower.
Context `{Unicode}.

Lemma lower_id (s : bytes) : Forall (λ c, isUpper c = false) s → lowerByte <$> s = s.
Proof. induction 1 as [|c s Hc _ IH]; [done|]. cbn. unfold lowerByte at 1. rewrite Hc. by f_equal. Qed.

Lemma ToLower_id s : isASCII s = true → Forall (λ c, isUpper c = false) s → ToLower s = s.
Proof. intros Ha Hs. unfold ToLower. rewrite Ha. by apply lower_id. Qed.

Lemma ToLower_lower `{!UnicodeLaws} s : Forall (λ c, isUpper c = false) (ToLower s).
Proof.
  unfold ToLower. destruct (isASCII s); [|apply lowerRunes_lower].
  apply Forall_forall. intros c (x & -> & _)%list_elem_of_fmap. apply lowerByte_upper.
Qed.

End Lower.

(** ** Base 64 *)
Lemma sextets (f : Z → bool) : forallb f (seqZ 0 64) = true → ∀ v, 0 <= v < 64 → f v = true.
Proof. rewrite forallb_forall. intros Hf v Hv. apply Hf, list_elem_of_In, elem_of_seqZ. lia. Qed.

Lemma base64_roundtrip v : 0 <= v < 64 → base64Val (base64Char v) = Some v.
Proof. intros Hv. eapply bool_decide_eq_true_1. revert v Hv. apply (sextets (λ v, bool_decide (base64Val (base64Char v) = Some v))). by vm_compute. Qed.

Definition base64Safe (c : Z) : bool := graphic c && negb (c =? chr ".") && negb (c =? chr "=").
Lemma base64Char_safe v : 0 <= v < 64 → base64Safe (base64Char v) = true.
Proof. revert v. apply (sextets (λ v, base64Safe (base64Char v))). by vm_compute. Qed.

Lemma decodeQuanta_encode b : Forall is_byte b → decodeQuanta (EncodeToString b) = Some b.
Proof.
  induction b as [b IH] using (induction_ltof1 _ length). unfold ltof in IH. intros Hb.
  destruct b as [|x [|y [|z b]]]; [done|..]; repeat match goal with H : Forall _ (_ :: _) |- _ => inversion_clear H end;
    unfold is_byte in *; cbn [EncodeToString decodeQuanta].
  - rewrite !base64_roundtrip by (Z.div_mod_to_equations; lia). cbn. do 2 f_equal. Z.div_mod_to_equations; lia.
  - rewrite !base64_roundtrip by (Z.div_mod_to_equations; lia). cbn [mbind option_bind].
    pose proof (base64Char_safe (y mod 16 * 4) ltac:(Z.div_mod_to_equations; lia)) as Hs.
    unfold base64Safe in Hs. apply andb_true_iff in Hs as [_ ->%negb_true_iff].
    cbn. do 3 f_equal; [|f_equal]; Z.div_mod_to_equations; lia.
  - rewrite !base64_roundtrip by (Z.div_mod_to_equations; lia). cbn [mbind option_bind].
    pose proof (base64Char_safe (y mod 16 * 4 + z / 64) ltac:(Z.div_mod_to_equations; lia)) as Hs.
    pose proof (base64Char_safe (z mod 64) ltac:(Z.div_mod_to_equations; lia)) as Hs'.
    unfold base64Safe in Hs, Hs'. apply andb_true_iff in Hs as [_ ->%negb_true_iff]. apply andb_true_iff in Hs' as [_ ->%negb_true_iff]. cbn [andb].
    rewrite (IH b) by (cbn; done || lia). cbn. do 2 f_equal; [|f_equal; [|f_equal]]; Z.div_mod_to_equations; lia.
Qed.

Lemma EncodeToString_chars b : Forall is_byte b → forallb (λ c, graphic c && negb (c =? chr ".")) (EncodeToString b) = true.
Proof.
  induction b as [b IH] using (induction_ltof1 _ length). unfold ltof in IH. intros Hb.
  assert (∀ v, 0 <= v < 64 → graphic (base64Char v) && negb (base64Char v =? chr ".") = true) as Hc.
  { intros v Hv. pose proof (base64Char_safe v Hv) as Hs. unfold base64Safe in Hs. by apply andb_true_iff in Hs as [? _]. }
  destruct b as [|x [|y [|z b]]]; [done|..]; repeat match goal with H : Forall _ (_ :: _) |- _ => inversion_clear H end;
    unfold is_byte in *; cbn [EncodeToString forallb]; rewrite !Hc by (Z.div_mod_to_equations; lia); cbn; [done..|].
  apply IH; [cbn; lia|done].
Qed.

Lemma filter_keeps {A} (P : A → Prop) `{∀ x, Decision (P x)} l : Forall P l → filter P l = l.
Proof. induction 1 as [|x l Hx _ IH]; [done|]. rewrite filter_cons_True by done. by rewrite IH. Qed.

Lemma DecodeString_encode b : Forall is_byte b → DecodeString (EncodeToString b) = Some b.
Proof.
  intros Hb. unfold DecodeString. rewrite filter_keeps; [by apply decodeQuanta_encode|].
  pose proof (EncodeToString_chars b Hb) as Hc. rewrite forallb_forall in Hc. apply Forall_forall. intros c Hi%list_elem_of_In.
  specialize (Hc c Hi). unfold graphic, within in Hc. lia.
Qed.

(** What is decoded was ASCII. *)
Lemma base64Val_ASCII c v : base64Val c = Some v → 0 <= c < 128.
Proof.
  unfold base64Val, isUpper, isLower, isDigit, within. change (chr "A") with 65. change (chr "Z") with 90. change (chr "a") with 97.
  change (chr "z") with 122. change (chr "0") with 48. change (chr "9") with 57. change (chr "+") with 43. change (chr "/") with 47.
  repeat match goal with |- context [if ?x then _ else _] => destruct x eqn:? end; intros; simplify_eq; lia.
Qed.

Lemma decodeQuanta_ASCII s d : decodeQuanta s = Some d → isASCII s = true.
Proof.
  revert d. induction s as [s IH] using (induction_ltof1 _ length). unfold ltof in IH. intros d0 Hd. apply isASCII_elem. intros x Hx.
  destruct s as [|a [|b [|c [|d s]]]]; cbn in Hd; [by apply not_elem_of_nil in Hx|done..|].
  destruct (base64Val a) eqn:Ha; [|done]. destruct (base64Val b) eqn:Hb; [|done]. cbn in Hd.
  apply base64Val_ASCII in Ha, Hb. apply elem_of_cons in Hx as [->|Hx]; [done|]. apply elem_of_cons in Hx as [->|Hx]; [done|].
  assert (∀ y, y = chr "=" → 0 <= y < 128) as Heq by (intros y ->; done).
  destruct ((c =? chr "=") && (d =? chr "=") && bool_decide (s = [])) eqn:H1.
  { rewrite !andb_true_iff, !Z.eqb_eq, bool_decide_eq_true in H1. destruct H1 as [[Ec Ed] ->]. apply Heq. set_solver. }
  destruct (base64Val c) eqn:Hc; [|done]. cbn in Hd. apply base64Val_ASCII in Hc. apply elem_of_cons in Hx as [->|Hx]; [done|].
  destruct ((d =? chr "=") && bool_decide (s = [])) eqn:H2.
  { rewrite !andb_true_iff, !Z.eqb_eq, bool_decide_eq_true in H2. destruct H2 as [Ed ->]. apply Heq. set_solver. }
  destruct (base64Val d) eqn:He; [|done]. cbn in Hd. apply base64Val_ASCII in He. apply elem_of_cons in Hx as [->|Hx]; [done|].
  destruct (decodeQuanta s) eqn:Hq; [|done]. apply IH in Hq; [|cbn; lia]. rewrite isASCII_elem in Hq. auto.
Qed.

Lemma DecodeString_ASCII s d : DecodeString s = Some d → isASCII s = true.
Proof.
  unfold DecodeString. intros Hd%decodeQuanta_ASCII. rewrite isASCII_elem in Hd. apply isASCII_elem. intros c Hc.
  destruct (decide (c = 10)) as [->|]; [lia|]. destruct (decide (c = 13)) as [->|]; [lia|]. apply Hd, list_elem_of_filter. done.
Qed.
