(* ===== verification/OtaUrl.v ===== *)
(** * The canonical form of download URLs

    [NormalizeDownloadURL] maps its results to themselves, and they are HTTPS
    URLs of DNS names, of graphic ASCII characters only. *)
From Stdlib Require Import Ascii.
From S2P Require Import Prelude NetBuf GoState GoStrings GoText TextCanon NetipParse GoUrl ControlOrigin UrlBuild GoRegexp Ota.

(** ** Components of a URL *)
Lemma unreserved_byte c : unreserved c = true → 0 <= c < 256.
Proof.
  unfold unreserved. rewrite !orb_true_iff. intros [[[?|?]|?]|?]; [by eapply within_byte; [| |done]..|by eapply isOneOf_byte].
Qed.

(** What an accepted component is made of, and what holds of its normal form. *)
Definition legalByte (c : Z) : bool := graphic c && negb (c =? 92).

Lemma unreserved_ok c : unreserved c = true → legalByte c = true ∧ c ≠ chr "%" ∧ pathChar c = true ∧ noneOf "#/" c = true.
Proof.
  intros Hc. pose proof (unreserved_byte c Hc) as Hb.
  pose proof (byte_imp unreserved (λ c, legalByte c && negb (c =? chr "%") && pathChar c && noneOf "#/" c) ltac:(by vm_compute) c Hb Hc) as Hi.
  cbn in Hi. rewrite !andb_true_iff, negb_true_iff, Z.eqb_neq in Hi. tauto.
Qed.

Lemma hex_ok a :
  isHexDigit a = true →
  isHexDigit (upperByte a) = true ∧ unhex (upperByte a) = unhex a ∧ upperByte (upperByte a) = upperByte a ∧
  unreserved (upperByte a) = true.
Proof.
  intros Ha. pose proof (isHexDigit_byte a Ha) as Hb.
  pose proof (byte_imp isHexDigit (λ a, isHexDigit (upperByte a) && (unhex (upperByte a) =? unhex a) &&
    (upperByte (upperByte a) =? upperByte a) && unreserved (upperByte a)) ltac:(by vm_compute) a Hb Ha) as Hi.
  cbn in Hi. rewrite !andb_true_iff, !Z.eqb_eq in Hi. tauto.
Qed.

Lemma ParseHexByte_Some a b d :
  ParseHexByte a b = Some d → isHexDigit a = true ∧ isHexDigit b = true ∧ d = unhex a * 16 + unhex b ∧
  ParseHexByte (upperByte a) (upperByte b) = Some d.
Proof.
  unfold ParseHexByte. destruct (isHexDigit a) eqn:Ha, (isHexDigit b) eqn:Hb; cbn; [|done..]. intros [= <-].
  destruct (hex_ok a Ha) as (-> & -> & _), (hex_ok b Hb) as (-> & -> & _). done.
Qed.

Lemma legal_guard c : (c <? 0x21) || (0x7e <? c) || (c =? 92) = negb (legalByte c).
Proof. unfold legalByte, graphic, within. destruct (Z.ltb_spec c 0x21), (Z.ltb_spec 0x7e c), (Z.leb_spec 0x21 c), (Z.leb_spec c 0x7e), (c =? 92); cbn; done || lia. Qed.

(** The result of [normalizeURLComponent], one element of the input at a time. *)
Inductive normalized : bytes → bytes → Prop :=
  | norm_nil : normalized [] []
  | norm_char c v r : legalByte c = true → c ≠ chr "%" → normalized v r → normalized (c :: v) (c :: r)
  | norm_decoded a b d v r : ParseHexByte a b = Some d → unreserved d = true → normalized v r → normalized (chr "%" :: a :: b :: v) (d :: r)
  | norm_escape a b d v r : ParseHexByte a b = Some d → unreserved d = false → normalized v r →
      normalized (chr "%" :: a :: b :: v) (chr "%" :: upperByte a :: upperByte b :: r).
#[export] Hint Constructors normalized : scaletail.

Lemma normalize_iff v r : normalizeURLComponent v = Ok r ↔ normalized v r.
Proof.
  split.
  - revert r. induction v as [v IH] using (induction_ltof1 _ length). unfold ltof in IH. intros r Hr.
    destruct v as [|c v]; cbn in Hr; [simplify_eq; constructor|]. rewrite legal_guard in Hr.
    destruct (legalByte c) eqn:Hl; cbn [negb] in Hr; [|done]. destruct (Z.eqb_spec c (chr "%")) as [->|Hc]; cbn [negb] in Hr.
    + destruct v as [|a [|b v]]; [done..|]. destruct (ParseHexByte a b) as [d|] eqn:Hp; [|done].
      destruct (normalizeURLComponent v) as [r'| | |] eqn:Hv; cbn in Hr; [|done..]. apply IH in Hv; [|cbn; lia].
      destruct (unreserved d) eqn:Hu; simplify_eq; eauto with scaletail.
    + destruct (normalizeURLComponent v) as [r'| | |] eqn:Hv; cbn in Hr; [|done..]. apply IH in Hv; [|cbn; lia]. simplify_eq. by constructor.
  - induction 1 as [|c v r Hl Hc _ IH|a b d v r Hp Hu _ IH|a b d v r Hp Hu _ IH]; [done|..]; cbn [normalizeURLComponent]; rewrite legal_guard.
    + rewrite Hl. apply Z.eqb_neq in Hc. cbn [negb]. by rewrite Hc, IH.
    + change (legalByte (chr "%")) with true. cbn [negb]. rewrite Z.eqb_refl. cbn [negb]. by rewrite Hp, IH; cbn; rewrite Hu.
    + change (legalByte (chr "%")) with true. cbn [negb]. rewrite Z.eqb_refl. cbn [negb]. by rewrite Hp, IH; cbn; rewrite Hu.
Qed.

Lemma normalized_fixed v r : normalized v r → normalized r r.
Proof.
  induction 1 as [|c v r Hl Hc _ IH|a b d v r Hp Hu _ IH|a b d v r Hp Hu _ IH]; [by constructor..| |].
  - destruct (unreserved_ok d Hu) as (? & ? & _). by constructor.
  - destruct (ParseHexByte_Some _ _ _ Hp) as (Ha & Hb & _ & Hp'). destruct (hex_ok a Ha) as (_ & _ & Ea & _), (hex_ok b Hb) as (_ & _ & Eb & _).
    rewrite <- Ea at 2. rewrite <- Eb at 2. eauto with scaletail.
Qed.

(** A property of the unreserved characters and of the percent sign is kept. *)
Lemma normalized_chars (P : Z → bool) v r :
  (∀ c, unreserved c = true → P c = true) → P (chr "%") = true → normalized v r → forallb P v = true → forallb P r = true.
Proof.
  intros HP Hpc. induction 1 as [|c v r Hl Hc _ IH|a b d v r Hp Hu _ IH|a b d v r Hp Hu _ IH]; [done|..]; cbn; rewrite !andb_true_iff.
  - naive_solver.
  - intros (_ & _ & _ & Hv). split; [auto|auto].
  - intros (_ & _ & _ & Hv). destruct (ParseHexByte_Some _ _ _ Hp) as (Ha & Hb & _).
    destruct (hex_ok a Ha) as (_ & _ & _ & ?), (hex_ok b Hb) as (_ & _ & _ & ?). auto.
Qed.

Lemma normalized_graphic v r : normalized v r → forallb legalByte r = true.
Proof.
  induction 1 as [|c v r Hl Hc _ IH|a b d v r Hp Hu _ IH|a b d v r Hp Hu _ IH]; [done|..]; cbn.
  - by rewrite Hl, IH.
  - destruct (unreserved_ok d Hu) as (-> & _). by rewrite IH.
  - destruct (ParseHexByte_Some _ _ _ Hp) as (Ha & Hb & _).
    destruct (hex_ok a Ha) as (_ & _ & _ & Ua), (hex_ok b Hb) as (_ & _ & _ & Ub).
    destruct (unreserved_ok _ Ua) as (-> & _), (unreserved_ok _ Ub) as (-> & _). by rewrite IH.
Qed.

Lemma normalized_unescape v r : normalized v r → ∃ d, unescape encodePath r = Some d.
Proof.
  induction 1 as [|c v r Hl Hc _ [d IH]|a b x v r Hp Hu _ [d IH]|a b x v r Hp Hu _ [d IH]]; [by eexists|..]; cbn.
  - apply Z.eqb_neq in Hc. rewrite Hc. change (badChar encodePath c) with false. cbn. rewrite IH. by eexists.
  - destruct (unreserved_ok x Hu) as (_ & Hx & _). apply Z.eqb_neq in Hx. rewrite Hx. change (badChar encodePath x) with false. cbn. rewrite IH. by eexists.
  - destruct (ParseHexByte_Some _ _ _ Hp) as (Ha & Hb & _). destruct (hex_ok a Ha) as (-> & _), (hex_ok b Hb) as (-> & _).
    change (badEscape encodePath (upperByte a) (upperByte b)) with false. cbn. rewrite IH. by eexists.
Qed.

(** ** Hosts *)
Lemma hostChar_ok c : hostChar c = true → graphic c = true ∧ isUpper c = false ∧ plainHost c = true ∧ 0 <= c < 128.
Proof.
  intros Hc. assert (0 <= c < 256) as Hb.
  { unfold hostChar in Hc. rewrite !orb_true_iff, !Z.eqb_eq in Hc. destruct Hc as [[[?|?]| ->]| ->]; [by eapply within_byte; [| |done]..|done|done]. }
  pose proof (byte_imp hostChar (λ c, graphic c && negb (isUpper c) && plainHost c && within 0 127 c) ltac:(by vm_compute) c Hb Hc) as Hi.
  cbn in Hi. rewrite !andb_true_iff, negb_true_iff in Hi. destruct Hi as [[[? ?] ?] Hw]. unfold within in Hw. split_and!; try done; lia.
Qed.

Section Canonical.
Context `{Unicode, OtaEnv}.

Lemma validOTAHost_chars host : validOTAHost host = true → host ≠ [] ∧ forallb hostChar host = true.
Proof.
  unfold validOTAHost. destruct (bool_decide_reflect (host = [])); [done|]. cbn [orb]. destruct (_ || _); [done|]. destruct (_ || _); [done|].
  rewrite andb_true_iff. tauto.
Qed.

Lemma validOTAHost_plain host :
  validOTAHost host = true → (host ≠ [] ∧ forallb plainHost host = true) ∧ forallb graphic host = true ∧ ToLower host = host.
Proof.
  intros [Hne Hc]%validOTAHost_chars. split_and!; [done|..].
  - eapply forallb_imp; [|exact Hc]. intros c ?%hostChar_ok. tauto.
  - eapply forallb_imp; [|exact Hc]. intros c ?%hostChar_ok. tauto.
  - rewrite forallb_forall in Hc. apply ToLower_id.
    + apply isASCII_elem. intros c Hin%list_elem_of_In. by apply hostChar_ok, Hc.
    + apply Forall_forall. intros c Hin%list_elem_of_In. by apply hostChar_ok, Hc.
Qed.

(** ** The parts of a canonical URL *)
Definition portOK (port : bytes) : Prop := port = [] ∨ ∃ n, 1 <= n <= 65535 ∧ n ≠ 443 ∧ port = itoa n.

Lemma portOK_digits port : portOK port → forallb isDigit port = true.
Proof. intros [->|(n & ? & _ & ->)]; [done|]. apply itoa_digits. lia. Qed.

Record canonicalURL (U host port path query : bytes) : Prop := {
  cu_url : U = str "https://" ++ authorityPart host port ++ path ++ queryPart query;
  cu_host : validOTAHost host = true;
  cu_port : portOK port;
  cu_slash : ∃ r, path = chr "/" :: r;
  cu_path : normalized path path;
  cu_chars : forallb pathChar path = true;
  cu_query : normalized query query;
  cu_hash : forallb (noneOf "#") query = true
}.

Lemma canonicalURL_graphic U host port path query : canonicalURL U host port path query → forallb graphic U = true.
Proof.
  intros [-> Hh Hp _ Hpath _ Hq _]. apply validOTAHost_plain in Hh as (_ & Hg & _).
  assert (∀ l, forallb legalByte l = true → forallb graphic l = true) as Hl.
  { intros l. apply forallb_imp. unfold legalByte. intros c. rewrite andb_true_iff. tauto. }
  unfold authorityPart, portPart, queryPart. rewrite !forallb_app, Hg. rewrite (Hl path) by by eapply normalized_graphic.
  assert (forallb graphic port = true) as Hport.
  { apply portOK_digits in Hp. eapply forallb_imp; [|exact Hp]. intros c Hc. unfold isDigit, within in Hc. unfold graphic, within.
    change (chr "0") with 48 in Hc. change (chr "9") with 57 in Hc. lia. }
  assert (forallb graphic query = true) as Hquery by (apply Hl; by eapply normalized_graphic).
  case_bool_decide; case_bool_decide; cbn; by rewrite ?Hport, ?Hquery.
Qed.

Lemma normalized_slash v r : normalized (chr "/" :: v) r → ∃ r', r = chr "/" :: r'.
Proof. inversion 1; subst; eauto. Qed.

Definition nonempty (path : bytes) : bytes := if bool_decide (path = []) then str "/" else path.

Lemma NormalizeDownloadURL_inv raw U :
  NormalizeDownloadURL raw = Ok U →
  ∃ u host port path query,
    url_Parse (TrimSpace raw) = Some u ∧ Host u ≠ [] ∧ validOTAHost host = true ∧ portOK port ∧
    normalized (EscapedPath u) path ∧ normalized (RawQuery u) query ∧
    U = str "https://" ++ authorityPart host port ++ nonempty path ++ queryPart query.
Proof.
  unfold NormalizeDownloadURL. destruct (_ || _); [done|]. destruct (url_Parse (TrimSpace raw)) as [u|]; [|done].
  match goal with |- (if ?b then _ else _) = _ → _ => destruct b eqn:Hg end; [done|].
  destruct (EqualFold _ _); cbn [negb]; [|done]. destruct (validOTAHost (ToLower (Hostname u))) eqn:Hh; cbn [negb]; [|done].
  match goal with |- mbind _ ?r = _ → _ => destruct r as [port| | |] eqn:Hp end; cbn [mbind res_bind]; [|done..].
  assert (portOK port) as Hport.
  { destruct (bool_decide (Port u = [])); [simplify_eq; by left|]. destruct (Atoi (Port u)) as [n|]; [|done].
    destruct (Z.ltb_spec n 1), (Z.ltb_spec 65535 n); cbn in Hp; [done..|]. destruct (Z.eqb_spec n 443); simplify_eq; [by left|].
    right. exists n. split_and!; [lia|lia|done|done]. }
  destruct (normalizeURLComponent (EscapedPath u)) as [path| | |] eqn:Hpath; cbn [mbind res_bind]; [|done..].
  destruct (normalizeURLComponent (RawQuery u)) as [query| | |] eqn:Hq; cbn [mbind res_bind]; [|done..].
  intros [= <-]. apply normalize_iff in Hpath, Hq.
  exists u, (ToLower (Hostname u)), port, path, query. split_and!; try done.
  - rewrite !orb_false_iff, bool_decide_eq_false in Hg. rewrite bool_decide_eq_false in Hg. tauto.
  - unfold authorityPart, portPart. by rewrite <- app_assoc.
Qed.

Lemma NormalizeDownloadURL_canonical raw U :
  Forall is_byte (TrimSpace raw) → NormalizeDownloadURL raw = Ok U → ∃ host port path query, canonicalURL U host port path query.
Proof.
  intros Hraw (u & host & port & path & query & Hu & Hhost & Hh & Hp & Hpath & Hq & ->)%NormalizeDownloadURL_inv.
  destruct (url_Parse_parts _ _ Hu Hhost) as [rest Hparts]. destruct (EscapedPath_parts _ _ _ Hparts Hraw) as [Hchars Hslash].
  exists host, port, (nonempty path), query.
  assert ((∃ r, nonempty path = chr "/" :: r) ∧ normalized (nonempty path) (nonempty path) ∧ forallb pathChar (nonempty path) = true) as (Hs & Hn & Hc).
  { unfold nonempty. case_bool_decide as He; [split; [by eexists|split; [apply normalize_iff; by vm_compute|by vm_compute]]|].
    split; [|split; [by eapply normalized_fixed|eapply normalized_chars; [|done|exact Hpath|done]; intros c Hc; by destruct (unreserved_ok c Hc) as (_ & _ & ? & _)]].
    destruct Hslash as [Hnil|[r Hr]]; [rewrite Hnil in Hpath; inversion Hpath; congruence|]. rewrite Hr in Hpath. by eapply normalized_slash. }
  split; try done; [by eapply normalized_fixed|]. eapply normalized_chars; [|done|exact Hq|].
  - intros c Hu'. apply unreserved_ok in Hu' as (_ & _ & _ & Hn'). unfold noneOf in Hn' |- *. rewrite andb_true_iff, negb_true_iff in Hn' |- *.
    destruct Hn' as [Hn' ?]. split; [|done]. unfold isOneOf in Hn' |- *. rewrite bool_decide_eq_false in Hn' |- *.
    change (str "#/") with [chr "#"; chr "/"] in Hn'. change (str "#") with [chr "#"]. set_solver.
  - apply forallb_forall. intros c Hc'%list_elem_of_In. destruct (pp_query _ _ _ Hparts c Hc') as (_ & Hne & Hctl).
    unfold noneOf, isOneOf. rewrite Hctl, bool_decide_false; [done|]. change (str "#") with [chr "#"]. set_solver.
Qed.

Lemma NormalizeDownloadURL_fixed U host port path query :
  canonicalURL U host port path query → zlen U <= 2048 → NormalizeDownloadURL U = Ok U.
Proof.
  intros HU Hlen. pose proof (canonicalURL_graphic _ _ _ _ _ HU) as Hg. destruct HU as [HU Hh Hp Hs Hpath Hc Hq Hhash].
  destruct (validOTAHost_plain host Hh) as (Hplain & _ & Hlow). pose proof (portOK_digits port Hp) as Hd.
  destruct (normalized_unescape _ _ Hpath) as [d Hdec]. destruct Hs as [r Hr].
  unfold NormalizeDownloadURL. rewrite (TrimSpace_graphic U Hg).
  rewrite (bool_decide_false (U = [])) by (rewrite HU; done). replace (2048 <? zlen U) with false by lia. cbn [orb].
  pose proof (url_Parse_built host port path query d Hplain Hd (or_intror (ex_intro _ r Hr)) Hc Hdec Hhash (str "https") (or_intror eq_refl)) as Hparse.
  change (str "https" ++ str "://" ++ authorityPart host port ++ path ++ queryPart query)
    with (str "https://" ++ authorityPart host port ++ path ++ queryPart query) in Hparse. rewrite <- HU in Hparse. rewrite Hparse.
  pose proof (split_built host port path query d Hplain Hd (or_intror (ex_intro _ r Hr)) Hc Hdec Hhash (str "https")) as [Hhn Hpn].
  pose proof (EscapedPath_built host port path query d Hplain Hd (or_intror (ex_intro _ r Hr)) Hc Hdec Hhash (str "https")) as He.
  rewrite Hhn, Hpn, He. cbn [builtURL Scheme Host Opaque User Fragment ForceQuery RawQuery].
  rewrite (bool_decide_false (str "https" = [])), (bool_decide_false (authorityPart host port = [])) by
    (done || (unfold authorityPart; destruct Hplain as [Hne _]; destruct host; done)).
  rewrite (bool_decide_true (@nil Z = [])), (bool_decide_false (None ≠ None)) by (done || naive_solver). cbn [orb negb].
  change (EqualFold (str "https") (str "https")) with true. cbn [negb]. rewrite Hlow, Hh. cbn [negb].
  apply normalize_iff in Hpath, Hq.
  match goal with |- mbind _ ?r = _ => assert (r = Ok port) as -> end.
  { destruct Hp as [->|(n & Hn & Hn' & ->)]; [done|]. rewrite bool_decide_false by (apply itoa_digits; lia). rewrite Atoi_itoa by lia.
    replace (n <? 1) with false by lia. replace (65535 <? n) with false by lia. replace (n =? 443) with false by lia. done. }
  cbn [mbind res_bind]. rewrite Hpath. cbn [mbind res_bind]. rewrite Hq. cbn [mbind res_bind].
  rewrite (bool_decide_false (path = [])) by (by rewrite Hr). rewrite HU. unfold authorityPart, portPart, queryPart. by rewrite <- app_assoc.
Qed.

Lemma NormalizeDownloadURL_length raw U : NormalizeDownloadURL raw = Ok U → zlen (TrimSpace raw) <= 2048.
Proof. unfold NormalizeDownloadURL. destruct (Z.ltb_spec 2048 (zlen (TrimSpace raw))); [by rewrite orb_true_r|done]. Qed.

End Canonical.
