(* ===== verification/OtaCanon.v ===== *)
(** * Canonical policies

    Canonical policies are fixed points of [Canonicalize]; the signed message
    determines every field of the policy but the signature; what [Verify]
    returns verifies again, as the daemon relies on when it reads back the
    policy it persisted. *)
From Stdlib Require Import Ascii.
From S2P Require Import Prelude NetBuf GoState GoStrings GoText TextCanon NetipParse GoUrl ControlOrigin UrlBuild GoRegexp Ota OtaUrl.

(** ** Versions *)
Definition versionChar (c : Z) : bool := idChar c || (c =? chr ".") || (c =? chr "+").

Lemma versionChar_byte c : versionChar c = true → 0 <= c < 256.
Proof.
  unfold versionChar, idChar. rewrite !orb_true_iff, !Z.eqb_eq. intros [[[[[?|?]|?]| ->]| ->]| ->]; try done; by eapply within_byte; [| |done].
Qed.

Lemma versionChar_graphic c : versionChar c = true → graphic c = true.
Proof. intros Hc. pose proof (versionChar_byte c Hc) as Hb. revert c Hb Hc. apply byte_imp. by vm_compute. Qed.

Lemma versionCore_chars s : lang versionCore s → Forall (λ c, versionChar c = true) s.
Proof.
  intros Hs. eapply lang_classes; [exact Hs|].
  assert (∀ c, within (chr "1") (chr "9") c = true → isDigit c = true) as H19
    by (intros c; unfold isDigit, within; change (chr "0") with 48; change (chr "1") with 49; change (chr "9") with 57; lia).
  assert (∀ c, isDigit c = true → versionChar c = true) as Hd by (intros c Hc; unfold versionChar, idChar; by rewrite Hc).
  assert (∀ c, idChar c = true → versionChar c = true) as Hi by (intros c Hc; unfold versionChar; by rewrite Hc).
  cbn -[versionChar idChar isDigit within chr]. split_and!; try done; intros c Hc; try (by apply Z.eqb_eq in Hc as <-); auto.
Qed.

Lemma numericId_first s : lang numericId s → ∃ c t, s = c :: t ∧ isDigit c = true.
Proof.
  unfold numericId. rewrite lang_alt. intros [Hl|Hl].
  - inversion Hl as [| |? ? s1 s2 H1 H2| | | |]; subst. inversion H1 as [|? c Hc| | | | |]; subst. inversion H2; subst. apply Z.eqb_eq in Hc as <-. by exists (chr "0"), [].
  - inversion Hl as [| |? ? s1 s2 H1 H2| | | |]; subst. inversion H1 as [|? c Hc| | | | |]; subst. exists c, s2. split; [done|].
    unfold within in Hc. unfold isDigit, within. change (chr "0") with 48. change (chr "1") with 49 in Hc. change (chr "9") with 57 in *. lia.
Qed.

Lemma versionCore_first s : lang versionCore s → ∃ c t, s = c :: t ∧ isDigit c = true.
Proof.
  unfold versionCore. intros (s1 & s2 & -> & (c & t & -> & Hc)%numericId_first & _)%lang_RSeq. by exists c, (t ++ s2).
Qed.

Lemma TrimPrefix_other c t p : p ≠ c → TrimPrefix (c :: t) [p] = c :: t.
Proof. intros Hp. unfold TrimPrefix, HasPrefix. cbn. rewrite bool_decide_false; [done|]. intros [= ?]. done. Qed.

Lemma TrimPrefix_same p t : TrimPrefix (p :: t) [p] = t.
Proof. unfold TrimPrefix, HasPrefix. cbn. by rewrite bool_decide_true. Qed.

Lemma pattern_core s : lang semanticVersionPattern s → lang versionCore (TrimPrefix (TrimPrefix s (str "v")) (str "V")).
Proof.
  unfold semanticVersionPattern. intros (s1 & s2 & -> & Ho & Hc)%lang_RSeq. destruct (versionCore_first s2 Hc) as (c & t & -> & Hd).
  change (str "v") with [chr "v"]. change (str "V") with [chr "V"].
  assert (c ≠ chr "v" ∧ c ≠ chr "V") as [Hv HV] by (split; intros ->; done).
  apply lang_alt in Ho as [Ho|Ho]; inversion Ho as [|? x Hx| | | | |]; subst; cbn [app].
  - rewrite !TrimPrefix_other by done. done.
  - apply orb_true_iff in Hx as [->%Z.eqb_eq| ->%Z.eqb_eq].
    + rewrite TrimPrefix_same, TrimPrefix_other by done. done.
    + rewrite (TrimPrefix_other (chr "V")), TrimPrefix_same by done. done.
Qed.

Lemma core_pattern s : lang versionCore s → lang semanticVersionPattern s.
Proof. intros Hs. change s with ([] ++ s). constructor; [apply lang_alt_l; constructor|done]. Qed.

Section Versions.
Context `{OtaEnv}.

Lemma canonicalVersion_Some value v :
  canonicalVersion value = Some v → ∃ core, v = str "v" ++ core ∧ lang versionCore core ∧ semver_IsValid v = true.
Proof.
  unfold canonicalVersion. destruct (MatchString _ _) eqn:Hm; cbn [negb]; [|done]. destruct (semver_IsValid _) eqn:Hv; [|done].
  intros [= <-]. eexists. split_and!; [done| |done]. by apply pattern_core, MatchString_lang.
Qed.

Lemma canonicalVersion_core core :
  lang versionCore core → semver_IsValid (str "v" ++ core) = true → canonicalVersion core = Some (str "v" ++ core).
Proof.
  intros Hc Hv. unfold canonicalVersion. rewrite TrimSpace_graphic.
  2: { apply versionCore_chars in Hc. apply forallb_forall. intros c Hin%list_elem_of_In. rewrite Forall_forall in Hc. by apply versionChar_graphic, Hc. }
  rewrite (proj2 (MatchString_lang _ _)) by by apply core_pattern. cbn [negb].
  destruct (versionCore_first core Hc) as (c & t & -> & Hd). change (str "v") with [chr "v"] in *. change (str "V") with [chr "V"].
  rewrite !TrimPrefix_other by (intros <-; done). by rewrite Hv.
Qed.

End Versions.

(** ** Canonical policies *)
Section Canonical.
Context `{Unicode, !UnicodeLaws, OtaEnv}.

Definition isAction (a : bytes) : Prop := a = ActionSuggested ∨ a = ActionForced ∨ a = ActionClear.
Definition artifactOK (q : Policy) : Prop :=
  (Action q = ActionClear ∧ SHA256 q = [] ∧ FileSize q = 0 ∧ DownloadURL q = []) ∨
  (Action q ≠ ActionClear ∧ zlen (SHA256 q) = 64 ∧ hexOk (SHA256 q) = true ∧ Forall (λ c, isUpper c = false) (SHA256 q) ∧
   0 < FileSize q <= maxPolicyArtifactSize).

Record canonical (q : Policy) : Prop := {
  ca_revision : Revision q ≠ 0 ∧ Revision q <= maxPolicyRevision;
  ca_action : isAction (Action q);
  ca_version : lang versionCore (Version q) ∧ semver_IsValid (str "v" ++ Version q) = true;
  ca_platform : validPlatform (Platform q) = true;
  ca_artifact : artifactOK q;
  ca_signature : trimmed (Signature q)
}.

Lemma platform_text s : validPlatform s = true → forallb graphic s = true ∧ ToLower s = s.
Proof using Type.
  unfold validPlatform. destruct (_ || _); [done|]. intros Hs.
  assert (∀ c, isLower c || isDigit c || (c =? chr "-") = true → graphic c && negb (isUpper c) && within 0 127 c = true) as Hi.
  { intros c. unfold isLower, isDigit, isUpper, graphic, within. change (chr "a") with 97. change (chr "z") with 122. change (chr "0") with 48.
    change (chr "9") with 57. change (chr "-") with 45. change (chr "A") with 65. change (chr "Z") with 90. lia. }
  rewrite forallb_forall in Hs. split; [apply forallb_forall; intros c Hc|apply ToLower_id].
  - specialize (Hi c (Hs c Hc)). rewrite !andb_true_iff in Hi. tauto.
  - apply forallb_forall. intros c Hc. specialize (Hi c (Hs c Hc)). rewrite !andb_true_iff in Hi. tauto.
  - apply Forall_forall. intros c Hc%list_elem_of_In. specialize (Hi c (Hs c Hc)). rewrite !andb_true_iff, negb_true_iff in Hi. tauto.
Qed.

Lemma hex_text s : hexOk s = true → Forall (λ c, isUpper c = false) s → forallb graphic s = true ∧ ToLower s = s.
Proof using Type.
  unfold hexOk. rewrite andb_true_iff. intros [_ Hh] Hu. rewrite forallb_forall in Hh.
  assert (∀ c, isHexDigit c = true → graphic c = true ∧ 0 <= c < 128) as Hi.
  { intros c. unfold isHexDigit, isDigit, graphic, within. change (chr "a") with 97. change (chr "f") with 102. change (chr "0") with 48.
    change (chr "9") with 57. change (chr "A") with 65. change (chr "F") with 70. lia. }
  split; [apply forallb_forall; intros c Hc; by apply Hi, Hh|]. apply ToLower_id; [|done].
  apply isASCII_elem. intros c Hc%list_elem_of_In. by apply Hi, Hh.
Qed.

Lemma action_text a : isAction a → forallb graphic a = true ∧ ToLower a = a.
Proof using Type. by intros [->|[->| ->]]. Qed.

Lemma version_graphic q : canonical q → forallb graphic (Version q) = true.
Proof using Type.
  intros [_ _ [Hv%versionCore_chars _] _ _ _]. apply forallb_forall. intros c Hin%list_elem_of_In. rewrite Forall_forall in Hv. by apply versionChar_graphic, Hv.
Qed.

(** Canonical policies pass through the cleaning of [Canonicalize] unchanged. *)
Lemma clean_canonical q : canonical q → TrimSpace (DownloadURL q) = DownloadURL q → clean q = q.
Proof using Type.
  intros Hq Hurl. pose proof (version_graphic q Hq) as Hv. destruct Hq as [_ Ha _ Hp Har Hs].
  destruct (action_text _ Ha) as [Ha1 Ha2], (platform_text _ Hp) as [Hp1 Hp2].
  assert (forallb graphic (SHA256 q) = true ∧ ToLower (SHA256 q) = SHA256 q) as [Hsh1 Hsh2].
  { destruct Har as [(_ & -> & _)|(_ & _ & Hh & Hu & _)]; [done|by apply hex_text]. }
  unfold clean. rewrite Hurl, (TrimSpace_id _ Hs), (TrimSpace_graphic (Action q)), (TrimSpace_graphic (Version q)),
    (TrimSpace_graphic (Platform q)), (TrimSpace_graphic (SHA256 q)) by done. rewrite Ha2, Hp2, Hsh2. by destruct q.
Qed.

Lemma Canonicalize_ok policy q :
  Canonicalize policy = Ok q →
  canonical q ∧ Revision q = Revision policy ∧ Action q = ToLower (TrimSpace (Action policy)) ∧
  (Action q ≠ ActionClear → NormalizeDownloadURL (TrimSpace (DownloadURL policy)) = Ok (DownloadURL q)).
Proof using Type*.
  unfold Canonicalize. set (p := clean policy).
  destruct (Z.eqb_spec (Revision p) 0), (Z.ltb_spec maxPolicyRevision (Revision p)); cbn [orb]; [done..|].
  match goal with |- (if ?b then _ else _) = _ → _ => destruct b eqn:Ha end; [done|].
  assert (isAction (Action p)) as Hact.
  { rewrite !andb_false_iff, !negb_false_iff, !bool_decide_eq_true in Ha. unfold isAction. tauto. }
  destruct (canonicalVersion (Version p)) as [v|] eqn:Hv; [|done]. apply canonicalVersion_Some in Hv as (core & -> & Hcore & Hvalid).
  change (TrimPrefix (str "v" ++ core) (str "v")) with (TrimPrefix (chr "v" :: core) [chr "v"]). rewrite TrimPrefix_same. clear Ha.
  destruct (validPlatform _) eqn:Hp; cbn [negb]; [|done]. cbn [setVersion Action SHA256 FileSize DownloadURL Platform] in *.
  assert (trimmed (Signature p)) as Hsig by apply TrimSpace_trimmed.
  destruct (bool_decide_reflect (Action p = ActionClear)) as [Hc|Hc].
  - destruct (bool_decide_reflect (SHA256 p = [])), (Z.eqb_spec (FileSize p) 0), (bool_decide_reflect (DownloadURL p = [])); cbn; try done.
    intros [= <-]. split; [|done]. split; try done. by left.
  - destruct (Z.eqb_spec (zlen (SHA256 p)) 64); cbn [negb]; [|done]. destruct (hexOk (SHA256 p)) eqn:Hh; cbn [negb]; [|done].
    destruct (Z.leb_spec (FileSize p) 0), (Z.ltb_spec maxPolicyArtifactSize (FileSize p)); cbn [orb]; [done..|].
    destruct (NormalizeDownloadURL (DownloadURL p)) as [u| | |] eqn:Hu; cbn [mbind res_bind]; [|done..]. intros [= <-].
    split; [|done]. split; try done. right. split_and!; try done; try lia. apply ToLower_lower.
Qed.

(** The order of the checks on a policy that is canonical already. *)
Lemma Canonicalize_canonical q :
  canonical q → TrimSpace (DownloadURL q) = DownloadURL q → (Action q ≠ ActionClear → NormalizeDownloadURL (DownloadURL q) = Ok (DownloadURL q)) →
  Canonicalize q = Ok q.
Proof using Type.
  intros Hq Htrim Hurl. unfold Canonicalize. rewrite (clean_canonical q Hq Htrim). destruct Hq as [[Hr1 Hr2] Ha [Hv1 Hv2] Hp Har Hs].
  replace (Revision q =? 0) with false by lia. replace (maxPolicyRevision <? Revision q) with false by lia. cbn [orb].
  match goal with |- (if ?b then _ else _) = _ => assert (b = false) as -> end.
  { destruct Ha as [->|[->| ->]]; by vm_compute. }
  rewrite (canonicalVersion_core _ Hv1 Hv2).
  change (TrimPrefix (str "v" ++ Version q) (str "v")) with (TrimPrefix (chr "v" :: Version q) [chr "v"]). rewrite TrimPrefix_same.
  assert (setVersion (Version q) q = q) as -> by (by destruct q). rewrite Hp. cbn [negb].
  destruct Har as [(-> & -> & -> & ->)|(Hc & Hsha & Hh & _ & Hsz1 & Hsz2)]; [done|].
  rewrite bool_decide_false by done. rewrite Hsha, Hh, (Hurl Hc). cbn [negb Z.eqb Pos.eqb]. replace (FileSize q <=? 0) with false by lia.
  replace (maxPolicyArtifactSize <? FileSize q) with false by lia. cbn. by destruct q.
Qed.

(** ** Policies as they arrive: an unsigned revision, and text of bytes *)
Definition wfPolicy (p : Policy) : Prop := 0 <= Revision p ∧ Forall is_byte (DownloadURL p).

Lemma canonical_url policy q :
  wfPolicy policy → Canonicalize policy = Ok q →
  (Action q = ActionClear ∧ DownloadURL q = []) ∨ Action q ≠ ActionClear ∧ ∃ host port path query, canonicalURL (DownloadURL q) host port path query.
Proof using Type*.
  intros [_ Hb] (Hq & _ & _ & Hurl)%Canonicalize_ok. destruct (ca_artifact _ Hq) as [(? & _ & _ & ?)|(Hc & _)]; [by left|right].
  split; [done|]. specialize (Hurl Hc). eapply NormalizeDownloadURL_canonical; [|exact Hurl]. by apply TrimSpace_Forall, TrimSpace_Forall.
Qed.

Lemma canonical_url_graphic policy q : wfPolicy policy → Canonicalize policy = Ok q → forallb graphic (DownloadURL q) = true.
Proof using Type*.
  intros Hwf Hq. destruct (canonical_url _ _ Hwf Hq) as [[_ ->]|(_ & host & port & path & query & Hu)]; [done|]. by eapply canonicalURL_graphic.
Qed.

(** Where the canonical form is accepted again, it is its own canonical form. *)
Lemma Canonicalize_idem policy q q' : wfPolicy policy → Canonicalize policy = Ok q → Canonicalize q = Ok q' → q' = q.
Proof using Type*.
  intros Hwf Hq Hq'. enough (Canonicalize q = Ok q) by congruence.
  pose proof (TrimSpace_graphic _ (canonical_url_graphic _ _ Hwf Hq)) as Htrim. pose proof (canonical_url _ _ Hwf Hq) as Hu.
  apply Canonicalize_ok in Hq as (Hq & _), Hq' as (_ & _ & Ha & Hurl). apply Canonicalize_canonical; [done|done|]. intros Hc.
  destruct Hu as [[? _]|(_ & host & port & path & query & Hu)]; [done|].
  eapply NormalizeDownloadURL_fixed; [exact Hu|]. rewrite <- Htrim, <- (TrimSpace_idem (DownloadURL q)). eapply NormalizeDownloadURL_length, Hurl.
  destruct (action_text _ (ca_action _ Hq)) as [Hg Hl]. rewrite Ha, TrimSpace_graphic, Hl by done. done.
Qed.

(** ** The signed message *)
Definition unsigned (p : Policy) : Policy :=
  mkPolicy (Revision p) (Action p) (Version p) (Platform p) (SHA256 p) (FileSize p) (DownloadURL p) [].

Lemma graphic_line s : forallb graphic s = true → 10 ∉ s.
Proof using Type. intros Hs. by eapply forallb_absent. Qed.

Lemma digits_line n : 0 <= n → 10 ∉ itoa n.
Proof using Type. intros Hn. destruct (itoa_digits n Hn) as [Hd _]. by eapply forallb_absent. Qed.

(** One line of text per field. *)
Record linesOf (q : Policy) : Prop := {
  ln_revision : 0 <= Revision q; ln_action : 10 ∉ Action q; ln_version : 10 ∉ Version q; ln_platform : 10 ∉ Platform q;
  ln_sha : 10 ∉ SHA256 q; ln_size : 0 <= FileSize q; ln_url : 10 ∉ DownloadURL q
}.

Lemma canonical_lines policy q : wfPolicy policy → Canonicalize policy = Ok q → linesOf q.
Proof using Type*.
  intros Hwf Hc. pose proof (graphic_line _ (canonical_url_graphic _ _ Hwf Hc)) as Hu. destruct Hwf as [Hr _].
  apply Canonicalize_ok in Hc as (Hq & Hrev & _). pose proof (graphic_line _ (version_graphic _ Hq)) as Hv.
  destruct Hq as [_ Ha _ Hp Har _]. split; try done.
  - lia.
  - by apply graphic_line, action_text.
  - by apply graphic_line, platform_text.
  - destruct Har as [(_ & -> & _)|(_ & _ & Hh & Hup & _)]; [by apply not_elem_of_nil|by apply graphic_line, hex_text].
  - destruct Har as [(_ & _ & -> & _)|(_ & _ & _ & _ & ? & _)]; lia.
Qed.

Lemma messageOf_inj q1 q2 : linesOf q1 → linesOf q2 → messageOf q1 = messageOf q2 → unsigned q1 = unsigned q2.
Proof using Type.
  intros [] [] Hm. unfold messageOf in Hm. apply app_inv_head in Hm. injection Hm as Hm.
  do 7 (apply app_cons_first_inj in Hm as [? Hm]; [|first [done | by apply digits_line]..]).
  unfold unsigned. f_equal; try done; by apply itoa_inj.
Qed.

(** ** What [Verify] returns *)
Lemma Verify_inv p q :
  Verify p = Ok q →
  Canonicalize p = Ok q ∧ ∃ q' sig pk, Canonicalize q = Ok q' ∧ parseSignature (Signature q) = Ok sig ∧
    DecodeString PublicKeyBase64 = Some pk ∧ ed25519_Verify pk (messageOf q') sig = true.
Proof using Type.
  unfold Verify. destruct (Canonicalize p) as [c| | |]; cbn [mbind res_bind]; [|done..].
  destruct (DecodeString PublicKeyBase64) as [pk|]; [|done]. destruct (negb _); [done|].
  destruct (parseSignature (Signature c)) as [sig| | |] eqn:Hs; cbn [mbind res_bind]; [|done..].
  unfold Message. destruct (Canonicalize c) as [c'| | |] eqn:Hc; cbn [mbind res_bind]; [|done..].
  destruct (ed25519_Verify _ _ _) eqn:He; cbn [negb]; [|done]. intros [= <-]. eauto 10.
Qed.

Lemma Verify_idem p q : wfPolicy p → Verify p = Ok q → Verify q = Ok q.
Proof using Type*.
  intros Hw Hv. pose proof (Verify_inv _ _ Hv) as (Hc & q' & _ & _ & Hc' & _).
  pose proof (Canonicalize_idem _ _ _ Hw Hc Hc') as ->. unfold Verify in *. rewrite Hc in Hv. rewrite Hc'. exact Hv.
Qed.

Lemma Verify_revision p q : wfPolicy p → Verify p = Ok q → 0 < Revision q.
Proof using Type*.
  intros [Hr _] (Hc & _)%Verify_inv. apply Canonicalize_ok in Hc as ([[? ?] _ _ _ _ _] & Hrev & _). lia.
Qed.

Lemma graphic_ASCII s : forallb graphic s = true → isASCII s = true.
Proof using Type. apply forallb_imp. unfold graphic, within. lia. Qed.

Lemma parseSignature_ASCII v sig : trimmed v → parseSignature v = Ok sig → isASCII v = true.
Proof using Type.
  intros Ht. unfold parseSignature. rewrite (TrimSpace_id _ Ht). destruct (HasPrefix v signatureV3Prefix) eqn:Hp; [|done].
  cbn [negb orb]. destruct (negb _); [done|]. unfold TrimPrefix. rewrite Hp. apply HasPrefix_iff in Hp as [r ->].
  rewrite drop_app_length. destruct (DecodeString r) eqn:Hd; [|done]. intros _. apply DecodeString_ASCII in Hd.
  rewrite isASCII_app. by rewrite Hd.
Qed.

(** Every field of a verified policy is ASCII text. *)
Lemma Verify_ASCII p q :
  wfPolicy p → Verify p = Ok q →
  isASCII (Action q) = true ∧ isASCII (Version q) = true ∧ isASCII (Platform q) = true ∧ isASCII (SHA256 q) = true ∧
  isASCII (DownloadURL q) = true ∧ isASCII (Signature q) = true.
Proof using Type*.
  intros Hw (Hc & _ & sig & _ & _ & Hs & _)%Verify_inv. pose proof (canonical_url_graphic _ _ Hw Hc) as Hu.
  apply Canonicalize_ok in Hc as (Hq & _). pose proof (version_graphic _ Hq) as Hv. destruct Hq as [_ Ha _ Hp Har Ht].
  split_and!; try (apply graphic_ASCII; done).
  - by apply graphic_ASCII, action_text.
  - by apply graphic_ASCII, platform_text.
  - destruct Har as [(_ & -> & _)|(_ & _ & Hh & Hup & _)]; [done|by apply graphic_ASCII, hex_text].
  - by eapply parseSignature_ASCII.
Qed.

End Canonical.

(** ** Properties *)
Section Properties.
Context `{Unicode, !UnicodeLaws, OtaEnv}.

(** C24. The message that is signed determines every field of the policy but the
    signature: two policies with the same message have canonical forms that
    differ in nothing else, so a signature cannot be moved to another action,
    revision, version, platform, digest, size or URL. *)
Theorem ota_message_binds p1 p2 m :
  wfPolicy p1 → wfPolicy p2 → Message p1 = Ok m → Message p2 = Ok m →
  ∃ q1 q2, Canonicalize p1 = Ok q1 ∧ Canonicalize p2 = Ok q2 ∧ unsigned q1 = unsigned q2.
Proof using Type*.
  unfold Message. intros Hw1 Hw2 Hm1 Hm2.
  destruct (Canonicalize p1) as [q1| | |] eqn:Hq1; cbn [mbind res_bind] in Hm1; [|done..]. destruct (Canonicalize p2) as [q2| | |] eqn:Hq2; cbn [mbind res_bind] in Hm2; [|done..].
  exists q1, q2. split_and!; [done..|]. apply messageOf_inj; [exact (canonical_lines _ _ Hw1 Hq1)|exact (canonical_lines _ _ Hw2 Hq2)|]. congruence.
Qed.

(** What [Verify] returns verifies again, and to the same policy. *)
Theorem ota_verify_stable p q : wfPolicy p → Verify p = Ok q → Verify q = Ok q.
Proof using Type*. apply Verify_idem. Qed.

(** C27. An accepted download URL becomes an HTTPS URL of a DNS name that is no
    address literal, with only graphic ASCII characters; and the result, where
    it is not longer than the limit, is accepted and left as it is. *)
Theorem ota_url_canonical raw U :
  Forall is_byte raw → NormalizeDownloadURL raw = Ok U →
  (∃ host port path query, U = str "https://" ++ host ++ portPart port ++ path ++ queryPart query ∧ validOTAHost host = true ∧
     ParseAddr host = None ∧ forallb hostChar host = true) ∧
  forallb graphic U = true ∧ (zlen U <= 2048 → NormalizeDownloadURL U = Ok U).
Proof using Type*.
  intros Hb HU. destruct (NormalizeDownloadURL_canonical raw U) as (host & port & path & query & Hc); [by apply TrimSpace_Forall|done|].
  split_and!; [|by eapply canonicalURL_graphic|by eapply NormalizeDownloadURL_fixed].
  exists host, port, path, query. destruct Hc as [-> Hh _ _ _ _ _ _]. unfold authorityPart. rewrite <- !app_assoc. split_and!; [done|done| |].
  - unfold validOTAHost in Hh. destruct (_ || _); [done|]. destruct (ParseAddr host) eqn:Ha; [|done]. rewrite bool_decide_true in Hh by by eexists. done.
  - by apply validOTAHost_chars in Hh as [_ ?].
Qed.

End Properties.

(** The envelope of a signature: every signature of the right length is encoded
    and parsed back, and no other length is encoded. *)
Theorem ota_signature_roundtrip signature :
  Forall is_byte signature →
  (zlen signature = 64 → ∃ v, EncodeSignature signature = Ok v ∧ parseSignature v = Ok signature) ∧
  (zlen signature ≠ 64 → is_ok (EncodeSignature signature) = false).
Proof.
  intros Hb. unfold EncodeSignature, ed25519_SignatureSize. split; intros Hl.
  - rewrite Hl. cbn [Z.eqb Pos.eqb negb]. eexists. split; [done|]. unfold parseSignature, signatureV3Prefix.
    change (str "v3.") with [chr "v"; chr "3"; chr "."]. set (e := EncodeToString signature).
    assert (forallb graphic e = true ∧ chr "." ∉ e) as [Hg Hd].
    { pose proof (EncodeToString_chars signature Hb) as Hc. fold e in Hc. split; [|by eapply forallb_absent].
      eapply forallb_imp; [|exact Hc]. intros c. rewrite andb_true_iff. tauto. }
    rewrite TrimSpace_graphic by (cbn; by rewrite Hg). unfold TrimPrefix. cbn [app].
    rewrite (proj2 (HasPrefix_iff _ _)) by (by exists e). cbn [length drop].
    assert (CountByte (chr ".") (chr "v" :: chr "3" :: chr "." :: e) = 1%nat) as ->.
    { unfold CountByte. rewrite !filter_cons_False, filter_cons_True by done. clear Hg. cbn [length]. f_equal.
      induction e as [|x e IH]; [done|]. rewrite filter_cons_False by set_solver. apply IH. set_solver. }
    cbn [negb orb Nat.eqb]. rewrite drop_0. unfold e. rewrite DecodeString_encode by done. unfold ed25519_SignatureSize. by rewrite Hl.
  - replace (zlen signature =? 64) with false by lia. done.
Qed.

(** ** Witnesses: a signed forced policy, and one that asks for the same in other words *)
Definition plainText : Unicode := {| lowerRunes := λ _, []; foldRunes := λ s t, bool_decide (s = t) |}.
Lemma plainText_laws : @UnicodeLaws plainText.
Proof. constructor; [constructor|]. intros s. cbn. by apply bool_decide_true. Defined.

Definition demoSignature : bytes := str "v3." ++ EncodeToString (replicate 64 7).
Definition demoPolicy : Policy :=
  mkPolicy 7 (str " Forced ") (str "v1.2.3-rc.1") (str "Windows-AMD64") (replicate 64 (chr "A")) 1024
    (str "HTTPS://Downloads.Example.com:443/a%2fb/%7Ec?x=%41") demoSignature.
Definition demoCanonical : Policy :=
  mkPolicy 7 (str "forced") (str "1.2.3-rc.1") (str "windows-amd64") (replicate 64 (chr "a")) 1024
    (str "https://downloads.example.com/a%2Fb/~c?x=A") demoSignature.

Lemma bytes_check (l : bytes) : forallb (within 0 255) l = true → Forall is_byte l.
Proof.
  rewrite forallb_forall. intros Hl. apply Forall_forall. intros c Hc%list_elem_of_In. specialize (Hl c Hc).
  unfold within in Hl. unfold is_byte. lia.
Qed.

Lemma demo_wf : wfPolicy demoPolicy ∧ wfPolicy demoCanonical.
Proof. split; (split; [done|by apply bytes_check]). Qed.

Lemma ota_message_binds_witness :
  ∃ q1 q2, @Canonicalize plainText trustAll demoPolicy = Ok q1 ∧ @Canonicalize plainText trustAll demoCanonical = Ok q2 ∧ unsigned q1 = unsigned q2.
Proof.
  apply (@ota_message_binds plainText plainText_laws trustAll demoPolicy demoCanonical (messageOf demoCanonical));
    [apply demo_wf|apply demo_wf|by vm_compute|by vm_compute].
Defined.

Lemma ota_verify_stable_witness : @Verify plainText trustAll demoCanonical = Ok demoCanonical.
Proof. apply (@ota_verify_stable plainText plainText_laws trustAll demoPolicy); [apply demo_wf|by vm_compute]. Defined.

Lemma ota_url_canonical_witness :
  forallb graphic (DownloadURL demoCanonical) = true ∧ @NormalizeDownloadURL plainText (DownloadURL demoCanonical) = Ok (DownloadURL demoCanonical).
Proof.
  destruct (@ota_url_canonical plainText plainText_laws (DownloadURL demoPolicy) (DownloadURL demoCanonical)) as (_ & Hg & Hf);
    [by apply bytes_check|by vm_compute|]. split; [exact Hg|]. apply Hf. by vm_compute.
Defined.

Lemma ota_signature_roundtrip_witness :
  ∃ v, EncodeSignature (replicate 64 7) = Ok v ∧ parseSignature v = Ok (replicate 64 7).
Proof. apply (ota_signature_roundtrip (replicate 64 7)); [by apply bytes_check|by vm_compute]. Defined.

(** The limit on the length applies to the URL as it arrives.  A path of 800
    bytes that are not ASCII is within it and its canonical form is not: the
    policy has a message to sign, and no signature of it verifies. *)
Definition longPolicy : Policy := setURL (str "https://a.com/" ++ replicate 800 0xe9) demoPolicy.
Theorem ota_signed_but_never_verified :
  is_ok (@Message plainText trustAll longPolicy) = true ∧
  @Verify plainText trustAll longPolicy = Err (Errorf "invalid OTA download URL").
Proof. split; by vm_compute. Qed.
