(* ===== verification/FileStore.v ===== *)
(** * The state store

    [ipn/store/stores.go]: the store the daemon keeps its state in, a map in
    memory that is written to a file as a whole, and [ipn.WriteState].

    What the file holds survives the process; whether a write to it succeeds is
    an input.  A file is replaced atomically ([atomicfile.WriteFile]). *)
From stdpp Require Import gmap.
From Stdlib Require Import Ascii.
From S2P Require Import Prelude NetBuf GoStrings GoText.

(** Keys and values of the map *)
Abbreviation StateMap := (gmap bytes bytes).

(** [json.MarshalIndent] and [json.Unmarshal] of the map. *)
Class StoreCodec := {
  marshalStore : StateMap → bytes;
  unmarshalStore : bytes → option StateMap
}.
Definition asciiKeys (m : StateMap) : Prop := ∀ k, is_Some (m !! k) → isASCII k = true.
Class StoreCodecLaws `{StoreCodec} : Prop := {
  (** JSON keeps keys that are valid text, and values are base 64 *)
  store_roundtrip m : asciiKeys m → unmarshalStore (marshalStore m) = Some m;
  marshalStore_nonempty m : marshalStore m ≠ [];
  unmarshal_empty : unmarshalStore (str "{}") = Some ∅
}.

(** [FileStore]: [cache], and what the file at [path] holds. *)
Record FileStore := mkFileStore { fs_cache : StateMap; fs_file : bytes }.

Section Store.
Context `{StoreCodec}.

(** [file] is what [os.ReadFile] returned, if the file exists. *)
Definition NewFileStore (file : option bytes) (writes : bool) : res FileStore :=
  match file with
  | Some (c :: bs) =>
      match unmarshalStore (c :: bs) with
      | Some cache => Ok (mkFileStore cache (c :: bs))
      | None => Err (Errorf "unmarshal state file")
      end
  | _ => if writes then Ok (mkFileStore ∅ (str "{}")) else Err (Errorf "write state file")
  end.

(** [None] is [ErrStateNotExist]. *)
Definition FileStore_ReadState (s : FileStore) (id : bytes) : option bytes := fs_cache s !! id.

Definition FileStore_WriteState (s : FileStore) (id bs : bytes) (writes : bool) : FileStore * res unit :=
  if bool_decide (default [] (fs_cache s !! id) = bs) then (s, Ok tt) else
  let cache := <[id := bs]> (fs_cache s) in
  if writes then (mkFileStore cache (marshalStore cache), Ok tt)
  else (mkFileStore cache (fs_file s), Err (Errorf "write state file")).

(** [ipn.WriteState] *)
Definition ipn_WriteState (s : FileStore) (id v : bytes) (writes : bool) : FileStore * res unit :=
  match FileStore_ReadState s id with
  | Some was => if bool_decide (was = v) then (s, Ok tt) else FileStore_WriteState s id v writes
  | None => FileStore_WriteState s id v writes
  end.

(** ** Laws *)

(** The file holds what the cache holds. *)
Definition synced (s : FileStore) : Prop := fs_file s ≠ [] ∧ unmarshalStore (fs_file s) = Some (fs_cache s) ∧ asciiKeys (fs_cache s).

Lemma asciiKeys_insert m k v : asciiKeys m → isASCII k = true → asciiKeys (<[k := v]> m).
Proof. intros Hm Hk k'. rewrite lookup_insert_is_Some. intros [->|[_ ?]]; auto. Qed.

Context `{!StoreCodecLaws}.

Lemma NewFileStore_fresh file : file = None ∨ file = Some [] → ∃ s, NewFileStore file true = Ok s ∧ synced s ∧ fs_cache s = ∅.
Proof.
  intros Hf. exists (mkFileStore ∅ (str "{}")). split; [by destruct Hf as [-> | ->]|]. split; [|done].
  split; [done|]. cbn. split; [apply unmarshal_empty|]. intros k [v Hv]. done.
Qed.

(** The file holds under this key what the cache holds; what it holds under other keys may be older. *)
Definition holds_key (k : bytes) (s : FileStore) : Prop :=
  fs_file s ≠ [] ∧ ∃ m, unmarshalStore (fs_file s) = Some m ∧ m !! k = fs_cache s !! k ∧ asciiKeys m ∧ asciiKeys (fs_cache s).

Lemma synced_holds k s : synced s → holds_key k s.
Proof. intros (Hne & Hu & Hk). split; [done|]. by exists (fs_cache s). Qed.

Lemma NewFileStore_holds k s : holds_key k s →
  ∃ s', NewFileStore (Some (fs_file s)) true = Ok s' ∧ holds_key k s' ∧ fs_cache s' !! k = fs_cache s !! k.
Proof.
  intros (Hne & m & Hu & Hk & Ha & _). exists (mkFileStore m (fs_file s)). split_and!; [| |done].
  - unfold NewFileStore. destruct (fs_file s); [done|]. by rewrite Hu.
  - split; [done|]. by exists m.
Qed.

Lemma ipn_WriteState_holds k s v : holds_key k s → isASCII k = true → v ≠ [] →
  ∃ s', ipn_WriteState s k v true = (s', Ok tt) ∧ holds_key k s' ∧ fs_cache s' !! k = Some v.
Proof.
  intros Hs Hk Hv. pose proof Hs as (Hne & m & Hu & Hm & Ha & Hc). unfold ipn_WriteState, FileStore_ReadState, FileStore_WriteState.
  assert (∃ s', (let cache := <[k := v]> (fs_cache s) in (mkFileStore cache (marshalStore cache), Ok tt : res unit)) = (s', Ok tt) ∧
    holds_key k s' ∧ fs_cache s' !! k = Some v) as Hnew.
  { eexists. split; [done|]. split; cbn; [|by rewrite lookup_insert_eq]. apply synced_holds. split; cbn; [apply marshalStore_nonempty|].
    split; [apply store_roundtrip|]; by apply asciiKeys_insert. }
  destruct (fs_cache s !! k) as [was|] eqn:Hr; cbn [default]; [|by rewrite bool_decide_false].
  case_bool_decide as Heq; [|by rewrite bool_decide_false]. exists s. by rewrite Hr, Heq.
Qed.

(** Writes under other keys, whether they reach the file or not. *)
Lemma ipn_WriteState_other k s id v writes : holds_key k s → id ≠ k → isASCII id = true →
  let s' := (ipn_WriteState s id v writes).1 in holds_key k s' ∧ fs_cache s' !! k = fs_cache s !! k.
Proof.
  intros Hs Hid Ha. pose proof Hs as (Hne & m & Hu & Hm & Ham & Hc). unfold ipn_WriteState, FileStore_WriteState.
  assert (∀ cache, cache = <[id := v]> (fs_cache s) → cache !! k = fs_cache s !! k ∧ asciiKeys cache) as Hcache
    by (intros cache ->; split; [by rewrite lookup_insert_ne|by apply asciiKeys_insert]).
  destruct (Hcache _ eq_refl) as [Hk Hc']. destruct (FileStore_ReadState s id); repeat case_bool_decide; try (by split); destruct writes; cbn; rewrite Hk; (split; [|done]).
  1, 3: apply synced_holds; split; cbn; [apply marshalStore_nonempty|]; split; [by apply store_roundtrip|done].
  all: split; [done|]; exists m; cbn; by rewrite Hk.
Qed.

(** A write that fails leaves the file as it was. *)
Lemma FileStore_WriteState_failed s id bs s' r : FileStore_WriteState s id bs false = (s', r) → fs_file s' = fs_file s.
Proof. unfold FileStore_WriteState. case_bool_decide; by intros [= <- <-]. Qed.

End Store.

(** ** A write that failed is not repeated

    The cache is changed before the file.  When writing the file fails the
    caller is told so; when it tries again, the value it finds is the one it
    wants to write, so it is told that it was saved, and the file still holds
    what it held before. *)
Theorem failed_write_is_not_repeated `{StoreCodec} s id bs :
  fs_cache s !! id = None → bs ≠ [] →
  ∃ s1, ipn_WriteState s id bs false = (s1, Err (Errorf "write state file")) ∧
        ipn_WriteState s1 id bs true = (s1, Ok tt) ∧ fs_file s1 = fs_file s.
Proof.
  intros Hn Hb. exists (mkFileStore (<[id := bs]> (fs_cache s)) (fs_file s)). unfold ipn_WriteState, FileStore_ReadState, FileStore_WriteState.
  rewrite Hn, bool_decide_false by done. cbn. rewrite lookup_insert_eq. by rewrite bool_decide_true.
Qed.
