(* ===== verification/OtaBackend.v ===== *)
(** * The daemon's update policy

    [ipn/ipnlocal/scaletail_update.go], with the guards of
    [ipn/ipnlocal/local.go] that a forced update relies on: applying a policy,
    persisting it, reading it back after a restart, and keeping the network
    down until the required version is installed.

    Of the preferences only [WantRunning] is spelled out; the other fields are a
    type of their own.  The checks of preferences that do not concern updates,
    the reconciliation with system policies, and whether the profile manager
    takes the new preferences, are arguments ([PrefsEnv]): the theorems hold
    for any. *)
From stdpp Require Import gmap.
From Stdlib Require Import Ascii.
From S2P Require Import Prelude NetBuf NetAddr GoState GoStrings GoText GoRegexp NetipParse GoUrl ControlUrl Ota FileStore.

Definition scaleTailUpdatePolicyStateKey : bytes := str "_scaletail-update-policy".
Definition scaleTailUpdatePolicySchema : Z := 1.
Definition maxScaleTailUpdatePolicyStateBytes : Z := 64 * 1024.

Record scaleTailUpdateState := mkUpdate { Schema : Z; UPolicy : Policy; ResumePending : bool }.
#[global] Instance scaleTailUpdateState_eq_dec : EqDecision scaleTailUpdateState.
Proof. solve_decision. Defined.
Definition noUpdate : scaleTailUpdateState := mkUpdate 0 noPolicy false.

Record ScaleTailUpdateStatus := mkStatus { st_Active : bool; CurrentVersion : bytes; st_ResumePending : bool; st_Policy : Policy }.
Definition noStatus : ScaleTailUpdateStatus := mkStatus false [] false noPolicy.

(** [json.Marshal] and [json.Unmarshal] of the state. *)
Class UpdateCodec := {
  marshalUpdate : scaleTailUpdateState → bytes;
  unmarshalUpdate : bytes → option scaleTailUpdateState
}.
Definition asciiPolicy (p : Policy) : Prop :=
  isASCII (Action p) = true ∧ isASCII (Version p) = true ∧ isASCII (Platform p) = true ∧ isASCII (SHA256 p) = true ∧
  isASCII (DownloadURL p) = true ∧ isASCII (Signature p) = true.
Class UpdateCodecLaws `{UpdateCodec} : Prop := {
  update_roundtrip u : asciiPolicy (UPolicy u) → unmarshalUpdate (marshalUpdate u) = Some u;
  marshalUpdate_nonempty u : marshalUpdate u ≠ []
}.

(** ** Preferences *)
Record Prefs (P : Type) := mkPrefs { WantRunning : bool; otherPrefs : P }.
Arguments mkPrefs {P} _ _.
Arguments WantRunning {P} _.
Arguments otherPrefs {P} _.
#[global] Instance Prefs_eq_dec {P} `{EqDecision P} : EqDecision (Prefs P).
Proof. solve_decision. Defined.
Definition setWantRunning {P} (w : bool) (p : Prefs P) : Prefs P := mkPrefs w (otherPrefs p).

Record PrefsEnv (P : Type) := mkPrefsEnv {
  (** [checkEditPrefsAccessLocked] *)
  accessErr : option error;
  (** [isConfigLocked_Locked] *)
  configLocked : bool;
  (** the other checks of [checkPrefsLocked] *)
  otherErrs : Prefs P → list error;
  (** [applySysPolicyLocked] and [resolveExitNodeInPrefsLocked], and whether they changed anything *)
  reconcileOther : Prefs P → Prefs P * bool;
  (** whether [profileManager.SetPrefs] makes the new preferences the current ones *)
  setTakes : bool
}.
Arguments accessErr {P} _.
Arguments configLocked {P} _.
Arguments otherErrs {P} _ _.
Arguments reconcileOther {P} _ _.
Arguments setTakes {P} _.

(** ** The backend *)
Record LocalBackend (P : Type) := mkBackend {
  b_store : option FileStore;
  scaleTailUpdate : scaleTailUpdateState;
  scaleTailUpdateLoaded : bool;
  b_prefs : Prefs P;
  (** there is a control client: [Start] has succeeded *)
  b_started : bool;
  (** [version.Short()] of this process *)
  b_version : bytes
}.
Arguments mkBackend {P} _ _ _ _ _ _.
Arguments b_store {P} _.
Arguments scaleTailUpdate {P} _.
Arguments scaleTailUpdateLoaded {P} _.
Arguments b_prefs {P} _.
Arguments b_started {P} _.
Arguments b_version {P} _.

Section Backend.
Context {P : Type} `{EqDecision P} `{Unicode, OtaEnv, StoreCodec, UpdateCodec}.
Implicit Types (b : LocalBackend P) (e : PrefsEnv P).

Definition set_store (s : option FileStore) b : LocalBackend P :=
  mkBackend s (scaleTailUpdate b) (scaleTailUpdateLoaded b) (b_prefs b) (b_started b) (b_version b).
Definition set_update (u : scaleTailUpdateState) b : LocalBackend P :=
  mkBackend (b_store b) u (scaleTailUpdateLoaded b) (b_prefs b) (b_started b) (b_version b).
Definition set_loaded b : LocalBackend P := mkBackend (b_store b) (scaleTailUpdate b) true (b_prefs b) (b_started b) (b_version b).
Definition set_prefs (p : Prefs P) b : LocalBackend P :=
  mkBackend (b_store b) (scaleTailUpdate b) (scaleTailUpdateLoaded b) p (b_started b) (b_version b).
Definition set_started (x : bool) b : LocalBackend P :=
  mkBackend (b_store b) (scaleTailUpdate b) (scaleTailUpdateLoaded b) (b_prefs b) x (b_version b).

Definition scaleTailForcedUpdateRequiredLocked b : bool :=
  let policy := UPolicy (scaleTailUpdate b) in
  scaleTailUpdateLoaded b && bool_decide (Action policy = ActionForced) && negb (VersionAtLeast (b_version b) (Version policy)).

(** The text of the error is its version and revision. *)
Definition scaleTailUpdateRequiredErrorLocked : error := Errorf "update required by forced update policy".

Definition scaleTailUpdateStatusLocked b : ScaleTailUpdateStatus :=
  mkStatus (scaleTailForcedUpdateRequiredLocked b) (b_version b) (ResumePending (scaleTailUpdate b)) (UPolicy (scaleTailUpdate b)).

Definition loadScaleTailUpdatePolicyLocked : stM (LocalBackend P) unit := λ b,
  if scaleTailUpdateLoaded b then (b, Ok tt) else
  match b_store b with
  | None => (set_loaded b, Ok tt)
  | Some store =>
      match FileStore_ReadState store scaleTailUpdatePolicyStateKey with
      | None => (set_loaded b, Ok tt)
      | Some raw =>
          if bool_decide (raw = []) || (maxScaleTailUpdatePolicyStateBytes <? zlen raw)
          then (b, Err (Errorf "invalid OTA policy state size")) else
          match unmarshalUpdate raw with
          | None => (b, Err (Errorf "invalid OTA policy state"))
          | Some state =>
              if negb (Schema state =? scaleTailUpdatePolicySchema) then (b, Err (Errorf "invalid OTA policy state")) else
              match Verify (UPolicy state) with
              | Ok canonical =>
                  if negb (bool_decide (Platform canonical = CurrentPlatform))
                  then (b, Err (Errorf "persisted OTA policy platform does not match"))
                  else (set_loaded (set_update (mkUpdate (Schema state) canonical (ResumePending state)) b), Ok tt)
              | _ => (b, Err (Errorf "verify persisted OTA policy"))
              end
          end
      end
  end.

(** [writes]: whether the file can be written. *)
Definition writeScaleTailUpdateStateLocked (writes : bool) (state : scaleTailUpdateState) : stM (LocalBackend P) unit := λ b,
  match b_store b with
  | None => (b, Err (Errorf "OTA policy state store is unavailable"))
  | Some store =>
      let encoded := marshalUpdate state in
      if maxScaleTailUpdatePolicyStateBytes <? zlen encoded then (b, Err (Errorf "OTA policy state is too large")) else
      let '(store, r) := ipn_WriteState store scaleTailUpdatePolicyStateKey encoded writes in (set_store (Some store) b, r)
  end.

(** ** Changing preferences *)
Definition reconcilePrefsLocked e b (prefs : Prefs P) : Prefs P * bool :=
  let '(prefs, changed) := reconcileOther e prefs in
  if WantRunning prefs && scaleTailForcedUpdateRequiredLocked b then (setWantRunning false prefs, true) else (prefs, changed).

Definition checkPrefsLocked e b (p : Prefs P) : option error :=
  if configLocked e then Some (Errorf "config file is locked") else
  match (if WantRunning p && scaleTailForcedUpdateRequiredLocked b then [scaleTailUpdateRequiredErrorLocked] else []) ++ otherErrs e p with
  | [] => None
  | err :: _ => Some err
  end.

Definition setPrefsLocked e (newp : Prefs P) b : LocalBackend P :=
  let '(newp, _) := reconcilePrefsLocked e b newp in if setTakes e then set_prefs newp b else b.

(** [mp]: the edits of the masked preferences. *)
Definition editPrefsLocked e (mp : Prefs P → Prefs P) : stM (LocalBackend P) unit := λ b,
  match accessErr e with
  | Some err => (b, Err err)
  | None =>
      let p1 := mp (b_prefs b) in
      match checkPrefsLocked e b p1 with
      | Some err => (b, Err err)
      | None => if bool_decide (p1 = b_prefs b) then (b, Ok tt) else (setPrefsLocked e p1 b, Ok tt)
      end
  end.

Definition reconcilePrefs e b : LocalBackend P :=
  let '(prefs, changed) := reconcilePrefsLocked e b (b_prefs b) in if changed then setPrefsLocked e prefs b else b.

(** [startLocked]: [updatePrefs] are the options' preferences, [fails] whether a later part of it fails (creating the
    machine key or the control client). *)
Definition startLocked e (updatePrefs : option (Prefs P)) (fails : bool) : stM (LocalBackend P) unit :=
  _ ← loadScaleTailUpdatePolicyLocked;
  b ← getS;
  if scaleTailForcedUpdateRequiredLocked b && WantRunning (default (b_prefs b) updatePrefs)
  then throw scaleTailUpdateRequiredErrorLocked else
  match (match updatePrefs with Some p => checkPrefsLocked e b p | None => None end) with
  | Some err => throw err
  | None =>
      let '(newPrefs, changed) := reconcilePrefsLocked e b (default (b_prefs b) updatePrefs) in
      let prefsChanged := match updatePrefs with Some _ => true | None => changed end in
      _ ← modS (set_started false);
      _ ← modS (if prefsChanged && setTakes e then set_prefs newPrefs else id);
      if fails then throw (Errorf "start") else modS (set_started true)
  end.

(** ** The operations on the policy *)

(** The status that accompanies an error is returned too. *)
Definition applyVerifiedScaleTailUpdatePolicyLocked e (writes : bool) (policy : Policy) b : LocalBackend P * (ScaleTailUpdateStatus * option error) :=
  let current := scaleTailUpdate b in
  if Revision policy <? Revision (UPolicy current) then (b, (scaleTailUpdateStatusLocked b, Some (Errorf "stale OTA policy revision"))) else
  if Revision (UPolicy current) =? Revision policy then
    if negb (bool_decide (UPolicy current = policy))
    then (b, (scaleTailUpdateStatusLocked b, Some (Errorf "OTA policy revision conflicts with persisted policy")))
    else (b, (scaleTailUpdateStatusLocked b, None))
  else
    let active := bool_decide (Action policy = ActionForced) && negb (VersionAtLeast (b_version b) (Version policy)) in
    let next := mkUpdate scaleTailUpdatePolicySchema policy (if active && WantRunning (b_prefs b) then true else ResumePending current) in
    match writeScaleTailUpdateStateLocked writes next b with
    | (b, Ok _) =>
        let b := set_update next b in
        if active && WantRunning (b_prefs b) then
          match editPrefsLocked e (setWantRunning false) b with
          | (b, Ok _) => (b, (scaleTailUpdateStatusLocked b, None))
          | (b, _) => (b, (scaleTailUpdateStatusLocked b, Some (Errorf "stop network for forced update")))
          end
        else (b, (scaleTailUpdateStatusLocked b, None))
    | (b, _) => (b, (scaleTailUpdateStatusLocked b, Some (Errorf "persist OTA policy")))
    end.

Definition errorOf {A} (r : res A) : option error :=
  match r with Ok _ => None | Err err => Some err | _ => Some (Errorf "panic") end.

Definition ApplyScaleTailUpdatePolicy e (writes : bool) (policy : Policy) b : LocalBackend P * (ScaleTailUpdateStatus * option error) :=
  match Verify policy with
  | Ok canonical =>
      if negb (bool_decide (Platform canonical = CurrentPlatform))
      then (b, (noStatus, Some (Errorf "OTA policy platform does not match"))) else
      match loadScaleTailUpdatePolicyLocked b with
      | (b, Ok _) => applyVerifiedScaleTailUpdatePolicyLocked e writes canonical b
      | (b, r) => (b, (noStatus, errorOf r))
      end
  | r => (b, (noStatus, errorOf r))
  end.

Definition ScaleTailUpdateStatus_ : stM (LocalBackend P) ScaleTailUpdateStatus :=
  _ ← loadScaleTailUpdatePolicyLocked;
  b ← getS;
  mret (scaleTailUpdateStatusLocked b).

Definition AcknowledgeScaleTailUpdateResume (writes : bool) : stM (LocalBackend P) unit :=
  _ ← loadScaleTailUpdatePolicyLocked;
  b ← getS;
  if scaleTailForcedUpdateRequiredLocked b || negb (ResumePending (scaleTailUpdate b)) then mret tt else
  let next := mkUpdate (Schema (scaleTailUpdate b)) (UPolicy (scaleTailUpdate b)) false in
  _ ← writeScaleTailUpdateStateLocked writes next;
  modS (set_update next).

(** ** Fetching the policy from the control server *)

(** [Encode] of the values of the query: [url.QueryEscape], keys in order. *)
Definition queryByte (c : Z) : bytes :=
  if isAlnum c || isOneOf "-_.~" c then [c] else if c =? chr " " then [chr "+"] else [chr "%"; upperhex (c / 16); upperhex (c mod 16)].
Definition QueryEscape (s : bytes) : bytes := s ≫= queryByte.
Definition policyQuery (version platform : bytes) (revision : Z) : bytes :=
  str "current_revision=" ++ QueryEscape (itoa revision) ++ str "&current_version=" ++ QueryEscape version ++
  str "&platform=" ++ QueryEscape platform.
Definition policyTarget (controlURL : URL) (query : bytes) : URL :=
  mkURL (Scheme controlURL) (Opaque controlURL) (User controlURL) (Host controlURL) (str "/scaletail/v1/client-update") []
    (OmitHost controlURL) (ForceQuery controlURL) query [] (RawFragment controlURL).

(** The outcome of the request: no response, or its status and what could be read of its body. *)
Inductive fetched := NoResponse | Response (status : Z) (body : option bytes).

(** [json.Unmarshal] of the envelope, whose [data] is kept as it is, and of the policy in it. *)
Context (payloadData : bytes → option bytes) (unmarshalPolicy : bytes → option Policy).

Definition IsLoginServerSynonym (val : bytes) : bool :=
  bool_decide (val = str "https://login.scaletail.com") || bool_decide (val = str "https://controlplane.scaletail.com").

Definition applyFetched e (writes : bool) (body : bytes) b : LocalBackend P * (bool * option error) :=
  match payloadData body with
  | None => (b, (true, Some (Errorf "invalid update policy response")))
  | Some data =>
      if bool_decide (data = []) || bool_decide (data = str "null") then (b, (true, None)) else
      match unmarshalPolicy data with
      | None => (b, (true, Some (Errorf "invalid update policy metadata")))
      | Some policy =>
          if (Revision policy =? 0) || bool_decide (Signature policy = []) then (b, (true, None)) else
          let '(b, (_, err)) := ApplyScaleTailUpdatePolicy e writes policy b in (b, (true, err))
      end
  end.

Definition RefreshScaleTailUpdatePolicy e (writes : bool) (rawControlURL : bytes) (fetch : bytes → fetched) b
    : LocalBackend P * (bool * option error) :=
  let rawControlURL := TrimSpace rawControlURL in
  if bool_decide (rawControlURL = []) || IsLoginServerSynonym rawControlURL then (b, (false, None)) else
  match ParseControl rawControlURL with
  | Ok controlURL =>
      match ScaleTailUpdateStatus_ b with
      | (b, Ok status) =>
          let target := policyTarget controlURL (policyQuery (b_version b) CurrentPlatform (Revision (st_Policy status))) in
          match url_Parse (url_String target) with
          | None => (b, (true, Some (Errorf "new request")))
          | Some _ =>
              match fetch (url_String target) with
              | NoResponse => (b, (false, Some (Errorf "no response")))
              | Response code body =>
                  if negb (code =? 200) then (b, (true, Some (Errorf "update policy endpoint returned an error"))) else
                  match body with
                  | None => (b, (true, Some (Errorf "invalid update policy response")))
                  | Some raw =>
                      if 2 ^ 20 <? zlen raw then (b, (true, Some (Errorf "invalid update policy response")))
                      else applyFetched e writes raw b
                  end
              end
          end
      | (b, r) => (b, (true, errorOf r))
      end
  | r => (b, (true, errorOf r))
  end.

End Backend.
