(* ===== verification/OtaDaemon.v ===== *)
(** * Runs of the daemon

    The operations of [OtaBackend] in any order, interleaved with writes of
    other components to the same store and with restarts, after which only the
    file is left.  The persisted policy is never rolled back, survives restarts,
    and a forced one keeps the network down. *)
From stdpp Require Import gmap.
From Stdlib Require Import Ascii.
From S2P Require Import Prelude NetBuf NetAddr GoState GoStrings GoText TextCanon GoRegexp NetipParse GoUrl ControlUrl Ota OtaUrl OtaCanon FileStore OtaBackend.

Section Daemon.
Context {P : Type} `{EqDecision P} `{Unicode, !UnicodeLaws, OtaEnv, StoreCodec, !StoreCodecLaws, UpdateCodec, !UpdateCodecLaws}.
Context (payloadData : bytes → option bytes) (unmarshalPolicy : bytes → option Policy).
Implicit Types (b : LocalBackend P) (e : PrefsEnv P).

Inductive event :=
  | EApply e (writes : bool) (policy : Policy)
  | ERefresh e (writes : bool) (rawControlURL : bytes) (fetch : bytes → fetched)
  | EStatus
  | EAck (writes : bool)
  | EStart e (updatePrefs : option (Prefs P)) (fails : bool)
  | EEdit e (mp : Prefs P → Prefs P)
  | EReconcile e
  (** another component writes to the store *)
  | EWrite (id v : bytes) (writes : bool)
  (** the process ends, and a new one starts with the version installed then and the preferences of its profile *)
  | ERestart (version : bytes) (prefs : Prefs P).

(** A new process: what the file holds, and nothing else. *)
Definition reopen b (version : bytes) (prefs : Prefs P) : LocalBackend P :=
  mkBackend (match b_store b with
             | Some s => match NewFileStore (Some (fs_file s)) true with Ok s => Some s | _ => None end
             | None => None
             end) noUpdate false prefs false version.

Definition step b (ev : event) : LocalBackend P :=
  match ev with
  | EApply e writes policy => (ApplyScaleTailUpdatePolicy e writes policy b).1
  | ERefresh e writes raw fetch => (RefreshScaleTailUpdatePolicy payloadData unmarshalPolicy e writes raw fetch b).1
  | EStatus => (ScaleTailUpdateStatus_ b).1
  | EAck writes => (AcknowledgeScaleTailUpdateResume writes b).1
  | EStart e prefs fails => (startLocked e prefs fails b).1
  | EEdit e mp => (editPrefsLocked e mp b).1
  | EReconcile e => reconcilePrefs e b
  | EWrite id v writes => match b_store b with Some s => set_store (Some (ipn_WriteState s id v writes).1) b | None => b end
  | ERestart version prefs => reopen b version prefs
  end.
Definition run b (es : list event) : LocalBackend P := foldl step b es.

(** A process that started on an empty store. *)
Definition booted b : Prop :=
  ∃ s version prefs, NewFileStore None true = Ok s ∧ b = mkBackend (Some s) noUpdate false prefs false version.

(** The policy state in the file. *)
Definition durable b : option scaleTailUpdateState :=
  s ← b_store b; m ← unmarshalStore (fs_file s); raw ← m !! scaleTailUpdatePolicyStateKey; unmarshalUpdate raw.

(** A persisted policy is replaced only by one of a higher revision. *)
Definition supersedes (o o' : option scaleTailUpdateState) : Prop :=
  match o, o' with
  | None, _ => True
  | Some u, Some u' => UPolicy u = UPolicy u' ∨ Revision (UPolicy u) < Revision (UPolicy u')
  | Some _, None => False
  end.

(** Events of a run in which the policy state could be written: policies arrive as bytes, and other components have
    keys of their own; whether their writes reach the file does not matter. *)
Definition written (ev : event) : Prop :=
  match ev with
  | EApply _ writes policy => writes = true ∧ wfPolicy policy
  | ERefresh _ writes _ _ | EAck writes => writes = true
  | EWrite id _ _ => id ≠ scaleTailUpdatePolicyStateKey ∧ isASCII id = true
  | _ => True
  end.

(** ** The invariant *)
Record goodState (u : scaleTailUpdateState) : Prop := {
  gs_schema : Schema u = scaleTailUpdatePolicySchema;
  gs_verified : Verify (UPolicy u) = Ok (UPolicy u);
  gs_platform : Platform (UPolicy u) = CurrentPlatform;
  gs_ascii : asciiPolicy (UPolicy u);
  gs_size : zlen (marshalUpdate u) <= maxScaleTailUpdatePolicyStateBytes;
  gs_revision : 0 < Revision (UPolicy u)
}.

(** What the store holds for the policy, and what the process knows of it. *)
Definition persisted (s : FileStore) (o : option scaleTailUpdateState) : Prop :=
  fs_cache s !! scaleTailUpdatePolicyStateKey = marshalUpdate <$> o ∧ ∀ u, o = Some u → goodState u.

Record inv b (s : FileStore) (o : option scaleTailUpdateState) : Prop := {
  inv_store : b_store b = Some s;
  inv_holds : holds_key scaleTailUpdatePolicyStateKey s;
  inv_persisted : persisted s o;
  inv_loaded : scaleTailUpdateLoaded b = true → scaleTailUpdate b = default noUpdate o;
  inv_unloaded : scaleTailUpdateLoaded b = false → scaleTailUpdate b = noUpdate ∧ b_started b = false
}.

Lemma inv_durable b s o : inv b s o → durable b = o.
Proof using Type*.
  intros [Hs (_ & m & Hu & Hm & _) [Hc Hg] _ _]. unfold durable. rewrite Hs. cbn [mbind option_bind]. rewrite Hu. cbn [mbind option_bind]. rewrite Hm, Hc.
  destruct o as [u|]; [|done]. cbn [fmap option_fmap option_map mbind option_bind]. apply update_roundtrip, Hg. done.
Qed.

Lemma booted_inv b : booted b → ∃ s, inv b s None.
Proof using Type*.
  intros (s & version & prefs & Hs & ->). destruct (NewFileStore_fresh None) as (s' & Hs' & Hsync & Hempty); [by left|].
  exists s. assert (s' = s) as -> by congruence. split; try done; [by apply synced_holds|]. split; [by rewrite Hempty|done].
Qed.

(** Reading the policy back. *)
Lemma load_inv b s o :
  inv b s o → ∃ b', loadScaleTailUpdatePolicyLocked b = (b', Ok tt) ∧ inv b' s o ∧ scaleTailUpdateLoaded b' = true ∧
    b_prefs b' = b_prefs b ∧ b_started b' = b_started b ∧ b_version b' = b_version b ∧ (scaleTailUpdateLoaded b = true → b' = b).
Proof using Type*.
  intros Hi. pose proof Hi as [Hs Hsy [Hc Hg] Hl Hu]. unfold loadScaleTailUpdatePolicyLocked.
  destruct (scaleTailUpdateLoaded b) eqn:Hld; [by exists b|]. specialize (Hu eq_refl) as [Hu Hst]. rewrite Hs. unfold FileStore_ReadState. rewrite Hc.
  destruct o as [u|]; cbn.
  - destruct (Hg u eq_refl) as [G1 G2 G3 G4 G5 G6]. rewrite bool_decide_false by apply marshalUpdate_nonempty.
    replace (_ <? _) with false by lia. cbn [orb]. rewrite update_roundtrip by done. rewrite G1, G2, bool_decide_true by done. cbn [negb Z.eqb Pos.eqb].
    eexists. split; [done|]. split_and!; try done. split; try done. cbn. intros _. by destruct u; cbn in *; subst.
  - eexists. by split_and!.
Qed.

(** Preferences and the control client do not matter. *)
Lemma inv_prefs b b' s o :
  inv b s o → b_store b' = b_store b → scaleTailUpdate b' = scaleTailUpdate b → scaleTailUpdateLoaded b' = scaleTailUpdateLoaded b →
  (scaleTailUpdateLoaded b = false → b_started b' = false) → inv b' s o.
Proof using Type. intros [G1 G2 G3 G4 G5] Es Eu El Hst. split; rewrite ?Es, ?Eu, ?El; auto. intros Hf. split; [by apply G5|auto]. Qed.

(** Persisting a state. *)
Lemma write_inv b s o u :
  inv b s o → scaleTailUpdateLoaded b = true →
  (zlen (marshalUpdate u) <= maxScaleTailUpdatePolicyStateBytes → goodState u) →
  (∃ err, writeScaleTailUpdateStateLocked true u b = (b, Err err)) ∨
  ∃ s', writeScaleTailUpdateStateLocked true u b = (set_store (Some s') b, Ok tt) ∧ inv (set_update u (set_store (Some s') b)) s' (Some u).
Proof using Type*.
  intros [Hs Hsy [Hc Hg] Hl Hu] Hld Hgood. unfold writeScaleTailUpdateStateLocked. rewrite Hs.
  destruct (Z.ltb_spec maxScaleTailUpdatePolicyStateBytes (zlen (marshalUpdate u))); [left; eauto|right].
  destruct (ipn_WriteState_holds _ s (marshalUpdate u) Hsy) as (s' & -> & Hsy' & Hl'); [done|apply marshalUpdate_nonempty|].
  exists s'. split; [done|]. split; try done; cbn; [|congruence]. split; [done|]. intros u' [= <-]. auto.
Qed.

(** ** Every event keeps the invariant *)
Lemma set_prefs_id b : set_prefs (b_prefs b) b = b.
Proof using Type. by destruct b. Qed.

Lemma setPrefs_only e newp b : ∃ p, setPrefsLocked e newp b = set_prefs p b.
Proof using Type.
  unfold setPrefsLocked. destruct (reconcilePrefsLocked e b newp) as [p c]. destruct (setTakes e); [by exists p|]. exists (b_prefs b). by rewrite set_prefs_id.
Qed.

Lemma edit_only e mp b : ∃ p, (editPrefsLocked e mp b).1 = set_prefs p b.
Proof using Type.
  unfold editPrefsLocked. assert (∃ p, b = set_prefs p b) as Hb by (exists (b_prefs b); by rewrite set_prefs_id).
  destruct (accessErr e); [done|]. destruct (checkPrefsLocked _ _ _); [done|]. destruct (bool_decide _); [done|]. apply setPrefs_only.
Qed.

Lemma set_prefs_inv b s o p : inv b s o → inv (set_prefs p b) s o.
Proof using Type. intros Hi. eapply inv_prefs; [exact Hi|done..|]. cbn. intros Hf. by apply (inv_unloaded _ _ _ Hi). Qed.

Lemma supersedes_refl o : supersedes o o.
Proof using Type. destruct o as [u|]; cbn; auto. Qed.

Lemma supersedes_trans o1 o2 o3 : supersedes o1 o2 → supersedes o2 o3 → supersedes o1 o3.
Proof using Type.
  destruct o1 as [u1|], o2 as [u2|], o3 as [u3|]; cbn; try done. intros [->|G1] [G2|G2]; auto; right; [by rewrite <- G2|lia].
Qed.

(** A policy that [Verify] returned for this platform can be persisted. *)
Lemma verified_good p q r :
  wfPolicy p → Verify p = Ok q → Platform q = CurrentPlatform →
  zlen (marshalUpdate (mkUpdate scaleTailUpdatePolicySchema q r)) <= maxScaleTailUpdatePolicyStateBytes →
  goodState (mkUpdate scaleTailUpdatePolicySchema q r).
Proof using Type*.
  intros Hw Hv Hp Hz. split; try done; cbn; [by eapply Verify_idem|by eapply Verify_ASCII|by eapply Verify_revision].
Qed.

Lemma applyVerified_inv e b s o p q :
  inv b s o → scaleTailUpdateLoaded b = true → wfPolicy p → Verify p = Ok q → Platform q = CurrentPlatform →
  let r := applyVerifiedScaleTailUpdatePolicyLocked e true q b in
  ∃ s' o', inv r.1 s' o' ∧ supersedes o o' ∧ (r.2.2 = None → ∃ u, o' = Some u ∧ UPolicy u = q ∧ scaleTailUpdate r.1 = u) ∧
    r.2.1 = scaleTailUpdateStatusLocked r.1.
Proof using Type*.
  intros Hi Hld Hw Hv Hp. pose proof Hi as [Hs Hsy [Hc Hg] Hl Hu]. specialize (Hl Hld).
  pose proof (Verify_revision p q Hw Hv) as Hrev. unfold applyVerifiedScaleTailUpdatePolicyLocked.
  destruct (Z.ltb_spec (Revision q) (Revision (UPolicy (scaleTailUpdate b)))); [exists s, o; split_and!; [done|apply supersedes_refl|done|done]|].
  destruct (Z.eqb_spec (Revision (UPolicy (scaleTailUpdate b))) (Revision q)) as [Heq|Hne].
  { destruct (bool_decide_reflect (UPolicy (scaleTailUpdate b) = q)) as [Hq|Hq]; cbn [negb];
      exists s, o; split_and!; try done; try apply supersedes_refl.
    intros _. destruct o as [u|]; [exists u; cbn [default from_option id] in Hl; by rewrite <- Hl|]. rewrite Hl in Heq. cbn in Heq. lia. }
  set (active := bool_decide (Action q = ActionForced) && _). set (next := mkUpdate _ q _).
  assert (supersedes o (Some next)) as Hsup.
  { destruct o as [u|]; [|done]. right. cbn [default from_option id] in Hl. rewrite <- Hl. cbn. lia. }
  destruct (write_inv b s o next Hi Hld) as [[err ->]|(s' & -> & Hi')].
  - intros Hz. by eapply verified_good.
  - exists s, o. split_and!; [done|apply supersedes_refl|done|done].
  - destruct (active && WantRunning _).
    + destruct (edit_only e (setWantRunning false) (set_update next (set_store (Some s') b))) as [p' Hp'].
      destruct (editPrefsLocked _ _ _) as [b' r]. cbn in Hp'. subst b'.
      destruct r; exists s', (Some next); (split_and!; [by apply set_prefs_inv|done| |done]); [|done..]. intros _. by exists next.
    + exists s', (Some next). split_and!; [done|done| |done]. intros _. by exists next.
Qed.

Lemma apply_inv e b s o p :
  inv b s o → wfPolicy p →
  let r := ApplyScaleTailUpdatePolicy e true p b in
  ∃ s' o', inv r.1 s' o' ∧ supersedes o o' ∧
    (r.2.2 = None → ∃ u, o' = Some u ∧ Verify p = Ok (UPolicy u) ∧ scaleTailUpdate r.1 = u ∧ r.2.1 = scaleTailUpdateStatusLocked r.1).
Proof using Type*.
  intros Hi Hw. unfold ApplyScaleTailUpdatePolicy.
  destruct (Verify p) as [q|err| |] eqn:Hv.
  - destruct (bool_decide_reflect (Platform q = CurrentPlatform)) as [Hp|Hp]; cbn [negb].
    + destruct (load_inv b s o Hi) as (b' & -> & Hi' & Hld & _).
      destruct (applyVerified_inv e b' s o p q Hi' Hld Hw Hv Hp) as (s' & o' & G1 & G2 & G3 & G4).
      exists s', o'. split_and!; [done|done|]. intros Hn. destruct (G3 Hn) as (u & -> & <- & Hu). by exists u.
    + exists s, o. split_and!; [done|apply supersedes_refl|done].
  - exists s, o. split_and!; [done|apply supersedes_refl|done].
  - exists s, o. split_and!; [done|apply supersedes_refl|done].
  - exists s, o. split_and!; [done|apply supersedes_refl|done].
Qed.

Lemma ack_inv b s o : inv b s o → ∃ s' o', inv (AcknowledgeScaleTailUpdateResume true b).1 s' o' ∧ supersedes o o'.
Proof using Type*.
  intros Hi. destruct (load_inv b s o Hi) as (b' & Hload & Hi' & Hld & _).
  unfold AcknowledgeScaleTailUpdateResume, mbind, stM_bind, getS, mret, stM_ret. rewrite Hload.
  destruct (scaleTailForcedUpdateRequiredLocked b' || _) eqn:Hc; [exists s, o; split; [done|apply supersedes_refl]|].
  pose proof Hi' as [_ _ [_ Hg] Hl _]. specialize (Hl Hld). set (next := mkUpdate _ _ _).
  destruct o as [u|]; cbn in Hl; [|rewrite Hl, orb_true_r in Hc; done].
  destruct (write_inv b' s (Some u) next Hi' Hld) as [[err ->]|(s' & -> & Hi2)].
  - intros Hz. unfold next in *. rewrite Hl in *. destruct (Hg u eq_refl). by split.
  - exists s, (Some u). split; [done|apply supersedes_refl].
  - exists s', (Some next). split; [done|]. left. unfold next. by rewrite Hl.
Qed.

Lemma start_inv e up fails b s o : inv b s o → inv (startLocked e up fails b).1 s o.
Proof using Type*.
  intros Hi. destruct (load_inv b s o Hi) as (b' & Hload & Hi' & Hld & _).
  unfold startLocked, mbind, stM_bind, getS, throw, modS. rewrite Hload. destruct (_ && _); [done|].
  destruct (match up with Some p => _ | None => _ end); [done|]. destruct (reconcilePrefsLocked _ _ _) as [np ch].
  destruct fails, (_ && _); cbn; (eapply inv_prefs; [exact Hi'|done..|]; cbn; congruence).
Qed.

Lemma other_write_inv b s o id v writes :
  inv b s o → id ≠ scaleTailUpdatePolicyStateKey → isASCII id = true → ∃ s', inv (step b (EWrite id v writes)) s' o.
Proof using Type*.
  intros [Hs Hsy [Hc Hg] Hl Hu] Hid Ha. cbn. rewrite Hs.
  destruct (ipn_WriteState_other _ s id v writes Hsy Hid Ha) as [Hsy' Hk]. eexists. split; try done. split; [by rewrite Hk|done].
Qed.

Lemma reopen_inv b s o version prefs : inv b s o → ∃ s', inv (reopen b version prefs) s' o.
Proof using Type.
  intros [Hs Hsy [Hc Hg] _ _]. unfold reopen. rewrite Hs. destruct (NewFileStore_holds _ s Hsy) as (s' & -> & Hsy' & Hk).
  exists s'. split; try done. split; [by rewrite Hk|done].
Qed.

(** A refresh asks for the status and, at most, applies a policy that arrived. *)
Lemma refresh_cases e writes raw fetch b :
  let b' := (RefreshScaleTailUpdatePolicy payloadData unmarshalPolicy e writes raw fetch b).1 in
  b' = b ∨ b' = (ScaleTailUpdateStatus_ b).1 ∨
  ∃ data p, unmarshalPolicy data = Some p ∧ b' = (ApplyScaleTailUpdatePolicy e writes p (ScaleTailUpdateStatus_ b).1).1.
Proof using Type.
  unfold RefreshScaleTailUpdatePolicy. destruct (_ || _); [by left|]. destruct (ParseControl _); [|by left..].
  destruct (ScaleTailUpdateStatus_ b) as [b1 r]. cbn [fst]. destruct r; [|by right; left..].
  destruct (url_Parse _); [|by right; left]. destruct (fetch _) as [|code body]; [by right; left|]. destruct (negb _); [by right; left|].
  destruct body as [body|]; [|by right; left]. destruct (_ <? _); [by right; left|]. unfold applyFetched.
  destruct (payloadData body) as [data|]; [|by right; left]. destruct (_ || _); [by right; left|].
  destruct (unmarshalPolicy data) as [p|] eqn:Hp; [|by right; left]. destruct (_ || _); [by right; left|].
  right; right. exists data, p. split; [done|]. by destruct (ApplyScaleTailUpdatePolicy e writes p b1) as [? [? ?]].
Qed.

Hypothesis unmarshalPolicy_wf : ∀ data p, unmarshalPolicy data = Some p → wfPolicy p.

Lemma status_inv b s o : inv b s o → inv (ScaleTailUpdateStatus_ b).1 s o.
Proof using Type*.
  intros Hi. destruct (load_inv b s o Hi) as (b' & Hload & Hi' & _). unfold ScaleTailUpdateStatus_, mbind, stM_bind. by rewrite Hload.
Qed.

Lemma daemon_step_inv b s o ev : inv b s o → written ev → ∃ s' o', inv (step b ev) s' o' ∧ supersedes o o'.
Proof using All.
  intros Hi Hw. assert (∀ b', inv b' s o → ∃ s' o', inv b' s' o' ∧ supersedes o o') as Hsame
    by (intros b' Hb'; exists s, o; split; [done|apply supersedes_refl]).
  destruct ev as [e writes p|e writes raw fetch| |writes|e up fails|e mp|e|id v writes|version prefs]; cbn [step written] in *.
  - destruct Hw as [-> Hw]. destruct (apply_inv e b s o p Hi Hw) as (s' & o' & ? & ? & _). eauto.
  - subst writes. pose proof (status_inv b s o Hi) as Hs1. destruct (refresh_cases e true raw fetch b) as [->|[->|(data & p & Hp & ->)]]; [by apply Hsame..|].
    destruct (apply_inv e _ s o p Hs1) as (s' & o' & ? & ? & _); [by eapply unmarshalPolicy_wf|eauto].
  - by apply Hsame, status_inv.
  - subst writes. by eapply ack_inv.
  - by apply Hsame, start_inv.
  - apply Hsame. destruct (edit_only e mp b) as [p ->]. by apply set_prefs_inv.
  - apply Hsame. unfold reconcilePrefs. destruct (reconcilePrefsLocked _ _ _) as [p ch]. destruct ch; [|done].
    destruct (setPrefs_only e p b) as [p' ->]. by apply set_prefs_inv.
  - destruct Hw as (Hid & Ha). destruct (other_write_inv b s o id v writes Hi Hid Ha) as [s' Hs']. exists s', o. split; [done|apply supersedes_refl].
  - destruct (reopen_inv b s o version prefs Hi) as [s' Hs']. exists s', o. split; [done|apply supersedes_refl].
Qed.

Lemma run_inv b s o es : inv b s o → Forall written es → ∃ s' o', inv (run b es) s' o' ∧ supersedes o o'.
Proof using All.
  intros Hi Hes. revert b s o Hi. induction Hes as [|ev es Hev _ IH]; intros b s o Hi; [exists s, o; split; [done|apply supersedes_refl]|].
  destruct (daemon_step_inv b s o ev Hi Hev) as (s1 & o1 & Hi1 & G1). destruct (IH _ _ _ Hi1) as (s2 & o2 & Hi2 & G2).
  exists s2, o2. split; [done|]. by eapply supersedes_trans.
Qed.

(** ** Forced updates *)

(** While an update is forced the network is down. *)
Definition enforced b : Prop :=
  scaleTailForcedUpdateRequiredLocked b = true → b_started b = true → WantRunning (b_prefs b) = false.

(** Stopping the network is not refused: preferences that are fine but for [WantRunning] can be set, and the profile
    manager takes them. *)
Definition uncontested (ev : event) : Prop :=
  match ev with
  | EApply e _ _ | ERefresh e _ _ _ =>
      accessErr e = None ∧ configLocked e = false ∧ (∀ p, WantRunning p = false → otherErrs e p = []) ∧ setTakes e = true
  | EStart e _ _ => setTakes e = true
  | _ => True
  end.

Lemma reconcile_required e b p : scaleTailForcedUpdateRequiredLocked b = true → WantRunning (reconcilePrefsLocked e b p).1 = false.
Proof using Type.
  intros Hr. unfold reconcilePrefsLocked. destruct (reconcileOther e p) as [p' c]. rewrite Hr, andb_true_r. by destruct (WantRunning p') eqn:Hw.
Qed.

Lemma setPrefs_enforced e p b : enforced b → enforced (setPrefsLocked e p b).
Proof using Type.
  intros He. unfold setPrefsLocked. pose proof (reconcile_required e b p) as Hr. destruct (reconcilePrefsLocked e b p) as [p' c].
  destruct (setTakes e); [|done]. intros Hreq _. by apply Hr.
Qed.

Lemma edit_enforced e mp b : enforced b → enforced (editPrefsLocked e mp b).1.
Proof using Type.
  intros He. unfold editPrefsLocked. destruct (accessErr e); [done|]. destruct (checkPrefsLocked _ _ _); [done|].
  destruct (bool_decide _); [done|]. by apply setPrefs_enforced.
Qed.

Lemma load_enforced b b' s o :
  inv b s o → enforced b → loadScaleTailUpdatePolicyLocked b = (b', Ok tt) → enforced b'.
Proof using Type*.
  intros Hi He Hload. destruct (load_inv b s o Hi) as (b1 & Hload' & _ & _ & _ & Est & _ & Hsame). assert (b1 = b') as -> by congruence.
  destruct (scaleTailUpdateLoaded b) eqn:Hld; [by rewrite Hsame|]. destruct (inv_unloaded _ _ _ Hi Hld) as [_ Hst]. intros _. rewrite Est, Hst. done.
Qed.

(** The stop that follows a forced policy. *)
Lemma stop_enforced e b :
  accessErr e = None → configLocked e = false → (∀ p, WantRunning p = false → otherErrs e p = []) → setTakes e = true →
  WantRunning (b_prefs b) = true → enforced (editPrefsLocked e (setWantRunning false) b).1.
Proof using Type.
  intros Ha Hc Ho Ht Hw. unfold editPrefsLocked. rewrite Ha. unfold checkPrefsLocked. rewrite Hc. cbn [setWantRunning WantRunning andb app].
  rewrite Ho by done. rewrite bool_decide_false by (intros Heq; rewrite <- Heq in Hw; done). cbn [fst]. unfold setPrefsLocked.
  pose proof (reconcile_required e b (setWantRunning false (b_prefs b))) as Hr. destruct (reconcilePrefsLocked _ _ _) as [p' c]. rewrite Ht.
  intros Hreq _. by apply Hr.
Qed.

Lemma apply_enforced e b s o p :
  inv b s o → enforced b → wfPolicy p → uncontested (EApply e true p) → enforced (ApplyScaleTailUpdatePolicy e true p b).1.
Proof using Type*.
  intros Hi He Hw (Ha & Hc & Ho & Ht). unfold ApplyScaleTailUpdatePolicy. destruct (Verify p) as [q|err| |] eqn:Hv; [|done..].
  destruct (bool_decide_reflect (Platform q = CurrentPlatform)) as [Hp|Hp]; cbn [negb]; [|done].
  destruct (load_inv b s o Hi) as (b' & Hload & Hi' & Hld & _). rewrite Hload. pose proof (load_enforced b b' s o Hi He Hload) as He'.
  unfold applyVerifiedScaleTailUpdatePolicyLocked. destruct (_ <? _); [done|]. destruct (_ =? _); [by destruct (negb _)|].
  set (active := bool_decide (Action q = ActionForced) && _). set (next := mkUpdate _ q _).
  destruct (write_inv b' s o next Hi' Hld) as [[err ->]|(s' & -> & Hi2)]; [intros Hz; by eapply verified_good|done|].
  destruct (active && WantRunning _) eqn:Hrun.
  - apply andb_true_iff in Hrun as [_ Hrun].
    pose proof (stop_enforced e (set_update next (set_store (Some s') b')) Ha Hc Ho Ht Hrun) as Hs.
    by destruct (editPrefsLocked _ _ _) as [b2 [| | |]].
  - intros Hreq _. cbn. apply andb_false_iff in Hrun as [Hrun|Hrun]; [|done].
    unfold scaleTailForcedUpdateRequiredLocked in Hreq. cbn in Hreq. rewrite Hld in Hreq. cbn in Hreq.
    change (active = true) in Hreq. congruence.
Qed.

Lemma start_enforced e up fails b s o : inv b s o → enforced b → setTakes e = true → enforced (startLocked e up fails b).1.
Proof using Type*.
  intros Hi He Ht. destruct (load_inv b s o Hi) as (b' & Hload & _). pose proof (load_enforced b b' s o Hi He Hload) as He'.
  unfold startLocked, mbind, stM_bind, getS, throw, modS. rewrite Hload.
  destruct (scaleTailForcedUpdateRequiredLocked b' && WantRunning (default (b_prefs b') up)) eqn:Hguard; [done|].
  destruct (match up with Some p => _ | None => _ end); [done|].
  pose proof (reconcile_required e b' (default (b_prefs b') up)) as Hr. destruct (reconcilePrefsLocked _ _ _) as [np ch]. rewrite Ht, andb_true_r.
  destruct fails; [by destruct (match up with Some _ => true | None => ch end)|].
  destruct (match up with Some _ => true | None => ch end) eqn:Hch; cbn; intros Hreq _; cbn.
  - by apply Hr.
  - change (scaleTailForcedUpdateRequiredLocked b' = true) in Hreq. rewrite Hreq in Hguard. destruct up; [done|]. exact Hguard.
Qed.

Lemma ack_enforced b s o : inv b s o → enforced b → enforced (AcknowledgeScaleTailUpdateResume true b).1.
Proof using Type*.
  intros Hi He. destruct (load_inv b s o Hi) as (b' & Hload & Hi' & Hld & _). pose proof (load_enforced b b' s o Hi He Hload) as He'.
  unfold AcknowledgeScaleTailUpdateResume, mbind, stM_bind, getS, mret, stM_ret, modS. rewrite Hload.
  destruct (scaleTailForcedUpdateRequiredLocked b') eqn:Hreq; [done|]. cbn [orb]. destruct (negb _); [done|].
  destruct (writeScaleTailUpdateStateLocked true _ b') as [b2 r] eqn:Hw.
  assert (scaleTailForcedUpdateRequiredLocked b2 = false ∧ UPolicy (scaleTailUpdate b2) = UPolicy (scaleTailUpdate b')
          ∧ b_version b2 = b_version b' ∧ scaleTailUpdateLoaded b2 = scaleTailUpdateLoaded b') as (Hr2 & Hp2 & Hv2 & Hl2).
  { unfold writeScaleTailUpdateStateLocked in Hw. destruct (b_store b'); [|by simplify_eq]. destruct (_ <? _); [by simplify_eq|].
    destruct (ipn_WriteState _ _ _ _) as [st rr]. by simplify_eq. }
  assert (enforced b2) as He2 by (intros Hx; congruence).
  destruct r; try done. intros Hx. exfalso. revert Hx Hreq. unfold scaleTailForcedUpdateRequiredLocked.
  cbn [fst set_update scaleTailUpdate UPolicy scaleTailUpdateLoaded b_version]. rewrite Hl2, Hv2. congruence.
Qed.

Lemma step_enforced b s o ev : inv b s o → enforced b → written ev → uncontested ev → enforced (step b ev).
Proof using All.
  intros Hi He Hw Hu. destruct ev as [e writes p|e writes raw fetch| |writes|e up fails|e mp|e|id v writes|version prefs]; cbn [step written] in *.
  - destruct Hw as [-> Hw]. by eapply apply_enforced.
  - subst writes. destruct (load_inv b s o Hi) as (b' & Hload & _).
    assert ((ScaleTailUpdateStatus_ b).1 = b') as Est by (unfold ScaleTailUpdateStatus_, mbind, stM_bind; by rewrite Hload).
    pose proof (load_enforced b b' s o Hi He Hload) as He'. pose proof (status_inv b s o Hi) as Hs1. rewrite Est in Hs1.
    destruct (refresh_cases e true raw fetch b) as [->|[->|(data & p & Hp & ->)]]; [done|by rewrite Est|]. rewrite Est.
    eapply apply_enforced; [done..|by eapply unmarshalPolicy_wf|done].
  - destruct (load_inv b s o Hi) as (b' & Hload & _). unfold ScaleTailUpdateStatus_, mbind, stM_bind. rewrite Hload. by eapply load_enforced.
  - subst writes. by eapply ack_enforced.
  - by eapply start_enforced.
  - by apply edit_enforced.
  - unfold reconcilePrefs. destruct (reconcilePrefsLocked _ _ _) as [p ch]. destruct ch; [|done]. by apply setPrefs_enforced.
  - by destruct (b_store b).
  - unfold reopen. intros _ Hst. done.
Qed.

(** ** Properties *)

(** C30. In every run of the daemon, across restarts and whatever else is written to
    the store, the policy in the file is replaced only by one of a higher
    revision: an older policy that is replayed, or another one of the same
    revision, never takes effect.  (Writes of the policy state itself succeed;
    those of other components may fail.) *)
Theorem ota_policy_never_rolls_back b es es' :
  booted b → Forall written (es ++ es') → supersedes (durable (run b es)) (durable (run b (es ++ es'))).
Proof using All.
  intros [s Hi]%booted_inv [Hes Hes']%Forall_app. destruct (run_inv b s None es Hi Hes) as (s1 & o1 & Hi1 & _).
  destruct (run_inv _ s1 o1 es' Hi1 Hes') as (s2 & o2 & Hi2 & Hsup). unfold run in *. rewrite foldl_app.
  by rewrite (inv_durable _ _ _ Hi1), (inv_durable _ _ _ Hi2).
Qed.

(** C31. A policy that was applied without an error is the one the daemon has after a
    crash right behind it: the new process, of any version, reads back the same
    policy and the same intent to resume.  This is for runs in which the daemon's
    writes of its policy state reach the file; writes of other components may
    fail.  It does not hold in others: the policy whose write failed before is
    reported as applied when it is offered again, and is lost in a crash
    ([ota_unsaved_policy_is_reported_saved]), against the comment on
    [ApplyScaleTailUpdatePolicy]. *)
Theorem ota_policy_survives_restart b es e p b' status :
  booted b → Forall written es → wfPolicy p → ApplyScaleTailUpdatePolicy e true p (run b es) = (b', (status, None)) →
  ∀ version prefs, ∃ b'' status',
    ScaleTailUpdateStatus_ (reopen b' version prefs) = (b'', Ok status') ∧
    Verify p = Ok (st_Policy status') ∧ st_Policy status = st_Policy status' ∧ st_ResumePending status = st_ResumePending status'.
Proof using All.
  intros [s Hi]%booted_inv Hes Hw Happly version prefs. destruct (run_inv b s None es Hi Hes) as (s1 & o1 & Hi1 & _).
  destruct (apply_inv e _ s1 o1 p Hi1 Hw) as (s2 & o2 & Hi2 & _ & Hok). rewrite Happly in Hi2, Hok. cbn [fst snd] in Hi2, Hok.
  destruct (Hok eq_refl) as (u & -> & Hv & Hu & Hst). destruct (reopen_inv b' s2 _ version prefs Hi2) as [s3 Hi3].
  destruct (load_inv _ _ _ Hi3) as (b3 & Hload & Hi4 & Hld & _). exists b3, (scaleTailUpdateStatusLocked b3).
  unfold ScaleTailUpdateStatus_, mbind, stM_bind, getS, mret, stM_ret. rewrite Hload. split; [done|].
  pose proof (inv_loaded _ _ _ Hi4 Hld) as Hu3. cbn in Hu3. subst status. cbn. rewrite Hu3, Hu. done.
Qed.

Lemma run_enforced b s o es :
  inv b s o → enforced b → Forall written es → Forall uncontested es → enforced (run b es).
Proof using All.
  intros Hi He Hes. revert b s o Hi He. induction Hes as [|ev es Hev _ IH]; intros b s o Hi He Hun; [done|].
  inversion_clear Hun as [|? ? Hu Hus]. destruct (daemon_step_inv b s o ev Hi Hev) as (s1 & o1 & Hi1 & _).
  apply (IH (step b ev) s1 o1 Hi1); [by eapply step_enforced|done].
Qed.

Lemma booted_enforced b : booted b → enforced b.
Proof using Type. by intros (? & ? & ? & _ & ->). Qed.


End Daemon.

(** ** Concrete codecs, for the witnesses: lengths and contents one after the other *)
Module Toy.

Definition putBytes (s : bytes) : bytes := zlen s :: s.
Definition getBytes (s : bytes) : option (bytes * bytes) :=
  match s with n :: s => Some (take (Z.to_nat n) s, drop (Z.to_nat n) s) | [] => None end.

Lemma getBytes_put s r : getBytes (putBytes s ++ r) = Some (s, r).
Proof. cbn. unfold zlen. rewrite Nat2Z.id, take_app_length, drop_app_length. done. Qed.

Definition putPairs (l : list (bytes * bytes)) : bytes := l ≫= λ kv, putBytes kv.1 ++ putBytes kv.2.
Fixpoint getPairs (fuel : nat) (s : bytes) : option (list (bytes * bytes)) :=
  match fuel with
  | O => None
  | S fuel =>
      if bool_decide (s = []) then Some [] else
      '(k, s) ← getBytes s; '(v, s) ← getBytes s; l ← getPairs fuel s; Some ((k, v) :: l)
  end.

Lemma getPairs_put l fuel : (length l < fuel)%nat → getPairs fuel (putPairs l) = Some l.
Proof.
  revert fuel. induction l as [|[k v] l IH]; intros [|fuel] Hf; cbn in Hf; try lia; [done|].
  change (putPairs ((k, v) :: l)) with ((putBytes k ++ putBytes v) ++ putPairs l). rewrite <- app_assoc. cbn [getPairs].
  rewrite bool_decide_false by done. rewrite getBytes_put. cbn [mbind option_bind]. rewrite getBytes_put. cbn [mbind option_bind].
  rewrite IH by lia. done.
Qed.

Lemma putPairs_length l : (length l <= length (putPairs l))%nat.
Proof.
  induction l as [|[k v] l IH]; [done|]. change (putPairs ((k, v) :: l)) with ((putBytes k ++ putBytes v) ++ putPairs l).
  rewrite !length_app. unfold putBytes. cbn [length]. lia.
Qed.

#[export] Instance storeCodec : StoreCodec := {|
  marshalStore m := 1 :: putPairs (map_to_list m);
  unmarshalStore s := match s with
                      | 1 :: s => l ← getPairs (S (length s)) s; Some (list_to_map l)
                      | 123 :: _ => Some ∅
                      | _ => None
                      end |}.
#[export] Instance storeCodec_laws : StoreCodecLaws.
Proof.
  split; [|done|done]. intros m _. cbn [marshalStore unmarshalStore storeCodec]. rewrite getPairs_put by (apply Nat.lt_succ_r, putPairs_length).
  cbn. by rewrite list_to_map_to_list.
Qed.

#[export] Instance updateCodec : UpdateCodec := {|
  marshalUpdate u :=
    let p := UPolicy u in
    [Schema u; Revision p; FileSize p; if ResumePending u then 1 else 0] ++
    putBytes (Action p) ++ putBytes (Version p) ++ putBytes (Platform p) ++ putBytes (SHA256 p) ++ putBytes (DownloadURL p) ++ putBytes (Signature p);
  unmarshalUpdate s := match s with
    | schema :: revision :: size :: resume :: s =>
        '(a, s) ← getBytes s; '(v, s) ← getBytes s; '(pl, s) ← getBytes s; '(h, s) ← getBytes s; '(u, s) ← getBytes s; '(sg, _) ← getBytes s;
        Some (mkUpdate schema (mkPolicy revision a v pl h size u sg) (resume =? 1))
    | _ => None
    end |}.
#[export] Instance updateCodec_laws : UpdateCodecLaws.
Proof.
  split; [|done]. intros [sc p r] _. cbn [marshalUpdate unmarshalUpdate updateCodec app Schema UPolicy ResumePending].
  do 5 (rewrite getBytes_put; cbn [mbind option_bind]). rewrite <- (app_nil_r (putBytes (Signature p))), getBytes_put. cbn.
  do 2 f_equal; [by destruct p|by destruct r].
Qed.

(** The demonstration policy is for version 1.2.3-rc.1 on this platform; the installed version is older. *)
#[export] Instance env : OtaEnv := {|
  semver_IsValid := λ _, true; semver_Compare := λ a b, if bool_decide (a = b) then 0 else -1; ed25519_Verify := λ _ _ _, true;
  runtime_GOOS := str "windows"; runtime_GOARCH := str "amd64" |}.
#[export] Instance text : Unicode := plainText.
#[export] Instance text_laws : @UnicodeLaws text := plainText_laws.

Definition free : PrefsEnv unit := mkPrefsEnv unit None false (λ _, []) (λ p, (p, false)) true.
Definition locked : PrefsEnv unit := mkPrefsEnv unit None true (λ _, []) (λ p, (p, false)) true.
Definition fresh : LocalBackend unit := mkBackend (Some (mkFileStore ∅ (str "{}"))) noUpdate false (mkPrefs true ()) false (str "1.0.0").
Definition noData (_ : bytes) : option bytes := None.
Definition noMeta (_ : bytes) : option Policy := None.
Definition go (es : list (event (P := unit))) : LocalBackend unit := run noData noMeta fresh es.
Definition up : event (P := unit) := EStart free None false.
Definition forced : event (P := unit) := EApply free true demoPolicy.

Lemma fresh_booted : booted fresh.
Proof. by exists (mkFileStore ∅ (str "{}")), (str "1.0.0"), (mkPrefs true ()). Qed.

End Toy.

Section Witnesses.
Import Toy.

Lemma noMeta_wf : ∀ data p, noMeta data = Some p → wfPolicy p.
Proof. done. Qed.

Lemma forced_written : written forced ∧ uncontested forced.
Proof. split; [split; [done|apply demo_wf]|]. by split_and!. Qed.

(** The forced policy, a restart, and a replay of it. *)
Lemma ota_policy_never_rolls_back_witness :
  UPolicy <$> durable (go [up; forced]) = Some demoCanonical ∧
  supersedes (durable (go [up; forced])) (durable (go ([up; forced] ++ [ERestart (str "1.0.0") (mkPrefs true ()); forced]))).
Proof.
  split; [by vm_compute|]. apply (ota_policy_never_rolls_back noData noMeta noMeta_wf fresh [up; forced]); [exact fresh_booted|].
  repeat (constructor; [first [exact I | apply forced_written]|]). constructor.
Defined.

Lemma ota_policy_survives_restart_witness :
  ∃ b'' status', ScaleTailUpdateStatus_ (reopen (go [up; forced]) (str "1.0.1") (mkPrefs true ())) = (b'', Ok status') ∧
    st_Policy status' = demoCanonical ∧ st_ResumePending status' = true.
Proof.
  destruct (ota_policy_survives_restart noData noMeta noMeta_wf fresh [up] free demoPolicy (go [up; forced])
    (mkStatus true (str "1.0.0") true demoCanonical) fresh_booted) with (version := str "1.0.1") (prefs := mkPrefs true ()) as (b'' & st & G1 & G2 & G3 & G4).
  - repeat constructor.
  - apply demo_wf.
  - vm_compute. reflexivity.
  - exists b'', st. cbn [st_Policy st_ResumePending] in *. rewrite <- G3, <- G4. split_and!; [exact G1|reflexivity|reflexivity].
Defined.


(** ** What can go wrong

    A write to the file that fails is reported, and the same policy is offered
    again.  The second attempt finds it in the cache and is told that it was
    saved: the daemon reports the policy as applied and stops the network.  The
    file has no policy, and after a crash the network starts again. *)
Theorem ota_unsaved_policy_is_reported_saved :
  let es := [up; EApply free false demoPolicy; forced] in
  (ApplyScaleTailUpdatePolicy free false demoPolicy (go [up])).2.2 = Some (Errorf "persist OTA policy") ∧
  (ApplyScaleTailUpdatePolicy free true demoPolicy (go (take 2 es))).2.2 = None ∧
  scaleTailForcedUpdateRequiredLocked (go es) = true ∧ durable (go es) = None ∧
  (let b := go (es ++ [ERestart (str "1.0.0") (mkPrefs true ()); up]) in
   b_started b = true ∧ WantRunning (b_prefs b) = true ∧ scaleTailForcedUpdateRequiredLocked b = false).
Proof. by vm_compute. Qed.

(** Where stopping the network is refused (here by a locked configuration file)
    the error is reported once.  The policy has been stored by then, so when it
    is applied again the daemon answers that all is well, and the network keeps
    running. *)
Theorem ota_refused_stop_is_not_retried :
  let es := [up; EApply locked true demoPolicy] in
  (ApplyScaleTailUpdatePolicy locked true demoPolicy (go [up])).2.2 = Some (Errorf "stop network for forced update") ∧
  (ApplyScaleTailUpdatePolicy free true demoPolicy (go es)).2.2 = None ∧
  (let b := go (es ++ [forced]) in
   b_started b = true ∧ WantRunning (b_prefs b) = true ∧ scaleTailForcedUpdateRequiredLocked b = true).
Proof. by vm_compute. Qed.

End Witnesses.
