(* ===== verification/OtaInstall.v ===== *)
(** * Installing an update

    [ipn/localapi/scaletail_update_windows.go]: the request to install a
    downloaded update, the checks of the installer against the signed policy,
    and the flag that keeps a second installer from being started; and the handler
    through which the desktop client reads and offers update policies. *)
From stdpp Require Import gmap.
From Stdlib Require Import Ascii.
From S2P Require Import Prelude NetBuf NetAddr GoState GoStrings GoText TextCanon GoRegexp NetipParse GoUrl ControlUrl Ota OtaUrl OtaCanon FileStore OtaBackend.

Definition maxOTAInstallerSize : Z := 2 ^ 30.
Definition markerChar (c : Z) : bool := within (chr "a") (chr "f") c || isDigit c.
Definition otaMarkerPattern (s : bytes) : bool := (zlen s =? 32) && forallb markerChar s.

Record scaleTailUpdateInstallRequest := mkInstall {
  InstallerPath : bytes; rq_Revision : Z; UpdateType : bytes; rq_Version : bytes; rq_Platform : bytes;
  rq_SHA256 : bytes; rq_FileSize : Z; rq_DownloadURL : bytes; rq_Signature : bytes; MarkerID : bytes
}.

(** Path names of the platform, and SHA-256. *)
Class OtaSystem := {
  filepath_Clean : bytes → bytes;
  filepath_IsAbs : bytes → bool;
  filepath_Ext : bytes → bytes;
  filepath_Join : bytes → bytes → bytes;
  sha256_Sum : bytes → bytes
}.

(** [hex.EncodeToString] *)
Definition lowerHex (v : Z) : Z := if v <? 10 then chr "0" + v else chr "a" + (v - 10).
Definition hexEncode (b : bytes) : bytes := b ≫= λ c, [lowerHex (c / 16); lowerHex (c mod 16)].

(** [io.LimitReader] *)
Definition limitReader (n : Z) (s : bytes) : bytes := if n <? zlen s then take (Z.to_nat n) s else s.

Section Install.
Context `{Unicode, OtaEnv, OtaSystem}.

Definition req_policy (r : scaleTailUpdateInstallRequest) : Policy :=
  mkPolicy (rq_Revision r) (UpdateType r) (rq_Version r) (rq_Platform r) (rq_SHA256 r) (rq_FileSize r) (rq_DownloadURL r) (rq_Signature r).
Definition req_applyPolicy (p : Policy) (r : scaleTailUpdateInstallRequest) : scaleTailUpdateInstallRequest :=
  mkInstall (InstallerPath r) (Revision p) (Action p) (Version p) (Platform p) (SHA256 p) (FileSize p) (DownloadURL p) (Signature p) (MarkerID r).

Definition trimRequest (r : scaleTailUpdateInstallRequest) : scaleTailUpdateInstallRequest :=
  mkInstall (filepath_Clean (TrimSpace (InstallerPath r))) (rq_Revision r) (UpdateType r) (TrimSpace (rq_Version r))
    (ToLower (TrimSpace (rq_Platform r))) (ToLower (TrimSpace (rq_SHA256 r))) (rq_FileSize r) (rq_DownloadURL r)
    (TrimSpace (rq_Signature r)) (ToLower (TrimSpace (MarkerID r))).

Definition validateScaleTailUpdateRequest (r : scaleTailUpdateInstallRequest) : res scaleTailUpdateInstallRequest :=
  let r := trimRequest r in
  if negb (filepath_IsAbs (InstallerPath r)) || negb (EqualFold (filepath_Ext (InstallerPath r)) (str ".exe"))
  then Err (Errorf "installer_path must be an absolute .exe path") else
  policy ← Verify (req_policy r);
  if bool_decide (Action policy = ActionClear) then Err (Errorf "clear policy has no installer") else
  if negb (bool_decide (Platform policy = CurrentPlatform)) then Err (Errorf "update platform does not match") else
  if maxOTAInstallerSize <? FileSize policy then Err (Errorf "invalid installer size") else
  let r := req_applyPolicy policy r in
  if negb (otaMarkerPattern (MarkerID r)) then Err (Errorf "invalid OTA marker") else Ok r.

Definition isNewerOTAVersion (candidate current : bytes) : bool := IsNewerVersion candidate current.

(** ** Staging *)

(** The downloaded file: what [Stat] says of it, and what is read from it later. *)
Record download := mkDownload { isRegular : bool; statSize : Z; content : bytes }.
(** The system calls of [stageAndVerifyInstaller] that can fail: opening and [Stat], the directory, the copy with its
    [Sync] and [Close], and putting the copy in place. *)
Record stageIO := mkStageIO { opens : bool; mkdirs : bool; copies : bool; commits : bool; updateDir : bytes }.

(** The path of the staged installer, and the bytes in it. *)
Definition stageAndVerifyInstaller (io : stageIO) (d : download) (r : scaleTailUpdateInstallRequest) : res (bytes * bytes) :=
  if negb (opens io) then Err (Errorf "open installer") else
  if negb (isRegular d) || negb (statSize d =? rq_FileSize r) then Err (Errorf "installer size does not match signed metadata") else
  if negb (mkdirs io) then Err (Errorf "create OTA directory") else
  let staged := limitReader (maxOTAInstallerSize + 1) (content d) in
  if negb (copies io) then Err (Errorf "stage installer") else
  if negb (zlen staged =? rq_FileSize r) || negb (bool_decide (hexEncode (sha256_Sum staged) = rq_SHA256 r))
  then Err (Errorf "installer SHA-256 does not match signed metadata") else
  _ ← Verify (req_policy r);
  if zlen (rq_SHA256 r) <? 12 then Panic else
  let target := filepath_Join (updateDir io) (str "ScaleTail-" ++ rq_Version r ++ str "-" ++ take 12 (rq_SHA256 r) ++ str ".exe") in
  if negb (commits io) then Err (Errorf "commit staged installer") else Ok (target, staged).

(** ** The handler, as the steps between which others can run *)

(** The flag, the requests that hold it while they stage their installer, and the installers that run, with what they
    were asked to install. *)
Record installState := mkInstallState {
  otaInstallRunning : bool;
  staging : list scaleTailUpdateInstallRequest;
  installers : list (scaleTailUpdateInstallRequest * bytes)
}.

Inductive installEvent :=
  (** a request, decoded from JSON if it can be *)
  | IRequest (permitWrite isPOST : bool) (req : option scaleTailUpdateInstallRequest)
  (** the [i]th request that is staging comes to its end; [launches]: whether the process starts *)
  | IStage (i : nat) (io : stageIO) (d : download) (launches : bool)
  (** the [i]th installer exits *)
  | IExit (i : nat).

(** HTTP statuses *)
Definition StatusForbidden : Z := 403.
Definition StatusBadRequest : Z := 400.
Definition StatusConflict : Z := 409.
Definition StatusInternalServerError : Z := 500.
Definition StatusAccepted : Z := 202.

(** Up to the point where the flag is taken; the status of a request that is turned away. *)
Definition beginInstall (current : bytes) (permitWrite isPOST : bool) (req : option scaleTailUpdateInstallRequest) (s : installState)
    : installState * option Z :=
  if negb permitWrite then (s, Some StatusForbidden) else
  if negb isPOST then (s, Some StatusBadRequest) else
  match req with
  | None => (s, Some StatusBadRequest)
  | Some req =>
      match validateScaleTailUpdateRequest req with
      | Ok req =>
          if negb (bool_decide (current = [])) && negb (isNewerOTAVersion (rq_Version req) current) then (s, Some StatusConflict) else
          if otaInstallRunning s then (s, Some StatusConflict) else
          (mkInstallState true (req :: staging s) (installers s), None)
      | _ => (s, Some StatusBadRequest)
      end
  end.

Definition setOTAInstallRunning (running : bool) (s : installState) : installState := mkInstallState running (staging s) (installers s).

(** From there on: staging and starting the installer. *)
Definition finishInstall (i : nat) (io : stageIO) (d : download) (launches : bool) (s : installState) : installState * option Z :=
  match staging s !! i with
  | None => (s, None)
  | Some req =>
      let s := mkInstallState (otaInstallRunning s) (delete i (staging s)) (installers s) in
      match stageAndVerifyInstaller io d req with
      | Ok (_, staged) =>
          if launches then (mkInstallState (otaInstallRunning s) (staging s) ((req, staged) :: installers s), Some StatusAccepted)
          else (setOTAInstallRunning false s, Some StatusInternalServerError)
      | _ => (setOTAInstallRunning false s, Some StatusBadRequest)
      end
  end.

Definition installStep (current : bytes) (s : installState) (ev : installEvent) : installState :=
  match ev with
  | IRequest permitWrite isPOST req => (beginInstall current permitWrite isPOST req s).1
  | IStage i io d launches => (finishInstall i io d launches s).1
  | IExit i => match installers s !! i with
               | Some _ => setOTAInstallRunning false (mkInstallState (otaInstallRunning s) (staging s) (delete i (installers s)))
               | None => s
               end
  end.
Definition noInstall : installState := mkInstallState false [] [].
Definition installRun (current : bytes) (es : list installEvent) : installState := foldl (installStep current) noInstall es.

(** ** The invariant *)

(** A request whose policy has been verified and asks for a newer version for this platform. *)
Record verifiedRequest (current : bytes) (r : scaleTailUpdateInstallRequest) : Prop := {
  vr_verified : Verify (req_policy r) = Ok (req_policy r);
  vr_installer : UpdateType r ≠ ActionClear;
  vr_platform : rq_Platform r = CurrentPlatform;
  vr_newer : current = [] ∨ IsNewerVersion (rq_Version r) current = true
}.
Definition signedBytes (r : scaleTailUpdateInstallRequest) (staged : bytes) : Prop :=
  zlen staged = rq_FileSize r ∧ hexEncode (sha256_Sum staged) = rq_SHA256 r.

Record installInv (current : bytes) (s : installState) : Prop := {
  ii_flag : otaInstallRunning s = false → staging s = [] ∧ installers s = [];
  ii_one : (length (staging s) + length (installers s) <= 1)%nat;
  ii_staging : Forall (verifiedRequest current) (staging s);
  ii_installers : Forall (λ x, verifiedRequest current x.1 ∧ signedBytes x.1 x.2) (installers s)
}.

(** Requests as they arrive. *)
Definition wfRequest (r : scaleTailUpdateInstallRequest) : Prop := 0 <= rq_Revision r ∧ Forall is_byte (rq_DownloadURL r).
Definition wfInstall (ev : installEvent) : Prop := match ev with IRequest _ _ (Some r) => wfRequest r | _ => True end.

Context `{!UnicodeLaws}.

Lemma validate_verified current r r' :
  wfRequest r → validateScaleTailUpdateRequest r = Ok r' → current = [] ∨ IsNewerVersion (rq_Version r') current = true → verifiedRequest current r'.
Proof using Type*.
  intros [Hr Hb] Hv Hn. unfold validateScaleTailUpdateRequest in Hv. destruct (_ || _); [done|].
  destruct (Verify (req_policy (trimRequest r))) as [q| | |] eqn:Hq; cbn [mbind res_bind] in Hv; [|done..].
  destruct (bool_decide_reflect (Action q = ActionClear)); [done|]. destruct (bool_decide_reflect (Platform q = CurrentPlatform)); cbn [negb] in Hv; [|done].
  destruct (_ <? _); [done|]. destruct (negb _); [done|]. injection Hv as <-.
  assert (req_policy (req_applyPolicy q (trimRequest r)) = q) as Hp by (by destruct q). split; try done. rewrite Hp.
  eapply Verify_idem; [|exact Hq]. by split.
Qed.

Lemma begin_inv current pw post req s :
  installInv current s → wfInstall (IRequest pw post req) → installInv current (beginInstall current pw post req s).1.
Proof using Type*.
  intros Hi Hw. unfold beginInstall. destruct (negb pw); [done|]. destruct (negb post); [done|]. destruct req as [r|]; [|done].
  destruct (validateScaleTailUpdateRequest r) as [r'| | |] eqn:Hv; [|done..].
  destruct (bool_decide_reflect (current = [])) as [Hc|Hc], (isNewerOTAVersion (rq_Version r') current) eqn:Hnew; cbn [negb andb]; try done.
  all: destruct (otaInstallRunning s) eqn:Hf; [done|]; destruct Hi as [Hflag Hone Hst Hin]; specialize (Hflag Hf) as [Es Ei].
  all: split; cbn [fst otaInstallRunning staging installers]; [done|by rewrite Es, Ei| |by rewrite Ei].
  all: rewrite Es; constructor; [|constructor]; eapply validate_verified; [exact Hw|exact Hv|]; auto.
Qed.

Lemma stage_signed io d r target staged : stageAndVerifyInstaller io d r = Ok (target, staged) → signedBytes r staged.
Proof using Type.
  unfold stageAndVerifyInstaller. destruct (negb (opens io)); [done|]. destruct (_ || _); [done|]. destruct (negb (mkdirs io)); [done|].
  destruct (negb (copies io)); [done|].
  destruct (Z.eqb_spec (zlen (limitReader (maxOTAInstallerSize + 1) (content d))) (rq_FileSize r)) as [Hz|]; [|done].
  destruct (bool_decide_reflect (hexEncode (sha256_Sum (limitReader (maxOTAInstallerSize + 1) (content d))) = rq_SHA256 r)) as [Hh|]; [|done].
  cbn [negb orb]. destruct (Verify _); cbn [mbind res_bind]; [|done..]. destruct (_ <? _); [done|]. destruct (negb (commits io)); [done|].
  intros [= <- <-]. done.
Qed.

(** The request that ends was the only one. *)
Lemma only_one {A B} (l : list A) (k : list B) i x : l !! i = Some x → (length l + length k <= 1)%nat → l = [x] ∧ k = [] ∧ i = 0%nat.
Proof using Type.
  intros Hi Hl. destruct l as [|y [|z l]], k as [|w k]; cbn in Hl; try lia; try done. destruct i as [|i]; [|done]. by injection Hi as ->.
Qed.

Lemma finish_inv current i io d launches s : installInv current s → installInv current (finishInstall i io d launches s).1.
Proof using Type.
  intros Hi. unfold finishInstall. destruct (staging s !! i) as [r|] eqn:Hr; [|done]. pose proof Hi as [Hflag Hone Hst Hin].
  destruct (only_one _ _ _ _ Hr Hone) as (Es & Ei & ->). rewrite Es in Hst. inversion_clear Hst as [|? ? Hv _].
  destruct (stageAndVerifyInstaller io d r) as [[target staged]| | |] eqn:Hs; [destruct launches|..]; (split; cbn; rewrite ?Es, ?Ei; [try done|by cbn; auto with arith|done|try done]).
  - intros Hf. destruct (Hflag Hf) as [Hnil _]. by rewrite Es in Hnil.
  - constructor; [|done]. split; [done|]. by eapply stage_signed.
Qed.

Lemma installStep_inv current s ev : installInv current s → wfInstall ev → installInv current (installStep current s ev).
Proof using Type*.
  intros Hi Hw. destruct ev as [pw post req|i io d launches|i]; cbn [installStep]; [by apply begin_inv|by apply finish_inv|].
  destruct (installers s !! i) as [x|] eqn:Hx; [|done]. destruct Hi as [Hflag Hone Hst Hin].
  destruct (only_one (installers s) (staging s) i x Hx) as (Ei & Es & ->); [lia|]. split; cbn; rewrite ?Es, ?Ei; cbn; auto.
Qed.

(** C32. Whatever requests arrive, and however they are interleaved with the installers
    that run: at most one installer is being staged or runs at any time, and one
    that runs consists of bytes whose size and SHA-256 are those of a verified
    policy for this platform, of a version newer than the one installed. *)
Theorem ota_installs_signed_bytes current es r staged :
  Forall wfInstall es →
  let s := installRun current es in
  (length (staging s) + length (installers s) <= 1)%nat ∧
  ((r, staged) ∈ installers s →
   Verify (req_policy r) = Ok (req_policy r) ∧ UpdateType r ≠ ActionClear ∧ rq_Platform r = CurrentPlatform ∧
   (current = [] ∨ IsNewerVersion (rq_Version r) current = true) ∧
   zlen staged = rq_FileSize r ∧ hexEncode (sha256_Sum staged) = rq_SHA256 r).
Proof using Type*.
  intros Hes. cbn zeta. assert (installInv current (installRun current es)) as [_ Hone _ Hin].
  { unfold installRun. assert (installInv current noInstall) as Hi by (split; cbn; auto; constructor).
    revert Hi. generalize noInstall. induction Hes as [|ev es Hev _ IH]; intros s Hi; [done|]. cbn. apply IH. by apply installStep_inv. }
  split; [done|]. intros Hr. rewrite Forall_forall in Hin. destruct (Hin _ Hr) as [[G1 G2 G3 G4] [G5 G6]]. done.
Qed.

End Install.

(** ** Witness: one installer runs, a second request is turned away *)
Section Witness.
#[local] Instance demoSystem : OtaSystem := {|
  filepath_Clean := λ p, p; filepath_IsAbs := λ _, true; filepath_Ext := λ _, str ".exe"; filepath_Join := λ a b, a ++ str "/" ++ b;
  sha256_Sum := λ _, replicate 32 0xaa |}.

Definition demoRequest : scaleTailUpdateInstallRequest :=
  mkInstall (str "C:/update.exe") 7 (str " Forced ") (str "v1.2.3-rc.1") (str "Windows-AMD64") (replicate 64 (chr "A")) 1024
    (str "HTTPS://Downloads.Example.com:443/a%2fb/%7Ec?x=%41") demoSignature (replicate 32 (chr "a")).
Definition demoCanonicalRequest : scaleTailUpdateInstallRequest :=
  req_applyPolicy demoCanonical demoRequest.
Definition demoInstall : list installEvent :=
  [IRequest true true (Some demoRequest); IRequest true true (Some demoRequest);
   IStage 0 (mkStageIO true true true true (str "D")) (mkDownload true 1024 (replicate 1024 5)) true].

Lemma demo_installs :
  installers (@installRun plainText trustAll demoSystem (str "1.0.0") demoInstall) = [(demoCanonicalRequest, replicate 1024 5)].
Proof. by vm_compute. Qed.

Lemma ota_installs_signed_bytes_witness :
  @Verify plainText trustAll (req_policy demoCanonicalRequest) = Ok (req_policy demoCanonicalRequest) ∧
  hexEncode (sha256_Sum (replicate 1024 5)) = SHA256 demoCanonical.
Proof.
  destruct (@ota_installs_signed_bytes plainText trustAll demoSystem plainText_laws (str "1.0.0") demoInstall demoCanonicalRequest (replicate 1024 5))
    as [_ Hin].
  - repeat constructor; try done; by apply bytes_check.
  - destruct Hin as (G1 & _ & _ & _ & _ & G6); [rewrite demo_installs; left|]. split; [exact G1|exact G6].
Defined.

End Witness.

(** ** The update policy over the local API

    [serveScaleTailUpdatePolicy]: the desktop client reads the policy, offers a
    newer one, and acknowledges that it has resumed. *)
Inductive httpMethod := GET | PUT | PATCH | OtherMethod.
Definition StatusOK : Z := 200.
Definition StatusMethodNotAllowed : Z := 405.

Section Api.
Context {P : Type} `{EqDecision P} `{Unicode, OtaEnv, StoreCodec, UpdateCodec}.
Implicit Types (b : LocalBackend P) (e : PrefsEnv P).

Definition respond (r : LocalBackend P * res ScaleTailUpdateStatus) : LocalBackend P * (Z * option ScaleTailUpdateStatus) :=
  match r with
  | (b, Ok status) => (b, (StatusOK, Some status))
  | (b, _) => (b, (StatusInternalServerError, None))
  end.

(** [policy]: the body, if it decodes. *)
Definition serveScaleTailUpdatePolicy e (writes permitRead permitWrite : bool) (m : httpMethod) (policy : option Policy) b
    : LocalBackend P * (Z * option ScaleTailUpdateStatus) :=
  match m with
  | GET => if negb permitRead then (b, (StatusForbidden, None)) else respond (ScaleTailUpdateStatus_ b)
  | PUT =>
      if negb permitWrite then (b, (StatusForbidden, None)) else
      match policy with
      | None => (b, (StatusBadRequest, None))
      | Some policy =>
          if maxOTAInstallerSize <? FileSize policy then (b, (StatusBadRequest, None)) else
          match ApplyScaleTailUpdatePolicy e writes policy b with
          | (b, (_, Some _)) => (b, (StatusBadRequest, None))
          | (b, (status, None)) => (b, (StatusOK, Some status))
          end
      end
  | PATCH =>
      if negb permitWrite then (b, (StatusForbidden, None)) else
      match AcknowledgeScaleTailUpdateResume writes b with
      | (b, Ok _) => respond (ScaleTailUpdateStatus_ b)
      | (b, _) => (b, (StatusInternalServerError, None))
      end
  | OtherMethod => (b, (StatusMethodNotAllowed, None))
  end.

Lemma load_keeps b : b_store (loadScaleTailUpdatePolicyLocked b).1 = b_store b ∧ b_prefs (loadScaleTailUpdatePolicyLocked b).1 = b_prefs b.
Proof. unfold loadScaleTailUpdatePolicyLocked. repeat case_match; done. Qed.

(** A caller that may not write changes neither what is stored nor the preferences, whatever it sends. *)
Theorem read_only_caller_changes_nothing e writes permitRead m policy b :
  let b' := (serveScaleTailUpdatePolicy e writes permitRead false m policy b).1 in b_store b' = b_store b ∧ b_prefs b' = b_prefs b.
Proof.
  cbn zeta. destruct m; cbn [serveScaleTailUpdatePolicy negb]; try done. destruct permitRead; [|done]. cbn [negb].
  pose proof (load_keeps b) as Hl. unfold ScaleTailUpdateStatus_, mbind, stM_bind, getS, mret, stM_ret.
  by destruct (loadScaleTailUpdatePolicyLocked b) as [b' [| | |]].
Qed.

End Api.
