(* ===== verification/UdpRelay.v ===== *)
(** * net/udprelay: the relay for UDP paths between peers

    [net/udprelay/server.go], [metrics.go], [endpoint/endpoint.go] and the parts
    of [types/key/disco.go] they use.  A server allocates an endpoint for a pair
    of clients; each client binds its address to it by answering a challenge;
    from then on what one client sends arrives at the other.  Endpoints are
    cells of a heap, which both maps of the server point into. *)
From S2P Require Import Stun.
From S2P Require Import Prelude GoStrings NetBuf NetAddr PacketTsmp Disco.

(** ** Keys: [types/key/disco.go] *)

(** NaCl box and keyed BLAKE2s. *)
Class DiscoCrypto := {
  ScalarBaseMult : bytes → bytes;
  (** public key, private key *)
  box_Precompute : bytes → bytes → bytes;
  (** message, nonce, shared key *)
  SealAfterPrecomputation : bytes → bytes → bytes → bytes;
  OpenAfterPrecomputation : bytes → bytes → bytes → option bytes;
  (** key, input *)
  blake2s_256 : bytes → bytes → bytes
}.

Class DiscoCryptoLaws `{DiscoCrypto} : Prop := {
  Precompute_comm a b : box_Precompute (ScalarBaseMult a) b = box_Precompute (ScalarBaseMult b) a;
  Open_Seal m n k : OpenAfterPrecomputation (SealAfterPrecomputation m n k) n k = Some m;
  ScalarBaseMult_length a : zlen (ScalarBaseMult a) = 32;
  blake2s_length k m : zlen (blake2s_256 k m) = 32
}.

Section Keys.
Context `{DiscoCrypto}.

Definition DiscoPrivate_Public (k : bytes) : res bytes := if bool_decide (k = zeroKey) then Panic else Ok (ScalarBaseMult k).
Definition DiscoPrivate_Shared (k p : bytes) : res bytes :=
  if bool_decide (k = zeroKey) || bool_decide (p = zeroKey) then Panic else Ok (box_Precompute p k).

Definition DiscoShared_Seal (nonce k cleartext : bytes) : res bytes :=
  if bool_decide (k = zeroKey) then Panic else Ok (nonce ++ SealAfterPrecomputation cleartext nonce k).
Definition DiscoShared_Open (k ciphertext : bytes) : res (option bytes) :=
  if bool_decide (k = zeroKey) then Panic else
  if zlen ciphertext <? 24 then Ok None else
  Ok (OpenAfterPrecomputation (drop 24 ciphertext) (take 24 ciphertext) k).
End Keys.

Definition NewSortedPairOfDiscoPublic (a b : bytes) : bytes * bytes :=
  match bytes_Compare a b with Lt => (a, b) | _ => (b, a) end.

(** [[2]T], indexed by 0 or 1 *)
Definition at2 {A} (i : Z) (p : A * A) : A := if i =? 0 then p.1 else p.2.
Definition set2 {A} (i : Z) (x : A) (p : A * A) : A * A := if i =? 0 then (x, p.2) else (p.1, x).

(** ** Time: [tstime/mono] *)
Definition mono_Sub (t n : Z) : Z := s64 (u64 (t - n)).
Definition Second : Z := 10 ^ 9.
Definition defaultBindLifetime : Z := 30 * Second.
Definition defaultSteadyStateLifetime : Z := 5 * 60 * Second.
Definition macSecretRotationInterval : Z := 2 * 60 * Second.
Definition minVNI : Z := 1.
Definition maxVNI : Z := 2 ^ 24 - 1.
Definition totalPossibleVNI : Z := maxVNI - minVNI + 1.

(** ** Metrics *)
Inductive endpointState := endpointClosed | endpointConnecting | endpointOpen.
#[global] Instance endpointState_eq_dec : EqDecision endpointState.
Proof. solve_decision. Defined.

(** [expvar.Int] is an [int64]; forwarded counts are by family, in and out. *)
Record metrics := mkMetrics {
  g_connecting : Z; g_open : Z;
  forwarded44 : Z * Z; forwarded46 : Z * Z; forwarded64 : Z * Z; forwarded66 : Z * Z
}.
Definition registerMetrics : metrics := mkMetrics 0 0 (0, 0) (0, 0) (0, 0) (0, 0).
Definition addInt (d x : Z) : Z := s64 (u64 (x + d)).

Definition addEndpoint (st : endpointState) (d : Z) (m : metrics) : metrics :=
  match st with
  | endpointClosed => m
  | endpointConnecting => mkMetrics (addInt d (g_connecting m)) (g_open m) (forwarded44 m) (forwarded46 m) (forwarded64 m) (forwarded66 m)
  | endpointOpen => mkMetrics (g_connecting m) (addInt d (g_open m)) (forwarded44 m) (forwarded46 m) (forwarded64 m) (forwarded66 m)
  end.
Definition updateEndpoint (before after : endpointState) (m : metrics) : metrics :=
  if bool_decide (before = after) then m else addEndpoint after 1 (addEndpoint before (-1) m).

(** Packets and bytes. *)
Definition addForwarded (bytes packets : Z) (c : Z * Z) : Z * Z := (addInt packets c.1, addInt bytes c.2).
Definition countForwarded (in4 out4 : bool) (bytes packets : Z) (m : metrics) : metrics :=
  let add := addForwarded bytes packets in
  if in4 && out4 then mkMetrics (g_connecting m) (g_open m) (add (forwarded44 m)) (forwarded46 m) (forwarded64 m) (forwarded66 m)
  else if in4 && negb out4 then mkMetrics (g_connecting m) (g_open m) (forwarded44 m) (add (forwarded46 m)) (forwarded64 m) (forwarded66 m)
  else if negb in4 && out4 then mkMetrics (g_connecting m) (g_open m) (forwarded44 m) (forwarded46 m) (add (forwarded64 m)) (forwarded66 m)
  else mkMetrics (g_connecting m) (g_open m) (forwarded44 m) (forwarded46 m) (forwarded64 m) (add (forwarded66 m)).

(** ** An endpoint *)
Record serverEndpoint := mkSE {
  discoPubKeys : bytes * bytes;
  discoSharedSecrets : bytes * bytes;
  se_lamportID : Z;
  se_vni : Z;
  allocatedAt : Z;
  se_closed : bool;
  inProgressGeneration : Z * Z;
  boundAddrPorts : AddrPort * AddrPort;
  lastSeen : Z * Z;
  packetsRx : Z * Z;
  bytesRx : Z * Z
}.

Definition set_generation (i g : Z) (e : serverEndpoint) : serverEndpoint :=
  mkSE (discoPubKeys e) (discoSharedSecrets e) (se_lamportID e) (se_vni e) (allocatedAt e) (se_closed e)
    (set2 i g (inProgressGeneration e)) (boundAddrPorts e) (lastSeen e) (packetsRx e) (bytesRx e).
Definition set_bound (i : Z) (a : AddrPort) (e : serverEndpoint) : serverEndpoint :=
  mkSE (discoPubKeys e) (discoSharedSecrets e) (se_lamportID e) (se_vni e) (allocatedAt e) (se_closed e)
    (inProgressGeneration e) (set2 i a (boundAddrPorts e)) (lastSeen e) (packetsRx e) (bytesRx e).
Definition set_lastSeen (i t : Z) (e : serverEndpoint) : serverEndpoint :=
  mkSE (discoPubKeys e) (discoSharedSecrets e) (se_lamportID e) (se_vni e) (allocatedAt e) (se_closed e)
    (inProgressGeneration e) (boundAddrPorts e) (set2 i t (lastSeen e)) (packetsRx e) (bytesRx e).
Definition count_rx (i n : Z) (e : serverEndpoint) : serverEndpoint :=
  mkSE (discoPubKeys e) (discoSharedSecrets e) (se_lamportID e) (se_vni e) (allocatedAt e) (se_closed e)
    (inProgressGeneration e) (boundAddrPorts e) (lastSeen e)
    (set2 i (u64 (at2 i (packetsRx e) + 1)) (packetsRx e)) (set2 i (u64 (at2 i (bytesRx e) + n)) (bytesRx e)).
Definition set_se_closed (e : serverEndpoint) : serverEndpoint :=
  mkSE (discoPubKeys e) (discoSharedSecrets e) (se_lamportID e) (se_vni e) (allocatedAt e) true
    (inProgressGeneration e) (boundAddrPorts e) (lastSeen e) (packetsRx e) (bytesRx e).

(** [netip.AddrPort.IsValid] *)
Definition ap_IsValid (a : AddrPort) : bool := negb (bool_decide (ap_Addr a = AddrZero)).

Definition isBoundLocked (e : serverEndpoint) : bool := ap_IsValid (boundAddrPorts e).1 && ap_IsValid (boundAddrPorts e).2.
Definition stateLocked (e : serverEndpoint) : endpointState :=
  if se_closed e then endpointClosed
  else if ap_IsValid (boundAddrPorts e).1 && ap_IsValid (boundAddrPorts e).2 then endpointOpen
  else endpointConnecting.

Definition isExpiredLocked (now bindLifetime steadyStateLifetime : Z) (e : serverEndpoint) : bool :=
  if negb (isBoundLocked e) then bindLifetime <? mono_Sub now (allocatedAt e)
  else (steadyStateLifetime <? mono_Sub now (lastSeen e).1) || (steadyStateLifetime <? mono_Sub now (lastSeen e).2).

Definition maybeExpire (now bindLifetime steadyStateLifetime : Z) (e : serverEndpoint) (m : metrics) : serverEndpoint * metrics * bool :=
  let before := stateLocked e in
  if isExpiredLocked now bindLifetime steadyStateLifetime e then
    let e := set_se_closed e in (e, updateEndpoint before (stateLocked e) m, true)
  else (e, m, false).

(** What a handler returns: data to write, and where to; nothing is the zero address. *)
Definition output : Type := bytes * AddrPort.
Definition nothing : output := ([], zeroAddrPort).

Definition handleDataPacket (from : AddrPort) (b : bytes) (now : Z) (e : serverEndpoint) : serverEndpoint * output :=
  if negb (isBoundLocked e) then (e, nothing) else
  if bool_decide (stateLocked e = endpointClosed) then (e, nothing) else
  if bool_decide (from = (boundAddrPorts e).1) then (count_rx 0 (zlen b) (set_lastSeen 0 now e), (b, (boundAddrPorts e).2))
  else if bool_decide (from = (boundAddrPorts e).2) then (count_rx 1 (zlen b) (set_lastSeen 1 now e), (b, (boundAddrPorts e).1))
  else (e, nothing).

(** [netip.AddrPort.AppendBinary]: the address, with the zone, and the port, little-endian *)
Definition le_bytes2 (v : Z) : bytes := [v mod 256; v / 256 mod 256].
Definition AddrPort_bytes (a : AddrPort) : bytes :=
  match ap_Addr a with
  | AddrZero => []
  | Addr4 v => be_bytes 4 v
  | Addr6 v z => be_bytes 16 v ++ GoStrings.str z
  end ++ le_bytes2 (ap_Port a).

Section Endpoint.
Context `{DiscoCrypto}.

Definition macInput (src : AddrPort) (msg : BindUDPRelayEndpointCommon) : bytes :=
  be_bytes 4 (bind_VNI msg) ++ be_bytes 4 (bind_Generation msg) ++ bind_RemoteKey msg ++ AddrPort_bytes src.
Definition blakeMACFromBindMsg (blakeKey : bytes) (src : AddrPort) (msg : BindUDPRelayEndpointCommon) : bytes :=
  blake2s_256 blakeKey (macInput src msg).

Definition validateVNIAndRemoteKey (e : serverEndpoint) (otherSender : Z) (common : BindUDPRelayEndpointCommon) : bool :=
  (bind_VNI common =? se_vni e) && bool_decide (bytes_Compare (bind_RemoteKey common) (at2 otherSender (discoPubKeys e)) = Eq).

Definition GeneveProtocolDisco : Z := 0x7A11.

(** The challenge and its datagram. *)
Definition challengeMsg (e : serverEndpoint) (otherSender gen : Z) (from : AddrPort) (secret : bytes) : BindUDPRelayEndpointCommon :=
  let m := mkBind (se_vni e) gen (at2 otherSender (discoPubKeys e)) zeroKey in
  mkBind (se_vni e) gen (at2 otherSender (discoPubKeys e)) (blakeMACFromBindMsg secret from m).

Definition handleDiscoControlMsg (from : AddrPort) (senderIndex : Z) (discoMsg : Message) (serverDisco : bytes) (macSecrets : list bytes)
    (now : Z) (nonce : bytes) (e : serverEndpoint) (m : metrics) : res (serverEndpoint * metrics * output) :=
  let lastState := stateLocked e in
  if bool_decide (lastState = endpointClosed) then Ok (e, m, nothing) else
  if negb (senderIndex =? 0) && negb (senderIndex =? 1) then Ok (e, m, nothing) else
  let otherSender := if senderIndex =? 0 then 1 else 0 in
  match discoMsg with
  | MBindUDPRelayEndpoint msg =>
      if negb (validateVNIAndRemoteKey e otherSender msg) then Ok (e, m, nothing) else
      if bind_Generation msg =? 0 then Ok (e, m, nothing) else
      let e := set_generation senderIndex (bind_Generation msg) e in
      match Geneve_Encode {| gh_Version := 0; gh_Protocol := GeneveProtocolDisco; gh_VNI := VNI_Set (se_vni e); gh_Control := true |}
              (replicate (Z.to_nat GeneveFixedHeaderLength) 0) with
      | Ok reply =>
          let reply := (reply ++ Magic) ++ serverDisco in
          match macSecrets with
          | [] => Panic
          | secret :: _ =>
              payload ← AppendMarshal (MBindUDPRelayEndpointChallenge (challengeMsg e otherSender (bind_Generation msg) from secret)) [];
              box ← DiscoShared_Seal nonce (at2 senderIndex (discoSharedSecrets e)) payload;
              Ok (e, m, (reply ++ box, from))
          end
      | Err _ => Ok (e, m, nothing)
      | _ => Panic
      end
  | MBindUDPRelayEndpointAnswer msg =>
      if negb (validateVNIAndRemoteKey e otherSender msg) then Ok (e, m, nothing) else
      let generation := at2 senderIndex (inProgressGeneration e) in
      if (generation =? 0) || negb (generation =? bind_Generation msg) then Ok (e, m, nothing) else
      if existsb (λ macSecret, bool_decide (blakeMACFromBindMsg macSecret from msg = bind_Challenge msg)) macSecrets then
        let e := set_bound senderIndex from e in
        let m := updateEndpoint lastState (stateLocked e) m in
        Ok (set_generation senderIndex 0 (set_lastSeen senderIndex now e), m, nothing)
      else Ok (e, m, nothing)
  | _ => Ok (e, m, nothing)
  end.

Definition handleSealedDiscoControlMsg (from : AddrPort) (b : bytes) (serverDisco : bytes) (macSecrets : list bytes) (now : Z) (nonce : bytes)
    (e : serverEndpoint) (m : metrics) : res (serverEndpoint * metrics * output) :=
  src ← Source b;
  match src with
  | None => Ok (e, m, nothing)
  | Some sender =>
      let senderIndex :=
        if bool_decide (bytes_Compare sender (discoPubKeys e).1 = Eq) then Some 0
        else if bool_decide (bytes_Compare sender (discoPubKeys e).2 = Eq) then Some 1 else None in
      match senderIndex with
      | None => Ok (e, m, nothing)
      | Some senderIndex =>
          sealed ← slice_from b (zlen Magic + DiscoPublicRawLen);
          opened ← DiscoShared_Open (at2 senderIndex (discoSharedSecrets e)) sealed;
          match opened with
          | None => Ok (e, m, nothing)
          | Some discoPayload =>
              match Parse discoPayload with
              | Ok discoMsg => handleDiscoControlMsg from senderIndex discoMsg serverDisco macSecrets now nonce e m
              | Err _ => Ok (e, m, nothing)
              | Panic => Panic
              | NoFuel => NoFuel
              end
          end
      end
  end.
End Endpoint.

(** ** The server *)
Record Server := mkServer {
  sv_disco : bytes;
  discoPublic : bytes;
  bindLifetime : Z;
  steadyStateLifetime : Z;
  sv_metrics : metrics;
  macSecrets : list bytes;
  macSecretRotatedAt : Z;
  staticAddrPorts : list AddrPort;
  dynamicAddrPorts : list AddrPort;
  sv_closed : bool;
  sv_lamportID : Z;
  nextVNI : Z;
  serverEndpointByVNI : gmap Z nat;
  serverEndpointByDisco : gmap (bytes * bytes) nat;
  endpoints : list serverEndpoint
}.

Definition set_metrics (m : metrics) (s : Server) : Server :=
  mkServer (sv_disco s) (discoPublic s) (bindLifetime s) (steadyStateLifetime s) m (macSecrets s) (macSecretRotatedAt s)
    (staticAddrPorts s) (dynamicAddrPorts s) (sv_closed s) (sv_lamportID s) (nextVNI s) (serverEndpointByVNI s) (serverEndpointByDisco s) (endpoints s).
Definition set_secrets (l : list bytes) (t : Z) (s : Server) : Server :=
  mkServer (sv_disco s) (discoPublic s) (bindLifetime s) (steadyStateLifetime s) (sv_metrics s) l t
    (staticAddrPorts s) (dynamicAddrPorts s) (sv_closed s) (sv_lamportID s) (nextVNI s) (serverEndpointByVNI s) (serverEndpointByDisco s) (endpoints s).
Definition set_addrPorts (st dy : list AddrPort) (s : Server) : Server :=
  mkServer (sv_disco s) (discoPublic s) (bindLifetime s) (steadyStateLifetime s) (sv_metrics s) (macSecrets s) (macSecretRotatedAt s)
    st dy (sv_closed s) (sv_lamportID s) (nextVNI s) (serverEndpointByVNI s) (serverEndpointByDisco s) (endpoints s).
Definition set_sv_closed (s : Server) : Server :=
  mkServer (sv_disco s) (discoPublic s) (bindLifetime s) (steadyStateLifetime s) (sv_metrics s) (macSecrets s) (macSecretRotatedAt s)
    (staticAddrPorts s) (dynamicAddrPorts s) true (sv_lamportID s) (nextVNI s) (serverEndpointByVNI s) (serverEndpointByDisco s) (endpoints s).
Definition set_lamportID (x : Z) (s : Server) : Server :=
  mkServer (sv_disco s) (discoPublic s) (bindLifetime s) (steadyStateLifetime s) (sv_metrics s) (macSecrets s) (macSecretRotatedAt s)
    (staticAddrPorts s) (dynamicAddrPorts s) (sv_closed s) x (nextVNI s) (serverEndpointByVNI s) (serverEndpointByDisco s) (endpoints s).
Definition set_nextVNI (x : Z) (s : Server) : Server :=
  mkServer (sv_disco s) (discoPublic s) (bindLifetime s) (steadyStateLifetime s) (sv_metrics s) (macSecrets s) (macSecretRotatedAt s)
    (staticAddrPorts s) (dynamicAddrPorts s) (sv_closed s) (sv_lamportID s) x (serverEndpointByVNI s) (serverEndpointByDisco s) (endpoints s).
Definition set_maps (v : gmap Z nat) (d : gmap (bytes * bytes) nat) (s : Server) : Server :=
  mkServer (sv_disco s) (discoPublic s) (bindLifetime s) (steadyStateLifetime s) (sv_metrics s) (macSecrets s) (macSecretRotatedAt s)
    (staticAddrPorts s) (dynamicAddrPorts s) (sv_closed s) (sv_lamportID s) (nextVNI s) v d (endpoints s).
Definition set_endpoints (l : list serverEndpoint) (s : Server) : Server :=
  mkServer (sv_disco s) (discoPublic s) (bindLifetime s) (steadyStateLifetime s) (sv_metrics s) (macSecrets s) (macSecretRotatedAt s)
    (staticAddrPorts s) (dynamicAddrPorts s) (sv_closed s) (sv_lamportID s) (nextVNI s) (serverEndpointByVNI s) (serverEndpointByDisco s) l.

(** [endpoint.ServerEndpoint] *)
Record ServerEndpoint := mkServerEndpoint {
  ServerDisco : bytes;
  ClientDisco : bytes * bytes;
  LamportID : Z;
  AddrPorts : list AddrPort;
  VNI : Z;
  BindLifetime : Z;
  SteadyStateLifetime : Z
}.

Definition ErrServerClosed : error := Errorf "server closed".
Definition ErrServerNotReady : error := Errorf "server not ready".

(** The rest of [NewServer] sets up sockets and goroutines. *)
Definition NewServer `{DiscoCrypto} (disco : bytes) : res Server :=
  pub ← DiscoPrivate_Public disco;
  Ok (mkServer disco pub defaultBindLifetime defaultSteadyStateLifetime registerMetrics [] 0 [] [] false 0 minVNI ∅ ∅ []).

(** [wg.Wait] returns when no packet is being handled. *)
Definition Close (s : Server) : Server := set_sv_closed (set_maps ∅ ∅ s).

(** One round of the loop of [endpointGC]. *)
Definition gcOne (now bl ssl : Z) (k : bytes * bytes) (s : Server) : Server :=
  match serverEndpointByDisco s !! k with
  | None => s
  | Some l =>
      match endpoints s !! l with
      | None => s
      | Some v =>
          let '(v', m, expired) := maybeExpire now bl ssl v (sv_metrics s) in
          let s := set_endpoints (<[l := v']> (endpoints s)) (set_metrics m s) in
          if expired then set_maps (delete (se_vni v) (serverEndpointByVNI s)) (delete k (serverEndpointByDisco s)) s else s
      end
  end.
(** The keys of the map, in the order of its iteration. *)
Definition endpointGC (now bl ssl : Z) (order : list (bytes * bytes)) (s : Server) : Server := foldl (λ s k, gcOne now bl ssl k s) s order.

(** [fresh]: what [rand.Read] returns *)
Definition maybeRotateMACSecretLocked (now : Z) (fresh : bytes) (s : Server) : Server :=
  if negb (macSecretRotatedAt s =? 0) && (mono_Sub now (macSecretRotatedAt s) <? macSecretRotationInterval) then s else
  set_secrets (match macSecrets s with [] => [fresh] | secret :: _ => [fresh; secret] end) now s.
Definition getMACSecrets (now : Z) (fresh : bytes) (s : Server) : Server * list bytes :=
  let s := maybeRotateMACSecretLocked now fresh s in (s, macSecrets s).

Fixpoint nextVNILoop (fuel : nat) (s : Server) : Server * res Z :=
  match fuel with
  | O => (s, Err (Errorf "VNI pool exhausted"))
  | S fuel =>
      let vni := nextVNI s in
      let s := set_nextVNI (if vni =? maxVNI then minVNI else u32 (nextVNI s + 1)) s in
      match serverEndpointByVNI s !! vni with
      | None => (s, Ok vni)
      | Some _ => nextVNILoop fuel s
      end
  end.
Definition getNextVNILocked (s : Server) : Server * res Z := nextVNILoop (Z.to_nat totalPossibleVNI) s.

Definition getAllAddrPortsCopyLocked (s : Server) : list AddrPort := staticAddrPorts s ++ dynamicAddrPorts s.

Definition SetStaticAddrPorts (l : list AddrPort) (s : Server) : Server := set_addrPorts l (dynamicAddrPorts s) s.
(** The end of a round of [addrDiscoveryLoop]; on an error there are none. *)
Definition setDynamicAddrPorts (found : res (list AddrPort)) (s : Server) : Server :=
  set_addrPorts (staticAddrPorts s) (match found with Ok l => l | _ => [] end) s.

Section ServerOps.
Context `{DiscoCrypto}.

Definition describe (s : Server) (pair : bytes * bytes) (e : serverEndpoint) : ServerEndpoint :=
  mkServerEndpoint (discoPublic s) pair (se_lamportID e) (getAllAddrPortsCopyLocked s) (se_vni e) (bindLifetime s) (steadyStateLifetime s).

Definition AllocateEndpoint (discoA discoB : bytes) (now : Z) (s : Server) : Server * res ServerEndpoint :=
  if sv_closed s then (s, Err ErrServerClosed) else
  if (zlen (staticAddrPorts s) =? 0) && (zlen (dynamicAddrPorts s) =? 0) then (s, Err ErrServerNotReady) else
  if bool_decide (bytes_Compare discoA (discoPublic s) = Eq) || bool_decide (bytes_Compare discoB (discoPublic s) = Eq)
  then (s, Err (Errorf "client disco equals server disco")) else
  let pair := NewSortedPairOfDiscoPublic discoA discoB in
  match (l ← serverEndpointByDisco s !! pair; endpoints s !! l) with
  | Some e => (s, Ok (describe s pair e))
  | None =>
      match getNextVNILocked s with
      | (s, Ok vni) =>
          let s := set_lamportID (u64 (sv_lamportID s + 1)) s in
          match DiscoPrivate_Shared (sv_disco s) pair.1, DiscoPrivate_Shared (sv_disco s) pair.2 with
          | Ok s0, Ok s1 =>
              let e := mkSE pair (s0, s1) (sv_lamportID s) vni now false (0, 0) (zeroAddrPort, zeroAddrPort) (0, 0) (0, 0) (0, 0) in
              let l := length (endpoints s) in
              let s := set_endpoints (endpoints s ++ [e]) s in
              let s := set_maps (<[vni := l]> (serverEndpointByVNI s)) (<[pair := l]> (serverEndpointByDisco s)) s in
              let s := set_metrics (updateEndpoint endpointClosed endpointConnecting (sv_metrics s)) s in
              (s, Ok (describe s pair e))
          | _, _ => (s, Panic)
          end
      | (s, r) => (s, match r with Err e => Err e | _ => Panic end)
      end
  end.

(** *** A packet

    [handlePacket] in three parts, between which other goroutines run: the
    endpoint is looked up, the time and the secrets are taken, and the endpoint's
    handler runs under its lock. *)
Definition lookupPacket (b : bytes) (s : Server) : res (option (GeneveHeader * nat)) :=
  stunBinding ← (if Stun.Is b then x ← idx b 1; Ok (x =? 0x01) else Ok false);
  if (stunBinding : bool) then Ok None else
  match Geneve_Decode zeroGeneve b with
  | Ok gh =>
      match serverEndpointByVNI s !! VNI_Get (gh_VNI gh) with
      | None => Ok None
      | Some l => if gh_Control gh && negb (gh_Protocol gh =? GeneveProtocolDisco) then Ok None else Ok (Some (gh, l))
      end
  | Err _ => Ok None
  | _ => Panic
  end.
Definition packetSecrets (gh : GeneveHeader) (now : Z) (fresh : bytes) (s : Server) : Server * list bytes :=
  if gh_Control gh then getMACSecrets now fresh s else (s, []).
Definition runEndpoint (from : AddrPort) (b : bytes) (gh : GeneveHeader) (l : nat) (secrets : list bytes) (now : Z) (nonce : bytes) (s : Server)
    : res (Server * output) :=
  match endpoints s !! l with
  | None => Panic
  | Some e =>
      if gh_Control gh then
        msg ← slice_from b GeneveFixedHeaderLength;
        '(e, m, out) ← handleSealedDiscoControlMsg from msg (discoPublic s) secrets now nonce e (sv_metrics s);
        Ok (set_metrics m (set_endpoints (<[l := e]> (endpoints s)) s), out)
      else
        let '(e, out) := handleDataPacket from b now e in
        Ok (set_endpoints (<[l := e]> (endpoints s)) s, out)
  end.
Definition handlePacket (from : AddrPort) (b : bytes) (now : Z) (fresh nonce : bytes) (s : Server) : res (Server * output * bool) :=
  found ← lookupPacket b s;
  match found with
  | None => Ok (s, nothing, false)
  | Some (gh, l) =>
      let '(s, secrets) := packetSecrets gh now fresh s in
      '(s, out) ← runEndpoint from b gh l secrets now nonce s;
      Ok (s, out, negb (gh_Control gh))
  end.
End ServerOps.

(** ** The client: [wgengine/magicsock]

    What a client does for its handshake with a relay server. *)
Section Client.
Context `{DiscoCrypto}.

(** The packet of [sendDiscoMessage] to a relay server; the key is [di.sharedKey]. *)
Definition isRelayHandshakeMsg (m : Message) : bool := match m with MBindUDPRelayEndpoint _ | MBindUDPRelayEndpointAnswer _ => true | _ => false end.
Definition sendDiscoMessage (priv serverDisco : bytes) (vni : Z) (nonce : bytes) (m : Message) : res bytes :=
  pkt ← Geneve_Encode {| gh_Version := 0; gh_Protocol := GeneveProtocolDisco; gh_VNI := VNI_Set vni; gh_Control := isRelayHandshakeMsg m |}
          (replicate (Z.to_nat GeneveFixedHeaderLength) 0);
  pub ← DiscoPrivate_Public priv;
  let pkt := (pkt ++ Magic) ++ pub in
  key ← DiscoPrivate_Shared priv serverDisco;
  payload ← AppendMarshal m [];
  box ← DiscoShared_Seal nonce key payload;
  Ok (pkt ++ box).

(** [handleDiscoMessage] for a message whose Geneve header, already stripped, has the
    control bit set, from the relay server of the handshake. *)
Definition handleDiscoMessage (priv serverDisco msg : bytes) : res (option BindUDPRelayEndpointCommon) :=
  h ← slice_from msg (zlen Magic);
  sender ← slice h 0 DiscoPublicRawLen;
  if negb (bool_decide (sender = serverDisco)) then Ok None else
  sealedBox ← slice_from msg (zlen Magic + DiscoPublicRawLen);
  key ← DiscoPrivate_Shared priv serverDisco;
  payload ← DiscoShared_Open key sealedBox;
  match payload with
  | None => Ok None
  | Some payload =>
      match Parse payload with
      | Ok (MBindUDPRelayEndpointChallenge challenge) => Ok (Some challenge)
      | Ok _ | Err _ => Ok None
      | Panic => Panic
      | NoFuel => NoFuel
      end
  end.

(** The state of [handshakeServerEndpoint]: the common part of its messages, and
    whether the answer was sent. *)
Record clientHandshake := mkClientHandshake { ch_common : BindUDPRelayEndpointCommon; ch_answerSent : bool }.
Definition newClientHandshake (vni gen : Z) (epDisco : bytes) : clientHandshake := mkClientHandshake (mkBind vni gen epDisco zeroKey) false.
Definition bindMessage (h : clientHandshake) : Message := MBindUDPRelayEndpoint (ch_common h).
(** A challenge arrives; the answer, if there is one. *)
Definition onChallenge (msg : BindUDPRelayEndpointCommon) (h : clientHandshake) : clientHandshake * option Message :=
  if negb ((bind_VNI msg =? bind_VNI (ch_common h)) && bool_decide (bytes_Compare (bind_RemoteKey msg) (bind_RemoteKey (ch_common h)) = Eq)) then (h, None) else
  if ch_answerSent h then (h, None) else
  (mkClientHandshake (ch_common h) true,
   Some (MBindUDPRelayEndpointAnswer (mkBind (bind_VNI (ch_common h)) (bind_Generation (ch_common h)) (bind_RemoteKey (ch_common h)) (bind_Challenge msg)))).
End Client.

(** [status.ClientInfo] and [status.ServerSession] *)
Record ClientInfo := mkClientInfo { Endpoint : AddrPort; ClientKey : bytes; PacketsTx : Z; BytesTx : Z }.
Definition extractClientInfo (e : serverEndpoint) : ClientInfo * ClientInfo :=
  let info i := mkClientInfo (at2 i (boundAddrPorts e)) (at2 i (discoPubKeys e)) (at2 i (packetsRx e)) (at2 i (bytesRx e)) in (info 0, info 1).
Definition GetSessions (s : Server) : list (Z * (ClientInfo * ClientInfo)) :=
  if sv_closed s then [] else
  omap (λ '(_, l), e ← endpoints s !! l; Some (se_vni e, extractClientInfo e)) (map_to_list (serverEndpointByDisco s)).
