(* ===== verification/UdpRelayInv.v ===== *)
(** * net/udprelay: runs of the relay

    The goroutines of a relay server as a step relation: readers that handle
    packets in three parts, the collection of expired endpoints, allocations and
    changes of the advertised addresses interleave.  The invariant of the
    server's registry holds in every state that is reached. *)
From S2P Require Import Prelude NetBuf NetAddr PacketTsmp Disco UdpRelay.

(** ** What a handler does to an endpoint *)
Section Effects.
Context `{DiscoCrypto}.

(** The fields that never change. *)
Definition same_id (e e' : serverEndpoint) : Prop :=
  discoPubKeys e' = discoPubKeys e ∧ discoSharedSecrets e' = discoSharedSecrets e ∧ se_lamportID e' = se_lamportID e ∧
  se_vni e' = se_vni e ∧ allocatedAt e' = allocatedAt e.

Definition other (i : Z) : Z := if i =? 0 then 1 else 0.

(** The datagram of a challenge for leg [i], sent to [from]. *)
Definition challenge_datagram (serverDisco : bytes) (e : serverEndpoint) (i gen : Z) (from : AddrPort) (secret nonce w : bytes) : Prop :=
  ∃ hdr payload,
    Geneve_Encode {| gh_Version := 0; gh_Protocol := GeneveProtocolDisco; gh_VNI := VNI_Set (se_vni e); gh_Control := true |}
      (replicate (Z.to_nat GeneveFixedHeaderLength) 0) = Ok hdr ∧
    AppendMarshal (MBindUDPRelayEndpointChallenge (challengeMsg e (other i) gen from secret)) [] = Ok payload ∧
    w = ((hdr ++ Magic) ++ serverDisco) ++ nonce ++ SealAfterPrecomputation payload nonce (at2 i (discoSharedSecrets e)).

(** An answer that completes the handshake of leg [i] from [from]. *)
Definition answer_ok (e : serverEndpoint) (i : Z) (from : AddrPort) (secrets : list bytes) (msg : BindUDPRelayEndpointCommon) : Prop :=
  bind_VNI msg = se_vni e ∧ bind_RemoteKey msg = at2 (other i) (discoPubKeys e) ∧
  bind_Generation msg = at2 i (inProgressGeneration e) ∧ bind_Generation msg ≠ 0 ∧
  ∃ k, k ∈ secrets ∧ bind_Challenge msg = blakeMACFromBindMsg k from msg.

Inductive control_effect (serverDisco : bytes) (secrets : list bytes) (now : Z) (nonce : bytes) (from : AddrPort) (i : Z) (msg : Message)
    (e : serverEndpoint) (m : metrics) : serverEndpoint → metrics → output → Prop :=
  | ce_drop : control_effect serverDisco secrets now nonce from i msg e m e m nothing
  | ce_no_header g : g ≠ 0 → (∀ h, Geneve_Encode {| gh_Version := 0; gh_Protocol := GeneveProtocolDisco; gh_VNI := VNI_Set (se_vni e); gh_Control := true |}
      (replicate (Z.to_nat GeneveFixedHeaderLength) 0) ≠ Ok h) →
      control_effect serverDisco secrets now nonce from i msg e m (set_generation i g e) m nothing
  | ce_challenge c k rest w : msg = MBindUDPRelayEndpoint c → bind_Generation c ≠ 0 → secrets = k :: rest → stateLocked e ≠ endpointClosed →
      challenge_datagram serverDisco e i (bind_Generation c) from k nonce w →
      control_effect serverDisco secrets now nonce from i msg e m (set_generation i (bind_Generation c) e) m (w, from)
  | ce_bind c : msg = MBindUDPRelayEndpointAnswer c → answer_ok e i from secrets c → stateLocked e ≠ endpointClosed →
      control_effect serverDisco secrets now nonce from i msg e m
        (set_generation i 0 (set_lastSeen i now (set_bound i from e)))
        (updateEndpoint (stateLocked e) (stateLocked (set_bound i from e)) m) nothing.

Lemma validate_iff e o c : validateVNIAndRemoteKey e o c = true ↔ bind_VNI c = se_vni e ∧ bind_RemoteKey c = at2 o (discoPubKeys e).
Proof. unfold validateVNIAndRemoteKey. rewrite andb_true_iff, Z.eqb_eq, bool_decide_eq_true, bytes_Compare_eq. done. Qed.

Lemma challengeMsg_generation e i g o gen from k : challengeMsg (set_generation i g e) o gen from k = challengeMsg e o gen from k.
Proof. done. Qed.

Lemma handleDiscoControlMsg_effect from i msg sd secrets now nonce e m e' m' out :
  handleDiscoControlMsg from i msg sd secrets now nonce e m = Ok (e', m', out) →
  control_effect sd secrets now nonce from i msg e m e' m' out.
Proof.
  unfold handleDiscoControlMsg. fold (other i). case_bool_decide as Hcl; [intros [= <- <- <-]; constructor|].
  destruct (negb (i =? 0) && _); [intros [= <- <- <-]; constructor|].
  destruct msg as [| | |c| |c| | |]; try (intros [= <- <- <-]; constructor).
  - destruct (negb _); [intros [= <- <- <-]; constructor|]. destruct (bind_Generation c =? 0) eqn:Hg; [intros [= <- <- <-]; constructor|]. apply Z.eqb_neq in Hg.
    cbn [se_vni set_generation]. destruct (Geneve_Encode _ _) as [hdr|er| |] eqn:Hh; [|intros [= <- <- <-]; constructor; [done|congruence]|done|done].
    destruct secrets as [|k rest]; [done|]. rewrite challengeMsg_generation.
    intros (payload & Hp & Hb)%bind_Ok. apply bind_Ok in Hb as (box & Hs & [= <- <- <-]).
    unfold DiscoShared_Seal in Hs. case_bool_decide; [done|]. injection Hs as <-.
    eapply ce_challenge; [done|done|done|done|]. exists hdr, payload. done.
  - destruct (validateVNIAndRemoteKey e (other i) c) eqn:Hv; cbn [negb]; [|intros [= <- <- <-]; constructor]. apply validate_iff in Hv as [Hvni Hk].
    destruct (_ || _) eqn:Hg; [intros [= <- <- <-]; constructor|]. apply orb_false_iff in Hg as [Hg0%Z.eqb_neq Hg1%negb_false_iff%Z.eqb_eq].
    destruct (existsb _ secrets) eqn:Hx; [|intros [= <- <- <-]; constructor]. intros [= <- <- <-].
    apply existsb_exists in Hx as (k & Hin%list_elem_of_In & Hm%bool_decide_eq_true).
    eapply ce_bind; [done| |done]. split_and!; [done|done|done|congruence|]. by exists k.
Qed.

(** The message of a sealed datagram for the endpoint, and its sender. *)
Definition opens (e : serverEndpoint) (b : bytes) (i : Z) (msg : Message) : Prop :=
  (i = 0 ∨ i = 1) ∧ Source b = Ok (Some (at2 i (discoPubKeys e))) ∧
  ∃ sealed payload, slice_from b (zlen Magic + DiscoPublicRawLen) = Ok sealed ∧
    DiscoShared_Open (at2 i (discoSharedSecrets e)) sealed = Ok (Some payload) ∧ Parse payload = Ok msg.

Lemma handleSealed_effect from b sd secrets now nonce e m e' m' out :
  handleSealedDiscoControlMsg from b sd secrets now nonce e m = Ok (e', m', out) →
  (e', m', out) = (e, m, nothing) ∨ ∃ i msg, opens e b i msg ∧ control_effect sd secrets now nonce from i msg e m e' m' out.
Proof.
  unfold handleSealedDiscoControlMsg. intros (src & Hs & Hr)%bind_Ok. destruct src as [sender|]; [|left; congruence].
  assert (∀ i, (i = 0 ∨ i = 1) → sender = at2 i (discoPubKeys e) →
    (sealed ← slice_from b (zlen Magic + DiscoPublicRawLen);
     opened ← DiscoShared_Open (at2 i (discoSharedSecrets e)) sealed;
     match opened with
     | None => Ok (e, m, nothing)
     | Some discoPayload => match Parse discoPayload with
         | Ok discoMsg => handleDiscoControlMsg from i discoMsg sd secrets now nonce e m
         | Err _ => Ok (e, m, nothing) | Panic => Panic | NoFuel => NoFuel end
     end) = Ok (e', m', out) →
    (e', m', out) = (e, m, nothing) ∨ ∃ i msg, opens e b i msg ∧ control_effect sd secrets now nonce from i msg e m e' m' out) as Hleg.
  { intros i Hi -> (sealed & Hsl & Ho)%bind_Ok. apply bind_Ok in Ho as (opened & Hop & Hp). destruct opened as [payload|]; [|left; congruence].
    destruct (Parse payload) as [msg|er| |] eqn:Hpar; [|left; congruence|done|done]. right. exists i, msg. split; [|by apply handleDiscoControlMsg_effect].
    split; [done|]. split; [done|]. exists sealed, payload. done. }
  case_bool_decide as H0; [apply (Hleg 0); [by left|by apply bytes_Compare_eq|done]|].
  case_bool_decide as H1; [apply (Hleg 1); [by right|by apply bytes_Compare_eq|done]|]. left. congruence.
Qed.

Lemma control_effect_id sd secrets now nonce from i msg e m e' m' out :
  control_effect sd secrets now nonce from i msg e m e' m' out →
  same_id e e' ∧ se_closed e' = se_closed e ∧ m' = updateEndpoint (stateLocked e) (stateLocked e') m.
Proof.
  assert (∀ st, updateEndpoint st st m = m) as Hsame by (intros st; unfold updateEndpoint; by rewrite bool_decide_true).
  intros []; split_and!; try done; symmetry; apply Hsame.
Qed.

(** A data packet goes from one bound address to the other. *)
Definition forwards (e : serverEndpoint) (from : AddrPort) (b : bytes) (out : output) : Prop :=
  isBoundLocked e = true ∧ se_closed e = false ∧
  ∃ i, (i = 0 ∨ i = 1) ∧ from = at2 i (boundAddrPorts e) ∧ out = (b, at2 (other i) (boundAddrPorts e)).

Lemma handleDataPacket_effect from b now e e' out :
  handleDataPacket from b now e = (e', out) →
  same_id e e' ∧ se_closed e' = se_closed e ∧ boundAddrPorts e' = boundAddrPorts e ∧ inProgressGeneration e' = inProgressGeneration e ∧
  (e' = e ∧ out = nothing ∨ forwards e from b out).
Proof.
  unfold handleDataPacket. destruct (isBoundLocked e) eqn:Hb; cbn [negb]; [|intros [= <- <-]; split_and!; try done; by left].
  case_bool_decide as Hc; [intros [= <- <-]; split_and!; try done; by left|].
  assert (se_closed e = false) as Hcl by (unfold stateLocked in Hc; by destruct (se_closed e)).
  case_bool_decide as H0; [intros [= <- <-]; split_and!; try done; right; split_and!; [done|done|]; exists 0; split_and!; [by left|done|done]|].
  case_bool_decide as H1; [intros [= <- <-]; split_and!; try done; right; split_and!; [done|done|]; exists 1; split_and!; [by right|done|done]|].
  intros [= <- <-]. split_and!; try done. by left.
Qed.
End Effects.

(** ** Steps *)
Inductive job :=
  | Loaded (from : AddrPort) (b : bytes) (gh : GeneveHeader) (l : nat)
  | Ready (from : AddrPort) (b : bytes) (gh : GeneveHeader) (l : nat) (secrets : list bytes) (now : Z).

Record System := mkSystem { sys_server : Server; sys_jobs : list job }.

(** An address as sockets report it. *)
Definition ap_ok (a : AddrPort) : Prop := Addr_wf (ap_Addr a) ∧ ap_Addr a ≠ AddrZero ∧ 0 <= ap_Port a < 2 ^ 16.

(** What an observer sees: datagrams received, secrets drawn, datagrams sent. *)
Inductive event :=
  | Recv (from : AddrPort) (b : bytes)
  | Drew (secret : bytes)
  | Sent (from : AddrPort) (b : bytes) (out : output) (data : bool)
  | Tau.

Section Steps.
Context `{DiscoCrypto}.

Inductive step : System → event → System → Prop :=
  | step_alloc s jobs a b now s' r : key_wf a → key_wf b → AllocateEndpoint a b now s = (s', r) → r ≠ Panic → r ≠ NoFuel →
      step (mkSystem s jobs) Tau (mkSystem s' jobs)
  | step_recv s jobs from b found : ap_ok from → lookupPacket b s = Ok found →
      step (mkSystem s jobs) (Recv from b)
        (mkSystem s (match found with Some (gh, l) => jobs ++ [Loaded from b gh l] | None => jobs end))
  | step_ready s jobs i from b gh l now fresh s' secrets : jobs !! i = Some (Loaded from b gh l) →
      packetSecrets gh now fresh s = (s', secrets) →
      step (mkSystem s jobs) (if bool_decide (macSecrets s' = macSecrets s) then Tau else Drew fresh) (mkSystem s' (<[i := Ready from b gh l secrets now]> jobs))
  | step_run s jobs i from b gh l secrets now nonce s' out : jobs !! i = Some (Ready from b gh l secrets now) →
      runEndpoint from b gh l secrets now nonce s = Ok (s', out) →
      step (mkSystem s jobs) (Sent from b out (negb (gh_Control gh))) (mkSystem s' (delete i jobs))
  | step_gc s jobs now k : step (mkSystem s jobs) Tau (mkSystem (gcOne now (bindLifetime s) (steadyStateLifetime s) k s) jobs)
  | step_static s jobs l : step (mkSystem s jobs) Tau (mkSystem (SetStaticAddrPorts l s) jobs)
  | step_dynamic s jobs found : step (mkSystem s jobs) Tau (mkSystem (setDynamicAddrPorts found s) jobs)
  | step_close s : step (mkSystem s []) Tau (mkSystem (Close s) []).

(** Runs from a new server, with the events in order. *)
Inductive run (disco : bytes) : list event → System → Prop :=
  | run_new s : NewServer disco = Ok s → run disco [] (mkSystem s [])
  | run_step tr S ev S' : run disco tr S → step S ev S' → run disco (tr ++ [ev]) S'.

(** What happens from a state on. *)
Inductive steps (S : System) : list event → System → Prop :=
  | steps_refl : steps S [] S
  | steps_snoc tr S1 ev S2 : steps S tr S1 → step S1 ev S2 → steps S (tr ++ [ev]) S2.
End Steps.

(** ** Gauges *)
Definition wrap64 (x : Z) : Z := s64 (u64 x).
Definition in_state (st : endpointState) (e : serverEndpoint) : Z := if bool_decide (stateLocked e = st) then 1 else 0.
Fixpoint count_state (st : endpointState) (l : list serverEndpoint) : Z :=
  match l with [] => 0 | e :: l => in_state st e + count_state st l end.
Definition gauges_ok (m : metrics) (l : list serverEndpoint) : Prop :=
  g_connecting m = wrap64 (count_state endpointConnecting l) ∧ g_open m = wrap64 (count_state endpointOpen l).

Lemma addInt_wrap64 d x : addInt d (wrap64 x) = wrap64 (x + d).
Proof.
  unfold addInt, wrap64. f_equal. unfold s64, u64. destruct (Z.ltb_spec (x mod 2 ^ 64) (2 ^ 63)).
  - by rewrite Zplus_mod_idemp_l.
  - replace (x mod 2 ^ 64 - 2 ^ 64 + d) with (x mod 2 ^ 64 + d + (-1) * 2 ^ 64) by lia. by rewrite Z_mod_plus_full, Zplus_mod_idemp_l.
Qed.

Lemma wrap64_small x : 0 <= x < 2 ^ 63 → wrap64 x = x.
Proof. intros. apply s64_u64. lia. Qed.

Lemma count_app st l1 l2 : count_state st (l1 ++ l2) = count_state st l1 + count_state st l2.
Proof. induction l1 as [|e l1 IH]; cbn; lia. Qed.

Lemma count_insert st l i e e' : l !! i = Some e → count_state st (<[i := e']> l) = count_state st l - in_state st e + in_state st e'.
Proof.
  revert i. induction l as [|x l IH]; intros [|i] Hi; [done|done|injection Hi as ->; cbn; lia|].
  change (<[S i := e']> (x :: l)) with (x :: <[i := e']> l). cbn [count_state]. rewrite (IH i Hi). lia.
Qed.

Lemma count_nonneg st l : 0 <= count_state st l <= Z.of_nat (length l).
Proof. induction l as [|e l IH]; cbn; [lia|]. unfold in_state. case_bool_decide; lia. Qed.

(** Evaluate comparisons of constants. *)
Ltac compute_decide h :=
  repeat match type of h with context [bool_decide ?P] => let b := eval vm_compute in (bool_decide P) in change (bool_decide P) with b in h end;
  cbn match in h.

(** The gauges follow a change of state. *)
Lemma gauges_change m l l' before after :
  gauges_ok m l → (∀ st, st ≠ endpointClosed → count_state st l' = count_state st l - (if bool_decide (before = st) then 1 else 0) + (if bool_decide (after = st) then 1 else 0)) →
  gauges_ok (updateEndpoint before after m) l'.
Proof.
  intros [Hc Ho] Hl. pose proof (Hl endpointConnecting ltac:(done)) as Hlc. pose proof (Hl endpointOpen ltac:(done)) as Hlo. unfold updateEndpoint, gauges_ok.
  destruct (bool_decide_reflect (before = after)) as [Heq|Heq].
  - subst after. split; [rewrite Hc|rewrite Ho]; f_equal; lia.
  - destruct before, after; try done; cbn [addEndpoint g_connecting g_open]; rewrite ?Hc, ?Ho, ?addInt_wrap64; compute_decide Hlc; compute_decide Hlo; split; apply (f_equal wrap64); lia.
Qed.

Lemma gauges_insert m l i e e' : gauges_ok m l → l !! i = Some e → gauges_ok (updateEndpoint (stateLocked e) (stateLocked e') m) (<[i := e']> l).
Proof. intros Hg Hi. eapply gauges_change; [done|]. intros st _. by apply count_insert. Qed.

(** ** The registry *)
Record registry_ok `{DiscoCrypto} (s : Server) : Prop := {
  reg_vni v l : serverEndpointByVNI s !! v = Some l → ∃ e, endpoints s !! l = Some e ∧ se_vni e = v ∧ se_closed e = false ∧
    serverEndpointByDisco s !! discoPubKeys e = Some l;
  reg_disco p l : serverEndpointByDisco s !! p = Some l → ∃ e, endpoints s !! l = Some e ∧ discoPubKeys e = p ∧
    serverEndpointByVNI s !! se_vni e = Some l;
  reg_live l e : sv_closed s = false → endpoints s !! l = Some e → se_closed e = false → serverEndpointByDisco s !! discoPubKeys e = Some l;
  reg_endpoint l e : endpoints s !! l = Some e →
    minVNI <= se_vni e <= maxVNI ∧ se_lamportID e = u64 (Z.of_nat l + 1) ∧
    Ok (at2 0 (discoSharedSecrets e)) = DiscoPrivate_Shared (sv_disco s) (at2 0 (discoPubKeys e)) ∧
    Ok (at2 1 (discoSharedSecrets e)) = DiscoPrivate_Shared (sv_disco s) (at2 1 (discoPubKeys e));
  reg_lamport : sv_lamportID s = u64 (zlen (endpoints s));
  reg_next : minVNI <= nextVNI s <= maxVNI;
  reg_gauges : gauges_ok (sv_metrics s) (endpoints s);
  reg_key : DiscoPrivate_Public (sv_disco s) = Ok (discoPublic s);
  reg_secrets : (length (macSecrets s) <= 2)%nat;
  reg_rotated : macSecretRotatedAt s ≠ 0 → macSecrets s ≠ [];
  reg_keys l e : endpoints s !! l = Some e → key_wf (at2 0 (discoPubKeys e)) ∧ key_wf (at2 1 (discoPubKeys e))
}.

Definition job_ok (s : Server) (j : job) : Prop :=
  match j with
  | Loaded _ b gh l => ∃ e, endpoints s !! l = Some e ∧ Geneve_Decode zeroGeneve b = Ok gh ∧ VNI_Get (gh_VNI gh) = se_vni e
  | Ready _ b gh l secrets _ => (∃ e, endpoints s !! l = Some e ∧ Geneve_Decode zeroGeneve b = Ok gh ∧ VNI_Get (gh_VNI gh) = se_vni e) ∧
      (gh_Control gh = true → secrets ≠ [])
  end.

Definition system_ok `{DiscoCrypto} (S : System) : Prop := registry_ok (sys_server S) ∧ Forall (job_ok (sys_server S)) (sys_jobs S).

(** ** Preservation *)
Section Preservation.
Context `{DiscoCrypto}.

Lemma updateEndpoint_same st m : updateEndpoint st st m = m.
Proof using. unfold updateEndpoint. by rewrite bool_decide_true. Qed.

Lemma lookup_insert_cases {A} (l : list A) i j x y z : l !! i = Some z → <[i := x]> l !! j = Some y ↔ (j = i ∧ y = x) ∨ (j ≠ i ∧ l !! j = Some y).
Proof using.
  intros Hi. apply lookup_lt_Some in Hi. destruct (decide (j = i)) as [->|Hne].
  - rewrite list_lookup_insert_eq by done. naive_solver.
  - rewrite list_lookup_insert_ne by done. naive_solver.
Qed.

(** An endpoint changes, but for what identifies it and whether it is closed. *)
Lemma registry_replace s l e e' :
  registry_ok s → endpoints s !! l = Some e → same_id e e' → se_closed e' = se_closed e →
  registry_ok (set_metrics (updateEndpoint (stateLocked e) (stateLocked e') (sv_metrics s)) (set_endpoints (<[l := e']> (endpoints s)) s)).
Proof.
  intros [] Hl (Hk & Hs & Hlam & Hv & Ha) Hc. constructor; cbn.
  - intros v l0 (e0 & He0 & Hr)%reg_vni0. destruct (decide (l0 = l)) as [->|Hne].
    + rewrite list_lookup_insert_eq by (by eapply lookup_lt_Some). exists e'. rewrite Hv, Hc, Hk. assert (e0 = e) as -> by congruence. done.
    + rewrite list_lookup_insert_ne by done. by exists e0.
  - intros p l0 (e0 & He0 & Hr)%reg_disco0. destruct (decide (l0 = l)) as [->|Hne].
    + rewrite list_lookup_insert_eq by (by eapply lookup_lt_Some). exists e'. rewrite Hv, Hk. assert (e0 = e) as -> by congruence. done.
    + rewrite list_lookup_insert_ne by done. by exists e0.
  - intros l0 e0 Hsc [[-> ->]|[? ?]]%(lookup_insert_cases _ _ _ _ _ _ Hl); [rewrite Hc, Hk|]; by apply reg_live0.
  - intros l0 e0 [[-> ->]|[? ?]]%(lookup_insert_cases _ _ _ _ _ _ Hl); [rewrite Hv, Hlam, Hs, Hk|]; by apply reg_endpoint0.
  - rewrite reg_lamport0. unfold zlen. by rewrite length_insert.
  - done.
  - by apply gauges_insert.
  - done.
  - done.
  - done.
  - intros l0 e0 [[-> ->]|[? ?]]%(lookup_insert_cases _ _ _ _ _ _ Hl); [rewrite Hk|]; by eapply reg_keys0.
Qed.

Lemma runEndpoint_effect from b gh l secrets now nonce s s' out :
  runEndpoint from b gh l secrets now nonce s = Ok (s', out) →
  ∃ e e', endpoints s !! l = Some e ∧ same_id e e' ∧ se_closed e' = se_closed e ∧
    s' = set_metrics (updateEndpoint (stateLocked e) (stateLocked e') (sv_metrics s)) (set_endpoints (<[l := e']> (endpoints s)) s) ∧
    if gh_Control gh
    then (e' = e ∧ out = nothing) ∨
         ∃ msg i m' dm, slice_from b GeneveFixedHeaderLength = Ok msg ∧ opens e msg i dm ∧
           control_effect (discoPublic s) secrets now nonce from i dm e (sv_metrics s) e' m' out
    else boundAddrPorts e' = boundAddrPorts e ∧ inProgressGeneration e' = inProgressGeneration e ∧
         (e' = e ∧ out = nothing ∨ forwards e from b out).
Proof.
  unfold runEndpoint. destruct (endpoints s !! l) as [e|] eqn:Hl; [|done]. destruct (gh_Control gh).
  - intros (msg & Hm & Hr)%bind_Ok. apply bind_Ok in Hr as ([[e' m'] out'] & Hh & [= <- <-]).
    exists e, e'. apply handleSealed_effect in Hh as [Heq|(i & dm & Ho & Hce)].
    + injection Heq as -> -> ->. rewrite updateEndpoint_same. split_and!; try done. by left.
    + destruct (control_effect_id _ _ _ _ _ _ _ _ _ _ _ _ Hce) as (Hid & Hc & Hm'). subst m'. split_and!; [done..|]. right. exists msg, i. eauto.
  - destruct (handleDataPacket from b now e) as [e' out'] eqn:Hd. intros [= <- <-]. exists e, e'.
    apply handleDataPacket_effect in Hd as (Hid & Hc & Hb & Hg & Hf). split_and!; [done..| |done|done|done].
    assert (stateLocked e' = stateLocked e) as -> by (unfold stateLocked; by rewrite Hc, Hb). rewrite updateEndpoint_same. by destruct s.
Qed.

Lemma registry_runEndpoint from b gh l secrets now nonce s s' out :
  registry_ok s → runEndpoint from b gh l secrets now nonce s = Ok (s', out) → registry_ok s'.
Proof. intros Hr (e & e' & Hl & Hid & Hc & -> & _)%runEndpoint_effect. by apply registry_replace. Qed.

Lemma registry_secrets s l t : registry_ok s → (length l <= 2)%nat → l ≠ [] → registry_ok (set_secrets l t s).
Proof. intros [] Hl Hne. by constructor. Qed.

Lemma getMACSecrets_ok now fresh s s' secrets :
  getMACSecrets now fresh s = (s', secrets) → (length (macSecrets s) <= 2)%nat →
  secrets = macSecrets s' ∧ (length secrets <= 2)%nat ∧ ((s' = s ∧ macSecretRotatedAt s ≠ 0) ∨ s' = set_secrets (fresh :: take 1 (macSecrets s)) now s).
Proof using.
  unfold getMACSecrets, maybeRotateMACSecretLocked. destruct (negb _ && _) eqn:Hr.
  - apply andb_true_iff in Hr as [Hz%negb_true_iff%Z.eqb_neq _]. intros [= <- <-]. auto.
  - intros [= <- <-] _. destruct (macSecrets s) as [|x [|y l]]; cbn; (split; [done|split; [lia|by right]]).
Qed.

Lemma registry_packetSecrets gh now fresh s s' secrets : registry_ok s → packetSecrets gh now fresh s = (s', secrets) → registry_ok s'.
Proof.
  intros Hr. unfold packetSecrets. destruct (gh_Control gh); [|by intros [= <- <-]].
  intros (Hs & Hl & [[-> _]| ->])%getMACSecrets_ok; [done| |apply Hr]. apply registry_secrets; [done| |done]. cbn. rewrite length_take. lia.
Qed.

Lemma gcOne_effect now bl ssl k s s' : gcOne now bl ssl k s = s' → registry_ok s → s' = s ∨
  ∃ l e, serverEndpointByDisco s !! k = Some l ∧ endpoints s !! l = Some e ∧ isExpiredLocked now bl ssl e = true ∧
    s' = set_maps (delete (se_vni e) (serverEndpointByVNI s)) (delete k (serverEndpointByDisco s))
           (set_endpoints (<[l := set_se_closed e]> (endpoints s)) (set_metrics (updateEndpoint (stateLocked e) endpointClosed (sv_metrics s)) s)).
Proof.
  unfold gcOne. intros <- Hr. destruct (serverEndpointByDisco s !! k) as [l|] eqn:Hk; [|by left]. destruct (endpoints s !! l) as [e|] eqn:Hl; [|by left].
  unfold maybeExpire. destruct (isExpiredLocked now bl ssl e) eqn:Hx.
  - right. exists l, e. done.
  - left. rewrite list_insert_id by done. by destruct s.
Qed.

Lemma registry_gcOne now bl ssl k s : registry_ok s → registry_ok (gcOne now bl ssl k s).
Proof.
  intros Hr. destruct (gcOne_effect now bl ssl k s _ eq_refl Hr) as [->|(l & e & Hk & Hl & _ & ->)]; [done|]. destruct Hr.
  destruct (reg_disco0 _ _ Hk) as (e1 & He1 & Hke & Hve). assert (e1 = e) as -> by congruence. subst k.
  assert (∀ v l0, serverEndpointByVNI s !! v = Some l0 → l0 = l → v = se_vni e) as Huniq.
  { intros v l0 (e0 & He0 & <- & _)%reg_vni0 ->. congruence. }
  assert (∀ p l0, serverEndpointByDisco s !! p = Some l0 → l0 = l → p = discoPubKeys e) as Huniqd.
  { intros p l0 (e0 & He0 & <- & _)%reg_disco0 ->. congruence. }
  constructor; cbn.
  - intros v l0 [Hne Hv]%lookup_delete_Some. destruct (reg_vni0 _ _ Hv) as (e0 & He0 & Hev & Hec & Hed).
    assert (l0 ≠ l) by (intros Heq; apply Hne; symmetry; eauto). exists e0. rewrite list_lookup_insert_ne by done. split_and!; try done.
    rewrite lookup_delete_ne; [done|]. intros Heq. rewrite <- Heq in Hed. congruence.
  - intros p l0 [Hne Hp]%lookup_delete_Some. destruct (reg_disco0 _ _ Hp) as (e0 & He0 & Hep & Hev).
    assert (l0 ≠ l) by (intros Heq; apply Hne; symmetry; eauto). exists e0. rewrite list_lookup_insert_ne by done. split_and!; try done.
    rewrite lookup_delete_ne; [done|]. intros Heq. rewrite <- Heq in Hev. congruence.
  - intros l0 e0 Hsc [[-> ->]|[Hne He0]]%(lookup_insert_cases _ _ _ _ _ _ Hl) Hcl; [done|]. pose proof (reg_live0 _ _ Hsc He0 Hcl) as Hlv.
    rewrite lookup_delete_ne; [done|]. intros Heq. rewrite <- Heq in Hlv. congruence.
  - intros l0 e0 [[-> ->]|[? ?]]%(lookup_insert_cases _ _ _ _ _ _ Hl); [cbn|]; by apply reg_endpoint0.
  - rewrite reg_lamport0. unfold zlen. by rewrite length_insert.
  - done.
  - change endpointClosed with (stateLocked (set_se_closed e)). by apply gauges_insert.
  - done.
  - done.
  - done.
  - intros l0 e0 [[-> ->]|[? ?]]%(lookup_insert_cases _ _ _ _ _ _ Hl); cbn; by eapply reg_keys0.
Qed.

(** ** Allocation *)
Lemma nextVNILoop_effect fuel s s' r : nextVNILoop fuel s = (s', r) → minVNI <= nextVNI s <= maxVNI →
  ∃ x, s' = set_nextVNI x s ∧ minVNI <= x <= maxVNI ∧
    match r with Ok vni => serverEndpointByVNI s !! vni = None ∧ minVNI <= vni <= maxVNI | Err _ => True | _ => False end.
Proof using.
  revert s. induction fuel as [|fuel IH]; intros s; cbn [nextVNILoop].
  - intros [= <- <-] Hn. exists (nextVNI s). by destruct s.
  - intros Hl Hn. set (x := if nextVNI s =? maxVNI then minVNI else u32 (nextVNI s + 1)) in *.
    assert (minVNI <= x <= maxVNI) as Hx.
    { unfold x. destruct (Z.eqb_spec (nextVNI s) maxVNI); [done|]. unfold u32. rewrite Z.mod_small; unfold minVNI, maxVNI in *; lia. }
    cbn [serverEndpointByVNI set_nextVNI] in Hl. destruct (serverEndpointByVNI s !! nextVNI s) eqn:Hv.
    + apply IH in Hl as (y & -> & Hy & Hr); [|done]. exists y. by destruct s.
    + injection Hl as <- <-. exists x. done.
Qed.

Lemma AllocateEndpoint_effect a b now s s' r : AllocateEndpoint a b now s = (s', r) → registry_ok s → r ≠ Panic → 
  s' = s ∨ (∃ x, s' = set_nextVNI x s ∧ minVNI <= x <= maxVNI) ∨
  ∃ x vni e, let pair := NewSortedPairOfDiscoPublic a b in let l := length (endpoints s) in
    s' = set_metrics (updateEndpoint endpointClosed endpointConnecting (sv_metrics s))
          (set_maps (<[vni := l]> (serverEndpointByVNI s)) (<[pair := l]> (serverEndpointByDisco s))
            (set_endpoints (endpoints s ++ [e]) (set_lamportID (u64 (sv_lamportID s + 1)) (set_nextVNI x s)))) ∧
    minVNI <= x <= maxVNI ∧ minVNI <= vni <= maxVNI ∧ serverEndpointByVNI s !! vni = None ∧ serverEndpointByDisco s !! pair = None ∧ sv_closed s = false ∧
    se_vni e = vni ∧ discoPubKeys e = pair ∧ se_closed e = false ∧ boundAddrPorts e = (zeroAddrPort, zeroAddrPort) ∧ inProgressGeneration e = (0, 0) ∧
    allocatedAt e = now ∧ se_lamportID e = u64 (sv_lamportID s + 1) ∧
    Ok (at2 0 (discoSharedSecrets e)) = DiscoPrivate_Shared (sv_disco s) pair.1 ∧ Ok (at2 1 (discoSharedSecrets e)) = DiscoPrivate_Shared (sv_disco s) pair.2 ∧
    r = Ok (describe s' pair e).
Proof.
  unfold AllocateEndpoint. intros Ha Hr Hp. destruct (sv_closed s) eqn:Hc; [injection Ha as <- <-; by left|].
  destruct (_ && _); [injection Ha as <- <-; by left|]. destruct (_ || _); [injection Ha as <- <-; by left|].
  set (pair := NewSortedPairOfDiscoPublic a b) in *.
  destruct (l ← serverEndpointByDisco s !! pair; endpoints s !! l) as [e|] eqn:He; [injection Ha as <- <-; by left|].
  assert (serverEndpointByDisco s !! pair = None) as Hpair.
  { destruct (serverEndpointByDisco s !! pair) as [l|] eqn:Hl; [|done]. destruct (reg_disco _ Hr _ _ Hl) as (e & He' & _).
    cbn [mbind option_bind] in He. congruence. }
  unfold getNextVNILocked in Ha. destruct (nextVNILoop _ s) as [s1 r1] eqn:Hn. apply nextVNILoop_effect in Hn as (x & -> & Hx & Hr1); [|apply Hr].
  destruct r1 as [vni|er| |]; [|injection Ha as <- <-; right; left; by exists x|done|done].
  cbn [set_lamportID set_nextVNI sv_disco sv_lamportID] in Ha.
  destruct (DiscoPrivate_Shared (sv_disco s) pair.1) as [s0|er| |] eqn:Hs0; [|by injection Ha..].
  destruct (DiscoPrivate_Shared (sv_disco s) pair.2) as [s1|er| |] eqn:Hs1; [|by injection Ha..].
  injection Ha as <- <-. right. right. eexists x, vni, _. cbn zeta. split; [reflexivity|]. destruct Hr1 as [? [? ?]], Hx as [? ?]. split_and!; first [done|by cbn].
Qed.

Lemma NewSortedPair_wf a b : key_wf a → key_wf b → key_wf (at2 0 (NewSortedPairOfDiscoPublic a b)) ∧ key_wf (at2 1 (NewSortedPairOfDiscoPublic a b)).
Proof using. unfold NewSortedPairOfDiscoPublic. by destruct (bytes_Compare a b). Qed.

Lemma registry_alloc a b now s s' r : AllocateEndpoint a b now s = (s', r) → r ≠ Panic → key_wf a → key_wf b → registry_ok s → registry_ok s'.
Proof.
  intros Ha Hp Hka Hkb Hr. pose proof (NewSortedPair_wf a b Hka Hkb) as Hkp. destruct (AllocateEndpoint_effect _ _ _ _ _ _ Ha Hr Hp) as
    [->|[(x & -> & Hx)|(x & vni & e & -> & Hx & Hvni & Hfresh & Hpair & Hsc & Hev & Hed & Hec & Hbd & _ & _ & Hlam & Hs0 & Hs1 & _)]];
    [done|by destruct Hr; constructor|]. clear Ha.
  set (pair := NewSortedPairOfDiscoPublic a b) in *. destruct Hr. assert (endpoints s !! length (endpoints s) = None) as Hend by (by apply lookup_ge_None).
  assert ((endpoints s ++ [e]) !! length (endpoints s) = Some e) as Hnew by (by apply list_lookup_middle).
  assert (∀ l0 e0, endpoints s !! l0 = Some e0 → (endpoints s ++ [e]) !! l0 = Some e0) as Hold by (intros; by apply lookup_app_l_Some).
  constructor; cbn.
  - intros v l0 [[<- <-]|[Hne Hv]]%lookup_insert_Some.
    + exists e. rewrite Hed, lookup_insert_eq. done.
    + destruct (reg_vni0 _ _ Hv) as (e0 & He0 & <- & Hc0 & Hd0). exists e0. split_and!; [by apply Hold|done|done|].
      rewrite lookup_insert_ne; [done|]. intros Heq. rewrite <- Heq in Hd0. congruence.
  - intros p l0 [[<- <-]|[Hne Hp0]]%lookup_insert_Some.
    + exists e. rewrite Hev, lookup_insert_eq. done.
    + destruct (reg_disco0 _ _ Hp0) as (e0 & He0 & <- & Hv0). exists e0. split_and!; [by apply Hold|done|].
      rewrite lookup_insert_ne; [done|]. intros Heq. rewrite <- Heq in Hv0. congruence.
  - intros l0 e0 _ [He0|[Hge He0]]%lookup_app_Some Hc0.
    + pose proof (reg_live0 _ _ Hsc He0 Hc0) as Hlv. rewrite lookup_insert_ne; [done|]. intros Heq. rewrite <- Heq in Hlv. congruence.
    + apply list_lookup_singleton_Some in He0 as [Hl0 <-]. rewrite Hed. replace l0 with (length (endpoints s)) by lia. apply lookup_insert_eq.
  - intros l0 e0 [He0|[Hge He0]]%lookup_app_Some; [by apply reg_endpoint0|].
    apply list_lookup_singleton_Some in He0 as [Hl0 <-]. rewrite Hev, Hed, Hlam, reg_lamport0. unfold zlen. split_and!; [apply Hvni|apply Hvni| |done|done].
    replace l0 with (length (endpoints s)) by lia. unfold u64. by rewrite Zplus_mod_idemp_l.
  - rewrite reg_lamport0. unfold zlen, u64. rewrite length_app, Zplus_mod_idemp_l. cbn [length]. f_equal. lia.
  - done.
  - apply (gauges_change _ (endpoints s)); [done|]. intros st Hst. rewrite count_app. cbn [count_state]. unfold in_state.
    assert (stateLocked e = endpointConnecting) as -> by (unfold stateLocked; by rewrite Hec, Hbd).
    rewrite (bool_decide_false (endpointClosed = st)) by done. lia.
  - done.
  - done.
  - done.
  - intros l0 e0 [He0|[Hge He0]]%lookup_app_Some; [by eapply reg_keys0|]. apply list_lookup_singleton_Some in He0 as [_ <-]. by rewrite Hed.
Qed.

Lemma registry_close s : registry_ok s → registry_ok (Close s).
Proof. intros []. constructor; cbn; try done. Qed.

Lemma registry_new disco s : NewServer disco = Ok s → registry_ok s.
Proof. unfold NewServer. intros (pub & Hp & [= <-])%bind_Ok. constructor; cbn; try done; try lia. Qed.

(** Endpoints stay where they are and keep what identifies them. *)
Definition grows (s s' : Server) : Prop := ∀ l e, endpoints s !! l = Some e → ∃ e', endpoints s' !! l = Some e' ∧ same_id e e'.

Lemma same_id_refl e : same_id e e.
Proof using. done. Qed.

Lemma grows_refl s : grows s s.
Proof using. intros l e He. exists e. auto using same_id_refl. Qed.

Lemma grows_insert s s' l e e' : endpoints s !! l = Some e → same_id e e' → endpoints s' = <[l := e']> (endpoints s) → grows s s'.
Proof using.
  intros Hl Hid Heq l0 e0 He0. rewrite Heq. destruct (decide (l0 = l)) as [->|Hne].
  - exists e'. rewrite list_lookup_insert_eq by (by eapply lookup_lt_Some). split; [done|]. congruence.
  - exists e0. rewrite list_lookup_insert_ne by done. auto using same_id_refl.
Qed.

Lemma job_ok_grows s s' j : grows s s' → job_ok s j → job_ok s' j.
Proof using.
  assert (∀ l b gh, grows s s' → (∃ e, endpoints s !! l = Some e ∧ Geneve_Decode zeroGeneve b = Ok gh ∧ VNI_Get (gh_VNI gh) = se_vni e) →
     ∃ e, endpoints s' !! l = Some e ∧ Geneve_Decode zeroGeneve b = Ok gh ∧ VNI_Get (gh_VNI gh) = se_vni e) as Hex.
  { intros l b gh Hg (e & He & Hd & Hv). destruct (Hg _ _ He) as (e' & He' & Hid). exists e'. split_and!; [done|done|]. destruct Hid as (_ & _ & _ & -> & _). done. }
  destruct j; cbn; [by eauto|]. intros Hg [He Hs]. split; [by eauto|done].
Qed.

Lemma gcOne_grows now bl ssl k s : registry_ok s → grows s (gcOne now bl ssl k s).
Proof.
  intros Hr. destruct (gcOne_effect now bl ssl k s _ eq_refl Hr) as [->|(l & e & Hk & Hl & _ & ->)]; [apply grows_refl|].
  by apply (grows_insert _ _ l e (set_se_closed e)).
Qed.

Lemma alloc_grows a b now s s' r : AllocateEndpoint a b now s = (s', r) → r ≠ Panic → registry_ok s → grows s s'.
Proof.
  intros Ha Hp Hr. destruct (AllocateEndpoint_effect _ _ _ _ _ _ Ha Hr Hp) as [->|[(x & -> & Hx)|(x & vni & e & -> & _)]]; [apply grows_refl|intros l0 e0 He0; by exists e0|].
  intros l0 e0 He0. exists e0. split; [by apply lookup_app_l_Some|done].
Qed.

Lemma lookupPacket_ok b s gh l : registry_ok s → lookupPacket b s = Ok (Some (gh, l)) →
  (∃ e, endpoints s !! l = Some e ∧ Geneve_Decode zeroGeneve b = Ok gh ∧ VNI_Get (gh_VNI gh) = se_vni e) ∧
  serverEndpointByVNI s !! VNI_Get (gh_VNI gh) = Some l.
Proof.
  intros Hr. unfold lookupPacket. intros (stunBinding & _ & Hf)%bind_Ok. destruct stunBinding; [done|].
  destruct (Geneve_Decode zeroGeneve b) as [gh'|e| |] eqn:Hd; [|done..]. destruct (serverEndpointByVNI s !! VNI_Get (gh_VNI gh')) as [l'|] eqn:Hl; [|done].
  destruct (_ && _); [done|]. injection Hf as -> ->. destruct (reg_vni _ Hr _ _ Hl) as (e & He & Hv & _). split; [by exists e|done].
Qed.

Lemma packetSecrets_effect gh now fresh s s' secrets : registry_ok s → packetSecrets gh now fresh s = (s', secrets) →
  endpoints s' = endpoints s ∧ serverEndpointByVNI s' = serverEndpointByVNI s ∧ discoPublic s' = discoPublic s ∧
  (∀ k, k ∈ macSecrets s' → k ∈ macSecrets s ∨ k = fresh) ∧ (gh_Control gh = true → secrets = macSecrets s') ∧
  (gh_Control gh = false → secrets = [] ∧ s' = s) ∧ (gh_Control gh = true → secrets ≠ []).
Proof.
  intros Hr. unfold packetSecrets. destruct (gh_Control gh).
  - intros (Hs & Hl & [[-> Hz]| ->])%getMACSecrets_ok; [rewrite Hs; pose proof (reg_rotated _ Hr Hz); split_and!; auto; done| |apply Hr].
    split_and!; try done; [|by rewrite Hs]. cbn.
    intros k [->|Hk%elem_of_take]%elem_of_cons; [by right|]. left. destruct Hk as (i & Hi & _). by eapply list_elem_of_lookup_2.
  - intros [= <- <-]. split_and!; auto; done.
Qed.

Lemma step_ok S ev S' : step S ev S' → system_ok S → system_ok S' ∧ grows (sys_server S) (sys_server S').
Proof.
  assert (∀ s s' jobs, registry_ok s' → grows s s' → Forall (job_ok s) jobs → system_ok (mkSystem s' jobs)) as Hkeep.
  { intros s s' jobs Hr Hg Hj. split; [done|]. eapply Forall_impl; [exact Hj|]. intros j. by apply job_ok_grows. }
  intros Hs [Hr Hj]. destruct Hs as [s jobs a b now s' r Hka Hkb Ha Hp _|s jobs from b found Hap Hf|s jobs i from b gh l now fresh s' secrets Hi Hps
    |s jobs i from b gh l secrets now nonce s' out Hi Hrun|s jobs now k|s jobs l|s jobs found|s]; cbn in Hr, Hj |- *.
  - pose proof (registry_alloc _ _ _ _ _ _ Ha Hp Hka Hkb Hr). pose proof (alloc_grows _ _ _ _ _ _ Ha Hp Hr). eauto.
  - split; [|apply grows_refl]. split; [done|]. cbn. destruct found as [[gh l]|]; [|done]. apply Forall_app. split; [done|]. constructor; [|done].
    by apply (lookupPacket_ok _ _ _ _ Hr).
  - pose proof (registry_packetSecrets _ _ _ _ _ _ Hr Hps) as Hr'. apply packetSecrets_effect in Hps as (Hep & _ & _ & _ & Hc & Hd & Hne); [|done].
    assert (grows s s') as Hg by (intros l0 e0 He0; exists e0; rewrite Hep; done). split; [|done]. split; [done|]. cbn.
    assert (Forall (job_ok s') jobs) as Hj' by (eapply Forall_impl; [exact Hj|]; intros j; by apply job_ok_grows).
    apply Forall_insert; [done|]. pose proof (Forall_lookup_1 _ _ _ _ Hj' Hi) as Hji. done.
  - pose proof (registry_runEndpoint _ _ _ _ _ _ _ _ _ _ Hr Hrun) as Hr'. apply runEndpoint_effect in Hrun as (e & e' & Hl & Hid & _ & -> & _).
    assert (grows s (set_metrics (updateEndpoint (stateLocked e) (stateLocked e') (sv_metrics s)) (set_endpoints (<[l:=e']> (endpoints s)) s)))
      as Hg by (by eapply grows_insert). split; [|done]. apply (Hkeep s); [done|done|]. by apply Forall_delete.
  - split; [|by apply gcOne_grows]. apply (Hkeep s); [by apply registry_gcOne|by apply gcOne_grows|done].
  - assert (grows s (SetStaticAddrPorts l s)) by (intros l0 e0 He0; by exists e0). split; [|done]. apply (Hkeep s); [|done|done]. by destruct Hr; constructor.
  - assert (grows s (setDynamicAddrPorts found s)) by (intros l0 e0 He0; by exists e0). split; [|done]. apply (Hkeep s); [|done|done]. by destruct Hr; constructor.
  - assert (grows s (Close s)) by (intros l0 e0 He0; by exists e0). split; [|done]. apply (Hkeep s); [by apply registry_close|done|done].
Qed.

Lemma run_ok disco tr S : run disco tr S → system_ok S.
Proof.
  induction 1 as [s Hs|tr S ev S' _ IH Hst]; [split; [by eapply registry_new|done]|]. by eapply step_ok.
Qed.
End Preservation.
