(* ===== verification/UdpRelaySafe.v ===== *)
(** * net/udprelay: what the relay forwards, and that it survives

    Theorems about all runs of the relay: its registry is consistent, no
    datagram makes it panic, and it forwards data only between addresses that the
    two clients of an endpoint have proved to be theirs. *)
From S2P Require Import Stun.
From S2P Require Import Prelude GoStrings NetBuf NetAddr PacketTsmp Disco UdpRelay UdpRelayInv.

Section Traces.
Context `{DiscoCrypto}.

(** A datagram that carries a control message for the endpoint, from the client of leg [i]. *)
Definition control_datagram (e : serverEndpoint) (i : Z) (b : bytes) (dm : Message) : Prop :=
  ∃ gh msg, Geneve_Decode zeroGeneve b = Ok gh ∧ gh_Control gh = true ∧ VNI_Get (gh_VNI gh) = se_vni e ∧
    slice_from b GeneveFixedHeaderLength = Ok msg ∧ opens e msg i dm.

(** From the address [a] came an answer of the client of leg [i], with the MAC of a challenge for this address. *)
Definition answered (tr : list event) (e : serverEndpoint) (i : Z) (a : AddrPort) : Prop :=
  ∃ b c k, Recv a b ∈ tr ∧ control_datagram e i b (MBindUDPRelayEndpointAnswer c) ∧
    bind_VNI c = se_vni e ∧ bind_RemoteKey c = at2 (other i) (discoPubKeys e) ∧
    Drew k ∈ tr ∧ bind_Challenge c = blakeMACFromBindMsg k a c.

Lemma opens_same_id e e' b i dm : same_id e e' → opens e b i dm → opens e' b i dm.
Proof. intros (Hk & Hs & _). unfold opens. by rewrite Hk, Hs. Qed.

Lemma answered_mono tr tr' e e' i a : same_id e e' → (∀ ev, ev ∈ tr → ev ∈ tr') → answered tr e i a → answered tr' e' i a.
Proof.
  intros Hid Hsub (b & c & k & Hr & (gh & msg & Hd & Hc & Hv & Hs & Ho) & Hvni & Hk & Hdr & Hm).
  exists b, c, k. split; [by apply Hsub|]. assert (se_vni e' = se_vni e) as Hve by apply Hid. assert (discoPubKeys e' = discoPubKeys e) as Hke by apply Hid.
  split; [|rewrite Hve, Hke; split_and!; auto]. exists gh, msg. rewrite Hve. split_and!; try done. by eapply opens_same_id.
Qed.

Definition job_from (j : job) : AddrPort := match j with Loaded from _ _ _ | Ready from _ _ _ _ _ => from end.
Definition job_bytes (j : job) : bytes := match j with Loaded _ b _ _ | Ready _ b _ _ _ _ => b end.
Definition job_secrets (j : job) : list bytes := match j with Loaded _ _ _ _ => [] | Ready _ _ _ _ s _ => s end.

Record traced (tr : list event) (S : System) : Prop := {
  tr_jobs j : j ∈ sys_jobs S → Recv (job_from j) (job_bytes j) ∈ tr;
  tr_job_secrets j k : j ∈ sys_jobs S → k ∈ job_secrets j → Drew k ∈ tr;
  tr_secrets k : k ∈ macSecrets (sys_server S) → Drew k ∈ tr;
  tr_sent from b out d : Sent from b out d ∈ tr → Recv from b ∈ tr;
  tr_recv from b : Recv from b ∈ tr → ap_ok from;
  tr_bound l e i : endpoints (sys_server S) !! l = Some e → i = 0 ∨ i = 1 → ap_IsValid (at2 i (boundAddrPorts e)) = true →
    answered tr e i (at2 i (boundAddrPorts e))
}.

(** Nothing but the server changes. *)
Lemma traced_server tr s s' jobs : traced tr (mkSystem s jobs) → macSecrets s' = macSecrets s →
  (∀ l e', endpoints s' !! l = Some e' → boundAddrPorts e' = (zeroAddrPort, zeroAddrPort) ∨
     ∃ e, endpoints s !! l = Some e ∧ same_id e e' ∧ boundAddrPorts e' = boundAddrPorts e) →
  traced (tr ++ [Tau]) (mkSystem s' jobs).
Proof.
  intros [] Hm He. cbn in *. constructor; cbn.
  - intros j Hj%tr_jobs0. set_solver.
  - intros j k Hj Hk. specialize (tr_job_secrets0 j k Hj Hk). set_solver.
  - rewrite Hm. intros k Hk%tr_secrets0. set_solver.
  - intros from b out d [Hs%tr_sent0|Hs]%elem_of_app; [set_solver|]. by apply list_elem_of_singleton in Hs.
  - intros from b [Hr%tr_recv0|Hr]%elem_of_app; [done|]. by apply list_elem_of_singleton in Hr.
  - intros l e' i He' Hi Hv. destruct (He l e' He') as [Hz|(e & Hl & Hid & Hb)].
    + rewrite Hz in Hv. by destruct Hi as [-> | ->].
    + rewrite Hb in *. eapply answered_mono; [exact Hid| |by eapply tr_bound0]. set_solver.
Qed.

Lemma at2_set2 {A} (p : A * A) i j x : i = 0 ∨ i = 1 → j = 0 ∨ j = 1 → at2 j (set2 i x p) = if j =? i then x else at2 j p.
Proof. by intros [-> | ->] [-> | ->]. Qed.

(** The handler of a control message binds only an address that answered. *)
Lemma control_bound sd secrets now nonce from i dm e m e' m' out j :
  control_effect sd secrets now nonce from i dm e m e' m' out → i = 0 ∨ i = 1 → j = 0 ∨ j = 1 →
  at2 j (boundAddrPorts e') = at2 j (boundAddrPorts e) ∨
  j = i ∧ at2 j (boundAddrPorts e') = from ∧ ∃ c, dm = MBindUDPRelayEndpointAnswer c ∧ answer_ok e i from secrets c.
Proof.
  intros Hce Hi Hj. destruct Hce as [|g Hg Hh|c k rest w Hdm Hg Hs Hst Hd|c Hdm Ha Hst]; try (by left). cbn [boundAddrPorts set_generation set_lastSeen set_bound].
  rewrite at2_set2 by done. destruct (Z.eqb_spec j i) as [->|]; [right|by left]. split_and!; eauto.
Qed.

Lemma traced_recv tr s jobs from b found : ap_ok from → traced tr (mkSystem s jobs) →
  traced (tr ++ [Recv from b]) (mkSystem s (match found with Some (gh, l) => jobs ++ [Loaded from b gh l] | None => jobs end)).
Proof.
  intros Hap IH.
  destruct IH; cbn in *. assert (∀ ev, ev ∈ tr → ev ∈ tr ++ [Recv from b]) as Hsub by set_solver.
  assert (Recv from b ∈ tr ++ [Recv from b]) as Hnew by set_solver.
  constructor; cbn.
  - intros j Hin. destruct found as [[gh l]|]; [apply elem_of_app in Hin as [Hin|Hin]|]; [auto| |auto]. by apply list_elem_of_singleton in Hin as ->.
  - intros j k Hin Hk. destruct found as [[gh l]|]; [apply elem_of_app in Hin as [Hin|Hin]|]; [by eauto| |by eauto].
    apply list_elem_of_singleton in Hin as ->. cbn in Hk. by apply not_elem_of_nil in Hk.
  - auto.
  - intros from' b' out d [Hin|Hin]%elem_of_app; [by eauto|]. by apply list_elem_of_singleton in Hin.
  - intros from' b' [Hin|Hin]%elem_of_app; [by eauto|]. apply list_elem_of_singleton in Hin. by injection Hin as -> ->.
  - intros l e i He Hi Hv. eapply answered_mono; [apply same_id_refl|exact Hsub|by eapply tr_bound0].
Qed.

Lemma traced_ready tr s jobs i from b gh l now fresh s' secrets : registry_ok s → jobs !! i = Some (Loaded from b gh l) →
  packetSecrets gh now fresh s = (s', secrets) → traced tr (mkSystem s jobs) →
  traced (tr ++ [if bool_decide (macSecrets s' = macSecrets s) then Tau else Drew fresh]) (mkSystem s' (<[i := Ready from b gh l secrets now]> jobs)).
Proof.
  intros Hr Hi Hps IH.
  apply packetSecrets_effect in Hps as (Hep & _ & _ & Hk & Hc & Hd & _); [|done]. destruct IH; cbn in *.
  set (ev := if bool_decide (macSecrets s' = macSecrets s) then Tau else Drew fresh).
  assert (∀ x, x ∈ tr → x ∈ tr ++ [ev]) as Hsub by set_solver.
  assert (∀ x, x ∈ macSecrets s' → Drew x ∈ tr ++ [ev]) as Hms.
  { intros x Hx. destruct (bool_decide_reflect (macSecrets s' = macSecrets s)) as [Heq|Hne].
    - rewrite Heq in Hx. auto.
    - destruct (Hk x Hx) as [?| ->]; [auto|]. apply elem_of_app. right. by apply list_elem_of_singleton. }
  constructor; cbn.
  - intros j Hin. apply Hsub. apply list_elem_of_lookup in Hin as [n Hn]. apply (lookup_insert_cases _ _ _ _ _ _ Hi) in Hn as [[-> ->]|[_ Hn]].
    + apply (tr_jobs0 (Loaded from b gh l)). by eapply list_elem_of_lookup_2.
    + apply tr_jobs0. by eapply list_elem_of_lookup_2.
  - intros j k Hin Hkj. apply list_elem_of_lookup in Hin as [n Hn]. apply (lookup_insert_cases _ _ _ _ _ _ Hi) in Hn as [[-> ->]|[_ Hn]].
    + cbn in Hkj. destruct (gh_Control gh); [rewrite Hc in Hkj by done; auto|]. destruct (Hd eq_refl) as [-> _]. by apply not_elem_of_nil in Hkj.
    + apply Hsub. eapply tr_job_secrets0; [by eapply list_elem_of_lookup_2|done].
  - auto.
  - intros from' b' out d [Hin|Hin]%elem_of_app; [by eauto|]. apply list_elem_of_singleton in Hin. unfold ev in Hin. by case_bool_decide.
  - intros from' b' [Hin|Hin]%elem_of_app; [by eauto|]. apply list_elem_of_singleton in Hin. unfold ev in Hin. by case_bool_decide.
  - rewrite Hep. intros l0 e i0 He Hi0 Hv. eapply answered_mono; [apply same_id_refl|exact Hsub|by eapply tr_bound0].
Qed.

Lemma traced_endpoint tr s jobs i from b gh l secrets now nonce s' out : Forall (job_ok s) jobs → jobs !! i = Some (Ready from b gh l secrets now) →
  runEndpoint from b gh l secrets now nonce s = Ok (s', out) → traced tr (mkSystem s jobs) →
  traced (tr ++ [Sent from b out (negb (gh_Control gh))]) (mkSystem s' (delete i jobs)).
Proof.
  intros Hj Hi Hrunp IH.
  assert (Ready from b gh l secrets now ∈ jobs) as Hjin by (by eapply list_elem_of_lookup_2).
  pose proof (Forall_lookup_1 _ _ _ _ Hj Hi) as [(e1 & He1 & Hdec & Hvni) _].
  apply runEndpoint_effect in Hrunp as (e & e' & Hl & Hid & _ & -> & Heff). assert (e1 = e) as -> by congruence. destruct IH; cbn in *.
  set (ev := Sent from b out (negb (gh_Control gh))).
  assert (∀ x, x ∈ tr → x ∈ tr ++ [ev]) as Hsub by set_solver.
  assert (Recv from b ∈ tr) as Hrec by (by apply (tr_jobs0 _ Hjin)).
  assert (∀ j, j ∈ delete i jobs → j ∈ jobs) as Hdel by (intros j Hin; eapply elem_of_submseteq; [exact Hin|apply sublist_submseteq, sublist_delete]).
  constructor; cbn.
  - intros j Hin. auto.
  - intros j k Hin Hk. apply Hsub. by eapply tr_job_secrets0; [apply Hdel|].
  - auto.
  - intros from' b' out' d [Hin|Hin]%elem_of_app; [by eauto|]. apply list_elem_of_singleton in Hin. injection Hin as -> -> -> ->. auto.
  - intros from' b' [Hin|Hin]%elem_of_app; [by eauto|]. by apply list_elem_of_singleton in Hin.
  - intros l0 e0 i0 He0 Hi0 Hv. apply (lookup_insert_cases _ _ _ _ _ _ Hl) in He0 as [[-> ->]|[_ He0]];
      [|eapply answered_mono; [apply same_id_refl|exact Hsub|by eapply tr_bound0]].
    assert (at2 i0 (boundAddrPorts e') = at2 i0 (boundAddrPorts e) → answered (tr ++ [ev]) e' i0 (at2 i0 (boundAddrPorts e'))) as Hsame.
    { intros Heq. rewrite Heq in *. eapply answered_mono; [exact Hid|exact Hsub|by eapply tr_bound0]. }
    destruct (gh_Control gh) eqn:Hctl; [|apply Hsame; by destruct Heff as [-> _]].
    destruct Heff as [[-> _]|(msg & i1 & m' & dm & Hmsg & Hop & Hce)]; [by apply Hsame|].
    assert (i1 = 0 ∨ i1 = 1) as Hi1 by apply Hop.
    destruct (control_bound _ _ _ _ _ _ _ _ _ _ _ _ i0 Hce Hi1 Hi0) as [Heq|(-> & Heq & c & -> & (Hv1 & Hk1 & _ & _ & k & Hk & Hm))]; [by apply Hsame|].
    rewrite Heq. eapply (answered_mono tr); [exact Hid|exact Hsub|]. exists b, c, k. split_and!; try done; [|by eapply (tr_job_secrets0 _ k Hjin)].
    exists gh, msg. done.
Qed.

Lemma run_traced disco tr S : run disco tr S → traced tr S.
Proof.
  induction 1 as [s Hs|tr S ev S' Hrun IH Hst].
  { unfold NewServer in Hs. apply bind_Ok in Hs as (pub & _ & [= <-]). constructor; cbn; set_solver. }
  pose proof (run_ok _ _ _ Hrun) as [Hr Hj]. destruct Hst as [s jobs a b now s' r Hka Hkb Ha Hp _|s jobs from b found Hap Hf|s jobs i from b gh l now fresh s' secrets Hi Hps
    |s jobs i from b gh l secrets now nonce s' out Hi Hrunp|s jobs now k|s jobs l|s jobs found|s]; cbn in Hr, Hj.
  - destruct (AllocateEndpoint_effect _ _ _ _ _ _ Ha Hr Hp) as [->|[(x & -> & Hx)|(x & vni & e & -> & _ & _ & _ & _ & _ & _ & _ & _ & Hbd & _)]];
      (eapply traced_server; [exact IH|done|]); intros l e' He'; cbn in He'; [right; by exists e'..|].
    apply lookup_app_Some in He' as [He'|[_ He']]; [right; by exists e'|]. apply list_lookup_singleton_Some in He' as [_ <-]. by left.
  - by apply traced_recv.
  - by eapply traced_ready.
  - by eapply traced_endpoint.
  - eapply traced_server; [exact IH| |].
    + destruct (gcOne_effect now (bindLifetime s) (steadyStateLifetime s) k s _ eq_refl Hr) as [->|(l & e & _ & _ & _ & ->)]; done.
    + intros l0 e' He'. right. destruct (gcOne_effect now (bindLifetime s) (steadyStateLifetime s) k s _ eq_refl Hr) as [Heq|(l & e & _ & Hl & _ & Heq)]; rewrite Heq in He'; [by exists e'|].
      cbn in He'. apply (lookup_insert_cases _ _ _ _ _ _ Hl) in He' as [[-> ->]|[_ He']]; [by exists e|by exists e'].
  - eapply traced_server; [exact IH|done|]. intros l0 e' He'. right. by exists e'.
  - eapply traced_server; [exact IH|done|]. intros l0 e' He'. right. by exists e'.
  - eapply traced_server; [exact IH|done|]. intros l0 e' He'. right. by exists e'.
Qed.
End Traces.

(** ** What a MAC is computed from *)
Lemma le_bytes2_inj v v' : 0 <= v < 2 ^ 16 → 0 <= v' < 2 ^ 16 → le_bytes2 v = le_bytes2 v' → v = v'.
Proof.
  intros Hv Hv' Heq. assert (v mod 256 = v' mod 256 ∧ v / 256 mod 256 = v' / 256 mod 256) as [Hlo Hhi] by (unfold le_bytes2 in Heq; by simplify_eq).
  rewrite !(Z.mod_small (_ / 256)) in Hhi by (Z.div_mod_to_equations; lia). Z.div_mod_to_equations. lia.
Qed.

Lemma AddrPort_bytes_inj a a' : ap_ok a → ap_ok a' → AddrPort_bytes a = AddrPort_bytes a' → a = a'.
Proof.
  intros (Hw & Hnz & Hp) (Hw' & Hnz' & Hp') Heq. unfold AddrPort_bytes in Heq.
  apply app_inj_2 in Heq as [Ha Hl]; [|done].
  assert (ap_Port a = ap_Port a') as Hport by (by apply le_bytes2_inj).
  destruct a as [a p], a' as [a' p']; cbn [ap_Addr ap_Port] in *. subst p'. f_equal.
  destruct a as [|v|v z], a' as [|v' |v' z']; try done.
  - apply (f_equal be_val) in Ha. rewrite !be_val_bytes_id in Ha by done. by subst.
  - apply app_inj_1 in Ha as [Hv Hz]; [|by rewrite !be_bytes_length]. apply (f_equal be_val) in Hv. rewrite !be_val_bytes_id in Hv by done.
    apply str_inj in Hz. by subst.
Qed.

Lemma macInput_inj a a' c c' : ap_ok a → ap_ok a' → key_wf (bind_RemoteKey c) → key_wf (bind_RemoteKey c') → macInput a c = macInput a' c' →
  a = a' ∧ bind_RemoteKey c = bind_RemoteKey c' ∧ be_bytes 4 (bind_VNI c) = be_bytes 4 (bind_VNI c') ∧ be_bytes 4 (bind_Generation c) = be_bytes 4 (bind_Generation c').
Proof.
  unfold macInput. intros Ha Ha' Hk Hk' Heq. apply app_inj_1 in Heq as [Hv Heq]; [|by rewrite !be_bytes_length].
  apply app_inj_1 in Heq as [Hg Heq]; [|by rewrite !be_bytes_length]. apply app_inj_1 in Heq as [Hr Heq]; [|unfold key_wf, zlen in *; lia].
  apply AddrPort_bytes_inj in Heq; auto.
Qed.

(** ** What is forwarded *)
Section Forwarding.
Context `{DiscoCrypto}.

(** The MACs of the server's secrets have no collisions. *)
Definition no_collisions (tr : list event) : Prop :=
  ∀ k k' a a' c c', Drew k ∈ tr → Drew k' ∈ tr → blakeMACFromBindMsg k a c = blakeMACFromBindMsg k' a' c' → macInput a c = macInput a' c'.

(** A challenge for leg [i] of the endpoint, sent to [a]. *)
Definition challenge_sent (tr : list event) (s : Server) (e : serverEndpoint) (i : Z) (a : AddrPort) (mac : bytes) : Prop :=
  ∃ b w gen k nonce, Sent a b (w, a) false ∈ tr ∧ challenge_datagram (discoPublic s) e i gen a k nonce w ∧ Drew k ∈ tr ∧
    mac = bind_Challenge (challengeMsg e (other i) gen a k).

(** Nobody guesses a MAC: a client that answers with the MAC of some address
    learned it from a challenge that the server sent before, to whatever
    address and whichever endpoint. *)
Definition unforged (tr : list event) (s : Server) : Prop :=
  ∀ tr1 a b tr2 e i c k, tr = tr1 ++ Recv a b :: tr2 → e ∈ endpoints s → control_datagram e i b (MBindUDPRelayEndpointAnswer c) →
    Drew k ∈ tr → bind_Challenge c = blakeMACFromBindMsg k a c →
    ∃ a' e' i', e' ∈ endpoints s ∧ (i' = 0 ∨ i' = 1) ∧ challenge_sent tr1 s e' i' a' (bind_Challenge c).

(** The client of leg [i] proved that it receives at [a]: it was sent a challenge
    there, and then an answer with this challenge came from there. *)
Definition proved (tr : list event) (s : Server) (e : serverEndpoint) (i : Z) (a : AddrPort) : Prop :=
  ∃ tr1 b tr2 c e' i', tr = tr1 ++ Recv a b :: tr2 ∧ control_datagram e i b (MBindUDPRelayEndpointAnswer c) ∧
    e' ∈ endpoints s ∧ challenge_sent tr1 s e' i' a (bind_Challenge c) ∧
    se_vni e' = se_vni e ∧ at2 (other i') (discoPubKeys e') = at2 (other i) (discoPubKeys e).

Lemma answered_proved disco tr S e i a :
  run disco tr S → no_collisions tr → unforged tr (sys_server S) → e ∈ endpoints (sys_server S) → i = 0 ∨ i = 1 →
  answered tr e i a → proved tr (sys_server S) e i a.
Proof.
  intros Hrun Hcol Hunf He Hi (b & c & k & Hrecv & Hcd & Hvni & Hkey & Hdrew & Hmac). pose proof (run_traced _ _ _ Hrun) as Htr. pose proof (run_ok _ _ _ Hrun) as [Hreg _].
  apply list_elem_of_split in Hrecv as (tr1 & tr2 & Htreq). destruct (Hunf _ _ _ _ _ _ _ _ Htreq He Hcd Hdrew Hmac) as (a' & e' & i' & He' & Hi' & Hch).
  destruct Hch as (b' & w & gen & k' & nonce & Hsent & Hdg & Hdrew' & Hc'). rewrite Hc' in Hmac. cbn [bind_Challenge challengeMsg] in Hmac.
  assert (∀ x, x ∈ tr1 → x ∈ tr) as Hsub by (intros x Hx; rewrite Htreq; set_solver).
  pose proof (Hcol _ _ _ _ _ _ (Hsub _ Hdrew') Hdrew Hmac) as Hin.
  assert (∀ x j, x ∈ endpoints (sys_server S) → j = 0 ∨ j = 1 → key_wf (at2 (other j) (discoPubKeys x))) as Hkw.
  { intros x j Hx Hj. apply list_elem_of_lookup in Hx as [n Hn]. destruct (reg_keys _ Hreg _ _ Hn) as [? ?]. by destruct Hj as [-> | ->]. }
  apply macInput_inj in Hin as (-> & Hk & Hv & _);
    [|by eapply (tr_recv _ _ Htr), (tr_sent _ _ Htr), Hsub, Hsent|apply (tr_recv _ _ Htr a b); rewrite Htreq, elem_of_app, elem_of_cons; auto|by apply Hkw|rewrite Hkey; by apply Hkw].
  cbn [bind_RemoteKey bind_VNI] in Hk, Hv. rewrite Hkey in Hk. rewrite Hvni in Hv.
  assert (∀ x, x ∈ endpoints (sys_server S) → 0 <= se_vni x < 256 ^ Z.of_nat 4) as Hrange.
  { intros x Hx. apply list_elem_of_lookup in Hx as [n Hn]. destruct (reg_endpoint _ Hreg _ _ Hn) as (Hr & _). unfold minVNI, maxVNI in Hr. lia. }
  apply (f_equal be_val) in Hv. rewrite !be_val_bytes_id in Hv by auto.
  exists tr1, b, tr2, c, e', i'. split_and!; try done. exists b', w, gen, k', nonce. done.
Qed.


(** C15. The relay's registry, in every state of every run.  The two maps agree:
    each registered pair of keys has one endpoint, which the map of VNIs also
    has, under its own VNI, which is in range; no two pairs share a VNI, and no
    VNI leads to a closed endpoint.  Until the server is closed, every endpoint
    that is not closed is registered.  The gauges are exact: they count the
    endpoints in each state.  Endpoints allocated later have larger Lamport
    ids. *)
Theorem relay_registry_consistent disco tr S :
  run disco tr S → zlen (endpoints (sys_server S)) < 2 ^ 63 →
  let s := sys_server S in
  (∀ p l, serverEndpointByDisco s !! p = Some l → ∃ e, endpoints s !! l = Some e ∧ discoPubKeys e = p ∧ se_closed e = false ∧
     minVNI <= se_vni e <= maxVNI ∧ serverEndpointByVNI s !! se_vni e = Some l) ∧
  (∀ v l, serverEndpointByVNI s !! v = Some l → ∃ e, endpoints s !! l = Some e ∧ se_vni e = v ∧ serverEndpointByDisco s !! discoPubKeys e = Some l) ∧
  (∀ p p' l l' e e', serverEndpointByDisco s !! p = Some l → serverEndpointByDisco s !! p' = Some l' →
     endpoints s !! l = Some e → endpoints s !! l' = Some e' → se_vni e = se_vni e' → p = p') ∧
  (sv_closed s = false → ∀ l e, endpoints s !! l = Some e → se_closed e = false → serverEndpointByDisco s !! discoPubKeys e = Some l) ∧
  g_connecting (sv_metrics s) = count_state endpointConnecting (endpoints s) ∧ g_open (sv_metrics s) = count_state endpointOpen (endpoints s) ∧
  (∀ l l' e e', endpoints s !! l = Some e → endpoints s !! l' = Some e' → (l < l')%nat → se_lamportID e < se_lamportID e').
Proof.
  intros Hrun Hlen s. destruct (run_ok _ _ _ Hrun) as [Hr _]. fold s in Hr, Hlen. clearbody s.
  assert (∀ p l, serverEndpointByDisco s !! p = Some l → ∃ e, endpoints s !! l = Some e ∧ discoPubKeys e = p ∧ se_closed e = false ∧
     minVNI <= se_vni e <= maxVNI ∧ serverEndpointByVNI s !! se_vni e = Some l) as Hdisco.
  { intros p l Hp. destruct (reg_disco _ Hr _ _ Hp) as (e & He & Hk & Hv). destruct (reg_vni _ Hr _ _ Hv) as (e1 & He1 & _ & Hc & _).
    assert (e1 = e) as -> by congruence. exists e. split_and!; try done; by apply (reg_endpoint _ Hr _ _ He). }
  pose proof (count_nonneg endpointConnecting (endpoints s)). pose proof (count_nonneg endpointOpen (endpoints s)). unfold zlen in Hlen.
  split_and!; [done| | |intros ? ? ?; by apply (reg_live _ Hr)|rewrite (proj1 (reg_gauges _ Hr)); apply wrap64_small; lia|rewrite (proj2 (reg_gauges _ Hr)); apply wrap64_small; lia|].
  - intros v l Hv. destruct (reg_vni _ Hr _ _ Hv) as (e & He & Hev & _ & Hd). by exists e.
  - intros p p' l l' e e' Hp Hp' He He' Hv. destruct (Hdisco _ _ Hp) as (e1 & He1 & <- & _ & _ & Hv1). destruct (Hdisco _ _ Hp') as (e2 & He2 & <- & _ & _ & Hv2).
    assert (e1 = e) as -> by congruence. assert (e2 = e') as -> by congruence. rewrite Hv in Hv1. congruence.
  - intros l l' e e' He He' Hlt. destruct (reg_endpoint _ Hr _ _ He) as (_ & -> & _). destruct (reg_endpoint _ Hr _ _ He') as (_ & -> & _).
    apply lookup_lt_Some in He'. unfold u64. rewrite !Z.mod_small by lia. lia.
Qed.
End Forwarding.

(** ** No datagram makes the relay panic *)
Section Survival.
Context `{DiscoCrypto}.

Lemma Geneve_Decode_cases h b : (∃ gh, Geneve_Decode h b = Ok gh ∧ 8 <= zlen b) ∨ ∃ e, Geneve_Decode h b = Err e.
Proof.
  unfold Geneve_Decode, GeneveFixedHeaderLength. destruct (Z.ltb_spec (zlen b) 8); [right; eauto|left].
  rewrite !idx_at, Uint16_Ok, Uint32_Ok by lia. cbn [mbind res_bind]. eauto.
Qed.

Lemma lookupPacket_total b s : ∃ found, lookupPacket b s = Ok found.
Proof.
  unfold lookupPacket. assert (∃ x : bool, (if Stun.Is b then x ← idx b 1; Ok (x =? 0x01) else Ok false) = Ok x) as [x ->].
  { destruct (Stun.Is b) eqn:His; [|eauto]. unfold Stun.Is in His. apply andb_true_iff in His as [[Hl%Z.leb_le _]%andb_true_iff _].
    unfold Stun.headerLen in Hl. rewrite idx_at by lia. cbn [mbind res_bind]. eauto. }
  cbn [mbind res_bind]. destruct x; [eauto|]. destruct (Geneve_Decode_cases zeroGeneve b) as [(gh & -> & _)|[e ->]]; [|eauto].
  repeat (case_match; eauto).
Qed.

(** Writing a message into a buffer that has room for it. *)
Definition room (n : Z) (c : cursor) : Prop := zlen c.2 = n.

Lemma overwrite_total (d src : bytes) : (length src <= length d)%nat → ∃ d', overwrite d src = Ok d' ∧ length d' = length d.
Proof.
  revert d. induction src as [|x src IH]; intros d Hl; [exists d; by destruct d|]. destruct d as [|y d]; cbn in Hl; [lia|].
  destruct (IH d) as (d' & Hd & Hlen); [lia|]. exists (x :: d'). cbn. rewrite Hd. cbn. auto.
Qed.

Lemma c_put_total {B} n v z c (f : cursor → res B) : room z c → Z.of_nat n <= z → (∀ c', room z c' → ∃ r, f c' = Ok r) → ∃ r, (c ← c_put n v c; f c) = Ok r.
Proof.
  destruct c as [w d]. unfold room. cbn [snd]. intros Hz Hn Hf. cbn [c_put]. unfold put_bytes. change (overwrite_at _ d (be_bytes n v)) with (overwrite d (be_bytes n v)).
  destruct (overwrite_total d (be_bytes n v)) as (d' & -> & Hlen); [rewrite be_bytes_length; unfold zlen in Hz; lia|]. cbn [mbind res_bind].
  apply Hf. cbn [snd]. unfold zlen in *. lia.
Qed.

Lemma c_skip_total {B} n z c (f : cursor → res B) : room z c → 0 <= n <= z → (∀ c', room (z - n) c' → ∃ r, f c' = Ok r) → ∃ r, (c ← c_skip n c; f c) = Ok r.
Proof.
  destruct c as [w d]. unfold room. cbn [snd]. intros Hz Hn Hf. cbn [c_skip]. rewrite slice_from_Ok by lia. cbn [mbind res_bind].
  apply Hf. cbn [snd]. unfold zlen in *. rewrite length_drop. lia.
Qed.

Lemma c_copy_room src z c : room z c → room z (c_copy src c).
Proof. destruct c as [w d]. unfold room. cbn. unfold zlen. rewrite length_app, length_take, length_drop. lia. Qed.

Lemma Bind_AppendMarshal_total t m b : ∃ p, Bind_AppendMarshal t m b = Ok p.
Proof.
  unfold Bind_AppendMarshal, appendMsgHeader, bindUDPRelayEndpointCommonLen. cbn [Z.ltb Z.compare mbind res_bind].
  assert (room 72 (b ++ [t; v0], replicate (Z.to_nat 72) 0)) as Hc by done. revert Hc. generalize (b ++ [t; v0], replicate (Z.to_nat 72) 0). intros c Hc.
  assert (∃ c', Bind_encode m c = Ok c') as [c' ->]; [|cbn [mbind res_bind]; eauto]. unfold Bind_encode, DiscoPublicRawLen.
  eapply c_put_total; [done|lia|]. intros c1 Hc1. eapply c_skip_total; [done|lia|]. intros c2 Hc2.
  eapply c_put_total; [done|lia|]. intros c3 Hc3. eapply c_skip_total; [done|lia|]. intros c4 Hc4.
  eapply c_skip_total; [by apply c_copy_room|lia|]. eauto.
Qed.

Lemma geneve_header_total vni : minVNI <= vni <= maxVNI → ∃ hdr,
  Geneve_Encode {| gh_Version := 0; gh_Protocol := GeneveProtocolDisco; gh_VNI := VNI_Set vni; gh_Control := true |}
    (replicate (Z.to_nat GeneveFixedHeaderLength) 0) = Ok hdr.
Proof.
  intros Hv. unfold minVNI, maxVNI in Hv. edestruct (Geneve_roundtrip {| gh_Version := 0; gh_Protocol := GeneveProtocolDisco; gh_VNI := VNI_Set vni; gh_Control := true |}
    (replicate (Z.to_nat GeneveFixedHeaderLength) 0) zeroGeneve) as (hdr & Hh & _); [|done|by exists hdr].
  split_and!; [done|done|done|done|]. exists vni. split; [lia|done].
Qed.

Lemma handleDiscoControlMsg_total from i msg sd secrets now nonce e m :
  i = 0 ∨ i = 1 → secrets ≠ [] → minVNI <= se_vni e <= maxVNI → at2 i (discoSharedSecrets e) ≠ zeroKey →
  ∃ r, handleDiscoControlMsg from i msg sd secrets now nonce e m = Ok r.
Proof.
  intros Hi Hs Hv Hz. unfold handleDiscoControlMsg. case_bool_decide; [eauto|]. destruct (negb (i =? 0) && _); [eauto|].
  destruct msg as [| | |c| |c| | |]; eauto.
  - destruct (negb _); [eauto|]. destruct (_ =? 0); [eauto|]. cbn [se_vni set_generation]. destruct (geneve_header_total _ Hv) as [hdr ->].
    destruct secrets as [|k rest]; [done|]. cbn [AppendMarshal]. destruct (Bind_AppendMarshal_total TypeBindUDPRelayEndpointChallenge
      (challengeMsg (set_generation i (bind_Generation c) e) (if i =? 0 then 1 else 0) (bind_Generation c) from k) []) as [p ->]. cbn [mbind res_bind].
    unfold DiscoShared_Seal. cbn [discoSharedSecrets set_generation]. rewrite bool_decide_false by done. cbn [mbind res_bind]. eauto.
  - repeat (case_match; eauto).
Qed.

Lemma Source_total b : ∃ src, Source b = Ok src ∧ (∀ k, src = Some k → zlen Magic + DiscoPublicRawLen <= zlen b).
Proof.
  unfold Source, LooksLikeDiscoWrapper, keyLen, NonceLen, DiscoPublicRawLen. change (zlen Magic) with 6. destruct (Z.ltb_spec (zlen b) (6 + 32 + 24)).
  - exists None. done.
  - rewrite slice_Ok by lia. cbn [mbind res_bind]. destruct (negb _); [exists None; done|]. rewrite slice_from_Ok by lia. cbn [mbind res_bind].
    rewrite slice_Ok by (unfold zlen in *; rewrite ?length_drop; lia). cbn [mbind res_bind]. eexists. split; [done|]. intros. lia.
Qed.

(** No datagram makes the relay panic.  In every state of every run (with
    shared keys that are not zero, so that boxes can be opened and sealed), a
    datagram of arbitrary bytes is looked up without a panic, and every packet
    that is being handled, whatever other goroutines did since it was looked up,
    is handled to the end. *)
Theorem relay_survives_any_datagram disco tr S :
  run disco tr S →
  (∀ e, e ∈ endpoints (sys_server S) → at2 0 (discoSharedSecrets e) ≠ zeroKey ∧ at2 1 (discoSharedSecrets e) ≠ zeroKey) →
  (∀ b, ∃ found, lookupPacket b (sys_server S) = Ok found) ∧
  (∀ i from b gh l secrets now nonce, sys_jobs S !! i = Some (Ready from b gh l secrets now) →
     ∃ s' out, runEndpoint from b gh l secrets now nonce (sys_server S) = Ok (s', out)).
Proof.
  intros Hrun Hz. destruct (run_ok _ _ _ Hrun) as [Hreg Hjobs]. split; [intros b; apply lookupPacket_total|].
  intros i from b gh l secrets now nonce Hi. destruct (Forall_lookup_1 _ _ _ _ Hjobs Hi) as [(e & He & Hdec & _) Hne].
  unfold runEndpoint. rewrite He. destruct (gh_Control gh); [|destruct (handleDataPacket from b now e) as [e' out]; eauto].
  destruct (Geneve_Decode_cases zeroGeneve b) as [(gh' & _ & Hl)|[er Her]]; [|congruence]. unfold GeneveFixedHeaderLength. rewrite slice_from_Ok by lia. cbn [mbind res_bind].
  set (msg := drop (Z.to_nat 8) b). destruct (Hz e) as [Hz0 Hz1]; [by eapply list_elem_of_lookup_2|].
  assert (∃ r, handleSealedDiscoControlMsg from msg (discoPublic (sys_server S)) secrets now nonce e (sv_metrics (sys_server S)) = Ok r) as [[[e' m'] out] ->];
    [|cbn [mbind res_bind]; eauto].
  unfold handleSealedDiscoControlMsg. destruct (Source_total msg) as (src & -> & Hlen). cbn [mbind res_bind]. destruct src as [sender|]; [|eauto].
  specialize (Hlen _ eq_refl). destruct (reg_endpoint _ Hreg _ _ He) as (Hv & _).
  assert (∀ j, j = 0 ∨ j = 1 → ∃ r, (sealed ← slice_from msg (zlen Magic + DiscoPublicRawLen);
     opened ← DiscoShared_Open (at2 j (discoSharedSecrets e)) sealed;
     match opened with
     | None => Ok (e, sv_metrics (sys_server S), nothing)
     | Some discoPayload => match Parse discoPayload with
         | Ok discoMsg => handleDiscoControlMsg from j discoMsg (discoPublic (sys_server S)) secrets now nonce e (sv_metrics (sys_server S))
         | Err _ => Ok (e, sv_metrics (sys_server S), nothing) | Panic => Panic | NoFuel => NoFuel end
     end) = Ok r) as Hleg.
  { intros j Hj. assert (at2 j (discoSharedSecrets e) ≠ zeroKey) as Hzj by (by destruct Hj as [-> | ->]). rewrite slice_from_Ok by (split; [done|exact Hlen]). cbn [mbind res_bind].
    unfold DiscoShared_Open. rewrite bool_decide_false by done. destruct (_ <? 24); cbn [mbind res_bind]; [eauto|].
    destruct (OpenAfterPrecomputation _ _ _) as [payload|]; [|eauto]. pose proof (disco_Parse_returns payload) as [[Hp1 Hp2] _].
    destruct (Parse payload); [|eauto|done|done]. apply handleDiscoControlMsg_total; auto. }
  case_bool_decide; [apply Hleg; by left|]. case_bool_decide; [apply Hleg; by right|eauto].
Qed.
End Survival.
