(* ===== verification/UdpRelaySession.v ===== *)
(** * net/udprelay: a session

    Two clients allocate an endpoint, bind to it, each with one challenge and one
    answer, and from then on receive what the other sends; composed with the
    encoding of discovery messages and of the Geneve header. *)
From S2P Require Import Stun.
From S2P Require Import Prelude GoStrings NetBuf NetAddr PacketHeaders PacketTsmp Disco UdpRelay UdpRelayInv UdpRelaySafe.

(** ** Datagrams *)
Definition geneve_bytes (control : bool) (proto vni : Z) : bytes :=
  [0; if control then 0x80 else 0] ++ be_bytes 2 proto ++ be_bytes 4 (vni * 256).

Lemma geneve_length control proto vni : zlen (geneve_bytes control proto vni) = 8.
Proof. unfold geneve_bytes, zlen. by rewrite !length_app, !be_bytes_length. Qed.

Lemma Geneve_Encode_bytes control proto vni : 0 <= vni < 2 ^ 24 →
  Geneve_Encode {| gh_Version := 0; gh_Protocol := proto; gh_VNI := VNI_Set vni; gh_Control := control |} (replicate (Z.to_nat GeneveFixedHeaderLength) 0)
    = Ok (geneve_bytes control proto vni).
Proof.
  intros Hv. unfold Geneve_Encode, GeneveFixedHeaderLength. change (zlen (replicate (Z.to_nat 8) 0) <? 8) with false. cbn match.
  cbn [gh_VNI gh_Version gh_Control gh_Protocol]. rewrite VNI_IsSet_Set, VNI_Get_Set by done. cbn [negb].
  assert (u32 (Z.shiftl vni 8) = vni * 256) as -> by (unfold u32; rewrite Z.shiftl_mul_pow2 by lia; apply Z.mod_small; lia).
  change (replicate (Z.to_nat 8) 0) with [0; 0; 0; 0; 0; 0; 0; 0]. change (0 >? 3) with false. cbn match.
  unfold geneve_bytes. destruct control; buf_run; done.
Qed.

Lemma Geneve_Decode_bytes control proto vni rest : 0 <= vni < 2 ^ 24 → 0 <= proto < 2 ^ 16 →
  Geneve_Decode zeroGeneve (geneve_bytes control proto vni ++ rest) =
    Ok {| gh_Version := 0; gh_Protocol := proto; gh_VNI := VNI_Set vni; gh_Control := control |}.
Proof.
  intros Hv Hp. pose proof (geneve_length control proto vni) as Hl. pose proof (zlen_nonneg rest) as Hr. unfold Geneve_Decode, GeneveFixedHeaderLength. rewrite zlen_app, Hl.
  replace (8 + zlen rest <? 8) with false by lia. rewrite !idx_at, Uint16_Ok, Uint32_Ok by (rewrite ?zlen_app, ?Hl; lia). cbn [mbind res_bind].
  unfold geneve_bytes. rewrite <- !(app_assoc [_; _]), <- !app_assoc.
  rewrite (be_at_mid 2 [_; _]) by done. rewrite (app_assoc [_; _]), be_at_mid by done.
  rewrite !be_val_bytes_id by lia. rewrite (Z.shiftr_div_pow2 (vni * 256)) by lia. change (2 ^ 8) with 256. rewrite Z.div_mul by done. by destruct control.
Qed.

(** Geneve datagrams are not taken for STUN. *)
Lemma lookupPacket_geneve control proto vni rest s : 0 <= vni < 2 ^ 24 → 0 <= proto < 2 ^ 16 →
  lookupPacket (geneve_bytes control proto vni ++ rest) s =
    match serverEndpointByVNI s !! vni with
    | None => Ok None
    | Some l => if control && negb (proto =? GeneveProtocolDisco) then Ok None
                else Ok (Some ({| gh_Version := 0; gh_Protocol := proto; gh_VNI := VNI_Set vni; gh_Control := control |}, l))
    end.
Proof.
  intros Hv Hp. unfold lookupPacket. set (b := geneve_bytes control proto vni ++ rest).
  assert ((if Stun.Is b then x ← idx b 1; Ok (x =? 1) else Ok false) = Ok false) as ->.
  { destruct (Stun.Is b); [|done]. unfold b, geneve_bytes. by destruct control. }
  cbn [mbind res_bind]. unfold b. rewrite Geneve_Decode_bytes by done. cbn [gh_VNI gh_Control gh_Protocol]. by rewrite VNI_Get_Set.
Qed.

(** The keys have 32 bytes and nonces 24. *)
Lemma Source_sealed k rest : key_wf k → 24 <= zlen rest →
  Source (Magic ++ k ++ rest) = Ok (Some k) ∧ slice_from (Magic ++ k ++ rest) (zlen Magic + DiscoPublicRawLen) = Ok rest.
Proof.
  intros Hk Hr. unfold key_wf in Hk. split.
  - unfold Source, LooksLikeDiscoWrapper, keyLen, NonceLen. rewrite !zlen_app, Hk. change (zlen Magic) with 6.
    replace (6 + (32 + zlen rest) <? 6 + 32 + 24) with false by lia. rewrite read_slice by done. cbn [mbind res_bind]. rewrite bool_decide_true by done.
    cbn [negb]. rewrite read_from by done. cbn [mbind res_bind]. by rewrite read_slice.
  - rewrite app_assoc. apply read_from. rewrite zlen_app, Hk. done.
Qed.

Section Session.
Context `{DiscoCrypto, !DiscoCryptoLaws}.

Lemma Open_sealed k n m : k ≠ zeroKey → zlen n = 24 → DiscoShared_Open k (n ++ SealAfterPrecomputation m n k) = Ok (Some m).
Proof.
  intros Hk Hn. unfold DiscoShared_Open. rewrite bool_decide_false by done. rewrite zlen_app, Hn. pose proof (zlen_nonneg (SealAfterPrecomputation m n k)).
  replace (24 + _ <? 24) with false by lia. unfold zlen in Hn. rewrite drop_app_length', take_app_length' by lia. by rewrite Open_Seal.
Qed.

(** The datagram of a handshake message. *)
Definition client_datagram (priv serverPub : bytes) (vni : Z) (nonce : bytes) (m : Message) : bytes :=
  geneve_bytes true GeneveProtocolDisco vni ++ Magic ++ ScalarBaseMult priv ++
  nonce ++ SealAfterPrecomputation (msg_bytes m) nonce (box_Precompute serverPub priv).

Lemma sendDiscoMessage_datagram priv serverPub vni nonce m :
  priv ≠ zeroKey → serverPub ≠ zeroKey → box_Precompute serverPub priv ≠ zeroKey → 0 <= vni < 2 ^ 24 → msg_wf m → isRelayHandshakeMsg m = true →
  sendDiscoMessage priv serverPub vni nonce m = Ok (client_datagram priv serverPub vni nonce m).
Proof.
  intros Hp Hs Hk Hv Hm Hh. unfold sendDiscoMessage. rewrite Hh, Geneve_Encode_bytes by done. cbn [mbind res_bind].
  unfold DiscoPrivate_Public. rewrite bool_decide_false by done. cbn [mbind res_bind]. unfold DiscoPrivate_Shared. rewrite !bool_decide_false by done. cbn [orb mbind res_bind].
  rewrite AppendMarshal_bytes by done. cbn [mbind res_bind app]. unfold DiscoShared_Seal. rewrite bool_decide_false by done. cbn [mbind res_bind].
  unfold client_datagram. by rewrite <- !app_assoc.
Qed.

(** What the client makes of a datagram of the server. *)
Definition client_reads (priv serverPub b : bytes) : res (option BindUDPRelayEndpointCommon) :=
  msg ← slice_from b GeneveFixedHeaderLength; handleDiscoMessage priv serverPub msg.

(** The client with this private key is the one of leg [i]; the keys of the legs differ. *)
Record leg_of (s : Server) (e : serverEndpoint) (i : Z) (priv : bytes) : Prop := {
  leg_i : i = 0 ∨ i = 1;
  leg_key : at2 i (discoPubKeys e) = ScalarBaseMult priv;
  leg_differ : (discoPubKeys e).1 ≠ (discoPubKeys e).2;
  leg_shared : at2 i (discoSharedSecrets e) = box_Precompute (discoPublic s) priv;
  leg_nonzero : box_Precompute (discoPublic s) priv ≠ zeroKey;
  leg_keys : priv ≠ zeroKey ∧ discoPublic s ≠ zeroKey
}.

(** The server takes a sealed message of a client to its handler. *)
Lemma handlePacket_control s e l i priv from nonce m now fresh n :
  leg_of s e i priv → serverEndpointByVNI s !! se_vni e = Some l → endpoints s !! l = Some e → 0 <= se_vni e < 2 ^ 24 →
  msg_wf m → zlen nonce = 24 →
  handlePacket from (client_datagram priv (discoPublic s) (se_vni e) nonce m) now fresh n s =
    let '(s', secrets) := getMACSecrets now fresh s in
    '(e', m', out) ← handleDiscoControlMsg from i m (discoPublic s) secrets now n e (sv_metrics s);
    Ok (set_metrics m' (set_endpoints (<[l := e']> (endpoints s)) s'), out, false).
Proof.
  intros [Hi Hk Hd Hs Hz _] Hv He Hr Hm Hn. unfold handlePacket.
  assert (lookupPacket (client_datagram priv (discoPublic s) (se_vni e) nonce m) s =
    Ok (Some ({| gh_Version := 0; gh_Protocol := GeneveProtocolDisco; gh_VNI := VNI_Set (se_vni e); gh_Control := true |}, l))) as ->
    by (unfold client_datagram; rewrite lookupPacket_geneve, Hv by done; done).
  cbn [mbind res_bind]. unfold packetSecrets. cbn [gh_Control].
  destruct (getMACSecrets now fresh s) as [s' secrets] eqn:Hg.
  assert (endpoints s' = endpoints s ∧ discoPublic s' = discoPublic s ∧ sv_metrics s' = sv_metrics s) as (He' & Hp' & Hm').
  { unfold getMACSecrets, maybeRotateMACSecretLocked in Hg. destruct (_ && _); by injection Hg as <- _. }
  unfold runEndpoint. rewrite He', He, Hp', Hm'. cbn [gh_Control]. unfold client_datagram. rewrite read_from by (by rewrite geneve_length). cbn [mbind res_bind].
  unfold handleSealedDiscoControlMsg.
  destruct (Source_sealed (ScalarBaseMult priv) (nonce ++ SealAfterPrecomputation (msg_bytes m) nonce (box_Precompute (discoPublic s) priv)))
    as [Hsrc Hsl]; [apply ScalarBaseMult_length|rewrite zlen_app, Hn; pose proof (zlen_nonneg (SealAfterPrecomputation (msg_bytes m) nonce (box_Precompute (discoPublic s) priv))); lia|].
  rewrite Hsrc. cbn [mbind res_bind].
  assert ((if bool_decide (bytes_Compare (ScalarBaseMult priv) (discoPubKeys e).1 = Eq) then Some 0
     else if bool_decide (bytes_Compare (ScalarBaseMult priv) (discoPubKeys e).2 = Eq) then Some 1 else None) = Some i) as ->.
  { rewrite <- Hk. destruct Hi as [-> | ->]; cbn [at2 Z.eqb].
    - rewrite bool_decide_true by (by apply bytes_Compare_eq). done.
    - rewrite bool_decide_false by (intros Heq%bytes_Compare_eq; by apply Hd). rewrite bool_decide_true by (by apply bytes_Compare_eq). done. }
  rewrite Hsl. cbn [mbind res_bind]. rewrite Hs, Open_sealed by done. cbn [mbind res_bind]. rewrite Parse_msg_bytes by done.
  destruct (handleDiscoControlMsg _ _ _ _ _ _ _ _ _) as [[[e' m'] out]|er| |]; done.
Qed.

Lemma registry_handlePacket from b now fresh n s s' out d : registry_ok s → handlePacket from b now fresh n s = Ok (s', out, d) → registry_ok s'.
Proof.
  intros Hr. unfold handlePacket. intros (found & _ & Hh)%bind_Ok. destruct found as [[gh l]|]; [|by injection Hh as <- _].
  destruct (packetSecrets gh now fresh s) as [s1 secrets] eqn:Hps. apply registry_packetSecrets in Hps; [|done].
  apply bind_Ok in Hh as ([s2 o] & Hrun & [= <- _ _]). by eapply registry_runEndpoint.
Qed.

(** The newest secret survives one rotation. *)
Lemma getMACSecrets_run now fresh s : registry_ok s → ∃ k rest t, getMACSecrets now fresh s = (set_secrets (k :: rest) t s, k :: rest) ∧
  ∀ now2 fresh2 s2, macSecrets s2 = k :: rest → k ∈ (getMACSecrets now2 fresh2 s2).2.
Proof.
  intros Hr. assert (∀ k rest now2 fresh2 s2, macSecrets s2 = k :: rest → k ∈ (getMACSecrets now2 fresh2 s2).2) as Hnext.
  { intros k rest now2 fresh2 s2 Heq. unfold getMACSecrets, maybeRotateMACSecretLocked. destruct (_ && _); cbn; rewrite Heq; set_solver. }
  unfold getMACSecrets at 1. unfold maybeRotateMACSecretLocked. destruct (negb _ && _) eqn:Hrot.
  - apply andb_true_iff in Hrot as [Hz%negb_true_iff%Z.eqb_neq _]. pose proof (reg_rotated _ Hr Hz) as Hne. destruct (macSecrets s) as [|k rest] eqn:Heq; [done|].
    exists k, rest, (macSecretRotatedAt s). split; [|eauto]. f_equal. rewrite <- Heq. by destruct s.
  - destruct (macSecrets s) as [|k rest]; [exists fresh, [], now|exists fresh, [k], now]; (split; [done|]); eauto.
Qed.

Lemma challenge_reply (s : Server) e i priv g k from now secrets rest n m :
  leg_of s e i priv → secrets = k :: rest → stateLocked e ≠ endpointClosed → 0 <= se_vni e < 2 ^ 24 → 0 < g < 2 ^ 32 →
  registry_ok s → zlen n = 24 → key_wf (at2 (other i) (discoPubKeys e)) →
  ∃ w, handleDiscoControlMsg from i (MBindUDPRelayEndpoint (mkBind (se_vni e) g (at2 (other i) (discoPubKeys e)) zeroKey)) (discoPublic s) secrets now n e m
    = Ok (set_generation i g e, m, (w, from)) ∧
    client_reads priv (discoPublic s) w = Ok (Some (challengeMsg e (other i) g from k)).
Proof.
  intros [Hi Hk Hd Hs Hz Hnz] -> Hst Hv Hg Hr Hn Hkw. pose proof (reg_key _ Hr) as Hpub. unfold DiscoPrivate_Public in Hpub.
  assert (key_wf (discoPublic s)) as Hpw by (case_bool_decide; [done|]; injection Hpub as <-; apply ScalarBaseMult_length).
  assert (msg_wf (MBindUDPRelayEndpointChallenge (challengeMsg e (other i) g from k))) as Hwf by (split_and!; cbn; try done; try lia; apply blake2s_length).
  set (payload := msg_bytes (MBindUDPRelayEndpointChallenge (challengeMsg e (other i) g from k))).
  exists (((geneve_bytes true GeneveProtocolDisco (se_vni e) ++ Magic) ++ discoPublic s) ++ n ++ SealAfterPrecomputation payload n (box_Precompute (discoPublic s) priv)). split.
  - unfold handleDiscoControlMsg. rewrite bool_decide_false by done.
    replace (negb (i =? 0) && negb (i =? 1)) with false by (by destruct Hi as [-> | ->]). fold (other i).
    assert (validateVNIAndRemoteKey e (other i) (mkBind (se_vni e) g (at2 (other i) (discoPubKeys e)) zeroKey) = true) as -> by (by apply validate_iff).
    cbn [negb bind_Generation]. replace (g =? 0) with false by lia. cbn [se_vni set_generation]. rewrite Geneve_Encode_bytes by done.
    rewrite challengeMsg_generation, AppendMarshal_bytes by done. cbn [mbind res_bind app]. fold payload. cbn [discoSharedSecrets set_generation].
    unfold DiscoShared_Seal. rewrite Hs, bool_decide_false by done. done.
  - unfold client_reads. rewrite <- !app_assoc. rewrite read_from by (by rewrite geneve_length). cbn [mbind res_bind]. unfold handleDiscoMessage.
    destruct (Source_sealed (discoPublic s) (n ++ SealAfterPrecomputation payload n (box_Precompute (discoPublic s) priv))) as [_ ->];
      [done|rewrite zlen_app, Hn; pose proof (zlen_nonneg (SealAfterPrecomputation payload n (box_Precompute (discoPublic s) priv))); lia|].
    rewrite read_from by done. cbn [mbind res_bind]. rewrite read_slice by done. cbn [mbind res_bind]. rewrite bool_decide_true by done. cbn [negb].
    unfold DiscoPrivate_Shared. rewrite !bool_decide_false by apply Hnz. cbn [orb mbind res_bind]. rewrite Open_sealed by done. cbn [mbind res_bind].
    unfold payload. by rewrite Parse_msg_bytes.
Qed.

Lemma answer_binds (s : Server) e i priv g k from now secrets n m :
  leg_of s e i priv → k ∈ secrets → stateLocked e ≠ endpointClosed → at2 i (inProgressGeneration e) = g → 0 < g →
  ∃ m', handleDiscoControlMsg from i (MBindUDPRelayEndpointAnswer (challengeMsg e (other i) g from k)) (discoPublic s) secrets now n e m
    = Ok (set_generation i 0 (set_lastSeen i now (set_bound i from e)), m', nothing).
Proof.
  intros [Hi _ _ _ _ _] Hk Hst Hgen Hg. eexists. unfold handleDiscoControlMsg. rewrite bool_decide_false by done.
  replace (negb (i =? 0) && negb (i =? 1)) with false by (by destruct Hi as [-> | ->]). fold (other i).
  assert (validateVNIAndRemoteKey e (other i) (challengeMsg e (other i) g from k) = true) as -> by (by apply validate_iff).
  cbn [negb bind_Generation challengeMsg]. rewrite Hgen, Z.eqb_refl. replace (g =? 0) with false by lia. cbn [negb orb].
  assert (existsb (λ macSecret, bool_decide (blakeMACFromBindMsg macSecret from (challengeMsg e (other i) g from k) = bind_Challenge (challengeMsg e (other i) g from k))) secrets = true) as ->;
    [|done]. apply existsb_exists. exists k. split; [by apply list_elem_of_In|]. by apply bool_decide_eq_true.
Qed.

Lemma grows_trans s1 s2 s3 : grows s1 s2 → grows s2 s3 → grows s1 s3.
Proof.
  intros H1 H2 l e He. destruct (H1 _ _ He) as (e' & He' & Hid). destruct (H2 _ _ He') as (e'' & He'' & Hid').
  exists e''. split; [done|]. unfold same_id in *. intuition congruence.
Qed.

Lemma handlePacket_grows from b now fresh n s s' out d : registry_ok s → handlePacket from b now fresh n s = Ok (s', out, d) → grows s s'.
Proof.
  intros Hr (found & _ & Hh)%bind_Ok. destruct found as [[gh l]|]; [|injection Hh as <- _ _; apply grows_refl].
  destruct (packetSecrets gh now fresh s) as [s1 secrets] eqn:Hps. apply packetSecrets_effect in Hps as (Hep & _); [|done].
  apply bind_Ok in Hh as ([s2 o] & Hrun & [= <- _ _]). apply runEndpoint_effect in Hrun as (e & e' & Hl & Hid & _ & -> & _).
  rewrite Hep in Hl. eapply grows_insert; [exact Hl|exact Hid|]. cbn. by rewrite Hep.
Qed.

(** The server after a packet for the endpoint in cell [l]. *)
Definition after (s s' : Server) (l : nat) (e' : serverEndpoint) : Prop :=
  registry_ok s' ∧ endpoints s' !! l = Some e' ∧ serverEndpointByVNI s' = serverEndpointByVNI s ∧ discoPublic s' = discoPublic s.

Lemma open_state s v l e : registry_ok s → serverEndpointByVNI s !! v = Some l → endpoints s !! l = Some e → stateLocked e ≠ endpointClosed ∧ 0 <= se_vni e < 2 ^ 24 ∧ se_vni e = v.
Proof.
  intros Hr Hv He. destruct (reg_vni _ Hr _ _ Hv) as (e1 & He1 & Hvni & Hc & _). assert (e1 = e) as -> by congruence.
  destruct (reg_endpoint _ Hr _ _ He) as (Hrange & _). unfold minVNI, maxVNI in Hrange. split_and!; [|lia|lia|done]. unfold stateLocked. rewrite Hc. by case_match.
Qed.

Lemma leg_same s s' e e' i priv : leg_of s e i priv → same_id e e' → discoPublic s' = discoPublic s → leg_of s' e' i priv.
Proof. intros [] (Hk & Hs & _) Hp. constructor; rewrite ?Hk, ?Hs, ?Hp; done. Qed.

Lemma leg_binds s e l i priv g from t1 t2 f1 f2 n1 n2 c1 c2 :
  registry_ok s → leg_of s e i priv → serverEndpointByVNI s !! se_vni e = Some l → endpoints s !! l = Some e → 0 < g < 2 ^ 32 →
  zlen n1 = 24 → zlen c1 = 24 → zlen c2 = 24 →
  let send c m := client_datagram priv (discoPublic s) (se_vni e) c m in
  ∃ s1 w c s2 e2,
    handlePacket from (send c1 (MBindUDPRelayEndpoint (mkBind (se_vni e) g (at2 (other i) (discoPubKeys e)) zeroKey))) t1 f1 n1 s = Ok (s1, (w, from), false) ∧
    client_reads priv (discoPublic s) w = Ok (Some c) ∧
    handlePacket from (send c2 (MBindUDPRelayEndpointAnswer c)) t2 f2 n2 s1 = Ok (s2, nothing, false) ∧
    after s s2 l e2 ∧ same_id e e2 ∧ boundAddrPorts e2 = set2 i from (boundAddrPorts e) ∧ grows s s2 ∧ ∃ k, c = challengeMsg e (other i) g from k.
Proof.
  intros Hr Hleg Hv He Hg Hn1 Hc1 Hc2 send. pose proof (open_state _ _ _ _ Hr Hv He) as (Hst & Hrange & _).
  assert (key_wf (at2 (other i) (discoPubKeys e))) as Hkw by (destruct (reg_keys _ Hr _ _ He) as [? ?]; by destruct (leg_i _ _ _ _ Hleg) as [-> | ->]).
  destruct (getMACSecrets_run t1 f1 s Hr) as (k & rest & tr & Hget & Hnext).
  destruct (challenge_reply s e i priv g k from t1 (k :: rest) rest n1 (sv_metrics s)) as (w & Hh & Hread); try done.
  set (e1 := set_generation i g e) in *. set (s1 := set_metrics (sv_metrics s) (set_endpoints (<[l := e1]> (endpoints s)) (set_secrets (k :: rest) tr s))).
  assert (handlePacket from (send c1 (MBindUDPRelayEndpoint (mkBind (se_vni e) g (at2 (other i) (discoPubKeys e)) zeroKey))) t1 f1 n1 s = Ok (s1, (w, from), false)) as Hp1.
  { unfold send. rewrite (handlePacket_control s e l i priv); [|done..|split_and!; cbn; done || lia|done]. rewrite Hget, Hh. done. }
  pose proof (registry_handlePacket _ _ _ _ _ _ _ _ _ Hr Hp1) as Hr1.
  assert (endpoints s1 !! l = Some e1) as He1 by (cbn; by rewrite list_lookup_insert_eq by (by eapply lookup_lt_Some)).
  assert (leg_of s1 e1 i priv) as Hleg1 by (by eapply leg_same).
  set (c := challengeMsg e (other i) g from k).
  destruct (answer_binds s1 e1 i priv g k from t2 (getMACSecrets t2 f2 s1).2 n2 (sv_metrics s1)) as (m2 & Hh2);
    [done|by apply Hnext|done|cbn; by destruct (leg_i _ _ _ _ Hleg) as [-> | ->]|lia|].
  set (e2 := set_generation i 0 (set_lastSeen i t2 (set_bound i from e1))) in *.
  destruct (getMACSecrets_run t2 f2 s1 Hr1) as (k2 & rest2 & tr2 & Hget2 & _).
  set (s2 := set_metrics m2 (set_endpoints (<[l := e2]> (endpoints s1)) (set_secrets (k2 :: rest2) tr2 s1))).
  assert (handlePacket from (send c2 (MBindUDPRelayEndpointAnswer c)) t2 f2 n2 s1 = Ok (s2, nothing, false)) as Hp2.
  { unfold send. change (se_vni e) with (se_vni e1). change (discoPublic s) with (discoPublic s1).
    rewrite (handlePacket_control s1 e1 l i priv); [|done..|split_and!; cbn; try done; try lia; apply blake2s_length|done].
    change (challengeMsg e1 (other i) g from k) with c in Hh2. rewrite Hget2 in Hh2 |- *. cbn [snd] in Hh2. by rewrite Hh2. }
  pose proof (registry_handlePacket _ _ _ _ _ _ _ _ _ Hr1 Hp2) as Hr2.
  assert (endpoints s2 !! l = Some e2) as He2 by (apply (list_lookup_insert_eq (endpoints s1)); by eapply lookup_lt_Some).
  exists s1, w, c, s2, e2. split_and!; try done; [|by exists k]. apply (grows_trans s s1); by eapply handlePacket_grows.
Qed.

(** Data goes from either bound address to the other. *)
Lemma handlePacket_data s e l i to from proto payload now fresh n :
  registry_ok s → serverEndpointByVNI s !! se_vni e = Some l → endpoints s !! l = Some e → 0 <= proto < 2 ^ 16 → i = 0 ∨ i = 1 →
  at2 i (boundAddrPorts e) = from → at2 (other i) (boundAddrPorts e) = to → ap_ok from → ap_ok to → from ≠ to →
  let b := geneve_bytes false proto (se_vni e) ++ payload in ∃ s', handlePacket from b now fresh n s = Ok (s', (b, to), true).
Proof.
  intros Hr Hv He Hp Hi Hfrom Hto (_ & Hfz & _) (_ & Htz & _) Hne b. pose proof (open_state _ _ _ _ Hr Hv He) as (Hst & Hrange & _).
  unfold handlePacket, b. rewrite lookupPacket_geneve, Hv by done. cbn [andb mbind res_bind]. unfold packetSecrets. cbn [gh_Control]. unfold runEndpoint. rewrite He. cbn [gh_Control].
  assert (isBoundLocked e = true) as Hb.
  { unfold isBoundLocked, ap_IsValid. destruct Hi as [-> | ->]; cbn in Hfrom, Hto; rewrite Hfrom, Hto, !bool_decide_false by done; done. }
  unfold handleDataPacket. rewrite Hb, (bool_decide_false (stateLocked e = endpointClosed)) by done. cbn [negb]. destruct Hi as [-> | ->]; cbn in Hfrom, Hto; rewrite Hfrom, Hto.
  - rewrite bool_decide_true by done. cbn [mbind res_bind gh_Control negb]. eauto.
  - rewrite bool_decide_false, bool_decide_true by done. cbn [mbind res_bind gh_Control negb]. eauto.
Qed.

Lemma alloc_fresh_grows a b now s s' se : registry_ok s → serverEndpointByDisco s !! NewSortedPairOfDiscoPublic a b = None →
  AllocateEndpoint a b now s = (s', Ok se) → length (endpoints s') = S (length (endpoints s)).
Proof.
  intros Hr Hfresh. unfold AllocateEndpoint. destruct (sv_closed s); [done|]. destruct (_ && _); [done|]. destruct (_ || _); [done|].
  rewrite Hfresh. cbn [mbind option_bind]. destruct (getNextVNILocked s) as [s1 [vni|er| |]] eqn:Hn; [|done..].
  destruct (DiscoPrivate_Shared _ _) as [x0|er| |]; [|done..]. destruct (DiscoPrivate_Shared _ _) as [x1|er| |]; [|done..].
  apply nextVNILoop_effect in Hn as (y & -> & _); [|apply Hr]. intros [= <- _]. cbn. rewrite length_app. cbn. lia.
Qed.

Lemma AllocateEndpoint_Ok a b now s s' se : registry_ok s → key_wf a → key_wf b → AllocateEndpoint a b now s = (s', Ok se) →
  ∃ l e, registry_ok s' ∧ endpoints s' !! l = Some e ∧ serverEndpointByVNI s' !! se_vni e = Some l ∧ VNI se = se_vni e ∧
    discoPubKeys e = NewSortedPairOfDiscoPublic a b ∧ ServerDisco se = discoPublic s' ∧ discoPublic s' = discoPublic s.
Proof.
  intros Hr Ha Hb Hal. assert (registry_ok s') as Hr' by (by eapply registry_alloc).
  assert (s' = s ∧ (∃ l e, serverEndpointByDisco s !! NewSortedPairOfDiscoPublic a b = Some l ∧ endpoints s !! l = Some e ∧ se = describe s (NewSortedPairOfDiscoPublic a b) e) ∨
    serverEndpointByDisco s !! NewSortedPairOfDiscoPublic a b = None) as [[-> (l & e & Hl & He & ->)]|Hfresh].
  { unfold AllocateEndpoint in Hal. destruct (sv_closed s); [done|]. destruct (_ && _); [done|]. destruct (_ || _); [done|].
    destruct (serverEndpointByDisco s !! _) as [l|] eqn:Hl; [left|by right]. destruct (reg_disco _ Hr _ _ Hl) as (e & He & _). cbn [mbind option_bind] in Hal.
    rewrite He in Hal. injection Hal as <- <-. split; [done|]. by exists l, e. }
  - destruct (reg_disco _ Hr _ _ Hl) as (e1 & He1 & Hk & Hv). assert (e1 = e) as -> by congruence. exists l, e. split_and!; done.
  - pose proof (alloc_fresh_grows _ _ _ _ _ _ Hr Hfresh Hal) as Hgrow.
    destruct (AllocateEndpoint_effect _ _ _ _ _ _ Hal Hr) as [->|[(x & -> & Hx)|(x & vni & e & -> & _ & _ & _ & _ & _ & Hev & Hed & _ & _ & _ & _ & _ & _ & _ & Hse)]]; [done| | |].
    + lia.
    + cbn in Hgrow. lia.
    + injection Hse as ->. exists (length (endpoints s)), e. split_and!; try done; cbn; [by apply list_lookup_middle|]. rewrite Hev. apply lookup_insert_eq.
Qed.
End Session.

(** ** While other things happen *)
Section Later.
Context `{DiscoCrypto}.

(** If the datagram is an answer of a client of the endpoint, it comes from the bound address. *)
Definition answers_from_bound (e : serverEndpoint) (from : AddrPort) (b : bytes) : Prop :=
  ∀ i c, control_datagram e i b (MBindUDPRelayEndpointAnswer c) → from = at2 i (boundAddrPorts e).

(** The endpoint in cell [l] is still [e], as far as its clients and their addresses go. *)
Definition same_binding (l : nat) (e : serverEndpoint) (s : Server) : Prop :=
  ∃ e', endpoints s !! l = Some e' ∧ same_id e e' ∧ boundAddrPorts e' = boundAddrPorts e.
Definition kept (l : nat) (e : serverEndpoint) (S : System) : Prop :=
  same_binding l e (sys_server S) ∧ Forall (λ j, answers_from_bound e (job_from j) (job_bytes j)) (sys_jobs S).

Lemma same_id_sym e e' : same_id e e' → same_id e' e.
Proof. unfold same_id. naive_solver. Qed.
Lemma same_id_trans e1 e2 e3 : same_id e1 e2 → same_id e2 e3 → same_id e1 e3.
Proof. unfold same_id. intuition congruence. Qed.

Lemma legs_eq {A} (p q : A * A) : (∀ i, i = 0 ∨ i = 1 → at2 i p = at2 i q) → p = q.
Proof. intros Hi. pose proof (Hi 0 ltac:(auto)) as H0. pose proof (Hi 1 ltac:(auto)) as H1. destruct p, q. cbn in *. congruence. Qed.

Lemma same_binding_insert l e s l1 e1 e1' s' : same_binding l e s → endpoints s !! l1 = Some e1 → same_id e1 e1' →
  (l1 = l → boundAddrPorts e1' = boundAddrPorts e1) → endpoints s' = <[l1 := e1']> (endpoints s) → same_binding l e s'.
Proof.
  intros (e' & He & Hid & Hb) H1 Hid1 Hb1 Heq. unfold same_binding. rewrite Heq. destruct (decide (l1 = l)) as [->|Hne].
  - assert (e1 = e') as -> by congruence. exists e1'. rewrite list_lookup_insert_eq by (by eapply lookup_lt_Some).
    split_and!; [done|by eapply same_id_trans|]. rewrite Hb1 by done. done.
  - exists e'. by rewrite list_lookup_insert_ne.
Qed.

Lemma run_keeps l e s from b gh l1 secrets now nonce s' out :
  same_binding l e s → answers_from_bound e from b → job_ok s (Ready from b gh l1 secrets now) →
  runEndpoint from b gh l1 secrets now nonce s = Ok (s', out) → same_binding l e s'.
Proof.
  intros Hsb Ha [(e0 & He0 & Hdec & Hvni) _] Hrun. apply runEndpoint_effect in Hrun as (e1 & e1' & Hl & Hid & _ & -> & Heff).
  assert (e0 = e1) as -> by congruence. eapply same_binding_insert; [exact Hsb|exact Hl|exact Hid| |done]. intros ->.
  destruct (gh_Control gh) eqn:Hctl; [|apply Heff]. destruct Heff as [[-> _]|(msg & i & m' & dm & Hmsg & Hop & Hce)]; [done|].
  destruct Hsb as (e' & He & Hide & Hb). assert (e' = e1) as -> by congruence. apply legs_eq. intros j Hj.
  assert (i = 0 ∨ i = 1) as Hi by apply Hop.
  destruct (control_bound _ _ _ _ _ _ _ _ _ _ _ _ j Hce Hi Hj) as [?|(-> & -> & c & -> & _)]; [done|]. rewrite Hb. apply (Ha i c).
  exists gh, msg. rewrite Hvni. split_and!; try done; [apply Hide|]. eapply opens_same_id; [by apply same_id_sym|done].
Qed.

Lemma step_keeps l e S ev S' : step S ev S' → system_ok S → kept l e S →
  (∀ from b, ev = Recv from b → answers_from_bound e from b) → kept l e S'.
Proof.
  intros Hst [Hr Hj] [Hsb Hall] Hrecv. destruct Hst as [s jobs a b now s' r Hka Hkb Hal Hp _|s jobs from b found Hap Hf|s jobs i from b gh l1 now fresh s' secrets Hi Hps
    |s jobs i from b gh l1 secrets now nonce s' out Hi Hrun|s jobs now k|s jobs l1|s jobs found|s]; cbn in Hr, Hj, Hsb, Hall; (split; cbn; [|try done]).
  - destruct Hsb as (e' & He & Hid & Hb). exists e'. split; [|done].
    destruct (AllocateEndpoint_effect _ _ _ _ _ _ Hal Hr Hp) as [->|[(x & -> & _)|(x & vni & e1 & -> & _)]]; [done|done|]. by apply lookup_app_l_Some.
  - done.
  - destruct found as [[gh l1]|]; [|done]. apply Forall_app. split; [done|]. constructor; [|done]. by apply Hrecv.
  - apply packetSecrets_effect in Hps as (Hep & _); [|done]. unfold same_binding. by rewrite Hep.
  - apply Forall_insert; [done|]. by apply (Forall_lookup_1 _ _ _ _ Hall Hi).
  - eapply run_keeps; [exact Hsb|by apply (Forall_lookup_1 _ _ _ _ Hall Hi)|by apply (Forall_lookup_1 _ _ _ _ Hj Hi)|exact Hrun].
  - by apply Forall_delete.
  - destruct (gcOne_effect now (bindLifetime s) (steadyStateLifetime s) k s _ eq_refl Hr) as [->|(l1 & e1 & _ & Hl & _ & Heq)]; [done|].
    rewrite Heq. by eapply (same_binding_insert l e s l1 e1 (set_se_closed e1)).
  - done.
  - done.
  - done.
Qed.

Lemma steps_keep l e S tr S' : steps S tr S' → system_ok S → kept l e S →
  (∀ from b, Recv from b ∈ tr → answers_from_bound e from b) → kept l e S' ∧ system_ok S'.
Proof.
  intros Hs Hok Hk. induction Hs as [|tr S1 ev S2 _ IH Hst]; [done|]. intros Hrecv.
  destruct IH as [Hk1 Hok1]; [intros from b Hin; apply Hrecv; set_solver|]. split; [|by eapply step_ok].
  eapply step_keeps; [exact Hst|done|done|]. intros from b ->. apply Hrecv. set_solver.
Qed.
End Later.

(** ** The session *)
Section Established.
Context `{DiscoCrypto, !DiscoCryptoLaws}.

(** The time, the random secret and the server's nonce of the [k]-th packet, and the client's. *)
Record Environment := mkEnvironment { env_now : nat → Z; env_fresh : nat → bytes; env_nonce : nat → bytes; env_client : nat → bytes }.
Definition env_ok (v : Environment) : Prop := ∀ k, zlen (env_nonce v k) = 24 ∧ zlen (env_client v k) = 24.
Definition handleNth (v : Environment) (k : nat) (from : AddrPort) (b : bytes) (s : Server) : res (Server * output * bool) :=
  handlePacket from b (env_now v k) (env_fresh v k) (env_nonce v k) s.

(** The handshake of a client, from its packet [k] on: it sends a bind message, opens
    the challenge, and sends its answer. *)
Definition handshake (v : Environment) (k : nat) (priv : bytes) (from : AddrPort) (serverDisco : bytes) (vni gen : Z) (remote : bytes) (s s' : Server) : Prop :=
  ∃ p1 s1 w c h answer p2,
    sendDiscoMessage priv serverDisco vni (env_client v k) (bindMessage (newClientHandshake vni gen remote)) = Ok p1 ∧
    handleNth v k from p1 s = Ok (s1, (w, from), false) ∧
    client_reads priv serverDisco w = Ok (Some c) ∧ onChallenge c (newClientHandshake vni gen remote) = (h, Some answer) ∧
    sendDiscoMessage priv serverDisco vni (env_client v (S k)) answer = Ok p2 ∧
    handleNth v (S k) from p2 s1 = Ok (s', nothing, false).

Lemma pair_legs a b : a ≠ b → ∃ i, (i = 0 ∨ i = 1) ∧ at2 i (NewSortedPairOfDiscoPublic a b) = a ∧ at2 (other i) (NewSortedPairOfDiscoPublic a b) = b ∧
  (NewSortedPairOfDiscoPublic a b).1 ≠ (NewSortedPairOfDiscoPublic a b).2.
Proof.
  intros Hne. unfold NewSortedPairOfDiscoPublic. destruct (bytes_Compare a b); [exists 1|exists 0|exists 1]; split_and!; auto; done.
Qed.

Lemma leg_of_endpoint s l e i priv : registry_ok s → endpoints s !! l = Some e → i = 0 ∨ i = 1 → at2 i (discoPubKeys e) = ScalarBaseMult priv →
  (discoPubKeys e).1 ≠ (discoPubKeys e).2 → box_Precompute (discoPublic s) priv ≠ zeroKey → priv ≠ zeroKey → discoPublic s ≠ zeroKey → leg_of s e i priv.
Proof.
  intros Hr He Hi Hk Hd Hz Hnz Hnz'. constructor; try done. destruct (reg_endpoint _ Hr _ _ He) as (_ & _ & Hs0 & Hs1). pose proof (reg_key _ Hr) as Hpub.
  unfold DiscoPrivate_Public in Hpub. case_bool_decide; [done|]. injection Hpub as Hpub.
  assert (Ok (at2 i (discoSharedSecrets e)) = DiscoPrivate_Shared (sv_disco s) (at2 i (discoPubKeys e))) as Hs by (by destruct Hi as [-> | ->]).
  unfold DiscoPrivate_Shared in Hs. destruct (_ || _); [done|]. injection Hs as ->. by rewrite Hk, <- Hpub, Precompute_comm.
Qed.

Lemma leg_handshake v k s l e i priv from gen : env_ok v → registry_ok s → leg_of s e i priv → serverEndpointByVNI s !! se_vni e = Some l →
  endpoints s !! l = Some e → 0 < gen < 2 ^ 32 →
  ∃ s' e', handshake v k priv from (discoPublic s) (se_vni e) gen (at2 (other i) (discoPubKeys e)) s s' ∧
    after s s' l e' ∧ same_id e e' ∧ boundAddrPorts e' = set2 i from (boundAddrPorts e) ∧ grows s s'.
Proof.
  intros Henv Hr Hleg Hv He Hg.
  destruct (leg_binds s e l i priv gen from (env_now v k) (env_now v (S k)) (env_fresh v k) (env_fresh v (S k)) (env_nonce v k) (env_nonce v (S k))
    (env_client v k) (env_client v (S k))) as (s1 & w & c & s2 & e2 & Hp1 & Hc & Hp2 & Haft & Hid & Hb & Hgr & key & ->); try done; [apply Henv..|].
  pose proof (open_state _ _ _ _ Hr Hv He) as (_ & Hrange & _). destruct (leg_keys _ _ _ _ Hleg) as [Hnz Hnz'].
  assert (key_wf (at2 (other i) (discoPubKeys e))) as Hkw by (destruct (reg_keys _ Hr _ _ He) as [? ?]; by destruct (leg_i _ _ _ _ Hleg) as [-> | ->]).
  exists s2, e2. split; [|done]. eexists _, s1, w, (challengeMsg e (other i) gen from key), _, (MBindUDPRelayEndpointAnswer (challengeMsg e (other i) gen from key)), _.
  split_and!; [|exact Hp1|exact Hc| | |exact Hp2].
  - apply sendDiscoMessage_datagram; try done; [apply (leg_nonzero _ _ _ _ Hleg)|split_and!; cbn; done || lia].
  - unfold onChallenge. cbn [bind_VNI bind_RemoteKey challengeMsg newClientHandshake ch_common ch_answerSent bind_Generation]. rewrite Z.eqb_refl.
    rewrite bool_decide_true by (by apply bytes_Compare_eq). done.
  - apply sendDiscoMessage_datagram; try done; [apply (leg_nonzero _ _ _ _ Hleg)|split_and!; cbn; try done; try lia; apply blake2s_length].
Qed.

(** The datagram is an answer of a client of the endpoint with this VNI, from an
    address that the client is not bound to. *)
Definition answers_elsewhere (s : Server) (vni : Z) (from : AddrPort) (b : bytes) : Prop :=
  ∃ l e i c, serverEndpointByVNI s !! vni = Some l ∧ endpoints s !! l = Some e ∧
    control_datagram e i b (MBindUDPRelayEndpointAnswer c) ∧ from ≠ at2 i (boundAddrPorts e).

(** C14. Two clients of the relay get a session and keep it.  In every state that
    the relay reaches, if an endpoint is allocated for two clients with different
    keys, then whatever the times, secrets and nonces, each of them (at different
    addresses, and with generations that are not zero) completes its handshake
    with one challenge and one answer: it can open the challenge, and the answer
    it makes of it binds its address.  After that, and after any further steps
    of the relay (packets of anyone, allocations, collections, in any
    interleaving with each other and with the packets that were being handled), a
    data packet with the endpoint's VNI from either address is sent on unchanged
    to the other, as long as the endpoint is still registered and neither client
    answered a challenge from another address.  It is assumed that the keys the
    box functions compute are not zero, on which the code panics. *)
Theorem relay_session_established disco tr S a b now s0 se pa pb ga gb v :
  run disco tr S → AllocateEndpoint (ScalarBaseMult a) (ScalarBaseMult b) now (sys_server S) = (s0, Ok se) →
  ScalarBaseMult a ≠ ScalarBaseMult b → a ≠ zeroKey → b ≠ zeroKey → ServerDisco se ≠ zeroKey → box_Precompute (ServerDisco se) a ≠ zeroKey → box_Precompute (ServerDisco se) b ≠ zeroKey →
  ap_ok pa → ap_ok pb → pa ≠ pb → 0 < ga < 2 ^ 32 → 0 < gb < 2 ^ 32 → env_ok v →
  ∃ s1 s2, handshake v 0 a pa (ServerDisco se) (VNI se) ga (ScalarBaseMult b) s0 s1 ∧
    handshake v 2 b pb (ServerDisco se) (VNI se) gb (ScalarBaseMult a) s1 s2 ∧
    is_Some (serverEndpointByVNI s2 !! VNI se) ∧
    ∀ tr' S', steps (mkSystem s2 (sys_jobs S)) tr' S' →
      (∀ j, j ∈ sys_jobs S → ¬ answers_elsewhere s2 (VNI se) (job_from j) (job_bytes j)) →
      (∀ from d, Recv from d ∈ tr' → ¬ answers_elsewhere s2 (VNI se) from d) →
      serverEndpointByVNI (sys_server S') !! VNI se = serverEndpointByVNI s2 !! VNI se →
      ∀ k proto payload, 0 <= proto < 2 ^ 16 → let d := geneve_bytes false proto (VNI se) ++ payload in
        (∃ s3, handleNth v k pa d (sys_server S') = Ok (s3, (d, pb), true)) ∧ (∃ s3, handleNth v k pb d (sys_server S') = Ok (s3, (d, pa), true)).
Proof.
  intros Hrun Hal Hne Haz Hbz Hsz Hza Hzb Hpa Hpb Hpne Hga Hgb Henv. destruct (run_ok _ _ _ Hrun) as [Hr Hjobs].
  destruct (AllocateEndpoint_Ok _ _ _ _ _ _ Hr (ScalarBaseMult_length a) (ScalarBaseMult_length b) Hal) as (l & e & Hr0 & He & Hv & Hvni & Hk & Hsd & Hpub).
  rewrite Hsd in *. rewrite Hvni in *. destruct (pair_legs _ _ Hne) as (i & Hi & Hka & Hkb & Hd). rewrite <- Hk in Hka, Hkb, Hd.
  assert (other i = 0 ∨ other i = 1) as Hoi by (destruct Hi as [-> | ->]; auto). assert (other (other i) = i) as Hoo by (by destruct Hi as [-> | ->]).
  destruct (leg_handshake v 0 s0 l e i a pa ga) as (s1 & e1 & Hha & (Hr1 & He1 & Hv1 & Hp1) & Hid1 & Hb1 & Hg1); try done; [by eapply leg_of_endpoint|]. rewrite Hkb in Hha.
  pose proof Hid1 as (Hk1 & _ & _ & Hvni1 & _).
  destruct (leg_handshake v 2 s1 l e1 (other i) b pb gb) as (s2 & e2 & Hhb & (Hr2 & He2 & Hv2 & Hp2) & Hid2 & Hb2 & Hg2); try done;
    [eapply leg_of_endpoint; rewrite ?Hk1, ?Hp1; done|by rewrite Hv1, Hvni1|]. rewrite Hp1, Hvni1, Hk1, Hoo, Hka in Hhb.
  pose proof Hid2 as (_ & _ & _ & Hvni2 & _). assert (serverEndpointByVNI s2 !! se_vni e = Some l) as Hvl by (by rewrite Hv2, Hv1).
  exists s1, s2. split_and!; [done|done|by exists l|].
  intros tr' S' Hsteps Hjq Hrq Hreg k proto payload Hproto d. rewrite Hvl in Hreg.
  assert (∀ from x, ¬ answers_elsewhere s2 (se_vni e) from x → answers_from_bound e2 from x) as Hq.
  { intros from x Hn i0 c0 Hc0. destruct (decide (from = at2 i0 (boundAddrPorts e2))); [done|]. destruct Hn. by exists l, e2, i0, c0. }
  assert (grows (sys_server S) s2) as Hgr.
  { apply (grows_trans _ s0); [by eapply alloc_grows|]. by apply (grows_trans _ s1). }
  destruct (steps_keep l e2 _ _ _ Hsteps) as [[(e3 & He3 & Hid3 & Hb3) _] [Hr3 _]].
  { split; [done|]. cbn. eapply Forall_impl; [exact Hjobs|]. intros j. by apply job_ok_grows. }
  { split; cbn; [exists e2; auto using same_id_refl|]. apply Forall_forall. intros j Hj. by apply Hq, Hjq. }
  { intros from x Hx. by apply Hq, (Hrq _ _ Hx). }
  assert (at2 i (boundAddrPorts e3) = pa ∧ at2 (other i) (boundAddrPorts e3) = pb) as [Hba Hbb] by (rewrite Hb3, Hb2, Hb1; by destruct Hi as [-> | ->]).
  assert (se_vni e3 = se_vni e) as Hvni3 by (pose proof Hid3 as (_ & _ & _ & -> & _); congruence).
  unfold handleNth, d. rewrite <- Hvni3 in Hreg |- *. split.
  - by apply (handlePacket_data (sys_server S') e3 l i pb pa).
  - apply (handlePacket_data (sys_server S') e3 l (other i) pa pb); try done. by rewrite Hoo.
Qed.
End Established.
