(* ===== verification/UdpRelayRuns.v ===== *)
(** * net/udprelay: allocation, secrets and expiry; concrete runs

    More of what the server's operations promise, and the witnesses: an
    executable form of the steps, and a session run with toy cryptography. *)
From S2P Require Import Stun.
From S2P Require Import Prelude GoStrings NetBuf NetAddr PacketHeaders PacketTsmp Disco UdpRelay UdpRelayInv UdpRelaySafe UdpRelaySession.

(** ** Virtual network identifiers *)

(** The VNI that the search tries in its round [j]. *)
Definition vniAt (next j : Z) : Z := minVNI + (next - minVNI + j) mod totalPossibleVNI.

Lemma vniAt_0 next : minVNI <= next <= maxVNI → vniAt next 0 = next.
Proof. intros Hn. unfold vniAt, totalPossibleVNI. rewrite Z.add_0_r, Z.mod_small; unfold minVNI, maxVNI in *; lia. Qed.

Lemma vniAt_next next j : minVNI <= next <= maxVNI → 0 <= j →
  vniAt (if next =? maxVNI then minVNI else u32 (next + 1)) j = vniAt next (j + 1).
Proof.
  intros Hn Hj. unfold vniAt. f_equal. unfold u32, minVNI, maxVNI, totalPossibleVNI in *. destruct (Z.eqb_spec next (2 ^ 24 - 1)) as [->|].
  - replace (2 ^ 24 - 1 - 1 + (j + 1)) with (1 - 1 + j + 1 * (maxVNI - minVNI + 1)) by (unfold maxVNI, minVNI; lia). by rewrite Z_mod_plus_full.
  - rewrite (Z.mod_small (next + 1)) by lia. f_equal. lia.
Qed.

Lemma nextVNILoop_exhausted fuel s s' e : minVNI <= nextVNI s <= maxVNI → nextVNILoop fuel s = (s', Err e) →
  ∀ j, 0 <= j < Z.of_nat fuel → serverEndpointByVNI s !! vniAt (nextVNI s) j ≠ None.
Proof.
  revert s. induction fuel as [|fuel IH]; intros s Hn; cbn [nextVNILoop]; [lia|].
  set (x := if nextVNI s =? maxVNI then minVNI else u32 (nextVNI s + 1)).
  assert (minVNI <= x <= maxVNI) as Hx.
  { unfold x. destruct (Z.eqb_spec (nextVNI s) maxVNI); [done|]. unfold u32. rewrite Z.mod_small; unfold minVNI, maxVNI in *; lia. }
  cbn [serverEndpointByVNI set_nextVNI]. destruct (serverEndpointByVNI s !! nextVNI s) as [l|] eqn:Hv; [|done].
  intros Hl j Hj. destruct (decide (j = 0)) as [->|Hne].
  - rewrite vniAt_0 by done. congruence.
  - pose proof (IH (set_nextVNI x s) Hx Hl (j - 1) ltac:(lia)) as Hu. cbn [serverEndpointByVNI set_nextVNI nextVNI] in Hu. unfold x in Hu. rewrite vniAt_next in Hu by lia.
    by replace (j - 1 + 1) with j in Hu by lia.
Qed.

(** The search for a VNI returns one that is free, and fails only if every VNI is in use. *)
Theorem getNextVNILocked_finds_free s s' r : minVNI <= nextVNI s <= maxVNI → getNextVNILocked s = (s', r) →
  (∃ vni, r = Ok vni ∧ minVNI <= vni <= maxVNI ∧ serverEndpointByVNI s !! vni = None) ∨
  (∃ e, r = Err e ∧ ∀ v, minVNI <= v <= maxVNI → serverEndpointByVNI s !! v ≠ None).
Proof.
  intros Hn Hg. unfold getNextVNILocked in Hg. destruct (nextVNILoop_effect _ _ _ _ Hg Hn) as (x & _ & _ & Hr). destruct r as [vni|e| |]; [left|right|done|done].
  - destruct Hr as [? ?]. by exists vni.
  - exists e. split; [done|]. intros v Hv. assert (v = vniAt (nextVNI s) ((v - nextVNI s) mod totalPossibleVNI)) as ->.
    { unfold vniAt. rewrite Zplus_mod_idemp_r. replace (nextVNI s - minVNI + (v - nextVNI s)) with (v - minVNI) by lia.
      rewrite Z.mod_small by (unfold totalPossibleVNI, minVNI, maxVNI in *; lia). lia. }
    eapply nextVNILoop_exhausted; [done|exact Hg|]. rewrite Z2Nat.id by done. by apply Z.mod_pos_bound.
Qed.

(** ** Secrets *)
Definition mono_ok (t : Z) : Prop := 0 < t < 2 ^ 62.

Lemma mono_Sub_small t n : mono_ok t → mono_ok n → mono_Sub t n = t - n.
Proof. intros [? ?] [? ?]. apply s64_u64. lia. Qed.

(** Calls of [getMACSecrets] at these times, with what the random source returns. *)
Definition rotations (l : list (Z * bytes)) (s : Server) : Server := foldl (λ s '(now, fresh), (getMACSecrets now fresh s).1) s l.

(** The secret is the newest, and was drawn at [r]; or it is the one before, and
    the newest was drawn at [r], no earlier than [t]. *)
Definition keeps (k : bytes) (t : Z) (s : Server) : Prop :=
  head (macSecrets s) = Some k ∨ (k ∈ macSecrets s ∧ mono_ok (macSecretRotatedAt s) ∧ t <= macSecretRotatedAt s).

Lemma rotation_keeps k t s now fresh : keeps k t s → mono_ok now → mono_ok t → t <= now < t + macSecretRotationInterval → keeps k t (getMACSecrets now fresh s).1.
Proof.
  intros Hk Hn Ht Hr. unfold getMACSecrets, maybeRotateMACSecretLocked. destruct (negb _ && _) eqn:Hrot; cbn [fst]; [done|].
  destruct Hk as [Hh|(Hin & Hm & Hge)].
  - right. cbn. split_and!; [|done|lia]. destruct (macSecrets s) as [|x l]; [done|]. cbn in Hh. injection Hh as ->. set_solver.
  - exfalso. apply andb_false_iff in Hrot as [Hz|Hlt].
    + apply negb_false_iff, Z.eqb_eq in Hz. unfold mono_ok in Hm. lia.
    + rewrite mono_Sub_small in Hlt by done. apply Z.ltb_ge in Hlt. unfold macSecretRotationInterval, Second in *. lia.
Qed.

(** A challenge can be answered for two minutes.  The secret that a challenge
    of time [t] was made with is still among the secrets after any number of
    later requests for the secrets, by however many packets, as long as the last
    is less than the rotation interval after [t]. *)
Theorem challenge_lifetime t fresh s k l :
  mono_ok t → head (getMACSecrets t fresh s).2 = Some k →
  Forall (λ '(now, _), mono_ok now ∧ t <= now < t + macSecretRotationInterval) l →
  k ∈ macSecrets (rotations l (getMACSecrets t fresh s).1).
Proof.
  intros Ht Hk Hl. assert (keeps k t (getMACSecrets t fresh s).1) as Hkeep by (left; exact Hk). revert Hkeep. generalize (getMACSecrets t fresh s).1. clear Hk.
  induction Hl as [|[now fr] l [Hn Hr] _ IH]; intros s1 Hkeep; cbn [rotations foldl].
  - destruct Hkeep as [Hh|(Hin & _)]; [|done]. destruct (macSecrets s1); [done|]. cbn in Hh. injection Hh as ->. set_solver.
  - apply IH. by apply rotation_keeps.
Qed.

(** ** Expiry *)

(** The endpoint lives: it is not bound and was allocated recently, or it is
    bound and both clients were seen recently. *)
Definition fresh_enough (now bl ssl : Z) (e : serverEndpoint) : Prop :=
  (isBoundLocked e = false ∧ now - allocatedAt e <= bl) ∨
  (isBoundLocked e = true ∧ now - (lastSeen e).1 <= ssl ∧ now - (lastSeen e).2 <= ssl).

Lemma isExpired_iff now bl ssl e : mono_ok now → mono_ok (allocatedAt e) → (isBoundLocked e = true → mono_ok (lastSeen e).1 ∧ mono_ok (lastSeen e).2) →
  isExpiredLocked now bl ssl e = false ↔ fresh_enough now bl ssl e.
Proof.
  intros Hn Ha Hs. unfold isExpiredLocked, fresh_enough. destruct (isBoundLocked e); cbn [negb].
  - destruct (Hs eq_refl) as [H1 H2]. rewrite !mono_Sub_small, orb_false_iff, !Z.ltb_ge by done. naive_solver.
  - rewrite mono_Sub_small, Z.ltb_ge by done. naive_solver.
Qed.

Section Collection.
Context `{DiscoCrypto} (now bl ssl : Z).

(** Nothing registers this endpoint. *)
Definition unregistered (s : Server) (p : bytes * bytes) (v : Z) (l : nat) (e : serverEndpoint) : Prop :=
  serverEndpointByDisco s !! p = None ∧ serverEndpointByVNI s !! v = None ∧ endpoints s !! l = Some e ∧
  ∀ q, serverEndpointByDisco s !! q ≠ Some l.
Definition registered (s : Server) (p : bytes * bytes) (l : nat) (e : serverEndpoint) : Prop :=
  serverEndpointByDisco s !! p = Some l ∧ endpoints s !! l = Some e ∧ serverEndpointByVNI s !! se_vni e = Some l.

Lemma gcOne_unregistered k s p v l e : registry_ok s → unregistered s p v l e → unregistered (gcOne now bl ssl k s) p v l e.
Proof.
  intros Hr (Hp & Hv & He & Hq). destruct (gcOne_effect now bl ssl k s _ eq_refl Hr) as [->|(l1 & e1 & Hk & Hl & _ & ->)]; [done|].
  assert (l1 ≠ l) by (intros ->; by apply (Hq k)). split_and!; cbn.
  - apply lookup_delete_None. by right.
  - apply lookup_delete_None. by right.
  - by rewrite list_lookup_insert_ne.
  - intros q Hd. apply lookup_delete_Some in Hd as [_ Hd]. by apply (Hq q).
Qed.

Lemma registered_unique s p p' l l' e e' : registry_ok s → registered s p l e → registered s p' l' e' → p ≠ p' → l ≠ l' ∧ se_vni e ≠ se_vni e'.
Proof.
  intros Hr (Hp & He & Hv) (Hp' & He' & Hv') Hne. destruct (reg_disco _ Hr _ _ Hp) as (e1 & He1 & <- & _). destruct (reg_disco _ Hr _ _ Hp') as (e2 & He2 & <- & _).
  assert (l ≠ l') as Hll by (intros ->; congruence). split; [done|]. intros Heq. rewrite Heq in Hv. congruence.
Qed.

Lemma gcOne_registered k s p l e : registry_ok s → registered s p l e → k ≠ p → registered (gcOne now bl ssl k s) p l e.
Proof.
  intros Hr Hreg Hne. destruct (gcOne_effect now bl ssl k s _ eq_refl Hr) as [->|(l1 & e1 & Hk & Hl & _ & ->)]; [done|].
  assert (registered s k l1 e1) as Hreg1.
  { split_and!; [done|done|]. destruct (reg_disco _ Hr _ _ Hk) as (e2 & He2 & _ & Hv). congruence. }
  destruct (registered_unique _ _ _ _ _ _ _ Hr Hreg1 Hreg Hne) as [Hll Hvv]. destruct Hreg as (Hp & He & Hv). split_and!; cbn.
  - by rewrite lookup_delete_ne.
  - by rewrite list_lookup_insert_ne.
  - by rewrite lookup_delete_ne.
Qed.

Lemma gcOne_own s p l e : registry_ok s → registered s p l e →
  if isExpiredLocked now bl ssl e then unregistered (gcOne now bl ssl p s) p (se_vni e) l (set_se_closed e) else gcOne now bl ssl p s = s.
Proof.
  intros Hr (Hp & He & Hv). unfold gcOne. rewrite Hp, He. unfold maybeExpire. destruct (isExpiredLocked now bl ssl e).
  - split_and!; cbn; [apply lookup_delete_eq|apply lookup_delete_eq|by rewrite list_lookup_insert_eq by (by eapply lookup_lt_Some)|].
    intros q Hd. apply lookup_delete_Some in Hd as [Hne Hq]. destruct (reg_disco _ Hr _ _ Hq) as (e1 & He1 & <- & _). destruct (reg_disco _ Hr _ _ Hp) as (e2 & He2 & <- & _). congruence.
  - rewrite list_insert_id by done. by destruct s.
Qed.

(** Collection closes and removes exactly the endpoints that expired: one that was
    not bound within the bind lifetime, or whose clients were not both seen
    within the steady-state lifetime.  All others stay as they are. *)
Theorem endpointGC_removes_expired order s p l e :
  registry_ok s → registered s p l e → p ∈ order →
  mono_ok now → mono_ok (allocatedAt e) → (isBoundLocked e = true → mono_ok (lastSeen e).1 ∧ mono_ok (lastSeen e).2) →
  let s' := endpointGC now bl ssl order s in
  (fresh_enough now bl ssl e → registered s' p l e) ∧
  (¬ fresh_enough now bl ssl e → unregistered s' p (se_vni e) l (set_se_closed e)).
Proof.
  intros Hr Hreg Hin Hn Ha Hs s'. rewrite <- (isExpired_iff now bl ssl e Hn Ha Hs). subst s'.
  assert (∀ order s, registry_ok s → unregistered s p (se_vni e) l (set_se_closed e) → unregistered (endpointGC now bl ssl order s) p (se_vni e) l (set_se_closed e)) as Hgone.
  { clear. intros order. induction order as [|k order IH]; intros s Hr Hu; [done|]. apply (IH (gcOne now bl ssl k s)); [by apply registry_gcOne|by apply gcOne_unregistered]. }
  assert (isExpiredLocked now bl ssl e = false → ∀ order s, registry_ok s → registered s p l e → registered (endpointGC now bl ssl order s) p l e) as Hstay.
  { intros Hx order0. induction order0 as [|k order0 IH]; intros s0 Hr0 Hreg0; [done|]. apply (IH (gcOne now bl ssl k s0)); [by apply registry_gcOne|].
    destruct (decide (k = p)) as [->|Hne]; [|by apply gcOne_registered]. pose proof (gcOne_own _ _ _ _ Hr0 Hreg0) as Hown. rewrite Hx in Hown. by rewrite Hown. }
  split; [by auto|]. intros Hx. apply not_false_iff_true in Hx. clear Hstay. revert s Hr Hreg Hin. induction order as [|k order IH]; intros s Hr Hreg Hin; [by apply not_elem_of_nil in Hin|].
  change (unregistered (endpointGC now bl ssl order (gcOne now bl ssl k s)) p (se_vni e) l (set_se_closed e)).
  destruct (decide (k = p)) as [->|Hne].
  - pose proof (gcOne_own _ _ _ _ Hr Hreg) as Hown. rewrite Hx in Hown. apply Hgone; [by apply registry_gcOne|done].
  - apply IH; [by apply registry_gcOne|by apply gcOne_registered|]. apply elem_of_cons in Hin as [->|Hin]; done.
Qed.

(** ** A key that crashes the relay

    The client keys of an allocation come from a peer's message.  [magicsock]
    checks that one of them is the peer's own; if the other is zero,
    [AllocateEndpoint] panics in [Shared]. *)
Theorem zero_key_panics a tnow s : registry_ok s → sv_closed s = false → getAllAddrPortsCopyLocked s ≠ [] → key_wf a → a ≠ discoPublic s → discoPublic s ≠ zeroKey →
  (∃ v, minVNI <= v <= maxVNI ∧ serverEndpointByVNI s !! v = None) →
  (AllocateEndpoint a zeroKey tnow s).2 = Panic.
Proof.
  intros Hr Hc Hap Hka Ha Hz (v & Hv & Hfree). unfold AllocateEndpoint. rewrite Hc.
  assert ((zlen (staticAddrPorts s) =? 0) && (zlen (dynamicAddrPorts s) =? 0) = false) as ->.
  { apply not_true_iff_false. intros [H1%Z.eqb_eq H2%Z.eqb_eq]%andb_true_iff. apply Hap. unfold getAllAddrPortsCopyLocked, zlen in *.
    destruct (staticAddrPorts s); [|cbn in H1; lia]. destruct (dynamicAddrPorts s); [done|cbn in H2; lia]. }
  rewrite !(bool_decide_false) by (rewrite bytes_Compare_eq; done). cbn [orb].
  set (pair := NewSortedPairOfDiscoPublic a zeroKey). assert (pair.1 = zeroKey ∨ pair.2 = zeroKey) as Hpair.
  { unfold pair, NewSortedPairOfDiscoPublic. destruct (bytes_Compare a zeroKey); auto. }
  assert (∀ l e, serverEndpointByDisco s !! pair = Some l → endpoints s !! l = Some e → False) as Hno.
  { intros l e Hl He. destruct (reg_disco _ Hr _ _ Hl) as (e1 & He1 & Hk & _). assert (e1 = e) as -> by congruence.
    destruct (reg_endpoint _ Hr _ _ He) as (_ & _ & Hs0 & Hs1). unfold DiscoPrivate_Shared in Hs0, Hs1. rewrite Hk in Hs0, Hs1.
    destruct Hpair as [Hp|Hp]; cbn [at2 Z.eqb] in *; [rewrite Hp in Hs0; revert Hs0|rewrite Hp in Hs1; revert Hs1];
      rewrite (bool_decide_true (zeroKey = zeroKey)), orb_true_r by done; done. }
  destruct (l ← serverEndpointByDisco s !! pair; endpoints s !! l) as [e|] eqn:He.
  { destruct (serverEndpointByDisco s !! pair) as [l|] eqn:Hl; [|done]. cbn [mbind option_bind] in He. exfalso. by eapply Hno. }
  destruct (getNextVNILocked s) as [s1 r] eqn:Hg. destruct (getNextVNILocked_finds_free _ _ _ (reg_next _ Hr) Hg) as [(vni & -> & _)|(er & _ & Hall)];
    [|by destruct (Hall v Hv)]. unfold DiscoPrivate_Shared.
  destruct Hpair as [-> | ->]; rewrite (bool_decide_true (zeroKey = zeroKey)), orb_true_r by done; [done|]. by destruct (_ || _).
Qed.
End Collection.
