(* ===== verification/UdpRelayToy.v ===== *)
(** * net/udprelay: a session, run

    An executable form of the steps of the relay, toy cryptography that has the
    laws, and a session of two clients: the witnesses of the theorems. *)
From S2P Require Import Stun.
From S2P Require Import Prelude GoStrings NetBuf NetAddr PacketHeaders PacketTsmp Disco UdpRelay UdpRelayInv UdpRelaySafe UdpRelaySession UdpRelayRuns.

(** ** Steps, executed *)
Inductive action :=
  | AAlloc (a b : bytes) (now : Z)
  | ARecv (from : AddrPort) (b : bytes)
  | AReady (i : nat) (now : Z) (fresh : bytes)
  | ARun (i : nat) (nonce : bytes)
  | AStatic (l : list AddrPort).

Definition ap_okb (a : AddrPort) : bool :=
  match ap_Addr a with
  | AddrZero => false
  | Addr4 v => (0 <=? v) && (v <? 2 ^ 32)
  | Addr6 v _ => (0 <=? v) && (v <? 2 ^ 128)
  end && (0 <=? ap_Port a) && (ap_Port a <? 2 ^ 16).

Lemma ap_okb_ok a : ap_okb a = true → ap_ok a.
Proof. unfold ap_okb, ap_ok. destruct a as [[|v|v z] p]; cbn -[Z.pow]; [done|..]; rewrite !andb_true_iff; intros [[? ?] ?]; split_and!; try done; lia. Qed.

Section Execute.
Context `{DiscoCrypto}.

Definition exec (act : action) (S : System) : option (event * System) :=
  let s := sys_server S in let jobs := sys_jobs S in
  match act with
  | AAlloc a b now =>
      if negb ((zlen a =? 32) && (zlen b =? 32)) then None else
      match AllocateEndpoint a b now s with
      | (s', Ok _) | (s', Err _) => Some (Tau, mkSystem s' jobs)
      | _ => None
      end
  | ARecv from b =>
      if negb (ap_okb from) then None else
      match lookupPacket b s with
      | Ok found => Some (Recv from b, mkSystem s (match found with Some (gh, l) => jobs ++ [Loaded from b gh l] | None => jobs end))
      | _ => None
      end
  | AReady i now fresh =>
      match jobs !! i with
      | Some (Loaded from b gh l) =>
          let '(s', secrets) := packetSecrets gh now fresh s in
          Some (if bool_decide (macSecrets s' = macSecrets s) then Tau else Drew fresh, mkSystem s' (<[i := Ready from b gh l secrets now]> jobs))
      | _ => None
      end
  | ARun i nonce =>
      match jobs !! i with
      | Some (Ready from b gh l secrets now) =>
          match runEndpoint from b gh l secrets now nonce s with
          | Ok (s', out) => Some (Sent from b out (negb (gh_Control gh)), mkSystem s' (delete i jobs))
          | _ => None
          end
      | _ => None
      end
  | AStatic l => Some (Tau, mkSystem (SetStaticAddrPorts l s) jobs)
  end.

Lemma exec_step act S ev S' : exec act S = Some (ev, S') → step S ev S'.
Proof.
  destruct S as [s jobs]. unfold exec. cbn [sys_server sys_jobs]. destruct act as [a b now|from b|i now fresh|i nonce|l].
  - destruct ((zlen a =? 32) && (zlen b =? 32)) eqn:Hk; cbn [negb]; [|done]. apply andb_true_iff in Hk as [Ha%Z.eqb_eq Hb%Z.eqb_eq].
    destruct (AllocateEndpoint a b now s) as [s' [se|e| |]] eqn:Hal; [| |done|done]; intros [= <- <-];
      (eapply step_alloc; [exact Ha|exact Hb|exact Hal|done|done]).
  - destruct (ap_okb from) eqn:Hf; cbn [negb]; [|done]. apply ap_okb_ok in Hf. destruct (lookupPacket b s) as [found|e| |] eqn:Hl; [|done..].
    intros [= <- <-]. by apply step_recv.
  - destruct (jobs !! i) as [[from b gh l|]|] eqn:Hi; [|done..]. destruct (packetSecrets gh now fresh s) as [s' secrets] eqn:Hp. intros [= <- <-]. by eapply step_ready.
  - destruct (jobs !! i) as [[|from b gh l secrets now]|] eqn:Hi; [done| |done]. destruct (runEndpoint from b gh l secrets now nonce s) as [[s' out]|e| |] eqn:Hr; [|done..].
    intros [= <- <-]. by eapply step_run.
  - intros [= <- <-]. constructor.
Qed.

Fixpoint execs (acts : list action) (S : System) : option (list event * System) :=
  match acts with
  | [] => Some ([], S)
  | act :: acts => '(ev, S) ← exec act S; '(evs, S) ← execs acts S; Some (ev :: evs, S)
  end.

Lemma execs_run disco tr S acts evs S' : run disco tr S → execs acts S = Some (evs, S') → run disco (tr ++ evs) S'.
Proof.
  revert tr S evs. induction acts as [|act acts IH]; intros tr S evs Hrun; cbn [execs]; [intros Heq; injection Heq as <- <-; rewrite app_nil_r; exact Hrun|].
  destruct (exec act S) as [[ev S1]|] eqn:He; cbn [mbind option_bind]; [|done]. destruct (execs acts S1) as [[evs1 S2]|] eqn:Hes; cbn [mbind option_bind]; [|done].
  intros [= <- <-]. change (ev :: evs1) with ([ev] ++ evs1). rewrite app_assoc. eapply IH; [|exact Hes]. eapply run_step; [exact Hrun|by apply (exec_step act)].
Qed.
End Execute.

(** ** Toy cryptography: a public key is its private key, padded; a shared key the
    sum of the two; a box carries the key; a MAC is the code of what it is made of. *)
Definition pad (n : nat) (k : bytes) : bytes := take n (k ++ replicate n 0).
#[local] Instance Toy : DiscoCrypto := {|
  ScalarBaseMult := pad 32;
  box_Precompute p k := zip_with Z.add p (pad 32 k);
  SealAfterPrecomputation m n k := m ++ pad 16 k;
  OpenAfterPrecomputation c n k := let l := (length c - 16)%nat in if decide (drop l c = pad 16 k) then Some (take l c) else None;
  blake2s_256 k x := Zpos (encode (k, x)) :: replicate 31 0
|}.

Lemma pad_length n k : length (pad n k) = n.
Proof. unfold pad. rewrite length_take, length_app, length_replicate. lia. Qed.

#[local] Instance Toy_laws : DiscoCryptoLaws.
Proof.
  split; cbn.
  - intros a b. revert b. generalize (pad 32 a). clear a. intros l b. generalize (pad 32 b). clear b. intros l'. revert l'.
    induction l as [|x l IH]; intros [|y l']; cbn; [done..|]. by rewrite IH, Z.add_comm.
  - intros m n k. rewrite length_app, pad_length. replace (length m + 16 - 16)%nat with (length m) by lia.
    rewrite drop_app_length, decide_True by done. by rewrite take_app_length.
  - intros a. unfold zlen. by rewrite pad_length.
  - done.
Qed.

Lemma Toy_mac_inj k k' a a' c c' : blakeMACFromBindMsg k a c = blakeMACFromBindMsg k' a' c' → macInput a c = macInput a' c'.
Proof. unfold blakeMACFromBindMsg. cbn [blake2s_256 Toy]. intros Heq. injection Heq as Heq%(inj encode). exact (f_equal snd Heq). Qed.

(** ** The session *)
Definition toyAlice : bytes := [1].
Definition toyBob : bytes := [2].
Definition aliceAddr : AddrPort := AddrPortFrom (ip4 198 51 100 1) 41641.
Definition bobAddr : AddrPort := AddrPortFrom (ip4 203 0 113 7) 7777.
Definition toyServer : Server := match NewServer [7] with Ok s => s | _ => mkServer [] [] 0 0 registerMetrics [] 0 [] [] false 0 0 ∅ ∅ [] end.
Definition listening : Server := SetStaticAddrPorts [AddrPortFrom (ip4 192 0 2 1) 3478] toyServer.
Definition allocated : Server * res ServerEndpoint := AllocateEndpoint (ScalarBaseMult toyAlice) (ScalarBaseMult toyBob) 1000 listening.
Definition toyEndpoint : ServerEndpoint := match allocated.2 with Ok se => se | _ => mkServerEndpoint [] ([], []) 0 [] 0 0 0 end.
Definition toyEnv : Environment := mkEnvironment (λ k, 2000 + Z.of_nat k) (λ k, [100 + Z.of_nat k]) (λ k, replicate 24 (Z.of_nat k)) (λ k, replicate 24 (Z.of_nat k)).

Lemma listening_run : run [7] [Tau] (mkSystem listening []).
Proof. apply (run_step [7] [] (mkSystem toyServer [])); [by apply run_new|constructor]. Qed.

Lemma relay_session_established_witness :
  ∃ s1 s2, handshake toyEnv 0 toyAlice aliceAddr (ServerDisco toyEndpoint) (VNI toyEndpoint) 5 (ScalarBaseMult toyBob) allocated.1 s1 ∧
    handshake toyEnv 2 toyBob bobAddr (ServerDisco toyEndpoint) (VNI toyEndpoint) 6 (ScalarBaseMult toyAlice) s1 s2 ∧
    is_Some (serverEndpointByVNI s2 !! VNI toyEndpoint) ∧
    ∀ tr' S', steps (mkSystem s2 []) tr' S' →
      (∀ j, j ∈ [] → ¬ answers_elsewhere s2 (VNI toyEndpoint) (job_from j) (job_bytes j)) →
      (∀ from d, Recv from d ∈ tr' → ¬ answers_elsewhere s2 (VNI toyEndpoint) from d) →
      serverEndpointByVNI (sys_server S') !! VNI toyEndpoint = serverEndpointByVNI s2 !! VNI toyEndpoint →
      ∀ k proto payload, 0 <= proto < 2 ^ 16 → let d := geneve_bytes false proto (VNI toyEndpoint) ++ payload in
        (∃ s3, handleNth toyEnv k aliceAddr d (sys_server S') = Ok (s3, (d, bobAddr), true)) ∧ (∃ s3, handleNth toyEnv k bobAddr d (sys_server S') = Ok (s3, (d, aliceAddr), true)).
Proof.
  apply (relay_session_established [7] [Tau] (mkSystem listening []) toyAlice toyBob 1000 allocated.1 toyEndpoint aliceAddr bobAddr 5 6 toyEnv);
    [exact listening_run|vm_compute; reflexivity|intros Hx; vm_compute in Hx; discriminate Hx ..|apply ap_okb_ok; reflexivity|apply ap_okb_ok; reflexivity
    |intros Hx; discriminate Hx|lia|lia|intros k; split; reflexivity].
Defined.

(** The same session, step by step: bind and answer of both clients, and a data packet. *)
Definition toyCell : serverEndpoint :=
  match endpoints allocated.1 with e :: _ => e | [] => mkSE ([], []) ([], []) 0 0 0 false (0, 0) (zeroAddrPort, zeroAddrPort) (0, 0) (0, 0) (0, 0) end.
Definition toySecret : bytes := [100].
Definition toyNonce : bytes := replicate 24 9.
Definition toyPacket (priv : bytes) (m : Message) : bytes := client_datagram priv (ServerDisco toyEndpoint) (VNI toyEndpoint) toyNonce m.
Definition aliceBinds : bytes := toyPacket toyAlice (MBindUDPRelayEndpoint (mkBind (VNI toyEndpoint) 5 (ScalarBaseMult toyBob) zeroKey)).
Definition bobBinds : bytes := toyPacket toyBob (MBindUDPRelayEndpoint (mkBind (VNI toyEndpoint) 6 (ScalarBaseMult toyAlice) zeroKey)).
Definition aliceAnswer : BindUDPRelayEndpointCommon := challengeMsg toyCell 1 5 aliceAddr toySecret.
Definition bobAnswer : BindUDPRelayEndpointCommon := challengeMsg toyCell 0 6 bobAddr toySecret.
Definition aliceAnswers : bytes := toyPacket toyAlice (MBindUDPRelayEndpointAnswer aliceAnswer).
Definition bobAnswers : bytes := toyPacket toyBob (MBindUDPRelayEndpointAnswer bobAnswer).
Definition aliceData : bytes := geneve_bytes false 0x7A12 (VNI toyEndpoint) ++ [104; 105].

Definition handled (from : AddrPort) (b : bytes) (now : Z) : list action := [ARecv from b; AReady 0 now toySecret; ARun 0 toyNonce].
Definition sessionActions : list action :=
  [AAlloc (ScalarBaseMult toyAlice) (ScalarBaseMult toyBob) 1000] ++
  handled aliceAddr aliceBinds 2000 ++ handled aliceAddr aliceAnswers 2001 ++ handled bobAddr bobBinds 2002 ++ handled bobAddr bobAnswers 2003 ++
  [ARecv aliceAddr aliceData; AReady 0 2004 toySecret].
Definition session : list event * System :=
  match execs sessionActions (mkSystem listening []) with Some (evs, T) => (Tau :: evs, T) | None => ([], mkSystem listening []) end.
Definition sessionEnd : System :=
  match exec (ARun 0 toyNonce) session.2 with Some (_, T) => T | None => mkSystem listening [] end.

Lemma session_run : run [7] session.1 session.2.
Proof.
  unfold session. destruct (execs sessionActions (mkSystem listening [])) as [[evs T]|] eqn:He.
  - exact (execs_run [7] [Tau] _ _ _ _ listening_run He).
  - vm_compute in He. discriminate He.
Qed.

Lemma session_step : step session.2 (Sent aliceAddr aliceData (aliceData, bobAddr) true) sessionEnd.
Proof.
  apply (exec_step (ARun 0 toyNonce)). vm_compute. reflexivity.
Qed.

(** The answer in a datagram, if it is one. *)
Definition read_answer (e : serverEndpoint) (i : Z) (b : bytes) : option BindUDPRelayEndpointCommon :=
  match slice_from b GeneveFixedHeaderLength with
  | Ok msg =>
      match Source msg, slice_from msg (zlen Magic + DiscoPublicRawLen) with
      | Ok (Some k), Ok sealed =>
          if bool_decide (k = at2 i (discoPubKeys e)) then
            match DiscoShared_Open (at2 i (discoSharedSecrets e)) sealed with
            | Ok (Some payload) => match Parse payload with Ok (MBindUDPRelayEndpointAnswer c) => Some c | _ => None end
            | _ => None
            end
          else None
      | _, _ => None
      end
  | _ => None
  end.

Lemma read_answer_complete e i b c : control_datagram e i b (MBindUDPRelayEndpointAnswer c) → (i = 0 ∨ i = 1) ∧ read_answer e i b = Some c.
Proof.
  intros (gh & msg & _ & _ & _ & Hm & Hi & Hsrc & sealed & payload & Hsl & Hop & Hp). split; [done|]. unfold read_answer.
  rewrite Hm, Hsrc, Hsl, bool_decide_true by done. by rewrite Hop, Hp.
Qed.

Definition boundCell : serverEndpoint := match endpoints (sys_server session.2) with e :: _ => e | [] => toyCell end.
Lemma session_endpoints e : e ∈ endpoints (sys_server session.2) ↔ e = boundCell.
Proof.
  assert (endpoints (sys_server session.2) = [boundCell]) as -> by (vm_compute; reflexivity). apply list_elem_of_singleton.
Qed.

Definition sentAt (n : nat) : bytes := match session.1 !! n with Some (Sent _ _ (w, _) _) => w | _ => [] end.

Lemma session_challenge n m from b i gen mac :
  session.1 !! m = Some (Sent from b (sentAt m, from) false) → session.1 !! 3%nat = Some (Drew toySecret) → (3 < n)%nat → (m < n)%nat →
  challenge_datagram (discoPublic (sys_server session.2)) boundCell i gen from toySecret toyNonce (sentAt m) →
  mac = bind_Challenge (challengeMsg boundCell (other i) gen from toySecret) →
  challenge_sent (take n session.1) (sys_server session.2) boundCell i from mac.
Proof.
  intros Hs Hd Hn Hm Hc ->. exists b, (sentAt m), gen, toySecret, toyNonce. split_and!; [|done| |done].
  - apply (list_elem_of_lookup_2 _ m). by rewrite lookup_take_lt.
  - apply (list_elem_of_lookup_2 _ 3%nat). by rewrite lookup_take_lt.
Qed.

Lemma session_unforged : unforged session.1 (sys_server session.2).
Proof.
  intros tr1 a b tr2 e i c k Htr He%session_endpoints Hcd _ _. subst e. apply read_answer_complete in Hcd as [Hi Hc].
  assert (session.1 !! length tr1 = Some (Recv a b)) as Hn by (rewrite Htr; by apply list_lookup_middle).
  assert (tr1 = take (length tr1) session.1) as Htake by (by rewrite Htr, take_app_length). rewrite Htake. clear Htr tr2 Htake. revert Hn. generalize (length tr1). clear tr1. intros n Hn.
  assert (n = 5%nat ∧ a = aliceAddr ∧ i = 0 ∧ c = aliceAnswer ∨ n = 11%nat ∧ a = bobAddr ∧ i = 1 ∧ c = bobAnswer) as Hcases.
  { do 16 (destruct n as [|n]; [vm_compute in Hn; try discriminate Hn; injection Hn as <- <-; destruct Hi as [-> | ->]; vm_compute in Hc; try discriminate Hc;
      injection Hc as <-; (left + right); split_and!; vm_compute; reflexivity|]). vm_compute in Hn. discriminate Hn. }
  exists a, boundCell. destruct Hcases as [(-> & -> & -> & ->)|(-> & -> & -> & ->)]; [exists 0|exists 1]; (split; [by apply session_endpoints|]); (split; [auto|]).
  - apply (session_challenge 5 4 aliceAddr aliceBinds 0 5); [vm_compute; reflexivity|vm_compute; reflexivity|lia|lia| |vm_compute; reflexivity].
    eexists _, _. split_and!; [vm_compute; reflexivity|vm_compute; reflexivity|vm_compute; reflexivity].
  - apply (session_challenge 11 10 bobAddr bobBinds 1 6); [vm_compute; reflexivity|vm_compute; reflexivity|lia|lia| |vm_compute; reflexivity].
    eexists _, _. split_and!; [vm_compute; reflexivity|vm_compute; reflexivity|vm_compute; reflexivity].
Qed.


Lemma relay_registry_consistent_witness :
  let s := sys_server session.2 in
  (∀ p l, serverEndpointByDisco s !! p = Some l → ∃ e, endpoints s !! l = Some e ∧ discoPubKeys e = p ∧ se_closed e = false ∧
     minVNI <= se_vni e <= maxVNI ∧ serverEndpointByVNI s !! se_vni e = Some l) ∧
  (∀ v l, serverEndpointByVNI s !! v = Some l → ∃ e, endpoints s !! l = Some e ∧ se_vni e = v ∧ serverEndpointByDisco s !! discoPubKeys e = Some l) ∧
  (∀ p p' l l' e e', serverEndpointByDisco s !! p = Some l → serverEndpointByDisco s !! p' = Some l' →
     endpoints s !! l = Some e → endpoints s !! l' = Some e' → se_vni e = se_vni e' → p = p') ∧
  (sv_closed s = false → ∀ l e, endpoints s !! l = Some e → se_closed e = false → serverEndpointByDisco s !! discoPubKeys e = Some l) ∧
  g_connecting (sv_metrics s) = count_state endpointConnecting (endpoints s) ∧ g_open (sv_metrics s) = count_state endpointOpen (endpoints s) ∧
  (∀ l l' e e', endpoints s !! l = Some e → endpoints s !! l' = Some e' → (l < l')%nat → se_lamportID e < se_lamportID e').
Proof. apply (relay_registry_consistent [7] session.1 session.2 session_run). vm_compute. reflexivity. Defined.

Lemma relay_survives_any_datagram_witness :
  (∀ b, ∃ found, lookupPacket b (sys_server session.2) = Ok found) ∧
  (∀ i from b gh l secrets now nonce, sys_jobs session.2 !! i = Some (Ready from b gh l secrets now) →
     ∃ s' out, runEndpoint from b gh l secrets now nonce (sys_server session.2) = Ok (s', out)).
Proof.
  apply (relay_survives_any_datagram [7] session.1 session.2 session_run). intros e ->%session_endpoints. split; intros Hx; vm_compute in Hx; discriminate Hx.
Defined.

Lemma challenge_lifetime_witness :
  [1] ∈ macSecrets (rotations [(2 * Second, [2]); (119 * Second, [3])] (getMACSecrets Second [1] listening).1).
Proof.
  apply (challenge_lifetime Second [1] listening [1] [(2 * Second, [2]); (119 * Second, [3])]).
  - vm_compute. split; reflexivity.
  - vm_compute. reflexivity.
  - repeat constructor; vm_compute; congruence.
Defined.

(** One of the keys of an allocation is zero. *)
Example zero_key_panics_example : (AllocateEndpoint (ScalarBaseMult toyAlice) zeroKey 1000 listening).2 = Panic.
Proof. vm_compute. reflexivity. Qed.
