(* ===== verification/UdpRelayService.v ===== *)
(** * The relay server's life, and its reader

    [feature/relayserver/relayserver.go]: when the node runs a relay server, and
    what it answers to requests for endpoints; and the body of the loop that
    reads packets in batches ([net/udprelay], [packetReadLoop]). *)
From S2P Require Import Stun.
From S2P Require Import Prelude GoStrings NetBuf NetAddr PacketTsmp Disco UdpRelay UdpRelayInv.

(** ** The extension *)
Section Extension.
Context `{DiscoCrypto} {DERPMap : Type}.

(** [rs] is the server and the map it was given. *)
Record extension := mkExtension {
  ext_shutdown : bool;
  rs : option (Server * DERPMap);
  ext_port : option Z;
  staticEndpoints : list AddrPort;
  derpMapView : DERPMap;
  hasNodeAttrDisableRelayServer : bool
}.
Definition set_rs (r : option (Server * DERPMap)) (e : extension) : extension :=
  mkExtension (ext_shutdown e) r (ext_port e) (staticEndpoints e) (derpMapView e) (hasNodeAttrDisableRelayServer e).

Definition relayServerShouldBeRunningLocked (e : extension) : bool :=
  negb (ext_shutdown e) && bool_decide (ext_port e ≠ None) && negb (hasNodeAttrDisableRelayServer e).
Definition stopRelayServerLocked (e : extension) : extension := set_rs None e.
(** [started]: what [newServerFn] returns *)
Definition tryStartRelayServerLocked (started : res Server) (e : extension) : extension :=
  match started with Ok s => set_rs (Some (s, derpMapView e)) e | _ => e end.
Definition handleRelayServerStaticAddrPortsLocked (e : extension) : extension :=
  match rs e with Some (s, d) => set_rs (Some (SetStaticAddrPorts (staticEndpoints e) s, d)) e | None => e end.
Definition handleRelayServerLifetimeLocked (started : res Server) (e : extension) : extension :=
  handleRelayServerStaticAddrPortsLocked
    (if negb (relayServerShouldBeRunningLocked e) then stopRelayServerLocked e
     else match rs e with Some _ => e | None => tryStartRelayServerLocked started e end).

Definition onDERPMapView (view : DERPMap) (e : extension) : extension :=
  mkExtension (ext_shutdown e) (match rs e with Some (s, _) => Some (s, view) | None => None end) (ext_port e) (staticEndpoints e) view (hasNodeAttrDisableRelayServer e).
Definition selfNodeViewChanged (disabled : bool) (started : res Server) (e : extension) : extension :=
  handleRelayServerLifetimeLocked started (mkExtension (ext_shutdown e) (rs e) (ext_port e) (staticEndpoints e) (derpMapView e) disabled).
Definition profileStateChanged (prefStatic : list AddrPort) (prefPort : option Z) (sameNode : bool) (started : res Server) (e : extension) : extension :=
  let e := mkExtension (ext_shutdown e) (rs e) (ext_port e) prefStatic (derpMapView e) (hasNodeAttrDisableRelayServer e) in
  let enableOrDisableServer := negb (eqb (bool_decide (prefPort ≠ None)) (bool_decide (ext_port e ≠ None))) in
  let portChanged := match prefPort, ext_port e with Some p, Some q => negb (p =? q) | _, _ => false end in
  let e := if enableOrDisableServer || portChanged || negb sameNode
           then mkExtension (ext_shutdown e) None prefPort (staticEndpoints e) (derpMapView e) (hasNodeAttrDisableRelayServer e) else e in
  handleRelayServerLifetimeLocked started e.
Definition Shutdown (e : extension) : extension :=
  stopRelayServerLocked (mkExtension true (rs e) (ext_port e) (staticEndpoints e) (derpMapView e) (hasNodeAttrDisableRelayServer e)).

(** The answer that is published, if any. *)
Definition allocResponse (gen : Z) (se : ServerEndpoint) : Message :=
  MAllocateUDPRelayEndpointResponse gen
    (mkRelay (ServerDisco se) (ClientDisco se) (LamportID se) (VNI se) (BindLifetime se) (SteadyStateLifetime se) (AddrPorts se)).
Definition onAllocReq (clients : bytes * bytes) (gen : Z) (now : Z) (started : res Server) (e : extension) : extension * res (option Message) :=
  if ext_shutdown e then (e, Ok None) else
  let e := match rs e with
           | Some _ => e
           | None => if negb (relayServerShouldBeRunningLocked e) then e else tryStartRelayServerLocked started e
           end in
  match rs e with
  | None => (e, Ok None)
  | Some (s, d) =>
      let '(s, r) := AllocateEndpoint clients.1 clients.2 now s in
      (set_rs (Some (s, d)) e, match r with Ok se => Ok (Some (allocResponse gen se)) | Err _ => Ok None | Panic => Panic | NoFuel => NoFuel end)
  end.

(** [GetSessions] is the status's list of sessions. *)
Definition serverStatus (e : extension) : option Z * list (Z * (ClientInfo * ClientInfo)) :=
  match rs e with None => (None, []) | Some (s, _) => (ext_port e, GetSessions s) end.

(** What happens to an extension; a running server also changes by itself. *)
Inductive ext_event :=
  | OnDERPMap (view : DERPMap)
  | OnAlloc (clients : bytes * bytes) (gen now : Z) (started : res Server)
  | OnSelf (disabled : bool) (started : res Server)
  | OnProfile (prefStatic : list AddrPort) (prefPort : option Z) (sameNode : bool) (started : res Server)
  | OnShutdown
  | OnServer (s : Server).
Definition ext_run (ev : ext_event) (e : extension) : extension :=
  match ev with
  | OnDERPMap view => onDERPMapView view e
  | OnAlloc clients gen now started => (onAllocReq clients gen now started e).1
  | OnSelf disabled started => selfNodeViewChanged disabled started e
  | OnProfile st p same started => profileStateChanged st p same started e
  | OnShutdown => Shutdown e
  | OnServer s => match rs e with Some (_, d) => set_rs (Some (s, d)) e | None => e end
  end.
Definition newExtension (d : DERPMap) : extension := mkExtension false None None [] d false.

Definition allowed (e : extension) : Prop := rs e ≠ None → relayServerShouldBeRunningLocked e = true.

Lemma lifetime_allowed started e : allowed (handleRelayServerLifetimeLocked started e).
Proof.
  unfold handleRelayServerLifetimeLocked. destruct (relayServerShouldBeRunningLocked e) eqn:Hr; cbn [negb].
  - assert (∀ e', relayServerShouldBeRunningLocked e' = true → allowed (handleRelayServerStaticAddrPortsLocked e')) as Hst.
    { intros e' He' _. unfold handleRelayServerStaticAddrPortsLocked. destruct (rs e') as [[s d]|]; done. }
    destruct (rs e); [by apply Hst|]. destruct started; by apply Hst.
  - intros Hn. by destruct Hn.
Qed.

Lemma ext_run_allowed ev e : allowed e → allowed (ext_run ev e).
Proof.
  intros Ha. destruct ev as [view|clients gen now started|disabled started|st p same started| |s]; cbn [ext_run].
  - unfold allowed, onDERPMapView in *. cbn [rs]. intros Hn. apply Ha. by destruct (rs e).
  - unfold onAllocReq. destruct (ext_shutdown e) eqn:Hs; [done|].
    assert (∀ e', allowed e' → allowed (match rs e' with None => (e', Ok None) | Some (s, d) =>
        let '(s, r) := AllocateEndpoint clients.1 clients.2 now s in
        (set_rs (Some (s, d)) e', match r with Ok se => Ok (Some (allocResponse gen se)) | Err _ => Ok None | Panic => Panic | NoFuel => NoFuel end) end).1) as Hfin.
    { intros e' He'. destruct (rs e') as [[s d]|] eqn:Hrs; [|done]. destruct (AllocateEndpoint _ _ _ _) as [s' r]. intros _. apply He'. by rewrite Hrs. }
    apply Hfin. destruct (rs e) eqn:Hrs; [done|]. destruct (relayServerShouldBeRunningLocked e) eqn:Hr; cbn [negb]; [|done].
    intros _. by destruct started.
  - apply lifetime_allowed.
  - apply lifetime_allowed.
  - intros Hn. by destruct Hn.
  - destruct (rs e) as [[s0 d]|] eqn:Hrs; [|done]. intros _. apply Ha. by rewrite Hrs.
Qed.

(** The relay server runs only while the node has a port set for it, the control
    server has not disabled it, and the extension was not shut down; and a change
    of the profile or of the node's attributes starts it whenever it should run,
    unless that fails, with the configured endpoints. *)
Theorem relay_runs_only_when_enabled evs d started disabled e :
  e = foldl (λ e ev, ext_run ev e) (newExtension d) evs →
  (rs e ≠ None → ext_shutdown e = false ∧ ext_port e ≠ None ∧ hasNodeAttrDisableRelayServer e = false) ∧
  (let e' := selfNodeViewChanged disabled (Ok started) e in
   relayServerShouldBeRunningLocked e' = true → ∃ s m, rs e' = Some (s, m) ∧ staticAddrPorts s = staticEndpoints e').
Proof.
  intros ->. split.
  - assert (∀ e, allowed e → allowed (foldl (λ e ev, ext_run ev e) e evs)) as Hall.
    { induction evs as [|ev evs IH]; intros e He; [done|]. by apply IH, ext_run_allowed. }
    intros Hn. specialize (Hall (newExtension d)). assert (allowed (newExtension d)) as Hnew by (intros Hx; by destruct Hx). specialize (Hall Hnew Hn). unfold relayServerShouldBeRunningLocked in Hall.
    apply andb_true_iff in Hall as [[Hs%negb_true_iff Hp%bool_decide_eq_true]%andb_true_iff Hd%negb_true_iff]. done.
  - generalize (foldl (λ e ev, ext_run ev e) (newExtension d) evs). intros e. unfold selfNodeViewChanged, handleRelayServerLifetimeLocked.
    set (e1 := mkExtension _ _ _ _ _ disabled). cbn zeta. destruct (relayServerShouldBeRunningLocked e1) eqn:Hr; cbn [negb].
    + intros _. unfold handleRelayServerStaticAddrPortsLocked. destruct (rs e1) as [[s m]|] eqn:Hrs; [rewrite Hrs|]; cbn; eauto.
    + cbn [handleRelayServerStaticAddrPortsLocked stopRelayServerLocked rs set_rs]. intros Hx. change (relayServerShouldBeRunningLocked e1 = true) in Hx. congruence.
Qed.

(** A server that is started for a request does not get the configured endpoints:
    [onAllocReq] starts it without [handleRelayServerStaticAddrPortsLocked]. *)
Theorem requested_server_lacks_static_endpoints clients gen now s e s' d :
  rs e = None → relayServerShouldBeRunningLocked e = true → staticAddrPorts s = [] → dynamicAddrPorts s = [] →
  rs (onAllocReq clients gen now (Ok s) e).1 = Some (s', d) → staticAddrPorts s' = [] ∧ (onAllocReq clients gen now (Ok s) e).2 = Ok None.
Proof.
  intros Hrs Hr Hst Hdy. unfold onAllocReq. destruct (ext_shutdown e) eqn:Hsh; [by (unfold relayServerShouldBeRunningLocked in Hr; rewrite Hsh in Hr)|].
  rewrite Hrs, Hr. cbn [negb tryStartRelayServerLocked rs set_rs]. unfold AllocateEndpoint. rewrite Hst, Hdy. destruct (sv_closed s); cbn; by intros [= <- _].
Qed.
End Extension.
Arguments extension DERPMap : clear implicits.

(** ** Reading in batches: [packetReadLoop] *)
#[global] Instance AddrPort_countable : Countable AddrPort.
Proof. by apply (inj_countable' (λ a, (ap_Addr a, ap_Port a)) (λ '(a, p), AddrPortFrom a p)); intros []. Defined.

Section Reader.
Context `{DiscoCrypto}.

(** A message, with the time, the random secret and the nonce of its handling. *)
Abbreviation message := (AddrPort * bytes * (Z * bytes * bytes))%type.
(** The server, [writeBuffsByDest], and packets and bytes forwarded, by family. *)
Abbreviation batch := (Server * gmap AddrPort (list bytes) * (Z * Z) * (Z * Z))%type.

Definition batchStep (hasOther : bool) (acc : batch) (msg : message) : res batch :=
  let '(s, buffsByDest, fwd4, fwd6) := acc in
  let '(from, buf, (now, fresh, nonce)) := msg in
  if zlen buf =? 0 then Ok acc else
  '(s, (write, to), isDataPacket) ← handlePacket from buf now fresh nonce s;
  if negb (ap_IsValid to) then Ok (s, buffsByDest, fwd4, fwd6) else
  let fwd4 := if isDataPacket && Is4 (ap_Addr to) then addForwarded (zlen write) 1 fwd4 else fwd4 in
  let fwd6 := if isDataPacket && negb (Is4 (ap_Addr to)) then addForwarded (zlen write) 1 fwd6 else fwd6 in
  if eqb (Is4 (ap_Addr from)) (Is4 (ap_Addr to)) || hasOther
  then Ok (s, <[to := default [] (buffsByDest !! to) ++ [write]]> buffsByDest, fwd4, fwd6)
  else Ok (s, buffsByDest, fwd4, fwd6).

(** A write goes to the socket that was read from ([true]) or to the other; a write
    to the other socket when there is none panics. *)
Fixpoint batchWrites (readFromSocketIsIPv4 hasOther : bool) (l : list (AddrPort * list bytes)) : res (list (bool * AddrPort * list bytes)) :=
  match l with
  | [] => Ok []
  | (dest, buffs) :: l =>
      let own := eqb (Is4 (ap_Addr dest)) readFromSocketIsIPv4 in
      if negb own && negb hasOther then Panic else
      ws ← batchWrites readFromSocketIsIPv4 hasOther l;
      Ok ((own, dest, buffs) :: ws)
  end.

(** One round of the loop, after [ReadBatch]. *)
Definition readBatch (readFromSocketIsIPv4 hasOther : bool) (msgs : list message) (s : Server) : res (Server * list (bool * AddrPort * list bytes)) :=
  '(s, buffsByDest, fwd4, fwd6) ← foldM (batchStep hasOther) (s, ∅, (0, 0), (0, 0)) msgs;
  writes ← batchWrites readFromSocketIsIPv4 hasOther (map_to_list buffsByDest);
  let m := countForwarded readFromSocketIsIPv4 true fwd4.2 fwd4.1 (sv_metrics s) in
  let m := countForwarded readFromSocketIsIPv4 false fwd6.2 fwd6.1 m in
  Ok (set_metrics m s, writes).

(** The packets of a batch, handled one after the other. *)
Fixpoint handleAll (msgs : list message) (s : Server) : res (Server * list (AddrPort * output)) :=
  match msgs with
  | [] => Ok (s, [])
  | (from, buf, (now, fresh, nonce)) :: msgs =>
      if zlen buf =? 0 then handleAll msgs s else
      '(s, out, _) ← handlePacket from buf now fresh nonce s;
      '(s, outs) ← handleAll msgs s;
      Ok (s, (from, out) :: outs)
  end.

(** What is to be written to a destination, in order. *)
Definition sendable (hasOther : bool) (dest : AddrPort) (x : AddrPort * output) : option bytes :=
  let '(from, (write, to)) := x in
  if bool_decide (to = dest) && ap_IsValid to && (eqb (Is4 (ap_Addr from)) (Is4 (ap_Addr to)) || hasOther) then Some write else None.
Definition writes_to (hasOther : bool) (dest : AddrPort) (outs : list (AddrPort * output)) : list bytes := omap (sendable hasOther dest) outs.

Lemma batchStep_handleAll hasOther msgs s by_dest f4 f6 s' outs :
  handleAll msgs s = Ok (s', outs) → ∃ by_dest' f4' f6', foldM (batchStep hasOther) (s, by_dest, f4, f6) msgs = Ok (s', by_dest', f4', f6') ∧
    ∀ dest, by_dest' !! dest = match by_dest !! dest, writes_to hasOther dest outs with
                              | None, [] => None
                              | o, ws => Some (default [] o ++ ws)
                              end.
Proof.
  revert s by_dest f4 f6 s' outs. induction msgs as [|[[from buf] [[now fresh] nonce]] msgs IH]; intros s by_dest f4 f6 s' outs; cbn [handleAll foldM].
  - intros [= <- <-]. exists by_dest, f4, f6. split; [done|]. intros dest. cbn. destruct (by_dest !! dest); cbn; by rewrite ?app_nil_r.
  - destruct (zlen buf =? 0) eqn:Hz.
    + intros Hh. unfold batchStep at 2. cbn beta iota. rewrite Hz. cbn [mbind res_bind]. by apply IH.
    + intros ([[s1 out] d] & Hp & Hr)%bind_Ok. apply bind_Ok in Hr as ([s2 outs'] & Hall & [= <- <-]). destruct out as [write to].
      unfold batchStep at 2. cbn beta iota. rewrite Hz, Hp. cbn [mbind res_bind].
      destruct (ap_IsValid to) eqn:Hv; cbn [negb].
      2:{ cbn [mbind res_bind]. destruct (IH _ by_dest f4 f6 _ _ Hall) as (bd & g4 & g6 & -> & Hbd). exists bd, g4, g6. split; [done|]. intros dest. rewrite Hbd. unfold writes_to. cbn [omap list_omap sendable].
          by rewrite Hv, andb_false_r. }
      destruct (eqb _ _ || hasOther) eqn:Hs.
      2:{ cbn [mbind res_bind]. match goal with |- context [foldM _ (s1, by_dest, ?a, ?b) msgs] => destruct (IH _ by_dest a b _ _ Hall) as (bd & g4 & g6 & -> & Hbd) end. exists bd, g4, g6. split; [done|]. intros dest. rewrite Hbd. unfold writes_to. cbn [omap list_omap sendable].
          by rewrite Hs, andb_false_r. }
      cbn [mbind res_bind]. match goal with |- context [foldM _ (s1, ?m, ?a, ?b) msgs] => destruct (IH _ m a b _ _ Hall) as (bd & g4 & g6 & -> & Hbd) end. exists bd, g4, g6. split; [done|].
      intros dest. rewrite Hbd. unfold writes_to. cbn [omap list_omap sendable]. rewrite Hv, Hs, !andb_true_r. destruct (bool_decide_reflect (to = dest)) as [->|Hne].
      * rewrite lookup_insert_eq. destruct (by_dest !! dest); cbn; by rewrite <- ?app_assoc.
      * by rewrite lookup_insert_ne.
Qed.

Lemma batchWrites_Ok is4 hasOther l : (∀ dest buffs, (dest, buffs) ∈ l → Is4 (ap_Addr dest) = is4 ∨ hasOther = true) →
  batchWrites is4 hasOther l = Ok ((λ '(dest, buffs), (eqb (Is4 (ap_Addr dest)) is4, dest, buffs)) <$> l).
Proof.
  induction l as [|[dest buffs] l IH]; intros Hl; [done|]. cbn [batchWrites fmap list_fmap]. rewrite IH by (intros d b Hd; apply (Hl d b); by right).
  assert (negb (eqb (Is4 (ap_Addr dest)) is4) && negb hasOther = false) as ->; [|done].
  destruct (Hl dest buffs ltac:(by left)) as [-> | ->]; [by rewrite eqb_reflx|by rewrite andb_false_r].
Qed.

(** A batch of packets is answered like the packets one after the other: every
    destination gets, in their order, exactly the datagrams that handling the
    packets in turn produces for it, in one write, on the socket of its family;
    and nothing panics, since what goes to the other family is dropped when
    there is no socket for it. *)
Theorem readBatch_delivers is4 hasOther msgs s s' outs :
  handleAll msgs s = Ok (s', outs) → Forall (λ '(from, _, _), Is4 (ap_Addr from) = is4) msgs →
  ∃ m writes, readBatch is4 hasOther msgs s = Ok (set_metrics m s', writes) ∧
    ∀ own dest buffs, (own, dest, buffs) ∈ writes ↔ buffs ≠ [] ∧ buffs = writes_to hasOther dest outs ∧ own = eqb (Is4 (ap_Addr dest)) is4.
Proof.
  intros Hall Hfam. destruct (batchStep_handleAll hasOther msgs s ∅ (0, 0) (0, 0) s' outs Hall) as (bd & f4 & f6 & Hf & Hbd).
  assert (∀ dest buffs, bd !! dest = Some buffs ↔ buffs ≠ [] ∧ buffs = writes_to hasOther dest outs) as Hmap.
  { intros dest buffs. rewrite Hbd, lookup_empty. destruct (writes_to hasOther dest outs); cbn; naive_solver. }
  assert (Forall (λ x, Is4 (ap_Addr x.1) = is4) outs) as Hfrom.
  { clear Hf Hbd Hmap. revert s Hall. revert outs. induction Hfam as [|[[from buf] [[now fresh] nonce]] msgs Hx _ IH]; intros outs s; cbn [handleAll]; [by intros [= <- <-]|].
    destruct (zlen buf =? 0); [by apply IH|]. intros ([[s1 out] d] & _ & Hr)%bind_Ok. apply bind_Ok in Hr as ([s2 outs'] & Ho & [= <- <-]). constructor; [done|by eapply IH]. }
  unfold readBatch. rewrite Hf. cbn [mbind res_bind]. rewrite batchWrites_Ok.
  - cbn [mbind res_bind]. eexists _, _. split; [done|]. intros own dest buffs. rewrite list_elem_of_fmap. split.
    + intros ([d b] & Heq & Hin). simplify_eq. apply elem_of_map_to_list in Hin. apply Hmap in Hin as [? ?]. done.
    + intros (Hne & Heq & ->). exists (dest, buffs). split; [done|]. by apply elem_of_map_to_list, Hmap.
  - intros dest buffs Hin%elem_of_map_to_list. apply Hmap in Hin as [Hne ->]. unfold writes_to in Hne.
    destruct (omap (sendable hasOther dest) outs) as [|w ws] eqn:Ho; [done|]. assert (w ∈ omap (sendable hasOther dest) outs) as Hw by (rewrite Ho; by left).
    apply list_elem_of_omap in Hw as ([from [write to]] & Hin & Hs). rewrite Forall_forall in Hfrom. specialize (Hfrom _ Hin). cbn in Hfrom. unfold sendable in Hs.
    destruct (_ && _) eqn:Hc; [|done]. apply andb_true_iff in Hc as [[->%bool_decide_eq_true _]%andb_true_iff [He|?]%orb_true_iff]; [left|by right].
    apply eqb_prop in He. congruence.
Qed.
End Reader.
